(* ===== verification/_CoqProject ===== *)
-Q . S2P
Prelude.v
Float32.v
BenchMetrics.v
BenchTensor.v
Wiggle.v
NnCtx.v
NnOnnx.v
NnHost.v
BenchMain.v
Slab.v
GcFreeList.v
IndexAllocator.v
ResourceTable.v
Wmemcheck.v
HostMain.v
VmOffsets.v
MetadataSections.v
GuestResources.v
MemoryTypes.v
Cow.v
CowInv.v
Mappings.v
LinearMemory.v
GcRef.v
Drc.v
GcStore.v
WasmTypes.v
TypeMatching.v
TypeRegistry.v
RegistryInv.v
RegistryOps.v
RegistryWorld.v
Tables.v
TableOps.v
TableWorld.v
ConstExpr.v
TableInit.v
LazyTables.v
LazyWorld.v
LazyInit.v
LazyRun.v
ConstTyping.v
MemoryInit.v
ImageBuild.v
MemoryRun.v
StaticInit.v
SimKernel.v
MemoryPool.v
PoolInv.v
PoolOps.v
PoolWorld.v
SlabLayout.v
PoolRun.v
ModuleImages.v
Rooting.v
RootHeap.v
RootOps.v
RootSpec.v
RootRel.v
RootStep.v
RootRun.v
