(* ===== verification/Prelude.v ===== *)
(** * A verified model of the Wasm ML benchmark and of the runtime parts it runs on

    The repository measures machine-learning inference in WebAssembly.  A guest
    program ([src/wasm-module/src/main.rs]) loads an ONNX model and a picture,
    turns the picture into a tensor, runs the model through the wasi-nn
    interface and reports the class with the times each step took.  A host
    program ([src/wasmtime-custom/src/main.rs]) compiles the guest (or loads the
    compiled form it cached), gives it two directories and wasi-nn, and calls
    its [main].  The runtime is the copy of wasmtime in [src/wasmtime-repo]; a
    guest call reaches it through wiggle (checked access to guest memory) and
    the wasi-nn crate (handle tables and the ONNX backend), and instances live
    in structures of the runtime proper: slots of the pooling allocator, the
    garbage collected heap, arenas, the context that compiled code reads.

    ** Files

    - [Prelude]: outcomes of Rust code, machine integers, shared tactics and
      lemmas (this file).
    - [Float32]: IEEE binary32, the [f32] of the guest.
    - [BenchMetrics]: [Metrics] and [BenchmarkTracker] of the guest.
    - [BenchTensor]: [image_to_tensor], [f32_vec_to_bytes] and [post_process] of
      the guest, over the classes [RgbaImage] and [NdArray].
    - [Wiggle]: [crates/wiggle/src], regions, pointers and slices of guest memory.
    - [NnCtx]: state of wasi-nn: handle tables, registry, conversions, and the
      class [BackendOps] of what a backend provides.
    - [NnOnnx]: [backend/onnxruntime.rs] over the class [OrtSession], the
      instance of [BackendOps] the benchmark uses.
    - [NnHost]: the host functions, in [Module Witx] with arguments in guest
      memory ([witx.rs]) and in [Module Wit] with arguments by value ([wit.rs]).
    - [BenchMain]: [main] of the guest, composed of the above.
    - [Slab]: [crates/slab/src/lib.rs].
    - [GcFreeList]: [vm/gc/enabled/free_list.rs] of [crates/wasmtime/src/runtime].
    - [IndexAllocator]: [vm/instance/allocator/pooling/index_allocator.rs].
    - [ResourceTable]: [component/resource_table.rs].
    - [Wmemcheck]: [crates/wmemcheck/src/lib.rs].
    - [HostMain]: [Ctx::new] and [main] of the host.
    - [VmOffsets]: [crates/environ/src/vmoffsets.rs].
    - [MetadataSections]: [trap_encoding.rs] and [address_map.rs] of
      [crates/environ/src] with their builders, over the class [ObjectCrate].
    - [GuestResources]: [vm/component/resources.rs], the handle tables of
      components with their borrow accounting.
    - [MemoryTypes]: memory types of [crates/types], styles and plans of
      [crates/environ/src/module.rs], and [limits.rs] as the class
      [ResourceLimiter] with the instance for [StoreLimits].
    - [Cow]: the slots of linear memory that are used by one instance after the
      other, [vm/cow.rs] over [vm/sys/unix/vm.rs], with the system calls as the class
      [Kernel] and their laws as [KernelLaws]; [CowInv] has what each method does to
      the pages of a slot, in a logic of weakest preconditions, and [SimKernel] a
      kernel that obeys the laws.  A call that the system refuses may have changed
      any pages of its range.
    - [Mappings]: [vm/mmap.rs], reserved ranges with the protection and the contents of
      their pages, as another instance of [Kernel]; a refused call may have changed some
      of its pages.
    - [LinearMemory]: [vm/memory.rs] over mappings: creation (with or without an image in
      a slot of [Cow]), growth by moving, in a slot or in place, atomic addresses, and the
      class [RuntimeLinearMemory] with the instance for [MmapMemory].
    - [GcRef]: [vm/gc/i31.rs] and [vm/gc/gc_ref.rs], references and headers.
    - [Drc]: [vm/gc/enabled/drc.rs], the deferred reference counting collector
      over the free list, and the class [GcHeap].
    - [GcStore]: [vm/gc.rs] and [vm/gc/host_data.rs], what a store does with its
      collector, as the steps of a program.
    - [WasmTypes]: [crates/types/src/lib.rs], types, the class [TypeTrace] of
      what refers to types with its instances, and the canonical forms.
    - [TypeMatching]: [types.rs] and [types/matching.rs] of
      [crates/wasmtime/src/runtime], subtyping and import matching.
    - [TypeRegistry]: [type_registry.rs], operations only; [RegistryInv] has its
      invariant and the removal of groups, [RegistryOps] their registration,
      [RegistryWorld] the handles of programs and the theorems.
    - [Tables]: [vm/table.rs], dynamic and static tables; [TableOps] has what each
      operation does to lists of slots, over the class [GcAccounting] of what the
      collector keeps, and [TableWorld] the instance for the collector of [Drc].
    - [ConstExpr]: [vm/const_expr.rs], raw values and globals of [vm/vmcontext.rs].
    - [TableInit]: the parts of [vm/instance.rs], [vm/instance/allocator.rs],
      [vm/libcalls.rs], [externals/table.rs] and of
      [crates/environ/src/compile/module_environ.rs] that fill tables, as the
      operations of programs over a store of instances.  [LazyTables] relates a table
      that is filled in lazily to one that is filled in eagerly, [LazyWorld] two
      stores of such tables, [LazyInit] the two ways to instantiate a module, and
      [LazyRun] the programs.
    - [ConstTyping]: what a constant expression of a type is and denotes, and that the
      evaluator of [ConstExpr] in the instances of [TableInit] computes it.
    - [MemoryInit]: data segments and images of memories, [MemoryInitialization] of
      [crates/environ/src/module.rs] with the class [InitMemory],
      [try_static_init] of [compile/module_environ.rs] and the data section of
      [compile/module_artifacts.rs].  [ImageBuild] has what an image contains.
    - [MemoryRun]: the memories of instances, their initialisation in
      [vm/instance/allocator.rs] and the bulk operations of [vm/instance.rs];
      [StaticInit] relates the two ways to initialise them.
    - [MemoryPool]: [pooling/memory_pool.rs], [pooling/decommit_queue.rs] and the parts
      of [pooling.rs] that allocate memories, in a monad over the address space, the
      index allocators of [IndexAllocator], the idle slots and the shared queue.
      [PoolInv] has the invariant of the pool, [PoolOps] and [PoolWorld] its operations,
      [SlabLayout] the layout of the slab and new pools, [PoolRun] the programs.
    - [ModuleImages]: [MemoryImage::new] and [ModuleMemoryImages] of [vm/cow.rs], which
      join the images of [MemoryInit] to the slots of [Cow].
    - [Rooting]: the handles by which the embedder holds GC references,
      [gc/enabled/rooting.rs], [externref.rs] and [anyref.rs] beside it and the part of
      [store.rs] they use, with the class [RootedGcRefImpl] of the kinds of handle.
      [RootHeap] has the class [GcClient] of what the heap promises to them and its
      instance for the collector of [Drc], [RootOps] what each operation does to the
      root set, [RootSpec] the specification, [RootRel] and [RootStep] the simulation,
      [RootRun] the programs.

    ** How code is represented

    A Rust function is a Rocq function of the same name into [outcome E A]: it
    returns [Ok], returns an [Err] of the error type [E], or is a [Panic].  A
    method that takes [&mut self] takes the state and returns the new one.  An
    integer of width [w] is a [Z]; the width is written at each operation:
    [checked w] is the checked operation of the source, [arith oc w] the plain
    one, which panics when overflow checks are on ([oc = true]) and wraps when
    they are off.  [debug_assert dbg] is checked only in debug builds.  The
    theorems quantify over both flags; the ones about a panic or a wrap say at
    which flag they hold.  Vectors are lists, maps are [gmap], or lists sorted
    by key where the order of a [BTreeMap] matters.

    Code outside the repository is a parameter: the crates [image] and [ndarray]
    ([RgbaImage], [NdArray]), [ort] ([OrtSession]), the guest side of wasi-nn and
    the clock ([guest_env] of [BenchMain]), the embedding API ([embedding] of
    [HostMain]), [object] ([ObjectCrate]), [memfd] ([Memfd]); so are the system calls
    on memory ([Kernel]).  A law of such a class states what the crate documents, and the
    witnesses of the theorems use concrete instances.

    Recursion is structural, on the lists and counts the code iterates over, so
    that no fuel can run out, with five exceptions, whose fuel is shown to be
    enough.  The binary search of [MetadataSections] has one more than the number
    of keys; a collection of [Drc] runs two increments; the loop of
    [unregister_entry] has one more than the number of groups, since every turn
    removes a group; registering a group registers at most one group for a
    trampoline inside ([register_singleton_rec_group]); and the loop of
    [purge_module] has one more than the number of slots, since every turn takes the
    affinity from a slot.  The numeric bounds in
    hypotheses (a size that fits its width, a capacity) are stated where they are
    used; the registry is used with at most 2^30 types and fewer than 2^64 references,
    and with a first capacity of the slab of at most 16, where the library
    reserves 4.  Programs over handles make at most 2^28 operations on a store: a
    generation of the root set and a place in it are 32-bit numbers, and the code
    compares generations for equality, so that they must not come round.

    ** What is proved

    - Inference: setting an input from guest memory, computing and fetching the
      output through the host functions writes to guest memory exactly the bytes
      the session computes, up to the size of the buffer ([witx_inference]); graph
      and execution handles keep naming their own objects and new ones are fresh, over every
      sequence of fewer than 2^32 - 1 calls ([handles_stable]); what a wrong handle or an
      unsupported encoding does ([guest_errors_abort]); the ONNX backend
      ([onnx_compute_get_output], [onnx_panics], [bytes_to_f32_vec_spec]).
    - The benchmark: what a run prints and which class it reports
      ([main_benchmark]), the layout and arithmetic of the tensor
      ([image_to_tensor_layout]), the class that is selected
      ([post_process_class]), the accounting of time
      ([phase_wall_clock], [print_all_metrics_shape], [tracker_never_panics]).
    - Guest memory: no argument makes an access panic, reads give the bytes of their range
      and writes change only it, and exactly the ranges that are inside the memory and
      aligned are accepted ([accesses_checked]); writes are read back
      ([write_read_roundtrip], [copy_to_vec_roundtrip]), overlap detection
      ([overlaps_spec]), and the one panic on guest input ([ptr_get_panics_iff]).
    - Allocators: the slab is a map ([slab_refines_map]), the slot allocator with
      its intrusive lists is the allocator on plain sets and queues
      ([index_allocator_refines], [alloc_exclusive]), live blocks of the heap are
      disjoint, for layouts of at least [MIN_BLOCK_SIZE], and first fit is first fit
      ([free_list_safe], [alloc_first_fit]).
    - Resources: handles form a forest and the table behaves as a map with
      lifetimes ([resource_tree], [resource_lifecycle]); the handles of
      components keep exact borrow and lend counts, so that no operation reaches
      its panics, as long as operations succeed or name no handle
      ([resource_accounting], [handle_lifecycle]).
    - Metadata: what the builders encode is found again by program counter
      ([trap_section_lookup], [address_section_lookup]).
    - The memory checker reports exactly what a description by live blocks and
      written bytes does, when no allocation is empty and the stack pointer stays below
      the first address after the stack ([memcheck_refines]).
    - The VM context: fields are disjoint, aligned and inside
      ([vmctx_layout]), accessors stay inside their element
      ([accessors_in_bounds]), sizes tile the context ([region_sizes_tile]),
      counts come from the module ([offsets_of_module]).
    - Linear memories: in every memory a guest can reach, on a system that may refuse any
      call and leave it half done, the bytes of the memory are accessible and the guard
      regions are not; as long as no change of protection was refused, exactly the bytes
      of the memory, rounded up to pages, are ([memory_isolation]); growth keeps the
      contents and obeys the limits ([memory_grow_correct]); creation gives the minimum
      size with the image of the module, or an error ([memory_creation]).
    - Garbage collection: references are read as they were built
      ([gc_ref_encoding]); over every program, an object that is held or in a frame
      keeps its host value and its count is that of its owners, where the counts that the
      code loses when a bump chunk is full are owners that never go
      away ([gc_refs_never_dangle]), nothing panics
      ([gc_store_never_panics]), a collection ends ([collect_terminates]) and frees
      what is not reachable ([gc_reclaims_unreachable]).
    - Rooting: over every program of an embedder, handles behave as names of objects
      that are never used again, a live handle gives the value of its object across
      collections, and nothing panics, except in two cases where the code does not do what
      its documentation says ([roots_refine_handles], and [served] for the cases); a handle that has ended
      does not come back with the handle that takes its place
      ([ended_handles_stay_ended]).
    - Types: subtyping of heap types is the closure of its edges
      ([heap_matches_closure]), an import that is accepted can be used at its
      declared type ([import_matching_sound]), a struct below another is read as it
      ([struct_supertype_reads]).
    - The registry of types: no operation panics and what a handle holds stays
      registered ([registry_keeps_types]), without handles nothing is left
      ([registry_drains]), indices are types ([registered_index_canonical]), and
      the constant-time test is subtyping, unless a module that refers to its own types was
      added after an index was given back ([subtype_test_correct]).
    - Tables: every operation does on tables what it does on lists, without a panic,
      and accounts for the references in them ([tables_refine_lists]); new tables
      have their size, or are refused ([table_creation]); a constant
      expression that has a type evaluates to what it denotes, a value of that type
      ([const_expr_sound]).
    - Lazy initialisation: programs cannot tell lazily from eagerly initialised
      tables ([lazy_tables_unobservable]), and never get a function reference that
      was not filled in ([lazy_pointers_ready]).
    - Images of memories: an instance starts with the same memories whether its data
      was turned into images at compile time or not, when memories are mapped up to the page
      size of images ([static_init_unobservable]).
    - The memory pool: over every program, every memory in a slot behaves as a memory
      of its own, whatever used the slot before, and a panic means that the system
      refused to drop or replace pages during the operation ([pool_refines_memories]);
      what compiled code can reach past the end of a memory that relies on protection
      faults or has another protection key, as long as no change of protection was refused
      ([pool_sandbox]), by the layout of the slab ([slab_layout_reach]); slots are not
      lost ([pool_loses_no_slot]); and a memory for an instance of a compiled module
      starts as [static_init_unobservable] assumes ([pooled_memory_prepared]).
    - The host caches the compiled guest, for a guest that keeps to its directories
      ([second_run_uses_cache]).

    Some theorems record behaviour a reader may not expect, with the inputs that
    show it: [stale_cache], [small_layouts_overlap], [permanent_fragmentation],
    [drain_forgets_identifiers], [delete_wrong_type_removes],
    [memcheck_misreports], [alignment_wraps], [failed_drop_removes],
    [forced_static_panics], [atomic_addr_refuses_last], [full_chunk_leaks],
    [recycled_heap_panics], [reserved_bits_accumulate], [struct_supertype_writes],
    [stale_group_reference], [unregister_race], [table_set_leaks],
    [padded_image_overruns], [purge_takes_slot_in_use],
    [scope_without_heap_keeps_roots], [null_option_load_asserts].

    ** What is not modelled

    The compilers (cranelift, winch), the translation of modules, traps and
    signals, the embedding API, the WASI interfaces to
    files, sockets and clocks, the procedural macros, the other wasi-nn
    backends, command line, C API, fuzzing and tests: they are code generation,
    operating system level code or not part of the benchmark.  CPU time and
    memory figures of [Metrics] come from the system; the guest reports a
    constant for them and so does the model.  Aliased mutable references
    ([iter_mut], [iter_entries]) are left out.  Of tables, the base address that
    compiled code reads, the accesses that it makes without a call and the
    conversion of values of the embedder are left out.  Operations of the memory pool
    are atomic steps: its mutexes and threads that interleave inside an operation are
    left out, and so are the protection keys of pages (a stripe is the number of its
    key; that [MemoryPool::new] marks the pages with it is not modelled), the tables and
    stacks that the decommit queue also holds, the pools of tables, stacks and GC heaps,
    and systems other than Unix.  The
    memories of the pool are purged with one stripe only; with more,
    [purge_takes_slot_in_use] shows what goes wrong.  Of rooting, the asynchronous
    collections, hashes of handles and the search of frames for roots are left out: the
    words that frames hold are part of the state of a program in [RootSpec].

    What could come next are stack maps, the other pools and the entity containers of
    cranelift ([cranelift/entity]). *)

From Stdlib Require Import ZArith Lia.
From stdpp Require Import base list gmap numbers option strings.

#[global] Set Default Goal Selector "!".

(** ** Outcomes of Rust code

    A Rust call ends in one of three ways: it returns a value, it returns an
    [Err], or it panics.  Functions that have no [Result] type are polymorphic
    in the error type. *)

Inductive outcome (E A : Type) : Type :=
| Ok (a : A)
| Err (e : E)
| Panic.
Arguments Ok {E A} a.
Arguments Err {E A} e.
Arguments Panic {E A}.

#[global] Instance outcome_ret {E} : MRet (outcome E) := fun A a => Ok a.
#[global] Instance outcome_bind {E} : MBind (outcome E) := fun A B f m =>
  match m with
  | Ok a => f a
  | Err e => Err e
  | Panic => Panic
  end.
#[global] Instance outcome_fmap {E} : FMap (outcome E) := fun A B f m =>
  match m with
  | Ok a => Ok (f a)
  | Err e => Err e
  | Panic => Panic
  end.

Definition is_Ok {E A} (m : outcome E A) : Prop := exists a, m = Ok a.

Definition okb {E A} (m : outcome E A) : bool :=
  match m with Ok _ => true | _ => false end.
Definition ok {E A} (m : outcome E A) : option A :=
  match m with Ok a => Some a | _ => None end.

(** [Option::unwrap] and [expect]. *)
Definition unwrap {E A} (o : option A) : outcome E A :=
  match o with Some a => Ok a | None => Panic end.

(** [Option::ok_or]. *)
Definition ok_or {E A} (e : E) (o : option A) : outcome E A :=
  match o with Some a => Ok a | None => Err e end.

(** [Result::unwrap]: an [Err] becomes a panic. *)
Definition unwrap_result {E E' A} (m : outcome E A) : outcome E' A :=
  match m with Ok a => Ok a | Err _ | Panic => Panic end.

(** [Result::map_err] and the [From] conversion of [?]. *)
Definition map_err {E E' A} (f : E -> E') (m : outcome E A) : outcome E' A :=
  match m with Ok a => Ok a | Err e => Err (f e) | Panic => Panic end.

(** [assert!] and [debug_assert!]; [dbg] says whether the build has debug
    assertions. *)
Definition assert_ {E} (b : bool) : outcome E unit := if b then Ok () else Panic.
Definition debug_assert {E} (dbg b : bool) : outcome E unit :=
  if dbg then assert_ b else Ok ().

(** ** Stateful code *)

(** Code that changes a state and can fail: what was done before an error or a panic stays done. *)
Definition io (St E X : Type) : Type := St -> St * outcome E X.

#[export] Instance io_ret {St E} : MRet (io St E) := fun X x st => (st, Ok x).
#[export] Instance io_bind {St E} : MBind (io St E) := fun X Y f m st =>
  match m st with
  | (st, Ok x) => f x st
  | (st, Err e) => (st, Err e)
  | (st, Panic) => (st, Panic)
  end.

Definition lift {St E X} (m : outcome E X) : io St E X := fun st => (st, m).

(** ** Machine integers *)

Open Scope Z_scope.

Definition two (w : Z) : Z := 2 ^ w.
Definition in_u (w z : Z) : Prop := 0 <= z < 2 ^ w.
Definition in_ub (w z : Z) : bool := (0 <=? z) && (z <? 2 ^ w).
Definition u32_max : Z := 2 ^ 32 - 1.
Definition u64_max : Z := 2 ^ 64 - 1.

(** An arithmetic operation on a [w]-bit unsigned type whose exact result is
    [z]: with overflow checks (debug profile) an out-of-range result panics,
    without them it wraps around. *)
Definition arith {E} (oc : bool) (w z : Z) : outcome E Z :=
  if in_ub w z then Ok z else if oc then Panic else Ok (z mod 2 ^ w).

(** [checked_*]: [None] when out of range. *)
Definition checked (w z : Z) : option Z := if in_ub w z then Some z else None.

(** [saturating_sub] on an unsigned type. *)
Definition saturating_sub (a b : Z) : Z := Z.max 0 (a - b).

(** ** Lemmas on outcomes *)

Lemma bind_Ok_inv {E A B} (m : outcome E A) (f : A -> outcome E B) b :
  m ≫= f = Ok b <-> exists a, m = Ok a /\ f a = Ok b.
Proof. destruct m; cbn; split; naive_solver. Qed.

Lemma bind_Err_inv {E A B} (m : outcome E A) (f : A -> outcome E B) e :
  m ≫= f = Err e <-> m = Err e \/ exists a, m = Ok a /\ f a = Err e.
Proof. destruct m; cbn; split; naive_solver. Qed.

Lemma bind_is_Ok {E A B} (m : outcome E A) (f : A -> outcome E B) :
  is_Ok (m ≫= f) <-> exists a, m = Ok a /\ is_Ok (f a).
Proof. unfold is_Ok. destruct m; cbn; naive_solver. Qed.

Lemma Ok_is_Ok {E A} (a : A) : is_Ok (E:=E) (Ok a).
Proof. by exists a. Qed.

Lemma in_ub_spec w z : in_ub w z = true <-> in_u w z.
Proof. unfold in_ub, in_u. rewrite andb_true_iff, Z.leb_le, Z.ltb_lt. lia. Qed.

Lemma in_ub_true w z : in_u w z -> in_ub w z = true.
Proof. apply in_ub_spec. Qed.

Lemma arith_ok {E} oc w z : in_u w z -> arith (E:=E) oc w z = Ok z.
Proof. intros H. unfold arith. by rewrite in_ub_true. Qed.

Lemma checked_Some w z y : checked w z = Some y <-> in_u w z /\ y = z.
Proof.
  unfold checked. destruct (in_ub w z) eqn:E.
  - apply in_ub_spec in E. naive_solver.
  - split; [done|]. intros [H%in_ub_true ->]. congruence.
Qed.

Lemma checked_None w z : checked w z = None <-> ~ in_u w z.
Proof.
  unfold checked. destruct (in_ub w z) eqn:E.
  - apply in_ub_spec in E. naive_solver.
  - rewrite <- in_ub_spec. naive_solver congruence.
Qed.

Lemma unwrap_Ok {E A} (o : option A) a : unwrap (E:=E) o = Ok a <-> o = Some a.
Proof. destruct o; cbn; naive_solver. Qed.

Lemma assert_Ok {E} b u : assert_ (E:=E) b = Ok u <-> b = true.
Proof. destruct b, u; cbn; naive_solver. Qed.

Lemma debug_assert_true {E} dbg b : b = true -> debug_assert (E:=E) dbg b = Ok ().
Proof. intros ->. by destruct dbg. Qed.

Lemma debug_assert_when {E} dbg b : (dbg = true -> b = true) -> debug_assert (E:=E) dbg b = Ok ().
Proof. intros H. destruct dbg; [|done]. by rewrite H. Qed.

(** ** Automation

    [outcome_inv] opens every hypothesis that says a composed call returned
    [Ok] into what its parts returned; [split_guard] splits on the scrutinee of
    the first [if] or [match] it finds. *)

Ltac outcome_step :=
  match goal with
  | H : _ ≫= _ = Ok _ |- _ =>
      apply bind_Ok_inv in H; destruct H as (? & ? & H)
  | H : unwrap _ = Ok _ |- _ => apply unwrap_Ok in H
  | H : assert_ _ = Ok _ |- _ => apply assert_Ok in H
  | H : checked _ _ = Some _ |- _ => apply checked_Some in H; destruct H as [? ->]
  | H : mret _ = Ok _ |- _ => injection H as ?
  | H : Ok _ = Ok _ |- _ => injection H as ?
  | H : Err _ = Ok _ |- _ => discriminate H
  | H : Panic = Ok _ |- _ => discriminate H
  end.

Ltac outcome_inv := repeat (outcome_step; subst; cbn beta iota zeta in * ).

Ltac split_guard :=
  match goal with
  | |- context [if ?b then _ else _] => let H := fresh "Hg" in destruct b eqn:H
  | |- context [match ?x with _ => _ end] => let H := fresh "Hm" in destruct x eqn:H
  end.

Ltac split_guard_in H :=
  match type of H with
  | context [if ?b then _ else _] => let G := fresh "Hg" in destruct b eqn:G
  | context [match ?x with _ => _ end] => let G := fresh "Hm" in destruct x eqn:G
  end.

(** Boolean comparisons of the code as propositions. *)
Ltac zbool :=
  repeat match goal with
  | H : (_ && _) = true |- _ => apply andb_true_iff in H; destruct H
  | H : (_ && _) = false |- _ => apply andb_false_iff in H
  | H : (_ || _) = true |- _ => apply orb_true_iff in H
  | H : (_ || _) = false |- _ => apply orb_false_iff in H; destruct H
  | H : negb _ = true |- _ => apply negb_true_iff in H
  | H : negb _ = false |- _ => apply negb_false_iff in H
  | H : (_ <=? _) = true |- _ => apply Z.leb_le in H
  | H : (_ <=? _) = false |- _ => apply Z.leb_gt in H
  | H : (_ <? _) = true |- _ => apply Z.ltb_lt in H
  | H : (_ <? _) = false |- _ => apply Z.ltb_ge in H
  | H : (_ =? _) = true |- _ => apply Z.eqb_eq in H
  | H : (_ =? _) = false |- _ => apply Z.eqb_neq in H
  end.

Create HintDb outcome discriminated.
#[export] Hint Resolve Ok_is_Ok in_ub_true : outcome.

(** ** Lists built from blocks of one length *)

Section Blocks.
  Context {A B : Type} (f : A -> list B) (k : nat).
  Hypothesis Hk : forall x, length (f x) = k.

Lemma length_bind_const l : length (l ≫= f) = (length l * k)%nat.
Proof using Hk. induction l as [|x l IH]; cbn; [done|]. rewrite length_app, Hk, IH. lia. Qed.

Lemma drop_bind_const l n : drop (n * k) (l ≫= f) = drop n l ≫= f.
Proof using Hk.
  revert n. induction l as [|x l IH]; intros n; cbn.
  - by rewrite !drop_nil.
  - destruct n as [|n]; cbn; [done|]. rewrite <- IH, drop_app_ge by (rewrite Hk; lia).
    rewrite Hk. f_equal. lia.
Qed.

Lemma take_drop_bind_const l n x :
  l !! n = Some x -> take k (drop (n * k) (l ≫= f)) = f x.
Proof using Hk.
  intros Hx. rewrite drop_bind_const, (drop_S _ _ _ Hx). cbn.
  rewrite take_app_le, take_ge by (rewrite Hk; lia). done.
Qed.

Lemma lookup_bind_const l n r x :
  l !! n = Some x -> (r < k)%nat -> (l ≫= f) !! (n * k + r)%nat = f x !! r.
Proof using Hk.
  intros Hx Hr. rewrite <- (take_drop_bind_const l n x Hx).
  rewrite lookup_take_lt, lookup_drop by done. done.
Qed.
End Blocks.
