(* ===== verification/Float32.v ===== *)
(** * 32-bit floats

    The [f32] of Rust: IEEE 754 binary32, as the executable specification
    floats of the Standard Library at precision 24 and maximal exponent 128.
    Arithmetic rounds to nearest, ties to even.  Only the payload of a NaN is
    not represented: [f32_to_bits] yields the canonical quiet NaN.  Code that
    moves floats without computing on them is modelled on the bit patterns. *)

From Stdlib Require Import ZArith Lia SpecFloat.
From stdpp Require Import base list numbers.
From S2P Require Import Prelude.
Open Scope Z_scope.

Notation f32 := spec_float.

Definition f32_prec : Z := 24.
Definition f32_emax : Z := 128.

Definition f32_of_Z (z : Z) : f32 := binary_normalize f32_prec f32_emax z 0 false.
Definition f32_add : f32 -> f32 -> f32 := SFadd f32_prec f32_emax.
Definition f32_sub : f32 -> f32 -> f32 := SFsub f32_prec f32_emax.
Definition f32_mul : f32 -> f32 -> f32 := SFmul f32_prec f32_emax.
Definition f32_div : f32 -> f32 -> f32 := SFdiv f32_prec f32_emax.
Definition f32_partial_cmp : f32 -> f32 -> option comparison := SFcompare.
Definition f32_gt (x y : f32) : bool :=
  match f32_partial_cmp x y with Some Gt => true | _ => false end.
Definition f32_zero : f32 := S754_zero false.

(** A decimal literal [n / d] with both parts exactly representable: the
    division rounds once, as the literal does. *)
Definition f32_lit (n d : Z) : f32 := f32_div (f32_of_Z n) (f32_of_Z d).

Definition f32_valid (x : f32) : bool := valid_binary f32_prec f32_emax x.

(** ** Bit patterns: [f32::to_bits] and [f32::from_bits] *)

Definition sign_bit (s : bool) : Z := if s then 2 ^ 31 else 0.

Definition f32_to_bits (x : f32) : Z :=
  match x with
  | S754_zero s => sign_bit s
  | S754_infinity s => sign_bit s + 255 * 2 ^ 23
  | S754_nan => 255 * 2 ^ 23 + 2 ^ 22
  | S754_finite s m e =>
      if Zpos m <? 2 ^ 23 then sign_bit s + Zpos m
      else sign_bit s + (e + 150) * 2 ^ 23 + (Zpos m - 2 ^ 23)
  end.

Definition f32_from_bits (b : Z) : f32 :=
  let s := 2 ^ 31 <=? b in
  let r := b mod 2 ^ 31 in
  let ex := r / 2 ^ 23 in
  let mant := r mod 2 ^ 23 in
  if ex =? 255 then (if mant =? 0 then S754_infinity s else S754_nan)
  else if ex =? 0 then
    match mant with Zpos m => S754_finite s m (-149) | _ => S754_zero s end
  else match mant + 2 ^ 23 with Zpos m => S754_finite s m (ex - 150) | _ => S754_nan end.

(** ** Little-endian bytes *)

Fixpoint le_bytes (n : nat) (z : Z) : list Z :=
  match n with
  | O => []
  | S n => z mod 256 :: le_bytes n (z / 256)
  end.

Fixpoint le_value (bs : list Z) : Z :=
  match bs with
  | [] => 0
  | b :: bs => b + 256 * le_value bs
  end.

Definition is_byte (b : Z) : Prop := 0 <= b < 256.

Lemma length_le_bytes n z : length (le_bytes n z) = n.
Proof. revert z. induction n; intros z; cbn; [done|]. by rewrite IHn. Qed.

Lemma le_bytes_byte n z : Forall is_byte (le_bytes n z).
Proof.
  revert z. induction n; intros z; cbn; constructor; [|done].
  unfold is_byte. pose proof (Z.mod_pos_bound z 256). lia.
Qed.

Lemma le_value_bytes n z : le_value (le_bytes n z) = z mod 256 ^ Z.of_nat n.
Proof.
  revert z. induction n; intros z; cbn [le_bytes le_value].
  - by rewrite Z.mod_1_r.
  - rewrite IHn, Nat2Z.inj_succ, Z.pow_succ_r by lia.
    rewrite Z.rem_mul_r by (try apply Z.pow_nonzero; try lia; apply Z.pow_pos_nonneg; lia).
    lia.
Qed.

Lemma le_value_bytes4 z : in_u 32 z -> le_value (le_bytes 4 z) = z.
Proof. intros H. rewrite le_value_bytes. apply Z.mod_small. unfold in_u in H. cbn. lia. Qed.

Lemma le_bytes_value bs :
  Forall is_byte bs -> le_bytes (length bs) (le_value bs) = bs.
Proof.
  induction 1 as [|b bs Hb _ IH]; cbn [length le_bytes le_value]; [done|].
  unfold is_byte in Hb. f_equal.
  - rewrite Z.mul_comm, Z.mod_add, Z.mod_small by lia. done.
  - rewrite Z.mul_comm, Z.div_add, Z.div_small, Z.add_0_l by lia. done.
Qed.

(** ** Round trip *)

Lemma digits2_pos_bound m : 2 ^ (Zpos (digits2_pos m) - 1) <= Zpos m < 2 ^ Zpos (digits2_pos m).
Proof.
  induction m as [m IH|m IH|]; cbn [digits2_pos]; [| |cbn; lia];
    rewrite Pos2Z.inj_succ;
    replace (Z.succ (Zpos (digits2_pos m)) - 1) with (Zpos (digits2_pos m)) by lia;
    rewrite Z.pow_succ_r by lia;
    replace (2 ^ Zpos (digits2_pos m)) with (2 * 2 ^ (Zpos (digits2_pos m) - 1)) in *
      by (rewrite <- Z.pow_succ_r by lia; f_equal; lia); lia.
Qed.

(** The shape of a valid finite float: subnormal, or normal with a 24-bit
    mantissa. *)
Lemma f32_valid_finite s m e :
  f32_valid (S754_finite s m e) = true ->
  (Zpos m < 2 ^ 23 /\ e = -149) \/
  (2 ^ 23 <= Zpos m < 2 ^ 24 /\ -149 <= e <= 104).
Proof.
  unfold f32_valid, valid_binary, bounded, canonical_mantissa, fexp, emin, f32_prec, f32_emax.
  intros H. zbool. pose proof (digits2_pos_bound m) as [Hl Hu].
  set (d := Zpos (digits2_pos m)) in *. assert (1 <= d) by (subst d; lia).
  destruct (decide (d <= 23)).
  - left. assert (2 ^ d <= 2 ^ 23) by (apply Z.pow_le_mono_r; lia). lia.
  - right. assert (d = 24) as -> by lia. cbn in Hl. lia.
Qed.

Lemma sign_bit_cases s r :
  0 <= r < 2 ^ 31 ->
  (2 ^ 31 <=? sign_bit s + r) = s /\ (sign_bit s + r) mod 2 ^ 31 = r.
Proof.
  intros Hr. destruct s; unfold sign_bit.
  - split; [apply Z.leb_le; lia|]. rewrite <- (Z.mod_add _ (-1)) by lia.
    replace (2 ^ 31 + r + -1 * 2 ^ 31) with r by lia. by apply Z.mod_small.
  - rewrite Z.add_0_l. split; [apply Z.leb_gt; lia|]. by apply Z.mod_small.
Qed.

Lemma f32_from_to_bits x : f32_valid x = true -> f32_from_bits (f32_to_bits x) = x.
Proof.
  intros Hv. destruct x as [s|s| |s m e]; try (destruct s; reflexivity); [reflexivity|].
  apply f32_valid_finite in Hv as [[Hm ->]|[Hm He]]; unfold f32_to_bits, f32_from_bits.
  - rewrite (proj2 (Z.ltb_lt _ _)) by lia.
    destruct (sign_bit_cases s (Zpos m)) as [-> ->]; [lia|].
    rewrite Z.div_small, (Z.mod_small (Zpos m)) by lia. reflexivity.
  - rewrite (proj2 (Z.ltb_ge _ _)) by lia. rewrite <- Z.add_assoc.
    destruct (sign_bit_cases s ((e + 150) * 2 ^ 23 + (Zpos m - 2 ^ 23))) as [-> ->]; [nia|].
    rewrite (Z.add_comm ((e + 150) * _)), Z.div_add, Z.mod_add, Z.div_small, Z.mod_small by lia.
    rewrite Z.add_0_l, (proj2 (Z.eqb_neq _ _)), (proj2 (Z.eqb_neq _ _)) by lia.
    replace (Zpos m - 2 ^ 23 + 2 ^ 23) with (Zpos m) by lia.
    by replace (e + 150 - 150) with e by lia.
Qed.

Lemma f32_to_bits_range x : f32_valid x = true -> in_u 32 (f32_to_bits x).
Proof.
  intros Hv. unfold in_u. destruct x as [s|s| |s m e]; try (destruct s; cbn; lia); [cbn; lia|].
  apply f32_valid_finite in Hv as [[Hm ->]|[Hm He]]; unfold f32_to_bits, sign_bit.
  - rewrite (proj2 (Z.ltb_lt _ _)) by lia. destruct s; lia.
  - rewrite (proj2 (Z.ltb_ge _ _)) by lia. destruct s; nia.
Qed.

(** [f32::to_le_bytes] and [f32::from_le_bytes]. *)
Definition f32_to_le_bytes (x : f32) : list Z := le_bytes 4 (f32_to_bits x).
Definition f32_from_le_bytes (bs : list Z) : f32 := f32_from_bits (le_value bs).

Lemma f32_le_bytes_roundtrip x :
  f32_valid x = true -> f32_from_le_bytes (f32_to_le_bytes x) = x.
Proof.
  intros Hv. unfold f32_from_le_bytes, f32_to_le_bytes.
  rewrite le_value_bytes4 by (by apply f32_to_bits_range). by apply f32_from_to_bits.
Qed.
