(* ===== verification/BenchMetrics.v ===== *)
(** * Benchmark metrics and tracker

    [src/wasm-module/src/main.rs], the instrumentation half of the Wasm guest:
    the [Metrics] record with [current], [diff] and [combine], and the
    [BenchmarkTracker] state machine with its operations and phases.  Time is an
    input: every operation that calls [Instant::now()] takes the instant it
    reads.  What is printed is a list of items. *)

From Stdlib Require Import ZArith Lia SpecFloat.
From stdpp Require Import base list gmap strings numbers.
From S2P Require Import Prelude Float32.
Open Scope Z_scope.

(** ** [std::time] *)

(** A [Duration] is its number of nanoseconds. *)
Definition NANOS_PER_SEC : Z := 1000000000.
Definition Duration_MAX : Z := 2 ^ 64 * NANOS_PER_SEC - 1.
Definition from_secs (s : Z) : Z := s * NANOS_PER_SEC.
Definition from_micros (us : Z) : Z := us * 1000.
Definition duration_add {E} (a b : Z) : outcome E Z :=
  if a + b <=? Duration_MAX then Ok (a + b) else Panic.
Definition duration_sub {E} (a b : Z) : outcome E Z :=
  if b <=? a then Ok (a - b) else Panic.
Definition as_secs_f32 (d : Z) : f32 :=
  f32_add (f32_of_Z (d / NANOS_PER_SEC))
          (f32_div (f32_of_Z (d mod NANOS_PER_SEC)) (f32_of_Z NANOS_PER_SEC)).
(** [Instant::duration_since] saturates to zero. *)
Definition duration_since (now earlier : Z) : Z := saturating_sub now earlier.

Record Metrics := {
  name : string;
  timestamp : Z;
  wall_clock_time : Z;
  user_time : Z;
  system_time : Z;
  max_rss : Z;
  cpu_usage : f32;
}.

(** The [rusage] fields [current] writes by hand: [getrusage] is commented out. *)
Definition ru_tv_sec : Z := 1.
Definition ru_tv_usec : Z := 0.

Definition current {E} (now : Z) (nm : string) : outcome E Metrics :=
  ut ← duration_add (from_secs ru_tv_sec) (from_micros ru_tv_usec);
  st ← duration_add (from_secs ru_tv_sec) (from_micros ru_tv_usec);
  Ok {| name := nm; timestamp := now; wall_clock_time := 0; user_time := ut;
        system_time := st; max_rss := 0; cpu_usage := f32_zero |}.

(** The CPU usage formula shared by [diff] and [combine]. *)
Definition usage {E} (wall user system : Z) : outcome E f32 :=
  if f32_gt (as_secs_f32 wall) f32_zero then
    cpu ← duration_add user system;
    Ok (f32_mul (f32_div (as_secs_f32 cpu) (as_secs_f32 wall)) (f32_of_Z 100))
  else Ok f32_zero.

Definition diff {E} (oc : bool) (self prev : Metrics) : outcome E Metrics :=
  let wall := duration_since (timestamp self) (timestamp prev) in
  ut ← duration_sub (user_time self) (user_time prev);
  st ← duration_sub (system_time self) (system_time prev);
  cpu ← usage wall ut st;
  rss ← arith oc 64 (max_rss self - max_rss prev);
  Ok {| name := name self; timestamp := timestamp self; wall_clock_time := wall;
        user_time := ut; system_time := st; max_rss := rss; cpu_usage := cpu |}.

Definition combine {E} (self other : Metrics) : outcome E Metrics :=
  wall ← duration_add (wall_clock_time self) (wall_clock_time other);
  ut ← duration_add (user_time self) (user_time other);
  st ← duration_add (system_time self) (system_time other);
  cpu ← usage wall ut st;
  Ok {| name := name self; timestamp := timestamp self; wall_clock_time := wall;
        user_time := ut; system_time := st;
        max_rss := Z.max (max_rss self) (max_rss other); cpu_usage := cpu |}.

(** ** [BenchmarkTracker] *)

Record BenchmarkTracker := {
  start_metrics : Metrics;
  current_operation : option Metrics;
  completed_metrics : list Metrics;
  active_phases : gmap string Metrics;
  phase_metrics : list (string * Metrics);
  phase_order : list string;
}.

Definition tracker_new {E} (now : Z) : outcome E BenchmarkTracker :=
  m ← current now "Total";
  Ok {| start_metrics := m; current_operation := None; completed_metrics := [];
        active_phases := ∅; phase_metrics := []; phase_order := [] |}.

Definition start_operation {E} (now : Z) (nm : string) (t : BenchmarkTracker)
  : outcome E BenchmarkTracker :=
  m ← current now nm;
  Ok {| start_metrics := start_metrics t; current_operation := Some m;
        completed_metrics := completed_metrics t; active_phases := active_phases t;
        phase_metrics := phase_metrics t; phase_order := phase_order t |}.

(** A loop over [iter_mut] that replaces every value by what a call returns;
    the keys do not interact, and one panic is a panic of the loop. *)
Definition map_all {E V} (f : V -> outcome E V) (m : gmap string V)
  : outcome E (gmap string V) :=
  if decide (map_Forall (fun _ v => okb (f v) = true) m)
  then Ok (omap (fun v => ok (f v)) m)
  else Panic.

Definition finish_operation_internal {E} (oc : bool) (now : Z) (start : Metrics)
    (t : BenchmarkTracker) : outcome E BenchmarkTracker :=
  end_metrics ← current now (name start);
  diff_metrics ← diff oc end_metrics start;
  phases ← map_all (fun m => combine m diff_metrics) (active_phases t);
  Ok {| start_metrics := start_metrics t; current_operation := current_operation t;
        completed_metrics := completed_metrics t ++ [diff_metrics];
        active_phases := phases; phase_metrics := phase_metrics t;
        phase_order := phase_order t |}.

Definition finish_operation {E} (oc : bool) (now : Z) (t : BenchmarkTracker)
  : outcome E BenchmarkTracker :=
  match current_operation t with
  | Some start =>
      finish_operation_internal oc now start
        {| start_metrics := start_metrics t; current_operation := None;
           completed_metrics := completed_metrics t; active_phases := active_phases t;
           phase_metrics := phase_metrics t; phase_order := phase_order t |}
  | None => Ok t
  end.

Definition start_phase (now : Z) (p : string) (t : BenchmarkTracker) : BenchmarkTracker :=
  let zero_metrics :=
    {| name := p; timestamp := now; wall_clock_time := 0; user_time := 0;
       system_time := 0; max_rss := 0; cpu_usage := f32_zero |} in
  {| start_metrics := start_metrics t; current_operation := current_operation t;
     completed_metrics := completed_metrics t;
     active_phases := <[p := zero_metrics]> (active_phases t);
     phase_metrics := phase_metrics t;
     phase_order := if decide (p ∈ phase_order t) then phase_order t
                    else phase_order t ++ [p] |}.

Definition end_phase (p : string) (t : BenchmarkTracker) : BenchmarkTracker :=
  match active_phases t !! p with
  | Some m =>
      {| start_metrics := start_metrics t; current_operation := current_operation t;
         completed_metrics := completed_metrics t;
         active_phases := delete p (active_phases t);
         phase_metrics := phase_metrics t ++ [(p, m)]; phase_order := phase_order t |}
  | None => t
  end.

Definition get_total_metrics {E} (oc : bool) (now : Z) (t : BenchmarkTracker)
  : outcome E Metrics :=
  cur ← current now "Total";
  diff oc cur (start_metrics t).

(** What [print_all_metrics] writes: a [Metrics] through its [Display], or a
    line given to [println!]. *)
Inductive printed :=
| PMetrics (m : Metrics)
| PLine (s : string).

Definition newline : Ascii.ascii := Ascii.ascii_of_nat 10.

(** [collect] into a [HashMap]: the last pair with a key wins. *)
Definition group_map (l : list (string * Metrics)) : gmap string Metrics :=
  foldl (fun m '(k, v) => <[k := v]> m) ∅ l.

Definition print_all_metrics {E} (oc : bool) (now : Z) (t : BenchmarkTracker)
  : outcome E (list printed) :=
  total ← get_total_metrics oc now t;
  let phases :=
    match phase_metrics t with
    | [] => []
    | _ =>
        let groups := group_map (phase_metrics t) in
        [PLine (String newline "=========== Phase Metrics ===========")]
        ++ omap (fun p => PMetrics <$> groups !! p) (phase_order t)
        ++ [PLine ("====================================" +:+ String newline EmptyString)]
    end in
  Ok (map PMetrics (completed_metrics t) ++ phases ++ [PMetrics total]).

(** ** Sequences of tracker calls *)

Inductive call :=
| StartOp (nm : string)
| FinishOp
| StartPhase (p : string)
| EndPhase (p : string).

Definition do_call {E} (oc : bool) (now : Z) (c : call) (t : BenchmarkTracker)
  : outcome E BenchmarkTracker :=
  match c with
  | StartOp nm => start_operation now nm t
  | FinishOp => finish_operation oc now t
  | StartPhase p => Ok (start_phase now p t)
  | EndPhase p => Ok (end_phase p t)
  end.

Fixpoint run {E} (oc : bool) (cs : list (Z * call)) (t : BenchmarkTracker)
  : outcome E BenchmarkTracker :=
  match cs with
  | [] => Ok t
  | (now, c) :: cs => t' ← do_call oc now c t; run oc cs t'
  end.

(** ** Metrics never panic and report no CPU time

    [current] writes the same constants each time, so every difference of user
    and system time is zero. *)

Lemma duration_add_ok {E} a b : a + b <= Duration_MAX -> duration_add (E:=E) a b = Ok (a + b).
Proof. intros H. unfold duration_add. by rewrite (proj2 (Z.leb_le _ _)). Qed.

Lemma current_ok {E} now nm :
  current (E:=E) now nm =
  Ok {| name := nm; timestamp := now; wall_clock_time := 0; user_time := NANOS_PER_SEC;
        system_time := NANOS_PER_SEC; max_rss := 0; cpu_usage := f32_zero |}.
Proof. reflexivity. Qed.

Lemma f32_gt_zero_sign x :
  f32_gt x f32_zero = true ->
  x = S754_infinity false \/ exists m e, x = S754_finite false m e.
Proof. destruct x as [|[]| |[]]; cbn; try done; eauto. Qed.

Lemma usage_zero {E} wall : usage (E:=E) wall 0 0 = Ok f32_zero.
Proof.
  unfold usage. destruct (f32_gt _ _) eqn:Hg; [|done].
  apply f32_gt_zero_sign in Hg. change (duration_add 0 0) with (Ok (E:=E) 0). cbn [mbind outcome_bind].
  change (as_secs_f32 0) with f32_zero.
  by destruct Hg as [->|(m & e & ->)].
Qed.

(** The parts of a record that carry no measurement: what every difference
    has. *)
Definition no_cpu (m : Metrics) : Prop :=
  user_time m = 0 /\ system_time m = 0 /\ max_rss m = 0 /\ cpu_usage m = f32_zero.

(** What [current] writes. *)
Definition constant_rusage (m : Metrics) : Prop :=
  user_time m = NANOS_PER_SEC /\ system_time m = NANOS_PER_SEC /\ max_rss m = 0.

Lemma diff_ok {E} oc m prev :
  constant_rusage m -> constant_rusage prev ->
  diff (E:=E) oc m prev =
  Ok {| name := name m; timestamp := timestamp m;
        wall_clock_time := duration_since (timestamp m) (timestamp prev);
        user_time := 0; system_time := 0; max_rss := 0; cpu_usage := f32_zero |}.
Proof.
  intros (Hu & Hs & Hr) (Hu' & Hs' & Hr'). unfold diff. rewrite Hu, Hs, Hr, Hu', Hs', Hr'.
  change (duration_sub NANOS_PER_SEC NANOS_PER_SEC) with (Ok (E:=E) 0).
  cbn [mbind outcome_bind]. by rewrite usage_zero.
Qed.

Lemma combine_ok {E} m d :
  no_cpu m -> no_cpu d -> wall_clock_time m + wall_clock_time d <= Duration_MAX ->
  combine (E:=E) m d =
  Ok {| name := name m; timestamp := timestamp m;
        wall_clock_time := wall_clock_time m + wall_clock_time d;
        user_time := 0; system_time := 0; max_rss := 0; cpu_usage := f32_zero |}.
Proof.
  intros (Hu & Hs & Hr & _) (Hu' & Hs' & Hr' & _) Hw. unfold combine.
  rewrite Hu, Hs, Hr, Hu', Hs', Hr', (duration_add_ok (wall_clock_time m)) by done.
  change (duration_add 0 0) with (Ok (E:=E) 0). cbn [mbind outcome_bind].
  by rewrite usage_zero.
Qed.

Lemma map_all_Ok {E V} (f : V -> outcome E V) m m' :
  map_all f m = Ok m' <->
  (forall k, match m !! k with
             | Some v => exists v', f v = Ok v' /\ m' !! k = Some v'
             | None => m' !! k = None
             end).
Proof.
  unfold map_all. case_decide as Hd.
  - split.
    + intros [= <-] k. rewrite lookup_omap. destruct (m !! k) as [v|] eqn:Hk; cbn; [|done].
      specialize (Hd k v Hk). cbn in Hd. destruct (f v); naive_solver.
    + intros H. f_equal. apply map_eq. intros k. rewrite lookup_omap. specialize (H k).
      destruct (m !! k) as [v|]; cbn; [|done]. destruct H as (v' & -> & ->). done.
  - split; [done|]. intros H. destruct Hd. intros k v Hk. specialize (H k).
    rewrite Hk in H. destruct H as (v' & -> & _). done.
Qed.

(** ** The tracker invariant

    [tracker_inv now t]: everything recorded is free of CPU time, and the wall
    clock of an active phase is at most the start of the running operation, or
    [now] when none runs.  Operations do not overlap, so the invariant keeps
    every sum of durations below the current instant. *)

Definition busy_until (now : Z) (t : BenchmarkTracker) : Z :=
  match current_operation t with Some m => timestamp m | None => now end.

Record tracker_inv (now : Z) (t : BenchmarkTracker) : Prop := {
  inv_start : constant_rusage (start_metrics t);
  inv_op : forall m, current_operation t = Some m -> constant_rusage m /\ 0 <= timestamp m <= now;
  inv_completed : Forall no_cpu (completed_metrics t);
  inv_phases : map_Forall (fun p m => no_cpu m /\ name m = p /\
                 0 <= wall_clock_time m <= busy_until now t) (active_phases t);
  inv_done : Forall (fun pm => no_cpu pm.2 /\ name pm.2 = pm.1) (phase_metrics t);
  inv_order : NoDup (phase_order t);
  inv_active : forall p, is_Some (active_phases t !! p) -> p ∈ phase_order t;
  inv_finished : Forall (fun pm => pm.1 ∈ phase_order t) (phase_metrics t);
}.

(** The condition on the clock under which durations do not overflow. *)
Definition clock_ok (now : Z) : Prop := 0 <= now <= Duration_MAX.

Lemma busy_until_le now t : tracker_inv now t -> busy_until now t <= now.
Proof.
  intros H. unfold busy_until. destruct (current_operation t) as [m|] eqn:Ho; [|lia].
  apply (inv_op now t H) in Ho. lia.
Qed.

Lemma busy_until_nonneg now t : 0 <= now -> tracker_inv now t -> 0 <= busy_until now t.
Proof.
  intros Hn H. unfold busy_until. destruct (current_operation t) as [m|] eqn:Ho; [|lia].
  apply (inv_op now t H) in Ho. lia.
Qed.

Lemma tracker_inv_mono now now' t : now <= now' -> tracker_inv now t -> tracker_inv now' t.
Proof.
  intros Hle []. split; try done.
  - intros m Hm. apply inv_op0 in Hm as [? ?]. split; [done|lia].
  - intros p m Hm. apply inv_phases0 in Hm as (? & ? & ?). split_and!; try done; [lia|].
    unfold busy_until in *. destruct (current_operation t); lia.
Qed.

Lemma tracker_new_inv {E} now t :
  tracker_new (E:=E) now = Ok t -> tracker_inv now t.
Proof.
  unfold tracker_new. rewrite current_ok. cbn. intros [= <-].
  split; cbn; try done; try constructor. intros p [? H]. by rewrite lookup_empty in H.
Qed.

Lemma start_operation_inv {E} now nm t t' :
  0 <= now -> tracker_inv now t -> start_operation (E:=E) now nm t = Ok t' -> tracker_inv now t'.
Proof.
  intros Hn Hi. unfold start_operation. rewrite current_ok. cbn. intros [= <-].
  pose proof (busy_until_le now t Hi). destruct Hi. split; cbn; try done.
  - intros m [= <-]. cbn. split; [done|lia].
  - intros p m Hm. apply inv_phases0 in Hm as (? & ? & ?). split_and!; try done; [lia|].
    unfold busy_until. cbn. lia.
Qed.

Lemma no_cpu_intro nm ts w :
  no_cpu {| name := nm; timestamp := ts; wall_clock_time := w; user_time := 0;
            system_time := 0; max_rss := 0; cpu_usage := f32_zero |}.
Proof. done. Qed.

(** What [finish_operation] does to a tracker in which an operation runs. *)
Lemma finish_operation_ok {E} oc now t start :
  clock_ok now -> tracker_inv now t ->
  current_operation t = Some start ->
  let d := {| name := name start; timestamp := now;
              wall_clock_time := now - timestamp start; user_time := 0;
              system_time := 0; max_rss := 0; cpu_usage := f32_zero |} in
  exists phases,
    finish_operation (E:=E) oc now t =
      Ok {| start_metrics := start_metrics t; current_operation := None;
            completed_metrics := completed_metrics t ++ [d]; active_phases := phases;
            phase_metrics := phase_metrics t; phase_order := phase_order t |} /\
    forall p, match active_phases t !! p with
              | Some m => exists m', combine (E:=E) m d = Ok m' /\ phases !! p = Some m'
              | None => phases !! p = None
              end.
Proof.
  intros Hc Hi Ho d. destruct (inv_op now t Hi start Ho) as [Hr Hle].
  unfold finish_operation, finish_operation_internal. rewrite Ho, current_ok.
  cbn [mbind outcome_bind]. rewrite diff_ok by done. cbn [mbind outcome_bind timestamp name].
  replace (duration_since now (timestamp start)) with (now - timestamp start)
    by (unfold duration_since, saturating_sub; lia). fold d.
  exists (omap (fun m => ok (E:=E) (combine m d)) (active_phases t)).
  assert (Hall : map_all (E:=E) (fun m => combine m d) (active_phases t) =
            Ok (omap (fun m => ok (E:=E) (combine m d)) (active_phases t))).
  { unfold map_all. rewrite decide_True; [done|]. intros p m Hm.
    pose proof (inv_phases now t Hi p m Hm) as (Hn & _ & Hw).
    unfold busy_until in Hw. rewrite Ho in Hw. unfold clock_ok in Hc.
    rewrite combine_ok; [done|done|apply no_cpu_intro|cbn; lia]. }
  cbn [active_phases]. rewrite Hall. split; [done|].
  exact (proj1 (map_all_Ok _ _ _) Hall).
Qed.

Lemma finish_operation_inv {E} oc now t t' :
  clock_ok now -> tracker_inv now t ->
  finish_operation (E:=E) oc now t = Ok t' -> tracker_inv now t'.
Proof.
  intros Hc Hi Hf. destruct (current_operation t) as [start|] eqn:Ho.
  2:{ unfold finish_operation in Hf. rewrite Ho in Hf. by injection Hf as <-. }
  destruct (finish_operation_ok (E:=E) oc now t start Hc Hi Ho)
    as (phases & Heq & Hp).
  rewrite Heq in Hf. injection Hf as <-. pose proof Hi as [].
  destruct (inv_op0 start Ho) as [_ Hle]. split; cbn; try done.
  - apply Forall_app; split; [done|]. by apply Forall_singleton.
  - intros p m' Hm'. specialize (Hp p). destruct (active_phases t !! p) as [m|] eqn:Hm; [|congruence].
    destruct Hp as (m2 & Hcomb & Hm2). rewrite Hm' in Hm2. injection Hm2 as <-.
    destruct (inv_phases0 p m Hm) as (Hn & Hname & Hw). unfold busy_until in *.
    rewrite Ho in Hw. cbn. unfold clock_ok in Hc.
    rewrite combine_ok in Hcomb; [|done|apply no_cpu_intro|cbn; lia].
    injection Hcomb as <-. cbn. split_and!; try done; lia.
  - intros p Hs. apply inv_active0. specialize (Hp p).
    destruct (active_phases t !! p); [by eexists|]. rewrite Hp in Hs. by destruct Hs.
Qed.

Lemma start_phase_inv now p t :
  0 <= now -> tracker_inv now t -> tracker_inv now (start_phase now p t).
Proof.
  intros Hb Hi. pose proof (busy_until_nonneg now t Hb Hi). destruct Hi. split; cbn; try done.
  - apply map_Forall_insert_2; [|done]. cbn. split_and!; [done..|].
    unfold busy_until in *. cbn. lia.
  - case_decide; [done|]. apply list.NoDup_app. split_and!; [done| |apply NoDup_singleton].
    intros q Hq ->%list_elem_of_singleton. done.
  - intros q Hq. destruct (decide (q = p)) as [->|Hne].
    + case_decide; [done|]. apply elem_of_app. right. by apply list_elem_of_singleton.
    + rewrite lookup_insert_ne in Hq by done. apply inv_active0 in Hq.
      case_decide; [done|]. apply elem_of_app. by left.
  - eapply Forall_impl; [|exact inv_finished0]. intros [q m] Hq.
    case_decide; [done|]. apply elem_of_app. by left.
Qed.

Lemma end_phase_inv now p t : tracker_inv now t -> tracker_inv now (end_phase p t).
Proof.
  intros Hi. unfold end_phase. destruct (active_phases t !! p) as [m|] eqn:Hp; [|done].
  destruct Hi. split; cbn; try done.
  - by apply map_Forall_delete.
  - apply Forall_app; split; [done|]. apply inv_phases0 in Hp as (? & ? & _).
    by apply Forall_singleton.
  - intros q Hq. apply inv_active0. destruct (decide (q = p)) as [->|Hne].
    + rewrite lookup_delete_eq in Hq. by destruct Hq.
    + by rewrite lookup_delete_ne in Hq.
  - apply Forall_app; split; [done|]. apply Forall_singleton, inv_active0. by eexists.
Qed.

Lemma do_call_inv {E} oc now c t t' :
  clock_ok now -> tracker_inv now t -> do_call (E:=E) oc now c t = Ok t' -> tracker_inv now t'.
Proof.
  intros Hc Hi. unfold clock_ok in Hc. destruct c; cbn.
  - apply start_operation_inv; [lia|done].
  - by apply finish_operation_inv.
  - intros [= <-]. apply start_phase_inv; [lia|done].
  - intros [= <-]. by apply end_phase_inv.
Qed.

Lemma do_call_ok {E} oc now c t :
  clock_ok now -> tracker_inv now t -> is_Ok (do_call (E:=E) oc now c t).
Proof.
  intros Hc Hi. destruct c; cbn [do_call].
  - unfold start_operation. rewrite current_ok. apply Ok_is_Ok.
  - destruct (current_operation t) as [m|] eqn:Ho.
    + destruct (finish_operation_ok (E:=E) oc now t m Hc Hi Ho) as (ph & -> & _). apply Ok_is_Ok.
    + unfold finish_operation. rewrite Ho. apply Ok_is_Ok.
  - apply Ok_is_Ok.
  - apply Ok_is_Ok.
Qed.

(** Instants in a sequence of calls: within the range of a [Duration] and
    never decreasing, as [Instant::now] documents. *)
Fixpoint monotone (now : Z) (cs : list (Z * call)) : Prop :=
  match cs with
  | [] => True
  | (n, _) :: cs => now <= n /\ clock_ok n /\ monotone n cs
  end.

Fixpoint last_instant (now : Z) (cs : list (Z * call)) : Z :=
  match cs with
  | [] => now
  | (n, _) :: cs => last_instant n cs
  end.

Lemma run_ok {E} oc cs : forall now t,
  monotone now cs -> tracker_inv now t ->
  exists t', run (E:=E) oc cs t = Ok t' /\ tracker_inv (last_instant now cs) t'.
Proof.
  induction cs as [|[n c] cs IH]; intros now t Hm Hi; cbn [run].
  - by exists t.
  - cbn in Hm. destruct Hm as (Hle & Hc & Hm).
    apply (tracker_inv_mono now n) in Hi; [|done].
    destruct (do_call_ok (E:=E) oc n c t Hc Hi) as [t' Ht'].
    pose proof (do_call_inv (E:=E) oc n c t t' Hc Hi Ht') as Hi'.
    rewrite Ht'. cbn. by apply IH.
Qed.

(** ** Phase accounting *)

Definition wall_sum (l : list Metrics) : Z := foldr (fun m acc => wall_clock_time m + acc) 0 l.

Definition mentions (p : string) (c : call) : Prop :=
  match c with StartPhase q | EndPhase q => q = p | _ => False end.

Lemma wall_sum_app l k : wall_sum (l ++ k) = wall_sum l + wall_sum k.
Proof. unfold wall_sum. induction l; cbn; [done|]. lia. Qed.

(** One call that does not start or end the phase [p] adds to its wall clock
    exactly what it adds to the completed operations. *)
Lemma do_call_phase {E} oc now c t t' p m :
  clock_ok now -> tracker_inv now t -> ~ mentions p c ->
  do_call (E:=E) oc now c t = Ok t' -> active_phases t !! p = Some m ->
  exists new m', completed_metrics t' = completed_metrics t ++ new /\
    active_phases t' !! p = Some m' /\
    wall_clock_time m' = wall_clock_time m + wall_sum new.
Proof.
  intros Hc Hi Hn Hd Hp. destruct c as [nm| |q|q]; cbn in Hd, Hn.
  - unfold start_operation in Hd. rewrite current_ok in Hd. injection Hd as <-.
    exists [], m. cbn. rewrite app_nil_r. split_and!; [done..|lia].
  - destruct (current_operation t) as [start|] eqn:Ho.
    + destruct (finish_operation_ok (E:=E) oc now t start Hc Hi Ho) as (ph & Heq & Hph).
      rewrite Heq in Hd. injection Hd as <-. specialize (Hph p). rewrite Hp in Hph.
      destruct Hph as (m' & Hcomb & Hm'). eexists [_], m'. cbn. split_and!; [done..|].
      unfold combine in Hcomb. outcome_inv. cbn. unfold duration_add in *.
      repeat case_match; simplify_eq. lia.
    + unfold finish_operation in Hd. rewrite Ho in Hd. injection Hd as <-.
      exists [], m. rewrite app_nil_r. cbn. split_and!; [done..|lia].
  - injection Hd as <-. exists [], m. cbn. rewrite app_nil_r, lookup_insert_ne by done.
    split_and!; [done..|lia].
  - injection Hd as <-. exists [], m. unfold end_phase.
    destruct (active_phases t !! q) eqn:Hq; cbn; rewrite app_nil_r;
      rewrite ?lookup_delete_ne by done; split_and!; (done || lia).
Qed.

Lemma run_phase {E} oc p cs : forall now t t' m,
  monotone now cs -> tracker_inv now t -> Forall (fun nc => ~ mentions p nc.2) cs ->
  run (E:=E) oc cs t = Ok t' -> active_phases t !! p = Some m ->
  exists new m', completed_metrics t' = completed_metrics t ++ new /\
    active_phases t' !! p = Some m' /\
    wall_clock_time m' = wall_clock_time m + wall_sum new.
Proof.
  induction cs as [|[n c] cs IH]; intros now t t' m Hm Hi Hn Hr Hp; cbn [run] in Hr.
  - injection Hr as <-. exists [], m. rewrite app_nil_r. cbn. split_and!; [done..|lia].
  - cbn in Hm. destruct Hm as (Hle & Hc & Hm). inversion Hn as [|? ? Hn1 Hn2]; subst.
    apply (tracker_inv_mono now n) in Hi; [|done]. outcome_inv.
    destruct (do_call_phase (E:=E) oc n c t _ p m Hc Hi Hn1 ltac:(eassumption) Hp)
      as (new & m' & Hnew & Hm' & Hw).
    eapply do_call_inv in Hi; [|done|eassumption].
    destruct (IH n _ t' m' Hm Hi Hn2 Hr Hm') as (new2 & m2 & Hnew2 & Hm2 & Hw2).
    exists (new ++ new2), m2. rewrite Hnew2, Hnew, app_assoc, wall_sum_app.
    split_and!; [done..|lia].
Qed.

(** ** Names and times of the completed operations *)

Fixpoint finished (cur : option (string * Z)) (cs : list (Z * call)) : list (string * Z) :=
  match cs with
  | [] => []
  | (n, StartOp nm) :: cs => finished (Some (nm, n)) cs
  | (n, FinishOp) :: cs =>
      match cur with
      | Some (nm, s) => (nm, duration_since n s) :: finished None cs
      | None => finished None cs
      end
  | _ :: cs => finished cur cs
  end.

Definition name_time (m : Metrics) : string * Z := (name m, wall_clock_time m).
Definition running (t : BenchmarkTracker) : option (string * Z) :=
  (fun m => (name m, timestamp m)) <$> current_operation t.

Lemma run_completed {E} oc cs : forall t t',
  run (E:=E) oc cs t = Ok t' ->
  map name_time (completed_metrics t') =
  map name_time (completed_metrics t) ++ finished (running t) cs.
Proof.
  induction cs as [|[n c] cs IH]; intros t t' Hr; cbn [run] in Hr.
  - injection Hr as <-. cbn. by rewrite app_nil_r.
  - apply bind_Ok_inv in Hr as (t1 & Hd & Hr). rewrite (IH _ _ Hr).
    destruct c; cbn [do_call] in Hd; cbn [finished].
    + unfold start_operation in Hd. rewrite current_ok in Hd. by injection Hd as <-.
    + unfold finish_operation in Hd. unfold running at 2.
      destruct (current_operation t) as [m|] eqn:Ho; cbn.
      * unfold finish_operation_internal in Hd. rewrite current_ok in Hd.
        cbn [mbind outcome_bind] in Hd. apply bind_Ok_inv in Hd as (d & Hdiff & Hd).
        apply bind_Ok_inv in Hd as (ph & _ & [= <-]). cbn.
        rewrite map_app, <- app_assoc. f_equal. cbn. f_equal.
        unfold diff in Hdiff. outcome_inv. reflexivity.
      * injection Hd as <-. unfold running. by rewrite Ho.
    + by injection Hd as <-.
    + injection Hd as <-. unfold end_phase. by destruct (active_phases t !! p).
Qed.

Lemma run_app {E} oc cs1 cs2 t :
  run (E:=E) oc (cs1 ++ cs2) t = (t1 ← run oc cs1 t; run oc cs2 t1).
Proof.
  revert t. induction cs1 as [|[n c] cs1 IH]; intros t; [done|]. cbn [app run].
  destruct (do_call oc n c t); cbn; [apply IH|done|done].
Qed.

(** Calls that neither start nor end a phase leave the phases alone. *)
Definition op_call (c : call) : Prop :=
  match c with StartOp _ | FinishOp => True | _ => False end.

Lemma run_ops_frame {E} oc cs : forall t t',
  Forall (fun nc => op_call nc.2) cs -> run (E:=E) oc cs t = Ok t' ->
  phase_metrics t' = phase_metrics t /\ phase_order t' = phase_order t /\
  start_metrics t' = start_metrics t.
Proof.
  induction cs as [|[n c] cs IH]; intros t t' Hn Hr; cbn [run] in Hr.
  - by injection Hr as <-.
  - apply Forall_cons_iff in Hn as [Hc Hn]. apply bind_Ok_inv in Hr as (t1 & Hd & Hr).
    destruct (IH _ _ Hn Hr) as (-> & -> & ->). destruct c; cbn [do_call] in Hd; [| |done..].
    + unfold start_operation in Hd. rewrite current_ok in Hd. by injection Hd as <-.
    + unfold finish_operation in Hd. destruct (current_operation t); [|by injection Hd as <-].
      unfold finish_operation_internal in Hd.
      repeat (apply bind_Ok_inv in Hd as (? & _ & Hd)). by injection Hd as <-.
Qed.

(** ** What is printed *)

Lemma group_map_snoc l k v : group_map (l ++ [(k, v)]) = <[k := v]> (group_map l).
Proof. unfold group_map. by rewrite foldl_app. Qed.

(** [group_map] keeps the last record of each phase. *)
Lemma group_map_lookup l k v :
  group_map l !! k = Some v <->
  exists l1 l2, l = l1 ++ (k, v) :: l2 /\ k ∉ l2.*1.
Proof.
  induction l as [|[k' v'] l IH] using rev_ind.
  - split; [done|]. intros (l1 & l2 & H & _). by destruct l1.
  - rewrite group_map_snoc, lookup_insert_Some, IH. split.
    + intros [[-> ->]|[Hne (l1 & l2 & -> & Hl2)]].
      * exists l, []. split; [done|]. apply not_elem_of_nil.
      * exists l1, (l2 ++ [(k', v')]). rewrite <- app_assoc. split; [done|].
        rewrite fmap_app, not_elem_of_app. split; [done|]. cbn.
        rewrite list_elem_of_singleton. congruence.
    + intros (l1 & l2 & Heq & Hl2). destruct l2 as [|x l2 _] using rev_ind.
      * apply app_inj_tail in Heq as [-> [= -> ->]]. by left.
      * rewrite app_comm_cons, app_assoc in Heq. apply app_inj_tail in Heq as [-> <-].
        rewrite fmap_app, not_elem_of_app in Hl2. destruct Hl2 as [Hl2 Hne].
        cbn in Hne. rewrite list_elem_of_singleton in Hne. right. split; [congruence|].
        by exists l1, l2.
Qed.

Lemma group_map_None l k : group_map l !! k = None <-> k ∉ l.*1.
Proof.
  induction l as [|[k' v'] l IH] using rev_ind.
  - split; [intros _; apply not_elem_of_nil|done].
  - rewrite group_map_snoc, lookup_insert_None, IH, fmap_app, not_elem_of_app. cbn.
    rewrite list_elem_of_singleton. naive_solver.
Qed.

(** The records printed for the phases in [order]. *)
Definition phase_records (g : gmap string Metrics) (order : list string) : list Metrics :=
  omap (fun p => g !! p) order.

Lemma phase_records_printed g order :
  omap (fun p => PMetrics <$> g !! p) order = map PMetrics (phase_records g order).
Proof.
  unfold phase_records. induction order as [|p order IH]; cbn; [done|].
  destruct (g !! p); cbn; by rewrite IH.
Qed.

Lemma phase_records_names l order :
  Forall (fun pm => name pm.2 = pm.1) l ->
  map name (phase_records (group_map l) order) = filter (fun p => p ∈ l.*1) order.
Proof.
  intros Hn. unfold phase_records. induction order as [|p order IH]; [done|].
  rewrite filter_cons. cbn [omap list_omap].
  destruct (group_map l !! p) as [m|] eqn:Hp; cbn [map].
  - pose proof Hp as Hp'. apply group_map_lookup in Hp' as (l1 & l2 & -> & _).
    rewrite decide_True by (rewrite fmap_app; set_solver).
    apply Forall_app in Hn as [_ Hn]. inversion Hn as [|? ? Hname]; subst.
    cbn in Hname. by rewrite Hname, IH.
  - apply group_map_None in Hp. by rewrite decide_False.
Qed.

(** A tracker driven by any sequence of calls, at instants that never
    decrease and fit a [Duration], never panics (no subtraction of durations or
    of [max_rss] underflows, no sum of durations overflows, with or without
    overflow checks), and its invariant holds at the end. *)
Theorem tracker_never_panics oc now cs t :
  clock_ok now -> monotone now cs -> tracker_new (E:=Empty_set) now = Ok t ->
  exists t', run (E:=Empty_set) oc cs t = Ok t' /\ tracker_inv (last_instant now cs) t' /\
    is_Ok (E:=Empty_set) (print_all_metrics oc (last_instant now cs) t').
Proof.
  intros Hc Hm Hn. pose proof (tracker_new_inv now t Hn) as Hi.
  destruct (run_ok (E:=Empty_set) oc cs now t Hm Hi) as (t' & Hr & Hi').
  exists t'. split_and!; [done..|]. unfold print_all_metrics, get_total_metrics.
  rewrite current_ok. cbn [mbind outcome_bind].
  rewrite diff_ok by (done || apply Hi'). apply Ok_is_Ok.
Qed.

(** A phase from its start to its end. *)
Lemma phase_span oc now p cs t t' :
  clock_ok now -> tracker_inv now t -> monotone now cs ->
  Forall (fun nc => ~ mentions p nc.2) cs ->
  run (E:=Empty_set) oc cs (start_phase now p t) = Ok t' ->
  exists new m, completed_metrics (end_phase p t') = completed_metrics t ++ new /\
    phase_metrics (end_phase p t') = phase_metrics t' ++ [(p, m)] /\
    name m = p /\ wall_clock_time m = wall_sum new /\
    active_phases (end_phase p t') !! p = None.
Proof.
  intros Hc Hi Hm Hn Hr. unfold clock_ok in Hc.
  assert (Hi' : tracker_inv now (start_phase now p t)) by (apply start_phase_inv; [lia|done]).
  destruct (run_phase oc p cs now _ t' _ Hm Hi' Hn Hr (lookup_insert_eq _ _ _))
    as (new & m & Hnew & Hp & Hw).
  destruct (run_ok (E:=Empty_set) oc cs now _ Hm Hi') as (t2 & Hr2 & Hi2).
  rewrite Hr in Hr2. injection Hr2 as <-.
  exists new, m. unfold end_phase. rewrite Hp. cbn in *. rewrite lookup_delete_eq.
  apply (inv_phases _ _ Hi2) in Hp as (_ & Hname & _). split_and!; (done || lia).
Qed.

(** C9: The metrics recorded for a phase when it ends hold the sum of the wall
    clock times of exactly the operations that finished while it was active,
    whatever other phases and operations the calls in between start and end. *)
Theorem phase_wall_clock oc now p cs t t' :
  clock_ok now -> tracker_inv now t -> monotone now cs ->
  Forall (fun nc => ~ mentions p nc.2) cs ->
  run (E:=Empty_set) oc cs (start_phase now p t) = Ok t' ->
  exists new m, completed_metrics (end_phase p t') = completed_metrics t ++ new /\
    phase_metrics (end_phase p t') = phase_metrics t' ++ [(p, m)] /\
    name m = p /\ wall_clock_time m = wall_sum new /\
    active_phases (end_phase p t') !! p = None.
Proof. apply phase_span. Qed.

(** [print_all_metrics] prints the completed operations in order, then each
    phase that ended exactly once, in the order in which phases were first
    started and with the last record of that phase, then the total; and no
    record it prints shows any user time, system time or CPU usage, because
    [Metrics::current] writes constants instead of calling [getrusage]. *)
Theorem print_all_metrics_shape oc now t items :
  tracker_inv now t -> phase_metrics t <> [] ->
  print_all_metrics (E:=Empty_set) oc now t = Ok items ->
  exists phases total l1 l2,
    items = map PMetrics (completed_metrics t) ++ PLine l1 :: map PMetrics phases
              ++ [PLine l2; PMetrics total] /\
    map name phases = filter (fun p => p ∈ (phase_metrics t).*1) (phase_order t) /\
    NoDup (map name phases) /\
    Forall (fun m => exists a b, phase_metrics t = a ++ (name m, m) :: b /\ name m ∉ b.*1) phases /\
    Forall no_cpu (completed_metrics t ++ phases ++ [total]).
Proof.
  intros Hi Hne. unfold print_all_metrics, get_total_metrics. rewrite current_ok.
  cbn [mbind outcome_bind]. rewrite diff_ok by (done || apply Hi). cbn [mbind outcome_bind].
  destruct (phase_metrics t) as [|pm pms] eqn:Hpm; [done|]. rewrite <- Hpm.
  rewrite phase_records_printed. intros [= <-].
  set (ps := phase_records _ _).
  assert (Hlast : Forall (fun m => exists a b, phase_metrics t = a ++ (name m, m) :: b /\
                                    name m ∉ b.*1) ps).
  { apply list.Forall_forall. intros m (p & Hp & Hm)%list_elem_of_omap.
    apply group_map_lookup in Hm as (a & b & Heq & Hb).
    pose proof (inv_done _ _ Hi) as Hd. rewrite Heq in Hd.
    apply Forall_app in Hd as [_ Hd]. inversion Hd as [|? ? [_ Hname] _]; subst; cbn in Hname.
    subst. by exists a, b. }
  eexists ps, _, _, _. split; [cbn [app]; rewrite <- !app_assoc; reflexivity|].
  assert (Hnames : map name ps = filter (fun p => p ∈ (phase_metrics t).*1) (phase_order t)).
  { apply phase_records_names. eapply Forall_impl; [|apply (inv_done _ _ Hi)]. by intros [] []. }
  rewrite Hnames. split_and!; [done|apply list.NoDup_filter, Hi|done|].
  apply Forall_app. split; [apply Hi|]. apply Forall_app. split; [|by apply Forall_singleton].
  eapply Forall_impl; [|exact Hlast]. cbn. intros m (a & b & Heq & _).
  pose proof (inv_done _ _ Hi) as Hd. rewrite Heq in Hd.
  apply Forall_app in Hd as [_ Hd]. by inversion Hd as [|? ? [? _] _].
Qed.

(** ** Witnesses

    Two overlapping phases around two operations. *)

Definition sample_calls : list (Z * call) :=
  [(20, StartPhase "B"); (30, StartOp "load"); (50, FinishOp); (50, EndPhase "B");
   (60, StartOp "run"); (95, FinishOp)].

Definition sample_tracker : BenchmarkTracker :=
  {| start_metrics := {| name := "Total"; timestamp := 10; wall_clock_time := 0;
       user_time := NANOS_PER_SEC; system_time := NANOS_PER_SEC; max_rss := 0;
       cpu_usage := f32_zero |};
     current_operation := None; completed_metrics := []; active_phases := ∅;
     phase_metrics := []; phase_order := [] |}.

Lemma sample_tracker_new : tracker_new (E:=Empty_set) 10 = Ok sample_tracker.
Proof. reflexivity. Qed.

Lemma sample_monotone : monotone 10 sample_calls.
Proof. repeat split; vm_compute; discriminate. Qed.

Lemma sample_no_A : Forall (fun nc => ~ mentions "A" nc.2) sample_calls.
Proof. repeat constructor; cbn; (discriminate || tauto). Qed.

Lemma tracker_never_panics_witness :
  exists t', run (E:=Empty_set) true sample_calls sample_tracker = Ok t' /\
    tracker_inv (last_instant 10 sample_calls) t' /\
    is_Ok (E:=Empty_set) (print_all_metrics true (last_instant 10 sample_calls) t').
Proof.
  apply (tracker_never_panics true 10 sample_calls sample_tracker).
  - split; vm_compute; discriminate.
  - exact sample_monotone.
  - exact sample_tracker_new.
Defined.

Definition sample_end (p : string) : option BenchmarkTracker :=
  ok (run (E:=Empty_set) true sample_calls (start_phase 10 p sample_tracker)).

Lemma phase_wall_clock_witness :
  exists t' new m, sample_end "A" = Some t' /\
    completed_metrics (end_phase "A" t') = completed_metrics sample_tracker ++ new /\
    phase_metrics (end_phase "A" t') = phase_metrics t' ++ [("A", m)] /\
    wall_clock_time m = wall_sum new /\ wall_sum new = 55.
Proof.
  destruct (run (E:=Empty_set) true sample_calls (start_phase 10 "A" sample_tracker))
    as [t'|e|] eqn:Hr; [|destruct e|exfalso; vm_compute in Hr; discriminate Hr].
  destruct (phase_wall_clock true 10 "A" sample_calls sample_tracker t')
    as (new & m & Hc & Hp & _ & Hw & _).
  - split; vm_compute; discriminate.
  - apply (tracker_new_inv (E:=Empty_set)). exact sample_tracker_new.
  - exact sample_monotone.
  - exact sample_no_A.
  - exact Hr.
  - exists t', new, m. split_and!; [unfold sample_end; by rewrite Hr|done..|].
    assert (new = completed_metrics (end_phase "A" t')) as -> by (by rewrite Hc).
    vm_compute in Hr. injection Hr as <-. reflexivity.
Defined.

Definition sample_finished : option BenchmarkTracker :=
  end_phase "A" <$> sample_end "A".

Lemma print_all_metrics_shape_witness :
  exists t items phases, sample_finished = Some t /\
    print_all_metrics (E:=Empty_set) true 100 t = Ok items /\
    map name phases = filter (fun p => p ∈ (phase_metrics t).*1) (phase_order t) /\
    filter (fun p => p ∈ (phase_metrics t).*1) (phase_order t) = ["A"; "B"].
Proof.
  destruct sample_finished as [t|] eqn:Ht; [|exfalso; vm_compute in Ht; discriminate Ht].
  assert (Hi : tracker_inv 100 t).
  { unfold sample_finished, sample_end in Ht.
    destruct (run_ok (E:=Empty_set) true sample_calls 10 (start_phase 10 "A" sample_tracker))
      as (t2 & Hr & Hi).
    - exact sample_monotone.
    - apply start_phase_inv; [lia|]. apply (tracker_new_inv (E:=Empty_set)). exact sample_tracker_new.
    - rewrite Hr in Ht. injection Ht as <-. apply end_phase_inv.
      apply (tracker_inv_mono (last_instant 10 sample_calls)); [vm_compute; discriminate|done]. }
  destruct (print_all_metrics (E:=Empty_set) true 100 t) as [items|e|] eqn:Hpr;
    [|destruct e|exfalso; vm_compute in Ht; injection Ht as <-; vm_compute in Hpr; discriminate Hpr].
  destruct (print_all_metrics_shape true 100 t items) as (phases & total & l1 & l2 & _ & Hn & _).
  - exact Hi.
  - vm_compute in Ht. injection Ht as <-. discriminate.
  - exact Hpr.
  - exists t, items, phases. split_and!; [done..|].
    vm_compute in Ht. injection Ht as <-. reflexivity.
Defined.
