(* ===== verification/BenchTensor.v ===== *)
(** * Image to tensor, and scores to class

    [src/wasm-module/src/main.rs], the data half of the Wasm guest:
    [image_to_tensor] and [f32_vec_to_bytes], which turn a 224x224 RGBA image
    into the bytes of a normalised [1,3,224,224] tensor, and the class selection
    of [post_process].  The crates [image] and [ndarray] are not part of the
    repository: they are the classes [RgbaImage] and [NdArray], whose laws state
    their documentation. *)

From Stdlib Require Import ZArith Lia SpecFloat.
From stdpp Require Import base list numbers strings.
From S2P Require Import Prelude Float32.
Open Scope Z_scope.

(** ** The crates the guest uses *)

(** [image::ImageBuffer<Rgba<u8>, Vec<u8>>]: [get_pixel x y] panics outside the
    image, and [channels] of a pixel is four bytes. *)
Class RgbaImage (I : Type) := {
  width : I -> Z;
  height : I -> Z;
  get_pixel : forall {E}, I -> Z -> Z -> outcome E (list Z);
  get_pixel_in : forall E img x y, 0 <= x < width img -> 0 <= y < height img ->
    exists cs, get_pixel (E:=E) img x y = Ok cs /\ length cs = 4%nat /\ Forall is_byte cs;
  get_pixel_out : forall E img x y, ~ (0 <= x < width img /\ 0 <= y < height img) ->
    get_pixel (E:=E) img x y = Panic;
}.

(** Indices of a four-dimensional array. *)
Record ix := Ix { i0 : nat; i1 : nat; i2 : nat; i3 : nat }.

Definition in_shape (sh i : ix) : Prop :=
  (i0 i < i0 sh /\ i1 i < i1 sh /\ i2 i < i2 sh /\ i3 i < i3 sh)%nat.

(** Row-major enumeration of the indices of a shape. *)
Definition row_major (sh : ix) : list ix :=
  a ← seq 0 (i0 sh); b ← seq 0 (i1 sh); c ← seq 0 (i2 sh); d ← seq 0 (i3 sh);
  [Ix a b c d].

(** [ndarray::Array4<f32>]: [from_shape_fn] builds an array in standard layout,
    the assigning operators act elementwise on the slice [s![0, c, .., ..]], and
    [as_slice] of an array in standard layout is its elements in row-major
    order. *)
Class NdArray (A : Type) := {
  dim : A -> ix;
  elem : A -> ix -> f32;
  standard : A -> Prop;
  from_shape_fn : forall {E}, ix -> (ix -> outcome E f32) -> outcome E A;
  sub_assign : nat -> f32 -> A -> A;
  div_assign : nat -> f32 -> A -> A;
  as_slice : A -> option (list f32);
  from_shape_fn_spec : forall E sh (f : ix -> outcome E f32) v,
    (forall i, in_shape sh i -> f i = Ok (v i)) ->
    exists a, from_shape_fn sh f = Ok a /\ dim a = sh /\ standard a /\
      forall i, in_shape sh i -> elem a i = v i;
  sub_assign_spec : forall c x a, standard a -> in_shape (dim a) (Ix 0 c 0 0) ->
    standard (sub_assign c x a) /\ dim (sub_assign c x a) = dim a /\
    forall i, in_shape (dim a) i ->
      elem (sub_assign c x a) i =
      if decide (i0 i = 0%nat /\ i1 i = c) then f32_sub (elem a i) x else elem a i;
  div_assign_spec : forall c x a, standard a -> in_shape (dim a) (Ix 0 c 0 0) ->
    standard (div_assign c x a) /\ dim (div_assign c x a) = dim a /\
    forall i, in_shape (dim a) i ->
      elem (div_assign c x a) i =
      if decide (i0 i = 0%nat /\ i1 i = c) then f32_div (elem a i) x else elem a i;
  as_slice_spec : forall a, standard a ->
    as_slice a = Some (map (elem a) (row_major (dim a)));
}.

(** ** [f32_vec_to_bytes] *)

Definition f32_vec_to_bytes (data : list f32) : list Z :=
  let chunks := map f32_to_le_bytes data in
  foldl (fun result c => foldl (fun result u => result ++ [u]) result c) [] chunks.

(** ** [image_to_tensor] *)

Definition mean : list f32 := [f32_lit 485 1000; f32_lit 456 1000; f32_lit 406 1000].
Definition std : list f32 := [f32_lit 229 1000; f32_lit 224 1000; f32_lit 225 1000].

Section Tensor.
  Context {I A : Type} `{!RgbaImage I} `{!NdArray A}.

(** The loop body [channel_array -= mean[c]; channel_array /= std[c]]. *)
Definition normalize_channel {E} (a : A) (c : nat) : outcome E A :=
  m ← unwrap (mean !! c);
  s ← unwrap (std !! c);
  Ok (div_assign c s (sub_assign c m a)).

Definition image_to_tensor {E} (image : I) : outcome E (list Z) :=
  array ← from_shape_fn (Ix 1 3 224 224) (fun i =>
    channels ← get_pixel image (Z.of_nat (i3 i)) (Z.of_nat (i2 i));
    v ← unwrap (channels !! i1 i);
    Ok (f32_div (f32_of_Z v) (f32_of_Z 255)));
  a0 ← normalize_channel array 0;
  a1 ← normalize_channel a0 1;
  a2 ← normalize_channel a1 2;
  data ← unwrap (as_slice a2);
  Ok (f32_vec_to_bytes data).

Definition process_image {E} (image : I) : outcome E (list Z) := image_to_tensor image.

End Tensor.

(** ** Class selection in [post_process] *)

Definition OUTPUT_BUFFER_CAPACITY : nat := 4000.

Definition compare_scores (s1 s2 : f32) : comparison :=
  default Eq (f32_partial_cmp s1 s2).

(** [Iterator::max_by]: the later element wins unless the earlier is greater. *)
Definition max_by {A} (cmp : A -> A -> comparison) (l : list A) : option A :=
  match l with
  | [] => None
  | x :: xs => Some (foldl (fun acc y => match cmp acc y with Gt => acc | _ => y end) x xs)
  end.

(** [output_buffer.iter().cloned().zip(RangeFrom { start: 1 })]. *)
Definition numbered (scores : list f32) : list (f32 * Z) :=
  zip scores (map Z.of_nat (seq 1 (length scores))).

Definition best_class (scores : list f32) : option (f32 * Z) :=
  max_by (fun a b => compare_scores a.1 b.1) (numbered scores).

(** What the guest writes to its standard output. *)
Inductive console :=
| CClass (image_name : string) (class : Z) (score : f32)
| CError (error : string)
| CPredicted (class : Z).

(** [get_output] of the crate [wasi-nn] fills the buffer, or fails. *)
Definition post_process {C NnErr} (get_output : C -> Z -> list f32 -> outcome NnErr (list f32))
    (context : C) (image_name : string) : list console * outcome string Z :=
  let output_buffer := replicate OUTPUT_BUFFER_CAPACITY f32_zero in
  match get_output context 0 output_buffer with
  | Panic => ([], Panic)
  | Err _ => ([], Err "Error occurred while getting output")
  | Ok output_buffer =>
      match best_class output_buffer with
      | Some (score, class) => ([CClass image_name class score], Ok class)
      | None => ([CError "testing"], Err "Error: ")
      end
  end.

(** ** Layout of the tensor *)

Lemma push_all {A} (result c : list A) : foldl (fun r u => r ++ [u]) result c = result ++ c.
Proof.
  revert result. induction c as [|u c IH]; intros result; cbn; [by rewrite app_nil_r|].
  by rewrite IH, <- app_assoc.
Qed.

Lemma f32_vec_to_bytes_bind data : f32_vec_to_bytes data = data ≫= f32_to_le_bytes.
Proof.
  unfold f32_vec_to_bytes.
  enough (H : forall acc, foldl (fun r c => foldl (fun r u => r ++ [u]) r c) acc
                (map f32_to_le_bytes data) = acc ++ (data ≫= f32_to_le_bytes)) by apply H.
  induction data as [|x data IH]; intros acc; cbn [map foldl]; [cbn; by rewrite app_nil_r|].
  rewrite push_all, IH. cbn [mbind list_bind]. by rewrite app_assoc.
Qed.

Lemma length_f32_to_le_bytes x : length (f32_to_le_bytes x) = 4%nat.
Proof. apply length_le_bytes. Qed.

Lemma length_f32_vec_to_bytes data : length (f32_vec_to_bytes data) = (length data * 4)%nat.
Proof.
  rewrite f32_vec_to_bytes_bind. apply length_bind_const, length_f32_to_le_bytes.
Qed.

Lemma f32_vec_to_bytes_chunk data n x :
  data !! n = Some x -> take 4 (drop (n * 4) (f32_vec_to_bytes data)) = f32_to_le_bytes x.
Proof.
  rewrite f32_vec_to_bytes_bind. apply take_drop_bind_const, length_f32_to_le_bytes.
Qed.

(** The flat index of an element in standard layout. *)
Definition offset (sh i : ix) : nat :=
  ((i0 i * i1 sh + i1 i) * i2 sh + i2 i) * i3 sh + i3 i.

Lemma mixed_radix_lt (b n k r : nat) : (b < n -> r < k -> b * k + r < n * k)%nat.
Proof. nia. Qed.

Lemma row_major_lookup sh i : in_shape sh i -> row_major sh !! offset sh i = Some i.
Proof.
  destruct sh as [s0 s1 s2 s3], i as [a b c d]. unfold in_shape, row_major, offset; cbn -[mbind seq].
  intros (Ha & Hb & Hc & Hd).
  assert (H3 : forall (g : nat -> ix) n, length (seq 0 n ≫= fun d => [g d]) = n).
  { intros g n. rewrite (length_bind_const _ 1) by done. rewrite length_seq. lia. }
  assert (H2 : forall (g : nat -> nat -> ix) n,
             length (seq 0 n ≫= fun c => seq 0 s3 ≫= fun d => [g c d]) = (n * s3)%nat).
  { intros g n. rewrite (length_bind_const _ s3) by (intros; apply H3). by rewrite length_seq. }
  assert (H1 : forall (g : nat -> nat -> nat -> ix) n,
             length (seq 0 n ≫= fun b => seq 0 s2 ≫= fun c => seq 0 s3 ≫= fun d => [g b c d])
             = (n * (s2 * s3))%nat).
  { intros g n. rewrite (length_bind_const _ (s2 * s3)) by (intros; apply H2). by rewrite length_seq. }
  replace (((a * s1 + b) * s2 + c) * s3 + d)%nat
    with (a * (s1 * (s2 * s3)) + (b * (s2 * s3) + (c * s3 + (d * 1 + 0))))%nat by lia.
  rewrite (lookup_bind_const _ (s1 * (s2 * s3)) ltac:(intros; apply H1) _ _ _ a)
    by first [apply lookup_seq; lia | eauto using mixed_radix_lt with lia].
  rewrite (lookup_bind_const _ (s2 * s3) ltac:(intros; apply H2) _ _ _ b)
    by first [apply lookup_seq; lia | eauto using mixed_radix_lt with lia].
  rewrite (lookup_bind_const _ s3 ltac:(intros; apply H3) _ _ _ c)
    by first [apply lookup_seq; lia | eauto using mixed_radix_lt with lia].
  rewrite (lookup_bind_const (fun d => [Ix a b c d]) 1 (fun _ => eq_refl) _ _ _ d) by first [apply lookup_seq; lia | eauto using mixed_radix_lt with lia].
  done.
Qed.

Lemma length_row_major sh :
  length (row_major sh) = (i0 sh * (i1 sh * (i2 sh * i3 sh)))%nat.
Proof.
  unfold row_major.
  rewrite (length_bind_const _ (i1 sh * (i2 sh * i3 sh))); [by rewrite length_seq|].
  intros. rewrite (length_bind_const _ (i2 sh * i3 sh)); [by rewrite length_seq|].
  intros. rewrite (length_bind_const _ (i3 sh)); [by rewrite length_seq|].
  intros. rewrite (length_bind_const _ 1) by done. rewrite length_seq. lia.
Qed.

(** ** Correctness of the tensor *)

Definition tensor_shape : ix := Ix 1 3 224 224.

(** The normalised value of a byte in channel [c]. *)
Definition pixel_value (c : nat) (v : Z) : f32 :=
  f32_div (f32_sub (f32_div (f32_of_Z v) (f32_of_Z 255)) (nth c mean f32_zero))
          (nth c std f32_zero).

Definition all_bytes : list Z := map Z.of_nat (seq 0 256).

Lemma is_byte_all_bytes v : is_byte v -> v ∈ all_bytes.
Proof.
  intros Hv. unfold is_byte in Hv. apply list_elem_of_fmap. exists (Z.to_nat v).
  split; [lia|]. apply elem_of_seq. lia.
Qed.

Lemma pixel_value_valid c v : (c < 3)%nat -> is_byte v -> f32_valid (pixel_value c v) = true.
Proof.
  intros Hc Hv%is_byte_all_bytes.
  assert (H : forallb (fun c => forallb (fun v => f32_valid (pixel_value c v)) all_bytes)
                [0%nat; 1%nat; 2%nat] = true) by (vm_compute; reflexivity).
  rewrite forallb_forall in H. specialize (H c). rewrite forallb_forall in H.
  apply H; [destruct c as [|[|[|]]]; cbn; lia || tauto|]. by apply list_elem_of_In.
Qed.

Section TensorCorrect.
  Context {I A : Type} `{!RgbaImage I} `{!NdArray A}.
  Implicit Types (image : I) (a : A).

Lemma normalize_channel_spec {E} a c :
  standard a -> dim a = tensor_shape -> (c < 3)%nat ->
  exists a', normalize_channel (E:=E) a c = Ok a' /\ standard a' /\ dim a' = tensor_shape /\
    forall i, in_shape tensor_shape i ->
      elem a' i = if decide (i1 i = c)
                  then f32_div (f32_sub (elem a i) (nth c mean f32_zero)) (nth c std f32_zero)
                  else elem a i.
Proof.
  intros Hs Hd Hc. unfold normalize_channel.
  assert (Hin : in_shape (dim a) (Ix 0 c 0 0)) by (rewrite Hd; unfold in_shape; cbn; lia).
  destruct (sub_assign_spec c (nth c mean f32_zero) a Hs Hin) as (Hs1 & Hd1 & He1).
  rewrite <- Hd1 in Hin.
  destruct (div_assign_spec c (nth c std f32_zero) _ Hs1 Hin) as (Hs2 & Hd2 & He2).
  exists (div_assign c (nth c std f32_zero) (sub_assign c (nth c mean f32_zero) a)).
  split_and!; [|done|congruence|].
  - destruct c as [|[|[|]]]; [reflexivity..|lia].
  - intros i Hi. rewrite He2, He1 by congruence.
    assert (i0 i = 0%nat) by (unfold in_shape in Hi; cbn in Hi; lia).
    repeat case_decide; (tauto || done).
Qed.

Lemma image_to_tensor_correct image :
  width image = 224 -> height image = 224 ->
  exists bytes, image_to_tensor (A:=A) (E:=Empty_set) image = Ok bytes /\
    length bytes = (1 * 3 * 224 * 224 * 4)%nat /\ Forall is_byte bytes /\
    forall c j i, (c < 3)%nat -> (j < 224)%nat -> (i < 224)%nat ->
    exists channels v,
      get_pixel (E:=Empty_set) image (Z.of_nat i) (Z.of_nat j) = Ok channels /\
      channels !! c = Some v /\
      f32_from_le_bytes (take 4 (drop (offset tensor_shape (Ix 0 c j i) * 4) bytes))
      = pixel_value c v.
Proof.
  intros Hw Hh. unfold image_to_tensor. change (Ix 1 3 224 224) with tensor_shape.
  set (byte_at := fun i : ix =>
         match get_pixel (E:=Empty_set) image (Z.of_nat (i3 i)) (Z.of_nat (i2 i)) with
         | Ok cs => nth (i1 i) cs 0 | _ => 0 end).
  assert (Hpix : forall i, in_shape tensor_shape i -> exists cs,
             get_pixel (E:=Empty_set) image (Z.of_nat (i3 i)) (Z.of_nat (i2 i)) = Ok cs /\
             cs !! i1 i = Some (byte_at i) /\ is_byte (byte_at i)).
  { intros i (_ & H1 & H2 & H3). cbn in H1, H2, H3.
    destruct (get_pixel_in Empty_set image (Z.of_nat (i3 i)) (Z.of_nat (i2 i)))
      as (cs & Hcs & Hl & Hb); [lia..|]. exists cs. unfold byte_at. rewrite Hcs.
    destruct (lookup_lt_is_Some_2 cs (i1 i)) as [v Hv]; [lia|].
    rewrite (nth_lookup_Some _ _ _ _ Hv). split_and!; [done..|].
    eapply Forall_lookup_1; eassumption. }
  match goal with |- context [from_shape_fn _ ?f] =>
    destruct (from_shape_fn_spec Empty_set tensor_shape f
      (fun i => f32_div (f32_of_Z (byte_at i)) (f32_of_Z 255))) as (a & Ha & Hd & Hs & He) end.
  { intros i Hi. destruct (Hpix i Hi) as (cs & -> & Hv & _). cbn [mbind outcome_bind].
    rewrite Hv. cbn. reflexivity. }
  rewrite Ha. cbn [mbind outcome_bind].
  destruct (normalize_channel_spec (E:=Empty_set) a 0 Hs Hd) as (a0 & -> & Hs0 & Hd0 & He0); [lia|].
  cbn [mbind outcome_bind].
  destruct (normalize_channel_spec (E:=Empty_set) a0 1 Hs0 Hd0) as (a1 & -> & Hs1 & Hd1 & He1); [lia|].
  cbn [mbind outcome_bind].
  destruct (normalize_channel_spec (E:=Empty_set) a1 2 Hs1 Hd1) as (a2 & -> & Hs2 & Hd2 & He2); [lia|].
  cbn [mbind outcome_bind]. rewrite (as_slice_spec a2 Hs2), Hd2. cbn [unwrap mbind outcome_bind].
  eexists. split; [reflexivity|]. split; [|split].
  - rewrite length_f32_vec_to_bytes, length_map, length_row_major.
    unfold tensor_shape. cbn [i0 i1 i2 i3]. lia.
  - rewrite f32_vec_to_bytes_bind. apply Forall_bind, list.Forall_forall. intros x _. apply le_bytes_byte.
  - intros c j i Hc Hj Hi. assert (Hin : in_shape tensor_shape (Ix 0 c j i))
      by (unfold in_shape; cbn; lia).
    destruct (Hpix _ Hin) as (cs & Hcs & Hv & Hb). exists cs, (byte_at (Ix 0 c j i)).
    cbn [i1 i2 i3] in Hcs, Hv. split_and!; [done..|].
    rewrite (f32_vec_to_bytes_chunk _ _ (elem a2 (Ix 0 c j i)))
      by (rewrite list_lookup_fmap, row_major_lookup by done; done).
    assert (Hval : elem a2 (Ix 0 c j i) = pixel_value c (byte_at (Ix 0 c j i))).
    { rewrite He2, He1, He0, He by done. unfold pixel_value. cbn [i1].
      destruct c as [|[|[|]]]; [reflexivity..|lia]. }
    rewrite Hval. apply f32_le_bytes_roundtrip, pixel_value_valid; done.
Qed.

(** C8: On any 224x224 image [image_to_tensor] returns (it does not panic) the
    602112 bytes of the row-major [1,3,224,224] tensor: reading the four bytes
    of the element at channel [c], row [j], column [i] back as a little-endian
    float gives the byte of channel [c] of the pixel at column [i] and row [j],
    scaled to the unit interval and normalised with the mean and deviation of
    that channel. *)
Theorem image_to_tensor_layout image :
  width image = 224 -> height image = 224 ->
  exists bytes, image_to_tensor (A:=A) (E:=Empty_set) image = Ok bytes /\
    length bytes = (1 * 3 * 224 * 224 * 4)%nat /\ Forall is_byte bytes /\
    forall c j i, (c < 3)%nat -> (j < 224)%nat -> (i < 224)%nat ->
    exists channels v,
      get_pixel (E:=Empty_set) image (Z.of_nat i) (Z.of_nat j) = Ok channels /\
      channels !! c = Some v /\
      f32_from_le_bytes (take 4 (drop (offset tensor_shape (Ix 0 c j i) * 4) bytes))
      = pixel_value c v.
Proof. apply image_to_tensor_correct. Qed.
End TensorCorrect.

(** ** Order on floats

    [f32_key] orders the floats that are not NaN lexicographically as
    [partial_cmp] does. *)

Definition not_nan (x : f32) : Prop := x <> S754_nan.

Definition f32_key (x : f32) : Z * Z * Z :=
  match x with
  | S754_infinity true => (-2, 0, 0)
  | S754_finite true m e => (-1, - e, Zneg m)
  | S754_zero _ => (0, 0, 0)
  | S754_finite false m e => (1, e, Zpos m)
  | S754_infinity false => (2, 0, 0)
  | S754_nan => (3, 0, 0)
  end.

Definition lex (a b : Z * Z * Z) : comparison :=
  let '(a1, a2, a3) := a in
  let '(b1, b2, b3) := b in
  match a1 ?= b1 with
  | Eq => match a2 ?= b2 with Eq => a3 ?= b3 | c => c end
  | c => c
  end.

Lemma f32_partial_cmp_key x y :
  not_nan x -> not_nan y -> f32_partial_cmp x y = Some (lex (f32_key x) (f32_key y)).
Proof.
  intros Hx Hy. destruct x as [sx|sx| |sx mx ex], y as [sy|sy| |sy my ey]; try done;
    destruct sx; try destruct sy; cbn; try done.
  rewrite Z.compare_opp, (Z.compare_antisym ex ey).
  by destruct (Z.compare_spec ex ey).
Qed.

Definition lex_lt (a b : Z * Z * Z) : Prop :=
  let '(a1, a2, a3) := a in
  let '(b1, b2, b3) := b in
  a1 < b1 \/ a1 = b1 /\ (a2 < b2 \/ a2 = b2 /\ a3 < b3).

Lemma lex_spec a b :
  match lex a b with
  | Lt => lex_lt a b | Eq => a = b | Gt => lex_lt b a
  end.
Proof.
  destruct a as [[a1 a2] a3], b as [[b1 b2] b3]. cbn.
  destruct (Z.compare_spec a1 b1), (Z.compare_spec a2 b2), (Z.compare_spec a3 b3);
    subst; try done; lia.
Qed.

(** [score_lt x y]: [y] scores strictly higher. *)
Definition score_lt (x y : f32) : Prop := lex_lt (f32_key x) (f32_key y).
Definition score_le (x y : f32) : Prop := ~ score_lt y x.

Lemma lex_lt_trans a b c : lex_lt a b -> lex_lt b c -> lex_lt a c.
Proof. destruct a as [[? ?] ?], b as [[? ?] ?], c as [[? ?] ?]. cbn. lia. Qed.

Lemma lex_le_lt_trans a b c : ~ lex_lt b a -> lex_lt b c -> lex_lt a c.
Proof. destruct a as [[? ?] ?], b as [[? ?] ?], c as [[? ?] ?]. cbn. lia. Qed.

Lemma lex_le_trans a b c : ~ lex_lt b a -> ~ lex_lt c b -> ~ lex_lt c a.
Proof. destruct a as [[? ?] ?], b as [[? ?] ?], c as [[? ?] ?]. cbn. lia. Qed.

Lemma lex_lt_irrefl a : ~ lex_lt a a.
Proof. destruct a as [[? ?] ?]. cbn. lia. Qed.

Lemma compare_scores_spec x y :
  not_nan x -> not_nan y ->
  match compare_scores x y with Gt => score_lt y x | _ => score_le x y end.
Proof.
  intros Hx Hy. unfold compare_scores, score_le, score_lt.
  rewrite f32_partial_cmp_key by done. cbn. pose proof (lex_spec (f32_key x) (f32_key y)) as H.
  destruct (lex _ _); [rewrite H; apply lex_lt_irrefl| |done].
  intros H'. eapply lex_lt_irrefl, lex_lt_trans; eassumption.
Qed.

(** ** The selected class *)

Lemma max_by_snoc {A} (cmp : A -> A -> comparison) l y :
  max_by cmp (l ++ [y]) =
  Some (match max_by cmp l with
        | None => y
        | Some acc => match cmp acc y with Gt => acc | _ => y end
        end).
Proof. destruct l as [|x l]; cbn; [done|]. by rewrite foldl_app. Qed.

Lemma numbered_snoc l s :
  numbered (l ++ [s]) = numbered l ++ [(s, Z.of_nat (S (length l)))].
Proof.
  unfold numbered. rewrite length_app, seq_app, map_app. cbn [length seq map].
  rewrite zip_with_app by (by rewrite length_map, length_seq). done.
Qed.

(** [selected scores k s]: [s] at position [k] is a highest score, and the last
    one. *)
Definition selected (scores : list f32) (k : nat) (s : f32) : Prop :=
  scores !! k = Some s /\
  (forall j s', scores !! j = Some s' -> score_le s' s) /\
  (forall j s', (k < j)%nat -> scores !! j = Some s' -> score_lt s' s).

Lemma selected_snoc l y k s :
  not_nan y -> not_nan s -> selected l k s ->
  match compare_scores s y with
  | Gt => selected (l ++ [y]) k s
  | _ => selected (l ++ [y]) (length l) y
  end.
Proof.
  intros Hy Hs (Hk & Hmax & Hlast). pose proof (compare_scores_spec s y Hs Hy) as Hc.
  assert (Hle : score_le s y ->  selected (l ++ [y]) (length l) y).
  { intros Hle. split; [by rewrite lookup_app_r, Nat.sub_diag by lia|split].
    - intros j s' [Hj|(? & Hj)]%lookup_app_Some.
      + eapply lex_le_trans; [|exact Hle]. by eapply Hmax.
      + apply list_lookup_singleton_Some in Hj as [_ <-]. apply lex_lt_irrefl.
    - intros j s' Hj Hl%lookup_lt_Some. rewrite length_app in Hl. cbn in Hl. lia. }
  destruct (compare_scores s y); [by apply Hle..|].
  split; [by apply lookup_app_l_Some|split].
  - intros j s' [Hj|(? & Hj)]%lookup_app_Some; [by eapply Hmax|].
    apply list_lookup_singleton_Some in Hj as [_ <-].
    intros H'. eapply lex_lt_irrefl, lex_lt_trans; eassumption.
  - intros j s' Hkj [Hj|(? & Hj)]%lookup_app_Some; [by eapply Hlast|].
    by apply list_lookup_singleton_Some in Hj as [_ <-].
Qed.

Lemma best_class_selected scores :
  scores <> [] -> Forall not_nan scores ->
  exists k s, best_class scores = Some (s, Z.of_nat (S k)) /\ selected scores k s.
Proof.
  unfold best_class. induction scores as [|y l IH] using rev_ind; intros Hne Hn; [done|].
  apply Forall_app in Hn as [Hl Hy]. rewrite Forall_singleton in Hy.
  rewrite numbered_snoc, max_by_snoc. destruct l as [|x l].
  - exists 0%nat, y. split; [done|]. split; [done|split].
    + intros [|j] s' [= <-]. apply lex_lt_irrefl.
    + intros [|[|j]] s' Hj; done || lia.
  - destruct (IH ltac:(done) Hl) as (k & s & Heq & Hsel). rewrite Heq. cbn [fst].
    assert (Hs : not_nan s) by (eapply Forall_lookup_1; [exact Hl|apply Hsel]).
    pose proof (selected_snoc (x :: l) y k s Hy Hs Hsel) as H.
    destruct (compare_scores s y); eexists _, _; (split; [reflexivity|exact H]).
Qed.

Lemma selected_unique scores k1 s1 k2 s2 :
  selected scores k1 s1 -> selected scores k2 s2 -> k1 = k2 /\ s1 = s2.
Proof.
  intros (H1 & Hm1 & Hl1) (H2 & Hm2 & Hl2).
  destruct (lt_eq_lt_dec k1 k2) as [[Hlt|<-]|Hlt].
  - destruct (Hm2 k1 s1 H1). by eapply Hl1.
  - naive_solver.
  - destruct (Hm1 k2 s2 H2). by eapply Hl2.
Qed.

(** C23: [post_process] selects, over the whole 4000-entry buffer, the last of
    the highest scores and reports its position counted from one.  When the
    model writes fewer than 4000 scores and none of them is positive, the
    zeros the buffer was created with win and the class is 4000, whatever the
    scores; when some score is positive, the class is the position of the last
    highest score of the model. *)
Theorem post_process_class {C NnErr} (get_output : C -> Z -> list f32 -> outcome NnErr (list f32))
    context image_name logits :
  (length logits < OUTPUT_BUFFER_CAPACITY)%nat -> Forall not_nan logits ->
  (forall buffer, length buffer = OUTPUT_BUFFER_CAPACITY ->
     get_output context 0 buffer = Ok (logits ++ drop (length logits) buffer)) ->
  exists k s,
    post_process get_output context image_name =
      ([CClass image_name (Z.of_nat (S k)) s], Ok (Z.of_nat (S k))) /\
    (Forall (fun x => score_le x f32_zero) logits ->
       Z.of_nat (S k) = 4000 /\ s = f32_zero) /\
    (Exists (fun x => score_lt f32_zero x) logits -> selected logits k s).
Proof.
  intros Hlen Hn Hget. unfold post_process.
  rewrite Hget by apply length_replicate. rewrite drop_replicate.
  set (z := (OUTPUT_BUFFER_CAPACITY - length logits)%nat).
  destruct (best_class_selected (logits ++ replicate z f32_zero)) as (k & s & -> & Hsel).
  { intros [_ Hz]%app_nil. subst z. destruct (OUTPUT_BUFFER_CAPACITY - length logits)%nat eqn:Hz0; [lia|done]. }
  { apply Forall_app. split; [done|]. by apply Forall_replicate. }
  exists k, s. split; [done|]. split.
  - intros Hneg. destruct (selected_unique (logits ++ replicate z f32_zero) k s
                             (OUTPUT_BUFFER_CAPACITY - 1) f32_zero) as [-> ->]; [done| |done].
    split; [|split].
    + rewrite lookup_app_r by lia. apply lookup_replicate. split; [done|]. subst z. lia.
    + intros j s' [Hj|(_ & Hj)]%lookup_app_Some; [by eapply Forall_lookup_1 in Hneg|].
      apply lookup_replicate in Hj as [-> _]. apply lex_lt_irrefl.
    + intros j s' Hj Hl%lookup_lt_Some. rewrite length_app, length_replicate in Hl. subst z. lia.
  - intros (x & Hx & Hpos)%Exists_exists. destruct Hsel as (Hk & Hmax & Hlast).
    apply list_elem_of_lookup in Hx as [jx Hjx].
    assert (Hsx : score_lt f32_zero s).
    { pose proof (Hmax jx x (lookup_app_l_Some _ _ _ _ Hjx)) as Hle. unfold score_le, score_lt in *.
      destruct (f32_key f32_zero) as [[? ?] ?], (f32_key x) as [[? ?] ?], (f32_key s) as [[? ?] ?].
      cbn in *. lia. }
    apply lookup_app_Some in Hk as [Hk|(_ & Hk)].
    2:{ apply lookup_replicate in Hk as [-> _]. by apply lex_lt_irrefl in Hsx. }
    split; [done|split].
    + intros j s' Hj. apply (Hmax j). by apply lookup_app_l_Some.
    + intros j s' Hkj Hj. apply (Hlast j); [done|]. by apply lookup_app_l_Some.
Qed.

(** ** Instances of the two crates, for the witnesses *)

(** An image whose pixels are given by a function. *)
Record fn_image := { fw : Z; fh : Z; fpix : Z -> Z -> Z }.

#[export] Program Instance fn_image_rgba : RgbaImage fn_image := {
  width := fw; height := fh;
  get_pixel E img x y :=
    if decide (0 <= x < fw img /\ 0 <= y < fh img)
    then Ok (le_bytes 4 (fpix img x y)) else Panic;
}.
Next Obligation.
  intros E img x y Hx Hy. cbn beta. rewrite decide_True by done.
  eexists. split_and!; [done|apply length_le_bytes|apply le_bytes_byte].
Qed.
Next Obligation. intros E img x y H. cbn. by rewrite decide_False. Qed.

(** An array as a function on indices. *)
Record fn_array := { fdim : ix; felem : ix -> f32 }.

Definition on_channel (op : f32 -> f32 -> f32) (c : nat) (x : f32) (a : fn_array) : fn_array :=
  {| fdim := fdim a;
     felem i := if decide (i0 i = 0%nat /\ i1 i = c) then op (felem a i) x else felem a i |}.

#[export] Program Instance fn_array_ndarray : NdArray fn_array := {
  dim := fdim; elem := felem; standard _ := True;
  from_shape_fn E sh f :=
    if forallb (fun i => okb (f i)) (row_major sh)
    then Ok {| fdim := sh; felem i := default f32_zero (ok (f i)) |} else Panic;
  sub_assign := on_channel f32_sub;
  div_assign := on_channel f32_div;
  as_slice a := Some (map (felem a) (row_major (fdim a)));
}.
Next Obligation.
  intros E sh f v Hf. cbn. rewrite (proj2 (forallb_forall _ _)).
  - eexists. split_and!; [done..|]. intros i Hi. cbn. by rewrite Hf.
  - intros i Hi. rewrite Hf; [done|].
    apply list_elem_of_In in Hi. unfold row_major in Hi.
    repeat (apply list_elem_of_bind in Hi; destruct Hi as (? & Hi & ?%elem_of_seq)).
    apply list_elem_of_singleton in Hi as ->. unfold in_shape. cbn. lia.
Qed.
Next Obligation. done. Qed.
Next Obligation. done. Qed.
Next Obligation. done. Qed.

Definition grey_image : fn_image := {| fw := 224; fh := 224; fpix x y := x + 256 * y |}.

Lemma image_to_tensor_layout_witness :
  exists bytes channels v,
    image_to_tensor (A:=fn_array) (E:=Empty_set) grey_image = Ok bytes /\
    get_pixel (E:=Empty_set) grey_image 7 5 = Ok channels /\ channels !! 1%nat = Some v /\
    f32_from_le_bytes (take 4 (drop (offset tensor_shape (Ix 0 1 5 7) * 4) bytes))
    = pixel_value 1 v.
Proof.
  destruct (image_to_tensor_layout (I:=fn_image) (A:=fn_array) grey_image)
    as (bytes & Hb & _ & _ & Hpix); [reflexivity..|].
  destruct (Hpix 1%nat 5%nat 7%nat) as (cs & v & Hcs & Hv & Heq); [lia..|].
  exists bytes, cs, v. split_and!; assumption.
Defined.

Lemma post_process_class_witness :
  exists k s,
    post_process (C:=unit) (NnErr:=unit)
      (fun _ _ buffer => Ok ([f32_of_Z (-3); f32_of_Z (-1)] ++ drop 2 buffer)) () "dog.jpg"
    = ([CClass "dog.jpg" (Z.of_nat (S k)) s], Ok (Z.of_nat (S k))) /\ Z.of_nat (S k) = 4000.
Proof.
  destruct (post_process_class (C:=unit) (NnErr:=unit)
    (fun _ _ buffer => Ok ([f32_of_Z (-3); f32_of_Z (-1)] ++ drop 2 buffer)) () "dog.jpg"
    [f32_of_Z (-3); f32_of_Z (-1)]) as (k & s & Heq & Hneg & _).
  - unfold OUTPUT_BUFFER_CAPACITY. cbn [length]. lia.
  - repeat constructor; discriminate.
  - reflexivity.
  - exists k, s. split; [exact Heq|]. apply Hneg.
    constructor; [|constructor; [|constructor]]; intros H; vm_compute in H; intuition discriminate.
Defined.
