(* ===== verification/Wiggle.v ===== *)
(** * Guest memory accesses

    [src/wasmtime-repo/crates/wiggle/src/lib.rs], [region.rs], [guest_type.rs]
    and [error.rs]: the checked view a host function has of the linear memory of
    the guest.  A memory is a list of bytes with the host address of its first
    byte; a [GuestPtr<T>] is an offset, a [GuestPtr<[T]>] or [GuestPtr<str>] an
    offset and a length.  A pointee type [T] that is transparent (an integer) is
    given by its size [n] in bytes, which is also its alignment, and its values
    by what they are as unsigned integers.  [usize] has 64 bits. *)

From Stdlib Require Import ZArith Lia.
From stdpp Require Import base list numbers strings.
From S2P Require Import Prelude Float32.
Open Scope Z_scope.

(** ** [region.rs] *)

Record Region := { start : Z; len : Z }.

Definition Region_new (s l : Z) : Region := {| start := s; len := l |}.

Definition overlaps (self rhs : Region) : bool :=
  if (len self =? 0) || (len rhs =? 0) then false
  else
    let self_start := start self in
    let self_end := self_start + (len self - 1) in
    let rhs_start := start rhs in
    let rhs_end := rhs_start + (len rhs - 1) in
    if self_start <=? rhs_start then rhs_start <=? self_end else self_start <=? rhs_end.

Definition extend {E} (oc : bool) (self : Region) (times : Z) : outcome E Region :=
  l ← arith oc 32 (len self * times);
  Ok {| start := start self; len := l |}.

(** ** [error.rs] *)

Inductive GuestError :=
| InvalidFlagValue (s : string)
| InvalidEnumValue (s : string)
| PtrOverflow
| PtrOutOfBounds (r : Region)
| PtrNotAligned (r : Region) (align : Z)
| PtrBorrowed (r : Region)
| BorrowCheckerOutOfHandles
| SliceLengthsDiffer
| InFunc (modulename funcname location : string) (err : GuestError)
| InvalidUtf8
| TryFromIntError.

(** ** Pointers *)

(** [GuestPtr::add] for a pointee of size [n]. *)
Definition ptr_add (n pointer amt : Z) : outcome GuestError Z :=
  match checked 32 (amt * n) ≫= (fun o => checked 32 (pointer + o)) with
  | Some o => Ok o
  | None => Err PtrOverflow
  end.

(** A [GuestPtr] to a slice or to a string. *)
Definition slice_ptr : Type := Z * Z.
Definition as_array (pointer elems : Z) : slice_ptr := (pointer, elems).
Definition offset_base (p : slice_ptr) : Z := p.1.
Definition ptr_len (p : slice_ptr) : Z := p.2.

(** The items of [GuestPtr::iter], in order. *)
Definition ptr_iter (n : Z) (p : slice_ptr) : list (outcome GuestError Z) :=
  map (fun i => ptr_add n (offset_base p) (Z.of_nat i)) (seq 0 (Z.to_nat (ptr_len p))).

(** [GuestPtr::get] and [get_range]: [expect] on the address computation. *)
Definition ptr_get {E} (n : Z) (p : slice_ptr) (index : Z) : outcome E (option Z) :=
  if index <? ptr_len p then
    q ← unwrap_result (ptr_add n (offset_base p) index);
    Ok (Some q)
  else Ok None.

Definition get_range {E} (n : Z) (p : slice_ptr) (r_start r_end : Z)
  : outcome E (option slice_ptr) :=
  if r_end <? r_start then Ok None
  else
    let range_length := r_end - r_start in
    if (r_start <=? ptr_len p) && (r_end <=? ptr_len p) then
      q ← unwrap_result (ptr_add n (offset_base p) r_start);
      Ok (Some (as_array q range_length))
    else Ok None.

(** ** [GuestMemory] *)

Inductive GuestMemory :=
| Unshared (base : Z) (bytes : list Z)
| Shared (base : Z) (bytes : list Z).

Definition mem_bytes (m : GuestMemory) : list Z :=
  match m with Unshared _ b | Shared _ b => b end.
Definition mem_base (m : GuestMemory) : Z :=
  match m with Unshared a _ | Shared a _ => a end.
Definition set_bytes (m : GuestMemory) (b : list Z) : GuestMemory :=
  match m with Unshared a _ => Unshared a b | Shared a _ => Shared a b end.
Definition mem_size (m : GuestMemory) : Z := Z.of_nat (length (mem_bytes m)).

Definition is_shared_memory (m : GuestMemory) : bool :=
  match m with Shared _ _ => true | Unshared _ _ => false end.

(** Bytes [off .. off + n] of a list, and their replacement. *)
Definition sub_bytes (l : list Z) (off n : Z) : list Z :=
  take (Z.to_nat n) (drop (Z.to_nat off) l).
Definition splice (l : list Z) (off : Z) (new : list Z) : list Z :=
  take (Z.to_nat off) l ++ new ++ drop (Z.to_nat off + length new) l.

(** [validate_range::<T>]: a byte range as its start and its length. *)
Definition validate_range (n : Z) (m : GuestMemory) (offset len : Z)
  : outcome GuestError (Z * Z) :=
  match checked 32 (len * n) with
  | None => Err PtrOverflow
  | Some byte_len =>
      if offset + byte_len <=? mem_size m then Ok (offset, byte_len)
      else Err (PtrOutOfBounds {| start := offset; len := byte_len |})
  end.

(** [&cells[s..s + l]]: indexing with a range panics out of range. *)
Definition slice_index {E} (m : GuestMemory) (s l : Z) : outcome E () :=
  assert_ ((s <=? s + l) && (s + l <=? mem_size m)).

(** [validate_size_align::<T>]: [align_to] leaves a head exactly when the slice
    is not empty and starts at a misaligned address; the length in bytes is a
    multiple of the size, so there is no tail otherwise.  The result is the place of
    the slice of [l / n] elements. *)
Definition validate_size_align (n : Z) (m : GuestMemory) (offset len : Z)
  : outcome GuestError (Z * Z) :=
  '(s, l) ← validate_range n m offset len;
  slice_index m s l;;
  if (0 <? l) && negb ((mem_base m + s) mod n =? 0)
  then Err (PtrNotAligned {| start := s; len := l |} n)
  else Ok (s, l).

Definition as_slice (m : GuestMemory) (p : slice_ptr) : outcome GuestError (option (list Z)) :=
  '(s, l) ← validate_range 1 m p.1 p.2;
  match m with
  | Unshared _ b => slice_index m s l;; Ok (Some (sub_bytes b s l))
  | Shared _ _ => Ok None
  end.

(** [as_slice_mut]: the borrowed range, through which the caller writes. *)
Definition as_slice_mut (m : GuestMemory) (p : slice_ptr) : outcome GuestError (option (Z * Z)) :=
  '(s, l) ← validate_range 1 m p.1 p.2;
  match m with
  | Unshared _ _ => slice_index m s l;; Ok (Some (s, l))
  | Shared _ _ => Ok None
  end.

(** Elements of size [n] as they lie in memory. *)
Fixpoint elements (n : nat) (count : nat) (bs : list Z) : list Z :=
  match count with
  | O => []
  | S k => le_value (take n bs) :: elements n k (drop n bs)
  end.
Definition flatten (n : nat) (vs : list Z) : list Z := vs ≫= le_bytes n.

Definition to_vec (n : Z) (m : GuestMemory) (p : slice_ptr) : outcome GuestError (list Z) :=
  '(s, l) ← validate_size_align n m p.1 p.2;
  Ok (elements (Z.to_nat n) (Z.to_nat (l / n)) (sub_bytes (mem_bytes m) s l)).

Definition copy_from_slice (n : Z) (m : GuestMemory) (slice : list Z) (p : slice_ptr)
  : outcome GuestError GuestMemory :=
  if negb (ptr_len p =? Z.of_nat (length slice)) then Err SliceLengthsDiffer
  else if (Z.of_nat (length slice) =? 0) then Ok m
  else
    '(s, l) ← validate_size_align n m p.1 p.2;
    _ ← assert_ (l / n =? Z.of_nat (length slice));
    Ok (set_bytes m (splice (mem_bytes m) s (flatten (Z.to_nat n) slice))).

Definition as_cow (m : GuestMemory) (p : slice_ptr) : outcome GuestError (list Z) :=
  match m with
  | Unshared _ _ =>
      o ← as_slice m p;
      match o with Some s => Ok s | None => Panic end
  | Shared _ _ => to_vec 1 m p
  end.

(** [std::str::from_utf8]: well-formed UTF-8 (no overlong forms, no surrogates,
    at most U+10FFFF). *)
Definition cont (b : Z) : bool := (128 <=? b) && (b <? 192).
Fixpoint valid_utf8 (bs : list Z) : bool :=
  match bs with
  | [] => true
  | b0 :: r0 =>
      if b0 <? 128 then valid_utf8 r0
      else match r0 with
      | [] => false
      | b1 :: r1 =>
          if (194 <=? b0) && (b0 <? 224) then cont b1 && valid_utf8 r1
          else match r1 with
          | [] => false
          | b2 :: r2 =>
              if (224 <=? b0) && (b0 <? 240) then
                (if b0 =? 224 then 160 <=? b1 else true)
                && (if b0 =? 237 then b1 <? 160 else true)
                && cont b1 && cont b2 && valid_utf8 r2
              else match r2 with
              | [] => false
              | b3 :: r3 =>
                  (240 <=? b0) && (b0 <? 245)
                  && (if b0 =? 240 then 144 <=? b1 else true)
                  && (if b0 =? 244 then b1 <? 144 else true)
                  && cont b1 && cont b2 && cont b3 && valid_utf8 r3
              end
          end
      end
  end.

Definition from_utf8 (bs : list Z) : outcome GuestError (list Z) :=
  if valid_utf8 bs then Ok bs else Err InvalidUtf8.

Definition as_cow_str (m : GuestMemory) (p : slice_ptr) : outcome GuestError (list Z) :=
  bs ← as_cow m p; from_utf8 bs.

Definition as_str (m : GuestMemory) (p : slice_ptr) : outcome GuestError (option (list Z)) :=
  o ← as_slice m p;
  match o with
  | Some bs => s ← from_utf8 bs; Ok (Some s)
  | None => Ok None
  end.

(** ** [guest_type.rs]

    [read] and [write] of an unsigned integer of [n] bytes; a signed integer or
    a float moves the same bytes.  [&host_ptr[0]] panics on an empty slice. *)
Definition read_uint (n : Z) (m : GuestMemory) (offset : Z) : outcome GuestError Z :=
  '(s, l) ← validate_size_align n m offset 1;
  assert_ (0 <? l / n);;
  Ok (le_value (sub_bytes (mem_bytes m) s l)).

Definition write_uint (n : Z) (m : GuestMemory) (offset val : Z)
  : outcome GuestError GuestMemory :=
  '(s, l) ← validate_size_align n m offset 1;
  assert_ (0 <? l / n);;
  Ok (set_bytes m (splice (mem_bytes m) s (le_bytes (Z.to_nat n) val))).

(** [GuestPtr<T>] and [GuestPtr<[T]>] in memory: one and two [u32]. *)
Definition read_ptr (m : GuestMemory) (offset : Z) : outcome GuestError Z :=
  read_uint 4 m offset.
Definition write_ptr (m : GuestMemory) (offset val : Z) : outcome GuestError GuestMemory :=
  write_uint 4 m offset val.

Definition read_slice_ptr (m : GuestMemory) (ptr : Z) : outcome GuestError slice_ptr :=
  offset ← read_uint 4 m ptr;
  ptr' ← ptr_add 4 ptr 1;
  len ← read_uint 4 m ptr';
  Ok (as_array offset len).

Definition write_slice_ptr (m : GuestMemory) (ptr : Z) (val : slice_ptr)
  : outcome GuestError GuestMemory :=
  let '(offset, len) := val in
  m1 ← write_uint 4 m ptr offset;
  ptr' ← ptr_add 4 ptr 1;
  write_uint 4 m1 ptr' len.

(** ** Byte ranges *)

Lemma length_sub_bytes l off n :
  0 <= off -> 0 <= n -> off + n <= Z.of_nat (length l) -> length (sub_bytes l off n) = Z.to_nat n.
Proof. intros. unfold sub_bytes. rewrite length_take, length_drop. lia. Qed.

Lemma length_splice l off new :
  0 <= off -> off + Z.of_nat (length new) <= Z.of_nat (length l) ->
  length (splice l off new) = length l.
Proof.
  intros. unfold splice. rewrite !length_app, length_take, length_drop. lia.
Qed.

(** Reading back what was written, and reading a range the write does not
    touch. *)
Lemma sub_bytes_splice_eq l off new :
  0 <= off -> off + Z.of_nat (length new) <= Z.of_nat (length l) ->
  sub_bytes (splice l off new) off (Z.of_nat (length new)) = new.
Proof.
  intros Ho Hl. unfold sub_bytes, splice. rewrite Nat2Z.id.
  rewrite drop_app_length' by (rewrite length_take; lia). by rewrite take_app_length.
Qed.

Lemma splice_lookup_ne l off new i :
  0 <= off -> off + Z.of_nat (length new) <= Z.of_nat (length l) ->
  (Z.of_nat i < off \/ off + Z.of_nat (length new) <= Z.of_nat i) ->
  splice l off new !! i = l !! i.
Proof.
  intros Ho Hl [Hi|Hi]; unfold splice.
  - rewrite lookup_app_l by (rewrite length_take; lia). rewrite lookup_take_lt by lia. done.
  - rewrite lookup_app_r by (rewrite length_take; lia).
    rewrite lookup_app_r by (rewrite length_take; lia).
    rewrite lookup_drop. f_equal. rewrite length_take. lia.
Qed.

(** Writing a range whose tail is what was there is writing its head. *)
Lemma splice_prefix l off n pre :
  0 <= off -> off + n <= Z.of_nat (length l) -> Z.of_nat (length pre) <= n ->
  splice l off (pre ++ drop (length pre) (sub_bytes l off n)) = splice l off pre.
Proof.
  intros Ho Hl Hp. unfold splice. f_equal. rewrite <- app_assoc. f_equal.
  rewrite length_app, length_drop, length_sub_bytes by lia. unfold sub_bytes.
  rewrite <- (drop_drop l (length pre) (Z.to_nat off)).
  replace (Z.to_nat off + (length pre + (Z.to_nat n - length pre)))%nat
    with (Z.to_nat off + Z.to_nat n)%nat by lia.
  rewrite <- (drop_drop l (Z.to_nat n) (Z.to_nat off)).
  rewrite <- drop_app_le by (rewrite length_take, length_drop; lia).
  by rewrite take_drop.
Qed.

Lemma sub_bytes_ext l l' off n :
  length l = length l' -> 0 <= off ->
  (forall i, off <= Z.of_nat i < off + n -> l !! i = l' !! i) ->
  sub_bytes l off n = sub_bytes l' off n.
Proof.
  intros Hl Ho H. apply list_eq. intros i. unfold sub_bytes.
  destruct (decide (i < Z.to_nat n)%nat).
  - rewrite !lookup_take_lt, !lookup_drop by done. apply H. lia.
  - rewrite !lookup_take_ge by lia. done.
Qed.

Lemma flatten_bytes n vs : Forall is_byte (flatten n vs).
Proof. apply Forall_bind, list.Forall_forall. intros x _. apply le_bytes_byte. Qed.

Lemma length_flatten n vs : length (flatten n vs) = (length vs * n)%nat.
Proof. apply length_bind_const. intros. apply length_le_bytes. Qed.

Lemma elements_flatten n vs :
  Forall (in_u (8 * Z.of_nat n)) vs -> elements n (length vs) (flatten n vs) = vs.
Proof.
  induction 1 as [|v vs Hv _ IH]; [done|]. cbn [length elements].
  change (flatten n (v :: vs)) with (le_bytes n v ++ flatten n vs).
  rewrite take_app_length', drop_app_length' by (by rewrite length_le_bytes).
  rewrite IH, le_value_bytes. f_equal. apply Z.mod_small. unfold in_u in Hv.
  replace (256 ^ Z.of_nat n) with (2 ^ (8 * Z.of_nat n)) by (rewrite Z.pow_mul_r by lia; done). lia.
Qed.

Lemma mem_bytes_set m b : mem_bytes (set_bytes m b) = b.
Proof. by destruct m. Qed.
Lemma mem_base_set m b : mem_base (set_bytes m b) = mem_base m.
Proof. by destruct m. Qed.

(** ** Validation *)

(** The sizes of the integer types. *)
Definition int_size (n : Z) : Prop := n = 1 \/ n = 2 \/ n = 4 \/ n = 8.

Lemma validate_range_Ok n m off l r :
  validate_range n m off l = Ok r <->
  r = (off, l * n) /\ in_u 32 (l * n) /\ off + l * n <= mem_size m.
Proof.
  unfold validate_range. destruct (checked 32 (l * n)) as [bl|] eqn:Hc.
  - apply checked_Some in Hc as [Hr ->]. destruct (Z.leb_spec (off + l * n) (mem_size m)).
    + naive_solver.
    + split; [done|]. intros (_ & _ & ?). lia.
  - apply checked_None in Hc. split; [done|]. tauto.
Qed.

Lemma validate_range_no_panic n m off l : validate_range n m off l <> Panic.
Proof. unfold validate_range. by repeat case_match. Qed.

Lemma slice_index_ok {E} m s l : 0 <= l -> s + l <= mem_size m -> slice_index (E:=E) m s l = Ok ().
Proof.
  intros Hl Hle. unfold slice_index. by rewrite (proj2 (Z.leb_le _ _)), (proj2 (Z.leb_le (s + l) _)) by lia.
Qed.

Lemma validate_size_align_Ok n m off l r :
  validate_size_align n m off l = Ok r <->
  r = (off, l * n) /\ in_u 32 (l * n) /\ off + l * n <= mem_size m /\
  (l * n = 0 \/ (mem_base m + off) mod n = 0).
Proof.
  unfold validate_size_align. split.
  - intros H. apply bind_Ok_inv in H as ([s bl] & Hv & H).
    apply validate_range_Ok in Hv as ([= -> ->] & Hu & Hle). unfold in_u in Hu.
    rewrite slice_index_ok in H by lia. cbn [mbind outcome_bind] in H.
    split_guard_in H; [done|]. injection H as <-. split_and!; [done|done|lia|].
    zbool. destruct Hg as [H|H]; zbool; [left; lia|by right].
  - intros (-> & Hu & Hle & Ha).
    assert (Hv : validate_range n m off l = Ok (off, l * n)) by (by apply validate_range_Ok).
    rewrite Hv. cbn [mbind outcome_bind]. rewrite slice_index_ok by (unfold in_u in Hu; lia). cbn. destruct Ha as [Ha|Ha].
    + by rewrite Ha.
    + rewrite Ha. cbn. by rewrite andb_false_r.
Qed.

Lemma validate_size_align_no_panic n m off l : validate_size_align n m off l <> Panic.
Proof.
  unfold validate_size_align. pose proof (validate_range_no_panic n m off l).
  destruct (validate_range n m off l) as [[s bl]| |] eqn:Hv; [|done|done]. cbn [mbind outcome_bind].
  apply validate_range_Ok in Hv as ([= -> ->] & Hu & Hle). rewrite slice_index_ok by (unfold in_u in Hu; lia).
  cbn. by case_match.
Qed.

Lemma ptr_add_Ok n p k q :
  ptr_add n p k = Ok q <-> q = p + k * n /\ in_u 32 (k * n) /\ in_u 32 (p + k * n).
Proof.
  unfold ptr_add. destruct (checked 32 (k * n)) as [o|] eqn:H1; cbn.
  - apply checked_Some in H1 as [H1 ->]. destruct (checked 32 (p + k * n)) as [o|] eqn:H2.
    + apply checked_Some in H2 as [H2 ->]. naive_solver.
    + apply checked_None in H2. naive_solver.
  - apply checked_None in H1. naive_solver.
Qed.

Lemma ptr_add_no_panic n p k : ptr_add n p k <> Panic.
Proof. unfold ptr_add. by case_match. Qed.

Lemma validate_set n m b off l :
  length b = length (mem_bytes m) ->
  validate_size_align n (set_bytes m b) off l = validate_size_align n m off l.
Proof.
  intros Hb. unfold validate_size_align, validate_range, slice_index, mem_size.
  by rewrite mem_bytes_set, mem_base_set, Hb.
Qed.

(** ** Properties *)

(** What a call that returns gives ([P]); it never panics. *)
Definition returns {A} (r : outcome GuestError A) (P : A -> Prop) : Prop :=
  match r with Ok a => P a | Err _ => True | Panic => False end.

(** The range [off .. off + l] of the memory, and a write that stays inside it. *)
Definition inside (m : GuestMemory) (off l : Z) : Prop :=
  0 <= off /\ 0 <= l /\ off + l <= mem_size m.
Definition written (m : GuestMemory) (off l : Z) (m' : GuestMemory) : Prop :=
  inside m off l /\ mem_base m' = mem_base m /\ is_shared_memory m' = is_shared_memory m /\
  length (mem_bytes m') = length (mem_bytes m) /\
  forall i, Z.of_nat i < off \/ off + l <= Z.of_nat i -> mem_bytes m' !! i = mem_bytes m !! i.

Lemma returns_intro {A} (r : outcome GuestError A) P :
  r <> Panic -> (forall a, r = Ok a -> P a) -> returns r P.
Proof. destruct r; cbn; naive_solver. Qed.

Lemma returns_mono {A} (r : outcome GuestError A) (P Q : A -> Prop) :
  returns r P -> (forall a, P a -> Q a) -> returns r Q.
Proof. destruct r; cbn; naive_solver. Qed.

Lemma returns_bind {A B} (r : outcome GuestError A) (f : A -> outcome GuestError B) P Q :
  returns r P -> (forall a, P a -> returns (f a) Q) -> returns (r ≫= f) Q.
Proof. destruct r; cbn; naive_solver. Qed.

Lemma written_splice m off new :
  inside m off (Z.of_nat (length new)) ->
  written m off (Z.of_nat (length new)) (set_bytes m (splice (mem_bytes m) off new)).
Proof.
  intros Hi. pose proof Hi as (H1 & H2 & H3). unfold mem_size in H3. unfold written.
  rewrite mem_base_set, mem_bytes_set. split_and!; [done|done|by destruct m| |].
  - apply length_splice; lia.
  - intros i Hne. apply splice_lookup_ne; [lia..|done].
Qed.

Lemma written_trans m off k l m1 m2 :
  written m off k m1 -> written m1 (off + k) l m2 -> written m off (k + l) m2.
Proof.
  intros ((?&?&?) & Hb1 & Hs1 & Hl1 & Ho1) ((?&?&H3) & Hb2 & Hs2 & Hl2 & Ho2). unfold mem_size in *.
  unfold written, inside, mem_size. split_and!; [lia..|congruence|congruence|congruence|].
  intros i Hi. rewrite Ho2, Ho1; [done|lia..].
Qed.

Lemma elements_lookup n c bs i :
  (i < c)%nat -> elements n c bs !! i = Some (le_value (take n (drop (i * n) bs))).
Proof.
  revert bs i. induction c; intros bs i Hi; [lia|]. destruct i as [|i]; [done|]. cbn [elements].
  change ((le_value (take n bs) :: elements n c (drop n bs)) !! S i)
    with (elements n c (drop n bs) !! i).
  rewrite IHc by lia. rewrite drop_drop. repeat f_equal.
Qed.

Lemma length_elements n c bs : length (elements n c bs) = c.
Proof. revert bs. induction c; intros bs; cbn; [done|]. by rewrite IHc. Qed.

Lemma sub_bytes_sub l off n k w :
  0 <= off -> 0 <= k -> 0 <= w -> k + w <= n ->
  take (Z.to_nat w) (drop (Z.to_nat k) (sub_bytes l off n)) = sub_bytes l (off + k) w.
Proof.
  intros. unfold sub_bytes. apply list_eq. intros i.
  destruct (decide (i < Z.to_nat w)%nat).
  - rewrite !lookup_take_lt by done. rewrite !lookup_drop, lookup_take_lt, lookup_drop by lia.
    f_equal. lia.
  - by rewrite !lookup_take_ge by lia.
Qed.

Section Checked.
Context (m : GuestMemory).

Lemma range_returns n off l :
  0 <= off -> returns (validate_range n m off l) (fun r => r = (off, l * n) /\ inside m off (l * n)).
Proof.
  intros Ho. apply returns_intro; [apply validate_range_no_panic|].
  intros r (-> & Hu & Hle)%validate_range_Ok. unfold in_u in Hu. unfold inside. split; [done|lia].
Qed.

Lemma aligned_returns n off l :
  0 <= off -> returns (validate_size_align n m off l) (fun r => r = (off, l * n) /\ inside m off (l * n)).
Proof.
  intros Ho. apply returns_intro; [apply validate_size_align_no_panic|].
  intros r (-> & Hu & Hle & _)%validate_size_align_Ok. unfold in_u in Hu. unfold inside. split; [done|lia].
Qed.

Lemma as_slice_returns p :
  0 <= p.1 ->
  returns (as_slice m p) (fun o => inside m p.1 p.2 /\
    o = if is_shared_memory m then None else Some (sub_bytes (mem_bytes m) p.1 p.2)).
Proof.
  intros Ho. unfold as_slice. eapply returns_bind; [by apply range_returns|].
  intros r [-> (? & ? & ?)]. rewrite Z.mul_1_r in *. destruct m; cbn -[slice_index].
  - by rewrite slice_index_ok by done.
  - done.
Qed.

Lemma as_slice_mut_returns p :
  0 <= p.1 ->
  returns (as_slice_mut m p) (fun o => inside m p.1 p.2 /\
    o = if is_shared_memory m then None else Some p).
Proof.
  intros Ho. unfold as_slice_mut. eapply returns_bind; [by apply range_returns|].
  intros r [-> (? & ? & ?)]. rewrite Z.mul_1_r in *. destruct m; cbn -[slice_index].
  - rewrite slice_index_ok by done. by destruct p.
  - done.
Qed.

Lemma to_vec_returns n p :
  0 < n -> 0 <= p.1 ->
  returns (to_vec n m p) (fun vs => inside m p.1 (p.2 * n) /\ Z.of_nat (length vs) = p.2 /\
    forall i, Z.of_nat i < p.2 ->
      vs !! i = Some (le_value (sub_bytes (mem_bytes m) (p.1 + Z.of_nat i * n) n))).
Proof.
  intros Hn Ho. unfold to_vec. eapply returns_bind; [by apply aligned_returns|].
  intros r [-> Hin]. cbn. split; [done|]. destruct Hin as (? & ? & ?).
  rewrite Z.div_mul by lia. split; [rewrite length_elements; nia|].
  intros i Hi. rewrite elements_lookup by lia.
  rewrite <- (sub_bytes_sub _ p.1 (p.2 * n) (Z.of_nat i * n) n) by nia.
  repeat f_equal. lia.
Qed.

Lemma as_cow_returns p :
  0 <= p.1 ->
  returns (as_cow m p) (fun bs => inside m p.1 p.2 /\ bs = sub_bytes (mem_bytes m) p.1 p.2).
Proof.
  intros Ho. unfold as_cow. destruct m as [b bs|b bs] eqn:Hm.
  - rewrite <- Hm. eapply returns_bind; [by apply as_slice_returns|].
    intros o [Hin ->]. rewrite Hm in *. done.
  - rewrite <- Hm. eapply returns_mono; [apply to_vec_returns; [lia|done]|].
    intros vs (Hin & Hl & Hv). rewrite Z.mul_1_r in Hin. split; [done|].
    destruct Hin as (? & ? & Hle). unfold mem_size in Hle.
    apply list_eq_same_length with (n := length vs); [rewrite length_sub_bytes by lia; lia|done|].
    intros i x y Hi Hx Hy. rewrite Hv, Z.mul_1_r in Hx by lia. injection Hx as <-.
    rewrite <- (sub_bytes_sub _ p.1 p.2 (Z.of_nat i) 1), Nat2Z.id by lia.
    change (Z.to_nat 1) with 1%nat.
    rewrite (drop_S _ y i Hy). cbn [take le_value]. rewrite take_0. cbn [le_value]. lia.
Qed.

Lemma from_utf8_returns bs : returns (from_utf8 bs) (fun s => s = bs /\ valid_utf8 bs = true).
Proof. unfold from_utf8. by case_match. Qed.

Lemma copy_returns n p vs :
  0 < n -> 0 <= p.1 ->
  returns (copy_from_slice n m vs p) (fun m' => p.2 = Z.of_nat (length vs) /\
    ((vs = [] /\ m' = m) \/ written m p.1 (p.2 * n) m')).
Proof.
  intros Hn Ho. unfold copy_from_slice, ptr_len.
  destruct (Z.eqb_spec p.2 (Z.of_nat (length vs))) as [Hl|]; cbn [negb]; [|done].
  destruct (Z.eqb_spec (Z.of_nat (length vs)) 0) as [H0|].
  { cbn. split; [done|]. left. by destruct vs. }
  eapply returns_bind; [by apply aligned_returns|]. intros r [-> Hin].
  rewrite Z.div_mul, Hl, Z.eqb_refl by lia. cbn. split; [done|]. right. rewrite <- Hl.
  assert (Hf : p.2 * n = Z.of_nat (length (flatten (Z.to_nat n) vs))) by (rewrite length_flatten; lia).
  rewrite Hf in *. by apply written_splice.
Qed.

Lemma read_uint_returns n off :
  0 < n -> 0 <= off ->
  returns (read_uint n m off) (fun v => inside m off n /\ v = le_value (sub_bytes (mem_bytes m) off n)).
Proof.
  intros Hn Ho. unfold read_uint. eapply returns_bind; [by apply aligned_returns|].
  intros r [-> Hin]. rewrite Z.mul_1_l, Z.div_same in * by lia. done.
Qed.

Lemma write_uint_returns n off v :
  0 < n -> 0 <= off -> returns (write_uint n m off v) (written m off n).
Proof.
  intros Hn Ho. unfold write_uint. eapply returns_bind; [by apply aligned_returns|].
  intros r [-> Hin]. rewrite Z.mul_1_l, Z.div_same in * by lia. cbn.
  assert (Hf : n = Z.of_nat (length (le_bytes (Z.to_nat n) v))) by (rewrite length_le_bytes; lia).
  rewrite Hf in Hin |- * at 1. by apply written_splice.
Qed.

Lemma ptr_add_returns n p k : returns (ptr_add n p k) (fun q => q = p + k * n).
Proof.
  apply returns_intro; [apply ptr_add_no_panic|]. by intros q (-> & _)%ptr_add_Ok.
Qed.
End Checked.

Lemma read_slice_ptr_returns m off :
  0 <= off ->
  returns (read_slice_ptr m off) (fun p => inside m off 8 /\
    p = (le_value (sub_bytes (mem_bytes m) off 4), le_value (sub_bytes (mem_bytes m) (off + 4) 4))).
Proof.
  intros Ho. unfold read_slice_ptr. eapply returns_bind; [apply read_uint_returns; [lia|done]|].
  intros o [(? & ? & ?) ->]. eapply returns_bind; [apply ptr_add_returns|].
  intros q ->. rewrite Z.mul_1_l. eapply returns_bind; [apply read_uint_returns; lia|].
  intros l [(? & ? & ?) ->]. unfold inside, as_array. cbn. split; [lia|done].
Qed.

Lemma write_slice_ptr_returns m off val :
  0 <= off -> returns (write_slice_ptr m off val) (written m off 8).
Proof.
  intros Ho. destruct val as [o l]. unfold write_slice_ptr.
  eapply returns_bind; [apply write_uint_returns; [lia|done]|]. intros m1 Hw.
  eapply returns_bind; [apply ptr_add_returns|]. intros q ->. rewrite Z.mul_1_l.
  eapply returns_mono; [apply write_uint_returns; lia|]. intros m2 Hw2. by apply (written_trans m off 4 4 m1 m2).
Qed.

(** An access is accepted exactly when its range lies inside the memory and its
    address is aligned. *)
Lemma as_slice_accepts m p :
  in_u 32 p.1 -> in_u 32 p.2 -> is_Ok (as_slice m p) <-> inside m p.1 p.2.
Proof.
  intros H1 H2. unfold in_u in H1. split.
  - intros [o Ho]. pose proof (as_slice_returns m p (proj1 H1)) as Hr. rewrite Ho in Hr. apply Hr.
  - intros (? & ? & ?). unfold as_slice.
    rewrite (proj2 (validate_range_Ok 1 m p.1 p.2 (p.1, p.2)))
      by (rewrite Z.mul_1_r; split_and!; [done..|lia]).
    cbn [mbind outcome_bind]. destruct m; [|by eexists]. rewrite slice_index_ok by done. by eexists.
Qed.

Lemma validate_accepts n m off l :
  0 <= off -> 0 <= l ->
  is_Ok (validate_size_align n m off l) <->
  in_u 32 (l * n) /\ inside m off (l * n) /\ (l * n = 0 \/ (mem_base m + off) mod n = 0).
Proof.
  intros Ho Hl. unfold is_Ok, inside. setoid_rewrite validate_size_align_Ok.
  unfold in_u. naive_solver lia.
Qed.

Lemma uint_accepts n m off v :
  int_size n -> in_u 32 off ->
  (is_Ok (read_uint n m off) <-> inside m off n /\ (mem_base m + off) mod n = 0) /\
  (is_Ok (write_uint n m off v) <-> inside m off n /\ (mem_base m + off) mod n = 0).
Proof.
  intros Hn Ho. assert (0 < n /\ in_u 32 n) as [H0 Hu] by (unfold int_size, in_u in *; lia).
  pose proof (validate_accepts n m off 1 (proj1 Ho) ltac:(lia)) as Hv. rewrite Z.mul_1_l in Hv.
  assert (Hv' : is_Ok (validate_size_align n m off 1) <-> inside m off n /\ (mem_base m + off) mod n = 0).
  { rewrite Hv. naive_solver lia. }
  unfold read_uint, write_uint. rewrite !bind_is_Ok, <- !Hv'.
  assert (Hd : forall s l, validate_size_align n m off 1 = Ok (s, l) -> l / n = 1).
  { intros s l H. apply validate_size_align_Ok in H as ([= -> ->] & _). rewrite Z.mul_1_l, Z.div_same; lia. }
  split; (split; [intros ([s l] & -> & _); by eexists|]); intros [[s l] Hok]; exists (s, l);
    (split; [done|]); rewrite (Hd s l Hok); by eexists.
Qed.

Lemma to_vec_accepts n m p :
  0 <= p.1 -> 0 <= p.2 ->
  is_Ok (to_vec n m p) <->
  in_u 32 (p.2 * n) /\ inside m p.1 (p.2 * n) /\ (p.2 * n = 0 \/ (mem_base m + p.1) mod n = 0).
Proof.
  intros H1 H2. rewrite <- validate_accepts by done. unfold to_vec. rewrite bind_is_Ok.
  split; [intros ([s l] & -> & _); by eexists|]. intros [[s l] H]. exists (s, l). split; [done|]. by eexists.
Qed.

(** C10: The accesses of the host to guest memory, for every pointer a guest can
    pass, every memory and every integer type: no access panics (the range
    indexing and [host_ptr[0]] included); a read that returns gives the bytes of the
    range its pointer names, which lies inside the memory; a write that returns changes
    no byte outside that range and neither moves nor resizes the memory; and a read or a write of an
    integer, a slice or a vector is accepted exactly when its range lies inside the
    memory and its address is aligned. *)
Theorem accesses_checked n m p off :
  int_size n -> in_u 32 p.1 -> in_u 32 p.2 -> in_u 32 off ->
  let bytes := sub_bytes (mem_bytes m) p.1 p.2 in
  returns (as_slice m p) (fun o =>
    inside m p.1 p.2 /\ o = if is_shared_memory m then None else Some bytes) /\
  returns (as_slice_mut m p) (fun o =>
    inside m p.1 p.2 /\ o = if is_shared_memory m then None else Some p) /\
  returns (as_cow m p) (fun bs => inside m p.1 p.2 /\ bs = bytes) /\
  returns (as_cow_str m p) (fun s => inside m p.1 p.2 /\ s = bytes /\ valid_utf8 s = true) /\
  returns (as_str m p) (fun o => inside m p.1 p.2 /\
    o = (if is_shared_memory m then None else Some bytes) /\
    forall s, o = Some s -> valid_utf8 s = true) /\
  returns (to_vec n m p) (fun vs => inside m p.1 (p.2 * n) /\ Z.of_nat (length vs) = p.2 /\
    forall i, Z.of_nat i < p.2 ->
      vs !! i = Some (le_value (sub_bytes (mem_bytes m) (p.1 + Z.of_nat i * n) n))) /\
  (forall vs, returns (copy_from_slice n m vs p) (fun m' => p.2 = Z.of_nat (length vs) /\
    ((vs = [] /\ m' = m) \/ written m p.1 (p.2 * n) m'))) /\
  returns (read_uint n m off) (fun v =>
    inside m off n /\ v = le_value (sub_bytes (mem_bytes m) off n)) /\
  (forall v, returns (write_uint n m off v) (written m off n)) /\
  returns (read_slice_ptr m off) (fun q => inside m off 8 /\
    q = (le_value (sub_bytes (mem_bytes m) off 4), le_value (sub_bytes (mem_bytes m) (off + 4) 4))) /\
  (forall q, returns (write_slice_ptr m off q) (written m off 8)) /\
  (is_Ok (as_slice m p) <-> inside m p.1 p.2) /\
  (is_Ok (to_vec n m p) <-> in_u 32 (p.2 * n) /\ inside m p.1 (p.2 * n) /\
     (p.2 * n = 0 \/ (mem_base m + p.1) mod n = 0)) /\
  (is_Ok (read_uint n m off) <-> inside m off n /\ (mem_base m + off) mod n = 0) /\
  (forall v, is_Ok (write_uint n m off v) <-> inside m off n /\ (mem_base m + off) mod n = 0).
Proof.
  intros Hn H1 H2 Ho bytes. assert (0 < n) by (unfold int_size in Hn; lia).
  pose proof (proj1 H1). pose proof (proj1 H2). pose proof (proj1 Ho).
  split_and!; try intros ?;
    auto using as_slice_returns, as_slice_mut_returns, as_cow_returns, to_vec_returns, copy_returns,
      read_uint_returns, write_uint_returns, read_slice_ptr_returns, write_slice_ptr_returns,
      as_slice_accepts, to_vec_accepts.
  - unfold as_cow_str. eapply returns_bind; [by apply as_cow_returns|]. intros bs [Hin ->].
    eapply returns_mono; [apply from_utf8_returns|]. naive_solver.
  - unfold as_str. eapply returns_bind; [by apply as_slice_returns|]. intros o [Hin ->].
    destruct (is_shared_memory m); [done|].
    eapply returns_bind; [apply from_utf8_returns|]. intros s [-> Hv]. cbn. naive_solver.
  - by apply (uint_accepts n m off 0).
  - by apply uint_accepts.
Qed.

Lemma write_uint_Ok n m off val m' :
  0 < n -> 0 <= off -> write_uint n m off val = Ok m' ->
  validate_size_align n m off 1 = Ok (off, n) /\ off + n <= mem_size m /\
  m' = set_bytes m (splice (mem_bytes m) off (le_bytes (Z.to_nat n) val)) /\
  length (mem_bytes m') = length (mem_bytes m).
Proof.
  intros Hn Ho H. unfold write_uint in H. apply bind_Ok_inv in H as ([s l] & Hv & H).
  apply bind_Ok_inv in H as ([] & _ & [= <-]).
  pose proof Hv as (Heq & Hu & Hle & _)%validate_size_align_Ok. injection Heq as -> ->.
  rewrite Z.mul_1_l in *. split_and!; [done..|].
  rewrite mem_bytes_set. apply length_splice; [done|]. rewrite length_le_bytes. unfold mem_size in Hle. lia.
Qed.

(** A successful write of an integer is read back as the value written, and
    changes no byte outside the [n] bytes at the offset (so a read of a
    disjoint range is unchanged). *)
Theorem write_read_roundtrip n m off val m' :
  int_size n -> 0 <= off -> in_u (8 * n) val ->
  write_uint n m off val = Ok m' ->
  read_uint n m' off = Ok val /\
  length (mem_bytes m') = length (mem_bytes m) /\
  (forall i, Z.of_nat i < off \/ off + n <= Z.of_nat i -> mem_bytes m' !! i = mem_bytes m !! i) /\
  (forall k off', int_size k -> 0 <= off' -> off' + k <= off \/ off + n <= off' ->
     read_uint k m' off' = read_uint k m off').
Proof.
  intros Hn Ho Hval Hw. assert (0 < n) by (unfold int_size in Hn; lia).
  destruct (write_uint_Ok n m off val m') as (Hv & Hle & -> & Hlen); [done..|].
  rewrite mem_bytes_set in Hlen. unfold mem_size in Hle.
  assert (Hln : Z.of_nat (length (le_bytes (Z.to_nat n) val)) = n) by (rewrite length_le_bytes; lia).
  assert (Hne : forall i, Z.of_nat i < off \/ off + n <= Z.of_nat i ->
             splice (mem_bytes m) off (le_bytes (Z.to_nat n) val) !! i = mem_bytes m !! i).
  { intros i Hi. apply splice_lookup_ne; [lia..|]. by rewrite Hln. }
  rewrite mem_bytes_set. split_and!; [|done|done|].
  - unfold read_uint. rewrite validate_set, Hv by done. cbn [mbind outcome_bind].
    rewrite Z.div_same by lia. cbn [assert_ Z.ltb Z.compare mbind outcome_bind]. f_equal.
    pose proof (sub_bytes_splice_eq (mem_bytes m) off (le_bytes (Z.to_nat n) val)) as Hs.
    rewrite Hln in Hs. rewrite mem_bytes_set, Hs by lia.
    rewrite le_value_bytes. apply Z.mod_small. unfold in_u in Hval.
    replace (256 ^ Z.of_nat (Z.to_nat n)) with (2 ^ (8 * n)); [done|].
    rewrite Z2Nat.id, Z.pow_mul_r by lia. done.
  - intros k off' Hk Ho' Hdis. unfold read_uint. rewrite validate_set by done.
    destruct (validate_size_align k m off' 1) as [[s l]| |] eqn:Hv'; cbn; [|done..].
    apply validate_size_align_Ok in Hv' as ([= -> ->] & _).
    destruct (assert_ _) as [[]| |]; [|done..]. cbn. f_equal. f_equal.
    rewrite mem_bytes_set. apply sub_bytes_ext; [done..|]. intros i Hi. apply Hne. lia.
Qed.

(** Copying host values into a guest slice and reading that slice back gives
    the values; a copy of another length is refused. *)
Theorem copy_to_vec_roundtrip n m vs p m' :
  int_size n -> 0 <= offset_base p -> Forall (in_u (8 * n)) vs ->
  copy_from_slice n m vs p = Ok m' ->
  ptr_len p = Z.of_nat (length vs) /\ (vs <> [] -> to_vec n m' p = Ok vs).
Proof.
  intros Hn Ho Hvs H. destruct p as [o l]. unfold offset_base, ptr_len in *. cbn in *.
  assert (Hn0 : 0 < n) by (unfold int_size in Hn; lia).
  unfold copy_from_slice, ptr_len in H. cbn [fst snd] in H.
  split_guard_in H; [done|]. zbool. split; [done|]. intros Hne.
  split_guard_in H; zbool; [destruct vs; cbn in *; [done|lia]|].
  apply bind_Ok_inv in H as ([s bl] & Hv & H). outcome_inv. zbool.
  pose proof Hv as (Heq & Hu & Hle & _)%validate_size_align_Ok. injection Heq as -> ->.
  unfold mem_size in Hle.
  assert (Hlf : Z.of_nat (length (flatten (Z.to_nat n) vs)) = Z.of_nat (length vs) * n)
    by (rewrite length_flatten; lia).
  unfold to_vec. cbn [fst snd]. rewrite validate_set by (apply length_splice; lia).
  rewrite Hv. cbn [mbind outcome_bind]. f_equal. rewrite mem_bytes_set.
  pose proof (sub_bytes_splice_eq (mem_bytes m) o (flatten (Z.to_nat n) vs)) as Hs.
  rewrite Hlf in Hs. rewrite Hs by lia.
  rewrite Z.div_mul, Nat2Z.id by lia. apply elements_flatten.
  by rewrite Z2Nat.id by lia.
Qed.

(** [Region::overlaps] holds exactly when the two regions share an address;
    it needs no overflow check, and empty regions share none. *)
Theorem overlaps_spec r1 r2 :
  0 <= len r1 -> 0 <= len r2 ->
  overlaps r1 r2 = true <->
  exists a, start r1 <= a < start r1 + len r1 /\ start r2 <= a < start r2 + len r2.
Proof.
  intros H1 H2. unfold overlaps.
  destruct (Z.eqb_spec (len r1) 0), (Z.eqb_spec (len r2) 0); cbn;
    try (split; [done|intros (a & ? & ?); lia]).
  destruct (Z.leb_spec (start r1) (start r2)); rewrite Z.leb_le.
  - split; [intros; exists (start r2); lia|intros (a & ? & ?); lia].
  - split; [intros; exists (start r1); lia|intros (a & ? & ?); lia].
Qed.

(** Indexing a guest slice below its length panics exactly when the element
    lies past the end of the 32-bit address space, although the code expects
    the bounds check against the length to exclude this: base and length both
    come from the guest. *)
Theorem ptr_get_panics_iff n p index :
  0 < n -> in_u 32 (offset_base p) -> 0 <= index -> index < ptr_len p ->
  ptr_get (E:=Empty_set) n p index = Panic <-> 2 ^ 32 <= offset_base p + index * n.
Proof.
  intros Hn Hb Hi Hl. unfold ptr_get. rewrite (proj2 (Z.ltb_lt _ _)) by done.
  destruct (ptr_add n (offset_base p) index) as [q|e|] eqn:Hq; cbn.
  - apply ptr_add_Ok in Hq as (-> & _ & Hu). unfold in_u in Hu. split; [done|lia].
  - split; [|done]. intros _. unfold in_u in Hb.
    destruct (Z.le_gt_cases (2 ^ 32) (offset_base p + index * n)); [done|].
    assert (ptr_add n (offset_base p) index = Ok (offset_base p + index * n)).
    { apply ptr_add_Ok. unfold in_u. split_and!; [done|nia..]. }
    congruence.
  - by apply ptr_add_no_panic in Hq.
Qed.

(** ** Witnesses *)

Definition small_memory : GuestMemory := Unshared 4096 (replicate 16 7).

Lemma accesses_checked_witness :
  as_slice small_memory (12, 4) = Ok (Some [7; 7; 7; 7]) /\
  as_slice small_memory (12, 5) = Err (PtrOutOfBounds (Region_new 12 5)) /\
  is_Ok (read_uint 4 small_memory 12) /\
  returns (write_uint 4 small_memory 12 9) (written small_memory 12 4).
Proof.
  destruct (accesses_checked 4 small_memory (12, 4) 12)
    as (_ & _ & _ & _ & _ & _ & _ & _ & Hw & _ & _ & _ & _ & Hr & _);
    [right; right; left; reflexivity|split; [cbn; lia|reflexivity]..|].
  split; [reflexivity|]. split; [reflexivity|]. split; [|apply Hw].
  apply Hr. split; [unfold inside, mem_size; cbn; lia|reflexivity].
Defined.

Lemma write_read_roundtrip_witness :
  exists m', write_uint 4 small_memory 8 3735928559 = Ok m' /\
    read_uint 4 m' 8 = Ok 3735928559 /\ read_uint 4 m' 4 = read_uint 4 small_memory 4.
Proof.
  eexists. split; [vm_compute; reflexivity|].
  destruct (write_read_roundtrip 4 small_memory 8 3735928559
              (Unshared 4096 (replicate 8 7 ++ [239; 190; 173; 222] ++ replicate 4 7)))
    as (Hr & _ & _ & Hd).
  - right; right; left; reflexivity.
  - lia.
  - unfold in_u. lia.
  - vm_compute; reflexivity.
  - split; [exact Hr|]. apply (Hd 4 4); [right; right; left; reflexivity|lia|lia].
Defined.

Lemma copy_to_vec_roundtrip_witness :
  exists m', copy_from_slice 2 small_memory [513; 65535] (4, 2) = Ok m' /\
    to_vec 2 m' (4, 2) = Ok [513; 65535].
Proof.
  eexists. split; [vm_compute; reflexivity|].
  apply (copy_to_vec_roundtrip 2 small_memory [513; 65535] (4, 2)
           (Unshared 4096 (replicate 4 7 ++ [1; 2; 255; 255] ++ replicate 8 7))).
  - right; left; reflexivity.
  - cbn. lia.
  - repeat constructor; cbn; lia.
  - vm_compute; reflexivity.
  - discriminate.
Defined.

Lemma overlaps_spec_witness :
  overlaps (Region_new 0 10) (Region_new 9 10) = true /\
  exists a, 0 <= a < 0 + 10 /\ 9 <= a < 9 + 10.
Proof.
  split; [reflexivity|].
  apply (overlaps_spec (Region_new 0 10) (Region_new 9 10)); [cbn; lia|cbn; lia|reflexivity].
Defined.

Lemma ptr_get_panics_iff_witness :
  ptr_get (E:=Empty_set) 4 (u32_max, 2) 1 = Panic.
Proof.
  apply (ptr_get_panics_iff 4 (u32_max, 2) 1); unfold in_u, offset_base, ptr_len, u32_max; cbn; lia.
Defined.
