(* ===== verification/NnCtx.v ===== *)
(** * wasi-nn host state

    [src/wasmtime-repo/crates/wasi-nn/src]: [ctx.rs] (the handle tables and
    [WasiNnCtx], [preload]), [backend/mod.rs] (what a backend is),
    [registry/in_memory.rs] (graphs by name) and the type conversions of
    [witx.rs] and [wit.rs].  The traits a backend implements are the class
    [BackendOps]; the host functions are proved against that class. *)

From Stdlib Require Import ZArith Lia.
From stdpp Require Import base list gmap strings numbers countable.
From S2P Require Import Prelude Float32 Wiggle.
Open Scope Z_scope.

(** ** Types shared by the two interfaces *)

Inductive GraphEncoding := Openvino | Onnx | Tensorflow | Pytorch | Tensorflowlite | Autodetect.
Inductive ExecutionTarget := Cpu | Gpu | Tpu.
Inductive TensorType := Fp16 | Fp32 | Fp64 | Bf16 | U8 | I32 | I64.

#[global] Instance GraphEncoding_eq : EqDecision GraphEncoding.
Proof. solve_decision. Defined.

Definition encoding_code (e : GraphEncoding) : nat :=
  match e with
  | Openvino => 0 | Onnx => 1 | Tensorflow => 2 | Pytorch => 3
  | Tensorflowlite => 4 | Autodetect => 5
  end.
Definition encoding_decode (n : nat) : option GraphEncoding :=
  [Openvino; Onnx; Tensorflow; Pytorch; Tensorflowlite; Autodetect] !! n.
#[global] Instance GraphEncoding_countable : Countable GraphEncoding.
Proof. apply (inj_countable encoding_code encoding_decode). by intros []. Defined.

Record Tensor := { dimensions : list Z; tensor_type : TensorType; data : list Z }.

(** [witx.rs]: the types of the WITX interface and their conversion. *)
Module witx.
Inductive TensorType' := F16 | F32 | F64 | WU8 | WI32 | WI64.
Inductive GraphEncoding' :=
| WOpenvino | WOnnx | WTensorflow | WPytorch | WTensorflowlite | WAutodetect.
Inductive ExecutionTarget' := WCpu | WGpu | WTpu.

Definition target_from (v : ExecutionTarget') : ExecutionTarget :=
  match v with WCpu => Cpu | WGpu => Gpu | WTpu => Tpu end.
Definition encoding_from (v : GraphEncoding') : GraphEncoding :=
  match v with
  | WOpenvino => Openvino | WOnnx => Onnx | WTensorflow => Tensorflow
  | WPytorch => Pytorch | WTensorflowlite => Tensorflowlite | WAutodetect => Autodetect
  end.
Definition tensor_type_from (v : TensorType') : TensorType :=
  match v with
  | F16 => Fp16 | F32 => Fp32 | WU8 => U8 | WI32 => I32 | WI64 => I64 | F64 => Fp64
  end.
End witx.

(** [str::to_lowercase] on ASCII. *)
Definition ascii_lower (a : Ascii.ascii) : Ascii.ascii :=
  let n := Ascii.nat_of_ascii a in
  if ((65 <=? n) && (n <=? 90))%nat then Ascii.ascii_of_nat (n + 32) else a.
Fixpoint to_lowercase (s : string) : string :=
  match s with
  | EmptyString => EmptyString
  | String a s => String (ascii_lower a) (to_lowercase s)
  end.

(** [GraphEncoding::from_str]. *)
Definition encoding_from_str (s : string) : option GraphEncoding :=
  let l := to_lowercase s in
  if decide (l = "openvino"%string) then Some Openvino
  else if decide (l = "onnx"%string) then Some Onnx
  else if decide (l = "pytorch"%string) then Some Pytorch
  else if decide (l = "tensorflow"%string) then Some Tensorflow
  else if decide (l = "tensorflowlite"%string) then Some Tensorflowlite
  else if decide (l = "autodetect"%string) then Some Autodetect
  else None.

(** ** Errors *)

Inductive BackendError :=
| BackendAccess
| GuestAccess (e : GuestError)
| InvalidNumberOfBuilders (expected passed : Z)
| NotEnoughMemory (size : Z).

Inductive UsageError :=
| InvalidContext
| InvalidEncoding (e : GraphEncoding)
| UInvalidNumberOfBuilders (n : Z)
| InvalidGraphHandle
| InvalidExecutionContextHandle
| UNotEnoughMemory (size : Z)
| NotFound (name : list Z).

Inductive WasiNnError :=
| EBackend (e : BackendError)
| EGuest (e : GuestError)
| EUsage (e : UsageError).

(** ** [Table] *)

Record Table (V : Type) := { entries : gmap Z V; next_key : Z }.
Arguments entries {V}.
Arguments next_key {V}.

Definition table_default {V} : Table V := {| entries := ∅; next_key := 0 |}.

Definition use_next_key {E V} (oc : bool) (t : Table V) : outcome E (Z * Table V) :=
  let current := next_key t in
  n ← arith oc 32 (next_key t + 1);
  Ok (current, {| entries := entries t; next_key := n |}).

Definition table_insert {E V} (oc : bool) (value : V) (t : Table V) : outcome E (Z * Table V) :=
  '(key, t1) ← use_next_key oc t;
  Ok (key, {| entries := <[key := value]> (entries t1); next_key := next_key t1 |}).

Definition table_get {V} (t : Table V) (key : Z) : option V := entries t !! key.

(** A write through the reference [get_mut] returns. *)
Definition table_set {V} (t : Table V) (key : Z) (v : V) : Table V :=
  {| entries := <[key := v]> (entries t); next_key := next_key t |}.

(** The keys handed out so far are exactly those below [next_key]. *)
Definition table_wf {V} (t : Table V) : Prop :=
  in_u 32 (next_key t) /\ forall k, is_Some (entries t !! k) <-> 0 <= k < next_key t.

(** ** What a backend offers

    [BackendInner], [BackendFromDir], [BackendGraph] and
    [BackendExecutionContext]; a method on [&mut self] returns the new state. *)
Class BackendOps (B G X : Type) := {
  encoding : B -> GraphEncoding;
  backend_load : B -> list (list Z) -> ExecutionTarget -> B * outcome BackendError G;
  as_dir_loadable : B -> bool;
  load_from_dir : B -> string -> ExecutionTarget -> B * outcome BackendError G;
  graph_init : G -> outcome BackendError X;
  x_set_input : X -> Z -> Tensor -> X * outcome BackendError unit;
  x_compute : X -> X * outcome BackendError unit;
  x_get_output : X -> Z -> list Z -> X * outcome BackendError (Z * list Z);
}.

Section Ctx.
  Context {B G X : Type} `{!BackendOps B G X}.

(** ** [InMemoryRegistry]

    [is_dir] and [file_name] of [std::path::Path] are inputs. *)
Definition Registry : Type := gmap (list Z) G.

Inductive RegistryError := NotADirectory | NoFileName | LoadError (e : BackendError).

Definition registry_load (is_dir : string -> bool) (file_name : string -> option (list Z))
    (reg : gmap (list Z) G) (b : B) (path : string)
  : B * outcome RegistryError (gmap (list Z) G) :=
  if negb (is_dir path) then (b, Err NotADirectory)
  else match file_name path with
  | None => (b, Err NoFileName)
  | Some name =>
      let '(b', r) := load_from_dir b path Cpu in
      (b', graph ← map_err LoadError r; Ok (<[name := graph]> reg))
  end.

(** ** [WasiNnCtx] *)

Record WasiNnCtx := {
  backends : gmap GraphEncoding B;
  registry : gmap (list Z) G;
  graphs : Table G;
  executions : Table X;
}.

(** [collect] into a [HashMap]: a later backend with the same encoding wins. *)
Definition ctx_new (bs : list B) (reg : gmap (list Z) G) : WasiNnCtx :=
  {| backends := foldl (fun m b => <[encoding b := b]> m) ∅ bs;
     registry := reg; graphs := table_default; executions := table_default |}.

(** ** [preload] *)

Inductive PreloadError :=
| ParseError (kind : string)
| UnsupportedBackend (kind : string)
| NoDirectoryLoading (kind : string)
| RegistryFailed (e : RegistryError).

(** [iter_mut().find(...)]: the first backend of an encoding, with its place. *)
Fixpoint find_backend (k : GraphEncoding) (bs : list B) (i : nat) : option (nat * B) :=
  match bs with
  | [] => None
  | b :: bs => if decide (encoding b = k) then Some (i, b) else find_backend k bs (S i)
  end.

Fixpoint preload (is_dir : string -> bool) (file_name : string -> option (list Z))
    (todo : list (string * string)) (bs : list B) (reg : gmap (list Z) G)
  : outcome PreloadError (list B * gmap (list Z) G) :=
  match todo with
  | [] => Ok (bs, reg)
  | (kind, path) :: todo =>
      k ← ok_or (ParseError kind) (encoding_from_str kind);
      '(i, b) ← ok_or (UnsupportedBackend kind) (find_backend k bs 0);
      if negb (as_dir_loadable b) then Err (NoDirectoryLoading kind)
      else
        let '(b', r) := registry_load is_dir file_name reg b path in
        reg' ← map_err RegistryFailed r;
        preload is_dir file_name todo (<[i := b']> bs) reg'
  end.

End Ctx.
Arguments WasiNnCtx B G X : clear implicits.

(** ** Table lemmas *)

Section TableLemmas.
  Context {V : Type}.
  Implicit Types t : Table V.

Lemma table_default_wf : table_wf (table_default (V:=V)).
Proof.
  split; [unfold in_u; cbn; lia|]. intros k. cbn. rewrite lookup_empty. split; [by intros [? ?]|lia].
Qed.

Lemma table_insert_Ok {E} oc v t :
  table_wf t -> next_key t < u32_max ->
  table_insert (E:=E) oc v t =
  Ok (next_key t, {| entries := <[next_key t := v]> (entries t); next_key := next_key t + 1 |}).
Proof.
  intros [Hu _] Hlt. unfold table_insert, use_next_key.
  rewrite arith_ok; [done|]. unfold in_u, u32_max in *. lia.
Qed.

Lemma table_insert_wf {E} oc v t k t' :
  table_wf t -> next_key t < u32_max -> table_insert (E:=E) oc v t = Ok (k, t') -> table_wf t'.
Proof.
  intros Hw Hlt. rewrite table_insert_Ok by done. intros [= <- <-].
  destruct Hw as [Hu Hk]. unfold in_u, u32_max in *. split; cbn; [unfold in_u; lia|].
  intros k. destruct (decide (k = next_key t)) as [->|Hne].
  - rewrite lookup_insert_eq. split; [lia|by eexists].
  - rewrite lookup_insert_ne, Hk by done. lia.
Qed.

Lemma table_set_wf t k v : table_wf t -> is_Some (entries t !! k) -> table_wf (table_set t k v).
Proof.
  intros [Hu Hk] Hs. split; [done|]. intros k'. cbn. destruct (decide (k' = k)) as [->|Hne].
  - rewrite lookup_insert_eq, <- Hk. split; [done|by eexists].
  - by rewrite lookup_insert_ne.
Qed.
End TableLemmas.
