(* ===== verification/NnOnnx.v ===== *)
(** * The ONNX backend of wasi-nn

    [src/wasmtime-repo/crates/wasi-nn/src/backend/onnxruntime.rs].  Floats only
    move here, so an [f32] is its bit pattern.  The crate [ort] is not part of
    the repository: its session type and the calls the backend makes are the
    class [OrtSession].  The mutex around a session is not represented: a
    session is only read. *)

From Stdlib Require Import ZArith Lia.
From stdpp Require Import base list gmap strings numbers.
From S2P Require Import Prelude Float32 Wiggle NnCtx.
Open Scope Z_scope.

(** ** The calls to [ort] *)

Class OrtSession (Sess V : Type) := {
  (** [Session::builder()?.with_optimization_level(..)?.commit_from_memory(..)] *)
  commit_from_memory : list Z -> option Sess;
  (** the lengths of [session.inputs] and [session.outputs] *)
  n_inputs : Sess -> nat;
  n_outputs : Sess -> nat;
  (** [inputs![(dims, data)]], which checks the shape against the data *)
  make_input : list Z -> list Z -> option V;
  (** [session.run]: per output, [try_extract_raw_tensor::<f32>] or its failure *)
  session_run : Sess -> list V -> option (list (option (list Z)));
}.

(** ** Bytes of floats *)

Definition f32_vec_to_bytes (fs : list Z) : list Z :=
  let chunks := map (le_bytes 4) fs in
  mjoin chunks.

(** [data.chunks(4)]: the last chunk may be shorter. *)
Fixpoint chunks4 (bs : list Z) : list (list Z) :=
  match bs with
  | [] => []
  | a :: b :: c :: d :: r => [a; b; c; d] :: chunks4 r
  | r => [r]
  end.

(** [c.try_into().unwrap()] needs four bytes. *)
Definition chunk_to_f32 {E} (c : list Z) : outcome E Z :=
  if decide (length c = 4%nat) then Ok (le_value c) else Panic.

Fixpoint mapM_outcome {E A C} (f : A -> outcome E C) (l : list A) : outcome E (list C) :=
  match l with
  | [] => Ok []
  | x :: l => y ← f x; ys ← mapM_outcome f l; Ok (y :: ys)
  end.

Definition bytes_to_f32_vec {E} (bs : list Z) : outcome E (list Z) :=
  mapM_outcome chunk_to_f32 (chunks4 bs).

(** ** The backend *)

Inductive OnnxBackend := MkOnnxBackend.

Section Onnx.
  Context {Sess V : Type} `{!OrtSession Sess V}.

Record ONNXGraph := { graph_session : Sess; graph_target : ExecutionTarget }.

Record ONNXExecutionContext := {
  session : Sess;
  inputs : list (option Tensor);
  outputs : list (option (list Z));
}.

Definition onnx_load (self : OnnxBackend) (builders : list (list Z)) (target : ExecutionTarget)
  : OnnxBackend * outcome BackendError ONNXGraph :=
  match builders with
  | [b] =>
      match commit_from_memory b with
      | Some s => (self, Ok {| graph_session := s; graph_target := target |})
      | None => (self, Err BackendAccess)
      end
  | _ => (self, Err (InvalidNumberOfBuilders 1 (Z.of_nat (length builders))))
  end.

(** [read] of [backend/mod.rs] is the parameter [read_file]. *)
Definition onnx_load_from_dir (read_file : string -> option (list Z)) (self : OnnxBackend)
    (path : string) (target : ExecutionTarget) : OnnxBackend * outcome BackendError ONNXGraph :=
  match read_file (path +:+ "/model.onnx") with
  | Some model => onnx_load self [model] target
  | None => (self, Err BackendAccess)
  end.

Definition onnx_init_execution_context (g : ONNXGraph) : outcome BackendError ONNXExecutionContext :=
  let s := graph_session g in
  Ok {| session := s; inputs := replicate (n_inputs s) None;
        outputs := replicate (n_outputs s) None |}.

Definition onnx_set_input (self : ONNXExecutionContext) (index : Z) (tensor : Tensor)
  : ONNXExecutionContext * outcome BackendError unit :=
  if decide (index < Z.of_nat (length (inputs self))) then
    ({| session := session self; inputs := <[Z.to_nat index := Some tensor]> (inputs self);
        outputs := outputs self |}, Ok ())
  else (self, Panic).

(** One element of [shaped_inputs]. *)
Definition shape_input (o : option Tensor) : outcome BackendError V :=
  input ← unwrap o;
  match tensor_type input with
  | Fp32 =>
      fs ← bytes_to_f32_vec (data input);
      unwrap (make_input (dimensions input) fs)
  | _ => Panic
  end.

(** The loop over the outputs: a failed extraction returns early and keeps the
    outputs stored so far. *)
Fixpoint store_outputs (res : list (option (list Z))) (i n : nat) (outs : list (option (list Z)))
  : list (option (list Z)) * outcome BackendError unit :=
  match n with
  | O => (outs, Ok ())
  | S n =>
      match res !! i with
      | None => (outs, Panic)
      | Some None => (outs, Err BackendAccess)
      | Some (Some f32s) =>
          store_outputs res (S i) n (<[i := Some (f32_vec_to_bytes f32s)]> outs)
      end
  end.

Definition onnx_compute (self : ONNXExecutionContext)
  : ONNXExecutionContext * outcome BackendError unit :=
  match mapM_outcome shape_input (inputs self) with
  | Panic => (self, Panic)
  | Err e => (self, Err e)
  | Ok shaped_inputs =>
      match session_run (session self) shaped_inputs with
      | None => (self, Err BackendAccess)
      | Some res =>
          let '(outs, r) := store_outputs res 0 (length (outputs self)) (outputs self) in
          ({| session := session self; inputs := inputs self; outputs := outs |}, r)
      end
  end.

(** [destination[..output.len()].copy_from_slice(output)]. *)
Definition onnx_get_output (self : ONNXExecutionContext) (index : Z) (destination : list Z)
  : ONNXExecutionContext * outcome BackendError (Z * list Z) :=
  (self,
   output ← unwrap (o ← outputs self !! Z.to_nat index; o);
   if decide (length output <= length destination)%nat then
     Ok (Z.of_nat (length output) mod 2 ^ 32, output ++ drop (length output) destination)
   else Panic).

Definition onnx_ops (read_file : string -> option (list Z))
  : BackendOps OnnxBackend ONNXGraph ONNXExecutionContext := {|
  encoding _ := Onnx;
  backend_load := onnx_load;
  as_dir_loadable _ := true;
  load_from_dir := onnx_load_from_dir read_file;
  graph_init := onnx_init_execution_context;
  x_set_input := onnx_set_input;
  x_compute := onnx_compute;
  x_get_output := onnx_get_output;
|}.
End Onnx.
Arguments ONNXGraph Sess : clear implicits.
Arguments ONNXExecutionContext Sess : clear implicits.

(** ** Floats and bytes *)

Lemma f32_vec_to_bytes_flatten fs : f32_vec_to_bytes fs = flatten 4 fs.
Proof.
  unfold f32_vec_to_bytes, flatten. induction fs as [|f fs IH]; [done|].
  change ((f :: fs) ≫= le_bytes 4) with (le_bytes 4 f ++ (fs ≫= le_bytes 4)). by rewrite <- IH.
Qed.

Lemma chunks4_app a b : length a = 4%nat -> chunks4 (a ++ b) = a :: chunks4 b.
Proof. intros H. destruct a as [|a1 [|a2 [|a3 [|a4 [|]]]]]; done. Qed.

Lemma bytes_to_f32_vec_cons {E} a b :
  length a = 4%nat ->
  bytes_to_f32_vec (E:=E) (a ++ b) = fs ← bytes_to_f32_vec b; Ok (le_value a :: fs).
Proof.
  intros Ha. unfold bytes_to_f32_vec. rewrite chunks4_app by done.
  cbn [mapM_outcome].
  assert (Hc : chunk_to_f32 (E:=E) a = Ok (le_value a)).
  { unfold chunk_to_f32. by rewrite decide_True. }
  by rewrite Hc.
Qed.

Lemma bytes_to_f32_vec_to_bytes {E} fs :
  Forall (in_u 32) fs -> bytes_to_f32_vec (E:=E) (f32_vec_to_bytes fs) = Ok fs.
Proof.
  rewrite f32_vec_to_bytes_flatten. induction 1 as [|f fs Hf _ IH]; [done|].
  change (flatten 4 (f :: fs)) with (le_bytes 4 f ++ flatten 4 fs).
  rewrite bytes_to_f32_vec_cons by apply length_le_bytes. rewrite IH. cbn [mbind outcome_bind].
  by rewrite le_value_bytes4.
Qed.

(** Induction over a byte vector four bytes at a time. *)
Lemma chunk_ind (P : list Z -> Prop) :
  (forall bs, (length bs < 4)%nat -> P bs) ->
  (forall a b, length a = 4%nat -> P b -> P (a ++ b)) -> forall bs, P bs.
Proof.
  intros H0 H4 bs. induction bs as [bs IH] using (induction_ltof1 _ (@length Z)). unfold ltof in IH.
  destruct (decide (length bs < 4)%nat) as [|Hge]; [by apply H0|].
  rewrite <- (take_drop 4 bs). apply H4; [rewrite length_take; lia|].
  apply IH. rewrite length_drop. lia.
Qed.

(** The bytes the guest passes decode to floats exactly when their number is
    a multiple of four, and then encoding the floats gives the bytes back;
    otherwise the conversion panics. *)
Theorem bytes_to_f32_vec_spec bs :
  Forall is_byte bs ->
  ((length bs mod 4 = 0)%nat ->
     exists fs, bytes_to_f32_vec (E:=BackendError) bs = Ok fs /\
       f32_vec_to_bytes fs = bs /\ Forall (in_u 32) fs) /\
  ((length bs mod 4 <> 0)%nat -> bytes_to_f32_vec (E:=BackendError) bs = Panic).
Proof.
  induction bs as [bs Hlt|a b Ha IH] using chunk_ind; intros Hb.
  - destruct bs as [|b0 [|b1 [|b2 [|]]]]; cbn in Hlt; try lia; split; intros Hm; try done.
    by exists [].
  - apply Forall_app in Hb as [Hba Hbb]. specialize (IH Hbb). rewrite length_app, Ha.
    replace ((4 + length b) mod 4)%nat with (length b mod 4)%nat
      by (rewrite <- (Nat.Div0.add_mod_idemp_l 4); done).
    rewrite bytes_to_f32_vec_cons by done. split; intros Hm.
    + destruct IH as [IH _]. destruct (IH Hm) as (fs & -> & Henc & Hu). cbn [mbind outcome_bind].
      exists (le_value a :: fs). split_and!; [done| |].
      * rewrite f32_vec_to_bytes_flatten in *.
        change (flatten 4 (le_value a :: fs)) with (le_bytes 4 (le_value a) ++ flatten 4 fs).
        rewrite Henc. f_equal. rewrite <- Ha. by apply le_bytes_value.
      * constructor; [|done]. pose proof (le_bytes_value a Hba) as Hr.
        destruct a as [|a1 [|a2 [|a3 [|a4 [|]]]]]; try done. clear Hr.
        rewrite !Forall_cons_iff in Hba. unfold is_byte in Hba. unfold in_u. cbn. lia.
    + destruct IH as [_ IH]. by rewrite IH.
Qed.

(** ** Inference *)

Section OnnxCorrect.
  Context {Sess V : Type} `{!OrtSession Sess V}.
  Implicit Types x : ONNXExecutionContext Sess.

Lemma mapM_outcome_Forall2 {E A C} (f : A -> outcome E C) l k :
  mapM_outcome f l = Ok k <-> Forall2 (fun a c => f a = Ok c) l k.
Proof.
  revert k. induction l as [|a l IH]; intros k; cbn.
  - split; [intros [= <-]; constructor|by inversion 1].
  - split.
    + intros H. outcome_inv. constructor; [done|]. by apply IH.
    + inversion 1 as [|? c ? k' Hac Hlk]; subst. rewrite Hac. cbn.
      apply IH in Hlk. by rewrite Hlk.
Qed.

(** The outputs after the loop, when every extraction succeeds. *)
Lemma store_outputs_ok res n : forall i outs,
  (forall j, (i <= j < i + n)%nat -> exists fs, res !! j = Some (Some fs)) ->
  length outs = (i + n)%nat ->
  store_outputs res i n outs =
  (take i outs ++ map (fmap f32_vec_to_bytes) (take n (drop i res)), Ok ()).
Proof.
  induction n as [|n IH]; intros i outs Hres Hl; cbn [store_outputs].
  - rewrite take_0, app_nil_r, take_ge by lia. done.
  - destruct (Hres i) as [fs Hi]; [lia|]. rewrite Hi.
    rewrite IH by (first [intros; apply Hres; lia | rewrite length_insert; lia]).
    f_equal. rewrite (drop_S _ _ _ Hi). cbn [take map].
    rewrite (take_S_r _ _ (Some (f32_vec_to_bytes fs))) by (apply list_lookup_insert_eq; lia).
    rewrite <- app_assoc, take_insert_ge by lia. done.
Qed.

(** A computation in which every input is set with 32-bit float data that
    [ort] accepts, and in which the session produces all outputs, succeeds and
    leaves in every output slot the bytes of that output; a following
    [get_output] into a large enough buffer returns their number and writes
    them to the front of the buffer, leaving the rest of the buffer alone. *)
Theorem onnx_compute_get_output x shaped res index fs destination :
  Forall2 (fun o v => shape_input o = Ok v) (inputs x) shaped ->
  session_run (session x) shaped = Some res ->
  length res = length (outputs x) ->
  Forall (fun o => is_Some o) res ->
  0 <= index -> res !! Z.to_nat index = Some (Some fs) ->
  (4 * length fs <= length destination)%nat -> Z.of_nat (4 * length fs) < 2 ^ 32 ->
  exists x', onnx_compute x = (x', Ok ()) /\ inputs x' = inputs x /\
    onnx_get_output x' index destination =
    (x', Ok (Z.of_nat (4 * length fs),
             f32_vec_to_bytes fs ++ drop (4 * length fs) destination)).
Proof.
  intros Hin Hrun Hlen Hall Hi Hfs Hd Hu. unfold onnx_compute.
  rewrite (proj2 (mapM_outcome_Forall2 _ _ _) Hin), Hrun.
  rewrite store_outputs_ok; [|intros j Hj|done].
  2:{ destruct (lookup_lt_is_Some_2 res j) as [o Ho]; [lia|].
      destruct (Forall_lookup_1 _ _ _ _ Hall Ho) as [f ->]. by exists f. }
  eexists. split; [reflexivity|]. cbn [inputs outputs]. split; [done|].
  unfold onnx_get_output. f_equal. cbn [outputs]. rewrite take_0, drop_0, take_ge by lia.
  cbn [app]. rewrite list_lookup_fmap, Hfs. cbn [fmap option_fmap option_map mbind option_bind unwrap outcome_bind].
  assert (Hl : length (f32_vec_to_bytes fs) = (4 * length fs)%nat)
    by (rewrite f32_vec_to_bytes_flatten, length_flatten; lia).
  rewrite Hl, decide_True by done. by rewrite Z.mod_small by lia.
Qed.

(** The backend panics, instead of returning an error, on an input index
    past the inputs of the model, on an output index past its outputs or not
    yet computed, and on a destination shorter than the output. *)
Theorem onnx_panics x index tensor destination :
  0 <= index ->
  ((onnx_set_input x index tensor).2 = Panic <-> Z.of_nat (length (inputs x)) <= index) /\
  ((onnx_get_output x index destination).2 = Panic <->
     match outputs x !! Z.to_nat index with
     | Some (Some output) => (length destination < length output)%nat
     | _ => True
     end).
Proof.
  intros Hi. split.
  - unfold onnx_set_input. case_decide; cbn; [split; [done|lia]|split; [lia|done]].
  - unfold onnx_get_output. cbn [snd].
    destruct (outputs x !! Z.to_nat index) as [[output|]|]; cbn; [|done|done].
    case_decide; [split; [done|lia]|split; [lia|done]].
Qed.
End OnnxCorrect.

(** ** Witnesses

    A session with one input and one output that returns its input. *)

#[export] Instance echo_session : OrtSession unit (list Z) := {
  commit_from_memory _ := Some ();
  n_inputs _ := 1%nat;
  n_outputs _ := 1%nat;
  make_input _ fs := Some fs;
  session_run _ vs := Some (map Some vs);
}.

Definition echo_tensor : Tensor :=
  {| dimensions := [2]; tensor_type := Fp32; data := f32_vec_to_bytes [1065353216; 7] |}.
Definition echo_context : ONNXExecutionContext unit :=
  {| session := (); inputs := [Some echo_tensor]; outputs := [None] |}.

Lemma bytes_to_f32_vec_spec_witness :
  bytes_to_f32_vec (E:=BackendError) [1; 2; 3] = Panic.
Proof.
  apply (bytes_to_f32_vec_spec [1; 2; 3]).
  - repeat constructor; cbn; lia.
  - discriminate.
Defined.

Lemma onnx_compute_get_output_witness :
  exists x', onnx_compute echo_context = (x', Ok ()) /\
    onnx_get_output x' 0 (replicate 10 9) =
    (x', Ok (8, f32_vec_to_bytes [1065353216; 7] ++ [9; 9])).
Proof.
  destruct (onnx_compute_get_output echo_context [[1065353216; 7]]
              [Some [1065353216; 7]] 0 [1065353216; 7] (replicate 10 9))
    as (x' & Hc & _ & Hg).
  - repeat constructor.
  - reflexivity.
  - reflexivity.
  - repeat constructor; by eexists.
  - lia.
  - reflexivity.
  - cbn. lia.
  - cbn. lia.
  - exists x'. split; [exact Hc|exact Hg].
Defined.

Lemma onnx_panics_witness : (onnx_set_input echo_context 1 echo_tensor).2 = Panic.
Proof. apply (onnx_panics echo_context 1 echo_tensor []); cbn; lia. Defined.
