(* ===== verification/NnHost.v ===== *)
(** * wasi-nn host functions

    The functions a guest calls: [WasiEphemeralNn for WasiNnCtx] of
    [src/wasmtime-repo/crates/wasi-nn/src/witx.rs] (arguments in guest memory)
    and the component-model [Host] implementations of [wit.rs] (arguments by
    value), over any backend.  Each function is the whole handler: it returns
    the new context, the new guest memory where it writes one, and its result. *)

From Stdlib Require Import ZArith Lia.
From stdpp Require Import base list gmap strings numbers.
From S2P Require Import Prelude Float32 Wiggle NnCtx NnOnnx.
Open Scope Z_scope.

Section Host.
  Context {B G X : Type} `{!BackendOps B G X}.
  Context (oc : bool).
  Implicit Types ctx : WasiNnCtx B G X.

Definition set_backend ctx (e : GraphEncoding) (b : B) : WasiNnCtx B G X :=
  {| backends := <[e := b]> (backends ctx); registry := registry ctx;
     graphs := graphs ctx; executions := executions ctx |}.
Definition set_graphs ctx (t : Table G) : WasiNnCtx B G X :=
  {| backends := backends ctx; registry := registry ctx; graphs := t;
     executions := executions ctx |}.
Definition set_executions ctx (t : Table X) : WasiNnCtx B G X :=
  {| backends := backends ctx; registry := registry ctx; graphs := graphs ctx;
     executions := t |}.

(** [self.graphs.insert(graph)] as the last step of a handler. *)
Definition push_graph ctx (g : G) : WasiNnCtx B G X * outcome WasiNnError Z :=
  match table_insert (E:=WasiNnError) oc g (graphs ctx) with
  | Ok (id, t) => (set_graphs ctx t, Ok id)
  | Err e => (ctx, Err e)
  | Panic => (ctx, Panic)
  end.
Definition push_execution ctx (x : X) : WasiNnCtx B G X * outcome WasiNnError Z :=
  match table_insert (E:=WasiNnError) oc x (executions ctx) with
  | Ok (id, t) => (set_executions ctx t, Ok id)
  | Err e => (ctx, Err e)
  | Panic => (ctx, Panic)
  end.

End Host.

(** ** [witx.rs] *)
Module Witx.

(** The tensor record as the guest passes it: pointers to its two lists. *)
Record WTensor := { w_dimensions : slice_ptr; w_type : witx.TensorType'; w_data : slice_ptr }.

Inductive NnErrno :=
| Success | InvalidArgument | ErrInvalidEncoding | MissingMemory | Busy
| RuntimeError | UnsupportedOperation | TooLarge | ErrNotFound.

Section WitxHost.
  Context {B G X : Type} `{!BackendOps B G X}.
  Context (oc : bool).
  Implicit Types ctx : WasiNnCtx B G X.

(** The loop that collects the builder slices from guest memory; [expect] on a
    shared memory. *)
Fixpoint read_builders (m : GuestMemory) (items : list (outcome GuestError Z))
  : outcome WasiNnError (list (list Z)) :=
  match items with
  | [] => Ok []
  | builder :: items =>
      p ← map_err EGuest builder;
      sp ← map_err EGuest (read_slice_ptr m p);
      o ← map_err EGuest (as_slice m sp);
      slice ← unwrap o;
      rest ← read_builders m items;
      Ok (slice :: rest)
  end.

Definition load ctx (m : GuestMemory) (builders : slice_ptr) (enc : witx.GraphEncoding')
    (target : witx.ExecutionTarget') : WasiNnCtx B G X * outcome WasiNnError Z :=
  let e := witx.encoding_from enc in
  match backends ctx !! e with
  | Some backend =>
      match read_builders m (ptr_iter 8 builders) with
      | Err er => (ctx, Err er)
      | Panic => (ctx, Panic)
      | Ok slices =>
          let '(backend', r) := backend_load backend slices (witx.target_from target) in
          let ctx1 := set_backend ctx e backend' in
          match r with
          | Ok graph => push_graph oc ctx1 graph
          | Err er => (ctx1, Err (EBackend er))
          | Panic => (ctx1, Panic)
          end
      end
  | None => (ctx, Err (EUsage (InvalidEncoding e)))
  end.

Definition load_by_name ctx (m : GuestMemory) (name : slice_ptr)
  : WasiNnCtx B G X * outcome WasiNnError Z :=
  match map_err EGuest (as_str m name) with
  | Err e => (ctx, Err e)
  | Panic | Ok None => (ctx, Panic)
  | Ok (Some nm) =>
      match registry ctx !! nm with
      | Some graph => push_graph oc ctx graph
      | None => (ctx, Err (EUsage (NotFound nm)))
      end
  end.

Definition init_execution_context ctx (graph_id : Z)
  : WasiNnCtx B G X * outcome WasiNnError Z :=
  match table_get (graphs ctx) graph_id with
  | Some graph =>
      match graph_init graph with
      | Ok x => push_execution oc ctx x
      | Err e => (ctx, Err (EBackend e))
      | Panic => (ctx, Panic)
      end
  | None => (ctx, Err (EUsage InvalidGraphHandle))
  end.

Definition read_tensor (m : GuestMemory) (t : WTensor) : outcome WasiNnError Tensor :=
  dims ← map_err EGuest (to_vec 4 m (w_dimensions t));
  d ← map_err EGuest (to_vec 1 m (w_data t));
  Ok {| dimensions := dims; tensor_type := witx.tensor_type_from (w_type t); data := d |}.

Definition set_input ctx (m : GuestMemory) (exec_context_id index : Z) (tensor : WTensor)
  : WasiNnCtx B G X * outcome WasiNnError unit :=
  match table_get (executions ctx) exec_context_id with
  | Some x =>
      match read_tensor m tensor with
      | Ok t =>
          let '(x', r) := x_set_input x index t in
          (set_executions ctx (table_set (executions ctx) exec_context_id x'), map_err EBackend r)
      | Err e => (ctx, Err e)
      | Panic => (ctx, Panic)
      end
  | None => (ctx, Err (EUsage InvalidGraphHandle))
  end.

Definition compute ctx (exec_context_id : Z) : WasiNnCtx B G X * outcome WasiNnError unit :=
  match table_get (executions ctx) exec_context_id with
  | Some x =>
      let '(x', r) := x_compute x in
      (set_executions ctx (table_set (executions ctx) exec_context_id x'), map_err EBackend r)
  | None => (ctx, Err (EUsage InvalidExecutionContextHandle))
  end.

Definition get_output ctx (m : GuestMemory) (exec_context_id index out_buffer out_buffer_max_size : Z)
  : WasiNnCtx B G X * GuestMemory * outcome WasiNnError Z :=
  match table_get (executions ctx) exec_context_id with
  | Some x =>
      match as_slice_mut m (as_array out_buffer out_buffer_max_size) with
      | Err e => (ctx, m, Err (EGuest e))
      | Panic | Ok None => (ctx, m, Panic)
      | Ok (Some (s, l)) =>
          let '(x', r) := x_get_output x index (sub_bytes (mem_bytes m) s l) in
          let ctx' := set_executions ctx (table_set (executions ctx) exec_context_id x') in
          match r with
          | Ok (n, destination) => (ctx', set_bytes m (splice (mem_bytes m) s destination), Ok n)
          | Err e => (ctx', m, Err (EBackend e))
          | Panic => (ctx', m, Panic)
          end
      end
  | None => (ctx, m, Err (EUsage InvalidGraphHandle))
  end.

(** [nn_errno_from_wasi_nn_error]: every arm is [unimplemented!()]. *)
Definition nn_errno_from_wasi_nn_error {E} (e : WasiNnError) : outcome E NnErrno :=
  match e with
  | EBackend _ => Panic
  | EGuest _ => Panic
  | EUsage _ => Panic
  end.

(** What a call gives the guest: the code of success with the results, or the
    code the error converts to. *)
Definition errno {E A} (r : outcome WasiNnError A) : outcome E (NnErrno * option A) :=
  match r with
  | Ok a => Ok (Success, Some a)
  | Err e => n ← nn_errno_from_wasi_nn_error e; Ok (n, None)
  | Panic => Panic
  end.
End WitxHost.
End Witx.

(** ** [wit.rs]: errors are [wasmtime::Result] errors, i.e. traps *)
Module Wit.
Section WitHost.
  Context {B G X : Type} `{!BackendOps B G X}.
  Context (oc : bool).
  Implicit Types ctx : WasiNnCtx B G X.

Definition load ctx (builders : list (list Z)) (e : GraphEncoding) (target : ExecutionTarget)
  : WasiNnCtx B G X * outcome WasiNnError Z :=
  match backends ctx !! e with
  | Some backend =>
      let '(backend', r) := backend_load backend builders target in
      let ctx1 := set_backend ctx e backend' in
      match r with
      | Ok graph => push_graph oc ctx1 graph
      | Err er => (ctx1, Err (EBackend er))
      | Panic => (ctx1, Panic)
      end
  | None => (ctx, Err (EUsage (InvalidEncoding e)))
  end.

Definition load_by_name ctx (name : list Z) : WasiNnCtx B G X * outcome WasiNnError Z :=
  match registry ctx !! name with
  | Some graph => push_graph oc ctx graph
  | None => (ctx, Err (EUsage (NotFound name)))
  end.

Definition init_execution_context ctx (graph_id : Z)
  : WasiNnCtx B G X * outcome WasiNnError Z :=
  match table_get (graphs ctx) graph_id with
  | Some graph =>
      match graph_init graph with
      | Ok x => push_execution oc ctx x
      | Err e => (ctx, Err (EBackend e))
      | Panic => (ctx, Panic)
      end
  | None => (ctx, Err (EUsage InvalidGraphHandle))
  end.

Definition set_input ctx (exec_context_id index : Z) (tensor : Tensor)
  : WasiNnCtx B G X * outcome WasiNnError unit :=
  match table_get (executions ctx) exec_context_id with
  | Some x =>
      let '(x', r) := x_set_input x index tensor in
      (set_executions ctx (table_set (executions ctx) exec_context_id x'), map_err EBackend r)
  | None => (ctx, Err (EUsage InvalidGraphHandle))
  end.

Definition compute ctx (exec_context_id : Z) : WasiNnCtx B G X * outcome WasiNnError unit :=
  match table_get (executions ctx) exec_context_id with
  | Some x =>
      let '(x', r) := x_compute x in
      (set_executions ctx (table_set (executions ctx) exec_context_id x'), map_err EBackend r)
  | None => (ctx, Err (EUsage InvalidExecutionContextHandle))
  end.

Definition MAX_OUTPUT : Z := 1024 * 1024.

Definition get_output ctx (exec_context_id index : Z)
  : WasiNnCtx B G X * outcome WasiNnError (list Z) :=
  match table_get (executions ctx) exec_context_id with
  | Some x =>
      let '(x', r) := x_get_output x index (replicate (Z.to_nat MAX_OUTPUT) 0) in
      (set_executions ctx (table_set (executions ctx) exec_context_id x'),
       '(bytes_read, destination) ← map_err EBackend r;
       Ok (take (Z.to_nat bytes_read) destination))
  | None => (ctx, Err (EUsage InvalidGraphHandle))
  end.
End WitHost.
End Wit.

(** ** Handles *)

Section Handles.
  Context {B G X : Type} `{!BackendOps B G X}.
  Implicit Types ctx : WasiNnCtx B G X.

Definition ctx_wf ctx : Prop := table_wf (graphs ctx) /\ table_wf (executions ctx).

(** Handles left in both tables. *)
Definition ctx_room ctx : Prop :=
  next_key (graphs ctx) < u32_max /\ next_key (executions ctx) < u32_max.

(** A call of the guest, over the WITX interface. *)
Inductive guest_call :=
| CLoad (m : GuestMemory) (builders : slice_ptr) (e : witx.GraphEncoding') (t : witx.ExecutionTarget')
| CLoadByName (m : GuestMemory) (name : slice_ptr)
| CInit (graph_id : Z)
| CSetInput (m : GuestMemory) (id index : Z) (t : Witx.WTensor)
| CCompute (id : Z)
| CGetOutput (m : GuestMemory) (id index out_buffer max : Z).

Definition ctx_after (oc : bool) (c : guest_call) ctx : WasiNnCtx B G X :=
  match c with
  | CLoad m bs e t => (Witx.load oc ctx m bs e t).1
  | CLoadByName m nm => (Witx.load_by_name oc ctx m nm).1
  | CInit g => (Witx.init_execution_context oc ctx g).1
  | CSetInput m id i t => (Witx.set_input ctx m id i t).1
  | CCompute id => (Witx.compute ctx id).1
  | CGetOutput m id i b n => (Witx.get_output ctx m id i b n).1.1
  end.

(** What a call makes of the object behind the execution handle [id]: only a call
    that names the handle reaches it, through the method of the backend the call
    stands for, and only once its arguments were read from guest memory. *)
Definition exec_after (id : Z) (x : X) (c : guest_call) : X :=
  match c with
  | CSetInput m id' i t =>
      if decide (id' = id)
      then match Witx.read_tensor m t with Ok tensor => (x_set_input x i tensor).1 | _ => x end
      else x
  | CCompute id' => if decide (id' = id) then (x_compute x).1 else x
  | CGetOutput m id' i b n =>
      if decide (id' = id)
      then match as_slice_mut m (as_array b n) with
           | Ok (Some (s, l)) => (x_get_output x i (sub_bytes (mem_bytes m) s l)).1
           | _ => x
           end
      else x
  | _ => x
  end.

Definition ctx_run (oc : bool) (cs : list guest_call) ctx : WasiNnCtx B G X :=
  foldl (fun ctx c => ctx_after oc c ctx) ctx cs.

(** What no sequence of calls may do to the tables: drop a handle, change the
    graph behind one, or reach an execution by another handle. *)
Definition handles_kept (cs : list guest_call) ctx ctx' : Prop :=
  (forall id g, table_get (graphs ctx) id = Some g -> table_get (graphs ctx') id = Some g) /\
  (forall id x, table_get (executions ctx) id = Some x ->
     table_get (executions ctx') id = Some (foldl (exec_after id) x cs)) /\
  next_key (graphs ctx') <= next_key (graphs ctx) + Z.of_nat (length cs) /\
  next_key (executions ctx') <= next_key (executions ctx) + Z.of_nat (length cs).

Lemma handles_kept_refl ctx : handles_kept [] ctx ctx.
Proof. split_and!; cbn; (done || lia). Qed.

Lemma handles_kept_trans cs1 cs2 ctx1 ctx2 ctx3 :
  handles_kept cs1 ctx1 ctx2 -> handles_kept cs2 ctx2 ctx3 -> handles_kept (cs1 ++ cs2) ctx1 ctx3.
Proof.
  intros (?&?&?&?) (?&?&?&?). unfold handles_kept. rewrite length_app.
  split_and!; [eauto| |lia|lia]. intros id x Hx. rewrite foldl_app. eauto.
Qed.

(** A call that leaves the tables alone, and an execution no call of it names. *)
Lemma handles_kept_same c ctx ctx' :
  (forall id x, table_get (executions ctx) id = Some x -> exec_after id x c = x) ->
  graphs ctx' = graphs ctx -> executions ctx' = executions ctx -> handles_kept [c] ctx ctx'.
Proof.
  intros Hc Hg Hx. unfold handles_kept. rewrite Hg, Hx. cbn.
  split_and!; [done| |lia|lia]. intros id x H. by rewrite (Hc id x H).
Qed.

Lemma table_insert_get {E V} oc (v : V) t k t' :
  table_wf t -> next_key t < u32_max -> table_insert (E:=E) oc v t = Ok (k, t') ->
  k = next_key t /\ table_get t k = None /\ table_get t' k = Some v /\
  next_key t' = next_key t + 1 /\
  forall id w, table_get t id = Some w -> table_get t' id = Some w.
Proof.
  intros Hw Hlt. rewrite table_insert_Ok by done. intros [= <- <-].
  assert (Hn : entries t !! next_key t = None).
  { destruct (entries t !! next_key t) eqn:He; [|done].
    assert (Hs : is_Some (entries t !! next_key t)) by (by eexists). apply Hw in Hs. lia. }
  unfold table_get. cbn. rewrite lookup_insert_eq. split_and!; try done.
  intros id w Hid. rewrite lookup_insert_ne; [done|]. congruence.
Qed.

(** Storing a new graph or a new execution, as the last step of the call [c]. *)
Lemma push_graph_kept oc ctx g c :
  ctx_wf ctx -> ctx_room ctx -> (forall id x, exec_after id x c = x) ->
  ctx_wf (push_graph oc ctx g).1 /\ handles_kept [c] ctx (push_graph oc ctx g).1 /\
  exists id, (push_graph oc ctx g).2 = Ok id /\ table_get (graphs ctx) id = None /\
    table_get (graphs (push_graph oc ctx g).1) id = Some g.
Proof.
  intros [Hg Hx] [Rg Rx] Hc. unfold push_graph. rewrite table_insert_Ok by done. cbn [fst snd].
  pose proof (table_insert_Ok (E:=WasiNnError) oc g (graphs ctx) Hg Rg) as Hi.
  pose proof (table_insert_wf oc g (graphs ctx) _ _ Hg Rg Hi) as Hw.
  destruct (table_insert_get oc g (graphs ctx) _ _ Hg Rg Hi) as (_ & Hn & Hs & Hk & Hkeep).
  split; [by split|]. split; [|by eexists]. split_and!; cbn in *; [done| |lia|lia].
  intros id x H. by rewrite Hc.
Qed.

Lemma push_execution_kept oc ctx x c :
  ctx_wf ctx -> ctx_room ctx -> (forall id x, exec_after id x c = x) ->
  ctx_wf (push_execution oc ctx x).1 /\ handles_kept [c] ctx (push_execution oc ctx x).1 /\
  exists id, (push_execution oc ctx x).2 = Ok id /\ table_get (executions ctx) id = None /\
    table_get (executions (push_execution oc ctx x).1) id = Some x.
Proof.
  intros [Hg Hx] [Rg Rx] Hc. unfold push_execution. rewrite table_insert_Ok by done. cbn [fst snd].
  pose proof (table_insert_Ok (E:=WasiNnError) oc x (executions ctx) Hx Rx) as Hi.
  pose proof (table_insert_wf oc x (executions ctx) _ _ Hx Rx Hi) as Hw.
  destruct (table_insert_get oc x (executions ctx) _ _ Hx Rx Hi) as (_ & Hn & Hs & Hk & Hkeep).
  split; [by split|]. split; [|by eexists]. split_and!; cbn in *; [done| |lia|lia].
  intros id y Hy. rewrite Hc. by apply Hkeep.
Qed.

(** A call on the execution behind [id]. *)
Lemma set_execution_kept ctx c id x :
  ctx_wf ctx -> table_get (executions ctx) id = Some x ->
  (forall id' y, id' <> id -> exec_after id' y c = y) ->
  let ctx' := set_executions ctx (table_set (executions ctx) id (exec_after id x c)) in
  ctx_wf ctx' /\ handles_kept [c] ctx ctx'.
Proof.
  intros [Hg Hx] Hid Hc. split.
  - split; [done|]. apply table_set_wf; [done|by eexists].
  - split_and!; cbn; try (done || lia). intros id' y Hy. unfold table_get. cbn.
    destruct (decide (id' = id)) as [->|Hne].
    + rewrite lookup_insert_eq. congruence.
    + rewrite lookup_insert_ne, (Hc id' y Hne) by done. done.
Qed.

(** The calls that name an execution handle. *)
Lemma exec_call_kept oc c ctx :
  ctx_wf ctx -> match c with CSetInput _ _ _ _ | CCompute _ | CGetOutput _ _ _ _ _ => True | _ => False end ->
  ctx_wf (ctx_after oc c ctx) /\ handles_kept [c] ctx (ctx_after oc c ctx).
Proof.
  intros Hw Hcase.
  assert (Hsame : forall id, table_get (executions ctx) id = None ->
    (forall id' y, id' <> id -> exec_after id' y c = y) -> ctx_wf ctx /\ handles_kept [c] ctx ctx).
  { intros id Hn Hc. split; [done|]. apply handles_kept_same; [|done..]. intros id' x Hx.
    apply Hc. congruence. }
  assert (Hstay : (forall id y, exec_after id y c = y) -> ctx_wf ctx /\ handles_kept [c] ctx ctx).
  { intros Hc. split; [done|]. by apply handles_kept_same. }
  destruct c as [| | |m id i t|id|m id i b n]; try done; cbn [ctx_after].
  - unfold Witx.set_input. destruct (table_get _ _) as [x|] eqn:Hx.
    + destruct (Witx.read_tensor m t) as [tn| |] eqn:Ht;
        [|by apply Hstay; intros; cbn; rewrite Ht; case_decide..].
      pose proof (set_execution_kept ctx (CSetInput m id i t) id x Hw Hx) as Hk. cbn in Hk.
      rewrite decide_True, Ht in Hk by done. destruct (x_set_input x i tn) as [x' r].
      apply Hk. intros id' y Hne. by rewrite decide_False.
    + apply (Hsame id Hx). intros id' y Hne. cbn. by rewrite decide_False.
  - unfold Witx.compute. destruct (table_get _ _) as [x|] eqn:Hx.
    + pose proof (set_execution_kept ctx (CCompute id) id x Hw Hx) as Hk. cbn in Hk.
      rewrite decide_True in Hk by done. destruct (x_compute x) as [x' r].
      apply Hk. intros id' y Hne. by rewrite decide_False.
    + apply (Hsame id Hx). intros id' y Hne. cbn. by rewrite decide_False.
  - unfold Witx.get_output. destruct (table_get _ _) as [x|] eqn:Hx.
    + destruct (as_slice_mut m (as_array b n)) as [[[s l]|]| |] eqn:Hs;
        [|by apply Hstay; intros; cbn; rewrite Hs; case_decide..].
      pose proof (set_execution_kept ctx (CGetOutput m id i b n) id x Hw Hx) as Hk. cbn in Hk.
      rewrite decide_True, Hs in Hk by done. destruct (x_get_output x i _) as [x' r].
      assert (Hk' := Hk ltac:(intros id' y Hne; by rewrite decide_False)).
      by destruct r as [[]| |].
    + apply (Hsame id Hx). intros id' y Hne. cbn. by rewrite decide_False.
Qed.

Lemma call_kept oc c ctx :
  ctx_wf ctx -> ctx_room ctx ->
  ctx_wf (ctx_after oc c ctx) /\ handles_kept [c] ctx (ctx_after oc c ctx).
Proof.
  intros Hw Hr. destruct c as [m bs e t|m nm|gid|m id i t|id|m id i b n];
    [| | |by apply exec_call_kept..]; cbn [ctx_after].
  - assert (Hb : forall b', ctx_wf (set_backend ctx (witx.encoding_from e) b') /\
      handles_kept [CLoad m bs e t] ctx (set_backend ctx (witx.encoding_from e) b')).
    { intros b'. split; [done|]. by apply handles_kept_same. }
    unfold Witx.load. destruct (backends ctx !! _) as [b|]; [|split; [done|by apply handles_kept_same]].
    destruct (Witx.read_builders _ _) as [sl| |]; [|split; [done|by apply handles_kept_same]..].
    destruct (backend_load b sl _) as [b' [g| |]]; [|apply Hb..].
    destruct (push_graph_kept oc (set_backend ctx (witx.encoding_from e) b') g (CLoad m bs e t))
      as (? & ? & _); done.
  - unfold Witx.load_by_name.
    destruct (map_err _ _) as [[nm'|]| |]; try (split; [done|by apply handles_kept_same]).
    destruct (registry ctx !! nm') as [g|]; [|split; [done|by apply handles_kept_same]].
    destruct (push_graph_kept oc ctx g (CLoadByName m nm)) as (? & ? & _); done.
  - unfold Witx.init_execution_context.
    destruct (table_get _ _) as [g|]; [|split; [done|by apply handles_kept_same]].
    destruct (graph_init g) as [x| |]; [|split; [done|by apply handles_kept_same]..].
    destruct (push_execution_kept oc ctx x (CInit gid)) as (? & ? & _); done.
Qed.

Lemma run_kept oc cs ctx :
  ctx_wf ctx ->
  next_key (graphs ctx) + Z.of_nat (length cs) <= u32_max ->
  next_key (executions ctx) + Z.of_nat (length cs) <= u32_max ->
  ctx_wf (ctx_run oc cs ctx) /\ handles_kept cs ctx (ctx_run oc cs ctx).
Proof.
  revert ctx. induction cs as [|c cs IH]; intros ctx Hw Hg Hx; cbn [length] in *.
  - split; [done|apply handles_kept_refl].
  - destruct (call_kept oc c ctx Hw) as [Hw' Hk']; [split; lia|].
    pose proof Hk' as (_ & _ & H1 & H2). cbn [length] in H1, H2.
    destruct (IH (ctx_after oc c ctx) Hw') as [Hw2 Hk2]; [lia..|].
    split; [done|]. by apply (handles_kept_trans [c] cs _ _ _ Hk' Hk2).
Qed.

(** The handle a call gives the guest is new in its table, and names the object
    the call made. *)
Lemma load_fresh oc ctx m bs e t id :
  ctx_wf ctx -> ctx_room ctx -> (Witx.load oc ctx m bs e t).2 = Ok id ->
  table_get (graphs ctx) id = None /\
  exists b slices g, backends ctx !! witx.encoding_from e = Some b /\
    Witx.read_builders m (ptr_iter 8 bs) = Ok slices /\
    (backend_load b slices (witx.target_from t)).2 = Ok g /\
    table_get (graphs (Witx.load oc ctx m bs e t).1) id = Some g.
Proof.
  intros Hw Hr. unfold Witx.load. destruct (backends ctx !! _) as [b|]; [|done].
  destruct (Witx.read_builders _ _) as [sl| |]; [|done..].
  destruct (backend_load b sl _) as [b' [g| |]] eqn:Hl; [|done..].
  destruct (push_graph_kept oc (set_backend ctx (witx.encoding_from e) b') g (CLoad m bs e t))
    as (_ & _ & id' & -> & Hn & Hs); [done..|]. intros [= ->]. split; [done|].
  exists b, sl, g. by rewrite Hl.
Qed.

Lemma load_by_name_fresh oc ctx m nm id :
  ctx_wf ctx -> ctx_room ctx -> (Witx.load_by_name oc ctx m nm).2 = Ok id ->
  table_get (graphs ctx) id = None /\
  exists name g, as_str m nm = Ok (Some name) /\ registry ctx !! name = Some g /\
    table_get (graphs (Witx.load_by_name oc ctx m nm).1) id = Some g.
Proof.
  intros Hw Hr. unfold Witx.load_by_name. destruct (as_str m nm) as [[name|]| |]; try done. cbn [map_err].
  destruct (registry ctx !! name) as [g|] eqn:Hg; [|done].
  destruct (push_graph_kept oc ctx g (CLoadByName m nm))
    as (_ & _ & id' & -> & Hn & Hs); [done..|]. intros [= ->]. split; [done|]. by exists name, g.
Qed.

Lemma init_fresh oc ctx gid id :
  ctx_wf ctx -> ctx_room ctx -> (Witx.init_execution_context oc ctx gid).2 = Ok id ->
  table_get (executions ctx) id = None /\
  exists g x, table_get (graphs ctx) gid = Some g /\ graph_init g = Ok x /\
    table_get (executions (Witx.init_execution_context oc ctx gid).1) id = Some x.
Proof.
  intros Hw Hr. unfold Witx.init_execution_context. destruct (table_get _ gid) as [g|]; [|done].
  destruct (graph_init g) as [x| |] eqn:Hi; [|done..].
  destruct (push_execution_kept oc ctx x (CInit gid))
    as (_ & _ & id' & -> & Hn & Hs); [done..|]. intros [= ->]. split; [done|]. by exists g, x.
Qed.

(** C3: Whatever calls a guest makes, with whatever arguments and backend (fewer
    than [2^32 - 1] of them in all): a graph handle it was given keeps naming the same
    graph; an execution handle keeps naming its own execution, whose state is the one it
    had followed by exactly the backend methods of the calls that named this handle;
    and a handle that [load], [load_by_name] or [init_execution_context] returns was
    never handed out before and names the graph or execution that call made. *)
Theorem handles_stable oc bs reg before after :
  let ctx := ctx_run oc before (ctx_new (B:=B) (G:=G) (X:=X) bs reg) in
  let ctx' := ctx_run oc after ctx in
  Z.of_nat (length before + length after) < u32_max ->
  (forall id g, table_get (graphs ctx) id = Some g -> table_get (graphs ctx') id = Some g) /\
  (forall id x, table_get (executions ctx) id = Some x ->
     table_get (executions ctx') id = Some (foldl (exec_after id) x after)) /\
  (forall m bl e t id, (Witx.load oc ctx' m bl e t).2 = Ok id ->
     table_get (graphs ctx') id = None /\
     exists b slices g, backends ctx' !! witx.encoding_from e = Some b /\
       Witx.read_builders m (ptr_iter 8 bl) = Ok slices /\
       (backend_load b slices (witx.target_from t)).2 = Ok g /\
       table_get (graphs (Witx.load oc ctx' m bl e t).1) id = Some g) /\
  (forall m nm id, (Witx.load_by_name oc ctx' m nm).2 = Ok id ->
     table_get (graphs ctx') id = None /\
     exists name g, as_str m nm = Ok (Some name) /\ registry ctx' !! name = Some g /\
       table_get (graphs (Witx.load_by_name oc ctx' m nm).1) id = Some g) /\
  (forall gid id, (Witx.init_execution_context oc ctx' gid).2 = Ok id ->
     table_get (executions ctx') id = None /\
     exists g x, table_get (graphs ctx') gid = Some g /\ graph_init g = Ok x /\
       table_get (executions (Witx.init_execution_context oc ctx' gid).1) id = Some x).
Proof.
  intros ctx ctx' Hlen.
  assert (Hnew : ctx_wf (ctx_new (B:=B) (G:=G) (X:=X) bs reg)) by (split; apply table_default_wf).
  destruct (run_kept oc before _ Hnew) as [Hw (_ & _ & Hkg & Hkx)]; [cbn; lia..|].
  cbn [next_key graphs executions ctx_new table_default] in Hkg, Hkx. fold ctx in Hw, Hkg, Hkx.
  destruct (run_kept oc after ctx Hw) as [Hw' (Hg & Hx & Hkg' & Hkx')]; [lia..|].
  fold ctx' in Hw', Hg, Hx, Hkg', Hkx'.
  assert (Hroom : ctx_room ctx') by (split; lia).
  split_and!; [done|done|..]; intros.
  - by apply load_fresh.
  - by apply load_by_name_fresh.
  - by apply init_fresh.
Qed.

(** A guest call with an unknown execution handle, or for an encoding without
    a backend, does not give the guest an error code: the host panics, because
    the conversion of every error is unimplemented.  The only code a guest ever
    sees is success. *)
Theorem guest_errors_abort ctx oc m id index t out max bs e tg :
  (forall A (r : outcome WasiNnError A) n a,
     Witx.errno (E:=Empty_set) r = Ok (n, a) -> n = Witx.Success) /\
  (table_get (executions ctx) id = None ->
     Witx.errno (E:=Empty_set) (Witx.set_input ctx m id index t).2 = Panic /\
     Witx.errno (E:=Empty_set) (Witx.compute ctx id).2 = Panic /\
     Witx.errno (E:=Empty_set) (Witx.get_output ctx m id index out max).2 = Panic) /\
  (backends ctx !! witx.encoding_from e = None ->
     Witx.errno (E:=Empty_set) (Witx.load oc ctx m bs e tg).2 = Panic).
Proof.
  split_and!.
  - intros A [a'|[]|] n a; cbn; naive_solver.
  - intros Hid. unfold Witx.set_input, Witx.compute, Witx.get_output. by rewrite Hid.
  - intros Hb. unfold Witx.load. by rewrite Hb.
Qed.
End Handles.

(** ** Inference through guest memory, on the ONNX backend *)

Section Inference.
  Context {Sess V : Type} `{!OrtSession Sess V}.
  Context (read_file : string -> option (list Z)).
#[local] Instance ops : BackendOps OnnxBackend (ONNXGraph Sess) (ONNXExecutionContext Sess) :=
    onnx_ops read_file.
  Implicit Types ctx : WasiNnCtx OnnxBackend (ONNXGraph Sess) (ONNXExecutionContext Sess).

Lemma get_set_same (t : Table (ONNXExecutionContext Sess)) id x :
  table_get (table_set t id x) id = Some x.
Proof. apply lookup_insert_eq. Qed.

Lemma validate_bytes m off n :
  0 <= n < 2 ^ 32 -> off + n <= mem_size m -> validate_range 1 m off n = Ok (off, n).
Proof.
  intros Hn Hle. apply validate_range_Ok. rewrite Z.mul_1_r. unfold in_u. split_and!; (done || lia).
Qed.

(** C1: Setting an input from guest memory, computing, and fetching the output
    into a guest buffer that is large enough: all three calls succeed, the
    returned size is the size of the output, the buffer in guest memory then
    decodes to the floats the session computed from the floats of the input,
    and no byte of guest memory outside that part of the buffer changed. *)
Theorem witx_inference ctx m id x t tensor fs v out buf max :
  table_get (executions ctx) id = Some x ->
  length (inputs x) = 1%nat -> length (outputs x) = 1%nat ->
  Witx.read_tensor m t = Ok tensor -> tensor_type tensor = Fp32 ->
  bytes_to_f32_vec (E:=BackendError) (data tensor) = Ok fs ->
  make_input (dimensions tensor) fs = Some v ->
  session_run (session x) [v] = Some [Some out] -> Forall (in_u 32) out ->
  in_u 32 buf -> in_u 32 max -> buf + max <= mem_size m ->
  Z.of_nat (4 * length out) <= max -> is_shared_memory m = false ->
  exists ctx1 ctx2 ctx3 m' bytes,
    Witx.set_input ctx m id 0 t = (ctx1, Ok ()) /\
    Witx.compute ctx1 id = (ctx2, Ok ()) /\
    Witx.get_output ctx2 m id 0 buf max = (ctx3, m', Ok (Z.of_nat (4 * length out))) /\
    as_slice m' (buf, Z.of_nat (4 * length out)) = Ok (Some bytes) /\
    bytes_to_f32_vec (E:=BackendError) bytes = Ok out /\
    mem_size m' = mem_size m /\
    (forall i, Z.of_nat i < buf \/ buf + Z.of_nat (4 * length out) <= Z.of_nat i ->
       mem_bytes m' !! i = mem_bytes m !! i).
Proof.
  intros Hx Hin Hout Ht Hty Hfs Hv Hrun Hu Hb Hm Hle Hfit Hsh.
  unfold in_u in Hb, Hm. unfold mem_size in Hle.
  destruct m as [base bs|base bs]; [cbn in Hle|done].
  destruct (inputs x) as [|i0 [|]] eqn:Hi; try done.
  set (x1 := {| session := session x; inputs := [Some tensor]; outputs := outputs x |}).
  assert (Hs1 : x_set_input x 0 tensor = (x1, Ok ())).
  { cbn. unfold onnx_set_input. rewrite Hi. cbn. done. }
  destruct (onnx_compute_get_output x1 [v] [Some out] 0 out (sub_bytes bs buf max))
    as (x2 & Hc & _ & Hg); try done.
  { constructor; [|constructor]. cbn. rewrite Hty, Hfs. cbn. by rewrite Hv. }
  { by repeat constructor. }
  { rewrite length_sub_bytes by lia. lia. }
  { lia. }
  assert (Hlf : length (f32_vec_to_bytes out) = (4 * length out)%nat)
    by (rewrite f32_vec_to_bytes_flatten, length_flatten; lia).
  rewrite <- Hlf in Hg at 2.
  eexists _, _, _, (Unshared base (splice bs buf (f32_vec_to_bytes out))), (f32_vec_to_bytes out).
  split; [|split; [|split]].
  - unfold Witx.set_input. rewrite Hx, Ht, Hs1. reflexivity.
  - unfold Witx.compute. cbn [executions set_executions]. rewrite get_set_same.
    change (x_compute x1) with (onnx_compute x1). rewrite Hc. reflexivity.
  - unfold Witx.get_output, as_slice_mut. cbn [executions set_executions fst snd as_array].
    rewrite get_set_same, validate_bytes by (unfold mem_size; cbn [mem_bytes]; lia). cbn [mbind outcome_bind].
    rewrite slice_index_ok by (unfold mem_size; cbn [mem_bytes]; lia). cbn [mbind outcome_bind mem_bytes].
    change (x_get_output x2) with (onnx_get_output x2). rewrite Hg.
    cbn [set_bytes]. by rewrite splice_prefix by lia.
  - assert (Hsp : length (splice bs buf (f32_vec_to_bytes out)) = length bs)
      by (apply length_splice; lia).
    unfold as_slice, mem_size. cbn [mem_bytes fst snd].
    rewrite validate_bytes by (unfold mem_size; cbn [mem_bytes]; lia).
    cbn [mbind outcome_bind]. rewrite slice_index_ok by (unfold mem_size; cbn [mem_bytes]; lia).
    cbn [mbind outcome_bind]. rewrite Hsp, <- Hlf. split_and!; [|by apply bytes_to_f32_vec_to_bytes|done|].
    + by rewrite sub_bytes_splice_eq by lia.
    + intros i Hi'. apply splice_lookup_ne; lia.
Qed.
End Inference.

(** ** Witnesses *)

Definition echo_ops := onnx_ops (Sess:=unit) (V:=list Z) (fun _ => None).
#[export] Existing Instance echo_ops.

(** A dimensions list, two floats of data, and twelve bytes for the output. *)
Definition echo_memory : GuestMemory :=
  Unshared 65536 ([2; 0; 0; 0] ++ f32_vec_to_bytes [1065353216; 7] ++ replicate 12 255).
Definition echo_wtensor : Witx.WTensor :=
  {| Witx.w_dimensions := (0, 1); Witx.w_type := witx.F32; Witx.w_data := (4, 8) |}.
Definition echo_ctx : WasiNnCtx OnnxBackend (ONNXGraph unit) (ONNXExecutionContext unit) :=
  {| backends := ∅; registry := ∅; graphs := table_default;
     executions := {| entries := {[0 := echo_context]}; next_key := 1 |} |}.

Lemma witx_inference_witness :
  exists ctx1 ctx2 ctx3 m' bytes,
    Witx.set_input echo_ctx echo_memory 0 0 echo_wtensor = (ctx1, Ok ()) /\
    Witx.compute ctx1 0 = (ctx2, Ok ()) /\
    Witx.get_output ctx2 echo_memory 0 0 12 12 = (ctx3, m', Ok 8) /\
    as_slice m' (12, 8) = Ok (Some bytes) /\
    bytes_to_f32_vec (E:=BackendError) bytes = Ok [1065353216; 7].
Proof.
  destruct (witx_inference (fun _ => None) echo_ctx echo_memory 0 echo_context echo_wtensor echo_tensor
    [1065353216; 7] [1065353216; 7] [1065353216; 7] 12 12)
    as (c1 & c2 & c3 & m' & bytes & H1 & H2 & H3 & H4 & H5 & _).
  - vm_compute; reflexivity.
  - reflexivity.
  - reflexivity.
  - vm_compute; reflexivity.
  - reflexivity.
  - vm_compute; reflexivity.
  - reflexivity.
  - reflexivity.
  - repeat constructor; cbn; lia.
  - unfold in_u; lia.
  - unfold in_u; lia.
  - vm_compute; discriminate.
  - vm_compute; discriminate.
  - reflexivity.
  - exists c1, c2, c3, m', bytes. split_and!; [exact H1|exact H2|exact H3|exact H4|exact H5].
Defined.

Definition new_ctx : WasiNnCtx OnnxBackend (ONNXGraph unit) (ONNXExecutionContext unit) :=
  ctx_new [MkOnnxBackend] ∅.

(** The guest loads a graph with two builders (refused by the backend), then
    with the first of them only: four bytes at offset 0. *)
Definition load_memory : GuestMemory := Unshared 65536 ([0; 0; 0; 0; 4; 0; 0; 0] ++ replicate 8 1).

Definition load_calls : list guest_call :=
  [CLoad load_memory (0, 2) witx.WOnnx witx.WCpu; CLoad load_memory (0, 1) witx.WOnnx witx.WCpu;
   CInit 0; CInit 0].

Lemma handles_stable_witness :
  let ctx := ctx_run true load_calls new_ctx in
  exists x, table_get (executions ctx) 0 = Some x /\
    table_get (executions (ctx_run true [CSetInput echo_memory 1 0 echo_wtensor] ctx)) 0 = Some x /\
    table_get (executions (ctx_run true [CSetInput echo_memory 0 0 echo_wtensor] ctx)) 0 =
      Some (onnx_set_input x 0 echo_tensor).1.
Proof.
  destruct (handles_stable true [MkOnnxBackend] ∅ load_calls [CSetInput echo_memory 1 0 echo_wtensor])
    as (_ & H1 & _); [vm_compute; reflexivity|].
  destruct (handles_stable true [MkOnnxBackend] ∅ load_calls [CSetInput echo_memory 0 0 echo_wtensor])
    as (_ & H2 & _); [vm_compute; reflexivity|].
  eexists. split; [vm_compute; reflexivity|]. split.
  - refine (H1 0 _ _). vm_compute; reflexivity.
  - etransitivity; [exact (H2 0 {| session := (); inputs := [None]; outputs := [None] |}
      ltac:(vm_compute; reflexivity))|vm_compute; reflexivity].
Defined.
