(* ===== verification/BenchMain.v ===== *)
(** * The benchmark program of the guest

    [src/wasm-module/src/main.rs], [main] with [load_model], [initialize_env],
    [read_img] and [run_model].  The crates [wasi-nn] (the guest side of the
    interface) and [image] are the record [guest_env]; [clock k] is the instant
    the [k]-th call of [Instant::now()] reads. *)

From Stdlib Require Import ZArith Lia SpecFloat.
From stdpp Require Import base list gmap strings numbers.
From S2P Require Import Prelude Float32 BenchMetrics BenchTensor.
Open Scope Z_scope.

Record guest_env (Graph Context Image NnErr : Type) := {
  (** [GraphBuilder::new(Onnx, CPU).build_from_files([path])] *)
  build_from_files : string -> outcome NnErr Graph;
  (** [Graph::init_execution_context] *)
  env_init : Graph -> outcome NnErr Context;
  (** [image::open] followed by [imageops::resize] *)
  open_image : string -> option Image;
  resize : Image -> Z -> Z -> Image;
  (** [GraphExecutionContext]: [set_input], [compute], [get_output] *)
  env_set_input : Context -> Z -> list Z -> list Z -> Context * outcome NnErr unit;
  env_compute : Context -> Context * outcome NnErr unit;
  env_get_output : Context -> Z -> list f32 -> outcome NnErr (list f32);
}.
Arguments build_from_files {_ _ _ _}.
Arguments env_init {_ _ _ _}.
Arguments open_image {_ _ _ _}.
Arguments resize {_ _ _ _}.
Arguments env_set_input {_ _ _ _}.
Arguments env_compute {_ _ _ _}.
Arguments env_get_output {_ _ _ _}.

Section Main.
  Context {Graph Context' Image NnErr A : Type} `{!RgbaImage Image} `{!NdArray A}.
  Context (env : guest_env Graph Context' Image NnErr) (clock : nat -> Z) (oc : bool).

Definition initialize_env (model : Graph) : outcome string Context' :=
  match env_init env model with
  | Ok context => Ok context
  | Err _ => Err "Error occured while initializing the env"
  | Panic => Panic
  end.

Definition load_model (model_path : string) : outcome NnErr Graph :=
  build_from_files env model_path.

Definition read_img (image_path : string) : outcome string Image :=
  match open_image env image_path with
  | Some img => Ok (resize env img 224 224)
  | None => Err "image error"
  end.

Definition run_model (context : Context') : Context' * outcome string unit :=
  let '(c, r) := env_compute env context in
  (c, map_err (fun _ => "Error occurred while running the model"%string) r).

Definition model_path : string := "/assets/models/mobilenetv2-10.onnx".
Definition image_path : string := "/assets/imgs/unseen_dog.jpg".

Inductive output :=
| OConsole (c : console)
| OMetrics (p : printed).

(** A panic inside an ignored call still unwinds. *)
Definition unless_panic {E B} (r : outcome E B) : outcome Empty_set unit :=
  match r with Panic => Panic | _ => Ok () end.

Definition main : outcome Empty_set (list output) :=
  tracker ← tracker_new (clock 0);
  let tracker := start_phase (clock 1) "RED BOX Phase" tracker in
  tracker ← start_operation (clock 2) "loadmodel" tracker;
  model ← unwrap_result (load_model model_path);
  tracker ← finish_operation oc (clock 3) tracker;
  tracker ← start_operation (clock 4) "envload" tracker;
  context ← unwrap_result (initialize_env model);
  tracker ← finish_operation oc (clock 5) tracker;
  tracker ← start_operation (clock 6) "readimg" tracker;
  original_img ← unwrap_result (read_img image_path);
  tracker ← finish_operation oc (clock 7) tracker;
  let tracker := end_phase "RED BOX Phase" tracker in
  let tracker := start_phase (clock 8) "GREEN BOX Phase" tracker in
  tracker ← start_operation (clock 9) "Pre-processing" tracker;
  input ← process_image (A:=A) original_img;
  let '(context, set_result) := env_set_input env context 0 [1; 3; 224; 224] input in
  _ ← unless_panic set_result;
  tracker ← finish_operation oc (clock 10) tracker;
  tracker ← start_operation (clock 11) "Inference" tracker;
  let '(context, run_result) := run_model context in
  _ ← unless_panic run_result;
  tracker ← finish_operation oc (clock 12) tracker;
  tracker ← start_operation (clock 13) "Post-processing" tracker;
  let '(lines, class_result) := post_process (env_get_output env) context image_path in
  class ← unwrap_result class_result;
  tracker ← finish_operation oc (clock 14) tracker;
  let tracker := end_phase "GREEN BOX Phase" tracker in
  items ← print_all_metrics oc (clock 15) tracker;
  Ok (map OConsole lines ++ map OMetrics items ++ [OConsole (CPredicted class)]).

(** The calls [main] makes on its tracker, in order. *)
Definition main_calls : list (Z * call) :=
  [(clock 1, StartPhase "RED BOX Phase");
   (clock 2, StartOp "loadmodel"); (clock 3, FinishOp);
   (clock 4, StartOp "envload"); (clock 5, FinishOp);
   (clock 6, StartOp "readimg"); (clock 7, FinishOp);
   (clock 7, EndPhase "RED BOX Phase");
   (clock 8, StartPhase "GREEN BOX Phase");
   (clock 9, StartOp "Pre-processing"); (clock 10, FinishOp);
   (clock 11, StartOp "Inference"); (clock 12, FinishOp);
   (clock 13, StartOp "Post-processing"); (clock 14, FinishOp);
   (clock 14, EndPhase "GREEN BOX Phase")].
End Main.

(** ** The run of the benchmark *)

(** The names and durations of a list of completed operations determine their
    total. *)
Lemma wall_sum_times l : wall_sum l = foldr Z.add 0 (map snd (map name_time l)).
Proof. unfold wall_sum. induction l as [|m l IH]; cbn; [done|]. by rewrite IH. Qed.

Lemma finish_operation_idle {E} oc now t t' :
  finish_operation (E:=E) oc now t = Ok t' -> current_operation t' = None.
Proof.
  unfold finish_operation. destruct (current_operation t) eqn:Ho.
  - unfold finish_operation_internal. intros H.
    repeat (apply bind_Ok_inv in H as (? & _ & H)). by injection H as <-.
  - by intros [= <-].
Qed.

(** A phase around a sequence of operations, the last of which finishes at
    [n]: what it records and what it leaves. *)
Lemma ops_phase {E} oc now t p cs n :
  clock_ok now -> tracker_inv now t -> monotone now (cs ++ [(n, FinishOp)]) ->
  Forall (fun nc => op_call nc.2) cs ->
  let ops := cs ++ [(n, FinishOp)] in
  exists t' m,
    run (E:=E) oc ((now, StartPhase p) :: cs ++ [(n, FinishOp)] ++ [(n, EndPhase p)]) t = Ok t' /\
    tracker_inv n t' /\ start_metrics t' = start_metrics t /\
    phase_metrics t' = phase_metrics t ++ [(p, m)] /\
    phase_order t' = phase_order (start_phase now p t) /\
    map name_time (completed_metrics t') =
      map name_time (completed_metrics t) ++ finished (running t) ops /\
    wall_clock_time m = foldr Z.add 0 (map snd (finished (running t) ops)) /\
    running t' = None.
Proof.
  intros Hc Hi Hm Hops ops.
  assert (Hi1 : tracker_inv now (start_phase now p t))
    by (apply start_phase_inv; [unfold clock_ok in Hc; lia|done]).
  assert (Hall : Forall (fun nc => op_call nc.2) ops)
    by (apply Forall_app; split; [done|by apply Forall_singleton]).
  assert (Hno : Forall (fun nc => ~ mentions p nc.2) ops).
  { eapply Forall_impl; [|exact Hall]. intros [k []]; done || (cbn; tauto). }
  destruct (run_ok (E:=E) oc ops now _ Hm Hi1) as (t1 & Hr & Hi2).
  replace (last_instant now ops) with n in Hi2
    by (subst ops; clear; revert now; induction cs as [|[] cs IH]; intros now; [done|apply IH]).
  destruct (run_phase oc p ops now _ t1 _ Hm Hi1 Hno Hr (lookup_insert_eq _ _ _))
    as (new & m & Hnew & Hp & Hw).
  destruct (run_ops_frame oc ops _ t1 Hall Hr) as (Hpm & Hpo & Hsm).
  pose proof (run_completed oc ops _ t1 Hr) as Hcm.
  change (running (start_phase now p t)) with (running t) in Hcm.
  change (completed_metrics (start_phase now p t)) with (completed_metrics t) in Hcm, Hnew.
  exists (end_phase p t1), m. split.
  { cbn [run do_call mbind outcome_bind]. rewrite app_assoc. fold ops.
    rewrite run_app, Hr. reflexivity. }
  split; [by apply end_phase_inv|]. unfold end_phase. rewrite Hp. cbn.
  split_and!; [by rewrite Hsm|by rewrite Hpm|done|done| |].
  - cbn in Hw. rewrite Hw, wall_sum_times. rewrite Hnew, map_app in Hcm.
    apply app_inv_head in Hcm. by rewrite Hcm.
  - subst ops. rewrite run_app in Hr. apply bind_Ok_inv in Hr as (t2 & _ & Hr).
    cbn [run do_call] in Hr. apply bind_Ok_inv in Hr as (t3 & Hf & [= <-]).
    apply finish_operation_idle in Hf. unfold running. by rewrite Hf.
Qed.

Section MainCorrect.
  Context {Graph Context' Image NnErr A : Type} `{!RgbaImage Image} `{!NdArray A}.
  Context (env : guest_env Graph Context' Image NnErr) (clock : nat -> Z) (oc : bool).
  (** [Instant::now] never decreases and stays within a [Duration]. *)
  Hypothesis clock_range : forall k, clock_ok (clock k).
  Hypothesis clock_mono : forall k, clock k <= clock (S k).

Lemma clock_le i j : (i <= j)%nat -> clock i <= clock j.
Proof using clock_mono. induction 1; [lia|]. etransitivity; [eassumption|apply clock_mono]. Qed.

Ltac monotone_tac :=
  cbn; repeat match goal with
  | |- _ /\ _ => split
  | |- True => exact I
  | |- clock _ <= clock _ => apply clock_le; lia
  | |- clock_ok _ => apply clock_range
  end.

Definition red_calls : list (Z * call) :=
  [(clock 2, StartOp "loadmodel"); (clock 3, FinishOp); (clock 4, StartOp "envload");
   (clock 5, FinishOp); (clock 6, StartOp "readimg"); (clock 7, FinishOp)].
Definition green_calls : list (Z * call) :=
  [(clock 9, StartOp "Pre-processing"); (clock 10, FinishOp); (clock 11, StartOp "Inference");
   (clock 12, FinishOp); (clock 13, StartOp "Post-processing"); (clock 14, FinishOp)].


(** The tracker at the end of [main]. *)
Lemma main_tracker t0 :
  tracker_new (E:=Empty_set) (clock 0) = Ok t0 ->
  exists t m1 m2,
    run (E:=Empty_set) oc (main_calls clock) t0 = Ok t /\ tracker_inv (clock 14) t /\
    timestamp (start_metrics t) = clock 0 /\
    phase_order t = ["RED BOX Phase"; "GREEN BOX Phase"]%string /\
    map name_time (completed_metrics t) = finished None red_calls ++ finished None green_calls /\
    phase_metrics t = [("RED BOX Phase"%string, m1); ("GREEN BOX Phase"%string, m2)] /\
    wall_clock_time m1 = foldr Z.add 0 (map snd (finished None red_calls)) /\
    wall_clock_time m2 = foldr Z.add 0 (map snd (finished None green_calls)).
Proof using clock_mono clock_range.
  intros Hnew. pose proof (tracker_new_inv _ _ Hnew) as Hi0.
  unfold tracker_new in Hnew. rewrite current_ok in Hnew. injection Hnew as <-.
  set (t0 := {| start_metrics := _ |}) in *.
  apply (tracker_inv_mono _ (clock 1)) in Hi0; [|apply clock_le; lia].
  destruct (ops_phase (E:=Empty_set) oc (clock 1) t0 "RED BOX Phase" (take 5 red_calls) (clock 7))
    as (tb & m1 & Hrb & Hib & Hsb & Hpb & Hob & Hcb & Hwb & Hkb);
    [apply clock_range|done|monotone_tac|by repeat constructor|].
  apply (tracker_inv_mono _ (clock 8)) in Hib; [|apply clock_le; lia].
  destruct (ops_phase (E:=Empty_set) oc (clock 8) tb "GREEN BOX Phase" (take 5 green_calls) (clock 14))
    as (t & m2 & Hr & Hi & Hs & Hp & Ho & Hc & Hw & _);
    [apply clock_range|done|monotone_tac|by repeat constructor|].
  exists t, m1, m2. rewrite Hkb in Hc, Hw.
  replace (main_calls clock) with
    (((clock 1, StartPhase "RED BOX Phase") :: take 5 red_calls ++ [(clock 7, FinishOp)]
       ++ [(clock 7, EndPhase "RED BOX Phase")]) ++
     ((clock 8, StartPhase "GREEN BOX Phase") :: take 5 green_calls ++ [(clock 14, FinishOp)]
       ++ [(clock 14, EndPhase "GREEN BOX Phase")])) by reflexivity.
  rewrite run_app, Hrb. cbn [mbind outcome_bind].
  unfold start_phase in Ho. cbn [phase_order] in Ho. rewrite Hob in Ho.
  split_and!; [done|done|by rewrite Hs, Hsb|by rewrite Ho| |by rewrite Hp, Hpb|done|done].
  by rewrite Hc, Hcb.
Qed.

(** [main] is its external calls around the tracker calls. *)
Lemma main_run t0 t model c0 img input c1 r1 c2 r2 lines class :
  tracker_new (E:=Empty_set) (clock 0) = Ok t0 ->
  run (E:=Empty_set) oc (main_calls clock) t0 = Ok t ->
  build_from_files env model_path = Ok model -> env_init env model = Ok c0 ->
  open_image env image_path = Some img ->
  process_image (A:=A) (E:=Empty_set) (resize env img 224 224) = Ok input ->
  env_set_input env c0 0 [1; 3; 224; 224] input = (c1, r1) -> r1 <> Panic ->
  env_compute env c1 = (c2, r2) -> r2 <> Panic ->
  post_process (env_get_output env) c2 image_path = (lines, Ok class) ->
  main (A:=A) env clock oc =
  (items ← print_all_metrics oc (clock 15) t;
   Ok (map OConsole lines ++ map OMetrics items ++ [OConsole (CPredicted class)])).
Proof.
  intros H0 Hrun Hm Hc Himg Hin Hset Hr1 Hcomp Hr2 Hpp.
  unfold main, load_model, initialize_env, read_img, run_model.
  rewrite H0, Hm. cbn [mbind outcome_bind unwrap_result]. rewrite Hc, Himg.
  cbn [mbind outcome_bind unwrap_result]. rewrite Hin. cbn [mbind outcome_bind unwrap_result].
  rewrite Hset, Hcomp, Hpp.
  assert (Hu1 : unless_panic r1 = Ok ()) by (by destruct r1).
  assert (Hu2 : unless_panic (map_err (fun _ => "Error occurred while running the model"%string) r2)
                = Ok ()) by (by destruct r2).
  rewrite Hu1, Hu2. unfold main_calls in Hrun. cbn [run do_call] in Hrun.
  do 16 (apply bind_Ok_inv in Hrun; let Hs := fresh in destruct Hrun as (? & Hs & Hrun);
          first [rewrite Hs | injection Hs as <-]; cbn [mbind outcome_bind unwrap_result]).
  by injection Hrun as ->.
Qed.

(** C2: When the model, the environment and the image load and the output can be
    fetched, [main] runs to its end.  It prints the class selected from the
    fetched scores, the six operations in order with the time between their
    start and finish, the two phases each with the sum of the times of its
    three operations, and the time since the tracker was made.  The results of
    setting the input and of running the model do not matter: [main] ignores
    both, so a failed inference is reported as if it had succeeded. *)
Theorem main_benchmark model c0 img :
  build_from_files env model_path = Ok model -> env_init env model = Ok c0 ->
  open_image env image_path = Some img ->
  width (resize env img 224 224) = 224 -> height (resize env img 224 224) = 224 ->
  exists input, image_to_tensor (A:=A) (E:=Empty_set) (resize env img 224 224) = Ok input /\
  forall c1 r1 c2 r2 scores,
    env_set_input env c0 0 [1; 3; 224; 224] input = (c1, r1) -> r1 <> Panic ->
    env_compute env c1 = (c2, r2) -> r2 <> Panic ->
    env_get_output env c2 0 (replicate OUTPUT_BUFFER_CAPACITY f32_zero) = Ok scores ->
    scores <> [] -> Forall not_nan scores ->
    exists k s ops m1 m2 total l1 l2,
      main (A:=A) env clock oc =
        Ok (OConsole (CClass image_path (Z.of_nat (S k)) s) ::
            map OMetrics (map PMetrics ops ++ [PLine l1; PMetrics m1; PMetrics m2; PLine l2; PMetrics total])
            ++ [OConsole (CPredicted (Z.of_nat (S k)))]) /\
      selected scores k s /\
      map name_time ops = finished None red_calls ++ finished None green_calls /\
      name_time m1 = ("RED BOX Phase"%string, foldr Z.add 0 (map snd (finished None red_calls))) /\
      name_time m2 = ("GREEN BOX Phase"%string, foldr Z.add 0 (map snd (finished None green_calls))) /\
      name_time total = ("Total"%string, clock 15 - clock 0).
Proof using clock_mono clock_range.
  intros Hm Hc Himg Hw Hh.
  destruct (image_to_tensor_correct (A:=A) (resize env img 224 224) Hw Hh) as (input & Hin & _).
  exists input. split; [done|]. intros c1 r1 c2 r2 scores Hset Hr1 Hcomp Hr2 Hget Hne Hnan.
  destruct (tracker_new (E:=Empty_set) (clock 0)) as [t0| |] eqn:Hnew; [|done..].
  destruct (main_tracker t0 Hnew) as (t & m1 & m2 & Hrun & Hi & Hs & Ho & Hcm & Hpm & Hw1 & Hw2).
  destruct (best_class_selected scores Hne Hnan) as (k & s & Hbest & Hsel).
  rewrite (main_run t0 t model c0 img input c1 r1 c2 r2
             [CClass image_path (Z.of_nat (S k)) s] (Z.of_nat (S k))); try done.
  2:{ unfold post_process. by rewrite Hget, Hbest. }
  pose proof (inv_done _ _ Hi) as Hd. rewrite Hpm in Hd.
  apply Forall_cons_iff in Hd as [[_ Hn1] Hd]. apply Forall_cons_iff in Hd as [[_ Hn2] _].
  cbn in Hn1, Hn2.
  unfold print_all_metrics, get_total_metrics. rewrite current_ok. cbn [mbind outcome_bind].
  rewrite diff_ok by (done || apply Hi). cbn [mbind outcome_bind name timestamp].
  rewrite Hpm, Ho, Hs. unfold duration_since, saturating_sub.
  rewrite Z.max_r by (pose proof (clock_le 0 15 ltac:(lia)); lia).
  eexists k, s, (completed_metrics t), m1, m2, _, _, _. split; [reflexivity|].
  unfold name_time at 2 3. by rewrite Hn1, Hn2, Hw1, Hw2.
Qed.
End MainCorrect.

(** ** Witness *)

Definition sample_env : guest_env unit unit fn_image unit := {|
  build_from_files _ := Ok ();
  env_init _ := Ok ();
  open_image _ := Some grey_image;
  resize _ w h := {| fw := w; fh := h; fpix := fpix grey_image |};
  env_set_input c _ _ _ := (c, Err ());
  env_compute c := (c, Err ());
  env_get_output _ _ _ := Ok [f32_of_Z 1; f32_of_Z 5; f32_of_Z 2];
|}.

Definition sample_clock (k : nat) : Z := 1000 * Z.of_nat (k `min` 20).

(** Both ignored calls fail, and the run still reports class 2. *)
Lemma main_benchmark_witness :
  exists k s out, main (A:=fn_array) sample_env sample_clock true = Ok out /\
    selected [f32_of_Z 1; f32_of_Z 5; f32_of_Z 2] k s.
Proof.
  destruct (main_benchmark (A:=fn_array) sample_env sample_clock true) with
    (model := ()) (c0 := ()) (img := grey_image) as (input & _ & H).
  - intros n. unfold clock_ok, sample_clock, Duration_MAX, NANOS_PER_SEC. lia.
  - intros n. unfold sample_clock. lia.
  - reflexivity.
  - reflexivity.
  - reflexivity.
  - reflexivity.
  - reflexivity.
  - destruct (H () (Err ()) () (Err ()) [f32_of_Z 1; f32_of_Z 5; f32_of_Z 2])
      as (k & s & ops & m1 & m2 & total & l1 & l2 & Hmain & Hsel & _);
      [reflexivity|discriminate|reflexivity|discriminate|reflexivity|discriminate|repeat constructor; discriminate|].
    eexists k, s, _. split; [exact Hmain|exact Hsel].
Defined.
