(* ===== verification/Slab.v ===== *)
(** * Slab arena

    [src/wasmtime-repo/crates/slab/src/lib.rs]: a vector of entries, each
    occupied or a link of a free list kept in the vacant ones.  The runtime
    keeps its types, its GC roots and its shared objects in such arenas.  The
    model keeps the vector with its capacity, the free list links and the
    counter; the abstract state is the map from indices to values [view]. *)

From Stdlib Require Import ZArith Lia.
From stdpp Require Import base list gmap numbers option.
From S2P Require Import Prelude.
Open Scope Z_scope.

(** [EntryIndex] is the [NonZeroU32] that holds the index plus one; an [Id]
    is an [EntryIndex]. *)
Definition EntryIndex : Type := Z.

Definition MAX_CAPACITY : Z := u32_max - 1.

Definition entry_new {E} (i : nat) : outcome E EntryIndex :=
  assert_ (Z.of_nat i <=? MAX_CAPACITY);;
  x ← unwrap (checked 32 (Z.of_nat i + 1));
  assert_ (negb (x =? 0));;
  Ok x.

Definition entry_index (e : EntryIndex) : nat := Z.to_nat (e - 1).

Definition into_raw {E} (id : EntryIndex) : outcome E Z :=
  unwrap (checked 32 (Z.of_nat (entry_index id))).
Definition from_raw {E} (raw : Z) : outcome E EntryIndex := entry_new (Z.to_nat raw).

Inductive Entry (T : Type) :=
| Occupied (x : T)
| Free (next_free : option EntryIndex).
Arguments Occupied {T} x.
Arguments Free {T} next_free.

(** [cap] is the capacity of the vector [entries]. *)
Record Slab (T : Type) := {
  entries : list (Entry T);
  cap : Z;
  free : option EntryIndex;
  slen : Z
}.
Arguments entries {T}.
Arguments cap {T}.
Arguments free {T}.
Arguments slen {T}.
Arguments Build_Slab {T}.

(** [Vec::reserve]: the capacity of a vector after reserving; growth is
    amortised, from a minimum [min_cap] that depends on the element size. *)
Definition vec_reserve (min_cap len cap additional : Z) : Z :=
  if cap - len <? additional
  then Z.max min_cap (Z.max (2 * cap) (len + additional))
  else cap.

Section Operations.
  Context {T E : Type} (oc : bool) (min_cap : Z).
  Implicit Types (s : Slab T).

Definition default : Slab T := {| entries := []; cap := 0; free := None; slen := 0 |}.

Definition len s : Z := slen s.
Definition is_empty s : bool := len s =? 0.
Definition capacity s : Z := cap s.

Definition reserve s (additional : Z) : outcome E (Slab T) :=
  assert_ (len s <=? capacity s);;
  if additional <=? capacity s - len s then Ok s
  else
    let c := vec_reserve min_cap (Z.of_nat (length (entries s))) (cap s) additional in
    assert_ (c <=? MAX_CAPACITY);;
    Ok {| entries := entries s; cap := c; free := free s; slen := slen s |}.

Definition with_capacity (c : Z) : outcome E (Slab T) := reserve default c.

Definition MIN_CAPACITY : Z := 16.
Definition double_capacity s : outcome E (Slab T) :=
  reserve s (Z.max (cap s) MIN_CAPACITY).

(** [try_alloc_index] takes the head of the free list out of [free], or pushes
    a vacant entry when the vector has room for one. *)
Definition try_alloc_index s : outcome E (option EntryIndex * Slab T) :=
  match free s with
  | Some index =>
      Ok (Some index, {| entries := entries s; cap := cap s; free := None; slen := slen s |})
  | None =>
      if Z.of_nat (length (entries s)) <? cap s then
        index ← entry_new (length (entries s));
        Ok (Some index, {| entries := entries s ++ [Free None]; cap := cap s;
                           free := None; slen := slen s |})
      else Ok (None, s)
  end.

(** [None] for [Err(value)]: no room. *)
Definition try_alloc s (value : T) : outcome E (option EntryIndex * Slab T) :=
  '(oi, s1) ← try_alloc_index s;
  match oi with
  | None => Ok (None, s1)
  | Some index =>
      e ← unwrap (entries s1 !! entry_index index);
      match e with
      | Occupied _ => Panic
      | Free next_free =>
          l ← arith oc 32 (slen s1 + 1);
          Ok (Some index,
              {| entries := <[entry_index index := Occupied value]> (entries s1);
                 cap := cap s1; free := next_free; slen := l |})
      end
  end.

Definition alloc_slow s (value : T) : outcome E (EntryIndex * Slab T) :=
  s1 ← double_capacity s;
  '(oi, s2) ← try_alloc s1 value;
  id ← unwrap oi;
  Ok (id, s2).

Definition alloc s (value : T) : outcome E (EntryIndex * Slab T) :=
  '(oi, s1) ← try_alloc s value;
  match oi with
  | Some id => Ok (id, s1)
  | None => alloc_slow s1 value
  end.

Definition next_id s : outcome E EntryIndex :=
  match free s with
  | Some index => Ok index
  | None => entry_new (Z.to_nat (len s))
  end.

Definition get s (id : EntryIndex) : outcome E (option T) :=
  e ← unwrap (entries s !! entry_index id);
  match e with
  | Occupied x => Ok (Some x)
  | Free _ => Ok None
  end.

(** The slab after a write through the borrow that [get_mut] returns; [None]
    when it returns none. *)
Definition get_mut s (id : EntryIndex) (x' : T) : outcome E (option (Slab T)) :=
  e ← unwrap (entries s !! entry_index id);
  match e with
  | Occupied _ =>
      Ok (Some {| entries := <[entry_index id := Occupied x']> (entries s);
                  cap := cap s; free := free s; slen := slen s |})
  | Free _ => Ok None
  end.

(** [Index::index]. *)
Definition index s (id : EntryIndex) : outcome E T := x ← get s id; unwrap x.

Definition contains s (id : EntryIndex) : bool :=
  match entries s !! entry_index id with
  | Some (Occupied _) => true
  | _ => false
  end.

Definition dealloc s (id : EntryIndex) : outcome E (T * Slab T) :=
  e ← unwrap (entries s !! entry_index id);
  match e with
  | Free _ => Panic
  | Occupied value =>
      l ← arith oc 32 (slen s - 1);
      Ok (value, {| entries := <[entry_index id := Free (free s)]> (entries s);
                    cap := cap s; free := Some id; slen := l |})
  end.

(** The pairs that [iter] yields, in order. *)
Fixpoint iter_from (i : nat) (es : list (Entry T)) : outcome E (list (EntryIndex * T)) :=
  match es with
  | [] => Ok []
  | Occupied x :: es' =>
      id ← entry_new i;
      rest ← iter_from (S i) es';
      Ok ((id, x) :: rest)
  | Free _ :: es' => iter_from (S i) es'
  end.

Definition iter s : outcome E (list (EntryIndex * T)) :=
  assert_ (Z.of_nat (length (entries s)) <=? MAX_CAPACITY);;
  iter_from 0 (entries s).

(** [drain], its iterator run to the end: the vector keeps its capacity. *)
Definition drain s : outcome E (list (EntryIndex * T) * Slab T) :=
  assert_ (Z.of_nat (length (entries s)) <=? MAX_CAPACITY);;
  l ← iter_from 0 (entries s);
  Ok (l, {| entries := []; cap := cap s; free := None; slen := 0 |}).
End Operations.

(** ** The abstract state and the invariant *)

Section Correct.
  Context {T E : Type} (oc : bool) (min_cap : Z).
  Implicit Types (s : Slab T) (es : list (Entry T)).

Definition occupant (e : Entry T) : option T :=
  match e with Occupied x => Some x | Free _ => None end.

(** The values of the slab by identifier. *)
Definition key (i : nat) : Z := Z.of_nat i + 1.
Definition view s : gmap Z T :=
  kmap key (omap occupant (map_seq (M:=gmap nat _) 0 (entries s))).

Definition count es : Z := Z.of_nat (length (omap occupant es)).

(** The free list: its links run through vacant entries. *)
Inductive free_chain es : option EntryIndex -> list nat -> Prop :=
| chain_nil : free_chain es None []
| chain_cons i l next :
    es !! i = Some (Free next) -> free_chain es next l ->
    free_chain es (Some (Z.of_nat i + 1)) (i :: l).

Record slab_inv s : Prop := {
  inv_chain : exists fl, free_chain (entries s) (free s) fl /\ NoDup fl /\
                (forall i n, entries s !! i = Some (Free n) -> i ∈ fl);
  inv_len : slen s = count (entries s);
  inv_cap : Z.of_nat (length (entries s)) <= cap s <= MAX_CAPACITY
}.

#[local] Instance key_inj : Inj (=) (=) key.
Proof. unfold key. intros i j. lia. Qed.

Lemma slab_view_lookup s (i : nat) :
  view s !! (Z.of_nat i + 1) = e ← entries s !! i; occupant e.
Proof.
  change (Z.of_nat i + 1) with (key i). unfold view. rewrite (lookup_kmap _), lookup_omap, lookup_map_seq_0. done.
Qed.

Lemma view_lookup_Some s id x :
  view s !! id = Some x <->
  1 <= id /\ entries s !! entry_index id = Some (Occupied x).
Proof.
  unfold entry_index. split.
  - intros H. unfold view in H. apply (lookup_kmap_Some _) in H as (i & -> & H). unfold key.
    rewrite lookup_omap, lookup_map_seq_0 in H.
    destruct (entries s !! i) as [[y|]|] eqn:Hi; try discriminate H. injection H as ->.
    split; [lia|]. replace (Z.to_nat _) with i by lia. done.
  - intros [Hid H]. replace id with (Z.of_nat (Z.to_nat (id - 1)) + 1) by lia.
    by rewrite slab_view_lookup, H.
Qed.

Lemma view_ext s s' m :
  (forall i, view s' !! (Z.of_nat i + 1) = m !! (Z.of_nat i + 1)) ->
  (forall id, id < 1 -> m !! id = None) -> view s' = m.
Proof.
  intros H Hm. apply map_eq. intros id. destruct (decide (1 <= id)) as [Hid|Hid].
  - replace id with (Z.of_nat (Z.to_nat (id - 1)) + 1) by lia. apply H.
  - rewrite (Hm id) by lia. apply eq_None_not_Some. intros [x Hx].
    apply view_lookup_Some in Hx. lia.
Qed.

Lemma view_none s id : id < 1 -> view s !! id = None.
Proof. intros H. apply eq_None_not_Some. intros [x Hx%view_lookup_Some]. lia. Qed.

Lemma view_insert s s' (i : nat) x :
  (i < length (entries s'))%nat -> entries s' = <[i := Occupied x]> (entries s) ->
  view s' = <[Z.of_nat i + 1 := x]> (view s).
Proof.
  intros Hi Hs. apply (view_ext s).
  - intros j. rewrite slab_view_lookup, Hs. destruct (decide (i = j)) as [<-|Hne].
    + rewrite lookup_insert_eq, list_lookup_insert_eq; [done|].
      rewrite Hs, length_insert in Hi. done.
    + rewrite list_lookup_insert_ne, lookup_insert_ne, slab_view_lookup by (done || lia). done.
  - intros id Hid. rewrite lookup_insert_ne, view_none by lia. done.
Qed.

Lemma view_push s s' :
  entries s' = entries s ++ [Free None] -> view s' = view s.
Proof.
  intros Hs. apply (view_ext s); [|apply view_none].
  intros j. rewrite !slab_view_lookup, Hs.
  destruct (decide (j < length (entries s))%nat) as [Hj|Hj].
  - by rewrite lookup_app_l.
  - rewrite lookup_app_r, (lookup_ge_None_2 (entries s)) by lia. cbn.
    destruct (j - length (entries s))%nat as [|[]]; done.
Qed.

Lemma view_delete s s' (i : nat) n :
  (i < length (entries s))%nat -> entries s' = <[i := Free n]> (entries s) ->
  view s' = delete (Z.of_nat i + 1) (view s).
Proof.
  intros Hi Hs. apply (view_ext s).
  - intros j. rewrite slab_view_lookup, Hs. destruct (decide (i = j)) as [<-|Hne].
    + by rewrite lookup_delete_eq, list_lookup_insert_eq.
    + rewrite list_lookup_insert_ne, lookup_delete_ne, slab_view_lookup by (done || lia). done.
  - intros id Hid. apply eq_None_not_Some. intros [x Hx%lookup_delete_Some].
    rewrite view_none in Hx by done. naive_solver.
Qed.

Lemma count_split es i e :
  es !! i = Some e ->
  count es = count (take i es) + count [e] + count (drop (S i) es).
Proof.
  intros H. unfold count. rewrite <- (take_drop_middle _ _ _ H) at 1.
  rewrite omap_app, length_app. change (e :: drop (S i) es) with ([e] ++ drop (S i) es).
  rewrite omap_app, length_app. lia.
Qed.

Lemma count_insert es i e e' :
  es !! i = Some e -> count (<[i := e']> es) = count es - count [e] + count [e'].
Proof.
  intros H. pose proof (lookup_lt_Some _ _ _ H) as Hi.
  rewrite (count_split (<[i:=e']> es) i e') by (apply list_lookup_insert_eq; lia).
  rewrite take_insert_ge, drop_insert_lt by lia.
  rewrite (count_split es i e H). lia.
Qed.

Lemma count_le es : 0 <= count es <= Z.of_nat (length es).
Proof.
  unfold count. induction es as [|[x|n] es IH]; cbn [omap list_omap occupant length]; lia.
Qed.

Lemma count_all es :
  (forall i n, es !! i <> Some (Free n)) -> count es = Z.of_nat (length es).
Proof.
  induction es as [|e es IH]; intros H; [done|].
  assert (count es = Z.of_nat (length es)) by (apply IH; intros i n; apply (H (S i) n)).
  destruct e as [x|n]; [|by destruct (H 0%nat n)].
  unfold count in *. cbn [omap list_omap occupant length]. cbn in *. lia.
Qed.

Lemma slab_chain_insert es f fl i e :
  free_chain es f fl -> i ∉ fl -> free_chain (<[i := e]> es) f fl.
Proof.
  induction 1 as [|j l next Hj Hc IH]; intros Hi; [constructor|].
  apply not_elem_of_cons in Hi as [Hij Hi]. apply (chain_cons _ _ _ next); [|by apply IH].
  by rewrite list_lookup_insert_ne.
Qed.

Lemma slab_chain_vacant es f fl i :
  free_chain es f fl -> i ∈ fl -> exists n, es !! i = Some (Free n).
Proof. induction 1; set_solver. Qed.

Lemma entry_new_ok (i : nat) : Z.of_nat i <= MAX_CAPACITY -> entry_new (E:=E) i = Ok (key i).
Proof.
  unfold entry_new, MAX_CAPACITY, u32_max, key. intros H.
  rewrite (proj2 (Z.leb_le _ _)) by lia. cbn [mbind outcome_bind assert_].
  unfold checked. rewrite in_ub_true by (unfold in_u; lia). cbn [mbind outcome_bind unwrap].
  rewrite (proj2 (Z.eqb_neq _ 0)) by lia. done.
Qed.

Lemma entry_index_key i : entry_index (key i) = i.
Proof. unfold entry_index, key. lia. Qed.

Lemma inv_default : slab_inv default.
Proof.
  split; cbn; [|done|unfold MAX_CAPACITY, u32_max; lia].
  exists []. split_and!; [constructor|constructor|]. intros i n H. by rewrite lookup_nil in H.
Qed.

Lemma reserve_inv s n s' :
  slab_inv s -> reserve (E:=E) min_cap s n = Ok s' -> slab_inv s' /\ view s' = view s.
Proof.
  intros [Hc Hl Hk]. unfold reserve, capacity, len. intros H. outcome_inv.
  split_guard_in H; outcome_inv; [split; [by split|done]|].
  split; [|done]. split; [done|done|]. cbn in *. zbool. unfold vec_reserve in *.
  destruct (cap s - _ <? n) eqn:?; zbool; lia.
Qed.

(** Filling a vacant entry whose link is the rest of the free list. *)
Lemma fill_inv s i next fl v :
  entries s !! i = Some (Free next) -> free_chain (entries s) next fl -> NoDup (i :: fl) ->
  (forall j n, entries s !! j = Some (Free n) -> j ∈ i :: fl) ->
  slen s = count (entries s) ->
  Z.of_nat (length (entries s)) <= cap s <= MAX_CAPACITY ->
  let s' := {| entries := <[i := Occupied v]> (entries s); cap := cap s;
               free := next; slen := slen s + 1 |} in
  slab_inv s' /\ view s' = <[key i := v]> (view s).
Proof.
  intros Hi Hc Hnd Hall Hl Hcap s'. apply list.NoDup_cons in Hnd as [Hnin Hnd].
  pose proof (lookup_lt_Some _ _ _ Hi) as Hlt. split.
  - split; cbn.
    + exists fl. split_and!; [by apply slab_chain_insert|done|].
      intros j n Hj. destruct (decide (i = j)) as [<-|Hne].
      * by rewrite list_lookup_insert_eq in Hj.
      * rewrite list_lookup_insert_ne in Hj by done. apply Hall in Hj. set_solver.
    + rewrite (count_insert _ _ _ _ Hi), Hl.
      change (count [Free next]) with 0. change (count [Occupied v]) with 1. lia.
    + by rewrite length_insert.
  - apply view_insert; [cbn; by rewrite length_insert|done].
Qed.

Lemma try_alloc_ok s v :
  slab_inv s -> (free s <> None \/ Z.of_nat (length (entries s)) < cap s) ->
  exists id s', try_alloc (E:=E) oc s v = Ok (Some id, s') /\ next_id (E:=E) s = Ok id /\
    slab_inv s' /\ view s !! id = None /\ view s' = <[id := v]> (view s).
Proof.
  intros [(fl & Hc & Hnd & Hall) Hl Hcap] Hroom.
  pose proof (count_le (entries s)) as Hcnt.
  assert (Hu : forall n, 0 <= n <= MAX_CAPACITY -> arith (E:=E) oc 32 (n + 1) = Ok (n + 1)).
  { intros n Hn. apply arith_ok. unfold in_u, MAX_CAPACITY, u32_max in *. lia. }
  unfold try_alloc, try_alloc_index, next_id. inversion Hc as [Hf|i l next Hi Hc' Hf Hfl].
  - (* no vacant entry: a new one is pushed *)
    subst fl. destruct Hroom as [|Hroom]; [done|].
    assert (Hocc : forall i n, entries s !! i <> Some (Free n))
      by (intros i n Hin; apply Hall in Hin; set_solver).
    assert (Hlen : slen s = Z.of_nat (length (entries s))) by (by rewrite Hl, count_all).
    change (len s) with (slen s). replace (Z.to_nat (slen s)) with (length (entries s)) by lia.
    rewrite (proj2 (Z.ltb_lt _ _) Hroom), !entry_new_ok by lia.
    cbn [mbind outcome_bind entries]. rewrite entry_index_key.
    set (s1 := {| entries := entries s ++ [Free None]; cap := cap s; free := None;
                  slen := slen s |}).
    assert (H1 : entries s1 !! length (entries s) = Some (Free None))
      by (apply list_lookup_middle; done).
    change (entries s ++ [Free None]) with (entries s1). rewrite H1.
    cbn [mbind outcome_bind unwrap]. change (slen s1) with (slen s).
    rewrite Hu by lia.
    cbn [mbind outcome_bind].
    destruct (fill_inv s1 (length (entries s)) None [] v) as [Hinv Hv]; cbn; try done.
    + constructor.
    + by apply list.NoDup_singleton.
    + intros j n Hj. apply lookup_app_Some in Hj as [Hj|[Hj1 Hj2]].
      * by apply Hocc in Hj.
      * destruct (j - length (entries s))%nat eqn:E1 in Hj2; [|by destruct n0].
        apply list_elem_of_singleton. lia.
    + rewrite Hl. unfold count. rewrite omap_app, length_app. cbn. lia.
    + rewrite length_app. cbn. lia.
    + eexists (key (length (entries s))), _. split_and!; [|done|exact Hinv| |].
      * reflexivity.
      * unfold key. rewrite slab_view_lookup, lookup_ge_None_2 by lia. done.
      * rewrite Hv. f_equal. by apply view_push.
  - (* the head of the free list *)
    subst fl. cbn [mbind outcome_bind entries slen cap]. change (Z.of_nat i + 1) with (key i).
    rewrite entry_index_key, Hi. cbn [mbind outcome_bind unwrap]. rewrite Hl, Hu by lia.
    cbn [mbind outcome_bind].
    destruct (fill_inv s i next l v) as [Hinv Hv]; try done.
    eexists _, _. split_and!; [reflexivity|reflexivity| | |].
    + by rewrite <- Hl.
    + unfold key. rewrite slab_view_lookup, Hi. done.
    + by rewrite <- Hl.
Qed.

Lemma try_alloc_full s v :
  free s = None -> cap s <= Z.of_nat (length (entries s)) ->
  try_alloc (E:=E) oc s v = Ok (None, s).
Proof.
  intros Hf Hc. unfold try_alloc, try_alloc_index. rewrite Hf.
  by rewrite (proj2 (Z.ltb_ge _ _) Hc).
Qed.

(** The capacity after growing a full slab. *)
Definition grown s : Z := Z.max min_cap (cap s + Z.max (cap s) MIN_CAPACITY).

Definition has_room s : bool :=
  match free s with Some _ => true | None => Z.of_nat (length (entries s)) <? cap s end.

Lemma has_room_spec s :
  has_room s = true <-> (free s <> None \/ Z.of_nat (length (entries s)) < cap s).
Proof.
  unfold has_room. destruct (free s); [naive_solver|]. rewrite Z.ltb_lt. naive_solver.
Qed.

Lemma double_capacity_full s :
  slab_inv s -> has_room s = false ->
  double_capacity (E:=E) min_cap s =
    (if grown s <=? MAX_CAPACITY
     then Ok {| entries := entries s; cap := grown s; free := free s; slen := slen s |}
     else Panic).
Proof.
  intros [(fl & Hc & _ & Hall) Hl Hcap] Hr. unfold has_room in Hr.
  destruct (free s) eqn:Hf; [done|]. zbool. inversion Hc; subst fl.
  assert (Hcnt : count (entries s) = Z.of_nat (length (entries s))).
  { apply count_all. intros i n Hin. apply Hall in Hin. set_solver. }
  unfold double_capacity, reserve, len, capacity, grown, vec_reserve.
  rewrite (proj2 (Z.leb_le (slen s) _)) by lia. cbn [mbind outcome_bind assert_].
  assert (16 <= Z.max (cap s) MIN_CAPACITY) by (unfold MIN_CAPACITY; lia).
  rewrite (proj2 (Z.leb_gt _ _)) by lia. rewrite (proj2 (Z.ltb_lt _ _)) by lia.
  replace (Z.max (2 * cap s) _) with (cap s + Z.max (cap s) MIN_CAPACITY) by lia.
  rewrite Hf. by destruct (_ <=? MAX_CAPACITY).
Qed.

Lemma slab_alloc_ok s v :
  slab_inv s ->
  if has_room s || (grown s <=? MAX_CAPACITY) then
    exists id s', alloc (E:=E) oc min_cap s v = Ok (id, s') /\ next_id (E:=E) s = Ok id /\
      slab_inv s' /\ view s !! id = None /\ view s' = <[id := v]> (view s)
  else alloc (E:=E) oc min_cap s v = Panic.
Proof.
  intros Hinv. unfold alloc. destruct (has_room s) eqn:Hr; cbn [orb].
  - apply has_room_spec in Hr.
    destruct (try_alloc_ok s v Hinv Hr) as (id & s' & -> & Hn & Hi & Hv).
    by exists id, s'.
  - pose proof (double_capacity_full s Hinv Hr) as Hd.
    unfold has_room in Hr. destruct (free s) eqn:Hf; [done|]. zbool.
    rewrite (try_alloc_full s v Hf Hr). cbn [mbind outcome_bind]. unfold alloc_slow.
    rewrite Hd. destruct (grown s <=? MAX_CAPACITY) eqn:Hg; [|done].
    cbn [mbind outcome_bind]. set (s1 := Build_Slab _ _ _ _).
    assert (Hc1 : Z.of_nat (length (entries s)) < grown s).
    { destruct Hinv as [_ _ Hcap]. unfold grown, MIN_CAPACITY. lia. }
    assert (H1 : slab_inv s1).
    { destruct Hinv as [Hc Hl Hcap]. zbool. split; cbn; try done; [by rewrite <- Hf|lia]. }
    destruct (try_alloc_ok s1 v H1) as (id & s' & -> & Hn & Hi & Hv); [by right|].
    exists id, s'. split; [done|]. split; [|done]. unfold next_id in *. rewrite Hf. exact Hn.
Qed.

Lemma slab_dealloc_ok s id v :
  slab_inv s -> view s !! id = Some v ->
  exists s', dealloc (E:=E) oc s id = Ok (v, s') /\ slab_inv s' /\
    view s' = delete id (view s) /\ next_id (E:=E) s' = Ok id.
Proof.
  intros [(fl & Hc & Hnd & Hall) Hl Hcap] [Hid Hv]%view_lookup_Some.
  unfold dealloc. rewrite Hv. cbn [mbind outcome_bind unwrap].
  pose proof (lookup_lt_Some _ _ _ Hv) as Hlt.
  pose proof (count_insert _ _ _ (Free (free s)) Hv) as Hci.
  change (count [Free _]) with 0 in Hci. change (count [Occupied v]) with 1 in Hci.
  pose proof (count_le (<[entry_index id := Free (free s)]> (entries s))) as Hcl.
  rewrite length_insert in Hcl.
  rewrite arith_ok by (unfold in_u, MAX_CAPACITY, u32_max in *; lia).
  cbn [mbind outcome_bind].
  assert (Hk : id = key (entry_index id)) by (unfold key, entry_index; lia).
  assert (Hnin : entry_index id ∉ fl).
  { intros Hin. destruct (slab_chain_vacant _ _ _ _ Hc Hin). congruence. }
  eexists. split_and!; [reflexivity| | |done].
  - split; cbn.
    + exists (entry_index id :: fl). split_and!.
      * rewrite Hk at 2. constructor 2 with (next := free s).
        { by apply list_lookup_insert_eq. }
        by apply slab_chain_insert.
      * by apply list.NoDup_cons.
      * intros j n Hj. destruct (decide (entry_index id = j)) as [<-|Hne]; [set_solver|].
        rewrite list_lookup_insert_ne in Hj by done. apply Hall in Hj. set_solver.
    + lia.
    + by rewrite length_insert.
  - replace (delete id (view s)) with (delete (key (entry_index id)) (view s)) by (by rewrite <- Hk).
    apply (view_delete s _ _ (free s)); done.
Qed.

Lemma slab_get_mut_ok s id x x' :
  slab_inv s -> view s !! id = Some x ->
  exists s', get_mut (E:=E) s id x' = Ok (Some s') /\ slab_inv s' /\
    view s' = <[id := x']> (view s).
Proof.
  intros [(fl & Hc & Hnd & Hall) Hl Hcap] [Hid Hv]%view_lookup_Some.
  unfold get_mut. rewrite Hv. cbn [mbind outcome_bind unwrap].
  pose proof (lookup_lt_Some _ _ _ Hv) as Hlt.
  assert (Hnin : entry_index id ∉ fl).
  { intros Hin. destruct (slab_chain_vacant _ _ _ _ Hc Hin). congruence. }
  eexists. split_and!; [done| |].
  - split; cbn.
    + exists fl. split_and!; [by apply slab_chain_insert|done|].
      intros j n Hj. destruct (decide (entry_index id = j)) as [<-|Hne].
      * by rewrite list_lookup_insert_eq in Hj.
      * rewrite list_lookup_insert_ne in Hj by done. by apply Hall in Hj.
    + rewrite (count_insert _ _ _ _ Hv). change (count [Occupied _]) with 1 at 1.
      change (count [Occupied x']) with 1. lia.
    + by rewrite length_insert.
  - replace id with (key (entry_index id)) at 2 by (unfold key, entry_index; lia).
    apply view_insert; [cbn; by rewrite length_insert|done].
Qed.

Lemma iter_from_ok es i :
  Z.of_nat (i + length es) <= MAX_CAPACITY ->
  exists l, iter_from (E:=E) i es = Ok l /\ Z.of_nat (length l) = count es /\ NoDup (l.*1) /\
    forall id x, (id, x) ∈ l <-> exists j, id = key (i + j) /\ es !! j = Some (Occupied x).
Proof.
  revert i. induction es as [|e es IH]; intros i Hi.
  - exists []. split_and!; [done|done|constructor|]. intros id x. split; [set_solver|].
    intros (j & _ & Hj). by rewrite lookup_nil in Hj.
  - cbn [length] in Hi. destruct (IH (S i)) as (l & Hl & Hn & Hnd & Hin); [lia|].
    assert (Hshift : forall id x, (id, x) ∈ l <->
      exists j, id = key (i + S j) /\ es !! j = Some (Occupied x)).
    { intros id x. rewrite Hin. by setoid_rewrite Nat.add_succ_comm. }
    destruct e as [y|n]; cbn [iter_from].
    + rewrite entry_new_ok by lia. cbn [mbind outcome_bind]. rewrite Hl.
      exists ((key i, y) :: l). split_and!; [done| | |].
      * unfold count in *. cbn [omap list_omap occupant length] in *. cbn in *. lia.
      * cbn. apply list.NoDup_cons. split; [|done]. intros ([id x] & Hk & Hx)%list_elem_of_fmap.
        apply Hshift in Hx as (j & -> & _). cbn in Hk. unfold key in Hk. lia.
      * intros id x. rewrite list.elem_of_cons, Hshift. split.
        -- intros [[= -> ->]|(j & -> & Hj)]; [exists 0%nat; split; [f_equal; lia|done]|by exists (S j)].
        -- intros ([|j] & -> & Hj); [left|right; by exists j].
           injection Hj as ->. by rewrite Nat.add_0_r.
    + exists l. split_and!; [done| |done|].
      * unfold count in *. cbn [omap list_omap occupant]. done.
      * intros id x. rewrite Hshift. split; [intros (j & -> & Hj); by exists (S j)|].
        intros ([|j] & -> & Hj); [done|by exists j].
Qed.

Lemma iter_ok s :
  slab_inv s ->
  exists l, iter (E:=E) s = Ok l /\ Z.of_nat (length l) = len s /\ list_to_map l = view s.
Proof.
  intros [_ Hl Hcap]. unfold iter. rewrite (proj2 (Z.leb_le _ _)) by lia.
  destruct (iter_from_ok (entries s) 0) as (l & -> & Hn & Hnd & Hin); [lia|].
  exists l. split_and!; [done|unfold len; lia|]. apply map_eq. intros id.
  apply option_eq. intros x. rewrite <- elem_of_list_to_map by done.
  rewrite Hin, view_lookup_Some. split.
  - intros (j & -> & Hj). cbn. rewrite entry_index_key. unfold key. by split; [lia|].
  - intros [Hid Hx]. exists (entry_index id). split; [|done]. unfold key, entry_index. lia.
Qed.

Lemma drain_ok s :
  slab_inv s ->
  exists l s', drain (E:=E) s = Ok (l, s') /\ iter (E:=E) s = Ok l /\ slab_inv s' /\
    view s' = ∅ /\ entries s' = [].
Proof.
  intros Hinv. destruct (iter_ok s Hinv) as (l & Hl & _). destruct Hinv as [_ _ Hcap].
  unfold drain, iter in *. rewrite (proj2 (Z.leb_le _ _)) in * by lia.
  cbn [mbind outcome_bind assert_] in *. rewrite Hl. eexists l, _. split_and!; try done.
  split; cbn; [|done|lia]. exists []. split_and!; [constructor|constructor|].
  intros i n H. by rewrite lookup_nil in H.
Qed.

(** ** Reachable slabs *)

Inductive slab_op :=
| OpAlloc (v : T)
| OpDealloc (id : EntryIndex)
| OpSet (id : EntryIndex) (v : T)
| OpReserve (n : Z)
| OpDrain.

Definition slab_step s (o : slab_op) : outcome E (Slab T) :=
  match o with
  | OpAlloc v => r ← alloc oc min_cap s v; Ok r.2
  | OpDealloc id => r ← dealloc oc s id; Ok r.2
  | OpSet id v => r ← get_mut s id v; Ok (from_option (fun s' => s') s r)
  | OpReserve n => reserve min_cap s n
  | OpDrain => r ← drain s; Ok r.2
  end.

(** A slab a client can hold: an [Id] is a [NonZeroU32]. *)
Inductive reachable : Slab T -> Prop :=
| reach_new : reachable default
| reach_step s o s' :
    reachable s -> match o with OpDealloc id | OpSet id _ => 1 <= id | _ => True end ->
    slab_step s o = Ok s' -> reachable s'.

Lemma dealloc_live s id r :
  1 <= id -> dealloc (E:=E) oc s id = Ok r -> is_Some (view s !! id).
Proof.
  intros Hid H. unfold dealloc in H. outcome_inv.
  match goal with H : match ?e with _ => _ end = Ok _ |- _ => destruct e as [x|]; [|done] end.
  exists x. by apply view_lookup_Some.
Qed.

Lemma get_mut_live s id v s' :
  1 <= id -> get_mut (E:=E) s id v = Ok (Some s') -> is_Some (view s !! id).
Proof.
  intros Hid H. unfold get_mut in H. outcome_inv.
  match goal with H : match ?e with _ => _ end = Ok _ |- _ => destruct e as [x|]; [|done] end.
  exists x. by apply view_lookup_Some.
Qed.

Lemma slab_reachable_inv s : reachable s -> slab_inv s.
Proof.
  induction 1 as [|s o s' Hr Hinv Hid Hs]; [apply inv_default|].
  destruct o as [v|id|id v|n|]; cbn [slab_step] in Hs; outcome_inv.
  - pose proof (slab_alloc_ok s v Hinv) as Ha. destruct (_ || _); [|congruence].
    destruct Ha as (id & s' & Ha & _ & Hi & _). rewrite Ha in *. by simplify_eq/=.
  - match goal with H : dealloc _ _ _ = Ok _ |- _ => pose proof (dealloc_live _ _ _ Hid H) as [v Hv] end.
    destruct (slab_dealloc_ok s id v Hinv Hv) as (s' & Hd & Hi & _). rewrite Hd in *. by simplify_eq/=.
  - match goal with H : get_mut _ _ _ = Ok ?r |- _ => destruct r as [s1|]; [|done];
      pose proof (get_mut_live _ _ _ _ Hid H) as [x Hx] end.
    destruct (slab_get_mut_ok s id x v Hinv Hx) as (s' & Hd & Hi & _). rewrite Hd in *. by simplify_eq/=.
  - by destruct (reserve_inv s n s' Hinv Hs).
  - destruct (drain_ok s Hinv) as (l & s' & Hd & _ & Hi & _). rewrite Hd in *. by simplify_eq/=.
Qed.


(** Draining a slab yields exactly the pairs [iter] lists and leaves it
    empty, but the identifiers handed out before are then outside the vector:
    [get] and [dealloc] panic on them where [get] promises [None] for a value
    that has since been deallocated. *)
Theorem drain_forgets_identifiers s (H : reachable s) :
  exists l s', drain (E:=E) s = Ok (l, s') /\ iter (E:=E) s = Ok l /\ view s' = ∅ /\
    len s' = 0 /\
    forall id, 1 <= id -> get (E:=E) s' id = Panic /\ dealloc (E:=E) oc s' id = Panic.
Proof.
  apply slab_reachable_inv in H. destruct (drain_ok s H) as (l & s' & Hd & Hi & [_ Hl _] & Hv & He).
  exists l, s'. split_and!; try done.
  - unfold len. rewrite Hl, He. done.
  - intros id Hid. unfold get, dealloc. by rewrite He.
Qed.
End Correct.

(** Two allocations, the first one freed. *)
Definition sample_slab : Slab Z :=
  {| entries := [Free None; Occupied 8]; cap := 16; free := Some 1; slen := 1 |}.

Lemma slab_sample_reachable : reachable (E:=unit) true 4 sample_slab.
Proof.
  apply (reach_step _ _ {| entries := [Occupied 7; Occupied 8]; cap := 16; free := None; slen := 2 |}
           (OpDealloc 1)); [|lia|reflexivity].
  apply (reach_step _ _ {| entries := [Occupied 7]; cap := 16; free := None; slen := 1 |}
           (OpAlloc 8)); [|done|reflexivity].
  apply (reach_step _ _ default (OpAlloc 7)); [apply reach_new|done|reflexivity].
Qed.


Lemma drain_forgets_identifiers_witness :
  exists l s', drain (E:=unit) sample_slab = Ok (l, s') /\ get (E:=unit) s' 2 = Panic.
Proof.
  destruct (drain_forgets_identifiers (E:=unit) true 4 sample_slab slab_sample_reachable)
    as (l & s' & Hd & _ & _ & _ & Hg).
  exists l, s'. split; [exact Hd|]. apply (Hg 2). lia.
Defined.
