(* ===== verification/GcFreeList.v ===== *)
(** * The free list of the garbage collected heap

    [src/wasmtime-repo/crates/wasmtime/src/runtime/vm/gc/enabled/free_list.rs]:
    a first-fit allocator over a region of linear indices.  Free blocks are kept
    in a [BTreeMap] from index to length; a block is split when the remainder can
    hold another block and merged with its neighbours when it is freed. *)

From Stdlib Require Import ZArith Lia.
From stdpp Require Import base list gmap numbers option.
From S2P Require Import Prelude.
Open Scope Z_scope.

(** ** [BTreeMap<u32, u32>] as a list of pairs sorted by key *)

Definition blocks : Type := list (Z * Z).

Fixpoint bt_insert (k v : Z) (l : blocks) : blocks :=
  match l with
  | [] => [(k, v)]
  | (k', v') :: t =>
      if k <? k' then (k, v) :: l
      else if k =? k' then (k, v) :: t
      else (k', v') :: bt_insert k v t
  end.

Fixpoint bt_remove (k : Z) (l : blocks) : blocks :=
  match l with
  | [] => []
  | (k', v') :: t => if k =? k' then t else (k', v') :: bt_remove k t
  end.

(** [range(..k).next_back()] and [range((Excluded(k), Unbounded)).next()]. *)
Fixpoint bt_before (k : Z) (l : blocks) : option (Z * Z) :=
  match l with
  | [] => None
  | (k', v') :: t =>
      if k' <? k then match bt_before k t with Some b => Some b | None => Some (k', v') end
      else None
  end.

Fixpoint bt_after (k : Z) (l : blocks) : option (Z * Z) :=
  match l with
  | [] => None
  | (k', v') :: t => if k <? k' then Some (k', v') else bt_after k t
  end.

(** [*get_mut(&k).unwrap() = v]. *)
Fixpoint bt_set {E} (k v : Z) (l : blocks) : outcome E blocks :=
  match l with
  | [] => Panic
  | (k', v') :: t =>
      if k =? k' then Ok ((k', v) :: t)
      else t' ← bt_set k v t; Ok ((k', v') :: t')
  end.

Fixpoint bt_find (P : Z -> bool) (l : blocks) : option (Z * Z) :=
  match l with
  | [] => None
  | (k, v) :: t => if P v then Some (k, v) else bt_find P t
  end.

(** ** [FreeList] *)

Definition ALIGN : Z := 8.
Definition MIN_BLOCK_SIZE : Z := 24.

Record Layout := { size : Z; align : Z }.

Record FreeList := { capacity : Z; free_blocks : blocks }.

Inductive LayoutError := AlignTooLarge | SizeTooLarge | SizeNotU32 | RoundOverflow.

(** [value & !(divisor - 1)]. *)
Definition round_down_to_pow2 (value divisor : Z) : Z :=
  Z.land value (Z.lnot (divisor - 1)).

Definition with_blocks (f : FreeList) (l : blocks) : FreeList :=
  {| capacity := capacity f; free_blocks := l |}.

Definition reset (f : FreeList) : FreeList :=
  let end_ := if capacity f <=? u32_max then capacity f else u32_max in
  let start := ALIGN in
  let len := round_down_to_pow2 (saturating_sub end_ start) ALIGN in
  with_blocks f (if MIN_BLOCK_SIZE <=? len then [(start, len)] else []).

Definition new (capacity : Z) : FreeList :=
  reset {| capacity := capacity; free_blocks := [] |}.

Definition max_size (f : FreeList) : Z :=
  round_down_to_pow2 (saturating_sub (Z.min (capacity f) u32_max) ALIGN) ALIGN.

(** [u32::checked_next_multiple_of]. *)
Definition checked_next_multiple_of (n m : Z) : option Z :=
  checked 32 (if n mod m =? 0 then n else n + (m - n mod m)).

Definition check_layout (f : FreeList) (layout : Layout) : outcome LayoutError Z :=
  if negb (align layout <=? ALIGN) then Err AlignTooLarge
  else if negb (size layout <=? max_size f) then Err SizeTooLarge
  else
    alloc_size ← ok_or SizeNotU32 (checked 32 (size layout));
    ok_or RoundOverflow (checked_next_multiple_of alloc_size ALIGN).

Section Operations.
  (** [oc]: overflow checks; [dbg]: debug assertions. *)
  Context (oc dbg : bool).

Definition aligned {E} (z : Z) : outcome E unit := debug_assert dbg (z mod ALIGN =? 0).

Definition first_fit {E} (f : FreeList) (alloc_size : Z)
  : outcome E (option (Z * Z * FreeList)) :=
  aligned alloc_size;;
  match bt_find (fun len => alloc_size <=? len) (free_blocks f) with
  | None => Ok None
  | Some (block_index, block_len) =>
      aligned block_index;;
      aligned block_len;;
      debug_assert dbg (existsb (fun b => b.1 =? block_index) (free_blocks f));;
      Ok (Some (block_index, block_len, with_blocks f (bt_remove block_index (free_blocks f))))
  end.

Definition maybe_split {E} (f : FreeList) (alloc_size block_index block_len : Z)
  : outcome E (Z * FreeList) :=
  aligned alloc_size;;
  aligned block_index;;
  aligned block_len;;
  rest ← arith oc 32 (block_len - alloc_size);
  if rest <? MIN_BLOCK_SIZE then Ok (block_len, f)
  else
    split_start ← arith oc 32 (block_index + alloc_size);
    split_len ← arith oc 32 (block_len - alloc_size);
    aligned alloc_size;;
    aligned split_start;;
    aligned split_len;;
    Ok (alloc_size, with_blocks f (bt_insert split_start split_len (free_blocks f))).

(** The loop of [check_integrity] over the blocks in order. *)
Fixpoint check_blocks {E} (cap : Z) (prev_end : option Z) (l : blocks) : outcome E unit :=
  match l with
  | [] => Ok ()
  | (index, len) :: t =>
      end_ ← arith oc 32 (index + len);
      assert_ (end_ <=? cap);;
      match prev_end with
      | Some p => assert_ (p <? index)
      | None => Ok ()
      end;;
      assert_ (index mod ALIGN =? 0);;
      assert_ (len mod ALIGN =? 0);;
      check_blocks cap (Some end_) t
  end.

Definition check_integrity {E} (f : FreeList) : outcome E unit :=
  if dbg then check_blocks (capacity f) None (free_blocks f) else Ok ().

Definition alloc (f : FreeList) (layout : Layout) : outcome LayoutError (option Z * FreeList) :=
  alloc_size ← check_layout f layout;
  aligned alloc_size;;
  fit ← first_fit f alloc_size;
  match fit with
  | None => Ok (None, f)
  | Some (block_index, block_len, f1) =>
      debug_assert dbg (negb (block_index =? 0));;
      aligned block_index;;
      debug_assert dbg (alloc_size <=? block_len);;
      aligned block_len;;
      '(block_len, f2) ← maybe_split f1 alloc_size block_index block_len;
      debug_assert dbg (alloc_size <=? block_len);;
      aligned block_len;;
      check_integrity f2;;
      Ok (Some block_index, f2)
  end.

Definition blocks_are_contiguous {E} (prev_index prev_len next_index : Z) : outcome E bool :=
  end_of_prev ← arith oc 32 (prev_index + prev_len);
  debug_assert dbg (end_of_prev <=? next_index);;
  delta_to_next ← arith oc 32 (next_index - end_of_prev);
  Ok (delta_to_next <? MIN_BLOCK_SIZE).

(** The length of the block from [start] to [last + len]. *)
Definition merged {E} (start last len : Z) : outcome E Z :=
  e ← arith oc 32 (last + len);
  n ← arith oc 32 (e - start);
  aligned n;;
  Ok n.

(** [dealloc]: the arms of the [match] on the neighbours, tried in order. *)
Definition dealloc {E} (f : FreeList) (index : Z) (layout : Layout) : outcome E FreeList :=
  aligned index;;
  alloc_size ← unwrap_result (check_layout f layout);
  aligned alloc_size;;
  let l := free_blocks f in
  let prev_block := bt_before index l in
  let next_block := bt_after index l in
  let joins_prev :=
    match prev_block with
    | Some (pi, pl) => blocks_are_contiguous pi pl index
    | None => Ok false
    end in
  let joins_next :=
    match next_block with
    | Some (ni, nl) => blocks_are_contiguous index alloc_size ni
    | None => Ok false
    end in
  let both :=
    match prev_block, next_block with
    | Some _, Some _ => p ← joins_prev; if p : bool then joins_next else Ok false
    | _, _ => Ok false
    end in
  b ← both;
  l' ← (if b : bool then
          match prev_block, next_block with
          | Some (pi, _), Some (ni, nl) => n ← merged pi ni nl; bt_set pi n (bt_remove ni l)
          | _, _ => Panic
          end
        else
          p ← joins_prev;
          if p : bool then
            match prev_block with
            | Some (pi, _) => n ← merged pi index alloc_size; bt_set pi n l
            | None => Panic
            end
          else
            q ← joins_next;
            if q : bool then
              match next_block with
              | Some (ni, nl) =>
                  n ← merged index ni nl; Ok (bt_insert index n (bt_remove ni l))
              | None => Panic
              end
            else Ok (bt_insert index alloc_size l));
  check_integrity (with_blocks f l');;
  Ok (with_blocks f l').
End Operations.

(** ** Lemmas on sorted block lists *)

Definition below (k : Z) (l : blocks) : Prop := Forall (fun b => b.1 < k) l.
Definition above (k : Z) (l : blocks) : Prop := Forall (fun b => k < b.1) l.

Lemma bt_find_Some P l k v :
  bt_find P l = Some (k, v) ->
  exists A B, l = A ++ (k, v) :: B /\ P v = true /\ Forall (fun b => P b.2 = false) A.
Proof.
  induction l as [|[k' v'] l IH]; cbn; [done|]. destruct (P v') eqn:HP.
  - intros [= -> ->]. by exists [], l.
  - intros H. destruct (IH H) as (A & B & -> & Hv & HA). exists ((k', v') :: A), B.
    split_and!; [done|done|by constructor].
Qed.

Lemma bt_find_None P l : bt_find P l = None -> Forall (fun b => P b.2 = false) l.
Proof.
  induction l as [|[k' v'] l IH]; cbn; [constructor|]. destruct (P v') eqn:HP; [done|].
  intros H. constructor; auto.
Qed.

Lemma bt_remove_middle A B k v :
  below k A -> bt_remove k (A ++ (k, v) :: B) = A ++ B.
Proof.
  induction 1 as [|[k' v'] A Hk _ IH]; cbn in *.
  - by rewrite Z.eqb_refl.
  - rewrite (proj2 (Z.eqb_neq k k')) by lia. by rewrite IH.
Qed.

Lemma bt_insert_middle A B k v :
  below k A -> above k B -> bt_insert k v (A ++ B) = A ++ (k, v) :: B.
Proof.
  intros HA HB. induction HA as [|[k' v'] A Hk _ IH]; cbn in *.
  - destruct B as [|[k' v'] B]; cbn; [done|]. apply Forall_cons_iff in HB as [HB _].
    cbn in HB. by rewrite (proj2 (Z.ltb_lt k k')).
  - rewrite (proj2 (Z.ltb_ge k k')), (proj2 (Z.eqb_neq k k')) by lia. by rewrite IH.
Qed.

Lemma bt_set_middle {E} A B k v v' :
  below k A -> bt_set (E:=E) k v' (A ++ (k, v) :: B) = Ok (A ++ (k, v') :: B).
Proof.
  induction 1 as [|[k1 v1] A Hk _ IH]; cbn in *.
  - by rewrite Z.eqb_refl.
  - rewrite (proj2 (Z.eqb_neq k k1)) by lia. by rewrite IH.
Qed.

Lemma bt_before_app k A B : below k A -> above k B -> bt_before k (A ++ B) = list.last A.
Proof.
  intros HA HB. induction HA as [|[k1 v1] A Hk _ IH]; cbn [app bt_before].
  - destruct B as [|[k1 v1] B]; cbn; [done|]. apply Forall_cons_iff in HB as [HB _].
    cbn in HB. by rewrite (proj2 (Z.ltb_ge k1 k)) by lia.
  - cbn in Hk. rewrite (proj2 (Z.ltb_lt k1 k)), IH by lia. by rewrite last_cons.
Qed.

Lemma bt_after_app k A B : below k A -> above k B -> bt_after k (A ++ B) = head B.
Proof.
  intros HA HB. induction HA as [|[k1 v1] A Hk _ IH]; cbn [app bt_after].
  - destruct B as [|[k1 v1] B]; cbn; [done|]. apply Forall_cons_iff in HB as [HB _].
    cbn in HB. by rewrite (proj2 (Z.ltb_lt k k1)) by lia.
  - cbn in Hk. by rewrite (proj2 (Z.ltb_ge k k1)), IH by lia.
Qed.

(** Blocks in order from [lo] to [hi]: aligned, at least the minimum size, and
    at least the minimum size apart. *)
Fixpoint spaced (lo hi : Z) (l : blocks) : Prop :=
  match l with
  | [] => True
  | (i, n) :: t =>
      lo <= i /\ i mod ALIGN = 0 /\ n mod ALIGN = 0 /\ MIN_BLOCK_SIZE <= n /\ i + n <= hi /\
      spaced (i + n + MIN_BLOCK_SIZE) hi t
  end.

Fixpoint edge (lo : Z) (l : blocks) : Z :=
  match l with
  | [] => lo
  | (i, n) :: t => edge (i + n + MIN_BLOCK_SIZE) t
  end.

Lemma spaced_app lo hi A B : spaced lo hi (A ++ B) <-> spaced lo hi A /\ spaced (edge lo A) hi B.
Proof. revert lo. induction A as [|[i n] A IH]; intros lo; cbn; [tauto|]. rewrite IH. tauto. Qed.

Lemma edge_app lo A B : edge lo (A ++ B) = edge (edge lo A) B.
Proof. revert lo. induction A as [|[i n] A IH]; intros lo; cbn; auto. Qed.

Lemma spaced_weaken lo lo' hi l : lo' <= lo -> spaced lo hi l -> spaced lo' hi l.
Proof. destruct l as [|[i n] l]; cbn; [done|]. intros H (? & ?). split; [lia|done]. Qed.

Lemma spaced_edge lo hi l : spaced lo hi l -> lo <= edge lo l.
Proof.
  revert lo. induction l as [|[j m] l IH]; intros lo; cbn; [lia|].
  intros (? & _ & _ & ? & _ & H). apply IH in H. unfold MIN_BLOCK_SIZE in *. lia.
Qed.

Lemma spaced_elem lo hi l i n :
  spaced lo hi l -> (i, n) ∈ l ->
  lo <= i /\ i mod ALIGN = 0 /\ n mod ALIGN = 0 /\ MIN_BLOCK_SIZE <= n /\ i + n <= hi /\
  i + n + MIN_BLOCK_SIZE <= edge lo l.
Proof.
  unfold MIN_BLOCK_SIZE. revert lo. induction l as [|[j m] l IH]; intros lo; cbn; [set_solver|].
  intros (? & ? & ? & ? & ? & H) [[= -> ->]|Hin]%list.elem_of_cons.
  - apply spaced_edge in H. unfold MIN_BLOCK_SIZE in *. lia.
  - apply IH in H; [|done]. unfold MIN_BLOCK_SIZE in *. lia.
Qed.

Lemma spaced_below lo hi l k : spaced lo hi l -> edge lo l <= k -> below k l.
Proof.
  intros H Hk. apply list.Forall_forall. intros [i n] Hin.
  apply (spaced_elem _ _ _ _ _ H) in Hin. unfold MIN_BLOCK_SIZE in *. cbn. lia.
Qed.

Lemma spaced_above lo hi l k : spaced lo hi l -> k < lo -> above k l.
Proof.
  intros H Hk. apply list.Forall_forall. intros [i n] Hin.
  apply (spaced_elem _ _ _ _ _ H) in Hin. cbn. lia.
Qed.

(** A list is cut at an index that starts no block. *)
Lemma spaced_cut lo hi l k :
  spaced lo hi l -> (forall n, (k, n) ∉ l) ->
  exists A B, l = A ++ B /\ below k A /\ above k B.
Proof.
  revert lo. induction l as [|[i n] l IH]; intros lo; cbn.
  - intros _ _. exists [], []. split_and!; [done|constructor|constructor].
  - intros (? & ? & ? & ? & ? & H) Hk. destruct (Z.lt_total i k) as [Hlt|[->|Hgt]].
    + destruct (IH _ H) as (A & B & -> & HA & HB); [set_solver|].
      exists ((i, n) :: A), B. split_and!; [done|by constructor|done].
    + exfalso. apply (Hk n). set_solver.
    + exists [], ((i, n) :: l). split_and!; [done|constructor|]. constructor; [done|].
      eapply spaced_above; [exact H|]. unfold MIN_BLOCK_SIZE in *. lia.
Qed.

(** ** Arithmetic of the region *)

Lemma round_down_8 v : round_down_to_pow2 v ALIGN = v - v mod 8.
Proof.
  unfold round_down_to_pow2, ALIGN. change (8 - 1) with (Z.ones 3).
  rewrite <- Z.ldiff_land, Z.ldiff_ones_r by lia.
  rewrite Z.shiftl_mul_pow2, Z.shiftr_div_pow2 by lia. change (2 ^ 3) with 8.
  pose proof (Z.div_mod v 8). lia.
Qed.

Definition region_end (f : FreeList) : Z := ALIGN + max_size f.

Lemma max_size_bounds f :
  max_size f mod ALIGN = 0 /\ 0 <= max_size f <= u32_max - ALIGN /\
  (0 < max_size f -> region_end f <= capacity f /\ region_end f <= u32_max).
Proof.
  unfold region_end, max_size. rewrite round_down_8. unfold saturating_sub, ALIGN, u32_max.
  set (v := Z.max 0 _). assert (0 <= v) by lia.
  pose proof (Z.mod_pos_bound v 8). pose proof (Z.div_mod v 8).
  split; [|split]; [|lia|lia].
  replace (v - v mod 8) with (v / 8 * 8) by lia. apply Z.mod_mul. lia.
Qed.

Lemma check_layout_Ok f lay a :
  check_layout f lay = Ok a ->
  0 <= size lay <= a /\ a < size lay + ALIGN /\ a mod ALIGN = 0 /\ 0 <= a <= max_size f.
Proof.
  unfold check_layout. intros H. split_guard_in H; [done|]. split_guard_in H; [done|]. zbool.
  destruct (max_size_bounds f) as (Hm & Hb & _).
  unfold checked in H. split_guard_in H; [|done]. cbn [mbind outcome_bind ok_or] in H.
  apply in_ub_spec in Hg1. unfold in_u in Hg1.
  unfold checked_next_multiple_of, checked in H. split_guard_in H; [|done]. cbn in H.
  injection H as <-. unfold ALIGN in *.
  pose proof (Z.mod_pos_bound (size lay) 8). pose proof (Z.div_mod (size lay) 8).
  pose proof (Z.div_mod (max_size f) 8).
  destruct (size lay mod 8 =? 0) eqn:Hz; zbool; [lia|].
  split_and!; try lia.
  replace (_ + _) with ((size lay / 8 + 1) * 8) by lia. apply Z.mod_mul. lia.
Qed.

Lemma check_layout_total f lay :
  0 <= size lay ->
  check_layout f lay =
    if negb (align lay <=? ALIGN) then Err AlignTooLarge
    else if negb (size lay <=? max_size f) then Err SizeTooLarge
    else Ok (8 * ((size lay + 7) / 8)).
Proof.
  intros Hs. unfold check_layout. split_guard; [done|]. split_guard; [done|]. zbool.
  destruct (max_size_bounds f) as (Hm & Hb & _). unfold ALIGN, u32_max in *.
  unfold checked at 1. rewrite in_ub_true by (unfold in_u; lia). cbn [mbind outcome_bind ok_or].
  pose proof (Z.mod_pos_bound (size lay) 8). pose proof (Z.div_mod (size lay) 8).
  pose proof (Z.div_mod (max_size f) 8).
  assert (Hr : (if size lay mod 8 =? 0 then size lay else size lay + (8 - size lay mod 8))
               = 8 * ((size lay + 7) / 8)).
  { destruct (size lay mod 8 =? 0) eqn:Hz; zbool.
    - pose proof (Z.div_unique (size lay + 7) 8 (size lay / 8) 7). lia.
    - pose proof (Z.div_unique (size lay + 7) 8 (size lay / 8 + 1) (size lay mod 8 - 1)). lia. }
  unfold checked_next_multiple_of, checked. rewrite in_ub_true; [by rewrite Hr|].
  unfold in_u. destruct (size lay mod 8 =? 0) eqn:Hz; zbool; lia.
Qed.

(** ** The invariant of the heap

    [live] maps the index of each allocated block to the size it was allocated
    with. *)

Definition apart (i n j m : Z) : Prop := i + n <= j \/ j + m <= i.

Record heap_inv (f : FreeList) (live : gmap Z Z) : Prop := {
  inv_spaced : spaced ALIGN (region_end f) (free_blocks f);
  inv_live j m : live !! j = Some m ->
    ALIGN <= j /\ j mod ALIGN = 0 /\ m mod ALIGN = 0 /\ MIN_BLOCK_SIZE <= m /\
    j + m <= region_end f;
  inv_apart j m j' m' :
    live !! j = Some m -> live !! j' = Some m' -> j <> j' -> apart j m j' m';
  inv_free i n j m : (i, n) ∈ free_blocks f -> live !! j = Some m -> apart i n j m
}.

Lemma heap_new_inv c : 0 <= c -> heap_inv (new c) ∅.
Proof.
  intros Hc. split; [|done|done|done].
  change (spaced ALIGN (region_end (new c))
    (if MIN_BLOCK_SIZE <=? round_down_to_pow2 (saturating_sub
          (if c <=? u32_max then c else u32_max) ALIGN) ALIGN
     then [(ALIGN, round_down_to_pow2 (saturating_sub
          (if c <=? u32_max then c else u32_max) ALIGN) ALIGN)] else [])).
  assert (Hm : round_down_to_pow2 (saturating_sub
          (if c <=? u32_max then c else u32_max) ALIGN) ALIGN = max_size (new c)).
  { unfold max_size. cbn [capacity new reset with_blocks].
    replace (Z.min c u32_max) with (if c <=? u32_max then c else u32_max); [done|].
    destruct (c <=? u32_max) eqn:Hl; zbool; lia. }
  rewrite Hm. destruct (MIN_BLOCK_SIZE <=? _) eqn:Hl; [|done]. zbool.
  destruct (max_size_bounds (new c)) as (? & ? & _). cbn [spaced]. unfold region_end.
  split_and!; try done; lia.
Qed.

Lemma bounded lo f l i n :
  spaced lo (region_end f) l -> ALIGN <= lo -> (i, n) ∈ l ->
  region_end f <= capacity f /\ region_end f <= u32_max.
Proof.
  intros H Hlo Hin. apply (spaced_elem _ _ _ _ _ H) in Hin.
  apply max_size_bounds. unfold region_end, MIN_BLOCK_SIZE, ALIGN in *. lia.
Qed.

Lemma check_blocks_ok {E} oc cap lo hi l prev_end :
  spaced lo hi l -> 0 <= lo -> (l <> [] -> hi <= cap /\ hi <= u32_max) ->
  (forall p, prev_end = Some p -> p < lo) ->
  check_blocks (E:=E) oc cap prev_end l = Ok ().
Proof.
  revert lo prev_end. induction l as [|[i n] l IH]; intros lo pe; cbn; [done|].
  intros (? & Hi & Hn & ? & ? & H) Hlo Hhi Hp. destruct Hhi as [? ?]; [done|].
  unfold MIN_BLOCK_SIZE, u32_max in *.
  rewrite arith_ok by (unfold in_u; lia). cbn [mbind outcome_bind].
  rewrite (proj2 (Z.leb_le (i + n) cap)) by lia. cbn [assert_].
  rewrite Hi, Hn. cbn [assert_ Z.eqb].
  assert (Hrest : check_blocks (E:=E) oc cap (Some (i + n)) l = Ok ()).
  { apply (IH _ _ H); [lia|done|]. intros p [= <-]. lia. }
  destruct pe as [p|]; [|done]. specialize (Hp p eq_refl).
  by rewrite (proj2 (Z.ltb_lt p i)) by lia.
Qed.

Lemma integrity_ok {E} oc dbg f l :
  spaced ALIGN (region_end f) l -> check_integrity (E:=E) oc dbg (with_blocks f l) = Ok ().
Proof.
  intros H. unfold check_integrity. destruct dbg; [|done].
  apply (check_blocks_ok _ _ ALIGN (region_end f)); [done|done| |done].
  cbn. intros Hne. destruct l as [|[i n] l]; [done|]. apply (bounded ALIGN _ _ i n H); [done|].
  set_solver.
Qed.

Lemma aligned_ok {E} dbg z : z mod ALIGN = 0 -> aligned (E:=E) dbg z = Ok ().
Proof. intros H. apply debug_assert_true. by rewrite H. Qed.

Lemma mod_add a b : a mod ALIGN = 0 -> b mod ALIGN = 0 -> (a + b) mod ALIGN = 0.
Proof. intros Ha Hb. by rewrite Z.add_mod, Ha, Hb. Qed.
Lemma mod_sub a b : a mod ALIGN = 0 -> b mod ALIGN = 0 -> (a - b) mod ALIGN = 0.
Proof. intros Ha Hb. by rewrite Zminus_mod, Ha, Hb. Qed.

Ltac heap_lia := unfold ALIGN, MIN_BLOCK_SIZE, u32_max in *; lia.

Create HintDb heap discriminated.
#[local] Hint Resolve mod_add mod_sub : heap.

(** ** Allocation *)

Lemma maybe_split_ok {E} oc dbg f A B a bi bl lo :
  spaced lo (region_end f) (A ++ (bi, bl) :: B) -> ALIGN <= lo ->
  a mod ALIGN = 0 -> 0 <= a <= bl ->
  exists n l, maybe_split (E:=E) oc dbg (with_blocks f (A ++ B)) a bi bl
    = Ok (n, with_blocks f l) /\ a <= n /\ n mod ALIGN = 0 /\
    spaced lo (region_end f) l /\
    (forall i m, (i, m) ∈ l -> (i, m) ∈ A ++ B \/ (i = bi + a /\ i + m = bi + bl)).
Proof.
  intros Hsp Hlo Ha Hle.
  destruct (bounded lo f _ bi bl Hsp Hlo) as [Hc Hu]; [set_solver|].
  apply spaced_app in Hsp as [HA (H1 & Hbi & Hbl & Hmin & Hend & HB)].
  pose proof (spaced_edge _ _ _ HA) as Hedge.
  unfold maybe_split. rewrite !aligned_ok by eauto with heap. cbn [mbind outcome_bind].
  rewrite arith_ok by (unfold in_u; heap_lia). cbn [mbind outcome_bind].
  destruct (bl - a <? MIN_BLOCK_SIZE) eqn:Hs; zbool.
  - exists bl, (A ++ B). split_and!; [done|heap_lia|done| |by left].
    apply spaced_app. split; [done|]. eapply spaced_weaken; [|exact HB]. heap_lia.
  - rewrite !arith_ok by (unfold in_u; heap_lia). cbn [mbind outcome_bind].
    rewrite !aligned_ok by eauto with heap. cbn [mbind outcome_bind].
    exists a, (A ++ (bi + a, bl - a) :: B). cbn [free_blocks with_blocks capacity].
    rewrite bt_insert_middle.
    + split_and!; [done|heap_lia|done| |].
      * apply spaced_app. split; [done|]. cbn [spaced]. split_and!; try (eauto with heap; heap_lia).
        eapply spaced_weaken; [|exact HB]. heap_lia.
      * intros i m Hin. apply list.elem_of_app in Hin as [Hin|[[= -> ->]|Hin]%list.elem_of_cons];
          [set_solver|right; heap_lia|set_solver].
    + apply (spaced_below _ _ _ _ HA). heap_lia.
    + apply (spaced_above _ _ _ _ HB). heap_lia.
Qed.

Lemma in_blocks_apart lo hi A B i n i' n' :
  spaced lo hi (A ++ (i, n) :: B) -> (i', n') ∈ A ++ B -> apart i n i' n'.
Proof.
  intros [HA (? & _ & _ & ? & _ & HB)]%spaced_app [Hin|Hin]%list.elem_of_app.
  - apply (spaced_elem _ _ _ _ _ HA) in Hin. unfold apart. heap_lia.
  - apply (spaced_elem _ _ _ _ _ HB) in Hin. unfold apart. heap_lia.
Qed.

Lemma apart_sym i n j m : apart i n j m -> apart j m i n.
Proof. unfold apart. lia. Qed.

(** What [alloc] does from a state with the invariant: it takes the first
    block that is long enough. *)
Lemma heap_alloc_ok oc dbg f live lay a :
  heap_inv f live -> check_layout f lay = Ok a -> MIN_BLOCK_SIZE <= a ->
  match bt_find (fun len => a <=? len) (free_blocks f) with
  | None => alloc oc dbg f lay = Ok (None, f)
  | Some (i, n) =>
      exists f', alloc oc dbg f lay = Ok (Some i, f') /\ capacity f' = capacity f /\
        live !! i = None /\ heap_inv f' (<[i := a]> live)
  end.
Proof.
  intros [Hsp Hlive Hap Hfree] Hc Ha. unfold alloc. rewrite Hc. cbn [mbind outcome_bind].
  apply check_layout_Ok in Hc as (_ & _ & Hmod & Hle).
  rewrite aligned_ok by done. cbn [mbind outcome_bind]. unfold first_fit.
  rewrite aligned_ok by done. cbn [mbind outcome_bind].
  destruct (bt_find _ _) as [[i n]|] eqn:Hf; [|done].
  apply bt_find_Some in Hf as (A & B & Hl & Hn & _). zbool. rewrite Hl in *.
  pose proof Hsp as [HA (Hedge & Hi & Hnm & Hmin & Hend & HB)]%spaced_app.
  pose proof (spaced_edge _ _ _ HA) as Hlo.
  rewrite !aligned_ok by done. cbn [mbind outcome_bind].
  rewrite debug_assert_true by
    (apply existsb_exists; exists (i, n); split; [apply list_elem_of_In; set_solver|apply Z.eqb_refl]).
  cbn [mbind outcome_bind].
  rewrite bt_remove_middle by (apply (spaced_below _ _ _ _ HA); heap_lia).
  rewrite (debug_assert_true dbg (negb (i =? 0)))
    by (rewrite (proj2 (Z.eqb_neq i 0)); [done|heap_lia]).
  cbn [mbind outcome_bind].
  rewrite !aligned_ok by done. cbn [mbind outcome_bind].
  rewrite (debug_assert_true dbg (a <=? n)) by (by apply Z.leb_le). cbn [mbind outcome_bind].
  destruct (maybe_split_ok (E:=LayoutError) oc dbg f A B a i n ALIGN Hsp)
    as (m & l & -> & Hm & Hmm & Hsp' & Hin); [done|done|lia|].
  cbn [mbind outcome_bind]. rewrite (debug_assert_true dbg (a <=? m)) by (by apply Z.leb_le).
  rewrite aligned_ok by done. cbn [mbind outcome_bind].
  rewrite integrity_ok by done. cbn [mbind outcome_bind].
  assert (Hself : forall j k, live !! j = Some k -> apart i a j k).
  { intros j k Hj. destruct (Hfree i n j k) as [?|?]; [set_solver|done| |]; unfold apart; lia. }
  exists (with_blocks f l). split_and!; [done|done| |].
  - apply eq_None_not_Some. intros [k Hk]. pose proof (Hself _ _ Hk) as Hd.
    apply Hlive in Hk. unfold apart in Hd. heap_lia.
  - split; [exact Hsp'| | |].
    + intros j k [[<- <-]|[Hne Hj]]%lookup_insert_Some; [|by apply Hlive].
      change (region_end (with_blocks f l)) with (region_end f). split_and!; try done; heap_lia.
    + intros j k j' k' [[<- <-]|[Hne Hj]]%lookup_insert_Some
        [[<- <-]|[Hne' Hj']]%lookup_insert_Some Hjj; [done|by apply Hself| |by apply Hap].
      apply apart_sym. by apply Hself.
    + cbn [free_blocks with_blocks]. intros j k j' k' Hj.
      intros [[<- <-]|[Hne Hj']]%lookup_insert_Some.
      * apply Hin in Hj as [Hj|[-> Hj]]; [|right; lia].
        apply (in_blocks_apart _ _ _ _ _ _ _ _ Hsp) in Hj. unfold apart in *. lia.
      * apply Hin in Hj as [Hj|[-> Hj]]; [apply (Hfree j k j' k'); [set_solver|done]|].
        destruct (Hfree i n j' k') as [?|?]; [set_solver|done| |]; unfold apart; lia.
Qed.

(** ** Deallocation *)

Lemma contiguous_ok {E} oc dbg pi pl ni :
  0 <= pi -> 0 <= pl -> pi + pl <= ni -> ni <= u32_max ->
  blocks_are_contiguous (E:=E) oc dbg pi pl ni = Ok (ni - (pi + pl) <? MIN_BLOCK_SIZE).
Proof.
  intros. unfold blocks_are_contiguous. rewrite arith_ok by (unfold in_u; heap_lia).
  cbn [mbind outcome_bind]. rewrite debug_assert_true by (by apply Z.leb_le).
  cbn [mbind outcome_bind]. by rewrite arith_ok by (unfold in_u; heap_lia).
Qed.

Lemma merged_ok {E} oc dbg s x n :
  0 <= s <= x -> 0 <= n -> x + n <= u32_max ->
  s mod ALIGN = 0 -> x mod ALIGN = 0 -> n mod ALIGN = 0 ->
  merged (E:=E) oc dbg s x n = Ok (x + n - s).
Proof.
  intros. unfold merged. rewrite arith_ok by (unfold in_u; heap_lia). cbn [mbind outcome_bind].
  rewrite arith_ok by (unfold in_u; heap_lia). cbn [mbind outcome_bind].
  by rewrite aligned_ok by eauto with heap.
Qed.

(** Joining two blocks over a gap too small for a live block. *)
Lemma apart_join i n j a k m :
  MIN_BLOCK_SIZE <= m -> apart i n k m -> apart j a k m ->
  i + n <= j -> j - (i + n) < MIN_BLOCK_SIZE -> apart i (j + a - i) k m.
Proof. unfold apart. lia. Qed.

Section Dealloc.
  Context (f : FreeList) (live : gmap Z Z) (j a : Z) (A B : blocks).
  Hypothesis Hinv : heap_inv f live.
  Hypothesis Hj : live !! j = Some a.
  Hypothesis Hl : free_blocks f = A ++ B.
  Hypothesis HA : below j A.
  Hypothesis HB : above j B.

Lemma finish_inv A' B' s e :
  spaced ALIGN (region_end f) A' -> edge ALIGN A' <= s -> s mod ALIGN = 0 -> e mod ALIGN = 0 ->
  s + MIN_BLOCK_SIZE <= e -> e <= region_end f -> spaced (e + MIN_BLOCK_SIZE) (region_end f) B' ->
  (forall k m, live !! k = Some m -> k <> j -> apart s (e - s) k m) ->
  A' ++ B' ⊆ A ++ B ->
  heap_inv (with_blocks f (A' ++ (s, e - s) :: B')) (delete j live).
Proof.
  intros HA' Hs Hsm Hem Hse He HB' Hap Hsub. destruct Hinv as [Hsp Hlive Hll Hfree].
  split; cbn [free_blocks with_blocks].
  - apply spaced_app. split; [done|]. cbn [spaced].
    change (region_end (with_blocks f _)) with (region_end f).
    split_and!; try done; [by apply mod_sub|heap_lia|heap_lia|].
    by replace (s + (e - s) + MIN_BLOCK_SIZE) with (e + MIN_BLOCK_SIZE) by lia.
  - intros k m [Hne Hk]%lookup_delete_Some. by apply Hlive.
  - intros k m k' m' [Hne Hk]%lookup_delete_Some [Hne' Hk']%lookup_delete_Some. by apply Hll.
  - intros i n k m Hin [Hne Hk]%lookup_delete_Some.
    apply list.elem_of_app in Hin as [Hin|[[= -> ->]|Hin]%list.elem_of_cons].
    + apply Hfree; [rewrite Hl; set_solver|done].
    + by apply Hap.
    + apply Hfree; [rewrite Hl; set_solver|done].
Qed.

Lemma before_end i n : (i, n) ∈ A -> i + n <= j.
Proof.
  intros Hin. destruct Hinv as [_ Hlive _ Hfree].
  pose proof (proj1 (list.Forall_forall _ _) HA _ Hin) as Hlt. cbn in Hlt.
  destruct (Hfree i n j a) as [?|?]; [rewrite Hl; set_solver|done|done|].
  apply Hlive in Hj. heap_lia.
Qed.

Lemma after_start i n : (i, n) ∈ B -> j + a <= i.
Proof.
  intros Hin. destruct Hinv as [Hsp _ _ Hfree].
  pose proof (proj1 (list.Forall_forall _ _) HB _ Hin) as Hlt. cbn in Hlt.
  assert (Hin' : (i, n) ∈ free_blocks f) by (rewrite Hl; set_solver).
  destruct (Hfree i n j a) as [?|?]; [done|done| |done].
  apply (spaced_elem _ _ _ _ _ Hsp) in Hin'. heap_lia.
Qed.
(** How the freed block ends on each side: on its own, or joined with the
    neighbour. *)
Inductive left_end : blocks -> Z -> Prop :=
| left_alone : edge ALIGN A <= j -> left_end A j
| left_join A' p pl :
    A = A' ++ [(p, pl)] -> j - (p + pl) < MIN_BLOCK_SIZE -> left_end A' p.

Inductive right_end : blocks -> Z -> Prop :=
| right_alone : spaced (j + a + MIN_BLOCK_SIZE) (region_end f) B -> right_end B (j + a)
| right_join B' q ql :
    B = (q, ql) :: B' -> q - (j + a) < MIN_BLOCK_SIZE -> right_end B' (q + ql).

(** The left neighbour joined with the freed block and what follows it, up to
    [e], is apart from the other live blocks. *)
Lemma left_end_spec A' s :
  left_end A' s ->
  spaced ALIGN (region_end f) A' /\ edge ALIGN A' <= s /\ s mod ALIGN = 0 /\ ALIGN <= s <= j /\
  A' ⊆ A /\
  (forall k m, live !! k = Some m -> k <> j -> apart s (j + a - s) k m).
Proof.
  pose proof Hinv as [Hsp Hlive Hap Hfree]. pose proof (Hlive _ _ Hj) as (? & ? & ? & ? & ?).
  rewrite Hl in Hsp. apply spaced_app in Hsp as [HsA _].
  intros [He|A1 p pl HeA Hd].
  - split_and!; try done; try lia. intros k m Hk Hne. replace (j + a - j) with a by lia. by apply Hap.
  - pose proof (before_end p pl) as Hbe. rewrite HeA in Hbe, HsA |- *.
    apply spaced_app in HsA as [HsA (? & ? & ? & ? & ? & _)].
    pose proof (spaced_edge _ _ _ HsA). specialize (Hbe ltac:(set_solver)).
    split_and!; try done; [heap_lia|heap_lia|set_solver|].
    intros k m Hk Hne. apply (apart_join p pl); [by apply (Hlive _ _ Hk)| |by apply Hap|done|done].
    apply Hfree; [rewrite Hl, HeA; set_solver|done].
Qed.

Lemma join_inv A' s B' e :
  left_end A' s -> right_end B' e ->
  heap_inv (with_blocks f (A' ++ (s, e - s) :: B')) (delete j live).
Proof.
  intros (HA' & Hs & Hsm & Hsj & HsubA & Hapart)%left_end_spec Hr.
  pose proof Hinv as [Hsp Hlive Hap Hfree]. pose proof (Hlive _ _ Hj) as (? & ? & ? & ? & ?).
  destruct Hr as [HsB|B1 q ql HeB Hd].
  - apply finish_inv; try done; [eauto with heap|heap_lia|set_solver].
  - pose proof (after_start q ql) as Has. rewrite HeB in Has. specialize (Has ltac:(set_solver)).
    rewrite Hl, HeB in Hsp. apply spaced_app in Hsp as [_ (? & ? & ? & ? & ? & HsB)].
    apply finish_inv; try done; [eauto with heap|heap_lia| |rewrite HeB; set_solver].
    intros k m Hk Hne. apply (apart_join s (j + a - s) q ql); [by apply (Hlive _ _ Hk)|by apply Hapart| |lia|lia].
    apply Hfree; [rewrite Hl, HeB; set_solver|done].
Qed.
End Dealloc.

Lemma below_mono k k' A : below k A -> k <= k' -> below k' A.
Proof. intros H Hk. eapply Forall_impl; [|exact H]. intros [] Hx. cbn in *. lia. Qed.

Lemma below_snoc lo hi A i n : spaced lo hi (A ++ [(i, n)]) -> below i A.
Proof. intros [HA [? _]]%spaced_app. by apply (spaced_below _ _ _ _ HA). Qed.

(** What the code computes from the cut of the free list at the freed index. *)
Definition joins_left (j : Z) (A : blocks) : bool :=
  match list.last A with Some (p, pl) => j - (p + pl) <? MIN_BLOCK_SIZE | None => false end.
Definition joins_right (e : Z) (B : blocks) : bool :=
  match head B with Some (q, _) => q - e <? MIN_BLOCK_SIZE | None => false end.

Definition left_part (j : Z) (A : blocks) : blocks * Z :=
  match list.last A with
  | Some (p, _) => if joins_left j A then (removelast A, p) else (A, j)
  | None => (A, j)
  end.
Definition right_part (e : Z) (B : blocks) : blocks * Z :=
  match B with
  | (q, ql) :: B' => if joins_right e B then (B', q + ql) else (B, e)
  | [] => (B, e)
  end.

Section DeallocOk.
  Context (f : FreeList) (live : gmap Z Z) (j a : Z) (A B : blocks).
  Hypothesis Hinv : heap_inv f live.
  Hypothesis Hj : live !! j = Some a.
  Hypothesis Hl : free_blocks f = A ++ B.
  Hypothesis HA : below j A.
  Hypothesis HB : above j B.

Lemma left_part_end : left_end j A (left_part j A).1 (left_part j A).2.
Proof.
  pose proof (Hinv.(inv_spaced _ _)) as Hsp. rewrite Hl in Hsp. apply spaced_app in Hsp as [HsA _].
  pose proof (Hinv.(inv_live _ _) _ _ Hj) as (? & _).
  unfold left_part, joins_left. destruct A as [|[p pl] A' _] using rev_ind; [by constructor|].
  rewrite last_snoc, removelast_last. destruct (_ <? _) eqn:Hd; zbool; cbn.
  - by econstructor 2.
  - constructor. rewrite edge_app. cbn. lia.
Qed.

Lemma right_part_end : right_end f j a B (right_part (j + a) B).1 (right_part (j + a) B).2.
Proof.
  pose proof (Hinv.(inv_spaced _ _)) as Hsp. rewrite Hl in Hsp. apply spaced_app in Hsp as [_ HsB].
  unfold right_part, joins_right. destruct B as [|[q ql] B']; cbn [head]; [by constructor|].
  destruct (_ <? _) eqn:Hd; zbool; cbn.
  - by econstructor 2.
  - constructor. cbn. cbn in HsB. destruct HsB as (? & ?). split; [lia|done].
Qed.
End DeallocOk.

Lemma dealloc_blocks {E} oc dbg f live j lay a A B :
  heap_inv f live -> live !! j = Some a -> check_layout f lay = Ok a ->
  free_blocks f = A ++ B -> below j A -> above j B ->
  let l' := (left_part j A).1 ++
            ((left_part j A).2, (right_part (j + a) B).2 - (left_part j A).2) ::
            (right_part (j + a) B).1 in
  dealloc (E:=E) oc dbg f j lay =
    (check_integrity oc dbg (with_blocks f l');; Ok (with_blocks f l')).
Proof.
  intros Hinv Hj Hc Hl HA HB. pose proof Hinv as [Hsp Hlive _ _].
  pose proof (Hlive _ _ Hj) as (Hj8 & Hjm & Ham & Hamin & Hjend).
  destruct (max_size_bounds f) as (_ & _ & Hreg).
  destruct Hreg as [_ Hu]; [unfold region_end in *; heap_lia|].
  pose proof (before_end _ _ _ _ _ _ Hinv Hj Hl HA HB) as Hbe.
  pose proof (after_start _ _ _ _ _ _ Hinv Hj Hl HA HB) as Has.
  unfold dealloc. rewrite aligned_ok by done. cbn [mbind outcome_bind]. rewrite Hc.
  cbn [mbind outcome_bind unwrap_result]. rewrite aligned_ok by done. cbn [mbind outcome_bind].
  rewrite Hl, bt_before_app, bt_after_app by done. rewrite Hl in Hsp.
  unfold left_part, right_part, joins_left, joins_right.
  assert (Hq : forall q ql, (q, ql) ∈ B -> q mod ALIGN = 0 /\ ql mod ALIGN = 0 /\ 0 <= ql /\
    q + ql <= u32_max /\ j + a <= q).
  { intros q ql Hin. pose proof (Has _ _ Hin).
    assert ((q, ql) ∈ A ++ B) as Hin' by set_solver.
    apply (spaced_elem _ _ _ _ _ Hsp) in Hin'. split_and!; try done; heap_lia. }
  assert (Hp : forall p pl, (p, pl) ∈ A -> p mod ALIGN = 0 /\ 0 <= p /\ 0 <= pl /\ p + pl <= j).
  { intros p pl Hin. pose proof (Hbe _ _ Hin). assert ((p, pl) ∈ A ++ B) as Hin' by set_solver.
    apply (spaced_elem _ _ _ _ _ Hsp) in Hin'. split_and!; try done; heap_lia. }
  destruct A as [|[p pl] A' _] using rev_ind.
  - (* nothing before *)
    cbn [list.last app fst snd]. destruct B as [|[q ql] B']; cbn [head fst snd].
    + replace (j + a - j) with a by lia. done.
    + destruct (Hq q ql) as (? & ? & ? & ? & ?); [set_solver|].
      rewrite contiguous_ok by heap_lia. cbn [mbind outcome_bind].
      destruct (q - (j + a) <? MIN_BLOCK_SIZE) eqn:Hd; cbn [fst snd].
      * rewrite merged_ok by (done || heap_lia). cbn [mbind outcome_bind].
        replace (bt_remove q ((q, ql) :: B')) with ([] ++ B')
          by (symmetry; apply (bt_remove_middle []); constructor).
        rewrite bt_insert_middle by (constructor || by apply Forall_cons_iff in HB as [_ HB]).
        done.
      * replace (j + a - j) with a by lia.
        pose proof (bt_insert_middle [] _ j a HA HB) as Hi. cbn [app] in Hi. by rewrite Hi.
  - destruct (Hp p pl) as (? & ? & ? & ?); [set_solver|].
    rewrite last_snoc, removelast_last. rewrite contiguous_ok by heap_lia.
    pose proof Hsp as Hsp'. apply spaced_app in Hsp' as [HsA _].
    pose proof (below_snoc _ _ _ _ _ HsA) as Hbp.
    destruct (j - (p + pl) <? MIN_BLOCK_SIZE) eqn:Hd;
      destruct B as [|[q ql] B']; cbn [head fst snd mbind outcome_bind].
    + (* joined before, nothing after *)
      rewrite merged_ok by (done || heap_lia). cbn [mbind outcome_bind].
      rewrite app_nil_r, bt_set_middle by done. done.
    + destruct (Hq q ql) as (? & ? & ? & ? & ?); [set_solver|].
      rewrite contiguous_ok by heap_lia.
      destruct (q - (j + a) <? MIN_BLOCK_SIZE) eqn:Hd'; cbn [fst snd mbind outcome_bind].
      * rewrite merged_ok by (done || heap_lia). cbn [mbind outcome_bind].
        rewrite bt_remove_middle by
          (apply (below_mono j); [done|heap_lia]).
        rewrite <- app_assoc. cbn [app]. rewrite bt_set_middle by done. done.
      * rewrite merged_ok by (done || heap_lia). cbn [mbind outcome_bind].
        rewrite <- app_assoc. cbn [app]. rewrite bt_set_middle by done. done.
    + replace (j + a - j) with a by lia. rewrite bt_insert_middle by done. done.
    + destruct (Hq q ql) as (? & ? & ? & ? & ?); [set_solver|].
      rewrite contiguous_ok by heap_lia.
      destruct (q - (j + a) <? MIN_BLOCK_SIZE) eqn:Hd'; cbn [fst snd mbind outcome_bind].
      * rewrite merged_ok by (done || heap_lia). cbn [mbind outcome_bind].
        rewrite bt_remove_middle by
          (apply (below_mono j); [done|heap_lia]).
        rewrite bt_insert_middle; [done|done|by apply Forall_cons_iff in HB as [_ HB]].
      * replace (j + a - j) with a by lia. rewrite bt_insert_middle by done. done.
Qed.

Lemma heap_dealloc_ok {E} oc dbg f live j lay a :
  heap_inv f live -> live !! j = Some a -> check_layout f lay = Ok a ->
  exists f', dealloc (E:=E) oc dbg f j lay = Ok f' /\ capacity f' = capacity f /\
    heap_inv f' (delete j live).
Proof.
  intros Hinv Hj Hc. pose proof Hinv as [Hsp Hlive _ Hfree].
  destruct (spaced_cut _ _ _ j Hsp) as (A & B & Hl & HA & HB).
  { intros n Hin. pose proof (Hfree _ _ _ _ Hin Hj) as Hd. pose proof (Hlive _ _ Hj).
    apply (spaced_elem _ _ _ _ _ Hsp) in Hin. unfold apart in Hd. heap_lia. }
  rewrite (dealloc_blocks oc dbg f live j lay a A B) by done.
  set (l' := _ ++ _). assert (Hi : heap_inv (with_blocks f l') (delete j live)).
  { eapply join_inv; try done; [eapply left_part_end|eapply right_part_end]; done. }
  exists (with_blocks f l'). rewrite integrity_ok by apply Hi. done.
Qed.

(** ** Heaps a collector can reach

    Every layout the collector allocates rounds up to at least the minimum
    block size, and a block is freed with the layout it was allocated with. *)

Section Reachable.
  Context (oc dbg : bool).

Inductive heap_reach : FreeList -> gmap Z Z -> Prop :=
| reach_new c : 0 <= c -> heap_reach (new c) ∅
| reach_alloc f live lay a i f' :
    heap_reach f live -> check_layout f lay = Ok a -> MIN_BLOCK_SIZE <= a ->
    alloc oc dbg f lay = Ok (Some i, f') -> heap_reach f' (<[i := a]> live)
| reach_dealloc f live j lay a f' :
    heap_reach f live -> live !! j = Some a -> check_layout f lay = Ok a ->
    dealloc (E:=LayoutError) oc dbg f j lay = Ok f' -> heap_reach f' (delete j live)
| reach_reset f live : heap_reach f live -> heap_reach (reset f) ∅.

Lemma reach_inv f live : heap_reach f live -> heap_inv f live /\ 0 <= capacity f.
Proof.
  induction 1 as [c Hc|f live lay a i f' _ [IH Hcap] Hl Ha H|f live j lay a f' _ [IH Hcap] Hj Hl H
                 |f live _ [_ Hcap]].
  - by split; [apply heap_new_inv|].
  - pose proof (heap_alloc_ok oc dbg f live lay a IH Hl Ha) as Hok.
    destruct (bt_find _ _) as [[i' n]|]; [|congruence].
    destruct Hok as (f'' & Hok & Hc & _ & Hi). rewrite Hok in H. injection H as -> ->.
    split; [done|]. by rewrite Hc.
  - destruct (heap_dealloc_ok (E:=LayoutError) oc dbg f live j lay a IH Hj Hl) as (f'' & Hok & Hc & Hi).
    rewrite Hok in H. injection H as ->. split; [done|]. by rewrite Hc.
  - split; [|done]. by apply (heap_new_inv (capacity f)).
Qed.

(** C29: In every heap reached by allocations, deallocations and resets with layouts of at
    least [MIN_BLOCK_SIZE] bytes (smaller ones overlap: [small_layouts_overlap]), the
    live blocks are aligned, start above the null index, end within the
    capacity, and overlap neither each other nor a free block.  From such a
    heap, with debug assertions and overflow checks or without, allocating
    never panics and returns a block that was not live, and freeing a live
    block with its layout never panics: the internal integrity check always
    passes. *)
Theorem free_list_safe f live (H : heap_reach f live) :
  (forall j m, live !! j = Some m ->
     0 < j /\ j mod ALIGN = 0 /\ j + m <= capacity f /\
     (forall j' m', live !! j' = Some m' -> j <> j' -> apart j m j' m') /\
     (forall i n, (i, n) ∈ free_blocks f -> apart i n j m)) /\
  (forall lay a, check_layout f lay = Ok a -> MIN_BLOCK_SIZE <= a ->
     alloc oc dbg f lay = Ok (None, f) \/
     exists i f', alloc oc dbg f lay = Ok (Some i, f') /\ live !! i = None) /\
  (forall j lay a, live !! j = Some a -> check_layout f lay = Ok a ->
     is_Ok (dealloc (E:=LayoutError) oc dbg f j lay)).
Proof.
  apply reach_inv in H as [Hinv _]. pose proof Hinv as [_ Hlive Hap Hfree]. split_and!.
  - intros j m Hj. destruct (Hlive _ _ Hj) as (? & ? & ? & ? & Hend).
    destruct (max_size_bounds f) as (_ & _ & Hreg).
    destruct Hreg as [? _]; [unfold region_end in *; heap_lia|].
    split_and!; [heap_lia|done|lia| |].
    + intros j' m' Hj' Hne. by apply Hap.
    + intros i n Hin. by apply Hfree.
  - intros lay a Hl Ha. pose proof (heap_alloc_ok oc dbg f live lay a Hinv Hl Ha) as Hok.
    destruct (bt_find _ _) as [[i n]|]; [right|by left].
    destruct Hok as (f' & Hok & _ & Hn & _). by exists i, f'.
  - intros j lay a Hj Hl.
    destruct (heap_dealloc_ok (E:=LayoutError) oc dbg f live j lay a Hinv Hj Hl) as (f' & -> & _).
    apply Ok_is_Ok.
Qed.

(** Allocation is first fit: a layout is refused exactly when its alignment
    exceeds 8 or its size the region; otherwise the block returned is the free
    block of lowest index that holds the size rounded up to a multiple of 8,
    and nothing is returned exactly when no free block is long enough. *)
Theorem alloc_first_fit f live lay (H : heap_reach f live) (Hs : 16 < size lay) :
  let a := 8 * ((size lay + 7) / 8) in
  if negb (align lay <=? ALIGN) then alloc oc dbg f lay = Err AlignTooLarge
  else if negb (size lay <=? max_size f) then alloc oc dbg f lay = Err SizeTooLarge
  else
    (alloc oc dbg f lay = Ok (None, f) /\ forall i n, (i, n) ∈ free_blocks f -> n < a) \/
    (exists i n f', alloc oc dbg f lay = Ok (Some i, f') /\ (i, n) ∈ free_blocks f /\ a <= n /\
       forall i' n', (i', n') ∈ free_blocks f -> a <= n' -> i <= i').
Proof.
  apply reach_inv in H as [Hinv _]. intros a.
  pose proof (check_layout_total f lay ltac:(lia)) as Hc. fold a in Hc.
  destruct (negb (align lay <=? ALIGN)). { unfold alloc. by rewrite Hc. }
  destruct (negb (size lay <=? max_size f)). { unfold alloc. by rewrite Hc. }
  assert (Ha : MIN_BLOCK_SIZE <= a).
  { unfold a, MIN_BLOCK_SIZE. pose proof (Z.div_le_lower_bound (size lay + 7) 8 3). lia. }
  pose proof (heap_alloc_ok oc dbg f live lay a Hinv Hc Ha) as Hok.
  destruct (bt_find _ _) as [[i n]|] eqn:Hf.
  - right. destruct Hok as (f' & Hok & _). exists i, n, f'. split; [done|].
    apply bt_find_Some in Hf as (A & B & Hl & Hn & HA). zbool.
    pose proof Hinv.(inv_spaced _ _) as Hsp. rewrite Hl in *. split_and!; [set_solver|done|].
    intros i' n' [Hin|[[= -> ->]|Hin]%list.elem_of_cons]%list.elem_of_app Hn'; [|done|].
    + apply (proj1 (list.Forall_forall _ _) HA) in Hin. cbn in Hin. zbool. lia.
    + apply spaced_app in Hsp as [_ (_ & _ & _ & ? & _ & HB)].
      apply (spaced_elem _ _ _ _ _ HB) in Hin. heap_lia.
  - left. split; [done|]. intros i n Hin. apply bt_find_None in Hf.
    apply (proj1 (list.Forall_forall _ _) Hf) in Hin. cbn in Hin. by zbool.
Qed.
End Reachable.

(** ** Concrete runs *)

Inductive op := Alloc (s : Z) | Dealloc (i s : Z).

(** A run of allocations and deallocations of 8-aligned layouts, with the
    indices the allocations returned. *)
Fixpoint run_ops (oc dbg : bool) (f : FreeList) (l : list op)
  : outcome LayoutError (list (option Z) * FreeList) :=
  match l with
  | [] => Ok ([], f)
  | Alloc s :: t =>
      '(r, f1) ← alloc oc dbg f {| size := s; align := 8 |};
      '(rs, f2) ← run_ops oc dbg f1 t;
      Ok (r :: rs, f2)
  | Dealloc i s :: t =>
      f1 ← dealloc oc dbg f i {| size := s; align := 8 |};
      run_ops oc dbg f1 t
  end.

(** [alloc] accepts layouts below the minimum block size, and with those
    the heap is not safe: of two adjacent 8-byte blocks the first is freed and
    merged with the free space behind the second, which is live, and the next
    24-byte allocation overlaps it.  No assertion notices. *)
Theorem small_layouts_overlap oc dbg :
  exists f, run_ops oc dbg (new 80)
    [Alloc 8; Alloc 8; Dealloc 8 8; Alloc 24]
    = Ok ([Some 8; Some 16; Some 8], f) /\ ~ apart 8 24 16 8.
Proof.
  eexists. split; [destruct oc, dbg; vm_compute; reflexivity|]. unfold apart. lia.
Qed.

(** Freeing everything does not always restore the initial free block: the
    slack of blocks that were not split adds up until it separates neighbours
    for good.  After this run no block is live, yet an allocation of 48 bytes,
    which the fresh heap serves, fails. *)
Theorem permanent_fragmentation oc dbg :
  exists f, run_ops oc dbg (new 80)
    [Alloc 48; Alloc 24; Dealloc 8 48; Alloc 32; Dealloc 8 32; Alloc 24; Dealloc 8 24;
     Dealloc 56 24; Alloc 48]
    = Ok ([Some 8; Some 56; Some 8; Some 8; None], f) /\
    free_blocks (new 80) = [(8, 72)] /\ free_blocks f = [(8, 24); (56, 24)].
Proof. eexists. split; [destruct oc, dbg; vm_compute; reflexivity|]. done. Qed.

(** ** Witnesses *)

Lemma free_list_safe_witness :
  exists f, capacity f = 80 /\
    is_Ok (dealloc (E:=LayoutError) true true f 8 {| size := 24; align := 8 |}).
Proof.
  exists {| capacity := 80; free_blocks := [(32, 48)] |}. split; [reflexivity|].
  refine (proj2 (proj2 (free_list_safe true true _ {[8 := 24]} _)) 8 _ 24 _ _).
  - apply (reach_alloc true true (new 80) ∅ {| size := 20; align := 8 |} 24 8);
      [apply reach_new; lia|reflexivity|done|reflexivity].
  - reflexivity.
  - reflexivity.
Defined.

Lemma alloc_first_fit_witness :
  exists i n f', alloc true true (new 80) {| size := 20; align := 8 |} = Ok (Some i, f') /\
    (i, n) ∈ free_blocks (new 80) /\ 24 <= n.
Proof.
  destruct (alloc_first_fit true true (new 80) ∅ {| size := 20; align := 8 |}
    (reach_new _ _ 80 ltac:(lia)) ltac:(cbn; lia)) as [[H _]|(i & n & f' & H1 & H2 & H3 & _)].
  - discriminate H.
  - exists i, n, f'. split; [exact H1|]. split; [exact H2|exact H3].
Defined.
