(* ===== verification/IndexAllocator.v ===== *)
(** * Slot allocator of the pooling instance allocator

    [src/wasmtime-repo/crates/wasmtime/src/runtime/vm/instance/allocator/pooling/index_allocator.rs]:
    hands out the indices of a fixed pool of slots, preferring a slot that was
    last used for the same memory of the same module.  Free slots are threaded
    on intrusive doubly linked lists kept in the slot states: one of all warm
    slots, and one per module memory.  Each operation takes the lock once, so an
    operation is one step of the state [Inner]. *)

From Stdlib Require Import ZArith Lia.
From stdpp Require Import base list gmap numbers option.
From S2P Require Import Prelude.
Open Scope Z_scope.

Abbreviation SlotId := nat (only parsing).
(** A compiled module and a defined memory of it. *)
Abbreviation MemoryInModule := (Z * Z)%type (only parsing).

Record LList := { head_ : option SlotId; tail_ : option SlotId }.
Record Link := { prev : option SlotId; next : option SlotId }.
Definition link_default : Link := {| prev := None; next := None |}.
Definition llist_default : LList := {| head_ := None; tail_ := None |}.

Record Unused := {
  affinity : option MemoryInModule;
  affine_list_link : Link;
  unused_list_link : Link
}.

Inductive SlotState :=
| Used (m : option MemoryInModule)
| UnusedCold
| UnusedWarm (u : Unused).

Record Inner := {
  max_unused_warm_slots : Z;
  unused_warm_slots : Z;
  warm : LList;
  last_cold : nat;
  slot_state : list SlotState;
  module_affine : gmap MemoryInModule LList
}.

Inductive AllocMode := ForceAffineAndClear | AnySlot.

(** The [link] argument of the list operations: which of the two links. *)
Inductive which := Affine | InWarm.
Definition get_link (w : which) (u : Unused) : Link :=
  match w with Affine => affine_list_link u | InWarm => unused_list_link u end.
Definition set_link (w : which) (u : Unused) (l : Link) : Unused :=
  match w with
  | Affine => {| affinity := affinity u; affine_list_link := l;
                 unused_list_link := unused_list_link u |}
  | InWarm => {| affinity := affinity u; affine_list_link := affine_list_link u;
                 unused_list_link := l |}
  end.
Definition set_next (o : option SlotId) (l : Link) : Link := {| prev := prev l; next := o |}.
Definition set_prev (o : option SlotId) (l : Link) : Link := {| prev := o; next := next l |}.

Section Operations.
  Context {E : Type} (oc dbg : bool).
  Implicit Types (states : list SlotState) (inner : Inner).

(** [states[i].unwrap_unused()]: out of range and a slot that is not warm both
    panic. *)
Definition unwrap_unused states (i : SlotId) : outcome E Unused :=
  s ← unwrap (states !! i);
  match s with UnusedWarm u => Ok u | _ => Panic end.

(** [link(states[i].unwrap_unused()).f = v]. *)
Definition update_link states (w : which) (i : SlotId) (f : Link -> Link)
  : outcome E (list SlotState) :=
  u ← unwrap_unused states i;
  Ok (<[i := UnusedWarm (set_link w u (f (get_link w u)))]> states).

Definition list_new (id : SlotId) : LList := {| head_ := Some id; tail_ := Some id |}.

Definition list_append (l : LList) (id : SlotId) states (w : which)
  : outcome E (Link * LList * list SlotState) :=
  match tail_ l with
  | Some tail =>
      st ← update_link states w tail (set_next (Some id));
      Ok ({| prev := Some tail; next := None |}, {| head_ := head_ l; tail_ := Some id |}, st)
  | None =>
      Ok ({| prev := None; next := None |}, {| head_ := Some id; tail_ := Some id |}, states)
  end.

Definition list_remove (l : LList) (id : SlotId) states (w : which)
  : outcome E (LList * list SlotState) :=
  state ← unwrap_unused states id;
  let next := next (get_link w state) in
  let prev := prev (get_link w state) in
  '(tl, st1) ← (match next with
                | Some n => st ← update_link states w n (set_prev prev); Ok (tail_ l, st)
                | None => Ok (prev, states)
                end);
  '(hd, st2) ← (match prev with
                | Some p => st ← update_link st1 w p (set_next next); Ok (head_ l, st)
                | None => Ok (next, st1)
                end);
  Ok ({| head_ := hd; tail_ := tl |}, st2).

Definition new (capacity : nat) (max_unused : Z) : Inner :=
  {| last_cold := 0; max_unused_warm_slots := max_unused; unused_warm_slots := 0;
     module_affine := ∅; slot_state := replicate capacity UnusedCold; warm := llist_default |}.

Definition len inner : nat := length (slot_state inner).
Definition is_empty inner : bool :=
  negb (existsb (fun s => match s with Used _ => true | _ => false end) (slot_state inner)).

(** [Inner::remove]. *)
Definition remove inner (slot : SlotId) : outcome E Inner :=
  n ← arith oc 32 (unused_warm_slots inner - 1);
  '(w, st1) ← list_remove (warm inner) slot (slot_state inner) InWarm;
  u ← unwrap_unused st1 slot;
  '(aff, st2) ←
    (match affinity u with
     | None => Ok (module_affine inner, st1)
     | Some m =>
         l ← unwrap (module_affine inner !! m);
         '(l', st) ← list_remove l slot st1 Affine;
         Ok (match head_ l' with
             | None => delete m (module_affine inner)
             | Some _ => <[m := l']> (module_affine inner)
             end, st)
     end);
  Ok {| max_unused_warm_slots := max_unused_warm_slots inner; unused_warm_slots := n;
        warm := w; last_cold := last_cold inner; slot_state := st2; module_affine := aff |}.

Definition pick_affine inner (for_memory : option MemoryInModule)
  : outcome E (option SlotId * Inner) :=
  match (m ← for_memory; l ← module_affine inner !! m; tail_ l) with
  | Some ret => inner' ← remove inner ret; Ok (Some ret, inner')
  | None => Ok (None, inner)
  end.

Definition pick_warm inner : outcome E (option SlotId * Inner) :=
  match head_ (warm inner) with
  | Some head => inner' ← remove inner head; Ok (Some head, inner')
  | None => Ok (None, inner)
  end.

Definition pick_cold inner : outcome E (option SlotId * Inner) :=
  if (last_cold inner =? length (slot_state inner))%nat then Ok (None, inner)
  else
    n ← arith oc 32 (Z.of_nat (last_cold inner) + 1);
    Ok (Some (last_cold inner),
        {| max_unused_warm_slots := max_unused_warm_slots inner;
           unused_warm_slots := unused_warm_slots inner; warm := warm inner;
           last_cold := Z.to_nat n; slot_state := slot_state inner;
           module_affine := module_affine inner |}).

(** [Option::or_else] on a step that found no slot. *)
Definition or_else (r : outcome E (option SlotId * Inner))
    (k : Inner -> outcome E (option SlotId * Inner)) : outcome E (option SlotId * Inner) :=
  '(o, inner) ← r;
  match o with Some s => Ok (Some s, inner) | None => k inner end.

Definition with_slots inner (st : list SlotState) : Inner :=
  {| max_unused_warm_slots := max_unused_warm_slots inner;
     unused_warm_slots := unused_warm_slots inner; warm := warm inner;
     last_cold := last_cold inner; slot_state := st; module_affine := module_affine inner |}.

(** [_alloc]. *)
Definition alloc_ inner (for_memory : option MemoryInModule) (mode : AllocMode)
  : outcome E (option SlotId * Inner) :=
  '(o, inner1) ←
    or_else (pick_affine inner for_memory) (fun inner =>
      match mode with
      | AnySlot =>
          if unused_warm_slots inner <? max_unused_warm_slots inner
          then or_else (pick_cold inner) pick_warm
          else or_else (pick_warm inner) (fun inner =>
                 debug_assert dbg (max_unused_warm_slots inner =? 0);;
                 pick_cold inner)
      | ForceAffineAndClear => Ok (None, inner)
      end);
  match o with
  | None => Ok (None, inner1)
  | Some slot_id =>
      assert_ (slot_id <? length (slot_state inner1))%nat;;
      Ok (Some slot_id,
          with_slots inner1
            (<[slot_id := Used (match mode with
                                | ForceAffineAndClear => None
                                | AnySlot => for_memory
                                end)]> (slot_state inner1)))
  end.

Definition alloc inner for_memory := alloc_ inner for_memory AnySlot.

Definition alloc_affine_and_clear_affinity inner (module_id memory_index : Z) :=
  alloc_ inner (Some (module_id, memory_index)) ForceAffineAndClear.

Definition free inner (index : SlotId) : outcome E Inner :=
  s ← unwrap (slot_state inner !! index);
  match s with
  | Used module_memory =>
      n ← arith oc 32 (unused_warm_slots inner + 1);
      '(ul, w, st1) ← list_append (warm inner) index (slot_state inner) InWarm;
      '(al, aff, st2) ←
        (match module_memory with
         | None => Ok (link_default, module_affine inner, st1)
         | Some m =>
             match module_affine inner !! m with
             | Some l =>
                 '(lk, l', st) ← list_append l index st1 Affine;
                 Ok (lk, <[m := l']> (module_affine inner), st)
             | None => Ok (link_default, <[m := list_new index]> (module_affine inner), st1)
             end
         end);
      Ok {| max_unused_warm_slots := max_unused_warm_slots inner; unused_warm_slots := n;
            warm := w; last_cold := last_cold inner;
            slot_state := <[index := UnusedWarm {| affinity := module_memory;
                                                  affine_list_link := al;
                                                  unused_list_link := ul |}]> st2;
            module_affine := aff |}
  | _ => Panic
  end.

(** [SimpleIndexAllocator]. *)
Definition simple_new (capacity : nat) : Inner := new capacity 0.
Definition simple_alloc inner := alloc inner None.
Definition simple_free inner := free inner.
Definition simple_is_empty inner := is_empty inner.
End Operations.

(** ** The linked lists *)

Section Lists.
  Context {E : Type}.
  Implicit Types (st : list SlotState) (xs A B : list SlotId) (l : LList).

Definition link_at (w : which) st (i : SlotId) : option Link :=
  match st !! i with Some (UnusedWarm u) => Some (get_link w u) | _ => None end.

Definition other (w : which) : which := match w with Affine => InWarm | InWarm => Affine end.

(** The list [l] threaded through [st] holds [xs]. *)
Record dll (w : which) st xs l : Prop := {
  dll_head : head_ l = head xs;
  dll_tail : tail_ l = list.last xs;
  dll_links A i B : xs = A ++ i :: B ->
    link_at w st i = Some {| prev := list.last A; next := head B |}
}.

(** A slot state without its link [w]. *)
Definition but (w : which) (s : SlotState) : SlotState :=
  match s with UnusedWarm u => UnusedWarm (set_link w u link_default) | _ => s end.
Definition frame (w : which) st st' : Prop := forall i, but w <$> st !! i = but w <$> st' !! i.

Lemma frame_trans w st1 st2 st3 : frame w st1 st2 -> frame w st2 st3 -> frame w st1 st3.
Proof. intros H1 H2 i. by rewrite H1. Qed.

Lemma frame_lookup w st st' i s :
  frame w st st' -> st !! i = Some s ->
  match s with
  | UnusedWarm u => exists u', st' !! i = Some (UnusedWarm u') /\ affinity u' = affinity u /\
                      get_link (other w) u' = get_link (other w) u
  | _ => st' !! i = Some s
  end.
Proof.
  intros H Hi. specialize (H i). rewrite Hi in H.
  destruct s as [m| |u], (st' !! i) as [[m'| |u']|]; cbn in H; simplify_eq; try done.
  exists u'. by destruct w, u, u'; cbn in *; simplify_eq.
Qed.

Lemma frame_sym w st st' : frame w st st' -> frame w st' st.
Proof. intros H i. by rewrite H. Qed.

Lemma frame_length w st st' : frame w st st' -> length st' = length st.
Proof.
  intros H. apply Nat.le_antisymm; apply Nat.nlt_ge; intros Hlt.
  - destruct (lookup_lt_is_Some_2 st' (length st)) as [s Hs]; [done|].
    specialize (H (length st)). rewrite Hs, lookup_ge_None_2 in H by lia. done.
  - destruct (lookup_lt_is_Some_2 st (length st')) as [s Hs]; [done|].
    specialize (H (length st')). rewrite Hs, (lookup_ge_None_2 st') in H by lia. done.
Qed.

Lemma link_at_frame w st st' i : frame w st st' -> link_at (other w) st' i = link_at (other w) st i.
Proof.
  intros H. unfold link_at. destruct (st !! i) as [s|] eqn:Hs.
  - apply (frame_lookup _ _ _ _ _ H) in Hs. destruct s as [m| |u]; try by rewrite Hs.
    destruct Hs as (u' & -> & _ & ->). done.
  - specialize (H i). rewrite Hs in H. by destruct (st' !! i).
Qed.

Lemma dll_ext w st st' xs l :
  (forall i, i ∈ xs -> link_at w st' i = link_at w st i) -> dll w st xs l -> dll w st' xs l.
Proof.
  intros H [Hh Ht Hl]. split; [done|done|]. intros A i B Hx.
  rewrite H by (rewrite Hx; set_solver). by apply Hl.
Qed.

Lemma update_link_ok st w i f lk :
  link_at w st i = Some lk ->
  exists st', update_link (E:=E) st w i f = Ok st' /\ frame w st st' /\
    forall j, link_at w st' j = if decide (j = i) then Some (f lk) else link_at w st j.
Proof.
  unfold link_at. destruct (st !! i) as [[m| |u]|] eqn:Hi; try done. intros [= <-].
  unfold update_link, unwrap_unused. rewrite Hi. cbn [mbind outcome_bind unwrap].
  pose proof (lookup_lt_Some _ _ _ Hi) as Hlt.
  eexists. split; [done|]. split.
  - intros j. destruct (decide (i = j)) as [<-|Hne].
    + rewrite Hi, list_lookup_insert_eq by done. cbn. by destruct w, u.
    + by rewrite list_lookup_insert_ne.
  - intros j. destruct (decide (j = i)) as [->|Hne].
    + rewrite list_lookup_insert_eq by done. by destruct w, u.
    + by rewrite list_lookup_insert_ne.
Qed.

Lemma dll_nil w st : dll w st [] llist_default.
Proof. split; [done|done|]. intros [|] ? ? H; discriminate H. Qed.

Lemma snoc_cons_eq xs i A j B :
  xs ++ [i] = A ++ j :: B ->
  (j = i /\ A = xs /\ B = []) \/ exists B', B = B' ++ [i] /\ xs = A ++ j :: B'.
Proof.
  destruct B as [|b B _] using rev_ind.
  - intros [-> [= ->]]%app_inj_tail. by left.
  - rewrite app_comm_cons, app_assoc. intros [-> <-]%app_inj_tail. right. by exists B.
Qed.

(** Appending: the new element's own state is written afterwards. *)
Lemma list_append_ok w st xs l i m :
  dll w st xs l -> NoDup xs -> st !! i = Some (Used m) ->
  exists lk l' st', list_append (E:=E) l i st w = Ok (lk, l', st') /\ frame w st st' /\
    (forall j, j ∉ xs -> link_at w st' j = link_at w st j) /\
    forall st2, link_at w st2 i = Some lk ->
      (forall j, j <> i -> link_at w st2 j = link_at w st' j) -> dll w st2 (xs ++ [i]) l'.
Proof.
  intros [Hh Ht Hl] Hnd Hi. unfold list_append. rewrite Ht.
  assert (Hni : i ∉ xs).
  { intros (A & B & ->)%list_elem_of_split. specialize (Hl _ _ _ eq_refl).
    unfold link_at in Hl. by rewrite Hi in Hl. }
  destruct xs as [|t xs _] using rev_ind.
  - eexists _, _, _. split; [done|]. split; [done|]. split; [done|]. intros st2 Hi2 Hj. split; [done|done|].
    intros A j B Hx. apply (snoc_cons_eq []) in Hx as [(-> & -> & ->)|(B' & _ & Hx)]; [done|].
    by destruct A.
  - rewrite last_snoc. pose proof (Hl xs t [] eq_refl) as Hlt.
    destruct (update_link_ok st w t (set_next (Some i)) _ Hlt) as (st' & -> & Hf & Hst').
    cbn [mbind outcome_bind]. eexists _, _, _. split; [done|]. split; [done|].
    split. { intros j Hj. rewrite Hst', decide_False; [done|]. set_solver. }
    intros st2 Hi2 Hj. split; cbn [head_ tail_].
    + rewrite Hh. by destruct xs.
    + by rewrite last_snoc.
    + intros A j B Hx. apply snoc_cons_eq in Hx as [(-> & -> & ->)|(B' & -> & Hx)].
      * by rewrite last_snoc.
      * rewrite Hj by (intros ->; apply Hni; rewrite Hx; set_solver). rewrite Hst'.
        apply snoc_cons_eq in Hx as [(-> & -> & ->)|(B2 & -> & ->)].
        -- by rewrite decide_True.
        -- rewrite decide_False.
           ++ rewrite (Hl A j (B2 ++ [t])) by (by rewrite <- app_assoc).
              do 2 f_equal. by destruct B2.
           ++ intros ->. apply list.NoDup_app in Hnd as (_ & Hd & _). apply (Hd t); set_solver.
Qed.

(** The link of the successor of a removed element. *)
Lemma relink_next w st A i B l :
  dll w st (A ++ i :: B) l ->
  exists st1,
    (match head B with
     | Some n => st0 ← update_link (E:=E) st w n (set_prev (list.last A)); Ok (tail_ l, st0)
     | None => Ok (list.last A, st)
     end) = Ok (list.last (A ++ B), st1) /\ frame w st st1 /\
    forall j, link_at w st1 j =
      if decide (Some j = head B) then set_prev (list.last A) <$> link_at w st j
      else link_at w st j.
Proof.
  intros [Hh Ht Hl]. destruct B as [|b B]; cbn [head].
  - exists st. rewrite app_nil_r. split_and!; [done|done|]. intros j. by rewrite decide_False.
  - pose proof (Hl (A ++ [i]) b B) as Hb. rewrite <- app_assoc in Hb. specialize (Hb eq_refl).
    destruct (update_link_ok st w b (set_prev (list.last A)) _ Hb) as (st1 & -> & Hf & Hst1).
    cbn [mbind outcome_bind]. exists st1. split_and!; [|done|].
    + rewrite Ht, !last_app. cbn. by destruct (list.last (b :: B)) eqn:Hlast.
    + intros j. rewrite Hst1. destruct (decide (j = b)) as [->|Hne].
      * by rewrite decide_True, Hb.
      * rewrite decide_False by congruence. done.
Qed.

(** The link of the predecessor, after that of the successor. *)
Lemma relink_prev w st st1 A i B l :
  dll w st (A ++ i :: B) l -> frame w st st1 ->
  (forall j, link_at w st1 j =
     if decide (Some j = head B) then set_prev (list.last A) <$> link_at w st j
     else link_at w st j) ->
  exists st2,
    (match list.last A with
     | Some p => st0 ← update_link (E:=E) st1 w p (set_next (head B)); Ok (head_ l, st0)
     | None => Ok (head B, st1)
     end) = Ok (head (A ++ B), st2) /\ frame w st st2 /\
    forall j, link_at w st2 j =
      if decide (Some j = list.last A) then set_next (head B) <$> link_at w st1 j
      else link_at w st1 j.
Proof.
  intros [Hh Ht Hl] Hf1 Hst1. destruct A as [|a A _] using rev_ind; [|rewrite last_snoc in *].
  - exists st1. split_and!; [done|done|]. intros j. by rewrite decide_False.
  - pose proof (Hl A a (i :: B)) as Ha. rewrite <- app_assoc in Ha. specialize (Ha eq_refl).
    assert (Ha1 : exists lk, link_at w st1 a = Some lk).
    { rewrite Hst1, Ha. case_decide; by eexists. }
    destruct Ha1 as [lk Ha1].
    destruct (update_link_ok st1 w a (set_next (head B)) _ Ha1) as (st2 & -> & Hf & Hst2).
    cbn [mbind outcome_bind]. exists st2. split_and!.
    + rewrite Hh. by destruct A.
    + by eapply frame_trans.
    + intros j. rewrite Hst2. destruct (decide (j = a)) as [->|Hne].
      * by rewrite decide_True, Ha1.
      * rewrite decide_False by congruence. done.
Qed.

Lemma relinked_outside w st st1 st2 A i B :
  (forall j, link_at w st1 j =
     if decide (Some j = head B) then set_prev (list.last A) <$> link_at w st j
     else link_at w st j) ->
  (forall j, link_at w st2 j =
      if decide (Some j = list.last A) then set_next (head B) <$> link_at w st1 j
      else link_at w st1 j) ->
  forall j, j ∉ A ++ i :: B -> link_at w st2 j = link_at w st j.
Proof.
  intros H1 H2 j Hj. rewrite H2, H1, !decide_False; [done| |].
  - destruct B as [|b B]; [done|]. intros [= ->]. set_solver.
  - intros Hl. symmetry in Hl. apply last_Some_elem_of in Hl. set_solver.
Qed.

Lemma list_remove_ok w st A i B l :
  dll w st (A ++ i :: B) l -> NoDup (A ++ i :: B) ->
  exists l' st', list_remove (E:=E) l i st w = Ok (l', st') /\ frame w st st' /\
    dll w st' (A ++ B) l' /\
    (forall j, j ∉ A ++ i :: B -> link_at w st' j = link_at w st j).
Proof.
  intros [Hh Ht Hl] Hnd. pose proof (Hl A i B eq_refl) as Hi. unfold list_remove.
  assert (Hst : exists s, unwrap_unused (E:=E) st i = Ok s /\
                  get_link w s = {| prev := list.last A; next := head B |}).
  { unfold link_at in Hi. unfold unwrap_unused. destruct (st !! i) as [[| |u]|]; try done.
    exists u. split; [done|]. by injection Hi. }
  destruct Hst as (s & -> & Hs). cbn [mbind outcome_bind]. rewrite Hs. cbn [prev next].
  destruct (relink_next _ _ _ _ _ _ (Build_dll _ _ _ _ Hh Ht Hl)) as (st1 & Heq1 & Hf1 & Hst1).
  rewrite Heq1. cbn [mbind outcome_bind].
  destruct (relink_prev _ _ st1 _ _ _ _ (Build_dll _ _ _ _ Hh Ht Hl) Hf1 Hst1) as (st2 & Heq2 & Hf2 & Hst2).
  rewrite Heq2. cbn [mbind outcome_bind].
  eexists _, _. split; [done|]. split; [done|]. split; [|by apply (relinked_outside _ _ st1)].
  split; [done|done|]. intros A' j B' Hx. rewrite Hst2, Hst1.
  apply app_eq_app in Hx as (k & [[-> Hk]|[-> ->]]); [destruct k as [|j' k]|].
  - (* [j] is the successor *)
    cbn in Hk. subst B. rewrite app_nil_r in *. cbn [head].
    rewrite decide_False, decide_True; [|done|].
    + rewrite (Hl (A' ++ [i]) j B') by (by rewrite <- app_assoc). done.
    + intros Hlast. symmetry in Hlast. apply last_Some in Hlast as (A2 & ->).
      apply list.NoDup_app in Hnd as (_ & Hd & _). apply (Hd j); set_solver.
  - injection Hk as <- ->. rewrite <- app_assoc in Hl, Hnd. cbn [app] in Hl, Hnd.
    pose proof (Hl _ _ _ eq_refl) as Hj. rewrite Hj.
    rewrite (decide_False (P := Some j = head B)).
    + destruct k as [|j' k].
      * rewrite last_snoc, decide_True by done. done.
      * rewrite decide_False; [done|]. rewrite last_app_cons, last_cons_cons.
        intros Hlast. symmetry in Hlast. apply last_Some in Hlast as (A2 & Hk2).
        apply list.NoDup_app in Hnd as (_ & _ & Hnd). apply list.NoDup_cons in Hnd as [Hnin _].
        apply Hnin. rewrite Hk2. set_solver.
    + destruct B as [|b B]; [done|]. intros [= ->].
      apply list.NoDup_app in Hnd as (_ & _ & Hnd). apply list.NoDup_cons in Hnd as [Hnin _].
      set_solver.
  - pose proof (Hl (A ++ i :: k) j B') as Hj. rewrite <- app_assoc in Hj. specialize (Hj eq_refl).
    rewrite Hj. rewrite decide_False.
    + destruct k as [|j' k].
      * cbn [app head]. rewrite decide_True, app_nil_r by done. done.
      * rewrite decide_False.
        -- by rewrite !last_app_cons, last_cons_cons.
        -- intros [= ->]. apply list.NoDup_app in Hnd as (_ & _ & Hnd).
           apply list.NoDup_cons in Hnd as [_ Hnd]. cbn in Hnd.
           apply list.NoDup_cons in Hnd as [Hnin _]. set_solver.
    + intros Hlast. symmetry in Hlast. apply last_Some in Hlast as (A2 & ->).
      apply list.NoDup_app in Hnd as (_ & Hd & _). apply (Hd j); set_solver.
Qed.
End Lists.

(** ** The abstract pool

    Warm slots in the order they were freed, with the memory each was used for;
    slots in use; and the number of slots ever used. *)

Record Pool := {
  p_max : Z;
  p_total : nat;
  p_cold : nat;
  p_warm : list (SlotId * option MemoryInModule);
  p_used : gmap SlotId (option MemoryInModule)
}.

Abbreviation warm_list := (list (SlotId * option MemoryInModule)).

Definition affine_to (m : MemoryInModule) (W : warm_list) : list SlotId :=
  (filter (fun x => x.2 = Some m) W).*1.

(** The slot an allocation takes: the one freed last for the same memory; then a
    fresh one while few warm slots are unused, otherwise the one freed first. *)
Definition choose (p : Pool) (for_memory : option MemoryInModule) (mode : AllocMode)
  : option SlotId :=
  let cold := if (p_cold p <? p_total p)%nat then Some (p_cold p) else None in
  let oldest := head ((p_warm p).*1) in
  match (m ← for_memory; list.last (affine_to m (p_warm p))) with
  | Some s => Some s
  | None =>
      match mode with
      | ForceAffineAndClear => None
      | AnySlot =>
          if Z.of_nat (length (p_warm p)) <? p_max p
          then match cold with Some s => Some s | None => oldest end
          else match oldest with Some s => Some s | None => cold end
      end
  end.

(** The pool once slot [s] is in use, recorded for [m]. *)
Definition take_slot (p : Pool) (s : SlotId) (m : option MemoryInModule) : Pool :=
  {| p_max := p_max p; p_total := p_total p;
     p_cold := if (s =? p_cold p)%nat then S (p_cold p) else p_cold p;
     p_warm := filter (fun x => x.1 <> s) (p_warm p);
     p_used := <[s := m]> (p_used p) |}.

Definition spec_alloc (p : Pool) (for_memory : option MemoryInModule) (mode : AllocMode)
  : option SlotId * Pool :=
  match choose p for_memory mode with
  | None => (None, p)
  | Some s =>
      (Some s, take_slot p s (match mode with ForceAffineAndClear => None | AnySlot => for_memory end))
  end.

(** The pool once the used slot [s] is freed. *)
Definition give_back (p : Pool) (s : SlotId) (m : option MemoryInModule) : Pool :=
  {| p_max := p_max p; p_total := p_total p; p_cold := p_cold p;
     p_warm := p_warm p ++ [(s, m)]; p_used := delete s (p_used p) |}.

Definition spec_free (p : Pool) (s : SlotId) : option Pool :=
  m ← p_used p !! s;
  Some (give_back p s m).

(** ** The representation of a pool *)

Record states_repr (p : Pool) (st : list SlotState) : Prop := {
  sr_used i m : st !! i = Some (Used m) <-> p_used p !! i = Some m;
  sr_cold i : st !! i = Some UnusedCold <-> (p_cold p <= i < p_total p)%nat;
  sr_warm i a : (exists u, st !! i = Some (UnusedWarm u) /\ affinity u = a) <-> (i, a) ∈ p_warm p;
  sr_len : length st = p_total p
}.

(** The list of each memory, present when it is not empty. *)
Definition affine_repr (W : warm_list) (st : list SlotState) (aff : gmap MemoryInModule LList)
  : Prop :=
  forall m, match aff !! m with
            | Some l => affine_to m W <> [] /\ dll Affine st (affine_to m W) l
            | None => affine_to m W = []
            end.

Record lists_repr (W : warm_list) (st : list SlotState) (w : LList) (aff : gmap MemoryInModule LList)
  : Prop := {
  lr_warm : dll InWarm st W.*1 w;
  lr_affine : affine_repr W st aff
}.

Record repr (p : Pool) (inner : Inner) : Prop := {
  r_states : states_repr p (slot_state inner);
  r_lists : lists_repr (p_warm p) (slot_state inner) (warm inner) (module_affine inner);
  r_nodup : NoDup (p_warm p).*1;
  r_count : unused_warm_slots inner = Z.of_nat (length (p_warm p));
  r_max : max_unused_warm_slots inner = p_max p;
  r_cold : last_cold inner = p_cold p /\ (p_cold p <= p_total p)%nat;
  r_total : Z.of_nat (p_total p) < 2 ^ 32;
  r_nonneg : 0 <= p_max p
}.

Definition pool_new (capacity : nat) (max_unused : Z) : Pool :=
  {| p_max := max_unused; p_total := capacity; p_cold := 0; p_warm := []; p_used := ∅ |}.

Lemma new_repr c mx :
  Z.of_nat c < 2 ^ 32 -> 0 <= mx -> repr (pool_new c mx) (new c mx).
Proof.
  intros Hc Hm. split; cbn; try done; [| |constructor|lia].
  - split; cbn; [| | |apply length_replicate].
    + intros i m. rewrite lookup_empty. split; [|done]. by intros [? _]%lookup_replicate.
    + intros i. rewrite lookup_replicate. split; [|naive_solver lia]. naive_solver lia.
    + intros i a. split; [|set_solver]. intros (u & [? _]%lookup_replicate & _). done.
  - split; [apply dll_nil|]. intros m. by rewrite lookup_empty.
Qed.

(** *** Removing a warm slot *)

Lemma filter_fst_all s (W : warm_list) :
  s ∉ W.*1 -> filter (fun x => x.1 <> s) W = W.
Proof.
  induction W as [|x W IH]; [done|]. rewrite fmap_cons. intros [Hx HX]%not_elem_of_cons.
  rewrite filter_cons_True by congruence. by rewrite IH.
Qed.

Lemma affine_split m (W : warm_list) s a :
  NoDup W.*1 -> (s, a) ∈ W ->
  exists A B, W = A ++ (s, a) :: B /\ filter (fun x => x.1 <> s) W = A ++ B /\
    filter (fun x => x.2 = Some m) W =
      filter (fun x => x.2 = Some m) A ++
      (if decide (a = Some m) then [(s, a)] else []) ++ filter (fun x => x.2 = Some m) B.
Proof.
  intros Hnd (A & B & ->)%list_elem_of_split. exists A, B. split; [done|].
  rewrite fmap_app in Hnd. cbn in Hnd. apply list.NoDup_app in Hnd as (_ & Hd & Hnd).
  apply list.NoDup_cons in Hnd as [Hnin _]. split.
  - rewrite list.filter_app, filter_cons_False by (cbn; tauto).
    rewrite !filter_fst_all; [done|done|]. intros Hin. apply (Hd s); set_solver.
  - rewrite list.filter_app, filter_cons. cbn. by case_decide.
Qed.

Lemma affine_to_app m A B : affine_to m (A ++ B) = affine_to m A ++ affine_to m B.
Proof. unfold affine_to. by rewrite list.filter_app, fmap_app. Qed.

Lemma affine_to_elem m W s : s ∈ affine_to m W <-> (s, Some m) ∈ W.
Proof.
  unfold affine_to. rewrite list_elem_of_fmap. split.
  - intros ([i a] & -> & [Ha Hin]%list_elem_of_filter). cbn in *. by subst.
  - intros Hin. exists (s, Some m). split; [done|]. by apply list_elem_of_filter.
Qed.

Lemma warm_unique (W : warm_list) s m m' :
  NoDup W.*1 -> (s, Some m) ∈ W -> (s, Some m') ∈ W -> m = m'.
Proof.
  intros Hnd (i & Hi)%list_elem_of_lookup (j & Hj)%list_elem_of_lookup.
  assert (i = j) as ->; [|by simplify_eq].
  apply (NoDup_lookup _ i j s Hnd); rewrite list_lookup_fmap; by simplify_option_eq.
Qed.

Lemma NoDup_fst_filter (P : SlotId * option MemoryInModule -> Prop)
    `{forall x, Decision (P x)} (W : warm_list) :
  NoDup W.*1 -> NoDup (filter P W).*1.
Proof.
  induction W as [|x W IH]; [done|]. rewrite fmap_cons.
  intros [Hi HW]%list.NoDup_cons. rewrite filter_cons. case_decide; [|by apply IH].
  rewrite fmap_cons. apply list.NoDup_cons. split; [|by apply IH].
  intros (y & Hy & [_ Hin]%list_elem_of_filter)%list_elem_of_fmap. apply Hi.
  apply list_elem_of_fmap. by exists y.
Qed.

Lemma affine_to_NoDup m W : NoDup W.*1 -> NoDup (affine_to m W).
Proof. apply NoDup_fst_filter. Qed.

Lemma states_repr_frame w p st st' : frame w st st' -> states_repr p st -> states_repr p st'.
Proof.
  intros Hf [Hu Hc Hw Hl]. pose proof (frame_sym _ _ _ Hf) as Hf'.
  split.
  - intros i m. rewrite <- Hu. split; intros H.
    + apply (frame_lookup _ _ _ _ _ Hf' H).
    + apply (frame_lookup _ _ _ _ _ Hf H).
  - intros i. rewrite <- Hc. split; intros H.
    + apply (frame_lookup _ _ _ _ _ Hf' H).
    + apply (frame_lookup _ _ _ _ _ Hf H).
  - intros i a. rewrite <- Hw. split; intros (u & H & <-).
    + destruct (frame_lookup _ _ _ _ _ Hf' H) as (u' & ? & ? & _). by exists u'.
    + destruct (frame_lookup _ _ _ _ _ Hf H) as (u' & ? & ? & _). by exists u'.
  - by rewrite (frame_length _ _ _ Hf).
Qed.

Lemma affine_repr_ext W st st' aff :
  (forall i, i ∈ W.*1 -> link_at Affine st' i = link_at Affine st i) ->
  affine_repr W st aff -> affine_repr W st' aff.
Proof.
  intros Hlink Ha m. specialize (Ha m). destruct (aff !! m) as [l|]; [|done].
  destruct Ha as [? Hd]. split; [done|]. eapply dll_ext; [|exact Hd].
  intros i Hi%affine_to_elem. apply Hlink, list_elem_of_fmap. by exists (i, Some m).
Qed.

Lemma warm_length p st :
  states_repr p st -> NoDup (p_warm p).*1 -> (length (p_warm p) <= p_total p)%nat.
Proof.
  intros Hst Hnd. rewrite <- (length_fmap fst), <- (length_seq (p_total p) 0).
  apply NoDup_incl_length; [by apply NoDup_ListNoDup|].
  intros i Hi%list_elem_of_In. apply list_elem_of_fmap in Hi as ([i' b] & -> & Hi).
  apply Hst in Hi as (u & Hi & _). apply lookup_lt_Some in Hi. rewrite (sr_len _ _ Hst) in Hi.
  apply in_seq. cbn. lia.
Qed.

(** Marking a free slot used. *)
Lemma take_states p st s m :
  states_repr p st -> (forall k, st !! s <> Some (Used k)) -> (s < p_total p)%nat ->
  (s = p_cold p \/ exists a, (s, a) ∈ p_warm p) ->
  states_repr (take_slot p s m) (<[s := Used m]> st).
Proof.
  intros [Hu Hc Hw Hl] Hnu Hs Hfree.
  assert (Hcold : s = p_cold p <-> st !! s = Some UnusedCold).
  { rewrite Hc. split; [lia|]. intros Hle. destruct Hfree as [->|[a Ha]]; [lia|].
    apply Hw in Ha as (u & Hu' & _). assert (st !! s = Some UnusedCold) by (by apply Hc). congruence. }
  split; cbn [take_slot p_used p_cold p_total p_warm].
  - intros i k. destruct (decide (s = i)) as [<-|Hne].
    + rewrite lookup_insert_eq, list_lookup_insert_eq by lia. naive_solver.
    + rewrite lookup_insert_ne, list_lookup_insert_ne by done. apply Hu.
  - intros i. destruct (decide (s = i)) as [<-|Hne].
    + rewrite list_lookup_insert_eq by lia. split; [done|]. intros Hi.
      destruct (Nat.eqb_spec s (p_cold p)) as [He|He]; [lia|].
      exfalso. apply He, Hcold, Hc. lia.
    + rewrite list_lookup_insert_ne, Hc by done.
      destruct (Nat.eqb_spec s (p_cold p)) as [He|He]; [lia|done].
  - intros i a. rewrite list_elem_of_filter. cbn. destruct (decide (s = i)) as [<-|Hne].
    + rewrite list_lookup_insert_eq by lia. split; [|tauto]. intros (u & Hu' & _). done.
    + rewrite list_lookup_insert_ne, Hw by done. naive_solver.
  - by rewrite length_insert.
Qed.

Lemma take_lists W st s m w aff :
  s ∉ W.*1 -> lists_repr W st w aff -> lists_repr W (<[s := Used m]> st) w aff.
Proof.
  intros Hs [Hw Ha].
  assert (Hlink : forall k i, i ∈ W.*1 -> link_at k (<[s := Used m]> st) i = link_at k st i).
  { intros k i Hi. unfold link_at. rewrite list_lookup_insert_ne; [done|]. intros ->. done. }
  split; [eapply dll_ext; [|exact Hw]; by apply Hlink|].
  eapply affine_repr_ext; [|exact Ha]. by apply Hlink.
Qed.

Lemma free_states p st s u :
  states_repr p st -> st !! s = Some (Used (affinity u)) ->
  states_repr (give_back p s (affinity u)) (<[s := UnusedWarm u]> st).
Proof.
  intros [Hu Hc Hw Hl] Hs. pose proof (lookup_lt_Some _ _ _ Hs) as Hlt.
  split; cbn [give_back p_used p_cold p_total p_warm].
  - intros i k. destruct (decide (s = i)) as [<-|Hne].
    + rewrite lookup_delete_eq, list_lookup_insert_eq by lia. naive_solver.
    + rewrite lookup_delete_ne, list_lookup_insert_ne by done. apply Hu.
  - intros i. destruct (decide (s = i)) as [<-|Hne].
    + rewrite list_lookup_insert_eq by lia. split; [done|]. intros Hi%Hc. congruence.
    + by rewrite list_lookup_insert_ne, Hc by done.
  - intros i a. rewrite list.elem_of_app, list_elem_of_singleton.
    destruct (decide (s = i)) as [<-|Hne].
    + rewrite list_lookup_insert_eq by lia. split.
      * intros (u' & [= <-] & <-). by right.
      * intros [Hin|[= ->]]; [|by exists u]. apply Hw in Hin as (u' & Hu' & _). congruence.
    + rewrite list_lookup_insert_ne, Hw by done. naive_solver.
  - by rewrite length_insert.
Qed.

Lemma used_not_warm p st s m : states_repr p st -> st !! s = Some (Used m) -> s ∉ (p_warm p).*1.
Proof.
  intros Hst Hs ([i a] & -> & Hin)%list_elem_of_fmap.
  apply (sr_warm _ _ Hst) in Hin as (u & Hu & _). cbn in *. congruence.
Qed.

Section Steps.
  Context {E : Type} (oc dbg : bool).
  Implicit Types (p : Pool) (inner : Inner).

Lemma remove_ok p inner s a :
  repr p inner -> (s, a) ∈ p_warm p ->
  exists inner', remove (E:=E) oc inner s = Ok inner' /\
    states_repr p (slot_state inner') /\
    lists_repr (filter (fun x => x.1 <> s) (p_warm p)) (slot_state inner') (warm inner')
      (module_affine inner') /\
    unused_warm_slots inner' = Z.of_nat (length (p_warm p)) - 1 /\
    max_unused_warm_slots inner' = p_max p /\ last_cold inner' = last_cold inner.
Proof.
  intros [Hst [Hw Haff] Hnd Hcnt Hmax _ Htot _] Hin. unfold remove.
  pose proof (warm_length p _ Hst Hnd) as Hlen.
  assert (0 < length (p_warm p))%nat by (destruct (p_warm p); [set_solver|cbn; lia]).
  rewrite Hcnt, arith_ok by (unfold in_u; lia). cbn [mbind outcome_bind].
  destruct (affine_split (0, 0) (p_warm p) s a Hnd Hin) as (A & B & HW & Hf & _).
  rewrite HW, fmap_app in Hw, Hnd. cbn in Hw, Hnd.
  destruct (list_remove_ok (E:=E) _ _ _ _ _ _ Hw Hnd) as (w' & st1 & -> & Hf1 & Hw1 & _).
  cbn [mbind outcome_bind]. pose proof (states_repr_frame _ _ _ _ Hf1 Hst) as Hst1.
  destruct (proj2 (sr_warm _ _ Hst1 s a) Hin) as (u & Hu & Ha).
  unfold unwrap_unused at 1. rewrite Hu. cbn [mbind outcome_bind unwrap]. rewrite Ha.
  assert (Haff1 : affine_repr (p_warm p) st1 (module_affine inner)).
  { eapply affine_repr_ext; [|exact Haff]. intros i _. apply (link_at_frame InWarm _ _ _ Hf1). }
  assert (Hne : forall m, a <> Some m ->
    affine_to m (filter (fun x => x.1 <> s) (p_warm p)) = affine_to m (p_warm p)).
  { intros m Hm. rewrite Hf, HW, !affine_to_app. unfold affine_to at 4.
    by rewrite filter_cons_False by done. }
  destruct a as [m|].
  - (* the slot is also on the list of its memory *)
    pose proof (Haff1 m) as Hm.
    assert (Hsplit : affine_to m (p_warm p) = affine_to m A ++ s :: affine_to m B).
    { rewrite HW, affine_to_app. f_equal. unfold affine_to at 1. by rewrite filter_cons_True. }
    destruct (module_affine inner !! m) as [l|] eqn:Hl.
    2: { rewrite Hsplit in Hm. by destruct (affine_to m A). }
    destruct Hm as [_ Hd]. rewrite Hsplit in Hd.
    assert (Hnd' : NoDup (affine_to m A ++ s :: affine_to m B)).
    { rewrite <- Hsplit. apply affine_to_NoDup. by rewrite HW, fmap_app. }
    cbn [mbind outcome_bind unwrap].
    destruct (list_remove_ok (E:=E) _ _ _ _ _ _ Hd Hnd') as (l' & st2 & -> & Hf2 & Hd2 & Hout).
    cbn [mbind outcome_bind]. eexists. split; [done|].
    cbn [slot_state warm module_affine unused_warm_slots max_unused_warm_slots last_cold].
    split_and!; [by apply (states_repr_frame _ _ _ _ Hf2)| |done|done|done].
    rewrite <- affine_to_app, <- Hf in Hd2. split.
    + rewrite Hf, fmap_app. eapply dll_ext; [|exact Hw1].
      intros i _. apply (link_at_frame Affine _ _ _ Hf2).
    + intros m'. destruct (decide (m' = m)) as [->|Hmm].
      * destruct (head_ l') as [h|] eqn:Hh; rewrite (dll_head _ _ _ _ Hd2) in Hh.
        -- rewrite lookup_insert_eq. split; [|done]. intros Hnil. by rewrite Hnil in Hh.
        -- rewrite lookup_delete_eq.
           by destruct (affine_to m (filter _ (p_warm p))).
      * rewrite Hne by congruence. specialize (Haff1 m').
        replace (match head_ l' with Some _ => _ | None => _ end !! m')
          with (module_affine inner !! m')
          by (destruct (head_ l'); by rewrite ?lookup_insert_ne, ?lookup_delete_ne).
        destruct (module_affine inner !! m') as [l0|]; [|done].
        destruct Haff1 as [? Hd0]. split; [done|]. eapply dll_ext; [|exact Hd0].
        intros i Hi%affine_to_elem. apply Hout. rewrite <- Hsplit.
        intros Hi'%affine_to_elem. apply Hmm. eapply (warm_unique (p_warm p)); [|done|done].
        by rewrite HW, fmap_app.
  - cbn [mbind outcome_bind]. eexists. split; [done|].
    cbn [slot_state warm module_affine unused_warm_slots max_unused_warm_slots last_cold].
    split_and!; [done| |done|done|done]. split.
    + by rewrite Hf, fmap_app.
    + intros m. rewrite Hne by done. apply Haff1.
Qed.

(** A state in which slot [s] was taken off the free lists but is not marked. *)
Record picked p (s : SlotId) inner : Prop := {
  pk_states : states_repr p (slot_state inner);
  pk_lists : lists_repr (filter (fun x => x.1 <> s) (p_warm p)) (slot_state inner) (warm inner)
               (module_affine inner);
  pk_count : unused_warm_slots inner =
               Z.of_nat (length (filter (fun x => x.1 <> s) (p_warm p)));
  pk_max : max_unused_warm_slots inner = p_max p;
  pk_cold : last_cold inner = if (s =? p_cold p)%nat then S (p_cold p) else p_cold p;
  pk_free : (s = p_cold p /\ (s < p_total p)%nat) \/ exists a, (s, a) ∈ p_warm p
}.

Lemma warm_state p st s a :
  states_repr p st -> (s, a) ∈ p_warm p ->
  (s < p_total p)%nat /\ s <> p_cold p /\ forall k, st !! s <> Some (Used k).
Proof.
  intros Hst Hin. apply (sr_warm _ _ Hst) in Hin as (u & Hu & _).
  pose proof (lookup_lt_Some _ _ _ Hu) as Hlt. rewrite (sr_len _ _ Hst) in Hlt.
  split_and!; [done| |congruence]. intros ->.
  assert (st !! p_cold p = Some UnusedCold) by (apply (sr_cold _ _ Hst); lia). congruence.
Qed.

Lemma mark_ok p inner s m inner1 :
  repr p inner -> picked p s inner1 ->
  (s < length (slot_state inner1))%nat /\
  repr (take_slot p s m) (with_slots inner1 (<[s := Used m]> (slot_state inner1))).
Proof.
  intros [_ _ Hnd _ _ [_ Hct] Htot Hnn] [Hst Hls Hcnt Hmax Hcold Hfree].
  assert (Hs : (s < p_total p)%nat /\ forall k, slot_state inner1 !! s <> Some (Used k)).
  { destruct Hfree as [[-> Hlt]|[a Ha]].
    - split; [done|]. intros k. rewrite (proj2 (sr_cold _ _ Hst _)) by lia. done.
    - by destruct (warm_state _ _ _ _ Hst Ha) as (? & _ & ?). }
  destruct Hs as [Hs Hnu]. split; [by rewrite (sr_len _ _ Hst)|].
  split; cbn [with_slots slot_state warm module_affine unused_warm_slots max_unused_warm_slots
              last_cold take_slot p_warm p_max p_total p_cold]; try done.
  - apply take_states; [done|done|done|]. destruct Hfree as [[? _]|?]; auto.
  - apply take_lists; [|done]. intros ([i a] & -> & [Hx _]%list_elem_of_filter)%list_elem_of_fmap. done.
  - by apply NoDup_fst_filter.
  - split; [done|]. destruct (Nat.eqb_spec s (p_cold p)); lia.
Qed.

Lemma pick_warm_slot p inner s a :
  repr p inner -> (s, a) ∈ p_warm p ->
  exists inner1, remove (E:=E) oc inner s = Ok inner1 /\ picked p s inner1.
Proof.
  intros Hr Hin. pose proof Hr as [Hst0 _ Hnd _ _ [Hcold _] _ _].
  destruct (remove_ok p inner s a Hr Hin) as (inner1 & Hok & Hst & Hls & Hcnt & Hmax & Hc).
  exists inner1. split; [done|]. split; [done|done| |done| |eauto].
  - rewrite Hcnt. destruct (affine_split (0, 0) _ _ _ Hnd Hin) as (A & B & HW & -> & _).
    rewrite HW, !length_app. cbn. lia.
  - destruct (warm_state _ _ _ _ Hst Hin) as (_ & Hne & _).
    rewrite Hc, Hcold. by destruct (Nat.eqb_spec s (p_cold p)).
Qed.

Lemma pick_cold_ok p inner :
  repr p inner ->
  if (p_cold p <? p_total p)%nat
  then exists inner1, pick_cold (E:=E) oc inner = Ok (Some (p_cold p), inner1) /\
         picked p (p_cold p) inner1
  else pick_cold (E:=E) oc inner = Ok (None, inner).
Proof.
  intros [Hst Hls Hnd Hcnt Hmax [Hcold Hle] Htot Hnn]. unfold pick_cold.
  rewrite Hcold, (sr_len _ _ Hst). destruct (Nat.ltb_spec (p_cold p) (p_total p)) as [Hlt|Hge].
  - rewrite (proj2 (Nat.eqb_neq _ _)) by lia. rewrite arith_ok by (unfold in_u; lia).
    cbn [mbind outcome_bind]. eexists. split; [done|].
    assert (Hid : filter (fun x => x.1 <> p_cold p) (p_warm p) = p_warm p).
    { apply filter_fst_all. intros ([i a] & Hi & Hin)%list_elem_of_fmap.
      apply (warm_state _ _ _ _ Hst) in Hin as (_ & Hne & _). by subst. }
    split; cbn [slot_state warm module_affine unused_warm_slots max_unused_warm_slots last_cold];
      rewrite ?Hid; auto.
    rewrite Nat.eqb_refl. lia.
  - by rewrite (proj2 (Nat.eqb_eq _ _)) by lia.
Qed.

(** A step of the search for a slot gives [o]: the slot is taken off the lists,
    or the state is as before. *)
Definition finds p inner (r : outcome E (option SlotId * Inner)) (o : option SlotId) : Prop :=
  match o with
  | Some s => exists inner1, r = Ok (Some s, inner1) /\ picked p s inner1
  | None => r = Ok (None, inner)
  end.

Lemma or_else_finds p inner r k o o' :
  finds p inner r o -> (o = None -> finds p inner (k inner) o') ->
  finds p inner (or_else r k) (match o with Some s => Some s | None => o' end).
Proof.
  unfold finds, or_else. destruct o as [s|].
  - intros (inner1 & -> & Hp) _. by exists inner1.
  - intros -> Hk. by apply Hk.
Qed.

Lemma remove_finds p inner s a :
  repr p inner -> (s, a) ∈ p_warm p ->
  finds p inner (inner' ← remove oc inner s; Ok (Some s, inner')) (Some s).
Proof.
  intros Hr Hin. destruct (pick_warm_slot p inner s a Hr Hin) as (inner1 & -> & Hp).
  by exists inner1.
Qed.

Lemma pick_affine_finds p inner fm :
  repr p inner ->
  finds p inner (pick_affine oc inner fm) (m ← fm; list.last (affine_to m (p_warm p))).
Proof.
  intros Hr. unfold pick_affine. destruct fm as [m|]; [|done]. cbn [mbind option_bind].
  pose proof (lr_affine _ _ _ _ (r_lists _ _ Hr) m) as Hm.
  destruct (module_affine inner !! m) as [l|]; [|by rewrite Hm].
  destruct Hm as [_ [_ Ht _]]. cbn [mbind option_bind]. rewrite Ht.
  destruct (list.last (affine_to m (p_warm p))) as [s|] eqn:Hl; [|done].
  apply (remove_finds _ _ _ (Some m) Hr). apply affine_to_elem. by apply last_Some_elem_of.
Qed.

Lemma pick_warm_finds p inner :
  repr p inner -> finds p inner (pick_warm oc inner) (head (p_warm p).*1).
Proof.
  intros Hr. unfold pick_warm. rewrite (dll_head _ _ _ _ (lr_warm _ _ _ _ (r_lists _ _ Hr))).
  destruct (p_warm p) as [|[s a] W] eqn:HW; [done|]. cbn [fmap list_fmap head fst].
  apply (remove_finds _ _ _ a Hr). rewrite HW. set_solver.
Qed.

Lemma pick_cold_finds p inner :
  repr p inner ->
  finds p inner (pick_cold oc inner) (if (p_cold p <? p_total p)%nat then Some (p_cold p) else None).
Proof. intros Hr. pose proof (pick_cold_ok p inner Hr) as H. by destruct (_ <? _)%nat. Qed.

Lemma slot_alloc_ok p inner fm mode :
  repr p inner ->
  exists inner', alloc_ (E:=E) oc dbg inner fm mode = Ok ((spec_alloc p fm mode).1, inner') /\
    repr (spec_alloc p fm mode).2 inner'.
Proof.
  intros Hr. unfold alloc_.
  assert (Hf : finds p inner
    (or_else (pick_affine oc inner fm) (fun inner =>
      match mode with
      | AnySlot =>
          if unused_warm_slots inner <? max_unused_warm_slots inner
          then or_else (pick_cold oc inner) (pick_warm oc)
          else or_else (pick_warm oc inner) (fun inner =>
                 debug_assert dbg (max_unused_warm_slots inner =? 0);; pick_cold oc inner)
      | ForceAffineAndClear => Ok (None, inner)
      end)) (choose p fm mode)).
  { unfold choose. apply or_else_finds; [by apply pick_affine_finds|]. intros _.
    destruct mode; [done|]. rewrite (r_count _ _ Hr), (r_max _ _ Hr).
    destruct (_ <? p_max p) eqn:Hlt.
    - apply or_else_finds; [by apply pick_cold_finds|]. intros _. by apply pick_warm_finds.
    - apply or_else_finds; [by apply pick_warm_finds|]. intros Hn.
      rewrite debug_assert_true; [by apply pick_cold_finds|]. zbool.
      rewrite (r_max _ _ Hr). pose proof (r_nonneg _ _ Hr).
      destruct (p_warm p); [|done]. cbn in Hlt. apply Z.eqb_eq. lia. }
  unfold finds in Hf. unfold spec_alloc. destruct (choose p fm mode) as [s|].
  - destruct Hf as (inner1 & -> & Hp). cbn [mbind outcome_bind].
    destruct (mark_ok p inner s (match mode with ForceAffineAndClear => None | AnySlot => fm end)
                inner1 Hr Hp) as [Hlt Hr'].
    rewrite (proj2 (Nat.ltb_lt _ _) Hlt). cbn [assert_ mbind outcome_bind]. eauto.
  - rewrite Hf. cbn [mbind outcome_bind]. eauto.
Qed.

(** The affine list of the freed slot's memory. *)
Lemma free_affine W st aff s m :
  affine_repr W st aff -> NoDup W.*1 -> s ∉ W.*1 -> (exists k, st !! s = Some (Used k)) ->
  exists al aff' st2,
    (match m with
     | None => Ok (link_default, aff, st)
     | Some m =>
         match aff !! m with
         | Some l =>
             '(lk, l', st') ← list_append (E:=E) l s st Affine;
             Ok (lk, <[m := l']> aff, st')
         | None => Ok (link_default, <[m := list_new s]> aff, st)
         end
     end) = Ok (al, aff', st2) /\ frame Affine st st2 /\
    forall st3, link_at Affine st3 s = Some al ->
      (forall j, j <> s -> link_at Affine st3 j = link_at Affine st2 j) ->
      affine_repr (W ++ [(s, m)]) st3 aff'.
Proof.
  intros Haff Hnd Hs [k0 Hk0].
  assert (Hns : forall k j, j ∈ affine_to k W -> j <> s).
  { intros k j Hj%affine_to_elem ->. apply Hs, list_elem_of_fmap. by exists (s, Some k). }
  assert (Hkeep : forall st2 st3 k, m <> Some k ->
    (forall j, j ∈ affine_to k W -> link_at Affine st2 j = link_at Affine st j) ->
    (forall j, j <> s -> link_at Affine st3 j = link_at Affine st2 j) ->
    match aff !! k with
    | Some l => affine_to k (W ++ [(s, m)]) <> [] /\ dll Affine st3 (affine_to k (W ++ [(s, m)])) l
    | None => affine_to k (W ++ [(s, m)]) = []
    end).
  { intros st2 st3 k Hne H2 H3. specialize (Haff k).
    replace (affine_to k (W ++ [(s, m)])) with (affine_to k W).
    2: { rewrite affine_to_app. unfold affine_to at 3. rewrite filter_cons_False by done.
         by rewrite app_nil_r. }
    destruct (aff !! k) as [l|]; [|done]. destruct Haff as [? Hd]. split; [done|].
    eapply dll_ext; [|exact Hd]. intros j Hj. rewrite H3 by (by eapply Hns). by apply H2. }
  destruct m as [m|].
  2: { eexists _, _, _. split; [done|]. split; [done|]. intros st3 _ H3 k. by apply (Hkeep st). }
  assert (Hself : affine_to m (W ++ [(s, Some m)]) = affine_to m W ++ [s]).
  { rewrite affine_to_app. f_equal. unfold affine_to. by rewrite filter_cons_True. }
  pose proof (Haff m) as Hm. destruct (aff !! m) as [l|] eqn:Hl.
  - destruct Hm as [_ Hd].
    destruct (list_append_ok (E:=E) _ _ _ _ s k0 Hd (affine_to_NoDup _ _ Hnd) Hk0)
      as (lk & l' & st2 & -> & Hf & Hout & Hdll).
    cbn [mbind outcome_bind]. eexists _, _, _. split; [done|]. split; [done|].
    intros st3 Hs3 H3 k. destruct (decide (k = m)) as [->|Hne].
    + rewrite lookup_insert_eq, Hself. split; [by destruct (affine_to m W)|]. by apply Hdll.
    + rewrite lookup_insert_ne by done. apply (Hkeep st2); [congruence| |done].
      intros j Hj. apply Hout. intros Hj'. apply Hne.
      apply affine_to_elem in Hj, Hj'. by eapply warm_unique.
  - eexists _, _, _. split; [done|]. split; [done|]. intros st3 Hs3 H3 k.
    destruct (decide (k = m)) as [->|Hne].
    + rewrite lookup_insert_eq, Hself, Hm. split; [done|]. split; [done|done|].
      intros A i B Hx. apply (snoc_cons_eq []) in Hx as [(-> & -> & ->)|(B' & _ & Hx)]; [done|].
      by destruct A.
    + rewrite lookup_insert_ne by done. apply (Hkeep st); [congruence|done|done].
Qed.

Lemma slot_free_ok p inner s m :
  repr p inner -> p_used p !! s = Some m ->
  exists inner', free (E:=E) oc inner s = Ok inner' /\ repr (give_back p s m) inner'.
Proof.
  intros Hr Hs. pose proof Hr as [Hst [Hw Haff] Hnd Hcnt Hmax [Hc Hle] Htot Hnn].
  apply (sr_used _ _ Hst) in Hs. pose proof (used_not_warm _ _ _ _ Hst Hs) as Hnw.
  assert (Hnd' : NoDup (p_warm (give_back p s m)).*1).
  { cbn. rewrite fmap_app. apply list.NoDup_app. split_and!; [done| |apply list.NoDup_singleton].
    intros i Hi Hi'. cbn in Hi'. apply list_elem_of_singleton in Hi' as ->. done. }
  unfold free. rewrite Hs. cbn [mbind outcome_bind unwrap].
  pose proof (warm_length _ _ (free_states p _ s {| affinity := m; affine_list_link := link_default;
    unused_list_link := link_default |} Hst Hs) Hnd') as Hlen.
  cbn in Hlen. rewrite length_app in Hlen. cbn in Hlen.
  rewrite Hcnt, arith_ok by (unfold in_u; lia). cbn [mbind outcome_bind].
  destruct (list_append_ok (E:=E) _ _ _ _ s m Hw Hnd Hs) as (ul & w' & st1 & -> & Hf1 & _ & Hdw).
  cbn [mbind outcome_bind].
  pose proof (frame_lookup _ _ _ _ _ Hf1 Hs) as Hs1. cbn in Hs1.
  assert (Haff1 : affine_repr (p_warm p) st1 (module_affine inner)).
  { eapply affine_repr_ext; [|exact Haff]. intros i _. apply (link_at_frame InWarm _ _ _ Hf1). }
  destruct (free_affine (p_warm p) st1 (module_affine inner) s m Haff1 Hnd Hnw)
    as (al & aff' & st2 & Heq & Hf2 & Hda); [by exists m|].
  rewrite Heq. cbn [mbind outcome_bind]. eexists. split; [done|].
  pose proof (frame_lookup _ _ _ _ _ Hf2 Hs1) as Hs2. cbn in Hs2.
  set (u := {| affinity := m; affine_list_link := al; unused_list_link := ul |}).
  assert (Hself : forall k, link_at k (<[s := UnusedWarm u]> st2) s = Some (get_link k u)).
  { intros k. unfold link_at. rewrite list_lookup_insert_eq; [done|]. by eapply lookup_lt_Some. }
  assert (Hothers : forall k j, j <> s -> link_at k (<[s := UnusedWarm u]> st2) j = link_at k st2 j).
  { intros k j Hne. unfold link_at. by rewrite list_lookup_insert_ne. }
  split; cbn [slot_state warm module_affine unused_warm_slots max_unused_warm_slots last_cold];
    try done.
  - apply (free_states p st2 s u); [|done].
    by apply (states_repr_frame _ _ _ _ Hf2), (states_repr_frame _ _ _ _ Hf1).
  - split.
    + cbn [give_back p_warm]. rewrite fmap_app. apply Hdw; [apply (Hself InWarm)|].
      intros j Hne. rewrite Hothers by done. apply (link_at_frame Affine _ _ _ Hf2).
    + apply Hda; [apply (Hself Affine)|]. intros j Hne. by apply Hothers.
  - cbn. rewrite length_app. cbn. lia.
Qed.
End Steps.

(** ** Runs *)

Inductive pool_call :=
| CallAlloc (for_memory : option MemoryInModule)
| CallClear (module_id memory_index : Z)
| CallFree (s : SlotId).

Section Runs.
  Context {E : Type} (oc dbg : bool).

Definition do_call (inner : Inner) (c : pool_call) : outcome E (option SlotId * Inner) :=
  match c with
  | CallAlloc fm => alloc oc dbg inner fm
  | CallClear m i => alloc_affine_and_clear_affinity oc dbg inner m i
  | CallFree s => inner' ← free oc inner s; Ok (None, inner')
  end.

Fixpoint run (inner : Inner) (l : list pool_call) : outcome E (list (option SlotId) * Inner) :=
  match l with
  | [] => Ok ([], inner)
  | c :: l' =>
      '(r, inner1) ← do_call inner c;
      '(rs, inner2) ← run inner1 l';
      Ok (r :: rs, inner2)
  end.

(** The same calls on the abstract pool; [None] for a panic. *)
Definition spec_call (p : Pool) (c : pool_call) : option (option SlotId * Pool) :=
  match c with
  | CallAlloc fm => Some (spec_alloc p fm AnySlot)
  | CallClear m i => Some (spec_alloc p (Some (m, i)) ForceAffineAndClear)
  | CallFree s => p' ← spec_free p s; Some (None, p')
  end.

Fixpoint spec_run (p : Pool) (l : list pool_call) : option (list (option SlotId) * Pool) :=
  match l with
  | [] => Some ([], p)
  | c :: l' =>
      '(r, p1) ← spec_call p c;
      '(rs, p2) ← spec_run p1 l';
      Some (r :: rs, p2)
  end.

Lemma free_unused p inner s :
  repr p inner -> p_used p !! s = None -> free (E:=E) oc inner s = Panic.
Proof.
  intros Hr Hs. unfold free. destruct (slot_state inner !! s) as [[m| |u]|] eqn:Hst; try done.
  apply (sr_used _ _ (r_states _ _ Hr)) in Hst. congruence.
Qed.

Lemma run_refines p inner l :
  repr p inner ->
  match spec_run p l with
  | Some (rs, p') => exists inner', run inner l = Ok (rs, inner') /\ repr p' inner'
  | None => run inner l = Panic
  end.
Proof.
  revert p inner. induction l as [|c l IH]; intros p inner Hr; cbn [run spec_run]; [eauto|].
  assert (Hstep : match spec_call p c with
    | Some (r, p1) => exists inner1, do_call inner c = Ok (r, inner1) /\ repr p1 inner1
    | None => do_call inner c = Panic end).
  { destruct c as [fm|m i|s]; cbn [spec_call do_call].
    - pose proof (slot_alloc_ok (E:=E) oc dbg p inner fm AnySlot Hr) as H. by destruct (spec_alloc _ _ _).
    - pose proof (slot_alloc_ok (E:=E) oc dbg p inner (Some (m, i)) ForceAffineAndClear Hr) as H.
      by destruct (spec_alloc _ _ _).
    - unfold spec_free. destruct (p_used p !! s) as [m|] eqn:Hs; cbn [mbind option_bind].
      + destruct (slot_free_ok (E:=E) oc p inner s m Hr Hs) as (inner' & -> & Hr'). eauto.
      + by rewrite (free_unused p). }
  destruct (spec_call p c) as [[r p1]|]; cbn [mbind option_bind].
  - destruct Hstep as (inner1 & -> & Hr1). specialize (IH p1 inner1 Hr1). cbn [mbind outcome_bind].
    destruct (spec_run p1 l) as [[rs p2]|]; cbn [mbind option_bind].
    + destruct IH as (inner2 & -> & Hr2). cbn [mbind outcome_bind]. eauto.
    + by rewrite IH.
  - by rewrite Hstep.
Qed.

Lemma is_empty_repr p inner : repr p inner -> is_empty inner = bool_decide (p_used p = ∅).
Proof.
  intros Hr. unfold is_empty. destruct (existsb _ _) eqn:He; symmetry; cbn [negb].
  - apply existsb_exists in He as (s & Hin & Hs). apply list_elem_of_In, list_elem_of_lookup in Hin as [i Hi].
    destruct s as [m| |]; try done. apply bool_decide_eq_false. intros Hem.
    apply (sr_used _ _ (r_states _ _ Hr)) in Hi. by rewrite Hem in Hi.
  - apply bool_decide_eq_true, map_empty. intros i. apply eq_None_not_Some. intros [m Hm].
    apply (sr_used _ _ (r_states _ _ Hr)) in Hm.
    assert (existsb (fun s => match s with Used _ => true | _ => false end) (slot_state inner) = true).
    { apply existsb_exists. exists (Used m). split; [|done].
      apply list_elem_of_In, list_elem_of_lookup. by exists i. }
    congruence.
Qed.

(** C28: The allocator with its intrusive doubly linked lists behaves, on every
    sequence of calls, as the pool that keeps the freed slots in one list: it
    returns the same slots, panics exactly when a slot that is not in use is
    freed, and [is_empty] says whether no slot is in use.  No list operation
    reaches a slot that is not warm, and no counter overflows. *)
Theorem index_allocator_refines c mx l (Hc : Z.of_nat c < 2 ^ 32) (Hm : 0 <= mx) :
  match spec_run (pool_new c mx) l with
  | Some (rs, p) =>
      exists inner, run (new c mx) l = Ok (rs, inner) /\
        is_empty inner = bool_decide (p_used p = ∅) /\ len inner = c
  | None => run (new c mx) l = Panic
  end.
Proof.
  pose proof (run_refines _ _ l (new_repr c mx Hc Hm)) as H.
  destruct (spec_run (pool_new c mx) l) as [[rs p]|] eqn:Hs; [|done].
  destruct H as (inner & Hrun & Hr). exists inner. split_and!; [done|by apply is_empty_repr|].
  unfold len. rewrite (sr_len _ _ (r_states _ _ Hr)). clear Hrun Hr Hm Hc.
  enough (Hk : forall p0, spec_run p0 l = Some (rs, p) -> p_total p = p_total p0) by (by apply Hk in Hs).
  clear Hs. revert rs. induction l as [|c0 l IH]; intros rs p0 H; cbn in H; [by simplify_eq|].
  destruct (spec_call p0 c0) as [[r p1]|] eqn:Hc0; [|done]. cbn in H.
  destruct (spec_run p1 l) as [[rs' p2]|] eqn:Hl; [|done]. cbn in H. simplify_eq.
  rewrite (IH _ _ Hl). unfold spec_call, spec_alloc, spec_free in Hc0.
  destruct c0; cbn in Hc0; repeat case_match; simplify_option_eq; done.
Qed.

Lemma choose_free p fm mode s :
  choose p fm mode = Some s ->
  (s = p_cold p /\ (s < p_total p)%nat) \/ exists a, (s, a) ∈ p_warm p.
Proof.
  unfold choose. intros H.
  assert (Hold : forall s, head (p_warm p).*1 = Some s -> exists a, (s, a) ∈ p_warm p).
  { intros s'. destruct (p_warm p) as [|[i a] W]; [done|]. intros [= <-]. exists a. set_solver. }
  destruct fm as [m|]; cbn [mbind option_bind] in H.
  1: destruct (list.last (affine_to m (p_warm p))) as [s'|] eqn:Hl.
  1: { simplify_eq. right. exists (Some m). apply affine_to_elem. by apply last_Some_elem_of. }
  all: destruct mode; [done|];
    destruct (Nat.ltb_spec (p_cold p) (p_total p)); repeat case_match; simplify_eq; auto.
Qed.

Lemma choose_none p fm :
  choose p fm AnySlot = None -> (p_total p <= p_cold p)%nat /\ p_warm p = [].
Proof.
  unfold choose. intros H. destruct (m ← fm; _) as [s|]; [done|].
  destruct (Nat.ltb_spec (p_cold p) (p_total p)); destruct (p_warm p);
    repeat case_match; simplify_eq/=; done.
Qed.

Lemma choose_affine p m mode i :
  (i, Some m) ∈ p_warm p -> exists s, choose p (Some m) mode = Some s /\ (s, Some m) ∈ p_warm p.
Proof.
  intros Hi%affine_to_elem. unfold choose. cbn [mbind option_bind].
  destruct (list.last (affine_to m (p_warm p))) as [s|] eqn:Hl.
  - exists s. split; [done|]. apply affine_to_elem. by apply last_Some_elem_of.
  - apply last_None in Hl. rewrite Hl in Hi. set_solver.
Qed.

(** After any run, an allocation returns.  It finds no slot exactly when all
    are in use; the slot it returns was not in use, is then in use for the
    memory asked for, and no other slot starts or stops being in use.  When a
    free slot was last used for that memory, so was the slot returned. *)
Theorem alloc_exclusive c mx l rs inner fm (Hc : Z.of_nat c < 2 ^ 32) (Hm : 0 <= mx)
    (Hrun : run (new c mx) l = Ok (rs, inner)) :
  exists o inner', alloc (E:=E) oc dbg inner fm = Ok (o, inner') /\
    match o with
    | None => forall i, (i < len inner)%nat -> exists m, slot_state inner !! i = Some (Used m)
    | Some s =>
        (s < len inner)%nat /\ (forall m, slot_state inner !! s <> Some (Used m)) /\
        slot_state inner' !! s = Some (Used fm) /\
        (forall i m, i <> s ->
           slot_state inner' !! i = Some (Used m) <-> slot_state inner !! i = Some (Used m)) /\
        (forall m i u, fm = Some m -> slot_state inner !! i = Some (UnusedWarm u) ->
           affinity u = Some m ->
           exists u', slot_state inner !! s = Some (UnusedWarm u') /\ affinity u' = Some m)
    end.
Proof.
  pose proof (run_refines _ _ l (new_repr c mx Hc Hm)) as H.
  destruct (spec_run (pool_new c mx) l) as [[rs' p]|]; [|congruence].
  destruct H as (inner0 & Hrun0 & Hr). rewrite Hrun in Hrun0. injection Hrun0 as <- <-.
  pose proof (r_states _ _ Hr) as Hst.
  destruct (slot_alloc_ok (E:=E) oc dbg p inner fm AnySlot Hr) as (inner' & Ha & Hr').
  pose proof (r_states _ _ Hr') as Hst'. unfold alloc. rewrite Ha.
  exists (spec_alloc p fm AnySlot).1, inner'. split; [done|].
  unfold spec_alloc in *. destruct (choose p fm AnySlot) as [s|] eqn:Hch; cbn [fst snd] in *.
  - pose proof (choose_free _ _ _ _ Hch) as Hfree. unfold len. rewrite (sr_len _ _ Hst).
    split_and!.
    + destruct Hfree as [[_ ?]|[a Hin]]; [done|]. by apply (warm_state _ _ _ _ Hst) in Hin as (? & _).
    + destruct Hfree as [[-> ?]|[a Hin]].
      * intros m. rewrite (proj2 (sr_cold _ _ Hst _)) by lia. done.
      * by apply (warm_state _ _ _ _ Hst) in Hin as (_ & _ & ?).
    + apply (sr_used _ _ Hst'). cbn. by rewrite lookup_insert_eq.
    + intros i m Hne. rewrite (sr_used _ _ Hst'), (sr_used _ _ Hst). cbn.
      by rewrite lookup_insert_ne.
    + intros m i u -> Hi Hu.
      assert (Hin : (i, Some m) ∈ p_warm p) by (apply (sr_warm _ _ Hst); eauto).
      destruct (choose_affine p m AnySlot i Hin) as (s' & Hs' & Hin').
      rewrite Hch in Hs'. injection Hs' as <-. by apply (sr_warm _ _ Hst).
  - apply choose_none in Hch as [Hge Hw]. unfold len. intros i Hi.
    destruct (lookup_lt_is_Some_2 _ _ Hi) as [[m| |u] Hs]; [by exists m| |].
    + apply (sr_cold _ _ Hst) in Hs. lia.
    + assert (Hin : (i, affinity u) ∈ p_warm p) by (apply (sr_warm _ _ Hst); eauto).
      rewrite Hw in Hin. set_solver.
Qed.
End Runs.

(** ** Witnesses *)

Definition sample_calls : list pool_call :=
  [CallAlloc (Some (1, 0)); CallAlloc (Some (2, 0)); CallFree 0; CallFree 1;
   CallAlloc (Some (1, 0)); CallClear 2 0].

Lemma index_allocator_refines_witness :
  exists inner, run (E:=unit) true true (new 2 2) sample_calls
    = Ok ([Some 0; Some 1; None; None; Some 0; Some 1]%nat, inner) /\ len inner = 2%nat.
Proof.
  pose proof (index_allocator_refines (E:=unit) true true 2 2 sample_calls
    ltac:(vm_compute; reflexivity) ltac:(vm_compute; discriminate)) as H.
  destruct (spec_run (pool_new 2 2) sample_calls) as [[rs p]|] eqn:Hs; [|discriminate Hs].
  destruct H as (inner & Hrun & _ & Hlen). exists inner. split; [|exact Hlen].
  rewrite Hrun. injection Hs as <- _. reflexivity.
Defined.

Definition sample_inner : Inner :=
  match run (E:=unit) true true (new 2 2) (take 3 sample_calls) with
  | Ok r => r.2
  | _ => new 0 0
  end.

Lemma alloc_exclusive_witness :
  exists o inner', alloc (E:=unit) true true sample_inner (Some (1, 0)) = Ok (o, inner') /\
    match o with
    | Some s => slot_state inner' !! s = Some (Used (Some (1, 0)))
    | None => False
    end.
Proof.
  destruct (alloc_exclusive (E:=unit) true true 2 2 (take 3 sample_calls)
    [Some 0; Some 1; None]%nat sample_inner (Some (1, 0)) ltac:(vm_compute; reflexivity)
    ltac:(vm_compute; discriminate) ltac:(vm_compute; reflexivity)) as ([s|] & inner' & Ha & H).
  - exists (Some s), inner'. split; [exact Ha|]. exact (proj1 (proj2 (proj2 H))).
  - destruct (H 0%nat) as [m Hm]; [vm_compute; lia|]. vm_compute in Hm. discriminate Hm.
Defined.
