(* ===== verification/ResourceTable.v ===== *)
(** * The host's resource table

    [src/wasmtime-repo/crates/wasmtime/src/runtime/component/resource_table.rs]:
    a table from 32-bit handles to dynamically typed values that also tracks
    which resource is a child of which.  The model keeps the vector of entries
    with its free list; a boxed [dyn Any] is a value with its type identifier. *)

From Stdlib Require Import ZArith Lia.
From stdpp Require Import base list gmap numbers option sorting.
From S2P Require Import Prelude.
Open Scope Z_scope.

Inductive ResourceTableError := Full | NotPresent | WrongType | HasChildren.

(** A [Box<dyn Any>]: a type identifier and a value of that type. *)
Record Any (V : Type) := { type_id : Z; value : V }.
Arguments type_id {V}.
Arguments value {V}.

(** A [Resource<T>]: the handle, the identifier of [T], and [owned()]. *)
Record Resource := { rep : nat; res_type : Z; owned : bool }.
Definition new_own (ty : Z) (r : nat) : Resource := {| rep := r; res_type := ty; owned := true |}.

Record TableEntry (V : Type) := {
  entry : Any V;
  parent : option nat;
  children : gset nat
}.
Arguments entry {V}.
Arguments parent {V}.
Arguments children {V}.

Inductive Entry (V : Type) :=
| Free (next : option nat)
| Occupied (e : TableEntry V).
Arguments Free {V} next.
Arguments Occupied {V} e.

Record ResourceTable (V : Type) := { entries : list (Entry V); free_head : option nat }.
Arguments entries {V}.
Arguments free_head {V}.
Arguments Build_ResourceTable {V}.

Section Operations.
  Context {V : Type} (dbg : bool).
  Implicit Types (t : ResourceTable V) (e : TableEntry V).

Abbreviation M := (outcome ResourceTableError).

Definition entry_occupied (x : Entry V) : option (TableEntry V) :=
  match x with Occupied e => Some e | Free _ => None end.

Definition entry_new (x : Any V) (p : option nat) : TableEntry V :=
  {| entry := x; parent := p; children := ∅ |}.
Definition add_child e (child : nat) : M (TableEntry V) :=
  debug_assert dbg (negb (bool_decide (child ∈ children e)));;
  Ok {| entry := entry e; parent := parent e; children := {[child]} ∪ children e |}.
Definition remove_child e (child : nat) : M (TableEntry V) :=
  let was_removed := bool_decide (child ∈ children e) in
  debug_assert dbg was_removed;;
  Ok {| entry := entry e; parent := parent e; children := children e ∖ {[child]} |}.

Definition new : ResourceTable V := {| entries := []; free_head := None |}.

Definition pop_free_list t : M (option nat * ResourceTable V) :=
  match free_head t with
  | Some ix =>
      x ← unwrap (entries t !! ix);
      match x with
      | Free next => Ok (Some ix, {| entries := entries t; free_head := next |})
      | Occupied _ => Panic
      end
  | None => Ok (None, t)
  end.

Definition free_entry t (ix : nat) : M (TableEntry V * ResourceTable V) :=
  x ← unwrap (entries t !! ix);
  match x with
  | Occupied e =>
      Ok (e, {| entries := <[ix := Free (free_head t)]> (entries t); free_head := Some ix |})
  | Free _ => Panic
  end.

Definition push_ t e : M (nat * ResourceTable V) :=
  '(o, t1) ← pop_free_list t;
  match o with
  | Some free =>
      assert_ (free <? length (entries t1))%nat;;
      Ok (Z.to_nat (Z.of_nat free mod 2 ^ 32),
          {| entries := <[free := Occupied e]> (entries t1); free_head := free_head t1 |})
  | None =>
      match checked 32 (Z.of_nat (length (entries t1))) with
      | None => Err Full
      | Some ix =>
          Ok (Z.to_nat ix, {| entries := entries t1 ++ [Occupied e]; free_head := free_head t1 |})
      end
  end.

Definition push t (x : Any V) : M (Resource * ResourceTable V) :=
  '(idx, t1) ← push_ t (entry_new x None);
  Ok (new_own (type_id x) idx, t1).

Definition occupied t (key : nat) : M (TableEntry V) :=
  ok_or NotPresent (x ← entries t !! key; entry_occupied x).

(** A write through the reference [occupied_mut] returns. *)
Definition set_entry t (key : nat) e : ResourceTable V :=
  {| entries := <[key := Occupied e]> (entries t); free_head := free_head t |}.

Definition push_child t (x : Any V) (p : Resource) : M (Resource * ResourceTable V) :=
  let parent := rep p in
  occupied t parent;;
  '(child, t1) ← push_ t (entry_new x (Some parent));
  e ← occupied t1 parent;
  e' ← add_child e child;
  Ok (new_own (type_id x) child, set_entry t1 parent e').

Definition get_ t (key : nat) : M (Any V) :=
  r ← occupied t key;
  Ok (entry r).

(** [downcast_ref], [downcast_mut] and [downcast] to the type [ty]. *)
Definition downcast (ty : Z) (x : Any V) : M V :=
  if type_id x =? ty then Ok (value x) else Err WrongType.

Definition get t (key : Resource) : M V :=
  x ← get_ t (rep key);
  downcast (res_type key) x.

(** The table after a write of [v] through [get_mut]. *)
Definition get_mut t (key : Resource) (v : V) : M (ResourceTable V) :=
  r ← occupied t (rep key);
  _ ← downcast (res_type key) (entry r);
  Ok (set_entry t (rep key)
        {| entry := {| type_id := type_id (entry r); value := v |};
           parent := parent r; children := children r |}).

Definition delete_entry t (key : nat) : M (TableEntry V * ResourceTable V) :=
  r ← occupied t key;
  if bool_decide (children r <> ∅) then Err HasChildren
  else
    '(e, t1) ← free_entry t key;
    match parent e with
    | Some p =>
        pe ← unwrap_result (occupied t1 p);
        pe' ← remove_child pe key;
        Ok (e, set_entry t1 p pe')
    | None => Ok (e, t1)
    end.

(** [delete] returns with the table it leaves, also when it returns an error. *)
Definition delete t (resource : Resource) : M (M V * ResourceTable V) :=
  debug_assert dbg (owned resource);;
  match delete_entry t (rep resource) with
  | Ok (e, t1) => Ok (downcast (res_type resource) (entry e), t1)
  | Err err => Ok (Err err, t)
  | Panic => Panic
  end.

(** The values [iter_children] yields, by ascending handle. *)
Fixpoint mapM_ {A B} (f : A -> M B) (l : list A) : M (list B) :=
  match l with
  | [] => Ok []
  | a :: l' => b ← f a; bs ← mapM_ f l'; Ok (b :: bs)
  end.
Definition iter_children t (p : Resource) : M (list (Any V)) :=
  pe ← occupied t (rep p);
  mapM_ (fun c => x ← unwrap_result (occupied t c); Ok (entry x))
        (merge_sort Nat.le (elements (children pe))).
End Operations.

(** ** The abstract table: handles to entries *)

Section Correct.
  Context {V : Type} (dbg : bool).
  Implicit Types (t : ResourceTable V) (e : TableEntry V) (m : gmap nat (TableEntry V)).

Definition view t : gmap nat (TableEntry V) := omap entry_occupied (map_seq 0 (entries t)).

Lemma table_view_lookup t i : view t !! i = x ← entries t !! i; entry_occupied x.
Proof. unfold view. by rewrite lookup_omap, lookup_map_seq_0. Qed.

Lemma view_Some t i e : view t !! i = Some e <-> entries t !! i = Some (Occupied e).
Proof. rewrite table_view_lookup. destruct (entries t !! i) as [[]|]; naive_solver. Qed.

Lemma occupied_view t i : occupied t i = ok_or NotPresent (view t !! i).
Proof. unfold occupied. by rewrite table_view_lookup. Qed.

(** The free list runs through all vacant entries. *)
Inductive free_chain (es : list (Entry V)) : option nat -> list nat -> Prop :=
| chain_nil : free_chain es None []
| chain_cons i l next :
    es !! i = Some (Free next) -> free_chain es next l -> free_chain es (Some i) (i :: l).

Record free_inv t : Prop := {
  fi_chain : exists fl, free_chain (entries t) (free_head t) fl /\ NoDup fl /\
               forall i n, entries t !! i = Some (Free n) -> i ∈ fl;
  fi_len : Z.of_nat (length (entries t)) <= 2 ^ 32
}.

Lemma table_chain_insert es f fl i x :
  free_chain es f fl -> i ∉ fl -> free_chain (<[i := x]> es) f fl.
Proof.
  induction 1 as [|j l next Hj Hc IH]; intros Hi; [constructor|].
  apply not_elem_of_cons in Hi as [Hij Hi]. apply (chain_cons _ _ _ next); [|by apply IH].
  by rewrite list_lookup_insert_ne.
Qed.

Lemma table_chain_vacant es f fl i :
  free_chain es f fl -> i ∈ fl -> exists n, es !! i = Some (Free n).
Proof. induction 1; set_solver. Qed.

(** Writing an occupied entry over an occupied one. *)
Lemma set_entry_ok t i e e' :
  free_inv t -> view t !! i = Some e ->
  free_inv (set_entry t i e') /\ view (set_entry t i e') = <[i := e']> (view t).
Proof.
  intros [(fl & Hc & Hnd & Hall) Hl] Hi%view_Some. pose proof (lookup_lt_Some _ _ _ Hi) as Hlt.
  split.
  - split; cbn; [|by rewrite length_insert]. exists fl. split_and!; [|done|].
    + apply table_chain_insert; [done|]. intros Hin. destruct (table_chain_vacant _ _ _ _ Hc Hin). congruence.
    + intros j n Hj. destruct (decide (i = j)) as [<-|Hne].
      * by rewrite list_lookup_insert_eq in Hj.
      * rewrite list_lookup_insert_ne in Hj by done. by eapply Hall.
  - apply map_eq. intros j. rewrite table_view_lookup. cbn. destruct (decide (i = j)) as [<-|Hne].
    + by rewrite lookup_insert_eq, list_lookup_insert_eq.
    + by rewrite lookup_insert_ne, list_lookup_insert_ne, table_view_lookup.
Qed.

Definition table_full t : bool :=
  match free_head t with Some _ => false | None => 2 ^ 32 <=? Z.of_nat (length (entries t)) end.

Lemma push__ok t e :
  free_inv t ->
  if table_full t then push_ t e = Err Full
  else exists ix t', push_ t e = Ok (ix, t') /\ view t !! ix = None /\ free_inv t' /\
         view t' = <[ix := e]> (view t).
Proof.
  intros [(fl & Hc & Hnd & Hall) Hl]. unfold push_, pop_free_list, table_full.
  inversion Hc as [Hf|i l next Hi Hc' Hf]; subst fl; cbn [mbind outcome_bind].
  - destruct (2 ^ 32 <=? _) eqn:Hfull; zbool.
    + rewrite (proj2 (checked_None _ _)) by (unfold in_u; lia). done.
    + rewrite (proj2 (checked_Some _ _ _) (conj (conj (Nat2Z.is_nonneg _) Hfull) eq_refl)).
      rewrite Nat2Z.id. eexists _, _. split; [done|]. cbn [entries free_head].
      split; [by rewrite table_view_lookup, lookup_ge_None_2|]. split.
      * split; cbn; [|rewrite length_app; cbn; lia]. exists []. rewrite <- Hf.
        split_and!; [constructor|constructor|]. intros j n [Hj|[Hj1 Hj2]]%lookup_app_Some.
        -- by eapply Hall.
        -- destruct (j - length (entries t))%nat as [|[]]; done.
      * apply map_eq. intros j. rewrite table_view_lookup. cbn.
        destruct (decide (length (entries t) = j)) as [<-|Hne].
        -- by rewrite lookup_insert_eq, list_lookup_middle.
        -- rewrite lookup_insert_ne, table_view_lookup by done.
           destruct (decide (j < length (entries t))%nat) as [Hj|Hj].
           ++ by rewrite lookup_app_l.
           ++ rewrite lookup_app_r, (lookup_ge_None_2 (entries t)) by lia.
              destruct (j - length (entries t))%nat as [|[]] eqn:?; [lia|done|done].
  - pose proof (lookup_lt_Some _ _ _ Hi) as Hlt. apply list.NoDup_cons in Hnd as [Hnin Hnd].
    rewrite Hi. cbn [mbind outcome_bind unwrap entries free_head].
    rewrite (proj2 (Nat.ltb_lt _ _) Hlt). cbn [assert_ mbind outcome_bind].
    rewrite Z.mod_small, Nat2Z.id by lia. eexists _, _. split; [done|].
    split; [by rewrite table_view_lookup, Hi|]. split.
    + split; cbn; [|by rewrite length_insert]. exists l. split_and!; [by apply table_chain_insert|done|].
      intros j n Hj. destruct (decide (i = j)) as [<-|Hne].
      * by rewrite list_lookup_insert_eq in Hj.
      * rewrite list_lookup_insert_ne in Hj by done. apply Hall in Hj. set_solver.
    + apply map_eq. intros j. rewrite table_view_lookup. cbn. destruct (decide (i = j)) as [<-|Hne].
      * by rewrite lookup_insert_eq, list_lookup_insert_eq.
      * by rewrite lookup_insert_ne, list_lookup_insert_ne, table_view_lookup.
Qed.

Lemma free_entry_ok t i e :
  free_inv t -> view t !! i = Some e ->
  exists t', free_entry t i = Ok (e, t') /\ free_inv t' /\ view t' = base.delete i (view t).
Proof.
  intros [(fl & Hc & Hnd & Hall) Hl] Hi%view_Some. pose proof (lookup_lt_Some _ _ _ Hi) as Hlt.
  unfold free_entry. rewrite Hi. cbn [mbind outcome_bind unwrap]. eexists. split; [done|].
  assert (Hnin : i ∉ fl).
  { intros Hin. destruct (table_chain_vacant _ _ _ _ Hc Hin). congruence. }
  split.
  - split; cbn; [|by rewrite length_insert]. exists (i :: fl). split_and!.
    + apply (chain_cons _ _ _ (free_head t)); [by apply list_lookup_insert_eq|by apply table_chain_insert].
    + by apply list.NoDup_cons.
    + intros j n Hj. destruct (decide (i = j)) as [<-|Hne]; [set_solver|].
      rewrite list_lookup_insert_ne in Hj by done. apply Hall in Hj. set_solver.
  - apply map_eq. intros j. rewrite table_view_lookup. cbn. destruct (decide (i = j)) as [<-|Hne].
    + by rewrite lookup_delete_eq, list_lookup_insert_eq.
    + by rewrite lookup_delete_ne, list_lookup_insert_ne, table_view_lookup.
Qed.

(** ** Parents and children *)

(** The documented invariants: a parent exists and lists its children, a listed
    child exists and names its parent, and there are no cycles ([rank] grows
    from parent to child). *)
Definition tree m (rank : nat -> nat) : Prop :=
  (forall i e p, m !! i = Some e -> parent e = Some p ->
     exists pe, m !! p = Some pe /\ i ∈ children pe /\ (rank p < rank i)%nat) /\
  (forall i e c, m !! i = Some e -> c ∈ children e ->
     exists ce, m !! c = Some ce /\ parent ce = Some i).

Definition table_inv t : Prop := free_inv t /\ exists rank, tree (view t) rank.

(** Nothing refers to a vacant handle. *)
Lemma tree_vacant m rank i j e :
  tree m rank -> m !! i = None -> m !! j = Some e -> parent e <> Some i /\ i ∉ children e.
Proof.
  intros [Hp Hc] Hi Hj. split.
  - intros Hpar. destruct (Hp _ _ _ Hj Hpar) as (pe & ? & _). congruence.
  - intros Hch. destruct (Hc _ _ _ Hj Hch) as (ce & ? & _). congruence.
Qed.

Lemma tree_add_root m rank i x :
  tree m rank -> m !! i = None -> tree (<[i := entry_new x None]> m) rank.
Proof.
  intros Ht Hi. pose proof (tree_vacant m rank i) as Hv. destruct Ht as [Hp Hc]. split.
  - intros j e p [[<- <-]|[Hne Hj]]%lookup_insert_Some Hpar; [done|].
    destruct (Hp _ _ _ Hj Hpar) as (pe & Hpe & ? & ?). exists pe.
    rewrite lookup_insert_ne by congruence. done.
  - intros j e c [[<- <-]|[Hne Hj]]%lookup_insert_Some Hch; [set_solver|].
    destruct (Hc _ _ _ Hj Hch) as (ce & Hce & ?). exists ce.
    rewrite lookup_insert_ne by congruence. done.
Qed.

Lemma tree_add_child m rank i x p pe :
  tree m rank -> m !! i = None -> m !! p = Some pe ->
  tree (<[p := {| entry := entry pe; parent := parent pe; children := {[i]} ∪ children pe |}]>
         (<[i := entry_new x (Some p)]> m))
       (fun j => if decide (j = i) then S (rank p) else rank j).
Proof.
  intros Ht Hi Hpe. pose proof (tree_vacant m rank i) as Hv.
  assert (Hip : i <> p) by congruence. destruct Ht as [Hp Hc]. split.
  - intros j e q [[<- <-]|[Hne Hj]]%lookup_insert_Some Hpar.
    + cbn in Hpar. destruct (Hp _ _ _ Hpe Hpar) as (qe & Hq & Hch & Hlt).
      rewrite !decide_False by congruence. destruct (decide (p = q)) as [<-|Hpq]; [lia|].
      exists qe. rewrite !lookup_insert_ne by congruence. done.
    + apply lookup_insert_Some in Hj as [[<- <-]|[Hne' Hj]].
      * cbn in Hpar. injection Hpar as <-. eexists. rewrite lookup_insert_eq.
        split; [done|]. split; [cbn; set_solver|]. repeat case_decide; simplify_eq; lia.
      * destruct (Hp _ _ _ Hj Hpar) as (qe & Hq & Hch & Hlt).
        rewrite !decide_False by congruence.
        destruct (decide (p = q)) as [<-|Hpq].
        -- eexists. rewrite lookup_insert_eq. split; [done|]. simplify_eq. cbn. split; [set_solver|done].
        -- exists qe. rewrite !lookup_insert_ne by congruence. done.
  - assert (Hold : forall j e c, m !! j = Some e -> c ∈ children e -> exists ce,
      (<[p := {| entry := entry pe; parent := parent pe; children := {[i]} ∪ children pe |}]>
        (<[i := entry_new x (Some p)]> m)) !! c = Some ce /\ parent ce = Some j).
    { intros j e c Hj Hch. destruct (Hc _ _ _ Hj Hch) as (ce & Hce & Hpar).
      destruct (decide (p = c)) as [<-|Hpc].
      - eexists. rewrite lookup_insert_eq. split; [done|]. simplify_eq. done.
      - exists ce. rewrite !lookup_insert_ne by congruence. done. }
    intros j e c [[<- <-]|[Hne Hj]]%lookup_insert_Some Hch.
    + cbn in Hch. apply elem_of_union in Hch as [->%elem_of_singleton|Hch]; [|by eapply Hold].
      eexists. rewrite lookup_insert_ne, lookup_insert_eq by done. done.
    + apply lookup_insert_Some in Hj as [[<- <-]|[Hne' Hj]]; [set_solver|]. by eapply Hold.
Qed.

Lemma tree_remove_root m rank i e :
  tree m rank -> m !! i = Some e -> children e = ∅ -> parent e = None ->
  tree (base.delete i m) rank.
Proof.
  intros [Hp Hc] Hi Hemp Hroot. split.
  - intros j je p [Hne Hj]%lookup_delete_Some Hpar.
    destruct (Hp _ _ _ Hj Hpar) as (pe & Hpe & Hch & ?). exists pe.
    rewrite lookup_delete_ne; [done|]. intros ->. simplify_eq. set_solver.
  - intros j je c [Hne Hj]%lookup_delete_Some Hch.
    destruct (Hc _ _ _ Hj Hch) as (ce & Hce & ?). exists ce.
    rewrite lookup_delete_ne; [done|]. intros ->. congruence.
Qed.

Lemma tree_remove_child m rank i e p pe :
  tree m rank -> m !! i = Some e -> children e = ∅ -> parent e = Some p -> m !! p = Some pe ->
  tree (<[p := {| entry := entry pe; parent := parent pe; children := children pe ∖ {[i]} |}]>
         (base.delete i m)) rank.
Proof.
  intros [Hp Hc] Hi Hemp Hpar Hpe.
  assert (Hip : i <> p). { intros ->. destruct (Hp _ _ _ Hi Hpar) as (? & _ & _ & ?). lia. }
  split.
  - intros j je q [[<- <-]|[Hne [Hne' Hj]%lookup_delete_Some]]%lookup_insert_Some Hq.
    + cbn in Hq. destruct (Hp _ _ _ Hpe Hq) as (qe & Hqe & Hch & ?).
      exists qe. rewrite lookup_insert_ne, lookup_delete_ne; [done| |].
      * intros ->. rewrite Hi in Hqe. injection Hqe as <-. set_solver.
      * intros ->. lia.
    + destruct (Hp _ _ _ Hj Hq) as (qe & Hqe & Hch & ?).
      destruct (decide (p = q)) as [<-|Hpq].
      * eexists. rewrite lookup_insert_eq. split; [done|]. simplify_eq. cbn. split; [set_solver|done].
      * exists qe. rewrite lookup_insert_ne, lookup_delete_ne; [done| |done].
        intros ->. rewrite Hi in Hqe. injection Hqe as <-. set_solver.
  - assert (Hold : forall j je c, m !! j = Some je -> c ∈ children je -> c <> i -> exists ce,
      (<[p := {| entry := entry pe; parent := parent pe; children := children pe ∖ {[i]} |}]>
        (base.delete i m)) !! c = Some ce /\ parent ce = Some j).
    { intros j je c Hj Hch Hci. destruct (Hc _ _ _ Hj Hch) as (ce & Hce & Hcp).
      destruct (decide (p = c)) as [<-|Hpc].
      - eexists. rewrite lookup_insert_eq. split; [done|]. simplify_eq. done.
      - exists ce. rewrite lookup_insert_ne, lookup_delete_ne by done. done. }
    intros j je c [[<- <-]|[Hne [Hne' Hj]%lookup_delete_Some]]%lookup_insert_Some Hch.
    + cbn in Hch. apply (Hold p pe); set_solver.
    + apply (Hold j je c Hj Hch). intros ->. destruct (Hc _ _ _ Hj Hch) as (ce & Hce & Hcp). congruence.
Qed.

Lemma tree_set_value m rank i e v :
  tree m rank -> m !! i = Some e ->
  tree (<[i := {| entry := v; parent := parent e; children := children e |}]> m) rank.
Proof.
  intros [Hp Hc] Hi.
  assert (Hsame : forall j je, m !! j = Some je -> exists je',
    <[i := {| entry := v; parent := parent e; children := children e |}]> m !! j = Some je' /\
    parent je' = parent je /\ children je' = children je).
  { intros j je Hj. destruct (decide (i = j)) as [<-|Hne].
    - eexists. rewrite lookup_insert_eq. split; [done|]. by simplify_eq.
    - exists je. by rewrite lookup_insert_ne. }
  split.
  - intros j je p Hj Hpar.
    assert (Hj' : exists je0, m !! j = Some je0 /\ parent je0 = Some p).
    { apply lookup_insert_Some in Hj as [[<- <-]|[_ Hj]]; eauto. }
    destruct Hj' as (je0 & Hj0 & Hp0). destruct (Hp _ _ _ Hj0 Hp0) as (pe & Hpe & Hch & ?).
    destruct (Hsame _ _ Hpe) as (pe' & ? & _ & Heq). exists pe'. by rewrite Heq.
  - intros j je c Hj Hch.
    assert (Hj' : exists je0, m !! j = Some je0 /\ c ∈ children je0).
    { apply lookup_insert_Some in Hj as [[<- <-]|[_ Hj]]; eauto. }
    destruct Hj' as (je0 & Hj0 & Hc0). destruct (Hc _ _ _ Hj0 Hc0) as (ce & Hce & Hcp).
    destruct (Hsame _ _ Hce) as (ce' & ? & Heq & _). exists ce'. by rewrite Heq.
Qed.

(** ** The operations on the abstract table *)

Definition drop_child (i : nat) e : TableEntry V :=
  {| entry := entry e; parent := parent e; children := children e ∖ {[i]} |}.
Definition with_child (i : nat) e : TableEntry V :=
  {| entry := entry e; parent := parent e; children := {[i]} ∪ children e |}.

Definition spec_delete m (i : nat) e : gmap nat (TableEntry V) :=
  match parent e with
  | Some p => alter (drop_child i) p (base.delete i m)
  | None => base.delete i m
  end.

Lemma push_ok t x :
  table_inv t ->
  if table_full t then push t x = Err Full
  else exists i t', push t x = Ok (new_own (type_id x) i, t') /\ view t !! i = None /\
         table_inv t' /\ view t' = <[i := entry_new x None]> (view t).
Proof.
  intros [Hf [rank Ht]]. pose proof (push__ok t (entry_new x None) Hf) as H. unfold push.
  destruct (table_full t); [by rewrite H|]. destruct H as (i & t' & -> & Hn & Hf' & Hv).
  exists i, t'. do 2 (split; [done|]). split; [|done]. split; [done|]. exists rank.
  rewrite Hv. by apply tree_add_root.
Qed.

Lemma push_child_ok t x p :
  table_inv t ->
  match view t !! rep p with
  | None => push_child dbg t x p = Err NotPresent
  | Some pe =>
      if table_full t then push_child dbg t x p = Err Full
      else exists i t', push_child dbg t x p = Ok (new_own (type_id x) i, t') /\
             view t !! i = None /\ table_inv t' /\
             view t' = <[rep p := with_child i pe]> (<[i := entry_new x (Some (rep p))]> (view t))
  end.
Proof.
  intros [Hf [rank Ht]]. unfold push_child. rewrite occupied_view.
  destruct (view t !! rep p) as [pe|] eqn:Hp; [|done]. cbn [ok_or mbind outcome_bind].
  pose proof (push__ok t (entry_new x (Some (rep p))) Hf) as H.
  destruct (table_full t); [by rewrite H|]. destruct H as (i & t1 & -> & Hn & Hf1 & Hv1).
  cbn [mbind outcome_bind].
  assert (Hp1 : view t1 !! rep p = Some pe) by (rewrite Hv1, lookup_insert_ne; congruence).
  rewrite occupied_view, Hp1. cbn [ok_or mbind outcome_bind]. unfold add_child.
  destruct (tree_vacant _ _ _ _ _ Ht Hn Hp) as [_ Hnc].
  rewrite debug_assert_true by (by rewrite bool_decide_false). cbn [mbind outcome_bind].
  fold (with_child i pe). destruct (set_entry_ok t1 (rep p) pe (with_child i pe) Hf1 Hp1) as [Hf2 Hv2].
  eexists _, _. do 2 (split; [done|]). split; [|by rewrite Hv2, Hv1].
  split; [done|]. eexists. rewrite Hv2, Hv1. by apply tree_add_child.
Qed.

Lemma delete_entry_ok t i :
  table_inv t ->
  match view t !! i with
  | None => delete_entry dbg t i = Err NotPresent
  | Some e =>
      if bool_decide (children e <> ∅) then delete_entry dbg t i = Err HasChildren
      else exists t', delete_entry dbg t i = Ok (e, t') /\ table_inv t' /\
             view t' = spec_delete (view t) i e
  end.
Proof.
  intros [Hf [rank Ht]]. unfold delete_entry. rewrite occupied_view.
  destruct (view t !! i) as [e|] eqn:Hi; [|done]. cbn [ok_or mbind outcome_bind].
  case_bool_decide as Hch; [done|].
  destruct (free_entry_ok t i e Hf Hi) as (t1 & -> & Hf1 & Hv1). cbn [mbind outcome_bind].
  unfold spec_delete. destruct (parent e) as [p|] eqn:Hpar.
  - destruct (proj1 Ht _ _ _ Hi Hpar) as (pe & Hpe & Hin & Hrank).
    assert (Hp1 : view t1 !! p = Some pe).
    { rewrite Hv1, lookup_delete_ne; [done|]. intros ->. lia. }
    rewrite occupied_view, Hp1. cbn [ok_or unwrap_result mbind outcome_bind]. unfold remove_child.
    rewrite debug_assert_true by (by rewrite bool_decide_true). cbn [mbind outcome_bind].
    fold (drop_child i pe). destruct (set_entry_ok t1 p pe (drop_child i pe) Hf1 Hp1) as [Hf2 Hv2].
    assert (Hv : view (set_entry t1 p (drop_child i pe)) = alter (drop_child i) p (base.delete i (view t))).
    { rewrite Hv2, Hv1. apply map_eq. intros j. rewrite Hv1 in Hp1.
      destruct (decide (p = j)) as [<-|Hne].
      - by rewrite lookup_insert_eq, lookup_alter_eq, Hp1.
      - by rewrite lookup_insert_ne, lookup_alter_ne. }
    eexists. split; [done|]. split; [|exact Hv]. split; [done|]. exists rank. rewrite Hv2, Hv1.
    by apply (tree_remove_child _ _ i e).
  - exists t1. split; [done|]. split; [|done]. split; [done|]. exists rank. rewrite Hv1.
    by apply (tree_remove_root _ _ i e).
Qed.

Lemma delete_ok t r :
  table_inv t -> (dbg = true -> owned r = true) ->
  exists res t', delete dbg t r = Ok (res, t') /\ table_inv t' /\
    match view t !! rep r with
    | None => res = Err NotPresent /\ t' = t
    | Some e =>
        if bool_decide (children e <> ∅) then res = Err HasChildren /\ t' = t
        else res = downcast (res_type r) (entry e) /\ view t' = spec_delete (view t) (rep r) e
    end.
Proof.
  intros Hinv Ho. unfold delete.
  replace (debug_assert dbg (owned r)) with (Ok (E:=ResourceTableError) ()).
  2: { unfold debug_assert. destruct dbg; [|done]. by rewrite Ho. }
  cbn [mbind outcome_bind].
  pose proof (delete_entry_ok t (rep r) Hinv) as H.
  destruct (view t !! rep r) as [e|]; [|rewrite H; by eexists _, _].
  case_bool_decide; [rewrite H; by eexists _, _|].
  destruct H as (t' & -> & Hi & Hv). by eexists _, _.
Qed.

Lemma table_get_mut_ok t r v t' : table_inv t -> get_mut t r v = Ok t' -> table_inv t'.
Proof.
  intros [Hf [rank Ht]] H. unfold get_mut in H. rewrite occupied_view in H.
  destruct (view t !! rep r) as [e|] eqn:He; [|done]. cbn [ok_or mbind outcome_bind] in H.
  outcome_inv. match goal with |- table_inv (set_entry _ _ ?e') =>
    destruct (set_entry_ok t (rep r) e e' Hf He) as [Hf' Hv'] end.
  split; [done|]. exists rank. rewrite Hv'. by apply tree_set_value.
Qed.

Lemma table_new_inv : table_inv new.
Proof.
  split.
  - split; cbn; [|lia]. exists []. split_and!; [constructor|constructor|].
    intros i n H. by rewrite lookup_nil in H.
  - exists (fun _ => 0%nat). split; intros i e p H; done.
Qed.

Lemma mapM__children t rank i e (l : list nat) :
  tree (view t) rank -> view t !! i = Some e -> (forall c, c ∈ l -> c ∈ children e) ->
  exists xs, mapM_ (fun c => x ← unwrap_result (occupied t c); Ok (entry x)) l = Ok xs /\
    Forall2 (fun c x => entry <$> view t !! c = Some x) l xs.
Proof.
  intros Ht Hi. induction l as [|c l IH]; intros Hl; cbn [mapM_]; [by exists []|].
  destruct (proj2 Ht i e c Hi) as (ce & Hce & _); [set_solver|].
  rewrite occupied_view, Hce. cbn [ok_or unwrap_result mbind outcome_bind].
  destruct IH as (xs & -> & Hxs); [set_solver|]. cbn [mbind outcome_bind].
  exists (entry ce :: xs). split; [done|]. constructor; [by rewrite Hce|done].
Qed.

(** Tables a host can reach. *)
Inductive reachable : ResourceTable V -> Prop :=
| reach_new : reachable new
| reach_push t x r t' : reachable t -> push t x = Ok (r, t') -> reachable t'
| reach_push_child t x p r t' : reachable t -> push_child dbg t x p = Ok (r, t') -> reachable t'
| reach_set t r v t' : reachable t -> get_mut t r v = Ok t' -> reachable t'
| reach_delete t r res t' :
    reachable t -> owned r = true -> delete dbg t r = Ok (res, t') -> reachable t'.

Lemma table_reachable_inv t : reachable t -> table_inv t.
Proof.
  induction 1 as [|t x r t' _ IH H|t x p r t' _ IH H|t r v t' _ IH H|t r res t' _ IH Ho H].
  - apply table_new_inv.
  - pose proof (push_ok t x IH) as Hp. destruct (table_full t); [congruence|].
    destruct Hp as (i & t1 & Hp & _ & Hi & _). rewrite Hp in H. by injection H as _ <-.
  - pose proof (push_child_ok t x p IH) as Hp. destruct (view t !! rep p); [|congruence].
    destruct (table_full t); [congruence|].
    destruct Hp as (i & t1 & Hp & _ & Hi & _). rewrite Hp in H. by injection H as _ <-.
  - by eapply table_get_mut_ok.
  - destruct (delete_ok t r IH (fun _ => Ho)) as (res' & t1 & Hd & Hi & _).
    rewrite Hd in H. by injection H as _ <-.
Qed.

Lemma get_view t k :
  get t k = x ← ok_or NotPresent (entry <$> view t !! rep k); downcast (res_type k) x.
Proof. unfold get, get_. rewrite occupied_view. by destruct (view t !! rep k). Qed.

Lemma get_ext t t' k :
  entry <$> view t' !! rep k = entry <$> view t !! rep k -> get t' k = get t k.
Proof. intros H. by rewrite !get_view, H. Qed.

(** C30: The invariants that the table documents hold in every reachable state:
    the parent of a resource exists and lists it, a listed child exists and
    names its parent, and no chain of parents is circular.  So the internal
    look-ups that assume a parent or a child present never panic, and neither
    do the debug assertions on the sets of children. *)
Theorem resource_tree t (H : reachable t) :
  (exists rank, tree (view t) rank) /\
  (forall x, push t x <> Panic) /\
  (forall x p, push_child dbg t x p <> Panic) /\
  (forall r, owned r = true -> is_Ok (delete dbg t r)) /\
  (forall p, match view t !! rep p with
             | None => iter_children t p = Err NotPresent
             | Some pe => exists xs, iter_children t p = Ok xs /\
                 length xs = size (children pe)
             end).
Proof.
  apply table_reachable_inv in H as Hinv. destruct Hinv as [Hf [rank Ht]].
  assert (Hinv : table_inv t) by (by split; [|exists rank]). split_and!.
  - by exists rank.
  - intros x. pose proof (push_ok t x Hinv) as Hp. destruct (table_full t); [congruence|].
    destruct Hp as (i & t1 & -> & _). done.
  - intros x p. pose proof (push_child_ok t x p Hinv) as Hp.
    destruct (view t !! rep p); [|congruence]. destruct (table_full t); [congruence|].
    destruct Hp as (i & t1 & -> & _). done.
  - intros r Ho. destruct (delete_ok t r Hinv (fun _ => Ho)) as (res & t1 & -> & _). apply Ok_is_Ok.
  - intros p. unfold iter_children. rewrite occupied_view.
    destruct (view t !! rep p) as [pe|] eqn:Hp; [|done]. cbn [ok_or mbind outcome_bind].
    pose proof (merge_sort_Permutation Nat.le (elements (children pe))) as Hperm.
    destruct (mapM__children t rank (rep p) pe (merge_sort Nat.le (elements (children pe))) Ht Hp)
      as (xs & -> & Hxs).
    { intros c Hc. rewrite Hperm in Hc. by apply elem_of_elements. }
    exists xs. split; [done|]. apply Forall2_length in Hxs. rewrite <- Hxs, Hperm. done.
Qed.

(** C39: Adding a resource gives a handle that was not in use, through which it
    is read back, and leaves the others readable; adding a child requires the
    parent and then keeps the parent from being deleted.  Deleting returns the
    resource and frees its handle unless it has children, in which case the
    table is unchanged. *)
Theorem resource_lifecycle t (H : reachable t) :
  (forall x, if table_full t then push t x = Err Full else
     exists r t', push t x = Ok (r, t') /\ view t !! rep r = None /\ get t' r = Ok (value x) /\
       forall k, rep k <> rep r -> get t' k = get t k) /\
  (forall x p, match view t !! rep p with
     | None => push_child dbg t x p = Err NotPresent
     | Some _ => if table_full t then push_child dbg t x p = Err Full else
         exists r t', push_child dbg t x p = Ok (r, t') /\ view t !! rep r = None /\
           get t' r = Ok (value x) /\ (forall k, rep k <> rep r -> get t' k = get t k) /\
           (owned p = true -> delete dbg t' p = Ok (Err HasChildren, t'))
     end) /\
  (forall r, owned r = true ->
     exists res t', delete dbg t r = Ok (res, t') /\
       match view t !! rep r with
       | None => res = Err NotPresent /\ t' = t
       | Some e =>
           if bool_decide (children e <> ∅) then res = Err HasChildren /\ t' = t
           else res = get t r /\ view t' !! rep r = None /\
                forall k, rep k <> rep r -> get t' k = get t k
       end).
Proof.
  apply table_reachable_inv in H as Hinv. split_and!.
  - intros x. pose proof (push_ok t x Hinv) as Hp. destruct (table_full t); [done|].
    destruct Hp as (i & t' & Hp & Hn & _ & Hv). eexists _, _. split; [exact Hp|]. split; [done|]. split.
    + rewrite get_view, Hv. cbn [rep new_own]. rewrite lookup_insert_eq. cbn.
      unfold downcast. by rewrite Z.eqb_refl.
    + intros k Hk. apply get_ext. by rewrite Hv, lookup_insert_ne.
  - intros x p. pose proof (push_child_ok t x p Hinv) as Hp.
    destruct (view t !! rep p) as [pe|] eqn:Hpe; [|done]. destruct (table_full t); [done|].
    destruct Hp as (i & t' & Hp & Hn & Hinv' & Hv). assert (i <> rep p) by congruence.
    eexists _, _. split; [exact Hp|]. split; [done|]. split_and!.
    + rewrite get_view, Hv. cbn [rep new_own].
      rewrite lookup_insert_ne, lookup_insert_eq by done. cbn. unfold downcast. by rewrite Z.eqb_refl.
    + intros k Hk. cbn [rep new_own] in Hk. apply get_ext. rewrite Hv.
      destruct (decide (rep p = rep k)) as [He|Hne].
      * rewrite He, lookup_insert_eq. rewrite He in Hpe. by rewrite Hpe.
      * by rewrite !lookup_insert_ne by congruence.
    + intros Ho. destruct (delete_ok t' p Hinv' (fun _ => Ho)) as (res & t1 & Hd & _ & Hspec).
      rewrite Hv, lookup_insert_eq in Hspec. rewrite bool_decide_true in Hspec by (cbn; set_solver).
      destruct Hspec as [-> ->]. done.
  - intros r Ho. destruct (delete_ok t r Hinv (fun _ => Ho)) as (res & t' & Hd & _ & Hspec).
    exists res, t'. split; [done|]. destruct (view t !! rep r) as [e|] eqn:He; [|done].
    case_bool_decide as Hch; [done|]. destruct Hspec as [-> Hv].
    assert (Hpar : parent e <> Some (rep r)).
    { intros Hp. destruct Hinv as [_ [rank [Htp _]]].
      destruct (Htp _ _ _ He Hp) as (? & _ & _ & Hlt). lia. }
    split_and!.
    + by rewrite get_view, He.
    + rewrite Hv. unfold spec_delete. destruct (parent e) as [p|]; [|by rewrite lookup_delete_eq].
      rewrite lookup_alter_ne, lookup_delete_eq by congruence. done.
    + intros k Hk. apply get_ext. rewrite Hv. unfold spec_delete.
      destruct (parent e) as [p|]; [|by rewrite lookup_delete_ne].
      destruct (decide (p = rep k)) as [->|Hne].
      * rewrite lookup_alter_eq, lookup_delete_ne by done. by destruct (view t !! rep k).
      * by rewrite lookup_alter_ne, lookup_delete_ne by done.
Qed.

(** [delete] checks the type only after the entry was removed: deleting
    through a handle of another type returns [WrongType], and the resource is
    gone from the table all the same. *)
Theorem delete_wrong_type_removes t i e ty (H : reachable t) (Hi : view t !! i = Some e)
    (Hc : children e = ∅) (Hty : type_id (entry e) <> ty) :
  exists t', delete dbg t (new_own ty i) = Ok (Err WrongType, t') /\
    get t (new_own (type_id (entry e)) i) = Ok (value (entry e)) /\
    get t' (new_own (type_id (entry e)) i) = Err NotPresent.
Proof.
  apply table_reachable_inv in H as Hinv.
  destruct (delete_ok t (new_own ty i) Hinv (fun _ => eq_refl)) as (res & t' & Hd & _ & Hspec).
  cbn [rep new_own res_type] in Hspec. rewrite Hi, bool_decide_false in Hspec by (by intros []).
  destruct Hspec as [-> Hv]. exists t'. unfold downcast in Hd.
  rewrite (proj2 (Z.eqb_neq _ _) Hty) in Hd. split; [exact Hd|]. rewrite !get_view. cbn [rep new_own].
  split.
  - rewrite Hi. cbn. unfold downcast. by rewrite Z.eqb_refl.
  - replace (view t' !! i) with (@None (TableEntry V)); [done|]. rewrite Hv. unfold spec_delete.
    destruct (parent e) as [p|] eqn:Hp; [|by rewrite lookup_delete_eq].
    destruct Hinv as [_ [rank [Htp _]]]. destruct (Htp _ _ _ Hi Hp) as (? & _ & _ & Hlt).
    rewrite lookup_alter_ne, lookup_delete_eq; [done|]. intros ->. lia.
Qed.
End Correct.

(** ** Witnesses *)

Definition sample_any : Any Z := {| type_id := 1; value := 10 |}.

(** A parent at handle 0 with a child at handle 1. *)
Definition sample_table : ResourceTable Z :=
  match '(r, t) ← push new sample_any; push_child true t sample_any r with
  | Ok (_, t) => t
  | _ => new
  end.

Lemma table_sample_reachable : reachable true sample_table.
Proof.
  eapply (reach_push_child true {| entries := [Occupied (entry_new sample_any None)]; free_head := None |}
    sample_any (new_own 1 0)); [|vm_compute; reflexivity].
  eapply (reach_push true new sample_any); [apply reach_new|vm_compute; reflexivity].
Qed.

Lemma resource_tree_witness :
  reachable true sample_table /\ is_Ok (delete true sample_table (new_own 1 1)).
Proof.
  split; [exact table_sample_reachable|].
  apply (proj1 (proj2 (proj2 (proj2 (resource_tree true sample_table table_sample_reachable))))).
  reflexivity.
Defined.

Lemma resource_lifecycle_witness :
  exists res t', delete true sample_table (new_own 1 0) = Ok (res, t') /\
    res = Err HasChildren /\ t' = sample_table.
Proof.
  destruct (proj2 (proj2 (resource_lifecycle true sample_table table_sample_reachable)) (new_own 1 0) eq_refl)
    as (res & t' & Hd & Hs).
  exists res, t'. split; [exact Hd|]. vm_compute in Hs. exact Hs.
Defined.

Lemma delete_wrong_type_removes_witness :
  exists t', delete true sample_table (new_own 2 1) = Ok (Err WrongType, t') /\
    get t' (new_own 1 1) = Err NotPresent.
Proof.
  destruct (delete_wrong_type_removes true sample_table 1 (entry_new sample_any (Some 0%nat)) 2
    table_sample_reachable ltac:(vm_compute; reflexivity) ltac:(reflexivity) ltac:(discriminate))
    as (t' & Hd & _ & Hg).
  exists t'. split; [exact Hd|exact Hg].
Defined.
