(* ===== verification/Wmemcheck.v ===== *)
(** * Guest memory checker

    [src/wasmtime-repo/crates/wmemcheck/src/lib.rs]: a shadow state per byte of
    the guest memory, updated on [malloc], [free], loads, stores and changes of
    the stack pointer.  Lengths and addresses are 64-bit; [oc] says whether
    arithmetic is overflow-checked. *)

From Stdlib Require Import ZArith Lia.
From stdpp Require Import base list gmap numbers option.
From S2P Require Import Prelude.
Open Scope Z_scope.

Inductive MemState := Unallocated | ValidToWrite | ValidToReadWrite.
#[global] Instance MemState_eq : EqDecision MemState.
Proof. solve_decision. Defined.

Inductive AccessError :=
| DoubleMalloc (addr len : Z)
| InvalidRead (addr len : Z)
| InvalidWrite (addr len : Z)
| InvalidFree (addr : Z)
| OutOfBounds (addr len : Z).

Record Wmemcheck := {
  metadata : list MemState;
  mallocs : gmap Z Z;
  stack_pointer : Z;
  max_stack_size : Z;
  flag : bool
}.

(** The indices of the loop [for i in a..b]. *)
Definition range (a b : Z) : list nat := seq (Z.to_nat a) (Z.to_nat (b - a)).

(** A loop that returns [e] at the first byte in a [bad] state. *)
Fixpoint check_loop (md : list MemState) (bad : MemState -> bool) (e : AccessError) (idxs : list nat)
  : outcome AccessError unit :=
  match idxs with
  | [] => Ok ()
  | i :: idxs' =>
      s ← unwrap (md !! i);
      if bad s then Err e else check_loop md bad e idxs'
  end.

(** A loop that stores [s] at each index. *)
Fixpoint fill_loop {E} (md : list MemState) (s : MemState) (idxs : list nat)
  : outcome E (list MemState) :=
  match idxs with
  | [] => Ok md
  | i :: idxs' =>
      assert_ (i <? length md)%nat;;
      fill_loop (<[i := s]> md) s idxs'
  end.

Definition with_metadata (w : Wmemcheck) (md : list MemState) : Wmemcheck :=
  {| metadata := md; mallocs := mallocs w; stack_pointer := stack_pointer w;
     max_stack_size := max_stack_size w; flag := flag w |}.
Definition with_mallocs (w : Wmemcheck) (m : gmap Z Z) : Wmemcheck :=
  {| metadata := metadata w; mallocs := m; stack_pointer := stack_pointer w;
     max_stack_size := max_stack_size w; flag := flag w |}.
Definition with_stack (w : Wmemcheck) (sp mx : Z) : Wmemcheck :=
  {| metadata := metadata w; mallocs := mallocs w; stack_pointer := sp;
     max_stack_size := mx; flag := flag w |}.
Definition with_flag (w : Wmemcheck) (b : bool) : Wmemcheck :=
  {| metadata := metadata w; mallocs := mallocs w; stack_pointer := stack_pointer w;
     max_stack_size := max_stack_size w; flag := b |}.

Definition new (mem_size : Z) : Wmemcheck :=
  {| metadata := replicate (Z.to_nat mem_size) Unallocated; mallocs := ∅; stack_pointer := 0;
     max_stack_size := 0; flag := true |}.

Definition mem_len (w : Wmemcheck) : Z := Z.of_nat (length (metadata w)).

Section Operations.
  Context (oc : bool).
  Implicit Types (w : Wmemcheck) (addr len : Z).

(** [addr + len] is evaluated only when the first conjunct holds. *)
Definition is_in_bounds_heap w addr len : outcome AccessError bool :=
  if max_stack_size w <=? addr then
    e ← arith oc 64 (addr + len);
    Ok (e <=? mem_len w)
  else Ok false.

Definition is_in_bounds_stack w addr len : outcome AccessError bool :=
  if stack_pointer w <=? addr then
    e ← arith oc 64 (addr + len);
    Ok (e <? max_stack_size w)
  else Ok false.

Definition malloc w addr len : outcome AccessError Wmemcheck :=
  b ← is_in_bounds_heap w addr len;
  if negb b then Err (OutOfBounds addr len)
  else
    e ← arith oc 64 (addr + len);
    check_loop (metadata w) (fun s => negb (bool_decide (s = Unallocated)))
      (DoubleMalloc addr len) (range addr e);;
    md ← fill_loop (metadata w) ValidToWrite (range addr e);
    Ok (with_mallocs (with_metadata w md) (<[addr := len]> (mallocs w))).

Definition in_bounds w addr len : outcome AccessError bool :=
  s ← is_in_bounds_stack w addr len;
  if s : bool then Ok true else is_in_bounds_heap w addr len.

Definition read w addr len : outcome AccessError unit :=
  if negb (flag w) then Ok ()
  else
    b ← in_bounds w addr len;
    if negb b then Err (OutOfBounds addr len)
    else
      e ← arith oc 64 (addr + len);
      check_loop (metadata w) (fun s => negb (bool_decide (s = ValidToReadWrite)))
        (InvalidRead addr len) (range addr e).

Definition write w addr len : outcome AccessError Wmemcheck :=
  if negb (flag w) then Ok w
  else
    b ← in_bounds w addr len;
    if negb b then Err (OutOfBounds addr len)
    else
      e ← arith oc 64 (addr + len);
      check_loop (metadata w) (fun s => bool_decide (s = Unallocated))
        (InvalidWrite addr len) (range addr e);;
      md ← fill_loop (metadata w) ValidToReadWrite (range addr e);
      Ok (with_metadata w md).

Definition free w addr : outcome AccessError Wmemcheck :=
  match mallocs w !! addr with
  | None => Err (InvalidFree addr)
  | Some len =>
      e ← arith oc 64 (addr + len);
      check_loop (metadata w) (fun s => bool_decide (s = Unallocated))
        (InvalidFree addr) (range addr e);;
      md ← fill_loop (metadata w) Unallocated (range addr e);
      Ok (with_metadata (with_mallocs w (base.delete addr (mallocs w))) md)
  end.

Definition update_stack_pointer w (new_sp : Z) : outcome AccessError Wmemcheck :=
  if max_stack_size w <? new_sp then
    l ← arith oc 64 (new_sp - stack_pointer w);
    Err (OutOfBounds (stack_pointer w) l)
  else
    md ← (if new_sp <? stack_pointer w then
            e ← arith oc 64 (stack_pointer w + 1);
            fill_loop (metadata w) ValidToReadWrite (range new_sp e)
          else fill_loop (metadata w) Unallocated (range (stack_pointer w) new_sp));
    Ok (with_stack (with_metadata w md) new_sp (max_stack_size w)).

Definition memcheck_on w : Wmemcheck := with_flag w true.
Definition memcheck_off w : Wmemcheck := with_flag w false.

(** [let _ = self.update_stack_pointer(0)]: an error would be discarded. *)
Definition set_stack_size w (stack_size : Z) : outcome AccessError Wmemcheck :=
  m ← arith oc 64 (stack_size + 1);
  let w1 := with_stack w stack_size m in
  match update_stack_pointer w1 0 with
  | Ok w2 => Ok w2
  | Err _ => Ok w1
  | Panic => Panic
  end.

Definition update_mem_size w (num_bytes : Z) : Wmemcheck :=
  with_metadata w (metadata w ++ replicate (Z.to_nat num_bytes) Unallocated).
End Operations.

(** ** What the checker promises

    The heap is a set of live blocks and a set of bytes written since they were
    allocated; the stack is the bytes from the stack pointer up. *)

Record Shadow := {
  sh_size : Z;
  sh_max : Z;
  sh_sp : Z;
  sh_blocks : gmap Z Z;
  sh_written : gset nat;
  sh_on : bool
}.

Definition coveredb (bl : gmap Z Z) (i : nat) : bool :=
  existsb (fun '(a, l) => (a <=? Z.of_nat i) && (Z.of_nat i <? a + l)) (map_to_list bl).

Definition byte_state (sh : Shadow) (i : nat) : MemState :=
  if coveredb (sh_blocks sh) i
  then if bool_decide (i ∈ sh_written sh) then ValidToReadWrite else ValidToWrite
  else Unallocated.

Definition on_heap (sh : Shadow) (addr len : Z) : bool :=
  (sh_max sh <=? addr) && (addr + len <=? sh_size sh).
Definition on_stack (sh : Shadow) (addr len : Z) : bool :=
  (sh_sp sh <=? addr) && (addr + len <? sh_max sh).

Definition set_heap (sh : Shadow) (bl : gmap Z Z) (wr : gset nat) : Shadow :=
  {| sh_size := sh_size sh; sh_max := sh_max sh; sh_sp := sh_sp sh; sh_blocks := bl;
     sh_written := wr; sh_on := sh_on sh |}.

Definition spec_malloc (sh : Shadow) (addr len : Z) : outcome AccessError Shadow :=
  if negb (on_heap sh addr len) then Err (OutOfBounds addr len)
  else if existsb (coveredb (sh_blocks sh)) (range addr (addr + len))
  then Err (DoubleMalloc addr len)
  else Ok (set_heap sh (<[addr := len]> (sh_blocks sh))
             (sh_written sh ∖ list_to_set (range addr (addr + len)))).

Definition spec_read (sh : Shadow) (addr len : Z) : outcome AccessError unit :=
  if negb (sh_on sh) || on_stack sh addr len then Ok ()
  else if negb (on_heap sh addr len) then Err (OutOfBounds addr len)
  else if forallb (fun i => coveredb (sh_blocks sh) i && bool_decide (i ∈ sh_written sh))
            (range addr (addr + len))
  then Ok () else Err (InvalidRead addr len).

Definition spec_write (sh : Shadow) (addr len : Z) : outcome AccessError Shadow :=
  if negb (sh_on sh) || on_stack sh addr len then Ok sh
  else if negb (on_heap sh addr len) then Err (OutOfBounds addr len)
  else if forallb (coveredb (sh_blocks sh)) (range addr (addr + len))
  then Ok (set_heap sh (sh_blocks sh) (sh_written sh ∪ list_to_set (range addr (addr + len))))
  else Err (InvalidWrite addr len).

Definition spec_free (sh : Shadow) (addr : Z) : outcome AccessError Shadow :=
  match sh_blocks sh !! addr with
  | None => Err (InvalidFree addr)
  | Some _ => Ok (set_heap sh (base.delete addr (sh_blocks sh)) (sh_written sh))
  end.

Definition spec_sp (sh : Shadow) (new_sp : Z) : outcome AccessError Shadow :=
  if sh_max sh <? new_sp then Err (OutOfBounds (sh_sp sh) (new_sp - sh_sp sh))
  else Ok {| sh_size := sh_size sh; sh_max := sh_max sh; sh_sp := new_sp;
             sh_blocks := sh_blocks sh; sh_written := sh_written sh; sh_on := sh_on sh |}.

Definition spec_grow (sh : Shadow) (n : Z) : Shadow :=
  {| sh_size := sh_size sh + n; sh_max := sh_max sh; sh_sp := sh_sp sh;
     sh_blocks := sh_blocks sh; sh_written := sh_written sh; sh_on := sh_on sh |}.

Definition spec_on (sh : Shadow) (b : bool) : Shadow :=
  {| sh_size := sh_size sh; sh_max := sh_max sh; sh_sp := sh_sp sh;
     sh_blocks := sh_blocks sh; sh_written := sh_written sh; sh_on := b |}.

(** ** The representation *)

Record represents (sh : Shadow) (w : Wmemcheck) : Prop := {
  rp_size : mem_len w = sh_size sh /\ sh_size sh < 2 ^ 64;
  rp_stack : stack_pointer w = sh_sp sh /\ max_stack_size w = sh_max sh /\
             0 <= sh_sp sh < sh_max sh /\ sh_max sh <= sh_size sh;
  rp_flag : flag w = sh_on sh;
  rp_mallocs : mallocs w = sh_blocks sh;
  rp_blocks a l : sh_blocks sh !! a = Some l -> 0 < l /\ sh_max sh <= a /\ a + l <= sh_size sh;
  rp_apart a l a' l' : sh_blocks sh !! a = Some l -> sh_blocks sh !! a' = Some l' -> a <> a' ->
    a + l <= a' \/ a' + l' <= a;
  rp_heap i : sh_max sh <= Z.of_nat i < sh_size sh -> metadata w !! i = Some (byte_state sh i);
  rp_live i : sh_sp sh <= Z.of_nat i < sh_max sh -> metadata w !! i = Some ValidToReadWrite
}.

Lemma elem_of_range a b i : 0 <= a -> i ∈ range a b <-> a <= Z.of_nat i < b.
Proof. intros Ha. unfold range. rewrite elem_of_seq. lia. Qed.

Lemma coveredb_spec bl i :
  coveredb bl i = true <-> exists a l, bl !! a = Some l /\ a <= Z.of_nat i < a + l.
Proof.
  unfold coveredb. rewrite existsb_exists. split.
  - intros ([a l] & Hin & H). zbool. exists a, l. split; [|lia].
    apply elem_of_map_to_list. by apply list_elem_of_In.
  - intros (a & l & Hl & H). exists (a, l). split.
    + apply list_elem_of_In. by apply elem_of_map_to_list.
    + rewrite andb_true_iff, Z.leb_le, Z.ltb_lt. lia.
Qed.

Lemma check_loop_ok md bad e f idxs :
  (forall i, i ∈ idxs -> md !! i = Some (f i)) ->
  check_loop md bad e idxs = if existsb (fun i => bad (f i)) idxs then Err e else Ok ().
Proof.
  induction idxs as [|i idxs IH]; intros H; cbn [check_loop existsb]; [done|].
  rewrite (H i) by set_solver. cbn [mbind outcome_bind unwrap].
  destruct (bad (f i)); [done|]. apply IH. set_solver.
Qed.

Lemma fill_loop_ok {E} md s idxs :
  (forall i, i ∈ idxs -> (i < length md)%nat) ->
  exists md', fill_loop (E:=E) md s idxs = Ok md' /\ length md' = length md /\
    forall i, md' !! i = if decide (i ∈ idxs) then Some s else md !! i.
Proof.
  revert md. induction idxs as [|i idxs IH]; intros md H; cbn [fill_loop].
  - exists md. split_and!; [done|done|]. intros i. rewrite decide_False by set_solver. done.
  - rewrite (proj2 (Nat.ltb_lt _ _)) by (apply H; set_solver). cbn [assert_ mbind outcome_bind].
    destruct (IH (<[i := s]> md)) as (md' & -> & Hl & Hmd').
    { intros j Hj. rewrite length_insert. apply H. set_solver. }
    rewrite length_insert in Hl. exists md'. split_and!; [done|done|]. intros j. rewrite Hmd'.
    destruct (decide (j ∈ idxs)) as [Hin|Hin]; [by rewrite decide_True by set_solver|].
    destruct (decide (i = j)) as [<-|Hne].
    + rewrite list_lookup_insert_eq, decide_True by (set_solver || (apply H; set_solver)). done.
    + rewrite list_lookup_insert_ne by done. rewrite decide_False by set_solver. done.
Qed.

Lemma covered_insert bl a l i :
  bl !! a = None ->
  coveredb (<[a := l]> bl) i = ((a <=? Z.of_nat i) && (Z.of_nat i <? a + l)) || coveredb bl i.
Proof.
  intros Ha. apply Bool.eq_iff_eq_true. rewrite orb_true_iff, andb_true_iff, !coveredb_spec, Z.leb_le, Z.ltb_lt.
  split.
  - intros (a' & l' & [[<- <-]|[Hne H]]%lookup_insert_Some & Hi); [left; lia|right; eauto].
  - intros [Hi|(a' & l' & H & Hi)].
    + exists a, l. by rewrite lookup_insert_eq.
    + exists a', l'. rewrite lookup_insert_ne; [done|congruence].
Qed.

Section Steps.
  Context (oc : bool) (sh : Shadow) (w : Wmemcheck).
  Hypothesis Hr : represents sh w.

Definition args_ok (addr len : Z) : Prop := 0 <= addr /\ 0 <= len /\ addr + len < 2 ^ 64.

Lemma heap_bounds addr len :
  args_ok addr len -> is_in_bounds_heap oc w addr len = Ok (on_heap sh addr len).
Proof.
  intros (? & ? & ?). destruct Hr as [[Hs _] (_ & Hm & _) _ _ _ _ _ _].
  unfold is_in_bounds_heap, on_heap. rewrite Hm, Hs. destruct (sh_max sh <=? addr); [|done].
  by rewrite arith_ok by (unfold in_u; lia).
Qed.

Lemma access_bounds addr len :
  args_ok addr len -> in_bounds oc w addr len = Ok (on_stack sh addr len || on_heap sh addr len).
Proof.
  intros Ha. unfold in_bounds. pose proof (heap_bounds _ _ Ha) as Hh. destruct Ha as (? & ? & ?).
  destruct Hr as [_ (Hsp & Hm & _) _ _ _ _ _ _].
  unfold is_in_bounds_stack, on_stack in *. rewrite Hm, Hsp. destruct (sh_sp sh <=? addr); cbn.
  - rewrite arith_ok by (unfold in_u; lia). cbn. by destruct (_ <? _).
  - exact Hh.
Qed.

Lemma heap_range addr len i :
  args_ok addr len -> on_heap sh addr len = true -> i ∈ range addr (addr + len) ->
  sh_max sh <= Z.of_nat i < sh_size sh /\ addr <= Z.of_nat i < addr + len.
Proof.
  intros (? & ? & ?) Hh Hi. unfold on_heap in Hh. zbool.
  apply elem_of_range in Hi; [|done]. lia.
Qed.

Lemma heap_len i : Z.of_nat i < sh_size sh -> (i < length (metadata w))%nat.
Proof. destruct Hr as [[Hs _] _ _ _ _ _ _ _]. unfold mem_len in Hs. lia. Qed.

Lemma byte_unallocated i : bool_decide (byte_state sh i = Unallocated) = negb (coveredb (sh_blocks sh) i).
Proof. unfold byte_state. destruct (coveredb (sh_blocks sh) i), (bool_decide (i ∈ sh_written sh)); done. Qed.

Lemma heap_check addr len bad e :
  args_ok addr len -> on_heap sh addr len = true ->
  check_loop (metadata w) bad e (range addr (addr + len))
    = if existsb (fun i => bad (byte_state sh i)) (range addr (addr + len)) then Err e else Ok ().
Proof.
  intros Ha Hh. apply check_loop_ok. intros i Hi.
  apply (rp_heap _ _ Hr). by apply (heap_range addr len).
Qed.

Lemma existsb_ext {A} (f g : A -> bool) l : (forall x, f x = g x) -> existsb f l = existsb g l.
Proof. intros H. induction l as [|x l IH]; cbn; [done|]. by rewrite H, IH. Qed.

Lemma existsb_none {A} (f : A -> bool) l : (forall x, f x = false) -> existsb f l = false.
Proof. intros H. induction l as [|x l IH]; cbn; [done|]. by rewrite H, IH. Qed.

Lemma existsb_negb {A} (f : A -> bool) l : existsb (fun x => negb (f x)) l = negb (forallb f l).
Proof. induction l as [|x l IH]; cbn; [done|]. rewrite IH. by destruct (f x). Qed.

Lemma read_ok addr len : args_ok addr len -> read oc w addr len = spec_read sh addr len.
Proof.
  intros Ha. unfold read, spec_read. rewrite (rp_flag _ _ Hr).
  destruct (sh_on sh); cbn [negb orb]; [|done]. rewrite access_bounds by done.
  cbn [mbind outcome_bind]. destruct (on_stack sh addr len) eqn:Hs; cbn [orb negb].
  - rewrite arith_ok by (destruct Ha as (? & ? & ?); unfold in_u; lia). cbn [mbind outcome_bind].
    rewrite (check_loop_ok _ _ _ (fun _ => ValidToReadWrite)).
    + by rewrite existsb_none.
    + intros i Hi. apply (rp_live _ _ Hr). unfold on_stack in Hs. zbool.
      apply elem_of_range in Hi; [lia|apply Ha].
  - destruct (on_heap sh addr len) eqn:Hh; [|done]. cbn [negb].
    rewrite arith_ok by (destruct Ha as (? & ? & ?); unfold in_u; lia). cbn [mbind outcome_bind].
    rewrite heap_check by done.
    rewrite (existsb_ext _ (fun i => negb (coveredb (sh_blocks sh) i && bool_decide (i ∈ sh_written sh)))).
    + rewrite existsb_negb. by destruct (forallb _ _).
    + intros i. unfold byte_state. destruct (coveredb (sh_blocks sh) i), (bool_decide (i ∈ sh_written sh)); done.
Qed.

(** What a step on the heap does to the representation: the bytes of a range
    get a new state, the others keep theirs. *)
Lemma heap_update addr len sh' md s bl :
  args_ok addr len -> on_heap sh addr len = true ->
  fill_loop (E:=AccessError) (metadata w) s (range addr (addr + len)) = Ok md ->
  sh_size sh' = sh_size sh -> sh_max sh' = sh_max sh -> sh_sp sh' = sh_sp sh ->
  sh_on sh' = sh_on sh -> bl = sh_blocks sh' ->
  (forall a l, sh_blocks sh' !! a = Some l -> 0 < l /\ sh_max sh <= a /\ a + l <= sh_size sh) ->
  (forall a l a' l', sh_blocks sh' !! a = Some l -> sh_blocks sh' !! a' = Some l' -> a <> a' ->
     a + l <= a' \/ a' + l' <= a) ->
  (forall i, byte_state sh' i =
     if decide (i ∈ range addr (addr + len)) then s else byte_state sh i) ->
  represents sh' (with_mallocs (with_metadata w md) bl).
Proof.
  intros Ha Hh Hfill Es Em Ep Eo -> Hbl Hap Hst. pose proof Hr as [[Hs H64] (Hsp & Hm & Hst1 & Hst2) Hf _ _ _ Hheap Hlive].
  assert (Hin : forall i, i ∈ range addr (addr + len) -> (i < length (metadata w))%nat).
  { intros i Hi. apply heap_len. by apply (heap_range addr len). }
  destruct (fill_loop_ok (E:=AccessError) (metadata w) s _ Hin) as (md' & Hfill' & Hl & Hmd).
  rewrite Hfill in Hfill'. injection Hfill' as <-.
  split; cbn [metadata mallocs stack_pointer max_stack_size flag with_metadata with_mallocs];
    rewrite ?Es, ?Em, ?Ep, ?Eo; try done.
  - unfold mem_len. cbn. rewrite Hl. done.
  - intros i Hi. rewrite Hmd, Hst. case_decide; [done|]. by apply Hheap.
  - intros i Hi. rewrite Hmd, decide_False; [by apply Hlive|].
    intros Hin'. apply (heap_range addr len) in Hin'; [lia|done|done].
Qed.

Lemma malloc_ok addr len :
  args_ok addr len -> 0 < len ->
  match spec_malloc sh addr len with
  | Ok sh' => exists w', malloc oc w addr len = Ok w' /\ represents sh' w'
  | Err e => malloc oc w addr len = Err e
  | Panic => False
  end.
Proof.
  intros Ha Hl. unfold malloc, spec_malloc. rewrite heap_bounds by done. cbn [mbind outcome_bind].
  destruct (on_heap sh addr len) eqn:Hh; [|done]. cbn [negb].
  rewrite arith_ok by (destruct Ha as (? & ? & ?); unfold in_u; lia). cbn [mbind outcome_bind].
  rewrite heap_check by done.
  rewrite (existsb_ext (fun i => negb (bool_decide (byte_state sh i = Unallocated)))
             (coveredb (sh_blocks sh)))
    by (intros i; rewrite byte_unallocated; apply negb_involutive).
  destruct (existsb _ _) eqn:Hcov; [done|]. cbn [mbind outcome_bind].
  assert (Hfree : forall i, i ∈ range addr (addr + len) -> coveredb (sh_blocks sh) i = false).
  { intros i Hi. apply not_true_is_false. intros Hc. apply not_true_iff_false in Hcov. apply Hcov.
    apply existsb_exists. exists i. by rewrite <- list_elem_of_In. }
  destruct (fill_loop_ok (E:=AccessError) (metadata w) ValidToWrite (range addr (addr + len)))
    as (md & Hfill & _).
  { intros i Hi. apply heap_len. by apply (heap_range addr len). }
  rewrite Hfill. cbn [mbind outcome_bind]. eexists. split; [done|].
  rewrite (rp_mallocs _ _ Hr). destruct Ha as (Ha0 & Ha1 & Ha2). unfold on_heap in Hh. zbool.
  assert (Hnone : sh_blocks sh !! addr = None).
  { apply eq_None_not_Some. intros [l Hb]. destruct (rp_blocks _ _ Hr _ _ Hb).
    assert (Hc : coveredb (sh_blocks sh) (Z.to_nat addr) = false)
      by (apply Hfree, elem_of_range; lia).
    apply not_true_iff_false in Hc. apply Hc, coveredb_spec. exists addr, l. split; [done|lia]. }
  apply (heap_update addr len _ _ ValidToWrite); try done; cbn [sh_blocks set_heap].
  - unfold on_heap. rewrite andb_true_iff, !Z.leb_le. lia.
  - intros a l [[<- <-]|[_ Hb]]%lookup_insert_Some; [lia|]. by apply (rp_blocks _ _ Hr).
  - assert (Hd : forall a l, sh_blocks sh !! a = Some l -> addr + len <= a \/ a + l <= addr).
    { intros a l Hb. destruct (rp_blocks _ _ Hr _ _ Hb) as (? & ? & ?).
      destruct (decide (addr + len <= a \/ a + l <= addr)) as [|Hn]; [done|]. exfalso.
      assert (Hc : coveredb (sh_blocks sh) (Z.to_nat (Z.max a addr)) = false)
        by (apply Hfree, elem_of_range; lia).
      apply not_true_iff_false in Hc. apply Hc, coveredb_spec. exists a, l. split; [done|lia]. }
    intros a l a' l' [[<- <-]|[_ Hb]]%lookup_insert_Some [[<- <-]|[_ Hb']]%lookup_insert_Some Hne;
      [done|by apply Hd|destruct (Hd _ _ Hb); auto|by apply (rp_apart _ _ Hr)].
  - intros i. unfold byte_state. cbn [sh_blocks sh_written set_heap].
    rewrite covered_insert by done. destruct (decide (i ∈ range addr (addr + len))) as [Hi|Hi].
    + pose proof Hi as Hi'. apply elem_of_range in Hi'; [|done].
      rewrite (proj2 (Z.leb_le _ _)), (proj2 (Z.ltb_lt _ _)) by lia. cbn [andb orb].
      rewrite bool_decide_false; [done|]. rewrite elem_of_difference, elem_of_list_to_set. tauto.
    + assert (Hi' : ((addr <=? Z.of_nat i) && (Z.of_nat i <? addr + len)) = false).
      { apply not_true_iff_false. rewrite andb_true_iff, Z.leb_le, Z.ltb_lt.
        intros Hx. apply Hi, elem_of_range; lia. }
      rewrite Hi'. cbn [orb]. destruct (coveredb (sh_blocks sh) i); [|done].
      rewrite (bool_decide_ext (i ∈ sh_written sh ∖ _) (i ∈ sh_written sh)); [done|].
      rewrite elem_of_difference, elem_of_list_to_set. tauto.
Qed.

(** A step on the stack: bytes below the heap change, those at or above the new
    stack pointer are readable. *)
Lemma stack_update sp' md s a b :
  0 <= sp' < sh_max sh -> 0 <= a -> b <= sh_max sh ->
  fill_loop (E:=AccessError) (metadata w) s (range a b) = Ok md ->
  (forall i, sp' <= Z.of_nat i < sh_max sh ->
     if decide (i ∈ range a b) then s = ValidToReadWrite else sh_sp sh <= Z.of_nat i) ->
  represents {| sh_size := sh_size sh; sh_max := sh_max sh; sh_sp := sp';
                sh_blocks := sh_blocks sh; sh_written := sh_written sh; sh_on := sh_on sh |}
             (with_stack (with_metadata w md) sp' (sh_max sh)).
Proof.
  intros Hsp' Ha Hb Hfill Hrw. pose proof Hr as [[Hs H64] (Hsp & Hm & Hst1 & Hst2) Hf Hmal Hbl Hap Hheap Hlive].
  destruct (fill_loop_ok (E:=AccessError) (metadata w) s (range a b)) as (md' & Hfill' & Hl & Hmd).
  { intros i Hi. apply heap_len. apply elem_of_range in Hi; [lia|done]. }
  rewrite Hfill in Hfill'. injection Hfill' as <-.
  split; cbn [metadata mallocs stack_pointer max_stack_size flag with_metadata with_stack
              sh_size sh_max sh_sp sh_blocks sh_on]; try done.
  - unfold mem_len. cbn. by rewrite Hl.
  - intros i Hi. rewrite Hmd, decide_False; [by apply Hheap|].
    rewrite elem_of_range by done. lia.
  - intros i Hi. rewrite Hmd. specialize (Hrw i Hi). case_decide; [by subst|]. apply Hlive. lia.
Qed.

Lemma write_ok addr len :
  args_ok addr len ->
  match spec_write sh addr len with
  | Ok sh' => exists w', write oc w addr len = Ok w' /\ represents sh' w'
  | Err e => write oc w addr len = Err e
  | Panic => False
  end.
Proof.
  intros Ha. unfold write, spec_write. rewrite (rp_flag _ _ Hr).
  destruct (sh_on sh); cbn [negb orb]; [|by exists w]. rewrite access_bounds by done.
  cbn [mbind outcome_bind]. destruct (on_stack sh addr len) eqn:Hs; cbn [orb negb].
  - rewrite arith_ok by (destruct Ha as (? & ? & ?); unfold in_u; lia). cbn [mbind outcome_bind].
    assert (Hrng : forall i, i ∈ range addr (addr + len) -> sh_sp sh <= Z.of_nat i < sh_max sh).
    { intros i Hi. unfold on_stack in Hs. zbool. apply elem_of_range in Hi; [lia|apply Ha]. }
    rewrite (check_loop_ok _ _ _ (fun _ => ValidToReadWrite)).
    2: { intros i Hi. by apply (rp_live _ _ Hr), Hrng. }
    rewrite existsb_none by done. cbn [mbind outcome_bind].
    destruct (fill_loop_ok (E:=AccessError) (metadata w) ValidToReadWrite (range addr (addr + len)))
      as (md & Hfill & _).
    { intros i Hi%Hrng. apply heap_len. destruct (rp_stack _ _ Hr). lia. }
    rewrite Hfill. cbn [mbind outcome_bind]. eexists. split; [done|].
    destruct (rp_stack _ _ Hr) as (Hsp & Hm & ? & ?).
    replace (with_metadata w md) with (with_stack (with_metadata w md) (sh_sp sh) (sh_max sh))
      by (rewrite <- Hsp, <- Hm; by destruct w).
    replace sh with {| sh_size := sh_size sh; sh_max := sh_max sh; sh_sp := sh_sp sh;
      sh_blocks := sh_blocks sh; sh_written := sh_written sh; sh_on := sh_on sh |} at 1
      by (by destruct sh).
    unfold on_stack in Hs. zbool.
    apply (stack_update _ _ ValidToReadWrite addr (addr + len)); try done; [apply Ha|lia|].
    intros i Hi. case_decide; [done|lia].
  - destruct (on_heap sh addr len) eqn:Hh; [|done]. cbn [negb].
    rewrite arith_ok by (destruct Ha as (? & ? & ?); unfold in_u; lia). cbn [mbind outcome_bind].
    rewrite heap_check by done.
    rewrite (existsb_ext (fun i => bool_decide (byte_state sh i = Unallocated))
               (fun i => negb (coveredb (sh_blocks sh) i))) by apply byte_unallocated.
    rewrite existsb_negb. destruct (forallb _ _) eqn:Hcov; cbn [negb]; [|done].
    cbn [mbind outcome_bind].
    assert (Hall : forall i, i ∈ range addr (addr + len) -> coveredb (sh_blocks sh) i = true).
    { intros i Hi. apply (proj1 (forallb_forall _ _) Hcov). by apply list_elem_of_In. }
    destruct (fill_loop_ok (E:=AccessError) (metadata w) ValidToReadWrite (range addr (addr + len)))
      as (md & Hfill & _).
    { intros i Hi. apply heap_len. by apply (heap_range addr len). }
    rewrite Hfill. cbn [mbind outcome_bind]. eexists. split; [done|].
    replace (with_metadata w md) with (with_mallocs (with_metadata w md) (mallocs w)) by (by destruct w).
    apply (heap_update addr len _ _ ValidToReadWrite); try done; cbn [sh_blocks set_heap].
    + apply (rp_mallocs _ _ Hr).
    + apply (rp_blocks _ _ Hr).
    + apply (rp_apart _ _ Hr).
    + intros i. unfold byte_state. cbn [sh_blocks sh_written set_heap].
      case_decide as Hi.
      * rewrite (Hall i Hi), bool_decide_true; [done|]. rewrite elem_of_union, elem_of_list_to_set. auto.
      * rewrite (bool_decide_ext (i ∈ sh_written sh ∪ _) (i ∈ sh_written sh)); [done|].
        rewrite elem_of_union, elem_of_list_to_set. tauto.
Qed.

Lemma memcheck_free_ok addr :
  match spec_free sh addr with
  | Ok sh' => exists w', free oc w addr = Ok w' /\ represents sh' w'
  | Err e => free oc w addr = Err e
  | Panic => False
  end.
Proof.
  unfold free, spec_free. rewrite (rp_mallocs _ _ Hr).
  destruct (sh_blocks sh !! addr) as [len|] eqn:Hb; [|done].
  destruct (rp_blocks _ _ Hr _ _ Hb) as (Hl & Hm & He).
  destruct (rp_size _ _ Hr) as [_ H64]. destruct (rp_stack _ _ Hr) as (_ & _ & ? & ?).
  assert (Ha : args_ok addr len) by (unfold args_ok; lia).
  assert (Hh : on_heap sh addr len = true) by (unfold on_heap; rewrite andb_true_iff, !Z.leb_le; lia).
  rewrite arith_ok by (unfold in_u; lia). cbn [mbind outcome_bind]. rewrite heap_check by done.
  assert (Hall : forall i, i ∈ range addr (addr + len) -> coveredb (sh_blocks sh) i = true).
  { intros i Hi. apply coveredb_spec. exists addr, len. split; [done|].
    apply elem_of_range in Hi; lia. }
  replace (existsb _ _) with false.
  2: { symmetry. apply not_true_iff_false. rewrite existsb_exists. intros (i & Hi & Hx).
       rewrite byte_unallocated, Hall in Hx by (by apply list_elem_of_In). done. }
  cbn [mbind outcome_bind].
  destruct (fill_loop_ok (E:=AccessError) (metadata w) Unallocated (range addr (addr + len)))
    as (md & Hfill & _).
  { intros i Hi. apply heap_len. by apply (heap_range addr len). }
  rewrite Hfill. cbn [mbind outcome_bind]. eexists. split; [done|].
  change (with_metadata (with_mallocs w (base.delete addr (sh_blocks sh))) md)
    with (with_mallocs (with_metadata w md) (base.delete addr (sh_blocks sh))).
  apply (heap_update addr len _ _ Unallocated); try done; cbn [sh_blocks set_heap].
  - intros a l [_ Hx]%lookup_delete_Some. by apply (rp_blocks _ _ Hr).
  - intros a l a' l' [_ Hx]%lookup_delete_Some [_ Hy]%lookup_delete_Some. by apply (rp_apart _ _ Hr).
  - intros i. unfold byte_state. cbn [sh_blocks sh_written set_heap].
    assert (Hc : coveredb (base.delete addr (sh_blocks sh)) i = true <->
                 coveredb (sh_blocks sh) i = true /\ i ∉ range addr (addr + len)).
    { rewrite !coveredb_spec, elem_of_range by lia. split.
      - intros (a & l & [Hne Hx]%lookup_delete_Some & Hi). split; [by exists a, l|].
        destruct (rp_apart _ _ Hr _ _ _ _ Hb Hx Hne); lia.
      - intros [(a & l & Hx & Hi) Hn]. exists a, l. rewrite lookup_delete_ne; [done|].
        intros ->. rewrite Hb in Hx. injection Hx as <-. lia. }
    case_decide as Hi.
    + destruct (coveredb (base.delete addr (sh_blocks sh)) i); [|done].
      by destruct (proj1 Hc eq_refl).
    + destruct (coveredb (base.delete addr (sh_blocks sh)) i).
      * by rewrite (proj1 (proj1 Hc eq_refl)).
      * destruct (coveredb (sh_blocks sh) i); [|done].
        by pose proof (proj2 Hc (conj eq_refl Hi)).
Qed.

Lemma sp_ok new_sp :
  0 <= new_sp < 2 ^ 64 -> new_sp <> sh_max sh ->
  match spec_sp sh new_sp with
  | Ok sh' => exists w', update_stack_pointer oc w new_sp = Ok w' /\ represents sh' w'
  | Err e => update_stack_pointer oc w new_sp = Err e
  | Panic => False
  end.
Proof.
  intros Hn Hne. unfold update_stack_pointer, spec_sp.
  destruct (rp_stack _ _ Hr) as (Hsp & Hm & ? & ?). destruct (rp_size _ _ Hr) as [Hs H64].
  rewrite Hm, Hsp. destruct (sh_max sh <? new_sp) eqn:Hlt; zbool.
  { by rewrite arith_ok by (unfold in_u; lia). }
  destruct (new_sp <? sh_sp sh) eqn:Hpush; zbool.
  - rewrite arith_ok by (unfold in_u; lia). cbn [mbind outcome_bind].
    destruct (fill_loop_ok (E:=AccessError) (metadata w) ValidToReadWrite (range new_sp (sh_sp sh + 1)))
      as (md & Hfill & _).
    { intros i Hi. apply heap_len. apply elem_of_range in Hi; lia. }
    rewrite Hfill. cbn [mbind outcome_bind]. eexists. split; [done|].
    apply (stack_update _ _ ValidToReadWrite new_sp (sh_sp sh + 1)); try done; try lia.
    intros i Hi. case_decide as Hx; [done|]. rewrite elem_of_range in Hx by lia. lia.
  - destruct (fill_loop_ok (E:=AccessError) (metadata w) Unallocated (range (sh_sp sh) new_sp))
      as (md & Hfill & _).
    { intros i Hi. apply heap_len. apply elem_of_range in Hi; lia. }
    rewrite Hfill. cbn [mbind outcome_bind]. eexists. split; [done|].
    apply (stack_update _ _ Unallocated (sh_sp sh) new_sp); try done; try lia.
    intros i Hi. case_decide as Hx; [rewrite elem_of_range in Hx by lia|]; lia.
Qed.
End Steps.

Lemma byte_fresh sh i :
  (forall a l, sh_blocks sh !! a = Some l -> a + l <= Z.of_nat i) -> byte_state sh i = Unallocated.
Proof.
  intros H. unfold byte_state. destruct (coveredb (sh_blocks sh) i) eqn:Hc; [|done].
  apply coveredb_spec in Hc as (a & l & Hb & Hi). apply H in Hb. lia.
Qed.

Lemma grow_ok sh w n :
  represents sh w -> 0 <= n -> sh_size sh + n < 2 ^ 64 ->
  represents (spec_grow sh n) (update_mem_size w n).
Proof.
  intros [[Hs H64] (Hsp & Hm & Hst1 & Hst2) Hf Hmal Hbl Hap Hheap Hlive] Hn H2.
  unfold mem_len in Hs.
  split; cbn [metadata mallocs stack_pointer max_stack_size flag with_metadata update_mem_size
              spec_grow sh_size sh_max sh_sp sh_blocks sh_on]; try done.
  - unfold mem_len. cbn. rewrite length_app, length_replicate. lia.
  - split_and!; try done; lia.
  - intros a l Hb. destruct (Hbl _ _ Hb) as (? & ? & ?). lia.
  - intros i Hi. destruct (decide (Z.of_nat i < sh_size sh)) as [Hlt|Hge].
    + rewrite lookup_app_l by lia. apply (Hheap i); lia.
    + rewrite lookup_app_r by lia. rewrite (byte_fresh (spec_grow sh n)).
      * apply lookup_replicate_2. lia.
      * cbn. intros a l Hb. destruct (Hbl _ _ Hb) as (? & ? & ?). lia.
  - intros i Hi. rewrite lookup_app_l by lia. by apply Hlive.
Qed.

(** A checker for a memory of [mem] bytes with a stack of [st] bytes. *)
Definition shadow_init (mem st : Z) : Shadow :=
  {| sh_size := mem; sh_max := st + 1; sh_sp := 0; sh_blocks := ∅; sh_written := ∅; sh_on := true |}.

Lemma init_ok oc mem st :
  0 < st < mem -> mem < 2 ^ 64 ->
  exists w, set_stack_size oc (new mem) st = Ok w /\ represents (shadow_init mem st) w.
Proof.
  intros Hst Hmem. unfold set_stack_size. rewrite arith_ok by (unfold in_u; lia).
  cbn [mbind outcome_bind]. unfold update_stack_pointer. cbn [max_stack_size stack_pointer with_stack].
  rewrite (proj2 (Z.ltb_ge _ _)), (proj2 (Z.ltb_lt _ _)), arith_ok by (unfold in_u; lia).
  cbn [mbind outcome_bind].
  set (w0 := with_stack (new mem) st (st + 1)).
  assert (Hlen : length (metadata w0) = Z.to_nat mem) by apply length_replicate.
  destruct (fill_loop_ok (E:=AccessError) (metadata w0) ValidToReadWrite (range 0 (st + 1)))
    as (md & -> & Hl & Hmd).
  { intros i Hi. apply elem_of_range in Hi; lia. }
  cbn [mbind outcome_bind]. eexists. split; [done|].
  split; cbn [metadata mallocs stack_pointer max_stack_size flag with_metadata with_stack
              shadow_init sh_size sh_max sh_sp sh_blocks sh_on]; try done.
  - unfold mem_len. cbn. rewrite Hl, Hlen. lia.
  - split_and!; try done; lia.
  - intros i Hi. rewrite Hmd, decide_False by (rewrite elem_of_range by lia; lia).
    cbn [w0 metadata with_stack new]. rewrite lookup_replicate_2 by lia. done.
  - intros i Hi. rewrite Hmd, decide_True; [done|]. rewrite elem_of_range by lia. lia.
Qed.

(** ** Runs *)

Inductive event :=
| EMalloc (addr len : Z) | EFree (addr : Z) | ERead (addr len : Z) | EWrite (addr len : Z)
| EStack (new_sp : Z) | EOn | EOff | EGrow (n : Z).

Definition do_event (oc : bool) (w : Wmemcheck) (ev : event) : outcome AccessError Wmemcheck :=
  match ev with
  | EMalloc a l => malloc oc w a l
  | EFree a => free oc w a
  | ERead a l => read oc w a l;; Ok w
  | EWrite a l => write oc w a l
  | EStack n => update_stack_pointer oc w n
  | EOn => Ok (memcheck_on w)
  | EOff => Ok (memcheck_off w)
  | EGrow n => Ok (update_mem_size w n)
  end.

Definition spec_event (sh : Shadow) (ev : event) : outcome AccessError Shadow :=
  match ev with
  | EMalloc a l => spec_malloc sh a l
  | EFree a => spec_free sh a
  | ERead a l => spec_read sh a l;; Ok sh
  | EWrite a l => spec_write sh a l
  | EStack n => spec_sp sh n
  | EOn => Ok (spec_on sh true)
  | EOff => Ok (spec_on sh false)
  | EGrow n => Ok (spec_grow sh n)
  end.

(** The reports of a run: an error leaves the state as it was. *)
Fixpoint reports {S} (step : S -> event -> outcome AccessError S) (s : S) (l : list event)
  : outcome AccessError (list (option AccessError)) :=
  match l with
  | [] => Ok []
  | ev :: l' =>
      match step s ev with
      | Ok s' => rs ← reports step s' l'; Ok (None :: rs)
      | Err e => rs ← reports step s l'; Ok (Some e :: rs)
      | Panic => Panic
      end
  end.

(** Events a guest with 32-bit addresses and a well-behaved allocator causes:
    no empty allocation, and the stack pointer is not moved to one past the
    byte above the stack. *)
Definition event_ok (mx : Z) (ev : event) : Prop :=
  match ev with
  | EMalloc a l => 0 <= a < 2 ^ 32 /\ 0 < l < 2 ^ 32
  | ERead a l | EWrite a l => 0 <= a < 2 ^ 32 /\ 0 <= l < 2 ^ 32
  | EStack n => 0 <= n < 2 ^ 32 /\ n <> mx
  | EGrow n => 0 <= n < 2 ^ 32
  | _ => True
  end.

Lemma event_refines oc sh w ev :
  represents sh w -> event_ok (sh_max sh) ev -> sh_size sh + 2 ^ 32 <= 2 ^ 64 ->
  match spec_event sh ev with
  | Ok sh' => exists w', do_event oc w ev = Ok w' /\ represents sh' w'
  | Err e => do_event oc w ev = Err e
  | Panic => False
  end.
Proof.
  intros Hr Hok Hs. destruct ev as [a l|a|a l|a l|n| | |n]; cbn [event_ok] in Hok;
    cbn [spec_event do_event].
  - apply malloc_ok; unfold args_ok; [done|lia|lia].
  - by apply memcheck_free_ok.
  - rewrite (read_ok oc sh w Hr) by (unfold args_ok; lia).
    assert (Hnp : spec_read sh a l <> Panic) by (unfold spec_read; by repeat split_guard).
    destruct (spec_read sh a l); cbn; [eauto|done|done].
  - apply write_ok; unfold args_ok; [done|lia].
  - apply sp_ok; [done|lia|lia].
  - eexists. split; [done|]. by destruct Hr.
  - eexists. split; [done|]. by destruct Hr.
  - eexists. split; [done|]. apply grow_ok; [done|lia|lia].
Qed.

Lemma spec_event_shape sh ev sh' :
  spec_event sh ev = Ok sh' ->
  sh_max sh' = sh_max sh /\
  sh_size sh' = sh_size sh + match ev with EGrow n => n | _ => 0 end.
Proof.
  destruct ev; cbn [spec_event]; unfold spec_malloc, spec_free, spec_read, spec_write, spec_sp;
    intros H; repeat split_guard_in H; cbn in H; simplify_eq; cbn; lia.
Qed.

Lemma reports_refine oc sh w l :
  represents sh w -> Forall (event_ok (sh_max sh)) l ->
  sh_size sh + 2 ^ 32 * Z.of_nat (length l) <= 2 ^ 64 ->
  exists rs, reports (do_event oc) w l = Ok rs /\ reports spec_event sh l = Ok rs.
Proof.
  revert sh w. induction l as [|ev l IH]; intros sh w Hr Hok Hs; cbn [reports]; [by exists []|].
  apply Forall_cons_iff in Hok as [Hev Hok]. cbn [length] in Hs.
  pose proof (event_refines oc sh w ev Hr Hev ltac:(lia)) as Hstep.
  destruct (spec_event sh ev) as [sh'|e|] eqn:Hspec; [|rewrite Hstep|done].
  - destruct Hstep as (w' & -> & Hr').
    destruct (spec_event_shape _ _ _ Hspec) as [Hm Hsz].
    destruct (IH sh' w' Hr') as (rs & H1 & H2).
    + by rewrite Hm.
    + rewrite Hsz. destruct ev; cbn [event_ok] in Hev; lia.
    + exists (None :: rs). by rewrite H1, H2.
  - destruct (IH sh w Hr Hok) as (rs & H1 & H2); [lia|]. exists (Some e :: rs). by rewrite H1, H2.
Qed.

(** C31: For a guest with a stack and 32-bit addresses, on every sequence of events in which
    no allocation is empty and the stack pointer stays below the first address after the stack,
    the checker never panics and reports exactly what its abstract
    description does (the other events are misreported: [memcheck_misreports]): an access is accepted when it lies on the stack, or on the
    heap with every byte in a live block (and, for a read, written since the
    block was allocated); a [malloc] when none of its bytes is in a live block;
    a [free] when the address starts a live block. *)
Theorem memcheck_refines oc mem st l (Hst : 0 < st < mem)
    (Hsize : mem + 2 ^ 32 * Z.of_nat (length l) <= 2 ^ 64) (Hmem : mem < 2 ^ 64)
    (Hev : Forall (event_ok (st + 1)) l) :
  exists w rs, set_stack_size oc (new mem) st = Ok w /\
    reports (do_event oc) w l = Ok rs /\ reports spec_event (shadow_init mem st) l = Ok rs.
Proof.
  destruct (init_ok oc mem st Hst Hmem) as (w & Hw & Hr).
  destruct (reports_refine oc (shadow_init mem st) w l Hr Hev Hsize) as (rs & H1 & H2).
  by exists w, rs.
Qed.

(** The events left out of that description are misreported.  The stack
    pointer may be moved to the first heap address; moving it back then marks
    that heap byte readable, so that a read of it is accepted and an allocation
    there refused although it was never allocated.  And an empty allocation at
    the address of a live block makes the checker forget the block's length, so
    that its bytes are never released. *)
Theorem memcheck_misreports oc :
  exists w, set_stack_size oc (new 64) 15 = Ok w /\
    reports (do_event oc) w [EStack 16; EStack 8; ERead 16 1; EMalloc 16 4]
      = Ok [None; None; None; Some (DoubleMalloc 16 4)] /\
    reports (do_event oc) w [EMalloc 32 8; EMalloc 32 0; EFree 32; EMalloc 32 8]
      = Ok [None; None; None; Some (DoubleMalloc 32 8)].
Proof. destruct oc; eexists; (split; [vm_compute; reflexivity|]); split; vm_compute; reflexivity. Qed.

(** ** Witness *)

Definition sample_events : list event :=
  [EMalloc 32 8; ERead 32 4; EWrite 32 4; ERead 32 4; ERead 34 4; EFree 32; EWrite 32 1;
   EStack 8; EWrite 4 2; EGrow 16; EMalloc 70 8].

Lemma memcheck_refines_witness :
  exists w rs, set_stack_size true (new 64) 15 = Ok w /\
    reports (do_event true) w sample_events = Ok rs /\
    rs = [None; Some (InvalidRead 32 4); None; None; Some (InvalidRead 34 4); None;
          Some (InvalidWrite 32 1); None; Some (OutOfBounds 4 2); None; None].
Proof.
  destruct (memcheck_refines true 64 15 sample_events ltac:(lia) ltac:(vm_compute; discriminate)
    ltac:(lia)) as (w & rs & H1 & H2 & H3).
  - unfold sample_events. repeat constructor; lia.
  - exists w, rs. split; [exact H1|]. split; [exact H2|].
    vm_compute in H3. injection H3 as <-. reflexivity.
Defined.
