(* ===== verification/HostMain.v ===== *)
(** * The host program

    [src/wasmtime-custom/src/main.rs]: [Ctx::new] and [main].  The embedding API
    of the runtime that [main] calls ([Engine], [Linker], [Module], [Store]) and
    the preview-1 context builder are the record [embedding]; files are a map
    from paths to contents, and a write may be refused.  What the guest does to files, when
    it is instantiated and when it is called, is part of the embedding too. *)

From Stdlib Require Import ZArith Lia.
From stdpp Require Import base list gmap strings numbers.
From S2P Require Import Prelude Float32 Wiggle NnCtx NnOnnx.
Open Scope Z_scope.

Abbreviation bytes := (list Z).

(** What [linker.get(MODULE_NAME, FUNCTION_NAME)] finds. *)
Inductive export := NoExport | NotAFunction | OtherType | Function.

Record embedding (Mod Dir Wasi : Type) := {
  engine_new : bool;
  link_wasi : bool;
  link_nn : bool;
  (** [Dir::open_ambient_dir], [preopened_dir] and [build]. *)
  open_ambient_dir : string -> option Dir;
  builder_new : Wasi;
  preopened_dir : Wasi -> Dir -> string -> option Wasi;
  (** [Module::deserialize], [Module::new] and [Module::serialize]. *)
  deserialize : bytes -> option Mod;
  compile : bytes -> option Mod;
  serialize : Mod -> option bytes;
  (** [linker.module]: instantiation, which may run guest code, and the export looked up
      afterwards; the call, which may trap. *)
  instantiate : Mod -> gmap string bytes -> option (gmap string bytes);
  find_export : Mod -> string -> export;
  guest_call : Mod -> gmap string bytes -> gmap string bytes;
}.
Arguments engine_new {_ _ _}.
Arguments link_wasi {_ _ _}.
Arguments link_nn {_ _ _}.
Arguments open_ambient_dir {_ _ _}.
Arguments builder_new {_ _ _}.
Arguments preopened_dir {_ _ _}.
Arguments deserialize {_ _ _}.
Arguments compile {_ _ _}.
Arguments serialize {_ _ _}.
Arguments instantiate {_ _ _}.
Arguments find_export {_ _ _}.
Arguments guest_call {_ _ _}.

Inductive HostError := EngineError | LinkError | PreopenError | CompileError | SerializeError | ModuleError.

(** What the run did that can be observed: the modules compiled and called. *)
Inductive action (Mod : Type) := Compiled (name : string) | Called (m : Mod).
Arguments Compiled {Mod}.
Arguments Called {Mod}.

Section Host.
  Context {Mod Dir Wasi Sess : Type} (env : embedding Mod Dir Wasi).

Record Ctx := {
  wasi : Wasi;
  wasi_nn : WasiNnCtx OnnxBackend (ONNXGraph Sess) (ONNXExecutionContext Sess)
}.

(** The loop of [Ctx::new]: the lazy iterator opens each directory, and panics
    if it cannot, just before it is added. *)
Fixpoint preopen (b : Wasi) (directories : list string) : outcome HostError Wasi :=
  match directories with
  | [] => Ok b
  | path :: rest =>
      dir ← unwrap (open_ambient_dir env path);
      b' ← ok_or PreopenError (preopened_dir env b dir path);
      preopen b' rest
  end.

Definition Ctx_new `{!BackendOps OnnxBackend (ONNXGraph Sess) (ONNXExecutionContext Sess)}
    (directories : list string) : outcome HostError Ctx :=
  w ← preopen (builder_new env) directories;
  Ok {| wasi := w; wasi_nn := ctx_new [MkOnnxBackend] ∅ |}.

Definition MODEL_DIR : string := "assets/models".
Definition IMAGE_DIR : string := "assets/imgs".
Definition MODULE_NAME : string := "test".
Definition FUNCTION_NAME : string := "main".

(** The module to run: from the serialized file beside it if that can be read
    and deserialized, otherwise compiled and then written there. *)
Definition load_module (writable : string -> bool) (fs : gmap string bytes) (name : string)
  : outcome HostError (Mod * list (action Mod) * gmap string bytes) :=
  let serialized_name := (name +:+ ".SERIALIZED")%string in
  match (b ← fs !! serialized_name; deserialize env b) with
  | Some m => Ok (m, [], fs)
  | None =>
      m ← ok_or CompileError (b ← fs !! name; compile env b);
      byte_module ← ok_or SerializeError (serialize env m);
      assert_ (writable serialized_name);;
      Ok (m, [Compiled name], <[serialized_name := byte_module]> fs)
  end.

(** [main]: the result of the guest's call is discarded. *)
Definition main `{!BackendOps OnnxBackend (ONNXGraph Sess) (ONNXExecutionContext Sess)}
    (writable : string -> bool) (args : list string) (fs : gmap string bytes)
  : outcome HostError (list (action Mod) * gmap string bytes) :=
  wasm_module_filename ← unwrap (args !! 1%nat);
  (if engine_new env then Ok () else Err EngineError);;
  (if link_wasi env then Ok () else Err LinkError);;
  (if link_nn env then Ok () else Err LinkError);;
  _ ← Ctx_new [MODEL_DIR; IMAGE_DIR];
  '(m, acts, fs') ← load_module writable fs wasm_module_filename;
  fs' ← ok_or ModuleError (instantiate env m fs');
  match find_export env m FUNCTION_NAME with
  | Function => Ok (acts ++ [Called m], guest_call env m fs')
  | _ => Panic
  end.
End Host.
Arguments Ctx : clear implicits.

(** ** The module cache *)

Section Cache.
  Context {Mod Dir Wasi Sess : Type} (env : embedding Mod Dir Wasi)
          `{!BackendOps OnnxBackend (ONNXGraph Sess) (ONNXExecutionContext Sess)}.

(** The environment lets the host start: it can link and open its directories. *)
Definition can_start : Prop :=
  engine_new env = true /\ link_wasi env = true /\ link_nn env = true /\
  is_Ok (Ctx_new (Sess:=Sess) env [MODEL_DIR; IMAGE_DIR]).

Definition runnable (m : Mod) : Prop :=
  (forall fs, is_Some (instantiate env m fs)) /\ find_export env m FUNCTION_NAME = Function.

(** What the guest does to the files, from its instantiation on. *)
Definition run_guest (m : Mod) (fs : gmap string bytes) : gmap string bytes :=
  guest_call env m (default fs (instantiate env m fs)).

(** The files of the directories that the guest is given. *)
Definition preopened (path : string) : bool :=
  String.prefix (MODEL_DIR +:+ "/") path || String.prefix (IMAGE_DIR +:+ "/") path.

(** The sandbox: the guest changes no other file. *)
Definition confined : Prop := forall m fs path, preopened path = false -> run_guest m fs !! path = fs !! path.

Abbreviation cache name := ((name +:+ ".SERIALIZED")%string).

Lemma main_start writable prog name rest fs m acts fs' :
  can_start -> load_module env writable fs name = Ok (m, acts, fs') -> runnable m ->
  main (Sess:=Sess) env writable (prog :: name :: rest) fs = Ok (acts ++ [Called m], run_guest m fs').
Proof.
  intros (He & Hw & Hn & [c Hc]) Hl [Hi Hf]. unfold main. cbn [lookup list_lookup].
  cbn [unwrap mbind outcome_bind]. rewrite He, Hw, Hn. cbn [mbind outcome_bind].
  rewrite Hc. cbn [mbind outcome_bind]. rewrite Hl. cbn [mbind outcome_bind]. unfold run_guest.
  destruct (Hi fs') as [fs1 ->]. cbn [ok_or mbind outcome_bind]. by rewrite Hf.
Qed.

Lemma name_ne_cache name : name <> cache name.
Proof.
  induction name as [|a name IH]; [discriminate|]. intros H. cbn in H. injection H as H. by apply IH.
Qed.

(** C35: The first run on a module without a usable cache compiles it, writes its
    serialized form beside it and calls its [main].  When deserializing what
    was serialized gives the module back, a second run calls the same module
    without compiling; the host itself changes no other file in either run.  The module is
    not in a directory that the guest is given, and the guest keeps to these. *)
Theorem second_run_uses_cache writable prog name rest fs code m b
    (Hstart : can_start) (Hno : (c ← fs !! cache name; deserialize env c) = None)
    (Hcode : fs !! name = Some code) (Hcomp : compile env code = Some m)
    (Hser : serialize env m = Some b) (Hround : deserialize env b = Some m)
    (Hwr : writable (cache name) = true) (Hrun : runnable m)
    (Hguest : confined) (Hout : preopened (cache name) = false) :
  let fs1 := run_guest m (<[cache name := b]> fs) in
  main (Sess:=Sess) env writable (prog :: name :: rest) fs = Ok ([Compiled name; Called m], fs1) /\
  main (Sess:=Sess) env writable (prog :: name :: rest) fs1 = Ok ([Called m], run_guest m fs1) /\
  (forall path, preopened path = false -> fs1 !! path = <[cache name := b]> fs !! path /\ run_guest m fs1 !! path = fs1 !! path).
Proof.
  intros fs1. split_and!.
  - apply (main_start _ _ _ _ _ m [Compiled name]); [done| |done]. unfold load_module.
    rewrite Hno, Hcode. cbn [mbind option_bind]. rewrite Hcomp. cbn [ok_or mbind outcome_bind].
    rewrite Hser. cbn [ok_or mbind outcome_bind]. by rewrite Hwr.
  - apply (main_start _ _ _ _ _ m []); [done| |done]. unfold load_module, fs1.
    rewrite Hguest, lookup_insert_eq by done. cbn [mbind option_bind]. by rewrite Hround.
  - intros path Hp. split; by apply Hguest.
Qed.

(** The cache is found by name only: after the module's file is replaced,
    every later run still calls the module that was compiled first, whatever
    the new file holds, also when it is missing or not a module. *)
Theorem stale_cache writable prog name rest fs m c (new_code : option bytes)
    (Hstart : can_start) (Hcache : fs !! cache name = Some c)
    (Hdes : deserialize env c = Some m) (Hrun : runnable m) :
  let fs' := partial_alter (fun _ => new_code) name fs in
  main (Sess:=Sess) env writable (prog :: name :: rest) fs' = Ok ([Called m], run_guest m fs').
Proof.
  intros fs'. apply (main_start _ _ _ _ _ m []); [done| |done]. unfold load_module, fs'.
  rewrite lookup_partial_alter_ne by apply name_ne_cache. rewrite Hcache.
  cbn [mbind option_bind]. by rewrite Hdes.
Qed.
End Cache.

(** ** Witnesses *)

(** Modules are their code; a one-byte header marks the serialized form.  The guest leaves a
    file in a directory that it is given. *)
Definition sample_embedding : embedding bytes unit unit := {|
  engine_new := true; link_wasi := true; link_nn := true;
  open_ambient_dir := fun _ => Some (); builder_new := (); preopened_dir := fun _ _ _ => Some ();
  deserialize := fun b => match b with 1 :: m => Some m | _ => None end;
  compile := fun b => Some b; serialize := fun m => Some (1 :: m);
  instantiate := fun _ fs => Some fs; find_export := fun _ _ => Function;
  guest_call := fun m fs => <["assets/imgs/seen" := m]> fs
|}.

Definition idle_ops : BackendOps OnnxBackend (ONNXGraph unit) (ONNXExecutionContext unit) := {|
  encoding := fun _ => Onnx;
  backend_load := fun b _ _ => (b, Err BackendAccess);
  as_dir_loadable := fun _ => false;
  load_from_dir := fun b _ _ => (b, Err BackendAccess);
  graph_init := fun _ => Err BackendAccess;
  x_set_input := fun x _ _ => (x, Err BackendAccess);
  x_compute := fun x => (x, Err BackendAccess);
  x_get_output := fun x _ _ => (x, Err BackendAccess)
|}.

Lemma sample_confined : confined sample_embedding.
Proof.
  intros m fs path Hp. unfold run_guest. cbn. apply lookup_insert_ne. intros <-. by vm_compute in Hp.
Qed.

Lemma second_run_uses_cache_witness :
  let files : gmap string bytes :=
    {["assets/imgs/seen" := [7; 8]; "guest.wasm.SERIALIZED" := [1; 7; 8]; "guest.wasm" := [7; 8]]} in
  main (Sess:=unit) (BackendOps0:=idle_ops) sample_embedding (fun _ => true) ["host"; "guest.wasm"]
    {["guest.wasm" := [7; 8]]} = Ok ([Compiled "guest.wasm"; Called [7; 8]], files) /\
  main (Sess:=unit) (BackendOps0:=idle_ops) sample_embedding (fun _ => true) ["host"; "guest.wasm"]
    files = Ok ([Called [7; 8]], <["assets/imgs/seen" := [7; 8]]> files).
Proof.
  intros files. destruct (second_run_uses_cache (Sess:=unit) (BackendOps0:=idle_ops) sample_embedding (fun _ => true)
    "host" "guest.wasm" [] {["guest.wasm" := [7; 8]]} [7; 8] [7; 8] [1; 7; 8]) as (H1 & H2 & _);
    try reflexivity.
  - repeat split; try reflexivity. eexists. vm_compute. reflexivity.
  - split; [intros fs; by eexists|reflexivity].
  - apply sample_confined.
  - exact (conj H1 H2).
Defined.

Lemma stale_cache_witness :
  let files : gmap string bytes := {["guest.wasm.SERIALIZED" := [1; 7; 8]; "guest.wasm" := [9]]} in
  main (Sess:=unit) (BackendOps0:=idle_ops) sample_embedding (fun _ => true) ["host"; "guest.wasm"] files
  = Ok ([Called [7; 8]], <["assets/imgs/seen" := [7; 8]]> files).
Proof.
  refine (stale_cache (Sess:=unit) (BackendOps0:=idle_ops) sample_embedding (fun _ => true)
    "host" "guest.wasm" [] {["guest.wasm.SERIALIZED" := [1; 7; 8]; "guest.wasm" := [7; 8]]}
    [7; 8] [1; 7; 8] (Some [9]) _ _ _ _); try reflexivity.
  - repeat split; try reflexivity. eexists. vm_compute. reflexivity.
  - split; [intros fs; by eexists|reflexivity].
Defined.
