(* ===== verification/VmOffsets.v ===== *)
(** * Layout of the VM context

    [src/wasmtime-repo/crates/environ/src/vmoffsets.rs]: the offsets of the
    fields of [VMContext] and of the structures compiled code reads, computed
    from the numbers of imports and definitions of a module.  Offsets are 32-bit;
    [oc] says whether the unchecked additions are overflow-checked.  The pointer
    size is 4 or 8, so that the products of the [u8] helpers do not overflow. *)

From Stdlib Require Import ZArith Lia Sorted.
From stdpp Require Import base list gmap numbers option.
From S2P Require Import Prelude.
Open Scope Z_scope.

(** The fields of [VMContext], in order. *)
Inductive region :=
| magic | runtime_limits | builtin_functions | callee | epoch_ptr | gc_heap_base | gc_heap_bound
| gc_heap_data | store | type_ids | imported_functions | imported_tables | imported_memories
| imported_globals | defined_tables | defined_memories | owned_memories | defined_globals
| defined_func_refs | call_indirect_caches.
#[global] Instance region_eq : EqDecision region.
Proof. solve_decision. Defined.

Record VMOffsetsFields := {
  ptr : Z;
  num_imported_functions : Z;
  num_imported_tables : Z;
  num_imported_memories : Z;
  num_imported_globals : Z;
  num_defined_tables : Z;
  num_defined_memories : Z;
  num_owned_memories : Z;
  num_defined_globals : Z;
  num_escaped_funcs : Z;
  num_call_indirect_caches : Z
}.

(** The numbers, the offset assigned to each field so far, and the size. *)
Record VMOffsets := {
  fields : VMOffsetsFields;
  offsets : list (region * Z);
  size : Z
}.

(** A field that was not assigned is 0. *)
Fixpoint assoc (r : region) (l : list (region * Z)) : Z :=
  match l with
  | [] => 0
  | (r', o) :: l' => if decide (r = r') then o else assoc r l'
  end.
Definition offset (o : VMOffsets) (r : region) : Z := assoc r (offsets o).

(** ** [PtrSize] *)

Definition align_up (offset width : Z) : Z := (offset + (width - 1)) / width * width.
Definition align {E} (oc : bool) (offset width : Z) : outcome E Z :=
  s ← arith oc 32 (offset + (width - 1));
  Ok (s / width * width).

Definition vmcontext_runtime_limits {E} (oc : bool) (p : Z) : outcome E Z :=
  a ← align oc 4 p;
  unwrap (checked 8 a).
Definition vmcontext_builtin_functions {E} (oc : bool) (p : Z) : outcome E Z :=
  a ← vmcontext_runtime_limits oc p;
  arith oc 8 (a + p).
Definition vm_func_ref_array_call (p : Z) : Z := 0 * p.
Definition vm_func_ref_wasm_call (p : Z) : Z := 1 * p.
Definition vm_func_ref_type_index (p : Z) : Z := 2 * p.
Definition vm_func_ref_vmctx (p : Z) : Z := 3 * p.
Definition size_of_vm_func_ref (p : Z) : Z := 4 * p.
Definition size_of_vmglobal_definition (p : Z) : Z := 16.
Definition vmruntime_limits_stack_limit (p : Z) : Z := 0.
Definition vmruntime_limits_fuel_consumed (p : Z) : Z := p.
Definition vmruntime_limits_epoch_deadline (p : Z) : Z := vmruntime_limits_fuel_consumed p + 8.
Definition vmruntime_limits_last_wasm_exit_fp (p : Z) : Z := vmruntime_limits_epoch_deadline p + 8.
Definition vmruntime_limits_last_wasm_exit_pc (p : Z) : Z := vmruntime_limits_last_wasm_exit_fp p + p.
Definition vmruntime_limits_last_wasm_entry_sp (p : Z) : Z := vmruntime_limits_last_wasm_exit_pc p + p.
Definition vmmemory_definition_base (p : Z) : Z := 0 * p.
Definition vmmemory_definition_current_length (p : Z) : Z := 1 * p.
Definition size_of_vmmemory_definition (p : Z) : Z := 2 * p.
Definition size_of_vmmemory_pointer (p : Z) : Z := p.
Definition vmarray_call_host_func_context_func_ref {E} (oc : bool) (p : Z) : outcome E Z :=
  a ← align oc 4 p;
  unwrap (checked 8 a).
Definition vmcall_indirect_cache_wasm_call (p : Z) : Z := 0.
Definition vmcall_indirect_cache_index (p : Z) : Z := p.
Definition size_of_vmcall_indirect_cache (p : Z) : Z := 2 * p.

(** ** Sizes of the import and definition records *)

Definition vmfunction_import_wasm_call (p : Z) : Z := 0 * p.
Definition vmfunction_import_array_call (p : Z) : Z := 1 * p.
Definition vmfunction_import_vmctx (p : Z) : Z := 2 * p.
Definition size_of_vmfunction_import (p : Z) : Z := 3 * p.
Definition vmtable_import_from (p : Z) : Z := 0 * p.
Definition vmtable_import_vmctx (p : Z) : Z := 1 * p.
Definition size_of_vmtable_import (p : Z) : Z := 2 * p.
Definition vmtable_definition_base (p : Z) : Z := 0 * p.
Definition vmtable_definition_current_elements (p : Z) : Z := 1 * p.
Definition size_of_vmtable_definition_current_elements (p : Z) : Z := 4.
Definition size_of_vmtable_definition (p : Z) : Z := 2 * p.
Definition vmmemory_import_from (p : Z) : Z := 0 * p.
Definition vmmemory_import_vmctx (p : Z) : Z := 1 * p.
Definition size_of_vmmemory_import (p : Z) : Z := 3 * p.
Definition vmglobal_import_from (p : Z) : Z := 0 * p.
Definition size_of_vmglobal_import (p : Z) : Z := 1 * p.

(** ** The layout *)

(** A line of the [fields!] macro: a field of a given size, an array of a given
    count and element size, or an alignment. *)
Inductive line :=
| Field (r : region) (sz : Z)
| Array (r : region) (count elem : Z)
| Align (a : Z).

Definition layout (f : VMOffsetsFields) : list line :=
  let p := ptr f in
  [ Field magic 4;
    Align p;
    Field runtime_limits p;
    Field builtin_functions p;
    Field callee p;
    Field epoch_ptr p;
    Field gc_heap_base p;
    Field gc_heap_bound p;
    Field gc_heap_data p;
    Field store (p * 2);
    Field type_ids p;
    Array imported_functions (num_imported_functions f) (size_of_vmfunction_import p);
    Array imported_tables (num_imported_tables f) (size_of_vmtable_import p);
    Array imported_memories (num_imported_memories f) (size_of_vmmemory_import p);
    Array imported_globals (num_imported_globals f) (size_of_vmglobal_import p);
    Array defined_tables (num_defined_tables f) (size_of_vmtable_definition p);
    Array defined_memories (num_defined_memories f) (size_of_vmmemory_pointer p);
    Array owned_memories (num_owned_memories f) (size_of_vmmemory_definition p);
    Align 16;
    Array defined_globals (num_defined_globals f) (size_of_vmglobal_definition p);
    Array defined_func_refs (num_escaped_funcs f) (size_of_vm_func_ref p);
    Array call_indirect_caches (num_call_indirect_caches f) (size_of_vmcall_indirect_cache p) ].

Definition cadd {E} (count size : Z) : outcome E Z := unwrap (checked 32 (count + size)).
Definition cmul {E} (count size : Z) : outcome E Z := unwrap (checked 32 (count * size)).

(** The expansion of the macro from the offset [next]. *)
Fixpoint lay {E} (oc : bool) (ls : list line) (next : Z) : outcome E (list (region * Z) * Z) :=
  match ls with
  | [] => Ok ([], next)
  | Field r sz :: ls' =>
      n ← cadd next sz;
      '(l, e) ← lay oc ls' n;
      Ok ((r, next) :: l, e)
  | Array r count elem :: ls' =>
      sz ← cmul count elem;
      n ← cadd next sz;
      '(l, e) ← lay oc ls' n;
      Ok ((r, next) :: l, e)
  | Align a :: ls' =>
      n ← align oc next a;
      lay oc ls' n
  end.

(** [From<VMOffsetsFields>]. *)
Definition from {E} (oc : bool) (f : VMOffsetsFields) : outcome E VMOffsets :=
  '(l, e) ← lay oc (layout f) 0;
  assert_ (assoc magic l =? 0);;
  Ok {| fields := f; offsets := l; size := e |}.

(** What [VMOffsets::new] reads of a module; [memory_plans] says of each memory
    whether it is shared. *)
Record Module := {
  m_imported_funcs : Z;
  m_imported_tables : Z;
  m_imported_memories : Z;
  m_imported_globals : Z;
  m_tables : Z;
  memory_plans : list bool;
  m_globals : Z;
  m_escaped_funcs : Z;
  m_call_indirect_caches : Z
}.

Definition cast_to_u32 {E} (sz : Z) : outcome E Z := unwrap (checked 32 sz).

Definition new {E} (oc : bool) (p : Z) (m : Module) : outcome E VMOffsets :=
  owned ← cast_to_u32 (Z.of_nat (length (filter (fun shared => shared = false)
                         (drop (Z.to_nat (m_imported_memories m)) (memory_plans m)))));
  funcs ← cast_to_u32 (m_imported_funcs m);
  tables ← cast_to_u32 (m_imported_tables m);
  memories ← cast_to_u32 (m_imported_memories m);
  globals ← cast_to_u32 (m_imported_globals m);
  dt ← arith oc 64 (m_tables m - m_imported_tables m);
  def_tables ← cast_to_u32 dt;
  dm ← arith oc 64 (Z.of_nat (length (memory_plans m)) - m_imported_memories m);
  def_memories ← cast_to_u32 dm;
  dg ← arith oc 64 (m_globals m - m_imported_globals m);
  def_globals ← cast_to_u32 dg;
  escaped ← cast_to_u32 (m_escaped_funcs m);
  caches ← cast_to_u32 (m_call_indirect_caches m);
  from oc {| ptr := p; num_imported_functions := funcs; num_imported_tables := tables;
             num_imported_memories := memories; num_imported_globals := globals;
             num_defined_tables := def_tables; num_defined_memories := def_memories;
             num_owned_memories := owned; num_defined_globals := def_globals;
             num_escaped_funcs := escaped; num_call_indirect_caches := caches |}.

(** [region_sizes]: each field's size as the distance to the next one, from the
    last field to the first. *)
Definition all_regions : list region :=
  [magic; runtime_limits; builtin_functions; callee; epoch_ptr; gc_heap_base; gc_heap_bound;
   gc_heap_data; store; type_ids; imported_functions; imported_tables; imported_memories;
   imported_globals; defined_tables; defined_memories; owned_memories; defined_globals;
   defined_func_refs; call_indirect_caches].

Fixpoint sizes_from {E} (o : VMOffsets) (rs : list region) (last : Z)
  : outcome E (list (region * Z)) :=
  match rs with
  | [] => assert_ (last =? 0);; Ok []
  | r :: rs' =>
      assert_ (offset o r <=? last);;
      l ← sizes_from o rs' (offset o r);
      Ok ((r, last - offset o r) :: l)
  end.
Definition region_sizes {E} (o : VMOffsets) : outcome E (list (region * Z)) :=
  sizes_from o (reverse all_regions) (size o).

(** ** Accessors *)

Section Accessors.
  Context {E : Type} (oc : bool).
  Implicit Types (o : VMOffsets) (index : Z).

Definition pointer_size o : Z := ptr (fields o).
Definition vmctx_magic o : Z := offset o magic.
Definition vmctx_runtime_limits o : Z := offset o runtime_limits.
Definition vmctx_callee o : Z := offset o callee.
Definition vmctx_epoch_ptr o : Z := offset o epoch_ptr.
Definition vmctx_gc_heap_base o : Z := offset o gc_heap_base.
Definition vmctx_gc_heap_bound o : Z := offset o gc_heap_bound.
Definition vmctx_gc_heap_data o : Z := offset o gc_heap_data.
Definition vmctx_store o : Z := offset o store.
Definition vmctx_type_ids_array o : Z := offset o type_ids.
Definition vmctx_imported_functions_begin o : Z := offset o imported_functions.
Definition vmctx_imported_tables_begin o : Z := offset o imported_tables.
Definition vmctx_imported_memories_begin o : Z := offset o imported_memories.
Definition vmctx_imported_globals_begin o : Z := offset o imported_globals.
Definition vmctx_tables_begin o : Z := offset o defined_tables.
Definition vmctx_memories_begin o : Z := offset o defined_memories.
Definition vmctx_owned_memories_begin o : Z := offset o owned_memories.
Definition vmctx_globals_begin o : Z := offset o defined_globals.
Definition vmctx_func_refs_begin o : Z := offset o defined_func_refs.
Definition vmctx_builtin_functions o : Z := offset o builtin_functions.
Definition vmctx_call_indirec_caches_begin o : Z := offset o call_indirect_caches.
Definition size_of_vmctx o : Z := size o.

(** [begin + index * elem] after the check of the index. *)
Definition element (count begin elem index : Z) : outcome E Z :=
  assert_ (index <? count);;
  d ← arith oc 32 (index * elem);
  arith oc 32 (begin + d).

Definition vmctx_vmfunction_import o index : outcome E Z :=
  element (num_imported_functions (fields o)) (vmctx_imported_functions_begin o) (size_of_vmfunction_import (pointer_size o)) index.
Definition vmctx_vmtable_import o index : outcome E Z :=
  element (num_imported_tables (fields o)) (vmctx_imported_tables_begin o) (size_of_vmtable_import (pointer_size o)) index.
Definition vmctx_vmmemory_import o index : outcome E Z :=
  element (num_imported_memories (fields o)) (vmctx_imported_memories_begin o) (size_of_vmmemory_import (pointer_size o)) index.
Definition vmctx_vmglobal_import o index : outcome E Z :=
  element (num_imported_globals (fields o)) (vmctx_imported_globals_begin o) (size_of_vmglobal_import (pointer_size o)) index.
Definition vmctx_vmtable_definition o index : outcome E Z :=
  element (num_defined_tables (fields o)) (vmctx_tables_begin o) (size_of_vmtable_definition (pointer_size o)) index.
Definition vmctx_vmmemory_pointer o index : outcome E Z :=
  element (num_defined_memories (fields o)) (vmctx_memories_begin o) (size_of_vmmemory_pointer (pointer_size o)) index.
Definition vmctx_vmmemory_definition o index : outcome E Z :=
  element (num_owned_memories (fields o)) (vmctx_owned_memories_begin o) (size_of_vmmemory_definition (pointer_size o)) index.
Definition vmctx_vmglobal_definition o index : outcome E Z :=
  element (num_defined_globals (fields o)) (vmctx_globals_begin o) (size_of_vmglobal_definition (pointer_size o)) index.
(** The reserved index is [u32::MAX]. *)
Definition vmctx_func_ref o index : outcome E Z :=
  assert_ (negb (index =? u32_max));;
  element (num_escaped_funcs (fields o)) (vmctx_func_refs_begin o) (size_of_vm_func_ref (pointer_size o)) index.
Definition vmctx_call_indirect_cache o call_site : outcome E Z :=
  element (num_call_indirect_caches (fields o)) (vmctx_call_indirec_caches_begin o)
    (size_of_vmcall_indirect_cache (pointer_size o)) call_site.

(** A field of an element. *)
Definition field_of (elem : outcome E Z) (field : Z) : outcome E Z :=
  e ← elem;
  arith oc 32 (e + field).

Definition vmctx_vmfunction_import_wasm_call o index : outcome E Z :=
  field_of (vmctx_vmfunction_import o index) (vmfunction_import_wasm_call (pointer_size o)).
Definition vmctx_vmfunction_import_array_call o index : outcome E Z :=
  field_of (vmctx_vmfunction_import o index) (vmfunction_import_array_call (pointer_size o)).
Definition vmctx_vmfunction_import_vmctx o index : outcome E Z :=
  field_of (vmctx_vmfunction_import o index) (vmfunction_import_vmctx (pointer_size o)).
Definition vmctx_vmtable_import_from o index : outcome E Z :=
  field_of (vmctx_vmtable_import o index) (vmtable_import_from (pointer_size o)).
Definition vmctx_vmtable_definition_base o index : outcome E Z :=
  field_of (vmctx_vmtable_definition o index) (vmtable_definition_base (pointer_size o)).
Definition vmctx_vmtable_definition_current_elements o index : outcome E Z :=
  field_of (vmctx_vmtable_definition o index) (vmtable_definition_current_elements (pointer_size o)).
Definition vmctx_vmmemory_import_from o index : outcome E Z :=
  field_of (vmctx_vmmemory_import o index) (vmmemory_import_from (pointer_size o)).
Definition vmctx_vmmemory_import_vmctx o index : outcome E Z :=
  field_of (vmctx_vmmemory_import o index) (vmmemory_import_vmctx (pointer_size o)).
Definition vmctx_vmmemory_definition_base o index : outcome E Z :=
  field_of (vmctx_vmmemory_definition o index) (vmmemory_definition_base (pointer_size o)).
Definition vmctx_vmmemory_definition_current_length o index : outcome E Z :=
  field_of (vmctx_vmmemory_definition o index) (vmmemory_definition_current_length (pointer_size o)).
Definition vmctx_vmglobal_import_from o index : outcome E Z :=
  field_of (vmctx_vmglobal_import o index) (vmglobal_import_from (pointer_size o)).
Definition vmctx_call_indirect_cache_wasm_call o index : outcome E Z :=
  field_of (vmctx_call_indirect_cache o index) (vmcall_indirect_cache_wasm_call (pointer_size o)).
Definition vmctx_call_indirect_cache_index o index : outcome E Z :=
  field_of (vmctx_call_indirect_cache o index) (vmcall_indirect_cache_index (pointer_size o)).
End Accessors.

(** ** The layout in exact arithmetic *)

Definition step (l : line) (next : Z) : Z :=
  match l with
  | Field _ sz => next + sz
  | Array _ count elem => next + count * elem
  | Align a => align_up next a
  end.

(** Each field with its offset and its size. *)
Fixpoint placed (ls : list line) (next : Z) : list (region * Z * Z) :=
  match ls with
  | [] => []
  | l :: ls' =>
      match l with
      | Field r sz => [(r, next, sz)]
      | Array r count elem => [(r, next, count * elem)]
      | Align _ => []
      end ++ placed ls' (step l next)
  end.

Fixpoint end_of (ls : list line) (next : Z) : Z :=
  match ls with
  | [] => next
  | l :: ls' => end_of ls' (step l next)
  end.

Definition line_ok (l : line) : Prop :=
  match l with
  | Field _ sz => 0 <= sz
  | Array _ count elem => 0 <= count /\ 0 <= elem
  | Align a => 0 < a <= 16
  end.

Lemma align_up_bounds x a : 0 < a -> x <= align_up x a < x + a /\ align_up x a mod a = 0.
Proof.
  intros Ha. unfold align_up. split; [|apply Z.mod_mul; lia].
  pose proof (Z.div_mod (x + (a - 1)) a). pose proof (Z.mod_pos_bound (x + (a - 1)) a). lia.
Qed.

Lemma step_mono l next : line_ok l -> next <= step l next.
Proof.
  destruct l as [r sz|r c e|a]; cbn [step line_ok]; [lia|nia|].
  intros Ha. destruct (align_up_bounds next a); lia.
Qed.

Lemma end_mono ls next : Forall line_ok ls -> next <= end_of ls next.
Proof.
  intros H. revert next. induction H as [|l ls Hl _ IH]; intros next; cbn [end_of]; [done|].
  pose proof (step_mono l next Hl). specialize (IH (step l next)). lia.
Qed.

Lemma lay_exact {E} oc ls next :
  Forall line_ok ls -> 0 <= next -> end_of ls next + 16 <= 2 ^ 32 ->
  lay (E:=E) oc ls next = Ok (map fst (placed ls next), end_of ls next).
Proof.
  intros H. revert next. induction H as [|l ls Hl Hls IH]; intros next Hn Hfit; [done|].
  cbn [end_of placed] in *. pose proof (end_mono ls (step l next) Hls) as Hmono.
  pose proof (step_mono l next Hl) as Hstep. specialize (IH (step l next) ltac:(lia) Hfit).
  destruct l as [r sz|r c e|a]; cbn [lay line_ok step app map fst] in *.
  - unfold cadd, checked. rewrite in_ub_true by (unfold in_u; lia). cbn [unwrap mbind outcome_bind].
    by rewrite IH.
  - assert (0 <= c * e) by nia. unfold cadd, cmul, checked. rewrite in_ub_true by (unfold in_u; lia).
    cbn [unwrap mbind outcome_bind]. rewrite in_ub_true by (unfold in_u; lia).
    cbn [unwrap mbind outcome_bind]. by rewrite IH.
  - pose proof (align_up_bounds next a ltac:(lia)) as [? _].
    unfold align. rewrite arith_ok by (unfold in_u; lia). cbn [mbind outcome_bind].
    fold (align_up next a). apply IH.
Qed.

Definition line_region (l : line) : option region :=
  match l with Field r _ | Array r _ _ => Some r | Align _ => None end.

(** A field placed first, or one placed after. *)
Lemma placed_cons l ls next r o s :
  (r, o, s) ∈ placed (l :: ls) next ->
  (o = next /\ step l next = next + s /\ line_region l = Some r) \/ (r, o, s) ∈ placed ls (step l next).
Proof.
  cbn [placed]. intros [Hin|Hin]%list.elem_of_app; [left|by right].
  destruct l as [r' sz|r' c e|a]; [| |set_solver];
    apply list_elem_of_singleton in Hin; injection Hin as -> -> ->; done.
Qed.

Lemma placed_within ls next r o s :
  Forall line_ok ls -> (r, o, s) ∈ placed ls next ->
  next <= o /\ 0 <= s /\ o + s <= end_of ls next.
Proof.
  intros H. revert next. induction H as [|l ls Hl Hls IH]; intros next Hin; [set_solver|].
  pose proof (end_mono ls (step l next) Hls). pose proof (step_mono l next Hl). cbn [end_of].
  apply placed_cons in Hin as [(-> & Hs & _)|Hin]; [lia|]. apply IH in Hin. lia.
Qed.

Lemma placed_apart ls next x y :
  Forall line_ok ls -> x ∈ placed ls next -> y ∈ placed ls next ->
  x.1.1 = y.1.1 \/ x.1.2 + x.2 <= y.1.2 \/ y.1.2 + y.2 <= x.1.2.
Proof.
  intros H. revert next. induction H as [|l ls Hl Hls IH]; intros next Hx Hy; [set_solver|].
  destruct x as [[rx ox] sx], y as [[ry oy] sy]. cbn [fst snd]. pose proof (placed_within ls) as Hin.
  apply placed_cons in Hx as [(-> & Hsx & Hrx)|Hx], Hy as [(-> & Hsy & Hry)|Hy].
  - left. congruence.
  - apply Hin in Hy; [|done]. lia.
  - apply Hin in Hx; [|done]. lia.
  - by apply (IH _ Hx Hy).
Qed.

(** Offsets stay multiples of [p] while the sizes and alignments are. *)
Definition multiple (p : Z) (l : line) : Prop :=
  match l with
  | Field _ sz => sz mod p = 0
  | Array _ _ elem => elem mod p = 0
  | Align a => 0 < a /\ a mod p = 0
  end.

Lemma step_multiple p l next : 0 < p -> multiple p l -> next mod p = 0 -> step l next mod p = 0.
Proof.
  intros Hp Hl Hn. destruct l as [r sz|r c e|a]; cbn [step multiple] in *.
  - by rewrite Z.add_mod, Hn, Hl by lia.
  - by rewrite Z.add_mod, Hn, Z.mul_mod, Hl, Z.mul_0_r by lia.
  - destruct Hl as [Ha Hap]. unfold align_up. by rewrite Z.mul_mod, Hap, Z.mul_0_r by lia.
Qed.

Lemma placed_multiple p ls next r o s :
  0 < p -> Forall (multiple p) ls -> next mod p = 0 -> (r, o, s) ∈ placed ls next -> o mod p = 0.
Proof.
  intros Hp H. revert next. induction H as [|l ls Hl Hls IH]; intros next Hn Hin; [set_solver|].
  apply placed_cons in Hin as [[-> _]|Hin]; [done|].
  apply (IH (step l next)); [by apply step_multiple|done].
Qed.

(** ** Properties of the layout *)

Definition region_size (f : VMOffsetsFields) (r : region) : Z :=
  let p := ptr f in
  match r with
  | magic => 4
  | store => p * 2
  | imported_functions => num_imported_functions f * size_of_vmfunction_import p
  | imported_tables => num_imported_tables f * size_of_vmtable_import p
  | imported_memories => num_imported_memories f * size_of_vmmemory_import p
  | imported_globals => num_imported_globals f * size_of_vmglobal_import p
  | defined_tables => num_defined_tables f * size_of_vmtable_definition p
  | defined_memories => num_defined_memories f * size_of_vmmemory_pointer p
  | owned_memories => num_owned_memories f * size_of_vmmemory_definition p
  | defined_globals => num_defined_globals f * size_of_vmglobal_definition p
  | defined_func_refs => num_escaped_funcs f * size_of_vm_func_ref p
  | call_indirect_caches => num_call_indirect_caches f * size_of_vmcall_indirect_cache p
  | _ => p
  end.

Record fields_ok (f : VMOffsetsFields) : Prop := {
  ok_ptr : ptr f = 4 \/ ptr f = 8;
  ok_funcs : in_u 32 (num_imported_functions f);
  ok_tables : in_u 32 (num_imported_tables f);
  ok_memories : in_u 32 (num_imported_memories f);
  ok_globals : in_u 32 (num_imported_globals f);
  ok_def_tables : in_u 32 (num_defined_tables f);
  ok_def_memories : in_u 32 (num_defined_memories f);
  ok_owned : in_u 32 (num_owned_memories f);
  ok_def_globals : in_u 32 (num_defined_globals f);
  ok_escaped : in_u 32 (num_escaped_funcs f);
  ok_caches : in_u 32 (num_call_indirect_caches f)
}.

Ltac unfold_sizes := unfold size_of_vmfunction_import, size_of_vmtable_import,
  size_of_vmmemory_import, size_of_vmglobal_import, size_of_vmtable_definition,
  size_of_vmmemory_pointer, size_of_vmmemory_definition, size_of_vmglobal_definition,
  size_of_vm_func_ref, size_of_vmcall_indirect_cache in *.

(** The size of the context in exact arithmetic. *)
Abbreviation exact_size f := (end_of (layout f) 0).

Lemma layout_ok f : fields_ok f -> Forall line_ok (layout f).
Proof.
  intros [Hp ? ? ? ? ? ? ? ? ? ?]. unfold in_u in *.
  repeat constructor; cbn [line_ok];
    unfold_sizes; lia.
Qed.

Lemma exact_regions f : map (fun x => x.1.1) (placed (layout f) 0) = all_regions.
Proof. reflexivity. Qed.

Lemma exact_sizes f : map snd (placed (layout f) 0) = map (region_size f) all_regions.
Proof. reflexivity. Qed.

Lemma all_regions_complete r : r ∈ all_regions.
Proof. apply list_elem_of_In. destruct r; cbn; tauto. Qed.

Lemma all_regions_NoDup : NoDup all_regions.
Proof. apply (bool_decide_unpack _). vm_compute. exact I. Qed.

Lemma assoc_elem r o (l : list (region * Z)) : NoDup l.*1 -> (r, o) ∈ l -> assoc r l = o.
Proof.
  induction l as [|[r' o'] l IH]; cbn [assoc]; [set_solver|]. rewrite fmap_cons.
  intros [Hn Hnd]%list.NoDup_cons [[= -> ->]|Hin]%list.elem_of_cons.
  - by rewrite decide_True.
  - rewrite decide_False; [by apply IH|]. intros ->. apply Hn, list_elem_of_fmap. by exists (r', o).
Qed.

Lemma placed_size f r o s : (r, o, s) ∈ placed (layout f) 0 -> s = region_size f r.
Proof.
  pose proof (exact_regions f) as Hr. pose proof (exact_sizes f) as Hs.
  set (l := placed (layout f) 0) in *. intros Hin. apply list_elem_of_lookup in Hin as [i Hi].
  pose proof (f_equal (fun x => x !! i) Hs) as H1. pose proof (f_equal (fun x => x !! i) Hr) as H2.
  cbn beta in H1, H2. rewrite !list_lookup_fmap in H1. rewrite list_lookup_fmap in H2.
  rewrite Hi in H1, H2. cbn in H1, H2. rewrite <- H2 in H1. by injection H1.
Qed.

Lemma placed_keys f : (map fst (placed (layout f) 0)).*1 = all_regions.
Proof.
  rewrite <- (exact_regions f). set (l := placed (layout f) 0). apply map_map.
Qed.

Lemma offset_entry f r o s :
  (r, o, s) ∈ placed (layout f) 0 -> assoc r (map fst (placed (layout f) 0)) = o.
Proof.
  intros Hin. apply assoc_elem; [rewrite placed_keys; apply all_regions_NoDup|].
  apply list_elem_of_fmap. by exists (r, o, s).
Qed.

(** The entry of a field in the exact layout. *)
Lemma exact_entry f r :
  exists o, (r, o, region_size f r) ∈ placed (layout f) 0 /\
    assoc r (map fst (placed (layout f) 0)) = o.
Proof.
  assert (Hin : r ∈ map (fun x => x.1.1) (placed (layout f) 0))
    by (rewrite exact_regions; apply all_regions_complete).
  apply list_elem_of_fmap in Hin as ([[r' o] s] & -> & Hin). cbn [fst].
  rewrite (placed_size f r' o s Hin) in Hin. exists o. split; [done|]. by eapply offset_entry.
Qed.

Lemma placed_head f : exists l, placed (layout f) 0 = (magic, 0, 4) :: l.
Proof. unfold layout. cbn [placed app]. by eexists. Qed.

Lemma from_ok {E} oc f :
  fields_ok f -> exact_size f + 16 <= 2 ^ 32 ->
  from (E:=E) oc f =
    Ok {| fields := f; offsets := map fst (placed (layout f) 0); size := exact_size f |}.
Proof.
  intros Hok Hfit. unfold from.
  rewrite (lay_exact oc (layout f) 0 (layout_ok f Hok) (Z.le_refl 0) Hfit).
  destruct (placed_head f) as [l Hl]. rewrite Hl. reflexivity.
Qed.

Definition rest (f : VMOffsetsFields) : list line := drop 2 (layout f).

Lemma placed_rest f : placed (layout f) 0 = (magic, 0, 4) :: placed (rest f) (align_up 4 (ptr f)).
Proof. unfold rest, layout. cbn [placed app step drop]. reflexivity. Qed.

Lemma placed_second f :
  (runtime_limits, align_up 4 (ptr f), ptr f) ∈ placed (layout f) 0 /\
  (builtin_functions, align_up 4 (ptr f) + ptr f, ptr f) ∈ placed (layout f) 0.
Proof.
  unfold layout. cbn [placed app step]. split.
  - apply list_elem_of_further, list_elem_of_here.
  - do 2 apply list_elem_of_further. apply list_elem_of_here.
Qed.

Lemma placed_globals f :
  exists x s, (defined_globals, align_up x 16, s) ∈ placed (layout f) 0.
Proof.
  unfold layout. cbn [placed app step]. eexists _, _.
  do 17 apply list_elem_of_further. apply list_elem_of_here.
Qed.

Lemma rest_multiple f : fields_ok f -> Forall (multiple (ptr f)) (rest f).
Proof.
  intros [Hp _ _ _ _ _ _ _ _ _ _]. unfold rest, layout. cbn [drop].
  repeat constructor; cbn [multiple];
    unfold_sizes; destruct Hp as [->| ->]; reflexivity.
Qed.

Lemma ptr_pos f : fields_ok f -> 0 < ptr f <= 8.
Proof. intros [[->| ->] _ _ _ _ _ _ _ _ _ _]; lia. Qed.

(** The offset of a field in the exact layout. *)
Definition exact_offset (f : VMOffsetsFields) (r : region) : Z :=
  assoc r (map fst (placed (layout f) 0)).

Lemma exact_within f r :
  fields_ok f -> 0 <= exact_offset f r /\ exact_offset f r + region_size f r <= exact_size f.
Proof.
  intros Hok. unfold exact_offset. destruct (exact_entry f r) as (o & Hin & ->).
  apply placed_within in Hin; [|by apply layout_ok]. lia.
Qed.

Lemma exact_apart f r r' :
  fields_ok f -> r <> r' ->
  exact_offset f r + region_size f r <= exact_offset f r' \/
  exact_offset f r' + region_size f r' <= exact_offset f r.
Proof.
  intros Hok Hne. unfold exact_offset. destruct (exact_entry f r) as (o & Hin & ->).
  destruct (exact_entry f r') as (o' & Hin' & ->).
  destruct (placed_apart _ _ _ _ (layout_ok f Hok) Hin Hin') as [He|He]; [done|exact He].
Qed.

Lemma exact_aligned f r : fields_ok f -> exact_offset f r mod ptr f = 0.
Proof.
  intros Hok. pose proof (ptr_pos f Hok) as Hp. unfold exact_offset.
  destruct (exact_entry f r) as (o & Hin & ->). rewrite placed_rest in Hin.
  apply list.elem_of_cons in Hin as [[= -> -> _]|Hin]; [done|].
  apply (placed_multiple (ptr f) _ _ _ _ _ ltac:(lia) (rest_multiple f Hok)) in Hin; [done|].
  apply (align_up_bounds 4 (ptr f)); lia.
Qed.

Lemma exact_globals f : exact_offset f defined_globals mod 16 = 0.
Proof.
  destruct (placed_globals f) as (x & s & Hin). unfold exact_offset.
  rewrite (offset_entry _ _ _ _ Hin). apply (align_up_bounds x 16); lia.
Qed.

Lemma exact_limits f : exact_offset f runtime_limits = align_up 4 (ptr f).
Proof. exact (offset_entry _ _ _ _ (proj1 (placed_second f))). Qed.

Lemma exact_builtins f : exact_offset f builtin_functions = align_up 4 (ptr f) + ptr f.
Proof. exact (offset_entry _ _ _ _ (proj2 (placed_second f))). Qed.

Lemma from_exact {E} oc f :
  fields_ok f -> exact_size f + 16 <= 2 ^ 32 ->
  exists o, from (E:=E) oc f = Ok o /\ fields o = f /\ size o = exact_size f /\
    forall r, offset o r = exact_offset f r.
Proof. intros Hok Hfit. eexists. split; [by apply from_ok|]. done. Qed.

(** C34: When the exact size of the context fits in 32 bits (with room for the
    last alignment), the offsets are computed without a panic and lay the
    fields out soundly: every field lies inside the context, no two fields
    overlap, every field is aligned to the pointer size and the globals to 16
    bytes, and the two offsets that are also published as constants of the
    pointer size are the ones computed. *)
Theorem vmctx_layout {E} oc f (Hok : fields_ok f) (Hfit : exact_size f + 16 <= 2 ^ 32) :
  exists o, from (E:=E) oc f = Ok o /\ fields o = f /\
    (forall r, 0 <= offset o r /\ offset o r + region_size f r <= size o) /\
    (forall r r', r <> r' ->
       offset o r + region_size f r <= offset o r' \/ offset o r' + region_size f r' <= offset o r) /\
    (forall r, offset o r mod ptr f = 0) /\ offset o defined_globals mod 16 = 0 /\
    vmcontext_runtime_limits (E:=E) oc (ptr f) = Ok (offset o runtime_limits) /\
    vmcontext_builtin_functions (E:=E) oc (ptr f) = Ok (offset o builtin_functions).
Proof.
  destruct (from_exact (E:=E) oc f Hok Hfit) as (o & Hfrom & Hf & Hsz & Hoff).
  exists o. rewrite Hfrom, Hf, Hsz, !Hoff, exact_limits, exact_builtins. split_and!; try done.
  - intros r. rewrite Hoff. by apply exact_within.
  - intros r r' Hne. rewrite !Hoff. by apply exact_apart.
  - intros r. rewrite Hoff. by apply exact_aligned.
  - apply exact_globals.
  - destruct (ok_ptr f Hok) as [->| ->]; by destruct oc.
  - destruct (ok_ptr f Hok) as [->| ->]; by destruct oc.
Qed.

Definition sample : VMOffsetsFields := {|
  ptr := 8; num_imported_functions := 3; num_imported_tables := 1; num_imported_memories := 1;
  num_imported_globals := 2; num_defined_tables := 1; num_defined_memories := 2;
  num_owned_memories := 1; num_defined_globals := 4; num_escaped_funcs := 5;
  num_call_indirect_caches := 2 |}.

Lemma sample_ok : fields_ok sample.
Proof. split; unfold in_u; cbn; lia. Qed.

Lemma vmctx_layout_witness :
  exists o, from (E:=unit) true sample = Ok o /\ offset o defined_globals mod 16 = 0 /\
    offset o runtime_limits = 8 /\ size o = 528.
Proof.
  destruct (vmctx_layout (E:=unit) true sample sample_ok) as (o & Ho & _ & _ & _ & _ & Hg & _);
    [by vm_compute|].
  exists o. split; [done|]. split; [done|]. vm_compute in Ho. injection Ho as <-. done.
Defined.

(** ** The accessors of the arrays *)

(** An array of the context: its field, how many elements of which size it has,
    and the accessor of its elements. *)
Record array := {
  a_region : region;
  a_count : VMOffsetsFields -> Z;
  a_elem : Z -> Z;
  a_get : forall E : Type, bool -> VMOffsets -> Z -> outcome E Z
}.

Definition functions_array := {| a_region := imported_functions; a_count := num_imported_functions;
  a_elem := size_of_vmfunction_import; a_get := @vmctx_vmfunction_import |}.
Definition import_tables_array := {| a_region := imported_tables; a_count := num_imported_tables;
  a_elem := size_of_vmtable_import; a_get := @vmctx_vmtable_import |}.
Definition import_memories_array := {| a_region := imported_memories; a_count := num_imported_memories;
  a_elem := size_of_vmmemory_import; a_get := @vmctx_vmmemory_import |}.
Definition import_globals_array := {| a_region := imported_globals; a_count := num_imported_globals;
  a_elem := size_of_vmglobal_import; a_get := @vmctx_vmglobal_import |}.
Definition tables_array := {| a_region := defined_tables; a_count := num_defined_tables;
  a_elem := size_of_vmtable_definition; a_get := @vmctx_vmtable_definition |}.
Definition memories_array := {| a_region := defined_memories; a_count := num_defined_memories;
  a_elem := size_of_vmmemory_pointer; a_get := @vmctx_vmmemory_pointer |}.
Definition owned_array := {| a_region := owned_memories; a_count := num_owned_memories;
  a_elem := size_of_vmmemory_definition; a_get := @vmctx_vmmemory_definition |}.
Definition globals_array := {| a_region := defined_globals; a_count := num_defined_globals;
  a_elem := size_of_vmglobal_definition; a_get := @vmctx_vmglobal_definition |}.
Definition func_refs_array := {| a_region := defined_func_refs; a_count := num_escaped_funcs;
  a_elem := size_of_vm_func_ref; a_get := @vmctx_func_ref |}.
Definition caches_array := {| a_region := call_indirect_caches; a_count := num_call_indirect_caches;
  a_elem := size_of_vmcall_indirect_cache; a_get := @vmctx_call_indirect_cache |}.

Definition arrays : list array :=
  [functions_array; import_tables_array; import_memories_array; import_globals_array; tables_array;
   memories_array; owned_array; globals_array; func_refs_array; caches_array].

(** A field of the elements of an array: where it is in the element, its size
    and its accessor. *)
Record member := {
  m_array : array;
  m_field : Z -> Z;
  m_size : Z -> Z;
  m_get : forall E : Type, bool -> VMOffsets -> Z -> outcome E Z
}.

Definition pointer_field (a : array) fld get : member :=
  {| m_array := a; m_field := fld; m_size p := p; m_get := get |}.
Definition members : list member :=
  [ pointer_field functions_array vmfunction_import_wasm_call (@vmctx_vmfunction_import_wasm_call);
    pointer_field functions_array vmfunction_import_array_call (@vmctx_vmfunction_import_array_call);
    pointer_field functions_array vmfunction_import_vmctx (@vmctx_vmfunction_import_vmctx);
    pointer_field import_tables_array vmtable_import_from (@vmctx_vmtable_import_from);
    pointer_field tables_array vmtable_definition_base (@vmctx_vmtable_definition_base);
    {| m_array := tables_array; m_field := vmtable_definition_current_elements;
       m_size := size_of_vmtable_definition_current_elements;
       m_get := @vmctx_vmtable_definition_current_elements |};
    pointer_field import_memories_array vmmemory_import_from (@vmctx_vmmemory_import_from);
    pointer_field import_memories_array vmmemory_import_vmctx (@vmctx_vmmemory_import_vmctx);
    pointer_field owned_array vmmemory_definition_base (@vmctx_vmmemory_definition_base);
    pointer_field owned_array vmmemory_definition_current_length
      (@vmctx_vmmemory_definition_current_length);
    pointer_field import_globals_array vmglobal_import_from (@vmctx_vmglobal_import_from);
    pointer_field caches_array vmcall_indirect_cache_wasm_call (@vmctx_call_indirect_cache_wasm_call);
    pointer_field caches_array vmcall_indirect_cache_index (@vmctx_call_indirect_cache_index) ].

Lemma element_ok {E} oc count begin elem index :
  0 <= index < count -> 0 <= elem -> 0 <= begin -> begin + count * elem < 2 ^ 32 ->
  element (E:=E) oc count begin elem index = Ok (begin + index * elem).
Proof.
  intros Hi He Hb Hfit. unfold element. rewrite (proj2 (Z.ltb_lt index count)) by lia.
  cbn [assert_ mbind outcome_bind]. assert (0 <= index * elem <= count * elem) by nia.
  rewrite arith_ok by (unfold in_u; lia). cbn [mbind outcome_bind]. apply arith_ok. unfold in_u. lia.
Qed.

Lemma element_panic {E} oc count begin elem index :
  count <= index -> element (E:=E) oc count begin elem index = Panic.
Proof. intros H. unfold element. by rewrite (proj2 (Z.ltb_ge index count)). Qed.

(** Every accessor is [element] at its array. *)
Lemma arrays_spec {E} oc a o index :
  a ∈ arrays -> index <> u32_max ->
  a_get a E oc o index =
    element oc (a_count a (fields o)) (offset o (a_region a)) (a_elem a (pointer_size o)) index.
Proof.
  intros Ha Hi. unfold arrays in Ha. rewrite !list.elem_of_cons in Ha.
  repeat destruct Ha as [->|Ha]; [reflexivity..| |reflexivity|by apply not_elem_of_nil in Ha].
  cbn [a_get func_refs_array]. unfold vmctx_func_ref. by rewrite (proj2 (Z.eqb_neq _ _) Hi).
Qed.

Lemma arrays_size a f :
  a ∈ arrays -> fields_ok f -> region_size f (a_region a) = a_count a f * a_elem a (ptr f) /\
    0 <= a_elem a (ptr f) /\ in_u 32 (a_count a f).
Proof.
  intros Ha Hok. pose proof (ptr_pos f Hok). destruct Hok. unfold arrays in Ha.
  rewrite !list.elem_of_cons in Ha.
  repeat destruct Ha as [->|Ha]; [..|by apply not_elem_of_nil in Ha];
    (split_and!; [reflexivity|cbn; unfold_sizes; lia|assumption]).
Qed.

Lemma get_ok {E} oc a f o index :
  a ∈ arrays -> fields_ok f -> exact_size f + 16 <= 2 ^ 32 -> fields o = f ->
  (forall r, offset o r = exact_offset f r) -> 0 <= index < a_count a f ->
  a_get a E oc o index = Ok (offset o (a_region a) + index * a_elem a (ptr f)).
Proof.
  intros Ha Hok Hfit Hf Hoff Hi. destruct (arrays_size a f Ha Hok) as (Hs & He & Hc).
  pose proof (exact_within f (a_region a) Hok) as [Hb Hw]. unfold in_u in Hc.
  rewrite (arrays_spec oc a o index Ha) by (unfold u32_max; lia). unfold pointer_size.
  rewrite Hf, !Hoff. apply element_ok; lia.
Qed.

Lemma get_panic {E} oc a o index :
  a ∈ arrays -> a_count a (fields o) <= index -> a_get a E oc o index = Panic.
Proof.
  intros Ha Hi. destruct (decide (index = u32_max)) as [->|Hn].
  - unfold arrays in Ha. rewrite !list.elem_of_cons in Ha.
    repeat destruct Ha as [->|Ha]; [by apply element_panic..|reflexivity|by apply element_panic|].
    by apply not_elem_of_nil in Ha.
  - rewrite (arrays_spec oc a o index Ha Hn). by apply element_panic.
Qed.

Lemma members_spec {E} oc m o index :
  m ∈ members ->
  m_array m ∈ arrays /\
  m_get m E oc o index = field_of oc (a_get (m_array m) E oc o index) (m_field m (pointer_size o)).
Proof.
  intros Hm. unfold members in Hm. rewrite !list.elem_of_cons in Hm.
  repeat destruct Hm as [->|Hm]; [..|by apply not_elem_of_nil in Hm];
    (split; [unfold arrays; cbn [m_array pointer_field]; repeat first
       [apply list_elem_of_here|apply list_elem_of_further]|reflexivity]).
Qed.

Lemma members_inside m p :
  m ∈ members -> p = 4 \/ p = 8 ->
  0 <= m_field m p /\ 0 < m_size m p /\ m_field m p + m_size m p <= a_elem (m_array m) p.
Proof.
  intros Hm Hp. unfold members in Hm. rewrite !list.elem_of_cons in Hm.
  repeat destruct Hm as [->|Hm]; [..|by apply not_elem_of_nil in Hm];
    destruct Hp as [->| ->]; by vm_compute.
Qed.

(** The fields of one kind of element, in the order of [members], do not overlap. *)
Definition members_ordered (p : Z) : bool :=
  let ok m m' :=
    negb (bool_decide (a_region (m_array m) = a_region (m_array m'))) ||
    (m_field m p + m_size m p <=? m_field m' p) in
  (fix go l := match l with [] => true | m :: l' => forallb (ok m) l' && go l' end) members.

(** The accessors of the arrays of the context: an index in range gives the
    place of that element, inside the array's field and computed without
    overflow, an index out of range panics, and an accessor of a field of the
    element adds to it an offset that stays inside the element; two fields of
    one element do not overlap. *)
Theorem accessors_in_bounds {E} oc f (Hok : fields_ok f) (Hfit : exact_size f + 16 <= 2 ^ 32) :
  exists o, from (E:=E) oc f = Ok o /\
    (forall a index, a ∈ arrays -> 0 <= index < a_count a f ->
       exists v, a_get a E oc o index = Ok v /\
         v = offset o (a_region a) + index * a_elem a (ptr f) /\
         v + a_elem a (ptr f) <= offset o (a_region a) + region_size f (a_region a)) /\
    (forall a index, a ∈ arrays -> a_count a f <= index -> a_get a E oc o index = Panic) /\
    (forall m index v, m ∈ members -> a_get (m_array m) E oc o index = Ok v ->
       0 <= index < a_count (m_array m) f ->
       exists w, m_get m E oc o index = Ok w /\ v <= w /\
         w + m_size m (ptr f) <= v + a_elem (m_array m) (ptr f)) /\
    members_ordered (ptr f) = true.
Proof.
  destruct (from_exact (E:=E) oc f Hok Hfit) as (o & Hfrom & Hf & Hsz & Hoff).
  exists o. split_and!; [done|..].
  - intros a index Ha Hi. eexists. split; [by apply (get_ok oc a f o index)|]. split; [done|].
    destruct (arrays_size a f Ha Hok) as (-> & He & _). nia.
  - intros a index Ha Hi. apply get_panic; [done|by rewrite Hf].
  - intros m index v Hm Hv Hi. destruct (members_spec (E:=E) oc m o index Hm) as [Ha ->].
    destruct (members_inside m (ptr f) Hm (ok_ptr f Hok)) as (H0 & H1 & H2).
    pose proof (get_ok (E:=E) oc _ f o index Ha Hok Hfit Hf Hoff Hi) as Hg.
    destruct (arrays_size _ f Ha Hok) as (Hs & He & _).
    pose proof (exact_within f (a_region (m_array m)) Hok) as [Hb Hw].
    rewrite Hv in Hg. injection Hg as ->. rewrite Hv. unfold pointer_size, field_of. rewrite Hf, Hoff.
    cbn [mbind outcome_bind]. eexists. split; [apply arith_ok; unfold in_u; nia|lia].
  - destruct (ok_ptr f Hok) as [->| ->]; by vm_compute.
Qed.

Lemma accessors_in_bounds_witness :
  exists o, from (E:=unit) false sample = Ok o /\
    vmctx_vmfunction_import_vmctx (E:=unit) false o 2 = Ok 152 /\
    vmctx_vmglobal_definition (E:=unit) false o 4 = Panic.
Proof.
  destruct (accessors_in_bounds (E:=unit) false sample sample_ok) as (o & Ho & _ & Hp & _);
    [by vm_compute|].
  exists o. split; [done|]. split; [vm_compute in Ho; by injection Ho as <-|].
  apply (Hp globals_array 4); [|by vm_compute].
  unfold arrays. do 7 apply list_elem_of_further. apply list_elem_of_here.
Defined.

(** ** Sizes of the fields, from a module *)

Definition before (x y : region * Z * Z) : Prop := x.1.2 + x.2 <= y.1.2.

Lemma placed_sorted ls next : Forall line_ok ls -> StronglySorted before (placed ls next).
Proof.
  intros H. revert next. induction H as [|l ls Hl Hls IH]; intros next; [constructor|].
  cbn [placed]. specialize (IH (step l next)).
  destruct l as [r sz|r c e|a]; cbn [app step] in *; [| |done]; (constructor; [done|]);
    apply list.Forall_forall; intros [[r' o'] s'] Hin; apply placed_within in Hin; unfold before; cbn; [lia|done|lia|done].
Qed.

Lemma sorted_snoc l x : StronglySorted before (l ++ [x]) ->
  StronglySorted before l /\ Forall (fun y => y.1.2 + y.2 <= x.1.2) l.
Proof.
  induction l as [|y l IH]; cbn [app]; [split; constructor|]. intros [Hs Hf]%StronglySorted_inv.
  apply list.Forall_app in Hf as [Hf Hx]. apply IH in Hs as [Hs Hl]. apply Forall_inv in Hx.
  split; [by constructor|by constructor].
Qed.

(** The field sizes tile the space below [hi], each holding its field. *)
Lemma sizes_from_spec {E} o l hi :
  StronglySorted before l -> (forall x, x ∈ l -> offset o x.1.1 = x.1.2 /\ 0 <= x.2 /\ x.1.2 + x.2 <= hi) ->
  match l with [] => hi = 0 | x :: _ => x.1.2 = 0 end ->
  exists res, sizes_from (E:=E) o (reverse (map (fun x => x.1.1) l)) hi = Ok res /\
    foldr (fun x n => x.2 + n) 0 res = hi /\
    Forall2 (fun x y => x.1.1 = y.1 /\ x.2 <= y.2) (reverse l) res.
Proof.
  revert hi. induction l as [|x l IH] using rev_ind; intros hi Hs Hin Hz.
  { rewrite Hz. cbn. exists []. by repeat constructor. }
  apply sorted_snoc in Hs as [Hs Hlt]. rewrite map_app. cbn [map].
  rewrite !reverse_snoc.
  destruct (Hin x ltac:(set_solver)) as (Hox & Hsx & Hhx). cbn [sizes_from].
  rewrite Hox, (proj2 (Z.leb_le (x.1.2) hi)) by lia. cbn [assert_ mbind outcome_bind].
  destruct (IH (x.1.2) Hs) as (res & -> & Hsum & Hres).
  - intros y Hy. rewrite list.Forall_forall in Hlt. specialize (Hlt y Hy).
    destruct (Hin y ltac:(set_solver)) as (? & ? & _). done.
  - by destruct l.
  - cbn [mbind outcome_bind]. eexists. split; [reflexivity|]. cbn. rewrite Hsum.
    split; [lia|]. constructor; [cbn; split; [done|lia]|done].
Qed.

Lemma exact_head f : match placed (layout f) 0 with [] => exact_size f = 0 | x :: _ => x.1.2 = 0 end.
Proof. destruct (placed_head f) as [l ->]. done. Qed.

(** The report of field sizes: it never fails its assertions, names every
    field from the last to the first, gives each at least the bytes of the
    field, and the sizes add up to the size of the context. *)
Theorem region_sizes_tile {E} oc f (Hok : fields_ok f) (Hfit : exact_size f + 16 <= 2 ^ 32) :
  exists o l, from (E:=E) oc f = Ok o /\ region_sizes (E:=E) o = Ok l /\
    map fst l = reverse all_regions /\ foldr (fun x n => x.2 + n) 0 l = size_of_vmctx o /\
    Forall (fun x => region_size f x.1 <= x.2) l.
Proof.
  destruct (from_exact (E:=E) oc f Hok Hfit) as (o & Hfrom & Hf & Hsz & Hoff).
  pose proof (layout_ok f Hok) as Hls.
  destruct (sizes_from_spec (E:=E) o (placed (layout f) 0) (size o) (placed_sorted _ 0 Hls))
    as (res & Hres & Hsum & H2).
  - intros [[r a] s] Hin. rewrite Hoff, Hsz. split; [by apply (offset_entry f r a s)|].
    apply placed_within in Hin; [|done]. cbn [fst snd]. lia.
  - rewrite Hsz. apply exact_head.
  - rewrite exact_regions in Hres. exists o, res. split_and!; [done|done| |done|].
    + rewrite <- (exact_regions f), <- fmap_reverse. symmetry.
      clear -H2. induction H2 as [|x y l l' [Hxy _] _ IH]; cbn; [done|]. by rewrite Hxy, IH.
    + assert (Hall : Forall (fun x => x.2 = region_size f x.1.1) (reverse (placed (layout f) 0))).
      { apply list.Forall_forall. intros [[r a] s] Hin%elem_of_reverse. cbn [fst snd]. by apply (placed_size f r a s). }
      clear -H2 Hall. induction H2 as [|x y l l' [Hxy Hle] _ IH]; [constructor|].
      apply list.Forall_cons in Hall as [Hx Hall]. constructor; [|by apply IH]. rewrite <- Hxy, <- Hx. done.
Qed.

Lemma region_sizes_tile_witness :
  exists o l, from (E:=unit) true sample = Ok o /\ region_sizes (E:=unit) o = Ok l /\
    foldr (fun x n => x.2 + n) 0 l = 528 /\ (owned_memories, 24) ∈ l.
Proof.
  destruct (region_sizes_tile (E:=unit) true sample sample_ok) as (o & l & Ho & Hl & _ & Hs & _);
    [by vm_compute|].
  exists o, l. split_and!; [done|done| |].
  - rewrite Hs. vm_compute in Ho. by injection Ho as <-.
  - vm_compute in Ho. injection Ho as <-. vm_compute in Hl. injection Hl as <-. set_solver.
Defined.

(** A module: the counts fit in 32 bits and the imports are among the items. *)
Record module_ok (m : Module) : Prop := {
  mo_funcs : in_u 32 (m_imported_funcs m);
  mo_tables : 0 <= m_imported_tables m <= m_tables m;
  mo_memories : 0 <= m_imported_memories m <= Z.of_nat (length (memory_plans m));
  mo_globals : 0 <= m_imported_globals m <= m_globals m;
  mo_all_tables : in_u 32 (m_tables m);
  mo_all_memories : in_u 32 (Z.of_nat (length (memory_plans m)));
  mo_all_globals : in_u 32 (m_globals m);
  mo_escaped : in_u 32 (m_escaped_funcs m);
  mo_caches : in_u 32 (m_call_indirect_caches m)
}.

Lemma cast_ok {E} z : in_u 32 z -> cast_to_u32 (E:=E) z = Ok z.
Proof. intros H. unfold cast_to_u32, checked. by rewrite in_ub_true. Qed.

Lemma filter_unshared (l : list bool) :
  Forall (fun shared => shared = false) l -> filter (fun shared => shared = false) l = l.
Proof. induction 1 as [|b l -> _ IH]; [done|]. rewrite filter_cons_True by done. by rewrite IH. Qed.

(** From a module whose counts fit in 32 bits, the offsets are those of the
    fields with the imports subtracted from the totals; the memories an
    instance owns are the unshared ones among those it defines, so that their
    number is at most that of the defined memories. *)
Theorem offsets_of_module {E} oc p m (Hp : p = 4 \/ p = 8) (Hm : module_ok m) :
  exists f, new (E:=E) oc p m = from oc f /\ fields_ok f /\
    num_imported_memories f + num_defined_memories f = Z.of_nat (length (memory_plans m)) /\
    num_imported_tables f + num_defined_tables f = m_tables m /\
    num_imported_globals f + num_defined_globals f = m_globals m /\
    num_owned_memories f <= num_defined_memories f /\
    (Forall (fun shared => shared = false) (memory_plans m) ->
       num_owned_memories f = num_defined_memories f).
Proof.
  destruct Hm as [Hf Ht Hme Hg Hat Ham Hag He Hc].
  set (defined := drop (Z.to_nat (m_imported_memories m)) (memory_plans m)).
  assert (Hlen : Z.of_nat (length defined) =
                 Z.of_nat (length (memory_plans m)) - m_imported_memories m)
    by (unfold defined; rewrite length_drop; lia).
  pose proof (length_filter (fun shared : bool => shared = false) defined) as Hown.
  unfold in_u in *. eexists. split; [|split; [|split; [|split; [|split; [|split]]]]].
  { unfold new. fold defined. rewrite !cast_ok by (unfold in_u; lia). cbn [mbind outcome_bind].
    do 3 (rewrite arith_ok by (unfold in_u; lia); cbn [mbind outcome_bind];
          rewrite cast_ok by (unfold in_u; lia); cbn [mbind outcome_bind]).
    reflexivity. }
  1: constructor; cbn; unfold in_u; lia.
  all: cbn; try lia.
  intros Hall. rewrite <- Hlen. f_equal. f_equal. apply filter_unshared. by apply Forall_drop.
Qed.

Lemma offsets_of_module_witness :
  let m := {| m_imported_funcs := 3; m_imported_tables := 1; m_imported_memories := 1;
              m_imported_globals := 2; m_tables := 2; memory_plans := [false; true; false];
              m_globals := 6; m_escaped_funcs := 5; m_call_indirect_caches := 2 |} in
  exists f, new (E:=unit) true 8 m = from true f /\ fields_ok f /\
    num_owned_memories f <= num_defined_memories f.
Proof.
  intros m. destruct (offsets_of_module (E:=unit) true 8 m) as (f & Hn & Hok & _ & _ & _ & Ho & _).
  - by right.
  - split; unfold in_u; cbn; lia.
  - exists f. done.
Defined.

(** The alignment of the globals adds without a check: with overflow checks
    off, a context that ends 8 bytes below 4 GiB before its globals gets its
    globals at offset 0, over the magic word; with the checks on the same
    numbers panic. *)
Theorem alignment_wraps :
  let f := {| ptr := 8; num_imported_functions := 0; num_imported_tables := 0;
              num_imported_memories := 0; num_imported_globals := 536870900;
              num_defined_tables := 0; num_defined_memories := 0; num_owned_memories := 0;
              num_defined_globals := 1; num_escaped_funcs := 0; num_call_indirect_caches := 0 |} in
  fields_ok f /\ from (E:=unit) true f = Panic /\
  exists o, from (E:=unit) false f = Ok o /\ offset o defined_globals = offset o magic /\
    size_of_vmctx o = 16.
Proof.
  intros f. split; [split; unfold in_u; cbn; lia|]. split; [by vm_compute|].
  eexists. split; [by vm_compute|]. by vm_compute.
Qed.
