(* ===== verification/MetadataSections.v ===== *)
(** * Trap and address sections of a compiled module

    [src/wasmtime-repo/crates/environ/src]: [trap_encoding.rs] and
    [address_map.rs] with the builders in [compile/].  While a module is
    compiled, the builders collect for each function where it can trap and where
    its instructions come from, and write two sections of the image; at run time
    the sections are searched for a program counter.  The crate [object] that
    lays the sections out is the class [ObjectCrate]. *)

From Stdlib Require Import ZArith Lia Sorted.
From stdpp Require Import base list numbers option strings.
From S2P Require Import Prelude Float32.
Open Scope Z_scope.

(** The calls to [object]: [Bytes::read::<U32Bytes<LittleEndian>>] (with [get]),
    [slice_from_bytes::<U32Bytes<LittleEndian>>], [bytes_of_slice] on a vector of
    [U32Bytes] and [append_section_data] with alignment 1. *)
Class ObjectCrate := {
  read_u32 : list Z -> option (Z * list Z);
  slice_from_bytes : list Z -> Z -> option (list Z * list Z);
  bytes_of_slice : list Z -> list Z;
  append_section_data : list Z -> list Z -> list Z
}.

(** What it documents: [U32Bytes<LittleEndian>] is four little-endian bytes, a
    slice of them is read from the front of the bytes, data is appended. *)
Class ObjectLaws `{ObjectCrate} := {
  read_u32_le : forall v rest, in_u 32 v -> read_u32 (le_bytes 4 v ++ rest) = Some (v, rest);
  slice_of_bytes : forall vs rest, Forall (in_u 32) vs ->
    slice_from_bytes (bytes_of_slice vs ++ rest) (Z.of_nat (length vs)) = Some (vs, rest);
  append_data : forall section data, append_section_data section data = section ++ data
}.

(** [?] in a function that returns an [Option]. *)
Definition try_ {E A B} (o : option A) (k : A -> outcome E (option B)) : outcome E (option B) :=
  match o with Some a => k a | None => Ok None end.

(** ** [binary_search_by_key]

    The loop of the standard library on the keys of the slice: [Found i] is its
    [Ok(i)], [Missing i] its [Err(i)].  Each turn shrinks the range, so the
    number of keys is fuel enough. *)

Inductive search := Found (i : nat) | Missing (i : nat).

Fixpoint search_loop (fuel : nat) (keys : list Z) (key : Z) (left right : nat) : search :=
  match fuel with
  | O => Missing left
  | S fuel =>
      if (left <? right)%nat then
        let mid := (left + (right - left) / 2)%nat in
        match keys !! mid with
        | None => Missing left
        | Some k =>
            match k ?= key with
            | Lt => search_loop fuel keys key (mid + 1) right
            | Gt => search_loop fuel keys key left mid
            | Eq => Found mid
            end
        end
      else Missing left
  end.
Definition binary_search (keys : list Z) (key : Z) : search :=
  search_loop (S (length keys)) keys key 0 (length keys).

(** ** Traps *)

Inductive Trap :=
| StackOverflow | MemoryOutOfBounds | HeapMisaligned | TableOutOfBounds | IndirectCallToNull
| BadSignature | IntegerOverflow | IntegerDivisionByZero | BadConversionToInteger
| UnreachableCodeReached | Interrupt | AlwaysTrapAdapter | OutOfFuel | AtomicWaitNonSharedMemory
| NullReference | NullI31Ref | CannotEnterComponent.
#[global] Instance Trap_eq : EqDecision Trap.
Proof. solve_decision. Defined.

(** [trap as u8]: the position of the variant. *)
Definition as_u8 (t : Trap) : Z :=
  match t with
  | StackOverflow => 0 | MemoryOutOfBounds => 1 | HeapMisaligned => 2 | TableOutOfBounds => 3
  | IndirectCallToNull => 4 | BadSignature => 5 | IntegerOverflow => 6
  | IntegerDivisionByZero => 7 | BadConversionToInteger => 8 | UnreachableCodeReached => 9
  | Interrupt => 10 | AlwaysTrapAdapter => 11 | OutOfFuel => 12 | AtomicWaitNonSharedMemory => 13
  | NullReference => 14 | NullI31Ref => 15 | CannotEnterComponent => 16
  end.

(** The tests of the [check!] macro, in order. *)
Definition from_u8 (byte : Z) : option Trap :=
  List.find (fun t => byte =? as_u8 t)
    [ StackOverflow; MemoryOutOfBounds; HeapMisaligned; TableOutOfBounds; IndirectCallToNull;
      BadSignature; IntegerOverflow; IntegerDivisionByZero; BadConversionToInteger;
      UnreachableCodeReached; Interrupt; AlwaysTrapAdapter; OutOfFuel; AtomicWaitNonSharedMemory;
      NullReference; NullI31Ref; CannotEnterComponent ].

(** [Display]. *)
Definition trap_message (t : Trap) : string :=
  let desc := match t with
  | StackOverflow => "call stack exhausted"
  | MemoryOutOfBounds => "out of bounds memory access"
  | HeapMisaligned => "unaligned atomic"
  | TableOutOfBounds => "undefined element: out of bounds table access"
  | IndirectCallToNull => "uninitialized element"
  | BadSignature => "indirect call type mismatch"
  | IntegerOverflow => "integer overflow"
  | IntegerDivisionByZero => "integer divide by zero"
  | BadConversionToInteger => "invalid conversion to integer"
  | UnreachableCodeReached => "wasm `unreachable` instruction executed"
  | Interrupt => "interrupt"
  | AlwaysTrapAdapter => "degenerate component adapter called"
  | OutOfFuel => "all fuel consumed by WebAssembly"
  | AtomicWaitNonSharedMemory => "atomic wait on non-shared memory"
  | NullReference => "null reference"
  | NullI31Ref => "null i31 reference"
  | CannotEnterComponent => "cannot enter component instance"
  end in
  ("wasm trap: " +:+ desc)%string.

Record TrapInformation := { trap_offset : Z; trap_code : Trap }.

Record TrapEncodingBuilder := {
  t_offsets : list Z;
  t_traps : list Z;
  t_last_offset : Z
}.
Definition trap_builder_default : TrapEncodingBuilder :=
  {| t_offsets := []; t_traps := []; t_last_offset := 0 |}.

Fixpoint push_traps {E} (oc : bool) (func_start : Z) (b : TrapEncodingBuilder)
    (traps : list TrapInformation) : outcome E TrapEncodingBuilder :=
  match traps with
  | [] => Ok b
  | info :: traps' =>
      pos ← arith oc 32 (func_start + trap_offset info);
      assert_ (t_last_offset b <=? pos);;
      push_traps oc func_start
        {| t_offsets := t_offsets b ++ [pos]; t_traps := t_traps b ++ [as_u8 (trap_code info)];
           t_last_offset := pos |} traps'
  end.

(** [TrapEncodingBuilder::push]. *)
Definition trap_push {E} (oc : bool) (b : TrapEncodingBuilder) (start end_ : Z)
    (traps : list TrapInformation) : outcome E TrapEncodingBuilder :=
  func_start ← unwrap (checked 32 start);
  func_end ← unwrap (checked 32 end_);
  assert_ (t_last_offset b <=? func_start);;
  b' ← push_traps oc func_start b traps;
  Ok {| t_offsets := t_offsets b'; t_traps := t_traps b'; t_last_offset := func_end |}.

(** ** Source positions *)

(** [FilePos]: [u32::MAX] stands for no position. *)
Definition FilePos := Z.
Definition file_pos_new {E} (pos : Z) : outcome E FilePos :=
  assert_ (negb (pos =? u32_max));;
  Ok pos.
Definition file_offset (p : FilePos) : option Z := if p =? u32_max then None else Some p.
Definition file_pos_default : FilePos := u32_max.

Record InstructionAddressMap := { srcloc : FilePos; code_offset : Z }.

Record AddressMapSection := {
  a_offsets : list Z;
  a_positions : list Z;
  a_last_offset : Z
}.
Definition address_map_default : AddressMapSection :=
  {| a_offsets := []; a_positions := []; a_last_offset := 0 |}.

Fixpoint push_instrs {E} (oc : bool) (func_start : Z) (b : AddressMapSection)
    (instrs : list InstructionAddressMap) : outcome E AddressMapSection :=
  match instrs with
  | [] => Ok b
  | i :: instrs' =>
      pos ← arith oc 32 (func_start + code_offset i);
      assert_ (a_last_offset b <=? pos);;
      push_instrs oc func_start
        {| a_offsets := a_offsets b ++ [pos];
           a_positions := a_positions b ++ [default u32_max (file_offset (srcloc i))];
           a_last_offset := pos |} instrs'
  end.

(** [AddressMapSection::push]. *)
Definition address_push {E} (oc : bool) (b : AddressMapSection) (start end_ : Z)
    (instrs : list InstructionAddressMap) : outcome E AddressMapSection :=
  func_start ← unwrap (checked 32 start);
  func_end ← unwrap (checked 32 end_);
  b' ← push_instrs oc func_start b instrs;
  Ok {| a_offsets := a_offsets b'; a_positions := a_positions b'; a_last_offset := func_end |}.

Section Sections.
  Context `{ObjectCrate} {E : Type}.

(** The two [append_to], on the data of the section they add. *)
Definition trap_append_to (b : TrapEncodingBuilder) : outcome E (list Z) :=
  amt ← unwrap (checked 32 (Z.of_nat (length (t_traps b))));
  let section := append_section_data [] (le_bytes 4 amt) in
  let section := append_section_data section (bytes_of_slice (t_offsets b)) in
  Ok (append_section_data section (t_traps b)).

Definition address_append_to (b : AddressMapSection) : outcome E (list Z) :=
  amt ← unwrap (checked 32 (Z.of_nat (length (a_offsets b))));
  let section := append_section_data [] (le_bytes 4 amt) in
  let section := append_section_data section (bytes_of_slice (a_offsets b)) in
  Ok (append_section_data section (bytes_of_slice (a_positions b))).

Definition lookup_trap_code (dbg : bool) (section : list Z) (offset : Z) : outcome E (option Trap) :=
  try_ (read_u32 section) (fun '(count, section) =>
  try_ (slice_from_bytes section count) (fun '(offsets, traps) =>
  debug_assert dbg (Z.of_nat (length traps) =? count);;
  try_ (checked 32 offset) (fun offset =>
  match binary_search offsets offset with
  | Missing _ => Ok None
  | Found index =>
      debug_assert dbg (index <? length traps)%nat;;
      try_ (traps !! index) (fun byte =>
      let trap := from_u8 byte in
      debug_assert dbg (bool_decide (is_Some trap));;
      Ok trap)
  end))).

Definition parse_address_map (dbg : bool) (section : list Z) : outcome E (option (list Z * list Z)) :=
  try_ (read_u32 section) (fun '(count, section) =>
  try_ (slice_from_bytes section count) (fun '(offsets, section) =>
  try_ (slice_from_bytes section count) (fun '(positions, section) =>
  debug_assert dbg (bool_decide (section = []));;
  Ok (Some (offsets, positions))))).

Definition lookup_file_pos (dbg : bool) (section : list Z) (offset : Z)
  : outcome E (option FilePos) :=
  parsed ← parse_address_map dbg section;
  try_ parsed (fun '(offsets, positions) =>
  try_ (checked 32 offset) (fun offset =>
  try_ (match binary_search offsets offset with
        | Found i => Some i
        | Missing O => None
        | Missing (S n) => Some n
        end) (fun index =>
  Ok (positions !! index)))).

Definition iterate_address_map (dbg : bool) (section : list Z)
  : outcome E (option (list (Z * FilePos))) :=
  parsed ← parse_address_map dbg section;
  try_ parsed (fun '(offsets, positions) => Ok (Some (zip offsets positions))).
End Sections.

(** ** Binary search *)

Definition search_ok (keys : list Z) (key : Z) (r : search) : Prop :=
  match r with
  | Found i => keys !! i = Some key
  | Missing n => (n <= length keys)%nat /\ forall j k, keys !! j = Some k ->
      ((j < n)%nat -> k < key) /\ ((n <= j)%nat -> key < k)
  end.

Lemma sorted_lookup (keys : list Z) i j x y :
  StronglySorted Z.le keys -> keys !! i = Some x -> keys !! j = Some y -> (i <= j)%nat -> x <= y.
Proof.
  intros Hs. revert i j. induction Hs as [|k keys _ IH Hk]; intros i j Hi Hj Hij; [done|].
  destruct i as [|i], j as [|j]; cbn in *; simplify_eq; [done| |lia|by apply (IH i j); try lia].
  rewrite list.Forall_forall in Hk. apply Hk. by apply list_elem_of_lookup_2 in Hj.
Qed.

Lemma search_loop_ok fuel keys key left right :
  StronglySorted Z.le keys -> (left <= right <= length keys)%nat -> (right - left < fuel)%nat ->
  (forall j k, keys !! j = Some k -> ((j < left)%nat -> k < key) /\ ((right <= j)%nat -> key < k)) ->
  search_ok keys key (search_loop fuel keys key left right).
Proof.
  intros Hs. revert left right. induction fuel as [|fuel IH]; intros left right Hlr Hf Hinv; [lia|].
  cbn [search_loop]. destruct (Nat.ltb_spec left right) as [Hlt|Hge].
  - set (mid := (left + (right - left) / 2)%nat).
    assert (Hmid : (left <= mid < right)%nat).
    { unfold mid. pose proof (Nat.div_lt (right - left) 2). lia. }
    destruct (lookup_lt_is_Some_2 keys mid) as [k Hk]; [lia|]. rewrite Hk.
    destruct (Z.compare_spec k key) as [->|Hlt'|Hgt]; [exact Hk| |].
    + apply IH; [lia|lia|]. intros j x Hx. split; [intros Hj|by apply Hinv].
      pose proof (sorted_lookup keys j mid x k Hs Hx Hk). lia.
    + apply IH; [lia|lia|]. intros j x Hx. split; [by apply Hinv|intros Hj].
      pose proof (sorted_lookup keys mid j k x Hs Hk Hx). lia.
  - split; [lia|]. intros j k Hj. destruct (Hinv j k Hj) as [H1 H2]. split; [done|].
    intros ?. apply H2. lia.
Qed.

Lemma binary_search_ok keys key :
  StronglySorted Z.le keys -> search_ok keys key (binary_search keys key).
Proof.
  intros Hs. apply search_loop_ok; [done|lia|lia|]. intros j k Hj%lookup_lt_Some. lia.
Qed.

(** ** Functions in order

    What the builders are fed: for each function its range and its items, with
    [off] where an item is in the function. *)

Section Functions.
  Context {A B : Type} (off : A -> Z) (val : A -> B).

(** Functions do not overlap and come in order, and so do the items of each,
    which lie inside it. *)
Fixpoint ordered (last : Z) (fs : list (Z * Z * list A)) : Prop :=
  match fs with
  | [] => True
  | (start, end_, items) :: fs' =>
      last <= start <= end_ /\ end_ < 2 ^ 32 /\ StronglySorted Z.le (map off items) /\
      Forall (fun i => 0 <= off i /\ start + off i <= end_) items /\ ordered end_ fs'
  end.

(** All items with their place in the text section. *)
Definition table (fs : list (Z * Z * list A)) : list (Z * B) :=
  flat_map (fun '(start, _, items) => map (fun i => (start + off i, val i)) items) fs.

Lemma ordered_table last fs :
  0 <= last -> ordered last fs ->
  StronglySorted Z.le (map fst (table fs)) /\ Forall (fun p => last <= p /\ in_u 32 p) (map fst (table fs)).
Proof.
  revert last. induction fs as [|[[start end_] items] fs IH]; intros last Hl Hord; [by repeat constructor|].
  destruct Hord as (Hse & He & Hs & Hin & Hord). destruct (IH end_ ltac:(lia) Hord) as [Hs' Hf'].
  unfold table. cbn [flat_map]. fold (table fs). rewrite map_app, map_map. cbn [fst].
  assert (Hrest : Forall (fun p => end_ <= p) (map fst (table fs))) by (eapply list.Forall_impl; [exact Hf'|]; cbn; lia).
  split.
  - clear -Hs Hin Hs' Hrest. induction items as [|i items IH]; [done|]. cbn [map app] in *.
    apply StronglySorted_inv in Hs as [Hs Hi]. apply list.Forall_cons in Hin as [Hin Hins].
    constructor; [by apply IH|]. apply list.Forall_app. split.
    + clear -Hi. induction items as [|j items IH]; [constructor|]. cbn [map] in *.
      apply list.Forall_cons in Hi as [? ?]. constructor; [lia|by apply IH].
    + eapply list.Forall_impl; [exact Hrest|]. cbn. lia.
  - apply list.Forall_app. split.
    + clear -Hin Hse He Hl. induction Hin as [|i items Hi _ IH]; constructor; [|done]. unfold in_u. lia.
    + eapply list.Forall_impl; [exact Hf'|]. cbn. intros p [? ?]. split; [lia|done].
Qed.
End Functions.

(** ** Building the sections *)

Abbreviation trap_table := (table trap_offset trap_code).
Abbreviation address_table := (table code_offset srcloc).

Fixpoint trap_push_all {E} (oc : bool) (b : TrapEncodingBuilder)
    (fs : list (Z * Z * list TrapInformation)) : outcome E TrapEncodingBuilder :=
  match fs with
  | [] => Ok b
  | (start, end_, traps) :: fs' => b' ← trap_push oc b start end_ traps; trap_push_all oc b' fs'
  end.

Fixpoint address_push_all {E} (oc : bool) (b : AddressMapSection)
    (fs : list (Z * Z * list InstructionAddressMap)) : outcome E AddressMapSection :=
  match fs with
  | [] => Ok b
  | (start, end_, instrs) :: fs' => b' ← address_push oc b start end_ instrs; address_push_all oc b' fs'
  end.

Lemma push_traps_ok {E} oc start b traps :
  StronglySorted Z.le (map trap_offset traps) ->
  Forall (fun i => t_last_offset b <= start + trap_offset i /\ in_u 32 (start + trap_offset i)) traps ->
  exists l, push_traps (E:=E) oc start b traps = Ok {|
    t_offsets := t_offsets b ++ map (fun i => start + trap_offset i) traps;
    t_traps := t_traps b ++ map (fun i => as_u8 (trap_code i)) traps; t_last_offset := l |}.
Proof.
  revert b. induction traps as [|i traps IH]; intros [os ts last] Hs Hf; cbn [push_traps map].
  { exists last. by rewrite !app_nil_r. }
  apply list.Forall_cons in Hf as [[Hi Hu] Hf]. apply StronglySorted_inv in Hs as [Hs Hle].
  rewrite arith_ok by done. cbn [mbind outcome_bind t_last_offset t_offsets t_traps] in *.
  rewrite (proj2 (Z.leb_le last _)) by done. cbn [assert_ mbind outcome_bind].
  edestruct IH as [l ->]; [exact Hs| |by exists l; cbn; rewrite <- !app_assoc].
  cbn [t_last_offset]. apply list.Forall_forall. intros j Hj. rewrite list.Forall_forall in Hf.
  destruct (Hf j Hj). split; [|done]. rewrite list.Forall_forall in Hle.
  specialize (Hle (trap_offset j)). cut (trap_offset i <= trap_offset j); [lia|].
  apply Hle, list_elem_of_fmap. by exists j.
Qed.

Lemma push_instrs_ok {E} oc start b instrs :
  StronglySorted Z.le (map code_offset instrs) ->
  Forall (fun i => a_last_offset b <= start + code_offset i /\ in_u 32 (start + code_offset i)) instrs ->
  exists l, push_instrs (E:=E) oc start b instrs = Ok {|
    a_offsets := a_offsets b ++ map (fun i => start + code_offset i) instrs;
    a_positions := a_positions b ++ map srcloc instrs; a_last_offset := l |}.
Proof.
  revert b. induction instrs as [|i instrs IH]; intros [os ts last] Hs Hf; cbn [push_instrs map].
  { exists last. by rewrite !app_nil_r. }
  apply list.Forall_cons in Hf as [[Hi Hu] Hf]. apply StronglySorted_inv in Hs as [Hs Hle].
  rewrite arith_ok by done. cbn [mbind outcome_bind a_last_offset a_offsets a_positions] in *.
  rewrite (proj2 (Z.leb_le last _)) by done. cbn [assert_ mbind outcome_bind].
  replace (default u32_max (file_offset (srcloc i))) with (srcloc i)
    by (unfold file_offset; destruct (Z.eqb_spec (srcloc i) u32_max); done).
  edestruct IH as [l ->]; [exact Hs| |by exists l; cbn; rewrite <- !app_assoc].
  cbn [a_last_offset]. apply list.Forall_forall. intros j Hj. rewrite list.Forall_forall in Hf.
  destruct (Hf j Hj). split; [|done]. rewrite list.Forall_forall in Hle.
  specialize (Hle (code_offset j)). cut (code_offset i <= code_offset j); [lia|].
  apply Hle, list_elem_of_fmap. by exists j.
Qed.

(** A function in order keeps its items in range. *)
Lemma items_in_range {A} (off : A -> Z) last start end_ items :
  0 <= last -> last <= start <= end_ -> end_ < 2 ^ 32 ->
  Forall (fun i => 0 <= off i /\ start + off i <= end_) items ->
  Forall (fun i => last <= start + off i /\ in_u 32 (start + off i)) items.
Proof. intros ? ? ? Hf. eapply list.Forall_impl; [exact Hf|]. unfold in_u. cbn. lia. Qed.

Lemma trap_push_all_ok {E} oc b fs :
  0 <= t_last_offset b -> ordered trap_offset (t_last_offset b) fs ->
  exists l, trap_push_all (E:=E) oc b fs = Ok {|
    t_offsets := t_offsets b ++ map fst (trap_table fs);
    t_traps := t_traps b ++ map (fun x => as_u8 x.2) (trap_table fs); t_last_offset := l |}.
Proof.
  revert b. induction fs as [|[[start end_] traps] fs IH]; intros [os ts last] Hl Hord.
  { exists last. cbn. by rewrite !app_nil_r. }
  destruct Hord as (Hse & He & Hs & Hin & Hord). cbn [t_last_offset t_offsets t_traps] in *.
  cbn [trap_push_all]. unfold trap_push, checked. rewrite !in_ub_true by (unfold in_u; lia).
  cbn [unwrap mbind outcome_bind t_last_offset].
  rewrite (proj2 (Z.leb_le last start)) by lia. cbn [assert_ mbind outcome_bind].
  destruct (push_traps_ok (E:=E) oc start {| t_offsets := os; t_traps := ts; t_last_offset := last |} traps Hs)
    as [l ->]; [by eapply items_in_range|]. cbn [mbind outcome_bind t_offsets t_traps].
  edestruct IH as [l' ->]; [|cbn [t_last_offset]; exact Hord|]; [cbn; lia|]. exists l'.
  unfold table. cbn [flat_map t_offsets t_traps]. rewrite !map_app, !map_map, !app_assoc. done.
Qed.

Lemma address_push_all_ok {E} oc b fs :
  0 <= a_last_offset b -> ordered code_offset (a_last_offset b) fs ->
  exists l, address_push_all (E:=E) oc b fs = Ok {|
    a_offsets := a_offsets b ++ map fst (address_table fs);
    a_positions := a_positions b ++ map snd (address_table fs); a_last_offset := l |}.
Proof.
  revert b. induction fs as [|[[start end_] instrs] fs IH]; intros [os ts last] Hl Hord.
  { exists last. cbn. by rewrite !app_nil_r. }
  destruct Hord as (Hse & He & Hs & Hin & Hord). cbn [a_last_offset a_offsets a_positions] in *.
  cbn [address_push_all]. unfold address_push, checked. rewrite !in_ub_true by (unfold in_u; lia).
  cbn [unwrap mbind outcome_bind a_last_offset].
  destruct (push_instrs_ok (E:=E) oc start {| a_offsets := os; a_positions := ts; a_last_offset := last |} instrs Hs)
    as [l ->]; [by eapply items_in_range|]. cbn [mbind outcome_bind a_offsets a_positions].
  edestruct IH as [l' ->]; [|cbn [a_last_offset]; exact Hord|]; [cbn; lia|]. exists l'.
  unfold table. cbn [flat_map a_offsets a_positions]. rewrite !map_app, !map_map, !app_assoc. done.
Qed.

(** ** Searching the sections *)

Lemma from_as_u8 t : from_u8 (as_u8 t) = Some t.
Proof. by destruct t. Qed.

Lemma try_Some {E A B} (a : A) (k : A -> outcome E (option B)) : try_ (Some a) k = k a.
Proof. done. Qed.

Ltac take_Some := rewrite try_Some; cbn beta iota.

Lemma lookup_fst_None {B} (l : list (Z * B)) key n :
  search_ok (map fst l) key (Missing n) -> forall v, (key, v) ∉ l.
Proof.
  intros [_ Hm] v [i Hi]%list_elem_of_lookup_1. destruct (Hm i key) as [H1 H2].
  { by rewrite list_lookup_fmap, Hi. }
  destruct (decide (i < n)%nat) as [Hin|Hin]; [specialize (H1 Hin)|specialize (H2 ltac:(lia))]; lia.
Qed.

Lemma lookup_fst_Found {B} (l : list (Z * B)) key i :
  search_ok (map fst l) key (Found i) -> exists v, l !! i = Some (key, v).
Proof.
  cbn. rewrite list_lookup_fmap. destruct (l !! i) as [[k v]|]; cbn; [|done].
  intros [= ->]. by exists v.
Qed.

Section Lookup.
  Context `{ObjectLaws}.

Lemma trap_lookup_ok {E} dbg (l : list (Z * Trap)) offset :
  StronglySorted Z.le (map fst l) -> Forall (in_u 32) (map fst l) -> Z.of_nat (length l) < 2 ^ 32 ->
  exists r, lookup_trap_code (E:=E) dbg
      (le_bytes 4 (Z.of_nat (length l)) ++ bytes_of_slice (map fst l) ++ map (fun x => as_u8 x.2) l)
      offset = Ok r /\
    match r with Some t => (offset, t) ∈ l | None => forall t, (offset, t) ∉ l end.
Proof.
  intros Hs Hu Hlen. unfold lookup_trap_code. rewrite read_u32_le by (unfold in_u; lia).
  take_Some. pose proof (slice_of_bytes (map fst l)) as Hsl. rewrite length_map in Hsl.
  rewrite Hsl by done. take_Some. rewrite length_map, Z.eqb_refl, debug_assert_true by done.
  cbn [mbind outcome_bind]. destruct (checked 32 offset) as [off|] eqn:Hoff.
  - apply checked_Some in Hoff as [Hoff ->]. rewrite try_Some.
    pose proof (binary_search_ok (map fst l) offset Hs) as Hb.
    destruct (binary_search (map fst l) offset) as [i|n].
    + apply lookup_fst_Found in Hb as [t Hi]. pose proof (lookup_lt_Some _ _ _ Hi) as Hlt.
      rewrite debug_assert_true by (by apply Nat.ltb_lt). cbn [mbind outcome_bind].
      rewrite list_lookup_fmap, Hi. cbn [fmap option_fmap option_map snd]. rewrite try_Some, from_as_u8.
      rewrite debug_assert_true by done. eexists. split; [reflexivity|].
      by apply list_elem_of_lookup_2 in Hi.
    + eexists. split; [reflexivity|]. exact (lookup_fst_None l offset n Hb).
  - eexists. split; [reflexivity|]. intros t Hin. apply checked_None in Hoff. apply Hoff.
    rewrite list.Forall_forall in Hu. apply Hu, list_elem_of_fmap. by exists (offset, t).
Qed.

Lemma parse_ok {E} dbg (l : list (Z * FilePos)) :
  Forall (in_u 32) (map fst l) -> Forall (in_u 32) (map snd l) -> Z.of_nat (length l) < 2 ^ 32 ->
  parse_address_map (E:=E) dbg
    (le_bytes 4 (Z.of_nat (length l)) ++ bytes_of_slice (map fst l) ++ bytes_of_slice (map snd l))
    = Ok (Some (map fst l, map snd l)).
Proof.
  intros Hu Hp Hlen. unfold parse_address_map. rewrite read_u32_le by (unfold in_u; lia).
  take_Some. pose proof (slice_of_bytes (map fst l)) as H1.
  pose proof (slice_of_bytes (map snd l) []) as H2. rewrite length_map in H1, H2.
  rewrite H1 by done. take_Some. rewrite app_nil_r in H2. rewrite H2 by done. take_Some.
  by rewrite debug_assert_true.
Qed.

(** The greatest entry at or below the offset. *)
Definition floor_entry (l : list (Z * FilePos)) (offset : Z) (r : option FilePos) : Prop :=
  match r with
  | Some p => exists o, (o, p) ∈ l /\ o <= offset /\
      forall o' p', (o', p') ∈ l -> o' <= offset -> o' <= o
  | None => forall o p, (o, p) ∈ l -> offset < o
  end.

Lemma floor_search (l : list (Z * FilePos)) offset :
  StronglySorted Z.le (map fst l) ->
  floor_entry l offset
    (match binary_search (map fst l) offset with
     | Found i => map snd l !! i
     | Missing O => None
     | Missing (S n) => map snd l !! n
     end).
Proof.
  intros Hs. pose proof (binary_search_ok (map fst l) offset Hs) as Hb.
  assert (Hat : forall i x, l !! i = Some x -> map fst l !! i = Some x.1 /\ map snd l !! i = Some x.2)
    by (intros i x Hi; by rewrite !list_lookup_fmap, Hi).
  destruct (binary_search (map fst l) offset) as [i|[|n]].
  - apply lookup_fst_Found in Hb as [p Hi]. rewrite (proj2 (Hat _ _ Hi)).
    exists offset. split; [by apply list_elem_of_lookup_2 in Hi|]. split; [done|]. by intros.
  - intros o p [j Hj]%list_elem_of_lookup_1. destruct Hb as [_ Hb].
    destruct (Hb j o) as [_ Hgt]; [by apply Hat in Hj as [-> _]|]. apply Hgt. lia.
  - destruct Hb as [Hn Hb]. rewrite length_map in Hn.
    destruct (lookup_lt_is_Some_2 l n) as [[o p] Hi]; [lia|]. rewrite (proj2 (Hat _ _ Hi)).
    exists o. split; [by apply list_elem_of_lookup_2 in Hi|]. pose proof (proj1 (Hat _ _ Hi)) as Ho.
    split; [destruct (Hb n o Ho) as [Hlt _]; cbn in *; lia|].
    intros o' p' [j Hj]%list_elem_of_lookup_1 Hle. pose proof (proj1 (Hat _ _ Hj)) as Ho'.
    destruct (Hb j o' Ho') as [_ Hgt].
    destruct (decide (j <= n)%nat) as [Hjn|Hjn]; [|specialize (Hgt ltac:(lia)); lia].
    by apply (sorted_lookup _ j n o' o Hs Ho' Ho).
Qed.

(** C33: Trap sections: functions pushed in order are encoded without a panic,
    and searching the written section for any program counter finds the code of
    a trap recorded there, and nothing exactly when none is. *)
Theorem trap_section_lookup {E} oc dbg fs (Hord : ordered trap_offset 0 fs)
    (Hlen : Z.of_nat (length (trap_table fs)) < 2 ^ 32) :
  exists b section, trap_push_all (E:=E) oc trap_builder_default fs = Ok b /\
    trap_append_to (E:=E) b = Ok section /\
    forall offset, exists r, lookup_trap_code (E:=E) dbg section offset = Ok r /\
      match r with
      | Some t => (offset, t) ∈ trap_table fs
      | None => forall t, (offset, t) ∉ trap_table fs
      end.
Proof.
  destruct (trap_push_all_ok (E:=E) oc trap_builder_default fs (Z.le_refl 0) Hord) as [l Hpush].
  destruct (ordered_table trap_offset trap_code 0 fs (Z.le_refl 0) Hord) as [Hs Hf].
  cbn [trap_builder_default t_offsets t_traps app] in Hpush. eexists _, _. split; [exact Hpush|].
  unfold trap_append_to, checked. cbn [t_offsets t_traps]. rewrite length_map.
  rewrite in_ub_true by (unfold in_u; lia). cbn [unwrap mbind outcome_bind].
  rewrite !append_data. cbn [app]. rewrite <- app_assoc. split; [reflexivity|]. intros offset.
  apply trap_lookup_ok; [done| |done]. eapply list.Forall_impl; [exact Hf|]. by intros ? [_ ?].
Qed.

(** Address sections: functions pushed in order are encoded without a panic;
    searching the written section for a program counter gives the position of
    the last instruction that starts at or before it, and nothing exactly when
    every instruction starts after it; iterating gives all entries in order. *)
Theorem address_section_lookup {E} oc dbg fs (Hord : ordered code_offset 0 fs)
    (Hlen : Z.of_nat (length (address_table fs)) < 2 ^ 32)
    (Hpos : Forall (in_u 32) (map snd (address_table fs))) :
  exists b section, address_push_all (E:=E) oc address_map_default fs = Ok b /\
    address_append_to (E:=E) b = Ok section /\
    (forall offset, in_u 32 offset ->
       exists r, lookup_file_pos (E:=E) dbg section offset = Ok r /\
         floor_entry (address_table fs) offset r) /\
    iterate_address_map (E:=E) dbg section = Ok (Some (address_table fs)).
Proof.
  destruct (address_push_all_ok (E:=E) oc address_map_default fs (Z.le_refl 0) Hord) as [l Hpush].
  destruct (ordered_table code_offset srcloc 0 fs (Z.le_refl 0) Hord) as [Hs Hf].
  cbn [address_map_default a_offsets a_positions app] in Hpush. eexists _, _. split; [exact Hpush|].
  unfold address_append_to, checked. cbn [a_offsets a_positions]. rewrite length_map.
  rewrite in_ub_true by (unfold in_u; lia). cbn [unwrap mbind outcome_bind].
  rewrite !append_data. cbn [app]. rewrite <- app_assoc. split; [reflexivity|].
  assert (Hu : Forall (in_u 32) (map fst (address_table fs)))
    by (eapply list.Forall_impl; [exact Hf|]; by intros ? [_ ?]).
  unfold lookup_file_pos, iterate_address_map. rewrite parse_ok by done.
  cbn [mbind outcome_bind]. split; [|take_Some; by rewrite zip_fst_snd].
  intros offset Hoff. take_Some. rewrite (proj2 (checked_Some 32 offset offset)) by done. take_Some.
  pose proof (floor_search (address_table fs) offset Hs) as Hfl.
  destruct (binary_search _ offset) as [i|[|n]]; eexists; (split; [reflexivity|done]).
Qed.
End Lookup.

(** ** A concrete [object] *)

Definition read_le (bs : list Z) : option (Z * list Z) :=
  match bs with
  | a :: b :: c :: d :: rest => Some (le_value [a; b; c; d], rest)
  | _ => None
  end.
Fixpoint slice_le (n : nat) (bs : list Z) : option (list Z * list Z) :=
  match n with
  | O => Some ([], bs)
  | S n => '(v, rest) ← read_le bs; '(vs, rest') ← slice_le n rest; Some (v :: vs, rest')
  end.

#[export] Instance plain_object : ObjectCrate := {
  read_u32 := read_le;
  slice_from_bytes bs n := slice_le (Z.to_nat n) bs;
  bytes_of_slice vs := flat_map (le_bytes 4) vs;
  append_section_data := app
}.

Lemma read_le_bytes v rest : in_u 32 v -> read_le (le_bytes 4 v ++ rest) = Some (v, rest).
Proof.
  intros Hv. change (read_le (le_bytes 4 v ++ rest)) with (Some (le_value (le_bytes 4 v), rest)).
  by rewrite le_value_bytes4.
Qed.

#[export] Instance plain_object_laws : ObjectLaws.
Proof.
  split; [exact read_le_bytes| |done]. intros vs rest Hf. cbn [slice_from_bytes bytes_of_slice plain_object].
  rewrite Nat2Z.id. induction Hf as [|v vs Hv _ IH]; [done|].
  cbn [flat_map length slice_le]. rewrite <- app_assoc, read_le_bytes by done.
  cbn [mbind option_bind]. by rewrite IH.
Qed.

Definition sample_traps : list (Z * Z * list TrapInformation) :=
  [ (0, 100, [ {| trap_offset := 8; trap_code := HeapMisaligned |};
               {| trap_offset := 60; trap_code := OutOfFuel |} ]);
    (128, 300, []);
    (300, 400, [ {| trap_offset := 4; trap_code := NullReference |} ]) ].
Definition sample_instrs : list (Z * Z * list InstructionAddressMap) :=
  [ (0, 100, [ {| srcloc := 7; code_offset := 8 |};
               {| srcloc := file_pos_default; code_offset := 60 |} ]);
    (128, 300, [ {| srcloc := 90; code_offset := 0 |} ]) ].

Ltac solve_ordered :=
  repeat match goal with
  | |- _ /\ _ => split
  | |- StronglySorted _ _ => constructor
  | |- Forall _ _ => constructor
  end; cbn; unfold in_u; try lia; exact I.

Lemma trap_section_lookup_witness :
  exists b section, trap_push_all (E:=unit) true trap_builder_default sample_traps = Ok b /\
    trap_append_to (E:=unit) b = Ok section /\
    lookup_trap_code (E:=unit) true section 60 = Ok (Some OutOfFuel) /\
    exists r, lookup_trap_code (E:=unit) true section 61 = Ok r /\
      match r with
      | Some t => (61, t) ∈ trap_table sample_traps
      | None => forall t, (61, t) ∉ trap_table sample_traps
      end.
Proof.
  destruct (trap_section_lookup (E:=unit) true true sample_traps) as (b & s & Hb & Hs & Hl).
  - cbn [ordered sample_traps]. solve_ordered.
  - by vm_compute.
  - exists b, s. split; [done|]. split; [done|]. split; [|apply Hl].
    vm_compute in Hb. injection Hb as <-. vm_compute in Hs. injection Hs as <-. by vm_compute.
Defined.

Lemma address_section_lookup_witness :
  exists b section, address_push_all (E:=unit) true address_map_default sample_instrs = Ok b /\
    address_append_to (E:=unit) b = Ok section /\
    lookup_file_pos (E:=unit) true section 20 = Ok (Some 7) /\
    iterate_address_map (E:=unit) true section = Ok (Some [(8, 7); (60, u32_max); (128, 90)]).
Proof.
  destruct (address_section_lookup (E:=unit) true true sample_instrs) as (b & s & Hb & Hs & _ & Hi).
  - cbn [ordered sample_instrs]. solve_ordered.
  - by vm_compute.
  - repeat constructor; by vm_compute.
  - exists b, s. split; [done|]. split; [done|]. split; [|exact Hi].
    vm_compute in Hb. injection Hb as <-. vm_compute in Hs. injection Hs as <-. by vm_compute.
Defined.
