(* ===== verification/GuestResources.v ===== *)
(** * Resource handles of components

    [src/wasmtime-repo/crates/wasmtime/src/runtime/vm/component/resources.rs]:
    the tables of resource handles of component instances and of the host, with
    the counts that keep borrows inside the calls they were made for.  The
    intrinsics are functions of the state that return the new state with an
    outcome, since some change the state before they fail.  [oc] says whether
    plain arithmetic is overflow-checked. *)

From Stdlib Require Import ZArith Lia.
From stdpp Require Import base list gmap numbers option fin_maps.
From S2P Require Import Prelude.
Open Scope Z_scope.

Definition MAX_RESOURCE_HANDLE : Z := Z.shiftl 1 30.

Inductive Slot :=
| Free (next : Z)
| Own (rep lend_count : Z)
| Borrow (rep : Z) (scope : nat).

Record ResourceTable := { next : Z; slots : list Slot }.
Definition resource_table_default : ResourceTable := {| next := 0; slots := [] |}.

(** A lender: the table of the type, [None] for the host's, and the handle. *)
Record Lender := { ty : option nat; idx : Z }.
#[global] Instance Lender_eq : EqDecision Lender.
Proof. solve_decision. Defined.

Record CallContext := { lenders : list Lender; borrow_count : Z }.
Definition call_default : CallContext := {| lenders := []; borrow_count := 0 |}.

Record ResourceTables := {
  tables : option (list ResourceTable);
  host_table : option ResourceTable;
  calls : list CallContext
}.

Inductive error :=
| IndexOverflow
| UnknownHandle (idx : Z)
| RemoveWhileBorrowed
| LiftOwnFromBorrow
| BorrowsRemain.

(** ** One table *)

Definition handle_index_to_table_index (idx : Z) : option nat :=
  i ← checked 32 (idx - 1);
  Some (Z.to_nat i).

Definition rep (t : ResourceTable) (idx : Z) : outcome error Z :=
  match i ← handle_index_to_table_index idx; slots t !! i with
  | None | Some (Free _) => Err (UnknownHandle idx)
  | Some (Own rep _) | Some (Borrow rep _) => Ok rep
  end.

Definition get_mut (t : ResourceTable) (idx : Z) : outcome error Slot :=
  match i ← handle_index_to_table_index idx; slots t !! i with
  | None | Some (Free _) => Err (UnknownHandle idx)
  | Some other => Ok other
  end.
(** A write through the reference [get_mut] returns. *)
Definition set_slot (t : ResourceTable) (idx : Z) (s : Slot) : ResourceTable :=
  {| next := next t; slots := <[Z.to_nat (idx - 1) := s]> (slots t) |}.

Definition insert_ (oc : bool) (t : ResourceTable) (new : Slot) : ResourceTable * outcome error Z :=
  let n := Z.to_nat (next t) in
  let grown :=
    if (n =? length (slots t))%nat then
      match checked 32 (next t + 1) with
      | Some n' => Some (slots t ++ [Free n'])
      | None => None
      end
    else Some (slots t) in
  match grown with
  | None => (t, Panic)
  | Some sl =>
      match sl !! n with
      | Some (Free next') =>
          ({| next := next'; slots := <[n := new]> sl |},
           ret ← arith oc 32 (next t + 1);
           if MAX_RESOURCE_HANDLE <=? ret then Err IndexOverflow else Ok ret)
      | _ => (t, Panic)
      end
  end.

Definition remove (oc : bool) (t : ResourceTable) (idx : Z) : ResourceTable * outcome error Slot :=
  match get_mut t idx with
  | Ok ret =>
      match arith (E:=error) oc 32 (idx - 1) with
      | Ok n => ({| next := n; slots := slots (set_slot t idx (Free (next t))) |}, Ok ret)
      | _ => (t, Panic)
      end
  | Err e => (t, Err e)
  | Panic => (t, Panic)
  end.

(** ** The intrinsics *)

Definition M (A : Type) : Type := ResourceTables -> ResourceTables * outcome error A.
#[global] Instance M_ret : MRet M := fun A a st => (st, Ok a).
#[global] Instance M_bind : MBind M := fun A B f m st =>
  match m st with
  | (st', Ok a) => f a st'
  | (st', Err e) => (st', Err e)
  | (st', Panic) => (st', Panic)
  end.
Definition lift {A} (r : outcome error A) : M A := fun st => (st, r).
Definition get_calls : M (list CallContext) := fun st => (st, Ok (calls st)).
Definition set_calls (cs : list CallContext) : M unit := fun st =>
  ({| tables := tables st; host_table := host_table st; calls := cs |}, Ok tt).

(** [table]: the table of a type; [set_table] is a write through it. *)
Definition table (st : ResourceTables) (ty : option nat) : option ResourceTable :=
  match ty with
  | None => host_table st
  | Some i => ts ← tables st; ts !! i
  end.
Definition set_table (st : ResourceTables) (ty : option nat) (t : ResourceTable) : ResourceTables :=
  match ty with
  | None => {| tables := tables st; host_table := Some t; calls := calls st |}
  | Some i => {| tables := <[i := t]> <$> tables st; host_table := host_table st; calls := calls st |}
  end.
Definition on_table {A} (ty : option nat) (f : ResourceTable -> ResourceTable * outcome error A) : M A :=
  fun st =>
    match table st ty with
    | None => (st, Panic)
    | Some t => let '(t', r) := f t in (set_table st ty t', r)
    end.

Section Intrinsics.
  Context (oc : bool).

Definition resource_new (ty : option nat) (rep : Z) : M Z :=
  on_table ty (fun t => insert_ oc t (Own rep 0)).

Definition resource_rep (ty : option nat) (idx : Z) : M Z :=
  on_table ty (fun t => (t, rep t idx)).

Definition resource_drop (ty : option nat) (idx : Z) : M (option Z) :=
  s ← on_table ty (fun t => remove oc t idx);
  match s with
  | Own rep lend_count => if lend_count =? 0 then mret (Some rep) else lift (Err RemoveWhileBorrowed)
  | Borrow _ scope =>
      scopes ← get_calls;
      c ← lift (unwrap (scopes !! scope));
      n ← lift (arith oc 32 (borrow_count c - 1));
      set_calls (<[scope := {| lenders := lenders c; borrow_count := n |}]> scopes);;
      mret None
  | Free _ => lift Panic
  end.

Definition resource_lower_own (ty : option nat) (rep : Z) : M Z :=
  on_table ty (fun t => insert_ oc t (Own rep 0)).

Definition resource_lift_own (ty : option nat) (idx : Z) : M Z :=
  s ← on_table ty (fun t => remove oc t idx);
  match s with
  | Own rep lend_count => if lend_count =? 0 then mret rep else lift (Err RemoveWhileBorrowed)
  | Borrow _ _ => lift (Err LiftOwnFromBorrow)
  | Free _ => lift Panic
  end.

(** [scopes.last_mut().unwrap()] and a write through it. *)
Definition last_scope : M CallContext :=
  scopes ← get_calls;
  lift (unwrap (last scopes)).
Definition set_last_scope (c : CallContext) : M unit :=
  scopes ← get_calls;
  set_calls (removelast scopes ++ [c]).

Definition resource_lift_borrow (ty : option nat) (idx : Z) : M Z :=
  s ← on_table ty (fun t => (t, get_mut t idx));
  match s with
  | Own rep lend_count =>
      n ← lift (unwrap (checked 32 (lend_count + 1)));
      on_table ty (fun t => (set_slot t idx (Own rep n), Ok tt));;
      scope ← last_scope;
      set_last_scope {| lenders := lenders scope ++ [{| ty := ty; idx := idx |}];
                        borrow_count := borrow_count scope |};;
      mret rep
  | Borrow rep _ => mret rep
  | Free _ => lift Panic
  end.

Definition resource_lower_borrow (ty : option nat) (rep : Z) : M Z :=
  scopes ← get_calls;
  scope ← lift (arith oc 64 (Z.of_nat (length scopes) - 1));
  c ← last_scope;
  n ← lift (unwrap (checked 32 (borrow_count c + 1)));
  set_last_scope {| lenders := lenders c; borrow_count := n |};;
  on_table ty (fun t => insert_ oc t (Borrow rep (Z.to_nat scope))).

Definition enter_call : M unit :=
  scopes ← get_calls;
  set_calls (scopes ++ [call_default]).

(** The loop of [exit_call] over the lenders. *)
Fixpoint return_lends (ls : list Lender) : M unit :=
  match ls with
  | [] => mret tt
  | l :: ls' =>
      on_table (ty l) (fun t =>
        match get_mut t (idx l) with
        | Ok (Own rep lend_count) =>
            match arith (E:=error) oc 32 (lend_count - 1) with
            | Ok n => (set_slot t (idx l) (Own rep n), Ok tt)
            | _ => (t, Panic)
            end
        | _ => (t, Panic)
        end);;
      return_lends ls'
  end.

Definition exit_call : M unit :=
  scopes ← get_calls;
  cx ← lift (unwrap (last scopes));
  set_calls (removelast scopes);;
  if 0 <? borrow_count cx then lift (Err BorrowsRemain)
  else return_lends (lenders cx).
End Intrinsics.

(** ** Tables *)

Definition is_occupied (s : Slot) : bool := match s with Free _ => false | _ => true end.

(** The free list from [z]. *)
Inductive chain (sl : list Slot) : Z -> list nat -> Prop :=
| chain_end : chain sl (Z.of_nat (length sl)) []
| chain_link i nx l :
    sl !! i = Some (Free nx) -> i ∉ l -> chain sl nx l -> chain sl (Z.of_nat i) (i :: l).

Definition table_inv (t : ResourceTable) : Prop :=
  Z.of_nat (length (slots t)) < MAX_RESOURCE_HANDLE /\ exists l, chain (slots t) (next t) l.

Lemma chain_other sl i s z l : chain sl z l -> i ∉ l -> chain (<[i := s]> sl) z l.
Proof.
  intros H. induction H as [|j nx l Hj Hn _ IH]; intros Hi.
  - rewrite <- (length_insert sl i s). constructor.
  - apply list.not_elem_of_cons in Hi as [Hne Hi]. econstructor; [|done|by apply IH].
    by rewrite list_lookup_insert_ne.
Qed.

Lemma chain_free sl z l i : chain sl z l -> i ∈ l -> exists nx, sl !! i = Some (Free nx).
Proof. induction 1; [set_solver|]. intros [->|Hi]%list.elem_of_cons; eauto. Qed.

Definition handle (i : nat) : Z := Z.of_nat i + 1.

Lemma handle_index i : Z.of_nat i < MAX_RESOURCE_HANDLE -> handle_index_to_table_index (handle i) = Some i.
Proof.
  intros Hi. unfold handle_index_to_table_index, handle.
  rewrite (proj2 (checked_Some 32 _ (Z.of_nat i))) by (unfold in_u; change MAX_RESOURCE_HANDLE with (2 ^ 30) in Hi; lia).
  cbn. by rewrite Nat2Z.id.
Qed.

Lemma get_mut_Ok t idx s :
  get_mut t idx = Ok s ->
  exists i, idx = handle i /\ slots t !! i = Some s /\ is_occupied s = true.
Proof.
  unfold get_mut, handle_index_to_table_index. destruct (checked 32 (idx - 1)) as [z|] eqn:Hz; [|done].
  apply checked_Some in Hz as [Hz ->]. cbn. unfold in_u in Hz.
  destruct (slots t !! Z.to_nat (idx - 1)) as [[| |]|] eqn:Hs; try done; intros [= <-];
    exists (Z.to_nat (idx - 1)); (split; [unfold handle; lia|done]).
Qed.

Lemma get_mut_at t i s :
  table_inv t -> slots t !! i = Some s -> is_occupied s = true -> get_mut t (handle i) = Ok s.
Proof.
  intros [Hlen _] Hs Ho. unfold get_mut. pose proof (lookup_lt_Some _ _ _ Hs).
  rewrite handle_index by lia. cbn. rewrite Hs. by destruct s.
Qed.

Lemma get_mut_no_panic t idx : get_mut t idx <> Panic.
Proof. unfold get_mut. by destruct (_ ≫= _) as [[| |]|]. Qed.

(** A slot of [t] was given a value, and nothing else changed. *)
Definition put (t t' : ResourceTable) (i : nat) (s : Slot) : Prop :=
  slots t' !! i = Some s /\ forall j, j <> i -> slots t' !! j = slots t !! j.

Lemma put_insert t n sl i s nx :
  slots t !! i = Some s -> sl = <[i := nx]> (slots t) -> put t {| next := n; slots := sl |} i nx.
Proof.
  intros Hi ->. split; cbn.
  - apply list_lookup_insert_eq. by eapply lookup_lt_Some.
  - intros j Hj. by apply list_lookup_insert_ne.
Qed.

Lemma set_slot_put t i s s' : slots t !! i = Some s -> put t (set_slot t (handle i) s') i s'.
Proof.
  intros Hi. eapply put_insert; [done|]. unfold handle. by replace (Z.to_nat (Z.of_nat i + 1 - 1)) with i by lia.
Qed.

Lemma set_slot_inv t i s s' :
  table_inv t -> slots t !! i = Some s -> is_occupied s = true -> table_inv (set_slot t (handle i) s').
Proof.
  intros [Hlen [l Hl]] Hi Ho. unfold set_slot, handle. cbn [slots next].
  replace (Z.to_nat (Z.of_nat i + 1 - 1)) with i by lia. split; cbn; [by rewrite length_insert|].
  exists l. apply chain_other; [done|]. intros Hin. destruct (chain_free _ _ _ _ Hl Hin) as [nx Hf].
  rewrite Hi in Hf. injection Hf as ->. done.
Qed.

Lemma insert_ok oc t new :
  table_inv t -> is_occupied new = true ->
  exists t' r, insert_ oc t new = (t', r) /\
    (r = Err IndexOverflow \/
     exists i, r = Ok (handle i) /\ table_inv t' /\ put t t' i new /\
       Z.of_nat i + 1 < MAX_RESOURCE_HANDLE /\
       forall s, slots t !! i = Some s -> is_occupied s = false).
Proof.
  intros [Hlen [l Hl]] Ho. change MAX_RESOURCE_HANDLE with (2 ^ 30) in *. unfold insert_.
  assert (Hret : forall i, Z.of_nat i < 2 ^ 30 ->
    arith (E:=error) oc 32 (Z.of_nat i + 1) = Ok (handle i)) by (intros i Hi; apply arith_ok; unfold in_u, handle; lia).
  inversion Hl as [Hz|i nx l' Hi Hni Hl' Hz]; rewrite Nat2Z.id.
  - rewrite Nat.eqb_refl, (proj2 (checked_Some 32 _ _)) by (unfold in_u; split; [lia|reflexivity]).
    rewrite lookup_app_r, Nat.sub_diag by lia. cbn [lookup list_lookup]. rewrite Hret by done.
    cbn [mbind outcome_bind]. rewrite insert_app_r_alt, Nat.sub_diag by lia. cbn [insert list_insert].
    eexists _, _. split; [reflexivity|]. destruct (Z.leb_spec MAX_RESOURCE_HANDLE (handle (length (slots t)))) as [Hm|Hm];
      [by left|right]. change MAX_RESOURCE_HANDLE with (2 ^ 30) in Hm. unfold handle in Hm.
    eexists. split; [reflexivity|]. split_and!.
    + split; cbn; [rewrite length_app; cbn; change MAX_RESOURCE_HANDLE with (2 ^ 30); lia|]. exists [].
      replace (Z.of_nat (length (slots t)) + 1) with (Z.of_nat (length (slots t ++ [new])))
        by (rewrite length_app; cbn; lia). constructor.
    + split; cbn; [by rewrite lookup_app_r, Nat.sub_diag by lia|]. intros j Hj.
      destruct (decide (j < length (slots t))%nat); [by rewrite lookup_app_l|].
      rewrite !lookup_ge_None_2; [done|lia|rewrite length_app; cbn; lia].
    + lia.
    + intros s Hs%lookup_lt_Some. lia.
  - pose proof (lookup_lt_Some _ _ _ Hi) as Hlt.
    rewrite (proj2 (Nat.eqb_neq i _)) by lia. rewrite Hi, Hret by lia. cbn [mbind outcome_bind].
    eexists _, _. split; [reflexivity|].
    rewrite (proj2 (Z.leb_gt _ _)) by (change MAX_RESOURCE_HANDLE with (2 ^ 30); unfold handle; lia).
    right. eexists. split; [reflexivity|]. split_and!.
    + split; cbn; [by rewrite length_insert|]. exists l'. by apply chain_other.
    + by eapply put_insert.
    + lia.
    + intros s Hs. rewrite Hi in Hs. by injection Hs as <-.
Qed.

Lemma guest_remove_ok oc t i s :
  table_inv t -> slots t !! i = Some s -> is_occupied s = true ->
  exists t', remove oc t (handle i) = (t', Ok s) /\ table_inv t' /\ put t t' i (Free (next t)).
Proof.
  intros Ht Hi Ho. unfold remove. rewrite (get_mut_at t i s) by done. destruct Ht as [Hlen [l Hl]].
  pose proof (lookup_lt_Some _ _ _ Hi) as Hlt. change MAX_RESOURCE_HANDLE with (2 ^ 30) in Hlen.
  rewrite arith_ok by (unfold in_u, handle; lia). eexists. split; [reflexivity|].
  unfold handle. replace (Z.of_nat i + 1 - 1) with (Z.of_nat i) by lia. cbn [slots set_slot].
  replace (Z.to_nat (Z.of_nat i + 1 - 1)) with i by lia. split.
  - split; cbn; [rewrite length_insert; done|]. assert (Hn : i ∉ l).
    { intros Hin. destruct (chain_free _ _ _ _ Hl Hin) as [nx Hf]. rewrite Hi in Hf. by injection Hf as ->. }
    exists (i :: l). econstructor; [by apply list_lookup_insert_eq|done|by apply chain_other].
  - by eapply put_insert.
Qed.

(** ** Counting

    [V] holds the is_occupied slots of all tables by type and position. *)

Abbreviation key := (option nat * nat)%type.

Definition view (st : ResourceTables) (V : gmap key Slot) : Prop :=
  forall ty i s, V !! (ty, i) = Some s <->
    (exists t, table st ty = Some t /\ slots t !! i = Some s) /\ is_occupied s = true.

Definition is_borrow (scope : nat) (s : Slot) : bool :=
  match s with Borrow _ sc => (sc =? scope)%nat | _ => false end.
Definition borrows (scope : nat) (V : gmap key Slot) : nat :=
  size (filter (fun kv => is_borrow scope kv.2 = true) V).

Definition lends (k : key) (ls : list Lender) : nat :=
  length (filter (fun l => l = {| ty := k.1; idx := handle k.2 |}) ls).

(** The borrow counts [bs] of the scopes and the lend counts of the owned slots
    are those of the borrows in [V] and of the lenders [ls]. *)
Record counts (V : gmap key Slot) (bs : list Z) (ls : list Lender) : Prop := {
  c_borrow : forall i n, bs !! i = Some n -> n = Z.of_nat (borrows i V);
  c_scope : forall k r sc, V !! k = Some (Borrow r sc) -> (sc < length bs)%nat;
  c_lend : forall k r n, V !! k = Some (Own r n) -> n = Z.of_nat (lends k ls);
  c_lender : forall l, l ∈ ls ->
    exists i r n, idx l = handle i /\ V !! (ty l, i) = Some (Own r n)
}.

Definition all_lenders (cs : list CallContext) : list Lender := cs ≫= lenders.

Definition tables_inv (st : ResourceTables) : Prop :=
  forall ty t, table st ty = Some t -> table_inv t.

Definition Inv (st : ResourceTables) : Prop :=
  tables_inv st /\ exists V, view st V /\ counts V (borrow_count <$> calls st) (all_lenders (calls st)).

(** *** Views *)

Lemma table_set st ty t ty' :
  is_Some (table st ty) ->
  table (set_table st ty t) ty' = if decide (ty = ty') then Some t else table st ty'.
Proof.
  intros [t0 Ht]. destruct ty as [i|], ty' as [j|]; cbn in *.
  - destruct (tables st) as [ts|]; cbn in *; [|done]. case_decide as Hij.
    + injection Hij as <-. apply list_lookup_insert_eq. by eapply lookup_lt_Some.
    + apply list_lookup_insert_ne. congruence.
  - by rewrite decide_False.
  - by rewrite decide_False.
  - by rewrite decide_True.
Qed.

Lemma set_table_id st ty t : table st ty = Some t -> set_table st ty t = st.
Proof.
  destruct st as [[ts|] h cs], ty as [i|]; cbn; intros Ht; try done; [|congruence|congruence].
  by rewrite list_insert_id.
Qed.

Lemma calls_set_table st ty t : calls (set_table st ty t) = calls st.
Proof. by destruct ty. Qed.

Lemma tables_inv_set st ty t t' :
  tables_inv st -> table st ty = Some t -> table_inv t' -> tables_inv (set_table st ty t').
Proof.
  intros Hi Ht Ht' ty' t''. rewrite table_set by done. case_decide; [by intros [= <-]|]. by apply Hi.
Qed.

Lemma view_put st V ty t t' i s :
  view st V -> table st ty = Some t -> put t t' i s -> is_occupied s = true ->
  view (set_table st ty t') (<[(ty, i) := s]> V).
Proof.
  intros Hv Ht [Hi Hj] Ho ty' j s'. rewrite table_set by done.
  destruct (decide ((ty, i) = (ty', j))) as [[= <- <-]|Hne].
  - rewrite lookup_insert_eq, decide_True by done. split; [intros [= <-]; eauto|].
    intros [(x & [= <-] & Hx) _]. congruence.
  - rewrite lookup_insert_ne by done. rewrite (Hv ty' j s'). case_decide as Hty; [|done]. subst ty'.
    assert (j <> i) by congruence. split; (intros [(x & Hx & Hs) Hoc]; split; [|done]).
    + rewrite Ht in Hx. injection Hx as <-. eexists. split; [done|]. by rewrite Hj.
    + injection Hx as <-. exists t. split; [done|]. by rewrite <- Hj.
Qed.

Lemma view_del st V ty t t' i nx :
  view st V -> table st ty = Some t -> put t t' i (Free nx) ->
  view (set_table st ty t') (base.delete (ty, i) V).
Proof.
  intros Hv Ht [Hi Hj] ty' j s'. rewrite table_set by done.
  destruct (decide ((ty, i) = (ty', j))) as [[= <- <-]|Hne].
  - rewrite lookup_delete_eq, decide_True by done. split; [done|].
    intros [(x & [= <-] & Hx) Hoc]. rewrite Hi in Hx. by injection Hx as <-.
  - rewrite lookup_delete_ne by done. rewrite (Hv ty' j s'). case_decide as Hty; [|done]. subst ty'.
    assert (j <> i) by congruence. split; (intros [(x & Hx & Hs) Hoc]; split; [|done]).
    + rewrite Ht in Hx. injection Hx as <-. eexists. split; [done|]. by rewrite Hj.
    + injection Hx as <-. exists t. split; [done|]. by rewrite <- Hj.
Qed.

Lemma view_fresh st V ty t i :
  view st V -> table st ty = Some t -> (forall s, slots t !! i = Some s -> is_occupied s = false) ->
  V !! (ty, i) = None.
Proof.
  intros Hv Ht Hf. destruct (V !! (ty, i)) as [s|] eqn:Hs; [|done].
  apply Hv in Hs as [(t' & Ht' & Hs) Ho]. rewrite Ht in Ht'. injection Ht' as <-.
  apply Hf in Hs. congruence.
Qed.

(** *** Counts *)

Lemma borrows_insert i V k s :
  V !! k = None -> borrows i (<[k := s]> V) = ((if is_borrow i s then 1 else 0) + borrows i V)%nat.
Proof.
  intros Hk. unfold borrows. destruct (is_borrow i s) eqn:Hb.
  - rewrite map_filter_insert_True by done. rewrite map_size_insert_None; [done|].
    apply map_lookup_filter_None. by left.
  - rewrite map_filter_insert_False by (cbn; by rewrite Hb). by rewrite delete_id.
Qed.

Lemma borrows_delete i V k s :
  V !! k = Some s -> borrows i V = ((if is_borrow i s then 1 else 0) + borrows i (base.delete k V))%nat.
Proof.
  intros Hk. rewrite <- (insert_delete_id V k s Hk) at 1. apply borrows_insert, lookup_delete_eq.
Qed.

Lemma borrows_update i V k s s' :
  V !! k = Some s -> is_borrow i s = is_borrow i s' -> borrows i (<[k := s']> V) = borrows i V.
Proof.
  intros Hk Hs. rewrite <- insert_delete_eq, borrows_insert by apply lookup_delete_eq.
  by rewrite (borrows_delete i V k s Hk), Hs.
Qed.

Lemma borrows_none i V :
  (forall k r sc, V !! k = Some (Borrow r sc) -> sc <> i) -> borrows i V = O.
Proof.
  intros H. apply map_size_empty_iff, map_eq. intros k. rewrite lookup_empty.
  apply map_lookup_filter_None. destruct (V !! k) as [s|] eqn:Hs; [right|by left].
  intros x [= <-]. cbn. destruct s as [| |r sc]; cbn; try done.
  rewrite (proj2 (Nat.eqb_neq _ _)); [done|by eapply H].
Qed.

Lemma borrows_zero i V k r : borrows i V = O -> V !! k <> Some (Borrow r i).
Proof. intros H Hk. rewrite (borrows_delete i V k _ Hk) in H. cbn in H. by rewrite Nat.eqb_refl in H. Qed.

Lemma lends_app k ls ls' : lends k (ls ++ ls') = (lends k ls + lends k ls')%nat.
Proof. unfold lends. by rewrite list.filter_app, length_app. Qed.

Lemma lends_one k l : lends k [l] = if decide (l = {| ty := k.1; idx := handle k.2 |}) then 1%nat else O.
Proof. unfold lends. rewrite filter_cons. by case_decide. Qed.

Lemma lends_none k ls : {| ty := k.1; idx := handle k.2 |} ∉ ls -> lends k ls = O.
Proof.
  intros H. unfold lends. induction ls as [|l ls IH]; [done|].
  rewrite filter_cons_False; [apply IH; set_solver|set_solver].
Qed.

Lemma lends_pos k ls : {| ty := k.1; idx := handle k.2 |} ∈ ls -> (0 < lends k ls)%nat.
Proof.
  intros (l1 & l2 & ->)%list_elem_of_split. change (?x :: l2) with ([x] ++ l2).
  rewrite !lends_app, lends_one, decide_True by done. lia.
Qed.

Definition lender (k : key) : Lender := {| ty := k.1; idx := handle k.2 |}.

Lemma lender_inj k l i : idx l = handle i -> k = (ty l, i) <-> l = lender k.
Proof.
  destruct l as [t x], k as [t' j]. unfold lender, handle. cbn. intros ->.
  split; [by intros [= -> ->]|]. intros [= -> H]. f_equal. lia.
Qed.

Lemma counts_no_lender V bs ls k :
  counts V bs ls -> (forall r n, V !! k = Some (Own r n) -> n = 0) -> lender k ∉ ls.
Proof.
  intros Hc Hk Hin. destruct (c_lender _ _ _ Hc _ Hin) as (i & r & n & Hi & HV).
  rewrite <- (proj2 (lender_inj k (lender k) i Hi)) in HV by done.
  pose proof (c_lend _ _ _ Hc _ _ _ HV). apply Hk in HV.
  pose proof (lends_pos k ls Hin). lia.
Qed.

Lemma counts_new V bs ls k r : counts V bs ls -> V !! k = None -> counts (<[k := Own r 0]> V) bs ls.
Proof.
  intros Hc Hk. split.
  - intros i n Hn. rewrite borrows_insert by done. by apply (c_borrow _ _ _ Hc).
  - intros k' r' sc. rewrite lookup_insert_Some. intros [[_ ?]|[_ ?]]; [done|by eapply c_scope].
  - intros k' r' n. rewrite lookup_insert_Some. intros [[-> [= <- <-]]|[_ ?]]; [|by eapply c_lend].
    rewrite lends_none; [done|]. apply (counts_no_lender V bs); [done|]. intros ? ?. by rewrite Hk.
  - intros l Hl. destruct (c_lender _ _ _ Hc l Hl) as (i & r' & n & Hi & HV). exists i, r', n.
    split; [done|]. rewrite lookup_insert_ne; [done|]. intros ->. congruence.
Qed.

Lemma counts_drop_own V bs ls k r :
  counts V bs ls -> V !! k = Some (Own r 0) -> counts (base.delete k V) bs ls.
Proof.
  intros Hc Hk. split.
  - intros i n Hn. rewrite (c_borrow _ _ _ Hc i n Hn). by rewrite (borrows_delete i V k _ Hk).
  - intros k' r' sc [_ ?]%lookup_delete_Some. by eapply c_scope.
  - intros k' r' n [_ ?]%lookup_delete_Some. by eapply c_lend.
  - intros l Hl. destruct (c_lender _ _ _ Hc l Hl) as (i & r' & n & Hi & HV). exists i, r', n.
    split; [done|]. rewrite lookup_delete_ne; [done|]. intros He. apply (lender_inj k l i Hi) in He.
    subst l. revert Hl. apply (counts_no_lender V bs); [done|]. intros ? ?. rewrite Hk. by intros [= _ <-].
Qed.

Lemma counts_drop_borrow V bs ls k r sc n :
  counts V bs ls -> V !! k = Some (Borrow r sc) -> bs !! sc = Some n ->
  counts (base.delete k V) (<[sc := n - 1]> bs) ls /\ 1 <= n.
Proof.
  intros Hc Hk Hn. pose proof (c_borrow _ _ _ Hc sc n Hn) as Hbn.
  rewrite (borrows_delete sc V k _ Hk) in Hbn. cbn [is_borrow] in Hbn. rewrite Nat.eqb_refl in Hbn.
  split; [|lia]. split.
  - intros i m. destruct (decide (i = sc)) as [->|Hne].
    + rewrite list_lookup_insert_eq by (by eapply lookup_lt_Some). intros [= <-]. lia.
    + rewrite list_lookup_insert_ne by done. intros Hm. rewrite (c_borrow _ _ _ Hc i m Hm).
      rewrite (borrows_delete i V k _ Hk). cbn [is_borrow]. by rewrite (proj2 (Nat.eqb_neq sc i)).
  - intros k' r' s [_ ?]%lookup_delete_Some. rewrite length_insert. by eapply c_scope.
  - intros k' r' m [_ ?]%lookup_delete_Some. by eapply c_lend.
  - intros l Hl. destruct (c_lender _ _ _ Hc l Hl) as (i & r' & m & Hi & HV). exists i, r', m.
    split; [done|]. rewrite lookup_delete_ne; [done|]. intros ->. congruence.
Qed.

Lemma counts_lend V bs ls k r n :
  counts V bs ls -> V !! k = Some (Own r n) -> counts (<[k := Own r (n + 1)]> V) bs (ls ++ [lender k]).
Proof.
  intros Hc Hk. split.
  - intros i m Hm. rewrite (borrows_update i V k (Own r n)) by done. by apply (c_borrow _ _ _ Hc).
  - intros k' r' sc. rewrite lookup_insert_Some. intros [[_ ?]|[_ ?]]; [done|by eapply c_scope].
  - intros k' r' m. rewrite lookup_insert_Some, lends_app, lends_one. fold (lender k').
    intros [[-> [= <- <-]]|[Hne HV]].
    + rewrite decide_True by done. pose proof (c_lend _ _ _ Hc _ _ _ Hk). lia.
    + rewrite decide_False; [pose proof (c_lend _ _ _ Hc _ _ _ HV); lia|].
      intros He. apply Hne. symmetry. apply (lender_inj k' (lender k) k.2) in He as ->; [by destruct k|done].
  - intros l [Hl|Hl]%list.elem_of_app.
    + destruct (c_lender _ _ _ Hc l Hl) as (i & r' & m & Hi & HV).
      destruct (decide (k = (ty l, i))) as [He|Hne].
      * exists i, r, (n + 1). split; [done|]. by rewrite <- He, lookup_insert_eq.
      * exists i, r', m. split; [done|]. by rewrite lookup_insert_ne.
    + apply list_elem_of_singleton in Hl as ->. exists k.2, r, (n + 1). split; [done|].
      cbn. replace (k.1, k.2) with k by (by destruct k). apply lookup_insert_eq.
Qed.

Lemma counts_return V bs base l rest :
  counts V bs (base ++ l :: rest) ->
  exists i r n, idx l = handle i /\ V !! (ty l, i) = Some (Own r n) /\ 1 <= n /\
    counts (<[(ty l, i) := Own r (n - 1)]> V) bs (base ++ rest).
Proof.
  intros Hc. destruct (c_lender _ _ _ Hc l ltac:(set_solver)) as (i & r & n & Hi & HV).
  assert (Hsplit : forall k, lends k (base ++ l :: rest) =
    (lends k (base ++ rest) + if decide (l = lender k) then 1 else 0)%nat).
  { intros k. change (l :: rest) with ([l] ++ rest). rewrite !lends_app, lends_one.
    fold (lender k). lia. }
  assert (Hl : l = lender (ty l, i)) by (by apply (lender_inj _ l i Hi)).
  exists i, r, n. pose proof (c_lend _ _ _ Hc _ _ _ HV) as Hn. rewrite Hsplit, decide_True in Hn by done.
  split_and!; [done|done|lia|]. split.
  - intros j m Hm. rewrite (borrows_update j V _ (Own r n)) by done. by apply (c_borrow _ _ _ Hc).
  - intros k' r' sc. rewrite lookup_insert_Some. intros [[_ ?]|[_ ?]]; [done|by eapply c_scope].
  - intros k' r' m. rewrite lookup_insert_Some. intros [[<- [= <- <-]]|[Hne HV']]; [lia|].
    rewrite (c_lend _ _ _ Hc _ _ _ HV'), Hsplit, decide_False; [lia|].
    intros He. apply Hne. symmetry. by apply (lender_inj _ l i Hi).
  - intros l' Hl'. destruct (c_lender _ _ _ Hc l') as (j & r' & m & Hj & HV'); [set_solver|].
    destruct (decide ((ty l, i) = (ty l', j))) as [He|Hne].
    + exists j, r, (n - 1). split; [done|]. by rewrite <- He, lookup_insert_eq.
    + exists j, r', m. split; [done|]. by rewrite lookup_insert_ne.
Qed.

Lemma counts_borrow V bs b ls k r :
  counts V (bs ++ [b]) ls -> V !! k = None ->
  counts (<[k := Borrow r (length bs)]> V) (bs ++ [b + 1]) ls.
Proof.
  intros Hc Hk. split.
  - intros i n Hn. rewrite borrows_insert by done. cbn [is_borrow].
    apply lookup_snoc_Some in Hn as [[Hlt Hn]|[-> <-]].
    + rewrite (proj2 (Nat.eqb_neq _ _)) by lia. apply (c_borrow _ _ _ Hc). by rewrite lookup_app_l.
    + rewrite Nat.eqb_refl. rewrite (c_borrow _ _ _ Hc (length bs) b); [lia|].
      by rewrite lookup_app_r, Nat.sub_diag by lia.
  - intros k' r' sc. rewrite lookup_insert_Some, length_app. cbn.
    intros [[_ [= _ <-]]|[_ HV]]; [lia|]. pose proof (c_scope _ _ _ Hc _ _ _ HV) as Hs.
    rewrite length_app in Hs. exact Hs.
  - intros k' r' n. rewrite lookup_insert_Some. intros [[_ ?]|[_ ?]]; [done|by eapply c_lend].
  - intros l Hl. destruct (c_lender _ _ _ Hc l Hl) as (i & r' & n & Hi & HV). exists i, r', n.
    split; [done|]. rewrite lookup_insert_ne; [done|]. intros ->. congruence.
Qed.

Lemma counts_enter V bs ls : counts V bs ls -> counts V (bs ++ [0]) ls.
Proof.
  intros Hc. split; [| |by apply Hc|by apply Hc].
  - intros i n [[_ Hn]|[-> <-]]%lookup_snoc_Some; [by apply (c_borrow _ _ _ Hc)|].
    rewrite borrows_none; [done|]. intros k r sc HV. pose proof (c_scope _ _ _ Hc _ _ _ HV). lia.
  - intros k r sc HV. rewrite length_app. pose proof (c_scope _ _ _ Hc _ _ _ HV). cbn. lia.
Qed.

Lemma counts_exit V bs ls : counts V (bs ++ [0]) ls -> counts V bs ls.
Proof.
  intros Hc. split; [| |by apply Hc|by apply Hc].
  - intros i n Hn. apply (c_borrow _ _ _ Hc). rewrite lookup_app_l; [done|by eapply lookup_lt_Some].
  - intros k r sc HV. pose proof (c_scope _ _ _ Hc _ _ _ HV) as Hs. rewrite length_app in Hs. cbn in Hs.
    destruct (decide (sc = length bs)) as [->|]; [|lia]. exfalso.
    apply (borrows_zero (length bs) V k r); [|done].
    pose proof (c_borrow _ _ _ Hc (length bs) 0) as H0.
    rewrite lookup_app_r, Nat.sub_diag in H0 by lia. specialize (H0 eq_refl). lia.
Qed.

(** ** The intrinsics keep the counts and never panic *)

(** The call ends without a panic, and when it succeeds [Q] holds. *)
Definition safe {A} (p : ResourceTables * outcome error A) (Q : ResourceTables -> A -> Prop) : Prop :=
  match p with
  | (st, Ok a) => Q st a
  | (_, Err _) => True
  | (_, Panic) => False
  end.

Lemma safe_bind {A B} (m : M A) (f : A -> M B) st Q :
  safe (m st) (fun st' a => safe (f a st') Q) -> safe ((m ≫= f) st) Q.
Proof. unfold mbind, M_bind, safe. by destruct (m st) as [st' [a|e|]]. Qed.

Lemma safe_mono {A} (p : ResourceTables * outcome error A) (Q Q' : ResourceTables -> A -> Prop) :
  safe p Q -> (forall st a, Q st a -> Q' st a) -> safe p Q'.
Proof. destruct p as [st [a|e|]]; cbn; auto. Qed.

Definition state_ok (st : ResourceTables) (V : gmap key Slot) (bs : list Z) (ls : list Lender) : Prop :=
  tables_inv st /\ view st V /\ counts V bs ls.

Lemma view_calls st V cs :
  view st V -> view {| tables := tables st; host_table := host_table st; calls := cs |} V.
Proof. intros Hv ty i s. by rewrite (Hv ty i s). Qed.

(** Inserting a slot at a fresh place. *)
Lemma on_insert oc st ty new (Q : ResourceTables -> Z -> Prop) V :
  tables_inv st -> view st V -> is_Some (table st ty) -> is_occupied new = true ->
  (forall st' i, tables_inv st' -> calls st' = calls st -> V !! (ty, i) = None ->
     view st' (<[(ty, i) := new]> V) -> Z.of_nat i + 1 < MAX_RESOURCE_HANDLE -> Q st' (handle i)) ->
  safe (on_table ty (fun t => insert_ oc t new) st) Q.
Proof.
  intros Ht Hv [t Hty] Ho HQ. unfold on_table. rewrite Hty.
  destruct (insert_ok oc t new (Ht _ _ Hty) Ho) as (t' & r & -> & [->|(i & -> & Hinv & Hput & Hmax & Hfr)]);
    [done|]. cbn. apply HQ; [by eapply tables_inv_set|apply calls_set_table| |by eapply view_put|done].
  by eapply view_fresh.
Qed.

(** Removing a slot. *)
Lemma on_remove oc st ty idx (Q : ResourceTables -> Slot -> Prop) V :
  tables_inv st -> view st V -> is_Some (table st ty) ->
  (forall st' i s, idx = handle i -> tables_inv st' -> calls st' = calls st -> V !! (ty, i) = Some s ->
     view st' (base.delete (ty, i) V) -> Q st' s) ->
  safe (on_table ty (fun t => remove oc t idx) st) Q.
Proof.
  intros Ht Hv [t Hty] HQ. unfold on_table. rewrite Hty.
  destruct (get_mut t idx) as [s|e|] eqn:Hg; [| |by apply get_mut_no_panic in Hg].
  - apply get_mut_Ok in Hg as (i & -> & Hi & Ho).
    destruct (guest_remove_ok oc t i s (Ht _ _ Hty) Hi Ho) as (t' & -> & Hinv & Hput). cbn.
    apply (HQ _ i); [done|by eapply tables_inv_set|apply calls_set_table| |by eapply view_del].
    apply Hv. split; [by exists t|done].
  - unfold remove. by rewrite Hg.
Qed.

(** Reading an is_occupied slot, then writing it. *)
Lemma on_get st ty idx (Q : ResourceTables -> Slot -> Prop) V :
  tables_inv st -> view st V -> is_Some (table st ty) ->
  (forall i s, idx = handle i -> V !! (ty, i) = Some s -> Q st s) ->
  safe (on_table ty (fun t => (t, get_mut t idx)) st) Q.
Proof.
  intros Ht Hv [t Hty] HQ. unfold on_table. rewrite Hty.
  rewrite set_table_id by done. destruct (get_mut t idx) as [s|e|] eqn:Hg; [|done|by apply get_mut_no_panic in Hg].
  apply get_mut_Ok in Hg as (i & -> & Hi & Ho). cbn. apply (HQ i); [done|]. apply Hv.
  split; [by exists t|done].
Qed.

Lemma on_set st ty i s s' (Q : ResourceTables -> unit -> Prop) V :
  tables_inv st -> view st V -> V !! (ty, i) = Some s -> is_occupied s' = true ->
  (forall st', tables_inv st' -> calls st' = calls st -> view st' (<[(ty, i) := s']> V) -> Q st' tt) ->
  safe (on_table ty (fun t => (set_slot t (handle i) s', Ok tt)) st) Q.
Proof.
  intros Ht Hv HV Ho HQ. apply Hv in HV as [(t & Hty & Hi) Hos]. unfold on_table. rewrite Hty. cbn.
  apply HQ; [eapply tables_inv_set; [done|done|]|apply calls_set_table|].
  - by apply (set_slot_inv t i s s' (Ht _ _ Hty)).
  - eapply view_put; [done|done| |done]. by eapply set_slot_put.
Qed.

(** *** Sequences of calls *)

Inductive op :=
| New (ty : option nat) (rep : Z)
| Rep (ty : option nat) (idx : Z)
| Drop (ty : option nat) (idx : Z)
| LowerOwn (ty : option nat) (rep : Z)
| LiftOwn (ty : option nat) (idx : Z)
| LiftBorrow (ty : option nat) (idx : Z)
| LowerBorrow (ty : option nat) (rep : Z)
| EnterCall
| ExitCall.

Definition exec (oc : bool) (o : op) : M unit :=
  match o with
  | New ty rep => resource_new oc ty rep;; mret tt
  | Rep ty idx => resource_rep ty idx;; mret tt
  | Drop ty idx => resource_drop oc ty idx;; mret tt
  | LowerOwn ty rep => resource_lower_own oc ty rep;; mret tt
  | LiftOwn ty idx => resource_lift_own oc ty idx;; mret tt
  | LiftBorrow ty idx => resource_lift_borrow ty idx;; mret tt
  | LowerBorrow ty rep => resource_lower_borrow oc ty rep;; mret tt
  | EnterCall => enter_call
  | ExitCall => exit_call oc
  end.

(** What a caller provides: the tables the operation uses, a scope to borrow in
    or to exit, and fewer than [u32::MAX] borrows. *)
Definition room (st : ResourceTables) : Prop :=
  Z.of_nat (length (all_lenders (calls st))) < u32_max /\
  Z.of_nat (length (calls st)) < 2 ^ 63 /\
  Forall (fun c => borrow_count c < u32_max) (calls st).
Definition pre (st : ResourceTables) (o : op) : Prop :=
  room st /\
  match o with
  | New ty _ | Rep ty _ | Drop ty _ | LowerOwn ty _ | LiftOwn ty _ => is_Some (table st ty)
  | LiftBorrow ty _ | LowerBorrow ty _ => is_Some (table st ty) /\ calls st <> []
  | EnterCall => True
  | ExitCall => calls st <> []
  end.

Lemma Inv_intro st V :
  tables_inv st -> view st V -> counts V (borrow_count <$> calls st) (all_lenders (calls st)) -> Inv st.
Proof. intros ? ? ?. split; [done|]. by exists V. Qed.

Lemma all_lenders_app cs cs' : all_lenders (cs ++ cs') = all_lenders cs ++ all_lenders cs'.
Proof. apply bind_app. Qed.

Lemma all_lenders_snoc cs c : all_lenders (cs ++ [c]) = all_lenders cs ++ lenders c.
Proof. rewrite all_lenders_app. cbn. by rewrite app_nil_r. Qed.

Lemma all_lenders_insert cs i c c' :
  cs !! i = Some c -> lenders c' = lenders c -> all_lenders (<[i := c']> cs) = all_lenders cs.
Proof.
  revert i. induction cs as [|c0 cs IH]; intros [|i] Hi Hl; cbn in *; [done|done| |].
  - injection Hi as ->. by rewrite Hl.
  - f_equal. by apply IH.
Qed.

Lemma resource_new_safe oc st ty rep (Q : ResourceTables -> Z -> Prop) :
  Inv st -> is_Some (table st ty) ->
  (forall st' i, Inv st' -> calls st' = calls st -> Q st' (handle i)) -> safe (resource_new oc ty rep st) Q.
Proof.
  intros [Ht (V & Hv & Hc)] Hty HQ. apply (on_insert oc st ty (Own rep 0) Q V); try done.
  intros st' i Ht' Hcs Hn Hv' _. apply HQ; [|done]. eapply Inv_intro; [done|exact Hv'|].
  rewrite Hcs. by apply counts_new.
Qed.

Lemma resource_drop_safe oc st ty idx (Q : ResourceTables -> option Z -> Prop) :
  Inv st -> room st -> is_Some (table st ty) ->
  (forall st' r, Inv st' -> Q st' r) -> safe (resource_drop oc ty idx st) Q.
Proof.
  intros [Ht (V & Hv & Hc)] (_ & _ & Hroom) Hty HQ. apply safe_bind. eapply (on_remove oc st ty idx _ V); try done.
  intros st' i s -> Ht' Hcs HV Hv'. destruct s as [nx|r n|r sc].
  - apply Hv in HV as [_ [=]].
  - destruct (Z.eqb_spec n 0) as [->|]; [|done]. apply HQ. eapply Inv_intro; [done|exact Hv'|].
    rewrite Hcs. by eapply counts_drop_own.
  - pose proof (c_scope _ _ _ Hc _ _ _ HV) as Hsc. rewrite length_fmap in Hsc.
    destruct (lookup_lt_is_Some_2 (calls st) sc Hsc) as [c Hcc].
    destruct (counts_drop_borrow _ _ _ _ _ _ (borrow_count c) Hc HV) as [Hc' Hpos];
      [by rewrite list_lookup_fmap, Hcc|].
    rewrite list.Forall_forall in Hroom. specialize (Hroom c (list_elem_of_lookup_2 _ _ _ Hcc)).
    unfold u32_max in Hroom. apply safe_bind. cbn. rewrite Hcs. apply safe_bind. cbn. rewrite Hcc. cbn.
    apply safe_bind. cbn. rewrite arith_ok by (unfold in_u; lia). cbn. apply safe_bind. cbn. apply HQ.
    eapply Inv_intro; [exact Ht'|by apply view_calls|]. cbn [calls].
    rewrite list_fmap_insert. cbn [borrow_count]. by rewrite (all_lenders_insert _ _ c).
Qed.

Lemma resource_lift_own_safe oc st ty idx (Q : ResourceTables -> Z -> Prop) :
  Inv st -> is_Some (table st ty) ->
  (forall st' r, Inv st' -> Q st' r) -> safe (resource_lift_own oc ty idx st) Q.
Proof.
  intros [Ht (V & Hv & Hc)] Hty HQ. apply safe_bind. eapply (on_remove oc st ty idx _ V); try done.
  intros st' i s -> Ht' Hcs HV Hv'. destruct s as [nx|r n|r sc]; [|  |done].
  - apply Hv in HV as [_ [=]].
  - destruct (Z.eqb_spec n 0) as [->|]; [|done]. apply HQ. eapply Inv_intro; [done|exact Hv'|].
    rewrite Hcs. by eapply counts_drop_own.
Qed.

Lemma lends_le k ls : (lends k ls <= length ls)%nat.
Proof. unfold lends. apply length_filter. Qed.

Lemma calls_snoc st : calls st <> [] -> exists cs c, calls st = cs ++ [c].
Proof. intros H. destruct (exists_last H) as (cs & c & ->). by exists cs, c. Qed.

Lemma last_scope_ok st cs c : calls st = cs ++ [c] -> last_scope st = (st, Ok c).
Proof. intros H. unfold last_scope, mbind, M_bind, get_calls, lift. by rewrite H, last_snoc. Qed.

Lemma set_last_scope_ok st cs c c' :
  calls st = cs ++ [c] ->
  set_last_scope c' st = ({| tables := tables st; host_table := host_table st; calls := cs ++ [c'] |}, Ok tt).
Proof. intros H. unfold set_last_scope, mbind, M_bind, get_calls, set_calls. by rewrite H, removelast_last. Qed.

Lemma resource_lift_borrow_safe st ty idx (Q : ResourceTables -> Z -> Prop) :
  Inv st -> room st -> is_Some (table st ty) -> calls st <> [] ->
  (forall st' r, Inv st' -> Q st' r) -> safe (resource_lift_borrow ty idx st) Q.
Proof.
  intros [Ht (V & Hv & Hc)] (Hroom & _ & _) Hty (cs & c & Hcs)%calls_snoc HQ. apply safe_bind.
  eapply (on_get st ty idx _ V); try done. intros i s -> HV. destruct s as [nx|r n|r sc].
  - apply Hv in HV as [_ [=]].
  - pose proof (c_lend _ _ _ Hc _ _ _ HV) as Hn. pose proof (lends_le (ty, i) (all_lenders (calls st))).
    unfold u32_max in Hroom. apply safe_bind. cbn.
    rewrite (proj2 (checked_Some 32 (n + 1) (n + 1))) by (unfold in_u; split; [lia|done]). cbn.
    apply safe_bind. eapply (on_set st ty i _ (Own r (n + 1)) _ V); try done. intros st' Ht' Hcs' Hv'.
    apply safe_bind. rewrite (last_scope_ok st' cs c) by congruence. cbn [safe]. apply safe_bind.
    erewrite set_last_scope_ok by (rewrite Hcs'; exact Hcs). cbn. apply HQ.
    eapply Inv_intro; [exact Ht'|by apply view_calls|]. cbn [calls].
    rewrite all_lenders_snoc. cbn [lenders]. rewrite app_assoc, <- all_lenders_snoc, <- Hcs.
    replace (borrow_count <$> cs ++ [_]) with (borrow_count <$> calls st)
      by (by rewrite Hcs, !fmap_app).
    by apply (counts_lend V _ _ (ty, i)).
  - apply HQ. eapply Inv_intro; done.
Qed.

Lemma resource_lower_borrow_safe oc st ty rep (Q : ResourceTables -> Z -> Prop) :
  Inv st -> room st -> is_Some (table st ty) -> calls st <> [] ->
  (forall st' r, Inv st' -> Q st' r) -> safe (resource_lower_borrow oc ty rep st) Q.
Proof.
  intros [Ht (V & Hv & Hc)] (_ & Hlen & Hroom) Hty (cs & c & Hcs)%calls_snoc HQ.
  apply safe_bind. cbn [safe get_calls]. apply safe_bind. cbn [safe lift].
  assert (Hl : length (calls st) = S (length cs)) by (rewrite Hcs, length_app; cbn; lia).
  rewrite arith_ok by (unfold in_u; lia). apply safe_bind. rewrite (last_scope_ok st cs c Hcs). cbn [safe].
  assert (Hb : 0 <= borrow_count c < u32_max).
  { rewrite list.Forall_forall in Hroom. split; [|apply Hroom; rewrite Hcs; set_solver].
    rewrite (c_borrow _ _ _ Hc (length cs) (borrow_count c)); [lia|].
    rewrite list_lookup_fmap, Hcs, lookup_app_r, Nat.sub_diag by lia. done. }
  unfold u32_max in Hb. apply safe_bind. cbn [safe lift].
  rewrite (proj2 (checked_Some 32 _ (borrow_count c + 1))) by (unfold in_u; split; [lia|done]).
  cbn [unwrap]. apply safe_bind. rewrite (set_last_scope_ok st cs c _ Hcs). cbn [safe].
  replace (Z.to_nat (Z.of_nat (length (calls st)) - 1)) with (length cs) by lia.
  eapply (on_insert _ _ _ _ _ V); [exact Ht|by apply view_calls|by destruct ty|done|].
  intros st' i Ht' Hcs' Hn Hv' _. apply HQ. eapply Inv_intro; [done|exact Hv'|]. rewrite Hcs'. cbn [calls].
  rewrite all_lenders_snoc. cbn [lenders]. rewrite <- all_lenders_snoc, <- Hcs, fmap_app. cbn.
  rewrite <- (length_fmap borrow_count cs). apply counts_borrow; [|done].
  rewrite Hcs, fmap_app in Hc. by rewrite <- Hcs in Hc.
Qed.

Lemma enter_call_safe st (Q : ResourceTables -> unit -> Prop) :
  Inv st -> (forall st', Inv st' -> Q st' tt) -> safe (enter_call st) Q.
Proof.
  intros [Ht (V & Hv & Hc)] HQ. apply safe_bind. apply HQ.
  eapply Inv_intro; [exact Ht|by apply view_calls|]. cbn [calls].
  rewrite all_lenders_snoc, fmap_app. cbn. rewrite app_nil_r. by apply counts_enter.
Qed.

Lemma return_lends_safe oc ls base bs st V (Q : ResourceTables -> unit -> Prop) :
  tables_inv st -> view st V -> counts V bs (base ++ ls) -> Z.of_nat (length (base ++ ls)) < u32_max ->
  (forall st' V', tables_inv st' -> calls st' = calls st -> view st' V' -> counts V' bs base -> Q st' tt) ->
  safe (return_lends oc ls st) Q.
Proof.
  revert st V. induction ls as [|l ls IH]; intros st V Ht Hv Hc Hlen HQ; cbn [return_lends].
  { cbn. rewrite app_nil_r in Hc. by eapply HQ. }
  destruct (counts_return _ _ _ _ _ Hc) as (i & r & n & Hi & HV & Hn & Hc').
  pose proof (c_lend _ _ _ Hc _ _ _ HV) as Hl. pose proof (lends_le (ty l, i) (base ++ l :: ls)) as Hle.
  unfold u32_max in Hlen. apply safe_bind. unfold on_table.
  destruct (proj1 (Hv _ _ _) HV) as [(t & Hty & Ht0) _]. rewrite Hty, Hi.
  rewrite (get_mut_at t i (Own r n) (Ht _ _ Hty) Ht0) by done.
  rewrite arith_ok by (unfold in_u; lia). cbn [safe].
  eapply (IH _ (<[(ty l, i) := Own r (n - 1)]> V)); [| |exact Hc'| |].
  - eapply tables_inv_set; [done|done|]. by apply (set_slot_inv t i (Own r n)); [apply (Ht _ _ Hty)|..].
  - eapply view_put; [done|done| |done]. by eapply set_slot_put.
  - revert Hlen. rewrite !length_app. cbn. unfold u32_max. lia.
  - intros st' V' ? Hcalls ? ?. eapply HQ; try done. by rewrite Hcalls, calls_set_table.
Qed.

Lemma exit_call_safe oc st (Q : ResourceTables -> unit -> Prop) :
  Inv st -> room st -> calls st <> [] -> (forall st', Inv st' -> Q st' tt) -> safe (exit_call oc st) Q.
Proof.
  intros [Ht (V & Hv & Hc)] (Hlen & _ & _) (cs & c & Hcs)%calls_snoc HQ. unfold exit_call.
  apply safe_bind. cbn [safe get_calls]. apply safe_bind. cbn [safe lift]. rewrite Hcs, last_snoc. cbn [unwrap].
  apply safe_bind. cbn [safe set_calls]. rewrite removelast_last.
  destruct (Z.ltb_spec 0 (borrow_count c)) as [|Hb]; [done|].
  rewrite Hcs, fmap_app in Hc. cbn in Hc. rewrite all_lenders_snoc in Hc.
  assert (Hz : borrow_count c = 0).
  { pose proof (c_borrow _ _ _ Hc (length cs) (borrow_count c)) as H0.
    rewrite lookup_app_r, length_fmap, Nat.sub_diag in H0 by (rewrite length_fmap; lia).
    specialize (H0 eq_refl). lia. }
  rewrite Hz in Hc. apply counts_exit in Hc. rewrite Hcs, all_lenders_snoc in Hlen.
  eapply (return_lends_safe oc _ (all_lenders cs) _ _ V); [exact Ht|by apply view_calls|done|done|].
  intros st' V' Ht' Hcs' Hv' Hc'. apply HQ. eapply Inv_intro; [done|done|]. by rewrite Hcs'.
Qed.

Lemma exec_safe oc st o : Inv st -> pre st o -> safe (exec oc o st) (fun st' _ => Inv st').
Proof.
  intros Hi [Hroom Hp]. destruct o; cbn [exec] in *; try (apply safe_bind).
  - by apply resource_new_safe.
  - destruct Hp as [t Ht]. unfold resource_rep, on_table. rewrite Ht.
    rewrite set_table_id by done. unfold rep. by destruct (_ ≫= _) as [[| |]|].
  - by apply resource_drop_safe.
  - by apply resource_new_safe.
  - by apply resource_lift_own_safe.
  - destruct Hp. by apply resource_lift_borrow_safe.
  - destruct Hp. by apply resource_lower_borrow_safe.
  - by apply enter_call_safe.
  - by apply exit_call_safe.
Qed.

Definition init (n : nat) : ResourceTables :=
  {| tables := Some (replicate n resource_table_default); host_table := Some resource_table_default; calls := [] |}.

(** The states reached by operations that succeed or that are refused because they name no
    handle.  After any other error the tables may be used no more: the operations remove a
    handle, or close a scope, before they find out that they must not
    ([failed_drop_removes]). *)
Inductive reachable (oc : bool) : ResourceTables -> Prop :=
| reach_init n : reachable oc (init n)
| reach_exec st o st' :
    reachable oc st -> pre st o -> exec oc o st = (st', Ok tt) -> reachable oc st'
| reach_refused st o st' h :
    reachable oc st -> pre st o -> exec oc o st = (st', Err (UnknownHandle h)) -> reachable oc st'.

(** An operation that is refused because it names no handle changes nothing: it stops at
    its first step, and the later ones are never refused for that. *)
Definition never_unknown {A} (m : M A) : Prop := forall s s' h, m s <> (s', Err (UnknownHandle h)).

Lemma never_bind {A B} (m : M A) (f : A -> M B) : never_unknown m -> (forall a, never_unknown (f a)) -> never_unknown (m ≫= f).
Proof.
  intros Hm Hf s s' h. unfold mbind, M_bind. specialize (Hm s). destruct (m s) as [s1 [a|e|]]; [apply Hf| |done].
  intros [= -> ->]. by apply (Hm s' h).
Qed.

Lemma never_lift {A} (r : outcome error A) : (forall h, r <> Err (UnknownHandle h)) -> never_unknown (lift r).
Proof. intros Hr s s' h [= _ Hx]. by apply (Hr h). Qed.

Lemma never_table {A} ty (f : ResourceTable -> ResourceTable * outcome error A) :
  (forall t h, (f t).2 <> Err (UnknownHandle h)) -> never_unknown (on_table ty f).
Proof.
  intros Hf s s' h. unfold on_table. destruct (table s ty) as [t|]; [|done]. specialize (Hf t h).
  destruct (f t) as [t' r]. by intros [= _ ->].
Qed.

Lemma arith_known oc w z h : arith oc w z <> Err (UnknownHandle h).
Proof. unfold arith. destruct (in_ub w z); [done|]. by destruct oc. Qed.

Lemma insert_known oc t s h : (insert_ oc t s).2 <> Err (UnknownHandle h).
Proof.
  unfold insert_. destruct (if (_ =? _)%nat then _ else _) as [sl|]; [|done]. destruct (sl !! _) as [[]|]; try done. cbn [snd].
  pose proof (arith_known oc 32 (next t + 1) h) as Ha. destruct (arith oc 32 (next t + 1)) as [r|e|]; [|done|done]. cbn. by destruct (_ <=? r).
Qed.

Lemma never_calls cs : never_unknown get_calls /\ never_unknown (set_calls cs) /\ never_unknown last_scope /\ forall c, never_unknown (set_last_scope c).
Proof.
  assert (Hg : never_unknown get_calls) by done. assert (Hs : forall cs, never_unknown (set_calls cs)) by done.
  split_and!; [done|done| |]; [|intros c]; (apply never_bind; [done|]); intros l; [|done]. apply never_lift. intros h. by destruct (last l).
Qed.

Lemma never_return oc ls : never_unknown (return_lends oc ls).
Proof.
  induction ls as [|l ls IH]; [done|]. apply never_bind; [|done]. apply never_table. intros t h.
  destruct (get_mut t (idx l)) as [[]|e|]; try done. pose proof (arith_known oc 32 (lend_count - 1) h). by destruct (arith oc 32 _).
Qed.

Definition kept_unknown {A} (m : M A) : Prop := forall s s' h, m s = (s', Err (UnknownHandle h)) -> s' = s.

Lemma never_kept {A} (m : M A) : never_unknown m -> kept_unknown m.
Proof. intros Hm s s' h Hx. by apply Hm in Hx. Qed.

Lemma kept_bind {A B} (m : M A) (f : A -> M B) : kept_unknown m -> (forall a, never_unknown (f a)) -> kept_unknown (m ≫= f).
Proof.
  intros Hm Hf s s' h. unfold mbind, M_bind. specialize (Hm s). destruct (m s) as [s1 [a|e|]]; [|intros [= <- ->]; by eapply Hm|done].
  intros Hx. by apply Hf in Hx.
Qed.

Lemma kept_table {A} ty (f : ResourceTable -> ResourceTable * outcome error A) :
  (forall t h, (f t).2 = Err (UnknownHandle h) -> (f t).1 = t) -> kept_unknown (on_table ty f).
Proof.
  intros Hf s s' h. unfold on_table. destruct (table s ty) as [t|] eqn:Ht; [|done]. specialize (Hf t h).
  destruct (f t) as [t' r]. cbn in Hf. intros [= <- ->]. rewrite Hf by done. by apply set_table_id.
Qed.

Lemma remove_unknown oc t idx h : (remove oc t idx).2 = Err (UnknownHandle h) -> (remove oc t idx).1 = t.
Proof. unfold remove. destruct (get_mut t idx) as [s|e|]; [|done|done]. by destruct (arith oc 32 (idx - 1)). Qed.

Lemma removed_known oc s : never_unknown
  match s with
  | Own rep lend_count => if lend_count =? 0 then mret (Some rep) else lift (Err RemoveWhileBorrowed)
  | Borrow _ scope =>
      scopes ← get_calls;
      c ← lift (unwrap (scopes !! scope));
      n ← lift (arith oc 32 (borrow_count c - 1));
      set_calls (<[scope := {| lenders := lenders c; borrow_count := n |}]> scopes);;
      mret None
  | Free _ => lift Panic
  end.
Proof.
  destruct s as [|r n|r sc]; [done|by destruct (n =? 0)|]. apply never_bind; [done|]. intros l.
  apply never_bind; [apply never_lift; intros h; by destruct (l !! sc)|]. intros c.
  apply never_bind; [apply never_lift; intros h; apply arith_known|]. intros n. done.
Qed.

Lemma lent_known ty idx s : never_unknown
  match s with
  | Own rep lend_count =>
      n ← lift (unwrap (checked 32 (lend_count + 1)));
      on_table ty (fun t => (set_slot t idx (Own rep n), Ok tt));;
      scope ← last_scope;
      set_last_scope {| lenders := lenders scope ++ [{| ty := ty; idx := idx |}];
                        borrow_count := borrow_count scope |};;
      mret rep
  | Borrow rep _ => mret rep
  | Free _ => lift Panic
  end.
Proof.
  destruct (never_calls []) as (_ & _ & Hl & Hsl). destruct s as [|r n|r sc]; [done| |done].
  apply never_bind; [apply never_lift; intros h; by destruct (checked 32 (n + 1))|]. intros n'.
  apply never_bind; [by apply never_table|]. intros _. apply never_bind; [done|]. intros c. by apply never_bind.
Qed.

Lemma borrow_known oc ty rep : never_unknown (resource_lower_borrow oc ty rep).
Proof.
  destruct (never_calls []) as (Hg & _ & Hl & Hsl). apply never_bind; [done|]. intros cs.
  apply never_bind; [apply never_lift; intros h; apply arith_known|]. intros sc. apply never_bind; [done|]. intros c.
  apply never_bind; [apply never_lift; intros h; by destruct (checked 32 (borrow_count c + 1))|]. intros n.
  apply never_bind; [done|]. intros _. apply never_table. intros t h. apply insert_known.
Qed.

Lemma exit_known oc : never_unknown (exit_call oc).
Proof.
  apply never_bind; [done|]. intros cs. apply never_bind; [apply never_lift; intros h; by destruct (last cs)|]. intros cx.
  apply never_bind; [done|]. intros _. destruct (0 <? _); [by apply never_lift|]. apply never_return.
Qed.

Lemma exec_unknown oc o : kept_unknown (exec oc o).
Proof.
  destruct o; cbn [exec]; try (apply kept_bind; [|by intros a]).
  - apply never_kept, never_table. intros t i. apply insert_known.
  - by apply kept_table.
  - apply kept_bind; [apply kept_table; intros t h; apply remove_unknown|apply removed_known].
  - apply never_kept, never_table. intros t i. apply insert_known.
  - apply kept_bind; [apply kept_table; intros t h; apply remove_unknown|]. intros [|r n|r sc]; [done|by destruct (n =? 0)|done].
  - apply kept_bind; [by apply kept_table|]. intros s. apply lent_known.
  - apply never_kept, borrow_known.
  - by apply never_kept.
  - apply never_kept, exit_known.
Qed.

Lemma init_table n ty t : table (init n) ty = Some t -> t = resource_table_default.
Proof.
  destruct ty as [i|]; cbn; [|by intros [= <-]]. intros [-> _]%lookup_replicate. done.
Qed.

Lemma init_Inv n : Inv (init n).
Proof.
  split.
  - intros ty t ->%init_table. split; [done|]. exists []. constructor.
  - exists ∅. split.
    + intros ty i s. split; [done|]. intros [(t & ->%init_table & Hs) _]. done.
    + split; [done|done|done|]. intros l Hl. by apply not_elem_of_nil in Hl.
Qed.

Lemma reachable_Inv oc st : reachable oc st -> Inv st.
Proof.
  induction 1 as [n|st o st' _ IH Hp He|st o st' h _ IH Hp He]; [apply init_Inv| |].
  - pose proof (exec_safe oc st o IH Hp) as Hs. by rewrite He in Hs.
  - by apply exec_unknown in He as ->.
Qed.

(** C32: Accounting of borrows, in every state that is reached by operations that succeed or
    name no handle: the borrow count of a scope is the number of borrow handles made in it,
    every borrow handle belongs to a scope that is still open, the lend count of an owned
    handle is the number of times the open scopes lent it, and every lender is an owned
    handle; therefore no operation, the exit of a call included, reaches one of
    its panics there, and one that names no handle changes nothing.  States after other
    errors are not covered. *)
Theorem resource_accounting oc st (Hr : reachable oc st) :
  (exists V, view st V /\ counts V (borrow_count <$> calls st) (all_lenders (calls st))) /\
  forall o, pre st o -> (exec oc o st).2 <> Panic /\
    (forall h, (exec oc o st).2 = Err (UnknownHandle h) -> (exec oc o st).1 = st).
Proof.
  pose proof (reachable_Inv oc st Hr) as Hi. split; [apply Hi|]. intros o Hp. split.
  - pose proof (exec_safe oc st o Hi Hp) as Hs. by destruct (exec oc o st) as [st' [| |]].
  - intros h Hh. destruct (exec oc o st) as [st' r] eqn:He. cbn in *. subst r. by apply exec_unknown in He.
Qed.

(** ** The life of a handle *)

Lemma rep_of st V ty h :
  tables_inv st -> view st V -> is_Some (table st ty) ->
  (resource_rep ty h st).2 =
    match i ← handle_index_to_table_index h; V !! (ty, i) with
    | Some (Own r _) | Some (Borrow r _) => Ok r
    | _ => Err (UnknownHandle h)
    end.
Proof.
  intros Ht Hv [t Hty]. unfold resource_rep, on_table, rep. rewrite Hty. cbn [snd].
  destruct (handle_index_to_table_index h) as [i|]; cbn; [|done].
  destruct (slots t !! i) as [s|] eqn:Hs.
  - destruct (is_occupied s) eqn:Ho.
    + assert (V !! (ty, i) = Some s) as -> by (apply Hv; split; [by exists t|done]). by destruct s.
    + rewrite (view_fresh st V ty t i); [by destruct s|done|done|]. intros s'. rewrite Hs. by intros [= <-].
  - rewrite (view_fresh st V ty t i); [done|done|done|]. intros s'. by rewrite Hs.
Qed.

Lemma handle_index_inj h i : handle_index_to_table_index h = Some i -> h = handle i.
Proof.
  unfold handle_index_to_table_index. destruct (checked 32 (h - 1)) as [z|] eqn:Hz; [|done].
  apply checked_Some in Hz as [Hz ->]. unfold in_u in Hz. cbn. intros [= <-]. unfold handle. lia.
Qed.

Lemma is_Some_set st ty t ty' :
  is_Some (table st ty) -> is_Some (table st ty') -> is_Some (table (set_table st ty t) ty').
Proof. intros Ht Ht'. rewrite table_set by done. by case_decide. Qed.

(** The life of a handle: creating a resource returns a handle in [1, 2^30)
    that named nothing before and now names the representation, every other
    handle names what it did, and dropping the handle returns the
    representation for the destructor and leaves the handle naming nothing. *)
Theorem handle_lifecycle oc st ty r st' h (Hr : reachable oc st) (Hty : is_Some (table st ty))
    (Hnew : resource_new oc ty r st = (st', Ok h)) :
  1 <= h < MAX_RESOURCE_HANDLE /\
  (resource_rep ty h st).2 = Err (UnknownHandle h) /\ (resource_rep ty h st').2 = Ok r /\
  (forall ty' h', (ty', h') <> (ty, h) -> is_Some (table st ty') ->
     (resource_rep ty' h' st').2 = (resource_rep ty' h' st).2) /\
  exists st'', resource_drop oc ty h st' = (st'', Ok (Some r)) /\
    (resource_rep ty h st'').2 = Err (UnknownHandle h).
Proof.
  destruct (reachable_Inv oc st Hr) as [Ht (V & Hv & _)]. destruct Hty as [t Hty].
  unfold resource_new, on_table in Hnew. rewrite Hty in Hnew.
  destruct (insert_ok oc t (Own r 0) (Ht _ _ Hty) eq_refl)
    as (t' & x & Hins & [->|(i & -> & Hinv & Hput & Hmax & Hfr)]); rewrite Hins in Hnew; [done|].
  injection Hnew as <- <-. pose proof (view_put _ _ _ _ _ _ _ Hv Hty Hput eq_refl) as Hv'.
  pose proof (tables_inv_set _ _ _ _ Ht Hty Hinv) as Ht'.
  assert (Hsome : is_Some (table (set_table st ty t') ty)) by (by apply is_Some_set).
  split; [unfold handle; lia|].
  rewrite (rep_of st V) by done. rewrite (rep_of _ _ ty _ Ht' Hv' Hsome), !handle_index by lia.
  cbn [mbind option_bind]. rewrite (view_fresh st V ty t i), lookup_insert_eq by done. split_and!; [done|done| |].
  - intros ty' h' Hne Hty'. rewrite (rep_of st V) by done.
    rewrite (rep_of _ _ ty' _ Ht' Hv') by (by apply is_Some_set).
    destruct (handle_index_to_table_index h') as [j|] eqn:Hj; cbn [mbind option_bind]; [|done].
    rewrite lookup_insert_ne; [done|]. intros [= -> ->]. apply handle_index_inj in Hj as ->. done.
  - unfold resource_drop, on_table. unfold mbind at 1, M_bind at 1.
    rewrite table_set, decide_True by done.
    destruct (guest_remove_ok oc t' i (Own r 0) Hinv (proj1 Hput) eq_refl) as (t'' & -> & Hinv'' & Hput'').
    eexists. split; [reflexivity|].
    assert (Hty' : table (set_table st ty t') ty = Some t') by (by rewrite table_set, decide_True).
    rewrite (rep_of _ (base.delete (ty, i) (<[(ty, i) := Own r 0]> V))).
    + rewrite handle_index by lia. cbn [mbind option_bind]. by rewrite lookup_delete_eq.
    + by eapply tables_inv_set.
    + by eapply view_del.
    + by apply is_Some_set.
Qed.

(** ** Concrete runs *)

Definition roomb (st : ResourceTables) : bool :=
  (Z.of_nat (length (all_lenders (calls st))) <? u32_max) &&
  (Z.of_nat (length (calls st)) <? 2 ^ 63) && forallb (fun c => borrow_count c <? u32_max) (calls st).
Definition preb (st : ResourceTables) (o : op) : bool :=
  let has ty := bool_decide (is_Some (table st ty)) in
  let scope := negb (length (calls st) =? 0)%nat in
  roomb st &&
  match o with
  | New ty _ | Rep ty _ | Drop ty _ | LowerOwn ty _ | LiftOwn ty _ => has ty
  | LiftBorrow ty _ | LowerBorrow ty _ => has ty && scope
  | EnterCall => true
  | ExitCall => scope
  end.

Lemma preb_pre st o : preb st o = true -> pre st o.
Proof.
  unfold preb, roomb. rewrite !andb_true_iff, !Z.ltb_lt. intros [[[Hl Hc] Hb] Ho].
  assert (Hs : negb (length (calls st) =? 0)%nat = true -> calls st <> [])
    by (destruct (calls st); done).
  split; [split_and!; [done|done|]|].
  - apply list.Forall_forall. intros c Hin. apply Z.ltb_lt.
    rewrite forallb_forall in Hb. by apply Hb, list_elem_of_In.
  - destruct o; try (by apply bool_decide_eq_true in Ho); [| |done|by apply Hs];
      apply andb_true_iff in Ho as [Ho1 Ho2]; apply bool_decide_eq_true in Ho1; auto.
Qed.

(** A run of operations that are called as they should be and succeed. *)
Fixpoint runs (oc : bool) (os : list op) (st : ResourceTables) : option ResourceTables :=
  match os with
  | [] => Some st
  | o :: os' =>
      if preb st o then
        match exec oc o st with
        | (st', Ok tt) => runs oc os' st'
        | _ => None
        end
      else None
  end.

Lemma runs_reachable oc os st st' : reachable oc st -> runs oc os st = Some st' -> reachable oc st'.
Proof.
  revert st. induction os as [|o os IH]; intros st Hr; cbn [runs]; [by intros [= <-]|].
  destruct (preb st o) eqn:Hp; [|done]. destruct (exec oc o st) as [s [[]| |]] eqn:He; [|done|done].
  apply IH. eapply reach_exec; [done|by apply preb_pre|exact He].
Qed.

(** In a call: a resource of the host, lent twice, and a borrow of type 0. *)
Definition sample : ResourceTables :=
  default (init 0)
    (runs true [EnterCall; New None 42; LiftBorrow None 1; LiftBorrow None 1; LowerBorrow (Some O) 7] (init 1)).

Lemma sample_reached : reachable true sample.
Proof.
  eapply (runs_reachable true
    [EnterCall; New None 42; LiftBorrow None 1; LiftBorrow None 1; LowerBorrow (Some O) 7]);
    [apply (reach_init _ 1)|by vm_compute].
Qed.

Lemma resource_accounting_witness :
  exists V, view sample V /\ counts V [1] [{| ty := None; idx := 1 |}; {| ty := None; idx := 1 |}].
Proof. exact (proj1 (resource_accounting true sample sample_reached)). Defined.

Lemma handle_lifecycle_witness :
  exists st', resource_new true (Some O) 9 sample = (st', Ok 2) /\
    (resource_rep (Some O) 2 st').2 = Ok 9 /\
    exists st'', resource_drop true (Some O) 2 st' = (st'', Ok (Some 9)).
Proof.
  set (st' := (resource_new true (Some O) 9 sample).1).
  assert (Hn : resource_new true (Some O) 9 sample = (st', Ok 2)) by (by vm_compute).
  exists st'. split; [exact Hn|].
  destruct (handle_lifecycle true sample (Some O) 9 st' 2 sample_reached)
    as (_ & _ & Hrep & _ & st'' & Hd & _); [by eexists|exact Hn|].
  split; [exact Hrep|]. exists st''. exact Hd.
Defined.

(** Dropping an owned handle while it is lent fails, but the handle is gone
    all the same; the exit of the call that lent it, whose assertions rely on
    the owned handle still being there, then panics. *)
Theorem failed_drop_removes :
  let lent := default (init 0) (runs true [EnterCall; New None 42; LiftBorrow None 1] (init 0)) in
  let after := (resource_drop true None 1 lent).1 in
  (resource_rep None 1 lent).2 = Ok 42 /\
  (resource_drop true None 1 lent).2 = Err RemoveWhileBorrowed /\
  (resource_rep None 1 after).2 = Err (UnknownHandle 1) /\
  (exit_call true lent).2 = Ok tt /\ (exit_call true after).2 = Panic.
Proof. by vm_compute. Qed.
