(* ===== verification/MemoryTypes.v ===== *)
(** * Memory types, plans and limits

    [Memory] of [src/wasmtime-repo/crates/types/src/lib.rs], [MemoryStyle] and
    [MemoryPlan] of [crates/environ/src/module.rs], the rounding to host pages of
    [crates/wasmtime/src/runtime/vm.rs], [StoreLimits] of [runtime/limits.rs] and
    the store's limiter calls of [runtime/store.rs].  Sizes are 64-bit, also the
    [usize] of the host. *)

From Stdlib Require Import ZArith Lia.
From stdpp Require Import base list numbers option.
From S2P Require Import Prelude.
Open Scope Z_scope.

Inductive mem_error :=
| SizeOverflow
| RoundOverflow
| AllocationOverflow
| MmapFailed
| ProtectFailed
| MinimumExceedsLimits
| MaximumExceeded
| ForcedTrap
| ExceedsPool.
#[global] Instance mem_error_eq : EqDecision mem_error.
Proof. solve_decision. Defined.

(** ** Memory types *)

Record Memory := {
  minimum : Z;
  maximum : option Z;
  shared : bool;
  memory64 : bool;
  page_size_log2 : Z
}.

Definition WASM32_MAX_SIZE : Z := Z.shiftl 1 32.
Definition DEFAULT_PAGE_SIZE_LOG2 : Z := 16.

Section Sizes.
  Context (dbg : bool).

(** [1 << log2] on a page size: [log2] is 0 or 16. *)
Definition page_size_of {E} (log2 : Z) : outcome E Z :=
  debug_assert dbg ((log2 =? 16) || (log2 =? 0));;
  Ok (Z.shiftl 1 log2).

Definition page_size {E} (m : Memory) : outcome E Z := page_size_of (page_size_log2 m).

(** [Result<u64, SizeOverflow>] is an [option]. *)
Definition minimum_byte_size {E} (m : Memory) : outcome E (option Z) :=
  p ← page_size m;
  Ok (checked 64 (minimum m * p)).

Definition max_size_based_on_index_type {E} (m : Memory) : outcome E Z :=
  if memory64 m then
    p ← page_size m;
    Ok ((0 - p) mod 2 ^ 64)
  else Ok WASM32_MAX_SIZE.

Definition maximum_byte_size {E} (m : Memory) : outcome E (option Z) :=
  match maximum m with
  | Some max =>
      p ← page_size m;
      Ok (checked 64 (max * p))
  | None =>
      min ← minimum_byte_size m;
      match min with
      | None => Ok None
      | Some min =>
          based ← max_size_based_on_index_type m;
          Ok (Some (Z.max min based))
      end
  end.

(** ** Plans *)

Inductive MemoryStyle :=
| Dynamic (reserve : Z)
| Static (byte_reservation : Z).

Record Tunables := {
  static_memory_reservation : Z;
  static_memory_offset_guard_size : Z;
  dynamic_memory_offset_guard_size : Z;
  dynamic_memory_growth_reserve : Z;
  static_memory_bound_is_maximum : bool;
  guard_before_linear_memory : bool
}.

(** [MemoryStyle::for_memory]; an overflowing minimum is unwrapped only when the
    maximum is representable. *)
Definition style_for_memory {E} (m : Memory) (t : Tunables) : outcome E (MemoryStyle * Z) :=
  is_static ←
    (if DEFAULT_PAGE_SIZE_LOG2 <=? page_size_log2 m then
       max ← maximum_byte_size m;
       match max with
       | Some maximum =>
           let maximum := if static_memory_bound_is_maximum t
                          then Z.min maximum (static_memory_reservation t) else maximum in
           min ← minimum_byte_size m;
           min ← unwrap min;
           Ok ((min <=? maximum) && (maximum <=? static_memory_reservation t))
       | None => Ok (static_memory_bound_is_maximum t)
       end
     else Ok false);
  if is_static : bool then Ok (Static (static_memory_reservation t), static_memory_offset_guard_size t)
  else Ok (Dynamic (dynamic_memory_growth_reserve t), dynamic_memory_offset_guard_size t).

Record MemoryPlan := {
  memory : Memory;
  style : MemoryStyle;
  pre_guard_size : Z;
  offset_guard_size : Z
}.

Definition plan_for_memory {E} (m : Memory) (t : Tunables) : outcome E MemoryPlan :=
  '(style, offset_guard_size) ← style_for_memory m t;
  Ok {| memory := m; style := style; offset_guard_size := offset_guard_size;
        pre_guard_size := if guard_before_linear_memory t then offset_guard_size else 0 |}.
End Sizes.

(** ** Host pages *)

Section HostPages.
  Context (hp : Z).

Definition usize_is_multiple_of_host_page_size (bytes : Z) : bool := bytes mod hp =? 0.

(** [val & !(page_size - 1)] after the checked addition. *)
Definition round_u64_up_to_host_pages (dbg : bool) (bytes : Z) : outcome mem_error Z :=
  debug_assert dbg (bool_decide (hp = 2 ^ Z.log2 hp));;
  v ← ok_or RoundOverflow (checked 64 (bytes + (hp - 1)));
  Ok (Z.ldiff v (hp - 1)).
Definition round_usize_up_to_host_pages (dbg : bool) (bytes : Z) : outcome mem_error Z :=
  round_u64_up_to_host_pages dbg bytes.
End HostPages.

(** ** Limits of a store *)

Definition DEFAULT_INSTANCE_LIMIT : Z := 10000.
Definition DEFAULT_TABLE_LIMIT : Z := 10000.
Definition DEFAULT_MEMORY_LIMIT : Z := 10000.

Record StoreLimits := {
  l_memory_size : option Z;
  l_table_elements : option Z;
  l_instances : Z;
  l_tables : Z;
  l_memories : Z;
  trap_on_grow_failure : bool
}.
Definition limits_default : StoreLimits :=
  {| l_memory_size := None; l_table_elements := None; l_instances := DEFAULT_INSTANCE_LIMIT;
     l_tables := DEFAULT_TABLE_LIMIT; l_memories := DEFAULT_MEMORY_LIMIT;
     trap_on_grow_failure := false |}.

(** The limiter a store may have: the trait [ResourceLimiter], whose methods may
    change the limiter.  A failure it reports is an error of the embedder. *)
Class ResourceLimiter (L : Type) := {
  memory_growing : L -> Z -> Z -> option Z -> L * outcome mem_error bool;
  memory_grow_failed : L -> mem_error -> L * outcome mem_error unit;
  table_growing : L -> Z -> Z -> option Z -> L * outcome mem_error bool;
  table_grow_failed : L -> mem_error -> L * outcome mem_error unit
}.

(** [allow] of [memory_growing] and [table_growing]. *)
Definition limit_allows (limit : option Z) (desired : Z) (maximum : option Z) : bool :=
  let below := match maximum with Some max => negb (max <? desired) | None => true end in
  match limit with
  | Some limit => if limit <? desired then false else below
  | None => below
  end.

Definition limits_memory_growing (l : StoreLimits) (current desired : Z) (maximum : option Z)
  : StoreLimits * outcome mem_error bool :=
  let allow := limit_allows (l_memory_size l) desired maximum in
  (l, if negb allow && trap_on_grow_failure l then Err ForcedTrap else Ok allow).
Definition limits_memory_grow_failed (l : StoreLimits) (e : mem_error) : StoreLimits * outcome mem_error unit :=
  (l, if trap_on_grow_failure l then Err e else Ok tt).
Definition limits_table_growing (l : StoreLimits) (current desired : Z) (maximum : option Z)
  : StoreLimits * outcome mem_error bool :=
  let allow := limit_allows (l_table_elements l) desired maximum in
  (l, if negb allow && trap_on_grow_failure l then Err ForcedTrap else Ok allow).
Definition limits_table_grow_failed (l : StoreLimits) (e : mem_error) : StoreLimits * outcome mem_error unit :=
  (l, if trap_on_grow_failure l then Err e else Ok tt).

#[export] Instance StoreLimits_limiter : ResourceLimiter StoreLimits := {
  memory_growing := limits_memory_growing;
  memory_grow_failed := limits_memory_grow_failed;
  table_growing := limits_table_growing;
  table_grow_failed := limits_table_grow_failed
}.

(** The builder methods. *)
Definition with_memory_size (l : StoreLimits) (limit : Z) : StoreLimits :=
  {| l_memory_size := Some limit; l_table_elements := l_table_elements l; l_instances := l_instances l;
     l_tables := l_tables l; l_memories := l_memories l; trap_on_grow_failure := trap_on_grow_failure l |}.
Definition with_table_elements (l : StoreLimits) (limit : Z) : StoreLimits :=
  {| l_memory_size := l_memory_size l; l_table_elements := Some limit; l_instances := l_instances l;
     l_tables := l_tables l; l_memories := l_memories l; trap_on_grow_failure := trap_on_grow_failure l |}.
Definition with_trap_on_grow_failure (l : StoreLimits) (trap : bool) : StoreLimits :=
  {| l_memory_size := l_memory_size l; l_table_elements := l_table_elements l; l_instances := l_instances l;
     l_tables := l_tables l; l_memories := l_memories l; trap_on_grow_failure := trap |}.

(** A store with its synchronous limiter, if any. *)
Section Store.
  Context {L : Type} `{!ResourceLimiter L}.
Definition store_memory_growing (s : option L) (current desired : Z) (maximum : option Z)
  : option L * outcome mem_error bool :=
  match s with
  | Some l => let '(l', r) := memory_growing l current desired maximum in (Some l', r)
  | None => (None, Ok true)
  end.
Definition store_memory_grow_failed (s : option L) (e : mem_error) : option L * outcome mem_error unit :=
  match s with
  | Some l => let '(l', r) := memory_grow_failed l e in (Some l', r)
  | None => (None, Ok tt)
  end.
Definition store_table_growing (s : option L) (current desired : Z) (maximum : option Z)
  : option L * outcome mem_error bool :=
  match s with
  | Some l => let '(l', r) := table_growing l current desired maximum in (Some l', r)
  | None => (None, Ok true)
  end.
Definition store_table_grow_failed (s : option L) (e : mem_error) : option L * outcome mem_error unit :=
  match s with
  | Some l => let '(l', r) := table_grow_failed l e in (Some l', r)
  | None => (None, Ok tt)
  end.
End Store.

(** ** Lemmas on sizes *)

Lemma pow_page log2 : log2 = 0 \/ log2 = 16 -> Z.shiftl 1 log2 = 1 \/ Z.shiftl 1 log2 = 65536.
Proof. intros [->| ->]; [by left|by right]. Qed.

Lemma page_size_of_ok {E} dbg log2 : log2 = 0 \/ log2 = 16 -> page_size_of (E:=E) dbg log2 = Ok (Z.shiftl 1 log2).
Proof. intros [->| ->]; by destruct dbg. Qed.

Definition rounded (hp bytes : Z) : Z := (bytes + (hp - 1)) / hp * hp.

Lemma rounded_bounds hp bytes : 0 < hp -> bytes <= rounded hp bytes < bytes + hp /\ rounded hp bytes mod hp = 0.
Proof.
  intros Ha. unfold rounded. split; [|apply Z.mod_mul; lia].
  pose proof (Z.div_mod (bytes + (hp - 1)) hp). pose proof (Z.mod_pos_bound (bytes + (hp - 1)) hp). lia.
Qed.

Lemma rounded_mono hp a b : 0 < hp -> a <= b -> rounded hp a <= rounded hp b.
Proof. intros Hp Hab. unfold rounded. apply Z.mul_le_mono_nonneg_r; [lia|]. apply Z.div_le_mono; lia. Qed.

Lemma rounded_idem hp a : 0 < hp -> a mod hp = 0 -> rounded hp a = a.
Proof.
  intros Hp Ha. apply Z.div_exact in Ha; [|lia]. unfold rounded.
  replace (a + (hp - 1)) with ((hp - 1) + a / hp * hp) by lia.
  rewrite Z.div_add, (Z.div_small (hp - 1)) by lia. lia.
Qed.

Lemma round_up_ok hp dbg bytes k :
  0 <= k -> hp = 2 ^ k -> 0 <= bytes ->
  round_usize_up_to_host_pages hp dbg bytes =
    if bytes + (hp - 1) <? 2 ^ 64 then Ok (rounded hp bytes) else Err RoundOverflow.
Proof.
  intros Hk -> Hb. pose proof (Z.pow_pos_nonneg 2 k ltac:(lia) Hk) as Hp.
  unfold round_usize_up_to_host_pages, round_u64_up_to_host_pages.
  rewrite debug_assert_true by (apply bool_decide_eq_true; by rewrite Z.log2_pow2).
  cbn [mbind outcome_bind]. unfold checked. destruct (Z.ltb_spec (bytes + (2 ^ k - 1)) (2 ^ 64)) as [Hlt|Hge].
  - rewrite in_ub_true by (unfold in_u; lia). cbn [ok_or mbind outcome_bind]. f_equal.
    replace (2 ^ k - 1) with (Z.ones k) by (rewrite Z.ones_equiv; lia).
    rewrite Z.ldiff_ones_r, Z.shiftl_mul_pow2, Z.shiftr_div_pow2 by lia.
    unfold rounded. rewrite Z.ones_equiv. by do 2 f_equal.
  - assert (in_ub 64 (bytes + (2 ^ k - 1)) = false) as ->; [|done].
    unfold in_ub. apply andb_false_iff. right. apply Z.ltb_ge. lia.
Qed.
