(* ===== verification/Cow.v ===== *)
(** * Copy-on-write images of memories

    [vm/cow.rs] over [vm/sys/unix/vm.rs]: the slots of linear memory of the pooling
    allocator, which are given to one instance after the other.  A slot maps the image
    of a memory copy-on-write, and is brought back to its first contents by dropping
    the private pages or by writing zeros.

    The kernel is a class: it changes an address space page by page.  The methods of a
    slot run in a monad over the address space, the slot, and the queue of ranges that
    are still to be decommitted. *)

From Stdlib Require Import ZArith Lia.
From stdpp Require Import base list gmap numbers option.
From S2P Require Import Prelude MemoryTypes.
Open Scope Z_scope.

(** ** The kernel *)

(** A byte of the address space: whether it can be read and written, what it holds, and
    what it holds again when its private page is dropped. *)
Record cell := { c_access : bool; c_value : Z; c_origin : Z }.

(** The kinds of calls that change pages: their protection, what is mapped there, and
    dropping private pages. *)
Inductive page_syscall := Protect | Map | DropPages.
#[global] Instance page_syscall_eq : EqDecision page_syscall.
Proof. solve_decision. Defined.

(** The system calls take an address and a length, and say whether they succeeded;
    [file_byte] are the contents of files that do not change while they are open, by
    descriptor and offset.  [refusals] are the calls that were refused so far, the last
    one first. *)
Class Kernel (A : Type) := {
  cell_at : A -> Z -> cell;
  refusals : A -> list page_syscall;
  file_byte : Z -> Z -> Z;
  sys_mprotect : A -> Z -> Z -> bool -> A * bool;
  sys_mmap_anonymous : A -> Z -> Z -> bool -> A * bool;
  sys_mmap_file : A -> Z -> Z -> Z -> Z -> A * bool;
  sys_madvise_dontneed : A -> Z -> Z -> A * bool;
  cpu_store : A -> Z -> Z -> option A
}.

Definition in_pages (hp p n x : Z) : Prop := p <= x < p + rounded hp n.
#[export] Instance in_pages_dec hp p n x : Decision (in_pages hp p n x).
Proof. unfold in_pages. apply _. Defined.

(** What a call does to the pages of its range: an address that is not at a page is
    refused, and nothing changes; when the call fails otherwise, nothing is known of the
    pages of the range, and the refusal is recorded. *)
Record page_call {A} `{Kernel A} (call : page_syscall) (hp : Z) (a : A) (p n : Z) (r : A * bool) (f : Z -> cell -> cell) : Prop := {
  call_refused : p mod hp <> 0 -> r.2 = false /\ refusals r.1 = refusals a /\ forall x, cell_at r.1 x = cell_at a x;
  call_recorded : p mod hp = 0 -> refusals r.1 = if r.2 then refusals a else call :: refusals a;
  call_outside : forall x, ~ in_pages hp p n x -> cell_at r.1 x = cell_at a x;
  call_inside : r.2 = true -> forall x, in_pages hp p n x -> cell_at r.1 x = f x (cell_at a x)
}.

(** The documented behaviour of [mprotect], [mmap] with a fixed private mapping,
    [madvise] with [MADV_DONTNEED], and of a store to memory. *)
Class KernelLaws (A : Type) `{Kernel A} (hp : Z) := {
  mprotect_law : forall a p n rw, page_call Protect hp a p n (sys_mprotect a p n rw)
    (fun _ c => {| c_access := rw; c_value := c_value c; c_origin := c_origin c |});
  mprotect_contents : forall a p n rw x, c_value (cell_at (sys_mprotect a p n rw).1 x) = c_value (cell_at a x) /\
    c_origin (cell_at (sys_mprotect a p n rw).1 x) = c_origin (cell_at a x);
  mmap_anonymous_law : forall a p n rw, page_call Map hp a p n (sys_mmap_anonymous a p n rw)
    (fun _ _ => {| c_access := rw; c_value := 0; c_origin := 0 |});
  mmap_file_law : forall a p n fd off, page_call Map hp a p n (sys_mmap_file a p n fd off)
    (fun x _ => {| c_access := true; c_value := file_byte fd (off + (x - p)); c_origin := file_byte fd (off + (x - p)) |});
  madvise_law : forall a p n, page_call DropPages hp a p n (sys_madvise_dontneed a p n)
    (fun _ c => {| c_access := c_access c; c_value := c_origin c; c_origin := c_origin c |});
  store_law : forall a x v,
    match cpu_store a x v with
    | Some a' => refusals a' = refusals a /\ forall y, cell_at a' y =
        if decide (y = x) then {| c_access := c_access (cell_at a x); c_value := v; c_origin := c_origin (cell_at a x) |} else cell_at a y
    | None => c_access (cell_at a x) = false
    end
}.

(** ** Images and slots *)

(** The source of an image is a file, which is compared by its descriptor. *)
Record MemoryImage := { source : Z; img_len : Z; source_offset : Z; linear_memory_offset : Z }.
#[global] Instance MemoryImage_eq : EqDecision MemoryImage.
Proof. solve_decision. Defined.

Inductive DecommitBehavior := DecommitZero | RestoreOriginalMapping.
#[global] Instance DecommitBehavior_eq : EqDecision DecommitBehavior.
Proof. solve_decision. Defined.

Record MemoryImageSlot := {
  s_base : Z;
  s_static_size : Z;
  s_image : option MemoryImage;
  s_accessible : Z;
  s_dirty : bool;
  s_clear_on_drop : bool
}.

Definition slot_create (base_addr accessible static_size : Z) : MemoryImageSlot :=
  {| s_base := base_addr; s_static_size := static_size; s_image := None; s_accessible := accessible;
     s_dirty := false; s_clear_on_drop := true |}.

Definition slot_dummy : MemoryImageSlot :=
  {| s_base := 1; s_static_size := 0; s_image := None; s_accessible := 0; s_dirty := false; s_clear_on_drop := false |}.

Definition with_image (i : option MemoryImage) (s : MemoryImageSlot) : MemoryImageSlot :=
  {| s_base := s_base s; s_static_size := s_static_size s; s_image := i; s_accessible := s_accessible s;
     s_dirty := s_dirty s; s_clear_on_drop := s_clear_on_drop s |}.
Definition with_accessible (n : Z) (s : MemoryImageSlot) : MemoryImageSlot :=
  {| s_base := s_base s; s_static_size := s_static_size s; s_image := s_image s; s_accessible := n;
     s_dirty := s_dirty s; s_clear_on_drop := s_clear_on_drop s |}.
Definition with_dirty (b : bool) (s : MemoryImageSlot) : MemoryImageSlot :=
  {| s_base := s_base s; s_static_size := s_static_size s; s_image := s_image s; s_accessible := s_accessible s;
     s_dirty := b; s_clear_on_drop := s_clear_on_drop s |}.
Definition no_clear_on_drop (s : MemoryImageSlot) : MemoryImageSlot :=
  {| s_base := s_base s; s_static_size := s_static_size s; s_image := s_image s; s_accessible := s_accessible s;
     s_dirty := s_dirty s; s_clear_on_drop := false |}.

Inductive cow_error := OsError.

(** ** The monad of slot methods *)

Record cow_state (A : Type) := { cs_mem : A; cs_slot : MemoryImageSlot; cs_queue : list (Z * Z) }.
Arguments cs_mem {A}.
Arguments cs_slot {A}.
Arguments cs_queue {A}.
Arguments Build_cow_state {A}.

Abbreviation cow A := (io (cow_state A) cow_error).

Definition self {A} : cow A MemoryImageSlot := fun st => (st, Ok (cs_slot st)).
Definition update {A} (f : MemoryImageSlot -> MemoryImageSlot) : cow A () :=
  fun st => ({| cs_mem := cs_mem st; cs_slot := f (cs_slot st); cs_queue := cs_queue st |}, Ok ()).
Definition syscall {A} (f : A -> A * bool) : cow A () :=
  fun st => let '(a, ok) := f (cs_mem st) in
    ({| cs_mem := a; cs_slot := cs_slot st; cs_queue := cs_queue st |}, if ok : bool then Ok () else Err OsError).

(** [unwrap] of the result. *)
Definition unwrap_cow {A X} (m : cow A X) : cow A X := fun st => let '(st, r) := m st in (st, unwrap_result r).

(** The closure [decommit] of the pooling allocator. *)
Definition push_raw {A} (ptr len : Z) : cow A () :=
  fun st => ({| cs_mem := cs_mem st; cs_slot := cs_slot st; cs_queue := cs_queue st ++ [(ptr, len)] |}, Ok ()).

Section Slots.
  Context {A : Type} `{Kernel A} (oc : bool) (behavior : DecommitBehavior).

(** ** [vm/sys/unix/vm.rs] *)

Definition expose_existing_mapping (ptr len : Z) : cow A () := syscall (fun a => sys_mprotect a ptr len true).
Definition hide_existing_mapping (ptr len : Z) : cow A () := syscall (fun a => sys_mprotect a ptr len false).
Definition erase_existing_mapping (ptr len : Z) : cow A () := syscall (fun a => sys_mmap_anonymous a ptr len false).

Definition decommit_pages (a : A) (addr len : Z) : A * bool :=
  if len =? 0 then (a, true)
  else match behavior with
       | RestoreOriginalMapping => sys_madvise_dontneed a addr len
       | DecommitZero => sys_mmap_anonymous a addr len true
       end.

Definition source_map_at (fd base len offset : Z) : cow A () := syscall (fun a => sys_mmap_file a base len fd offset).
Definition source_remap_as_zeros_at (base len : Z) : cow A () := syscall (fun a => sys_mmap_anonymous a base len true).

(** [ptr::write_bytes] of zeros; a fault is a crash. *)
Fixpoint zero_bytes (a : A) (x : Z) (n : nat) : option A :=
  match n with
  | O => Some a
  | S n => a ← cpu_store a x 0; zero_bytes a (x + 1) n
  end.
Definition write_zeros (ptr len : Z) : cow A () :=
  fun st => match zero_bytes (cs_mem st) ptr (Z.to_nat len) with
            | Some a => ({| cs_mem := a; cs_slot := cs_slot st; cs_queue := cs_queue st |}, Ok ())
            | None => (st, Panic)
            end.

(** ** [MemoryImage] *)

Definition map_at (i : MemoryImage) (base : Z) : cow A () :=
  source_map_at (source i) (base + linear_memory_offset i) (img_len i) (source_offset i).
Definition remap_as_zeros_at (i : MemoryImage) (base : Z) : cow A () :=
  source_remap_as_zeros_at (base + linear_memory_offset i) (img_len i).

(** ** [MemoryImageSlot] *)

Definition set_protection (start end_ : Z) (readwrite : bool) : cow A () :=
  s ← self;
  _ ← lift (assert_ (start <=? end_));
  _ ← lift (assert_ (end_ <=? s_static_size s));
  if end_ - start =? 0 then mret ()
  else if readwrite then expose_existing_mapping (s_base s + start) (end_ - start)
  else hide_existing_mapping (s_base s + start) (end_ - start).

Definition slot_set_heap_limit (size_bytes : Z) : cow A () :=
  s ← self;
  _ ← lift (assert_ (size_bytes <=? s_static_size s));
  if size_bytes <=? s_accessible s then mret ()
  else
    _ ← set_protection (s_accessible s) size_bytes true;
    update (with_accessible size_bytes).

Definition remove_image : cow A () :=
  s ← self;
  match s_image s with
  | Some image => _ ← remap_as_zeros_at image (s_base s); update (with_image None)
  | None => mret ()
  end.

(** The image of the new instance replaces the image of the slot. *)
Definition place_image (initial_size_bytes : Z) (maybe_image : option MemoryImage) : cow A () :=
  s ← self;
  if decide (s_image s = maybe_image) then mret ()
  else
    _ ← match maybe_image with
        | Some image =>
            end_ ← lift (unwrap (checked 64 (linear_memory_offset image + img_len image)));
            _ ← lift (assert_ (end_ <=? initial_size_bytes));
            if 0 <? img_len image then map_at image (s_base s) else mret ()
        | None => mret ()
        end;
    update (with_image maybe_image).

Definition relies_on_protection (plan : MemoryPlan) : bool :=
  (0 <? offset_guard_size plan) || match style plan with Static _ => true | Dynamic _ => false end.

(** The part of the memory that can be used is made as large, and as small, as the new
    instance needs it. *)
Definition grow_accessible (initial_size_bytes : Z) : cow A () :=
  s ← self;
  if s_accessible s <? initial_size_bytes then
    _ ← set_protection (s_accessible s) initial_size_bytes true;
    update (with_accessible initial_size_bytes)
  else mret ().

Definition shrink_accessible (initial_size_bytes : Z) (plan : MemoryPlan) : cow A () :=
  s ← self;
  if (initial_size_bytes <? s_accessible s) && relies_on_protection plan then
    _ ← set_protection initial_size_bytes (s_accessible s) false;
    update (with_accessible initial_size_bytes)
  else mret ().

Definition slot_instantiate (initial_size_bytes : Z) (maybe_image : option MemoryImage) (plan : MemoryPlan) : cow A () :=
  s ← self;
  _ ← lift (assert_ (negb (s_dirty s)));
  _ ← lift (assert_ (initial_size_bytes <=? s_static_size s));
  _ ← (if decide (s_image s = maybe_image) then mret () else remove_image);
  _ ← grow_accessible initial_size_bytes;
  _ ← shrink_accessible initial_size_bytes plan;
  s ← self;
  _ ← lift (assert_ (initial_size_bytes <=? s_accessible s));
  _ ← place_image initial_size_bytes maybe_image;
  update (with_dirty true).

Definition restore_original_mapping (base len : Z) : cow A () :=
  s ← self;
  end_ ← lift (arith oc 64 (base + len));
  _ ← lift (assert_ (end_ <=? s_accessible s));
  if len =? 0 then mret ()
  else
    _ ← lift (assert_ (bool_decide (behavior = RestoreOriginalMapping)));
    push_raw (s_base s + base) len.

Definition reset_around_image (image : MemoryImage) (keep_resident : Z) : cow A () :=
  s ← self;
  image_end ← lift (arith oc 64 (linear_memory_offset image + img_len image));
  mem_after_image ← lift (arith oc 64 (s_accessible s - image_end));
  rest ← lift (arith oc 64 (keep_resident - linear_memory_offset image));
  let remaining_memset := Z.min rest mem_after_image in
  _ ← write_zeros (s_base s) (linear_memory_offset image);
  _ ← restore_original_mapping (linear_memory_offset image) (img_len image);
  _ ← write_zeros (s_base s + image_end) remaining_memset;
  after ← lift (arith oc 64 (image_end + remaining_memset));
  left_ ← lift (arith oc 64 (mem_after_image - remaining_memset));
  restore_original_mapping after left_.

Definition reset_with_original_mapping (keep_resident : Z) : cow A () :=
  s ← self;
  match s_image s with
  | Some image =>
      image_end ← lift (arith oc 64 (linear_memory_offset image + img_len image));
      _ ← lift (assert_ (image_end <=? s_accessible s));
      if linear_memory_offset image <? keep_resident then reset_around_image image keep_resident
      else
        _ ← write_zeros (s_base s) keep_resident;
        left_ ← lift (arith oc 64 (s_accessible s - keep_resident));
        restore_original_mapping keep_resident left_
  | None =>
      let size_to_memset := Z.min keep_resident (s_accessible s) in
      _ ← write_zeros (s_base s) size_to_memset;
      left_ ← lift (arith oc 64 (s_accessible s - size_to_memset));
      restore_original_mapping size_to_memset left_
  end.

Definition reset_with_anon_memory : cow A () :=
  s ← self;
  if s_static_size s =? 0 then
    _ ← lift (assert_ (bool_decide (s_image s = None)));
    lift (assert_ (s_accessible s =? 0))
  else
    _ ← erase_existing_mapping (s_base s) (s_static_size s);
    update (fun s => with_accessible 0 (with_image None s)).

Definition reset_all_memory_contents (keep_resident : Z) : cow A () :=
  match behavior with
  | DecommitZero => reset_with_anon_memory
  | RestoreOriginalMapping => reset_with_original_mapping keep_resident
  end.

Definition clear_and_remain_ready (keep_resident : Z) : cow A () :=
  s ← self;
  _ ← lift (assert_ (s_dirty s));
  _ ← reset_all_memory_contents keep_resident;
  update (with_dirty false).

Definition has_image (s : MemoryImageSlot) : bool := bool_decide (s_image s <> None).

(** [Drop]: an error is unwrapped. *)
Definition slot_drop : cow A () :=
  s ← self;
  if s_clear_on_drop s then unwrap_cow reset_with_anon_memory else mret ().
End Slots.
