(* ===== verification/CowInv.v ===== *)
(** * Slots keep nothing of an instance

    What the methods of [Cow] do to the address space: a slot that is not dirty shows
    its image and zeros, a slot that is instantiated shows the image of the new instance
    and zeros, and a slot that is cleared shows its first contents again once the
    ranges in the queue are decommitted.  Nothing outside the slot changes. *)

From Stdlib Require Import ZArith Lia.
From stdpp Require Import base list gmap numbers option.
From S2P Require Import Prelude MemoryTypes Cow.
Open Scope Z_scope.

(** ** Pages *)

Section Pages.
  Context (hp : Z) (Hhp : 0 < hp).

Lemma rounded_aligned n : rounded hp n mod hp = 0.
Proof. unfold rounded. apply Z.mod_mul. lia. Qed.

Lemma rounded_shift a n : a mod hp = 0 -> a + rounded hp n = rounded hp (a + n).
Proof.
  intros Ha. apply Z.div_exact in Ha; [|lia]. unfold rounded. rewrite Ha at 2.
  replace (hp * (a / hp) + n + (hp - 1)) with (n + (hp - 1) + (a / hp) * hp) by lia. rewrite Z.div_add by lia. lia.
Qed.

Lemma aligned_add a b : a mod hp = 0 -> b mod hp = 0 -> (a + b) mod hp = 0.
Proof. intros Ha Hb. rewrite Z.add_mod, Ha, Hb by lia. apply Z.mod_0_l. lia. Qed.

Lemma aligned_sub a b : (a + b) mod hp = 0 -> a mod hp = 0 -> b mod hp = 0.
Proof.
  intros Hab Ha. replace b with (a + b - a) by lia. rewrite Zminus_mod, Hab, Ha. apply Z.mod_0_l. lia.
Qed.
End Pages.

(** ** Slots in an address space *)

Section Inv.
  Context {A : Type} `{!Kernel A} (hp : Z) `{!KernelLaws A hp} (oc : bool) (behavior : DecommitBehavior) (Hhp : 0 < hp).
  Implicit Types (a : A) (s : MemoryImageSlot) (st : cow_state A).

(** The byte that an image has at an address of the memory. *)
Definition image_byte (i : option MemoryImage) (x : Z) : Z :=
  match i with
  | Some i => if decide (linear_memory_offset i <= x < linear_memory_offset i + img_len i)
              then file_byte (source i) (source_offset i + (x - linear_memory_offset i)) else 0
  | None => 0
  end.

(** An image is not empty, and starts and ends at a page, in the first [n] bytes. *)
Record image_in (i : MemoryImage) (n : Z) : Prop := {
  ii_offset : 0 <= linear_memory_offset i;
  ii_len : 0 < img_len i;
  ii_offset_page : linear_memory_offset i mod hp = 0;
  ii_len_page : img_len i mod hp = 0;
  ii_end : linear_memory_offset i + img_len i <= n
}.

Definition images_in (i : option MemoryImage) (n : Z) : Prop := match i with Some i => image_in i n | None => True end.

Record slot_ok s : Prop := {
  so_base : s_base s mod hp = 0;
  so_accessible : 0 <= s_accessible s <= s_static_size s;
  so_size : s_static_size s < 2 ^ 63;
  so_image : images_in (s_image s) (s_accessible s)
}.

(** The pages of a slot. *)
Definition slot_end s : Z := s_base s + rounded hp (s_static_size s).
Definition in_slot s (y : Z) : Prop := s_base s <= y < slot_end s.

(** No call of [mprotect] was refused so far: a refused call may have changed some of
    its pages. *)
Definition protections_kept a : Prop := Protect ∉ refusals a.

(** Refusals are never forgotten. *)
Definition later a a' : Prop := exists new, refusals a' = new ++ refusals a.

(** Between two states the system refused to map or to drop pages. *)
Definition refused_pages a a' : Prop := exists new, refusals a' = new ++ refusals a /\ (Map ∈ new \/ DropPages ∈ new).

Lemma later_refl a : later a a.
Proof. by exists []. Qed.

Lemma later_trans a1 a2 a3 : later a1 a2 -> later a2 a3 -> later a1 a3.
Proof. intros [n1 H1] [n2 H2]. exists (n2 ++ n1). by rewrite H2, H1, app_assoc. Qed.

Lemma later_refused a1 a2 a3 : later a1 a2 -> refused_pages a2 a3 -> refused_pages a1 a3.
Proof.
  intros [n1 H1] (n2 & H2 & Hin). exists (n2 ++ n1). split; [by rewrite H2, H1, app_assoc|].
  rewrite !list.elem_of_app. tauto.
Qed.

Lemma refused_later a1 a2 a3 : refused_pages a1 a2 -> later a2 a3 -> refused_pages a1 a3.
Proof.
  intros (n1 & H1 & Hin) [n2 H2]. exists (n2 ++ n1). split; [by rewrite H2, H1, app_assoc|].
  rewrite !list.elem_of_app. tauto.
Qed.

Lemma later_kept a a' : later a a' -> protections_kept a' -> protections_kept a.
Proof. intros [new Hn]. unfold protections_kept. rewrite Hn, list.elem_of_app. tauto. Qed.

Lemma call_later call a p n r f : page_call call hp a p n r f -> later a r.1.
Proof.
  intros [Href Hrec _ _]. unfold later. destruct (decide (p mod hp = 0)) as [Hp|Hp].
  - rewrite (Hrec Hp). destruct r.2; [by exists []|by exists [call]].
  - exists []. cbn. tauto.
Qed.

Lemma store_later a x v a' : cpu_store a x v = Some a' -> later a a'.
Proof using KernelLaws0. intros Hs. pose proof (store_law a x v) as Hl. rewrite Hs in Hl. exists []. apply Hl. Qed.

(** The slot is mapped: pages up to [s_accessible] can be used, and no others unless a
    refused [mprotect] left them so; pages that are dropped show the image, and so does
    every byte that is not [stale]. *)
Definition access_ok a s (x : Z) (c : cell) : Prop :=
  (x < rounded hp (s_accessible s) -> c_access c = true) /\
  (protections_kept a -> rounded hp (s_accessible s) <= x -> c_access c = false).

Definition cell_ok a s (stale : Z -> Prop) (x : Z) (c : cell) : Prop :=
  c_origin c = image_byte (s_image s) x /\ access_ok a s x c /\ (~ stale x -> c_value c = c_origin c).

Definition mapped a s (stale : Z -> Prop) : Prop :=
  forall x, 0 <= x < rounded hp (s_static_size s) -> cell_ok a s stale x (cell_at a (s_base s + x)).

Definition clean (x : Z) : Prop := False.
Definition below (n : Z) (x : Z) : Prop := x < n.

(** Two states that differ in the slot only. *)
Record framed st0 st : Prop := {
  fr_base : s_base (cs_slot st) = s_base (cs_slot st0);
  fr_size : s_static_size (cs_slot st) = s_static_size (cs_slot st0);
  fr_drop : s_clear_on_drop (cs_slot st) = s_clear_on_drop (cs_slot st0);
  fr_mem : forall y, ~ in_slot (cs_slot st0) y -> cell_at (cs_mem st) y = cell_at (cs_mem st0) y;
  fr_later : later (cs_mem st0) (cs_mem st);
  fr_ok : slot_ok (cs_slot st)
}.

(** ** A logic for the methods

    No method panics, and after an error it has changed nothing outside the slot. *)

Definition wp {X} st0 (m : cow A X) (Q : X -> cow_state A -> Prop) st : Prop :=
  match m st with
  | (st', Ok x) => Q x st'
  | (st', Err _) => framed st0 st'
  | (_, Panic) => False
  end.

Lemma wp_bind {X Y} st0 (m : cow A X) (f : X -> cow A Y) Q st :
  wp st0 m (fun x => wp st0 (f x) Q) st -> wp st0 (m ≫= f) Q st.
Proof. unfold wp, mbind, io_bind. by destruct (m st) as [st' []]. Qed.

Lemma wp_mono {X} st0 (m : cow A X) (Q Q' : X -> cow_state A -> Prop) st :
  wp st0 m Q st -> (forall x st', Q x st' -> Q' x st') -> wp st0 m Q' st.
Proof. unfold wp. destruct (m st) as [st' []]; eauto. Qed.

Lemma wp_ret {X} st0 (x : X) Q st : Q x st -> wp st0 (mret x) Q st.
Proof. done. Qed.

Lemma wp_lift {X} st0 (m : outcome cow_error X) x Q st : m = Ok x -> Q x st -> wp st0 (lift m) Q st.
Proof. by intros ->. Qed.

Lemma wp_arith st0 z Q st : 0 <= z < 2 ^ 64 -> Q z st -> wp st0 (lift (arith oc 64 z)) Q st.
Proof. intros Hz. apply wp_lift. by apply arith_ok. Qed.

Lemma wp_assert st0 b Q st : b = true -> Q () st -> wp st0 (lift (assert_ b)) Q st.
Proof. by intros ->. Qed.

Lemma wp_self st0 Q st : Q (cs_slot st) st -> wp st0 self Q st.
Proof. done. Qed.

Lemma wp_update st0 f Q st : Q () {| cs_mem := cs_mem st; cs_slot := f (cs_slot st); cs_queue := cs_queue st |} -> wp st0 (update f) Q st.
Proof. done. Qed.

(** A system call on pages of the slot. *)
Lemma wp_syscall call st0 f g p n Q st :
  page_call call hp (cs_mem st) p n (f (cs_mem st)) g -> framed st0 st ->
  s_base (cs_slot st) <= p -> (p mod hp = 0 -> p + rounded hp n <= slot_end (cs_slot st)) ->
  (forall a, p mod hp = 0 -> refusals a = refusals (cs_mem st) -> (forall x, cell_at a x = if decide (in_pages hp p n x) then g x (cell_at (cs_mem st) x) else cell_at (cs_mem st) x) ->
     framed st0 {| cs_mem := a; cs_slot := cs_slot st; cs_queue := cs_queue st |} ->
     Q () {| cs_mem := a; cs_slot := cs_slot st; cs_queue := cs_queue st |}) ->
  wp st0 (syscall f) Q st.
Proof.
  intros Hcall [Hb Hs Hc Hf Hlat Hok] Hlo Hhi HQ. pose proof (call_later _ _ _ _ _ _ Hcall) as Hlat'. destruct Hcall as [Href Hrec Hout Hin].
  unfold wp, syscall. destruct (f (cs_mem st)) as [a ok]. cbn [fst snd] in *.
  assert (Hfr : framed st0 {| cs_mem := a; cs_slot := cs_slot st; cs_queue := cs_queue st |}).
  { split; try done; [|by eapply later_trans]. intros y Hy. cbn. destruct (decide (p mod hp = 0)) as [Hp|Hp].
    - rewrite Hout; [by apply Hf|]. specialize (Hhi Hp). unfold in_slot, in_pages, slot_end in *. rewrite <- Hb, <- Hs in Hy. lia.
    - rewrite (proj2 (proj2 (Href Hp))). by apply Hf. }
  destruct ok; [|done]. destruct (decide (p mod hp = 0)) as [Hp|Hp]; [|by destruct (Href Hp)]. apply HQ; [done|by apply Hrec| |done].
  intros x. case_decide; [by apply Hin|by apply Hout].
Qed.

(** ** The methods *)

Definition at_mem st a : cow_state A := {| cs_mem := a; cs_slot := cs_slot st; cs_queue := cs_queue st |}.
Definition at_slot st s : cow_state A := {| cs_mem := cs_mem st; cs_slot := s; cs_queue := cs_queue st |}.

Lemma framed_slot st0 st s :
  framed st0 st -> s_base s = s_base (cs_slot st) -> s_static_size s = s_static_size (cs_slot st) ->
  s_clear_on_drop s = s_clear_on_drop (cs_slot st) -> slot_ok s -> framed st0 (at_slot st s).
Proof. intros [Hb Hs Hc Hm Hl _] Hb' Hs' Hc' Hok. split; cbn; congruence || done. Qed.

Lemma rounded_range n m : 0 <= n <= m -> 0 <= n <= rounded hp n /\ rounded hp n <= rounded hp m.
Proof. intros Hn. pose proof (rounded_bounds hp n Hhp). pose proof (rounded_mono hp n m Hhp ltac:(lia)). lia. Qed.

(** A call keeps a slot mapped when it does so in its pages and outside. *)
Lemma mapped_call a a' s s' stale stale' p n g :
  mapped a s stale -> s_base s' = s_base s -> s_static_size s' = s_static_size s -> refusals a' = refusals a ->
  (forall y, cell_at a' y = if decide (in_pages hp p n y) then g y (cell_at a y) else cell_at a y) ->
  (forall x c, 0 <= x < rounded hp (s_static_size s) -> p <= s_base s + x < p + rounded hp n ->
     cell_ok a s stale x c -> cell_ok a s' stale' x (g (s_base s + x) c)) ->
  (forall x c, 0 <= x < rounded hp (s_static_size s) -> ~ p <= s_base s + x < p + rounded hp n ->
     cell_ok a s stale x c -> cell_ok a s' stale' x c) ->
  mapped a' s' stale'.
Proof.
  intros Hm Hb Hs Hlog Hcell Hin Hout x Hx. rewrite Hs in Hx. rewrite Hb, Hcell. unfold cell_ok, access_ok, protections_kept in *. rewrite Hlog. case_decide as Hp; [apply Hin|apply Hout]; try done; by apply Hm.
Qed.

Lemma wp_remove_image st0 st stale Q :
  framed st0 st -> mapped (cs_mem st) (cs_slot st) stale ->
  (forall st', framed st0 st' -> cs_slot st' = with_image None (cs_slot st) -> cs_queue st' = cs_queue st ->
     mapped (cs_mem st') (cs_slot st') stale -> Q () st') ->
  wp st0 remove_image Q st.
Proof.
  intros Hfr Hm HQ. destruct (fr_ok _ _ Hfr) as [Hb Ha Hs Hi]. unfold remove_image. apply wp_bind, wp_self.
  destruct (s_image (cs_slot st)) as [i|] eqn:Ei.
  - cbn [images_in] in Hi. destruct Hi as [Ho Hl Hop Hlp He]. apply wp_bind. unfold remap_as_zeros_at, source_remap_as_zeros_at.
    pose proof (rounded_range (s_accessible (cs_slot st)) _ Ha) as Hr. pose proof (rounded_idem hp _ Hhp Hlp) as Hri.
    eapply wp_syscall; [apply mmap_anonymous_law|done|lia|unfold slot_end; lia|]. intros a _ Hlog Hcell Hfr'.
    apply wp_update, HQ; [apply (framed_slot st0 (at_mem st a) (with_image None (cs_slot st))); [done..|by split]|done|done|].
    eapply (mapped_call _ _ (cs_slot st)); [done..|exact Hlog|exact Hcell| |]; cbn beta; intros x c Hx Hp (Ho' & Ha' & Hv); unfold cell_ok; cbn.
    + split_and!; [done|split; cbn; [done|lia]|done].
    + split_and!; [|done..]. rewrite Ho', Ei. cbn. by rewrite decide_False by lia.
  - apply wp_ret, HQ; try done. destruct st as [a s q]; cbn in *. destruct s; cbn in *. by subst.
Qed.

(** More bytes are made accessible. *)
Lemma wp_expose st0 st stale n Q :
  framed st0 st -> mapped (cs_mem st) (cs_slot st) stale -> s_accessible (cs_slot st) < n <= s_static_size (cs_slot st) ->
  (forall st', framed st0 st' -> cs_slot st' = with_accessible n (cs_slot st) -> cs_queue st' = cs_queue st ->
     mapped (cs_mem st') (cs_slot st') stale -> Q () st') ->
  wp st0 (set_protection (s_accessible (cs_slot st)) n true ≫= fun _ => update (with_accessible n)) Q st.
Proof.
  intros Hfr Hm Hn HQ. destruct (fr_ok _ _ Hfr) as [Hb Ha Hs Hi]. apply wp_bind. unfold set_protection.
  set (acc := s_accessible (cs_slot st)) in *. apply wp_bind, wp_self, wp_bind, wp_assert; [apply Z.leb_le; lia|].
  apply wp_bind, wp_assert; [apply Z.leb_le; lia|]. rewrite (proj2 (Z.eqb_neq _ _)) by lia.
  pose proof (rounded_range n (s_static_size (cs_slot st)) ltac:(lia)) as Hr. pose proof (rounded_range acc n ltac:(lia)) as Hr'.
  assert (Hpage : (s_base (cs_slot st) + acc) mod hp = 0 -> acc mod hp = 0 /\ acc + rounded hp (n - acc) = rounded hp n).
  { intros Hp. assert (Hacc : acc mod hp = 0) by (by apply (aligned_sub hp Hhp (s_base (cs_slot st)))). split; [done|].
    rewrite rounded_shift by done. f_equal. lia. }
  eapply wp_syscall; [apply mprotect_law|done|lia|intros Hp; destruct (Hpage Hp); unfold slot_end; lia|]. intros a Hp Hlog Hcell Hfr'.
  destruct (Hpage Hp) as [Hacc Hsum]. pose proof (rounded_idem hp _ Hhp Hacc) as Hid.
  apply wp_update, HQ; [apply (framed_slot st0 (at_mem st a) (with_accessible n (cs_slot st))); [done..|split; try done]|done|done|].
  - cbn. lia.
  - cbn. destruct (s_image _); [|done]. destruct Hi. split; cbn; lia || done.
  - eapply (mapped_call _ _ (cs_slot st)); [done..|exact Hlog|exact Hcell| |]; cbn beta; intros x c Hx Hpx (Ho' & Ha' & Hv); unfold cell_ok; cbn.
    + split_and!; [done|split; cbn; [done|lia]|done].
    + split_and!; [done| |done]. destruct Ha' as [Ha1 Ha2]. fold acc in Ha1, Ha2. split; cbn; [intros; apply Ha1; lia|intros; apply Ha2; [done|lia]].
Qed.
(** Bytes that hold nothing are made inaccessible. *)
Lemma wp_hide st0 st n Q :
  framed st0 st -> mapped (cs_mem st) (cs_slot st) clean -> 0 <= n < s_accessible (cs_slot st) -> images_in (s_image (cs_slot st)) n ->
  (forall st', framed st0 st' -> cs_slot st' = with_accessible n (cs_slot st) -> cs_queue st' = cs_queue st ->
     mapped (cs_mem st') (cs_slot st') clean -> Q () st') ->
  wp st0 (set_protection n (s_accessible (cs_slot st)) false ≫= fun _ => update (with_accessible n)) Q st.
Proof.
  intros Hfr Hm Hn Hin HQ. destruct (fr_ok _ _ Hfr) as [Hb Ha Hs Hi]. apply wp_bind. unfold set_protection.
  set (acc := s_accessible (cs_slot st)) in *. apply wp_bind, wp_self, wp_bind, wp_assert; [apply Z.leb_le; lia|].
  apply wp_bind, wp_assert; [apply Z.leb_le; lia|]. rewrite (proj2 (Z.eqb_neq _ _)) by lia.
  pose proof (rounded_range acc (s_static_size (cs_slot st)) ltac:(lia)) as Hr.
  assert (Hpage : (s_base (cs_slot st) + n) mod hp = 0 -> n mod hp = 0 /\ n + rounded hp (acc - n) = rounded hp acc).
  { intros Hp. assert (Hacc : n mod hp = 0) by (by apply (aligned_sub hp Hhp (s_base (cs_slot st)))). split; [done|].
    rewrite rounded_shift by done. f_equal. lia. }
  eapply wp_syscall; [apply mprotect_law|done|lia|intros Hp; destruct (Hpage Hp); unfold slot_end; lia|]. intros a Hp Hlog Hcell Hfr'.
  destruct (Hpage Hp) as [Hacc Hsum]. pose proof (rounded_idem hp _ Hhp Hacc) as Hid.
  apply wp_update, HQ; [apply (framed_slot st0 (at_mem st a) (with_accessible n (cs_slot st))); [done..|split; try done]|done|done|].
  - cbn. lia.
  - eapply (mapped_call _ _ (cs_slot st)); [done..|exact Hlog|exact Hcell| |]; cbn beta; intros x c Hx Hpx (Ho' & Ha' & Hv); unfold cell_ok; cbn.
    + split_and!; [done|split; cbn; [lia|done]|done].
    + split_and!; [done| |done]. destruct Ha' as [Ha1 Ha2]. fold acc in Ha1, Ha2. split; cbn; [intros; apply Ha1; lia|intros; apply Ha2; [done|lia]].
Qed.

Lemma wp_place_image st0 st n i Q :
  framed st0 st -> mapped (cs_mem st) (cs_slot st) clean -> (s_image (cs_slot st) = i \/ s_image (cs_slot st) = None) ->
  n <= s_accessible (cs_slot st) -> images_in i n ->
  (forall st', framed st0 st' -> cs_slot st' = with_image i (cs_slot st) -> cs_queue st' = cs_queue st ->
     mapped (cs_mem st') (cs_slot st') clean -> Q () st') ->
  wp st0 (place_image n i) Q st.
Proof.
  intros Hfr Hm Hold Hn Hin HQ. destruct (fr_ok _ _ Hfr) as [Hb Ha Hs Hi]. unfold place_image. apply wp_bind, wp_self.
  case_decide as Heq.
  { apply wp_ret, HQ; try done. destruct st as [a s q]; cbn in *. destruct s; cbn in *. by subst. }
  destruct Hold as [Hold|Hold]; [done|]. apply wp_bind. destruct i as [i|]; [|by rewrite Hold in Heq].
  cbn [images_in] in Hin. destruct Hin as [Ho Hl Hop Hlp He].
  apply wp_bind. eapply wp_lift; [by rewrite (proj2 (checked_Some _ _ (linear_memory_offset i + img_len i))) by (unfold in_u; lia)|].
  apply wp_bind, wp_assert; [apply Z.leb_le; lia|]. rewrite (proj2 (Z.ltb_lt _ _)) by lia. unfold map_at, source_map_at.
  pose proof (rounded_range (s_accessible (cs_slot st)) _ Ha) as Hr. pose proof (rounded_idem hp _ Hhp Hlp) as Hri.
  eapply wp_syscall; [apply mmap_file_law|done|lia|unfold slot_end; lia|]. intros a _ Hlog Hcell Hfr'.
  apply wp_update, HQ; [apply (framed_slot st0 (at_mem st a) (with_image (Some i) (cs_slot st))); [done..|split; try done]|done|done|].
  - cbn. split; done || lia.
  - eapply (mapped_call _ _ (cs_slot st)); [done..|exact Hlog|exact Hcell| |]; cbn beta; intros x c Hx Hpx (Ho' & Ha' & Hv); unfold cell_ok; cbn.
    + rewrite decide_True by lia. split_and!; [f_equal; lia|split; cbn; [done|lia]|done].
    + rewrite decide_False by lia. split_and!; [|done..]. rewrite Ho', Hold. done.
Qed.

(** What a slot shows to an instance that gets it. *)
Record instantiated (n : Z) (i : option MemoryImage) (plan : MemoryPlan) st st' : Prop := {
  in_image : s_image (cs_slot st') = i;
  in_size : n <= s_accessible (cs_slot st');
  in_protected : relies_on_protection plan = true -> s_accessible (cs_slot st') = n;
  in_dirty : s_dirty (cs_slot st') = true;
  in_queue : cs_queue st' = cs_queue st;
  in_mapped : mapped (cs_mem st') (cs_slot st') clean
}.

(** A slot that shows the new image, or none, and the bytes that are needed. *)
Record preparing (i : option MemoryImage) st0 st st' : Prop := {
  pr_framed : framed st0 st';
  pr_queue : cs_queue st' = cs_queue st;
  pr_dirty : s_dirty (cs_slot st') = s_dirty (cs_slot st);
  pr_mapped : mapped (cs_mem st') (cs_slot st') clean;
  pr_image : s_image (cs_slot st') = i \/ s_image (cs_slot st') = None
}.

Lemma wp_grow_accessible i st0 st st1 n Q :
  preparing i st0 st st1 -> n <= s_static_size (cs_slot st1) ->
  (forall st', preparing i st0 st st' -> n <= s_accessible (cs_slot st') -> Q () st') ->
  wp st0 (grow_accessible n) Q st1.
Proof.
  intros Hp Hn HQ. unfold grow_accessible. apply wp_bind, wp_self. destruct (Z.ltb_spec (s_accessible (cs_slot st1)) n) as [Hlt|Hge].
  - eapply wp_expose; [apply Hp..|lia|]. intros st2 Hfr2 Hs2 Hq2 Hm2. rewrite Hs2 in Hm2. destruct Hp. apply HQ; [split|]; rewrite ?Hs2; cbn; congruence || done || lia.
  - by apply wp_ret, HQ.
Qed.

Lemma wp_shrink_accessible i st0 st st1 n plan Q :
  preparing i st0 st st1 -> 0 <= n <= s_accessible (cs_slot st1) -> images_in i n ->
  (forall st', preparing i st0 st st' -> n <= s_accessible (cs_slot st') ->
     (relies_on_protection plan = true -> s_accessible (cs_slot st') = n) -> Q () st') ->
  wp st0 (shrink_accessible n plan) Q st1.
Proof.
  intros Hp Hn Hin HQ. unfold shrink_accessible. apply wp_bind, wp_self.
  destruct (Z.ltb_spec n (s_accessible (cs_slot st1))) as [Hlt|Hge]; cbn [andb].
  - destruct (relies_on_protection plan) eqn:Er; [|by apply wp_ret, HQ; [|lia|]].
    eapply wp_hide; [apply Hp..|lia|by destruct (pr_image _ _ _ _ Hp) as [-> | ->]|].
    intros st2 Hfr2 Hs2 Hq2 Hm2. rewrite Hs2 in Hm2. destruct Hp. apply HQ; [split|..]; rewrite ?Hs2; cbn; congruence || done || lia.
  - apply wp_ret, HQ; [done|lia|lia].
Qed.

Lemma wp_instantiate st0 st n i plan :
  framed st0 st -> mapped (cs_mem st) (cs_slot st) clean -> s_dirty (cs_slot st) = false ->
  0 <= n <= s_static_size (cs_slot st) -> images_in i n ->
  wp st0 (slot_instantiate n i plan) (fun _ st' => framed st0 st' /\ instantiated n i plan st st') st.
Proof.
  intros Hfr Hm Hd Hn Hin. unfold slot_instantiate. apply wp_bind, wp_self, wp_bind, wp_assert; [by rewrite Hd|].
  apply wp_bind, wp_assert; [apply Z.leb_le; lia|]. apply wp_bind.
  apply (wp_mono _ _ (fun _ st1 => preparing i st0 st st1)).
  { case_decide as Heq; [apply wp_ret; split; auto|]. eapply wp_remove_image; [done..|]. intros st1 Hfr1 Hs1 Hq1 Hm1.
    split; rewrite ?Hs1; cbn; auto. by rewrite Hs1 in Hm1. }
  intros _ st1 Hp1. assert (Hs1 : s_static_size (cs_slot st1) = s_static_size (cs_slot st)).
  { by rewrite (fr_size _ _ (pr_framed _ _ _ _ Hp1)), (fr_size _ _ Hfr). }
  apply wp_bind. eapply wp_grow_accessible; [done|lia|]. clear st1 Hp1 Hs1. intros st1 Hp1 Hle1.
  apply wp_bind. eapply wp_shrink_accessible; [done|lia|done|]. clear st1 Hp1 Hle1. intros st1 Hp1 Hle1 Hpr1.
  apply wp_bind, wp_self, wp_bind, wp_assert; [by apply Z.leb_le|]. apply wp_bind.
  eapply wp_place_image; [apply Hp1..|done|done|]. intros st2 Hfr2 Hs2 Hq2 Hm2. apply wp_update. split.
  - apply (framed_slot st0 st2); try done. destruct (fr_ok _ _ Hfr2). by split.
  - rewrite Hs2 in *. destruct Hp1. split; cbn; try done. congruence.
Qed.
Lemma wp_set_heap_limit st0 st stale n Q :
  framed st0 st -> mapped (cs_mem st) (cs_slot st) stale -> 0 <= n <= s_static_size (cs_slot st) ->
  (forall st', framed st0 st' -> cs_slot st' = with_accessible (Z.max n (s_accessible (cs_slot st))) (cs_slot st) ->
     cs_queue st' = cs_queue st -> mapped (cs_mem st') (cs_slot st') stale -> Q () st') ->
  wp st0 (slot_set_heap_limit n) Q st.
Proof.
  intros Hfr Hm Hn HQ. unfold slot_set_heap_limit. apply wp_bind, wp_self, wp_bind, wp_assert; [apply Z.leb_le; lia|].
  destruct (Z.leb_spec n (s_accessible (cs_slot st))) as [Hle|Hgt].
  - apply wp_ret, HQ; try done. rewrite Z.max_r by lia. by destruct st as [a [] q].
  - eapply wp_expose; [done|done|lia|]. intros st' Hfr' Hs' Hq' Hm'. apply HQ; try done. by rewrite Z.max_l by lia.
Qed.

(** Growing a memory keeps its contents, also when it fails. *)
Definition limited n st st' (r : outcome cow_error ()) : Prop :=
  framed st st' /\ cs_queue st' = cs_queue st /\ (forall y, c_value (cell_at (cs_mem st') y) = c_value (cell_at (cs_mem st) y)) /\
  match r with
  | Ok _ => cs_slot st' = with_accessible (Z.max n (s_accessible (cs_slot st))) (cs_slot st)
  | Err _ => cs_slot st' = cs_slot st
  | Panic => False
  end.

Lemma framed_refl st : slot_ok (cs_slot st) -> framed st st.
Proof. split; auto using later_refl. Qed.

Lemma failed_protect a s stale p n rw :
  mapped a s stale -> s_base s + rounded hp (s_accessible s) <= p \/ p mod hp <> 0 -> (sys_mprotect a p n rw).2 = false ->
  mapped (sys_mprotect a p n rw).1 s stale.
Proof.
  intros Hm Hp Hf x Hx. destruct (Hm x Hx) as (Ho & [Ha1 Ha2] & Hv). destruct (mprotect_contents a p n rw (s_base s + x)) as [Hcv Hco].
  destruct (mprotect_law a p n rw) as [Href Hrec Hout _]. split_and!; [congruence| |by rewrite Hcv, Hco].
  destruct (decide (p mod hp = 0)) as [Hpg|Hpg].
  - specialize (Hrec Hpg). rewrite Hf in Hrec. split.
    + intros Hacc. rewrite Hout; [auto|]. unfold in_pages. destruct Hp; [lia|done].
    + unfold protections_kept. rewrite Hrec. intros Hk. destruct Hk. by left.
  - destruct (Href Hpg) as (_ & Hlog & Hcell). unfold access_ok, protections_kept. rewrite Hlog, Hcell. done.
Qed.

Lemma heap_limit_ok st stale n :
  slot_ok (cs_slot st) -> mapped (cs_mem st) (cs_slot st) stale -> 0 <= n <= s_static_size (cs_slot st) ->
  let '(st', r) := slot_set_heap_limit n st in limited n st st' r /\ mapped (cs_mem st') (cs_slot st') stale.
Proof.
  intros Hok Hm Hn.
  pose proof (wp_set_heap_limit st st stale n (fun _ st' => framed st st' /\ cs_slot st' = with_accessible (Z.max n (s_accessible (cs_slot st))) (cs_slot st) /\
    cs_queue st' = cs_queue st /\ mapped (cs_mem st') (cs_slot st') stale) (framed_refl _ Hok) Hm Hn ltac:(cbn; auto)) as Hw.
  unfold wp, slot_set_heap_limit, set_protection, expose_existing_mapping, mbind, io_bind, self, lift, syscall, update in *.
  rewrite (proj2 (Z.leb_le _ _)) in * by lia. cbn [assert_] in *. destruct (Z.leb_spec n (s_accessible (cs_slot st))) as [Hle|Hgt].
  { unfold mret, io_ret in *. destruct Hw as (Hfr & Hs & Hq & Hm'). by split; [split_and!|]. }
  rewrite (proj2 (Z.leb_le (s_accessible _) n)) in * by lia. cbn [assert_] in *.
  rewrite (proj2 (Z.leb_le n (s_static_size (cs_slot st)))) in * by lia. cbn [assert_] in *.
  rewrite (proj2 (Z.eqb_neq (n - s_accessible (cs_slot st)) 0)) in * by lia.
  set (p := s_base (cs_slot st) + s_accessible (cs_slot st)) in *. set (len := n - s_accessible (cs_slot st)) in *.
  pose proof (mprotect_contents (cs_mem st) p len true) as Hc. pose proof (failed_protect (cs_mem st) (cs_slot st) stale p len true Hm) as Hfail.
  destruct (sys_mprotect (cs_mem st) p len true) as [a ok]. cbn [fst snd] in *. destruct ok.
  - destruct Hw as (Hfr & Hs & Hq & Hm'). split; [split_and!; try done; intros y; apply Hc|done].
  - split; [split_and!; try done; intros y; apply Hc|]. apply Hfail; [|done]. destruct (decide (p mod hp = 0)) as [Hp|Hp]; [left|by right].
    rewrite (rounded_idem hp (s_accessible (cs_slot st)) Hhp); [done|]. apply (aligned_sub hp Hhp (s_base (cs_slot st))); [done|apply Hok].
Qed.

(** ** Stores *)

Lemma store_mapped a s stale stale' x v :
  mapped a s stale -> 0 <= x < s_accessible s -> s_accessible s <= s_static_size s ->
  (forall z, z <> x -> stale z -> stale' z) -> (~ stale' x -> v = image_byte (s_image s) x) ->
  exists a', cpu_store a (s_base s + x) v = Some a' /\ refusals a' = refusals a /\ mapped a' s stale' /\
    forall y, y <> s_base s + x -> cell_at a' y = cell_at a y.
Proof.
  intros Hm Hx Hs Hst Hv. pose proof (rounded_range (s_accessible s) (s_static_size s) ltac:(lia)) as Hr. pose proof (store_law a (s_base s + x) v) as Hlaw.
  destruct (Hm x ltac:(lia)) as (Ho & Ha & _). destruct (cpu_store a (s_base s + x) v) as [a'|].
  - destruct Hlaw as [Hlog Hlaw]. exists a'. split_and!; [done|done| |].
    + intros z Hz. unfold cell_ok, access_ok, protections_kept. rewrite Hlog, Hlaw. destruct (Hm z Hz) as (Ho' & Ha' & Hv'). destruct (decide (z = x)) as [->|Hne].
      * rewrite decide_True by done. cbn. split_and!; [done|apply Ha'..|]. intros Hs'. rewrite Ho. by apply Hv.
      * rewrite decide_False by lia. split_and!; [done|apply Ha'..|]. intros Hs'. apply Hv'. naive_solver.
    + intros y Hy. rewrite Hlaw. by rewrite decide_False.
  - rewrite (proj1 Ha) in Hlaw by lia. done.
Qed.

Definition outside_image s (lo n : Z) : Prop := forall x, lo <= x < lo + n -> image_byte (s_image s) x = 0.

Lemma zero_bytes_ok a s stale lo n :
  mapped a s stale -> 0 <= lo -> lo + Z.of_nat n <= s_accessible s -> s_accessible s <= s_static_size s ->
  outside_image s lo (Z.of_nat n) ->
  exists a', zero_bytes a (s_base s + lo) n = Some a' /\ refusals a' = refusals a /\ mapped a' s (fun x => stale x /\ ~ lo <= x < lo + Z.of_nat n) /\
    forall y, ~ s_base s + lo <= y < s_base s + lo + Z.of_nat n -> cell_at a' y = cell_at a y.
Proof.
  revert a stale lo. induction n as [|n IH]; intros a stale lo Hm Hlo Hn Hs Hout.
  - exists a. split_and!; [done|done| |done]. intros x Hx. destruct (Hm x Hx) as (Ho & Ha & Hv). split_and!; [done..|].
    intros Hst. apply Hv. intros ?. apply Hst. split; [done|lia].
  - destruct (store_mapped a s stale (fun x => stale x /\ x <> lo) lo 0) as (a1 & E1 & Hl1 & Hm1 & Hf1); [done|lia|done|naive_solver| |].
    { intros _. symmetry. apply Hout. lia. }
    destruct (IH a1 _ (lo + 1) Hm1) as (a2 & E2 & Hl2 & Hm2 & Hf2); [lia..| |].
    { intros x Hx. apply Hout. lia. }
    exists a2. split_and!.
    + cbn [zero_bytes]. rewrite E1. cbn [mbind option_bind]. by rewrite <- Z.add_assoc.
    + congruence.
    + intros x Hx. destruct (Hm2 x Hx) as (Ho & Ha & Hv). split_and!; [done..|]. intros Hst. apply Hv. intros [[Hsx Hne] Hr]. apply Hst. split; [done|lia].
    + intros y Hy. rewrite Hf2 by lia. apply Hf1. lia.
Qed.

Lemma wp_write_zeros st0 st stale lo n Q :
  framed st0 st -> mapped (cs_mem st) (cs_slot st) stale -> 0 <= lo -> 0 <= n -> lo + n <= s_accessible (cs_slot st) ->
  outside_image (cs_slot st) lo n ->
  (forall st', framed st0 st' -> cs_slot st' = cs_slot st -> cs_queue st' = cs_queue st ->
     mapped (cs_mem st') (cs_slot st') (fun x => stale x /\ ~ lo <= x < lo + n) -> Q () st') ->
  wp st0 (write_zeros (s_base (cs_slot st) + lo) n) Q st.
Proof.
  intros Hfr Hm Hlo Hn Hacc Hout HQ. destruct (fr_ok _ _ Hfr) as [Hb Ha Hs Hi].
  destruct (zero_bytes_ok (cs_mem st) (cs_slot st) stale lo (Z.to_nat n)) as (a' & E & Hl & Hm' & Hf); [done..|lia|lia|by rewrite Z2Nat.id|].
  rewrite Z2Nat.id in Hm', Hf by done. unfold wp, write_zeros. rewrite E. apply (HQ (at_mem st a')); try done.
  pose proof (rounded_range (s_accessible (cs_slot st)) _ Ha) as Hr.
  destruct Hfr as [Hb0 Hs0 Hd0 Hmem Hlat _]. split; try done; [|unfold later in *; cbn; by rewrite Hl]. intros y Hy. cbn. rewrite Hf; [by apply Hmem|].
  unfold in_slot, slot_end in Hy. rewrite <- Hb0, <- Hs0 in Hy. lia.
Qed.
(** ** Clearing *)

(** Ranges that are to be decommitted are whole pages of the accessible part. *)
Record range_ok s (r : Z * Z) : Prop := {
  ro_page : r.1 mod hp = 0;
  ro_len : 0 < r.2;
  ro_start : s_base s <= r.1;
  ro_end : r.1 + r.2 <= s_base s + s_accessible s
}.

Definition covered (q : list (Z * Z)) s (x : Z) : Prop := exists r, r ∈ q /\ r.1 <= s_base s + x < r.1 + r.2.

Lemma mapped_weaken a s (stale stale' : Z -> Prop) :
  mapped a s stale -> (forall x, 0 <= x -> stale x -> stale' x) -> mapped a s stale'.
Proof.
  intros Hm Hst x Hx. destruct (Hm x Hx) as (Ho & Ha & Hv). split_and!; [done..|]. intros Hn. apply Hv. intros Hs. apply Hn, Hst; [lia|done].
Qed.

Lemma wp_restore st0 st lo n Q :
  framed st0 st -> behavior = RestoreOriginalMapping -> 0 <= lo -> 0 <= n -> lo + n <= s_accessible (cs_slot st) ->
  (forall st', framed st0 st' -> cs_slot st' = cs_slot st -> cs_mem st' = cs_mem st ->
     cs_queue st' = cs_queue st ++ (if n =? 0 then [] else [(s_base (cs_slot st) + lo, n)]) -> Q () st') ->
  wp st0 (restore_original_mapping oc behavior lo n) Q st.
Proof.
  intros Hfr Hbeh Hlo Hn Hacc HQ. destruct (fr_ok _ _ Hfr) as [Hb Ha Hs Hi]. unfold restore_original_mapping. apply wp_bind, wp_self, wp_bind, wp_arith; [lia|].
  apply wp_bind, wp_assert; [by apply Z.leb_le|]. destruct (Z.eqb_spec n 0) as [->|Hne].
  - apply wp_ret, HQ; try done. by rewrite app_nil_r.
  - apply wp_bind, wp_assert; [by apply bool_decide_eq_true|]. unfold wp, push_raw.
    apply (HQ {| cs_mem := cs_mem st; cs_slot := cs_slot st; cs_queue := _ |}); try done. by destruct Hfr.
Qed.

(** What is still stale is in the new part of the queue. *)
Definition queued st st' : Prop :=
  cs_slot st' = cs_slot st /\ exists q, cs_queue st' = cs_queue st ++ q /\ Forall (range_ok (cs_slot st')) q /\
    mapped (cs_mem st') (cs_slot st') (covered q (cs_slot st')).

Lemma one_range s lo n :
  s_base s mod hp = 0 -> (n <> 0 -> lo mod hp = 0) -> 0 <= lo -> 0 <= n -> lo + n <= s_accessible s ->
  Forall (range_ok s) (if n =? 0 then [] else [(s_base s + lo, n)]).
Proof.
  intros Hb Hlo H0 Hn Hacc. destruct (Z.eqb_spec n 0); constructor; [|constructor]. split; cbn; try lia. apply aligned_add; auto.
Qed.

Lemma covered_one s lo n q1 q2 x :
  lo <= x < lo + n -> covered (q1 ++ (if n =? 0 then [] else [(s_base s + lo, n)]) ++ q2) s x.
Proof.
  intros Hx. rewrite (proj2 (Z.eqb_neq n 0)) by lia. exists (s_base s + lo, n). split; [|cbn; lia].
  apply list.elem_of_app. right. apply list.elem_of_app. left. by apply list_elem_of_singleton.
Qed.
Lemma wp_reset_around st0 st i keep :
  framed st0 st -> behavior = RestoreOriginalMapping -> mapped (cs_mem st) (cs_slot st) (below (s_accessible (cs_slot st))) ->
  s_image (cs_slot st) = Some i -> linear_memory_offset i < keep -> keep < 2 ^ 63 -> keep mod hp = 0 ->
  wp st0 (reset_around_image oc behavior i keep) (fun _ st' => framed st0 st' /\ queued st st') st.
Proof.
  intros Hfr Hbeh Hm Hi Hk Hk63 Hkp. destruct (fr_ok _ _ Hfr) as [Hb Ha Hs Hok]. rewrite Hi in Hok. destruct Hok as [Ho Hl Hop Hlp He].
  set (s := cs_slot st) in *. set (iend := linear_memory_offset i + img_len i) in *.
  assert (Hiend : iend mod hp = 0) by (by apply aligned_add).
  assert (Hout : forall lo n, lo + n <= linear_memory_offset i \/ iend <= lo -> outside_image s lo n).
  { intros lo n Hlo x Hx. unfold image_byte. rewrite Hi. rewrite decide_False; [done|]. fold iend. lia. }
  unfold reset_around_image. apply wp_bind, wp_self, wp_bind, wp_arith; [lia|]. fold iend s. apply wp_bind, wp_arith; [lia|].
  apply wp_bind, wp_arith; [lia|]. set (rem := Z.min (keep - linear_memory_offset i) (s_accessible s - iend)).
  apply wp_bind. rewrite <- (Z.add_0_r (s_base s)) at 1. eapply wp_write_zeros; [done|done|lia|lia|fold s; lia|apply Hout; lia|].
  fold s. intros st1 Hfr1 Hs1 Hq1 Hm1. apply wp_bind. eapply wp_restore; [done|done|lia|lia|rewrite Hs1; fold iend; lia|].
  intros st2 Hfr2 Hs2 Hmem2 Hq2. apply wp_bind. rewrite Hs1 in Hs2, Hq2, Hm1.
  assert (Hbase : s_base s + iend = s_base (cs_slot st2) + iend) by (by rewrite Hs2). rewrite Hbase.
  eapply wp_write_zeros; [done|by rewrite Hmem2, Hs2|lia|lia|rewrite Hs2; lia|rewrite Hs2; apply Hout; lia|].
  intros st3 Hfr3 Hs3 Hq3 Hm3. rewrite Hs2 in Hs3. rewrite Hs3 in Hm3. apply wp_bind, wp_arith; [lia|]. apply wp_bind, wp_arith; [lia|].
  eapply wp_restore; [done|done|lia|lia|rewrite Hs3; lia|]. intros st4 Hfr4 Hs4 Hmem4 Hq4. rewrite Hs3 in Hs4, Hq4. split; [done|].
  split; [done|]. rewrite Hs4, Hmem4. eexists. split; [by rewrite Hq4, Hq3, Hq2, Hq1, <- app_assoc|]. split.
  - apply Forall_app. split; (apply one_range; [done|intros Hne|lia..|fold iend; lia]); [done|]. apply aligned_add; [done|done|].
    unfold rem in *. rewrite Z.min_l by lia. by apply (aligned_sub hp Hhp (linear_memory_offset i)); [replace (_ + _) with keep by lia|].
  - eapply mapped_weaken; [done|]. intros x Hx [[Hbelow H1] H2]. unfold below in Hbelow. destruct (decide (x < iend)).
    + rewrite <- (app_nil_l (_ ++ _)). apply covered_one. fold iend. lia.
    + rewrite <- (app_nil_r (_ ++ _)), <- app_assoc. apply covered_one. lia.
Qed.

Lemma wp_reset_first st0 st keep :
  framed st0 st -> behavior = RestoreOriginalMapping -> mapped (cs_mem st) (cs_slot st) (below (s_accessible (cs_slot st))) ->
  0 <= keep <= s_accessible (cs_slot st) -> outside_image (cs_slot st) 0 keep -> (keep <> s_accessible (cs_slot st) -> keep mod hp = 0) ->
  wp st0 (_ ← write_zeros (s_base (cs_slot st)) keep;
          left_ ← lift (arith oc 64 (s_accessible (cs_slot st) - keep));
          restore_original_mapping oc behavior keep left_) (fun _ st' => framed st0 st' /\ queued st st') st.
Proof.
  intros Hfr Hbeh Hm Hk Hout Hkp. destruct (fr_ok _ _ Hfr) as [Hb Ha Hs Hok]. set (s := cs_slot st) in *.
  apply wp_bind. rewrite <- (Z.add_0_r (s_base s)) at 1. eapply wp_write_zeros; [done|done|lia|lia|fold s; lia|done|].
  fold s. intros st1 Hfr1 Hs1 Hq1 Hm1. apply wp_bind, wp_arith; [lia|]. eapply wp_restore; [done|done|lia|lia|rewrite Hs1; lia|].
  intros st2 Hfr2 Hs2 Hmem2 Hq2. rewrite Hs1 in Hs2, Hq2, Hm1. split; [done|]. split; [done|]. rewrite Hs2, Hmem2.
  eexists. split; [by rewrite Hq2, Hq1|]. split.
  - apply one_range; [done|intros Hne; apply Hkp; lia|lia..].
  - eapply mapped_weaken; [done|]. intros x Hx [Hbelow H1]. unfold below in Hbelow.
    rewrite <- (app_nil_r (if _ =? _ then _ else _)), <- (app_nil_l (_ ++ _)). apply covered_one. lia.
Qed.
Lemma wp_reset_original st0 st keep :
  framed st0 st -> behavior = RestoreOriginalMapping -> mapped (cs_mem st) (cs_slot st) (below (s_accessible (cs_slot st))) ->
  0 <= keep < 2 ^ 63 -> keep mod hp = 0 ->
  wp st0 (reset_with_original_mapping oc behavior keep) (fun _ st' => framed st0 st' /\ queued st st') st.
Proof.
  intros Hfr Hbeh Hm Hk Hkp. destruct (fr_ok _ _ Hfr) as [Hb Ha Hs Hok]. unfold reset_with_original_mapping. apply wp_bind, wp_self.
  destruct (s_image (cs_slot st)) as [i|] eqn:Hi.
  - destruct Hok as [Ho Hl Hop Hlp He]. apply wp_bind, wp_arith; [lia|]. apply wp_bind, wp_assert; [by apply Z.leb_le|].
    destruct (Z.ltb_spec (linear_memory_offset i) keep); [apply wp_reset_around; done || lia|]. apply wp_reset_first; try done; [lia|].
    intros x Hx. unfold image_byte. rewrite Hi. by rewrite decide_False by lia.
  - apply wp_reset_first; [done..|lia| |].
    + intros x Hx. unfold image_byte. by rewrite Hi.
    + intros Hne. by rewrite Z.min_l by lia.
Qed.

(** A slot that is dropped shows nothing. *)
Lemma wp_reset_anon st0 st Q :
  framed st0 st ->
  (forall st', framed st0 st' -> cs_slot st' = with_accessible 0 (with_image None (cs_slot st)) -> cs_queue st' = cs_queue st ->
     mapped (cs_mem st') (cs_slot st') clean -> Q () st') ->
  wp st0 reset_with_anon_memory Q st.
Proof.
  intros Hfr HQ. destruct (fr_ok _ _ Hfr) as [Hb Ha Hs Hi]. unfold reset_with_anon_memory. apply wp_bind, wp_self.
  pose proof (rounded_range (s_static_size (cs_slot st)) (s_static_size (cs_slot st)) ltac:(lia)) as Hr.
  destruct (Z.eqb_spec (s_static_size (cs_slot st)) 0) as [Hz|Hnz].
  - assert (Himg : s_image (cs_slot st) = None).
    { destruct (s_image (cs_slot st)); [|done]. destruct Hi. lia. }
    apply wp_bind, wp_assert; [by rewrite Himg|]. apply wp_assert; [apply Z.eqb_eq; lia|]. apply HQ; try done.
    + assert (Hacc : s_accessible (cs_slot st) = 0) by lia. destruct st as [a [] q]; cbn in *. by subst.
    + intros x Hx. rewrite Hz in Hx. unfold rounded in Hx. rewrite Z.div_small in Hx; lia.
  - apply wp_bind. unfold erase_existing_mapping. eapply wp_syscall; [apply mmap_anonymous_law|done|lia|unfold slot_end; lia|].
    intros a _ Hlog Hcell Hfr'. apply wp_update, HQ; [apply (framed_slot st0 (at_mem st a)); [done..|split; cbn; done || lia]|done|done|].
    intros x Hx. cbn in Hx. cbn [cs_mem cs_slot with_accessible with_image s_base]. rewrite Hcell, decide_True by (unfold in_pages; lia).
    unfold cell_ok. cbn. split_and!; [done| |done]. split; cbn; [|done]. unfold rounded. rewrite Z.div_small; lia.
Qed.

(** What is left after clearing: the slot is ready once the queued ranges are
    decommitted. *)
Record cleared st st' : Prop := {
  cl_base : s_base (cs_slot st') = s_base (cs_slot st);
  cl_size : s_static_size (cs_slot st') = s_static_size (cs_slot st);
  cl_dirty : s_dirty (cs_slot st') = false;
  cl_queue : exists q, cs_queue st' = cs_queue st ++ q /\ Forall (range_ok (cs_slot st')) q /\
    mapped (cs_mem st') (cs_slot st') (covered q (cs_slot st')) /\ (behavior = DecommitZero -> q = [])
}.

Lemma wp_clear st0 st keep :
  framed st0 st -> mapped (cs_mem st) (cs_slot st) (below (s_accessible (cs_slot st))) -> s_dirty (cs_slot st) = true ->
  0 <= keep < 2 ^ 63 -> keep mod hp = 0 ->
  wp st0 (clear_and_remain_ready oc behavior keep) (fun _ st' => framed st0 st' /\ cleared st st') st.
Proof.
  intros Hfr Hm Hd Hk Hkp. unfold clear_and_remain_ready. apply wp_bind, wp_self, wp_bind, wp_assert; [done|]. apply wp_bind.
  unfold reset_all_memory_contents. destruct behavior eqn:Hbeh.
  - eapply wp_reset_anon; [done..|]. intros st1 Hfr1 Hs1 Hq1 Hm1. apply wp_update. split.
    + apply (framed_slot st0 st1); try done. destruct (fr_ok _ _ Hfr1). by split.
    + split; cbn; rewrite ?Hs1; try done. exists []. rewrite Hq1, app_nil_r. split_and!; [done..| |done].
      eapply mapped_weaken; [rewrite Hs1 in Hm1; exact Hm1|done].
  - eapply wp_mono; [rewrite <- Hbeh; by apply wp_reset_original|]. intros _ st1 (Hfr1 & Hs1 & q & Hq1 & Hr1 & Hm1). apply wp_update. split.
    + apply (framed_slot st0 st1); try done. destruct (fr_ok _ _ Hfr1). by split.
    + split; cbn; rewrite ?Hs1; try done. exists q. rewrite Hs1 in *. split_and!; [done| |done|by rewrite Hbeh].
      eapply list.Forall_impl; [done|]. intros r []. by split.
Qed.
(** Clearing fails only when the system refuses to replace the pages. *)
Lemma reset_anon_err st st' e :
  slot_ok (cs_slot st) -> reset_with_anon_memory st = (st', Err e) -> refused_pages (cs_mem st) (cs_mem st').
Proof using KernelLaws0.
  intros [Hb Ha Hs _] Hr. unfold reset_with_anon_memory, mbind, io_bind, self, erase_existing_mapping, syscall, lift, assert_ in Hr.
  pose proof (mmap_anonymous_law (cs_mem st) (s_base (cs_slot st)) (s_static_size (cs_slot st)) false) as [_ Hrec _ _].
  destruct (Z.eqb_spec (s_static_size (cs_slot st)) 0) as [Hz|Hz]; [by repeat case_match|].
  destruct (sys_mmap_anonymous _ _ _ _) as [a []]; [done|]. cbn [fst snd] in Hrec. injection Hr as <-. exists [Map]. cbn. split; [by apply Hrec|]. left. by left.
Qed.

(** On Linux clearing never fails. *)
Definition never_err {X} (m : cow A X) : Prop := forall st st' e, m st <> (st', Err e).

Lemma never_err_bind {X Y} (m : cow A X) (f : X -> cow A Y) : never_err m -> (forall x, never_err (f x)) -> never_err (m ≫= f).
Proof. intros Hm Hf st st' e. unfold mbind, io_bind. specialize (Hm st). destruct (m st) as [st1 [x|e1|]]; [apply Hf|by destruct (Hm st1 e1)|done]. Qed.

Lemma never_err_basic :
  (forall X (x : X), never_err (mret x)) /\ never_err self /\ (forall z, never_err (lift (arith oc 64 z))) /\
  (forall b, never_err (lift (assert_ b))) /\ (forall p n, never_err (write_zeros p n)) /\ (forall p n, never_err (push_raw p n)).
Proof.
  split_and!; intros; intros st st' e He; unfold mret, io_ret, self, lift, arith, assert_, write_zeros, push_raw in He; repeat case_match; simplify_eq.
Qed.

Lemma restore_never_err lo n : never_err (restore_original_mapping oc behavior lo n).
Proof.
  destruct never_err_basic as (Hret & Hself & Harith & Hassert & Hz & Hq). unfold restore_original_mapping.
  repeat first [apply never_err_bind; [by auto|]; intros|case_match|by auto].
Qed.

Lemma reset_original_never_err keep : never_err (reset_with_original_mapping oc behavior keep).
Proof.
  destruct never_err_basic as (Hret & Hself & Harith & Hassert & Hz & Hq). pose proof restore_never_err as Hr.
  unfold reset_with_original_mapping, reset_around_image.
  repeat first [apply never_err_bind; [by auto|]; intros|case_match|by auto].
Qed.

Lemma clear_err st st' e keep :
  slot_ok (cs_slot st) -> clear_and_remain_ready oc behavior keep st = (st', Err e) -> refused_pages (cs_mem st) (cs_mem st').
Proof using KernelLaws0.
  intros Hok Hc. unfold clear_and_remain_ready, mbind, io_bind, self, lift, assert_, update in Hc.
  destruct (s_dirty (cs_slot st)); [|done]. unfold reset_all_memory_contents in Hc. destruct behavior eqn:Hbeh.
  - destruct (reset_with_anon_memory st) as [st1 [|e1|]] eqn:Hr; [done| |done]. injection Hc as <-. by eapply reset_anon_err.
  - rewrite <- Hbeh in Hc. pose proof (reset_original_never_err keep st) as Hn.
    destruct (reset_with_original_mapping oc behavior keep st) as [st1 []]; [done|congruence|done].
Qed.

(** An error in [Drop] is a panic. *)
Lemma slot_drop_ok st0 st :
  framed st0 st -> s_clear_on_drop (cs_slot st) = true ->
  match slot_drop st with
  | (st', Ok _) => framed st0 st' /\ cs_slot st' = with_accessible 0 (with_image None (cs_slot st)) /\ mapped (cs_mem st') (cs_slot st') clean
  | (_, Err _) => False
  | (st', Panic) => refused_pages (cs_mem st) (cs_mem st')
  end.
Proof.
  intros Hfr Hc. pose proof (reset_anon_err st) as Herr.
  pose proof (wp_reset_anon st0 st (fun _ st' => framed st0 st' /\ cs_slot st' = with_accessible 0 (with_image None (cs_slot st)) /\
    mapped (cs_mem st') (cs_slot st') clean) Hfr ltac:(cbn; auto)) as Hw.
  unfold slot_drop, mbind, io_bind, self, unwrap_cow. rewrite Hc. unfold wp in Hw. destruct (reset_with_anon_memory st) as [st' []]; [done| |done].
  eapply Herr; [apply Hfr|done].
Qed.

(** ** Other slots, and the queue *)

Lemma mapped_frame a a' s stale :
  mapped a s stale -> later a a' -> (forall y, in_slot s y -> cell_at a' y = cell_at a y) -> mapped a' s stale.
Proof.
  intros Hm Hl Hf x Hx. rewrite Hf by (unfold in_slot, slot_end; lia). destruct (Hm x Hx) as (Ho & [Ha1 Ha2] & Hv).
  split_and!; [done| |done]. split; [done|]. intros Hk. apply Ha2. by eapply later_kept.
Qed.

Lemma decommit_ok a s stale r :
  behavior = RestoreOriginalMapping -> slot_ok s -> range_ok s r -> mapped a s stale ->
  let '(a', ok) := decommit_pages behavior a r.1 r.2 in
  (forall y, ~ in_slot s y -> cell_at a' y = cell_at a y) /\ later a a' /\ (ok = false -> refused_pages a a') /\
  (ok = true -> mapped a' s (fun x => stale x /\ ~ r.1 <= s_base s + x < r.1 + r.2)).
Proof.
  intros Hbeh Hok [Hp Hl Hlo Hhi] Hm. destruct Hok as [Hb Ha Hs _]. unfold decommit_pages. rewrite (proj2 (Z.eqb_neq _ _)) by lia. rewrite Hbeh.
  pose proof (madvise_law a r.1 r.2) as Hcall. pose proof (call_later _ _ _ _ _ _ Hcall) as Hlat. destruct Hcall as [_ Hrec Hout Hin].
  specialize (Hrec Hp). destruct (sys_madvise_dontneed a r.1 r.2) as [a' ok]. cbn [fst snd] in *.
  assert (Hbase : (r.1 - s_base s) mod hp = 0) by (apply (aligned_sub hp Hhp (s_base s)); [by replace (_ + _) with r.1 by lia|done]).
  pose proof (rounded_shift hp Hhp _ r.2 Hbase) as Hsh. pose proof (rounded_mono hp (r.1 - s_base s + r.2) (s_static_size s) Hhp ltac:(lia)) as Hmono.
  pose proof (rounded_bounds hp r.2 Hhp) as Hr2. split_and!; [|done|intros ->; exists [DropPages]; split; [done|right; by left]|].
  - intros y Hy. apply Hout. unfold in_slot, slot_end, in_pages in *. lia.
  - intros Hok. specialize (Hin Hok). rewrite Hok in Hrec. intros x Hx. destruct (Hm x Hx) as (Ho & Hacc & Hv).
    unfold cell_ok, access_ok, protections_kept in *. rewrite Hrec.
    destruct (decide (in_pages hp r.1 r.2 (s_base s + x))) as [Hpg|Hpg].
    + rewrite Hin by done. cbn. split_and!; [done|apply Hacc..|done].
    + rewrite Hout by done. split_and!; [done|apply Hacc..|]. intros Hst. apply Hv. intros Hs'. apply Hst. split; [done|]. unfold in_pages in Hpg. lia.
Qed.
End Inv.
