(* ===== verification/Mappings.v ===== *)
(** * Mappings

    [src/wasmtime-repo/crates/wasmtime/src/runtime/vm/mmap.rs] over
    [vm/sys/unix/mmap.rs]: reserved ranges of the address space in which memories and
    garbage collected heaps live.  A mapping is its address and length, the bytes that
    differ from zero, what they are again when their private pages are dropped, and the
    changes of protection, the last one first.

    A system call may be refused; a refused call may have changed some of its pages, as
    [os] says, and is recorded.  A mapping is an address space in the sense of
    [Cow.Kernel], so that the slots of [cow.rs] can be used on it. *)

From Stdlib Require Import ZArith Lia.
From stdpp Require Import base list gmap numbers option.
From S2P Require Import Prelude MemoryTypes Cow CowInv.
Open Scope Z_scope.

(** What the operating system does: the address of a new reservation; whether a change of
    protection, a new mapping over a range and dropping pages succeed, by the address and
    the length of the range; and the ranges that a refused call changed all the same. *)
Record os := {
  os_reserve : Z -> option Z;
  os_protect : Z -> Z -> bool;
  os_map : Z -> Z -> bool;
  os_drop : Z -> Z -> bool;
  os_torn : Z -> Z -> list (Z * Z)
}.

Record Mmap := {
  base : Z;
  mlen : Z;
  mbytes : gmap Z Z;
  morigin : gmap Z Z;
  maccess : list (Z * Z * bool);
  mrefused : list page_syscall
}.

Definition with_mbytes (m : Mmap) (b : gmap Z Z) : Mmap :=
  {| base := base m; mlen := mlen m; mbytes := b; morigin := morigin m; maccess := maccess m; mrefused := mrefused m |}.
Definition with_access (m : Mmap) (l : list (Z * Z * bool)) : Mmap :=
  {| base := base m; mlen := mlen m; mbytes := mbytes m; morigin := morigin m; maccess := l; mrefused := mrefused m |}.
Definition with_refusal (m : Mmap) (c : page_syscall) : Mmap :=
  {| base := base m; mlen := mlen m; mbytes := mbytes m; morigin := morigin m; maccess := maccess m; mrefused := c :: mrefused m |}.

(** A reservation: nothing of it can be accessed. *)
Definition mmap_reserved (b n : Z) : Mmap :=
  {| base := b; mlen := n; mbytes := ∅; morigin := ∅; maccess := []; mrefused := [] |}.

(** The bytes at an offset of the mapping: [None] is a fault. *)
Fixpoint access_at (l : list (Z * Z * bool)) (o : Z) : bool :=
  match l with
  | [] => false
  | (s, n, rw) :: l => if (s <=? o) && (o <? s + n) then rw else access_at l o
  end.
Definition reachable_at (m : Mmap) (o : Z) : bool := access_at (maccess m) o.
Definition mmap_byte (m : Mmap) (o : Z) : option Z :=
  if reachable_at m o then Some (default 0 (mbytes m !! o)) else None.

(** ** The system calls on a mapping *)

Definition set_range (g : Z -> Z) (s n : Z) (b : gmap Z Z) : gmap Z Z :=
  foldr (fun k => <[s + k := g (s + k)]>) b (seqZ 0 n).

(** What a call does to a range of offsets. *)
Definition paint_access (rw : bool) (m : Mmap) (r : Z * Z) : Mmap := with_access m ((r, rw) :: maccess m).
Definition paint_bytes (rw : bool) (g : Z -> Z) (m : Mmap) (r : Z * Z) : Mmap :=
  {| base := base m; mlen := mlen m; mbytes := set_range g r.1 r.2 (mbytes m); morigin := set_range g r.1 r.2 (morigin m);
     maccess := (r, rw) :: maccess m; mrefused := mrefused m |}.
Definition paint_origin (m : Mmap) (r : Z * Z) : Mmap :=
  with_mbytes m (set_range (fun o => default 0 (morigin m !! o)) r.1 r.2 (mbytes m)).

(** A page of a range: the ranges of [os_torn] that are in the pages of the call. *)
Definition torn_ranges (hp : Z) (sys : os) (p n : Z) : list (Z * Z) :=
  filter (fun r => p <= r.1 /\ r.1 + r.2 <= p + rounded hp n) (os_torn sys p n).

Definition mmap_call (hp : Z) (sys : os) (call : page_syscall) (granted : Z -> Z -> bool)
    (paint : Mmap -> Z * Z -> Mmap) (m : Mmap) (p n : Z) : Mmap * bool :=
  if negb (p mod hp =? 0) then (m, false)
  else if granted p n then (paint m (p - base m, rounded hp n), true)
  else (foldl (fun m r => paint m (r.1 - base m, r.2)) (with_refusal m call) (torn_ranges hp sys p n), false).

Definition mmap_cell (m : Mmap) (x : Z) : cell :=
  {| c_access := reachable_at m (x - base m); c_value := default 0 (mbytes m !! (x - base m));
     c_origin := default 0 (morigin m !! (x - base m)) |}.

(** Files are given by their contents. *)
Definition mmap_kernel (hp : Z) (files : Z -> Z -> Z) (sys : os) : Kernel Mmap := {|
  cell_at := mmap_cell;
  refusals := mrefused;
  file_byte := files;
  sys_mprotect m p n rw := mmap_call hp sys Protect (os_protect sys) (paint_access rw) m p n;
  sys_mmap_anonymous m p n rw := mmap_call hp sys Map (os_map sys) (paint_bytes rw (fun _ => 0)) m p n;
  sys_mmap_file m p n fd off :=
    mmap_call hp sys Map (os_map sys) (paint_bytes true (fun o => files fd (off + (o - (p - base m))))) m p n;
  sys_madvise_dontneed m p n := mmap_call hp sys DropPages (os_drop sys) paint_origin m p n;
  cpu_store m x v :=
    if reachable_at m (x - base m) then Some (with_mbytes m (<[x - base m := v]> (mbytes m))) else None
|}.

(** ** Operations *)

Section Mappings.
  Context (hp : Z) (dbg : bool) (sys : os).

Abbreviation page_multiple := (usize_is_multiple_of_host_page_size hp).

(** [Mmap::make_accessible]. *)
Definition make_accessible (start len : Z) : io Mmap mem_error () := fun m =>
  match
    assert_ (start mod hp =? 0);;
    assert_ (len mod hp =? 0);;
    assert_ (len <=? mlen m);;
    assert_ (start <=? mlen m - len)
  with
  | Ok _ =>
      let '(m, ok) := mmap_call hp sys Protect (os_protect sys) (paint_access true) m (base m + start) len in
      (m, if ok : bool then Ok () else Err ProtectFailed)
  | Err e => (m, Err e)
  | Panic => (m, Panic)
  end.

(** A mapping of one's own, of which nothing is left after an error. *)
Definition on_new {X} (c : io Mmap mem_error X) (m : Mmap) : outcome mem_error Mmap :=
  let '(m, r) := c m in r;; Ok m.

(** [Mmap::accessible_reserved]; [mmap::Mmap::new] is a reservation that is
    accessible, [new_empty] has no bytes. *)
Definition accessible_reserved (accessible_size mapping_size : Z) : outcome mem_error Mmap :=
  assert_ (accessible_size <=? mapping_size);;
  assert_ (page_multiple mapping_size);;
  assert_ (page_multiple accessible_size);;
  if mapping_size =? 0 then Ok (mmap_reserved hp 0)
  else
    match os_reserve sys mapping_size with
    | None => Err MmapFailed
    | Some b =>
        let result := mmap_reserved b mapping_size in
        if accessible_size =? mapping_size then Ok (with_access result [(0, mapping_size, true)])
        else if 0 <? accessible_size then on_new (make_accessible 0 accessible_size) result
        else Ok result
    end.

(** [dst.copy_from_slice(src)] on the same range of two mappings. *)
Definition copy_range (src dst : Mmap) (start end_ : Z) : outcome mem_error Mmap :=
  assert_ (start <=? end_);;
  assert_ (end_ <=? mlen src);;
  assert_ (end_ <=? mlen dst);;
  let copied := filter (fun kv => start <= kv.1 < end_) (mbytes src) in
  let kept := filter (fun kv => ~ (start <= kv.1 < end_)) (mbytes dst) in
  Ok (with_mbytes dst (copied ∪ kept)).
End Mappings.

(** ** The laws of system calls *)

Lemma set_range_lookup g s n b o :
  set_range g s n b !! o = if decide (s <= o < s + n) then Some (g o) else b !! o.
Proof.
  unfold set_range.
  assert (Hl : forall l, foldr (fun k => <[s + k := g (s + k)]>) b l !! o = if decide (o - s ∈ l) then Some (g o) else b !! o).
  { induction l as [|k l IH]; cbn; [done|]. destruct (decide (o = s + k)) as [->|Hne].
    - rewrite lookup_insert_eq, decide_True; [done|]. apply list.elem_of_cons. left. lia.
    - rewrite lookup_insert_ne, IH by done. destruct (decide (o - s ∈ l)).
      + rewrite decide_True; [done|by right].
      + rewrite decide_False; [done|]. intros [?|?]%list.elem_of_cons; [lia|done]. }
  rewrite Hl. destruct (decide (s <= o < s + n)).
  - rewrite decide_True; [done|]. apply elem_of_seqZ. lia.
  - rewrite decide_False; [done|]. intros ?%elem_of_seqZ. lia.
Qed.

(** A call that does [f] to the bytes of a range. *)
Definition painter (b : Z) (paint : Mmap -> Z * Z -> Mmap) (f : Z -> cell -> cell) : Prop :=
  forall m s n, base m = b ->
    base (paint m (s - b, n)) = b /\ mrefused (paint m (s - b, n)) = mrefused m /\
    forall x, mmap_cell (paint m (s - b, n)) x = if decide (s <= x < s + n) then f x (mmap_cell m x) else mmap_cell m x.

Lemma in_offsets (s n x b : Z) : (s - b <=? x - b) && (x - b <? s - b + n) = bool_decide (s <= x < s + n).
Proof.
  apply eq_true_iff_eq. rewrite andb_true_iff, bool_decide_eq_true, Z.leb_le, Z.ltb_lt. lia.
Qed.

Lemma access_painter b rw :
  painter b (paint_access rw) (fun _ c => {| c_access := rw; c_value := c_value c; c_origin := c_origin c |}).
Proof.
  intros m s n Hb. split_and!; [done..|]. intros x. unfold mmap_cell, reachable_at. cbn. rewrite Hb, in_offsets.
  case_decide; [by rewrite bool_decide_eq_true_2|by rewrite bool_decide_eq_false_2].
Qed.

Lemma bytes_painter b rw g :
  painter b (paint_bytes rw g) (fun x _ => {| c_access := rw; c_value := g (x - b); c_origin := g (x - b) |}).
Proof.
  intros m s n Hb. split_and!; [done..|]. intros x. unfold mmap_cell, reachable_at. cbn. rewrite Hb, in_offsets, !set_range_lookup.
  destruct (decide (s <= x < s + n)).
  - by rewrite bool_decide_eq_true_2, !decide_True by (done || lia).
  - by rewrite bool_decide_eq_false_2, !decide_False by (done || lia).
Qed.

Lemma origin_painter b :
  painter b paint_origin (fun _ c => {| c_access := c_access c; c_value := c_origin c; c_origin := c_origin c |}).
Proof.
  intros m s n Hb. split_and!; [done..|]. intros x. unfold mmap_cell, reachable_at. cbn. rewrite Hb, set_range_lookup.
  destruct (decide (s <= x < s + n)); [rewrite decide_True by lia|rewrite decide_False by lia]; done.
Qed.

Section Laws.
  Context (hp : Z) (files : Z -> Z -> Z) (sys : os).
#[local] Instance kernel : Kernel Mmap := mmap_kernel hp files sys.

(** The ranges that a refused call changed are in its pages. *)
Lemma torn_cells paint f m l p n :
  painter (base m) paint f -> Forall (fun r => p <= r.1 /\ r.1 + r.2 <= p + rounded hp n) l ->
  let m' := foldl (fun m r => paint m (r.1 - base m, r.2)) m l in
  base m' = base m /\ mrefused m' = mrefused m /\ forall x, ~ in_pages hp p n x -> mmap_cell m' x = mmap_cell m x.
Proof using Type.
  intros Hp. remember (base m) as b eqn:Hb. symmetry in Hb. revert m Hb. induction l as [|r l IH]; intros m Hb Hl; cbn; [done|].
  apply list.Forall_cons in Hl as [Hr Hl]. rewrite Hb. destruct (Hp m r.1 r.2 Hb) as (Hb1 & Hr1 & Hc1).
  destruct (IH (paint m (r.1 - b, r.2)) Hb1 Hl) as (Hb2 & Hr2 & Hc2). split_and!; [done|congruence|].
  intros x Hx. rewrite Hc2, Hc1 by done. rewrite decide_False; [done|]. unfold in_pages in Hx. lia.
Qed.

Lemma mmap_call_law call granted paint f m p n :
  painter (base m) paint f -> page_call call hp m p n (mmap_call hp sys call granted paint m p n) f.
Proof using Type.
  intros Hp. unfold mmap_call. destruct (Z.eqb_spec (p mod hp) 0) as [Hz|Hz]; cbn [negb].
  - destruct (granted p n).
    + destruct (Hp m p (rounded hp n) eq_refl) as (_ & Hr & Hc). split; cbn [fst snd]; try done.
      * intros x Hx. change (mmap_cell (paint m (p - base m, rounded hp n)) x = mmap_cell m x). rewrite Hc, decide_False; done.
      * intros _ x Hx. change (mmap_cell (paint m (p - base m, rounded hp n)) x = f x (mmap_cell m x)). by rewrite Hc, decide_True.
    + destruct (torn_cells paint f (with_refusal m call) (torn_ranges hp sys p n) p n Hp) as (_ & Hr & Hc).
      { apply list.Forall_forall. intros r Hr. unfold torn_ranges in Hr. by apply list_elem_of_filter in Hr as [Hr _]. }
      split; cbn [fst snd]; done.
  - split; cbn [fst snd]; done.
Qed.

Lemma mmap_call_contents call granted m p n rw x :
  c_value (mmap_cell (mmap_call hp sys call granted (paint_access rw) m p n).1 x) = c_value (mmap_cell m x) /\
  c_origin (mmap_cell (mmap_call hp sys call granted (paint_access rw) m p n).1 x) = c_origin (mmap_cell m x).
Proof using Type.
  unfold mmap_call. destruct (negb _); [done|]. destruct (granted p n); [done|]. cbn [fst].
  change (c_value (mmap_cell m x)) with (c_value (mmap_cell (with_refusal m call) x)).
  change (c_origin (mmap_cell m x)) with (c_origin (mmap_cell (with_refusal m call) x)).
  generalize (with_refusal m call). induction (torn_ranges hp sys p n) as [|r l IH]; intros m'; cbn; [done|].
  apply (IH (paint_access rw m' (r.1 - base m', r.2))).
Qed.

#[local] Instance mmap_laws : KernelLaws Mmap hp.
Proof using Type.
  split; intros; cbn [sys_mprotect sys_mmap_anonymous sys_mmap_file sys_madvise_dontneed cpu_store cell_at kernel mmap_kernel].
  - apply mmap_call_law, access_painter.
  - apply mmap_call_contents.
  - apply mmap_call_law. exact (bytes_painter (base a) rw (fun _ => 0)).
  - apply mmap_call_law. intros m s k Hb. pose proof (bytes_painter (base a) true (fun o => files fd (off + (o - (p - base a)))) m s k Hb) as (H1 & H2 & H3).
    split_and!; [done..|]. intros x. rewrite H3. case_decide; [|done]. cbn. do 2 f_equal; lia.
  - apply mmap_call_law, origin_painter.
  - destruct (reachable_at a (x - base a)) eqn:Hr; [|done]. split; [done|]. intros y. unfold mmap_cell, reachable_at. cbn.
    destruct (decide (y = x)) as [->|Hne]; [by rewrite lookup_insert_eq|]. by rewrite lookup_insert_ne by lia.
Qed.
End Laws.
