(* ===== verification/LinearMemory.v ===== *)
(** * Linear memories

    [src/wasmtime-repo/crates/wasmtime/src/runtime/vm/memory.rs] (the growth
    protocol, [MmapMemory], the creation of memories) and the growth of
    [threads/shared_memory.rs].  A memory lives in a mapping ([Mappings]); a memory that
    starts with an image has a slot of [cow.rs] on top of its mapping, whose methods are
    those of [Cow].  A refused system call may have changed some pages: a method returns
    the memory it leaves also with an error.  [oc] says whether plain arithmetic is
    overflow-checked and [dbg] whether debug assertions are on; [files] are the contents
    of the files that images are in. *)

From Stdlib Require Import ZArith Lia.
From stdpp Require Import base list gmap numbers option.
From S2P Require Import Prelude MemoryTypes Cow CowInv Mappings.
Open Scope Z_scope.

Section Memories.
  Context (hp : Z) (files : Z -> Z -> Z) (oc dbg : bool).

Abbreviation page_multiple := (usize_is_multiple_of_host_page_size hp).
Abbreviation round_up := (round_usize_up_to_host_pages hp dbg).

(** ** [MmapMemory] *)

Record MmapMemory := {
  mmap : Mmap;
  len : Z;
  mm_maximum : option Z;
  mm_page_size_log2 : Z;
  extra_to_reserve_on_growth : Z;
  mm_pre_guard_size : Z;
  mm_offset_guard_size : Z;
  memory_image : option MemoryImageSlot
}.

(** A method of a slot, on the mapping that is below it. *)
Definition slot_error {X} (r : outcome cow_error X) : outcome mem_error X :=
  match r with Ok x => Ok x | Err OsError => Err ProtectFailed | Panic => Panic end.
Definition run_slot {X} (sys : os) (c : forall `{Kernel Mmap}, cow Mmap X) (m : Mmap) (slot : MemoryImageSlot)
  : Mmap * MemoryImageSlot * outcome mem_error X :=
  let '(st, r) := @c (mmap_kernel hp files sys) {| cs_mem := m; cs_slot := slot; cs_queue := [] |} in
  (cs_mem st, cs_slot st, slot_error r).

(** The image of a new memory is mapped over the start of its mapping. *)
Definition map_image (sys : os) (plan : MemoryPlan) (min pre_guard_bytes static_size : Z) (m : Mmap)
    (image : option MemoryImage) : outcome mem_error (Mmap * option MemoryImageSlot) :=
  match image with
  | Some image =>
      let slot := slot_create (base m + pre_guard_bytes) min static_size in
      let '(m, slot, r) := run_slot sys (fun K => slot_instantiate min (Some image) plan) m slot in
      _ ← r;
      Ok (m, Some (no_clear_on_drop slot))
  | None => Ok (m, None)
  end.

(** [MmapMemory::new]. *)
Definition mmap_memory_new (sys : os) (plan : MemoryPlan) (min : Z) (max : option Z) (image : option MemoryImage)
  : outcome mem_error MmapMemory :=
  offset_guard_bytes ← round_up (offset_guard_size plan);
  pre_guard_bytes ← round_up (pre_guard_size plan);
  '(alloc_bytes, extra, max) ←
    match style plan with
    | Dynamic reserve =>
        a ← round_up min;
        e ← round_up reserve;
        Ok (a, e, max)
    | Static byte_reservation =>
        m ← minimum_byte_size dbg (memory plan);
        m ← unwrap m;
        assert_ (m <=? byte_reservation);;
        bound_bytes ← round_up byte_reservation;
        Ok (bound_bytes, 0, Some (Z.min bound_bytes (default u64_max max)))
    end;
  assert_ (page_multiple alloc_bytes);;
  request_bytes ← ok_or AllocationOverflow
    (a ← checked 64 (pre_guard_bytes + alloc_bytes);
     b ← checked 64 (a + extra);
     checked 64 (b + offset_guard_bytes));
  assert_ (page_multiple request_bytes);;
  m ← accessible_reserved hp sys 0 request_bytes;
  m ← (if 0 <? min then
         accessible ← round_up min;
         on_new (make_accessible hp sys pre_guard_bytes accessible) m
       else Ok m);
  static_size ← match image with Some _ => arith oc 64 (alloc_bytes + extra) | None => Ok 0 end;
  '(m, slot) ← map_image sys plan min pre_guard_bytes static_size m image;
  Ok {| mmap := m; len := min; mm_maximum := max; mm_page_size_log2 := page_size_log2 (memory plan);
        mm_pre_guard_size := pre_guard_bytes; mm_offset_guard_size := offset_guard_bytes;
        extra_to_reserve_on_growth := extra; memory_image := slot |}.

(** [accessible]: the length rounded up to host pages. *)
Definition accessible (m : MmapMemory) : outcome mem_error Z :=
  a ← unwrap_result (round_up (len m));
  room ← arith oc 64 (mlen (mmap m) - mm_offset_guard_size m);
  room ← arith oc 64 (room - mm_pre_guard_size m);
  debug_assert dbg (a <=? room);;
  Ok a.

Definition with_mmap (m : MmapMemory) (mp : Mmap) (n : Z) (image : option MemoryImageSlot) : MmapMemory :=
  {| mmap := mp; len := n; mm_maximum := mm_maximum m; mm_page_size_log2 := mm_page_size_log2 m;
     extra_to_reserve_on_growth := extra_to_reserve_on_growth m;
     mm_pre_guard_size := mm_pre_guard_size m; mm_offset_guard_size := mm_offset_guard_size m;
     memory_image := image |}.

Definition needs_init (m : MmapMemory) : bool := bool_decide (memory_image m = None).

(** The branches of [grow_to]: the contents are copied to a larger mapping (the slot is
    dropped, which leaves its mapping alone); the slot makes its pages accessible; or the
    pages after the memory are made accessible. *)
Definition grow_by_moving (sys : os) (m : MmapMemory) (new_size new_accessible : Z) : outcome mem_error MmapMemory :=
  request_bytes ← ok_or AllocationOverflow
    (a ← checked 64 (mm_pre_guard_size m + new_accessible);
     b ← checked 64 (a + extra_to_reserve_on_growth m);
     checked 64 (b + mm_offset_guard_size m));
  assert_ (page_multiple request_bytes);;
  new_mmap ← accessible_reserved hp sys 0 request_bytes;
  new_mmap ← on_new (make_accessible hp sys (mm_pre_guard_size m) new_accessible) new_mmap;
  range_end ← arith oc 64 (mm_pre_guard_size m + len m);
  new_mmap ← copy_range (mmap m) new_mmap (mm_pre_guard_size m) range_end;
  _ ← match memory_image m with
      | Some image => (run_slot sys (fun K => slot_drop) (mmap m) image).2
      | None => Ok ()
      end;
  Ok (with_mmap m new_mmap new_size None).

Definition grow_in_slot (sys : os) (m : MmapMemory) (image : MemoryImageSlot) (new_size : Z) : MmapMemory * outcome mem_error () :=
  let '(mp, image, r) := run_slot sys (fun K => slot_set_heap_limit new_size) (mmap m) image in
  (with_mmap m mp (match r with Ok _ => new_size | _ => len m end) (Some image), r).

Definition grow_in_place (sys : os) (m : MmapMemory) (new_size room : Z) : MmapMemory * outcome mem_error () :=
  match
    assert_ (len m <? new_size);;
    assert_ (match mm_maximum m with Some max => new_size <=? max | None => true end);;
    assert_ (new_size <=? room);;
    new_accessible ← round_up new_size;
    assert_ (new_accessible <=? room);;
    old ← accessible m;
    if old <? new_accessible then
      start ← arith oc 64 (mm_pre_guard_size m + old);
      Ok (Some (start, new_accessible - old))
    else Ok None
  with
  | Ok (Some (start, n)) =>
      let '(mp, r) := make_accessible hp sys start n (mmap m) in
      (with_mmap m mp (match r with Ok _ => new_size | _ => len m end) None, r)
  | Ok None => (with_mmap m (mmap m) new_size None, Ok ())
  | Err e => (m, Err e)
  | Panic => (m, Panic)
  end.

(** [grow_to]. *)
Definition mmap_grow_to (sys : os) (m : MmapMemory) (new_size : Z) : MmapMemory * outcome mem_error () :=
  match
    assert_ (page_multiple (mm_offset_guard_size m));;
    assert_ (page_multiple (mm_pre_guard_size m));;
    assert_ (page_multiple (mlen (mmap m)));;
    new_accessible ← round_up new_size;
    room ← arith oc 64 (mlen (mmap m) - mm_offset_guard_size m);
    room ← arith oc 64 (room - mm_pre_guard_size m);
    Ok (new_accessible, room)
  with
  | Ok (new_accessible, room) =>
      if room <? new_accessible then
        match grow_by_moving sys m new_size new_accessible with
        | Ok m' => (m', Ok ())
        | Err e => (m, Err e)
        | Panic => (m, Panic)
        end
      else
        match memory_image m with
        | Some image => grow_in_slot sys m image new_size
        | None => grow_in_place sys m new_size room
        end
  | Err e => (m, Err e)
  | Panic => (m, Panic)
  end.
End Memories.

(** ** The trait and its growth protocol *)

Class RuntimeLinearMemory (M : Type) := {
  rlm_page_size_log2 : M -> Z;
  byte_size : M -> Z;
  rlm_maximum_byte_size : M -> option Z;
  grow_to : M -> Z -> M * outcome mem_error ()
}.

Section Grow.
  Context {M : Type} `{!RuntimeLinearMemory M} {L : Type} `{!ResourceLimiter L} (dbg : bool).

(** The arm that reports a failed growth to the store. *)
Definition report_failure (m : M) (store : option (option L)) (e : mem_error)
  : M * option (option L) * outcome mem_error (option (Z * Z)) :=
  match store with
  | None => (m, None, Ok None)
  | Some s =>
      let '(s', r) := store_memory_grow_failed s e in
      (m, Some s', match r with Ok _ => Ok None | Err e => Err e | Panic => Panic end)
  end.

(** [RuntimeLinearMemory::grow]. *)
Definition grow (m : M) (delta_pages : Z) (store : option (option L))
  : M * option (option L) * outcome mem_error (option (Z * Z)) :=
  let old_byte_size := byte_size m in
  if delta_pages =? 0 then (m, store, Ok (Some (old_byte_size, old_byte_size)))
  else
    match page_size_of (E:=mem_error) dbg (rlm_page_size_log2 m) with
    | Err e => (m, store, Err e)
    | Panic => (m, store, Panic)
    | Ok page_size =>
        let absolute_max := (0 - page_size) mod 2 ^ 64 in
        let product := Z.min u64_max (delta_pages * page_size) in
        let sum := Z.min u64_max (product + old_byte_size) in
        let new_byte_size := Z.min sum absolute_max in
        let maximum := rlm_maximum_byte_size m in
        let '(store, allowed) :=
          match store with
          | Some s => let '(s', r) := store_memory_growing s old_byte_size new_byte_size maximum in (Some s', r)
          | None => (None, Ok true)
          end in
        match allowed with
        | Err e => (m, store, Err e)
        | Panic => (m, store, Panic)
        | Ok false => (m, store, Ok None)
        | Ok true =>
            if match maximum with Some max => max <? new_byte_size | None => false end
            then report_failure m store MaximumExceeded
            else
              match grow_to m new_byte_size with
              | (m', Ok _) => (m', store, Ok (Some (old_byte_size, new_byte_size)))
              | (m', Err e) => report_failure m' store e
              | (m', Panic) => (m', store, Panic)
              end
        end
    end.

(** [Memory::grow]. *)
Definition memory_grow (m : M) (delta_pages : Z) (store : option (option L))
  : M * option (option L) * outcome mem_error (option Z) :=
  let '(m', store', r) := grow m delta_pages store in
  (m', store', fmap (M:=outcome mem_error) (option_map fst) r).

(** [Memory::limit_new]. *)
Definition limit_new (plan : MemoryPlan) (store : option (option L))
  : option (option L) * outcome mem_error (Z * option Z) :=
  match
    page_size ← page_size dbg (memory plan);
    let absolute_max := (0 - page_size) mod 2 ^ 64 in
    min ← minimum_byte_size dbg (memory plan);
    assert_ (match min with Some size => size <=? absolute_max | None => true end);;
    max ← maximum_byte_size dbg (memory plan);
    assert_ (match max with Some max => max <=? absolute_max | None => true end);;
    Ok (E:=mem_error) (absolute_max, min, max)
  with
  | Err e => (store, Err e)
  | Panic => (store, Panic)
  | Ok (absolute_max, min, max) =>
      let '(store, allowed) :=
        match store with
        | Some s =>
            if shared (memory plan) then (Some s, Ok true)
            else let '(s', r) := store_memory_growing s 0 (default absolute_max min) max in (Some s', r)
        | None => (None, Ok true)
        end in
      (store,
       allowed ← allowed;
       if allowed : bool then
         minimum ← ok_or MinimumExceedsLimits min;
         Ok (minimum, max)
       else Err MinimumExceedsLimits)
  end.
End Grow.

(** The system that a memory grows on is fixed for a growth. *)
#[export] Instance MmapMemory_rlm hp files oc dbg sys : RuntimeLinearMemory MmapMemory := {
  rlm_page_size_log2 := mm_page_size_log2;
  byte_size := len;
  rlm_maximum_byte_size := mm_maximum;
  grow_to := mmap_grow_to hp files oc dbg sys
}.

(** ** Definitions seen by compiled code, and atomic accesses *)

Record VMMemoryDefinition := { def_base : Z; current_length : Z }.

Definition mmap_vmmemory (m : MmapMemory) : VMMemoryDefinition :=
  {| def_base := base (mmap m) + mm_pre_guard_size m; current_length := len m |}.

(** [wasm_accessible]: up to the end of the mapping, guard pages included. *)
Definition mmap_wasm_accessible (m : MmapMemory) : Z * Z :=
  let b := base (mmap m) + mm_pre_guard_size m in
  (b, b + (mlen (mmap m) - mm_pre_guard_size m)).

Inductive AtomicTrap := HeapMisaligned | MemoryOutOfBounds | AtomicWaitNonSharedMemory.

(** [validate_atomic_addr]: the address of the access. *)
Definition validate_atomic_addr (dbg : bool) (def : VMMemoryDefinition)
    (addr access_size access_alignment : Z) : outcome AtomicTrap Z :=
  debug_assert dbg (bool_decide (access_alignment = 2 ^ Z.log2 access_alignment));;
  if negb (addr mod access_alignment =? 0) then Err HeapMisaligned
  else if negb (Z.min u64_max (addr + access_size) <? current_length def) then Err MemoryOutOfBounds
  else Ok ((def_base def + addr) mod 2 ^ 64).

(** The atomic operations on a memory that is not shared. *)
Definition atomic_notify (dbg : bool) (m : MmapMemory) (addr : Z) : outcome AtomicTrap Z :=
  validate_atomic_addr dbg (mmap_vmmemory m) addr 4 4;;
  Ok 0.
Definition atomic_wait32 (dbg : bool) (m : MmapMemory) (addr : Z) : outcome AtomicTrap Z :=
  validate_atomic_addr dbg (mmap_vmmemory m) addr 4 4;;
  Err AtomicWaitNonSharedMemory.
Definition atomic_wait64 (dbg : bool) (m : MmapMemory) (addr : Z) : outcome AtomicTrap Z :=
  validate_atomic_addr dbg (mmap_vmmemory m) addr 8 8;;
  Err AtomicWaitNonSharedMemory.

(** [SharedMemory]: a memory behind a lock, with the definition that compiled
    code reads; a growth holds the lock and then publishes the new length. *)
Record SharedMemory := { s_memory : MmapMemory; s_def : VMMemoryDefinition }.

Definition shared_wrap (plan : MemoryPlan) (m : MmapMemory) : option SharedMemory :=
  if negb (shared (memory plan)) then None
  else match style plan with
       | Static _ => Some {| s_memory := m; s_def := mmap_vmmemory m |}
       | Dynamic _ => None
       end.

Section Shared.
  Context (hp : Z) (files : Z -> Z -> Z) (oc dbg : bool) {L : Type} `{!ResourceLimiter L}.

Abbreviation mmap_grow sys := (grow (RuntimeLinearMemory0 := MmapMemory_rlm hp files oc dbg sys) dbg).

Definition shared_grow (sys : os) (s : SharedMemory) (delta_pages : Z) (store : option (option L))
  : SharedMemory * option (option L) * outcome mem_error (option (Z * Z)) :=
  let '(m', store', r) := mmap_grow sys (s_memory s) delta_pages store in
  let def' := match r with
              | Ok (Some (_, new_size)) => {| def_base := def_base (s_def s); current_length := new_size |}
              | _ => s_def s
              end in
  ({| s_memory := m'; s_def := def' |}, store', r).

(** [Memory::new_dynamic] on a memory that is not shared: the limits, then the
    default creator. *)
Definition new_dynamic (sys : os) (plan : MemoryPlan) (image : option MemoryImage) (store : option L)
  : option (option L) * outcome mem_error MmapMemory :=
  let '(store, limits) := limit_new dbg plan (Some store) in
  (store, '(minimum, maximum) ← limits; mmap_memory_new hp files oc dbg sys plan minimum maximum image).
End Shared.

Lemma checked3 a b c d :
  0 <= a -> 0 <= b -> 0 <= c -> 0 <= d ->
  ok_or AllocationOverflow
    (x ← checked 64 (a + b); y ← checked 64 (x + c); checked 64 (y + d)) =
  if a + b + c + d <? 2 ^ 64 then Ok (a + b + c + d) else Err AllocationOverflow.
Proof.
  intros. destruct (Z.ltb_spec (a + b + c + d) (2 ^ 64)) as [Hlt|Hge].
  - assert (Hc : forall z, 0 <= z < 2 ^ 64 -> checked 64 z = Some z) by (intros; by apply checked_Some).
    rewrite (Hc (a + b)) by lia. cbn [mbind option_bind]. rewrite (Hc (a + b + c)) by lia.
    cbn [mbind option_bind]. by rewrite (Hc (a + b + c + d)) by lia.
  - destruct (checked 64 (a + b)) as [x|] eqn:E1; cbn; [|done]. apply checked_Some in E1 as [? ->].
    destruct (checked 64 (a + b + c)) as [x|] eqn:E2; cbn; [|done]. apply checked_Some in E2 as [? ->].
    destruct (checked 64 (a + b + c + d)) as [x|] eqn:E3; cbn; [|done]. apply checked_Some in E3 as [Hu ->].
    unfold in_u in Hu. lia.
Qed.

(** ** Growing a mapped memory *)

(** The bytes of a memory, and of what lies before and after it in the mapping: [None] is
    a fault. *)
Definition load (m : MmapMemory) (a : Z) : option Z := mmap_byte (mmap m) (mm_pre_guard_size m + a).

(** The room between the guards. *)
Definition mm_room (m : MmapMemory) : Z := mlen (mmap m) - mm_offset_guard_size m - mm_pre_guard_size m.

Lemma load_cell m a :
  load m a = let c := mmap_cell (mmap m) (base (mmap m) + mm_pre_guard_size m + a) in
             if c_access c then Some (c_value c) else None.
Proof.
  unfold load, mmap_byte, mmap_cell. cbn.
  by replace (base (mmap m) + mm_pre_guard_size m + a - base (mmap m)) with (mm_pre_guard_size m + a) by lia.
Qed.

Section Growth.
  Context (hp : Z) (files : Z -> Z -> Z) (oc dbg : bool) (k : Z) (Hk : 0 <= k < 64) (Hhp : hp = 2 ^ k).

(** No system can reserve half of the address space, and reservations start at a page. *)
Definition os_ok (sys : os) : Prop := forall n b, os_reserve sys n = Some b -> n < 2 ^ 63 /\ b mod hp = 0.

(** What is known of the pages does not depend on what the system will do next. *)
Definition idle_os : os :=
  {| os_reserve _ := None; os_protect _ _ := false; os_map _ _ := false; os_drop _ _ := false; os_torn _ _ := [] |}.
#[local] Instance pages : Kernel Mmap := mmap_kernel hp files idle_os.

(** The slot on the mapping; a memory without an image has one that is never used. *)
Definition slot_below (mp : Mmap) (pre room n : Z) (image : option MemoryImageSlot) : MemoryImageSlot :=
  default (slot_create (base mp + pre) n room) image.
Definition base_slot (m : MmapMemory) : MemoryImageSlot :=
  slot_below (mmap m) (mm_pre_guard_size m) (mm_room m) (len m) (memory_image m).

(** A slot that covers the room between the guards, of which [n] bytes are accessible. *)
Record covers (mp : Mmap) (pre room n : Z) (image : option MemoryImageSlot) : Prop := {
  co_base : s_base (slot_below mp pre room n image) = base mp + pre;
  co_size : s_static_size (slot_below mp pre room n image) = room;
  co_accessible : s_accessible (slot_below mp pre room n image) = n;
  co_keep : forall s, image = Some s -> s_clear_on_drop s = false;
  co_ok : slot_ok hp (slot_below mp pre room n image);
  co_guards : forall y, ~ in_slot hp (slot_below mp pre room n image) y -> c_access (mmap_cell mp y) = false
}.

Record mm_inv (m : MmapMemory) : Prop := {
  i_pre : 0 <= mm_pre_guard_size m /\ mm_pre_guard_size m mod hp = 0;
  i_off : 0 <= mm_offset_guard_size m /\ mm_offset_guard_size m mod hp = 0;
  i_extra : 0 <= extra_to_reserve_on_growth m /\ extra_to_reserve_on_growth m mod hp = 0;
  i_mlen : mlen (mmap m) mod hp = 0 /\ mlen (mmap m) < 2 ^ 63 /\ base (mmap m) mod hp = 0;
  i_len : 0 <= len m /\ rounded hp (len m) <= mm_room m;
  i_max : forall max, mm_maximum m = Some max -> len m <= max;
  i_log2 : mm_page_size_log2 m = 0 \/ mm_page_size_log2 m = 16;
  i_page : len m mod Z.shiftl 1 (mm_page_size_log2 m) = 0;
  i_slot : covers (mmap m) (mm_pre_guard_size m) (mm_room m) (len m) (memory_image m);
  i_mapped : mapped hp (mmap m) (base_slot m) (below (len m))
}.

Lemma hp_pos : 0 < hp.
Proof. rewrite Hhp. apply Z.pow_pos_nonneg; lia. Qed.

Lemma multiple_true z : z mod hp = 0 -> usize_is_multiple_of_host_page_size hp z = true.
Proof. intros H. unfold usize_is_multiple_of_host_page_size. by rewrite H. Qed.

Lemma mod_sum a b : a mod hp = 0 -> b mod hp = 0 -> (a + b) mod hp = 0 /\ (a - b) mod hp = 0.
Proof.
  pose proof hp_pos. intros Ha Hb. split.
  - by rewrite Z.add_mod, Ha, Hb by lia.
  - by rewrite Zminus_mod, Ha, Hb.
Qed.

Lemma round_up_eq bytes :
  0 <= bytes -> round_usize_up_to_host_pages hp dbg bytes =
    if bytes + (hp - 1) <? 2 ^ 64 then Ok (rounded hp bytes) else Err RoundOverflow.
Proof. intros. apply (round_up_ok hp dbg bytes k); [lia|done|done]. Qed.

(** The room between the guards is whole pages. *)
Lemma room_pages m : mm_inv m -> mm_room m mod hp = 0 /\ rounded hp (mm_room m) = mm_room m.
Proof.
  intros [[_ Hp] [_ Ho] _ [Hm _] _ _ _ _ _ _]. assert (Hr : mm_room m mod hp = 0).
  { unfold mm_room. apply mod_sum; [by apply mod_sum|done]. }
  split; [done|]. apply rounded_idem; [apply hp_pos|done].
Qed.

(** ** Calls on a mapping *)

Lemma paints_frame (paint : Mmap -> Z * Z -> Mmap) l m :
  (forall m r, base (paint m r) = base m /\ mlen (paint m r) = mlen m) ->
  base (foldl (fun m r => paint m (r.1 - base m, r.2)) m l) = base m /\
  mlen (foldl (fun m r => paint m (r.1 - base m, r.2)) m l) = mlen m.
Proof using Type.
  intros Hp. revert m. induction l as [|r l IH]; intros m; cbn; [done|].
  destruct (IH (paint m (r.1 - base m, r.2))) as [-> ->]. apply Hp.
Qed.

Lemma call_frame sys call granted (paint : Mmap -> Z * Z -> Mmap) m p n :
  (forall m r, base (paint m r) = base m /\ mlen (paint m r) = mlen m) ->
  base (mmap_call hp sys call granted paint m p n).1 = base m /\ mlen (mmap_call hp sys call granted paint m p n).1 = mlen m.
Proof using Type.
  intros Hp. unfold mmap_call. destruct (negb _); [done|]. destruct (granted p n); [apply Hp|]. cbn [fst].
  by destruct (paints_frame paint (torn_ranges hp sys p n) (with_refusal m call) Hp).
Qed.

(** A method of a slot does not move the mapping. *)
Definition stays {X} (c : cow Mmap X) : Prop :=
  forall st, base (cs_mem (c st).1) = base (cs_mem st) /\ mlen (cs_mem (c st).1) = mlen (cs_mem st).

Lemma stays_bind {X Y} (c : cow Mmap X) (f : X -> cow Mmap Y) : stays c -> (forall x, stays (f x)) -> stays (c ≫= f).
Proof.
  intros Hc Hf st. unfold mbind, io_bind. specialize (Hc st). destruct (c st) as [st1 [x|e|]]; cbn in *; [|done..].
  specialize (Hf x st1). destruct Hf as [-> ->]. done.
Qed.

Lemma stays_basic :
  (forall X (x : X), stays (mret x)) /\ stays self /\ (forall f, stays (update f)) /\ (forall X (o : outcome cow_error X), stays (lift o)).
Proof using Type. by split_and!. Qed.

Lemma stays_call sys call granted (paint : Mmap -> Z * Z -> Mmap) p n :
  (forall m r, base (paint m r) = base m /\ mlen (paint m r) = mlen m) ->
  stays (syscall (fun m => mmap_call hp sys call granted paint m p n)).
Proof using Type.
  intros Hp st. unfold syscall. pose proof (call_frame sys call granted paint (cs_mem st) p n Hp) as Hf.
  by destruct (mmap_call _ _ _ _ _ _ _ _) as [m []].
Qed.

Lemma stays_file sys fd off p n :
  stays (syscall (fun m => mmap_call hp sys Map (os_map sys) (paint_bytes true (fun o => files fd (off + (o - (p - base m))))) m p n)).
Proof using Type.
  intros st. unfold syscall. pose proof (call_frame sys Map (os_map sys) (paint_bytes true (fun o => files fd (off + (o - (p - base (cs_mem st))))))
    (cs_mem st) p n ltac:(done)) as Hf. by destruct (mmap_call _ _ _ _ _ _ _ _) as [m []].
Qed.

Lemma heap_limit_stays sys n : stays (slot_set_heap_limit (H := mmap_kernel hp files sys) n).
Proof using Type.
  destruct stays_basic as (Hret & Hself & Hupd & Hlift). unfold slot_set_heap_limit, set_protection, expose_existing_mapping, hide_existing_mapping.
  repeat first [apply stays_bind; [by auto|]; intros|case_match|by auto|by apply stays_call|apply stays_bind].
Qed.

Lemma place_image_stays sys n i : stays (place_image (H := mmap_kernel hp files sys) n i).
Proof using Type.
  destruct stays_basic as (Hret & Hself & Hupd & Hlift). unfold place_image, map_at, source_map_at.
  repeat first [apply stays_bind; [by auto|]; intros|case_match|by auto|apply stays_file|apply stays_bind].
Qed.

(** ** What growth does *)

(** A larger memory keeps its contents, with zeros after them. *)
Definition extends (m m' : MmapMemory) : Prop :=
  mm_pre_guard_size m' = mm_pre_guard_size m /\ mm_offset_guard_size m' = mm_offset_guard_size m /\
  (forall a, 0 <= a < len m -> load m' a = load m a) /\
  (forall a, len m <= a < len m' -> load m' a = Some 0).

(** A refused growth leaves the memory where it is, with its size and its contents. *)
Record unchanged (m m' : MmapMemory) : Prop := {
  u_len : len m' = len m;
  u_base : base (mmap m') = base (mmap m);
  u_room : mm_room m' = mm_room m;
  u_pre : mm_pre_guard_size m' = mm_pre_guard_size m;
  u_off : mm_offset_guard_size m' = mm_offset_guard_size m;
  u_max : mm_maximum m' = mm_maximum m;
  u_log2 : mm_page_size_log2 m' = mm_page_size_log2 m;
  u_load : forall a, 0 <= a < len m -> load m' a = load m a
}.

Lemma unchanged_refl m : unchanged m m.
Proof. by split. Qed.

Lemma load_Some m a :
  mm_inv m -> 0 <= a < rounded hp (len m) ->
  load m a = Some (c_value (mmap_cell (mmap m) (base (mmap m) + mm_pre_guard_size m + a))).
Proof.
  intros Hi Ha. rewrite load_cell. destruct (i_slot _ Hi) as [Hb Hs Hacc _ _ _]. pose proof (room_pages _ Hi) as [_ Hr].
  destruct (i_mapped _ Hi a) as (_ & [Ha1 _] & _); fold (base_slot m) in *; [rewrite Hs, Hr; pose proof (i_len _ Hi); lia|].
  rewrite Hacc, Hb in Ha1. cbn in Ha1 |- *. by rewrite Ha1 by lia.
Qed.

(** The memory after a growth, from what its new mapping shows. *)
Lemma grown m mp n image :
  let room := mlen mp - mm_offset_guard_size m - mm_pre_guard_size m in
  let slot := slot_below mp (mm_pre_guard_size m) room n image in
  mm_inv m -> len m <= n -> n mod Z.shiftl 1 (mm_page_size_log2 m) = 0 -> (forall max, mm_maximum m = Some max -> n <= max) ->
  mlen mp mod hp = 0 /\ mlen mp < 2 ^ 63 /\ base mp mod hp = 0 -> rounded hp n <= room ->
  covers mp (mm_pre_guard_size m) room n image -> images_in hp (s_image slot) (len m) -> mapped hp mp slot (below (len m)) ->
  (forall a, 0 <= a < len m -> c_value (mmap_cell mp (base mp + mm_pre_guard_size m + a)) =
     c_value (mmap_cell (mmap m) (base (mmap m) + mm_pre_guard_size m + a))) ->
  mm_inv (with_mmap m mp n image) /\ extends m (with_mmap m mp n image).
Proof.
  intros room slot Hi Hn Hnp Hnmax Hml Hroom Hco Him Hm Hold. pose proof hp_pos as Hpp.
  pose proof (rounded_bounds hp n Hpp) as [Hrn _]. pose proof (rounded_bounds hp (len m) Hpp) as [Hrl _].
  assert (Hi' : mm_inv (with_mmap m mp n image)).
  { pose proof Hi as [Hpre Hoff Hex _ Hlen _ Hlog _ _ _]. split; try done; [cbn; unfold mm_room; cbn; lia|].
    eapply mapped_weaken; [exact Hm|]. unfold below. cbn. lia. }
  split; [done|]. pose proof (i_len _ Hi) as [Hl0 _]. split_and!; [done..| |].
  - intros a Ha. rewrite (load_Some _ a Hi') by (cbn; lia). rewrite (load_Some _ a Hi) by lia. f_equal. by apply Hold.
  - cbn [len with_mmap]. intros a Ha. rewrite (load_Some _ a Hi') by (cbn; lia). cbn [mmap with_mmap mm_pre_guard_size]. f_equal.
    pose proof (room_pages _ Hi') as [_ Hrr]. change (mm_room (with_mmap m mp n image)) with room in Hrr.
    pose proof (co_size _ _ _ _ _ Hco) as Hsz. pose proof (co_base _ _ _ _ _ Hco) as Hbs. fold slot in Hsz, Hbs.
    destruct (Hm a) as (Ho & _ & Hv); [rewrite Hsz, Hrr; lia|].
    rewrite Hbs in Ho, Hv. change (cell_at mp) with (mmap_cell mp) in Ho, Hv. rewrite Hv by (unfold below; lia). rewrite Ho. unfold image_byte.
    destruct (s_image slot) as [i|]; [|done]. destruct Him. by rewrite decide_False by lia.
Qed.

Definition grow_to_post (m : MmapMemory) (n : Z) (r : MmapMemory * outcome mem_error ()) : Prop :=
  match r.2 with
  | Ok _ =>
      mm_inv r.1 /\ extends m r.1 /\ len r.1 = n /\ mm_maximum r.1 = mm_maximum m /\
      mm_page_size_log2 r.1 = mm_page_size_log2 m /\
      (rounded hp n <= mm_room m -> base (mmap r.1) = base (mmap m) /\ mm_room r.1 = mm_room m)
  | Err _ => mm_inv r.1 /\ unchanged m r.1
  | Panic => False
  end.

(** A growth of [m] to [n] that the caller asked for. *)
Record growing (m : MmapMemory) (n : Z) : Prop := {
  g_inv : mm_inv m;
  g_larger : len m < n < 2 ^ 64;
  g_page : n mod Z.shiftl 1 (mm_page_size_log2 m) = 0;
  g_max : forall max, mm_maximum m = Some max -> n <= max
}.

Lemma growing_grown m n mp image :
  let room := mlen mp - mm_offset_guard_size m - mm_pre_guard_size m in
  let slot := slot_below mp (mm_pre_guard_size m) room n image in
  growing m n -> mlen mp mod hp = 0 /\ mlen mp < 2 ^ 63 /\ base mp mod hp = 0 -> rounded hp n <= room ->
  covers mp (mm_pre_guard_size m) room n image -> images_in hp (s_image slot) (len m) -> mapped hp mp slot (below (len m)) ->
  (forall a, 0 <= a < len m -> c_value (mmap_cell mp (base mp + mm_pre_guard_size m + a)) =
     c_value (mmap_cell (mmap m) (base (mmap m) + mm_pre_guard_size m + a))) ->
  (rounded hp n <= mm_room m -> base mp = base (mmap m) /\ mlen mp = mlen (mmap m)) ->
  grow_to_post m n (with_mmap m mp n image, Ok ()).
Proof.
  intros room slot [Hi Hl Hp Hx] Hml Hroom Hco Him Hm Hold Hstay.
  destruct (grown m mp n image Hi ltac:(lia) Hp Hx Hml Hroom Hco Him Hm Hold) as [Hi' He].
  unfold grow_to_post. cbn [fst snd]. split_and!; try done. intros Hle. destruct (Hstay Hle) as [Hb Hlen].
  split; [done|]. unfold mm_room. cbn. by rewrite Hlen.
Qed.

(** *** In place *)

Lemma make_accessible_eq sys m start n :
  start mod hp = 0 -> n mod hp = 0 -> 0 <= start -> 0 <= n -> start + n <= mlen m ->
  make_accessible hp sys start n m =
    let '(m', ok) := mmap_call hp sys Protect (os_protect sys) (paint_access true) m (base m + start) n in
    (m', if ok : bool then Ok () else Err ProtectFailed).
Proof using Type.
  clear Hhp Hk k. intros Hs Hn ? ? ?. unfold make_accessible. rewrite Hs, Hn.
  rewrite (proj2 (Z.leb_le n (mlen m))), (proj2 (Z.leb_le start (mlen m - n))) by lia. done.
Qed.

Lemma no_image_slot m : memory_image m = None -> base_slot m = slot_create (base (mmap m) + mm_pre_guard_size m) (len m) (mm_room m).
Proof. intros H. unfold base_slot, slot_below. by rewrite H. Qed.

Lemma slot_pages m y : mm_inv m ->
  in_slot hp (base_slot m) y <-> base (mmap m) + mm_pre_guard_size m <= y < base (mmap m) + mm_pre_guard_size m + mm_room m.
Proof.
  intros Hi. destruct (i_slot _ Hi) as [Hb Hs _ _ _ _]. fold (base_slot m) in *. unfold in_slot, slot_end.
  by rewrite Hb, Hs, (proj2 (room_pages _ Hi)).
Qed.

(** After a call that is granted or refused, in the room after the memory. *)
Lemma protected_covers m mp n :
  mm_inv m -> 0 <= n <= mm_room m -> base mp = base (mmap m) -> mlen mp = mlen (mmap m) ->
  (forall y, ~ in_slot hp (base_slot m) y -> mmap_cell mp y = mmap_cell (mmap m) y) ->
  covers mp (mm_pre_guard_size m) (mlen mp - mm_offset_guard_size m - mm_pre_guard_size m) n None.
Proof.
  intros Hi Hn Hb Hl Hout. destruct (i_slot _ Hi) as [_ _ _ _ _ Hg]. fold (base_slot m) in Hg.
  pose proof (room_pages _ Hi) as [_ Hrr]. pose proof (slot_pages m) as Hsp. rewrite Hl.
  change (mlen (mmap m) - _ - _) with (mm_room m). split; try done.
  - split; cbn; [|lia|unfold mm_room in *; destruct (i_mlen _ Hi) as (_ & ? & _), (i_pre _ Hi), (i_off _ Hi); lia|done].
    rewrite Hb. apply mod_sum; [apply (i_mlen _ Hi)|apply (i_pre _ Hi)].
  - intros y Hy. rewrite Hout; [apply Hg|]; rewrite Hsp by done; unfold in_slot, slot_end in Hy; cbn in Hy; rewrite Hrr, Hb in Hy; done.
Qed.

Lemma protect_in_place sys m n :
  growing m n -> memory_image m = None -> rounded hp n <= mm_room m -> rounded hp (len m) < rounded hp n ->
  let '(mp, r) := make_accessible hp sys (mm_pre_guard_size m + rounded hp (len m)) (rounded hp n - rounded hp (len m)) (mmap m) in
  grow_to_post m n (with_mmap m mp (match r with Ok _ => n | _ => len m end) None, r).
Proof.
  intros Hg Him Hroom Hlt. pose proof Hg as [Hi Hn _ _]. pose proof hp_pos as Hpp.
  pose proof (rounded_bounds hp n Hpp) as [Hrn Hrm]. pose proof (rounded_bounds hp (len m) Hpp) as [Hrl Hrlm].
  pose proof (i_pre _ Hi) as [Hp0 Hpm]. pose proof (i_mlen _ Hi) as (Hmm & Hml & Hbm). pose proof (i_len _ Hi) as [Hl0 _].
  pose proof (i_off _ Hi) as [Ho0 _]. pose proof (room_pages _ Hi) as [_ Hrr]. pose proof (slot_pages m) as Hsp.
  rewrite make_accessible_eq; [|by apply mod_sum|by apply mod_sum|lia|lia|unfold mm_room in *; lia].
  set (p := base (mmap m) + (mm_pre_guard_size m + rounded hp (len m))). set (q := rounded hp n - rounded hp (len m)).
  assert (Hpp' : p mod hp = 0) by (unfold p; apply mod_sum; [done|]; apply mod_sum; done).
  assert (Hq : rounded hp q = q) by (apply rounded_idem; [done|]; unfold q; by apply mod_sum).
  pose proof (mmap_call_law hp files sys Protect (os_protect sys) (paint_access true) _ (mmap m) p q (access_painter _ true)) as Hlaw.
  pose proof (call_frame sys Protect (os_protect sys) (paint_access true) (mmap m) p q ltac:(done)) as [Hb Hlen].
  pose proof (mmap_call_contents hp sys Protect (os_protect sys) (mmap m) p q true) as Hc.
  pose proof (@failed_protect _ _ hp (mmap_laws hp files sys) (mmap m) (base_slot m) (below (len m)) p q true (i_mapped _ Hi)) as Hfail.
  destruct Hlaw as [_ Hrec Hout Hin]. specialize (Hrec Hpp').
  destruct (mmap_call hp sys Protect (os_protect sys) (paint_access true) (mmap m) p q) as [mp ok] eqn:Hcall. cbn [fst snd] in *.
  assert (Hframe : forall y, ~ in_slot hp (base_slot m) y -> mmap_cell mp y = mmap_cell (mmap m) y).
  { intros y Hy. apply Hout. rewrite Hsp in Hy by done. unfold in_pages. rewrite Hq. unfold p, q. lia. }
  assert (Hsame : forall a, c_value (mmap_cell mp (base mp + mm_pre_guard_size m + a)) =
    c_value (mmap_cell (mmap m) (base (mmap m) + mm_pre_guard_size m + a))) by (intros a; rewrite Hb; apply Hc).
  assert (Hslot : forall v, slot_below mp (mm_pre_guard_size m) (mlen mp - mm_offset_guard_size m - mm_pre_guard_size m) v None =
    with_accessible v (base_slot m)).
  { intros v. rewrite no_image_slot by done. unfold slot_below, slot_create, with_accessible. cbn. by rewrite Hb, Hlen. }
  destruct ok.
  - apply growing_grown; try done.
    + rewrite Hlen, Hb. by split_and!.
    + by rewrite Hlen.
    + apply (protected_covers m mp n Hi); [lia|done..].
    + rewrite Hslot. eapply (mapped_call hp (mmap m) mp (base_slot m) _ _ _ p q (fun _ c => {| c_access := true; c_value := c_value c; c_origin := c_origin c |}));
        [apply (i_mapped _ Hi)|done|done|exact Hrec| | |].
      * intros y. case_decide as Hy; [by apply Hin|by apply Hout].
      * cbn beta. intros x c Hx Hpx (Ho & Ha & Hv). unfold cell_ok. cbn. split_and!; [done|split; cbn; [done|]|done].
        intros _ Hge. rewrite no_image_slot in Hpx by done. cbn in Hpx. rewrite Hq in Hpx. unfold p, q in Hpx. lia.
      * cbn beta. intros x c Hx Hpx (Ho & [Ha1 Ha2] & Hv). rewrite no_image_slot in * by done. unfold cell_ok. cbn in *. rewrite Hq in Hpx. unfold p, q in Hpx.
        split_and!; [done|split; cbn; [intros; apply Ha1; lia|intros; apply Ha2; [done|lia]]|done].
  - unfold grow_to_post. cbn [fst snd].
    assert (Hm' : mapped hp mp (base_slot m) (below (len m))).
    { cbn [sys_mprotect kernel mmap_kernel] in Hfail. rewrite Hcall in Hfail. apply Hfail; [|done].
      left. rewrite no_image_slot by done. cbn. unfold p. lia. }
    destruct (grown m mp (len m) None Hi) as [Hi' He]; [lia|apply (i_page _ Hi)|apply (i_max _ Hi)|..].
    + rewrite Hlen, Hb. by split_and!.
    + rewrite Hlen. apply (i_len _ Hi).
    + apply (protected_covers m mp (len m) Hi); [pose proof (i_len _ Hi); lia|done..].
    + done.
    + rewrite Hslot. rewrite no_image_slot in Hm' |- * by done. exact Hm'.
    + intros a _. apply Hsame.
    + split; [done|]. destruct He as (_ & _ & Hold & _). split; try done. cbn. unfold mm_room. cbn. by rewrite Hlen.
Qed.

Lemma grow_in_place_ok sys m n :
  growing m n -> memory_image m = None -> rounded hp n <= mm_room m -> n + (hp - 1) < 2 ^ 64 ->
  grow_to_post m n (grow_in_place hp oc dbg sys m n (mm_room m)).
Proof.
  intros Hg Him Hroom Hfit. pose proof Hg as [Hi Hn _ Hx]. pose proof hp_pos as Hpp.
  pose proof (rounded_bounds hp n Hpp) as [Hrn _]. pose proof (rounded_bounds hp (len m) Hpp) as [Hrl _].
  pose proof (rounded_mono hp (len m) n Hpp ltac:(lia)) as Hmono. pose proof (i_len _ Hi) as [Hl0 _].
  pose proof (i_pre _ Hi) as [Hp0 _]. pose proof (i_off _ Hi) as [Ho0 _]. pose proof (i_mlen _ Hi) as (_ & Hml & _).
  pose proof (protect_in_place sys m n Hg Him Hroom) as Hprot.
  unfold grow_in_place. rewrite (proj2 (Z.ltb_lt (len m) n)) by lia. cbn [assert_ mbind outcome_bind].
  assert (match mm_maximum m with Some max => n <=? max | None => true end = true) as ->.
  { destruct (mm_maximum m) as [max|]; [|done]. apply Z.leb_le. by apply Hx. }
  cbn [assert_ mbind outcome_bind]. rewrite (proj2 (Z.leb_le n _)) by lia. cbn [assert_ mbind outcome_bind].
  unfold mm_room in Hroom.
  rewrite round_up_eq, (proj2 (Z.ltb_lt (n + (hp - 1)) _)) by lia. cbn [mbind outcome_bind].
  rewrite (proj2 (Z.leb_le (rounded hp n) _)) by (unfold mm_room; lia). cbn [assert_ mbind outcome_bind].
  unfold accessible. rewrite round_up_eq, (proj2 (Z.ltb_lt (len m + (hp - 1)) _)) by lia. cbn [unwrap_result mbind outcome_bind].
  rewrite (arith_ok oc 64 (mlen (mmap m) - mm_offset_guard_size m)) by (unfold in_u; lia). cbn [mbind outcome_bind].
  rewrite (arith_ok oc 64 (mlen (mmap m) - mm_offset_guard_size m - mm_pre_guard_size m)) by (unfold in_u; lia). cbn [mbind outcome_bind].
  rewrite debug_assert_true by (apply Z.leb_le; lia). cbn [mbind outcome_bind].
  destruct (Z.ltb_spec (rounded hp (len m)) (rounded hp n)) as [Hlt|Hge].
  - rewrite arith_ok by (unfold in_u; lia). cbn [mbind outcome_bind]. specialize (Hprot Hlt).
    by destruct (make_accessible _ _ _ _ _).
  - apply growing_grown; try done; [apply (i_mlen _ Hi)|apply (protected_covers m (mmap m) n Hi); [unfold mm_room; lia|done..]|].
    change (mlen (mmap m) - _ - _) with (mm_room m).
    replace (slot_below _ _ _ _ None) with (with_accessible n (base_slot m)) by (by rewrite no_image_slot).
    intros x Hx'. destruct (i_mapped _ Hi x Hx') as (Ho & [Ha1 Ha2] & Hv). rewrite no_image_slot in * by done.
    unfold cell_ok. cbn in *. split_and!; [done| |done]. split; cbn; [intros; apply Ha1; lia|intros; apply Ha2; [done|lia]].
Qed.

(** *** In the slot of an image *)

Lemma grow_in_slot_ok sys m s n :
  growing m n -> memory_image m = Some s -> rounded hp n <= mm_room m -> grow_to_post m n (grow_in_slot hp files sys m s n).
Proof.
  intros Hg Him Hroom. pose proof Hg as [Hi Hn _ _]. pose proof hp_pos as Hpp. pose proof (rounded_bounds hp n Hpp) as [Hrn _].
  pose proof (i_slot _ Hi) as [Hb Hs Hacc Hkeep Hok Hgd]. pose proof (i_mapped _ Hi) as Hm. pose proof (i_mlen _ Hi) as Hml.
  assert (Hbs : base_slot m = s) by (unfold base_slot, slot_below; by rewrite Him).
  fold (base_slot m) in Hb, Hs, Hacc, Hok, Hgd. rewrite Hbs in *. specialize (Hkeep s Him).
  set (c0 := {| cs_mem := mmap m; cs_slot := s; cs_queue := [] |} : cow_state Mmap).
  pose proof (@heap_limit_ok _ _ hp (mmap_laws hp files sys) Hpp c0 (below (len m)) n Hok Hm ltac:(cbn; rewrite Hs; pose proof (i_len _ Hi); lia)) as Hh.
  pose proof (heap_limit_stays sys n c0) as [Hsb Hsl]. unfold grow_in_slot, run_slot. fold c0.
  change (kernel hp files sys) with (mmap_kernel hp files sys) in Hh.
  destruct (slot_set_heap_limit n c0) as [c r]. cbn [fst snd] in *. destruct Hh as [(Hfr & _ & Hv & Hr) Hm'].
  cbn [cs_mem cs_slot c0] in *.
  assert (Hco : forall v, s_accessible (cs_slot c) = v -> images_in hp (s_image (cs_slot c)) (len m) ->
    covers (cs_mem c) (mm_pre_guard_size m) (mlen (cs_mem c) - mm_offset_guard_size m - mm_pre_guard_size m) v (Some (cs_slot c))).
  { intros v Hv' _. split; cbn; try done.
    - rewrite (fr_base _ _ _ Hfr). cbn. by rewrite Hsb.
    - rewrite (fr_size _ _ _ Hfr). cbn. by rewrite Hsl.
    - intros s' [= <-]. rewrite (fr_drop _ _ _ Hfr). done.
    - apply (fr_ok _ _ _ Hfr).
    - intros y Hy. unfold in_slot, slot_end in Hy. rewrite (fr_base _ _ _ Hfr), (fr_size _ _ _ Hfr) in Hy.
      pose proof (fr_mem _ _ _ Hfr y Hy) as Hcell. cbn in Hcell. etrans; [exact (f_equal c_access Hcell)|]. by apply Hgd. }
  assert (Himg : images_in hp (s_image (cs_slot c)) (len m)).
  { pose proof (so_image _ _ Hok) as Hi0. rewrite Hacc in Hi0. destruct r; [rewrite Hr|rewrite Hr|done]; done. }
  assert (Hval : forall a, c_value (mmap_cell (cs_mem c) (base (cs_mem c) + mm_pre_guard_size m + a)) =
    c_value (mmap_cell (mmap m) (base (mmap m) + mm_pre_guard_size m + a))) by (intros a; rewrite Hsb; apply Hv).
  destruct r as [[]|[]|]; [| |done].
  - cbn [slot_error]. apply growing_grown; try done.
    + rewrite Hsl, Hsb. done.
    + by rewrite Hsl.
    + apply Hco; [|done]. rewrite Hr. cbn. lia.
  - unfold grow_to_post. cbn [slot_error fst snd].
    destruct (grown m (cs_mem c) (len m) (Some (cs_slot c)) Hi) as [Hi' He]; [lia|apply (i_page _ Hi)|apply (i_max _ Hi)|..].
    + rewrite Hsl, Hsb. done.
    + rewrite Hsl. apply (i_len _ Hi).
    + apply Hco; [|done]. by rewrite Hr.
    + done.
    + exact Hm'.
    + intros a _. apply Hval.
    + split; [done|]. destruct He as (_ & _ & Hold & _). split; try done. cbn. unfold mm_room. cbn. by rewrite Hsl.
Qed.

(** *** By moving *)

(** A new mapping of which a range is accessible. *)
Lemma new_mapping sys pre n total :
  os_ok sys -> pre mod hp = 0 -> n mod hp = 0 -> total mod hp = 0 -> 0 <= pre -> 0 < n -> pre + n <= total ->
  match m ← accessible_reserved hp sys 0 total; on_new (make_accessible hp sys pre n) m with
  | Ok mp => mlen mp = total /\ total < 2 ^ 63 /\ base mp mod hp = 0 /\ mbytes mp = ∅ /\ morigin mp = ∅ /\
      (forall o, reachable_at mp o = true <-> pre <= o < pre + n)
  | Err _ => True
  | Panic => False
  end.
Proof.
  intros Hos Hpm Hnm Htm Hp Hn Ht. pose proof hp_pos as Hpp. unfold accessible_reserved.
  rewrite (proj2 (Z.leb_le 0 total)) by lia. rewrite !multiple_true by done. cbn [assert_ mbind outcome_bind].
  rewrite (proj2 (Z.eqb_neq total 0)) by lia. destruct (os_reserve sys total) as [b|] eqn:Hres; [|done].
  apply Hos in Hres as [Hlt Hb]. rewrite (proj2 (Z.eqb_neq 0 total)) by lia. cbn [Z.ltb Z.compare mbind outcome_bind].
  unfold on_new. rewrite make_accessible_eq by (done || cbn; lia). unfold mmap_call. cbn [base mmap_reserved].
  rewrite (proj2 (Z.eqb_eq ((b + pre) mod hp) 0)) by (by apply mod_sum). cbn [negb].
  destruct (os_protect sys (b + pre) n); [|done]. cbn. split_and!; try done. intros o. unfold reachable_at. cbn.
  replace (b + pre - b) with pre by lia. rewrite (rounded_idem hp n Hpp Hnm).
  destruct ((pre <=? o) && (o <? pre + n)) eqn:E; [rewrite andb_true_iff, Z.leb_le, Z.ltb_lt in E; tauto|].
  rewrite andb_false_iff, Z.leb_gt, Z.ltb_ge in E. split; [done|lia].
Qed.

Lemma copied_bytes src dst start end_ :
  start <= end_ -> end_ <= mlen src -> end_ <= mlen dst -> mbytes dst = ∅ ->
  exists b, copy_range src dst start end_ = Ok (with_mbytes dst b) /\
    forall o, b !! o = if decide (start <= o < end_) then mbytes src !! o else None.
Proof using Type.
  clear Hhp Hk k. intros ? ? ? He. unfold copy_range.
  rewrite (proj2 (Z.leb_le start end_)), (proj2 (Z.leb_le end_ (mlen src))), (proj2 (Z.leb_le end_ (mlen dst))) by lia.
  cbn [assert_ mbind outcome_bind]. eexists. split; [reflexivity|]. intros o. rewrite He, map_filter_empty, map_union_empty.
  rewrite map_lookup_filter. destruct (mbytes src !! o) as [v|]; cbn; [|by case_decide].
  case_decide as Ho; [by rewrite option_guard_True|by rewrite option_guard_False].
Qed.

Lemma grow_by_moving_ok sys m n :
  os_ok sys -> growing m n -> mm_room m < rounded hp n ->
  match grow_by_moving hp files oc sys m n (rounded hp n) with
  | Ok m' => grow_to_post m n (m', Ok ())
  | Err _ => True
  | Panic => False
  end.
Proof.
  intros Hos Hg Hroom. pose proof Hg as [Hi Hn _ _]. pose proof hp_pos as Hpp.
  pose proof (i_pre _ Hi) as [Hp0 Hpm]. pose proof (i_off _ Hi) as [Ho0 Hom]. pose proof (i_extra _ Hi) as [He0 Hem].
  pose proof (i_len _ Hi) as [Hl0 Hlr]. pose proof (i_mlen _ Hi) as (_ & Hml & _). pose proof (rounded_bounds hp n Hpp) as [Hrn Hrm].
  pose proof (rounded_bounds hp (len m) Hpp) as [Hrl _]. unfold grow_by_moving. rewrite checked3 by lia.
  destruct (Z.ltb_spec (mm_pre_guard_size m + rounded hp n + extra_to_reserve_on_growth m + mm_offset_guard_size m) (2 ^ 64)); [|done].
  set (req := mm_pre_guard_size m + _ + _ + _) in *. cbn [mbind outcome_bind].
  assert (Hreq : req mod hp = 0) by (unfold req; do 3 (apply mod_sum; [|done]); done).
  rewrite multiple_true by done. cbn [assert_ mbind outcome_bind].
  pose proof (new_mapping sys (mm_pre_guard_size m) (rounded hp n) req Hos Hpm Hrm Hreq Hp0 ltac:(lia) ltac:(unfold req; lia)) as Hnew.
  cbn [mbind outcome_bind] in Hnew. destruct (accessible_reserved hp sys 0 req) as [mp0|e|]; [|done..]. cbn [mbind outcome_bind] in *.
  destruct (on_new _ mp0) as [mp|e|]; [|done..]. destruct Hnew as (Hlen & Hlt & Hbm & Hbytes & Horig & Hacc). cbn [mbind outcome_bind].
  unfold mm_room in *. rewrite arith_ok by (unfold in_u; lia). cbn [mbind outcome_bind].
  destruct (copied_bytes (mmap m) mp (mm_pre_guard_size m) (mm_pre_guard_size m + len m)) as (b & -> & Hb);
    [lia|lia|rewrite Hlen; unfold req; lia|done|]. cbn [mbind outcome_bind].
  assert (Hdrop : match memory_image m with Some image => (run_slot hp files sys (fun K => slot_drop) (mmap m) image).2 | None => Ok () end = Ok ()).
  { pose proof (co_keep _ _ _ _ _ (i_slot _ Hi)) as Hkeep. destruct (memory_image m) as [s|] eqn:Him; [|done].
    unfold run_slot, slot_drop, mbind, io_bind, self. cbn [cs_slot]. by rewrite (Hkeep s eq_refl). }
  rewrite Hdrop. cbn [mbind outcome_bind].
  assert (Hcell : forall x, mmap_cell (with_mbytes mp b) (base mp + mm_pre_guard_size m + x) =
    {| c_access := bool_decide (0 <= x < rounded hp n); c_origin := 0;
       c_value := if decide (0 <= x < len m) then default 0 (mbytes (mmap m) !! (mm_pre_guard_size m + x)) else 0 |}).
  { intros x. unfold mmap_cell. cbn [base mbytes morigin with_mbytes]. replace (base mp + mm_pre_guard_size m + x - base mp) with (mm_pre_guard_size m + x) by lia.
    rewrite Horig, lookup_empty, Hb. f_equal.
    - apply eq_true_iff_eq. rewrite bool_decide_eq_true. etrans; [apply Hacc|]. lia.
    - destruct (decide (0 <= x < len m)); [rewrite decide_True by lia|rewrite decide_False by lia]; done. }
  assert (Hrr : rounded hp (req - mm_offset_guard_size m - mm_pre_guard_size m) = req - mm_offset_guard_size m - mm_pre_guard_size m).
  { apply rounded_idem; [done|]. apply mod_sum; [by apply mod_sum|done]. }
  apply growing_grown; cbn [mlen base with_mbytes]; rewrite ?Hlen; try done.
  - unfold req. lia.
  - split; cbn [slot_below default slot_create s_base s_static_size s_accessible base with_mbytes]; try done.
    + split; cbn; [by apply mod_sum|unfold req; lia|unfold req; lia|done].
    + intros y Hy. unfold in_slot, slot_end in Hy. cbn in Hy. rewrite Hrr in Hy.
      replace y with (base mp + mm_pre_guard_size m + (y - base mp - mm_pre_guard_size m)) by lia. rewrite Hcell. cbn.
      apply bool_decide_eq_false. unfold req in Hy. lia.
  - intros x Hx. cbn in Hx. rewrite Hrr in Hx. cbn [slot_below default slot_create s_base base with_mbytes].
    change (cell_at (with_mbytes mp b)) with (mmap_cell (with_mbytes mp b)). rewrite Hcell. unfold cell_ok, access_ok. cbn. split_and!; [done| | |].
    + intros Hlt'. apply bool_decide_eq_true. lia.
    + intros _ Hge. apply bool_decide_eq_false. lia.
    + unfold below. intros Hst. by rewrite decide_False by lia.
  - intros a Ha. rewrite Hcell. cbn. rewrite decide_True by done. unfold mmap_cell. cbn.
    by replace (base (mmap m) + mm_pre_guard_size m + a - base (mmap m)) with (mm_pre_guard_size m + a) by lia.
  - intros Hle. unfold mm_room in Hle. lia.
Qed.

Lemma mmap_grow_to_ok sys m n :
  os_ok sys -> growing m n -> grow_to_post m n (mmap_grow_to hp files oc dbg sys m n).
Proof.
  intros Hos Hg. pose proof Hg as [Hi Hn _ _]. pose proof (i_len _ Hi) as [Hl0 Hlr]. pose proof hp_pos as Hpp.
  pose proof (i_pre _ Hi) as [Hp0 Hpm]. pose proof (i_off _ Hi) as [Ho0 Hom]. pose proof (i_mlen _ Hi) as (Hmm & Hml & _).
  pose proof (rounded_bounds hp (len m) Hpp) as [Hrl _].
  assert (Herr : forall e, grow_to_post m n (m, Err e)) by (intros e; split; [done|apply unchanged_refl]).
  unfold mmap_grow_to. rewrite !multiple_true by done. cbn [assert_ mbind outcome_bind].
  rewrite round_up_eq by lia. destruct (Z.ltb_spec (n + (hp - 1)) (2 ^ 64)) as [Hfit|]; [|apply Herr].
  cbn [mbind outcome_bind]. unfold mm_room in Hlr.
  rewrite (arith_ok oc 64 (mlen (mmap m) - mm_offset_guard_size m)) by (unfold in_u; lia). cbn [mbind outcome_bind].
  rewrite (arith_ok oc 64 (mlen (mmap m) - mm_offset_guard_size m - mm_pre_guard_size m)) by (unfold in_u; lia). cbn [mbind outcome_bind].
  change (mlen (mmap m) - mm_offset_guard_size m - mm_pre_guard_size m) with (mm_room m).
  destruct (Z.ltb_spec (mm_room m) (rounded hp n)) as [Hbig|Hsmall].
  - pose proof (grow_by_moving_ok sys m n Hos Hg Hbig) as Hmove. destruct (grow_by_moving _ _ _ _ _ _ _); [done|apply Herr|done].
  - destruct (memory_image m) as [s|] eqn:Him; [by apply grow_in_slot_ok|by apply grow_in_place_ok].
Qed.
(** ** The growth protocol *)

Lemma page_cases m : mm_inv m ->
  Z.shiftl 1 (mm_page_size_log2 m) = 1 \/ Z.shiftl 1 (mm_page_size_log2 m) = 65536.
Proof. intros H. apply pow_page, H. Qed.

Definition page (m : MmapMemory) : Z := Z.shiftl 1 (mm_page_size_log2 m).

(** The size asked for, clamped to the last page of the address space. *)
Definition wanted (m : MmapMemory) (delta : Z) : Z := Z.min (len m + delta * page m) (2 ^ 64 - page m).

Lemma wanted_eq m delta :
  mm_inv m -> in_u 64 delta ->
  Z.min (Z.min u64_max (Z.min u64_max (delta * page m) + len m)) ((0 - page m) mod 2 ^ 64) = wanted m delta.
Proof.
  intros Hi Hd. pose proof (page_cases m Hi) as Hp. fold (page m) in Hp. unfold in_u in Hd.
  pose proof (i_len _ Hi) as Hlen.
  assert ((0 - page m) mod 2 ^ 64 = 2 ^ 64 - page m) as ->.
  { symmetry. apply (Z.mod_unique _ _ (-1)); lia. }
  unfold wanted, u64_max. destruct Hp as [-> | ->]; lia.
Qed.

Lemma len_small m : mm_inv m -> 0 <= len m < 2 ^ 63.
Proof.
  intros [Hpre Hoff _ Hml Hlen _ _ _ _ _]. pose proof (rounded_bounds hp (len m) hp_pos).
  unfold mm_room in Hlen. lia.
Qed.

Lemma wanted_ok m delta :
  mm_inv m -> in_u 64 delta -> delta <> 0 ->
  len m < wanted m delta < 2 ^ 64 /\ wanted m delta mod page m = 0.
Proof.
  intros Hi Hd Hne. pose proof (page_cases m Hi) as Hp. fold (page m) in Hp. unfold in_u in Hd.
  pose proof (len_small m Hi). pose proof (i_len _ Hi) as Hlen. pose proof (i_page _ Hi) as Hpg. fold (page m) in Hpg.
  unfold wanted. split; [destruct Hp as [-> | ->]; lia|].
  destruct (Z.min_spec (len m + delta * page m) (2 ^ 64 - page m)) as [[_ ->]|[_ ->]].
  - rewrite Z.mod_add; [done|]. destruct Hp as [-> | ->]; lia.
  - destruct Hp as [-> | ->]; by vm_compute.
Qed.


Section Protocol.
  Context {L : Type} `{!ResourceLimiter L}.

(** The limiter does not panic. *)
Definition limiter_ok : Prop :=
  (forall l c d mx, (memory_growing l c d mx).2 <> Panic) /\ forall l e, (memory_grow_failed l e).2 <> Panic.

Definition grow_post (m : MmapMemory) (delta : Z)
    (p : MmapMemory * option (option L) * outcome mem_error (option (Z * Z))) : Prop :=
  match p with
  | (m', _, Ok (Some (o, n))) =>
      o = len m /\ n = len m + delta * page m /\ len m' = n /\ mm_inv m' /\ extends m m' /\
      page m' = page m /\ mm_maximum m' = mm_maximum m /\
      (n <= mm_room m -> mm_room m mod hp = 0 -> base (mmap m') = base (mmap m) /\ mm_room m' = mm_room m)
  | (m', _, Ok None) | (m', _, Err _) => mm_inv m' /\ unchanged m m'
  | (_, _, Panic) => False
  end.

Lemma report_failure_post m m' delta store e :
  limiter_ok -> mm_inv m' -> unchanged m m' -> grow_post m delta (report_failure m' store e).
Proof.
  intros [_ Hf] Hi Hu. unfold report_failure. destruct store as [[l|]|]; cbn; [|done|done].
  specialize (Hf l e). by destruct (memory_grow_failed l e) as [l' [| |]].
Qed.

Lemma extends_refl m : extends m m.
Proof. repeat split; try done. intros a Ha. lia. Qed.

Lemma memory_grow_ok sys m delta (store : option (option L)) :
  os_ok sys -> limiter_ok -> mm_inv m -> in_u 64 delta ->
  grow_post m delta (grow (RuntimeLinearMemory0 := MmapMemory_rlm hp files oc dbg sys) dbg m delta store).
Proof.
  intros Hos Hl Hi Hd. unfold grow. cbn [byte_size rlm_page_size_log2 rlm_maximum_byte_size grow_to MmapMemory_rlm].
  destruct (Z.eqb_spec delta 0) as [->|Hne].
  { cbn. split_and!; try done; [lia|apply extends_refl]. }
  rewrite page_size_of_ok by apply Hi. fold (page m). rewrite wanted_eq by done.
  destruct (wanted_ok m delta Hi Hd Hne) as [Hw Hwp].
  assert (Hgrow : forall st, (match mm_maximum m with Some max => max <? wanted m delta | None => false end) = false ->
    grow_post m delta
      match mmap_grow_to hp files oc dbg sys m (wanted m delta) with
      | (m', Ok _) => (m', st, Ok (Some (len m, wanted m delta)))
      | (m', Err e) => report_failure m' st e
      | (m', Panic) => (m', st, Panic)
      end).
  { intros st Hmax. assert (Hgr : growing m (wanted m delta)).
    { split; [done|done|done|]. intros max Hm. rewrite Hm in Hmax. apply Z.ltb_ge in Hmax. lia. }
    pose proof (mmap_grow_to_ok sys m (wanted m delta) Hos Hgr) as Hg. unfold grow_to_post in Hg.
    destruct (mmap_grow_to hp files oc dbg sys m (wanted m delta)) as [m' [[]|e|]] eqn:He; cbn [fst snd] in Hg; [| |done].
    - destruct Hg as (Hi' & Hex & Hlen & Hmx & Hlog & Hstay).
      assert (Heq : wanted m delta = len m + delta * page m).
      { pose proof (len_small m' Hi'). unfold wanted in *.
        pose proof (page_cases m Hi) as Hp. fold (page m) in Hp. destruct Hp as [Hp|Hp]; rewrite Hp in *; lia. }
      cbn. split_and!; try done; [unfold page; by rewrite Hlog|]. intros Hle Hrm. apply Hstay.
      rewrite <- (rounded_idem hp (mm_room m) hp_pos Hrm). apply rounded_mono; [apply hp_pos|lia].
    - destruct Hg. by apply report_failure_post. }
  assert (Hrest : forall st, grow_post m delta
    (if match mm_maximum m with Some max => max <? wanted m delta | None => false end
     then report_failure m st MaximumExceeded
     else match mmap_grow_to hp files oc dbg sys m (wanted m delta) with
          | (m', Ok _) => (m', st, Ok (Some (len m, wanted m delta)))
          | (m', Err e) => report_failure m' st e
          | (m', Panic) => (m', st, Panic)
          end)).
  { intros st. destruct (match mm_maximum m with Some _ => _ | None => _ end) eqn:Hmax; [|by apply Hgrow].
    apply report_failure_post; [done|done|apply unchanged_refl]. }
  destruct store as [[l|]|]; cbn [store_memory_growing]; [|exact (Hrest _)..].
  pose proof (proj1 Hl l (len m) (wanted m delta) (mm_maximum m)) as Hg.
  destruct (memory_growing l (len m) (wanted m delta) (mm_maximum m)) as [l' [[]|e|]];
    [exact (Hrest _)|by split; [|apply unchanged_refl]|by split; [|apply unchanged_refl]|done].
Qed.
End Protocol.
End Growth.

(** ** Creating a memory *)

(** What validation ensures of a memory type. *)
Record type_ok (m : Memory) : Prop := {
  t_min : in_u 64 (minimum m);
  t_max : forall max, maximum m = Some max -> minimum m <= max /\ in_u 64 max;
  t_log2 : page_size_log2 m = 0 \/ page_size_log2 m = 16
}.

Definition ty_page (m : Memory) : Z := Z.shiftl 1 (page_size_log2 m).
Definition min_bytes (m : Memory) : option Z := checked 64 (minimum m * ty_page m).
Definition max_bytes (m : Memory) : option Z :=
  match maximum m with
  | Some max => checked 64 (max * ty_page m)
  | None =>
      if min_bytes m is Some min
      then Some (Z.max min (if memory64 m then 2 ^ 64 - ty_page m else WASM32_MAX_SIZE))
      else None
  end.

Lemma ty_page_cases m : type_ok m -> ty_page m = 1 \/ ty_page m = 65536.
Proof. intros H. apply pow_page, H. Qed.

Lemma page_size_eq {E} dbg m : type_ok m -> page_size (E:=E) dbg m = Ok (ty_page m).
Proof. intros H. apply page_size_of_ok, H. Qed.

Lemma minimum_eq {E} dbg m : type_ok m -> minimum_byte_size (E:=E) dbg m = Ok (min_bytes m).
Proof. intros H. unfold minimum_byte_size. by rewrite page_size_eq. Qed.

Lemma maximum_eq {E} dbg m : type_ok m -> maximum_byte_size (E:=E) dbg m = Ok (max_bytes m).
Proof.
  intros H. unfold maximum_byte_size, max_bytes. destruct (maximum m).
  - by rewrite page_size_eq.
  - rewrite minimum_eq by done. cbn. destruct (min_bytes m); [|done].
    unfold max_size_based_on_index_type. destruct (memory64 m); [|done]. rewrite page_size_eq by done. cbn.
    do 4 f_equal. symmetry. apply (Z.mod_unique _ _ (-1)); destruct (ty_page_cases m H) as [-> | ->]; lia.
Qed.

(** Multiples of the page size stay below the last page. *)
Lemma page_bound p z : p = 1 \/ p = 65536 -> z mod p = 0 -> z < 2 ^ 64 -> z <= 2 ^ 64 - p.
Proof.
  intros Hp Hm Hz. destruct Hp as [-> | ->]; [lia|]. apply Z.div_exact in Hm; [|lia].
  change (2 ^ 64) with (281474976710656 * 65536) in *. lia.
Qed.

Lemma min_bytes_Some m s : type_ok m -> min_bytes m = Some s ->
  s = minimum m * ty_page m /\ 0 <= s <= 2 ^ 64 - ty_page m /\ s mod ty_page m = 0.
Proof.
  intros Ht Hs. apply checked_Some in Hs as [[Hs0 Hs] ->]. pose proof (ty_page_cases m Ht) as Hp.
  assert (Hm : (minimum m * ty_page m) mod ty_page m = 0) by (apply Z.mod_mul; lia).
  split_and!; [done|done|by apply page_bound|done].
Qed.

Lemma max_bytes_Some m s : type_ok m -> max_bytes m = Some s ->
  s <= 2 ^ 64 - ty_page m /\ exists min, min_bytes m = Some min /\ min <= s.
Proof.
  intros Ht Hs. pose proof (ty_page_cases m Ht) as Hp. unfold max_bytes in Hs.
  destruct (maximum m) as [max|] eqn:Hm.
  - apply checked_Some in Hs as [[Hs0 Hs] ->]. split; [apply page_bound; [done| |done]; apply Z.mod_mul; lia|].
    destruct (t_max _ Ht max Hm) as [Hle Hu]. destruct (t_min _ Ht) as [H0 _]. unfold in_u in Hu.
    exists (minimum m * ty_page m). split; [apply checked_Some; unfold in_u; split; [nia|done]|nia].
  - destruct (min_bytes m) as [min|] eqn:Hmin; [|done]. injection Hs as <-.
    destruct (min_bytes_Some m min Ht Hmin) as (_ & Hb & _). split; [|exists min; split; [done|lia]].
    change WASM32_MAX_SIZE with (2 ^ 32). destruct (memory64 m); destruct Hp as [Hp | Hp]; rewrite Hp in *; lia.
Qed.

Section Creation.
  Context (hp : Z) (files : Z -> Z -> Z) (oc dbg : bool) (k : Z) (Hk : 0 <= k < 64) (Hhp : hp = 2 ^ k).
  Context {L : Type} `{!ResourceLimiter L}.

(** The limits of a valid type: no panic, and the sizes in bytes. *)
Lemma limit_new_ok plan (store : option (option L)) :
  limiter_ok (L:=L) -> type_ok (memory plan) ->
  match (limit_new dbg plan store).2 with
  | Ok (min, max) => min_bytes (memory plan) = Some min /\ max = max_bytes (memory plan)
  | Err _ => True
  | Panic => False
  end.
Proof using Type.
  clear Hhp Hk k.
  intros [Hg _] Ht. unfold limit_new. rewrite page_size_eq, minimum_eq by done. cbn [mbind outcome_bind].
  assert (Habs : (0 - ty_page (memory plan)) mod 2 ^ 64 = 2 ^ 64 - ty_page (memory plan)).
  { symmetry. apply (Z.mod_unique _ _ (-1)); destruct (ty_page_cases _ Ht) as [-> | ->]; lia. }
  rewrite Habs.
  assert (match min_bytes (memory plan) with Some s => s <=? 2 ^ 64 - ty_page (memory plan) | None => true end = true) as ->.
  { destruct (min_bytes _) as [s|] eqn:Hs; [|done]. apply Z.leb_le. pose proof (min_bytes_Some _ s Ht Hs). lia. }
  cbn [assert_ mbind outcome_bind]. rewrite maximum_eq by done. cbn [mbind outcome_bind].
  assert (match max_bytes (memory plan) with Some s => s <=? 2 ^ 64 - ty_page (memory plan) | None => true end = true) as ->.
  { destruct (max_bytes _) as [s|] eqn:Hs; [|done]. apply Z.leb_le. apply (max_bytes_Some _ s Ht Hs). }
  cbn [assert_ mbind outcome_bind].
  assert (Hend : forall a, a <> Panic -> match
      (allowed ← a; if allowed : bool
         then minimum ← ok_or MinimumExceedsLimits (min_bytes (memory plan)); Ok (minimum, max_bytes (memory plan))
         else Err MinimumExceedsLimits) with
    | Ok (min, max) => min_bytes (memory plan) = Some min /\ max = max_bytes (memory plan)
    | Err _ => True
    | Panic => False end).
  { intros [[]|e|]; cbn; try done. by destruct (min_bytes (memory plan)). }
  destruct store as [[l|]|]; [|destruct (shared (memory plan)); by apply Hend|by apply Hend]. destruct (shared (memory plan)); [by apply Hend|].
  cbn [store_memory_growing]. specialize (Hg l 0 (default (2 ^ 64 - ty_page (memory plan)) (min_bytes (memory plan))) (max_bytes (memory plan))).
  destruct (memory_growing _ _ _ _) as [l' r]. by apply Hend.
Qed.

Record plan_ok (plan : MemoryPlan) : Prop := {
  p_type : type_ok (memory plan);
  p_guards : 0 <= pre_guard_size plan /\ 0 <= offset_guard_size plan;
  p_style : match style plan with
            | Dynamic reserve => 0 <= reserve
            | Static b => 0 <= b /\ forall s, min_bytes (memory plan) = Some s -> s <= b
            end
}.

(** A memory whose maximum fits between its guards: it never has to move. *)
Definition fixed (m : MmapMemory) : Prop := exists max, mm_maximum m = Some max /\ max <= mm_room m.

(** The byte that an image has at an address of the memory; [None] is no image. *)
Definition image_at (image : option MemoryImage) (a : Z) : Z := image_byte (Kernel0 := pages hp files) image a.

Abbreviation page_images := (images_in hp).

Definition new_post (plan : MemoryPlan) (min : Z) (image : option MemoryImage) (r : outcome mem_error MmapMemory) : Prop :=
  match r with
  | Ok m =>
      mm_inv hp files m /\ len m = min /\ page m = ty_page (memory plan) /\
      (forall a, 0 <= a < min -> load m a = Some (image_at image a)) /\
      (memory_image m = None <-> image = None) /\
      (match style plan with Static _ => fixed m | Dynamic _ => True end)
  | Err _ => True
  | Panic => False
  end.

(** The reservation, of which the first bytes are accessible. *)
Lemma reserved_pages sys pre min req :
  os_ok hp sys -> 0 <= pre -> pre mod hp = 0 -> req mod hp = 0 -> 0 <= min < 2 ^ 64 -> pre + rounded hp min <= req ->
  match m ← accessible_reserved hp sys 0 req;
        (if 0 <? min then
           accessible ← round_usize_up_to_host_pages hp dbg min;
           on_new (make_accessible hp sys pre accessible) m
         else Ok m) with
  | Ok mp => mlen mp = req /\ req < 2 ^ 63 /\ base mp mod hp = 0 /\ mbytes mp = ∅ /\ morigin mp = ∅ /\
      (forall o, reachable_at mp o = true <-> pre <= o < pre + rounded hp min)
  | Err _ => True
  | Panic => False
  end.
Proof.
  intros Hos Hp Hpm Hrm Hmin Hfit. pose proof (hp_pos hp k Hk Hhp) as Hpp. pose proof (rounded_bounds hp min Hpp) as [Hrb Hrbm].
  destruct (Z.ltb_spec 0 min) as [Hpos|Hz].
  - pose proof (new_mapping hp files k Hk Hhp sys pre (rounded hp min) req Hos Hpm Hrbm Hrm Hp ltac:(lia) Hfit) as Hn.
    destruct (accessible_reserved hp sys 0 req) as [mp|e|]; [|done..]. cbn [mbind outcome_bind] in *.
    rewrite (round_up_eq hp dbg k Hk Hhp) by lia. destruct (_ <? _); [|done]. exact Hn.
  - assert (min = 0) as -> by lia. assert (Hr0 : rounded hp 0 = 0) by (apply (rounded_idem hp 0 Hpp), Z.mod_0_l; lia). rewrite Hr0.
    unfold accessible_reserved. rewrite (proj2 (Z.leb_le 0 req)) by lia. rewrite !multiple_true by (done || apply Z.mod_0_l; lia).
    cbn [assert_ mbind outcome_bind].
    assert (Hnone : forall o, false = true <-> pre <= o < pre + 0) by (intros o; split; [done|lia]).
    destruct (Z.eqb_spec req 0) as [->|Hne].
    + cbn. split_and!; try done. by apply Z.mod_same; lia.
    + destruct (os_reserve sys req) as [b|] eqn:Hres; [|done]. apply Hos in Hres as [Hlt Hb].
      rewrite (proj2 (Z.eqb_neq 0 req)) by lia. cbn. split_and!; done.
Qed.

Lemma fresh_slot_mapped mp pre room n off :
  mbytes mp = ∅ -> morigin mp = ∅ -> (forall o, reachable_at mp o = true <-> pre <= o < pre + rounded hp n) ->
  base mp mod hp = 0 -> pre mod hp = 0 -> room mod hp = 0 -> 0 <= n -> rounded hp n <= room -> room < 2 ^ 63 -> off = base mp + pre ->
  covers hp mp pre room n None /\ mapped (Kernel0 := pages hp files) hp mp (slot_create off n room) clean.
Proof.
  intros Hby Hor Hacc Hb Hp Hr Hn Hfit Hlt ->. pose proof (hp_pos hp k Hk Hhp) as Hpp. pose proof (rounded_bounds hp n Hpp) as [Hrb _].
  pose proof (rounded_idem hp room Hpp Hr) as Hrr.
  assert (Hcell : forall x, mmap_cell mp (base mp + pre + x) = {| c_access := bool_decide (0 <= x < rounded hp n); c_value := 0; c_origin := 0 |}).
  { intros x. unfold mmap_cell. replace (base mp + pre + x - base mp) with (pre + x) by lia. rewrite Hby, Hor, !lookup_empty. f_equal.
    apply eq_true_iff_eq. rewrite bool_decide_eq_true, Hacc. lia. }
  split.
  - split; try done.
    + split; cbn; [by apply (mod_sum hp k Hk Hhp)|lia|lia|done].
    + intros y Hy. unfold in_slot, slot_end in Hy. cbn in Hy. rewrite Hrr in Hy.
      replace y with (base mp + pre + (y - base mp - pre)) by lia. rewrite Hcell. apply bool_decide_eq_false. lia.
  - intros x Hx. cbn in Hx. rewrite Hrr in Hx. cbn [slot_create s_base]. change (cell_at mp) with (mmap_cell mp). rewrite Hcell.
    unfold cell_ok, access_ok. cbn. split_and!; try done; intros; [apply bool_decide_eq_true|apply bool_decide_eq_false]; lia.
Qed.

(** On a slot that was just created for [n] bytes, placing the image is all there is to do. *)
Lemma instantiate_fresh `{K : !Kernel Mmap} mp b n size i plan :
  n <= size ->
  let c0 := {| cs_mem := mp; cs_slot := slot_create b n size; cs_queue := [] |} in
  slot_instantiate n (Some i) plan c0 = (place_image n (Some i) ≫= fun _ => update (with_dirty true)) c0.
Proof using Type.
  clear Hhp Hk k. intros Hn c0. unfold slot_instantiate, remove_image, grow_accessible, shrink_accessible, mbind, io_bind, self, lift, c0.
  cbn [cs_slot slot_create s_dirty s_static_size s_image s_accessible negb assert_]. rewrite (proj2 (Z.leb_le n size)) by done. cbn [assert_].
  rewrite decide_False by done. unfold mret, io_ret. cbn [cs_slot slot_create s_accessible s_image]. rewrite Z.ltb_irrefl. cbn [andb cs_slot slot_create s_accessible].
  rewrite ?Z.ltb_irrefl. cbn [andb cs_slot slot_create s_accessible]. rewrite Z.leb_refl. done.
Qed.

Lemma map_image_ok sys plan mp pre room n image :
  covers hp mp pre room n None -> mapped (Kernel0 := pages hp files) hp mp (slot_create (base mp + pre) n room) clean ->
  0 <= n <= room -> page_images image n ->
  match map_image hp files sys plan n pre room mp image with
  | Ok (mp', slot) =>
      base mp' = base mp /\ mlen mp' = mlen mp /\ covers hp mp' pre room n slot /\
      mapped (Kernel0 := pages hp files) hp mp' (slot_below mp' pre room n slot) clean /\
      s_image (slot_below mp' pre room n slot) = image /\ (slot = None <-> image = None)
  | Err _ => True
  | Panic => False
  end.
Proof.
  intros Hco Hm Hn Him. pose proof (hp_pos hp k Hk Hhp) as Hpp. unfold map_image. destruct image as [i|]; [|done].
  unfold run_slot. rewrite (instantiate_fresh (K := mmap_kernel hp files sys)) by lia.
  set (s := slot_create (base mp + pre) n room) in *. set (c0 := {| cs_mem := mp; cs_slot := s; cs_queue := [] |} : cow_state Mmap).
  pose (K := mmap_kernel hp files sys).
  pose proof (@wp_place_image _ K hp (mmap_laws hp files sys) Hpp c0 c0 n (Some i)
    (fun _ st' => framed hp c0 st' /\ cs_slot st' = with_image (Some i) s /\ mapped hp (cs_mem st') (cs_slot st') clean)) as Hw.
  pose proof (place_image_stays hp files sys n (Some i) c0) as [Hsb Hsl].
  assert (Hwp : wp hp c0 (place_image n (Some i))
    (fun _ st' => framed hp c0 st' /\ cs_slot st' = with_image (Some i) s /\ mapped hp (cs_mem st') (cs_slot st') clean) c0).
  { apply Hw; [apply framed_refl; exact (co_ok _ _ _ _ _ _ Hco)|exact Hm|by right|cbn; lia|exact Him|]. by intros st' H1 H2 _ H3. }
  unfold wp in Hwp. unfold mbind, io_bind, update. cbn [cs_mem cs_slot c0] in Hsb, Hsl. fold K in Hsb, Hsl |- *.
  destruct (place_image n (Some i) c0) as [c [[]|[]|]]; cbn [fst] in Hsb, Hsl; [|done..].
  destruct Hwp as (Hfr & Hs & Hm'). cbn [slot_error cs_mem cs_slot mbind outcome_bind]. rewrite Hs in *.
  assert (Hin : forall y, in_slot hp (no_clear_on_drop (with_dirty true (with_image (Some i) s))) y <-> in_slot hp s y) by done.
  split_and!; try done.
  - destruct Hco as [_ _ _ _ [Hb1 Hb2 Hb3 _] Hg]. split; cbn; try done.
    + by rewrite Hsb.
    + by intros s' [= <-].
    + intros y Hy. pose proof (fr_mem _ _ _ Hfr y Hy) as Hc. etrans; [exact (f_equal c_access Hc)|]. by apply Hg.
Qed.

(** The reservation of the guards, the allocation and the room for growth. *)
Lemma allocate_ok sys plan min max image pre off alloc extra :
  os_ok hp sys -> plan_ok plan -> min_bytes (memory plan) = Some min -> page_images image min ->
  0 <= pre /\ pre mod hp = 0 -> 0 <= off /\ off mod hp = 0 -> 0 <= extra /\ extra mod hp = 0 ->
  alloc mod hp = 0 -> rounded hp min <= alloc ->
  (forall mx, max = Some mx -> min <= mx) ->
  (match style plan with Static _ => exists mx, max = Some mx /\ mx <= alloc | Dynamic _ => True end) ->
  new_post plan min image
    (assert_ (usize_is_multiple_of_host_page_size hp alloc);;
     request_bytes ← ok_or AllocationOverflow
       (a ← checked 64 (pre + alloc); b ← checked 64 (a + extra); checked 64 (b + off));
     assert_ (usize_is_multiple_of_host_page_size hp request_bytes);;
     m ← accessible_reserved hp sys 0 request_bytes;
     m ← (if 0 <? min then
            accessible ← round_usize_up_to_host_pages hp dbg min;
            on_new (make_accessible hp sys pre accessible) m
          else Ok m);
     static_size ← match image with Some _ => arith oc 64 (alloc + extra) | None => Ok 0 end;
     '(m, slot) ← map_image hp files sys plan min pre static_size m image;
     Ok {| mmap := m; len := min; mm_maximum := max; mm_page_size_log2 := page_size_log2 (memory plan);
           mm_pre_guard_size := pre; mm_offset_guard_size := off;
           extra_to_reserve_on_growth := extra; memory_image := slot |}).
Proof.
  intros Hos Hp Hmin Himg Hpre Hoff Hex Hal Hral Hmx Hst. pose proof (hp_pos hp k Hk Hhp) as Hpp.
  destruct (min_bytes_Some _ _ (p_type _ Hp) Hmin) as (_ & Hmb & Hmp).
  assert (Hm64 : min < 2 ^ 64) by (destruct (ty_page_cases _ (p_type _ Hp)) as [Ht|Ht]; rewrite Ht in Hmb; lia).
  pose proof (rounded_bounds hp min Hpp) as [Hrm Hrmm].
  rewrite multiple_true by done. cbn [assert_ mbind outcome_bind]. rewrite checked3 by lia.
  destruct (Z.ltb_spec (pre + alloc + extra + off) (2 ^ 64)) as [Hlt|]; [|done].
  set (req := pre + alloc + extra + off) in *. cbn [mbind outcome_bind].
  assert (Hreq : req mod hp = 0) by (unfold req; do 3 (apply (mod_sum hp k Hk Hhp); [|tauto]); tauto).
  rewrite multiple_true by done. cbn [assert_ mbind outcome_bind].
  pose proof (reserved_pages sys pre min req Hos ltac:(lia) ltac:(tauto) Hreq ltac:(lia) ltac:(unfold req; lia)) as Hres.
  destruct (accessible_reserved hp sys 0 req) as [mp0|e|]; [|done..]. cbn [mbind outcome_bind] in *.
  destruct (if 0 <? min then _ else _) as [mp|e|]; [|done..]. destruct Hres as (Hlen & Hr63 & Hb & Hby & Hor & Hacc). cbn [mbind outcome_bind].
  assert (Hroom : alloc + extra = req - off - pre) by (unfold req; lia).
  assert (Hroomm : (req - off - pre) mod hp = 0) by (apply (mod_sum hp k Hk Hhp); [apply (mod_sum hp k Hk Hhp)|]; tauto).
  destruct (fresh_slot_mapped mp pre (req - off - pre) min (base mp + pre) Hby Hor Hacc Hb ltac:(tauto) Hroomm ltac:(lia) ltac:(lia) ltac:(lia) eq_refl) as [Hco Hm].
  pose proof (map_image_ok sys plan mp pre (req - off - pre) min image Hco Hm ltac:(lia) Himg) as Hmap.
  assert (Hsame : (static_size ← match image with Some _ => arith oc 64 (alloc + extra) | None => Ok 0 end;
    map_image hp files sys plan min pre static_size mp image) = map_image hp files sys plan min pre (req - off - pre) mp image).
  { destruct image as [i|]; [|done]. rewrite arith_ok by (unfold in_u; unfold req in Hr63; lia). cbn [mbind outcome_bind]. by rewrite Hroom. }
  revert Hsame. destruct (match image with Some _ => _ | None => _ end) as [ss|e|]; cbn [mbind outcome_bind]; intros Hsame;
    [|done|by rewrite <- Hsame in Hmap]. rewrite Hsame.
  destruct (map_image hp files sys plan min pre (req - off - pre) mp image) as [[mp' slot]|e'|]; [|done..].
  destruct Hmap as (Hb' & Hl' & Hco' & Hm' & Hsi & Hnone). cbn [mbind outcome_bind new_post].
  set (m := {| mmap := mp'; len := min; mm_maximum := max; mm_page_size_log2 := _; mm_pre_guard_size := pre; mm_offset_guard_size := off;
    extra_to_reserve_on_growth := extra; memory_image := slot |}).
  assert (Hrm' : mm_room m = req - off - pre) by (unfold mm_room; cbn; by rewrite Hl', Hlen).
  assert (Hi : mm_inv hp files m).
  { split; try done; [cbn; rewrite Hl', Hlen, Hb'; by split_and!|cbn [len m]; rewrite Hrm'; lia|apply (p_type _ Hp)|cbn [mmap m mm_pre_guard_size len memory_image]; by rewrite Hrm'|].
    unfold base_slot. cbn [mmap m mm_pre_guard_size len memory_image]. rewrite Hrm'. by eapply mapped_weaken. }
  split_and!; try done.
  - intros a Ha. rewrite (load_Some hp files k Hk Hhp m a Hi) by (cbn; lia). f_equal. cbn [mmap m mm_pre_guard_size].
    destruct (Hm' a) as (Ho & _ & Hv); [rewrite (co_size _ _ _ _ _ _ Hco'), (rounded_idem hp _ Hpp Hroomm); lia|].
    rewrite (co_base _ _ _ _ _ _ Hco') in Ho, Hv. change (cell_at mp') with (mmap_cell mp') in Ho, Hv. rewrite Hv, Ho, Hsi; [done|]. by intros [].
  - destruct (style plan); [done|]. destruct Hst as (mx & Hmx' & Hle). exists mx. split; [done|]. rewrite Hrm'. lia.
Qed.

Lemma mmap_memory_new_ok sys plan min image :
  os_ok hp sys -> plan_ok plan -> min_bytes (memory plan) = Some min -> page_images image min ->
  new_post plan min image (mmap_memory_new hp files oc dbg sys plan min (max_bytes (memory plan)) image).
Proof.
  intros Hos Hp Hmin Himg. pose proof (hp_pos hp k Hk Hhp) as Hpp. pose proof Hp as [Ht [Hg1 Hg2] Hst].
  destruct (min_bytes_Some _ _ Ht Hmin) as (_ & Hmb & Hmp).
  assert (Hmax : forall mx, max_bytes (memory plan) = Some mx -> min <= mx).
  { intros mx Hm. destruct (max_bytes_Some _ _ Ht Hm) as (_ & m' & Hm' & Hle). congruence. }
  assert (Hru : forall z, 0 <= z -> exists r, round_usize_up_to_host_pages hp dbg z = r /\
     (r = Err RoundOverflow \/ r = Ok (rounded hp z)) /\ 0 <= rounded hp z /\ rounded hp z mod hp = 0).
  { intros z Hz. pose proof (rounded_bounds hp z Hpp). eexists. split; [reflexivity|].
    rewrite (round_up_eq hp dbg k Hk Hhp) by lia. split; [destruct (_ <? _); auto|lia]. }
  unfold mmap_memory_new.
  destruct (Hru _ Hg2) as (r1 & -> & [->| ->] & Ho); [done|]. cbn [mbind outcome_bind].
  destruct (Hru _ Hg1) as (r2 & -> & [->| ->] & Hpr); [done|]. cbn [mbind outcome_bind].
  destruct (style plan) as [reserve|b] eqn:Hstyle.
  - destruct (Hru min) as (r3 & Hr3 & Hcase & Hm); [lia|]. rewrite Hr3 at 1. destruct Hcase as [->| ->]; [done|].
    cbn [mbind outcome_bind]. destruct (Hru reserve) as (r4 & -> & [->| ->] & Hr); [lia|done|].
    cbn [mbind outcome_bind]. apply allocate_ok; try done; [tauto|]. by rewrite Hstyle.
  - rewrite minimum_eq, Hmin by done. cbn [unwrap mbind outcome_bind]. destruct Hst as [Hb Hle].
    specialize (Hle min Hmin). rewrite (proj2 (Z.leb_le min b)) by done. cbn [assert_ mbind outcome_bind].
    destruct (Hru b) as (r4 & -> & [->| ->] & Hr); [lia|done|]. cbn [mbind outcome_bind].
    pose proof (rounded_bounds hp b Hpp) as [Hrb _].
    apply allocate_ok; try done; [tauto|..].
    + apply rounded_mono; lia.
    + intros mx [= <-]. destruct (max_bytes (memory plan)) as [x|] eqn:Hx; cbn; [specialize (Hmax x eq_refl); lia|].
      unfold u64_max. destruct (ty_page_cases _ Ht) as [Hpg|Hpg]; rewrite Hpg in *; lia.
    + rewrite Hstyle. eexists. split; [reflexivity|lia].
Qed.
End Creation.

(** ** Properties *)

(** A store of compiled code to an address in bounds. *)
Definition store_byte (m : MmapMemory) (a v : Z) : MmapMemory :=
  with_mmap m (with_mbytes (mmap m) (<[mm_pre_guard_size m + a := v]> (mbytes (mmap m)))) (len m) (memory_image m).

Lemma store_byte_inv hp files m a v : mm_inv hp files m -> 0 <= a < len m -> mm_inv hp files (store_byte m a v).
Proof.
  intros Hi Ha. pose proof (co_base _ _ _ _ _ _ (i_slot _ _ _ Hi)) as Hb. fold (base_slot m) in Hb.
  pose proof (i_mapped _ _ _ Hi) as Hm. destruct Hi as [? ? ? ? ? ? ? ? [? ? ? ? ? ?] _]. split; try done.
  intros x Hx. destruct (Hm x Hx) as (Ho & Hacc & Hv). change (base_slot (store_byte m a v)) with (base_slot m).
  split_and!; [exact Ho|exact Hacc|]. intros Hst. transitivity (c_value (mmap_cell (mmap m) (s_base (base_slot m) + x))); [|exact (Hv Hst)].
  cbn -[Z.add base_slot]. rewrite Hb, lookup_insert_ne; [done|]. unfold below in Hst. cbn in Hst. lia.
Qed.

Lemma limits_limiter_ok : limiter_ok (L := StoreLimits).
Proof.
  split; intros; cbn.
  - unfold limits_memory_growing. cbn. by destruct (_ && _).
  - unfold limits_memory_grow_failed. cbn. by destruct (trap_on_grow_failure l).
Qed.

(** An image that a memory can start with: whole pages, within its first size. *)
Definition image_fits (hp : Z) (plan : MemoryPlan) (image : option MemoryImage) : Prop :=
  forall min, min_bytes (memory plan) = Some min -> images_in hp image min.

(** The memories of a store with limits: created, grown and written to. *)
Inductive lives (hp : Z) (files : Z -> Z -> Z) (oc dbg : bool) : MmapMemory -> Prop :=
| lives_new sys plan image (store : option StoreLimits) store' m :
    os_ok hp sys -> plan_ok plan -> image_fits hp plan image ->
    new_dynamic hp files oc dbg sys plan image store = (store', Ok m) -> lives hp files oc dbg m
| lives_grow sys m delta (store : option (option StoreLimits)) m' store' r :
    lives hp files oc dbg m -> os_ok hp sys -> in_u 64 delta ->
    grow (RuntimeLinearMemory0 := MmapMemory_rlm hp files oc dbg sys) dbg m delta store = (m', store', r) ->
    lives hp files oc dbg m'
| lives_store m a v : lives hp files oc dbg m -> 0 <= a < len m -> lives hp files oc dbg (store_byte m a v).

Section Properties.
  Context (hp : Z) (files : Z -> Z -> Z) (oc dbg : bool) (k : Z) (Hk : 0 <= k < 64) (Hhp : hp = 2 ^ k).

Lemma new_dynamic_post {L} `{!ResourceLimiter L} sys plan image (store : option L) :
  limiter_ok (L:=L) -> os_ok hp sys -> plan_ok plan -> image_fits hp plan image ->
  match (new_dynamic hp files oc dbg sys plan image store).2 with
  | Ok m => exists min, min_bytes (memory plan) = Some min /\ new_post hp files plan min image (Ok m)
  | Err _ => True
  | Panic => False
  end.
Proof.
  intros Hl Hos Hp Him. unfold new_dynamic.
  pose proof (limit_new_ok dbg plan (Some store) Hl (p_type _ Hp)) as Hlim.
  destruct (limit_new dbg plan (Some store)) as [st [[min max]|e|]]; cbn in *; [|done|done].
  destruct Hlim as [Hmin ->].
  pose proof (mmap_memory_new_ok hp files oc dbg k Hk Hhp sys plan min image Hos Hp Hmin (Him min Hmin)) as Hnew.
  destruct (mmap_memory_new _ _ _ _ _ _ _ _ _); [|done|done]. by exists min.
Qed.

Lemma lives_inv m : lives hp files oc dbg m -> mm_inv hp files m.
Proof.
  induction 1 as [sys plan image store store' m Hos Hp Him Hnew|sys m delta store m' store' r _ IH Hos Hd Hg|m a v _ IH Ha].
  - pose proof (new_dynamic_post sys plan image store limits_limiter_ok Hos Hp Him) as H. rewrite Hnew in H.
    destruct H as (min & _ & Hi & _). exact Hi.
  - pose proof (memory_grow_ok hp files oc dbg k Hk Hhp sys m delta store Hos limits_limiter_ok IH Hd) as H. rewrite Hg in H.
    destruct r as [[[o n]|]|e|]; cbn in H; [tauto|tauto|tauto|done].
  - by apply store_byte_inv.
Qed.

(** What can be accessed in the mapping of a memory, by address in the memory. *)
Lemma inv_access m a :
  mm_inv hp files m ->
  (~ 0 <= a < mm_room m -> load m a = None) /\
  (Protect ∉ mrefused (mmap m) -> rounded hp (len m) <= a -> load m a = None).
Proof.
  intros Hi. rewrite load_cell. cbn zeta. pose proof (slot_pages hp files k Hk Hhp m (base (mmap m) + mm_pre_guard_size m + a) Hi) as Hsp.
  destruct (i_slot _ _ _ Hi) as [Hb Hs Hacc _ _ Hg]. fold (base_slot m) in *. split.
  - intros Ha. rewrite Hg; [done|]. rewrite Hsp. lia.
  - intros Hrf Ha. destruct (decide (0 <= a < mm_room m)) as [Hin|Hout]; [|rewrite Hg; [done|]; rewrite Hsp; lia].
    destruct (i_mapped _ _ _ Hi a) as (_ & [_ Ha2] & _); [rewrite Hs, (proj2 (room_pages hp files k Hk Hhp m Hi)); lia|].
    rewrite Hb, Hacc in Ha2. cbn in Ha2 |- *. by rewrite Ha2.
Qed.

(** C7: Isolation.  However a memory was created (with or without an image), grown and
    written, on a system that may refuse any call and may have changed some pages of a call
    it refused: every byte of the linear memory, rounded up to host pages, can be accessed;
    no byte of the guard regions before and after the room of the memory can, and both lie
    inside the mapping; as long as no change of protection of this mapping was refused, no
    byte after the rounded length can be accessed either; what lies after the length reads
    zero; and the size is a whole number of wasm pages within the declared maximum. *)
Theorem memory_isolation m (Hm : lives hp files oc dbg m) :
  (forall a, 0 <= a < rounded hp (len m) -> is_Some (load m a)) /\
  (forall a, - mm_pre_guard_size m <= a < 0 \/ mm_room m <= a < mm_room m + mm_offset_guard_size m -> load m a = None) /\
  mlen (mmap m) = mm_pre_guard_size m + mm_room m + mm_offset_guard_size m /\ rounded hp (len m) <= mm_room m /\
  (Protect ∉ mrefused (mmap m) -> forall a, is_Some (load m a) <-> 0 <= a < rounded hp (len m)) /\
  (forall a v, len m <= a -> load m a = Some v -> v = 0) /\
  len m mod page m = 0 /\ (forall max, mm_maximum m = Some max -> len m <= max).
Proof.
  apply lives_inv in Hm. pose proof (i_len _ _ _ Hm) as [Hl0 Hlr].
  assert (Hin : forall a, 0 <= a < rounded hp (len m) -> is_Some (load m a)).
  { intros a Ha. rewrite (load_Some hp files k Hk Hhp m a Hm Ha). by eexists. }
  split_and!; [done| |unfold mm_room; lia|done| | |apply (i_page _ _ _ Hm)|apply (i_max _ _ _ Hm)].
  - intros a Ha. apply (proj1 (inv_access m a Hm)). lia.
  - intros Hrf a. split; [|apply Hin]. intros [v Hv]. destruct (inv_access m a Hm) as [H1 H2].
    destruct (decide (0 <= a < mm_room m)) as [Hr|Hr]; [|by rewrite H1 in Hv].
    destruct (decide (a < rounded hp (len m))); [lia|]. by rewrite H2 in Hv by (done || lia).
  - intros a v Ha Hv. destruct (decide (0 <= a < mm_room m)) as [Hr|Hr]; [|by rewrite (proj1 (inv_access m a Hm)) in Hv].
    destruct (i_slot _ _ _ Hm) as [Hb Hs Hacc _ Hok _]. fold (base_slot m) in *.
    destruct (i_mapped _ _ _ Hm a) as (Ho & _ & Hval); [rewrite Hs, (proj2 (room_pages hp files k Hk Hhp m Hm)); lia|].
    rewrite Hb in Ho, Hval. rewrite load_cell in Hv. cbn zeta in Hv. change (cell_at (mmap m)) with (mmap_cell (mmap m)) in Ho, Hval.
    destruct (c_access _); [|done]. apply (inj Some) in Hv. rewrite <- Hv, Hval, Ho by (unfold below; lia).
    pose proof (so_image _ _ Hok) as Him. rewrite Hacc in Him. unfold image_byte. destruct (s_image (base_slot m)); [|done].
    destruct Him. by rewrite decide_False by lia.
Qed.

(** Why a growth is refused under [StoreLimits]. *)
Definition refused (sys : os) (l : StoreLimits) (m : MmapMemory) (delta : Z) : Prop :=
  limit_allows (l_memory_size l) (wanted m delta) (mm_maximum m) = false \/
  exists e, (mmap_grow_to hp files oc dbg sys m (wanted m delta)).2 = Err e.

Lemma grow_limits sys m delta l :
  mm_inv hp files m -> in_u 64 delta -> delta <> 0 ->
  grow (RuntimeLinearMemory0 := MmapMemory_rlm hp files oc dbg sys) dbg m delta (Some (Some l)) =
    let failure m e := (m, Some (Some l), if trap_on_grow_failure l then Err e else Ok None) in
    if limit_allows (l_memory_size l) (wanted m delta) (mm_maximum m) then
      match mmap_grow_to hp files oc dbg sys m (wanted m delta) with
      | (m', Ok _) => (m', Some (Some l), Ok (Some (len m, wanted m delta)))
      | (m', Err e) => failure m' e
      | (m', Panic) => (m', Some (Some l), Panic)
      end
    else failure m ForcedTrap.
Proof.
  intros Hi Hd Hne. unfold grow. cbn [byte_size rlm_page_size_log2 rlm_maximum_byte_size grow_to MmapMemory_rlm].
  rewrite (proj2 (Z.eqb_neq delta 0) Hne), page_size_of_ok by apply (i_log2 _ _ _ Hi). fold (page m).
  rewrite (wanted_eq hp files k Hk m delta Hi Hd). cbn [store_memory_growing memory_growing StoreLimits_limiter].
  unfold limits_memory_growing. destruct (limit_allows _ _ _) eqn:Hal; cbn.
  - assert (match mm_maximum m with Some max => max <? wanted m delta | None => false end = false) as ->.
    { unfold limit_allows in Hal. destruct (mm_maximum m); [|done].
      destruct (l_memory_size l) as [lim|]; [destruct (lim <? _); [done|]|]; by apply negb_true_iff in Hal. }
    destruct (mmap_grow_to _ _ _ _ _ _) as [m' [| |]]; [done| |done]. unfold report_failure. cbn.
    by destruct (trap_on_grow_failure l).
  - by destruct (trap_on_grow_failure l).
Qed.


(** ** Creation from a type and the tunables *)

Definition tunables_ok (t : Tunables) : Prop :=
  0 <= static_memory_reservation t /\ 0 <= static_memory_offset_guard_size t /\
  0 <= dynamic_memory_offset_guard_size t /\ 0 <= dynamic_memory_growth_reserve t.

Lemma plan_for_memory_ok {E} m t :
  type_ok m -> tunables_ok t ->
  exists plan, plan_for_memory (E:=E) dbg m t = Ok plan /\ memory plan = m /\
    (static_memory_bound_is_maximum t = false \/ is_Some (max_bytes m) -> plan_ok plan).
Proof using Type.
  clear Hhp Hk k. intros Ht (H1 & H2 & H3 & H4).
  assert (Hplan : forall st g (c : Prop), 0 <= g ->
    (c -> match st with Dynamic r => 0 <= r | Static b => 0 <= b /\ forall s, min_bytes m = Some s -> s <= b end) ->
    exists plan, Ok (E:=E) {| memory := m; style := st; offset_guard_size := g;
                       pre_guard_size := if guard_before_linear_memory t then g else 0 |} = Ok plan /\
      memory plan = m /\ (c -> plan_ok plan)).
  { intros st g c Hg Hst. eexists. split; [reflexivity|]. split; [done|]. intros Hc.
    split; cbn; [done|destruct (guard_before_linear_memory t); lia|by apply Hst]. }
  unfold plan_for_memory, style_for_memory. destruct (DEFAULT_PAGE_SIZE_LOG2 <=? page_size_log2 m).
  - rewrite maximum_eq by done. cbn [mbind outcome_bind]. destruct (max_bytes m) as [max|] eqn:Hmax.
    + rewrite minimum_eq by done. cbn [mbind outcome_bind].
      destruct (max_bytes_Some m max Ht Hmax) as (_ & min & Hmin & Hle). rewrite Hmin.
      cbn [unwrap mbind outcome_bind]. set (mx := if static_memory_bound_is_maximum t then _ else _).
      destruct ((min <=? mx) && (mx <=? static_memory_reservation t)) eqn:Hs; cbn [mbind outcome_bind].
      * apply andb_true_iff in Hs as [Hs1%Z.leb_le Hs2%Z.leb_le]. apply Hplan; [done|]. intros _.
        split; [done|]. intros s Hs'. rewrite Hmin in Hs'. injection Hs' as <-. lia.
      * by apply Hplan.
    + cbn [mbind outcome_bind]. destruct (static_memory_bound_is_maximum t) eqn:Hb; apply Hplan; try done.
      intros [?|[? ?]]; done.
  - cbn [mbind outcome_bind]. by apply Hplan.
Qed.

Lemma limit_new_limits plan l st min max :
  limit_new dbg plan (Some (Some l)) = (st, Ok (min, max)) -> shared (memory plan) = false ->
  type_ok (memory plan) -> limit_allows (l_memory_size l) min max = true.
Proof using Type.
  clear Hhp Hk k. intros Hl Hsh Ht. unfold limit_new in Hl.
  destruct (page_size dbg (memory plan) ≫= _) as [[[am mn] mx]|e|]; [|done|done].
  rewrite Hsh in Hl. cbn [store_memory_growing memory_growing StoreLimits_limiter] in Hl.
  unfold limits_memory_growing in Hl. injection Hl as _ Hl.
  destruct (limit_allows (l_memory_size l) (default am mn) mx) eqn:Ha; cbn in Hl;
    [|by destruct (trap_on_grow_failure l)].
  destruct mn as [mn|]; cbn in *; [|done]. by injection Hl as <- <-.
Qed.

End Properties.

(** When memories are forced to be static, a 64-bit memory whose maximum
    overflows and whose minimum exceeds the reservation gets a static plan, and
    creating it panics. *)
Theorem forced_static_panics :
  let m := {| minimum := 131072; maximum := Some 281474976710656; shared := false; memory64 := true;
              page_size_log2 := 16 |} in
  let t := {| static_memory_reservation := 2 ^ 32; static_memory_offset_guard_size := 2 ^ 31;
              dynamic_memory_offset_guard_size := 65536; dynamic_memory_growth_reserve := 2 ^ 31;
              static_memory_bound_is_maximum := true; guard_before_linear_memory := true |} in
  let sys := {| os_reserve n := if n <? 2 ^ 40 then Some 4096 else None; os_protect _ _ := true;
                os_map _ _ := true; os_drop _ _ := true; os_torn _ _ := [] |} in
  type_ok m /\ tunables_ok t /\
  exists plan, plan_for_memory (E:=unit) false m t = Ok plan /\ style plan = Static (2 ^ 32) /\
    (new_dynamic 4096 (fun _ _ => 0) true false sys plan None (Some limits_default)).2 = Panic.
Proof.
  intros m t sys. split; [split; cbn; unfold in_u; [lia|intros max [= <-]; lia|by right]|].
  split; [repeat split; cbn; lia|]. exists {| memory := m; style := Static (2 ^ 32); pre_guard_size := 2 ^ 31; offset_guard_size := 2 ^ 31 |}.
  split_and!; vm_compute; reflexivity.
Qed.

(** The address check of the atomic operations: exactly the aligned accesses
    that end strictly before the end of the memory are accepted, so that the
    last one, which is in bounds, is refused. *)
Theorem atomic_addr_refuses_last dbg def addr size (Hs : size = 4 \/ size = 8)
    (Ha : in_u 64 addr) (Hl : 0 <= current_length def < 2 ^ 63) (Hal : addr mod size = 0) :
  (addr + size < current_length def ->
     validate_atomic_addr dbg def addr size size = Ok ((def_base def + addr) mod 2 ^ 64)) /\
  (addr + size = current_length def ->
     validate_atomic_addr dbg def addr size size = Err MemoryOutOfBounds) /\
  (current_length def < addr + size ->
     validate_atomic_addr dbg def addr size size = Err MemoryOutOfBounds).
Proof.
  unfold validate_atomic_addr. rewrite debug_assert_true by (destruct Hs as [->| ->]; done).
  cbn [mbind outcome_bind]. rewrite Hal, Z.eqb_refl. cbn [negb]. unfold in_u, u64_max in *.
  split_and!; intros Hcmp.
  - by rewrite (proj2 (Z.ltb_lt _ _)) by lia.
  - by rewrite (proj2 (Z.ltb_ge _ _)) by lia.
  - by rewrite (proj2 (Z.ltb_ge _ _)) by (destruct Hs as [->| ->]; lia).
Qed.

(** ** Concrete memories *)

Definition sample_type : Memory :=
  {| minimum := 1; maximum := Some 4; shared := false; memory64 := false; page_size_log2 := 16 |}.
Definition sample_tunables : Tunables :=
  {| static_memory_reservation := 65536 * 2; static_memory_offset_guard_size := 65536;
     dynamic_memory_offset_guard_size := 65536; dynamic_memory_growth_reserve := 65536;
     static_memory_bound_is_maximum := false; guard_before_linear_memory := true |}.
Definition sample_os : os :=
  {| os_reserve n := if n <? 2 ^ 40 then Some 1048576 else None; os_protect _ _ := true; os_map _ _ := true;
     os_drop _ _ := true; os_torn _ _ := [] |}.

Lemma sample_os_ok : os_ok 4096 sample_os.
Proof. intros n b. cbn. destruct (Z.ltb_spec n (2 ^ 40)); [|done]. intros [= <-]. split; [lia|done]. Qed.
Lemma sample_type_ok : type_ok sample_type.
Proof. split; cbn; unfold in_u; [lia|intros max [= <-]; lia|by right]. Qed.
Lemma sample_tunables_ok : tunables_ok sample_tunables.
Proof. repeat split; cbn; lia. Qed.
Lemma sample_page : 4096 = 2 ^ 12.
Proof. done. Qed.

(** A file whose bytes count up, and an image of its first page at the second page of a
    memory. *)
Definition sample_files (fd o : Z) : Z := o mod 256.
Definition sample_image : MemoryImage := {| source := 0; source_offset := 0; img_len := 4096; linear_memory_offset := 4096 |}.
Lemma sample_image_fits plan : min_bytes (memory plan) = Some 65536 -> image_fits 4096 plan (Some sample_image).
Proof. intros Hp min Hm. rewrite Hp in Hm. injection Hm as <-. split; cbn; done || lia. Qed.


(** A memory that was created with the image, written to, and then grown by two pages on a
    system that refuses the change of protection after having changed its first page; and
    one without an image. *)
Definition sample_plan : MemoryPlan :=
  {| memory := sample_type; style := Dynamic 65536; pre_guard_size := 65536; offset_guard_size := 65536 |}.
Definition tearing_os : os :=
  {| os_reserve _ := None; os_protect _ _ := false; os_map _ _ := false; os_drop _ _ := false; os_torn p _ := [(p, 4096)] |}.
Definition created (image : option MemoryImage) : MmapMemory :=
  match (new_dynamic 4096 sample_files true true sample_os sample_plan image (Some limits_default)).2 with
  | Ok m => m
  | _ => {| mmap := mmap_reserved 0 0; len := 0; mm_maximum := None; mm_page_size_log2 := 0;
            extra_to_reserve_on_growth := 0; mm_pre_guard_size := 0; mm_offset_guard_size := 0; memory_image := None |}
  end.
Definition sample_mem : MmapMemory := store_byte (created None) 5 77.
Definition torn_mem : MmapMemory :=
  (grow (RuntimeLinearMemory0 := MmapMemory_rlm 4096 sample_files true true tearing_os) true
    (store_byte (created (Some sample_image)) 5 77) 1 (Some (Some limits_default))).1.1.

Lemma sample_plan_ok : plan_ok sample_plan.
Proof. split; [apply sample_type_ok|by cbn|by cbn]. Qed.

Lemma created_lives image :
  image_fits 4096 sample_plan image -> 5 < len (created image) -> lives 4096 sample_files true true (store_byte (created image) 5 77).
Proof.
  intros Him Hlen. apply lives_store; [|lia]. unfold created in *.
  destruct (new_dynamic _ _ _ _ _ _ _ _) as [st [m|e|]] eqn:Hn; [|done..].
  exact (lives_new _ _ _ _ _ _ _ _ _ _ sample_os_ok sample_plan_ok Him Hn).
Qed.

Lemma sample_lives : lives 4096 sample_files true true sample_mem.
Proof. apply created_lives; [done|vm_compute; reflexivity..]. Qed.

Lemma torn_lives : lives 4096 sample_files true true torn_mem.
Proof.
  unfold torn_mem. destruct (grow _ _ _ _) as [[m' st] r] eqn:Hg. eapply lives_grow; [| | |exact Hg].
  - apply created_lives; [apply sample_image_fits; reflexivity|vm_compute; reflexivity..].
  - by intros n b.
  - unfold in_u. lia.
Qed.

(** The refused growth left the length as it was and one page after it accessible. *)
Lemma memory_isolation_witness :
  is_Some (load torn_mem 4100) /\ load torn_mem (-1) = None /\ load torn_mem 131072 = None /\
  (forall v, load torn_mem 65536 = Some v -> v = 0) /\ load torn_mem 65536 = Some 0 /\ load sample_mem 65536 = None.
Proof.
  destruct (memory_isolation 4096 sample_files true true 12 ltac:(lia) sample_page _ torn_lives) as (Hin & Hg & _ & _ & _ & Hz & _).
  destruct (memory_isolation 4096 sample_files true true 12 ltac:(lia) sample_page _ sample_lives) as (_ & _ & _ & _ & Hex & _).
  assert (Hl : len torn_mem = 65536) by (vm_compute; reflexivity).
  assert (Hp : mm_pre_guard_size torn_mem = 65536) by (vm_compute; reflexivity).
  assert (Hr : mm_room torn_mem = 131072) by (vm_compute; reflexivity).
  assert (Ho : mm_offset_guard_size torn_mem = 65536) by (vm_compute; reflexivity).
  assert (Hl2 : len sample_mem = 65536) by (vm_compute; reflexivity).
  rewrite Hl, Hp, Hr, Ho in *. rewrite Hl2 in *. change (rounded 4096 65536) with 65536 in *.
  split_and!; [apply Hin; lia|apply Hg; lia|apply Hg; lia|intros v; apply Hz; lia|vm_compute; reflexivity|].
  destruct (load sample_mem 65536) as [v|] eqn:Hv; [|reflexivity]. exfalso.
  assert (Hrf : mrefused (mmap sample_mem) = []) by (vm_compute; reflexivity).
  destruct (proj1 (Hex ltac:(rewrite Hrf; apply list.not_elem_of_nil) 65536) ltac:(rewrite Hv; by eexists)). lia.
Defined.


Lemma atomic_addr_refuses_last_witness :
  validate_atomic_addr true (mmap_vmmemory sample_mem) 65532 4 4 = Err MemoryOutOfBounds.
Proof.
  assert (Hd : mmap_vmmemory sample_mem = {| def_base := 1114112; current_length := 65536 |}) by (vm_compute; reflexivity).
  rewrite Hd. destruct (atomic_addr_refuses_last true {| def_base := 1114112; current_length := 65536 |} 65532 4) as (_ & H & _);
    [by left|by vm_compute|by vm_compute|done|]. by apply H.
Defined.
