(* ===== verification/GcRef.v ===== *)
(** * References of the garbage collector

    [src/wasmtime-repo/crates/wasmtime/src/runtime/vm/gc]: the unboxed 31-bit
    integers of [i31.rs], the 32-bit references and the object headers of
    [gc_ref.rs], with the kinds of [crates/environ/src/gc.rs].  A reference is a
    nonzero 32-bit number whose lowest bit tells an integer from an index into
    the heap.  Shifts and casts keep their width. *)

From Stdlib Require Import ZArith Lia.
From stdpp Require Import base list gmap numbers option.
From S2P Require Import Prelude.
Open Scope Z_scope.

(** [<<] on a [w]-bit unsigned number and the casts between [u32] and [i32]. *)
Definition shl (w z n : Z) : Z := Z.shiftl z n mod 2 ^ w.
Definition signed (w z : Z) : Z :=
  if z mod 2 ^ w <? 2 ^ (w - 1) then z mod 2 ^ w else z mod 2 ^ w - 2 ^ w.
Definition in_s (w z : Z) : Prop := - 2 ^ (w - 1) <= z < 2 ^ (w - 1).

(** ** Unboxed integers *)

Definition VMGcRef : Type := Z.
Definition I31_REF_DISCRIMINANT : Z := 1.

Definition I31 : Type := Z.
Definition DISCRIMINANT : Z := I31_REF_DISCRIMINANT.

Definition wrapping_u32 (value : Z) : I31 := Z.lor (shl 32 value 1) DISCRIMINANT.
Definition wrapping_i32 (value : Z) : I31 := wrapping_u32 (value mod 2 ^ 32).
Definition get_u32 (i : I31) : Z := Z.shiftr i 1.
Definition get_i32 (i : I31) : Z := Z.shiftr (signed 32 i) 1.

Definition new_u32 {E} (dbg : bool) (value : Z) : outcome E (option I31) :=
  if Z.shiftr (shl 32 value 1) 1 =? value then
    let i31 := wrapping_u32 value in
    debug_assert dbg (get_u32 i31 =? value);;
    Ok (Some i31)
  else Ok None.

Definition new_i32 {E} (dbg : bool) (value : Z) : outcome E (option I31) :=
  if Z.shiftr (signed 32 (Z.shiftl value 1)) 1 =? value then
    let i31 := wrapping_i32 value in
    debug_assert dbg (get_i32 i31 =? value);;
    Ok (Some i31)
  else Ok None.

Definition i31_default : I31 := wrapping_u32 0.

(** ** References *)

Definition from_raw_u32 (raw : Z) : option VMGcRef := if raw =? 0 then None else Some raw.

Definition is_i31 (r : VMGcRef) : bool := negb (Z.land r I31_REF_DISCRIMINANT =? 0).

Definition from_heap_index (index : Z) : option VMGcRef :=
  if Z.land index I31_REF_DISCRIMINANT =? 0 then Some index else None.

Definition from_i31 {E} (dbg : bool) (val : I31) : outcome E VMGcRef :=
  let val := Z.lor (shl 32 (get_u32 val) 1) I31_REF_DISCRIMINANT in
  debug_assert dbg (negb (val =? 0));;
  Ok val.

Definition as_i31 (r : VMGcRef) : option I31 :=
  if is_i31 r then Some (wrapping_u32 (Z.shiftr r 1)) else None.
Definition unwrap_i31 {E} (r : VMGcRef) : outcome E I31 := unwrap (as_i31 r).

Definition as_heap_index (r : VMGcRef) : option Z := if is_i31 r then None else Some r.

(** [from_r64]: the error is that of the conversion to 32 bits. *)
Definition from_r64 (raw : Z) : outcome unit (option VMGcRef) :=
  raw ← ok_or tt (checked 32 (Z.land raw u32_max));
  Ok (from_raw_u32 raw).
Definition into_r64 (r : VMGcRef) : Z := r.
Definition is_extern_ref (r : VMGcRef) : bool := negb (is_i31 r).

(** ** Headers of objects *)

Inductive VMGcKind := ExternRef.
Definition kind_bits (k : VMGcKind) : Z := match k with ExternRef => Z.shiftl 0 30 end.
Definition MASK : Z := Z.shiftl 3 30.
Definition UNUSED_MASK : Z := Z.lxor MASK u32_max.

Definition kind_from_u32 {E} (val : Z) : outcome E VMGcKind :=
  assert_ (Z.land val MASK =? kind_bits ExternRef);;
  Ok ExternRef.

Definition VMGcHeader : Type := Z.

Definition header_externref : VMGcHeader := Z.lor (Z.shiftl (kind_bits ExternRef) 32) u32_max.

Definition header_kind {E} (h : VMGcHeader) : outcome E VMGcKind :=
  upper ← unwrap (checked 32 (Z.shiftr h 32));
  kind_from_u32 upper.

Definition reserved_u30 {E} (h : VMGcHeader) : outcome E Z :=
  upper ← unwrap (checked 32 (Z.shiftr h 32));
  Ok (Z.land upper UNUSED_MASK).

Definition set_reserved_u30 {E} (h : VMGcHeader) (value : Z) : outcome E VMGcHeader :=
  assert_ (Z.land value MASK =? 0);;
  Ok (Z.lor h (Z.shiftl value 32)).

Definition unchecked_set_reserved_u30 (h : VMGcHeader) (value : Z) : VMGcHeader :=
  Z.lor h (Z.shiftl value 32).

(** [ty]: [VMSharedTypeIndex::new] asserts that the index is not the default. *)
Definition header_ty {E} (h : VMGcHeader) : outcome E (option Z) :=
  lower ← unwrap (checked 32 (Z.land h u32_max));
  if lower =? u32_max then Ok None
  else assert_ (negb (lower =? u32_max));; Ok (Some lower).

(** ** Bits *)

Lemma land_1 z : Z.land z 1 = z mod 2.
Proof. change 1 with (Z.ones 1) at 1. by rewrite Z.land_ones. Qed.

Lemma shl_1 v : shl 32 v 1 = 2 * (v mod 2 ^ 31).
Proof.
  unfold shl. rewrite Z.shiftl_mul_pow2 by done. change (2 ^ 32) with (2 ^ 31 * 2).
  change (2 ^ 1) with 2. rewrite Z.mul_mod_distr_r by done. lia.
Qed.

Lemma lor_even z : Z.lor (2 * z) 1 = 2 * z + 1.
Proof.
  pose proof (Z.add_lor_land (2 * z) 1) as H. rewrite land_1 in H.
  replace (2 * z mod 2) with 0 in H by (rewrite Z.mul_comm; symmetry; by apply Z.mod_mul). lia.
Qed.

Lemma half_odd z : (2 * z + 1) / 2 = z.
Proof. rewrite Z.add_comm, Z.mul_comm, Z.div_add by done. done. Qed.

Lemma wrapping_eq v : wrapping_u32 v = 2 * (v mod 2 ^ 31) + 1.
Proof. unfold wrapping_u32, DISCRIMINANT, I31_REF_DISCRIMINANT. by rewrite shl_1, lor_even. Qed.

Lemma shiftr_1 z : Z.shiftr z 1 = z / 2.
Proof. by rewrite Z.shiftr_div_pow2. Qed.

Lemma is_i31_odd r : is_i31 r = Z.odd r.
Proof.
  unfold is_i31, I31_REF_DISCRIMINANT. rewrite land_1, Zmod_odd. by destruct (Z.odd r).
Qed.

Lemma get_wrapping v : get_u32 (wrapping_u32 v) = v mod 2 ^ 31.
Proof. unfold get_u32. by rewrite wrapping_eq, shiftr_1, half_odd. Qed.

Lemma signed_eq w z : 0 < w -> in_s w (signed w z) /\ signed w z mod 2 ^ w = z mod 2 ^ w.
Proof.
  intros Hw. unfold signed, in_s. pose proof (Z.mod_pos_bound z (2 ^ w)) as Hb.
  assert (2 ^ w = 2 * 2 ^ (w - 1)) as Hp by (rewrite <- Z.pow_succ_r by lia; f_equal; lia).
  assert (0 < 2 ^ (w - 1)) by (apply Z.pow_pos_nonneg; lia).
  destruct (_ <? _) eqn:H'; zbool; (split; [lia|]).
  - apply Z.mod_mod. lia.
  - rewrite <- (Z.mul_1_l (2 ^ w)) at 2. rewrite Zminus_mod, Z.mul_1_l, Z.mod_same, Z.sub_0_r by lia.
    rewrite !Z.mod_mod by lia. done.
Qed.

(** Two numbers in a signed range that agree modulo its size are equal. *)
Lemma signed_unique w a b : 0 < w -> in_s w a -> in_s w b -> a mod 2 ^ w = b mod 2 ^ w -> a = b.
Proof.
  intros Hw Ha Hb H. unfold in_s in *.
  assert (2 ^ w = 2 * 2 ^ (w - 1)) as Hp by (rewrite <- Z.pow_succ_r by lia; f_equal; lia).
  assert (0 < 2 ^ w) by (apply Z.pow_pos_nonneg; lia).
  pose proof (Z.div_mod a (2 ^ w)) as Da. pose proof (Z.div_mod b (2 ^ w)) as Db. rewrite H in Da.
  destruct (Z.lt_trichotomy (a / 2 ^ w) (b / 2 ^ w)) as [?|[He|?]]; [nia| |nia]. rewrite He in Da. lia.
Qed.

Lemma get_i32_wrapping v : get_i32 (wrapping_i32 v) = signed 31 v.
Proof.
  unfold get_i32, wrapping_i32. rewrite wrapping_eq, shiftr_1.
  replace ((v mod 2 ^ 32) mod 2 ^ 31) with (v mod 2 ^ 31) by
    (change (2 ^ 32) with (2 ^ 31 * 2); rewrite Z.rem_mul_r by lia;
     rewrite Z.mul_comm, Z.mod_add, Z.mod_mod by lia; done).
  pose proof (Z.mod_pos_bound v (2 ^ 31) ltac:(lia)).
  unfold signed at 1. rewrite Z.mod_small by lia.
  unfold signed. change (2 ^ (32 - 1)) with (2 * 2 ^ 30). change (2 ^ (31 - 1)) with (2 ^ 30).
  destruct (_ <? 2 * _) eqn:H1, (_ <? 2 ^ 30) eqn:H2; zbool; try lia.
  - apply half_odd.
  - rewrite <- (half_odd (v mod 2 ^ 31 - 2 ^ 31)). f_equal. lia.
Qed.

Lemma from_i31_ok {E} dbg v : from_i31 (E:=E) dbg (wrapping_u32 v) = Ok (wrapping_u32 v).
Proof.
  unfold from_i31. rewrite get_wrapping. cbn zeta.
  replace (Z.lor _ _) with (wrapping_u32 v); [|unfold wrapping_u32, DISCRIMINANT; f_equal; rewrite !shl_1, Z.mod_mod by lia; done].
  rewrite debug_assert_true; [done|]. rewrite wrapping_eq. pose proof (Z.mod_pos_bound v (2 ^ 31) ltac:(lia)).
  by rewrite (proj2 (Z.eqb_neq _ _)) by lia.
Qed.

Lemma wrapping_i31 v : is_i31 (wrapping_u32 v) = true.
Proof. by rewrite is_i31_odd, wrapping_eq, Z.add_comm, Z.odd_add_mul_2. Qed.

Lemma new_u32_ok {E} dbg v : in_u 32 v ->
  new_u32 (E:=E) dbg v = Ok (if v <? 2 ^ 31 then Some (wrapping_u32 v) else None).
Proof.
  unfold in_u. intros Hv. unfold new_u32. rewrite shl_1, shiftr_1, Z.mul_comm, Z.div_mul by done.
  pose proof (Z.mod_pos_bound v (2 ^ 31) ltac:(lia)).
  destruct (v <? 2 ^ 31) eqn:H1; zbool.
  - rewrite Z.mod_small, Z.eqb_refl by lia. cbn zeta.
    rewrite debug_assert_true by (rewrite get_wrapping, Z.mod_small by lia; apply Z.eqb_refl). done.
  - by rewrite (proj2 (Z.eqb_neq _ _)) by lia.
Qed.

Lemma new_i32_ok {E} dbg v : in_s 32 v ->
  new_i32 (E:=E) dbg v = Ok (if bool_decide (in_s 31 v) then Some (wrapping_i32 v) else None).
Proof.
  intros Hv. unfold new_i32.
  assert (Hs : Z.shiftr (signed 32 (Z.shiftl v 1)) 1 = signed 31 v).
  { rewrite Z.shiftl_mul_pow2, shiftr_1 by done. change (2 ^ 1) with 2. unfold signed.
    change (2 ^ 32) with (2 ^ 31 * 2). rewrite Z.mul_mod_distr_r by done.
    change (2 ^ (32 - 1)) with (2 ^ 30 * 2). change (2 ^ (31 - 1)) with (2 ^ 30).
    destruct (_ <? 2 ^ 30 * 2) eqn:H1, (_ <? 2 ^ 30) eqn:H2; zbool; try lia.
    - by rewrite Z.div_mul.
    - rewrite <- Z.mul_sub_distr_r. by rewrite Z.div_mul. }
  rewrite Hs. destruct (signed_eq 31 v ltac:(lia)) as [Hr Hm].
  case_bool_decide as Hd.
  - rewrite (signed_unique 31 _ v ltac:(lia) Hr Hd Hm), Z.eqb_refl. cbn zeta.
    rewrite debug_assert_true; [done|]. rewrite get_i32_wrapping.
    rewrite (signed_unique 31 _ v ltac:(lia) Hr Hd Hm). apply Z.eqb_refl.
  - rewrite (proj2 (Z.eqb_neq _ _)); [done|]. intros He. by rewrite He in Hr.
Qed.

Lemma from_r64_ok r : in_u 32 r -> from_r64 (into_r64 r) = Ok (from_raw_u32 r).
Proof.
  intros Hr. unfold from_r64, into_r64, u32_max. change (2 ^ 32 - 1) with (Z.ones 32).
  unfold in_u in Hr. rewrite Z.land_ones, Z.mod_small by lia.
  unfold checked. by rewrite in_ub_true by (unfold in_u; lia).
Qed.

(** The encoding of references loses nothing and never confuses its two
    sorts.  An unsigned 32-bit number is accepted as a 31-bit integer exactly
    when it is below [2^31], a signed one exactly when it lies in
    [[-2^30, 2^30)]; what is accepted is read back unchanged, and what is wrapped
    is read back as its low 31 bits, zero- or sign-extended, by any build.  A
    wrapped integer survives the trip through a reference and is recognised as
    an integer; an index into the heap becomes a reference exactly when it is
    even, is never taken for an integer, and is read back; the 64-bit form
    compiled code uses gives the reference back. *)
Theorem gc_ref_encoding {E} dbg :
  (forall v, in_u 32 v ->
     new_u32 (E:=E) dbg v = Ok (if v <? 2 ^ 31 then Some (wrapping_u32 v) else None) /\
     get_u32 (wrapping_u32 v) = v mod 2 ^ 31) /\
  (forall v, in_s 32 v ->
     new_i32 (E:=E) dbg v = Ok (if bool_decide (in_s 31 v) then Some (wrapping_i32 v) else None) /\
     get_i32 (wrapping_i32 v) = signed 31 v /\ (in_s 31 v -> get_i32 (wrapping_i32 v) = v)) /\
  (forall v, exists r, from_i31 (E:=E) dbg (wrapping_u32 v) = Ok r /\ in_u 32 r /\
     as_i31 r = Some (wrapping_u32 v) /\ as_heap_index r = None) /\
  (forall i, 0 < i < 2 ^ 32 ->
     (from_heap_index i = None <-> Z.odd i = true) /\
     (forall r, from_heap_index i = Some r ->
        as_heap_index r = Some i /\ as_i31 r = None /\ from_r64 (into_r64 r) = Ok (Some r))).
Proof.
  split_and!.
  - intros v Hv. split; [by apply new_u32_ok|apply get_wrapping].
  - intros v Hv. split_and!; [by apply new_i32_ok|apply get_i32_wrapping|].
    intros H. rewrite get_i32_wrapping. destruct (signed_eq 31 v); [lia|].
    by apply (signed_unique 31).
  - intros v. exists (wrapping_u32 v). pose proof (Z.mod_pos_bound v (2 ^ 31) ltac:(lia)).
    split_and!; [apply from_i31_ok|rewrite wrapping_eq; unfold in_u; lia| |].
    + unfold as_i31. rewrite wrapping_i31. f_equal. change (Z.shiftr _ 1) with (get_u32 (wrapping_u32 v)).
      rewrite get_wrapping, !wrapping_eq, Z.mod_mod by lia. done.
    + unfold as_heap_index. by rewrite wrapping_i31.
  - intros i Hi. unfold from_heap_index, I31_REF_DISCRIMINANT. rewrite land_1, Zmod_odd.
    destruct (Z.odd i) eqn:Ho; cbn; (split; [done|]); [done|]. intros r [= <-].
    unfold as_heap_index, as_i31. rewrite is_i31_odd, Ho. split_and!; [done..|].
    rewrite from_r64_ok by (unfold in_u; lia). unfold from_raw_u32. by rewrite (proj2 (Z.eqb_neq _ _)) by lia.
Qed.

(** The setter of the reserved bits only adds bits: a value written over
    another is read back as the union of both. *)
Theorem reserved_bits_accumulate :
  exists h1 h2, set_reserved_u30 (E:=unit) header_externref 5 = Ok h1 /\
    reserved_u30 (E:=unit) h1 = Ok 5 /\
    set_reserved_u30 (E:=unit) h1 2 = Ok h2 /\ reserved_u30 (E:=unit) h2 = Ok 7 /\
    header_kind (E:=unit) h2 = Ok ExternRef /\ header_ty (E:=unit) h2 = Ok None.
Proof.
  exists (unchecked_set_reserved_u30 header_externref 5),
    (unchecked_set_reserved_u30 (unchecked_set_reserved_u30 header_externref 5) 2).
  split_and!; vm_compute; reflexivity.
Qed.
