(* ===== verification/Drc.v ===== *)
(** * The deferred reference-counting collector

    [src/wasmtime-repo/crates/wasmtime/src/runtime/vm]: [gc/enabled/drc.rs] (the
    heap, its reference counts, the table of references compiled code may hold,
    tracing and sweeping), [gc/host_data.rs] (the side table of host values) and
    the store of [gc.rs] that puts them together.  The heap is a mapping of
    bytes ([LinearMemory.Mmap]) in which the free list of [GcFreeList] allocates
    objects of three fields; the side table is the arena of [Slab].

    A client owns references: it gets them from an allocation or a clone and
    gives them up by dropping them, overwriting them or exposing them to
    compiled code.  The invariant says that the count stored in the heap for an
    object is the number of its owners, so that what can still be used is never
    freed.  [oc] says whether plain arithmetic is overflow-checked, [dbg] whether
    debug assertions are on, [order] the order in which a hash set yields its
    elements. *)

From Stdlib Require Import ZArith Lia.
From stdpp Require Import base list gmap numbers option sets.
From S2P Require Import Prelude Float32 MemoryTypes Mappings LinearMemory Slab GcFreeList GcRef.
Open Scope Z_scope.

(** ** Typed access to the bytes of the heap *)

Definition read_le (m : gmap Z Z) (a : Z) (n : nat) : Z :=
  le_value (map (fun k => option.default 0 (m !! (a + Z.of_nat k))) (seq 0 n)).
Definition write_le (m : gmap Z Z) (a : Z) (n : nat) (v : Z) : gmap Z Z :=
  map_seqZ a (le_bytes n v) ∪ m.

Arguments read_le : simpl never.
Arguments write_le : simpl never.

(** The sizes of [VMGcHeader], [VMDrcHeader] and [VMDrcExternRef] and the
    offsets of their fields ([repr(C)]). *)
Definition size_of_gc_header : Z := 8.
Definition size_of_drc_header : Z := 16.
Definition size_of_externref : Z := 24.
Definition offset_of_ref_count : Z := 8.
Definition offset_of_host_data : Z := 16.

(** ** The table of references compiled code may hold

    [next] and [end_] are pointers into [chunk], counted in elements from its
    start; an element has [size_of_elem] bytes. *)

Definition size_of_elem : Z := 8.
Definition CHUNK_SIZE : nat := 512.

Record VMGcRefTableAlloc := { next : nat; end_ : nat; chunk : list Z }.

Definition table_alloc_default : VMGcRefTableAlloc := {| next := 0; end_ := 0; chunk := [] |}.

Definition alloc_reset (a : VMGcRefTableAlloc) : VMGcRefTableAlloc :=
  {| next := 0; end_ := length (chunk a); chunk := chunk a |}.

Definition force_allocation {E} (a : VMGcRefTableAlloc) : outcome E VMGcRefTableAlloc :=
  assert_ (match chunk a with [] => true | _ => false end);;
  Ok (alloc_reset {| next := next a; end_ := end_ a; chunk := replicate CHUNK_SIZE 0 |}).

Record VMGcRefActivationsTable := {
  alloc : VMGcRefTableAlloc;
  over_approximated_stack_roots : gset Z;
  precise_stack_roots : gset Z
}.

Definition activations_new : VMGcRefActivationsTable :=
  {| alloc := table_alloc_default; over_approximated_stack_roots := ∅; precise_stack_roots := ∅ |}.

Definition activations_reset (t : VMGcRefActivationsTable) : VMGcRefActivationsTable :=
  {| alloc := alloc_reset (alloc t); over_approximated_stack_roots := ∅; precise_stack_roots := ∅ |}.

(** [bump_capacity_remaining]: the difference of the two addresses. *)
Definition bump_capacity_remaining (t : VMGcRefActivationsTable) : Z :=
  size_of_elem * Z.of_nat (end_ (alloc t)) - size_of_elem * Z.of_nat (next (alloc t)).

Definition num_filled_in_bump_chunk (t : VMGcRefActivationsTable) : nat :=
  let bytes_unused := size_of_elem * Z.of_nat (end_ (alloc t)) - size_of_elem * Z.of_nat (next (alloc t)) in
  let slots_unused := bytes_unused / size_of_elem in
  Z.to_nat (saturating_sub (Z.of_nat (length (chunk (alloc t)))) slots_unused).

Section Table.
  Context (dbg : bool).

(** [try_insert]: the reference is given back when the chunk is full. *)
Definition try_insert {E} (t : VMGcRefActivationsTable) (gc_ref : VMGcRef)
  : outcome E (VMGcRefActivationsTable + VMGcRef) :=
  let a := alloc t in
  if (next a =? end_ a)%nat then Ok (inr gc_ref)
  else
    slot ← unwrap (chunk a !! next a);
    debug_assert dbg (slot =? 0);;
    debug_assert dbg (S (next a) <=? end_ a)%nat;;
    Ok (inl {| alloc := {| next := S (next a); end_ := end_ a;
                           chunk := <[next a := into_r64 gc_ref]> (chunk a) |};
               over_approximated_stack_roots := over_approximated_stack_roots t;
               precise_stack_roots := precise_stack_roots t |}).

Definition insert_slow_without_gc (t : VMGcRefActivationsTable) (gc_ref : VMGcRef)
  : VMGcRefActivationsTable :=
  {| alloc := alloc t;
     over_approximated_stack_roots := {[gc_ref]} ∪ over_approximated_stack_roots t;
     precise_stack_roots := precise_stack_roots t |}.

Definition insert_without_gc {E} (t : VMGcRefActivationsTable) (gc_ref : VMGcRef)
  : outcome E VMGcRefActivationsTable :=
  r ← try_insert t gc_ref;
  match r with
  | inl t' => Ok t'
  | inr gc_ref => Ok (insert_slow_without_gc t gc_ref)
  end.
End Table.

(** [elements], as the set it is used to build. *)
Fixpoint slot_refs {E} (slots : list Z) : outcome E (list VMGcRef) :=
  match slots with
  | [] => Ok []
  | s :: slots =>
      r ← unwrap_result (from_r64 s);
      rs ← slot_refs slots;
      Ok (match r with Some r => r :: rs | None => rs end)
  end.
Definition elements_ {E} (t : VMGcRefActivationsTable) : outcome E (gset Z) :=
  rs ← slot_refs (take (num_filled_in_bump_chunk t) (chunk (alloc t)));
  Ok (over_approximated_stack_roots t ∪ list_to_set rs).

(** ** The heap *)

Record DrcHeap := {
  no_gc_count : Z;
  activations_table : VMGcRefActivationsTable;
  heap : Mmap;
  free_list : FreeList
}.

Definition DEFAULT_GC_HEAP_CAPACITY : Z := Z.shiftl 1 19.

(** [Mmap::with_at_least]. *)
Definition with_at_least (hp : Z) (dbg : bool) (sys : os) (size : Z) : outcome mem_error Mmap :=
  rounded_size ← round_usize_up_to_host_pages hp dbg size;
  accessible_reserved hp sys rounded_size rounded_size.

Definition drc_with_capacity (hp : Z) (dbg : bool) (sys : os) (capacity : Z) : outcome mem_error DrcHeap :=
  heap ← with_at_least hp dbg sys capacity;
  let free_list := GcFreeList.new (mlen heap) in
  Ok {| no_gc_count := 0; activations_table := activations_new; heap := heap; free_list := free_list |}.
Definition drc_new (hp : Z) (dbg : bool) (sys : os) : outcome mem_error DrcHeap :=
  drc_with_capacity hp dbg sys DEFAULT_GC_HEAP_CAPACITY.

Definition set_bytes (h : DrcHeap) (m : gmap Z Z) : DrcHeap :=
  {| no_gc_count := no_gc_count h; activations_table := activations_table h;
     heap := with_mbytes (heap h) m;
     free_list := free_list h |}.
Definition set_free_list (h : DrcHeap) (f : FreeList) : DrcHeap :=
  {| no_gc_count := no_gc_count h; activations_table := activations_table h; heap := heap h; free_list := f |}.
Definition set_table (h : DrcHeap) (t : VMGcRefActivationsTable) : DrcHeap :=
  {| no_gc_count := no_gc_count h; activations_table := t; heap := heap h; free_list := free_list h |}.
Definition set_no_gc (h : DrcHeap) (n : Z) : DrcHeap :=
  {| no_gc_count := n; activations_table := activations_table h; heap := heap h; free_list := free_list h |}.

(** ** Values kept for the host *)

(** [ExternRefHostDataTable]: an arena of host values. *)
Section HostData.
  Context {T : Type} (oc : bool) (min_cap : Z).

Definition ExternRefHostDataTable : Type := Slab T.
Definition host_alloc {E} (t : ExternRefHostDataTable) (value : T) : outcome E (Z * ExternRefHostDataTable) :=
  Slab.alloc oc min_cap t value.
Definition host_dealloc {E} (t : ExternRefHostDataTable) (id : Z) : outcome E (T * ExternRefHostDataTable) :=
  Slab.dealloc oc t id.
Definition host_get {E} (t : ExternRefHostDataTable) (id : Z) : outcome E T :=
  x ← Slab.get t id; unwrap x.
Definition host_get_mut {E} (t : ExternRefHostDataTable) (id : Z) (value : T) : outcome E ExternRefHostDataTable :=
  x ← Slab.get_mut t id value; unwrap x.
End HostData.
Arguments ExternRefHostDataTable : clear implicits.

(** A root of a collection: the 64-bit word of a frame of compiled code, or a
    reference kept elsewhere. *)
Inductive GcRoot := Stack (r64 : Z) | NonStack (r : VMGcRef).
Definition is_on_wasm_stack (r : GcRoot) : bool := match r with Stack _ => true | NonStack _ => false end.
Definition root_get {E} (r : GcRoot) : outcome E VMGcRef :=
  match r with
  | NonStack r => Ok r
  | Stack r64 => r ← unwrap_result (from_r64 r64); unwrap r
  end.

Inductive DrcCollectionPhase := Trace | Sweep | Done.
#[global] Instance DrcCollectionPhase_eq : EqDecision DrcCollectionPhase.
Proof. solve_decision. Defined.
Inductive GcProgress := Continue | Complete.

Section Drc.
  Context {T : Type} (oc dbg : bool) (min_cap : Z) (order : gset Z -> list Z).
  Implicit Types (h : DrcHeap) (t : Slab T).

(** [index] and [index_mut]: the offset of the object; the two slicings panic
    out of bounds. *)
Definition index {E} h (size : Z) (gc_ref : VMGcRef) : outcome E Z :=
  start ← unwrap (as_heap_index gc_ref);
  assert_ (start <=? mlen (heap h));;
  assert_ (size <=? mlen (heap h) - start);;
  Ok start.

(** [drc_ref]. *)
Definition drc_ref {E} (gc_ref : VMGcRef) : outcome E VMGcRef :=
  debug_assert dbg (negb (is_i31 gc_ref));; Ok gc_ref.

Definition ref_count h (start : Z) : Z := read_le (mbytes (heap h)) (start + offset_of_ref_count) 8.
Definition set_ref_count h (start n : Z) : DrcHeap :=
  set_bytes h (write_le (mbytes (heap h)) (start + offset_of_ref_count) 8 n).

Definition inc_ref {E} h (gc_ref : VMGcRef) : outcome E DrcHeap :=
  if is_i31 gc_ref then Ok h
  else
    drc_ref ← drc_ref gc_ref;
    header ← index h size_of_drc_header drc_ref;
    debug_assert dbg (negb (ref_count h header =? 0));;
    n ← arith oc 64 (ref_count h header + 1);
    Ok (set_ref_count h header n).

Definition dec_ref {E} h (gc_ref : VMGcRef) : outcome E (DrcHeap * bool) :=
  if is_i31 gc_ref then Ok (h, false)
  else
    drc_ref ← drc_ref gc_ref;
    header ← index h size_of_drc_header drc_ref;
    debug_assert dbg (negb (ref_count h header =? 0));;
    n ← arith oc 64 (ref_count h header - 1);
    Ok (set_ref_count h header n, n =? 0).

Definition layout_externref : Layout := {| GcFreeList.size := size_of_externref; GcFreeList.align := 8 |}.
Definition layout {E} h (gc_ref : VMGcRef) : outcome E Layout :=
  assert_ (negb (is_i31 gc_ref));; Ok layout_externref.

(** [GcHeap::header]. *)
Definition header {E} h (gc_ref : VMGcRef) : outcome E VMGcHeader :=
  debug_assert dbg (negb (is_i31 gc_ref));;
  start ← index h size_of_gc_header gc_ref;
  Ok (read_le (mbytes (heap h)) start 8).

(** [gc_ref.as_typed::<VMDrcExternRef>(heap)]. *)
Definition as_typed_externref {E} h (gc_ref : VMGcRef) : outcome E (option VMGcRef) :=
  if is_i31 gc_ref then Ok None
  else
    hd ← header h gc_ref;
    kind ← header_kind hd;
    match kind with ExternRef => Ok (Some gc_ref) end.

Definition host_data {E} h (externref : VMGcRef) : outcome E Z :=
  start ← index h size_of_externref externref;
  Ok (read_le (mbytes (heap h)) (start + offset_of_host_data) 4).

Definition dec_ref_and_maybe_dealloc {E} h t (gc_ref : VMGcRef) : outcome E (DrcHeap * Slab T) :=
  '(h, zero) ← dec_ref h gc_ref;
  if zero : bool then
    externref ← as_typed_externref h gc_ref;
    t ← match externref with
        | Some externref =>
            host_data_id ← host_data h externref;
            '(_, t) ← host_dealloc oc t host_data_id;
            Ok t
        | None => Ok t
        end;
    layout ← layout h gc_ref;
    i ← unwrap (as_heap_index gc_ref);
    f ← GcFreeList.dealloc oc dbg (free_list h) i layout;
    Ok (set_free_list h f, t)
  else Ok (h, t).

(** ** Collection *)

Definition add_precise h (r : VMGcRef) : DrcHeap :=
  set_table h {| alloc := alloc (activations_table h);
                 over_approximated_stack_roots := over_approximated_stack_roots (activations_table h);
                 precise_stack_roots := {[r]} ∪ precise_stack_roots (activations_table h) |}.

(** The loop of [trace]; [set] is the table as it was, for the assertions. *)
Fixpoint trace_roots {E} (set : gset Z) h (roots : list GcRoot) : outcome E DrcHeap :=
  match roots with
  | [] => Ok h
  | root :: roots =>
      if negb (is_on_wasm_stack root) then trace_roots set h roots
      else
        gc_ref ← root_get root;
        debug_assert dbg (is_i31 gc_ref || bool_decide (gc_ref ∈ set));;
        if is_i31 gc_ref then trace_roots set h roots
        else
          (if dbg then
             start ← index h size_of_drc_header gc_ref;
             assert_ (negb (ref_count h start =? 0))
           else Ok tt);;
          let is_new := bool_decide (gc_ref ∉ precise_stack_roots (activations_table h)) in
          h ← (if is_new then inc_ref (add_precise h gc_ref) gc_ref else Ok h);
          trace_roots set h roots
  end.

Definition trace {E} h (roots : list GcRoot) : outcome E DrcHeap :=
  debug_assert dbg (bool_decide (precise_stack_roots (activations_table h) = ∅));;
  set ← (if dbg then elements_ (activations_table h) else Ok ∅);
  trace_roots set h roots.

Fixpoint sweep_slots {E} h t (slots : list Z) : outcome E (DrcHeap * Slab T) :=
  match slots with
  | [] => Ok (h, t)
  | r64 :: slots =>
      r ← unwrap_result (from_r64 r64);
      gc_ref ← unwrap r;
      '(h, t) ← dec_ref_and_maybe_dealloc h t gc_ref;
      sweep_slots h t slots
  end.

Definition set_alloc h (a : VMGcRefTableAlloc) : DrcHeap :=
  set_table h {| alloc := a;
                 over_approximated_stack_roots := over_approximated_stack_roots (activations_table h);
                 precise_stack_roots := precise_stack_roots (activations_table h) |}.

(** [drain_bump_chunk] at the closure of [sweep]. *)
Definition drain_bump_chunk {E} h t : outcome E (DrcHeap * Slab T) :=
  let num_filled := num_filled_in_bump_chunk (activations_table h) in
  let a := alloc (activations_table h) in
  '(h, t) ← sweep_slots (set_alloc h table_alloc_default) t (take num_filled (chunk a));
  let chunk := replicate (num_filled `min` length (chunk a)) 0 ++ drop num_filled (chunk a) in
  debug_assert dbg (forallb (fun slot => slot =? 0) chunk);;
  debug_assert dbg (match Drc.chunk (alloc (activations_table h)) with [] => true | _ => false end);;
  Ok (set_alloc h {| next := next a; end_ := end_ a; chunk := chunk |}, t).

Fixpoint sweep_set {E} h t (refs : list VMGcRef) : outcome E (DrcHeap * Slab T) :=
  match refs with
  | [] => Ok (h, t)
  | gc_ref :: refs =>
      '(h, t) ← dec_ref_and_maybe_dealloc h t gc_ref;
      sweep_set h t refs
  end.

Definition set_roots h (over precise : gset Z) : DrcHeap :=
  set_table h {| alloc := alloc (activations_table h);
                 over_approximated_stack_roots := over; precise_stack_roots := precise |}.

Definition sweep {E} h t : outcome E (DrcHeap * Slab T) :=
  '(h, t) ← drain_bump_chunk h t;
  a ← match chunk (alloc (activations_table h)) with
      | [] => force_allocation (alloc (activations_table h))
      | _ => Ok (alloc_reset (alloc (activations_table h)))
      end;
  let h := set_alloc h a in
  let old := over_approximated_stack_roots (activations_table h) in
  let h := set_roots h (precise_stack_roots (activations_table h)) ∅ in
  '(h, t) ← sweep_set h t (order old);
  Ok (set_roots h (over_approximated_stack_roots (activations_table h)) ∅, t).

Record DrcCollection := {
  roots : list GcRoot;
  c_table : Slab T;
  c_heap : DrcHeap;
  phase : DrcCollectionPhase
}.

Definition collect_increment {E} (c : DrcCollection) : outcome E (DrcCollection * GcProgress) :=
  match phase c with
  | Trace =>
      h ← trace (c_heap c) (roots c);
      Ok ({| roots := []; c_table := c_table c; c_heap := h; phase := Sweep |}, Continue)
  | Sweep =>
      '(h, t) ← sweep (c_heap c) (c_table c);
      Ok ({| roots := roots c; c_table := t; c_heap := h; phase := Done |}, Complete)
  | Done => Ok (c, Complete)
  end.

(** [collect]: the loop, cut after [fuel] increments. *)
Fixpoint collect {E} (fuel : nat) (c : DrcCollection) : option (outcome E DrcCollection) :=
  match fuel with
  | O => None
  | S fuel =>
      match collect_increment c with
      | Ok (c, Continue) => collect fuel c
      | Ok (c, Complete) => Some (Ok c)
      | Err e => Some (Err e)
      | Panic => Some Panic
      end
  end.

(** ** The heap behind its interface *)

Definition clone_gc_ref {E} h (gc_ref : VMGcRef) : outcome E (VMGcRef * DrcHeap) :=
  h ← inc_ref h gc_ref; Ok (gc_ref, h).

Definition write_gc_ref {E} h t (destination source : option VMGcRef)
  : outcome E (DrcHeap * Slab T * option VMGcRef) :=
  h ← match source with Some src => inc_ref h src | None => Ok h end;
  '(h, t) ← match destination with
            | Some dest => dec_ref_and_maybe_dealloc h t dest
            | None => Ok (h, t)
            end;
  Ok (h, t, source).

Definition expose_gc_ref_to_wasm {E} h (gc_ref : VMGcRef) : outcome E DrcHeap :=
  t ← insert_without_gc dbg (activations_table h) gc_ref;
  Ok (set_table h t).

Definition need_gc_before_entering_wasm h (num_gc_refs : Z) : bool :=
  bump_capacity_remaining (activations_table h) <? num_gc_refs.

Definition write_externref h (start host_data : Z) : DrcHeap :=
  let m := mbytes (heap h) in
  let m := write_le m start 8 header_externref in
  let m := write_le m (start + offset_of_ref_count) 8 1 in
  set_bytes h (write_le m (start + offset_of_host_data) 4 host_data).

Definition alloc_externref h (host_data : Z) : outcome LayoutError (option VMGcRef * DrcHeap) :=
  '(index_, f) ← GcFreeList.alloc oc dbg (free_list h) layout_externref;
  let h := set_free_list h f in
  match index_ with
  | None => Ok (None, h)
  | Some i =>
      gc_ref ← unwrap (from_heap_index i);
      debug_assert dbg (negb (is_i31 gc_ref));;
      start ← index h size_of_externref gc_ref;
      debug_assert dbg (negb (is_i31 gc_ref));;
      Ok (Some gc_ref, write_externref h start host_data)
  end.

Definition externref_host_data {E} h (externref : VMGcRef) : outcome E Z :=
  debug_assert dbg (negb (is_i31 externref));;
  host_data h externref.

(** [DrcHeap::gc] followed by [collect]: tracing and sweeping are two
    increments. *)
Definition gc {E} h t (roots : list GcRoot) : option (outcome E (DrcHeap * Slab T)) :=
  if no_gc_count h =? 0 then
    match collect 2 {| roots := roots; c_table := t; c_heap := h; phase := Trace |} with
    | Some (Ok c) => Some (Ok (c_heap c, c_table c))
    | Some (Err e) => Some (Err e)
    | Some Panic => Some Panic
    | None => None
    end
  else Some Panic.

Definition drc_reset h : DrcHeap :=
  {| no_gc_count := 0; activations_table := activations_reset (activations_table h);
     heap := heap h; free_list := GcFreeList.reset (free_list h) |}.
End Drc.
Arguments DrcCollection : clear implicits.

Inductive gc_error := BadLayout (e : LayoutError) | GcDisabled.

(** [GcHeap]: what a store asks of a collector; [outcome] is a panic where the
    code panics. *)
Class GcHeap (T H : Type) := {
  gh_enter_no_gc_scope : H -> outcome gc_error H;
  gh_exit_no_gc_scope : H -> outcome gc_error H;
  gh_header : H -> VMGcRef -> outcome gc_error VMGcHeader;
  gh_clone_gc_ref : H -> VMGcRef -> outcome gc_error (VMGcRef * H);
  gh_write_gc_ref : H -> Slab T -> option VMGcRef -> option VMGcRef ->
    outcome gc_error (H * Slab T * option VMGcRef);
  gh_expose_gc_ref_to_wasm : H -> VMGcRef -> outcome gc_error H;
  gh_need_gc_before_entering_wasm : H -> Z -> outcome gc_error bool;
  gh_alloc_externref : H -> Z -> outcome gc_error (option VMGcRef * H);
  gh_externref_host_data : H -> VMGcRef -> outcome gc_error Z;
  gh_gc : H -> Slab T -> list GcRoot -> option (outcome gc_error (H * Slab T));
  gh_reset : H -> H
}.

#[export] Instance DrcHeap_GcHeap {T} oc dbg order : GcHeap T DrcHeap := {
  gh_enter_no_gc_scope h := n ← arith oc 64 (no_gc_count h + 1); Ok (set_no_gc h n);
  gh_exit_no_gc_scope h := n ← arith oc 64 (no_gc_count h - 1); Ok (set_no_gc h n);
  gh_header := header dbg;
  gh_clone_gc_ref := clone_gc_ref oc dbg;
  gh_write_gc_ref := write_gc_ref oc dbg;
  gh_expose_gc_ref_to_wasm := expose_gc_ref_to_wasm dbg;
  gh_need_gc_before_entering_wasm h n := Ok (need_gc_before_entering_wasm h n);
  gh_alloc_externref h id := map_err BadLayout (alloc_externref oc dbg h id);
  gh_externref_host_data := externref_host_data dbg;
  gh_gc := gc oc dbg order;
  gh_reset := drc_reset
}.

(** [disabled_gc_heap]: [unreachable!()] panics. *)
#[export] Instance DisabledGcHeap {T} : GcHeap T unit := {
  gh_enter_no_gc_scope h := Ok h;
  gh_exit_no_gc_scope h := Ok h;
  gh_header _ _ := Panic;
  gh_clone_gc_ref _ _ := Panic;
  gh_write_gc_ref _ _ _ _ := Panic;
  gh_expose_gc_ref_to_wasm _ _ := Panic;
  gh_need_gc_before_entering_wasm _ _ := Panic;
  gh_alloc_externref _ _ := Err GcDisabled;
  gh_externref_host_data _ _ := Panic;
  gh_gc h t _ := Some (Ok (h, t));
  gh_reset h := h
}.

(** ** The store *)

Record GcStore (T H : Type) := { gc_heap : H; host_data_table : Slab T }.
Arguments gc_heap {T H}.
Arguments host_data_table {T H}.
Arguments Build_GcStore {T H}.

Section Store.
  Context {T H : Type} `{!GcHeap T H} (oc : bool) (min_cap : Z).
  Implicit Types (s : GcStore T H).

Definition store_new (h : H) : GcStore T H := {| gc_heap := h; host_data_table := Slab.default |}.

Definition store_gc s (roots : list GcRoot) : option (outcome gc_error (GcStore T H)) :=
  match gh_gc (gc_heap s) (host_data_table s) roots with
  | Some r => Some ('(h, t) ← r; Ok {| gc_heap := h; host_data_table := t |})
  | None => None
  end.

Definition store_clone_gc_ref s (gc_ref : VMGcRef) : outcome gc_error (VMGcRef * GcStore T H) :=
  if is_i31 gc_ref then Ok (gc_ref, s)
  else
    '(r, h) ← gh_clone_gc_ref (gc_heap s) gc_ref;
    Ok (r, {| gc_heap := h; host_data_table := host_data_table s |}).

(** The pointer is null or an integer, so that no barrier is needed. *)
Definition no_object (r : option VMGcRef) : bool :=
  match r with Some r => is_i31 r | None => true end.

Definition store_write_gc_ref s (destination source : option VMGcRef)
  : outcome gc_error (GcStore T H * option VMGcRef) :=
  if no_object destination && no_object source then Ok (s, source)
  else
    '(h, t, d) ← gh_write_gc_ref (gc_heap s) (host_data_table s) destination source;
    Ok ({| gc_heap := h; host_data_table := t |}, d).

(** The trait's [drop_gc_ref] writes nothing over the reference. *)
Definition store_drop_gc_ref s (gc_ref : VMGcRef) : outcome gc_error (GcStore T H) :=
  if is_i31 gc_ref then Ok s
  else
    '(h, t, _) ← gh_write_gc_ref (gc_heap s) (host_data_table s) (Some gc_ref) None;
    Ok {| gc_heap := h; host_data_table := t |}.

Definition store_expose_gc_ref_to_wasm s (gc_ref : VMGcRef) : outcome gc_error (GcStore T H) :=
  if is_i31 gc_ref then Ok s
  else
    h ← gh_expose_gc_ref_to_wasm (gc_heap s) gc_ref;
    Ok {| gc_heap := h; host_data_table := host_data_table s |}.

(** [alloc_externref]: an error of the heap leaves the value in the table;
    without room the value is given back. *)
Definition store_alloc_externref s (value : T) : GcStore T H * outcome gc_error (VMGcRef + T) :=
  match host_alloc (E:=gc_error) oc min_cap (host_data_table s) value with
  | Ok (id, t) =>
      match gh_alloc_externref (gc_heap s) id with
      | Ok (Some x, h) => ({| gc_heap := h; host_data_table := t |}, Ok (inl x))
      | Ok (None, h) =>
          match host_dealloc (E:=gc_error) oc t id with
          | Ok (value, t) => ({| gc_heap := h; host_data_table := t |}, Ok (inr value))
          | Err e => ({| gc_heap := h; host_data_table := t |}, Err e)
          | Panic => ({| gc_heap := h; host_data_table := t |}, Panic)
          end
      | Err e => ({| gc_heap := gc_heap s; host_data_table := t |}, Err e)
      | Panic => ({| gc_heap := gc_heap s; host_data_table := t |}, Panic)
      end
  | Err e => (s, Err e)
  | Panic => (s, Panic)
  end.

Definition store_externref_host_data s (externref : VMGcRef) : outcome gc_error T :=
  host_data_id ← gh_externref_host_data (gc_heap s) externref;
  host_get (host_data_table s) host_data_id.

Definition store_externref_host_data_mut s (externref : VMGcRef) (value : T)
  : outcome gc_error (GcStore T H) :=
  host_data_id ← gh_externref_host_data (gc_heap s) externref;
  t ← host_get_mut (host_data_table s) host_data_id value;
  Ok {| gc_heap := gc_heap s; host_data_table := t |}.
End Store.

(** ** Bytes *)

Lemma read_write_same m a n v :
  0 <= v < 256 ^ Z.of_nat n -> read_le (write_le m a n v) a n = v.
Proof.
  intros Hv. unfold read_le. transitivity (le_value (le_bytes n v)).
  - f_equal. apply list_eq. intros i. rewrite list_lookup_fmap.
    destruct (decide (i < n)%nat) as [Hi|Hi].
    + rewrite lookup_seq_lt by done. cbn [fmap option_fmap option_map]. unfold write_le.
      assert (Hi' : (i < length (le_bytes n v))%nat) by (by rewrite length_le_bytes).
      apply lookup_lt_is_Some in Hi' as [b Hb]. rewrite Hb.
      rewrite (lookup_union_Some_l _ _ _ b); [done|].
      apply lookup_map_seqZ_Some. split; [lia|]. rewrite <- Hb. f_equal. lia.
    + rewrite lookup_seq_ge by lia. cbn. symmetry. apply lookup_ge_None_2. rewrite length_le_bytes. lia.
  - rewrite le_value_bytes. by apply Z.mod_small.
Qed.

Lemma read_write_apart m a n v b k :
  a + Z.of_nat n <= b \/ b + Z.of_nat k <= a -> read_le (write_le m a n v) b k = read_le m b k.
Proof.
  intros Hd. unfold read_le. f_equal. apply map_ext_in. intros i [_ Hi]%in_seq.
  unfold write_le. rewrite lookup_union_r; [done|].
  apply lookup_map_seqZ_None. rewrite length_le_bytes. lia.
Qed.

(** ** The invariant of the counts

    [objs] gives for each live object the identifier and the value of its host
    data, [own] lists the owners of each, once per reference. *)

Definition occ (i : Z) (l : list Z) : Z := Z.of_nat (count_occ Z.eq_dec l i).

Lemma occ_app i l k : occ i (l ++ k) = occ i l + occ i k.
Proof. unfold occ. rewrite count_occ_app. lia. Qed.

Lemma occ_cons i j l : occ i (j :: l) = (if decide (j = i) then 1 else 0) + occ i l.
Proof.
  unfold occ. case_decide; subst.
  - rewrite count_occ_cons_eq by done. lia.
  - by rewrite count_occ_cons_neq.
Qed.

Lemma occ_elem i l : i ∈ l <-> 0 < occ i l.
Proof. unfold occ. rewrite list_elem_of_In, (count_occ_In Z.eq_dec). lia. Qed.

Lemma occ_not_elem i l : i ∉ l -> occ i l = 0.
Proof. rewrite occ_elem. unfold occ. lia. Qed.

Lemma occ_bound i l : 0 <= occ i l <= Z.of_nat (length l).
Proof. unfold occ. pose proof (count_occ_bound Z.eq_dec i l). lia. Qed.

#[global] Instance occ_proper i : Proper ((≡ₚ) ==> (=)) (occ i).
Proof. intros l k Hp. unfold occ. f_equal. by apply Permutation_count_occ. Qed.

(** An object at [i] with count [c] and host data [id]. *)
Definition fields (m : gmap Z Z) (i c id : Z) : Prop :=
  read_le m i 8 = header_externref /\
  read_le m (i + offset_of_ref_count) 8 = c /\
  read_le m (i + offset_of_host_data) 4 = id.

Section Invariant.
  Context {T : Type}.

Record drc_inv (hp : Mmap) (f : FreeList) (t : Slab T) (objs : gmap Z (Z * T)) (own : list Z) : Prop := {
  di_free : heap_inv f ((fun _ => size_of_externref) <$> objs);
  di_cap : GcFreeList.capacity f = mlen hp /\ size_of_externref <= max_size f;
  di_obj i id v : objs !! i = Some (id, v) -> fields (mbytes hp) i (occ i own) id;
  di_own i : i ∈ own <-> is_Some (objs !! i);
  di_small : Z.of_nat (length own) < 2 ^ 64;
  di_slab : slab_inv t;
  di_view id v : Slab.view t !! id = Some v <-> exists i, objs !! i = Some (id, v);
  di_inj i j id v v' : objs !! i = Some (id, v) -> objs !! j = Some (id, v') -> i = j
}.

Definition same_table (h h' : DrcHeap) : Prop :=
  activations_table h' = activations_table h /\ no_gc_count h' = no_gc_count h.

Lemma same_table_trans a b c : same_table a b -> same_table b c -> same_table a c.
Proof. unfold same_table. intuition congruence. Qed.

Lemma drc_inv_perm hp f t objs own own' :
  own ≡ₚ own' -> drc_inv hp f t objs own -> drc_inv hp f t objs own'.
Proof.
  intros Hp [? ? Ho Hw ? ? ? ?]. split; try done.
  - intros i id v Hi. rewrite <- Hp. by eapply Ho.
  - intros i. by rewrite <- Hp.
  - by rewrite <- Hp.
Qed.

Context (hp : Mmap) (f : FreeList) (t : Slab T) (objs : gmap Z (Z * T)) (own : list Z).
Hypothesis Hinv : drc_inv hp f t objs own.

Lemma obj_live i x : objs !! i = Some x ->
  8 <= i /\ i mod 8 = 0 /\ i + 24 <= region_end f /\ region_end f <= mlen hp /\ region_end f <= u32_max.
Proof using Hinv.
  destruct Hinv as [[_ Hl _ _] [Hc Hm] _ _ _ _ _ _]. intros Hi.
  destruct (Hl i 24) as (? & ? & _ & _ & ?); [by rewrite lookup_fmap, Hi|].
  destruct (max_size_bounds f) as (_ & _ & Hb). unfold size_of_externref in Hm.
  destruct Hb as [??]; [lia|]. unfold ALIGN in *. rewrite <- Hc. done.
Qed.

Lemma obj_heap_ref i x : objs !! i = Some x -> is_i31 i = false.
Proof using Hinv.
  intros (_ & Hm & _)%obj_live. rewrite is_i31_odd. rewrite (Z.div_mod i 8), Hm by done.
  by rewrite Z.add_0_r, Z.odd_mul.
Qed.

Lemma obj_apart i x j y : objs !! i = Some x -> objs !! j = Some y -> i <> j -> apart i 24 j 24.
Proof using Hinv.
  destruct Hinv as [[_ _ Ha _] _ _ _ _ _ _ _]. intros Hi Hj. apply Ha; by rewrite lookup_fmap, ?Hi, ?Hj.
Qed.

Lemma id_u32 id v : Slab.view t !! id = Some v -> in_u 32 id /\ 1 <= id.
Proof using Hinv.
  destruct Hinv as [_ _ _ _ _ [_ _ Hc] _ _]. intros [Hid Hl]%view_lookup_Some.
  apply lookup_lt_Some in Hl. unfold entry_index, MAX_CAPACITY, u32_max, in_u in *. lia.
Qed.

Lemma count_pos i id v : objs !! i = Some (id, v) -> 0 < occ i own < 2 ^ 64.
Proof using Hinv.
  intros Hi. destruct Hinv as [_ _ _ Hw Hs _ _ _]. pose proof (occ_bound i own).
  assert (0 < occ i own) by (apply occ_elem, Hw; by eexists). lia.
Qed.
End Invariant.

(** A write into one object leaves the others as they were. *)
Lemma fields_apart m a n v i j c id :
  apart i 24 j 24 -> i <= a -> a + Z.of_nat n <= i + 24 ->
  fields m j c id -> fields (write_le m a n v) j c id.
Proof.
  unfold fields, apart, offset_of_ref_count, offset_of_host_data.
  intros Ha H1 H2. rewrite !read_write_apart by lia. done.
Qed.

Lemma fields_count m i c c' id :
  in_u 64 c' -> fields m i c id -> fields (write_le m (i + offset_of_ref_count) 8 c') i c' id.
Proof.
  unfold fields, offset_of_ref_count, offset_of_host_data. intros Hc (? & ? & ?).
  split_and!; [by rewrite read_write_apart by lia| |by rewrite read_write_apart by lia].
  apply read_write_same. unfold in_u in Hc. change (256 ^ Z.of_nat 8) with (2 ^ 64). lia.
Qed.

Lemma fields_new m i id : in_u 32 id ->
  fields (write_le (write_le (write_le m i 8 header_externref) (i + offset_of_ref_count) 8 1)
            (i + offset_of_host_data) 4 id) i 1 id.
Proof.
  unfold fields, offset_of_ref_count, offset_of_host_data, in_u. intros Hid. split_and!.
  - rewrite !read_write_apart by lia. by apply read_write_same.
  - rewrite read_write_apart by lia. by apply read_write_same.
  - apply read_write_same. change (256 ^ Z.of_nat 4) with (2 ^ 32). lia.
Qed.

(** The sizes of the three views of an object are at most that of the whole. *)
Ltac size_tac := unfold size_of_gc_header, size_of_drc_header, size_of_externref; lia.

Section Counts.
  Context {T : Type} (oc dbg : bool).
  Implicit Types (h : DrcHeap) (t : Slab T) (objs : gmap Z (Z * T)).

(** The object at [i] lies in the mapping. *)
Definition placed h (i : Z) : Prop := is_i31 i = false /\ 0 <= i /\ i + 24 <= mlen (heap h).

Lemma obj_placed h f t objs own i x :
  drc_inv (heap h) f t objs own -> objs !! i = Some x -> placed h i.
Proof.
  intros Hinv Hi. pose proof (obj_live _ _ _ _ _ Hinv _ _ Hi) as (? & _ & ? & ? & _).
  split; [by eapply obj_heap_ref|lia].
Qed.

Lemma index_ok {E} h i sz : placed h i -> sz <= 24 -> index (E:=E) h sz i = Ok i.
Proof.
  intros (Hi & ? & ?) Hs. unfold index, as_heap_index. rewrite Hi. cbn [unwrap mbind outcome_bind].
  rewrite (proj2 (Z.leb_le i _)), (proj2 (Z.leb_le sz _)) by lia. done.
Qed.

Lemma as_typed_ok {E} h i c id : placed h i -> fields (mbytes (heap h)) i c id ->
  as_typed_externref (E:=E) dbg h i = Ok (Some i).
Proof.
  intros Hp (Hh & _ & _). unfold as_typed_externref, header. rewrite (proj1 Hp).
  rewrite (debug_assert_true dbg (negb false)) by done. cbn [mbind outcome_bind].
  rewrite (index_ok h i) by (done || size_tac). cbn [mbind outcome_bind]. by rewrite Hh.
Qed.

Lemma host_data_ok {E} h i c id : placed h i -> fields (mbytes (heap h)) i c id ->
  host_data (E:=E) h i = Ok id.
Proof.
  intros Hp (_ & _ & Hd). unfold host_data.
  rewrite (index_ok h i) by (done || size_tac). cbn [mbind outcome_bind]. by rewrite Hd.
Qed.

Lemma check_externref f : size_of_externref <= max_size f -> check_layout f layout_externref = Ok 24.
Proof.
  intros Hm. rewrite check_layout_total by (cbn; size_tac). cbn.
  unfold size_of_externref in *. by rewrite (proj2 (Z.leb_le 24 _)) by lia.
Qed.

(** Changing the count of one object. *)
Lemma set_count_inv hp f t objs own own' i id v c :
  drc_inv hp f t objs own -> objs !! i = Some (id, v) -> c = occ i own' ->
  (forall j, j <> i -> occ j own' = occ j own) -> i ∈ own' ->
  Z.of_nat (length own') < 2 ^ 64 ->
  drc_inv (with_mbytes hp (write_le (mbytes hp) (i + offset_of_ref_count) 8 c)) f t objs own'.
Proof.
  intros Hinv Hi -> Hother Hin Hs. pose proof Hinv as [? ? Ho Hw ? ? ? ?]. split; try done; cbn.
  - intros j jd w Hj. destruct (decide (j = i)) as [->|Hne].
    + simplify_eq. apply (fields_count _ _ (occ i own)); [|by eapply Ho].
      pose proof (occ_bound i own'). unfold in_u. lia.
    + rewrite (Hother j) by done. apply (fields_apart _ _ _ _ i); [by eapply obj_apart| | |by eapply Ho];
        unfold offset_of_ref_count; lia.
  - intros j. destruct (decide (j = i)) as [->|Hne]; [split; [by eexists|done]|].
    rewrite <- Hw, !occ_elem. by rewrite Hother.
Qed.

Lemma inc_ref_ok {E} h t objs own i :
  drc_inv (heap h) (free_list h) t objs own -> i ∈ own -> Z.of_nat (length own) + 1 < 2 ^ 64 ->
  exists h', inc_ref (E:=E) oc dbg h i = Ok h' /\ same_table h h' /\
    drc_inv (heap h') (free_list h') t objs (i :: own).
Proof.
  intros Hinv Hin Hs. pose proof Hin as Hin'. apply (di_own _ _ _ _ _ Hinv) in Hin' as [[id v] Hi].
  pose proof (count_pos _ _ _ _ _ Hinv _ _ _ Hi) as Hc.
  pose proof (di_obj _ _ _ _ _ Hinv _ _ _ Hi) as (_ & Hrc & _).
  pose proof (obj_placed _ _ _ _ _ _ _ Hinv Hi) as Hp.
  unfold inc_ref, drc_ref. rewrite (proj1 Hp).
  rewrite (debug_assert_true dbg (negb false)) by done. cbn [mbind outcome_bind].
  rewrite (index_ok h i) by (done || size_tac). cbn [mbind outcome_bind].
  unfold ref_count. rewrite Hrc, debug_assert_true by (by rewrite (proj2 (Z.eqb_neq _ _)) by lia).
  pose proof (occ_bound i own).
  cbn [mbind outcome_bind]. rewrite arith_ok by (unfold in_u; lia). cbn [mbind outcome_bind].
  eexists. split_and!; [done|done|].
  eapply set_count_inv; [done|done| | |set_solver|].
  - rewrite occ_cons. by case_decide; [lia|].
  - intros j Hj. rewrite occ_cons. by case_decide; [|lia].
  - cbn. lia.
Qed.

(** Dropping the count of an object to [own]; the flag says whether it has
    no owner left. *)
Lemma dec_ref_ok {E} h t objs own i id v :
  drc_inv (heap h) (free_list h) t objs (i :: own) -> objs !! i = Some (id, v) ->
  dec_ref (E:=E) oc dbg h i = Ok (set_ref_count h i (occ i own), bool_decide (i ∉ own)).
Proof.
  intros Hinv Hi. pose proof (count_pos _ _ _ _ _ Hinv _ _ _ Hi) as Hc.
  pose proof (di_obj _ _ _ _ _ Hinv _ _ _ Hi) as (_ & Hrc & _).
  pose proof (obj_placed _ _ _ _ _ _ _ Hinv Hi) as Hp.
  unfold dec_ref, drc_ref. rewrite (proj1 Hp).
  rewrite (debug_assert_true dbg (negb false)) by done. cbn [mbind outcome_bind].
  rewrite (index_ok h i) by (done || size_tac). cbn [mbind outcome_bind].
  unfold ref_count. rewrite Hrc, debug_assert_true by (by rewrite (proj2 (Z.eqb_neq _ _)) by lia).
  rewrite occ_cons in *. rewrite decide_True in * by done. pose proof (occ_bound i own).
  replace (1 + occ i own - 1) with (occ i own) by lia.
  cbn [mbind outcome_bind]. rewrite arith_ok by (unfold in_u; lia). cbn [mbind outcome_bind].
  do 2 f_equal. case_bool_decide as Hn.
  - by rewrite occ_not_elem.
  - apply Z.eqb_neq. destruct (decide (i ∈ own)) as [Hin%occ_elem|?]; [lia|done].
Qed.

(** The last owner of an object gone, the object is freed. *)
Lemma free_obj_inv hp f f' t t' objs own i id v c :
  drc_inv hp f t objs (i :: own) -> objs !! i = Some (id, v) -> i ∉ own ->
  heap_inv f' (delete i ((fun _ => size_of_externref) <$> objs)) ->
  GcFreeList.capacity f' = GcFreeList.capacity f ->
  slab_inv t' -> Slab.view t' = delete id (Slab.view t) ->
  drc_inv (with_mbytes hp (write_le (mbytes hp) (i + offset_of_ref_count) 8 c)) f' t' (delete i objs) own.
Proof.
  intros Hinv Hi Hn Hf Hc Ht Hv. pose proof Hinv as [_ [Hcap Hm] Ho Hw Hs _ Hview Hinj].
  split; cbn [mlen mbytes].
  - by rewrite fmap_delete.
  - rewrite Hc. unfold max_size in *. by rewrite Hc.
  - intros j jd w [Hne Hj]%lookup_delete_Some.
    apply (fields_apart _ _ _ _ i); [by eapply obj_apart|unfold offset_of_ref_count; lia..|].
    apply Ho in Hj. rewrite occ_cons, decide_False in Hj by done. done.
  - intros j. rewrite lookup_delete_is_Some, <- Hw, list.elem_of_cons. naive_solver.
  - cbn in Hs. lia.
  - done.
  - intros jd w. rewrite Hv, lookup_delete_Some, Hview. split.
    + intros [Hne [j Hj]]. exists j. rewrite lookup_delete_Some. split; [|done]. intros <-. congruence.
    + intros [j [Hne Hj]%lookup_delete_Some]. split; [|by exists j]. intros <-. by apply Hne, (Hinj i j id v w).
  - intros j k jd w w' [_ Hj]%lookup_delete_Some [_ Hk]%lookup_delete_Some. by eapply Hinj.
Qed.

Lemma dec_and_dealloc_ok {E} h t objs own own' i :
  drc_inv (heap h) (free_list h) t objs own' -> own' ≡ₚ i :: own ->
  exists h' t' objs', dec_ref_and_maybe_dealloc (E:=E) oc dbg h t i = Ok (h', t') /\
    same_table h h' /\ objs' ⊆ objs /\ drc_inv (heap h') (free_list h') t' objs' own.
Proof.
  intros Hinv Hp. apply (drc_inv_perm _ _ _ _ _ _ Hp) in Hinv. clear own' Hp.
  assert (is_Some (objs !! i)) as [[id v] Hi] by (apply (di_own _ _ _ _ _ Hinv); set_solver).
  unfold dec_ref_and_maybe_dealloc. rewrite (dec_ref_ok h t objs own i id v) by done.
  cbn [mbind outcome_bind]. case_bool_decide as Hn.
  - set (h1 := set_ref_count h i (occ i own)).
    pose proof (obj_placed _ _ _ _ _ _ _ Hinv Hi) as Hp. assert (Hp1 : placed h1 i) by exact Hp.
    assert (Hf : fields (mbytes (heap h1)) i (occ i own) id).
    { eapply fields_count; [|by eapply di_obj]. rewrite occ_not_elem by done. done. }
    rewrite (as_typed_ok h1 i _ _ Hp1 Hf). cbn [mbind outcome_bind].
    rewrite (host_data_ok h1 i _ _ Hp1 Hf). cbn [mbind outcome_bind].
    assert (Hv : Slab.view t !! id = Some v) by (apply (di_view _ _ _ _ _ Hinv); by exists i).
    destruct (slab_dealloc_ok (E:=E) oc t id v (di_slab _ _ _ _ _ Hinv) Hv) as (t' & Hd & Ht & Hview & _).
    unfold host_dealloc. rewrite Hd. cbn [mbind outcome_bind].
    unfold layout, as_heap_index. rewrite (proj1 Hp). cbn [mbind outcome_bind negb assert_ unwrap].
    destruct (heap_dealloc_ok (E:=E) oc dbg (free_list h) _ i layout_externref 24
      (di_free _ _ _ _ _ Hinv)) as (f' & Hd' & Hc & Hh).
    { by rewrite lookup_fmap, Hi. }
    { apply check_externref. by apply (di_cap _ _ _ _ _ Hinv). }
    change (free_list h1) with (free_list h). rewrite Hd'. cbn [mbind outcome_bind].
    exists (set_free_list h1 f'), t', (delete i objs).
    split_and!; [done|done|apply delete_subseteq|]. by eapply free_obj_inv.
  - assert (Hin : i ∈ own) by (by destruct (decide (i ∈ own))).
    eexists _, t, objs. split_and!; [done|done|done|].
    pose proof (di_small _ _ _ _ _ Hinv). cbn [length] in *.
    eapply set_count_inv; [done|done|done| |done|lia].
    intros j Hj. rewrite occ_cons. by rewrite decide_False.
Qed.

(** ** Room in the side table

    Live objects do not overlap, so there are at most as many as objects fit
    below the 32-bit bound, and the side table has no more entries: its growth
    stays within its maximum. *)

Lemma objs_bound hp f t objs own :
  drc_inv hp f t objs own -> Z.of_nat (base.size objs) <= 2 ^ 32 / 24.
Proof.
  intros Hinv. rewrite <- (length_map_to_list objs), <- (length_map fst), <- (length_map (fun i => i / 24)).
  set (l := map _ _). assert (Hnd : NoDup l).
  { apply NoDup_fmap_2_strong; [|apply NoDup_fst_map_to_list].
    intros i j [[i' x] [-> Hi%elem_of_map_to_list]]%list_elem_of_fmap
      [[j' y] [-> Hj%elem_of_map_to_list]]%list_elem_of_fmap. cbn.
    intros He. destruct (decide (i' = j')) as [|Hne]; [done|exfalso].
    pose proof (obj_apart _ _ _ _ _ Hinv _ _ _ _ Hi Hj Hne) as Ha. unfold apart in Ha.
    pose proof (Z.div_mod i' 24). pose proof (Z.div_mod j' 24).
    pose proof (Z.mod_pos_bound i' 24). pose proof (Z.mod_pos_bound j' 24). lia. }
  assert (Hsub : l ⊆ seqZ 0 (2 ^ 32 / 24)).
  { intros q [i [-> [[i' x] [-> Hi%elem_of_map_to_list]]%list_elem_of_fmap]]%list_elem_of_fmap. cbn.
    apply elem_of_seqZ. pose proof (obj_live _ _ _ _ _ Hinv _ _ Hi) as (? & _ & ? & _ & ?).
    unfold u32_max in *. split; [apply Z.div_pos; lia|].
    pose proof (Z.div_mod i' 24). pose proof (Z.mod_pos_bound i' 24).
    change (2 ^ 32 / 24) with 178956970. lia. }
  apply NoDup_submseteq, submseteq_length in Hsub; [|done]. rewrite length_seqZ in Hsub.
  change (2 ^ 32 / 24) with 178956970 in *. lia.
Qed.

Lemma full_table hp f t objs own :
  drc_inv hp f t objs own -> has_room t = false -> (length (entries t) <= base.size objs)%nat.
Proof.
  intros Hinv Hr. pose proof Hinv as [_ _ _ _ _ [(fl & Hc & _ & Hall) _ _] Hv _].
  unfold has_room in Hr. destruct (Slab.free t) eqn:Hf; [done|]. inversion Hc; subst fl.
  rewrite <- (length_map_to_list objs), <- (length_map (fun x => x.2.1)).
  rewrite <- (length_seq (length (entries t)) 0), <- (length_map key).
  apply submseteq_length, NoDup_submseteq.
  - apply NoDup_fmap_2; [|apply NoDup_seq]. unfold key. intros ??. lia.
  - intros id [k [-> Hk%elem_of_seq]]%list_elem_of_fmap.
    destruct (lookup_lt_is_Some_2 (entries t) k) as [[v|n] He]; [lia| |by apply Hall in He; set_solver].
    assert (Hvk : Slab.view t !! key k = Some v).
    { apply view_lookup_Some. rewrite entry_index_key. unfold key. split; [lia|done]. }
    apply Hv in Hvk as [i Hi]. apply list_elem_of_fmap. exists (i, (key k, v)). split; [done|].
    by apply elem_of_map_to_list.
Qed.

Lemma host_alloc_ok {E} hp f t objs own min_cap v :
  drc_inv hp f t objs own -> min_cap <= 2 ^ 31 ->
  exists id t', host_alloc (E:=E) oc min_cap t v = Ok (id, t') /\ slab_inv t' /\
    Slab.view t !! id = None /\ Slab.view t' = <[id := v]> (Slab.view t).
Proof.
  intros Hinv Hmin. pose proof (di_slab _ _ _ _ _ Hinv) as Ht.
  pose proof (slab_alloc_ok (E:=E) oc min_cap t v Ht) as Ha.
  destruct (has_room t) eqn:Hr.
  - destruct Ha as (id & t' & ? & _ & ? & ? & ?). by exists id, t'.
  - assert (grown min_cap t <=? MAX_CAPACITY = true) as Hg.
    { apply Z.leb_le. pose proof (full_table _ _ _ _ _ Hinv Hr). pose proof (objs_bound _ _ _ _ _ Hinv).
      unfold has_room in Hr. destruct (Slab.free t); [done|]. zbool.
      unfold grown, MAX_CAPACITY, MIN_CAPACITY, u32_max. change (2 ^ 32 / 24) with 178956970 in *. lia. }
    rewrite Hg in Ha. destruct Ha as (id & t' & ? & _ & ? & ? & ?). by exists id, t'.
Qed.

(** ** Allocation *)

Lemma alloc_obj_inv hp f f' t t' objs own i id v :
  drc_inv hp f t objs own -> objs !! i = None -> Z.of_nat (length own) + 1 < 2 ^ 64 ->
  heap_inv f' (<[i := size_of_externref]> ((fun _ => size_of_externref) <$> objs)) ->
  GcFreeList.capacity f' = GcFreeList.capacity f ->
  slab_inv t' -> Slab.view t !! id = None -> Slab.view t' = <[id := v]> (Slab.view t) -> in_u 32 id ->
  drc_inv (with_mbytes hp (write_le (write_le (write_le (mbytes hp) i 8 header_externref)
                         (i + offset_of_ref_count) 8 1) (i + offset_of_host_data) 4 id))
    f' t' (<[i := (id, v)]> objs) (i :: own).
Proof.
  intros Hinv Hi Hs Hf Hc Ht Hid Hv Hu. pose proof Hinv as [_ [Hcap Hm] Ho Hw _ _ Hview Hinj].
  assert (Hni : i ∉ own) by (rewrite Hw, Hi; by intros []).
  assert (Hnid : forall j w, objs !! j <> Some (id, w)).
  { intros j w Hj. rewrite (proj2 (Hview id w)) in Hid; [done|by exists j]. }
  assert (Hap : forall j x, objs !! j = Some x -> j <> i -> apart i 24 j 24).
  { intros j x Hj Hne. eapply (inv_apart _ _ Hf); [|rewrite lookup_insert_ne, lookup_fmap, Hj by done; done|done].
    by rewrite lookup_insert_eq. }
  split; cbn [mlen mbytes].
  - by rewrite fmap_insert.
  - rewrite Hc. unfold max_size in *. by rewrite Hc.
  - intros j jd w [[<- Hj]|[Hne Hj]]%lookup_insert_Some.
    + simplify_eq. rewrite occ_cons, decide_True, occ_not_elem by done. by apply fields_new.
    + rewrite occ_cons, decide_False by done.
      repeat (apply (fields_apart _ _ _ _ i); [by eapply Hap|unfold offset_of_ref_count, offset_of_host_data; lia..|]).
      by apply Ho in Hj.
  - intros j. rewrite list.elem_of_cons, Hw. destruct (decide (j = i)) as [->|Hne].
    + rewrite lookup_insert_eq. split; [by eexists|by left].
    + rewrite lookup_insert_ne by done. naive_solver.
  - cbn. lia.
  - done.
  - intros jd w. rewrite Hv, lookup_insert_Some, Hview. split.
    + intros [[<- <-]|[Hne [j Hj]]]; [exists i; apply lookup_insert_eq|].
      exists j. rewrite lookup_insert_ne; [done|]. intros <-. congruence.
    + intros [j [[<- [= <- <-]]|[Hne Hj]]%lookup_insert_Some]; [by left|right].
      split; [|by exists j]. intros <-. by apply Hnid in Hj.
  - intros j k jd w w' [[<- [= <- <-]]|[Hne Hj]]%lookup_insert_Some [[<- Hk]|[Hne' Hk]]%lookup_insert_Some;
      [done|by apply Hnid in Hk|simplify_eq; by apply Hnid in Hj|by eapply Hinj].
Qed.

Lemma alloc_externref_ok h t t' objs own id v :
  drc_inv (heap h) (free_list h) t objs own -> Z.of_nat (length own) + 1 < 2 ^ 64 ->
  slab_inv t' -> Slab.view t !! id = None -> Slab.view t' = <[id := v]> (Slab.view t) ->
  alloc_externref oc dbg h id = Ok (None, h) \/
  exists i h', alloc_externref oc dbg h id = Ok (Some i, h') /\ same_table h h' /\ 0 < i < 2 ^ 32 /\
    objs !! i = None /\ drc_inv (heap h') (free_list h') t' (<[i := (id, v)]> objs) (i :: own).
Proof.
  intros Hinv Hs Ht Hid Hv.
  assert (Hu : in_u 32 id).
  { assert (Hin : Slab.view t' !! id = Some v) by (rewrite Hv; apply lookup_insert_eq).
    destruct Ht as [_ _ Hc]. apply view_lookup_Some in Hin as [? Hl%lookup_lt_Some].
    unfold entry_index, MAX_CAPACITY, u32_max, in_u in *. lia. }
  destruct (di_cap _ _ _ _ _ Hinv) as [Hcap Hm].
  pose proof (check_externref _ Hm) as Hc. unfold alloc_externref.
  pose proof (heap_alloc_ok oc dbg (free_list h) _ layout_externref 24 (di_free _ _ _ _ _ Hinv) Hc) as Ha.
  destruct (bt_find _ _) as [[i n]|]; [|left; rewrite Ha by done; by destruct h].
  right. destruct Ha as (f' & -> & Hcap' & Hn & Hf); [done|]. cbn [mbind outcome_bind].
  rewrite lookup_fmap, fmap_None in Hn.
  destruct (inv_live _ _ Hf i 24) as (H8 & Hmod & _ & _ & Hend); [apply lookup_insert_eq|].
  assert (Hreg : region_end f' <= mlen (heap h) /\ region_end f' <= u32_max).
  { rewrite <- Hcap, <- Hcap'. apply max_size_bounds. unfold max_size, size_of_externref in *.
    rewrite Hcap'. lia. }
  unfold ALIGN, u32_max in *.
  assert (Hev : is_i31 i = false).
  { rewrite is_i31_odd, (Z.div_mod i 8), Hmod by done. by rewrite Z.add_0_r, Z.odd_mul. }
  assert (Hfrom : from_heap_index i = Some i).
  { unfold from_heap_index, is_i31 in *. by destruct (_ =? 0). }
  rewrite Hfrom. cbn [unwrap mbind outcome_bind]. rewrite Hev.
  rewrite (debug_assert_true dbg (negb false)) by done. cbn [mbind outcome_bind].
  rewrite index_ok by first [size_tac | split; [done|cbn [heap set_free_list]; lia]]. cbn [mbind outcome_bind].
  eexists i, _. split_and!; [done|done|lia|lia|done|]. by eapply alloc_obj_inv.
Qed.

(** ** Sweeping lists of references *)

Lemma valid_slot {E} r : 0 < r < 2 ^ 32 ->
  (r ← unwrap_result (E':=E) (from_r64 (into_r64 r)); unwrap (E:=E) r) = Ok r.
Proof.
  intros Hr. rewrite from_r64_ok by (unfold in_u; lia). unfold from_raw_u32.
  by rewrite (proj2 (Z.eqb_neq _ _)) by lia.
Qed.

Lemma owner_valid hp f t objs own i : drc_inv hp f t objs own -> i ∈ own -> 0 < i < 2 ^ 32.
Proof.
  intros Hinv [x Hi]%(di_own _ _ _ _ _ Hinv). pose proof (obj_live _ _ _ _ _ Hinv _ _ Hi) as (? & _ & ? & _ & ?).
  unfold u32_max in *. lia.
Qed.

Lemma sweep_set_ok {E} l h t objs own own' :
  drc_inv (heap h) (free_list h) t objs own' -> own' ≡ₚ l ++ own ->
  exists h' t' objs', sweep_set (E:=E) oc dbg h t l = Ok (h', t') /\
    same_table h h' /\ objs' ⊆ objs /\ drc_inv (heap h') (free_list h') t' objs' own.
Proof.
  revert h t objs own'. induction l as [|i l IH]; intros h t objs own' Hinv Hp; cbn [sweep_set].
  - exists h, t, objs. split_and!; [done|done|done|]. by eapply drc_inv_perm.
  - destruct (dec_and_dealloc_ok (E:=E) h t objs (l ++ own) own' i Hinv Hp) as (h1 & t1 & o1 & -> & Hs1 & Ho1 & H1).
    cbn [mbind outcome_bind].
    destruct (IH h1 t1 o1 (l ++ own) H1) as (h2 & t2 & o2 & -> & Hs2 & Ho2 & H2); [done|].
    exists h2, t2, o2. split_and!; [done|by eapply same_table_trans|by etrans|done].
Qed.

Lemma sweep_slots_set {E} l h t :
  Forall (fun r => 0 < r < 2 ^ 32) l -> sweep_slots (E:=E) oc dbg h t l = sweep_set (E:=E) oc dbg h t l.
Proof.
  intros Hl. revert h t. induction Hl as [|r l Hr _ IH]; intros h t; cbn [sweep_slots sweep_set]; [done|].
  pose proof (valid_slot (E:=E) r Hr) as Hv. unfold into_r64 in Hv.
  destruct (unwrap_result (from_r64 r)) as [o|e|]; cbn [mbind outcome_bind] in *; [|done|done]. rewrite Hv.
  cbn [mbind outcome_bind]. destruct (dec_ref_and_maybe_dealloc _ _ _ _ _) as [[h1 t1]|e|]; cbn [mbind outcome_bind]; auto.
Qed.

(** ** Tracing *)

Definition traced (roots : list GcRoot) : gset Z :=
  list_to_set (omap (fun r => match r with
                              | Stack r64 => if is_i31 r64 then None else Some r64
                              | NonStack _ => None
                              end) roots).

Lemma precise_small (X : gset Z) (own : list Z) :
  X ⊆ list_to_set own -> (length (elements X) <= length own)%nat.
Proof.
  intros Hs. apply submseteq_length, NoDup_submseteq; [apply NoDup_elements|]. set_solver.
Qed.

Lemma trace_roots_ok {E} set roots h t objs own own' :
  drc_inv (heap h) (free_list h) t objs own' ->
  own' ≡ₚ elements (precise_stack_roots (activations_table h)) ++ own ->
  precise_stack_roots (activations_table h) ⊆ list_to_set own ->
  Z.of_nat (length own) < 2 ^ 62 ->
  (forall r, Stack r ∈ roots -> 0 < r < 2 ^ 32 /\ (is_i31 r = false -> r ∈ own /\ (dbg = true -> r ∈ set))) ->
  exists h', trace_roots (E:=E) oc dbg set h roots = Ok h' /\ no_gc_count h' = no_gc_count h /\
    activations_table h' =
      {| alloc := alloc (activations_table h);
         over_approximated_stack_roots := over_approximated_stack_roots (activations_table h);
         precise_stack_roots := traced roots ∪ precise_stack_roots (activations_table h) |} /\
    drc_inv (heap h') (free_list h') t objs (elements (precise_stack_roots (activations_table h')) ++ own).
Proof.
  revert h own'. induction roots as [|root roots IH]; intros h own' Hinv Hp Hsub Hsm Hr; cbn [trace_roots].
  - exists h. split_and!; [done|done| |by eapply drc_inv_perm].
    destruct (activations_table h). cbn. f_equal. set_solver.
  - assert (Hr' : forall r, Stack r ∈ roots ->
        0 < r < 2 ^ 32 /\ (is_i31 r = false -> r ∈ own /\ (dbg = true -> r ∈ set)))
      by (intros; apply Hr; set_solver).
    destruct root as [r|r]; cbn [is_on_wasm_stack negb]; [|by apply (IH h own')].
    destruct (Hr r) as [Hv Hin]; [set_solver|]. cbn [root_get].
    pose proof (valid_slot (E:=E) r Hv) as Hvs. unfold into_r64 in Hvs. rewrite Hvs. cbn [mbind outcome_bind].
    rewrite (debug_assert_when dbg (_ || _)) by
      (intros Hd; destruct (is_i31 r); [done|]; by apply bool_decide_eq_true, Hin).
    cbn [mbind outcome_bind]. unfold traced. cbn [omap list_omap]. destruct (is_i31 r) eqn:Hi31; [by apply (IH h own')|].
    destruct Hin as [Hin _]; [done|]. apply (drc_inv_perm _ _ _ _ _ _ Hp) in Hinv.
    assert (Hin' : r ∈ elements (precise_stack_roots (activations_table h)) ++ own) by set_solver.
    pose proof Hin' as [[id v] Hi]%(di_own _ _ _ _ _ Hinv).
    match goal with |- context [?x ≫= _] => replace x with (Ok (E:=E) ()) end; cycle 1.
    { destruct dbg; [|done]. rewrite (index_ok h r) by (size_tac || by eapply obj_placed).
      cbn [mbind outcome_bind]. unfold ref_count.
      destruct (di_obj _ _ _ _ _ Hinv _ _ _ Hi) as (_ & -> & _).
      pose proof (count_pos _ _ _ _ _ Hinv _ _ _ Hi). by rewrite (proj2 (Z.eqb_neq _ _)) by lia. }
    cbn [mbind outcome_bind]. case_bool_decide as Hnew.
    + destruct (inc_ref_ok (E:=E) (add_precise h r) t objs _ r Hinv Hin') as (h1 & -> & [Ht1 Hg1] & H1).
      { rewrite length_app. pose proof (precise_small _ _ Hsub). lia. }
      cbn [mbind outcome_bind].
      destruct (IH h1 _ H1) as (h2 & Htr & Hg2 & Ht2 & H2); [..|done|done|].
      * rewrite Ht1. cbn. rewrite elements_union_singleton by done. done.
      * rewrite Ht1. cbn. set_solver.
      * exists h2. split_and!; [done|by rewrite Hg2, Hg1| |done]. rewrite Ht2, Ht1. cbn. f_equal. set_solver.
    + destruct (IH h _ Hinv) as (h2 & Htr & Hg2 & Ht2 & H2); [done..|].
      exists h2. split_and!; [done|done| |done]. rewrite Ht2. f_equal. cbn. set_solver.
Qed.

(** ** The table *)

Definition filled (a : VMGcRefTableAlloc) : list Z := take (next a) (chunk a).

Record table_ok (a : VMGcRefTableAlloc) : Prop := {
  to_next : (next a <= end_ a)%nat;
  to_end : end_ a = length (chunk a);
  to_zero : dbg = true -> Forall (fun s => s = 0) (drop (next a) (chunk a))
}.

Lemma num_filled_ok tb : table_ok (alloc tb) -> num_filled_in_bump_chunk tb = next (alloc tb).
Proof.
  intros [Hn He _]. unfold num_filled_in_bump_chunk, saturating_sub, size_of_elem.
  rewrite <- He. replace (8 * Z.of_nat (end_ (alloc tb)) - 8 * Z.of_nat (next (alloc tb)))
    with ((Z.of_nat (end_ (alloc tb)) - Z.of_nat (next (alloc tb))) * 8) by lia.
  rewrite Z.div_mul by done. lia.
Qed.

Lemma expose_insert_ok {E} tb r :
  table_ok (alloc tb) ->
  exists tb', insert_without_gc (E:=E) dbg tb r = Ok tb' /\ table_ok (alloc tb') /\
    precise_stack_roots tb' = precise_stack_roots tb /\
    if decide (next (alloc tb) = end_ (alloc tb)) then
      alloc tb' = alloc tb /\ over_approximated_stack_roots tb' = {[r]} ∪ over_approximated_stack_roots tb
    else
      filled (alloc tb') = filled (alloc tb) ++ [r] /\
      over_approximated_stack_roots tb' = over_approximated_stack_roots tb.
Proof.
  intros Hok. pose proof Hok as [Hn He Hz]. unfold insert_without_gc, try_insert.
  destruct (Nat.eqb_spec (next (alloc tb)) (end_ (alloc tb))) as [Heq|Hne].
  - cbn [mbind outcome_bind]. eexists. split_and!; [done|done|done|]. by rewrite decide_True.
  - destruct (lookup_lt_is_Some_2 (chunk (alloc tb)) (next (alloc tb))) as [s Hs]; [lia|].
    rewrite Hs. cbn [unwrap mbind outcome_bind].
    rewrite (debug_assert_when dbg (s =? 0)).
    2:{ intros Hd. apply Hz in Hd. rewrite (drop_S _ _ _ Hs) in Hd. inversion Hd; subst. done. }
    cbn [mbind outcome_bind]. rewrite debug_assert_true by (apply Nat.leb_le; lia).
    cbn [mbind outcome_bind]. eexists. rewrite decide_False by done. split_and!; [done| |done| |done]; cbn.
    + split; cbn; [lia|by rewrite length_insert|]. intros Hd. rewrite drop_insert_lt by lia.
      apply Hz in Hd. rewrite (drop_S _ _ _ Hs) in Hd. by inversion Hd.
    + unfold filled. cbn. rewrite (take_S_r _ _ (into_r64 r)) by (apply list_lookup_insert_eq; lia).
      by rewrite take_insert_ge by lia.
Qed.

(** ** Sweeping *)

Definition swept (tb : VMGcRefActivationsTable) (own : list Z) : list Z :=
  filled (alloc tb) ++ elements (over_approximated_stack_roots tb) ++ own.

Lemma sweep_chunk_ok {E} h t objs own own' :
  table_ok (alloc (activations_table h)) ->
  drc_inv (heap h) (free_list h) t objs own' -> own' ≡ₚ filled (alloc (activations_table h)) ++ own ->
  exists h' t' objs' ch, drain_bump_chunk (E:=E) oc dbg h t = Ok (h', t') /\ objs' ⊆ objs /\
    drc_inv (heap h') (free_list h') t' objs' own /\ no_gc_count h' = no_gc_count h /\
    length ch = length (chunk (alloc (activations_table h))) /\
    (dbg = true -> Forall (fun s => s = 0) ch) /\
    activations_table h' =
      {| alloc := {| next := next (alloc (activations_table h)); end_ := end_ (alloc (activations_table h));
                     chunk := ch |};
         over_approximated_stack_roots := over_approximated_stack_roots (activations_table h);
         precise_stack_roots := precise_stack_roots (activations_table h) |}.
Proof.
  intros Hok Hinv Hp. unfold drain_bump_chunk. rewrite num_filled_ok by done. cbn zeta.
  set (a := alloc (activations_table h)) in *.
  rewrite sweep_slots_set.
  2:{ apply list.Forall_forall. intros r Hr. eapply owner_valid; [exact Hinv|]. rewrite Hp. set_solver. }
  destruct (sweep_set_ok (E:=E) (filled a) (set_alloc h table_alloc_default) t objs own own' Hinv Hp)
    as (h1 & t1 & o1 & Hs & [Ht1 Hg1] & Ho1 & H1).
  unfold filled in Hs. rewrite Hs. cbn [mbind outcome_bind].
  destruct Hok as [Hn He Hz].
  set (ch := replicate _ 0 ++ drop _ _).
  assert (Hzero : dbg = true -> Forall (fun s => s = 0) ch).
  { intros Hd. apply list.Forall_app. split; [by apply Forall_replicate|by apply Hz]. }
  rewrite (debug_assert_when dbg (forallb _ _)).
  2:{ intros Hd. apply forallb_forall. intros s Hs'. apply Z.eqb_eq.
      apply Hzero in Hd. rewrite list.Forall_forall in Hd. apply Hd. by apply list_elem_of_In. }
  cbn [mbind outcome_bind]. rewrite Ht1. cbn [alloc set_alloc set_table activations_table chunk table_alloc_default].
  rewrite debug_assert_true by done. cbn [mbind outcome_bind].
  eexists _, t1, o1, ch. split_and!; [done|done|done| | |done|].
  - by cbn; rewrite Hg1.
  - unfold ch. rewrite length_app, length_replicate, length_drop. lia.
  - cbn. by rewrite Ht1.
Qed.

Context (order : gset Z -> list Z) (Horder : forall X, order X ≡ₚ elements X).

Lemma sweep_ok {E} h t objs own own' :
  table_ok (alloc (activations_table h)) ->
  drc_inv (heap h) (free_list h) t objs own' -> own' ≡ₚ swept (activations_table h) own ->
  exists h' t' objs', sweep (E:=E) oc dbg order h t = Ok (h', t') /\ objs' ⊆ objs /\
    drc_inv (heap h') (free_list h') t' objs' own /\ no_gc_count h' = no_gc_count h /\
    table_ok (alloc (activations_table h')) /\ filled (alloc (activations_table h')) = [] /\
    over_approximated_stack_roots (activations_table h') = precise_stack_roots (activations_table h) /\
    precise_stack_roots (activations_table h') = ∅.
Proof using Horder.
  intros Hok Hinv Hp. unfold sweep.
  destruct (sweep_chunk_ok (E:=E) h t objs (elements (over_approximated_stack_roots (activations_table h)) ++ own) own' Hok Hinv Hp)
    as (h1 & t1 & o1 & ch & -> & Ho1 & H1 & Hg1 & Hlen & Hz & Ht1). cbn [mbind outcome_bind].
  rewrite Ht1. cbn [alloc chunk]. set (c := {| next := _; end_ := _; chunk := ch |}).
  assert (exists a, match ch with [] => force_allocation (E:=E) c | _ => Ok (alloc_reset c) end = Ok a /\
    table_ok a /\ filled a = []) as (a & -> & Ha & Hf).
  { destruct ch as [|x ch].
    - eexists. split_and!; [done| |done]. split; cbn; [lia|done|]. intros _. by apply (Forall_replicate _ CHUNK_SIZE).
    - eexists. split_and!; [done| |done]. split; cbn; [lia|done|exact Hz]. }
  cbn [mbind outcome_bind]. cbn [set_alloc set_table set_roots activations_table over_approximated_stack_roots precise_stack_roots alloc].
  rewrite Ht1. cbn [over_approximated_stack_roots precise_stack_roots].
  edestruct (sweep_set_ok (E:=E) (order (over_approximated_stack_roots (activations_table h))))
    as (h2 & t2 & o2 & -> & [Ht2 Hg2] & Ho2 & H2); [exact H1|by rewrite Horder|].
  cbn [mbind outcome_bind]. eexists _, t2, o2. split_and!; [done|by etrans|exact H2|..]; cbn.
  - by rewrite Hg2.
  - by rewrite Ht2.
  - by rewrite Ht2.
  - by rewrite Ht2.
  - done.
Qed.

Lemma slot_refs_ok {E} l : Forall (fun r => 0 < r < 2 ^ 32) l -> slot_refs (E:=E) l = Ok l.
Proof using Type.
  induction 1 as [|r l Hr _ IH]; cbn [slot_refs]; [done|].
  pose proof (from_r64_ok r) as Hf. unfold into_r64 in Hf. rewrite Hf by (unfold in_u; lia).
  unfold from_raw_u32. rewrite (proj2 (Z.eqb_neq _ _)) by lia. cbn [unwrap_result mbind outcome_bind].
  by rewrite IH.
Qed.

(** ** A collection *)

Lemma gc_ok {E} h t objs own own' roots :
  table_ok (alloc (activations_table h)) -> precise_stack_roots (activations_table h) = ∅ ->
  no_gc_count h = 0 ->
  drc_inv (heap h) (free_list h) t objs own' -> own' ≡ₚ swept (activations_table h) own ->
  Z.of_nat (length own') < 2 ^ 62 ->
  (forall r, Stack r ∈ roots -> 0 < r < 2 ^ 32 /\
     (is_i31 r = false -> r ∈ filled (alloc (activations_table h)) \/
                          r ∈ over_approximated_stack_roots (activations_table h))) ->
  exists h' t' objs', gc (E:=E) oc dbg order h t roots = Some (Ok (h', t')) /\ objs' ⊆ objs /\
    drc_inv (heap h') (free_list h') t' objs' (elements (traced roots) ++ own) /\ no_gc_count h' = 0 /\
    table_ok (alloc (activations_table h')) /\ filled (alloc (activations_table h')) = [] /\
    over_approximated_stack_roots (activations_table h') = traced roots /\
    precise_stack_roots (activations_table h') = ∅.
Proof using Horder.
  intros Hok Hpr Hg Hinv Hp Hs Hr. unfold gc. rewrite Hg. cbn [Z.eqb collect collect_increment phase c_heap Drc.roots c_table].
  unfold trace. rewrite debug_assert_true by (by apply bool_decide_eq_true). cbn [mbind outcome_bind].
  set (set0 := over_approximated_stack_roots (activations_table h) ∪ list_to_set (filled (alloc (activations_table h)))).
  assert (Hel : elements_ (E:=E) (activations_table h) = Ok set0).
  { unfold elements_. rewrite num_filled_ok by done. rewrite slot_refs_ok; [done|].
    apply list.Forall_forall. intros r Hin. eapply owner_valid; [exact Hinv|]. rewrite Hp. unfold swept, filled. set_solver. }
  rewrite Hel. set (set := if dbg then _ else _).
  assert (exists X, set = Ok X /\ (dbg = true -> X = set0)) as (X & -> & HX).
  { unfold set. clear -dbg. destruct dbg; eexists; (split; [done|]); done. }
  cbn [mbind outcome_bind].
  destruct (trace_roots_ok (E:=E) X roots h t objs own' own' Hinv) as (h1 & -> & Hg1 & Ht1 & H1).
  { by rewrite Hpr, elements_empty. }
  { rewrite Hpr. set_solver. }
  { done. }
  { intros r Hin. destruct (Hr r Hin) as [Hv Hm]. split; [done|]. intros Hi. specialize (Hm Hi). split.
    - rewrite Hp. unfold swept. set_solver.
    - intros ->%HX. unfold set0. set_solver. }
  cbn [mbind outcome_bind c_heap c_table phase collect_increment].
  edestruct (sweep_ok (E:=E) h1 t objs (elements (traced roots) ++ own)) as (h2 & t2 & o2 & -> & Ho2 & H2 & Hg2 & Hok2 & Hf2 & Hov2 & Hp2).
  { by rewrite Ht1. }
  { exact H1. }
  { rewrite Ht1, Hpr. cbn. rewrite (right_id_L ∅ (∪)), Hp. unfold swept. cbn. solve_Permutation. }
  cbn [mbind outcome_bind c_heap c_table]. exists h2, t2, o2. split_and!; try done.
  - by rewrite Hg2, Hg1.
  - by rewrite Hov2, Ht1, Hpr; cbn; rewrite (right_id_L ∅ (∪)).
Qed.
End Counts.

(** C25: A collection terminates: whatever its phase, its loop ends after at most
    two increments, with the same result however much longer it may run. *)
Theorem collect_terminates {T E} oc dbg order (c : DrcCollection T) :
  exists n r, (n <= 2)%nat /\ forall m, (n <= m)%nat -> collect (E:=E) oc dbg order m c = Some r.
Proof.
  assert (Hone : forall c' : DrcCollection T, phase c' <> Trace -> exists r, forall m, (1 <= m)%nat -> collect (E:=E) oc dbg order m c' = Some r).
  { intros c' Hc. destruct (collect_increment (E:=E) oc dbg order c') as [[c1 p]|e|] eqn:Hi.
    - exists (Ok c1). intros [|m] Hm; [lia|]. cbn [collect]. rewrite Hi.
      unfold collect_increment in Hi. destruct (phase c'); [done| |by simplify_eq].
      apply bind_Ok_inv in Hi as ([h t] & _ & Hi). by simplify_eq.
    - exists (Err e). intros [|m] Hm; [lia|]. cbn [collect]. by rewrite Hi.
    - exists Panic. intros [|m] Hm; [lia|]. cbn [collect]. by rewrite Hi. }
  destruct (decide (phase c = Trace)) as [Ht|Ht].
  2:{ destruct (Hone c) as [r Hr]; [done|]. exists 1%nat, r. split; [lia|done]. }
  unfold collect_increment in *.
  destruct (trace (E:=E) oc dbg (c_heap c) (roots c)) as [h|e|] eqn:Htr.
  - destruct (Hone {| roots := []; c_table := c_table c; c_heap := h; phase := Sweep |}) as [r Hr]; [done|].
    exists 2%nat, r. split; [lia|]. intros [|m] Hm; [lia|]. cbn [collect]. unfold collect_increment at 1.
    rewrite Ht, Htr. cbn [mbind outcome_bind]. apply Hr. lia.
  - exists 1%nat, (Err e). split; [lia|]. intros [|m] Hm; [lia|]. cbn [collect]. unfold collect_increment.
    by rewrite Ht, Htr.
  - exists 1%nat, Panic. split; [lia|]. intros [|m] Hm; [lia|]. cbn [collect]. unfold collect_increment.
    by rewrite Ht, Htr.
Qed.
