(* ===== verification/GcStore.v ===== *)
(** * Clients of the garbage collected store

    What a program does with the store of [Drc]: the host allocates, clones,
    overwrites and drops references it holds, hands them to compiled code, which
    copies and forgets them, and asks for collections.  A [world] is the store
    with what its clients hold: [held] are the references owned by host code
    (variables, globals and table elements), [stack] those in frames of compiled
    code, which own nothing and rely on the table of the collector, [lost]
    the counts that no reference stands for any more, and [given] the value each
    reference was created for.  The theorems say that a reference that can
    still be used is never freed, that no operation panics, that a collection
    terminates and frees everything else, and where counts are lost. *)

From Stdlib Require Import ZArith Lia.
From stdpp Require Import base list gmap numbers option sets.
From S2P Require Import Prelude MemoryTypes Mappings LinearMemory Slab GcFreeList GcRef Drc.
Open Scope Z_scope.

(** ** The barriers leave the table of compiled code alone *)

Section Barriers.
  Context {T E : Type} (oc dbg : bool).
  Implicit Types (h : DrcHeap) (t : Slab T).

Lemma inc_ref_same h r h' : inc_ref (E:=E) oc dbg h r = Ok h' -> same_table h h'.
Proof.
  unfold inc_ref. destruct (is_i31 r); [by intros [= <-]|]. intros Hx. outcome_inv. done.
Qed.

Lemma dec_ref_same h r h' z : dec_ref (E:=E) oc dbg h r = Ok (h', z) -> same_table h h'.
Proof.
  unfold dec_ref. destruct (is_i31 r); [by intros [= <- _]|]. intros Hx. outcome_inv. by simplify_eq.
Qed.

Lemma dealloc_same h t r h' t' :
  dec_ref_and_maybe_dealloc (E:=E) oc dbg h t r = Ok (h', t') -> same_table h h'.
Proof.
  unfold dec_ref_and_maybe_dealloc. intros Hx. apply bind_Ok_inv in Hx as ([h1 z] & Hd%dec_ref_same & Hx).
  eapply same_table_trans; [exact Hd|]. destruct z; [|by injection Hx as <- _].
  repeat apply bind_Ok_inv in Hx as (? & _ & Hx). by injection Hx as <- _.
Qed.

Lemma write_gc_ref_same h t d src h' t' d' :
  write_gc_ref (E:=E) oc dbg h t d src = Ok (h', t', d') -> same_table h h'.
Proof.
  unfold write_gc_ref. intros Hx. apply bind_Ok_inv in Hx as (h1 & Hi & Hx).
  apply bind_Ok_inv in Hx as ([h2 t2] & Hd & Hx). injection Hx as <- _ _.
  apply (same_table_trans _ h1).
  - destruct src; [by eapply inc_ref_same|by injection Hi as ->].
  - destruct d; [by eapply dealloc_same|by injection Hd as -> _].
Qed.

Lemma alloc_externref_same h id r h' : Drc.alloc_externref oc dbg h id = Ok (r, h') -> same_table h h'.
Proof.
  unfold Drc.alloc_externref. intros Hx. apply bind_Ok_inv in Hx as ([o f] & _ & Hx).
  destruct o as [i|]; [|by simplify_eq]. outcome_inv. by simplify_eq.
Qed.
End Barriers.

Section World.
  Context {T : Type} (hp : Z) (oc dbg : bool) (min_cap : Z) (order : gset Z -> list Z).

#[local] Instance heap_ops : GcHeap T DrcHeap := DrcHeap_GcHeap oc dbg order.

Record world := {
  store : GcStore T DrcHeap;
  held : list Z;
  stack : list Z;
  lost : list Z;
  given : gmap Z T
}.

Definition w_table (w : world) : VMGcRefActivationsTable := activations_table (gc_heap (store w)).
Definition heap_refs (l : list Z) : list Z := filter (fun r => is_i31 r = false) l.

(** The owners of the objects: host code, the table, and the lost counts. *)
Definition owners (w : world) : list Z :=
  swept (w_table w) (heap_refs (held w) ++ lost w).

Definition small (w : world) : Prop := Z.of_nat (length (owners w)) < 2 ^ 62.

(** Exposing [r] loses a count when the chunk is full and the set already
    has [r]. *)
Definition loses (w : world) (r : Z) : bool :=
  negb (is_i31 r) && bool_decide (next (alloc (w_table w)) = end_ (alloc (w_table w))) &&
  bool_decide (r ∈ over_approximated_stack_roots (w_table w)).

(** The roots of a collection show every reference of a frame. *)
Definition shows (roots : list GcRoot) (l : list Z) : Prop :=
  forall r64, Stack r64 ∈ roots <-> exists r, r ∈ l /\ r64 = into_r64 r.

Definition owned_slot (d : option Z) (l rest : list Z) : Prop :=
  match d with Some r => l ≡ₚ r :: rest | None => l ≡ₚ rest end.
Definition borrowed (src : option Z) (l : list Z) : Prop :=
  match src with Some r => r ∈ l | None => True end.
Definition push_slot (d : option Z) (l : list Z) : list Z :=
  match d with Some r => r :: l | None => l end.

Inductive gc_step (w : world) : world -> Prop :=
| step_alloc v s' r :
    store_alloc_externref oc min_cap (store w) v = (s', Ok (inl r)) ->
    gc_step w {| store := s'; held := r :: held w; stack := stack w; lost := lost w;
                 given := <[r := v]> (given w) |}
| step_alloc_full v s' v' :
    store_alloc_externref oc min_cap (store w) v = (s', Ok (inr v')) ->
    gc_step w {| store := s'; held := held w; stack := stack w; lost := lost w; given := given w |}
| step_i31 i :
    gc_step w {| store := store w; held := wrapping_u32 i :: held w; stack := stack w; lost := lost w;
                 given := given w |}
| step_clone r r' s' :
    r ∈ held w ++ stack w -> store_clone_gc_ref (store w) r = Ok (r', s') ->
    gc_step w {| store := s'; held := r' :: held w; stack := stack w; lost := lost w; given := given w |}
| step_drop r rest s' :
    held w ≡ₚ r :: rest -> store_drop_gc_ref (store w) r = Ok s' ->
    gc_step w {| store := s'; held := rest; stack := stack w; lost := lost w; given := given w |}
| step_write d src d' rest s' :
    owned_slot d (held w) rest -> borrowed src (held w ++ stack w) ->
    store_write_gc_ref (store w) d src = Ok (s', d') ->
    gc_step w {| store := s'; held := push_slot d' rest; stack := stack w; lost := lost w; given := given w |}
| step_expose r rest s' :
    held w ≡ₚ r :: rest -> store_expose_gc_ref_to_wasm (store w) r = Ok s' ->
    gc_step w {| store := s'; held := rest; stack := r :: stack w;
                 lost := if loses w r then r :: lost w else lost w; given := given w |}
| step_wasm stack' :
    (forall r, r ∈ stack' -> r ∈ stack w \/ exists i, r = wrapping_u32 i) ->
    gc_step w {| store := store w; held := held w; stack := stack'; lost := lost w; given := given w |}
| step_gc roots s' :
    shows roots (stack w) -> store_gc (store w) roots = Some (Ok s') ->
    gc_step w {| store := s'; held := held w; stack := stack w; lost := lost w; given := given w |}
| step_scope h' :
    gh_enter_no_gc_scope (GcHeap:=heap_ops) (gc_heap (store w)) = Ok h' \/
    gh_exit_no_gc_scope (GcHeap:=heap_ops) (gc_heap (store w)) = Ok h' ->
    gc_step w {| store := {| gc_heap := h'; host_data_table := host_data_table (store w) |};
                 held := held w; stack := stack w; lost := lost w; given := given w |}
| step_mut r v s' :
    r ∈ held w ++ stack w -> is_i31 r = false ->
    store_externref_host_data_mut (store w) r v = Ok s' ->
    gc_step w {| store := s'; held := held w; stack := stack w; lost := lost w; given := <[r := v]> (given w) |}
| step_recycle :
    (dbg = true -> Forall (fun s => s = 0) (chunk (alloc (w_table w)))) ->
    gc_step w {| store := store_new (gh_reset (GcHeap:=heap_ops) (gc_heap (store w)));
                 held := []; stack := []; lost := []; given := ∅ |}.

(** What clients can reach: from a new heap, as long as fewer than [2^62]
    references exist at once. *)
Inductive gc_reach : world -> Prop :=
| gc_start sys cap h :
    size_of_externref + 16 <= cap ->
    drc_with_capacity hp dbg sys cap = Ok h ->
    gc_reach {| store := store_new h; held := []; stack := []; lost := []; given := ∅ |}
| gc_next w w' : gc_reach w -> small w -> gc_step w w' -> gc_reach w'.

(** ** The invariant *)

Definition live_ref (w : world) (r : Z) : Prop :=
  0 < r < 2 ^ 32 /\
  (is_i31 r = false -> r ∈ filled (alloc (w_table w)) \/ r ∈ over_approximated_stack_roots (w_table w)).

Record world_inv (w : world) (objs : gmap Z (Z * T)) : Prop := {
  wi_drc : drc_inv (heap (gc_heap (store w))) (free_list (gc_heap (store w)))
             (host_data_table (store w)) objs (owners w);
  wi_given i id v : objs !! i = Some (id, v) -> given w !! i = Some v;
  wi_table : table_ok dbg (alloc (w_table w));
  wi_precise : precise_stack_roots (w_table w) = ∅;
  wi_stack r : r ∈ stack w -> live_ref w r;
  wi_held r : r ∈ held w -> 0 < r < 2 ^ 32
}.

Lemma wrapping_ref i : 0 < wrapping_u32 i < 2 ^ 32 /\ is_i31 (wrapping_u32 i) = true.
Proof.
  split; [|apply wrapping_i31]. rewrite wrapping_eq. pose proof (Z.mod_pos_bound i (2 ^ 31) ltac:(lia)). lia.
Qed.

Lemma heap_refs_cons r l :
  heap_refs (r :: l) = if is_i31 r then heap_refs l else r :: heap_refs l.
Proof. unfold heap_refs. rewrite filter_cons. by destruct (is_i31 r). Qed.

Lemma heap_refs_length l : (length (heap_refs l) <= length l)%nat.
Proof. apply length_filter. Qed.

Lemma heap_refs_perm l l' : l ≡ₚ l' -> heap_refs l ≡ₚ heap_refs l'.
Proof. intros Hp. unfold heap_refs. by rewrite Hp. Qed.

Lemma owner_of w objs r :
  world_inv w objs -> r ∈ held w ++ stack w -> is_i31 r = false -> r ∈ owners w.
Proof.
  intros Hw [Hh|Hs]%list.elem_of_app Hi; unfold owners, swept.
  - rewrite !list.elem_of_app. right; right; left. by apply list_elem_of_filter.
  - destruct (wi_stack _ _ Hw r Hs) as [_ Hm]. specialize (Hm Hi). set_solver.
Qed.

Lemma ref_valid w objs r : world_inv w objs -> r ∈ held w ++ stack w -> 0 < r < 2 ^ 32.
Proof. intros Hw [Hh|Hs]%list.elem_of_app; [by eapply wi_held|by apply (wi_stack _ _ Hw r Hs)]. Qed.

(** A step that leaves the table alone. *)
Lemma world_inv_heap w objs h' t' held' lost' given' objs' :
  world_inv w objs -> same_table (gc_heap (store w)) h' ->
  drc_inv (heap h') (free_list h') t' objs' (swept (w_table w) (heap_refs held' ++ lost')) ->
  (forall i id v, objs' !! i = Some (id, v) -> given' !! i = Some v) ->
  (forall r, r ∈ held' -> 0 < r < 2 ^ 32) ->
  world_inv {| store := {| gc_heap := h'; host_data_table := t' |}; held := held'; stack := stack w;
               lost := lost'; given := given' |} objs'.
Proof.
  intros Hw [Ht _] Hd Hg Hh. pose proof Hw as [_ _ ? ? Hst _].
  split; unfold owners, w_table, live_ref in *; cbn [store gc_heap host_data_table held stack lost given];
    rewrite ?Ht; try done.
  intros r Hr. specialize (Hst r Hr). unfold live_ref, w_table in *. cbn. by rewrite Ht.
Qed.

Lemma swept_cons tb r l : swept tb (r :: l) ≡ₚ r :: swept tb l.
Proof. unfold swept. solve_Permutation. Qed.

#[local] Instance swept_perm tb : Proper ((≡ₚ) ==> (≡ₚ)) (swept tb).
Proof. intros l l' Hp. unfold swept. by rewrite Hp. Qed.

Lemma given_sub (objs objs' : gmap Z (Z * T)) (g : gmap Z T) :
  objs' ⊆ objs -> (forall i id v, objs !! i = Some (id, v) -> g !! i = Some v) ->
  forall i id v, objs' !! i = Some (id, v) -> g !! i = Some v.
Proof. intros Hs Hg i id v Hi. eapply Hg, lookup_weaken; done. Qed.

Lemma clone_ok w objs r :
  world_inv w objs -> small w -> r ∈ held w ++ stack w ->
  exists s', store_clone_gc_ref (store w) r = Ok (r, s') /\
    world_inv {| store := s'; held := r :: held w; stack := stack w; lost := lost w; given := given w |} objs.
Proof.
  intros Hw Hs Hin. unfold store_clone_gc_ref.
  assert (Hval : forall q, q ∈ r :: held w -> 0 < q < 2 ^ 32).
  { intros q [->|Hq]%list.elem_of_cons; [by eapply ref_valid|by eapply wi_held]. }
  destruct (is_i31 r) eqn:Hi.
  - exists (store w). split; [done|]. destruct Hw as [Hd ? ? ? ? ?]. split; try done.
    unfold owners in *. cbn [held lost]. by rewrite heap_refs_cons, Hi.
  - cbn [gh_clone_gc_ref heap_ops DrcHeap_GcHeap]. unfold clone_gc_ref.
    destruct (inc_ref_ok (E:=gc_error) oc dbg _ _ _ _ r (wi_drc _ _ Hw)) as (h' & -> & Ht & Hd);
      [by eapply owner_of|unfold small in Hs; lia|].
    cbn [mbind outcome_bind]. eexists. split; [done|]. eapply world_inv_heap; [done|done| |by apply Hw|done].
    rewrite heap_refs_cons, Hi. eapply drc_inv_perm; [|exact Hd]. cbn [app]. by rewrite swept_cons.
Qed.

(** Giving up one owned reference. *)
Lemma release_ok w objs h (t : Slab T) own r :
  drc_inv (heap h) (free_list h) t objs (swept (w_table w) (r :: own)) ->
  exists h' t' objs', dec_ref_and_maybe_dealloc (E:=gc_error) oc dbg h t r = Ok (h', t') /\
    same_table h h' /\ objs' ⊆ objs /\ drc_inv (heap h') (free_list h') t' objs' (swept (w_table w) own).
Proof. intros Hd. eapply dec_and_dealloc_ok; [exact Hd|apply swept_cons]. Qed.

Lemma write_ref_ok w objs (d src : option VMGcRef) rest :
  world_inv w objs -> small w -> owned_slot d (held w) rest -> borrowed src (held w ++ stack w) ->
  exists s' objs', store_write_gc_ref (store w) d src = Ok (s', src) /\ objs' ⊆ objs /\
    world_inv {| store := s'; held := push_slot src rest; stack := stack w; lost := lost w; given := given w |} objs'.
Proof.
  intros Hw Hs Hd Hb. unfold store_write_gc_ref.
  assert (Hheld : heap_refs (held w) ≡ₚ heap_refs (push_slot d rest)).
  { apply heap_refs_perm. by destruct d. }
  assert (Hval : forall q, q ∈ push_slot src rest -> 0 < q < 2 ^ 32).
  { assert (Hrest : forall q, q ∈ rest -> q ∈ held w) by (intros q Hq; destruct d; cbn in Hd; rewrite Hd; set_solver).
    destruct src as [s|]; cbn; [intros q [->|Hq]%list.elem_of_cons|intros q Hq];
      [by eapply ref_valid|by eapply wi_held, Hrest..]. }
  destruct (no_object d && no_object src) eqn:Hn.
  - exists (store w), objs. split_and!; [done|done|]. destruct Hw as [Hw ? ? ? ? ?]. split; try done.
    unfold owners in *. cbn [held lost]. eapply drc_inv_perm; [|exact Hw]. apply swept_perm, Permutation_app_tail.
    rewrite Hheld. zbool. destruct d, src; cbn in *; rewrite ?heap_refs_cons, ?H, ?H0; done.
  - cbn [gh_write_gc_ref heap_ops DrcHeap_GcHeap]. unfold write_gc_ref.
    assert (exists h1, match src with Some s => inc_ref (E:=gc_error) oc dbg (gc_heap (store w)) s
                                    | None => Ok (gc_heap (store w)) end = Ok h1 /\
              same_table (gc_heap (store w)) h1 /\
              drc_inv (heap h1) (free_list h1) (host_data_table (store w)) objs
                (swept (w_table w) (heap_refs (push_slot d rest) ++ heap_refs (push_slot src []) ++ lost w)))
      as (h1 & -> & Ht1 & Hd1).
    { destruct src as [s|]; [destruct (is_i31 s) eqn:Hi|]; cbn [push_slot].
      - unfold inc_ref. rewrite Hi. eexists. split_and!; [done|done|]. rewrite heap_refs_cons, Hi.
        eapply drc_inv_perm; [|apply Hw]. apply swept_perm. by rewrite Hheld.
      - destruct (inc_ref_ok (E:=gc_error) oc dbg _ _ _ _ s (wi_drc _ _ Hw)) as (h1 & -> & Ht & Hi1);
          [by eapply owner_of|unfold small in Hs; lia|].
        eexists. split_and!; [done|done|]. rewrite heap_refs_cons, Hi. eapply drc_inv_perm; [|exact Hi1].
        unfold owners. rewrite <- swept_cons. apply swept_perm. rewrite Hheld. cbn. solve_Permutation.
      - eexists. split_and!; [done|done|]. eapply drc_inv_perm; [|apply Hw]. apply swept_perm. by rewrite Hheld. }
    cbn [mbind outcome_bind].
    assert (exists h2 t2 objs', match d with Some d => dec_ref_and_maybe_dealloc (E:=gc_error) oc dbg h1 (host_data_table (store w)) d
                                    | None => Ok (h1, host_data_table (store w)) end = Ok (h2, t2) /\
              same_table h1 h2 /\ objs' ⊆ objs /\
              drc_inv (heap h2) (free_list h2) t2 objs'
                (swept (w_table w) (heap_refs rest ++ heap_refs (push_slot src []) ++ lost w)))
      as (h2 & t2 & objs' & -> & Ht2 & Ho & Hd2).
    { destruct d as [r|]; [destruct (is_i31 r) eqn:Hi|]; cbn [push_slot] in Hd1.
      - unfold dec_ref_and_maybe_dealloc, dec_ref. rewrite Hi. cbn [mbind outcome_bind].
        rewrite heap_refs_cons, Hi in Hd1. by exists h1, (host_data_table (store w)), objs.
      - rewrite heap_refs_cons, Hi in Hd1. cbn [app] in Hd1. by apply release_ok.
      - by exists h1, (host_data_table (store w)), objs. }
    cbn [mbind outcome_bind]. eexists _, objs'. split_and!; [done|done|].
    eapply world_inv_heap; [done|by eapply same_table_trans| |by eapply given_sub; [|apply Hw]|done].
    eapply drc_inv_perm; [|exact Hd2]. apply swept_perm.
    destruct src as [s|]; cbn [push_slot]; [|done]. rewrite !heap_refs_cons. destruct (is_i31 s); [done|].
    cbn. solve_Permutation.
Qed.

Lemma drop_ok w objs (r : VMGcRef) rest :
  world_inv w objs -> small w -> held w ≡ₚ r :: rest ->
  exists s' objs', store_drop_gc_ref (store w) r = Ok s' /\ objs' ⊆ objs /\
    world_inv {| store := s'; held := rest; stack := stack w; lost := lost w; given := given w |} objs'.
Proof.
  intros Hw Hs Hp. destruct (write_ref_ok w objs (Some r) None rest Hw Hs Hp I) as (s' & objs' & He & Ho & Hw').
  unfold store_drop_gc_ref, store_write_gc_ref in *. cbn [no_object] in He. rewrite andb_true_r in He.
  exists s', objs'. split_and!; [|done|done]. destruct (is_i31 r); [by simplify_eq|].
  apply bind_Ok_inv in He as ([[h t] d] & -> & He). cbn [mbind outcome_bind]. by simplify_eq.
Qed.

Lemma elements_insert (X : gset Z) r :
  elements ({[r]} ∪ X) ≡ₚ if decide (r ∈ X) then elements X else r :: elements X.
Proof.
  case_decide as Hr; [|by apply elements_union_singleton].
  by replace ({[r]} ∪ X) with X by set_solver.
Qed.

Lemma expose_ok w objs r rest :
  world_inv w objs -> held w ≡ₚ r :: rest ->
  exists s', store_expose_gc_ref_to_wasm (store w) r = Ok s' /\
    world_inv {| store := s'; held := rest; stack := r :: stack w;
                 lost := if loses w r then r :: lost w else lost w; given := given w |} objs.
Proof.
  intros Hw Hp. pose proof Hw as [Hd Hg Ht Hpr Hst Hheld].
  assert (Hv : 0 < r < 2 ^ 32) by (apply Hheld; rewrite Hp; set_solver).
  assert (Hval : forall q, q ∈ rest -> 0 < q < 2 ^ 32) by (intros q Hq; apply Hheld; rewrite Hp; set_solver). unfold store_expose_gc_ref_to_wasm.
  pose proof (heap_refs_perm _ _ Hp) as Hh. rewrite heap_refs_cons in Hh.
  destruct (is_i31 r) eqn:Hi.
  - exists (store w). split; [done|]. unfold loses. rewrite Hi. cbn [negb andb]. split; try done.
    + unfold owners in *. cbn [held lost]. eapply drc_inv_perm; [|exact Hd]. apply swept_perm. by rewrite Hh.
    + cbn [stack]. intros q [->|Hq]%list.elem_of_cons; [|by apply Hst]. split; [done|congruence].
  - cbn [gh_expose_gc_ref_to_wasm heap_ops DrcHeap_GcHeap]. unfold expose_gc_ref_to_wasm.
    destruct (expose_insert_ok (E:=gc_error) dbg _ r Ht) as (tb' & He & Hok & Hpre & Hcase).
    unfold w_table in He. rewrite He. cbn [mbind outcome_bind]. eexists. split; [done|].
    assert (Hown : owners w ≡ₚ r :: swept (w_table w) (heap_refs rest ++ lost w)).
    { unfold owners. rewrite Hh. cbn [app]. by rewrite swept_cons. }
    assert (Hlive : forall q, q = r \/ live_ref w q ->
      0 < q < 2 ^ 32 /\ (is_i31 q = false -> q ∈ filled (alloc tb') \/ q ∈ over_approximated_stack_roots tb')).
    { intros q Hq. split; [by destruct Hq as [->|[??]]|]. intros Hqi.
      destruct (decide _) as [Heq|Hne] in Hcase; destruct Hcase as [-> ->]; destruct Hq as [->|[_ Hq]];
        try (specialize (Hq Hqi); set_solver); set_solver. }
    split; unfold live_ref, w_table; cbn; try done.
    + eapply drc_inv_perm; [|exact Hd]. rewrite Hown. unfold owners, loses, w_table in *. cbn.
      rewrite Hi. cbn [negb andb]. destruct (decide _) as [Heq|Hne] in Hcase; destruct Hcase as [Ha Hov].
      * rewrite (bool_decide_eq_true_2 (next _ = _)) by done. cbn [andb]. unfold swept. rewrite Ha, Hov.
        rewrite elements_insert. destruct (decide (r ∈ _)) as [Hin|Hnin].
        -- rewrite bool_decide_eq_true_2 by done. solve_Permutation.
        -- rewrite bool_decide_eq_false_2 by done. solve_Permutation.
      * rewrite (bool_decide_eq_false_2 (next _ = _)) by done. cbn [andb]. unfold swept. rewrite Ha, Hov.
        solve_Permutation.
    + by rewrite Hpre.
    + intros q [->|Hq]%list.elem_of_cons; apply Hlive; [by left|right; by apply Hst].
Qed.

Hypothesis Hmin : min_cap <= 2 ^ 31.
Hypothesis Horder : forall X, order X ≡ₚ elements X.

Lemma drc_inv_slab m f (t t' : Slab T) objs own :
  drc_inv m f t objs own -> slab_inv t' -> Slab.view t' = Slab.view t -> drc_inv m f t' objs own.
Proof using Type. intros [? ? ? ? ? ? ? ?] Ht Hv. split; try done. by rewrite Hv. Qed.

Lemma alloc_ok w objs v :
  world_inv w objs -> small w ->
  (exists r s' id, store_alloc_externref oc min_cap (store w) v = (s', Ok (inl r)) /\ objs !! r = None /\
     is_i31 r = false /\ world_inv {| store := s'; held := r :: held w; stack := stack w; lost := lost w;
                  given := <[r := v]> (given w) |} (<[r := (id, v)]> objs)) \/
  (exists s', store_alloc_externref oc min_cap (store w) v = (s', Ok (inr v)) /\
     world_inv {| store := s'; held := held w; stack := stack w; lost := lost w; given := given w |} objs).
Proof using Hmin.
  intros Hw Hs. pose proof (wi_drc _ _ Hw) as Hd. unfold store_alloc_externref.
  destruct (host_alloc_ok (E:=gc_error) oc _ _ _ _ _ min_cap v Hd Hmin) as (id & t' & -> & Ht & Hn & Hv).
  cbn [gh_alloc_externref heap_ops DrcHeap_GcHeap]. unfold small in Hs.
  destruct (alloc_externref_ok oc dbg _ _ t' _ _ id v Hd ltac:(lia) Ht Hn Hv)
    as [->|(i & h' & -> & Hst & Hi & Hnew & Hd')]; cbn [map_err].
  - right. assert (Hid : Slab.view t' !! id = Some v) by (rewrite Hv; apply lookup_insert_eq).
    destruct (slab_dealloc_ok (E:=gc_error) oc t' id v Ht Hid) as (t2 & Hde & Ht2 & Hv2 & _).
    unfold host_dealloc. rewrite Hde. eexists. split; [done|].
    eapply world_inv_heap; [done|done| |by apply Hw|by apply Hw].
    eapply drc_inv_slab; [exact Hd|done|]. by rewrite Hv2, Hv, delete_insert_id.
  - left. eexists i, _, id. split; [done|].
    assert (His : is_i31 i = false) by (eapply obj_heap_ref; [exact Hd'|apply lookup_insert_eq]).
    split; [done|]. split; [done|].
    eapply world_inv_heap; [done|done| | |].
    + rewrite heap_refs_cons, His. eapply drc_inv_perm; [|exact Hd']. cbn [app]. by rewrite swept_cons.
    + intros j jd x [[<- [= <- <-]]|[Hne Hj]]%lookup_insert_Some; [by rewrite lookup_insert_eq|].
      rewrite lookup_insert_ne by done. by eapply wi_given.
    + intros q [->|Hq]%list.elem_of_cons; [done|by eapply wi_held].
Qed.

Lemma collection_ok w objs roots :
  world_inv w objs -> small w -> no_gc_count (gc_heap (store w)) = 0 -> shows roots (stack w) ->
  exists s' objs', store_gc (store w) roots = Some (Ok s') /\ objs' ⊆ objs /\
    world_inv {| store := s'; held := held w; stack := stack w; lost := lost w; given := given w |} objs' /\
    (forall r, is_Some (objs' !! r) <-> r ∈ heap_refs (held w ++ stack w) ++ lost w) /\
    no_gc_count (gc_heap s') = 0 /\
    (length (swept (activations_table (gc_heap s')) []) <= length (stack w))%nat.
Proof using Horder.
  intros Hw Hs Hng Hsh. pose proof Hw as [Hd Hg Ht Hp Hst Hh].
  assert (Hroots : forall r, Stack r ∈ roots <-> r ∈ stack w).
  { intros r. rewrite (Hsh r). unfold into_r64. naive_solver. }
  destruct (gc_ok (E:=gc_error) oc dbg order Horder _ _ _ (heap_refs (held w) ++ lost w) _ roots Ht Hp Hng Hd) as
    (h' & t' & objs' & Hgc & Ho & Hd' & Hng' & Ht' & Hf' & Hov' & Hp').
  { done. }
  { exact Hs. }
  { intros r Hr%Hroots. by apply Hst. }
  unfold store_gc. cbn [gh_gc heap_ops DrcHeap_GcHeap]. rewrite Hgc. cbn [mbind outcome_bind].
  assert (Htr : forall r, r ∈ traced roots <-> r ∈ heap_refs (stack w)).
  { intros r. unfold traced, heap_refs. rewrite elem_of_list_to_set, list_elem_of_omap, list_elem_of_filter.
    split.
    - intros ([r64|r'] & Hr & He); [|done]. destruct (is_i31 r64) eqn:Hi; [done|]. simplify_eq.
      split; [done|by apply Hroots].
    - intros [Hi Hr%Hroots]. exists (Stack r). by rewrite Hi. }
  eexists _, objs'. split_and!; [done|done| | |done|].
  - split; unfold owners, live_ref, w_table, swept; cbn; try done.
    + rewrite Hf', Hov'. exact Hd'.
    + by eapply given_sub.
    + intros r Hr. split; [by apply Hst|]. intros Hi. right. rewrite Hov'. apply Htr.
      by apply list_elem_of_filter.
  - intros r. rewrite <- (di_own _ _ _ _ _ Hd'). unfold heap_refs at 2. rewrite list.filter_app.
    rewrite !list.elem_of_app, elem_of_elements, Htr. unfold heap_refs. tauto.
  - cbn [gc_heap]. unfold swept. rewrite Hf', Hov', !length_app. cbn [length].
    rewrite Nat.add_0_r. etrans; [|apply (length_filter (fun r => is_i31 r = false) (stack w))].
    apply submseteq_length, NoDup_submseteq; [apply NoDup_elements|].
    intros r Hr%elem_of_elements%Htr. done.
Qed.

Lemma host_data_lookup w objs r :
  world_inv w objs -> r ∈ held w ++ stack w -> is_i31 r = false ->
  exists id v, objs !! r = Some (id, v) /\ Slab.view (host_data_table (store w)) !! id = Some v /\
    externref_host_data (E:=gc_error) dbg (gc_heap (store w)) r = Ok id.
Proof using Type.
  intros Hw Hr Hi. pose proof (wi_drc _ _ Hw) as Hd.
  pose proof (owner_of _ _ _ Hw Hr Hi) as [[id v] Ho]%(di_own _ _ _ _ _ Hd).
  exists id, v. split_and!; [done|apply (di_view _ _ _ _ _ Hd); by exists r|].
  unfold externref_host_data. rewrite Hi, debug_assert_true by done. cbn [mbind outcome_bind].
  eapply host_data_ok; [by eapply obj_placed|by eapply di_obj].
Qed.

Lemma update_inv m f (t t' : Slab T) objs own i id v v' :
  drc_inv m f t objs own -> objs !! i = Some (id, v) -> slab_inv t' ->
  Slab.view t' = <[id := v']> (Slab.view t) -> drc_inv m f t' (<[i := (id, v')]> objs) own.
Proof using Type.
  intros [? ? Ho Hw ? ? Hv Hinj] Hi Ht Hv'. split; try done.
  - rewrite fmap_insert, insert_id; [done|by rewrite lookup_fmap, Hi].
  - intros j jd x [[<- [= <- <-]]|[_ Hj]]%lookup_insert_Some; [by eapply Ho|by eapply Ho].
  - intros j. rewrite Hw. destruct (decide (j = i)) as [->|Hne].
    + rewrite lookup_insert_eq, Hi. by split; eexists.
    + by rewrite lookup_insert_ne.
  - intros jd x. rewrite Hv', lookup_insert_Some, Hv. split.
    + intros [[<- <-]|[Hne [j Hj]]]; [exists i; apply lookup_insert_eq|].
      exists j. rewrite lookup_insert_ne; [done|]. intros <-. congruence.
    + intros [j [[<- [= <- <-]]|[Hne Hj]]%lookup_insert_Some]; [by left|right].
      split; [|by exists j]. intros <-. by apply Hne, (Hinj i j id v x).
  - intros j k jd x x' [[<- [= <- <-]]|[Hne Hj]]%lookup_insert_Some [[<- Hk]|[Hne' Hk]]%lookup_insert_Some;
      simplify_eq; [done|by eapply Hinj..].
Qed.

Lemma mut_ok w objs r v :
  world_inv w objs -> r ∈ held w ++ stack w -> is_i31 r = false ->
  exists s' id, store_externref_host_data_mut (store w) r v = Ok s' /\
    world_inv {| store := s'; held := held w; stack := stack w; lost := lost w;
                 given := <[r := v]> (given w) |} (<[r := (id, v)]> objs).
Proof using Type.
  intros Hw Hr Hi. destruct (host_data_lookup w objs r Hw Hr Hi) as (id & x & Ho & Hx & He).
  unfold store_externref_host_data_mut. cbn [gh_externref_host_data heap_ops DrcHeap_GcHeap].
  rewrite He. cbn [mbind outcome_bind]. pose proof (wi_drc _ _ Hw) as Hd.
  destruct (slab_get_mut_ok (E:=gc_error) _ id x v (di_slab _ _ _ _ _ Hd) Hx) as (t' & Hm & Ht & Hv).
  unfold host_get_mut. rewrite Hm. cbn [mbind outcome_bind unwrap]. eexists _, id. split; [done|].
  eapply world_inv_heap; [done|done|by eapply update_inv| |by apply Hw].
  intros j jd y [[<- [= <- <-]]|[Hne Hj]]%lookup_insert_Some; [by rewrite lookup_insert_eq|].
  rewrite lookup_insert_ne by done. by eapply wi_given.
Qed.

(** A heap with nothing in it. *)
Lemma empty_inv m f :
  heap_inv f ∅ -> GcFreeList.capacity f = mlen m -> size_of_externref <= max_size f ->
  drc_inv m f (T:=T) Slab.default ∅ [].
Proof using Type.
  clear Hmin Horder.
  intros Hf Hc Hm. split; try done.
  - intros i. rewrite lookup_empty. split; [set_solver|by intros []].
  - apply inv_default.
  - intros id v. split; [|by intros [i Hi]].
    intros [_ Hl]%view_lookup_Some. done.
Qed.

Lemma recycle_ok w objs :
  world_inv w objs -> (dbg = true -> Forall (fun s => s = 0) (chunk (alloc (w_table w)))) ->
  world_inv {| store := store_new (gh_reset (GcHeap:=heap_ops) (gc_heap (store w)));
               held := []; stack := []; lost := []; given := ∅ |} ∅.
Proof using Type.
  clear Hmin Horder.
  intros Hw Hz. pose proof (wi_drc _ _ Hw) as Hd. destruct (di_cap _ _ _ _ _ Hd) as [Hc Hm].
  destruct (max_size_bounds (free_list (gc_heap (store w)))) as (_ & _ & Hb).
  unfold size_of_externref in Hm. destruct Hb as [Hb _]; [lia|]. unfold region_end, ALIGN in Hb.
  split; cbn; try done.
  - apply empty_inv; [|done|done]. apply (heap_new_inv (GcFreeList.capacity (free_list (gc_heap (store w))))). lia.
  - split; cbn; [lia|done|exact Hz].
  - intros r Hr. by apply not_elem_of_nil in Hr.
  - intros r Hr. by apply not_elem_of_nil in Hr.
Qed.

Context (k : Z) (Hk : 0 <= k) (Hhp : hp = 2 ^ k).

Lemma start_ok sys cap h :
  size_of_externref + 16 <= cap -> drc_with_capacity hp dbg sys cap = Ok h ->
  world_inv {| store := store_new h; held := []; stack := []; lost := []; given := ∅ |} ∅.
Proof using Hk Hhp.
  clear Hmin Horder.
  intros Hcap. unfold drc_with_capacity, with_at_least, size_of_externref in *.
  assert (0 < hp) by (rewrite Hhp; apply Z.pow_pos_nonneg; lia).
  rewrite (round_up_ok hp dbg cap k) by (done || lia). destruct (_ <? _); [|done]. cbn [mbind outcome_bind].
  destruct (rounded_bounds hp cap) as [Hr _]; [done|]. unfold accessible_reserved.
  destruct (_ <=? _); [|done]. cbn [assert_ mbind outcome_bind].
  destruct (usize_is_multiple_of_host_page_size hp _); [|done]. cbn [assert_ mbind outcome_bind].
  rewrite (proj2 (Z.eqb_neq (rounded hp cap) 0)) by lia. destruct (os_reserve _ _) as [b|]; [|done].
  rewrite Z.eqb_refl. cbn [mbind outcome_bind]. intros [= <-].
  split; cbn; try done; [|intros r Hin; by apply not_elem_of_nil in Hin..].
  apply empty_inv; [by apply heap_new_inv; lia|done|].
  unfold max_size. rewrite round_down_8. cbn. unfold saturating_sub, u32_max, ALIGN, size_of_externref.
  pose proof (Z.mod_pos_bound (Z.max 0 (Z.min (rounded hp cap) (2 ^ 32 - 1) - 8)) 8). lia.
Qed.

Lemma step_inv w w' objs :
  world_inv w objs -> small w -> gc_step w w' -> exists objs', world_inv w' objs'.
Proof using Hmin Horder.
  clear Hk Hhp. intros Hw Hs Hst.
  destruct Hst as [v s' r He|v s' v' He|i|r r' s' Hr He|r rest s' Hp He|d src d' rest s' Hd Hb He
    |r rest s' Hp He|stack' Hs'|roots s' Hsh He|h' He|r v s' Hr Hi He|Hz].
  - destruct (alloc_ok w objs v Hw Hs) as [(?&?&?&Ha&_&_&?)|(?&Ha&?)]; rewrite Ha in He; simplify_eq. by eexists.
  - destruct (alloc_ok w objs v Hw Hs) as [(?&?&?&Ha&_&_&?)|(?&Ha&?)]; rewrite Ha in He; simplify_eq. by eexists.
  - exists objs. destruct Hw as [Hd ? ? ? ? Hh]. destruct (wrapping_ref i) as [Hv Hi]. split; try done.
    + unfold owners in *. cbn [held lost]. by rewrite heap_refs_cons, Hi.
    + cbn [held]. intros q [->|Hq]%list.elem_of_cons; [done|by apply Hh].
  - destruct (clone_ok w objs r Hw Hs Hr) as (?&Ha&?). rewrite Ha in He. simplify_eq. by eexists.
  - destruct (drop_ok w objs r rest Hw Hs Hp) as (?&?&Ha&_&?). rewrite Ha in He. simplify_eq. by eexists.
  - destruct (write_ref_ok w objs d src rest Hw Hs Hd Hb) as (?&?&Ha&_&?). rewrite Ha in He. simplify_eq. by eexists.
  - destruct (expose_ok w objs r rest Hw Hp) as (?&Ha&?). rewrite Ha in He. simplify_eq. by eexists.
  - exists objs. destruct Hw as [? ? ? ? Hl ?]. split; try done. cbn [stack]. intros r [Hr|[i ->]]%Hs'; [by apply Hl|].
    destruct (wrapping_ref i) as [Hv Hi]. split; [done|congruence].
  - assert (Hn : no_gc_count (gc_heap (store w)) = 0).
    { unfold store_gc in He. cbn [gh_gc heap_ops DrcHeap_GcHeap] in He. unfold gc in He.
      destruct (Z.eqb_spec (no_gc_count (gc_heap (store w))) 0); done. }
    destruct (collection_ok w objs roots Hw Hs Hn Hsh) as (?&?&Ha&_&?&_). rewrite Ha in He. simplify_eq. by eexists.
  - exists objs. assert (exists n, h' = set_no_gc (gc_heap (store w)) n) as [n ->].
    { cbn [gh_enter_no_gc_scope gh_exit_no_gc_scope heap_ops DrcHeap_GcHeap] in He.
      destruct He as [He|He]; apply bind_Ok_inv in He as (n & _ & He); simplify_eq; by eexists. }
    by destruct Hw.
  - destruct (mut_ok w objs r v Hw Hr Hi) as (?&?&Ha&?). rewrite Ha in He. simplify_eq. by eexists.
  - eexists. by eapply recycle_ok.
Qed.

Lemma gc_reach_inv w : gc_reach w -> exists objs, world_inv w objs.
Proof using Hmin Horder Hk Hhp.
  induction 1 as [sys cap h Hc He|w w' _ [objs Hw] Hs Hst].
  - exists ∅. by eapply start_ok.
  - by eapply step_inv.
Qed.

(** ** Properties *)

(** The count the heap keeps for the object of [r]. *)
Definition stored_count (w : world) (r : Z) : Z := ref_count (gc_heap (store w)) r.

(** C4: References never dangle.  Whatever a program does, for every reference
    the host holds or a frame of compiled code contains that is not an integer,
    the count stored in the heap is the number of its owners (host references,
    entries of the collector's table, lost counts), at least one, and reading
    the host data through it gives the value it was created with or last
    overwritten with. *)
Theorem gc_refs_never_dangle w (Hreach : gc_reach w) r :
  r ∈ held w ++ stack w -> is_i31 r = false ->
  stored_count w r = occ r (owners w) /\ 0 < stored_count w r /\
  exists v, given w !! r = Some v /\ store_externref_host_data (store w) r = Ok v.
Proof using Hmin Horder Hk Hhp.
  intros Hr Hi. apply gc_reach_inv in Hreach as [objs Hw].
  destruct (host_data_lookup w objs r Hw Hr Hi) as (id & v & Ho & Hv & He).
  pose proof (wi_drc _ _ Hw) as Hd. pose proof (di_obj _ _ _ _ _ Hd _ _ _ Ho) as (_ & Hc & _).
  pose proof (count_pos _ _ _ _ _ Hd _ _ _ Ho). unfold stored_count, ref_count. rewrite Hc.
  split_and!; [done|lia|]. exists v. split; [by eapply wi_given|].
  unfold store_externref_host_data. cbn [gh_externref_host_data heap_ops DrcHeap_GcHeap]. rewrite He.
  cbn [mbind outcome_bind]. apply view_lookup_Some in Hv as [_ Hl]. unfold host_get, Slab.get. by rewrite Hl.
Qed.

(** No operation of the store panics.  From any state a program can reach,
    with or without debug assertions and overflow checks, cloning and writing
    a reference that is held or in a frame, dropping and exposing one that is
    held, allocating, and collecting outside a scope that forbids it with the
    references of the frames as roots all succeed: every assertion about
    counts, slots, tables and free blocks holds. *)
Theorem gc_store_never_panics w (Hreach : gc_reach w) (Hs : small w) :
  (forall v, exists s' x, store_alloc_externref oc min_cap (store w) v = (s', Ok x)) /\
  (forall r, r ∈ held w ++ stack w -> exists s', store_clone_gc_ref (store w) r = Ok (r, s')) /\
  (forall r rest, held w ≡ₚ r :: rest ->
     is_Ok (store_drop_gc_ref (store w) r) /\ is_Ok (store_expose_gc_ref_to_wasm (store w) r)) /\
  (forall d src rest, owned_slot d (held w) rest -> borrowed src (held w ++ stack w) ->
     exists s', store_write_gc_ref (store w) d src = Ok (s', src)) /\
  (forall roots, no_gc_count (gc_heap (store w)) = 0 -> shows roots (stack w) ->
     exists s', store_gc (store w) roots = Some (Ok s')).
Proof using Hmin Horder Hk Hhp.
  apply gc_reach_inv in Hreach as [objs Hw]. split_and!.
  - intros v. destruct (alloc_ok w objs v Hw Hs) as [(r & s' & _ & He & _)|(s' & He & _)]; by eexists _, _.
  - intros r Hr. destruct (clone_ok w objs r Hw Hs Hr) as (s' & He & _). by exists s'.
  - intros r rest Hp. destruct (drop_ok w objs r rest Hw Hs Hp) as (s' & _ & -> & _).
    destruct (expose_ok w objs r rest Hw Hp) as (s2 & -> & _). split; apply Ok_is_Ok.
  - intros d src rest Hd Hb. destruct (write_ref_ok w objs d src rest Hw Hs Hd Hb) as (s' & _ & He & _). by exists s'.
  - intros roots Hn Hsh. destruct (collection_ok w objs roots Hw Hs Hn Hsh) as (s' & _ & He & _). by exists s'.
Qed.

(** C24: A collection frees everything that cannot be used.  When no count was
    lost, the side table holds after a collection exactly the values of the
    objects that the host still holds or a frame still contains; in particular
    nothing when there is no such object. *)
Theorem gc_reclaims_unreachable w roots (Hreach : gc_reach w) (Hs : small w) (Hl : lost w = [])
  (Hn : no_gc_count (gc_heap (store w)) = 0) (Hsh : shows roots (stack w)) :
  exists s', store_gc (store w) roots = Some (Ok s') /\
    (forall id v, Slab.view (host_data_table s') !! id = Some v <->
       exists r : Z, r ∈ held w ++ stack w /\ is_i31 r = false /\
         externref_host_data (E:=gc_error) dbg (gc_heap s') r = Ok id /\ given w !! r = Some v) /\
    (heap_refs (held w ++ stack w) = [] -> Slab.view (host_data_table s') = ∅).
Proof using Hmin Horder Hk Hhp.
  apply gc_reach_inv in Hreach as [objs Hw].
  destruct (collection_ok w objs roots Hw Hs Hn Hsh) as (s' & objs' & He & _ & Hw' & Hlive & _).
  rewrite Hl, app_nil_r in Hlive. pose proof (wi_drc _ _ Hw') as Hd. cbn in Hd.
  exists s'. split_and!; [done| |].
  - intros id v. rewrite (di_view _ _ _ _ _ Hd). split.
    + intros [i Hi]. assert (Hin : i ∈ heap_refs (held w ++ stack w)) by (apply Hlive; by eexists).
      apply list_elem_of_filter in Hin as [Hi31 Hin]. exists i. split_and!; [done|done| |by eapply (wi_given _ _ Hw')].
      destruct (host_data_lookup _ _ i Hw' Hin Hi31) as (id' & v' & Ho & _ & Hx).
      assert (Heq : Some (id', v') = Some (id, v)) by (rewrite <- Ho; exact Hi).
      injection Heq as -> ->. exact Hx.
    + intros (r & Hr & Hi & Hx & Hg). destruct (host_data_lookup _ _ r Hw' Hr Hi) as (id' & v' & Ho & _ & Hx').
      pose proof (wi_given _ _ Hw' _ _ _ Ho) as Hg'. cbn [store given] in Hx', Hg'.
      assert (Heq : Some v' = Some v) by (rewrite <- Hg', <- Hg; done). rewrite Hx' in Hx.
      simplify_eq. by exists r.
  - intros Hnone. apply map_eq. intros id. rewrite lookup_empty. apply eq_None_not_Some.
    intros [v [i Hi]%(di_view _ _ _ _ _ Hd)]. assert (Hin : i ∈ heap_refs (held w ++ stack w)) by (apply Hlive; by eexists).
    rewrite Hnone in Hin. by apply not_elem_of_nil in Hin.
Qed.
End World.

(** ** Running programs *)

Inductive gc_cmd :=
| CAlloc (v : Z)
| CClone (r : Z)
| CDrop (r : Z)
| CExpose (r : Z)
| CForget
| CGc.

Fixpoint take_out (r : Z) (l : list Z) : option (list Z) :=
  match l with
  | [] => None
  | x :: l => if x =? r then Some l else option_map (cons x) (take_out r l)
  end.

Lemma take_out_perm r l rest : take_out r l = Some rest -> l ≡ₚ r :: rest.
Proof.
  revert rest. induction l as [|x l IH]; cbn; intros rest Hr; [done|].
  destruct (Z.eqb_spec x r) as [->|Hne]; [by simplify_eq|].
  destruct (take_out r l) as [l'|]; [|done]. injection Hr as <-. rewrite (IH l') by done. constructor.
Qed.

Section Run.
  Context (oc dbg : bool) (min_cap : Z).
  Implicit Types (w : world (T:=Z)).
#[local] Instance run_ops : GcHeap Z DrcHeap := DrcHeap_GcHeap oc dbg elements.

Definition exec w (c : gc_cmd) : option (world (T:=Z)) :=
  if negb (Z.of_nat (length (owners w)) <? 2 ^ 62) then None
  else
    match c with
    | CAlloc v =>
        match store_alloc_externref oc min_cap (store w) v with
        | (s', Ok (inl r)) => Some {| store := s'; held := r :: held w; stack := stack w; lost := lost w;
                                      given := <[r := v]> (given w) |}
        | _ => None
        end
    | CClone r =>
        if bool_decide (r ∈ held w ++ stack w) then
          match store_clone_gc_ref (store w) r with
          | Ok (r', s') => Some {| store := s'; held := r' :: held w; stack := stack w; lost := lost w; given := given w |}
          | _ => None
          end
        else None
    | CDrop r =>
        match take_out r (held w), store_drop_gc_ref (store w) r with
        | Some rest, Ok s' => Some {| store := s'; held := rest; stack := stack w; lost := lost w; given := given w |}
        | _, _ => None
        end
    | CExpose r =>
        match take_out r (held w), store_expose_gc_ref_to_wasm (store w) r with
        | Some rest, Ok s' => Some {| store := s'; held := rest; stack := r :: stack w;
                                      lost := if loses w r then r :: lost w else lost w; given := given w |}
        | _, _ => None
        end
    | CForget => Some {| store := store w; held := held w; stack := []; lost := lost w; given := given w |}
    | CGc =>
        match store_gc (store w) (map Stack (stack w)) with
        | Some (Ok s') => Some {| store := s'; held := held w; stack := stack w; lost := lost w; given := given w |}
        | _ => None
        end
    end.

Fixpoint exec_all w (l : list gc_cmd) : option (world (T:=Z)) :=
  match l with
  | [] => Some w
  | c :: l => w ← exec w c; exec_all w l
  end.

Lemma exec_reach hp w w' c :
  exec w c = Some w' -> gc_reach hp oc dbg min_cap elements w -> gc_reach hp oc dbg min_cap elements w'.
Proof.
  unfold exec. intros He Hr. split_guard_in He; [done|]. zbool. eapply gc_next; [exact Hr|exact Hg|].
  destruct c as [v|r|r|r| |]; cbn in He.
  - destruct (store_alloc_externref _ _ _ _) as [s' [[r|]|e|]] eqn:Ha; simplify_eq. by eapply step_alloc.
  - case_bool_decide as Hin; [|done]. destruct (store_clone_gc_ref _ _) as [[r' s']|e|] eqn:Ha; simplify_eq.
    by eapply step_clone.
  - destruct (take_out r (held w)) as [rest|] eqn:Hl; [|done].
    destruct (store_drop_gc_ref _ _) as [s'|e|] eqn:Ha; simplify_eq. apply take_out_perm in Hl. by eapply step_drop.
  - destruct (take_out r (held w)) as [rest|] eqn:Hl; [|done].
    destruct (store_expose_gc_ref_to_wasm _ _) as [s'|e|] eqn:Ha; simplify_eq. apply take_out_perm in Hl.
    by eapply step_expose.
  - simplify_eq. apply step_wasm. intros r Hin. by apply not_elem_of_nil in Hin.
  - destruct (store_gc _ _) as [[s'|e|]|] eqn:Ha; simplify_eq. eapply step_gc; [|exact Ha].
    intros r64. unfold into_r64. rewrite list_elem_of_fmap. naive_solver.
Qed.

Lemma exec_all_reach hp w w' l :
  exec_all w l = Some w' -> gc_reach hp oc dbg min_cap elements w -> gc_reach hp oc dbg min_cap elements w'.
Proof.
  revert w. induction l as [|c l IH]; cbn; intros w He Hr; [by simplify_eq|].
  destruct (exec w c) as [w1|] eqn:H1; [|done]. apply (IH w1); [done|]. by eapply exec_reach.
Qed.

(** A new heap of one page. *)
Definition fresh_world : option (world (T:=Z)) :=
  match drc_with_capacity 4096 dbg sample_os 4096 with
  | Ok h => Some {| store := store_new h; held := []; stack := []; lost := []; given := ∅ |}
  | _ => None
  end.

Definition run (l : list gc_cmd) : option (world (T:=Z)) := w ← fresh_world; exec_all w l.

Lemma run_reach l w : run l = Some w -> gc_reach 4096 oc dbg min_cap elements w.
Proof.
  unfold run, fresh_world. intros He. destruct (drc_with_capacity _ _ _ _) as [h|e|] eqn:Hd; [|done|done].
  cbn in He. eapply exec_all_reach; [exact He|]. eapply gc_start; [|exact Hd]. by vm_compute.
Qed.
End Run.

(** One object, whose reference fills all slots of the chunk but one. *)
Definition fill_but_one : list gc_cmd :=
  [CAlloc 7; CGc] ++ mjoin (replicate 511 [CClone 8; CExpose 8]).
Definition enter_with_three : list gc_cmd :=
  [CClone 8; CClone 8; CClone 8; CExpose 8; CExpose 8; CExpose 8].
Definition leave_and_drop : list gc_cmd := [CForget; CDrop 8; CGc].

(** The value of the only object is still in the side table. *)
Definition still_there (w : world (T:=Z)) : bool :=
  bool_decide (held w = []) && bool_decide (stack w = []) &&
  bool_decide (Slab.view (host_data_table (store w)) !! 1 = Some 7).

(** Counts are lost when the chunk of the table is full.  The check made
    before compiled code is entered compares the number of references with the
    bytes left in the chunk, eight per slot: with one slot left it lets a call
    with three references through without a collection.  The references that
    no longer fit go to a set, and one that the set already has loses its
    count: the object is never freed, although nobody holds it and collections
    run. *)
Theorem full_chunk_leaks oc dbg :
  exists w1 w2 w3,
    gc_reach 4096 oc dbg 4 elements w3 /\
    run oc dbg 4 fill_but_one = Some w1 /\
    need_gc_before_entering_wasm (gc_heap (store w1)) 3 = false /\
    exec_all oc dbg 4 w1 enter_with_three = Some w2 /\ lost w2 = [8] /\
    exec_all oc dbg 4 w2 (leave_and_drop ++ [CGc; CGc]) = Some w3 /\ still_there w3 = true.
Proof.
  assert (Hrun : match run oc dbg 4 fill_but_one with
    | Some w1 => match exec_all oc dbg 4 w1 enter_with_three with
                 | Some w2 => match exec_all oc dbg 4 w2 (leave_and_drop ++ [CGc; CGc]) with
                              | Some w3 => negb (need_gc_before_entering_wasm (gc_heap (store w1)) 3) &&
                                           bool_decide (lost w2 = [8]) && still_there w3
                              | None => false
                              end
                 | None => false
                 end
    | None => false
    end = true) by (destruct oc, dbg; vm_compute; reflexivity).
  destruct (run oc dbg 4 fill_but_one) as [w1|] eqn:H1; [|done].
  destruct (exec_all oc dbg 4 w1 enter_with_three) as [w2|] eqn:H2; [|done].
  destruct (exec_all oc dbg 4 w2 _) as [w3|] eqn:H3; [|done]. zbool.
  exists w1, w2, w3. split_and!; [|reflexivity|assumption|exact H2|by eapply bool_decide_eq_true_1|exact H3|assumption].
  eapply exec_all_reach; [exact H3|]. eapply exec_all_reach; [exact H2|]. exact (run_reach _ _ _ _ _ H1).
Qed.

(** Recycling a heap keeps the words of its chunk.  In a build with debug
    assertions, once a heap in whose table references were left is reset for
    another store, exposing the first reference of that store panics, since a
    slot that should be empty is not. *)
Theorem recycled_heap_panics oc :
  exists w s r, run oc true 4 [CAlloc 7; CGc; CExpose 8] = Some w /\
    store_alloc_externref (H:=DrcHeap) (GcHeap0:=DrcHeap_GcHeap oc true elements) oc 4
      (store_new (gh_reset (GcHeap:=DrcHeap_GcHeap (T:=Z) oc true elements) (gc_heap (store w)))) 9 = (s, Ok (inl r)) /\
    store_expose_gc_ref_to_wasm (GcHeap0:=DrcHeap_GcHeap oc true elements) s r = Panic.
Proof.
  assert (Hrun : match run oc true 4 [CAlloc 7; CGc; CExpose 8] with
    | Some w =>
        match store_alloc_externref (H:=DrcHeap) (GcHeap0:=DrcHeap_GcHeap oc true elements) oc 4
                (store_new (gh_reset (GcHeap:=DrcHeap_GcHeap (T:=Z) oc true elements) (gc_heap (store w)))) 9 with
        | (s, Ok (inl r)) =>
            match store_expose_gc_ref_to_wasm (GcHeap0:=DrcHeap_GcHeap oc true elements) s r with
            | Panic => true | _ => false end
        | _ => false
        end
    | None => false
    end = true) by (destruct oc; vm_compute; reflexivity).
  destruct (run oc true 4 _) as [w|]; [|discriminate Hrun].
  destruct (store_alloc_externref _ _ _ _) as [s [[r|]|e|]] eqn:H2; try discriminate Hrun.
  destruct (store_expose_gc_ref_to_wasm _ _) eqn:H3; try discriminate Hrun.
  exists w, s, r. split; [reflexivity|]. split; [exact H2|exact H3].
Qed.

(** ** Witnesses *)

Definition no_world : world (T:=Z) :=
  {| store := store_new {| no_gc_count := 0; activations_table := activations_new;
                           heap := mmap_reserved 0 0;
                           free_list := GcFreeList.new 0 |};
     held := []; stack := []; lost := []; given := ∅ |}.

(** Two objects, one of them held once and in a frame, the other dropped by the
    host after it was handed to compiled code that forgot it. *)
Definition sample_world : world (T:=Z) :=
  match run true true 4 [CAlloc 7; CAlloc 9; CGc; CExpose 32; CForget; CClone 8; CExpose 8] with
  | Some w => w
  | None => no_world
  end.

Lemma sample_world_reach : gc_reach 4096 true true 4 elements sample_world.
Proof.
  apply (run_reach true true 4 [CAlloc 7; CAlloc 9; CGc; CExpose 32; CForget; CClone 8; CExpose 8]).
  unfold sample_world. by destruct (run true true 4 _) eqn:Hr; [|vm_compute in Hr].
Qed.

Lemma page_4096 : 4096 = 2 ^ 12.
Proof. reflexivity. Qed.

Lemma gc_refs_never_dangle_witness :
  stored_count sample_world 8 = 2 /\
  exists v, given sample_world !! 8 = Some v /\
    store_externref_host_data (GcHeap0:=DrcHeap_GcHeap true true elements) (store sample_world) 8 = Ok v.
Proof.
  destruct (gc_refs_never_dangle 4096 true true 4 elements ltac:(lia) (fun X => reflexivity _) 12 ltac:(lia) page_4096
    sample_world sample_world_reach 8) as (Hc & _ & Hv).
  - apply (bool_decide_unpack _). vm_compute. exact I.
  - reflexivity.
  - split; [rewrite Hc; vm_compute; reflexivity|exact Hv].
Defined.

Lemma gc_store_never_panics_witness :
  is_Ok (store_drop_gc_ref (GcHeap0:=DrcHeap_GcHeap true true elements) (store sample_world) 8).
Proof.
  destruct (gc_store_never_panics 4096 true true 4 elements ltac:(lia) (fun X => reflexivity _) 12 ltac:(lia) page_4096
    sample_world sample_world_reach) as (_ & _ & Hd & _).
  - vm_compute. reflexivity.
  - apply (Hd 8 []). replace (held sample_world) with [8] by (vm_compute; reflexivity). reflexivity.
Defined.

Lemma gc_reclaims_unreachable_witness :
  exists s', store_gc (GcHeap0:=DrcHeap_GcHeap true true elements) (store sample_world) [Stack 8] = Some (Ok s').
Proof.
  destruct (gc_reclaims_unreachable 4096 true true 4 elements ltac:(lia) (fun X => reflexivity _) 12 ltac:(lia) page_4096
    sample_world [Stack 8] sample_world_reach) as (s' & Hs & _).
  - vm_compute. reflexivity.
  - vm_compute. reflexivity.
  - vm_compute. reflexivity.
  - intros r64. replace (stack sample_world) with [8] by (vm_compute; reflexivity).
    rewrite list_elem_of_singleton. unfold into_r64. split.
    + intros [= ->]. exists 8. split; [apply list_elem_of_here|reflexivity].
    + intros (r & Hr%list_elem_of_singleton & ->). by rewrite Hr.
  - exists s'. exact Hs.
Defined.
