(* ===== verification/WasmTypes.v ===== *)
(** * Types of WebAssembly and their matching

    [src/wasmtime-repo/crates/types/src/lib.rs]: value, reference, heap, field,
    function, array, struct and sub types, recursion groups and the visiting of
    the type indices inside them; the same types as the embedder sees them and
    their subtyping, [crates/wasmtime/src/runtime/types.rs]; and the matching of
    imports, [crates/wasmtime/src/runtime/types/matching.rs].  Types of the
    embedder refer to other types by their index in the registry of the one
    engine there is; the registry is the function [lookup] from indices to
    registered types and the test [is_subtype] between indices ([TypeRegistry]
    discharges what is assumed of them).  The messages of errors are left out. *)

From Stdlib Require Import ZArith Lia.
From stdpp Require Import base list gmap numbers option.
From S2P Require Import Prelude MemoryTypes.
Open Scope Z_scope.

(** ** Type indices *)

Inductive EngineOrModuleTypeIndex :=
| Engine (i : Z)
| Module_ (i : Z)
| RecGroup (i : Z).
#[global] Instance EngineOrModuleTypeIndex_eq : EqDecision EngineOrModuleTypeIndex.
Proof. solve_decision. Defined.

Definition as_engine_type_index (i : EngineOrModuleTypeIndex) : option Z :=
  match i with Engine e => Some e | RecGroup _ | Module_ _ => None end.
Definition unwrap_engine_type_index {E} (i : EngineOrModuleTypeIndex) : outcome E Z :=
  unwrap (as_engine_type_index i).

(** ** Types, by the kind of index they use *)

Inductive heap_type (I : Type) :=
| HExtern | HNoExtern
| HFunc | HConcreteFunc (i : I) | HNoFunc
| HAny | HEq | HI31 | HArray | HConcreteArray (i : I) | HStruct | HConcreteStruct (i : I) | HNone.
Arguments HExtern {I}.
Arguments HNoExtern {I}.
Arguments HFunc {I}.
Arguments HConcreteFunc {I} i.
Arguments HNoFunc {I}.
Arguments HAny {I}.
Arguments HEq {I}.
Arguments HI31 {I}.
Arguments HArray {I}.
Arguments HConcreteArray {I} i.
Arguments HStruct {I}.
Arguments HConcreteStruct {I} i.
Arguments HNone {I}.
#[global] Instance heap_type_eq {I} `{!EqDecision I} : EqDecision (heap_type I).
Proof. solve_decision. Defined.

Record ref_type (I : Type) := { nullable : bool; rt_heap_type : heap_type I }.
Arguments nullable {I}.
Arguments rt_heap_type {I}.
Arguments Build_ref_type {I}.
#[global] Instance ref_type_eq {I} `{!EqDecision I} : EqDecision (ref_type I).
Proof. solve_decision. Defined.

Inductive val_type (I : Type) :=
| VI32 | VI64 | VF32 | VF64 | VV128 | VRef (r : ref_type I).
Arguments VI32 {I}.
Arguments VI64 {I}.
Arguments VF32 {I}.
Arguments VF64 {I}.
Arguments VV128 {I}.
Arguments VRef {I} r.
#[global] Instance val_type_eq {I} `{!EqDecision I} : EqDecision (val_type I).
Proof. solve_decision. Defined.

Inductive storage_type (I : Type) := SI8 | SI16 | SVal (v : val_type I).
Arguments SI8 {I}.
Arguments SI16 {I}.
Arguments SVal {I} v.
#[global] Instance storage_type_eq {I} `{!EqDecision I} : EqDecision (storage_type I).
Proof. solve_decision. Defined.

(** The types of modules, with indices of any kind. *)
Definition WasmHeapType : Type := heap_type EngineOrModuleTypeIndex.
Definition WasmRefType : Type := ref_type EngineOrModuleTypeIndex.
Definition WasmValType : Type := val_type EngineOrModuleTypeIndex.
Definition WasmStorageType : Type := storage_type EngineOrModuleTypeIndex.

(** The types of the embedder, with indices of the registry. *)
Definition HeapType : Type := heap_type Z.
Definition RefType : Type := ref_type Z.
Definition ValType : Type := val_type Z.
Definition StorageType : Type := storage_type Z.

Record WasmFieldType := { element_type : WasmStorageType; mutable : bool }.
#[global] Instance WasmFieldType_eq : EqDecision WasmFieldType.
Proof. solve_decision. Defined.

Inductive WasmHeapTopType := TopExtern | TopAny | TopFunc.

Definition top {I} (h : heap_type I) : WasmHeapTopType :=
  match h with
  | HExtern | HNoExtern => TopExtern
  | HFunc | HConcreteFunc _ | HNoFunc => TopFunc
  | HAny | HEq | HI31 | HArray | HConcreteArray _ | HStruct | HConcreteStruct _ | HNone => TopAny
  end.

Definition from_top {I} (t : WasmHeapTopType) : heap_type I :=
  match t with TopExtern => HExtern | TopAny => HAny | TopFunc => HFunc end.

Definition is_vmgcref_type {I} (h : heap_type I) : bool :=
  match top h with TopAny | TopExtern => true | TopFunc => false end.

Definition is_vmgcref_type_and_not_i31 (v : WasmValType) : bool :=
  match v with
  | VRef r => is_vmgcref_type (rt_heap_type r) && negb (bool_decide (rt_heap_type r = HI31))
  | _ => false
  end.

(** [WasmValType::trampoline_type]. *)
Definition trampoline_val (v : WasmValType) : WasmValType :=
  match v with
  | VRef r => VRef {| nullable := true; rt_heap_type := from_top (top (rt_heap_type r)) |}
  | v => v
  end.

Record WasmFuncType := {
  params : list WasmValType;
  non_i31_gc_ref_params_count : nat;
  returns : list WasmValType;
  non_i31_gc_ref_returns_count : nat
}.
#[global] Instance WasmFuncType_eq : EqDecision WasmFuncType.
Proof. solve_decision. Defined.

Definition func_type_new (params returns : list WasmValType) : WasmFuncType :=
  {| params := params;
     non_i31_gc_ref_params_count := length (List.filter is_vmgcref_type_and_not_i31 params);
     returns := returns;
     non_i31_gc_ref_returns_count := length (List.filter is_vmgcref_type_and_not_i31 returns) |}.

Definition is_trampoline_type (f : WasmFuncType) : bool :=
  forallb (fun p => bool_decide (p = trampoline_val p)) (params f) &&
  forallb (fun r => bool_decide (r = trampoline_val r)) (returns f).

(** [trampoline_type]: [None] is the borrowed original. *)
Definition trampoline_type (f : WasmFuncType) : option WasmFuncType :=
  if is_trampoline_type f then None
  else Some (func_type_new (map trampoline_val (params f)) (map trampoline_val (returns f))).

Record WasmStructType := { fields : list WasmFieldType }.
#[global] Instance WasmStructType_eq : EqDecision WasmStructType.
Proof. solve_decision. Defined.

Inductive WasmCompositeType :=
| CArray (f : WasmFieldType)
| CFunc (f : WasmFuncType)
| CStruct (s : WasmStructType).
#[global] Instance WasmCompositeType_eq : EqDecision WasmCompositeType.
Proof. solve_decision. Defined.

Record WasmSubType := {
  is_final : bool;
  supertype : option EngineOrModuleTypeIndex;
  composite_type : WasmCompositeType
}.
#[global] Instance WasmSubType_eq : EqDecision WasmSubType.
Proof. solve_decision. Defined.

Definition as_func (t : WasmSubType) : option WasmFuncType :=
  match composite_type t with CFunc f => Some f | _ => None end.

Record WasmRecGroup := { rec_types : list WasmSubType }.
#[global] Instance WasmRecGroup_eq : EqDecision WasmRecGroup.
Proof. solve_decision. Defined.

(** ** Visiting the indices inside a type

    [edges] lists them in the order of the visit; [trace_mut] rewrites each, and
    may panic on the way. *)

Class TypeTrace (A : Type) := {
  edges : A -> list EngineOrModuleTypeIndex;
  trace_mut {E} : (EngineOrModuleTypeIndex -> outcome E EngineOrModuleTypeIndex) -> A -> outcome E A
}.

(** What the registry relies on: a rewriting that is defined on all edges gives
    a type with the rewritten edges, further rewritings of it fuse, only the edges
    are looked at, and nothing else changes. *)
Class TypeTraceOk (A : Type) `{!TypeTrace A} : Prop := {
  trace_mut_ok {E} (f : EngineOrModuleTypeIndex -> outcome E EngineOrModuleTypeIndex) (x : A) l :
    Forall2 (fun i j => f i = Ok j) (edges x) l ->
    exists y, trace_mut f x = Ok y /\ edges y = l /\
      forall g h : EngineOrModuleTypeIndex -> outcome E EngineOrModuleTypeIndex,
        Forall2 (fun i j => g j = h i) (edges x) l -> trace_mut g y = trace_mut h x;
  trace_mut_ext {E} (f g : EngineOrModuleTypeIndex -> outcome E EngineOrModuleTypeIndex) (x : A) :
    (forall i, i ∈ edges x -> f i = g i) -> trace_mut f x = trace_mut g x;
  trace_mut_id {E} (x : A) : trace_mut (E:=E) Ok x = Ok x
}.

#[export] Instance heap_trace : TypeTrace WasmHeapType := {
  edges h := match h with
             | HConcreteArray i | HConcreteFunc i | HConcreteStruct i => [i]
             | _ => []
             end;
  trace_mut _ f h := match h with
                     | HConcreteArray i => j ← f i; Ok (HConcreteArray j)
                     | HConcreteFunc i => j ← f i; Ok (HConcreteFunc j)
                     | HConcreteStruct i => j ← f i; Ok (HConcreteStruct j)
                     | h => Ok h
                     end
}.

#[export] Instance ref_trace : TypeTrace WasmRefType := {
  edges r := edges (rt_heap_type r : WasmHeapType);
  trace_mut _ f r := h ← trace_mut f (rt_heap_type r : WasmHeapType);
                     Ok {| nullable := nullable r; rt_heap_type := h |}
}.

#[export] Instance val_trace : TypeTrace WasmValType := {
  edges v := match v with VRef r => edges (r : WasmRefType) | _ => [] end;
  trace_mut _ f v := match v with
                     | VRef r => r ← trace_mut f (r : WasmRefType); Ok (VRef r)
                     | v => Ok v
                     end
}.

Section Lists.
  Context {A : Type} `{!TypeTrace A}.

Fixpoint trace_mut_list {E} (f : EngineOrModuleTypeIndex -> outcome E EngineOrModuleTypeIndex) (l : list A)
  : outcome E (list A) :=
  match l with
  | [] => Ok []
  | x :: l => y ← trace_mut f x; l' ← trace_mut_list f l; Ok (y :: l')
  end.

#[export] Instance list_trace : TypeTrace (list A) := {
  edges l := l ≫= edges;
  trace_mut _ := trace_mut_list
}.
End Lists.

#[export] Instance func_trace : TypeTrace WasmFuncType := {
  edges f := edges (params f) ++ edges (returns f);
  trace_mut _ f t :=
    p ← trace_mut f (params t);
    r ← trace_mut f (returns t);
    Ok {| params := p; non_i31_gc_ref_params_count := non_i31_gc_ref_params_count t;
          returns := r; non_i31_gc_ref_returns_count := non_i31_gc_ref_returns_count t |}
}.

#[export] Instance storage_trace : TypeTrace WasmStorageType := {
  edges s := match s with SI8 | SI16 => [] | SVal v => edges (v : WasmValType) end;
  trace_mut _ f s := match s with
                     | SVal v => v ← trace_mut f (v : WasmValType); Ok (SVal v)
                     | s => Ok s
                     end
}.

#[export] Instance field_trace : TypeTrace WasmFieldType := {
  edges s := edges (element_type s);
  trace_mut _ f s := e ← trace_mut f (element_type s); Ok {| element_type := e; mutable := mutable s |}
}.

#[export] Instance struct_trace : TypeTrace WasmStructType := {
  edges s := edges (fields s);
  trace_mut _ f s := l ← trace_mut f (fields s); Ok {| fields := l |}
}.

#[export] Instance composite_trace : TypeTrace WasmCompositeType := {
  edges c := match c with CArray a => edges a | CFunc f => edges f | CStruct s => edges s end;
  trace_mut _ f c := match c with
                     | CArray a => a ← trace_mut f a; Ok (CArray a)
                     | CFunc t => t ← trace_mut f t; Ok (CFunc t)
                     | CStruct s => s ← trace_mut f s; Ok (CStruct s)
                     end
}.

#[export] Instance sub_trace : TypeTrace WasmSubType := {
  edges t := match supertype t with Some s => [s] | None => [] end ++ edges (composite_type t);
  trace_mut _ f t :=
    s ← match supertype t with Some s => s ← f s; Ok (Some s) | None => Ok None end;
    c ← trace_mut f (composite_type t);
    Ok {| is_final := is_final t; supertype := s; composite_type := c |}
}.

#[export] Instance group_trace : TypeTrace WasmRecGroup := {
  edges g := edges (rec_types g);
  trace_mut _ f g := l ← trace_mut f (rec_types g); Ok {| rec_types := l |}
}.

(** ** Canonical types *)

Section Canonical.
  Context {A : Type} `{!TypeTrace A} {E : Type}.

(** [trace_engine_indices], as the list of what it visits. *)
Definition engine_indices (x : A) : list Z := omap as_engine_type_index (edges x).

Definition canonicalize_for_runtime_usage (module_to_engine : Z -> outcome E Z) (x : A) : outcome E A :=
  trace_mut (fun idx =>
    match idx with
    | Engine _ => Ok idx
    | Module_ m => e ← module_to_engine m; Ok (Engine e)
    | RecGroup _ => Panic
    end) x.

Definition is_canonicalized_for_runtime_usage (x : A) : bool :=
  forallb (fun idx => match idx with Engine _ => true | _ => false end) (edges x).

Definition canonicalize_for_hash_consing (dbg : bool) (start end_ : Z) (module_to_engine : Z -> outcome E Z)
    (x : A) : outcome E A :=
  trace_mut (fun idx =>
    match idx with
    | Engine _ => Ok idx
    | Module_ m =>
        if start <=? m then
          debug_assert dbg (m <? end_);;
          Ok (RecGroup (m - start))
        else
          debug_assert dbg (m <? start);;
          e ← module_to_engine m;
          Ok (Engine e)
    | RecGroup _ => Panic
    end) x.

Definition is_canonicalized_for_hash_consing (x : A) : bool :=
  forallb (fun idx => match idx with Engine _ | RecGroup _ => true | Module_ _ => false end) (edges x).
End Canonical.

(** ** The visit satisfies its laws *)

(** One part of a type: its rewriting, and the fused one. *)
Ltac trace_part x :=
  match goal with
  | H : Forall2 _ (@edges _ _ x) ?l |- context [@trace_mut ?A _ _ ?f x] =>
      let y := fresh "y" in let Hy := fresh "Hy" in let He := fresh "He" in let Hg := fresh "Hg" in
      destruct (trace_mut_ok (A:=A) f x l H) as (y & Hy & He & Hg); rewrite Hy; cbn [mbind outcome_bind]
  end.

#[export] Instance heap_trace_ok : TypeTraceOk WasmHeapType.
Proof.
  split.
  - intros E f [] l H; inversion H as [|? j ? l' Hj Hl]; subst;
      try (inversion Hl; subst); cbn; rewrite ?Hj;
      (eexists; split; [reflexivity|]); (split; [reflexivity|]);
      intros g h Hgh; inversion Hgh as [|? ? ? ? Hi]; subst; cbn; rewrite ?Hi; reflexivity.
  - intros E f g [] H; cbn in *; rewrite ?H by set_solver; reflexivity.
  - intros E []; reflexivity.
Qed.

#[export] Instance ref_trace_ok : TypeTraceOk WasmRefType.
Proof.
  split.
  - intros E f [n h] l H. cbn [trace_mut edges ref_trace rt_heap_type nullable] in *. trace_part h.
    eexists; split; [reflexivity|]; split; [done|].
    intros g k Hgk. cbn [rt_heap_type nullable]. rewrite (Hg _ _ Hgk). reflexivity.
  - intros E f g [n h] H. cbn [trace_mut edges ref_trace rt_heap_type nullable] in *.
    rewrite (trace_mut_ext f g (h : WasmHeapType)) by done. reflexivity.
  - intros E [n h]. cbn [trace_mut ref_trace rt_heap_type nullable]. by rewrite (trace_mut_id (h : WasmHeapType)).
Qed.

#[export] Instance val_trace_ok : TypeTraceOk WasmValType.
Proof.
  split.
  - intros E f [] l H; cbn [trace_mut edges val_trace] in *;
      try (inversion H; subst; eexists; split; [reflexivity|]; split; done).
    trace_part r. eexists; split; [reflexivity|]; split; [done|].
    intros g k Hgk. rewrite (Hg _ _ Hgk). reflexivity.
  - intros E f g [] H; cbn [trace_mut edges val_trace] in *; try done.
    rewrite (trace_mut_ext f g (r : WasmRefType)) by done. reflexivity.
  - intros E []; try reflexivity. cbn [trace_mut val_trace]. by rewrite (trace_mut_id (r : WasmRefType)).
Qed.

#[export] Instance list_trace_ok {A} `{TypeTraceOk A} : TypeTraceOk (list A).
Proof.
  split.
  - intros E f x. induction x as [|a x IH]; intros l Hl; cbn [trace_mut edges list_trace] in *.
    + inversion Hl; subst. eexists; split; [reflexivity|]; split; done.
    + cbn [mbind list_bind] in Hl. apply Forall2_app_inv_l in Hl as (l1 & l2 & H1 & H2 & ->).
      cbn [trace_mut_list]. trace_part a.
      destruct (IH l2 H2) as (y' & Hy' & He' & Hg'). rewrite Hy'.
      eexists; split; [reflexivity|]; cbn [mbind list_bind]; split; [rewrite He, <- He'; done|].
      intros g h Hgh. apply Forall2_app_inv in Hgh as [G1 G2]; [|by eapply Forall2_length].
      cbn [trace_mut_list]. rewrite (Hg _ _ G1), (Hg' _ _ G2). reflexivity.
  - intros E f g x. induction x as [|a x IH]; intros Hx; cbn [trace_mut edges list_trace trace_mut_list] in *;
      [done|].
    rewrite (trace_mut_ext f g a), IH by set_solver. reflexivity.
  - intros E x. induction x as [|a x IH]; [done|]. cbn [trace_mut list_trace trace_mut_list] in *.
    rewrite (trace_mut_id a). cbn [mbind outcome_bind]. by rewrite IH.
Qed.

#[export] Instance func_trace_ok : TypeTraceOk WasmFuncType.
Proof.
  split.
  - intros E f [p np r nr] l H. cbn [trace_mut edges func_trace params returns] in *.
    apply Forall2_app_inv_l in H as (l1 & l2 & H1 & H2 & ->).
    trace_part p. trace_part r.
    eexists; split; [reflexivity|]. cbn [params returns]. split; [by rewrite He, He0|].
    intros g h Hgh. apply Forall2_app_inv in Hgh as [G1 G2]; [|by eapply Forall2_length].
    rewrite (Hg _ _ G1), (Hg0 _ _ G2). reflexivity.
  - intros E f g [p np r nr] H. cbn [trace_mut edges func_trace params returns] in *.
    rewrite (trace_mut_ext f g p), (trace_mut_ext f g r) by set_solver. reflexivity.
  - intros E [p np r nr]. cbn [trace_mut func_trace params returns].
    rewrite (trace_mut_id p). cbn [mbind outcome_bind]. by rewrite (trace_mut_id r).
Qed.

#[export] Instance storage_trace_ok : TypeTraceOk WasmStorageType.
Proof.
  split.
  - intros E f [] l H; cbn [trace_mut edges storage_trace] in *;
      try (inversion H; subst; eexists; split; [reflexivity|]; split; done).
    trace_part v. eexists; split; [reflexivity|]; split; [done|].
    intros g k Hgk. rewrite (Hg _ _ Hgk). reflexivity.
  - intros E f g [] H; cbn [trace_mut edges storage_trace] in *; try done.
    rewrite (trace_mut_ext f g (v : WasmValType)) by done. reflexivity.
  - intros E []; try reflexivity. cbn [trace_mut storage_trace]. by rewrite (trace_mut_id (v : WasmValType)).
Qed.

#[export] Instance field_trace_ok : TypeTraceOk WasmFieldType.
Proof.
  split.
  - intros E f [e m] l H. cbn [trace_mut edges field_trace element_type mutable] in *. trace_part e.
    eexists; split; [reflexivity|]; split; [done|].
    intros g k Hgk. cbn [element_type mutable]. rewrite (Hg _ _ Hgk). reflexivity.
  - intros E f g [e m] H. cbn [trace_mut edges field_trace element_type mutable] in *.
    rewrite (trace_mut_ext f g e) by done. reflexivity.
  - intros E [e m]. cbn [trace_mut field_trace element_type mutable]. by rewrite (trace_mut_id e).
Qed.

#[export] Instance struct_trace_ok : TypeTraceOk WasmStructType.
Proof.
  split.
  - intros E f [e] l H. cbn [trace_mut edges struct_trace fields] in *. trace_part e.
    eexists; split; [reflexivity|]; split; [done|].
    intros g k Hgk. cbn [fields]. rewrite (Hg _ _ Hgk). reflexivity.
  - intros E f g [e] H. cbn [trace_mut edges struct_trace fields] in *.
    rewrite (trace_mut_ext f g e) by done. reflexivity.
  - intros E [e]. cbn [trace_mut struct_trace fields]. by rewrite (trace_mut_id e).
Qed.

#[export] Instance composite_trace_ok : TypeTraceOk WasmCompositeType.
Proof.
  split.
  - intros E f [a|a|a] l H; cbn [trace_mut edges composite_trace] in *; trace_part a;
      (eexists; split; [reflexivity|]; split; [done|]);
      intros g k Hgk; cbn [trace_mut composite_trace]; rewrite (Hg _ _ Hgk); reflexivity.
  - intros E f g [a|a|a] H; cbn [trace_mut edges composite_trace] in *;
      rewrite (trace_mut_ext f g a) by done; reflexivity.
  - intros E [a|a|a]; cbn [trace_mut composite_trace]; by rewrite (trace_mut_id a).
Qed.

#[export] Instance sub_trace_ok : TypeTraceOk WasmSubType.
Proof.
  split.
  - intros E f [fin [s|] c] l H; cbn [trace_mut edges sub_trace is_final supertype composite_type] in *.
    + apply Forall2_cons_inv_l in H as (j & l2 & Hj & H2 & ->). rewrite Hj. cbn [mbind outcome_bind].
      trace_part c.
      eexists; split; [reflexivity|]. cbn [is_final supertype composite_type]. split; [by rewrite He|].
      intros g h Hgh. apply Forall2_cons_1 in Hgh as [Hs Hc].
      rewrite Hs. cbn [mbind outcome_bind]. rewrite (Hg _ _ Hc). reflexivity.
    + cbn [app] in H. cbn [mbind outcome_bind]. trace_part c.
      eexists; split; [reflexivity|]. cbn [is_final supertype composite_type]. split; [done|].
      intros g h Hgh. cbn [mbind outcome_bind]. rewrite (Hg _ _ Hgh). reflexivity.
  - intros E f g [fin [s|] c] H; cbn [trace_mut edges sub_trace is_final supertype composite_type] in *;
      rewrite ?(H s) by set_solver; rewrite (trace_mut_ext f g c) by set_solver; reflexivity.
  - intros E [fin [s|] c]; cbn [trace_mut sub_trace is_final supertype composite_type mbind outcome_bind];
      by rewrite (trace_mut_id c).
Qed.

#[export] Instance group_trace_ok : TypeTraceOk WasmRecGroup.
Proof.
  split.
  - intros E f [e] l H. cbn [trace_mut edges group_trace rec_types] in *. trace_part e.
    eexists; split; [reflexivity|]; split; [done|].
    intros g k Hgk. cbn [rec_types]. rewrite (Hg _ _ Hgk). reflexivity.
  - intros E f g [e] H. cbn [trace_mut edges group_trace rec_types] in *.
    rewrite (trace_mut_ext f g e) by done. reflexivity.
  - intros E [e]. cbn [trace_mut group_trace rec_types]. by rewrite (trace_mut_id e).
Qed.
