(* ===== verification/TypeMatching.v ===== *)
(** * Subtyping and the matching of imports

    The types as the embedder sees them, [crates/wasmtime/src/runtime/types.rs],
    with their subtyping and the checks on a declared supertype, and the matching
    of what a module imports with what it is given,
    [crates/wasmtime/src/runtime/types/matching.rs].  A concrete type of the
    embedder is a handle on a type of the engine's registry: it is its index here,
    and the registry is the function [lookup] from indices to types and the test
    [is_subtype] between indices ([TypeRegistry] gives both).  All types are those
    of one engine, so the assertions that compare engines are left out, and so are
    the messages of errors.  Iterators convert their elements one by one: a list of
    outcomes, looked at as far as the consumer goes. *)

From Stdlib Require Import ZArith Lia.
From stdpp Require Import base list gmap numbers option relations.
From S2P Require Import Prelude MemoryTypes WasmTypes.
Open Scope Z_scope.

(** ** Types of the embedder *)

Inductive Mutability := Const | Var.
#[global] Instance Mutability_eq : EqDecision Mutability.
Proof. solve_decision. Defined.

Record FieldType := { fmutability : Mutability; felement_type : StorageType }.

Inductive type_error := FinalSupertype | SupertypeMismatch | TooManyFields.

(** [HeapType::top], [is_top], [bottom] and [is_bottom]. *)
Definition heap_top (h : HeapType) : HeapType :=
  match h with
  | HFunc | HConcreteFunc _ | HNoFunc => HFunc
  | HExtern | HNoExtern => HExtern
  | HAny | HEq | HI31 | HArray | HConcreteArray _ | HStruct | HConcreteStruct _ | HNone => HAny
  end.
Definition is_top (h : HeapType) : bool :=
  match h with HAny | HExtern | HFunc => true | _ => false end.
Definition heap_bottom (h : HeapType) : HeapType :=
  match h with
  | HExtern | HNoExtern => HNoExtern
  | HFunc | HConcreteFunc _ | HNoFunc => HNoFunc
  | HAny | HEq | HI31 | HArray | HConcreteArray _ | HStruct | HConcreteStruct _ | HNone => HNone
  end.
Definition is_bottom (h : HeapType) : bool :=
  match h with HNone | HNoExtern | HNoFunc => true | _ => false end.

Definition is_i8 (s : StorageType) : bool := match s with SI8 => true | _ => false end.
Definition is_i16 (s : StorageType) : bool := match s with SI16 => true | _ => false end.
Definition is_val_type (s : StorageType) : bool := match s with SI16 => true | _ => false end.
Definition as_val_type (s : StorageType) : option ValType :=
  match s with SVal v => Some v | _ => None end.

(** Types of the embedder to types of modules. *)
Definition heap_to_wasm (h : HeapType) : WasmHeapType :=
  match h with
  | HExtern => HExtern
  | HNoExtern => HNoExtern
  | HFunc => HFunc
  | HNoFunc => HNoFunc
  | HAny => HAny
  | HEq => HEq
  | HI31 => HI31
  | HArray => HArray
  | HStruct => HStruct
  | HNone => HNone
  | HConcreteFunc f => HConcreteFunc (Engine f)
  | HConcreteArray a => HConcreteArray (Engine a)
  | HConcreteStruct s => HConcreteStruct (Engine s)
  end.
Definition ref_to_wasm (r : RefType) : WasmRefType :=
  {| nullable := nullable r; rt_heap_type := heap_to_wasm (rt_heap_type r) |}.
Definition val_to_wasm (v : ValType) : WasmValType :=
  match v with
  | VI32 => VI32
  | VI64 => VI64
  | VF32 => VF32
  | VF64 => VF64
  | VV128 => VV128
  | VRef r => VRef (ref_to_wasm r)
  end.
Definition storage_to_wasm (s : StorageType) : WasmStorageType :=
  match s with
  | SI8 => SI8
  | SI16 => SI16
  | SVal v => SVal (val_to_wasm v)
  end.
Definition field_to_wasm (f : FieldType) : WasmFieldType :=
  {| element_type := storage_to_wasm (felement_type f);
     mutable := match fmutability f with Var => true | Const => false end |}.

(** ** Types of an engine *)

Section Engine.
  Context {E : Type} (lookup : Z -> option WasmSubType) (is_subtype : Z -> Z -> bool).

(** [FuncType::from_shared_type_index] and its siblings: the type is registered
    and of the right kind. *)
Definition func_from_index (i : Z) : outcome E Z :=
  ty ← unwrap (lookup i);
  assert_ (match composite_type ty with CFunc _ => true | _ => false end);;
  Ok i.
Definition array_from_index (i : Z) : outcome E Z :=
  ty ← unwrap (lookup i);
  assert_ (match composite_type ty with CArray _ => true | _ => false end);;
  Ok i.
Definition struct_from_index (i : Z) : outcome E Z :=
  ty ← unwrap (lookup i);
  assert_ (match composite_type ty with CStruct _ => true | _ => false end);;
  Ok i.

Definition heap_from_wasm (h : WasmHeapType) : outcome E HeapType :=
  match h with
  | HExtern => Ok HExtern
  | HNoExtern => Ok HNoExtern
  | HFunc => Ok HFunc
  | HNoFunc => Ok HNoFunc
  | HAny => Ok HAny
  | HEq => Ok HEq
  | HI31 => Ok HI31
  | HArray => Ok HArray
  | HStruct => Ok HStruct
  | HNone => Ok HNone
  | HConcreteFunc (Engine i) => i ← func_from_index i; Ok (HConcreteFunc i)
  | HConcreteArray (Engine i) => i ← array_from_index i; Ok (HConcreteArray i)
  | HConcreteStruct (Engine i) => i ← struct_from_index i; Ok (HConcreteStruct i)
  | HConcreteFunc (Module_ _) | HConcreteFunc (RecGroup _)
  | HConcreteArray (Module_ _) | HConcreteArray (RecGroup _)
  | HConcreteStruct (Module_ _) | HConcreteStruct (RecGroup _) => Panic
  end.
Definition ref_from_wasm (r : WasmRefType) : outcome E RefType :=
  h ← heap_from_wasm (rt_heap_type r);
  Ok {| nullable := nullable r; rt_heap_type := h |}.
Definition val_from_wasm (v : WasmValType) : outcome E ValType :=
  match v with
  | VI32 => Ok VI32
  | VI64 => Ok VI64
  | VF32 => Ok VF32
  | VF64 => Ok VF64
  | VV128 => Ok VV128
  | VRef r => r ← ref_from_wasm r; Ok (VRef r)
  end.
Definition storage_from_wasm (s : WasmStorageType) : outcome E StorageType :=
  match s with
  | SI8 => Ok SI8
  | SI16 => Ok SI16
  | SVal v => v ← val_from_wasm v; Ok (SVal v)
  end.
Definition field_from_wasm (f : WasmFieldType) : outcome E FieldType :=
  s ← storage_from_wasm (element_type f);
  Ok {| fmutability := if mutable f then Var else Const; felement_type := s |}.

(** *** Subtyping *)

Definition heap_matches (a b : HeapType) : bool :=
  match a, b with
  | HExtern, HExtern => true
  | HExtern, _ => false
  | HNoExtern, (HNoExtern | HExtern) => true
  | HNoExtern, _ => false
  | HNoFunc, (HNoFunc | HConcreteFunc _ | HFunc) => true
  | HNoFunc, _ => false
  | HConcreteFunc _, HFunc => true
  | HConcreteFunc a, HConcreteFunc b => is_subtype a b
  | HConcreteFunc _, _ => false
  | HFunc, HFunc => true
  | HFunc, _ => false
  | HNone, (HNone | HConcreteArray _ | HArray | HConcreteStruct _ | HStruct | HI31 | HEq | HAny) => true
  | HNone, _ => false
  | HConcreteArray _, (HArray | HEq | HAny) => true
  | HConcreteArray a, HConcreteArray b => is_subtype a b
  | HConcreteArray _, _ => false
  | HArray, (HArray | HEq | HAny) => true
  | HArray, _ => false
  | HConcreteStruct _, (HStruct | HEq | HAny) => true
  | HConcreteStruct a, HConcreteStruct b => is_subtype a b
  | HConcreteStruct _, _ => false
  | HStruct, (HStruct | HEq | HAny) => true
  | HStruct, _ => false
  | HI31, (HI31 | HEq | HAny) => true
  | HI31, _ => false
  | HEq, (HEq | HAny) => true
  | HEq, _ => false
  | HAny, HAny => true
  | HAny, _ => false
  end.

Definition ref_matches (a b : RefType) : bool :=
  if nullable a && negb (nullable b) then false
  else heap_matches (rt_heap_type a) (rt_heap_type b).

Definition val_matches (a b : ValType) : bool :=
  match a, b with
  | VI32, VI32 | VI64, VI64 | VF32, VF32 | VF64, VF64 | VV128, VV128 => true
  | VRef a, VRef b => ref_matches a b
  | _, _ => false
  end.

Definition storage_matches (a b : StorageType) : bool :=
  match a, b with
  | SI8, SI8 => true
  | SI8, _ => false
  | SI16, SI16 => true
  | SI16, _ => false
  | SVal a, SVal b => val_matches a b
  | SVal _, _ => false
  end.

Definition field_matches (a b : FieldType) : bool :=
  (bool_decide (fmutability b = Var) || bool_decide (fmutability a = Const)) &&
  storage_matches (felement_type a) (felement_type b).

(** [HeapType::eq], [RefType::eq], [ValType::eq]. *)
Definition heap_eq (a b : HeapType) : bool := heap_matches a b && heap_matches b a.
Definition ref_eq (a b : RefType) : bool := ref_matches a b && ref_matches b a.
Definition val_eq (a b : ValType) : bool := val_matches a b && val_matches b a.

(** [a.zip(b).all(|(a, b)| f(a, b))]: the elements of [a] are asked for first. *)
Fixpoint zip_all {A} (f : A -> A -> bool) (a b : list (outcome E A)) : outcome E bool :=
  match a with
  | [] => Ok true
  | mx :: a =>
      x ← mx;
      match b with
      | [] => Ok true
      | my :: b =>
          y ← my;
          if f x y then zip_all f a b else Ok false
      end
  end.

(** [FuncType::matches_impl]. *)
Definition matches_impl (a_params b_params a_results b_results : list (outcome E ValType)) : outcome E bool :=
  if negb (bool_decide (length a_params = length b_params)) then Ok false
  else if negb (bool_decide (length a_results = length b_results)) then Ok false
  else
    p ← zip_all (fun a b => val_matches b a) a_params b_params;
    if (p : bool) then zip_all val_matches a_results b_results else Ok false.

(** [StructType::fields_match]. *)
Definition fields_match (a b : list (outcome E FieldType)) : outcome E bool :=
  if Nat.ltb (length a) (length b) then Ok false
  else zip_all field_matches a b.

(** [FuncType::params] and [results], of the type a handle holds. *)
Definition ty_params (i : Z) : outcome E (list (outcome E ValType)) :=
  ty ← unwrap (lookup i);
  f ← unwrap (as_func ty);
  Ok (map val_from_wasm (params f)).
Definition ty_results (i : Z) : outcome E (list (outcome E ValType)) :=
  ty ← unwrap (lookup i);
  f ← unwrap (as_func ty);
  Ok (map val_from_wasm (returns f)).

Definition func_matches (a b : Z) : outcome E bool :=
  if a =? b then Ok true
  else
    ap ← ty_params a;
    bp ← ty_params b;
    ar ← ty_results a;
    br ← ty_results b;
    matches_impl ap bp ar br.

Definition ty_fields (i : Z) : outcome E (list (outcome E FieldType)) :=
  ty ← unwrap (lookup i);
  match composite_type ty with
  | CStruct s => Ok (map field_from_wasm (fields s))
  | _ => Panic
  end.

Definition struct_matches (a b : Z) : outcome E bool :=
  if a =? b then Ok true
  else
    af ← ty_fields a;
    bf ← ty_fields b;
    fields_match af bf.

Definition field_type (i : Z) : outcome E FieldType :=
  ty ← unwrap (lookup i);
  match composite_type ty with
  | CArray f => field_from_wasm f
  | _ => Panic
  end.

Definition array_matches (a b : Z) : outcome E bool :=
  if a =? b then Ok true
  else
    af ← field_type a;
    bf ← field_type b;
    Ok (field_matches af bf).
End Engine.

(** ** New types with a declared supertype

    [with_finality_and_supertype]: the type that is then given to the registry. *)
Section Declare.
  Context (lookup : Z -> option WasmSubType) (is_subtype : Z -> Z -> bool).

Definition ensure (b : bool) (e : type_error) : outcome type_error unit := if b then Ok () else Err e.

Lemma ensure_Ok b e u : ensure b e = Ok u -> b = true.
Proof. by destruct b. Qed.

Definition non_final (i : Z) : outcome type_error bool :=
  ty ← unwrap (lookup i);
  Ok (negb (is_final ty)).

Definition func_with_supertype (final : bool) (sup : option Z) (ps rs : list ValType)
  : outcome type_error WasmSubType :=
  let ty := func_type_new (map val_to_wasm ps) (map val_to_wasm rs) in
  match sup with
  | Some s =>
      nf ← non_final s;
      ensure nf FinalSupertype;;
      sp ← ty_params lookup s;
      sr ← ty_results lookup s;
      m ← matches_impl is_subtype (map Ok ps) sp (map Ok rs) sr;
      ensure m SupertypeMismatch
  | None => Ok ()
  end;;
  Ok {| is_final := final; supertype := Engine <$> sup; composite_type := CFunc ty |}.

Definition array_with_supertype (final : bool) (sup : option Z) (f : FieldType)
  : outcome type_error WasmSubType :=
  match sup with
  | Some s =>
      nf ← non_final s;
      ensure nf FinalSupertype;;
      sf ← field_type lookup s;
      ensure (field_matches is_subtype f sf) SupertypeMismatch
  | None => Ok ()
  end;;
  Ok {| is_final := final; supertype := Engine <$> sup; composite_type := CArray (field_to_wasm f) |}.

Definition MAX_FIELDS : nat := Z.to_nat 10000.

Definition struct_with_supertype (final : bool) (sup : option Z) (fs : list FieldType)
  : outcome type_error WasmSubType :=
  match sup with
  | Some s =>
      nf ← non_final s;
      ensure nf FinalSupertype;;
      sf ← ty_fields lookup s;
      m ← fields_match is_subtype (map Ok fs) sf;
      ensure m SupertypeMismatch
  | None => Ok ()
  end;;
  ensure (Nat.leb (length fs) MAX_FIELDS) TooManyFields;;
  Ok {| is_final := final; supertype := Engine <$> sup;
        composite_type := CStruct {| fields := map field_to_wasm fs |} |}.
End Declare.

(** ** The matching of imports *)

Record Global := { gwasm_ty : WasmValType; gmutability : bool }.

Module Table.
Record t := { wasm_ty : WasmRefType; minimum : Z; maximum : option Z }.
End Table.

Inductive EntityType :=
| EGlobal (g : Global)
| EMemory (m : Memory)
| ETag
| ETable (t : Table.t)
| EFunction (i : EngineOrModuleTypeIndex).

Inductive DefinitionType :=
| DFunc (i : Z)
| DGlobal (g : Global)
| DTable (t : Table.t) (size : Z)
| DMemory (m : Memory) (size : Z).

Inductive match_error := Incompatible.

Section Matching.
  Context (dbg : bool) (lookup : Z -> option WasmSubType) (is_subtype : Z -> Z -> bool).

Definition accept (b : bool) : outcome match_error unit := if b then Ok () else Err Incompatible.

(** The test of [match_heap]. *)
Definition match_heapb (expected actual : WasmHeapType) : bool :=
  match actual, expected with
  | HConcreteArray a, HConcreteArray e => bool_decide (a = e)
  | HConcreteFunc a, HConcreteFunc e => bool_decide (a = e)
  | HConcreteStruct a, HConcreteStruct e => bool_decide (a = e)
  | HNoFunc, HNoFunc => true
  | _, HNoFunc => false
  | HNoFunc, HConcreteFunc _ => true
  | _, HConcreteFunc _ => false
  | (HNoFunc | HConcreteFunc _ | HFunc), HFunc => true
  | _, HFunc => false
  | (HExtern | HNoExtern), HExtern => true
  | _, HExtern => false
  | HNoExtern, HNoExtern => true
  | _, HNoExtern => false
  | (HAny | HEq | HI31 | HArray | HConcreteArray _ | HStruct | HConcreteStruct _ | HNone), HAny => true
  | _, HAny => false
  | (HEq | HI31 | HArray | HConcreteArray _ | HStruct | HConcreteStruct _ | HNone), HEq => true
  | _, HEq => false
  | (HI31 | HNone), HI31 => true
  | _, HI31 => false
  | (HArray | HConcreteArray _ | HNone), HArray => true
  | _, HArray => false
  | HNone, HConcreteArray _ => true
  | _, HConcreteArray _ => false
  | (HStruct | HConcreteStruct _ | HNone), HStruct => true
  | _, HStruct => false
  | HNone, HConcreteStruct _ => true
  | _, HConcreteStruct _ => false
  | HNone, HNone => true
  | _, HNone => false
  end.
Definition match_heap (expected actual : WasmHeapType) : outcome match_error unit :=
  accept (match_heapb expected actual).

Definition match_ref (expected actual : WasmRefType) : outcome match_error unit :=
  if Bool.eqb (nullable actual) (nullable expected) || nullable expected
  then match_heap (rt_heap_type expected) (rt_heap_type actual)
  else Err Incompatible.

Definition equal_ty (expected actual : WasmValType) : outcome match_error unit :=
  debug_assert dbg (is_canonicalized_for_runtime_usage expected);;
  debug_assert dbg (is_canonicalized_for_runtime_usage actual);;
  accept (bool_decide (expected = actual)).

Definition match_ty (expected actual : WasmValType) : outcome match_error unit :=
  debug_assert dbg (is_canonicalized_for_runtime_usage expected);;
  debug_assert dbg (is_canonicalized_for_runtime_usage actual);;
  match actual, expected with
  | VRef actual, VRef expected => match_ref expected actual
  | actual, expected => equal_ty expected actual
  end.

Definition match_bool (expected actual : bool) : outcome match_error unit :=
  accept (Bool.eqb expected actual).

Definition match_limits (expected_min : Z) (expected_max : option Z) (actual_min : Z) (actual_max : option Z)
  : outcome match_error unit :=
  accept ((expected_min <=? actual_min) &&
          match expected_max with
          | Some expected => match actual_max with
                             | Some actual => actual <=? expected
                             | None => false
                             end
          | None => true
          end).

Definition global_ty (expected actual : Global) : outcome match_error unit :=
  (if gmutability expected || gmutability actual
   then equal_ty (gwasm_ty expected) (gwasm_ty actual)
   else match_ty (gwasm_ty expected) (gwasm_ty actual));;
  match_bool (gmutability expected) (gmutability actual).

Definition table_ty (expected actual : Table.t) (actual_runtime_size : option Z) : outcome match_error unit :=
  equal_ty (VRef (Table.wasm_ty expected)) (VRef (Table.wasm_ty actual));;
  match_limits (Table.minimum expected) (Table.maximum expected)
    (default (Table.minimum actual) actual_runtime_size) (Table.maximum actual).

Definition memory_ty (expected actual : Memory) (actual_runtime_size : option Z) : outcome match_error unit :=
  match_bool (shared expected) (shared actual);;
  match_bool (memory64 expected) (memory64 actual);;
  match_limits (minimum expected) (maximum expected)
    (default (minimum actual) actual_runtime_size) (maximum actual);;
  accept (page_size_log2 expected =? page_size_log2 actual).

Definition type_reference (expected actual : Z) : outcome match_error unit :=
  matches ← (if expected =? actual then Ok true
             else
               expected ← func_from_index lookup expected;
               actual ← func_from_index lookup actual;
               func_matches lookup is_subtype actual expected);
  if (matches : bool) then Ok ()
  else
    unwrap (lookup expected);;
    unwrap (lookup actual);;
    Err Incompatible.

Definition definition (expected : EntityType) (actual : DefinitionType) : outcome match_error unit :=
  match expected with
  | EGlobal expected =>
      match actual with DGlobal actual => global_ty expected actual | _ => Err Incompatible end
  | ETable expected =>
      match actual with DTable actual cur => table_ty expected actual (Some cur) | _ => Err Incompatible end
  | EMemory expected =>
      match actual with DMemory actual cur => memory_ty expected actual (Some cur) | _ => Err Incompatible end
  | EFunction expected =>
      match actual with
      | DFunc actual => e ← unwrap_engine_type_index expected; type_reference e actual
      | _ => Err Incompatible
      end
  | ETag => Panic
  end.

(** [entity_ty], between the types of two modules. *)
Definition entity_ty (expected : EntityType) (expected_types : Z -> option WasmSubType)
    (actual : EntityType) (actual_types : Z -> option WasmSubType) : outcome match_error unit :=
  match expected with
  | EMemory expected =>
      match actual with EMemory actual => memory_ty expected actual None | _ => Err Incompatible end
  | EGlobal expected =>
      match actual with EGlobal actual => global_ty expected actual | _ => Err Incompatible end
  | ETable expected =>
      match actual with ETable actual => table_ty expected actual None | _ => Err Incompatible end
  | EFunction expected =>
      match actual with
      | EFunction actual =>
          ei ← unwrap match expected with Module_ i => Some i | _ => None end;
          e ← unwrap (expected_types ei);
          ai ← unwrap match actual with Module_ i => Some i | _ => None end;
          a ← unwrap (actual_types ai);
          accept (bool_decide (e = a))
      | _ => Err Incompatible
      end
  | ETag => Panic
  end.
End Matching.

(** ** Subtyping as the documentation draws it *)

Section Spec.
  Context (lookup : Z -> option WasmSubType) (is_subtype : Z -> Z -> bool).

(** The supertype a registered type declares. *)
Definition declared (i j : Z) : Prop :=
  exists ty, lookup i = Some ty /\ supertype ty = Some (Engine j).

(** What the test between indices promises. *)
Class SubtypeTest : Prop := {
  subtype_sound i j : is_subtype i j = true -> rtc declared i j;
  subtype_complete i j : rtc declared i j -> is_subtype i j = true
}.

Inductive heap_sub : HeapType -> HeapType -> Prop :=
| sub_refl h : heap_sub h h
| sub_trans a b c : heap_sub a b -> heap_sub b c -> heap_sub a c
| sub_noextern : heap_sub HNoExtern HExtern
| sub_nofunc : heap_sub HNoFunc HFunc
| sub_nofunc_concrete i : heap_sub HNoFunc (HConcreteFunc i)
| sub_concrete_func i : heap_sub (HConcreteFunc i) HFunc
| sub_declared_func i j : declared i j -> heap_sub (HConcreteFunc i) (HConcreteFunc j)
| sub_none_i31 : heap_sub HNone HI31
| sub_none_array i : heap_sub HNone (HConcreteArray i)
| sub_none_struct i : heap_sub HNone (HConcreteStruct i)
| sub_i31_eq : heap_sub HI31 HEq
| sub_concrete_array i : heap_sub (HConcreteArray i) HArray
| sub_declared_array i j : declared i j -> heap_sub (HConcreteArray i) (HConcreteArray j)
| sub_array_eq : heap_sub HArray HEq
| sub_concrete_struct i : heap_sub (HConcreteStruct i) HStruct
| sub_declared_struct i j : declared i j -> heap_sub (HConcreteStruct i) (HConcreteStruct j)
| sub_struct_eq : heap_sub HStruct HEq
| sub_eq_any : heap_sub HEq HAny.
Hint Constructors heap_sub : core.

Lemma heap_sub_rtc (C : Z -> HeapType) i j :
  (forall i j, declared i j -> heap_sub (C i) (C j)) -> rtc declared i j -> heap_sub (C i) (C j).
Proof. intros H. induction 1; eauto. Qed.

(** The steps the diagram leaves to transitivity. *)
Lemma sub_none_eq : heap_sub HNone HEq.
Proof. eauto. Qed.
Lemma sub_none_arrays : heap_sub HNone HArray.
Proof. apply (sub_trans _ (HConcreteArray 0)); auto. Qed.
Lemma sub_none_structs : heap_sub HNone HStruct.
Proof. apply (sub_trans _ (HConcreteStruct 0)); auto. Qed.
Lemma sub_array_any i : heap_sub (HConcreteArray i) HEq.
Proof. eauto. Qed.
Lemma sub_struct_any i : heap_sub (HConcreteStruct i) HEq.
Proof. eauto. Qed.
Hint Resolve sub_none_eq sub_none_arrays sub_none_structs sub_array_any sub_struct_any : core.

Context {Hst : SubtypeTest}.

Lemma is_subtype_refl i : is_subtype i i = true.
Proof. apply subtype_complete. constructor. Qed.

Lemma is_subtype_trans i j k :
  is_subtype i j = true -> is_subtype j k = true -> is_subtype i k = true.
Proof. intros ?%subtype_sound ?%subtype_sound. apply subtype_complete. etrans; done. Qed.

Lemma heap_matches_refl a : heap_matches is_subtype a a = true.
Proof. destruct a; cbn; auto using is_subtype_refl. Qed.

Lemma heap_matches_trans a b c :
  heap_matches is_subtype a b = true -> heap_matches is_subtype b c = true ->
  heap_matches is_subtype a c = true.
Proof. destruct a, b; try discriminate; destruct c; cbn; eauto using is_subtype_trans; discriminate. Qed.

Lemma heap_matches_declared i j : declared i j -> is_subtype i j = true.
Proof. intros H. apply subtype_complete. by apply rtc_once. Qed.

Lemma heap_matches_sub a b : heap_matches is_subtype a b = true -> heap_sub a b.
Proof.
  destruct a, b; cbn; try discriminate; intros H; auto;
    try (apply subtype_sound in H; by apply heap_sub_rtc with (2 := H); auto);
    (eapply sub_trans; [|apply sub_eq_any]); auto.
Qed.

Lemma heap_sub_matches a b : heap_sub a b -> heap_matches is_subtype a b = true.
Proof. induction 1; eauto using heap_matches_refl, heap_matches_trans, heap_matches_declared. Qed.

End Spec.

(** ** Values and the meaning of types *)

(** A reference to a function, struct or array carries the index of its own type
    and an identity. *)
Inductive wasm_ref :=
| NullRef
| ExternRef (id : Z)
| FuncRef (ty id : Z)
| I31Ref (z : Z)
| StructRef (ty id : Z)
| ArrayRef (ty id : Z).

Inductive wasm_val :=
| WI32 (z : Z) | WI64 (z : Z) | WF32 (bits : Z) | WF64 (bits : Z) | WV128 (bits : Z)
| WRef (r : wasm_ref).

Section Values.
  Context (lookup : Z -> option WasmSubType).

Definition concrete (ty : Z) (i : EngineOrModuleTypeIndex) : Prop :=
  match i with Engine e => rtc (declared lookup) ty e | _ => False end.

Definition heap_inhabits (h : WasmHeapType) (r : wasm_ref) : Prop :=
  match h, r with
  | HExtern, ExternRef _ => True
  | HFunc, FuncRef _ _ => True
  | HConcreteFunc i, FuncRef ty _ => concrete ty i
  | (HAny | HEq | HI31), I31Ref _ => True
  | (HAny | HEq | HArray), ArrayRef _ _ => True
  | HConcreteArray i, ArrayRef ty _ => concrete ty i
  | (HAny | HEq | HStruct), StructRef _ _ => True
  | HConcreteStruct i, StructRef ty _ => concrete ty i
  | _, _ => False
  end.

Definition ref_inhabits (t : WasmRefType) (r : wasm_ref) : Prop :=
  match r with
  | NullRef => nullable t = true
  | r => heap_inhabits (rt_heap_type t) r
  end.

Definition inhabits (t : WasmValType) (v : wasm_val) : Prop :=
  match t, v with
  | VI32, WI32 z | VF32, WF32 z => in_u 32 z
  | VI64, WI64 z | VF64, WF64 z => in_u 64 z
  | VV128, WV128 z => in_u 128 z
  | VRef t, WRef r => ref_inhabits t r
  | _, _ => False
  end.

(** Values of the first type are values of the second. *)
Definition includes (a b : WasmValType) : Prop := forall v, inhabits a v -> inhabits b v.
#[export] Instance includes_preorder : PreOrder includes.
Proof. split; [intros a v; done|intros a b c H1 H2 v Hv; auto]. Qed.

Lemma ref_inhabits_mono (a b : WasmRefType) r :
  (nullable a = true -> nullable b = true) ->
  (heap_inhabits (rt_heap_type a) r -> heap_inhabits (rt_heap_type b) r) ->
  ref_inhabits a r -> ref_inhabits b r.
Proof. destruct r; cbn; auto. Qed.

Section Sound.
  Context (is_subtype : Z -> Z -> bool).
  Hypothesis Hsound : forall i j, is_subtype i j = true -> rtc (declared lookup) i j.

Lemma heap_matches_inhabits a b r :
  heap_matches is_subtype a b = true ->
  heap_inhabits (heap_to_wasm a) r -> heap_inhabits (heap_to_wasm b) r.
Proof.
  destruct a, b; cbn; try discriminate; intros H; destruct r; try done; cbn;
    apply Hsound in H; intros; etrans; done.
Qed.

Lemma val_matches_includes a b :
  val_matches is_subtype a b = true -> includes (val_to_wasm a) (val_to_wasm b).
Proof.
  intros H v. destruct a as [| | | | |[na a]], b as [| | | | |[nb b]]; try discriminate; try done.
  unfold val_matches, ref_matches in H. cbn in H |- *.
  destruct v as [| | | | |r]; try done. apply ref_inhabits_mono; cbn.
  - intros ->. by destruct nb.
  - destruct (na && negb nb); [discriminate|]. by apply heap_matches_inhabits.
Qed.
End Sound.

Lemma match_heap_inhabits e a r :
  match_heapb e a = true -> heap_inhabits a r -> heap_inhabits e r.
Proof.
  destruct a, e; cbn; try discriminate; intros H; destruct r; try done; cbn;
    apply bool_decide_eq_true in H as ->; done.
Qed.
End Values.

(** ** Conversions *)

Section Conversions.
  Context (lookup : Z -> option WasmSubType) {E : Type}.

Lemma heap_from_to (h : WasmHeapType) h' :
  heap_from_wasm (E:=E) lookup h = Ok h' -> heap_to_wasm h' = h.
Proof.
  destruct h as [| | |[]| | | | | |[]| |[]|]; cbn; intros H; try (by inversion H);
    unfold func_from_index, array_from_index, struct_from_index in H; outcome_inv; done.
Qed.

Lemma val_from_to (v : WasmValType) v' :
  val_from_wasm (E:=E) lookup v = Ok v' -> val_to_wasm v' = v.
Proof.
  destruct v as [| | | | |[n h]]; cbn; intros H; try (by inversion H).
  unfold ref_from_wasm in H. outcome_inv. cbn in *.
  unfold ref_to_wasm. cbn. by erewrite heap_from_to.
Qed.
End Conversions.

(** ** The import of matching definitions *)

(** Imports compare concrete heap types by their index only: they are matched as in
    an engine where no type declares a supertype. *)
Lemma match_heap_matches e a :
  match_heapb (heap_to_wasm e) (heap_to_wasm a) = heap_matches (fun i j => bool_decide (i = j)) a e.
Proof. destruct e, a; try reflexivity; cbn; apply bool_decide_ext; split; congruence. Qed.

Section ZipAll.
  Context {E A W : Type} (f : A -> A -> bool) (g : W -> outcome E A).

Lemma zip_all_true (a b : list W) :
  length a = length b -> zip_all f (map g a) (map g b) = Ok true ->
  Forall2 (fun x y => exists x' y', g x = Ok x' /\ g y = Ok y' /\ f x' y' = true) a b.
Proof.
  revert b. induction a as [|x a IH]; intros [|y b]; try done; cbn.
  intros [= Hl] H. outcome_inv. case_match; [|done]. constructor; eauto.
Qed.
End ZipAll.

Section Imports.
  Context (dbg : bool) (lookup : Z -> option WasmSubType) (is_subtype : Z -> Z -> bool).

(** A size within a maximum. *)
Definition within (maximum : option Z) (n : Z) : Prop :=
  match maximum with Some m => n <= m | None => True end.

Definition func_at (i : Z) (f : WasmFuncType) : Prop :=
  exists ty, lookup i = Some ty /\ as_func ty = Some f.

(** What the importing module relies on: whatever it reads has the type it
    declared, whatever it writes is allowed, the size is at least its minimum and
    stays within its maximum, calls pass and return what both sides expect. *)
Definition import_sound (expected : EntityType) (actual : DefinitionType) : Prop :=
  match expected, actual with
  | EGlobal e, DGlobal a =>
      gmutability e = gmutability a /\
      includes lookup (gwasm_ty a) (gwasm_ty e) /\
      (gmutability e = true -> includes lookup (gwasm_ty e) (gwasm_ty a))
  | ETable e, DTable a size =>
      (forall r, ref_inhabits lookup (Table.wasm_ty e) r <-> ref_inhabits lookup (Table.wasm_ty a) r) /\
      Table.minimum e <= size /\
      forall n, within (Table.maximum a) n -> within (Table.maximum e) n
  | EMemory e, DMemory a size =>
      shared e = shared a /\ memory64 e = memory64 a /\ page_size_log2 e = page_size_log2 a /\
      minimum e <= size /\
      forall n, within (maximum a) n -> within (maximum e) n
  | EFunction e, DFunc a =>
      exists i, e = Engine i /\
      forall fe fa, func_at i fe -> func_at a fa ->
        Forall2 (includes lookup) (params fe) (params fa) /\
        Forall2 (includes lookup) (returns fa) (returns fe)
  | _, _ => False
  end.

Lemma func_at_fun i f g : func_at i f -> func_at i g -> f = g.
Proof. intros (t & ? & ?) (t' & ? & ?). congruence. Qed.

Lemma func_from_index_id {E} i j : func_from_index (E:=E) lookup i = Ok j -> j = i.
Proof. unfold func_from_index. intros. by outcome_inv. Qed.

Lemma accept_true b u : accept b = Ok u -> b = true.
Proof. destruct b; done. Qed.

Lemma debug_assert_then {E B} b (k : outcome E B) x :
  (debug_assert dbg b;; k) = Ok x -> k = Ok x.
Proof. unfold debug_assert. destruct dbg, b; cbn; done. Qed.

Lemma match_limits_ok emin emax amin amax u :
  match_limits emin emax amin amax = Ok u ->
  emin <= amin /\ forall n, within amax n -> within emax n.
Proof.
  intros [H1 H2]%accept_true%andb_prop. apply Z.leb_le in H1. split; [done|].
  destruct emax as [e|]; [|done]. destruct amax as [a|]; [|done]. cbn. lia.
Qed.

Lemma equal_ty_ok e a u : equal_ty dbg e a = Ok u -> e = a.
Proof.
  intros H%debug_assert_then%debug_assert_then%accept_true. by apply bool_decide_eq_true in H.
Qed.

Lemma match_ty_ok e a u : match_ty dbg e a = Ok u -> includes lookup a e.
Proof.
  intros H%debug_assert_then%debug_assert_then.
  destruct a as [| | | | |[na a]], e as [| | | | |[ne e]]; try (apply equal_ty_ok in H; discriminate);
    try reflexivity.
  unfold match_ref in H. cbn in H. case_match eqn:Hn; [|done]. apply accept_true in H.
  intros [| | | | |r]; try done. apply ref_inhabits_mono; cbn.
  - intros ->. by destruct ne.
  - by apply match_heap_inhabits.
Qed.

Context (Hsound : forall i j, is_subtype i j = true -> rtc (declared lookup) i j).

Lemma zip_all_includes (a b : list WasmValType) (flip : bool) :
  length a = length b ->
  zip_all (E:=match_error) (fun x y => if flip then val_matches is_subtype y x else val_matches is_subtype x y)
    (map (val_from_wasm lookup) a) (map (val_from_wasm lookup) b) = Ok true ->
  Forall2 (if flip then fun x y => includes lookup y x else includes lookup) a b.
Proof.
  intros Hl H%zip_all_true; [|done]. eapply Forall2_impl; [exact H|].
  intros x y (x' & y' & <-%val_from_to & <-%val_from_to & Hf).
  destruct flip; by apply (val_matches_includes lookup is_subtype).
Qed.

Lemma func_matches_ok a e fa fe :
  func_matches lookup is_subtype a e = @Ok match_error _ true -> func_at a fa -> func_at e fe ->
  Forall2 (includes lookup) (params fe) (params fa) /\ Forall2 (includes lookup) (returns fa) (returns fe).
Proof.
  intros H (ta & La & Fa) (te & Le & Fe). unfold func_matches in H.
  case_match eqn:Hae.
  - apply Z.eqb_eq in Hae as <-. simplify_eq. split; by apply Forall_Forall2_diag, Forall_true.
  - unfold ty_params, ty_results in H. rewrite La, Le in H. cbn in H. rewrite Fa, Fe in H. cbn in H.
    unfold matches_impl in H. rewrite !length_map in H.
    do 2 (case_match; [done|]). outcome_inv. case_match; [|done].
    split.
    + apply Forall2_flip. eapply (zip_all_includes _ _ true); [|done].
      by apply negb_false_iff, bool_decide_eq_true in H0.
    + eapply (zip_all_includes _ _ false); [|done].
      by apply negb_false_iff, bool_decide_eq_true in H1.
Qed.

(** C21: a definition that import matching accepts can be used at the type the
    module declared: what is read from a global or a table has the declared type and
    what may be written fits the definition, tables and memories have the declared
    minimum now and never outgrow the declared maximum, memories agree on sharing,
    index width and page size, and a function takes the declared parameters and
    returns the declared results; all this with the registry's subtyping between
    concrete types. *)
Theorem import_matching_sound expected actual :
  definition dbg lookup is_subtype expected actual = Ok () -> import_sound expected actual.
Proof.
  destruct expected as [e|e| |e|e], actual as [a|a|a size|a size]; try discriminate; cbn [definition]; intros H.
  - unfold global_ty in H. apply bind_Ok_inv in H as (u & Ht & H). apply accept_true, eqb_prop in H.
    split; [done|]. destruct (gmutability e || gmutability a) eqn:Hm.
    + apply equal_ty_ok in Ht as ->. done.
    + apply orb_false_iff in Hm as [-> _]. split; [by eapply match_ty_ok|done].
  - unfold memory_ty in H. outcome_inv.
    repeat match goal with Hb : match_bool _ _ = Ok _ |- _ => apply accept_true, eqb_prop in Hb end.
    apply accept_true, Z.eqb_eq in H.
    edestruct match_limits_ok as [? ?]; [done|]. done.
  - unfold table_ty in H. apply bind_Ok_inv in H as (u & Ht & H). apply match_limits_ok in H as [? ?].
    apply equal_ty_ok in Ht as [= He]. cbn [import_sound]. rewrite He. done.
  - apply bind_Ok_inv in H as (i & Hi & H). destruct e as [e| |]; try discriminate.
    injection Hi as <-. exists e. split; [done|].
    intros fe fa He Ha. unfold type_reference in H. apply bind_Ok_inv in H as (m & Hm & H).
    destruct m; [|outcome_inv]. case_match eqn:Hea.
    + apply Z.eqb_eq in Hea as <-. apply func_at_fun with (2 := Ha) in He as ->.
      split; by apply Forall_Forall2_diag, Forall_true.
    + apply bind_Ok_inv in Hm as (e' & He' & Hm). apply bind_Ok_inv in Hm as (a' & Ha' & Hm).
      apply func_from_index_id in He' as ->. apply func_from_index_id in Ha' as ->.
      by eapply func_matches_ok.
Qed.
End Imports.

(** ** Fields of subtypes *)

Section Fields.
  Context (lookup : Z -> option WasmSubType).

Definition storage_inhabits (t : StorageType) (v : wasm_val) : Prop :=
  match t, v with
  | SI8, WI32 z => in_u 8 z
  | SI16, WI32 z => in_u 16 z
  | SVal t, v => inhabits lookup (val_to_wasm t) v
  | _, _ => False
  end.

(** An object with field [a] read, or written, as if it had field [b]. *)
Definition reads_as (a b : FieldType) : Prop :=
  forall v, storage_inhabits (felement_type a) v -> storage_inhabits (felement_type b) v.
Definition writes_as (a b : FieldType) : Prop :=
  fmutability b = Var ->
  fmutability a = Var /\
  forall v, storage_inhabits (felement_type b) v -> storage_inhabits (felement_type a) v.

Context (is_subtype : Z -> Z -> bool).
Context (Hsound : forall i j, is_subtype i j = true -> rtc (declared lookup) i j).

Lemma storage_matches_inhabits a b v :
  storage_matches is_subtype a b = true -> storage_inhabits a v -> storage_inhabits b v.
Proof.
  destruct a, b; cbn; try discriminate; try done.
  intros H. by apply (val_matches_includes lookup is_subtype).
Qed.

Lemma zip_fields {E} (fs : list FieldType) (gs : list WasmFieldType) :
  (length gs <= length fs)%nat ->
  zip_all (E:=E) (field_matches is_subtype) (map Ok fs) (map (field_from_wasm lookup) gs) = Ok true ->
  exists gs', Forall2 (fun g g' => field_from_wasm (E:=E) lookup g = Ok g') gs gs' /\
    Forall2 reads_as (take (length gs) fs) gs'.
Proof.
  revert gs. induction fs as [|f fs IH]; intros [|g gs]; cbn; intros Hl H; try lia;
    try (exists []; split; constructor).
  apply bind_Ok_inv in H as (g' & Hg & H). case_match eqn:Hm; [|done].
  destruct (IH gs) as (gs' & H1 & H2); [lia|done|].
  exists (g' :: gs'). split; constructor; auto.
  intros v. apply storage_matches_inhabits. by apply andb_prop in Hm as [_ ?].
Qed.

(** a struct type that is accepted as the subtype of another has at least its
    fields, and what is read from an object of the subtype at such a field has the
    type the supertype gives it. *)
Theorem struct_supertype_reads final sup fs ty :
  struct_with_supertype lookup is_subtype final (Some sup) fs = Ok ty ->
  exists sty gs, lookup sup = Some sty /\ is_final sty = false /\
    composite_type sty = CStruct {| fields := gs |} /\
    exists gs', Forall2 (fun g g' => field_from_wasm (E:=type_error) lookup g = Ok g') gs gs' /\
      Forall2 reads_as (take (length gs) fs) gs'.
Proof.
  unfold struct_with_supertype, non_final, ty_fields, fields_match. intros H.
  apply bind_Ok_inv in H as (u & H & _).
  apply bind_Ok_inv in H as (nf & Hnf & H). apply bind_Ok_inv in Hnf as (sty & Hs & [= <-]).
  apply unwrap_Ok in Hs. apply bind_Ok_inv in H as (u1 & Hf%ensure_Ok & H). rewrite Hs in H.
  apply bind_Ok_inv in H as (gs0 & Hgs & H). cbn [unwrap mbind outcome_bind] in Hgs.
  destruct (composite_type sty) as [| |[gs]] eqn:Hc; try discriminate. injection Hgs as <-.
  apply bind_Ok_inv in H as (m & Hm & ->%ensure_Ok). destruct (Nat.ltb _ _) eqn:Hl; [discriminate|].
  exists sty, gs. split; [done|]. split; [by apply negb_true_iff|]. split; [done|].
  apply zip_fields; [|done]. cbn in Hl. rewrite !length_map in Hl. by apply Nat.ltb_ge in Hl.
Qed.
End Fields.

(** A non-final struct type with one field that may be written. *)
Definition base_struct (s : StorageType) : WasmSubType :=
  {| is_final := false; supertype := None;
     composite_type := CStruct {| fields := [{| element_type := storage_to_wasm s; mutable := true |}] |} |}.
Definition anyref : StorageType := SVal (VRef {| nullable := true; rt_heap_type := HAny |}).
Definition i31ref : StorageType := SVal (VRef {| nullable := true; rt_heap_type := HI31 |}).

(** A registry with that one type. *)
Definition base_lookup (s : StorageType) (i : Z) : option WasmSubType :=
  if i =? 0 then Some (base_struct s) else None.

Lemma base_test s : SubtypeTest (base_lookup s) Z.eqb.
Proof.
  split.
  - intros i j ->%Z.eqb_eq. constructor.
  - intros i j H. inversion H as [|? ? ? (ty & Hl & Hs)]; subst; [apply Z.eqb_refl|].
    unfold base_lookup in Hl. case_match; [|done]. injection Hl as <-. done.
Qed.

(** the same check lets writes go wrong: a type is accepted as a subtype when it
    makes a field constant that the supertype allows to be written, and when it
    narrows the type of a field that may be written, so that code that sees the
    supertype may store a reference there that is not of the subtype's type. *)
Theorem struct_supertype_writes :
  (exists lookup is_subtype ty,
     SubtypeTest lookup is_subtype /\ lookup 0 = Some (base_struct (SVal VI32)) /\
     struct_with_supertype lookup is_subtype true (Some 0)
       [{| fmutability := Const; felement_type := SVal VI32 |}] = Ok ty /\
     ~ writes_as lookup {| fmutability := Const; felement_type := SVal VI32 |}
         {| fmutability := Var; felement_type := SVal VI32 |}) /\
  (exists lookup is_subtype ty,
     SubtypeTest lookup is_subtype /\ lookup 0 = Some (base_struct anyref) /\
     struct_with_supertype lookup is_subtype true (Some 0)
       [{| fmutability := Var; felement_type := i31ref |}] = Ok ty /\
     ~ writes_as lookup {| fmutability := Var; felement_type := i31ref |}
         {| fmutability := Var; felement_type := anyref |}).
Proof.
  split.
  - exists (base_lookup (SVal VI32)), Z.eqb. eexists.
    split; [apply base_test|]. split; [reflexivity|]. split; [vm_compute; reflexivity|].
    intros H. destruct H; done.
  - exists (base_lookup anyref), Z.eqb. eexists.
    split; [apply base_test|]. split; [reflexivity|]. split; [vm_compute; reflexivity|].
    intros H. destruct (H eq_refl) as [_ Hw]. exact (Hw (WRef (ArrayRef 0 0)) I).
Qed.

(** ** Examples *)

(** Type 0 is open, type 1 declares it as its supertype, type 2 is unrelated. *)
Definition sample_func (final : bool) (sup : option EngineOrModuleTypeIndex) (r : WasmHeapType) : WasmSubType :=
  {| is_final := final; supertype := sup;
     composite_type := CFunc (func_type_new [VI32] [VRef {| nullable := true; rt_heap_type := r |}]) |}.
Definition sample_lookup (i : Z) : option WasmSubType :=
  if i =? 0 then Some (sample_func false None HAny)
  else if i =? 1 then Some (sample_func true (Some (Engine 0)) HEq)
  else if i =? 2 then Some (base_struct anyref)
  else None.
Definition sample_subtype (i j : Z) : bool := (i =? j) || ((i =? 1) && (j =? 0)).

Lemma sample_declared i j : declared sample_lookup i j <-> i = 1 /\ j = 0.
Proof.
  unfold declared, sample_lookup. split.
  - intros (ty & H & Hs). repeat case_match; simplify_eq; cbn in Hs; simplify_eq. lia.
  - intros [-> ->]. by eexists.
Qed.

Lemma sample_test : SubtypeTest sample_lookup sample_subtype.
Proof.
  split; intros i j.
  - intros H. apply orb_prop in H as [->%Z.eqb_eq|H]; [constructor|].
    apply rtc_once, sample_declared. apply andb_prop in H. lia.
  - induction 1 as [|i j k H1 H2 IH]; [unfold sample_subtype; by rewrite Z.eqb_refl|].
    apply sample_declared in H1 as [-> ->]. unfold sample_subtype in *. lia.
Qed.


Lemma import_matching_sound_witness :
  Forall2 (includes sample_lookup) [VRef {| nullable := true; rt_heap_type := HEq |}]
    [VRef {| nullable := true; rt_heap_type := HAny |}].
Proof.
  destruct (import_matching_sound true sample_lookup sample_subtype (subtype_sound _ _ (SubtypeTest := sample_test))
              (EFunction (Engine 0)) (DFunc 1)) as (i & [= <-] & H); [vm_compute; reflexivity|].
  apply (H (func_type_new [VI32] [VRef {| nullable := true; rt_heap_type := HAny |}])
           (func_type_new [VI32] [VRef {| nullable := true; rt_heap_type := HEq |}])); by eexists.
Defined.

Lemma struct_supertype_reads_witness :
  exists ty, struct_with_supertype sample_lookup sample_subtype true (Some 2)
    [{| fmutability := Var; felement_type := i31ref |}; {| fmutability := Const; felement_type := SI8 |}] = Ok ty /\
  reads_as sample_lookup {| fmutability := Var; felement_type := i31ref |}
    {| fmutability := Var; felement_type := anyref |}.
Proof.
  eexists. split; [vm_compute; reflexivity|].
  edestruct (struct_supertype_reads sample_lookup sample_subtype (subtype_sound _ _ (SubtypeTest := sample_test))
               true 2 [{| fmutability := Var; felement_type := i31ref |}; {| fmutability := Const; felement_type := SI8 |}])
    as (sty & gs & Hl & _ & Hc & gs' & H1 & H2); [vm_compute; reflexivity|].
  injection Hl as <-. injection Hc as <-. inversion H1 as [|? ? ? ? Hg H1']; subst. inversion H1'; subst.
  vm_compute in Hg. injection Hg as <-. by inversion H2.
Defined.
