(* ===== verification/TypeRegistry.v ===== *)
(** * The engine's registry of types

    [src/wasmtime-repo/crates/wasmtime/src/runtime/type_registry.rs]: recursion
    groups are hash-consed on a canonical key, their types live in a slab under the
    indices compiled code compares, and reference counts on whole groups, from
    handles, from other groups and from function types to their trampoline types,
    decide when a group is removed.  An [Arc] of a group's entry is the position of
    the entry in [arcs], where entries are only added.  The atomic operations on a
    count are atomic steps here; each method that takes the lock of the registry is
    one step. *)

From Stdlib Require Import ZArith Lia.
From stdpp Require Import base list gmap numbers option relations.
From S2P Require Import Prelude Slab WasmTypes TypeMatching.
Open Scope Z_scope.

(** The registry returns no errors; this one is the end of the fuel of a bounded
    recursion or loop, and is shown not to occur. *)
Inductive reg_error := OutOfFuel.

Record RecGroupEntryInner := {
  hash_consing_key : WasmRecGroup;
  shared_type_indices : list Z;
  registrations : Z
}.

Record TypeRegistryInner := {
  arcs : list RecGroupEntryInner;
  hash_consing_map : list nat;
  types : Slab WasmSubType;
  type_to_rec_group : gmap Z nat;
  type_to_supertypes : gmap Z (list Z);
  type_to_trampoline : gmap Z Z;
  drop_stack : list nat
}.

Definition registry_new : TypeRegistryInner :=
  {| arcs := []; hash_consing_map := []; types := Slab.default; type_to_rec_group := ∅;
     type_to_supertypes := ∅; type_to_trampoline := ∅; drop_stack := [] |}.

Definition set_arcs (r : TypeRegistryInner) a :=
  {| arcs := a; hash_consing_map := hash_consing_map r; types := types r;
     type_to_rec_group := type_to_rec_group r; type_to_supertypes := type_to_supertypes r;
     type_to_trampoline := type_to_trampoline r; drop_stack := drop_stack r |}.
Definition set_map (r : TypeRegistryInner) m :=
  {| arcs := arcs r; hash_consing_map := m; types := types r;
     type_to_rec_group := type_to_rec_group r; type_to_supertypes := type_to_supertypes r;
     type_to_trampoline := type_to_trampoline r; drop_stack := drop_stack r |}.
Definition set_types (r : TypeRegistryInner) t :=
  {| arcs := arcs r; hash_consing_map := hash_consing_map r; types := t;
     type_to_rec_group := type_to_rec_group r; type_to_supertypes := type_to_supertypes r;
     type_to_trampoline := type_to_trampoline r; drop_stack := drop_stack r |}.
Definition set_groups (r : TypeRegistryInner) g :=
  {| arcs := arcs r; hash_consing_map := hash_consing_map r; types := types r;
     type_to_rec_group := g; type_to_supertypes := type_to_supertypes r;
     type_to_trampoline := type_to_trampoline r; drop_stack := drop_stack r |}.
Definition set_supertypes (r : TypeRegistryInner) s :=
  {| arcs := arcs r; hash_consing_map := hash_consing_map r; types := types r;
     type_to_rec_group := type_to_rec_group r; type_to_supertypes := s;
     type_to_trampoline := type_to_trampoline r; drop_stack := drop_stack r |}.
Definition set_trampolines (r : TypeRegistryInner) t :=
  {| arcs := arcs r; hash_consing_map := hash_consing_map r; types := types r;
     type_to_rec_group := type_to_rec_group r; type_to_supertypes := type_to_supertypes r;
     type_to_trampoline := t; drop_stack := drop_stack r |}.
Definition set_stack (r : TypeRegistryInner) s :=
  {| arcs := arcs r; hash_consing_map := hash_consing_map r; types := types r;
     type_to_rec_group := type_to_rec_group r; type_to_supertypes := type_to_supertypes r;
     type_to_trampoline := type_to_trampoline r; drop_stack := s |}.

Section Registry.
  Context (dbg oc : bool) (min_cap : Z).
  Implicit Types r : TypeRegistryInner.

Definition shared_type_index_to_slab_id (i : Z) : outcome reg_error EntryIndex := Slab.from_raw i.
Definition slab_id_to_shared_type_index (id : EntryIndex) : outcome reg_error Z :=
  i ← Slab.into_raw id;
  assert_ (negb (i =? u32_max));;
  Ok i.

(** *** Counts *)

Definition set_registrations (e : RecGroupEntryInner) (n : Z) : RecGroupEntryInner :=
  {| hash_consing_key := hash_consing_key e; shared_type_indices := shared_type_indices e;
     registrations := n |}.

Definition incref (r : TypeRegistryInner) (e : nat) : outcome reg_error TypeRegistryInner :=
  x ← unwrap (arcs r !! e);
  Ok (set_arcs r (<[e := set_registrations x ((registrations x + 1) mod 2 ^ 64)]> (arcs r))).

(** The result is whether the count reached zero. *)
Definition decref (r : TypeRegistryInner) (e : nat) : outcome reg_error (bool * TypeRegistryInner) :=
  x ← unwrap (arcs r !! e);
  debug_assert dbg (negb (registrations x =? 0));;
  Ok (registrations x =? 1,
      set_arcs r (<[e := set_registrations x ((registrations x - 1) mod 2 ^ 64)]> (arcs r))).

(** *** Lookups *)

(** [HashSet::get]. *)
Definition map_get r (key : WasmRecGroup) : option nat :=
  List.find (fun e => match arcs r !! e with
                      | Some x => bool_decide (hash_consing_key x = key)
                      | None => false
                      end) (hash_consing_map r).

Definition supertypes r (ty : Z) : list Z := from_option id [] (type_to_supertypes r !! ty).

Definition types_get r (i : Z) : outcome reg_error (option WasmSubType) :=
  id ← shared_type_index_to_slab_id i;
  Slab.get (types r) id.

Definition types_index r (i : Z) : outcome reg_error WasmSubType :=
  x ← types_get r i;
  unwrap x.

Definition types_contains r (i : Z) : outcome reg_error bool :=
  id ← shared_type_index_to_slab_id i;
  Ok (Slab.contains (types r) id).

(** [TypeRegistry::borrow], [trampoline_type] and [is_subtype]. *)
Definition borrow r (i : Z) : outcome reg_error (option WasmSubType) := types_get r i.

Definition registry_trampoline_type r (i : Z) : outcome reg_error Z :=
  ty ← types_index r i;
  debug_assert dbg (bool_decide (is_Some (as_func ty)));;
  Ok (from_option id i (type_to_trampoline r !! i)).

Definition is_subtype r (sub sup : Z) : bool :=
  if sub =? sup then true
  else bool_decide (supertypes r sub !! length (supertypes r sup) = Some sup).

Definition entry_of r (i : Z) : outcome reg_error nat := unwrap (type_to_rec_group r !! i).

(** *** Registering *)

(** [assert_canonicalized_for_runtime_usage_in_this_registry]. *)
Fixpoint assert_edges_registered r (l : list EngineOrModuleTypeIndex) : outcome reg_error unit :=
  match l with
  | [] => Ok ()
  | (RecGroup _ | Module_ _) :: _ => Panic
  | Engine i :: l =>
      c ← types_contains r i;
      assert_ c;;
      assert_edges_registered r l
  end.

Definition insert_one_type_from_rec_group r (ty : WasmSubType) : outcome reg_error (Z * TypeRegistryInner) :=
  assert_ (is_canonicalized_for_runtime_usage ty);;
  '(id, ts) ← Slab.alloc oc min_cap (types r) ty;
  engine_index ← slab_id_to_shared_type_index id;
  let r := set_types r ts in
  match supertype ty with
  | Some s =>
      s ← unwrap_engine_type_index s;
      Ok (engine_index, set_supertypes r (<[engine_index := supertypes r s ++ [s]]> (type_to_supertypes r)))
  | None => Ok (engine_index, r)
  end.

Fixpoint incref_indices r (l : list Z) : outcome reg_error TypeRegistryInner :=
  match l with
  | [] => Ok r
  | i :: l => e ← entry_of r i; r ← incref r e; incref_indices r l
  end.

(** The index of a type of the module, by the map of the groups before it. *)
Definition map_index (map : list Z) (i : Z) : outcome reg_error Z :=
  if i <? 0 then Panic else unwrap (map !! Z.to_nat i).

Definition module_to_key (map : list Z) (start i : Z) : outcome reg_error Z :=
  debug_assert dbg (i <? start);;
  map_index map i.

Definition module_to_engine (map : list Z) (module_start engine_start i : Z) : outcome reg_error Z :=
  if i <? module_start then map_index map i
  else
    offset ← arith oc 32 (i - module_start);
    j ← arith oc 32 (engine_start + offset);
    debug_assert dbg (j <? u32_max);;
    Ok j.

Fixpoint canonical_keys (map : list Z) (start end_ : Z) (l : list WasmSubType) : outcome reg_error (list WasmSubType) :=
  match l with
  | [] => Ok []
  | ty :: l =>
      k ← canonicalize_for_hash_consing dbg start end_ (module_to_key map start) ty;
      ks ← canonical_keys map start end_ l;
      Ok (k :: ks)
  end.

Fixpoint insert_types r (map : list Z) (module_start engine_start : Z) (l : list WasmSubType)
  : outcome reg_error (list Z * TypeRegistryInner) :=
  match l with
  | [] => Ok ([], r)
  | ty :: l =>
      ty ← canonicalize_for_runtime_usage (module_to_engine map module_start engine_start) ty;
      '(i, r) ← insert_one_type_from_rec_group r ty;
      '(ixs, r) ← insert_types r map module_start engine_start l;
      Ok (i :: ixs, r)
  end.

Fixpoint set_rec_groups r (e : nat) (l : list Z) : outcome reg_error TypeRegistryInner :=
  match l with
  | [] => Ok r
  | i :: l =>
      debug_assert dbg (bool_decide (type_to_rec_group r !! i = None));;
      set_rec_groups (set_groups r (<[i := e]> (type_to_rec_group r))) e l
  end.

(** The new entry of a group that is not in the registry, with its types. *)
Definition add_group r (map : list Z) (start : Z) (key : WasmRecGroup) (tys : list WasmSubType)
  : outcome reg_error (nat * list Z * TypeRegistryInner) :=
  r ← incref_indices r (engine_indices key);
  engine_start ← unwrap (checked 32 (Slab.len (types r)));
  '(shared, r) ← insert_types r map start engine_start tys;
  let e := length (arcs r) in
  let r := set_arcs r (arcs r ++ [{| hash_consing_key := key; shared_type_indices := shared;
                                     registrations := 1 |}]) in
  debug_assert dbg (bool_decide (map_get r key = None));;
  let r := set_map r (e :: hash_consing_map r) in
  r ← set_rec_groups r e shared;
  Ok (e, shared, r).

Section Body.
  Context (register_singleton : TypeRegistryInner -> WasmSubType -> outcome reg_error (nat * TypeRegistryInner)).

Definition trampoline_sub_type (f : WasmFuncType) : WasmSubType :=
  {| is_final := true; supertype := None; composite_type := CFunc f |}.

Fixpoint register_trampolines r (l : list Z) : outcome reg_error TypeRegistryInner :=
  match l with
  | [] => Ok r
  | i :: l =>
      ty ← types_index r i;
      r ← match as_func ty with
          | Some f =>
              match trampoline_type f with
              | None => Ok r
              | Some trampoline =>
                  '(te, r) ← register_singleton r (trampoline_sub_type trampoline);
                  x ← unwrap (arcs r !! te);
                  ti ← unwrap (head (shared_type_indices x));
                  debug_assert dbg (negb (i =? ti));;
                  Ok (set_trampolines r (<[i := ti]> (type_to_trampoline r)))
              end
          | None => Ok r
          end;
      register_trampolines r l
  end.

Definition register_rec_group_body r (map : list Z) (start end_ : Z) (tys : list WasmSubType)
  : outcome reg_error (nat * TypeRegistryInner) :=
  debug_assert dbg (end_ - start =? Z.of_nat (length tys));;
  let tys := take (Z.to_nat (end_ - start)) tys in
  ks ← canonical_keys map start end_ tys;
  let key := {| rec_types := ks |} in
  match map_get r key with
  | Some e => r ← incref r e; Ok (e, r)
  | None =>
      '(e, shared, r) ← add_group r map start key tys;
      r ← register_trampolines r shared;
      Ok (e, r)
  end.
End Body.

(** [register_singleton_rec_group] and [register_rec_group] call each other, for
    the trampoline type of a function type; [depth] bounds the nesting. *)
Fixpoint register_singleton_rec_group (depth : nat) r (ty : WasmSubType) : outcome reg_error (nat * TypeRegistryInner) :=
  match depth with
  | O => Err OutOfFuel
  | S depth =>
      assert_edges_registered r (edges ty);;
      register_rec_group_body (register_singleton_rec_group depth) r [] (u32_max - 1) u32_max [ty]
  end.

Definition register_rec_group r := register_rec_group_body (register_singleton_rec_group 1) r.

(** *** The types of a module *)

Record ModuleTypes := {
  rec_groups : list (Z * Z);
  wasm_types : list WasmSubType;
  trampoline_types : list (Z * Z)
}.

(** The types of the range from [start] to [end_]. *)
Definition range_types (m : ModuleTypes) (start end_ : Z) : outcome reg_error (list WasmSubType) :=
  assert_ (0 <=? start);;
  mapM (fun i => unwrap (wasm_types m !! i)) (seq (Z.to_nat start) (Z.to_nat (end_ - start))).

(** Each of the module's types is pushed to the map at its own index. *)
Fixpoint push_range (map : list Z) (i end_ : Z) (l : list Z) : outcome reg_error (list Z) :=
  match l with
  | [] => Ok map
  | x :: l =>
      if i <? end_ then
        assert_ (i =? Z.of_nat (length map));;
        push_range (map ++ [x]) (i + 1) end_ l
      else Ok map
  end.

Fixpoint register_groups r (m : ModuleTypes) (map : list Z) (gs : list (Z * Z))
  : outcome reg_error (list nat * list Z * TypeRegistryInner) :=
  match gs with
  | [] => Ok ([], map, r)
  | (start, end_) :: gs =>
      tys ← range_types m start end_;
      '(e, r) ← register_rec_group r map start end_ tys;
      x ← unwrap (arcs r !! e);
      map ← push_range map start end_ (shared_type_indices x);
      '(es, map, r) ← register_groups r m map gs;
      Ok (e :: es, map, r)
  end.

Definition register_module_types r (m : ModuleTypes) := register_groups r m [] (rec_groups m).

(** *** Unregistering *)

Definition push_drop r (e : nat) : TypeRegistryInner := set_stack r (e :: drop_stack r).

(** A reference of a dropped entry to [e]. *)
Definition release r (e : nat) : outcome reg_error TypeRegistryInner :=
  '(z, r) ← decref r e;
  Ok (if (z : bool) then push_drop r e else r).

Fixpoint release_indices r (l : list Z) : outcome reg_error TypeRegistryInner :=
  match l with
  | [] => Ok r
  | i :: l => e ← entry_of r i; r ← release r e; release_indices r l
  end.

(** [debug_assert_eq!(removed_entry.unwrap(), entry)] compares keys. *)
Definition check_removed r (removed : option nat) (e : nat) : outcome reg_error unit :=
  if dbg then
    x ← unwrap removed;
    a ← unwrap (arcs r !! x);
    b ← unwrap (arcs r !! e);
    assert_ (bool_decide (hash_consing_key a = hash_consing_key b))
  else Ok ().

(** One turn of the loop over the types of a removed group. *)
Definition remove_type r (e : nat) (i : Z) : outcome reg_error TypeRegistryInner :=
  check_removed r (type_to_rec_group r !! i) e;;
  let r := set_groups r (delete i (type_to_rec_group r)) in
  r ← match type_to_trampoline r !! i with
      | Some t =>
          let r := set_trampolines r (delete i (type_to_trampoline r)) in
          te ← entry_of r t;
          release r te
      | None => Ok r
      end;
  let r := set_supertypes r (delete i (type_to_supertypes r)) in
  id ← shared_type_index_to_slab_id i;
  '(_, ts) ← Slab.dealloc oc (types r) id;
  Ok (set_types r ts).

Fixpoint remove_types r (e : nat) (l : list Z) : outcome reg_error TypeRegistryInner :=
  match l with
  | [] => Ok r
  | i :: l => r ← remove_type r e i; remove_types r e l
  end.

(** [HashSet::remove] takes out the entry with the same key. *)
Definition map_remove r (key : WasmRecGroup) : TypeRegistryInner :=
  match map_get r key with
  | Some e => set_map r (List.filter (fun x => negb (bool_decide (x = e))) (hash_consing_map r))
  | None => r
  end.

(** One turn of the loop of [unregister_entry] on a popped entry. *)
Definition drop_entry r (e : nat) : outcome reg_error TypeRegistryInner :=
  x ← unwrap (arcs r !! e);
  if negb (registrations x =? 0) then Ok r
  else
    debug_assert dbg (is_canonicalized_for_hash_consing (hash_consing_key x));;
    r ← release_indices r (engine_indices (hash_consing_key x));
    remove_types (map_remove r (hash_consing_key x)) e (shared_type_indices x).

Fixpoint drop_loop (fuel : nat) r : outcome reg_error TypeRegistryInner :=
  match drop_stack r with
  | [] => Ok r
  | e :: s =>
      match fuel with
      | O => Err OutOfFuel
      | S fuel => r ← drop_entry (set_stack r s) e; drop_loop fuel r
      end
  end.

Definition unregister_entry r (e : nat) : outcome reg_error TypeRegistryInner :=
  debug_assert dbg (bool_decide (drop_stack r = []));;
  drop_loop (S (length (hash_consing_map r))) (push_drop r e).

(** *** Handles *)

Record RegisteredType := { entry : nat; rty : WasmSubType; rindex : Z }.

Definition from_parts r (e : nat) (i : Z) (ty : WasmSubType) : outcome reg_error RegisteredType :=
  x ← unwrap (arcs r !! e);
  debug_assert dbg (negb (registrations x =? 0));;
  Ok {| entry := e; rty := ty; rindex := i |}.

Definition registered_new r (ty : WasmSubType) : outcome reg_error (RegisteredType * TypeRegistryInner) :=
  assert_edges_registered r (edges ty);;
  '(e, r) ← register_singleton_rec_group 2 r ty;
  x ← unwrap (arcs r !! e);
  i ← unwrap (head (shared_type_indices x));
  ty ← types_index r i;
  h ← from_parts r e i ty;
  Ok (h, r).

Definition root r (i : Z) : outcome reg_error (option RegisteredType * TypeRegistryInner) :=
  ty ← types_get r i;
  match ty with
  | None => Ok (None, r)
  | Some ty =>
      e ← entry_of r i;
      r ← incref r e;
      h ← from_parts r e i ty;
      Ok (Some h, r)
  end.

Definition registered_clone r (h : RegisteredType) : outcome reg_error (RegisteredType * TypeRegistryInner) :=
  r ← incref r (entry h);
  Ok (h, r).

(** [RegisteredType::drop]: the count goes down without the lock, and the lock is
    taken when it reached zero. *)
Definition registered_drop r (h : RegisteredType) : outcome reg_error TypeRegistryInner :=
  '(z, r) ← decref r (entry h);
  if (z : bool) then unregister_entry r (entry h) else Ok r.

Record TypeCollection := { crec_groups : list nat; ctypes : list Z; ctrampolines : gmap Z Z }.

Fixpoint collect_trampolines r (map : list Z) (acc : gmap Z Z) (l : list (Z * Z)) : outcome reg_error (gmap Z Z) :=
  match l with
  | [] => Ok acc
  | (module_ty, trampoline) :: l =>
      shared_ty ← map_index map module_ty;
      t ← registry_trampoline_type r shared_ty;
      collect_trampolines r map (<[t := trampoline]> acc) l
  end.

Definition new_for_module r (m : ModuleTypes) : outcome reg_error (TypeCollection * TypeRegistryInner) :=
  '(es, map, r) ← register_module_types r m;
  ts ← collect_trampolines r map ∅ (trampoline_types m);
  Ok ({| crec_groups := es; ctypes := map; ctrampolines := ts |}, r).

Definition shared_type (c : TypeCollection) (i : Z) : option Z :=
  if i <? 0 then None else ctypes c !! Z.to_nat i.
Definition collection_trampoline_type (c : TypeCollection) (ty : Z) : option Z := ctrampolines c !! ty.

Fixpoint unregister_type_collection r (es : list nat) : outcome reg_error TypeRegistryInner :=
  match es with
  | [] => Ok r
  | e :: es =>
      '(z, r) ← decref r e;
      r ← (if (z : bool) then unregister_entry r e else Ok r);
      unregister_type_collection r es
  end.

Definition collection_drop r (c : TypeCollection) : outcome reg_error TypeRegistryInner :=
  unregister_type_collection r (crec_groups c).

(** [TypeRegistryInner::drop] of debug builds. *)
Definition registry_drop r : outcome reg_error unit :=
  if dbg then
    assert_ (bool_decide (hash_consing_map r = []));;
    assert_ (Slab.is_empty (types r));;
    assert_ (bool_decide (type_to_rec_group r = ∅));;
    assert_ (bool_decide (type_to_supertypes r = ∅));;
    assert_ (bool_decide (type_to_trampoline r = ∅));;
    assert_ (bool_decide (drop_stack r = []))
  else Ok ().
End Registry.
