(* ===== verification/RegistryInv.v ===== *)
(** * The invariant of the registry of types

    Every count of a live group is the number of references to it: from handles,
    from the keys of other live groups, and from function types to their trampoline
    types.  References across groups lead to older groups, and trampolines to groups
    without references, so that a group whose count is zero can be removed together
    with all it alone kept, and nothing is left when no handle is. *)

From Stdlib Require Import ZArith Lia.
From stdpp Require Import base list gmap numbers option relations sorting.
From S2P Require Import Prelude Slab WasmTypes TypeMatching TypeRegistry.
Open Scope Z_scope.

(** ** Counting references *)

Definition occ (x : nat) (l : list nat) : Z := Z.of_nat (count_occ Nat.eq_dec l x).

Lemma occ_nil x : occ x [] = 0.
Proof. done. Qed.
Lemma occ_add x y l : occ x (y :: l) = (if decide (x = y) then 1 else 0) + occ x l.
Proof.
  unfold occ. cbn. destruct (Nat.eq_dec y x) as [->|Hne]; destruct (decide _); try congruence; lia.
Qed.
Lemma occ_nonneg x l : 0 <= occ x l.
Proof. unfold occ. lia. Qed.
Lemma occ_zero x l : occ x l = 0 <-> x ∉ l.
Proof.
  unfold occ. rewrite list_elem_of_In, (count_occ_not_In Nat.eq_dec). lia.
Qed.
Lemma occ_le x l : occ x l <= Z.of_nat (length l).
Proof.
  induction l as [|y l IH]; [done|]. rewrite occ_add. cbn [length].
  destruct (decide _); lia.
Qed.
#[export] Instance occ_perm x : Proper ((≡ₚ) ==> (=)) (occ x).
Proof.
  intros l l' H. unfold occ. f_equal. apply Permutation_count_occ. exact H.
Qed.

(** [refs] lists every reference to a live group; the groups on the stack are those
    without one. *)
Record counts_ok (a : list RecGroupEntryInner) (live stack refs : list nat) : Prop := {
  co_count e : e ∈ live -> exists x, a !! e = Some x /\ registrations x = occ e refs;
  co_refs e : e ∈ refs -> e ∈ live;
  co_stack e : e ∈ stack <-> e ∈ live /\ e ∉ refs;
  co_nodup : NoDup stack;
  co_bound : Z.of_nat (length refs) < 2 ^ 64
}.

#[export] Instance counts_ok_perm a live stack : Proper ((≡ₚ) ==> iff) (counts_ok a live stack).
Proof.
  assert (H : forall l l', l ≡ₚ l' -> counts_ok a live stack l -> counts_ok a live stack l').
  { intros l l' Hp [H1 H2 H3 H4 H5]. split; try done.
    - intros e He. destruct (H1 e He) as (x & ? & Hx). exists x. by rewrite <- Hp.
    - intros e He. apply H2. by rewrite Hp.
    - intros e. by rewrite <- Hp.
    - by rewrite <- Hp. }
  intros l l' Hp. split; eauto. apply H. by symmetry.
Qed.

(** What an entry is, apart from its count. *)
Definition strip (x : RecGroupEntryInner) : WasmRecGroup * list Z :=
  (hash_consing_key x, shared_type_indices x).

Section Counts.
  Context (dbg : bool).
  Implicit Types (r : TypeRegistryInner) (a : list RecGroupEntryInner).

Lemma strip_insert a e x n :
  a !! e = Some x -> strip <$> <[e := set_registrations x n]> a = strip <$> a.
Proof.
  intros H. rewrite list_fmap_insert. apply list_insert_id. by rewrite list_lookup_fmap, H.
Qed.

Lemma strip_lookup a a' e x :
  strip <$> a' = strip <$> a -> a !! e = Some x ->
  exists x', a' !! e = Some x' /\ hash_consing_key x' = hash_consing_key x /\
    shared_type_indices x' = shared_type_indices x.
Proof.
  intros Hs He. assert (H : (strip <$> a') !! e = Some (strip x)) by (by rewrite Hs, list_lookup_fmap, He).
  rewrite list_lookup_fmap in H. destruct (a' !! e) as [x'|]; [|done]. exists x'.
  injection H as Hk Hsh. done.
Qed.

(** The registry with other counts and another stack. *)
Definition recounted r r' : Prop :=
  exists a s, r' = set_stack (set_arcs r a) s /\ strip <$> a = strip <$> arcs r.

Lemma recounted_refl r : recounted r r.
Proof. exists (arcs r), (drop_stack r). by destruct r. Qed.
Lemma recounted_trans r1 r2 r3 : recounted r1 r2 -> recounted r2 r3 -> recounted r1 r3.
Proof.
  intros (a & s & -> & H) (a' & s' & -> & H'). exists a', s'. split; [done|].
  cbn [arcs set_stack set_arcs] in H'. by rewrite H', H.
Qed.

Lemma incref_ok r live refs e :
  counts_ok (arcs r) live [] refs -> e ∈ live -> Z.of_nat (length refs) + 1 < 2 ^ 64 ->
  exists r', incref r e = Ok r' /\ recounted r r' /\ drop_stack r' = drop_stack r /\
    counts_ok (arcs r') live [] (e :: refs).
Proof.
  intros [H1 H2 H3 H4 H5] He Hb. destruct (H1 e He) as (x & Hx & Hc). unfold incref. rewrite Hx.
  cbn [unwrap mbind outcome_bind]. eexists; split; [reflexivity|]. split; [|split; [done|]].
  { eexists _, (drop_stack r). split; [reflexivity|]. by apply strip_insert. }
  pose proof (occ_le e refs). pose proof (occ_nonneg e refs).
  split; cbn [arcs set_arcs]; try done.
  - intros e' He'. destruct (decide (e' = e)) as [->|Hne].
    + exists (set_registrations x ((registrations x + 1) mod 2 ^ 64)).
      split; [apply list_lookup_insert_eq; by eapply lookup_lt_Some|].
      rewrite occ_add, decide_True by done. cbn. rewrite Hc, Z.mod_small by lia. lia.
    + rewrite list_lookup_insert_ne by done. destruct (H1 e' He') as (y & ? & ?). exists y.
      rewrite occ_add, decide_False by done. auto with lia.
  - intros e' [->|]%elem_of_cons; auto.
  - intros e'. rewrite H3, elem_of_cons. split; [|naive_solver].
    intros [? ?]. exfalso. specialize (H3 e'). set_solver.
  - cbn [length]. lia.
Qed.

Lemma decref_ok r live stack refs e :
  counts_ok (arcs r) live stack (e :: refs) ->
  exists r', decref dbg r e = Ok (bool_decide (e ∉ refs), r') /\
    r' = set_arcs r (arcs r') /\ strip <$> arcs r' = strip <$> arcs r /\
    counts_ok (arcs r') live (if bool_decide (e ∉ refs) then e :: stack else stack) refs.
Proof.
  intros [H1 H2 H3 H4 H5]. destruct (H1 e) as (x & Hx & Hc); [set_solver|].
  rewrite occ_add, decide_True in Hc by done. cbn [length] in H5.
  pose proof (occ_le e refs). pose proof (occ_nonneg e refs).
  unfold decref. rewrite Hx. cbn [unwrap mbind outcome_bind].
  rewrite debug_assert_true by (apply negb_true_iff, Z.eqb_neq; lia). cbn [mbind outcome_bind].
  assert (Hz : (registrations x =? 1) = bool_decide (e ∉ refs)).
  { case_bool_decide as Hd; [apply occ_zero in Hd; lia|].
    apply Z.eqb_neq. intros Hx1. assert (Hn : e ∉ refs) by (apply occ_zero; lia). done. }
  rewrite Hz. eexists; split; [reflexivity|]. split; [done|]. split; [by apply strip_insert|].
  split; cbn [arcs set_arcs].
  - intros e' He'. destruct (decide (e' = e)) as [->|Hne].
    + exists (set_registrations x ((registrations x - 1) mod 2 ^ 64)).
      split; [apply list_lookup_insert_eq; by eapply lookup_lt_Some|].
      cbn. rewrite Hc, Z.mod_small by lia. lia.
    + rewrite list_lookup_insert_ne by done. destruct (H1 e' He') as (y & ? & Hy). exists y.
      rewrite occ_add, decide_False in Hy by done. auto with lia.
  - intros e' He'. apply H2. set_solver.
  - intros e'. specialize (H3 e'). case_bool_decide.
    + rewrite elem_of_cons, H3. destruct (decide (e' = e)) as [->|]; [|set_solver].
      split; [|by left]. intros _. split; [apply H2; set_solver|done].
    + rewrite H3. destruct (decide (e' = e)) as [->|]; [|set_solver]. set_solver.
  - case_bool_decide; [|done]. constructor; [|done]. rewrite H3. set_solver.
  - lia.
Qed.

Lemma release_entry_ok r live refs e :
  counts_ok (arcs r) live (drop_stack r) (e :: refs) ->
  exists r', release dbg r e = Ok r' /\ recounted r r' /\
    counts_ok (arcs r') live (drop_stack r') refs.
Proof.
  intros H. destruct (decref_ok r live _ refs e H) as (r' & Hd & Hr & Hs & Hc).
  unfold release. rewrite Hd. cbn [mbind outcome_bind].
  eexists; split; [reflexivity|]. rewrite Hr in *. cbn [arcs set_arcs drop_stack] in *.
  case_bool_decide; cbn in Hc |- *.
  - split; [|done]. eexists _, _. split; [reflexivity|done].
  - split; [|done]. eexists _, (drop_stack r). split; [|done]. done.
Qed.
End Counts.

(** ** Trampoline types *)

Definition tramp_of (ty : WasmSubType) : option WasmFuncType := as_func ty ≫= trampoline_type.

(** The key of the group of a trampoline type. *)
Definition tramp_key (g : WasmFuncType) : WasmRecGroup := {| rec_types := [trampoline_sub_type g] |}.

Lemma trampoline_val_idem v : trampoline_val (trampoline_val v) = trampoline_val v.
Proof. destruct v as [| | | | |[n h]]; try done. cbn. by destruct h. Qed.

Lemma trampoline_val_edges v : v = trampoline_val v -> edges v = [].
Proof. destruct v as [| | | | |[n h]]; try done. destruct h; cbn; try done; intros [=]. Qed.

Lemma is_trampoline_all f :
  is_trampoline_type f = true <->
  Forall (fun v => v = trampoline_val v) (params f) /\ Forall (fun v => v = trampoline_val v) (returns f).
Proof.
  unfold is_trampoline_type. rewrite andb_true_iff, !forallb_forall, !Forall_forall.
  setoid_rewrite bool_decide_eq_true. setoid_rewrite list_elem_of_In. done.
Qed.

Lemma trampoline_type_is f g : trampoline_type f = Some g -> is_trampoline_type g = true.
Proof.
  unfold trampoline_type. case_match; [done|]. intros [= <-]. apply is_trampoline_all. cbn.
  split; apply Forall_map, Forall_true; intros v; by rewrite trampoline_val_idem.
Qed.

Lemma vals_edges (l : list WasmValType) : Forall (fun v => v = trampoline_val v) l -> edges l = [].
Proof.
  induction 1 as [|v l Hv Hl IH]; [done|].
  change (edges (v :: l)) with (edges v ++ edges l). by rewrite trampoline_val_edges, IH.
Qed.

Lemma trampoline_edges g : is_trampoline_type g = true -> edges (trampoline_sub_type g) = [].
Proof.
  intros [Hp Hr]%is_trampoline_all.
  change (edges (trampoline_sub_type g)) with (edges (params g) ++ edges (returns g)).
  by rewrite !vals_edges.
Qed.

Lemma tramp_of_leaf g : is_trampoline_type g = true -> tramp_of (trampoline_sub_type g) = None.
Proof. unfold tramp_of, trampoline_type. cbn. by intros ->. Qed.

Lemma tramp_key_indices g : is_trampoline_type g = true -> engine_indices (tramp_key g) = [].
Proof.
  intros H. unfold engine_indices.
  change (edges (tramp_key g)) with (edges (trampoline_sub_type g) ++ []).
  by rewrite trampoline_edges.
Qed.

(** ** Structure *)

(** Array, function or struct. *)
Inductive type_kind := KArray | KFunc | KStruct.
Definition kind_of (t : WasmSubType) : type_kind :=
  match composite_type t with CArray _ => KArray | CFunc _ => KFunc | CStruct _ => KStruct end.

Section Shape.
  Implicit Types r : TypeRegistryInner.

Definition shared r (e : nat) : list Z := from_option shared_type_indices [] (arcs r !! e).
Definition key_of r (e : nat) : option WasmRecGroup := hash_consing_key <$> arcs r !! e.
Definition key_indices r (e : nat) : list Z := from_option engine_indices [] (key_of r e).

(** The entry an index refers to, directly and through a trampoline. *)
Definition target r (i : Z) : option nat := type_to_rec_group r !! i.
Definition tramp_target r (i : Z) : option nat := type_to_trampoline r !! i ≫= target r.

Definition out r (e : nat) : list nat :=
  omap (target r) (key_indices r e) ++ omap (tramp_target r) (shared r e).

Definition live r : list nat := hash_consing_map r.

Record shape r : Prop := {
  sh_live : NoDup (live r);
  sh_arcs e : e ∈ live r -> is_Some (arcs r !! e);
  sh_keys e e' : e ∈ live r -> e' ∈ live r -> key_of r e = key_of r e' -> e = e';
  sh_canon e x : e ∈ live r -> arcs r !! e = Some x ->
    is_canonicalized_for_hash_consing (hash_consing_key x) = true /\
    length (shared_type_indices x) = length (rec_types (hash_consing_key x));
  sh_target i e : target r i = Some e <-> e ∈ live r /\ i ∈ shared r e;
  sh_nodup e : e ∈ live r -> NoDup (shared r e);
  sh_slab : slab_inv (types r);
  sh_types i : is_Some (target r i) <-> 0 <= i /\ is_Some (Slab.view (types r) !! (i + 1));
  sh_edges e i : e ∈ live r -> i ∈ key_indices r e -> exists e', target r i = Some e' /\ (e' < e)%nat;
  sh_tramp i t : type_to_trampoline r !! i = Some t ->
    exists e k kty g e', shared r e !! k = Some i /\ e ∈ live r /\
      (exists key, key_of r e = Some key /\ rec_types key !! k = Some kty) /\ tramp_of kty = Some g /\
      target r t = Some e' /\ key_of r e' = Some (tramp_key g);
  sh_supers i : type_to_supertypes r !! i <> None -> is_Some (target r i);
  sh_kind e key k kty i : e ∈ live r -> key_of r e = Some key -> rec_types key !! k = Some kty ->
    shared r e !! k = Some i ->
    exists t, Slab.view (types r) !! (i + 1) = Some t /\ kind_of t = kind_of kty
}.

(** The whole invariant, for the references [h] of the handles. *)
Definition reg_inv r (h : list nat) : Prop :=
  shape r /\ counts_ok (arcs r) (live r) (drop_stack r) (h ++ (live r ≫= out r)).

(** Only counts and the stack differ: nothing of the structure does. *)
Lemma recounted_key r r' e : recounted r r' -> key_of r' e = key_of r e.
Proof.
  intros (a & s & -> & H). unfold key_of. cbn.
  assert (He : (strip <$> a) !! e = (strip <$> arcs r) !! e) by (by rewrite H).
  rewrite !list_lookup_fmap in He. unfold strip in He. destruct (a !! e), (arcs r !! e); cbn in *; congruence.
Qed.
Lemma recounted_shared r r' e : recounted r r' -> shared r' e = shared r e.
Proof.
  intros (a & s & -> & H). unfold shared. cbn.
  assert (He : (strip <$> a) !! e = (strip <$> arcs r) !! e) by (by rewrite H).
  rewrite !list_lookup_fmap in He. unfold strip in He. destruct (a !! e), (arcs r !! e); cbn in *; congruence.
Qed.
Lemma recounted_fields r r' :
  recounted r r' ->
  hash_consing_map r' = hash_consing_map r /\ types r' = types r /\
  type_to_rec_group r' = type_to_rec_group r /\ type_to_supertypes r' = type_to_supertypes r /\
  type_to_trampoline r' = type_to_trampoline r.
Proof. intros (a & s & -> & _). done. Qed.

Lemma recounted_out r r' e : recounted r r' -> out r' e = out r e.
Proof.
  intros H. unfold out, key_indices. rewrite (recounted_key r r'), (recounted_shared r r') by done.
  destruct (recounted_fields _ _ H) as (_ & _ & Hg & _ & Ht).
  unfold tramp_target, target. by rewrite Hg, Ht.
Qed.

Lemma recounted_shape r r' : recounted r r' -> shape r -> shape r'.
Proof.
  intros H Hs. destruct (recounted_fields _ _ H) as (Hm & Hty & Hg & Hst & Htr).
  assert (Hk := fun e => recounted_key r r' e H). assert (Hsh := fun e => recounted_shared r r' e H).
  destruct Hs. split; unfold live, target, tramp_target, key_indices in *;
    rewrite ?Hm, ?Hty, ?Hg, ?Hst, ?Htr; try done.
  - intros e He. apply sh_arcs0 in He as [x Hx]. specialize (Hk e). unfold key_of in Hk.
    rewrite Hx in Hk. destruct (arcs r' !! e); [done|discriminate].
  - intros e e'. rewrite !Hk. auto.
  - intros e x He Hx. destruct (sh_arcs0 e He) as [y Hy]. destruct (sh_canon0 e y He Hy) as [Hc Hl].
    specialize (Hk e). specialize (Hsh e). unfold key_of, shared in *. rewrite Hx, Hy in *. cbn in *.
    injection Hk as Hk. rewrite Hk, Hsh. done.
  - intros i e. rewrite Hsh. auto.
  - intros e. rewrite Hsh. auto.
  - intros e i. rewrite Hk. auto.
  - intros i t Hit. destruct (sh_tramp0 i t Hit) as (e & k & kty & g & e' & H1 & H2 & H3 & H4).
    exists e, k, kty, g, e'. rewrite Hsh, !Hk. done.
  - intros e key k kty i. rewrite Hk, Hsh. apply sh_kind0.
Qed.
End Shape.

(** ** Removing a group *)

Section Remove.
  Context (dbg oc : bool).
  Implicit Types (r : TypeRegistryInner) (l : list Z).

Lemma slab_id_ok (s : Slab WasmSubType) i :
  slab_inv s -> 0 <= i -> is_Some (Slab.view s !! (i + 1)) -> shared_type_index_to_slab_id i = Ok (i + 1).
Proof.
  intros [_ _ Hc] Hi [v Hv]. apply view_lookup_Some in Hv as [_ Hv]. apply lookup_lt_Some in Hv.
  unfold entry_index in Hv. unfold shared_type_index_to_slab_id, from_raw.
  rewrite entry_new_ok by lia. unfold key. f_equal. lia.
Qed.

Lemma release_indices_ok L R l : forall r,
  (forall i, i ∈ l -> is_Some (target r i)) ->
  counts_ok (arcs r) L (drop_stack r) (omap (target r) l ++ R) ->
  exists r', release_indices dbg r l = Ok r' /\ recounted r r' /\ counts_ok (arcs r') L (drop_stack r') R.
Proof.
  induction l as [|i l IH]; intros r Ht Hc.
  { exists r. split; [done|]. split; [apply recounted_refl|done]. }
  destruct (Ht i) as [e He]; [set_solver|]. cbn [omap list_omap] in Hc. rewrite He in Hc.
  destruct (release_entry_ok dbg r L (omap (target r) l ++ R) e Hc) as (r1 & H1 & Hr1 & Hc1).
  assert (Ht1 : forall j, target r1 j = target r j).
  { intros j. unfold target. by destruct (recounted_fields _ _ Hr1) as (_ & _ & -> & _). }
  destruct (IH r1) as (r2 & H2 & Hr2 & Hc2).
  - intros j Hj. rewrite Ht1. apply Ht. set_solver.
  - erewrite (list_omap_ext _ (target r)); [exact Hc1|].
    apply Forall_Forall2_diag, Forall_true. intros j. apply Ht1.
  - exists r2. cbn [release_indices]. unfold entry_of. unfold target in He. rewrite He.
    cbn [unwrap mbind outcome_bind]. rewrite H1. split; [exact H2|]. split; [|done].
    by eapply recounted_trans.
Qed.

(** How many entries the slab has, and room for how many. *)
Definition slab_size r : nat * Z := (length (entries (types r)), cap (types r)).

Lemma dealloc_size (s : Slab WasmSubType) id v s' :
  Slab.dealloc (E:=reg_error) oc s id = Ok (v, s') -> length (entries s') = length (entries s) /\ cap s' = cap s.
Proof.
  unfold Slab.dealloc. intros H. outcome_inv. case_match; [|done]. outcome_inv. cbn.
  by rewrite length_insert.
Qed.

(** The registry without the types [l]. *)
Record without r l r' : Prop := {
  wo_arcs : strip <$> arcs r' = strip <$> arcs r;
  wo_map : hash_consing_map r' = hash_consing_map r;
  wo_target j : target r' j = if decide (j ∈ l) then None else target r j;
  wo_tramp j : type_to_trampoline r' !! j = if decide (j ∈ l) then None else type_to_trampoline r !! j;
  wo_supers j : type_to_supertypes r' !! j = if decide (j ∈ l) then None else type_to_supertypes r !! j;
  wo_view j : 0 <= j ->
    Slab.view (types r') !! (j + 1) = if decide (j ∈ l) then None else Slab.view (types r) !! (j + 1);
  wo_slab : slab_inv (types r');
  wo_size : slab_size r' = slab_size r
}.

Lemma check_removed_ok r e x : arcs r !! e = Some x -> check_removed dbg r (Some e) e = Ok ().
Proof.
  intros H. unfold check_removed. destruct dbg; [|done]. cbn [unwrap mbind outcome_bind].
  rewrite H. cbn. by rewrite bool_decide_eq_true_2.
Qed.

Lemma without_cons r i l r1 r2 : without r [i] r1 -> without r1 l r2 -> without r (i :: l) r2.
Proof.
  intros [A1 M1 T1 P1 S1 V1 _ Z1] [A2 M2 T2 P2 S2 V2 Hs Z2].
  split; [by rewrite A2, A1|by rewrite M2, M1| | | | |done|by rewrite Z2].
  - intros j. rewrite T2, T1. repeat destruct (decide _); set_solver.
  - intros j. rewrite P2, P1. repeat destruct (decide _); set_solver.
  - intros j. rewrite S2, S1. repeat destruct (decide _); set_solver.
  - intros j Hj. rewrite V2, V1 by done. repeat destruct (decide _); set_solver.
Qed.

(** What the removal of the type [i] of entry [e] relies on. *)
Definition removable r (e : nat) (i : Z) : Prop :=
  target r i = Some e /\ 0 <= i /\ is_Some (Slab.view (types r) !! (i + 1)) /\
  forall t, type_to_trampoline r !! i = Some t -> exists te, target r t = Some te /\ te <> e.

Lemma release_tramp L R r e i r0 :
  r0 = set_groups r (delete i (type_to_rec_group r)) -> removable r e i ->
  counts_ok (arcs r) L (drop_stack r) (omap (tramp_target r) [i] ++ R) ->
  exists r1,
    match type_to_trampoline r !! i with
    | Some t => te ← entry_of (set_trampolines r0 (delete i (type_to_trampoline r))) t;
                release dbg (set_trampolines r0 (delete i (type_to_trampoline r))) te
    | None => Ok r0
    end = Ok r1 /\ recounted (set_trampolines r0 (delete i (type_to_trampoline r))) r1 /\
    counts_ok (arcs r1) L (drop_stack r1) R.
Proof.
  intros -> (Hi & _ & _ & Ht) Hc. unfold tramp_target in Hc. cbn [omap list_omap] in Hc.
  destruct (type_to_trampoline r !! i) as [t|] eqn:Hit.
  - destruct (Ht t eq_refl) as (te & Hte & Hne). cbn in Hc. rewrite Hte in Hc.
    unfold entry_of. cbn [type_to_rec_group set_trampolines set_groups].
    rewrite lookup_delete_ne by (intros <-; congruence).
    unfold target in Hte. rewrite Hte. cbn [unwrap mbind outcome_bind].
    apply release_entry_ok. exact Hc.
  - eexists; split; [reflexivity|]. split; [|exact Hc].
    rewrite (delete_id (type_to_trampoline r)) by done. eexists (arcs r), (drop_stack r). by destruct r.
Qed.

Lemma lookup_delete_decide {V} (m : gmap Z V) i j :
  delete i m !! j = if decide (j ∈ [i]) then None else m !! j.
Proof.
  destruct (decide _) as [->%list_elem_of_singleton|Hn]; [apply lookup_delete_eq|].
  rewrite lookup_delete_ne; [done|set_solver].
Qed.

Lemma remove_type_ok L R e i r :
  is_Some (arcs r !! e) -> slab_inv (types r) -> removable r e i ->
  counts_ok (arcs r) L (drop_stack r) (omap (tramp_target r) [i] ++ R) ->
  exists r', remove_type dbg oc r e i = Ok r' /\ without r [i] r' /\ counts_ok (arcs r') L (drop_stack r') R.
Proof.
  intros [x Hx] Hs Hrm Hc. pose proof Hrm as (Hi & Hi0 & [v Hv] & _).
  unfold remove_type. unfold target in Hi. rewrite Hi, (check_removed_ok r e x Hx). cbn [mbind outcome_bind].
  destruct (release_tramp L R r e i _ eq_refl Hrm Hc) as (r1 & H1 & Hr1 & Hc1).
  cbn [type_to_trampoline set_groups] in H1 |- *. rewrite H1. cbn [mbind outcome_bind].
  destruct (recounted_fields _ _ Hr1) as (Hm1 & Hty1 & Hg1 & Hst1 & Htr1).
  cbn in Hm1, Hty1, Hg1, Hst1, Htr1.
  cbn [types set_supertypes]. rewrite (slab_id_ok (types r1) i) by (rewrite ?Hty1; done).
  cbn [mbind outcome_bind]. rewrite Hty1.
  destruct (slab_dealloc_ok (E:=reg_error) oc (types r) (i + 1) v Hs Hv) as (ts & Hde & Hts & Hvts & _).
  destruct (dealloc_size _ _ _ _ Hde) as [Hsz1 Hsz2]. rewrite Hde.
  cbn [mbind outcome_bind]. eexists; split; [reflexivity|]. split; [|exact Hc1].
  split; cbn; try done.
  - destruct Hr1 as (a & s & -> & Ha). exact Ha.
  - intros j. unfold target. cbn. rewrite Hg1. apply lookup_delete_decide.
  - intros j. rewrite Htr1. apply lookup_delete_decide.
  - intros j. rewrite Hst1. apply lookup_delete_decide.
  - intros j Hj. rewrite Hvts. destruct (decide _) as [->%list_elem_of_singleton|]; [apply lookup_delete_eq|].
    rewrite lookup_delete_ne; [done|]. intros ?. assert (j = i) by lia. set_solver.
  - unfold slab_size. cbn. by rewrite Hsz1, Hsz2.
Qed.

Lemma removable_without r e i j r' : without r [i] r' -> j <> i -> target r i = Some e -> removable r e j -> removable r' e j.
Proof.
  intros [_ _ Ht Hp _ Hv _ _] Hne Hi (H1 & H2 & H3 & H4). unfold removable.
  rewrite Ht, Hp, Hv, !decide_False by (done || set_solver). split_and!; try done.
  intros t Hjt. destruct (H4 t Hjt) as (te & Hte & Hn). exists te. split; [|done].
  rewrite Ht, decide_False; [done|]. intros ->%list_elem_of_singleton. congruence.
Qed.

Lemma tramp_target_without r e i l r' :
  without r [i] r' -> i ∉ l -> target r i = Some e -> (forall j, j ∈ l -> removable r e j) ->
  omap (tramp_target r') l = omap (tramp_target r) l.
Proof.
  intros [_ _ Ht Hp _ _ _ _] Hni Hi Hl. apply list_omap_ext, Forall_Forall2_diag, Forall_forall.
  intros j Hj. unfold tramp_target. rewrite Hp, decide_False by set_solver.
  destruct (type_to_trampoline r !! j) as [t|] eqn:Hjt; [|done]. cbn.
  destruct (Hl j Hj) as (_ & _ & _ & H4). destruct (H4 t Hjt) as (te & Hte & Hn).
  rewrite Ht, decide_False; [done|]. intros ->%list_elem_of_singleton. congruence.
Qed.

Lemma remove_types_ok L R e l : forall r,
  NoDup l -> is_Some (arcs r !! e) -> slab_inv (types r) ->
  (forall i, i ∈ l -> removable r e i) ->
  counts_ok (arcs r) L (drop_stack r) (omap (tramp_target r) l ++ R) ->
  exists r', remove_types dbg oc r e l = Ok r' /\ without r l r' /\ counts_ok (arcs r') L (drop_stack r') R.
Proof.
  induction l as [|i l IH]; intros r Hnd [x Hx] Hs Hl Hc.
  { exists r. split; [done|]. split; [|done]. by split. }
  apply list.NoDup_cons in Hnd as [Hil Hnd]. assert (Hi : removable r e i) by (apply Hl; set_solver).
  change (i :: l) with ([i] ++ l) in Hc. rewrite omap_app, <- (assoc_L (++)) in Hc.
  destruct (remove_type_ok _ _ e i r (ex_intro _ x Hx) Hs Hi Hc) as (r1 & H1 & Hw1 & Hc1).
  cbn [remove_types]. rewrite H1. cbn [mbind outcome_bind].
  destruct (strip_lookup _ _ _ _ (wo_arcs _ _ _ Hw1) Hx) as (x' & Hx' & _).
  destruct (IH r1) as (r2 & H2 & Hw2 & Hc2).
  - done.
  - by exists x'.
  - apply Hw1.
  - intros j Hj. eapply removable_without; [done| |apply Hi|apply Hl; set_solver]. by intros ->.
  - erewrite (tramp_target_without r e i l r1); try done; [apply Hi|]. intros j Hj. apply Hl. set_solver.
  - exists r2. split; [exact H2|]. split; [by eapply without_cons|done].
Qed.

(** The registry [r] without the group [e]. *)
Record dropped r (e : nat) r' : Prop := {
  dr_arcs : strip <$> arcs r' = strip <$> arcs r;
  dr_map : live r' = List.filter (fun x => negb (bool_decide (x = e))) (live r);
  dr_target j : target r' j = if decide (j ∈ shared r e) then None else target r j;
  dr_tramp j : type_to_trampoline r' !! j = if decide (j ∈ shared r e) then None else type_to_trampoline r !! j;
  dr_supers j : type_to_supertypes r' !! j = if decide (j ∈ shared r e) then None else type_to_supertypes r !! j;
  dr_view j : 0 <= j ->
    Slab.view (types r') !! (j + 1) = if decide (j ∈ shared r e) then None else Slab.view (types r) !! (j + 1);
  dr_slab : slab_inv (types r');
  dr_size : slab_size r' = slab_size r
}.

Lemma elem_of_others (l : list nat) e e' :
  e' ∈ List.filter (fun x => negb (bool_decide (x = e))) l <-> e' ∈ l /\ e' <> e.
Proof.
  rewrite !list_elem_of_In, filter_In, negb_true_iff, bool_decide_eq_false. done.
Qed.

Lemma others_perm (l : list nat) e :
  NoDup l -> e ∈ l -> l ≡ₚ e :: List.filter (fun x => negb (bool_decide (x = e))) l.
Proof.
  intros Hnd He. apply NoDup_Permutation; [done| |].
  - apply list.NoDup_cons. split; [rewrite elem_of_others; naive_solver|].
    apply NoDup_ListNoDup, List.NoDup_filter, NoDup_ListNoDup. done.
  - intros x. rewrite elem_of_cons, elem_of_others. destruct (decide (x = e)); naive_solver.
Qed.

Lemma strip_key r r' e : strip <$> arcs r' = strip <$> arcs r -> key_of r' e = key_of r e.
Proof.
  intros H. apply (recounted_key r (set_stack (set_arcs r (arcs r')) [])). by exists (arcs r'), [].
Qed.
Lemma strip_shared r r' e : strip <$> arcs r' = strip <$> arcs r -> shared r' e = shared r e.
Proof.
  intros H. apply (recounted_shared r (set_stack (set_arcs r (arcs r')) [])). by exists (arcs r'), [].
Qed.

Lemma out_target r e i e' : i ∈ key_indices r e -> target r i = Some e' -> e' ∈ out r e.
Proof. intros Hi He. apply elem_of_app. left. apply list_elem_of_omap. by exists i. Qed.
Lemma out_tramp r e i t e' :
  i ∈ shared r e -> type_to_trampoline r !! i = Some t -> target r t = Some e' -> e' ∈ out r e.
Proof.
  intros Hi Ht He. apply elem_of_app. right. apply list_elem_of_omap. exists i.
  split; [done|]. unfold tramp_target. by rewrite Ht.
Qed.

Section Dropped.
  Context r e r' (Hs : shape r) (He : e ∈ live r) (Hout : forall e', e' ∈ live r -> e ∉ out r e')
    (Hd : dropped r e r').

Lemma dropped_target_other j e' : target r j = Some e' -> e' <> e -> target r' j = Some e'.
Proof.
  intros Hj Hne. rewrite (dr_target _ _ _ Hd), decide_False; [done|].
  intros Hin. assert (target r j = Some e) by (by apply (sh_target _ Hs)). congruence.
Qed.

Lemma dropped_target_inv j e' : target r' j = Some e' -> target r j = Some e' /\ e' <> e.
Proof.
  rewrite (dr_target _ _ _ Hd). destruct (decide _) as [|Hn]; [done|]. intros H. split; [done|].
  intros ->. apply Hn. by apply (sh_target _ Hs) in H as [_ ?].
Qed.

Lemma dropped_out e' : e' ∈ live r' -> out r' e' = out r e'.
Proof.
  intros He'. rewrite (dr_map _ _ _ Hd), elem_of_others in He'. destruct He' as [He' Hne].
  unfold out. f_equal.
  - unfold key_indices. rewrite (strip_key r r') by apply Hd.
    apply list_omap_ext, Forall_Forall2_diag, Forall_forall. intros i Hi.
    destruct (sh_edges _ Hs e' i He' Hi) as (e'' & Ht & _).
    rewrite Ht. apply dropped_target_other; [done|]. intros ->. by eapply Hout, out_target.
  - rewrite (strip_shared r r') by apply Hd.
    apply list_omap_ext, Forall_Forall2_diag, Forall_forall. intros i Hi. unfold tramp_target.
    rewrite (dr_tramp _ _ _ Hd), decide_False; last first.
    { intros Hi'. assert (target r i = Some e) by (by apply (sh_target _ Hs)).
      assert (target r i = Some e') by (by apply (sh_target _ Hs)). congruence. }
    destruct (type_to_trampoline r !! i) as [t|] eqn:Hit; [|done]. cbn.
    destruct (sh_tramp _ Hs i t Hit) as (_ & _ & _ & _ & e'' & _ & _ & _ & _ & Ht & _).
    rewrite Ht. apply dropped_target_other; [done|]. intros ->. by eapply Hout, out_tramp.
Qed.

Lemma dropped_shape : shape r'.
Proof.
  assert (Hk := fun x => strip_key r r' x (dr_arcs _ _ _ Hd)).
  assert (Hsh := fun x => strip_shared r r' x (dr_arcs _ _ _ Hd)).
  assert (Hlive : forall x, x ∈ live r' <-> x ∈ live r /\ x <> e).
  { intros x. rewrite (dr_map _ _ _ Hd). apply elem_of_others. }
  split.
  - rewrite (dr_map _ _ _ Hd). apply NoDup_ListNoDup, List.NoDup_filter, NoDup_ListNoDup, Hs.
  - intros x [Hx _]%Hlive. destruct (sh_arcs _ Hs x Hx) as [y Hy].
    destruct (strip_lookup _ _ _ _ (dr_arcs _ _ _ Hd) Hy) as (y' & ? & _). by exists y'.
  - intros x y [Hx _]%Hlive [Hy _]%Hlive. rewrite !Hk. by apply (sh_keys _ Hs).
  - intros x y [Hx _]%Hlive Hy.
    destruct (strip_lookup _ _ _ _ (eq_sym (dr_arcs _ _ _ Hd)) Hy) as (y' & Hy' & <- & <-).
    by apply (sh_canon _ Hs x).
  - intros i x. rewrite Hlive, Hsh. split.
    + intros [Ht Hne]%dropped_target_inv. apply (sh_target _ Hs) in Ht as [? ?]. done.
    + intros [[Hx Hne] Hi]. apply dropped_target_other; [|done]. by apply (sh_target _ Hs).
  - intros x [Hx _]%Hlive. rewrite Hsh. by apply (sh_nodup _ Hs).
  - apply Hd.
  - intros i. rewrite (dr_target _ _ _ Hd). split.
    + destruct (decide _) as [|Hn]; [by intros []|]. intros [? ?]%(sh_types _ Hs).
      rewrite (dr_view _ _ _ Hd), decide_False by done. done.
    + intros [Hi Hv]. rewrite (dr_view _ _ _ Hd) in Hv by done.
      destruct (decide _); [by destruct Hv|]. by apply (sh_types _ Hs).
  - intros x i Hx Hi. pose proof Hx as [Hx' Hne]%Hlive. unfold key_indices in Hi. rewrite Hk in Hi.
    destruct (sh_edges _ Hs x i Hx' Hi) as (y & Hy & Hlt). exists y. split; [|done].
    apply dropped_target_other; [done|]. intros ->. by eapply (Hout x), out_target.
  - intros i t. rewrite (dr_tramp _ _ _ Hd). destruct (decide _) as [|Hn]; [done|]. intros Hit.
    destruct (sh_tramp _ Hs i t Hit) as (x & k & kty & g & y & H1 & H2 & H3 & H4 & H5 & H6).
    exists x, k, kty, g, y. rewrite Hsh, !Hk. split_and!; try done.
    + apply Hlive. split; [done|]. intros ->. apply Hn. by eapply list_elem_of_lookup_2.
    + apply dropped_target_other; [done|]. intros ->.
      by eapply (Hout x); [done|eapply out_tramp; [by eapply list_elem_of_lookup_2|done|done]].
  - intros i. rewrite (dr_supers _ _ _ Hd), (dr_target _ _ _ Hd). destruct (decide _); [done|].
    apply (sh_supers _ Hs).
  - intros x key k kty i Hx. rewrite Hk, Hsh. intros H1 H2 H3. pose proof Hx as [Hx' Hne]%Hlive.
    destruct (sh_kind _ Hs x key k kty i Hx' H1 H2 H3) as (t & Ht & Hkd). exists t. split; [|done].
    assert (Hti : target r i = Some x) by (apply (sh_target _ Hs); split; [done|by eapply list_elem_of_lookup_2]).
    rewrite (dr_view _ _ _ Hd), decide_False; [done| |apply (sh_types _ Hs); by exists x].
    intros Hin. assert (target r i = Some e) by (by apply (sh_target _ Hs)). congruence.
Qed.
End Dropped.

Lemma map_get_key r e x :
  shape r -> e ∈ live r -> arcs r !! e = Some x -> map_get r (hash_consing_key x) = Some e.
Proof.
  intros Hs He Hx. unfold map_get.
  match goal with |- List.find ?f _ = _ => destruct (List.find f (hash_consing_map r)) as [e'|] eqn:Hf end.
  - apply find_some in Hf as [Hin Hb]. apply list_elem_of_In in Hin.
    destruct (arcs r !! e') as [y|] eqn:Hy; [|done]. apply bool_decide_eq_true in Hb.
    f_equal. apply (sh_keys _ Hs); [done|done|]. unfold key_of. rewrite Hx, Hy. cbn. by rewrite Hb.
  - apply find_none with (x := e) in Hf; [|by apply list_elem_of_In]. rewrite Hx in Hf.
    by rewrite bool_decide_eq_true_2 in Hf.
Qed.

Lemma counts_drop a L e s refs :
  counts_ok a L (e :: s) refs ->
  counts_ok a (List.filter (fun x => negb (bool_decide (x = e))) L) s refs.
Proof.
  intros [H1 H2 H3 H4 H5]. apply list.NoDup_cons in H4 as [Hes H4].
  destruct (proj1 (H3 e)) as [HeL Her]; [set_solver|].
  split; try done.
  - intros x [Hx _]%elem_of_others. auto.
  - intros x Hx. apply elem_of_others. split; [auto|]. by intros ->.
  - intros x. rewrite elem_of_others. specialize (H3 x). rewrite elem_of_cons in H3.
    destruct (decide (x = e)) as [->|]; naive_solver.
Qed.

Lemma refs_drop r h e :
  shape r -> e ∈ live r ->
  h ++ (live r ≫= out r) ≡ₚ
  omap (target r) (key_indices r e) ++
  omap (tramp_target r) (shared r e) ++
  h ++ (List.filter (fun x => negb (bool_decide (x = e))) (live r) ≫= out r).
Proof.
  intros Hs He. rewrite (others_perm (live r) e) at 1 by (done || apply Hs).
  cbn [mbind list_bind]. unfold out at 1. solve_Permutation.
Qed.

Lemma removable_dropped r r' e i :
  shape r -> recounted r r' -> e ∈ live r -> e ∉ out r e -> i ∈ shared r e -> removable r' e i.
Proof.
  intros Hs Hr He Ho Hi. destruct (recounted_fields _ _ Hr) as (Hm & Hty & Hg & Hst & Htr).
  unfold removable, target. rewrite Hty, Hg, Htr.
  assert (Ht : target r i = Some e) by (by apply (sh_target _ Hs)).
  split; [exact Ht|]. destruct (proj1 (sh_types _ Hs i)) as [? ?]; [by rewrite Ht|]. split_and!; [done|done|].
  intros t Hit. destruct (sh_tramp _ Hs i t Hit) as (_ & _ & _ & _ & y & _ & _ & _ & _ & Hy & _).
  exists y. split; [exact Hy|]. intros ->. by eapply Ho, out_tramp.
Qed.

Lemma recounted_target r r' : recounted r r' -> forall i, target r' i = target r i.
Proof. intros H i. unfold target. by destruct (recounted_fields _ _ H) as (_ & _ & -> & _). Qed.
Lemma recounted_tramp r r' : recounted r r' -> forall i, tramp_target r' i = tramp_target r i.
Proof.
  intros H i. unfold tramp_target, target. by destruct (recounted_fields _ _ H) as (_ & _ & -> & _ & ->).
Qed.

(** The two halves of [drop_entry]. *)
Lemma drop_release r e s L R :
  shape r -> e ∈ live r -> counts_ok (arcs r) L s (omap (target r) (key_indices r e) ++ R) ->
  exists r1, release_indices dbg (set_stack r s) (key_indices r e) = Ok r1 /\ recounted r r1 /\
    counts_ok (arcs r1) L (drop_stack r1) R.
Proof.
  intros Hs He Hc.
  destruct (release_indices_ok L R (key_indices r e) (set_stack r s)) as (r1 & H1 & Hr1 & Hc1); [|done|].
  - intros i Hi. destruct (sh_edges _ Hs e i He Hi) as (y & Hy & _). by exists y.
  - exists r1. split; [done|]. split; [|done].
    eapply recounted_trans; [|exact Hr1]. by exists (arcs r), s.
Qed.

Lemma drop_remove r r1 e x L R :
  shape r -> recounted r r1 -> e ∈ live r -> e ∉ out r e -> arcs r !! e = Some x ->
  counts_ok (arcs r1) L (drop_stack r1) (omap (tramp_target r) (shared r e) ++ R) ->
  exists r', remove_types dbg oc (map_remove r1 (hash_consing_key x)) e (shared r e) = Ok r' /\
    dropped r e r' /\ counts_ok (arcs r') L (drop_stack r') R.
Proof.
  intros Hs Hr He Ho Hx Hc. assert (Hs1 : shape r1) by (by eapply recounted_shape).
  destruct (recounted_fields _ _ Hr) as (Hm & Hty & Hg & Hst & Htr).
  assert (Ha : strip <$> arcs r1 = strip <$> arcs r) by (destruct Hr as (a & s & -> & Ha); exact Ha).
  destruct (strip_lookup _ _ _ _ Ha Hx) as (x1 & Hx1 & Hk1 & _).
  unfold map_remove. rewrite <- Hk1, (map_get_key r1 e x1) by (done || (unfold live; by rewrite Hm)).
  set (r2 := set_map r1 _). set (t2 := tramp_target r2).
  destruct (remove_types_ok L R e (shared r e) r2) as (r3 & H3 & Hw & Hc3).
  - by apply (sh_nodup _ Hs).
  - by exists x1.
  - apply Hs1.
  - intros i Hi. destruct (removable_dropped r r1 e i) as (? & ? & ? & ?); done.
  - rewrite (list_omap_ext (tramp_target r2) (tramp_target r) (shared r e) (shared r e)); [exact Hc|].
    apply Forall_Forall2_diag, Forall_true. intros i. apply (recounted_tramp r r1 Hr).
  - exists r3. split; [exact H3|]. split; [|exact Hc3]. destruct Hw. split; try done.
    + by rewrite wo_arcs0.
    + unfold live. rewrite wo_map0. unfold r2. cbn. by rewrite Hm.
    + intros j. rewrite wo_target0. unfold r2, target. cbn. by rewrite Hg.
    + intros j. rewrite wo_tramp0. unfold r2. cbn. by rewrite Htr.
    + intros j. rewrite wo_supers0. unfold r2. cbn. by rewrite Hst.
    + intros j Hj. rewrite wo_view0 by done. unfold r2. cbn. by rewrite Hty.
    + rewrite wo_size0. unfold r2, slab_size. cbn. by rewrite Hty.
Qed.

Lemma bind_same (L : list nat) (f g : nat -> list nat) :
  (forall e, e ∈ L -> f e = g e) -> L ≫= f = L ≫= g.
Proof.
  induction L as [|e L IH]; intros H; [done|]. cbn. rewrite H, IH by set_solver. done.
Qed.

Lemma drop_entry_ok r h e s :
  shape r -> counts_ok (arcs r) (live r) (e :: s) (h ++ (live r ≫= out r)) ->
  exists r', drop_entry dbg oc (set_stack r s) e = Ok r' /\ reg_inv r' h /\ dropped r e r' /\
    e ∈ live r /\ e ∉ h.
Proof.
  intros Hs Hc. destruct (proj1 (co_stack _ _ _ _ Hc e)) as [He Her]; [set_solver|].
  destruct (co_count _ _ _ _ Hc e He) as (x & Hx & Hreg). apply occ_zero in Her as Hz. rewrite Hz in Hreg.
  assert (Hout : forall e', e' ∈ live r -> e ∉ out r e').
  { intros e' He' Hin. apply Her, elem_of_app. right. apply list_elem_of_bind. by exists e'. }
  unfold drop_entry. cbn [arcs set_stack]. rewrite Hx. cbn [unwrap mbind outcome_bind].
  rewrite Hreg. cbn [Z.eqb negb]. destruct (sh_canon _ Hs e x He Hx) as [Hcan _].
  rewrite debug_assert_true by done. cbn [mbind outcome_bind].
  apply counts_drop in Hc. rewrite (refs_drop r h e Hs He) in Hc.
  destruct (drop_release r e s _ _ Hs He Hc) as (r1 & H1 & Hr1 & Hc1).
  destruct (drop_remove r r1 e x _ _ Hs Hr1 He (Hout e He) Hx Hc1) as (r2 & H2 & Hd & Hc2).
  unfold key_indices, key_of, shared in H1, H2. rewrite Hx in H1, H2.
  cbn [from_option fmap option_fmap option_map] in H1, H2.
  rewrite H1. cbn [mbind outcome_bind]. rewrite H2. eexists; split; [reflexivity|].
  split; [|split; [done|set_solver]]. split; [by eapply dropped_shape|].
  rewrite <- (dr_map _ _ _ Hd) in Hc2. rewrite (bind_same (live r2) (out r2) (out r)); [exact Hc2|].
  intros e'. by apply (dropped_out r e r2).
Qed.

Lemma dropped_length r e r' : shape r -> e ∈ live r -> dropped r e r' -> length (live r) = S (length (live r')).
Proof.
  intros Hs He Hd. rewrite (dr_map _ _ _ Hd). by rewrite (others_perm (live r) e) at 1 by (done || apply Hs).
Qed.

(** The groups that remain, with their types. *)
Record survives r r' : Prop := {
  su_arcs : strip <$> arcs r' = strip <$> arcs r;
  su_live e : e ∈ live r' -> e ∈ live r;
  su_target i e : target r' i = Some e -> target r i = Some e;
  su_kept i e : target r i = Some e -> e ∈ live r' -> target r' i = Some e;
  su_view i : is_Some (target r' i) -> Slab.view (types r') !! (i + 1) = Slab.view (types r) !! (i + 1);
  su_supers i : is_Some (target r' i) -> type_to_supertypes r' !! i = type_to_supertypes r !! i;
  su_size : slab_size r' = slab_size r
}.

Lemma survives_refl r r' : recounted r r' -> survives r r'.
Proof.
  intros (a & s & -> & Ha). split; done.
Qed.

Lemma survives_trans r1 r2 r3 : survives r1 r2 -> survives r2 r3 -> survives r1 r3.
Proof.
  intros [A1 L1 T1 K1 V1 S1 Z1] [A2 L2 T2 K2 V2 S2 Z2]. split; [by rewrite A2| | | | | |by rewrite Z2]; eauto.
  - intros i Hi. rewrite V2 by done. apply V1. destruct Hi as [e He]. exists e. eauto.
  - intros i Hi. rewrite S2 by done. apply S1. destruct Hi as [e He]. exists e. eauto.
Qed.

Lemma dropped_survives r e r' : shape r -> e ∈ live r -> dropped r e r' -> survives r r'.
Proof.
  intros Hs He Hd. assert (Hne : forall i e', target r' i = Some e' -> i ∉ shared r e).
  { intros i e' Hi Hin. rewrite (dr_target _ _ _ Hd), decide_True in Hi by done. done. }
  split.
  - apply Hd.
  - intros e' He'. rewrite (dr_map _ _ _ Hd), elem_of_others in He'. by destruct He'.
  - intros i e' Hi. by destruct (dropped_target_inv r e r' Hs Hd i e' Hi).
  - intros i e' Hi He'. rewrite (dr_map _ _ _ Hd), elem_of_others in He'. destruct He' as [_ Hn].
    by apply (dropped_target_other r e r').
  - intros i [e' Hi]. rewrite (dr_view _ _ _ Hd), decide_False; [done|by eapply Hne|].
    apply (sh_types _ Hs). destruct (dropped_target_inv r e r' Hs Hd i e' Hi) as [-> _]. done.
  - intros i [e' Hi]. rewrite (dr_supers _ _ _ Hd), decide_False; [done|by eapply Hne].
  - apply Hd.
Qed.

(** The loop removes the groups on the stack and all that becomes unused on the way,
    in no more turns than there are groups. *)
Lemma drop_loop_ok h fuel : forall r,
  reg_inv r h -> (length (live r) <= fuel)%nat ->
  exists r', drop_loop dbg oc fuel r = Ok r' /\ reg_inv r' h /\ drop_stack r' = [] /\ survives r r'.
Proof.
  induction fuel as [|fuel IH]; intros r [Hs Hc] Hf.
  - destruct (drop_stack r) as [|e s] eqn:Hst.
    + exists r. unfold drop_loop. rewrite Hst. split; [done|]. split; [by split; rewrite ?Hst|].
      split; [done|]. apply survives_refl, recounted_refl.
    + destruct (proj1 (co_stack _ _ _ _ Hc e)) as [He _]; [set_solver|].
      destruct (live r); [set_solver|cbn in Hf; lia].
  - cbn [drop_loop]. destruct (drop_stack r) as [|e s] eqn:Hst.
    + exists r. split; [done|]. split; [by split; rewrite ?Hst|].
      split; [done|]. apply survives_refl, recounted_refl.
    + destruct (drop_entry_ok r h e s Hs Hc) as (r1 & -> & Hi1 & Hd & He & _). cbn [mbind outcome_bind].
      pose proof (dropped_length _ _ _ Hs He Hd).
      destruct (IH r1 Hi1) as (r2 & -> & Hi2 & Hst2 & Hsv); [lia|].
      exists r2. split; [done|]. split; [done|]. split; [done|].
      eapply survives_trans; [by eapply dropped_survives|done].
Qed.

Lemma recounted_inv r r' h :
  recounted r r' -> shape r ->
  counts_ok (arcs r') (live r) (drop_stack r') (h ++ (live r ≫= out r)) -> reg_inv r' h.
Proof.
  intros Hr Hs Hc. split; [by eapply recounted_shape|].
  assert (Hl : live r' = live r) by apply (recounted_fields _ _ Hr). rewrite Hl.
  rewrite (bind_same (live r) (out r') (out r)); [done|]. intros e _. by apply recounted_out.
Qed.

(** A reference given up by a handle. *)
Lemma release_handle_ok r h e :
  reg_inv r (e :: h) -> drop_stack r = [] ->
  exists r', ('(z, r) ← decref dbg r e; if (z : bool) then unregister_entry dbg oc r e else Ok r) = Ok r' /\
    reg_inv r' h /\ drop_stack r' = [] /\ survives r r'.
Proof.
  intros [Hs Hc] Hst. cbn [app] in Hc.
  destruct (decref_ok dbg r _ _ _ e Hc) as (r1 & H1 & Hr & Hstr & Hc1). rewrite H1. cbn [mbind outcome_bind].
  assert (Hr1 : forall s, recounted r (set_stack r1 s)) by (intros s; exists (arcs r1), s; by rewrite Hr).
  rewrite Hst in Hc1. case_bool_decide as Hd.
  - unfold unregister_entry. rewrite debug_assert_true by (rewrite Hr; cbn; by rewrite bool_decide_eq_true_2).
    cbn [mbind outcome_bind]. unfold push_drop. replace (drop_stack r1) with ([] : list nat) by (by rewrite Hr).
    destruct (drop_loop_ok h (S (length (hash_consing_map r1))) (set_stack r1 [e])) as (r2 & -> & Hi2 & Hst2 & Hsv).
    { by apply (recounted_inv r). }
    { unfold live. cbn. lia. }
    exists r2. split; [done|]. split; [done|]. split; [done|].
    eapply survives_trans; [apply survives_refl, Hr1|exact Hsv].
  - assert (Hr0 : set_stack r1 [] = r1) by (rewrite Hr; destruct r; cbn in *; by rewrite Hst).
    specialize (Hr1 []). rewrite Hr0 in Hr1.
    exists r1. split; [done|]. split; [|split; [by rewrite Hr|by apply survives_refl]].
    apply (recounted_inv r); [done..|]. by rewrite <- Hr0.
Qed.
End Remove.
