(* ===== verification/RegistryOps.v ===== *)
(** * Registering groups of types

    What [register_rec_group] does to the registry: the canonical key, the counts of
    the groups it refers to, the new types in the slab with their lists of
    supertypes, and the trampoline types of its functions.  The invariant of
    [RegistryInv] is kept, and where the indices of the slab are given out without
    gaps the stored types are the unrolling of the key. *)

From Stdlib Require Import ZArith Lia.
From stdpp Require Import base list gmap numbers option relations sorting.
From S2P Require Import Prelude Slab WasmTypes TypeMatching TypeRegistry RegistryInv.
Open Scope Z_scope.

(** ** Allocation in the slab *)

Section Alloc.
  Context {T E : Type} (oc : bool) (min_cap : Z) (Hmin : min_cap <= 16).
  Implicit Types s : Slab T.

Lemma entry_new_inv (i : nat) id : entry_new (E:=E) i = Ok id -> id = key i.
Proof. unfold entry_new, key. intros H. by outcome_inv. Qed.

Lemma try_alloc_size s v id s' :
  try_alloc (E:=E) oc s v = Ok (Some id, s') ->
  cap s' = cap s /\ (length (entries s) <= length (entries s') <= S (length (entries s)))%nat /\
  (free s = None -> free s' = None /\ arith (E:=E) oc 32 (slen s + 1) = Ok (slen s')).
Proof.
  unfold try_alloc, try_alloc_index. intros H. destruct (free s) as [f|] eqn:Hf.
  - cbn [mbind outcome_bind] in H. outcome_inv. case_match; [done|]. outcome_inv. cbn.
    rewrite length_insert. split; [done|]. split; [cbn; lia|done].
  - case_match; outcome_inv; [|done]. cbn in *. case_match eqn:Hx; [done|]. outcome_inv. cbn.
    rewrite length_insert, length_app. cbn. split; [done|]. split; [lia|]. intros _.
    split; [|done]. match goal with H : entry_new _ = Ok _ |- _ => apply entry_new_inv in H as -> end.
    match goal with H : (_ ++ _) !! _ = Some _ |- _ => rewrite entry_index_key, list_lookup_middle in H by done end.
    congruence.
Qed.

Lemma alloc_size s v id s' :
  slab_inv s -> Slab.alloc (E:=E) oc min_cap s v = Ok (id, s') ->
  cap s <= 2 * Z.of_nat (length (entries s)) + 16 ->
  cap s' <= 2 * Z.of_nat (length (entries s')) + 16 /\
  (length (entries s) <= length (entries s') <= S (length (entries s)))%nat /\
  (free s = None -> free s' = None /\ arith (E:=E) oc 32 (slen s + 1) = Ok (slen s')).
Proof.
  intros Hi H Hc. unfold Slab.alloc in H. apply bind_Ok_inv in H as ([oi s1] & Ht & H).
  destruct oi as [i|].
  { injection H as <- <-. apply try_alloc_size in Ht as (-> & ? & ?). split; [lia|]. done. }
  destruct (has_room s) eqn:Hr.
  { apply has_room_spec in Hr. destruct (try_alloc_ok (E:=E) oc s v Hi Hr) as (? & ? & Ht' & _). congruence. }
  assert (Hs1 : s1 = s).
  { unfold has_room in Hr. destruct (free s) eqn:Hf; [done|]. zbool.
    rewrite try_alloc_full in Ht by done. congruence. }
  subst s1. unfold alloc_slow in H. rewrite (double_capacity_full min_cap s Hi Hr) in H.
  case_match; [|done]. cbn [mbind outcome_bind] in H.
  apply bind_Ok_inv in H as ([oi s1] & Ht2 & H). destruct oi as [i|]; [|done]. injection H as <- <-.
  apply try_alloc_size in Ht2 as (Hc2 & Hl2 & Hf2). cbn in Hc2, Hl2, Hf2.
  split; [|done]. rewrite Hc2. unfold grown, MIN_CAPACITY, has_room in *.
  destruct (free s); [done|]. zbool. destruct Hi as [_ _ Hcap]. lia.
Qed.
End Alloc.

(** ** Canonical types *)

Section Canonical.
  Context (dbg oc : bool).

(** What the indices inside the types of a group may be: a registered type, a type
    of an earlier group of the module, or one of this group. *)
Definition edge_ok (known : Z -> Prop) (map : list Z) (start end_ : Z) (i : EngineOrModuleTypeIndex) : Prop :=
  match i with
  | Engine j => known j
  | Module_ m => 0 <= m < end_ /\ (m < start -> exists j, map !! Z.to_nat m = Some j /\ known j)
  | RecGroup _ => False
  end.

(** Where they lead in the key, and in the stored types. *)
Definition key_ix (map : list Z) (start : Z) (i : EngineOrModuleTypeIndex) : EngineOrModuleTypeIndex :=
  match i with
  | Module_ m => if start <=? m then RecGroup (m - start) else Engine (from_option id 0 (map !! Z.to_nat m))
  | i => i
  end.
Definition run_ix (map : list Z) (start engine_start : Z) (i : EngineOrModuleTypeIndex) : EngineOrModuleTypeIndex :=
  match i with
  | Module_ m => if m <? start then Engine (from_option id 0 (map !! Z.to_nat m))
                 else Engine (engine_start + (m - start))
  | i => i
  end.

Section Group.
  Context (known : Z -> Prop) (map : list Z) (start end_ : Z).
  Notation ok := (edge_ok known map start end_).

Lemma canonical_key_ok (ty : WasmSubType) :
  Forall ok (edges ty) ->
  exists k, canonicalize_for_hash_consing dbg start end_ (module_to_key dbg map start) ty = Ok k /\
    edges k = List.map (key_ix map start) (edges ty) /\
    forall g h : EngineOrModuleTypeIndex -> outcome reg_error EngineOrModuleTypeIndex,
      (forall i, i ∈ edges ty -> g (key_ix map start i) = h i) -> trace_mut g k = trace_mut h ty.
Proof.
  intros Hok. unfold canonicalize_for_hash_consing.
  match goal with |- context [trace_mut ?f ty] =>
    destruct (trace_mut_ok f ty (List.map (key_ix map start) (edges ty))) as (k & Hk & He & Hf) end.
  - apply Forall2_fmap_r, Forall_Forall2_diag. eapply Forall_impl; [exact Hok|].
    intros [j|m|j]; cbn; [done| |done]. intros [Hm Hmap]. destruct (start <=? m) eqn:Hs; zbool.
    + by rewrite debug_assert_true by (apply Z.ltb_lt; lia).
    + rewrite debug_assert_true by (apply Z.ltb_lt; lia). cbn [mbind outcome_bind].
      unfold module_to_key. rewrite debug_assert_true by (apply Z.ltb_lt; lia). cbn [mbind outcome_bind].
      unfold map_index. rewrite (proj2 (Z.ltb_ge m 0)) by lia.
      destruct Hmap as (j & Hj & _); [lia|]. by rewrite Hj.
  - exists k. split; [done|]. split; [done|]. intros g h Hgh. apply Hf.
    apply Forall2_fmap_r, Forall_Forall2_diag, Forall_forall. exact Hgh.
Qed.

Lemma canonical_run_ok engine_start (ty : WasmSubType) :
  0 <= engine_start -> engine_start + (end_ - start) <= u32_max ->
  Forall ok (edges ty) ->
  exists t, canonicalize_for_runtime_usage (module_to_engine dbg oc map start engine_start) ty = Ok t /\
    edges t = List.map (run_ix map start engine_start) (edges ty) /\
    is_canonicalized_for_runtime_usage t = true /\
    trace_mut (fun i => Ok (E:=reg_error) (run_ix map start engine_start i)) ty = Ok t.
Proof.
  intros He0 Hb Hok. unfold canonicalize_for_runtime_usage.
  assert (Hf : Forall (fun i => match i with
      | Engine _ => Ok i
      | Module_ m => e ← module_to_engine dbg oc map start engine_start m; Ok (Engine e)
      | RecGroup _ => Panic end = Ok (E:=reg_error) (run_ix map start engine_start i)) (edges ty)).
  { eapply Forall_impl; [exact Hok|].
    intros [j|m|j]; cbn; [done| |done]. intros [Hm Hmap]. unfold module_to_engine.
    destruct (m <? start) eqn:Hs; zbool.
    - unfold map_index. rewrite (proj2 (Z.ltb_ge m 0)) by lia. destruct Hmap as (j & Hj & _); [lia|]. by rewrite Hj.
    - unfold u32_max in *. rewrite !arith_ok by (unfold in_u; lia). cbn [mbind outcome_bind].
      rewrite arith_ok by (unfold in_u; lia). cbn [mbind outcome_bind].
      by rewrite debug_assert_true by (apply Z.ltb_lt; lia). }
  match goal with |- context [trace_mut ?f ty] =>
    destruct (trace_mut_ok f ty (List.map (run_ix map start engine_start) (edges ty))) as (t & Ht & He & Hg) end.
  { by apply Forall2_fmap_r, Forall_Forall2_diag. }
  exists t. split; [done|]. split; [done|]. split.
  - unfold is_canonicalized_for_runtime_usage. rewrite He. apply forallb_forall.
    intros i Hi. apply in_map_iff in Hi as (j & <- & Hj).
    rewrite Forall_forall in Hok. apply list_elem_of_In in Hj. specialize (Hok j Hj).
    destruct j as [j|m|j]; cbn in *; [done| |done]. by destruct (m <? start).
  - rewrite <- Ht. apply trace_mut_ext. rewrite Forall_forall in Hf. intros i Hi. by rewrite Hf.
Qed.
End Group.
End Canonical.

(** Rewriting indices keeps what a trampoline is made of. *)
Section Shape.
  Context {E : Type} (f : EngineOrModuleTypeIndex -> outcome E EngineOrModuleTypeIndex).

Lemma trace_val_tramp (v v' : WasmValType) :
  trace_mut f v = Ok v' ->
  trampoline_val v' = trampoline_val v /\ (v' = trampoline_val v' <-> v = trampoline_val v).
Proof.
  destruct v as [| | | | |[n h]]; cbn; intros H; try (by injection H as <-).
  destruct h; cbn in H; outcome_inv; try done; split; try done; cbn; split; intros [=].
Qed.

Lemma trace_vals_tramp (l l' : list WasmValType) :
  trace_mut f l = Ok l' ->
  map trampoline_val l' = map trampoline_val l /\
  (Forall (fun v => v = trampoline_val v) l' <-> Forall (fun v => v = trampoline_val v) l).
Proof.
  revert l'. induction l as [|v l IH]; intros l' H; cbn [trace_mut list_trace trace_mut_list] in H.
  - by injection H as <-.
  - apply bind_Ok_inv in H as (v' & Hv & H). apply bind_Ok_inv in H as (m & Hl & H). injection H as <-.
    apply trace_val_tramp in Hv as [Hv1 Hv2]. destruct (IH m Hl) as [Hl1 Hl2].
    cbn [map]. rewrite Hv1, Hl1, !Forall_cons, Hv2, Hl2. done.
Qed.

Lemma trace_sub_tramp (t t' : WasmSubType) : trace_mut f t = Ok t' -> tramp_of t' = tramp_of t.
Proof.
  destruct t as [fin sup c]. cbn [trace_mut sub_trace is_final supertype composite_type]. intros H.
  apply bind_Ok_inv in H as (s' & _ & H). apply bind_Ok_inv in H as (c' & Hc & H). injection H as <-.
  unfold tramp_of, as_func. cbn [composite_type].
  destruct c as [a|g|a]; cbn [trace_mut composite_trace] in Hc; apply bind_Ok_inv in Hc as (d & Hd & Hc);
    injection Hc as <-; try done.
  cbn [trace_mut func_trace] in Hd. apply bind_Ok_inv in Hd as (p & Hp & Hd). apply bind_Ok_inv in Hd as (q & Hq & Hd).
  injection Hd as <-. apply trace_vals_tramp in Hp as [Hp1 Hp2]. apply trace_vals_tramp in Hq as [Hq1 Hq2].
  cbn. unfold trampoline_type. cbn [params returns]. rewrite Hp1, Hq1.
  match goal with |- (if ?a then _ else _) = (if ?b then _ else _) => assert (a = b) as -> end; [|done].
  apply eq_true_iff_eq. rewrite !is_trampoline_all. cbn [params returns]. by rewrite Hp2, Hq2.
Qed.

Lemma trace_sub_kind (t t' : WasmSubType) : trace_mut f t = Ok t' -> kind_of t' = kind_of t.
Proof.
  destruct t as [fin sup c]. cbn [trace_mut sub_trace is_final supertype composite_type]. intros H.
  apply bind_Ok_inv in H as (s' & _ & H). apply bind_Ok_inv in H as (c' & Hc & H). injection H as <-.
  destruct c as [a|g|a]; cbn [trace_mut composite_trace] in Hc; apply bind_Ok_inv in Hc as (d & Hd & Hc);
    by injection Hc as <-.
Qed.

Lemma trace_sub_supertype (t t' : WasmSubType) :
  trace_mut f t = Ok t' ->
  match supertype t with
  | Some s => exists s', supertype t' = Some s' /\ f s = Ok s'
  | None => supertype t' = None
  end.
Proof.
  destruct t as [fin [s|] c]; cbn [trace_mut sub_trace is_final supertype composite_type]; intros H;
    apply bind_Ok_inv in H as (s' & Hs & H); apply bind_Ok_inv in H as (c' & _ & H); injection H as <-; cbn.
  - apply bind_Ok_inv in Hs as (j & Hj & Hs). injection Hs as <-. by exists j.
  - by injection Hs as <-.
Qed.
End Shape.

(** ** Counting the new references *)

Lemma incref_indices_ok L l : forall r R,
  (forall i, i ∈ l -> exists e, target r i = Some e /\ e ∈ L) ->
  counts_ok (arcs r) L [] R -> Z.of_nat (length l + length R) < 2 ^ 64 ->
  exists r', incref_indices r l = Ok r' /\ recounted r r' /\ drop_stack r' = drop_stack r /\
    counts_ok (arcs r') L [] (omap (target r) l ++ R).
Proof.
  induction l as [|i l IH]; intros r R Ht Hc Hb.
  { exists r. split; [done|]. split; [apply recounted_refl|done]. }
  destruct (Ht i) as (e & He & HeL); [set_solver|]. cbn [length] in Hb.
  destruct (incref_ok r L R e Hc HeL) as (r1 & H1 & Hr1 & Hst1 & Hc1); [lia|].
  pose proof (recounted_target r r1 Hr1) as Ht1.
  destruct (IH r1 (e :: R)) as (r2 & H2 & Hr2 & Hst2 & Hc2); [| exact Hc1 | cbn [length]; lia|].
  { intros j Hj. rewrite Ht1. apply Ht. set_solver. }
  exists r2. cbn [incref_indices]. unfold entry_of. unfold target in He. rewrite He.
  cbn [unwrap mbind outcome_bind]. rewrite H1. cbn [mbind outcome_bind]. split; [exact H2|].
  split; [by eapply recounted_trans|]. split; [by rewrite Hst2|].
  cbn [omap list_omap]. unfold target at 1. rewrite He.
  rewrite (list_omap_ext (target r1) (target r) l l) in Hc2;
    [|by apply Forall_Forall2_diag, Forall_true].
  cbn [app]. by rewrite Permutation_middle.
Qed.

(** ** The new types *)

Section Insert.
  Context (dbg oc : bool) (min_cap : Z) (Hmin : min_cap <= 16).
  Implicit Types r : TypeRegistryInner.

(** Room for [n] more types. *)
Definition roomy r (n : nat) : Prop :=
  cap (types r) <= 2 * Z.of_nat (length (entries (types r))) + 16 /\
  Z.of_nat (length (entries (types r)) + n) <= 2 ^ 30.

(** The registry with the types [ts] under the new indices [l]. *)
Record inserted r (l : list Z) (ts : list WasmSubType) r' : Prop := {
  in_fields : arcs r' = arcs r /\ hash_consing_map r' = hash_consing_map r /\
    type_to_rec_group r' = type_to_rec_group r /\ type_to_trampoline r' = type_to_trampoline r /\
    drop_stack r' = drop_stack r;
  in_length : length l = length ts;
  in_nodup : NoDup l;
  in_fresh i : i ∈ l -> 0 <= i /\ Slab.view (types r) !! (i + 1) = None;
  in_view k i t : l !! k = Some i -> ts !! k = Some t -> Slab.view (types r') !! (i + 1) = Some t;
  in_other j : 0 <= j -> j ∉ l -> Slab.view (types r') !! (j + 1) = Slab.view (types r) !! (j + 1);
  in_slab : slab_inv (types r');
  in_supers_other j : j ∉ l -> type_to_supertypes r' !! j = type_to_supertypes r !! j;
  in_supers k i t : l !! k = Some i -> ts !! k = Some t ->
    match supertype t with
    | Some (Engine s) => s ∉ drop k l -> type_to_supertypes r' !! i = Some (supertypes r' s ++ [s])
    | _ => type_to_supertypes r' !! i = type_to_supertypes r !! i
    end;
  in_roomy n : roomy r (length l + n) -> roomy r' n;
  in_dense : free (types r) = None ->
    free (types r') = None /\ slen (types r') = slen (types r) + Z.of_nat (length l) /\
    forall k i, l !! k = Some i -> i = slen (types r) + Z.of_nat k
}.

Lemma roomy_alloc r t :
  slab_inv (types r) -> roomy r 1 ->
  exists i s', Slab.alloc (E:=reg_error) oc min_cap (types r) t = Ok (key i, s') /\
    next_id (E:=reg_error) (types r) = Ok (key i) /\ slab_inv s' /\
    Slab.view (types r) !! key i = None /\ Slab.view s' = <[key i := t]> (Slab.view (types r)) /\
    slab_id_to_shared_type_index (key i) = Ok (Z.of_nat i).
Proof.
  intros Hs [Hcap Hlen]. pose proof (slab_alloc_ok (E:=reg_error) oc min_cap (types r) t Hs) as Ha.
  rewrite (proj2 (orb_true_iff _ _)) in Ha; last first.
  { destruct (has_room (types r)) eqn:Hr; [by left|right]. unfold has_room in Hr.
    destruct (free (types r)); [done|]. zbool. apply Z.leb_le.
    unfold grown, MIN_CAPACITY, MAX_CAPACITY, u32_max. lia. }
  destruct Ha as (id & s' & Ha & Hn & Hs' & Hv & Hv').
  assert (Hin : Slab.view s' !! id = Some t) by (rewrite Hv'; apply lookup_insert_eq).
  apply view_lookup_Some in Hin as [Hge Hin]. apply lookup_lt_Some in Hin.
  destruct Hs' as [Hch Hle Hcp] eqn:E1. clear E1.
  exists (entry_index id), s'. assert (Hk : key (entry_index id) = id) by (unfold key, entry_index; lia).
  rewrite Hk. split_and!; try done.
  unfold slab_id_to_shared_type_index, into_raw, checked, MAX_CAPACITY, u32_max in *.
  rewrite in_ub_true by (unfold in_u; lia). cbn [unwrap mbind outcome_bind].
  rewrite (proj2 (Z.eqb_neq _ _)) by lia. done.
Qed.

(** The list of supertypes of a new type. *)
Definition with_supers r (i : Z) (t : WasmSubType) : TypeRegistryInner :=
  match supertype t with
  | Some (Engine s) => set_supertypes r (<[i := supertypes r s ++ [s]]> (type_to_supertypes r))
  | _ => r
  end.

Lemma canonical_supertype t s :
  is_canonicalized_for_runtime_usage t = true -> supertype t = Some s -> exists j, s = Engine j.
Proof.
  intros H Hs. unfold is_canonicalized_for_runtime_usage in H. rewrite forallb_forall in H.
  specialize (H s). assert (Hin : In s (edges t)).
  { destruct t as [fin sup c]. cbn in Hs. subst sup. by left. }
  specialize (H Hin). destruct s; try done. by eexists.
Qed.

Lemma insert_one_ok r t :
  slab_inv (types r) -> roomy r 1 -> is_canonicalized_for_runtime_usage t = true ->
  exists i r', insert_one_type_from_rec_group oc min_cap r t = Ok (i, r') /\ inserted r [i] [t] r'.
Proof.
  intros Hs Hroom Hcan. unfold insert_one_type_from_rec_group. rewrite Hcan. cbn [assert_ mbind outcome_bind].
  destruct (roomy_alloc r t Hs Hroom) as (i & s' & Ha & Hn & Hs' & Hv & Hv' & Hix).
  destruct (alloc_size oc min_cap Hmin _ _ _ _ Hs Ha (proj1 Hroom)) as (Hc' & Hl' & Hf').
  rewrite Ha. cbn [mbind outcome_bind]. rewrite Hix. cbn [mbind outcome_bind].
  exists (Z.of_nat i), (with_supers (set_types r s') (Z.of_nat i) t). split.
  { unfold with_supers. destruct (supertype t) as [s|] eqn:Hst; [|done].
    destruct (canonical_supertype t s Hcan Hst) as [j ->]. done. }
  assert (Htys : types (with_supers (set_types r s') (Z.of_nat i) t) = s').
  { unfold with_supers. by destruct (supertype t) as [[]|]. }
  split; rewrite ?Htys; try done.
  - unfold with_supers. by destruct (supertype t) as [[]|].
  - apply list.NoDup_singleton.
  - intros j ->%list_elem_of_singleton. split; [lia|done].
  - intros [|k] j u [=<-] [=<-]. rewrite Hv'. apply lookup_insert_eq.
  - intros j Hj Hne. rewrite Hv', lookup_insert_ne; [done|]. unfold key. intros ?.
    apply Hne, list_elem_of_singleton. lia.
  - intros j Hne. unfold with_supers. destruct (supertype t) as [[s| |]|]; try done.
    cbn. rewrite lookup_insert_ne by set_solver. done.
  - intros [|k] j u [=<-] [=<-]. unfold with_supers. destruct (supertype t) as [[s| |]|]; try done.
    cbn. intros Hne. rewrite lookup_insert_eq. unfold supertypes. cbn.
    rewrite lookup_insert_ne by set_solver. done.
  - intros n [_ Hlen]. unfold roomy. rewrite Htys. cbn [length] in Hlen. lia.
  - intros Hfree. destruct (Hf' Hfree) as [Hf1 Hf2]. split; [done|].
    unfold next_id in Hn. rewrite Hfree in Hn. apply entry_new_inv in Hn.
    assert (Hle : slen s' = slen (types r) + 1).
    { destruct Hs as [_ Hl1 Hcp]. pose proof (count_le (entries (types r))).
      rewrite arith_ok in Hf2 by (unfold in_u, MAX_CAPACITY, u32_max in *; lia). congruence. }
    split; [done|]. intros [|k] j [=<-].
    destruct Hs as [_ Hl1 _]. pose proof (count_le (entries (types r))).
    unfold key, Slab.len in Hn. lia.
Qed.

Lemma inserted_nil r : slab_inv (types r) -> inserted r [] [] r.
Proof.
  intros Hs. split; try done.
  - constructor.
  - intros i Hi. set_solver.
  - intros Hf. split; [done|]. split; [cbn; lia|done].
Qed.

Lemma inserted_cons r i t r1 l ts r2 :
  inserted r [i] [t] r1 -> inserted r1 l ts r2 -> inserted r (i :: l) (t :: ts) r2.
Proof.
  intros H1 H2. assert (Hil : i ∉ l).
  { intros Hin. destruct (in_fresh _ _ _ _ H2 i Hin) as [_ Hn].
    by rewrite (in_view _ _ _ _ H1 0 i t) in Hn. }
  assert (Hi0 : 0 <= i) by (apply (in_fresh _ _ _ _ H1 i); set_solver).
  split.
  - destruct (in_fields _ _ _ _ H1) as (A1 & A2 & A3 & A4 & A5).
    destruct (in_fields _ _ _ _ H2) as (B1 & B2 & B3 & B4 & B5). split_and!; congruence.
  - cbn. by rewrite (in_length _ _ _ _ H2).
  - apply list.NoDup_cons. split; [done|]. apply H2.
  - intros j [->|Hj]%elem_of_cons; [apply H1; set_solver|].
    destruct (in_fresh _ _ _ _ H2 j Hj) as [Hj0 Hn]. split; [done|].
    rewrite (in_other _ _ _ _ H1) in Hn; [done|done|]. set_solver.
  - intros [|k] j u Hj Hu; cbn in Hj, Hu.
    + injection Hj as <-. injection Hu as <-. rewrite (in_other _ _ _ _ H2) by done.
      by apply (in_view _ _ _ _ H1 0).
    + by apply (in_view _ _ _ _ H2 k).
  - intros j Hj Hne. rewrite (in_other _ _ _ _ H2), (in_other _ _ _ _ H1) by (done || set_solver). done.
  - apply H2.
  - intros j Hne. rewrite (in_supers_other _ _ _ _ H2), (in_supers_other _ _ _ _ H1) by set_solver. done.
  - intros [|k] j u Hj Hu; cbn in Hj, Hu.
    + injection Hj as <-. injection Hu as <-. pose proof (in_supers _ _ _ _ H1 0 i t eq_refl eq_refl) as Hsup.
      rewrite (in_supers_other _ _ _ _ H2) by done. destruct (supertype t) as [[s| |]|]; try done.
      intros Hs. cbn in Hs. unfold supertypes. rewrite (in_supers_other _ _ _ _ H2) by set_solver.
      apply Hsup. cbn. set_solver.
    + pose proof (in_supers _ _ _ _ H2 k j u Hj Hu) as Hsup. destruct (supertype u) as [[s| |]|];
        try (rewrite Hsup; apply (in_supers_other _ _ _ _ H1); apply list_elem_of_lookup_2 in Hj; set_solver).
      exact Hsup.
  - intros n Hr. apply (in_roomy _ _ _ _ H2). apply (in_roomy _ _ _ _ H1). cbn [length] in *.
    unfold roomy in *. replace (1 + (length l + n))%nat with (S (length l) + n)%nat by lia. done.
  - intros Hf. destruct (in_dense _ _ _ _ H1 Hf) as (Hf1 & Hl1 & Hx1).
    destruct (in_dense _ _ _ _ H2 Hf1) as (Hf2 & Hl2 & Hx2). split; [done|].
    cbn [length] in *. split; [lia|]. intros [|k] j Hj; cbn in Hj.
    + injection Hj as <-. by apply (Hx1 0%nat).
    + apply Hx2 in Hj. lia.
Qed.

Section Group.
  Context (known : Z -> Prop) (map : list Z) (start end_ : Z).

Definition type_ok (ty : WasmSubType) : Prop := Forall (edge_ok known map start end_) (edges ty).

(** A type of the group and its key. *)
Definition keyed (ty k : WasmSubType) : Prop :=
  edges k = List.map (key_ix map start) (edges ty) /\
  forall g h : EngineOrModuleTypeIndex -> outcome reg_error EngineOrModuleTypeIndex,
    (forall i, i ∈ edges ty -> g (key_ix map start i) = h i) -> trace_mut g k = trace_mut h ty.

Lemma canonical_keys_ok tys :
  Forall type_ok tys -> exists ks, canonical_keys dbg map start end_ tys = Ok ks /\ Forall2 keyed tys ks.
Proof.
  induction 1 as [|ty tys Hty Htys (ks & Hks & IH)]; [by exists []|].
  destruct (canonical_key_ok dbg known map start end_ ty Hty) as (k & Hk & He).
  exists (k :: ks). cbn [canonical_keys]. rewrite Hk. cbn [mbind outcome_bind]. rewrite Hks. cbn [mbind outcome_bind].
  split; [done|]. by constructor.
Qed.

(** A type of the group and what is stored for it. *)
Definition stored (engine_start : Z) (ty t : WasmSubType) : Prop :=
  trace_mut (fun i => Ok (E:=reg_error) (run_ix map start engine_start i)) ty = Ok t.

Lemma insert_types_ok engine_start tys :
  0 <= engine_start -> engine_start + (end_ - start) <= u32_max -> Forall type_ok tys -> forall r,
  slab_inv (types r) -> roomy r (length tys) ->
  exists l ts r', insert_types dbg oc min_cap r map start engine_start tys = Ok (l, r') /\
    inserted r l ts r' /\ Forall2 (stored engine_start) tys ts.
Proof.
  intros He0 Hb. induction 1 as [|ty tys Hty Htys IH]; intros r Hs Hroom.
  { exists [], [], r. split; [done|]. split; [by apply inserted_nil|constructor]. }
  destruct (canonical_run_ok dbg oc known map start end_ engine_start ty He0 Hb Hty)
    as (t & Ht & _ & Hcan & Hst).
  destruct (insert_one_ok r t Hs) as (i & r1 & H1 & Hi1); [|done|].
  { unfold roomy in *. cbn [length] in Hroom. lia. }
  destruct (IH r1) as (l & ts & r2 & H2 & Hi2 & Hf); [apply Hi1| |].
  { apply (in_roomy _ _ _ _ Hi1). cbn [length] in *. done. }
  exists (i :: l), (t :: ts), r2. cbn [insert_types]. rewrite Ht. cbn [mbind outcome_bind].
  rewrite H1. cbn [mbind outcome_bind]. rewrite H2. cbn [mbind outcome_bind].
  split; [done|]. split; [by eapply inserted_cons|by constructor].
Qed.
End Group.

End Insert.

(** ** A group is added *)

(** The registry keeps all it has. *)
Record grows (r r' : TypeRegistryInner) : Prop := {
  gr_arcs e x : arcs r !! e = Some x -> exists x', arcs r' !! e = Some x' /\ strip x' = strip x;
  gr_live e : e ∈ live r -> e ∈ live r';
  gr_target i e : target r i = Some e -> target r' i = Some e;
  gr_view i : is_Some (target r i) -> Slab.view (types r') !! (i + 1) = Slab.view (types r) !! (i + 1);
  gr_supers i : is_Some (target r i) -> type_to_supertypes r' !! i = type_to_supertypes r !! i;
  gr_tramp i : is_Some (target r i) -> type_to_trampoline r' !! i = type_to_trampoline r !! i;
  gr_live_inv e : e ∈ live r' -> e ∈ live r \/ (length (arcs r) <= e)%nat
}.

Lemma grows_recounted r r' : recounted r r' -> grows r r'.
Proof.
  intros Hr. pose proof (recounted_fields _ _ Hr) as (Hm & Hty & Hg & Hst & Htr).
  destruct Hr as (a & s & -> & Ha). split; try done; [|by left].
  intros e x Hx. destruct (strip_lookup _ _ _ _ Ha Hx) as (x' & Hx' & Hk & Hs). exists x'.
  unfold strip. by rewrite Hk, Hs.
Qed.

Lemma grows_trans r1 r2 r3 : grows r1 r2 -> grows r2 r3 -> grows r1 r3.
Proof.
  intros H1 H2.
  assert (Ht : forall i, is_Some (target r1 i) -> is_Some (target r2 i)).
  { intros i [e He]. exists e. by apply H1. }
  split.
  - intros e x Hx. destruct (gr_arcs _ _ H1 e x Hx) as (y & Hy & Hyx).
    destruct (gr_arcs _ _ H2 e y Hy) as (z & Hz & Hzy). exists z. split; [done|congruence].
  - intros e He. by apply H2, H1.
  - intros i e He. by apply H2, H1.
  - intros i Hi. rewrite (gr_view _ _ H2), (gr_view _ _ H1); auto.
  - intros i Hi. rewrite (gr_supers _ _ H2), (gr_supers _ _ H1); auto.
  - intros i Hi. rewrite (gr_tramp _ _ H2), (gr_tramp _ _ H1); auto.
  - intros e [He|He]%(gr_live_inv _ _ H2).
    + by apply (gr_live_inv _ _ H1).
    + right. assert (length (arcs r1) <= length (arcs r2))%nat; [|lia].
      destruct (decide (length (arcs r1) = 0)%nat) as [->|Hn]; [lia|].
      destruct (lookup_lt_is_Some_2 (arcs r1) (length (arcs r1) - 1)) as [x Hx]; [lia|].
      destruct (gr_arcs _ _ H1 _ x Hx) as (y & Hy & _). apply lookup_lt_Some in Hy. lia.
Qed.

Lemma grows_key r r' e k : grows r r' -> key_of r e = Some k -> key_of r' e = Some k.
Proof.
  intros Hg. unfold key_of. intros H. apply fmap_Some in H as (x & Hx & ->).
  destruct (gr_arcs _ _ Hg e x Hx) as (y & -> & Hy). cbn. f_equal. unfold strip in Hy. congruence.
Qed.
Lemma grows_shared r r' e : grows r r' -> is_Some (arcs r !! e) -> shared r' e = shared r e.
Proof.
  intros Hg [x Hx]. unfold shared. destruct (gr_arcs _ _ Hg e x Hx) as (y & -> & Hy). rewrite Hx. cbn.
  unfold strip in Hy. congruence.
Qed.

(** The registry [r] with the group [key] of the types [l] as a new entry [e]. *)
Record added (r : TypeRegistryInner) (e : nat) (key : WasmRecGroup) (l : list Z) (r' : TypeRegistryInner) : Prop := {
  ad_arcs : strip <$> arcs r' = (strip <$> arcs r) ++ [(key, l)];
  ad_entry : e = length (arcs r);
  ad_map : live r' = e :: live r;
  ad_target j : target r' j = if decide (j ∈ l) then Some e else target r j;
  ad_tramp : type_to_trampoline r' = type_to_trampoline r;
  ad_fresh i : i ∈ l -> 0 <= i /\ Slab.view (types r) !! (i + 1) = None;
  ad_nodup : NoDup l;
  ad_view j : 0 <= j -> j ∉ l -> Slab.view (types r') !! (j + 1) = Slab.view (types r) !! (j + 1);
  ad_new k i : l !! k = Some i -> exists t, Slab.view (types r') !! (i + 1) = Some t /\
    forall kty, rec_types key !! k = Some kty -> kind_of t = kind_of kty;
  ad_slab : slab_inv (types r');
  ad_supers j : j ∉ l -> type_to_supertypes r' !! j = type_to_supertypes r !! j
}.

Section Added.
  Context r e key l r' (Hs : shape r) (Ha : added r e key l r').
  Context (Hget : map_get r key = None) (Hcan : is_canonicalized_for_hash_consing key = true)
    (Hlen : length l = length (rec_types key))
    (Hidx : forall i, i ∈ engine_indices key -> is_Some (target r i)).

Lemma added_not_new i : is_Some (target r i) -> i ∉ l.
Proof.
  intros Ht Hin. destruct (ad_fresh _ _ _ _ _ Ha i Hin) as [_ Hn].
  destruct (proj1 (sh_types _ Hs i) Ht) as [_ [? ?]]. congruence.
Qed.

Lemma added_target i : is_Some (target r i) -> target r' i = target r i.
Proof. intros Ht. rewrite (ad_target _ _ _ _ _ Ha), decide_False by (by apply added_not_new). done. Qed.

Lemma added_strip e' : (strip <$> arcs r') !! e' = ((strip <$> arcs r) ++ [(key, l)]) !! e'.
Proof. by rewrite (ad_arcs _ _ _ _ _ Ha). Qed.

Lemma added_old e' : (e' < length (arcs r))%nat -> key_of r' e' = key_of r e' /\ shared r' e' = shared r e'.
Proof.
  intros Hlt. pose proof (added_strip e') as H. rewrite lookup_app_l in H by (by rewrite length_fmap).
  rewrite !list_lookup_fmap in H. unfold key_of, shared, strip in *.
  destruct (arcs r' !! e'), (arcs r !! e'); cbn in *; split; congruence.
Qed.

Lemma added_new : key_of r' e = Some key /\ shared r' e = l.
Proof.
  pose proof (added_strip e) as H. rewrite (ad_entry _ _ _ _ _ Ha) in *.
  rewrite lookup_app_r in H by (by rewrite length_fmap). rewrite length_fmap, Nat.sub_diag in H.
  rewrite list_lookup_fmap in H. unfold key_of, shared, strip in *.
  destruct (arcs r' !! length (arcs r)); cbn in *; split; congruence.
Qed.

Lemma added_lt e' : e' ∈ live r -> (e' < length (arcs r))%nat.
Proof. intros He. destruct (sh_arcs _ Hs e' He) as [x Hx]. by apply lookup_lt_Some in Hx. Qed.

Lemma added_live e' : e' ∈ live r' <-> e' = e \/ e' ∈ live r.
Proof. rewrite (ad_map _ _ _ _ _ Ha). apply elem_of_cons. Qed.

Lemma added_get e' : e' ∈ live r -> key_of r e' <> Some key.
Proof.
  intros He Hk. unfold key_of in Hk. apply fmap_Some in Hk as (x & Hx & ->).
  rewrite (map_get_key r e' x Hs He Hx) in Hget. done.
Qed.

Lemma added_out_old e' : e' ∈ live r -> out r' e' = out r e'.
Proof.
  intros He'. destruct (added_old e' (added_lt e' He')) as [Hk Hsh].
  unfold out, key_indices. rewrite Hk, Hsh. f_equal.
  - apply list_omap_ext, Forall_Forall2_diag, Forall_forall. intros i Hi.
    destruct (sh_edges _ Hs e' i He' Hi) as (y & Hy & _). apply added_target. by exists y.
  - apply list_omap_ext, Forall_Forall2_diag, Forall_forall. intros i Hi. unfold tramp_target.
    rewrite (ad_tramp _ _ _ _ _ Ha). destruct (type_to_trampoline r !! i) as [t|] eqn:Hit; [|done]. cbn.
    destruct (sh_tramp _ Hs i t Hit) as (_ & _ & _ & _ & y & _ & _ & _ & _ & Hy & _).
    apply added_target. by exists y.
Qed.

Lemma added_tramp_new i : i ∈ l -> type_to_trampoline r' !! i = None.
Proof.
  intros Hi. rewrite (ad_tramp _ _ _ _ _ Ha). destruct (type_to_trampoline r !! i) as [t|] eqn:Hit; [|done].
  destruct (sh_tramp _ Hs i t Hit) as (x & k & _ & _ & _ & Hk & Hx & _).
  exfalso. apply (added_not_new i); [|done]. exists x. apply (sh_target _ Hs). split; [done|].
  by eapply list_elem_of_lookup_2.
Qed.

Lemma added_out_new : out r' e = omap (target r) (engine_indices key).
Proof.
  destruct added_new as [Hk Hsh]. unfold out, key_indices. rewrite Hk, Hsh. cbn [from_option].
  rewrite (list_omap_ext (tramp_target r') (fun _ => None) l l).
  - rewrite (list_omap_ext (target r') (target r) (engine_indices key) (engine_indices key)).
    + rewrite <- (app_nil_r (omap (target r) (engine_indices key))) at 2. f_equal. clear. by induction l.
    + apply Forall_Forall2_diag, Forall_forall. intros i Hi. by apply added_target, Hidx.
  - apply Forall_Forall2_diag, Forall_forall. intros i Hi. unfold tramp_target. by rewrite added_tramp_new.
Qed.

Lemma added_shape : shape r'.
Proof.
  destruct added_new as [Hkn Hsn]. pose proof (ad_entry _ _ _ _ _ Ha) as He.
  assert (Hnl : e ∉ live r) by (intros Hin%added_lt; lia).
  split.
  - rewrite (ad_map _ _ _ _ _ Ha). apply list.NoDup_cons. split; [done|apply Hs].
  - intros x [->|Hx]%added_live.
    + unfold key_of in Hkn. apply fmap_Some in Hkn as (y & ? & _). by exists y.
    + destruct (sh_arcs _ Hs x Hx) as [y Hy]. destruct (added_old x (added_lt x Hx)) as [Hk _].
      unfold key_of in Hk. rewrite Hy in Hk. destruct (arcs r' !! x); [done|discriminate].
  - intros x y [->|Hx]%added_live [->|Hy]%added_live; try done.
    + rewrite Hkn. destruct (added_old y (added_lt y Hy)) as [-> _]. intros Hk. by apply (added_get y) in Hy.
    + rewrite Hkn. destruct (added_old x (added_lt x Hx)) as [-> _]. intros Hk. by apply (added_get x) in Hx.
    + destruct (added_old x (added_lt x Hx)) as [-> _]. destruct (added_old y (added_lt y Hy)) as [-> _].
      by apply (sh_keys _ Hs).
  - intros x y [->|Hx]%added_live Hy.
    + unfold key_of, shared in Hkn, Hsn. rewrite Hy in Hkn, Hsn. cbn in Hkn, Hsn.
      injection Hkn as ->. by rewrite Hsn.
    + destruct (sh_arcs _ Hs x Hx) as [z Hz]. destruct (added_old x (added_lt x Hx)) as [Hk Hsh].
      unfold key_of, shared in Hk, Hsh. rewrite Hy, Hz in Hk, Hsh. cbn in Hk, Hsh. injection Hk as ->. rewrite Hsh.
      by apply (sh_canon _ Hs x).
  - intros i x. rewrite added_live, (ad_target _ _ _ _ _ Ha). destruct (decide (i ∈ l)) as [Hi|Hi].
    + split.
      * intros [= <-]. rewrite Hsn. auto.
      * intros [[->|Hx] Hin]; [done|]. exfalso. apply (added_not_new i); [|done].
        destruct (added_old x (added_lt x Hx)) as [_ Hsh]. rewrite Hsh in Hin.
        exists x. by apply (sh_target _ Hs).
    + rewrite (sh_target _ Hs). split.
      * intros [Hx Hin]. destruct (added_old x (added_lt x Hx)) as [_ ->]. auto.
      * intros [[->|Hx] Hin]; [rewrite Hsn in Hin; done|].
        destruct (added_old x (added_lt x Hx)) as [_ Hsh]. rewrite Hsh in Hin. done.
  - intros x [->|Hx]%added_live; [rewrite Hsn; apply Ha|].
    destruct (added_old x (added_lt x Hx)) as [_ ->]. by apply (sh_nodup _ Hs).
  - apply Ha.
  - intros i. rewrite (ad_target _ _ _ _ _ Ha). destruct (decide (i ∈ l)) as [Hi|Hi].
    + split; [|done]. intros _. split; [by apply (ad_fresh _ _ _ _ _ Ha i)|].
      apply list_elem_of_lookup in Hi as [k Hk]. destruct (ad_new _ _ _ _ _ Ha k i Hk) as (t & ? & _). by exists t.
    + rewrite (sh_types _ Hs). split; intros [Hi0 Hv]; (split; [done|]).
      * by rewrite (ad_view _ _ _ _ _ Ha).
      * by rewrite (ad_view _ _ _ _ _ Ha) in Hv.
  - intros x i [->|Hx]%added_live Hi.
    + unfold key_indices in Hi. rewrite Hkn in Hi. destruct (Hidx i Hi) as [y Hy]. exists y.
      rewrite added_target, Hy by (by exists y). split; [done|].
      apply (sh_target _ Hs) in Hy as [Hy _]. apply added_lt in Hy. lia.
    + unfold key_indices in Hi. destruct (added_old x (added_lt x Hx)) as [Hk _]. rewrite Hk in Hi.
      destruct (sh_edges _ Hs x i Hx Hi) as (y & Hy & Hlt). exists y. by rewrite added_target by (by exists y).
  - intros i t. rewrite (ad_tramp _ _ _ _ _ Ha). intros Hit.
    destruct (sh_tramp _ Hs i t Hit) as (x & k & kty & g & y & H1 & H2 & H3 & H4 & H5 & H6).
    assert (Hy : y ∈ live r) by (by apply (sh_target _ Hs) in H5 as [? _]).
    destruct (added_old x (added_lt x H2)) as [Hkx Hsx]. destruct (added_old y (added_lt y Hy)) as [Hky _].
    exists x, k, kty, g, y. rewrite Hsx, Hkx, Hky, added_target by (by exists y).
    split_and!; try done. apply added_live. by right.
  - intros i Hi. rewrite (ad_target _ _ _ _ _ Ha). destruct (decide (i ∈ l)) as [|Hn]; [done|].
    rewrite (ad_supers _ _ _ _ _ Ha) in Hi by done. by apply (sh_supers _ Hs).
  - intros x key' k kty i [->|Hx]%added_live Hk' Hkty Hi.
    + rewrite Hkn in Hk'. injection Hk' as <-. rewrite Hsn in Hi.
      destruct (ad_new _ _ _ _ _ Ha k i Hi) as (t & ? & ?). exists t. auto.
    + destruct (added_old x (added_lt x Hx)) as [Hko Hso]. rewrite Hko in Hk'. rewrite Hso in Hi.
      destruct (sh_kind _ Hs x key' k kty i Hx Hk' Hkty Hi) as (t & Ht & Hkd). exists t. split; [|done].
      assert (Hti : is_Some (target r i)).
      { exists x. apply (sh_target _ Hs). split; [done|by eapply list_elem_of_lookup_2]. }
      rewrite (ad_view _ _ _ _ _ Ha); [done|by apply (sh_types _ Hs)|by apply added_not_new].
Qed.

Lemma added_grows : grows r r'.
Proof.
  split.
  - intros x y Hy. pose proof (added_strip x) as H. pose proof (lookup_lt_Some _ _ _ Hy).
    rewrite lookup_app_l in H by (by rewrite length_fmap). rewrite !list_lookup_fmap, Hy in H.
    destruct (arcs r' !! x) as [z|]; [|done]. exists z. split; [done|]. cbn in H. congruence.
  - intros x Hx. apply added_live. by right.
  - intros i x Hx. by rewrite added_target by (by exists x).
  - intros i Hi. apply (ad_view _ _ _ _ _ Ha); [|by apply added_not_new]. by apply (sh_types _ Hs).
  - intros i Hi. apply (ad_supers _ _ _ _ _ Ha). by apply added_not_new.
  - intros i Hi. by rewrite (ad_tramp _ _ _ _ _ Ha).
  - intros x [->|Hx]%added_live; [right; by rewrite (ad_entry _ _ _ _ _ Ha)|by left].
Qed.
End Added.

Lemma counts_add a L refs E x :
  counts_ok a L [] (E ++ refs) -> (forall e, e ∈ L -> (e < length a)%nat) -> registrations x = 1 ->
  Z.of_nat (length (E ++ refs)) + 1 < 2 ^ 64 ->
  counts_ok (a ++ [x]) (length a :: L) [] (length a :: E ++ refs).
Proof.
  intros [H1 H2 H3 H4 H5] Hlt Hx Hb. split.
  - intros e [->|He]%elem_of_cons.
    + exists x. split; [by apply list_lookup_middle|]. rewrite occ_add, decide_True, Hx by done.
      assert (Hn : length a ∉ E ++ refs) by (intros ?%H2%Hlt; lia). apply occ_zero in Hn. lia.
    + destruct (H1 e He) as (y & Hy & Hr). exists y. split; [by apply lookup_app_l_Some|].
      rewrite occ_add, decide_False; [lia|]. apply Hlt in He. lia.
  - intros e [->|He]%elem_of_cons; [by left|]. right. auto.
  - intros e. split; [by intros ?%not_elem_of_nil|]. rewrite !not_elem_of_cons, elem_of_cons.
    intros [[->|He] [Hne Hn]]; [done|]. exfalso. apply (not_elem_of_nil e), H3. done.
  - done.
  - cbn [length]. lia.
Qed.

Section SetGroups.
  Context (dbg : bool).

Lemma set_rec_groups_ok e l : forall r,
  NoDup l -> (forall i, i ∈ l -> type_to_rec_group r !! i = None) ->
  exists m, set_rec_groups dbg r e l = Ok (set_groups r m) /\
    forall j, m !! j = if decide (j ∈ l) then Some e else type_to_rec_group r !! j.
Proof.
  induction l as [|i l IH]; intros r Hnd Hn.
  { exists (type_to_rec_group r). split; [by destruct r|done]. }
  apply list.NoDup_cons in Hnd as [Hil Hnd]. cbn [set_rec_groups].
  rewrite debug_assert_true by (apply bool_decide_eq_true_2, Hn; set_solver). cbn [mbind outcome_bind].
  destruct (IH (set_groups r (<[i := e]> (type_to_rec_group r))) Hnd) as (m & Hm & Hlk).
  { intros j Hj. cbn. rewrite lookup_insert_ne by (intros ->; done). apply Hn. set_solver. }
  exists m. rewrite Hm. split; [done|]. intros j. rewrite Hlk. cbn.
  destruct (decide (j ∈ l)) as [H1|H1], (decide (j ∈ i :: l)) as [H2|H2]; try reflexivity.
  - exfalso. by apply H2, elem_of_cons; right.
  - apply elem_of_cons in H2 as [->|]; [apply lookup_insert_eq|done].
  - rewrite lookup_insert_ne; [done|]. intros ->. by apply H2, elem_of_cons; left.
Qed.
End SetGroups.

Section AddGroup.
  Context (dbg oc : bool) (min_cap : Z) (Hmin : min_cap <= 16).
  Context (map : list Z) (start end_ : Z).
  Implicit Types r : TypeRegistryInner.

Notation registered r := (fun i => is_Some (target r i)).

Definition refs_of r (h : list nat) : list nat := h ++ (live r ≫= out r).

Lemma length_omap_le {A B} (f : A -> option B) l : (length (omap f l) <= length l)%nat.
Proof. induction l as [|x l IH]; cbn; [done|]. destruct (f x); cbn; lia. Qed.

Lemma map_get_ext r r' key :
  hash_consing_map r' = hash_consing_map r -> (forall e, e ∈ live r -> key_of r' e = key_of r e) ->
  map_get r' key = map_get r key.
Proof.
  intros Hm Hk. unfold map_get. rewrite Hm. unfold live in Hk. clear Hm.
  induction (hash_consing_map r) as [|e m IH]; [done|]. cbn [List.find].
  assert (Hke : key_of r' e = key_of r e) by (apply Hk; set_solver). unfold key_of in Hke.
  rewrite IH by (intros; apply Hk; set_solver).
  destruct (arcs r' !! e), (arcs r !! e); cbn in Hke; try done. by injection Hke as ->.
Qed.

Lemma add_group_ok r h key tys :
  reg_inv r h -> drop_stack r = [] -> map_get r key = None ->
  Forall (type_ok (registered r) map start end_) tys -> end_ - start = Z.of_nat (length tys) ->
  Forall2 (fun ty k => kind_of k = kind_of ty) tys (rec_types key) ->
  (forall i, i ∈ engine_indices key -> is_Some (target r i)) ->
  roomy r (length tys) -> Z.of_nat (length (engine_indices key) + length (refs_of r h)) + 1 < 2 ^ 64 ->
  exists l ts r1 r2 r', add_group dbg oc min_cap r map start key tys = Ok (length (arcs r), l, r') /\
    added r (length (arcs r)) key l r' /\ drop_stack r' = [] /\
    counts_ok (arcs r') (length (arcs r) :: live r) []
      (length (arcs r) :: omap (target r) (engine_indices key) ++ refs_of r h) /\
    recounted r r1 /\ inserted r1 l ts r2 /\ types r' = types r2 /\
    type_to_supertypes r' = type_to_supertypes r2 /\ Forall2 (stored map start (slen (types r))) tys ts.
Proof.
  intros [Hs Hc] Hst Hget Hok Hse Hlen Hidx Hroom Hb. rewrite Hst in Hc.
  destruct (incref_indices_ok (live r) (engine_indices key) r (refs_of r h)) as (r1 & H1 & Hr1 & Hst1 & Hc1); [|done|lia|].
  { intros i Hi. destruct (Hidx i Hi) as [e He]. exists e. split; [done|]. by apply (sh_target _ Hs) in He as [? _]. }
  destruct (recounted_fields _ _ Hr1) as (Hm1 & Hty1 & Hg1 & Hsup1 & Htr1).
  assert (Ha1 : strip <$> arcs r1 = strip <$> arcs r) by (destruct Hr1 as (a & s & -> & Ha1); exact Ha1).
  assert (Hla : length (arcs r1) = length (arcs r)) by (by rewrite <- (length_fmap strip), Ha1, length_fmap).
  assert (Hlen1 : 0 <= slen (types r) /\ slen (types r) + (end_ - start) <= u32_max).
  { destruct (sh_slab _ Hs) as [_ -> _]. pose proof (count_le (entries (types r))). destruct Hroom. unfold u32_max. lia. }
  destruct (insert_types_ok dbg oc min_cap Hmin (registered r) map start end_ (slen (types r)) tys) with (r := r1)
    as (l & ts & r2 & H2 & Hi2 & Hst2); try (tauto || by rewrite Hty1).
  { rewrite Hty1. apply Hs. }
  { unfold roomy. rewrite Hty1. done. }
  destruct (in_fields _ _ _ _ Hi2) as (A1 & A2 & A3 & A4 & A5).
  set (x := {| hash_consing_key := key; shared_type_indices := l; registrations := 1 |}).
  set (r3 := set_map (set_arcs r2 (arcs r2 ++ [x])) (length (arcs r2) :: hash_consing_map (set_arcs r2 (arcs r2 ++ [x])))).
  destruct (set_rec_groups_ok dbg (length (arcs r2)) l r3) as (m & H3 & Hm3).
  { apply Hi2. }
  { intros i Hi. destruct (in_fresh _ _ _ _ Hi2 i Hi) as [Hi0 Hv]. rewrite Hty1 in Hv. cbn. rewrite A3, Hg1.
    destruct (type_to_rec_group r !! i) as [e|] eqn:He; [|done]. exfalso.
    destruct (proj1 (sh_types _ Hs i)) as [_ [? ?]]; [by exists e|]. congruence. }
  exists l, ts, r1, r2, (set_groups r3 m). split; [|split].
  - unfold add_group. rewrite H1. cbn [mbind outcome_bind]. unfold checked. rewrite Hty1. unfold Slab.len.
    rewrite in_ub_true by (unfold in_u, u32_max in *; lia). cbn [unwrap mbind outcome_bind].
    rewrite H2. cbn [mbind outcome_bind]. fold x. rewrite debug_assert_true; last first.
    { apply bool_decide_eq_true_2. rewrite (map_get_ext r); [done|cbn; by rewrite A2|].
      intros e He. unfold key_of. cbn. rewrite A1, lookup_app_l.
      - by apply (recounted_key r r1).
      - rewrite Hla. destruct (sh_arcs _ Hs e He) as [y Hy]. by apply lookup_lt_Some in Hy. }
    cbn [mbind outcome_bind]. fold r3. rewrite H3. cbn [mbind outcome_bind]. by rewrite A1, Hla.
  - split; cbn.
    + by rewrite A1, fmap_app, Ha1.
    + done.
    + unfold live. cbn. by rewrite A1, A2, Hla, Hm1.
    + intros j. unfold target. cbn. rewrite Hm3. cbn. by rewrite A1, A3, Hla, Hg1.
    + by rewrite A4.
    + intros i Hi. rewrite <- Hty1. by apply (in_fresh _ _ _ _ Hi2).
    + apply Hi2.
    + intros j Hj Hn. rewrite <- Hty1. by apply (in_other _ _ _ _ Hi2).
    + intros k i Hk. destruct (lookup_lt_is_Some_2 ts k) as [t Ht].
      { rewrite <- (in_length _ _ _ _ Hi2). by eapply lookup_lt_Some. }
      exists t. split; [by apply (in_view _ _ _ _ Hi2 k)|]. intros kty Hkty.
      destruct (Forall2_lookup_r _ _ _ _ _ Hlen Hkty) as (ty & Hty & ->).
      destruct (Forall2_lookup_l _ _ _ _ _ Hst2 Hty) as (t' & Ht' & Hsto).
      rewrite Ht in Ht'. injection Ht' as <-. by eapply trace_sub_kind.
    + apply Hi2.
    + intros j Hj. rewrite (in_supers_other _ _ _ _ Hi2) by done. by rewrite Hsup1.
  - cbn [arcs set_groups r3 set_map set_arcs drop_stack types type_to_supertypes]. rewrite A1, A5, Hst1, Hst. split; [done|]. split; [|done].
    rewrite <- Hla. apply counts_add; try done.
    + intros e He. rewrite Hla. destruct (sh_arcs _ Hs e He) as [y Hy]. by apply lookup_lt_Some in Hy.
    + rewrite length_app. pose proof (length_omap_le (target r) (engine_indices key)). lia.
Qed.
End AddGroup.

(** ** A trampoline type is recorded *)

Section AddTramp.
  Context (r : TypeRegistryInner) (h : list nat) (e te k : nat) (i t : Z) (key : WasmRecGroup)
    (kty : WasmSubType) (g : WasmFuncType).
  Context (Hs : shape r) (He : e ∈ live r) (Hk : shared r e !! k = Some i) (Hkey : key_of r e = Some key)
    (Hkty : rec_types key !! k = Some kty) (Hg : tramp_of kty = Some g)
    (Hi : type_to_trampoline r !! i = None) (Ht : target r t = Some te) (Hte : key_of r te = Some (tramp_key g)).

Let r' := set_trampolines r (<[i := t]> (type_to_trampoline r)).

Lemma add_tramp_shape : shape r'.
Proof.
  pose proof (sh_tramp _ Hs) as Htr. destruct Hs. split; try done.
  intros j u Hj. cbn in Hj. destruct (decide (j = i)) as [->|Hne].
  - rewrite lookup_insert_eq in Hj. injection Hj as <-. exists e, k, kty, g, te.
    split_and!; try done. by exists key.
  - rewrite lookup_insert_ne in Hj by done. exact (Htr j u Hj).
Qed.

Lemma tramp_target_other (l : list Z) : i ∉ l -> omap (tramp_target r') l = omap (tramp_target r) l.
Proof.
  intros Hn. apply list_omap_ext, Forall_Forall2_diag, Forall_forall. intros j Hj.
  unfold tramp_target. cbn. rewrite lookup_insert_ne; [done|]. intros ->. done.
Qed.

Lemma add_tramp_out_other e' : e' ∈ live r -> e' <> e -> out r' e' = out r e'.
Proof.
  intros He' Hne. unfold out. f_equal.
  change (shared r' e') with (shared r e'). apply tramp_target_other. intros Hin.
  assert (target r i = Some e') by (by apply (sh_target _ Hs)).
  assert (target r i = Some e); [|congruence]. apply (sh_target _ Hs). split; [done|].
  by eapply list_elem_of_lookup_2.
Qed.

Lemma add_tramp_out : out r' e ≡ₚ te :: out r e.
Proof.
  unfold out. change (shared r' e) with (shared r e).
  change (omap (target r') (key_indices r' e)) with (omap (target r) (key_indices r e)).
  pose proof (sh_nodup _ Hs e He) as Hnd.
  destruct (list_elem_of_split_length _ _ _ Hk) as (l1 & l2 & Hl & _).
  rewrite Hl in Hnd |- *. apply list.NoDup_app in Hnd as (_ & Hd & Hnd). apply list.NoDup_cons in Hnd as [Hn2 _].
  assert (Hn1 : i ∉ l1) by (intros Hin; apply (Hd i Hin); set_solver).
  rewrite !omap_app. cbn [omap list_omap]. fold (omap (tramp_target r') l2) (omap (tramp_target r) l2).
  rewrite !tramp_target_other by done.
  assert (tramp_target r' i = Some te) as ->.
  { unfold tramp_target. cbn. by rewrite lookup_insert_eq. }
  assert (tramp_target r i = None) as -> by (unfold tramp_target; by rewrite Hi).
  solve_Permutation.
Qed.

Lemma add_tramp_inv :
  counts_ok (arcs r) (live r) (drop_stack r) (te :: refs_of r h) -> reg_inv r' h.
Proof.
  intros Hc. split; [apply add_tramp_shape|].
  change (arcs r') with (arcs r). change (live r') with (live r). change (drop_stack r') with (drop_stack r).
  eapply counts_ok_perm; [|exact Hc]. unfold refs_of.
  pose proof (others_perm (live r) e (sh_live _ Hs) He) as Hp. set (L := List.filter _ _) in Hp.
  rewrite Hp. cbn [mbind list_bind].
  rewrite (bind_same L (out r') (out r)), add_tramp_out; [solve_Permutation|].
  intros e' [He' Hne]%elem_of_others. by apply add_tramp_out_other.
Qed.

End AddTramp.

Lemma grows_add_tramp r0 r i t :
  grows r0 r -> target r0 i = None -> grows r0 (set_trampolines r (<[i := t]> (type_to_trampoline r))).
Proof.
  intros Hg Hi. destruct Hg. split; try done.
  intros j Hj. cbn. rewrite lookup_insert_ne; [by apply gr_tramp0|]. intros <-. rewrite Hi in Hj. by destruct Hj.
Qed.

(** ** The stored types unroll the keys *)

Definition unroll (l : list Z) (i : EngineOrModuleTypeIndex) : outcome reg_error EngineOrModuleTypeIndex :=
  match i with
  | Engine _ => Ok i
  | RecGroup j => if j <? 0 then Panic else x ← unwrap (l !! Z.to_nat j); Ok (Engine x)
  | Module_ _ => Panic
  end.

(** A stored type is its key with the indices of its group, and the list of
    supertypes of a type is that of its supertype followed by it. *)
Record faithful (r : TypeRegistryInner) : Prop := {
  fa_types e key k kty i : e ∈ live r -> key_of r e = Some key -> rec_types key !! k = Some kty ->
    shared r e !! k = Some i ->
    exists t, Slab.view (types r) !! (i + 1) = Some t /\ trace_mut (unroll (shared r e)) kty = Ok t;
  fa_supers i t : is_Some (target r i) -> Slab.view (types r) !! (i + 1) = Some t ->
    match supertype t with
    | Some (Engine s) => is_Some (target r s) /\ type_to_supertypes r !! i = Some (supertypes r s ++ [s])
    | Some _ => False
    | None => type_to_supertypes r !! i = None
    end
}.

(** No index was given back before, or the group does not refer to its own types. *)
Definition dense_ok (r : TypeRegistryInner) (start : Z) (tys : list WasmSubType) : Prop :=
  free (types r) = None \/ forall ty m, ty ∈ tys -> Module_ m ∈ edges ty -> m < start.
(** Validation: supertypes of the group come before their subtypes. *)
Definition supers_before (start : Z) (tys : list WasmSubType) : Prop :=
  forall k ty m, tys !! k = Some ty -> supertype ty = Some (Module_ m) -> m < start + Z.of_nat k.

Lemma supertype_edge (t : WasmSubType) s : supertype t = Some s -> s ∈ edges t.
Proof. destruct t as [fin sup c]. cbn. intros ->. by left. Qed.

Lemma faithful_recounted r r' : recounted r r' -> faithful r -> faithful r'.
Proof.
  intros Hr [H1 H2]. destruct (recounted_fields _ _ Hr) as (Hm & Hty & Hg & Hst & Htr). split.
  - intros e key k kty i He. rewrite (recounted_key r r'), (recounted_shared r r'), Hty by done.
    apply H1. unfold live in *. by rewrite <- Hm.
  - intros i t. unfold target, supertypes. rewrite Hty, Hg, Hst. apply H2.
Qed.

Section Faithful.
  Context (map : list Z) (start end_ : Z) (r : TypeRegistryInner) (ks tys ts : list WasmSubType)
    (l : list Z) (r1 r2 r' : TypeRegistryInner).
Let key := {| rec_types := ks |}.
Let e := length (arcs r).
  Context (Hs : shape r) (Ha : added r e key l r') (Hr1 : recounted r r1) (Hin : inserted r1 l ts r2)
    (Hty : types r' = types r2) (Htts : type_to_supertypes r' = type_to_supertypes r2)
    (Hok : Forall (type_ok (fun i => is_Some (target r i)) map start end_) tys)
    (Hse : end_ - start = Z.of_nat (length tys))
    (Hkeyed : Forall2 (keyed map start) tys ks) (Hstored : Forall2 (stored map start (slen (types r))) tys ts).
  Context (Hdense : dense_ok r start tys) (Hbefore : supers_before start tys).

Lemma added_positions k i : l !! k = Some i ->
  exists ty kty t, tys !! k = Some ty /\ ks !! k = Some kty /\ ts !! k = Some t /\
    keyed map start ty kty /\ stored map start (slen (types r)) ty t /\
    Forall (edge_ok (fun i => is_Some (target r i)) map start end_) (edges ty).
Proof.
  intros Hl. apply lookup_lt_Some in Hl. rewrite (in_length _ _ _ _ Hin), <- (Forall2_length _ _ _ Hstored) in Hl.
  destruct (lookup_lt_is_Some_2 tys k Hl) as [ty Hk].
  destruct (Forall2_lookup_l _ _ _ _ _ Hkeyed Hk) as (kty & ? & ?).
  destruct (Forall2_lookup_l _ _ _ _ _ Hstored Hk) as (t & ? & ?).
  exists ty, kty, t. split_and!; try done. by eapply Forall_lookup_1 in Hok.
Qed.

Lemma added_own ty m : ty ∈ tys -> Module_ m ∈ edges ty -> start <= m < end_ ->
  l !! Z.to_nat (m - start) = Some (slen (types r) + (m - start)).
Proof.
  intros Hty' Hm Hmb. destruct Hdense as [Hf|Hno]; [|specialize (Hno ty m Hty' Hm); lia].
  destruct (lookup_lt_is_Some_2 l (Z.to_nat (m - start))) as [x Hx].
  { rewrite (in_length _ _ _ _ Hin), <- (Forall2_length _ _ _ Hstored). lia. }
  destruct (recounted_fields _ _ Hr1) as (_ & Hty1 & _).
  destruct (in_dense _ _ _ _ Hin) as (_ & _ & Hd); [by rewrite Hty1|].
  rewrite Hx. f_equal. rewrite Hty1 in Hd. apply Hd in Hx. lia.
Qed.

Lemma added_unroll ty i : ty ∈ tys -> i ∈ edges ty ->
  edge_ok (fun i => is_Some (target r i)) map start end_ i ->
  unroll l (key_ix map start i) = Ok (run_ix map start (slen (types r)) i).
Proof.
  intros Hty' Hi Hok'. destruct i as [j|m|j]; cbn in *; [done| |done]. destruct Hok' as [Hm Hmap].
  destruct (start <=? m) eqn:Hst; zbool; cbn.
  - rewrite (proj2 (Z.ltb_ge _ _)) by lia. rewrite (added_own ty m) by (done || lia). cbn.
    rewrite (proj2 (Z.ltb_ge _ _)) by lia. done.
  - by rewrite (proj2 (Z.ltb_lt m start)) by lia.
Qed.

Lemma added_supertype k i ty s0 :
  l !! k = Some i -> tys !! k = Some ty -> supertype ty = Some s0 ->
  edge_ok (fun i => is_Some (target r i)) map start end_ s0 ->
  exists s, run_ix map start (slen (types r)) s0 = Engine s /\ is_Some (target r' s) /\ s ∉ drop k l.
Proof.
  intros Hl Hk Hst Hok'. pose proof (added_not_new r e key l r' Hs Ha) as Hnn.
  assert (Hold : forall s, is_Some (target r s) -> is_Some (target r' s) /\ s ∉ drop k l).
  { intros s Hsr. rewrite (added_target r e key l r' Hs Ha) by done. split; [done|].
    intros Hd. apply (Hnn s Hsr). rewrite <- (take_drop k l). apply elem_of_app. by right. }
  pose proof (supertype_edge _ _ Hst) as Hedge. apply list_elem_of_lookup_2 in Hk as Hin'.
  destruct s0 as [j|m|j]; cbn in *; [by exists j; auto| |done]. destruct Hok' as [Hm Hmap].
  destruct (m <? start) eqn:Hlt; zbool.
  - destruct Hmap as (j & Hj & Hreg); [lia|]. rewrite Hj. by exists j; auto.
  - exists (slen (types r) + (m - start)). split; [done|].
    pose proof (added_own ty m Hin' Hedge ltac:(lia)) as Hown. pose proof (Hbefore k ty m Hk Hst).
    split.
    + rewrite (ad_target _ _ _ _ _ Ha), decide_True; [done|]. by eapply list_elem_of_lookup_2.
    + intros Hd. apply list_elem_of_lookup in Hd as [k' Hk']. rewrite lookup_drop in Hk'.
      pose proof (NoDup_lookup _ _ _ _ (ad_nodup _ _ _ _ _ Ha) Hown Hk'). lia.
Qed.

Lemma added_faithful : faithful r -> faithful r'.
Proof.
  intros [F1 F2]. destruct (added_new r e key l r' Ha) as [Hkn Hsn].
  pose proof (added_target r e key l r' Hs Ha) as Htg. pose proof (added_not_new r e key l r' Hs Ha) as Hnn.
  split.
  - intros x key' k kty i Hx Hk' Hkty Hi. apply (added_live r e key l r' Ha) in Hx as [->|Hx].
    + rewrite Hkn in Hk'. injection Hk' as <-. rewrite Hsn in Hi |- *. cbn in Hkty.
      destruct (added_positions k i Hi) as (ty & kty' & t & Hty' & Hkty' & Ht & Hke & Hsto & Hok').
      rewrite Hkty in Hkty'. injection Hkty' as <-. exists t. rewrite Hty. split.
      * by eapply (in_view _ _ _ _ Hin).
      * rewrite <- Hsto. apply Hke. intros j Hj. apply (added_unroll ty); [by eapply list_elem_of_lookup_2|done|].
        by eapply Forall_forall in Hok'.
    + destruct (added_old r e key l r' Ha x (added_lt r Hs x Hx)) as [Hko Hso].
      rewrite Hko in Hk'. rewrite Hso in Hi |- *. destruct (F1 x key' k kty i Hx Hk' Hkty Hi) as (t & Hv & Htr).
      exists t. split; [|done]. assert (Hti : target r i = Some x).
      { apply (sh_target _ Hs). split; [done|]. by eapply list_elem_of_lookup_2. }
      rewrite (ad_view _ _ _ _ _ Ha); [done| |apply Hnn; by exists x]. apply (sh_types _ Hs). by exists x.
  - intros i t Hti Hv. destruct (decide (i ∈ l)) as [Hil|Hil].
    + apply list_elem_of_lookup in Hil as [k Hk].
      destruct (added_positions k i Hk) as (ty & kty' & t' & Hty' & Hkty' & Ht & Hke & Hsto & Hok').
      rewrite Hty, (in_view _ _ _ _ Hin k i t') in Hv by done. injection Hv as ->.
      pose proof (in_supers _ _ _ _ Hin k i t Hk Ht) as Hsup. pose proof (trace_sub_supertype _ _ _ Hsto) as Hst.
      destruct (supertype ty) as [s0|] eqn:Hs0.
      * destruct Hst as (s' & Hs' & Hrun). injection Hrun as <-. rewrite Hs' in *.
        apply Forall_forall with (x := s0) in Hok'; [|by apply supertype_edge].
        destruct (added_supertype k i ty s0 Hk Hty' Hs0 Hok') as (s & Hrs & Hts & Hnd).
        rewrite Hrs in *. split; [done|]. unfold supertypes. rewrite Htts. by apply Hsup.
      * rewrite Hst in *. rewrite Htts, Hsup. destruct (recounted_fields _ _ Hr1) as (_ & _ & _ & -> & _).
        destruct (type_to_supertypes r !! i) eqn:Hn; [|done]. exfalso. apply (Hnn i); [|by eapply list_elem_of_lookup_2].
        apply (sh_supers _ Hs). by rewrite Hn.
    + rewrite (ad_target _ _ _ _ _ Ha), decide_False in Hti by done.
      assert (0 <= i) by (by apply (sh_types _ Hs)). rewrite (ad_view _ _ _ _ _ Ha) in Hv by done.
      specialize (F2 i t Hti Hv). rewrite (ad_supers _ _ _ _ _ Ha) by done.
      destruct (supertype t) as [[s| |]|]; try done. destruct F2 as [Hts Hsu]. split; [by rewrite Htg|].
      unfold supertypes. rewrite (ad_supers _ _ _ _ _ Ha) by (by apply Hnn). done.
Qed.
End Faithful.

(** ** Registering trampolines and groups *)

(** The registry [r'] after the group [key] was registered as [e] for a new
    reference, with room for [n] types less and [c] references more. *)
Record result (r : TypeRegistryInner) (h : list nat) (e : nat) (key : WasmRecGroup) (n c : nat)
    (r' : TypeRegistryInner) : Prop := {
  re_inv : reg_inv r' (e :: h);
  re_stack : drop_stack r' = [];
  re_grows : grows r r';
  re_key : key_of r' e = Some key;
  re_room m : roomy r (n + m) -> roomy r' m;
  re_refs : (length (refs_of r' (e :: h)) <= length (refs_of r h) + c)%nat;
  re_free : free (types r) = None -> free (types r') = None
}.

Lemma result_live r h e key n c r' : result r h e key n c r' -> e ∈ live r'.
Proof. intros H. destruct (re_inv _ _ _ _ _ _ _ H) as [_ Hc]. eapply co_refs; [exact Hc|]. by left. Qed.

Lemma types_index_ok r i t :
  slab_inv (types r) -> 0 <= i -> Slab.view (types r) !! (i + 1) = Some t -> types_get r i = Ok (Some t).
Proof.
  intros Hs Hi Hv. unfold types_get. rewrite (slab_id_ok (types r)) by (done || by exists t).
  cbn [mbind outcome_bind]. unfold Slab.get. apply view_lookup_Some in Hv as [_ ->]. done.
Qed.

Section Trampolines.
  Context (dbg : bool) (rs : TypeRegistryInner -> WasmSubType -> outcome reg_error (nat * TypeRegistryInner)).
  Context (tramped : bool).
  Implicit Types r : TypeRegistryInner.

(** How many trampoline types [n] types may need: none when [tramped] is false. *)
Definition cost (n : nat) : nat := if tramped then n else 0.

(** What the registration of a trampoline type does. *)
Definition tramp_spec : Prop := forall r h g,
  reg_inv r h -> drop_stack r = [] -> is_trampoline_type g = true -> roomy r 1 ->
  Z.of_nat (length (refs_of r h)) + 8 < 2 ^ 64 ->
  exists te r', rs r (trampoline_sub_type g) = Ok (te, r') /\ result r h te (tramp_key g) 1 1 r' /\
    (faithful r -> faithful r').

(** A type of the new group that still waits for its trampoline. *)
Definition waiting r0 r (e : nat) (key : WasmRecGroup) (i : Z) : Prop :=
  exists k kty t, shared r e !! k = Some i /\ rec_types key !! k = Some kty /\
    Slab.view (types r) !! (i + 1) = Some t /\ tramp_of t = tramp_of kty /\
    type_to_trampoline r !! i = None /\ target r0 i = None /\
    (tramp_of t <> None -> tramped = true /\ tramp_spec).

(** The state between two turns of the loop. *)
Record loop_inv r0 (h : list nat) (e : nat) (key : WasmRecGroup) (l : list Z) r : Prop := {
  lo_inv : reg_inv r (e :: h);
  lo_stack : drop_stack r = [];
  lo_grows : grows r0 r;
  lo_key : key_of r e = Some key;
  lo_wait i : i ∈ l -> waiting r0 r e key i;
  lo_nodup : NoDup l;
  lo_room : roomy r (cost (length l));
  lo_refs : Z.of_nat (length (refs_of r (e :: h)) + cost (length l) + cost 8) < 2 ^ 64
}.

Lemma lo_live r0 h e key l r : loop_inv r0 h e key l r -> e ∈ live r.
Proof. intros H. destruct (lo_inv _ _ _ _ _ _ H) as [_ Hc]. eapply co_refs; [exact Hc|]. by left. Qed.

Lemma loop_tail r0 h e key i l r : loop_inv r0 h e key (i :: l) r -> loop_inv r0 h e key l r.
Proof.
  intros [H1 H2 H3 H4 H5 H6 H7 H8]. apply list.NoDup_cons in H6 as [_ H6]. split; try done.
  - intros j Hj. apply H5. by right.
  - unfold roomy, cost in *. cbn [length] in H7. destruct tramped; lia.
  - unfold cost in *. cbn [length] in H8. destruct tramped; lia.
Qed.

Lemma waiting_tramp r0 r r1 e key i i' t :
  shape r -> e ∈ live r -> grows r r1 -> i' ∈ shared r e -> i' <> i -> waiting r0 r e key i' ->
  waiting r0 (set_trampolines r1 (<[i := t]> (type_to_trampoline r1))) e key i'.
Proof.
  intros Hs He Hg Hi' Hne (k & kty & ty & H1 & H2 & H3 & H4 & H5 & H6 & H7).
  assert (Ht : is_Some (target r i')) by (exists e; by apply (sh_target _ Hs)).
  exists k, kty, ty. split_and!; try done.
  - change (shared r1 e !! k = Some i'). rewrite (grows_shared r r1); [done|done|]. by apply (sh_arcs _ Hs).
  - cbn. by rewrite (gr_view _ _ Hg).
  - cbn. rewrite lookup_insert_ne by done. by rewrite (gr_tramp _ _ Hg).
Qed.

Lemma refs_add_tramp r h e te k i t key kty g :
  shape r -> e ∈ live r -> shared r e !! k = Some i -> key_of r e = Some key -> rec_types key !! k = Some kty ->
  tramp_of kty = Some g -> type_to_trampoline r !! i = None -> target r t = Some te ->
  key_of r te = Some (tramp_key g) ->
  length (refs_of (set_trampolines r (<[i := t]> (type_to_trampoline r))) h) = S (length (refs_of r h)).
Proof.
  intros Hs He Hk Hkey Hkty Hg Hi Ht Hte. unfold refs_of. rewrite !length_app.
  change (live (set_trampolines r _)) with (live r).
  pose proof (others_perm (live r) e (sh_live _ Hs) He) as Hp. set (L := List.filter _ _) in Hp. rewrite Hp.
  cbn [mbind list_bind]. rewrite !length_app.
  assert (Hout : out (set_trampolines r (<[i := t]> (type_to_trampoline r))) e ≡ₚ te :: out r e)
    by (by eapply add_tramp_out). rewrite Hout.
  rewrite (bind_same L _ (out r)); [cbn [length]; unfold mbind; lia|].
  intros e' [He' Hne]%elem_of_others. exact (add_tramp_out_other r e k i t Hs He Hk Hi e' He' Hne).
Qed.

Lemma faithful_tramp r m : faithful r -> faithful (set_trampolines r m).
Proof. by intros [H1 H2]; split. Qed.

(** One turn: the trampoline type [g] of the type [i]. *)
Lemma loop_turn r0 h e key i l r k kty t g :
  loop_inv r0 h e key (i :: l) r ->
  shared r e !! k = Some i -> rec_types key !! k = Some kty -> Slab.view (types r) !! (i + 1) = Some t ->
  tramp_of kty = Some g -> type_to_trampoline r !! i = None -> target r0 i = None -> tramped = true -> tramp_spec ->
  exists te x ti r1, rs r (trampoline_sub_type g) = Ok (te, r1) /\ arcs r1 !! te = Some x /\
    head (shared_type_indices x) = Some ti /\ ti <> i /\
    loop_inv r0 h e key l (set_trampolines r1 (<[i := ti]> (type_to_trampoline r1))) /\
    (forall m, roomy r (1 + m) -> roomy r1 m) /\
    (length (refs_of (set_trampolines r1 (<[i := ti]> (type_to_trampoline r1))) (e :: h)) <=
     1 + length (refs_of r (e :: h)))%nat /\
    (free (types r) = None -> free (types r1) = None) /\ (faithful r -> faithful r1).
Proof.
  intros Hl Hk Hkty Hv Hg Hi Hi0 Htrue Hrs. assert (Hcost : forall n, cost n = n) by (intros; unfold cost; by rewrite Htrue).
  pose proof (lo_live _ _ _ _ _ _ Hl) as He.
  pose proof (lo_inv _ _ _ _ _ _ Hl) as [Hs Hc].
  assert (Htr : is_trampoline_type g = true).
  { unfold tramp_of in Hg. destruct (as_func kty); [|done]. by eapply trampoline_type_is. }
  assert (Hroom : roomy r 1) by (destruct (lo_room _ _ _ _ _ _ Hl); unfold roomy; rewrite !Hcost in *; cbn [length] in *; lia).
  destruct (Hrs r (e :: h) g (conj Hs Hc) (lo_stack _ _ _ _ _ _ Hl) Htr Hroom) as (te & r1 & H1 & Hr & Hf).
  { pose proof (lo_refs _ _ _ _ _ _ Hl). rewrite !Hcost in *. cbn [length] in *. lia. }
  pose proof (re_grows _ _ _ _ _ _ _ Hr) as Hgr. destruct (re_inv _ _ _ _ _ _ _ Hr) as [Hs1 Hc1].
  pose proof (result_live _ _ _ _ _ _ _ Hr) as Hte.
  destruct (sh_arcs _ Hs1 te Hte) as [x Hx]. destruct (sh_canon _ Hs1 te x Hte Hx) as [_ Hlen].
  pose proof (re_key _ _ _ _ _ _ _ Hr) as Hkte. assert (Hxk : hash_consing_key x = tramp_key g).
  { unfold key_of in Hkte. rewrite Hx in Hkte. by injection Hkte. }
  rewrite Hxk in Hlen. destruct (shared_type_indices x) as [|ti [|]] eqn:Hsx; try done.
  assert (Hti : target r1 ti = Some te).
  { apply (sh_target _ Hs1). split; [done|]. unfold shared. rewrite Hx. cbn. rewrite Hsx. by left. }
  assert (Hti0 : target r i = Some e) by (apply (sh_target _ Hs); split; [done|by eapply list_elem_of_lookup_2]).
  assert (Hke1 : key_of r1 e = Some key) by (eapply grows_key; [done|]; apply Hl).
  assert (Hne : te <> e).
  { intros ->. rewrite Hke1 in Hkte. injection Hkte as ->. destruct k as [|]; [|done]. injection Hkty as <-.
    by rewrite tramp_of_leaf in Hg. }
  assert (Hke : shared r1 e !! k = Some i) by (by rewrite (grows_shared r r1); [|done|apply (sh_arcs _ Hs)]).
  assert (Hi1 : type_to_trampoline r1 !! i = None) by (by rewrite (gr_tramp _ _ Hgr); [|exists e]).
  assert (Hlv : e ∈ live r1) by (by apply (gr_live _ _ Hgr)).
  assert (Hrf : length (refs_of (set_trampolines r1 (<[i := ti]> (type_to_trampoline r1))) (e :: h)) =
                S (length (refs_of r1 (e :: h)))) by (by eapply refs_add_tramp).
  pose proof (re_refs _ _ _ _ _ _ _ Hr) as Hrr. change (refs_of r1 (te :: e :: h)) with (te :: refs_of r1 (e :: h)) in Hrr.
  cbn [length] in Hrr.
  exists te, x, ti, r1. split_and!; try done.
  - by rewrite Hsx.
  - intros ->. assert (target r1 i = Some e) by (by apply (gr_target _ _ Hgr)). congruence.
  - split; try done.
    + by eapply add_tramp_inv.
    + by rewrite <- (re_stack _ _ _ _ _ _ _ Hr).
    + apply grows_add_tramp; [|done]. eapply grows_trans; [apply Hl|done].
    + intros j Hj. pose proof (lo_nodup _ _ _ _ _ _ Hl) as [Hil _]%list.NoDup_cons.
      assert (Hw : waiting r0 r e key j) by (apply (lo_wait _ _ _ _ _ _ Hl); by right).
      eapply (waiting_tramp r0 r); try done; [|by intros ->].
      destruct Hw as (k' & ? & ? & Hk' & _). by eapply list_elem_of_lookup_2.
    + pose proof (lo_nodup _ _ _ _ _ _ Hl) as [_ Hnd]%list.NoDup_cons. done.
    + rewrite Hcost. apply (re_room _ _ _ _ _ _ _ Hr). pose proof (lo_room _ _ _ _ _ _ Hl) as Hlr. by rewrite Hcost in Hlr.
    + pose proof (lo_refs _ _ _ _ _ _ Hl). rewrite !Hcost in *. cbn [length] in *. lia.
  - intros m Hm. by apply (re_room _ _ _ _ _ _ _ Hr).
  - rewrite Hrf. lia.
  - apply Hr.
Qed.

Lemma register_trampolines_ok r0 h e key l : forall r,
  loop_inv r0 h e key l r ->
  exists r', register_trampolines dbg rs r l = Ok r' /\ loop_inv r0 h e key [] r' /\
    (forall m, roomy r (cost (length l) + m) -> roomy r' m) /\
    (length (refs_of r' (e :: h)) <= cost (length l) + length (refs_of r (e :: h)))%nat /\
    (free (types r) = None -> free (types r') = None) /\ (faithful r -> faithful r').
Proof.
  induction l as [|i l IH]; intros r Hl.
  { exists r. split_and!; try done; [|lia]. intros m Hm. unfold roomy in *. lia. }
  pose proof (lo_inv _ _ _ _ _ _ Hl) as [Hs _]. pose proof (lo_live _ _ _ _ _ _ Hl) as He.
  destruct (lo_wait _ _ _ _ _ _ Hl i) as (k & kty & t & Hk & Hkty & Hv & Htk & Hi & Hi0 & Hrs); [by left|].
  assert (Hti : target r i = Some e) by (apply (sh_target _ Hs); split; [done|by eapply list_elem_of_lookup_2]).
  assert (Hi0' : 0 <= i) by (apply (sh_types _ Hs); by exists e).
  cbn [register_trampolines]. unfold types_index. rewrite (types_index_ok r i t (sh_slab _ Hs) Hi0' Hv).
  cbn [mbind outcome_bind unwrap].
  assert (Hskip : tramp_of t = None -> exists r', register_trampolines dbg rs r l = Ok r' /\ loop_inv r0 h e key [] r' /\
    (forall m, roomy r (cost (S (length l)) + m) -> roomy r' m) /\
    (length (refs_of r' (e :: h)) <= cost (S (length l)) + length (refs_of r (e :: h)))%nat /\
    (free (types r) = None -> free (types r') = None) /\ (faithful r -> faithful r')).
  { intros _. destruct (IH r (loop_tail _ _ _ _ _ _ _ Hl)) as (r' & H1 & H2 & H3 & H4 & H5).
    assert (cost (length l) <= cost (S (length l)))%nat by (unfold cost; destruct tramped; lia).
    exists r'. split_and!; try done; [|lia|tauto|tauto]. intros m Hm. apply H3. unfold roomy in *. lia. }
  unfold tramp_of in *. destruct (as_func t) as [f|]; [|by apply Hskip]. cbn in Htk, Hskip, Hrs.
  destruct (trampoline_type f) as [g|] eqn:Htf; [|by apply Hskip].
  destruct (loop_turn r0 h e key i l r k kty t g) as (te & x & ti & r1 & H1 & Hx & Hh & Hne & Hl1 & Hrm & Hrf & Hfr & Hfa);
    try done; [by apply Hrs|by apply Hrs|]. assert (Hcost : forall n, cost n = n) by (intros n; unfold cost; destruct (Hrs ltac:(done)) as [-> _]; done).
  rewrite H1. cbn [mbind outcome_bind]. rewrite Hx. cbn [mbind outcome_bind unwrap]. rewrite Hh. cbn [mbind outcome_bind unwrap].
  rewrite debug_assert_true by (apply negb_true_iff, Z.eqb_neq; congruence). cbn [mbind outcome_bind].
  destruct (IH _ Hl1) as (r' & H2 & Hl2 & Hrm2 & Hrf2 & Hfr2 & Hfa2).
  exists r'. split; [done|]. split; [done|]. split; [|split; [|split]].
  - intros m Hm. rewrite Hcost in Hm. apply Hrm2. rewrite Hcost. by apply Hrm.
  - rewrite !Hcost in *. cbn [length]. lia.
  - intros Hf. apply Hfr2. cbn. by apply Hfr.
  - intros Hf. apply Hfa2, faithful_tramp. by apply Hfa.
Qed.
End Trampolines.

(** *** Whole groups *)

Section Keys.
  Context (known : Z -> Prop) (map : list Z) (start end_ : Z).

Lemma key_ix_ok i : edge_ok known map start end_ i ->
  match key_ix map start i with Engine j => known j | RecGroup _ => True | Module_ _ => False end.
Proof.
  destruct i as [j|m|j]; cbn; [done| |done]. intros [Hm Hmap]. destruct (start <=? m) eqn:Hs; zbool; [done|].
  destruct Hmap as (j & Hj & Hk); [lia|]. by rewrite Hj.
Qed.

Lemma keyed_tramp ty k : keyed map start ty k -> tramp_of k = tramp_of ty.
Proof.
  intros [_ Hf]. apply (trace_sub_tramp (fun i => Ok (E:=reg_error) (key_ix map start i))).
  rewrite <- (trace_mut_id (E:=reg_error) k). symmetry. by apply Hf.
Qed.

Lemma keys_edges tys ks :
  Forall2 (keyed map start) tys ks ->
  edges {| rec_types := ks |} = List.map (key_ix map start) (tys ≫= edges).
Proof.
  change (edges {| rec_types := ks |}) with (ks ≫= edges).
  induction 1 as [|ty k tys ks [He _] _ IH]; [done|].
  cbn [mbind list_bind]. rewrite map_app, He. f_equal. exact IH.
Qed.

Lemma keyed_kind ty k : keyed map start ty k -> kind_of k = kind_of ty.
Proof.
  intros [_ Hf]. apply (trace_sub_kind (fun i => Ok (E:=reg_error) (key_ix map start i))).
  rewrite <- (trace_mut_id (E:=reg_error) k). symmetry. by apply Hf.
Qed.

Section Group.
  Context (tys ks : list WasmSubType) (Hok : Forall (type_ok known map start end_) tys)
    (Hk : Forall2 (keyed map start) tys ks).

Lemma keys_edge_ok i : i ∈ (tys ≫= edges) -> edge_ok known map start end_ i.
Proof.
  intros Hi. apply list_elem_of_bind in Hi as (ty & Hi & Hty).
  rewrite Forall_forall in Hok. specialize (Hok ty Hty). unfold type_ok in Hok. rewrite Forall_forall in Hok. auto.
Qed.

Lemma keys_registered i : i ∈ engine_indices {| rec_types := ks |} -> known i.
Proof.
  unfold engine_indices. rewrite (keys_edges tys ks Hk). intros Hi. apply list_elem_of_omap in Hi as (j & Hj & Hi).
  apply list_elem_of_fmap in Hj as (m & -> & Hm). apply keys_edge_ok, key_ix_ok in Hm.
  destruct (key_ix map start m); cbn in Hi; try done. by injection Hi as ->.
Qed.

Lemma keys_canonical : is_canonicalized_for_hash_consing {| rec_types := ks |} = true.
Proof.
  unfold is_canonicalized_for_hash_consing. rewrite (keys_edges tys ks Hk). apply forallb_forall. intros i Hi.
  apply in_map_iff in Hi as (m & <- & Hm). apply list_elem_of_In, keys_edge_ok, key_ix_ok in Hm.
  by destruct (key_ix map start m).
Qed.

Lemma keys_length : (length (engine_indices {| rec_types := ks |}) <= length (tys ≫= edges))%nat.
Proof. unfold engine_indices. rewrite (keys_edges tys ks Hk). etrans; [apply length_omap_le|]. by rewrite length_map. Qed.
End Group.
End Keys.

Section Body.
  Context (dbg oc : bool) (min_cap : Z) (Hmin : min_cap <= 16).
  Context (rs : TypeRegistryInner -> WasmSubType -> outcome reg_error (nat * TypeRegistryInner)) (tramped : bool).
  Context (map : list Z) (start end_ : Z) (tys : list WasmSubType) (r : TypeRegistryInner) (h : list nat).
  Context (Hinv : reg_inv r h) (Hstack : drop_stack r = [])
    (Hok : Forall (type_ok (fun i => is_Some (target r i)) map start end_) tys)
    (Hse : end_ - start = Z.of_nat (length tys))
    (Hrs : forall ty, ty ∈ tys -> tramp_of ty <> None -> tramped = true /\ tramp_spec rs)
    (Hroom : roomy r (length tys + cost tramped (length tys)))
    (Hbound : Z.of_nat (length (tys ≫= edges) + cost tramped (length tys) + cost tramped 8 + length (refs_of r h)) + 4 < 2 ^ 64).

Lemma found_ok ks e :
  Forall2 (keyed map start) tys ks -> map_get r {| rec_types := ks |} = Some e ->
  exists r', incref r e = Ok r' /\ result r h e {| rec_types := ks |} (length tys + cost tramped (length tys)) 1 r' /\ recounted r r'.
Proof.
  intros Hk Hget. destruct Hinv as [Hs Hc]. rewrite Hstack in Hc.
  apply find_some in Hget as [Hin Hb]. apply list_elem_of_In in Hin.
  destruct (incref_ok r (live r) _ e Hc Hin) as (r' & H1 & Hr & Hst & Hc'). { fold (refs_of r h). lia. }
  exists r'. split; [done|]. split; [|done]. destruct (recounted_fields _ _ Hr) as (Hm & Hty & _).
  split.
  - apply (recounted_inv r); try done. rewrite Hst, Hstack. exact Hc'.
  - by rewrite Hst.
  - by apply grows_recounted.
  - rewrite (recounted_key r r') by done. unfold key_of. destruct (arcs r !! e) as [x|]; [|done].
    apply bool_decide_eq_true in Hb. cbn. by rewrite Hb.
  - intros m Hm'. unfold roomy in *. rewrite Hty. lia.
  - unfold refs_of. rewrite (bind_same (live r') (out r') (out r)) by (intros; by apply recounted_out).
    unfold live. rewrite Hm. cbn [app length]. lia.
  - by rewrite Hty.
Qed.

Lemma new_ok ks :
  Forall2 (keyed map start) tys ks -> map_get r {| rec_types := ks |} = None ->
  exists e l r1 r', add_group dbg oc min_cap r map start {| rec_types := ks |} tys = Ok (e, l, r1) /\
    register_trampolines dbg rs r1 l = Ok r' /\
    result r h e {| rec_types := ks |} (length tys + cost tramped (length tys))
      (length (tys ≫= edges) + cost tramped (length tys) + 1) r' /\
    (faithful r -> dense_ok r start tys -> supers_before start tys -> faithful r').
Proof.
  intros Hk Hget. destruct Hinv as [Hs Hc]. set (key := {| rec_types := ks |}) in *.
  pose proof (keys_length map start tys ks Hk) as Hkl. fold key in Hkl.
  pose proof (keys_registered _ map start end_ tys ks Hok Hk) as Hidx.
  pose proof (Forall2_length _ _ _ Hk) as Hlk.
  assert (Hkinds : Forall2 (fun ty k => kind_of k = kind_of ty) tys (rec_types key)).
  { eapply Forall2_impl; [exact Hk|]. apply keyed_kind. }
  destruct (add_group_ok dbg oc min_cap Hmin map start end_ r h key tys Hinv Hstack Hget Hok Hse Hkinds Hidx)
    as (l & ts & r1 & r2 & r3 & H3 & Ha & Hst3 & Hc3 & Hr1 & Hin & Hty3 & Htts3 & Hsto).
  { unfold roomy in *. lia. }
  { lia. }
  set (e := length (arcs r)) in *.
  assert (Hll : length l = length tys).
  { rewrite (in_length _ _ _ _ Hin). symmetry. by eapply Forall2_length. }
  assert (Hs3 : shape r3).
  { apply (added_shape r e key l r3); try done; [by eapply keys_canonical|]. cbn. by rewrite Hll. }
  assert (Hrefs : refs_of r3 (e :: h) ≡ₚ e :: omap (target r) (engine_indices key) ++ refs_of r h).
  { unfold refs_of. rewrite (ad_map _ _ _ _ _ Ha). cbn [mbind list_bind].
    rewrite (added_out_new r e key l r3) by done.
    fold (mbind (M:=list) (out r3) (live r)). rewrite (bind_same (live r) (out r3) (out r)); [solve_Permutation|].
    intros. by eapply added_out_old. }
  assert (Hinv3 : reg_inv r3 (e :: h)).
  { split; [done|]. change ((e :: h) ++ (live r3 ≫= out r3)) with (refs_of r3 (e :: h)).
    rewrite (ad_map _ _ _ _ _ Ha), Hst3, Hrefs. exact Hc3. }
  assert (Hroom3 : forall m, roomy r (length tys + m) -> roomy r3 m).
  { intros m Hm. destruct (recounted_fields _ _ Hr1) as (_ & Hty1 & _). unfold roomy. rewrite Hty3.
    apply (in_roomy _ _ _ _ Hin). unfold roomy. rewrite Hty1, Hll. exact Hm. }
  assert (Hlen3 : (length (refs_of r3 (e :: h)) <= length (tys ≫= edges) + length (refs_of r h) + 1)%nat).
  { rewrite Hrefs. cbn [length]. rewrite length_app.
    pose proof (length_omap_le (target r) (engine_indices key)). lia. }
  destruct (added_new r e key l r3 Ha) as [Hkey3 Hsh3].
  assert (Hloop : loop_inv rs tramped r h e key l r3).
  { split; try done.
    - by apply (added_grows r e key l r3).
    - intros i Hi. pose proof Hi as [k Hik]%list_elem_of_lookup.
      destruct (added_positions map start end_ r ks tys ts l r1 r2 Hin Hok Hk Hsto k i Hik)
        as (ty & kty & t & Hty & Hkty & Ht & Hke & Hst & _).
      assert (Htt : tramp_of t = tramp_of ty) by (by eapply trace_sub_tramp).
      exists k, kty, t. split_and!; try done.
      + by rewrite Hsh3.
      + rewrite Hty3. by eapply (in_view _ _ _ _ Hin).
      + rewrite Htt. symmetry. by eapply keyed_tramp.
      + by eapply (added_tramp_new r e key l r3).
      + destruct (target r i) as [y|] eqn:Hy; [|done]. exfalso.
        apply (added_not_new r e key l r3 Hs Ha i); [by exists y|done].
      + rewrite Htt. apply Hrs. by eapply list_elem_of_lookup_2.
    - apply Ha.
    - rewrite Hll. apply Hroom3. unfold roomy in *. lia.
    - rewrite Hll. lia. }
  destruct (register_trampolines_ok dbg rs tramped r h e key l r3 Hloop) as (r4 & H4 & Hl4 & Hrm4 & Hrf4 & Hfr4 & Hfa4).
  exists e, l, r3, r4. split; [done|]. split; [done|]. split.
  - split; try apply Hl4.
    + intros m Hm. apply Hrm4. rewrite Hll. apply Hroom3. unfold roomy in *. lia.
    + rewrite Hll in Hrf4. lia.
    + intros Hf. apply Hfr4. rewrite Hty3. destruct (recounted_fields _ _ Hr1) as (_ & Hty1 & _).
      destruct (in_dense _ _ _ _ Hin) as [? _]; [by rewrite Hty1|done].
  - intros Hf Hd Hb. apply Hfa4.
    by apply (added_faithful map start end_ r ks tys ts l r1 r2 r3).
Qed.

Lemma register_body_ok :
  exists e ks r', register_rec_group_body dbg oc min_cap rs r map start end_ tys = Ok (e, r') /\
    Forall2 (keyed map start) tys ks /\
    result r h e {| rec_types := ks |} (length tys + cost tramped (length tys))
      (length (tys ≫= edges) + cost tramped (length tys) + 1) r' /\
    (faithful r -> dense_ok r start tys -> supers_before start tys -> faithful r').
Proof.
  destruct (canonical_keys_ok dbg _ map start end_ tys Hok) as (ks & Hks & Hk).
  unfold register_rec_group_body. rewrite debug_assert_true by (apply Z.eqb_eq; lia). cbn [mbind outcome_bind].
  rewrite take_ge by lia. rewrite Hks. cbn [mbind outcome_bind].
  destruct (map_get r {| rec_types := ks |}) as [e|] eqn:Hget.
  - destruct (found_ok ks e Hk Hget) as (r' & H1 & Hr & Hrec). rewrite H1. cbn [mbind outcome_bind].
    exists e, ks, r'. split_and!; try done.
    + destruct Hr. split; try done. lia.
    + intros Hf _ _. by eapply faithful_recounted.
  - destruct (new_ok ks Hk Hget) as (e & l & r1 & r' & H1 & H2 & Hr & Hf). rewrite H1. cbn [mbind outcome_bind].
    rewrite H2. cbn [mbind outcome_bind]. by exists e, ks, r'.
Qed.
End Body.
