(* ===== verification/RegistryWorld.v ===== *)
(** * The registry and its handles

    Programs hold types through [RegisteredType] and [TypeCollection].  A world is
    the registry with the handles there are; its steps are the operations on them,
    one at a time.  In every world that steps lead to, no operation panics, a type
    that a handle holds stays registered under its index, and a registry without
    handles is empty.  What happens when two threads release the same group is
    looked at separately. *)

From Stdlib Require Import ZArith Lia.
From stdpp Require Import base list gmap numbers option relations sorting.
From S2P Require Import Prelude Slab WasmTypes TypeMatching TypeRegistry RegistryInv RegistryOps.
Open Scope Z_scope.

(** ** Worlds *)

Inductive handle :=
| HType (t : RegisteredType)
| HTypes (c : TypeCollection).

Record World := { reg : TypeRegistryInner; handles : list handle }.

Definition world_new : World := {| reg := registry_new; handles := [] |}.

Inductive op :=
| New (ty : WasmSubType)
| Root (i : Z)
| Clone (k : nat)
| Drop (k : nat)
| Load (m : ModuleTypes).

Section Run.
  Context (dbg oc : bool) (min_cap : Z).

Definition run (o : op) (w : World) : outcome reg_error World :=
  match o with
  | New ty =>
      '(t, r) ← registered_new dbg oc min_cap (reg w) ty;
      Ok {| reg := r; handles := HType t :: handles w |}
  | Root i =>
      '(ot, r) ← root dbg (reg w) i;
      Ok {| reg := r; handles := match ot with Some t => HType t :: handles w | None => handles w end |}
  | Clone k =>
      match handles w !! k with
      | Some (HType t) =>
          '(t, r) ← registered_clone (reg w) t;
          Ok {| reg := r; handles := HType t :: handles w |}
      | _ => Ok w
      end
  | Drop k =>
      match handles w !! k with
      | Some (HType t) =>
          r ← registered_drop dbg oc (reg w) t;
          Ok {| reg := r; handles := delete k (handles w) |}
      | Some (HTypes c) =>
          r ← collection_drop dbg oc (reg w) c;
          Ok {| reg := r; handles := delete k (handles w) |}
      | None => Ok w
      end
  | Load m =>
      '(c, r) ← new_for_module dbg oc min_cap (reg w) m;
      Ok {| reg := r; handles := HTypes c :: handles w |}
  end.
End Run.

(** ** Which operations a program may do *)

(** Validation of a module's types: the groups follow one another, a type refers to
    types of its own or an earlier group, and a supertype comes before its
    subtypes. *)
Definition valid_type (end_ k : Z) (ty : WasmSubType) : bool :=
  forallb (fun i => match i with Module_ m => (0 <=? m) && (m <? end_) | _ => false end) (edges ty) &&
  match supertype ty with Some (Module_ m) => m <? k | _ => true end.

Fixpoint valid_types (end_ k : Z) (tys : list WasmSubType) : bool :=
  match tys with
  | [] => true
  | ty :: tys => valid_type end_ k ty && valid_types end_ (k + 1) tys
  end.

Definition group_types (tys : list WasmSubType) (start end_ : Z) : list WasmSubType :=
  take (Z.to_nat (end_ - start)) (drop (Z.to_nat start) tys).

Fixpoint valid_groups (tys : list WasmSubType) (start : Z) (gs : list (Z * Z)) : bool :=
  match gs with
  | [] => start =? Z.of_nat (length tys)
  | (s, e) :: gs =>
      (s =? start) && (s <=? e) && (e <=? Z.of_nat (length tys)) &&
      valid_types e s (group_types tys s e) && valid_groups tys e gs
  end.

(** The types with a trampoline are function types of the module. *)
Definition valid_trampolines (m : ModuleTypes) : bool :=
  forallb (fun '(k, _) =>
    (0 <=? k) && match wasm_types m !! Z.to_nat k with
                 | Some ty => bool_decide (is_Some (as_func ty))
                 | None => false
                 end) (trampoline_types m).

Definition valid_module (m : ModuleTypes) : bool :=
  valid_groups (wasm_types m) 0 (rec_groups m) && valid_trampolines m.

Definition handle_refs (h : handle) : list nat :=
  match h with HType t => [entry t] | HTypes c => crec_groups c end.
Definition refs (w : World) : list nat := handles w ≫= handle_refs.

Definition op_types (o : op) : list WasmSubType :=
  match o with New ty => [ty] | Load m => wasm_types m | _ => [] end.
Definition op_groups (o : op) : nat := match o with Load m => length (rec_groups m) | _ => 0 end.

(** The slab of the registry stays below 2^30 types, and memory holds fewer than
    2^64 references. *)
Definition fits (w : World) (o : op) : Prop :=
  Z.of_nat (length (entries (types (reg w))) + 2 * length (op_types o)) <= 2 ^ 30 /\
  Z.of_nat (length (refs_of (reg w) (refs w)) + length (op_types o ≫= edges) + 4 * length (op_types o) +
            op_groups o) + 16 < 2 ^ 64.

Definition allowed (w : World) (o : op) : Prop :=
  fits w o /\
  match o with
  | New ty => forall i, i ∈ edges ty -> exists j, i = Engine j /\ is_Some (target (reg w) j)
  | Root i => 0 <= i < Z.of_nat (length (entries (types (reg w))))
  | Load m => valid_module m = true
  | Clone _ | Drop _ => True
  end.

Section Reach.
  Context (dbg oc : bool) (min_cap : Z) (P : World -> op -> Prop).

Inductive reachable : World -> Prop :=
| reach_new : reachable world_new
| reach_step w o w' : reachable w -> allowed w o -> P w o -> run dbg oc min_cap o w = Ok w' -> reachable w'.
End Reach.

(** ** Singletons *)

Section Singleton.
  Context (dbg oc : bool) (min_cap : Z) (Hmin : min_cap <= 16).
  Implicit Types r : TypeRegistryInner.

Lemma types_contains_ok r i : shape r -> is_Some (target r i) -> types_contains r i = Ok true.
Proof.
  intros Hs [H0 [t Ht]]%(sh_types _ Hs). unfold types_contains.
  rewrite (slab_id_ok (types r)); [|apply (sh_slab _ Hs)|done|by exists t]. cbn [mbind outcome_bind].
  unfold Slab.contains. apply view_lookup_Some in Ht as [_ ->]. done.
Qed.

Definition engine_edges r (ty : WasmSubType) : Prop :=
  forall i, i ∈ edges ty -> exists j, i = Engine j /\ is_Some (target r j).

Lemma assert_edges_ok r l :
  shape r -> (forall i, i ∈ l -> exists j, i = Engine j /\ is_Some (target r j)) ->
  assert_edges_registered r l = Ok ().
Proof.
  intros Hs. induction l as [|i l IH]; intros Hl; [done|]. cbn [assert_edges_registered].
  destruct (Hl i) as (j & -> & Hj); [by left|]. rewrite (types_contains_ok r j Hs Hj). cbn [mbind outcome_bind assert_].
  apply IH. intros k Hk. apply Hl. by right.
Qed.

Lemma engine_type_ok r ty s e :
  engine_edges r ty -> type_ok (fun i => is_Some (target r i)) [] s e ty.
Proof.
  intros H. apply Forall_forall. intros i Hi. destruct (H i Hi) as (j & -> & Hj). exact Hj.
Qed.

(** The key of a group of one type whose indices are all of the engine is the type. *)
Lemma keyed_engine r ty k s : engine_edges r ty -> keyed [] s ty k -> k = ty.
Proof.
  intros H [_ Hf]. specialize (Hf Ok Ok). rewrite !trace_mut_id in Hf.
  assert (Ok (E:=reg_error) k = Ok ty) as [= ->]; [|done].
  apply Hf. intros i Hi. by destruct (H i Hi) as (j & -> & _).
Qed.

Lemma singleton_spec depth tramped r h ty :
  reg_inv r h -> drop_stack r = [] -> engine_edges r ty ->
  (tramp_of ty <> None -> tramped = true /\ tramp_spec (register_singleton_rec_group dbg oc min_cap depth)) ->
  roomy r (1 + cost tramped 1) -> Z.of_nat (length (edges ty) + cost tramped 1 + cost tramped 8 + length (refs_of r h)) + 4 < 2 ^ 64 ->
  exists e r', register_singleton_rec_group dbg oc min_cap (S depth) r ty = Ok (e, r') /\
    result r h e {| rec_types := [ty] |} (1 + cost tramped 1) (length (edges ty) + cost tramped 1 + 1) r' /\
    (faithful r -> faithful r').
Proof.
  intros Hinv Hst He Hrs Hroom Hb. cbn [register_singleton_rec_group].
  rewrite assert_edges_ok by (apply Hinv || done). cbn [mbind outcome_bind].
  assert (Hedges : [ty] ≫= edges = edges ty) by (cbn [mbind list_bind]; apply app_nil_r).
  destruct (register_body_ok dbg oc min_cap Hmin (register_singleton_rec_group dbg oc min_cap depth) tramped
              [] (u32_max - 1) u32_max [ty] r h Hinv Hst) as (e & ks & r' & H1 & Hk & Hr & Hf).
  - constructor; [by apply engine_type_ok|constructor].
  - cbn [length]. lia.
  - intros ty' ->%list_elem_of_singleton. exact Hrs.
  - exact Hroom.
  - rewrite Hedges. exact Hb.
  - apply Forall2_cons_inv_l in Hk as (k & ks' & Hk & Hks & ->). apply Forall2_nil_inv_l in Hks as ->.
    apply (keyed_engine r) in Hk as ->; [|done]. rewrite Hedges in Hr.
    exists e, r'. split; [exact H1|]. split; [exact Hr|]. intros Hfa. apply Hf; [done| |].
    + right. intros ty' m ->%list_elem_of_singleton Hm. by destruct (He _ Hm) as (j & ? & _).
    + intros [|k] ty' m [=<-] Hs. apply supertype_edge in Hs. by destruct (He _ Hs) as (j & ? & _).
Qed.

Lemma tramp_spec_one : tramp_spec (register_singleton_rec_group dbg oc min_cap 1).
Proof.
  intros r h g Hinv Hst Hg Hroom Hb. pose proof (trampoline_edges g Hg) as He.
  destruct (singleton_spec 0 false r h (trampoline_sub_type g) Hinv Hst) as (e & r' & H1 & Hr & Hf).
  - intros i Hi. rewrite He in Hi. by apply not_elem_of_nil in Hi.
  - by rewrite tramp_of_leaf.
  - exact Hroom.
  - rewrite He. cbn [length cost]. lia.
  - rewrite He in Hr. by exists e, r'.
Qed.

Lemma register_group_ok r h map start end_ tys :
  reg_inv r h -> drop_stack r = [] ->
  Forall (type_ok (fun i => is_Some (target r i)) map start end_) tys -> end_ - start = Z.of_nat (length tys) ->
  roomy r (2 * length tys) -> Z.of_nat (length (tys ≫= edges) + length tys + length (refs_of r h)) + 12 < 2 ^ 64 ->
  exists e ks r', register_rec_group dbg oc min_cap r map start end_ tys = Ok (e, r') /\
    Forall2 (keyed map start) tys ks /\
    result r h e {| rec_types := ks |} (2 * length tys) (length (tys ≫= edges) + length tys + 1) r' /\
    (faithful r -> dense_ok r start tys -> supers_before start tys -> faithful r').
Proof.
  intros Hinv Hst Hok Hse Hroom Hb.
  assert (H2 : (2 * length tys = length tys + cost true (length tys))%nat) by (cbn; lia). rewrite H2 in *.
  apply (register_body_ok dbg oc min_cap Hmin (register_singleton_rec_group dbg oc min_cap 1) true); try done.
  - intros ty _ _. split; [done|apply tramp_spec_one].
  - cbn [cost]. lia.
Qed.
End Singleton.

(** ** The operations on handles keep the invariant *)

(** The handle's type is registered under its index. *)
Definition handle_ok (r : TypeRegistryInner) (hd : handle) : Prop :=
  match hd with
  | HType t => target r (rindex t) = Some (entry t) /\ Slab.view (types r) !! (rindex t + 1) = Some (rty t)
  | HTypes c => forall i, i ∈ ctypes c -> exists e, e ∈ crec_groups c /\ target r i = Some e
  end.

Lemma handle_ok_grows r r' hd : grows r r' -> handle_ok r hd -> handle_ok r' hd.
Proof.
  intros Hg. destruct hd as [t|c]; cbn.
  - intros [Ht Hv]. split; [by apply Hg|]. by rewrite (gr_view _ _ Hg) by (by exists (entry t)).
  - intros H i Hi. destruct (H i Hi) as (e & He & Ht). exists e. split; [done|]. by apply Hg.
Qed.

Lemma handle_ok_survives r r' hd :
  survives r r' -> (forall e, e ∈ handle_refs hd -> e ∈ live r') -> handle_ok r hd -> handle_ok r' hd.
Proof.
  intros Hs Hl. destruct hd as [t|c]; cbn.
  - intros [Ht Hv]. assert (Ht' : target r' (rindex t) = Some (entry t)).
    { apply (su_kept _ _ Hs); [done|]. apply Hl. by left. }
    split; [done|]. by rewrite (su_view _ _ Hs) by (by exists (entry t)).
  - intros H i Hi. destruct (H i Hi) as (e & He & Ht). exists e. split; [done|].
    apply (su_kept _ _ Hs); [done|]. by apply Hl.
Qed.

#[export] Instance reg_inv_perm r : Proper ((≡ₚ) ==> iff) (reg_inv r).
Proof. intros h h' Hp. unfold reg_inv. by rewrite Hp. Qed.

Section Handles.
  Context (dbg oc : bool) (min_cap : Z) (Hmin : min_cap <= 16).
  Implicit Types r : TypeRegistryInner.

Lemma from_parts_ok r h e i t :
  reg_inv r (e :: h) -> from_parts dbg r e i t = Ok {| entry := e; rty := t; rindex := i |}.
Proof.
  intros [_ Hc]. destruct (co_count _ _ _ _ Hc e) as (x & Hx & Hr). { eapply co_refs; [exact Hc|]. by left. }
  unfold from_parts. rewrite Hx. cbn [unwrap mbind outcome_bind]. rewrite debug_assert_true; [done|].
  apply negb_true_iff, Z.eqb_neq. cbn [app] in Hr. rewrite occ_add, decide_True in Hr by done.
  pose proof (occ_nonneg e (h ++ (live r ≫= out r))). lia.
Qed.

Lemma registered_new_ok r h ty :
  reg_inv r h -> drop_stack r = [] -> engine_edges r ty -> roomy r 2 ->
  Z.of_nat (length (edges ty) + length (refs_of r h)) + 14 < 2 ^ 64 ->
  exists t r', registered_new dbg oc min_cap r ty = Ok (t, r') /\
    result r h (entry t) {| rec_types := [ty] |} 2 (length (edges ty) + 2) r' /\
    handle_ok r' (HType t) /\ (faithful r -> faithful r').
Proof.
  intros Hinv Hst He Hroom Hb. unfold registered_new. rewrite assert_edges_ok by (apply Hinv || done).
  cbn [mbind outcome_bind].
  destruct (singleton_spec dbg oc min_cap Hmin 1 true r h ty Hinv Hst He) as (e & r' & H1 & Hr & Hf).
  - intros _. split; [done|by apply tramp_spec_one].
  - exact Hroom.
  - cbn [cost]. lia.
  - rewrite H1. cbn [mbind outcome_bind]. pose proof (result_live _ _ _ _ _ _ _ Hr) as Hlive.
    destruct (re_inv _ _ _ _ _ _ _ Hr) as [Hs Hc]. destruct (sh_arcs _ Hs e Hlive) as [x Hx].
    destruct (sh_canon _ Hs e x Hlive Hx) as [_ Hlen]. pose proof (re_key _ _ _ _ _ _ _ Hr) as Hk.
    unfold key_of in Hk. rewrite Hx in Hk. injection Hk as Hk. rewrite Hk in Hlen.
    destruct (shared_type_indices x) as [|i [|]] eqn:Hsx; try done.
    rewrite Hx. cbn [unwrap mbind outcome_bind]. rewrite Hsx. cbn [head unwrap mbind outcome_bind].
    assert (Hti : target r' i = Some e).
    { apply (sh_target _ Hs). split; [done|]. unfold shared. rewrite Hx. cbn. rewrite Hsx. by left. }
    destruct (proj1 (sh_types _ Hs i)) as [Hi0 [t Ht]]; [by exists e|].
    unfold types_index. rewrite (types_index_ok r' i t (sh_slab _ Hs) Hi0 Ht). cbn [mbind outcome_bind unwrap].
    rewrite (from_parts_ok r' h) by apply Hr. cbn [mbind outcome_bind].
    eexists _, r'. split; [reflexivity|]. cbn [entry]. split; [|split; [|exact Hf]].
    + cbn [cost] in Hr. replace (length (edges ty) + 2)%nat with (length (edges ty) + 1 + 1)%nat by lia. exact Hr.
    + by split.
Qed.

Lemma incref_inv r h e :
  reg_inv r h -> drop_stack r = [] -> e ∈ live r -> Z.of_nat (length (refs_of r h)) + 1 < 2 ^ 64 ->
  exists r', incref r e = Ok r' /\ recounted r r' /\ reg_inv r' (e :: h) /\ drop_stack r' = [].
Proof.
  intros [Hs Hc] Hst He Hb. rewrite Hst in Hc.
  destruct (incref_ok r (live r) _ e Hc He Hb) as (r' & H1 & Hr & Hst' & Hc').
  exists r'. split; [done|]. split; [done|]. split; [|by rewrite Hst'].
  apply (recounted_inv r); try done. rewrite Hst', Hst. exact Hc'.
Qed.

Lemma root_ok r h i :
  reg_inv r h -> drop_stack r = [] -> 0 <= i < Z.of_nat (length (entries (types r))) ->
  Z.of_nat (length (refs_of r h)) + 1 < 2 ^ 64 ->
  exists ot r', root dbg r i = Ok (ot, r') /\ recounted r r' /\ drop_stack r' = [] /\
    match ot with
    | Some t => rindex t = i /\ reg_inv r' (entry t :: h) /\ handle_ok r' (HType t)
    | None => target r i = None /\ reg_inv r' h
    end.
Proof.
  intros Hinv Hst Hi Hb. pose proof Hinv as [Hs _]. unfold root, types_get, shared_type_index_to_slab_id, from_raw.
  assert (Hcap : Z.of_nat (length (entries (types r))) <= MAX_CAPACITY) by (destruct (sh_slab _ Hs); lia).
  rewrite entry_new_ok by lia. cbn [mbind outcome_bind]. unfold Slab.get. rewrite entry_index_key.
  destruct (lookup_lt_is_Some_2 (entries (types r)) (Z.to_nat i)) as [x Hx]; [lia|]. rewrite Hx.
  cbn [unwrap mbind outcome_bind].
  assert (Hv : Slab.view (types r) !! (i + 1) = occupant x).
  { replace i with (Z.of_nat (Z.to_nat i)) at 1 by lia. by rewrite slab_view_lookup, Hx. }
  destruct x as [t|]; cbn in Hv |- *.
  - destruct (proj2 (sh_types _ Hs i)) as [e He]; [split; [lia|by exists t]|].
    unfold entry_of. unfold target in He. rewrite He. cbn [unwrap mbind outcome_bind].
    destruct (incref_inv r h e Hinv Hst) as (r' & H1 & Hr & Hinv' & Hst'); [|done|].
    { by apply (sh_target _ Hs) in He as [? _]. }
    rewrite H1. cbn [mbind outcome_bind]. rewrite (from_parts_ok r' h) by done. cbn [mbind outcome_bind].
    eexists _, r'. split; [reflexivity|]. split; [done|]. split; [done|].
    cbn [handle_ok entry rty rindex]. split; [done|]. split; [done|].
    split; [by rewrite (recounted_target r r' Hr)|].
    by destruct (recounted_fields _ _ Hr) as (_ & -> & _).
  - exists None, r. split; [done|]. split; [apply recounted_refl|]. split; [done|]. split; [|done].
    destruct (target r i) as [e|] eqn:He; [|done]. exfalso.
    destruct (proj1 (sh_types _ Hs i)) as [_ [? ?]]; [by exists e|]. congruence.
Qed.

Lemma unregister_collection_ok es : forall r h,
  reg_inv r (es ++ h) -> drop_stack r = [] ->
  exists r', unregister_type_collection dbg oc r es = Ok r' /\ reg_inv r' h /\ drop_stack r' = [] /\ survives r r'.
Proof.
  induction es as [|e es IH]; intros r h Hinv Hst.
  { exists r. split; [done|]. split; [done|]. split; [done|]. apply survives_refl, recounted_refl. }
  destruct (release_handle_ok dbg oc r (es ++ h) e Hinv Hst) as (r1 & H1 & Hinv1 & Hst1 & Hsv1).
  destruct (IH r1 h Hinv1 Hst1) as (r2 & H2 & Hinv2 & Hst2 & Hsv2).
  exists r2. split; [|split; [done|]; split; [done|]; by eapply survives_trans].
  cbn [unregister_type_collection]. apply bind_Ok_inv in H1 as ([z r0] & Hd & H1). rewrite Hd.
  cbn [mbind outcome_bind]. rewrite H1. exact H2.
Qed.
End Handles.

(** ** Loading the types of a module *)

Section Load.
  Context (dbg oc : bool) (min_cap : Z) (Hmin : min_cap <= 16).
  Implicit Types (r : TypeRegistryInner) (m : ModuleTypes).

Lemma mapM_range {A} (l : list A) n : forall s,
  (s + n <= length l)%nat ->
  mapM (fun i => unwrap (E:=reg_error) (l !! i)) (seq s n) = Ok (take n (drop s l)).
Proof.
  induction n as [|n IH]; intros s Hs; [done|]. cbn [seq mapM].
  destruct (lookup_lt_is_Some_2 l s) as [x Hx]; [lia|]. rewrite Hx. cbn [unwrap mbind outcome_bind].
  rewrite IH by lia. cbn [mbind outcome_bind]. rewrite (drop_S l x s) by done. done.
Qed.

Lemma range_types_ok m s e :
  0 <= s <= e -> e <= Z.of_nat (length (wasm_types m)) -> range_types m s e = Ok (group_types (wasm_types m) s e).
Proof.
  intros Hs He. unfold range_types. rewrite (proj2 (Z.leb_le 0 s)) by lia. cbn [assert_ mbind outcome_bind].
  apply mapM_range. lia.
Qed.

Lemma push_range_ok l : forall map i end_,
  i = Z.of_nat (length map) -> end_ = i + Z.of_nat (length l) -> push_range map i end_ l = Ok (map ++ l).
Proof.
  induction l as [|x l IH]; intros map i end_ Hi He; cbn [push_range]; [by rewrite app_nil_r|].
  cbn [length] in He. rewrite (proj2 (Z.ltb_lt _ _)) by lia. rewrite (proj2 (Z.eqb_eq _ _)) by done.
  cbn [assert_ mbind outcome_bind]. rewrite (IH (map ++ [x])); [by rewrite <- app_assoc| |lia].
  rewrite length_app. cbn. lia.
Qed.

Lemma valid_types_ok e tys : forall k map known,
  valid_types e k tys = true ->
  (forall n, 0 <= n < Z.of_nat (length map) -> exists j, map !! Z.to_nat n = Some j /\ known j) ->
  forall start, start = Z.of_nat (length map) -> start <= k ->
  Forall (type_ok known map start e) tys /\
  forall n ty x, tys !! n = Some ty -> supertype ty = Some (Module_ x) -> x < k + Z.of_nat n.
Proof.
  induction tys as [|ty tys IH]; intros k map known Hv Hmap start Hstart Hk; [by split|].
  cbn [valid_types] in Hv. apply andb_prop in Hv as [Hty Hv]. apply andb_prop in Hty as [Hed Hsup].
  destruct (IH (k + 1) map known Hv Hmap start Hstart) as [H1 H2]; [lia|]. split.
  - constructor; [|done]. apply Forall_forall. intros i Hi. rewrite forallb_forall in Hed.
    apply list_elem_of_In, Hed in Hi. destruct i as [|x|]; try done. zbool. cbn.
    split; [lia|]. intros Hx. apply Hmap. lia.
  - intros [|n] ty' x Hn Hs; cbn in Hn.
    + injection Hn as <-. rewrite Hs in Hsup. zbool. lia.
    + specialize (H2 n ty' x Hn Hs). lia.
Qed.

(** The types of the module that have an index, and the entries that hold them. *)
Record loaded r m (E : list nat) (map : list Z) : Prop := {
  ld_held i : i ∈ map -> exists e, e ∈ E /\ target r i = Some e;
  ld_kind k i ty : map !! k = Some i -> wasm_types m !! k = Some ty ->
    exists t, Slab.view (types r) !! (i + 1) = Some t /\ kind_of t = kind_of ty
}.

Lemma loaded_grows r r' m E E' map :
  grows r r' -> (forall e, e ∈ E -> e ∈ E') -> loaded r m E map -> loaded r' m E' map.
Proof.
  intros Hg HE [H1 H2]. split.
  - intros i Hi. destruct (H1 i Hi) as (e & He & Ht). exists e. split; [auto|]. by apply Hg.
  - intros k i ty Hk Hty. destruct (H2 k i ty Hk Hty) as (t & Ht & Hkd). exists t. split; [|done].
    destruct (H1 i) as (e & _ & Hi); [by eapply list_elem_of_lookup_2|].
    by rewrite (gr_view _ _ Hg) by (by exists e).
Qed.

Lemma loaded_group r h e ks n c r' m map start tys :
  result r h e {| rec_types := ks |} n c r' -> Forall2 (keyed map start) tys ks ->
  start = Z.of_nat (length map) -> (forall k ty, tys !! k = Some ty -> wasm_types m !! (Z.to_nat start + k)%nat = Some ty) ->
  forall E, loaded r m E map ->
  loaded r' m (E ++ [e]) (map ++ shared r' e) /\ length (shared r' e) = length tys.
Proof.
  intros Hr Hk Hstart Htys E Hl. pose proof (result_live _ _ _ _ _ _ _ Hr) as He.
  destruct (re_inv _ _ _ _ _ _ _ Hr) as [Hs _]. pose proof (re_key _ _ _ _ _ _ _ Hr) as Hkey.
  assert (Hlen : length (shared r' e) = length tys).
  { destruct (sh_arcs _ Hs e He) as [x Hx]. destruct (sh_canon _ Hs e x He Hx) as [_ Hlen].
    unfold shared, key_of in *. rewrite Hx in *. cbn in *. injection Hkey as Hkey. rewrite Hlen, Hkey.
    symmetry. by eapply Forall2_length. }
  split; [|done]. apply (loaded_grows r r' m E (E ++ [e])) in Hl as [H1 H2]; [|apply Hr|intros; by apply elem_of_app; left].
  split.
  - intros i [Hi|Hi]%elem_of_app; [auto|]. exists e. split; [apply elem_of_app; right; by left|].
    by apply (sh_target _ Hs).
  - intros k i ty Hki Hty. apply lookup_app_Some in Hki as [Hki|[Hge Hki]]; [by eapply H2|].
    destruct (lookup_lt_is_Some_2 tys (k - length map)) as [ty' Hty'].
    { rewrite <- Hlen. by eapply lookup_lt_Some. }
    pose proof (Htys _ _ Hty') as Hm. replace (Z.to_nat start + (k - length map))%nat with k in Hm by lia.
    rewrite Hty in Hm. injection Hm as <-.
    destruct (Forall2_lookup_l _ _ _ _ _ Hk Hty') as (kty & Hkty & Hke).
    destruct (sh_kind _ Hs e _ (k - length map) kty i He Hkey Hkty Hki) as (t & Ht & Hkd).
    exists t. split; [done|]. rewrite Hkd. by eapply keyed_kind.
Qed.

Lemma group_split tys s e :
  0 <= s <= e -> e <= Z.of_nat (length tys) ->
  drop (Z.to_nat s) tys = group_types tys s e ++ drop (Z.to_nat e) tys /\
  Z.of_nat (length (group_types tys s e)) = e - s.
Proof.
  intros Hs He. unfold group_types. split.
  - replace (drop (Z.to_nat e) tys) with (drop (Z.to_nat (e - s)) (drop (Z.to_nat s) tys)).
    + by rewrite take_drop.
    + rewrite drop_drop. f_equal. lia.
  - rewrite length_take, length_drop. lia.
Qed.

Lemma group_lookup tys s e k ty : group_types tys s e !! k = Some ty -> tys !! (Z.to_nat s + k)%nat = Some ty.
Proof. unfold group_types. intros H. apply lookup_take_Some in H as [H _]. by rewrite lookup_drop in H. Qed.

(** No group of the module refers to its own types. *)
Definition no_own_types (tys : list WasmSubType) (gs : list (Z * Z)) : Prop :=
  Forall (fun '(s, e) => forall ty x, ty ∈ group_types tys s e -> Module_ x ∈ edges ty -> x < s) gs.

Lemma register_groups_ok m gs : forall r h E map start,
  reg_inv r h -> drop_stack r = [] -> valid_groups (wasm_types m) start gs = true ->
  start = Z.of_nat (length map) -> loaded r m E map ->
  roomy r (2 * length (drop (Z.to_nat start) (wasm_types m))) ->
  Z.of_nat (length (drop (Z.to_nat start) (wasm_types m) ≫= edges) +
            length (drop (Z.to_nat start) (wasm_types m)) + length gs + length (refs_of r h)) + 12 < 2 ^ 64 ->
  exists es map' r', register_groups dbg oc min_cap r m map gs = Ok (es, map', r') /\
    reg_inv r' (es ++ h) /\ drop_stack r' = [] /\ grows r r' /\ roomy r' 0 /\
    loaded r' m (E ++ es) map' /\ length map' = length (wasm_types m) /\
    (faithful r -> free (types r) = None \/ no_own_types (wasm_types m) gs -> faithful r').
Proof.
  induction gs as [|[s e] gs IH]; intros r h E map start Hinv Hst Hv Hmap Hld Hroom Hb.
  { cbn [valid_groups] in Hv. apply Z.eqb_eq in Hv. exists [], map, r. rewrite app_nil_r.
    split; [done|]. split; [done|]. split; [done|]. split; [apply grows_recounted, recounted_refl|].
    split; [unfold roomy in *; lia|]. split; [done|]. split; [lia|done]. }
  cbn [valid_groups] in Hv. apply andb_prop in Hv as [Hv Hvg]. apply andb_prop in Hv as [Hv Hvt].
  apply andb_prop in Hv as [Hv Hen]. apply andb_prop in Hv as [Hss Hse].
  apply Z.eqb_eq in Hss as ->. apply Z.leb_le in Hen, Hse.
  destruct (group_split (wasm_types m) start e) as [Hsplit Hlen]; [lia|lia|].
  set (tys := group_types (wasm_types m) start e) in *. rewrite Hsplit in Hroom, Hb.
  rewrite bind_app, !length_app in Hb. rewrite length_app in Hroom. cbn [length] in Hb.
  destruct (valid_types_ok e tys start map (fun i => is_Some (target r i))) with (start := start) as [Hok Hsb]; try (done || lia).
  { intros n Hn. destruct (lookup_lt_is_Some_2 map (Z.to_nat n)) as [j Hj]; [lia|]. exists j. split; [done|].
    destruct (ld_held _ _ _ _ Hld j) as (x & _ & Hx); [by eapply list_elem_of_lookup_2|]. by exists x. }
  destruct (register_group_ok dbg oc min_cap Hmin r h map start e tys) as (e1 & ks & r1 & H1 & Hk & Hr & Hf); try done.
  { unfold roomy in *. lia. }
  { lia. }
  destruct (loaded_group r h e1 ks _ _ r1 m map start tys Hr Hk Hmap (group_lookup _ _ _) E Hld) as [Hld1 Hls1].
  destruct (IH r1 (e1 :: h) (E ++ [e1]) (map ++ shared r1 e1) e) as (es & map' & r2 & H2 & Hinv2 & Hst2 & Hg2 & Hroom2 & Hld2 & Hlm & Hf2);
    try done; try apply Hr.
  { rewrite length_app, Hls1. lia. }
  { unfold roomy in *. lia. }
  { pose proof (re_refs _ _ _ _ _ _ _ Hr). lia. }
  exists (e1 :: es), map', r2. split; [|split; [|split; [done|split; [|split; [done|split; [|split; [done|]]]]]]].
  - cbn [register_groups]. rewrite range_types_ok by lia. cbn [mbind outcome_bind]. fold tys. rewrite H1.
    cbn [mbind outcome_bind]. destruct (sh_arcs r1) with (e := e1) as [x Hx]; [apply Hr|by eapply result_live|].
    rewrite Hx. cbn [unwrap mbind outcome_bind]. assert (Hsx : shared r1 e1 = shared_type_indices x) by (unfold shared; by rewrite Hx).
    rewrite <- Hsx, push_range_ok by lia. cbn [mbind outcome_bind]. rewrite H2. done.
  - eapply reg_inv_perm; [|exact Hinv2]. solve_Permutation.
  - eapply grows_trans; [apply Hr|done].
  - by rewrite <- app_assoc in Hld2.
  - intros Hfa Hd. apply Hf2.
    + apply Hf; [done| |exact Hsb]. destruct Hd as [Hd|Hd]; [by left|right]. by apply Forall_cons in Hd as [? _].
    + destruct Hd as [Hd|Hd]; [left; by apply (re_free _ _ _ _ _ _ _ Hr)|right]. by apply Forall_cons in Hd as [_ ?].
Qed.

Lemma collect_trampolines_ok r m E map l : forall acc,
  shape r -> loaded r m E map -> length map = length (wasm_types m) ->
  forallb (fun '(k, _) =>
    (0 <=? k) && match wasm_types m !! Z.to_nat k with
                 | Some ty => bool_decide (is_Some (as_func ty))
                 | None => false
                 end) l = true ->
  exists ts, collect_trampolines dbg r map acc l = Ok ts.
Proof.
  induction l as [|[k v] l IH]; intros acc Hs Hld Hlen Hv; [by exists acc|].
  cbn [forallb] in Hv. apply andb_prop in Hv as [Hk Hv]. apply andb_prop in Hk as [Hk0 Hk]. apply Z.leb_le in Hk0.
  destruct (wasm_types m !! Z.to_nat k) as [ty|] eqn:Hty; [|done]. apply bool_decide_eq_true in Hk.
  destruct (lookup_lt_is_Some_2 map (Z.to_nat k)) as [i Hi]. { rewrite Hlen. by eapply lookup_lt_Some. }
  destruct (ld_kind _ _ _ _ Hld _ i ty Hi Hty) as (t & Ht & Hkd).
  destruct (ld_held _ _ _ _ Hld i) as (e & _ & He); [by eapply list_elem_of_lookup_2|].
  assert (Hi0 : 0 <= i) by (apply (sh_types _ Hs); by exists e).
  cbn [collect_trampolines]. unfold map_index. rewrite (proj2 (Z.ltb_ge _ _)) by lia. rewrite Hi.
  cbn [unwrap mbind outcome_bind]. unfold registry_trampoline_type, types_index.
  rewrite (types_index_ok r i t (sh_slab _ Hs) Hi0 Ht). cbn [unwrap mbind outcome_bind].
  rewrite debug_assert_true; [cbn [mbind outcome_bind]; by apply IH|].
  apply bool_decide_eq_true_2. unfold kind_of, as_func in *. destruct (composite_type t), (composite_type ty); try done.
Qed.

Lemma new_for_module_ok r h m :
  reg_inv r h -> drop_stack r = [] -> valid_module m = true -> roomy r (2 * length (wasm_types m)) ->
  Z.of_nat (length (wasm_types m ≫= edges) + length (wasm_types m) + length (rec_groups m) +
            length (refs_of r h)) + 12 < 2 ^ 64 ->
  exists c r', new_for_module dbg oc min_cap r m = Ok (c, r') /\
    reg_inv r' (crec_groups c ++ h) /\ drop_stack r' = [] /\ grows r r' /\ roomy r' 0 /\
    handle_ok r' (HTypes c) /\
    (faithful r -> free (types r) = None \/ no_own_types (wasm_types m) (rec_groups m) -> faithful r').
Proof.
  intros Hinv Hst Hv Hroom Hb. apply andb_prop in Hv as [Hv Ht].
  destruct (register_groups_ok m (rec_groups m) r h [] [] 0) as (es & map & r' & H1 & Hinv' & Hst' & Hg & Hr & Hld & Hlm & Hf);
    try done.
  { split; [by intros i Hi%not_elem_of_nil|done]. }
  destruct (collect_trampolines_ok r' m ([] ++ es) map (trampoline_types m) ∅) as [ts Hts]; [apply Hinv'|done..|].
  eexists _, r'. unfold new_for_module, register_module_types. rewrite H1. cbn [mbind outcome_bind].
  rewrite Hts. cbn [mbind outcome_bind]. split; [reflexivity|]. cbn [crec_groups].
  split_and!; try done. cbn [handle_ok ctypes crec_groups]. apply Hld.
Qed.
End Load.

(** ** The stored types stay true to their keys *)

Lemma faithful_survives r r' : shape r -> shape r' -> survives r r' -> faithful r -> faithful r'.
Proof.
  intros Hs Hs' Hsv [F1 F2].
  assert (Hk := fun x => strip_key r r' x (su_arcs _ _ Hsv)). assert (Hsh := fun x => strip_shared r r' x (su_arcs _ _ Hsv)).
  assert (Hv : forall e i, e ∈ live r' -> i ∈ shared r' e -> Slab.view (types r') !! (i + 1) = Slab.view (types r) !! (i + 1)).
  { intros e i He Hi. apply (su_view _ _ Hsv). exists e. by apply (sh_target _ Hs'). }
  split.
  - intros e key k kty i He Hkey Hkty Hi. pose proof (list_elem_of_lookup_2 _ _ _ Hi) as Hin.
    rewrite (Hv e i He Hin). rewrite Hsh in *. rewrite Hk in Hkey.
    eapply F1; try done. by apply (su_live _ _ Hsv).
  - intros i t [e He] Ht. pose proof He as [Hel Hin]%(sh_target _ Hs'). rewrite (Hv e i Hel Hin) in Ht.
    assert (Hti : is_Some (target r i)) by (exists e; by apply (su_target _ _ Hsv)).
    pose proof (F2 i t Hti Ht) as Hsup. rewrite (su_supers _ _ Hsv) by (by exists e).
    destruct (supertype t) as [[s| |]|] eqn:Hst; try done. destruct Hsup as [Hts Htt].
    enough (Hts' : is_Some (target r' s)).
    { split; [done|]. rewrite Htt. unfold supertypes. by rewrite (su_supers _ _ Hsv). }
    apply list_elem_of_lookup in Hin as [k Hki]. destruct (sh_arcs _ Hs' e Hel) as [x Hx].
    destruct (sh_canon _ Hs' e x Hel Hx) as [_ Hlen].
    assert (Hsx : shared r' e = shared_type_indices x) by (unfold shared; by rewrite Hx).
    assert (Hkx : key_of r' e = Some (hash_consing_key x)) by (unfold key_of; by rewrite Hx).
    destruct (lookup_lt_is_Some_2 (rec_types (hash_consing_key x)) k) as [kty Hkty].
    { rewrite <- Hlen, <- Hsx. by eapply lookup_lt_Some. }
    destruct (F1 e (hash_consing_key x) k kty i) as (t' & Ht' & Htr); try done.
    { by apply (su_live _ _ Hsv). }
    { by rewrite <- Hk. }
    { by rewrite <- Hsh. }
    rewrite Ht in Ht'. injection Ht' as <-. pose proof (trace_sub_supertype _ _ _ Htr) as Hs0.
    destruct (supertype kty) as [s0|] eqn:Hks; [|congruence]. destruct Hs0 as (s' & Hs1 & Hun).
    rewrite Hst in Hs1. injection Hs1 as <-. destruct s0 as [j| |j]; cbn in Hun; try done.
    + injection Hun as ->. destruct (sh_edges _ Hs' e s Hel) as (y & Hy & _); [|by exists y].
      unfold key_indices. rewrite Hkx. cbn [from_option]. unfold engine_indices. apply list_elem_of_omap.
      exists (Engine s). split; [|done]. change (edges (hash_consing_key x)) with (rec_types (hash_consing_key x) ≫= edges).
      apply list_elem_of_bind. exists kty. split; [by apply supertype_edge|by eapply list_elem_of_lookup_2].
    + destruct (j <? 0); [done|]. apply bind_Ok_inv in Hun as (y & Hy & Hun). injection Hun as ->.
      apply unwrap_Ok in Hy. exists e. apply (sh_target _ Hs'). split; [done|].
      rewrite Hsh. by eapply list_elem_of_lookup_2.
Qed.

(** ** The invariant of worlds *)

Record world_inv (w : World) : Prop := {
  wi_reg : reg_inv (reg w) (refs w);
  wi_stack : drop_stack (reg w) = [];
  wi_cap : cap (types (reg w)) <= 2 * Z.of_nat (length (entries (types (reg w)))) + 16;
  wi_handles hd : hd ∈ handles w -> handle_ok (reg w) hd
}.

(** The group does not refer to its own types when indices were given back before. *)
Definition dense (w : World) (o : op) : Prop :=
  match o with
  | Load m => free (types (reg w)) = None \/ no_own_types (wasm_types m) (rec_groups m)
  | _ => True
  end.

Lemma shape_new : shape registry_new.
Proof.
  split; cbn; try done; try (by intros ? ?%not_elem_of_nil); try (by intros ? ? ?%not_elem_of_nil).
  - constructor.
  - intros i e. unfold target. cbn. rewrite lookup_empty. split; [done|]. by intros [?%not_elem_of_nil _].
  - apply inv_default.
  - intros i. unfold target. cbn. rewrite lookup_empty. split; [by intros []|]. intros [_ [t Ht]].
    apply view_lookup_Some in Ht as [_ Ht]. cbn in Ht. by rewrite lookup_nil in Ht.
Qed.

Lemma world_inv_new : world_inv world_new.
Proof.
  split; cbn; try done; [|by intros ? ?%not_elem_of_nil]. split; [apply shape_new|].
  split; cbn; try done; try (by intros ? ?%not_elem_of_nil); [|constructor].
  intros e. split; [by intros ?%not_elem_of_nil|]. by intros [?%not_elem_of_nil _].
Qed.

Lemma faithful_new : faithful registry_new.
Proof.
  split; [by intros e key k kty i ?%not_elem_of_nil|].
  intros i t [e He]. unfold target in He. cbn in He. by rewrite lookup_empty in He.
Qed.

Section Steps.
  Context (dbg oc : bool) (min_cap : Z) (Hmin : min_cap <= 16).

(** What a step from [w] leads to. *)
Definition step_ok (w : World) (o : op) : Prop :=
  exists w', run dbg oc min_cap o w = Ok w' /\ world_inv w' /\
    (faithful (reg w) -> dense w o -> faithful (reg w')).

Lemma world_grows w r' hd :
  world_inv w -> grows (reg w) r' -> reg_inv r' (handle_refs hd ++ refs w) -> drop_stack r' = [] ->
  cap (types r') <= 2 * Z.of_nat (length (entries (types r'))) + 16 -> handle_ok r' hd ->
  world_inv {| reg := r'; handles := hd :: handles w |}.
Proof.
  intros Hw Hg Hinv Hst Hc Hh. split; try done. cbn. intros hd' [->|Hin]%elem_of_cons; [done|].
  eapply handle_ok_grows; [done|]. by apply Hw.
Qed.

Lemma recounted_cap r r' : recounted r r' -> types r' = types r.
Proof. intros Hr. apply (recounted_fields _ _ Hr). Qed.

Lemma run_new w ty : world_inv w -> allowed w (New ty) -> step_ok w (New ty).
Proof.
  intros Hw [[Hf1 Hf2] He]. cbn [op_types length mbind list_bind op_groups] in Hf1, Hf2. rewrite app_nil_r in Hf2.
  destruct (registered_new_ok dbg oc min_cap Hmin (reg w) (refs w) ty) as (t & r' & H1 & Hr & Hh & Hf).
  - apply Hw.
  - apply Hw.
  - exact He.
  - split; [apply Hw|lia].
  - lia.
  - eexists. unfold run. rewrite H1. cbn [mbind outcome_bind]. split; [reflexivity|]. split; [|auto].
    apply world_grows; try done; try apply Hr. apply (re_room _ _ _ _ _ _ _ Hr 0). split; [apply Hw|cbn; lia].
Qed.

Lemma run_root w i : world_inv w -> allowed w (Root i) -> step_ok w (Root i).
Proof.
  intros Hw [[_ Hf2] Hi]. cbn [op_types length mbind list_bind op_groups] in Hf2.
  destruct (root_ok dbg (reg w) (refs w) i) as (ot & r' & H1 & Hr & Hst & Hot); try done; try apply Hw; [lia|].
  eexists. unfold run. rewrite H1. cbn [mbind outcome_bind]. split; [reflexivity|].
  split; [|intros ? _; by eapply faithful_recounted].
  destruct ot as [t|].
  - destruct Hot as (_ & Hinv & Hh). apply world_grows; try done; [by apply grows_recounted|].
    rewrite (recounted_cap _ _ Hr). apply Hw.
  - destruct Hot as [_ Hinv]. split; try done; cbn.
    + rewrite (recounted_cap _ _ Hr). apply Hw.
    + intros hd Hin. eapply handle_ok_grows; [by apply grows_recounted|]. by apply Hw.
Qed.

Lemma run_clone w k : world_inv w -> allowed w (Clone k) -> step_ok w (Clone k).
Proof.
  intros Hw [[_ Hf2] _]. cbn [op_types length mbind list_bind op_groups] in Hf2. unfold step_ok, run.
  destruct (handles w !! k) as [[t|c]|] eqn:Hk; [|by exists w; auto..].
  pose proof (list_elem_of_lookup_2 _ _ _ Hk) as Hin.
  destruct (wi_reg _ Hw) as [Hs Hc].
  assert (Hlive : entry t ∈ live (reg w)).
  { destruct (wi_handles _ Hw _ Hin) as [Ht _]. by apply (sh_target _ Hs) in Ht as [? _]. }
  destruct (incref_inv (reg w) (refs w) (entry t) (conj Hs Hc) (wi_stack _ Hw) Hlive) as (r' & H1 & Hr & Hinv & Hst); [lia|].
  unfold registered_clone. rewrite H1. cbn [mbind outcome_bind]. eexists; split; [reflexivity|].
  split; [|intros ? _; by eapply faithful_recounted].
  apply world_grows; try done; [by apply grows_recounted|rewrite (recounted_cap _ _ Hr); apply Hw|].
  eapply handle_ok_grows; [by apply grows_recounted|]. by apply Hw.
Qed.

Lemma refs_delete w k hd :
  handles w !! k = Some hd -> refs w ≡ₚ handle_refs hd ++ (delete k (handles w) ≫= handle_refs).
Proof.
  intros Hk. unfold refs. by rewrite (delete_Permutation _ _ _ Hk) at 1.
Qed.

Lemma world_survives w k r' :
  world_inv w -> survives (reg w) r' -> reg_inv r' (delete k (handles w) ≫= handle_refs) -> drop_stack r' = [] ->
  world_inv {| reg := r'; handles := delete k (handles w) |}.
Proof.
  intros Hw Hsv Hinv Hst. split; try done; cbn.
  - pose proof (su_size _ _ Hsv) as [= -> ->]. apply Hw.
  - intros hd Hin. eapply handle_ok_survives; [done| |].
    + intros e He. destruct Hinv as [_ Hc]. eapply co_refs; [exact Hc|]. apply elem_of_app. left.
      apply list_elem_of_bind. by exists hd.
    + apply Hw. by eapply list_elem_of_delete_inv.
Qed.

Lemma run_drop w k : world_inv w -> step_ok w (Drop k).
Proof.
  intros Hw. unfold step_ok, run. destruct (handles w !! k) as [hd|] eqn:Hk; [|by exists w].
  pose proof (refs_delete w k hd Hk) as Hp. pose proof (wi_reg _ Hw) as Hinv. rewrite Hp in Hinv.
  assert (Hs : shape (reg w)) by apply Hinv. pose proof (wi_stack _ Hw) as Hst. destruct hd as [t|c].
  - destruct (release_handle_ok dbg oc (reg w) _ (entry t) Hinv Hst) as (r' & H1 & Hinv' & Hst' & Hsv).
    unfold registered_drop. rewrite H1. cbn [mbind outcome_bind]. eexists; split; [reflexivity|].
    split; [by apply world_survives|]. intros Hf _. eapply (faithful_survives (reg w)); try done. apply Hinv'.
  - destruct (unregister_collection_ok dbg oc (crec_groups c) (reg w) _ Hinv Hst) as (r' & H1 & Hinv' & Hst' & Hsv).
    unfold collection_drop. rewrite H1. cbn [mbind outcome_bind]. eexists; split; [reflexivity|].
    split; [by apply world_survives|]. intros Hf _. eapply (faithful_survives (reg w)); try done. apply Hinv'.
Qed.

Lemma run_load w m : world_inv w -> allowed w (Load m) -> step_ok w (Load m).
Proof.
  intros Hw [[Hf1 Hf2] Hv]. cbn [op_types op_groups] in Hf1, Hf2.
  destruct (new_for_module_ok dbg oc min_cap Hmin (reg w) (refs w) m) as (c & r' & H1 & Hinv & Hst & Hg & Hr & Hh & Hf).
  - apply Hw.
  - apply Hw.
  - exact Hv.
  - split; [apply Hw|lia].
  - lia.
  - eexists. unfold run. rewrite H1. cbn [mbind outcome_bind]. split; [reflexivity|]. split; [|exact Hf].
    apply world_grows; try done. apply Hr.
Qed.

Lemma run_step_ok w o : world_inv w -> allowed w o -> step_ok w o.
Proof. destruct o; auto using run_new, run_root, run_clone, run_drop, run_load. Qed.

Lemma reachable_inv P w : reachable dbg oc min_cap P w -> world_inv w.
Proof.
  induction 1 as [|w o w' _ IH Ha _ Hr]; [apply world_inv_new|].
  destruct (run_step_ok w o IH Ha) as (w1 & H1 & Hw1 & _). rewrite H1 in Hr. by injection Hr as <-.
Qed.

Lemma reachable_faithful w : reachable dbg oc min_cap dense w -> faithful (reg w).
Proof.
  induction 1 as [|w o w' Hw IH Ha Hd Hr]; [apply faithful_new|].
  destruct (run_step_ok w o (reachable_inv _ _ Hw) Ha) as (w1 & H1 & _ & Hf). rewrite H1 in Hr. injection Hr as <-. auto.
Qed.
End Steps.

(** ** A registry without handles *)

Section Empty.
  Implicit Types r : TypeRegistryInner.

(** Groups without references are below all others, which are in the order of their
    registration; a group refers to groups below it. *)
Definition rank r (e : nat) : nat := match out r e with [] => 0 | _ => S e end.

Lemma rank_out r e e' : shape r -> e ∈ live r -> e' ∈ out r e -> (rank r e' < rank r e)%nat.
Proof.
  intros Hs He Ho. assert (Hr : rank r e = S e) by (unfold rank; destruct (out r e); [by apply not_elem_of_nil in Ho|done]).
  rewrite Hr. apply elem_of_app in Ho as [Ho|Ho].
  - apply list_elem_of_omap in Ho as (i & Hi & Ht). destruct (sh_edges _ Hs e i He Hi) as (y & Hy & Hlt).
    assert (y = e') as -> by congruence. unfold rank. destruct (out r e'); lia.
  - apply list_elem_of_omap in Ho as (i & Hi & Ht). unfold tramp_target in Ht.
    destruct (type_to_trampoline r !! i) as [t|] eqn:Hit; [|done]. cbn in Ht.
    destruct (sh_tramp _ Hs i t Hit) as (_ & _ & kty & g & y & _ & _ & _ & Hg & Hy & Hk).
    assert (y = e') as -> by congruence.
    assert (Htr : is_trampoline_type g = true).
    { unfold tramp_of in Hg. destruct (as_func kty); [|done]. by eapply trampoline_type_is. }
    assert (out r e' = []) as Hoe; [|unfold rank; rewrite Hoe; lia].
    unfold out, key_indices. rewrite Hk. cbn [from_option]. rewrite tramp_key_indices by done. cbn [omap list_omap app].
    pose proof (proj1 (sh_target _ Hs t e') Hy) as [He' _].
    rewrite (list_omap_ext (tramp_target r) (fun _ => None) (shared r e') (shared r e')); [by induction (shared r e')|].
    apply Forall_Forall2_diag, Forall_forall. intros j Hj. unfold tramp_target.
    destruct (type_to_trampoline r !! j) as [u|] eqn:Hju; [|done]. exfalso.
    destruct (sh_tramp _ Hs j u Hju) as (z & k & kt & g' & _ & Hz & Hzl & (key & Hkz & Hkt) & Hg' & _).
    assert (target r j = Some z) by (apply (sh_target _ Hs); split; [done|by eapply list_elem_of_lookup_2]).
    assert (target r j = Some e') by (by apply (sh_target _ Hs)). assert (z = e') as -> by congruence.
    rewrite Hk in Hkz. injection Hkz as <-. destruct k as [|]; [|done]. injection Hkt as <-.
    by rewrite tramp_of_leaf in Hg'.
Qed.

Lemma no_refs_no_live r : reg_inv r [] -> drop_stack r = [] -> live r = [].
Proof.
  intros [Hs Hc] Hst. rewrite Hst in Hc.
  assert (Hno : forall n e, e ∈ live r -> (S (length (arcs r)) <= rank r e + n)%nat -> False).
  { induction n as [|n IH]; intros e He Hn.
    - destruct (sh_arcs _ Hs e He) as [x Hx]. apply lookup_lt_Some in Hx. unfold rank in Hn. destruct (out r e); lia.
    - destruct (decide (e ∈ [] ++ (live r ≫= out r))) as [Hin|Hin].
      + cbn [app] in Hin. apply list_elem_of_bind in Hin as (e1 & Ho & He1).
        pose proof (rank_out r e1 e Hs He1 Ho). apply (IH e1 He1). lia.
      + apply (not_elem_of_nil e), (co_stack _ _ _ _ Hc). done. }
  destruct (live r) as [|e l] eqn:Hl; [done|]. exfalso.
  apply (Hno (S (length (arcs r))) e); [by left|lia].
Qed.

Lemma empty_registry r : reg_inv r [] -> drop_stack r = [] -> registry_drop true r = Ok ().
Proof.
  intros Hinv Hst. pose proof (no_refs_no_live r Hinv Hst) as Hl. destruct Hinv as [Hs _].
  assert (Ht : forall i, target r i = None).
  { intros i. destruct (target r i) as [e|] eqn:He; [|done]. apply (sh_target _ Hs) in He as [He _].
    rewrite Hl in He. by apply not_elem_of_nil in He. }
  unfold registry_drop. unfold live in Hl. rewrite Hl, Hst.
  assert (type_to_rec_group r = ∅) as -> by (apply map_eq; intros i; rewrite lookup_empty; apply Ht).
  assert (type_to_supertypes r = ∅) as ->.
  { apply map_eq. intros i. rewrite lookup_empty. destruct (type_to_supertypes r !! i) eqn:Hi; [|done]. exfalso.
    destruct (sh_supers _ Hs i) as [e He]; [by rewrite Hi|]. by rewrite Ht in He. }
  assert (type_to_trampoline r = ∅) as ->.
  { apply map_eq. intros i. rewrite lookup_empty. destruct (type_to_trampoline r !! i) as [t|] eqn:Hi; [|done]. exfalso.
    destruct (sh_tramp _ Hs i t Hi) as (_ & _ & _ & _ & e & _ & _ & _ & _ & He & _). by rewrite Ht in He. }
  assert (Slab.is_empty (types r) = true) as ->; [|done].
  unfold Slab.is_empty, Slab.len. apply Z.eqb_eq. destruct (sh_slab _ Hs) as [_ -> _]. unfold count.
  destruct (omap occupant (entries (types r))) as [|t l] eqn:Ho; [done|]. exfalso.
  assert (Hin : t ∈ omap occupant (entries (types r))) by (rewrite Ho; by left).
  apply list_elem_of_omap in Hin as (x & Hx & Hocc). apply list_elem_of_lookup in Hx as [k Hk].
  destruct (proj2 (sh_types _ Hs (Z.of_nat k))) as [e He]; [|by rewrite Ht in He].
  split; [lia|]. exists t. by rewrite slab_view_lookup, Hk.
Qed.
End Empty.

(** ** The test of subtypes *)

Section Subtypes.
  Context (r : TypeRegistryInner) (Hs : shape r) (Hf : faithful r).

(** The types of the registry by index. *)
Definition registered_lookup (r : TypeRegistryInner) (i : Z) : option WasmSubType :=
  if i <? 0 then None else match borrow r i with Ok t => t | _ => None end.

Lemma registered_lookup_Some i t :
  registered_lookup r i = Some t <-> is_Some (target r i) /\ Slab.view (types r) !! (i + 1) = Some t.
Proof.
  unfold registered_lookup, borrow. split.
  - destruct (i <? 0) eqn:Hi; [done|]. zbool. destruct (types_get r i) as [[t'|]| |] eqn:Hg; try done. intros [= ->].
    unfold types_get, shared_type_index_to_slab_id, from_raw in Hg. apply bind_Ok_inv in Hg as (id & Hid & Hg).
    apply entry_new_inv in Hid as ->. unfold Slab.get in Hg. rewrite entry_index_key in Hg. apply bind_Ok_inv in Hg as (x & Hx & Hg).
    apply unwrap_Ok in Hx. destruct x as [t'|]; [|done]. injection Hg as ->.
    assert (Hv : Slab.view (types r) !! (i + 1) = Some t).
    { replace i with (Z.of_nat (Z.to_nat i)) by lia. by rewrite slab_view_lookup, Hx. }
    split; [|done]. apply (sh_types _ Hs). split; [lia|by exists t].
  - intros [Ht Hv]. assert (Hi : 0 <= i) by (by apply (sh_types _ Hs)).
    rewrite (proj2 (Z.ltb_ge _ _)) by lia. by rewrite (types_index_ok r i t (sh_slab _ Hs) Hi Hv).
Qed.

Notation decl := (declared (registered_lookup r)).

Lemma declared_supers i j : decl i j -> supertypes r i = supertypes r j ++ [j].
Proof.
  intros (t & [Ht Hv]%registered_lookup_Some & Hst). pose proof (fa_supers _ Hf i t Ht Hv) as H.
  rewrite Hst in H. destruct H as [_ H]. unfold supertypes at 1. by rewrite H.
Qed.

Lemma supers_declared i : supertypes r i <> [] -> exists j, decl i j.
Proof.
  unfold supertypes. destruct (type_to_supertypes r !! i) as [l|] eqn:Hl; [|done]. intros _.
  assert (Ht : is_Some (target r i)) by (apply (sh_supers _ Hs); by rewrite Hl).
  destruct (proj1 (sh_types _ Hs i) Ht) as [_ [t Hv]]. pose proof (fa_supers _ Hf i t Ht Hv) as H.
  destruct (supertype t) as [[s| |]|] eqn:Hst; try done; [|congruence].
  exists s, t. split; [|done]. by apply registered_lookup_Some.
Qed.

Lemma in_supers_rtc n : forall i j, (length (supertypes r i) <= n)%nat -> j ∈ supertypes r i -> rtc decl i j.
Proof.
  induction n as [|n IH]; intros i j Hn Hj.
  - destruct (supertypes r i); [by apply not_elem_of_nil in Hj|cbn in Hn; lia].
  - destruct (supers_declared i) as [k Hk]. { intros Hnil. rewrite Hnil in Hj. by apply not_elem_of_nil in Hj. }
    pose proof (declared_supers i k Hk) as Hi. rewrite Hi in Hj, Hn. rewrite length_app in Hn. cbn in Hn.
    eapply rtc_l; [exact Hk|]. apply elem_of_app in Hj as [Hj|Hj]; [|apply list_elem_of_singleton in Hj as ->; constructor].
    apply IH; [lia|done].
Qed.

Lemma rtc_supers i j : rtc decl i j -> i = j \/ exists l, supertypes r i = supertypes r j ++ j :: l.
Proof.
  induction 1 as [|i k j Hik _ IH]; [by left|]. right. pose proof (declared_supers i k Hik) as Hi. rewrite Hi.
  destruct IH as [->|(l & Hl)]; [by exists []|]. exists (l ++ [k]). by rewrite Hl, <- app_assoc.
Qed.

Lemma registry_subtype_test : SubtypeTest (registered_lookup r) (is_subtype r).
Proof.
  split; intros i j.
  - unfold is_subtype. destruct (i =? j) eqn:Hij; [apply Z.eqb_eq in Hij as ->; constructor|].
    intros H%bool_decide_eq_true. eapply in_supers_rtc; [done|]. by eapply list_elem_of_lookup_2.
  - intros H. unfold is_subtype. destruct (i =? j) eqn:Hij; [done|]. apply Z.eqb_neq in Hij.
    destruct (rtc_supers i j H) as [->|(l & Hl)]; [done|]. apply bool_decide_eq_true_2.
    rewrite Hl, lookup_app_r by lia. by rewrite Nat.sub_diag.
Qed.
End Subtypes.

(** ** What the registry guarantees *)

(** All handles, one after the other. *)
Fixpoint drop_all (dbg oc : bool) (min_cap : Z) (n : nat) (w : World) : outcome reg_error World :=
  match n with
  | O => Ok w
  | S n => w ← run dbg oc min_cap (Drop 0) w; drop_all dbg oc min_cap n w
  end.

Lemma singleton_shared r e ty i j :
  shape r -> e ∈ live r -> key_of r e = Some {| rec_types := [ty] |} -> i ∈ shared r e -> j ∈ shared r e -> i = j.
Proof.
  intros Hs He Hk Hi Hj. destruct (sh_arcs _ Hs e He) as [x Hx]. destruct (sh_canon _ Hs e x He Hx) as [_ Hlen].
  unfold shared, key_of in *. rewrite Hx in *. cbn in Hi, Hj, Hk. injection Hk as Hk. rewrite Hk in Hlen.
  destruct (shared_type_indices x) as [|y [|]]; try done.
  apply list_elem_of_singleton in Hi as ->. by apply list_elem_of_singleton in Hj as ->.
Qed.

Section Theorems.
  Context (dbg oc : bool) (min_cap : Z) (P : World -> op -> Prop).
  Context (Hmin : min_cap <= 16).

Lemma new_result w ty w' :
  world_inv w -> allowed w (New ty) -> run dbg oc min_cap (New ty) w = Ok w' ->
  exists t, handles w' = HType t :: handles w /\ world_inv w' /\
    key_of (reg w') (entry t) = Some {| rec_types := [ty] |} /\ grows (reg w) (reg w').
Proof.
  intros Hw Ha H1. destruct (run_new dbg oc min_cap Hmin w ty Hw Ha) as (w1 & H2 & Hw1 & _).
  rewrite H2 in H1. injection H1 as ->. destruct Ha as [[Hf1 Hf2] He].
  cbn [op_types length mbind list_bind op_groups] in Hf1, Hf2. rewrite app_nil_r in Hf2.
  destruct (registered_new_ok dbg oc min_cap Hmin (reg w) (refs w) ty) as (t & r' & H1 & Hr & _); try done;
    try apply Hw; [split; [apply Hw|lia]|lia|].
  unfold run in H2. rewrite H1 in H2. injection H2 as <-. exists t.
  split; [done|]. split; [done|]. split; apply Hr.
Qed.

(** C18: no sequence of operations on one thread makes the registry panic: not an
    assertion, not an index out of bounds, not the end of the fuel; and after each
    operation every type that a handle holds is registered under the handle's index,
    as the very type the handle was created with. *)
Theorem registry_keeps_types w o :
  reachable dbg oc min_cap P w -> allowed w o ->
  exists w', run dbg oc min_cap o w = Ok w' /\
    forall t, HType t ∈ handles w' -> borrow (reg w') (rindex t) = Ok (Some (rty t)).
Proof.
  intros Hr Ha. destruct (run_step_ok dbg oc min_cap Hmin w o (reachable_inv _ _ _ Hmin _ _ Hr) Ha) as (w' & H1 & Hw & _).
  exists w'. split; [done|]. intros t Ht. destruct (wi_handles _ Hw _ Ht) as [Hti Hv]. destruct (wi_reg _ Hw) as [Hs _].
  apply types_index_ok; [apply Hs| |done]. apply (sh_types _ Hs). by exists (entry t).
Qed.

(** C19: whatever was registered and by whichever handles it is held, dropping the
    handles one after the other succeeds and leaves an empty registry: all the
    assertions made when the registry itself is dropped hold, so no group is leaked
    through references between groups or to trampoline types. *)
Theorem registry_drains w :
  reachable dbg oc min_cap P w ->
  exists w', drop_all dbg oc min_cap (length (handles w)) w = Ok w' /\ handles w' = [] /\
    registry_drop true (reg w') = Ok ().
Proof.
  intros Hr. apply reachable_inv in Hr; [|exact Hmin].
  assert (H : forall n w, world_inv w -> length (handles w) = n ->
    exists w', drop_all dbg oc min_cap n w = Ok w' /\ handles w' = [] /\ registry_drop true (reg w') = Ok ()).
  { clear. induction n as [|n IH]; intros w Hw Hl.
    - exists w. split; [done|]. apply nil_length_inv in Hl. split; [done|].
      pose proof (wi_reg _ Hw) as Hi. unfold refs in Hi. rewrite Hl in Hi.
      apply empty_registry; [exact Hi|apply Hw].
    - destruct (run_drop dbg oc min_cap w 0 Hw) as (w1 & H1 & Hw1 & _). cbn [drop_all]. rewrite H1.
      cbn [mbind outcome_bind]. apply IH; [done|]. unfold run in H1.
      destruct (handles w) as [|hd hs]; [done|]. cbn [lookup list_lookup] in H1.
      destruct hd; outcome_inv; cbn in *; lia. }
  by apply H.
Qed.

(** registering the same type again gives the same index and different types
    have different indices, so that comparing indices, as an indirect call does,
    compares types. *)
Theorem registered_index_canonical w ty1 ty2 w1 w2 t1 t2 :
  reachable dbg oc min_cap P w ->
  allowed w (New ty1) -> run dbg oc min_cap (New ty1) w = Ok w1 ->
  allowed w1 (New ty2) -> run dbg oc min_cap (New ty2) w1 = Ok w2 ->
  handles w2 = HType t2 :: HType t1 :: handles w ->
  rindex t1 = rindex t2 <-> ty1 = ty2.
Proof.
  intros Hr Ha1 H1 Ha2 H2 Hh. apply reachable_inv in Hr; [|exact Hmin].
  destruct (new_result w ty1 w1 Hr Ha1 H1) as (u1 & Hu1 & Hw1 & Hk1 & _).
  destruct (new_result w1 ty2 w2 Hw1 Ha2 H2) as (u2 & Hu2 & Hw2 & Hk2 & Hg2).
  rewrite Hu2, Hu1 in Hh. injection Hh as -> ->.
  apply (grows_key _ _ _ _ Hg2) in Hk1. destruct (wi_reg _ Hw2) as [Hs _].
  destruct (wi_handles _ Hw2 (HType t1)) as [Ht1 _]; [rewrite Hu2, Hu1; by right; left|].
  destruct (wi_handles _ Hw2 (HType t2)) as [Ht2 _]; [rewrite Hu2; by left|].
  pose proof (proj1 (sh_target _ Hs _ _) Ht1) as [Hl1 Hi1]. pose proof (proj1 (sh_target _ Hs _ _) Ht2) as [Hl2 Hi2].
  split.
  - intros Hi. rewrite Hi, Ht2 in Ht1. injection Ht1 as He. rewrite <- He, Hk2 in Hk1. by injection Hk1.
  - intros ->. assert (He : entry t1 = entry t2) by (apply (sh_keys _ Hs); [done..|congruence]).
    rewrite He in Hi1. apply (singleton_shared (reg w2) (entry t2) ty2); done.
Qed.

(** C20: the test of subtypes on the lists of supertypes decides the reflexive and
    transitive closure of the declared supertypes, and with it [HeapType::matches]
    decides subtyping between the registered types, in a registry to which no module whose
    groups refer to their own types was added after an index was given back (where the
    registry stores such groups with wrong references: [stale_group_reference]). *)
Theorem subtype_test_correct w :
  reachable dbg oc min_cap dense w ->
  (forall i j, is_subtype (reg w) i j = true <-> rtc (declared (registered_lookup (reg w))) i j) /\
  (forall a b, heap_matches (is_subtype (reg w)) a b = true <-> heap_sub (registered_lookup (reg w)) a b).
Proof.
  intros Hr. pose proof (reachable_faithful _ _ _ Hmin _ Hr) as Hf.
  destruct (wi_reg _ (reachable_inv _ _ _ Hmin _ _ Hr)) as [Hs _].
  pose proof (registry_subtype_test (reg w) Hs Hf) as Ht. split.
  - intros i j. split; [apply Ht|apply Ht].
  - intros a b. split; [by apply heap_matches_sub|by apply heap_sub_matches].
Qed.
End Theorems.

(** ** Examples *)

Definition func_of (final : bool) (sup : option EngineOrModuleTypeIndex) (ps : list WasmValType) : WasmSubType :=
  {| is_final := final; supertype := sup; composite_type := CFunc (func_type_new ps []) |}.
Definition ref_to (i : EngineOrModuleTypeIndex) : WasmValType :=
  VRef {| nullable := true; rt_heap_type := HConcreteFunc i |}.

(** A module with a function type that takes itself, and one whose types are
    subtypes of one another. *)
Definition self_module : ModuleTypes :=
  {| rec_groups := [(0, 1)]; wasm_types := [func_of true None [ref_to (Module_ 0)]]; trampoline_types := [(0, 0)] |}.
Definition sub_module : ModuleTypes :=
  {| rec_groups := [(0, 1); (1, 3)];
     wasm_types := [func_of false None [VI32]; func_of false (Some (Module_ 0)) [VI32];
                    func_of true (Some (Module_ 1)) [VI32]];
     trampoline_types := [(0, 0); (1, 0); (2, 0)] |}.

(** Which operations are allowed, as a test. *)
Definition fitsb (w : World) (o : op) : bool :=
  (Z.of_nat (length (entries (types (reg w))) + 2 * length (op_types o)) <=? 2 ^ 30) &&
  (Z.of_nat (length (refs_of (reg w) (refs w)) + length (op_types o ≫= edges) + 4 * length (op_types o) +
            op_groups o) + 16 <? 2 ^ 64).
Definition allowedb (w : World) (o : op) : bool :=
  fitsb w o &&
  match o with
  | New ty => forallb (fun i => match i with
                                | Engine j => bool_decide (is_Some (target (reg w) j))
                                | _ => false
                                end) (edges ty)
  | Root i => (0 <=? i) && (i <? Z.of_nat (length (entries (types (reg w)))))
  | Load m => valid_module m
  | Clone _ | Drop _ => true
  end.
Definition denseb (w : World) (o : op) : bool :=
  match o with Load _ => bool_decide (free (types (reg w)) = None) | _ => true end.
Definition always (w : World) (o : op) : Prop := True.

Lemma allowedb_ok w o : allowedb w o = true -> allowed w o.
Proof.
  unfold allowedb, fitsb. intros [Hf Ho]%andb_prop. apply andb_prop in Hf as [H1%Z.leb_le H2%Z.ltb_lt].
  split; [done|]. destruct o as [ty|i|k|k|m]; try done.
  - intros i Hi. rewrite forallb_forall in Ho. apply list_elem_of_In, Ho in Hi.
    destruct i; try done. apply bool_decide_eq_true in Hi. eauto.
  - lia.
Qed.

Lemma denseb_ok w o : denseb w o = true -> dense w o.
Proof. destruct o; try done. intros H%bool_decide_eq_true. by left. Qed.

(** Allowed operations in a row, that pass the test [b]. *)
Fixpoint run_all (dbg oc : bool) (b : World -> op -> bool) (os : list op) (w : World) : option World :=
  match os with
  | [] => Some w
  | o :: os =>
      if allowedb w o && b w o
      then match run dbg oc 4 o w with Ok w => run_all dbg oc b os w | _ => None end
      else None
  end.

Lemma run_all_reachable dbg oc b P os : (forall w o, b w o = true -> P w o) -> forall w w',
  reachable dbg oc 4 P w -> run_all dbg oc b os w = Some w' -> reachable dbg oc 4 P w'.
Proof.
  intros Hb. induction os as [|o os IH]; intros w w' Hr H; cbn in H; [by injection H as <-|].
  destruct (allowedb w o && b w o) eqn:Hab; [|done]. apply andb_prop in Hab as [Ha Hbo].
  destruct (run dbg oc 4 o w) as [w1| |] eqn:H1; try done.
  eapply IH; [|exact H]. eapply reach_step; [exact Hr|by apply allowedb_ok|by apply Hb|exact H1].
Qed.

Definition world_after (b : World -> op -> bool) (os : list op) : World :=
  match run_all true true b os world_new with Some w => w | None => world_new end.

(** Three function types, of which the first was given up. *)
Definition sample_ops : list op :=
  [New (func_of true None [VI32]); New (func_of true None [VI64]); New (func_of true None [VF32]); Drop 2].
Definition sample_world : World := world_after (fun _ _ => true) sample_ops.

Lemma sample_reachable : reachable true true 4 always sample_world.
Proof.
  apply (run_all_reachable true true (fun _ _ => true) always sample_ops) with (w := world_new);
    [done|apply reach_new|vm_compute; reflexivity].
Qed.

Lemma registry_keeps_types_witness :
  exists w', run true true 4 (Load self_module) sample_world = Ok w' /\
    forall t, HType t ∈ handles w' -> borrow (reg w') (rindex t) = Ok (Some (rty t)).
Proof.
  apply (registry_keeps_types true true 4 always); [lia|apply sample_reachable|].
  apply allowedb_ok. vm_compute. reflexivity.
Defined.

Lemma registry_drains_witness :
  exists w', drop_all true true 4 2 sample_world = Ok w' /\ handles w' = [] /\ registry_drop true (reg w') = Ok ().
Proof. apply (registry_drains true true 4 always ltac:(lia) sample_world sample_reachable). Defined.

Definition sample_new1 : World := world_after (fun _ _ => true) (sample_ops ++ [New (func_of true None [VI64])]).
Definition sample_new2 : World :=
  world_after (fun _ _ => true) (sample_ops ++ [New (func_of true None [VI64]); New (func_of true None [VI32])]).
Definition handle_of (w : World) (k : nat) : RegisteredType :=
  match handles w !! k with Some (HType t) => t | _ => {| entry := 0; rty := func_of true None []; rindex := -1 |} end.

Lemma registered_index_canonical_witness :
  rindex (handle_of sample_new2 1) = rindex (handle_of sample_new2 0) <->
  func_of true None [VI64] = func_of true None [VI32].
Proof.
  apply (registered_index_canonical true true 4 always ltac:(lia) sample_world _ _ sample_new1 sample_new2).
  - apply sample_reachable.
  - apply allowedb_ok. vm_compute. reflexivity.
  - vm_compute. reflexivity.
  - apply allowedb_ok. vm_compute. reflexivity.
  - vm_compute. reflexivity.
  - vm_compute. reflexivity.
Defined.

Definition sub_world : World := world_after denseb [Load sub_module].

Lemma subtype_test_correct_witness :
  rtc (declared (registered_lookup (reg sub_world))) 2 0 /\ ~ rtc (declared (registered_lookup (reg sub_world))) 0 2.
Proof.
  destruct (subtype_test_correct true true 4 ltac:(lia) sub_world) as [H _].
  - apply (run_all_reachable true true denseb dense [Load sub_module]) with (w := world_new);
      [apply denseb_ok|apply reach_new|vm_compute; reflexivity].
  - split; [apply H; vm_compute; reflexivity|]. intros Hr. apply H in Hr. vm_compute in Hr. discriminate.
Defined.

(** ** Two ways in which the registry goes wrong *)

(** A group whose types refer to one another, registered after a type was given
    back, is stored with references to other types: the slab gives it the free index
    0, but the registry computes the indices of the group from the number of types,
    and the function that takes itself becomes a function that takes functions on
    floats. *)
Theorem stale_group_reference :
  exists w c, reachable true true 4 always w /\
    run true true 4 (Load self_module) sample_world = Ok w /\ head (handles w) = Some (HTypes c) /\
    shared_type c 0 = Some 0 /\
    borrow (reg w) 0 = Ok (Some (func_of true None [ref_to (Engine 2)])) /\
    borrow (reg w) 2 = Ok (Some (func_of true None [VF32])).
Proof.
  exists (world_after (fun _ _ => true) (sample_ops ++ [Load self_module])). eexists. split_and!.
  - apply (run_all_reachable true true (fun _ _ => true) always (sample_ops ++ [Load self_module])) with (w := world_new);
      [done|apply reach_new|vm_compute; reflexivity].
  - vm_compute. reflexivity.
  - vm_compute. reflexivity.
  - vm_compute. reflexivity.
  - vm_compute. reflexivity.
  - vm_compute. reflexivity.
Qed.

(** Two threads: the first drops the last handle of a type and is about to take the
    lock; the second registers the type again, drops it and takes the lock; with
    [reuse] it then registers another type; the first takes the lock. *)
Definition two_drops (dbg reuse : bool) : outcome reg_error (option RegisteredType * TypeRegistryInner) :=
  '(a, r) ← registered_new dbg true 4 registry_new (func_of true None [VI32]);
  '(za, r) ← decref dbg r (entry a);
  '(b, r) ← registered_new dbg true 4 r (func_of true None [VI32]);
  '(zb, r) ← decref dbg r (entry b);
  r ← (if (zb : bool) then unregister_entry dbg true r (entry b) else Ok r);
  '(c, r) ← (if reuse then '(c, r) ← registered_new dbg true 4 r (func_of true None [VI64]); Ok (Some c, r)
             else Ok (None, r));
  r ← (if (za : bool) then unregister_entry dbg true r (entry a) else Ok r);
  Ok (c, r).

Definition race_end : RegisteredType * TypeRegistryInner :=
  match two_drops false true with
  | Ok (Some c, r) => (c, r)
  | _ => ({| entry := 0; rty := func_of true None []; rindex := 0 |}, registry_new)
  end.

(** Both threads find the count of the group at zero and both remove it: the
    second removal panics when the index is still free, and otherwise, in a release
    build, removes the type that has got the index since, while its handle is in
    use. *)
Theorem unregister_race :
  (forall dbg, two_drops dbg false = Panic) /\ two_drops true true = Panic /\
  exists c r, two_drops false true = Ok (Some c, r) /\ rty c = func_of true None [VI64] /\
    borrow r (rindex c) = Ok None.
Proof.
  split_and!.
  - intros []; vm_compute; reflexivity.
  - vm_compute. reflexivity.
  - exists (fst race_end), (snd race_end). split; [vm_compute; reflexivity|]. split; vm_compute; reflexivity.
Qed.
