(* ===== verification/Tables.v ===== *)
(** * Tables

    [vm/table.rs] of the runtime: tables of functions and of references to the GC
    heap, with storage of their own or in a slot of the pooling allocator.  The
    operations on references go through the store of the collector; they are
    proved against the class [GcAccounting] of what a table relies on, which the
    reference counting collector implements. *)

From Stdlib Require Import ZArith Lia.
From stdpp Require Import base list gmap numbers option sets.
From S2P Require Import Prelude Float32 MemoryTypes Mappings LinearMemory MetadataSections GcRef Drc GcStore WasmTypes TypeMatching.
Open Scope Z_scope.

(** ** Plans and elements *)

Inductive TableStyle := CallerChecksSignature (lazy_init : bool).

(** [table_lazy_init] is the field of the tunables that tables use. *)
Definition style_for_table (table : Table.t) (table_lazy_init : bool) : TableStyle :=
  CallerChecksSignature table_lazy_init.

Record TablePlan := { table : Table.t; style : TableStyle; written : bool; non_null_zero : bool }.

Definition plan_for_table (t : Table.t) (table_lazy_init : bool) : TablePlan :=
  {| table := t; style := style_for_table t table_lazy_init; written := false; non_null_zero := false |}.

Inductive TableElement :=
| FuncRef (f : Z)
| GcRefElement (r : option VMGcRef)
| UninitFunc.

Inductive TableElementType := ElementFunc | ElementGcRef.
#[global] Instance TableElementType_eq : EqDecision TableElementType.
Proof. solve_decision. Defined.

Definition element_matches (ty : TableElementType) (val : TableElement) : bool :=
  match val, ty with
  | FuncRef _, ElementFunc => true
  | GcRefElement _, ElementGcRef => true
  | _, _ => false
  end.

Definition into_func_ref_asserting_initialized {E} (e : TableElement) : outcome E Z :=
  match e with
  | FuncRef e => Ok e
  | UninitFunc | GcRefElement _ => Panic
  end.

Definition is_uninit (e : TableElement) : bool :=
  match e with UninitFunc => true | _ => false end.

Definition FUNCREF_INIT_BIT : Z := 1.
Definition FUNCREF_MASK : Z := u64_max - FUNCREF_INIT_BIT.

(** [TaggedFuncRef]: a pointer, with null for [UNINIT]. *)
Definition UNINIT : Z := 0.

Definition tagged_from (ptr : Z) (lazy_init : bool) : Z :=
  if lazy_init then Z.lor ptr FUNCREF_INIT_BIT else ptr.

Definition into_table_element (ptr : Z) (lazy_init : bool) : TableElement :=
  if lazy_init && (ptr =? 0) then UninitFunc else FuncRef (Z.land ptr FUNCREF_MASK).

(** ** Tables

    A slot of a function table is an optional pointer, with [None] represented by
    null. *)

Record StaticFuncTable := { sf_data : list Z; sf_size : Z; sf_lazy_init : bool }.
Record StaticGcRefTable := { sg_data : list (option VMGcRef); sg_size : Z }.
Inductive StaticTable := StaticFunc (t : StaticFuncTable) | StaticGcRef (t : StaticGcRefTable).

Record DynamicFuncTable := { df_elements : list Z; df_maximum : option Z; df_lazy_init : bool }.
Record DynamicGcRefTable := { dg_elements : list (option VMGcRef); dg_maximum : option Z }.
Inductive DynamicTable := DynamicFunc (t : DynamicFuncTable) | DynamicGcRef (t : DynamicGcRefTable).

Inductive Table := Static (t : StaticTable) | Dynamic (t : DynamicTable).

Definition wasm_to_table_type (ty : WasmRefType) : TableElementType :=
  match top (rt_heap_type ty) with
  | TopFunc => ElementFunc
  | TopAny | TopExtern => ElementGcRef
  end.

Definition element_type (t : Table) : TableElementType :=
  match t with
  | Static (StaticFunc _) | Dynamic (DynamicFunc _) => ElementFunc
  | Static (StaticGcRef _) | Dynamic (DynamicGcRef _) => ElementGcRef
  end.

Definition type_matches (t : Table) (val : TableElement) : bool := element_matches (element_type t) val.

Definition table_size {E} (t : Table) : outcome E Z :=
  match t with
  | Static (StaticFunc d) => Ok (sf_size d)
  | Static (StaticGcRef d) => Ok (sg_size d)
  | Dynamic (DynamicFunc d) => unwrap (checked 32 (Z.of_nat (length (df_elements d))))
  | Dynamic (DynamicGcRef d) => unwrap (checked 32 (Z.of_nat (length (dg_elements d))))
  end.

Definition table_maximum {E} (t : Table) : outcome E (option Z) :=
  match t with
  | Static (StaticFunc d) => n ← unwrap (checked 32 (Z.of_nat (length (sf_data d)))); Ok (Some n)
  | Static (StaticGcRef d) => n ← unwrap (checked 32 (Z.of_nat (length (sg_data d)))); Ok (Some n)
  | Dynamic (DynamicFunc d) => Ok (df_maximum d)
  | Dynamic (DynamicGcRef d) => Ok (dg_maximum d)
  end.

Definition table_default : Table :=
  Static (StaticFunc {| sf_data := []; sf_size := 0; sf_lazy_init := false |}).

(** ** The slots of a table, as slices *)

Definition funcrefs {E} (t : Table) : outcome E (list Z * bool) :=
  match t with
  | Dynamic (DynamicFunc d) => Ok (df_elements d, df_lazy_init d)
  | Static (StaticFunc d) => Ok (take (Z.to_nat (sf_size d)) (sf_data d), sf_lazy_init d)
  | _ => Panic
  end.

Definition gc_refs {E} (t : Table) : outcome E (list (option VMGcRef)) :=
  match t with
  | Dynamic (DynamicGcRef d) => Ok (dg_elements d)
  | Static (StaticGcRef d) =>
      assert_ (sg_size d <=? Z.of_nat (length (sg_data d)));;
      Ok (take (Z.to_nat (sg_size d)) (sg_data d))
  | _ => Panic
  end.

(** The same slices after they were written through. *)
Definition funcrefs_mut {E} (t : Table) (l : list Z) : outcome E Table :=
  match t with
  | Dynamic (DynamicFunc d) =>
      Ok (Dynamic (DynamicFunc {| df_elements := l; df_maximum := df_maximum d; df_lazy_init := df_lazy_init d |}))
  | Static (StaticFunc d) =>
      Ok (Static (StaticFunc {| sf_data := l ++ drop (Z.to_nat (sf_size d)) (sf_data d);
                                sf_size := sf_size d; sf_lazy_init := sf_lazy_init d |}))
  | _ => Panic
  end.

Definition gc_refs_mut {E} (t : Table) (l : list (option VMGcRef)) : outcome E Table :=
  match t with
  | Dynamic (DynamicGcRef d) =>
      Ok (Dynamic (DynamicGcRef {| dg_elements := l; dg_maximum := dg_maximum d |}))
  | Static (StaticGcRef d) =>
      Ok (Static (StaticGcRef {| sg_data := l ++ drop (Z.to_nat (sg_size d)) (sg_data d);
                                 sg_size := sg_size d |}))
  | _ => Panic
  end.

(** [get_mut(dst..)] and then [get_mut(..n)] give a part of a slice. *)
Definition in_range (len : nat) (dst : Z) (n : nat) : bool :=
  (dst <=? Z.of_nat len) && (Z.of_nat n <=? Z.of_nat len - dst).

Definition overwrite {A} (l : list A) (dst : nat) (x : list A) : list A :=
  take dst l ++ x ++ drop (dst + length x) l.

(** ** Creation *)

(** The error values of [anyhow] are those of the limits; a store that has no room
    for a table answers as for memories. *)
Section Limits.
  Context {L : Type} `{!ResourceLimiter L} (dbg : bool).

Definition table_limit_new (plan : TablePlan) (store : option L) : option L * outcome mem_error unit :=
  let '(store, r) := store_table_growing store 0 (Table.minimum (table plan)) (Table.maximum (table plan)) in
  (store, match r with
          | Ok true => Ok ()
          | Ok false => Err MinimumExceedsLimits
          | Err e => Err e
          | Panic => Panic
          end).

Definition new_dynamic_table (plan : TablePlan) (store : option L) : option L * outcome mem_error Table :=
  let '(store, r) := table_limit_new plan store in
  (store,
   r;;
   let n := Z.to_nat (Table.minimum (table plan)) in
   let max := Table.maximum (table plan) in
   let 'CallerChecksSignature lazy_init := style plan in
   Ok (Dynamic match wasm_to_table_type (Table.wasm_ty (table plan)) with
               | ElementFunc =>
                   DynamicFunc {| df_elements := replicate n 0; df_maximum := max; df_lazy_init := lazy_init |}
               | ElementGcRef => DynamicGcRef {| dg_elements := replicate n None; dg_maximum := max |}
               end)).

(** [align_to::<U>] of a byte slice at address [base], for a type [U] of [n] bytes
    aligned to its size: what is before, the words, and what is after. *)
Fixpoint words (n k : nat) (bytes : list Z) : list Z :=
  match k with
  | O => []
  | S k => le_value (take n bytes) :: words n k (drop n bytes)
  end.

Definition align_to (n : nat) (base : Z) (bytes : list Z) : list Z * list Z * list Z :=
  let offset := Z.to_nat ((- base) mod Z.of_nat n) in
  if Nat.ltb (length bytes) offset then (bytes, [], [])
  else
    let k := ((length bytes - offset) / n)%nat in
    (take offset bytes, words n k (drop offset bytes), drop (offset + k * n) bytes).

Definition size_of_func_elem : nat := 8.
Definition size_of_gc_ref : nat := 4.

(** The words of the slot of the pooling allocator, which must be whole, and of
    which a table uses at most its maximum. *)
Definition table_slot (n : nat) (plan : TablePlan) (base : Z) (data : list Z) : outcome mem_error (list Z) :=
  let '(before, ws, after) := align_to n base data in
  assert_ (bool_decide (before = []));;
  assert_ (bool_decide (after = []));;
  (if Table.minimum (table plan) <=? Z.of_nat (length ws) then Ok () else Err ExceedsPool);;
  let max := match Table.maximum (table plan) with Some x => x | None => u64_max end in
  Ok (take (Z.to_nat (Z.min (Z.of_nat (length ws)) max)) ws).

Definition new_static_table (plan : TablePlan) (base : Z) (data : list Z) (store : option L)
  : option L * outcome mem_error Table :=
  let '(store, r) := table_limit_new plan store in
  (store,
   r;;
   let size := Table.minimum (table plan) in
   match wasm_to_table_type (Table.wasm_ty (table plan)) with
   | ElementFunc =>
       ws ← table_slot size_of_func_elem plan base data;
       let 'CallerChecksSignature lazy_init := style plan in
       Ok (Static (StaticFunc {| sf_data := ws; sf_size := size; sf_lazy_init := lazy_init |}))
   | ElementGcRef =>
       ws ← table_slot size_of_gc_ref plan base data;
       Ok (Static (StaticGcRef {| sg_data := from_raw_u32 <$> ws; sg_size := size |}))
   end).
End Limits.

(** ** Reading and writing *)

Definition init_func (t : Table) (dst : Z) (items : list Z) : outcome Trap Table :=
  '(refs, lazy_init) ← funcrefs t;
  if in_range (length refs) dst (length items) then
    funcrefs_mut t (overwrite refs (Z.to_nat dst) (map (fun item => tagged_from item lazy_init) items))
  else Err TableOutOfBounds.

(** The items are moved into the slots; what was there is forgotten. *)
Definition init_gc_refs (t : Table) (dst : Z) (items : list (option VMGcRef)) : outcome Trap Table :=
  refs ← gc_refs t;
  if in_range (length refs) dst (length items) then gc_refs_mut t (overwrite refs (Z.to_nat dst) items)
  else Err TableOutOfBounds.

Inductive set_error := NoSlot.

Definition table_set (t : Table) (index : Z) (elem : TableElement) : outcome set_error Table :=
  match elem with
  | FuncRef f =>
      '(refs, lazy_init) ← funcrefs t;
      if index <? Z.of_nat (length refs)
      then funcrefs_mut t (<[Z.to_nat index := tagged_from f lazy_init]> refs) else Err NoSlot
  | UninitFunc =>
      '(refs, _) ← funcrefs t;
      if index <? Z.of_nat (length refs)
      then funcrefs_mut t (<[Z.to_nat index := UNINIT]> refs) else Err NoSlot
  | GcRefElement e =>
      refs ← gc_refs t;
      if index <? Z.of_nat (length refs)
      then gc_refs_mut t (<[Z.to_nat index := e]> refs) else Err NoSlot
  end.

Section Gc.
  Context {T H : Type} `{!GcHeap T H} (dbg : bool).
  Implicit Types s : GcStore T H.

(** The barriers of the collector have no error to return. *)
Definition write_slot {E} s (slot src : option VMGcRef) : outcome E (GcStore T H * option VMGcRef) :=
  unwrap_result (store_write_gc_ref s slot src).

Definition table_get {E} (t : Table) s (index : Z) : outcome E (option TableElement * GcStore T H) :=
  match element_type t with
  | ElementFunc =>
      '(refs, lazy_init) ← funcrefs t;
      Ok ((fun e => into_table_element e lazy_init) <$> refs !! Z.to_nat index, s)
  | ElementGcRef =>
      refs ← gc_refs t;
      match refs !! Z.to_nat index with
      | None => Ok (None, s)
      | Some None => Ok (Some (GcRefElement None), s)
      | Some (Some r) =>
          '(r, s) ← unwrap_result (store_clone_gc_ref s r);
          Ok (Some (GcRefElement (Some r)), s)
      end
  end.

Fixpoint write_all {E} s (src : option VMGcRef) (slots : list (option VMGcRef))
  : outcome E (GcStore T H * list (option VMGcRef)) :=
  match slots with
  | [] => Ok (s, [])
  | slot :: slots =>
      '(s, slot) ← write_slot s slot src;
      '(s, slots) ← write_all s src slots;
      Ok (s, slot :: slots)
  end.

Definition table_fill (t : Table) s (dst : Z) (val : TableElement) (len : Z)
  : outcome Trap (Table * GcStore T H) :=
  end_ ← ok_or TableOutOfBounds (checked 64 (dst + len));
  size ← table_size t;
  if size <? end_ then Err TableOutOfBounds
  else
    let start := Z.to_nat dst in
    let n := Z.to_nat len in
    match val with
    | FuncRef f =>
        '(refs, lazy_init) ← funcrefs t;
        t ← funcrefs_mut t (overwrite refs start (replicate n (tagged_from f lazy_init)));
        Ok (t, s)
    | GcRefElement r =>
        refs ← gc_refs t;
        '(s, slots) ← write_all s r (take n (drop start refs));
        t ← gc_refs_mut t (overwrite refs start slots);
        s ← match r with
            | Some r => unwrap_result (store_drop_gc_ref s r)
            | None => Ok s
            end;
        Ok (t, s)
    | UninitFunc =>
        '(refs, _) ← funcrefs t;
        t ← funcrefs_mut t (overwrite refs start (replicate n UNINIT));
        Ok (t, s)
    end.

(** *** Growing *)

Definition grow_storage {E} (t : Table) (new_size : Z) : outcome E Table :=
  match t with
  | Static (StaticFunc d) =>
      debug_assert dbg (forallb (fun x => x =? 0)
        (drop (Z.to_nat (sf_size d)) (take (Z.to_nat new_size) (sf_data d))));;
      Ok (Static (StaticFunc {| sf_data := sf_data d; sf_size := new_size; sf_lazy_init := sf_lazy_init d |}))
  | Static (StaticGcRef d) =>
      debug_assert dbg (forallb (fun x => bool_decide (x = None))
        (drop (Z.to_nat (sg_size d)) (take (Z.to_nat new_size) (sg_data d))));;
      Ok (Static (StaticGcRef {| sg_data := sg_data d; sg_size := new_size |}))
  | Dynamic (DynamicFunc d) =>
      Ok (Dynamic (DynamicFunc {| df_elements := resize (Z.to_nat new_size) 0 (df_elements d);
                                  df_maximum := df_maximum d; df_lazy_init := df_lazy_init d |}))
  | Dynamic (DynamicGcRef d) =>
      Ok (Dynamic (DynamicGcRef {| dg_elements := resize (Z.to_nat new_size) None (dg_elements d);
                                   dg_maximum := dg_maximum d |}))
  end.

Section Grow.
  Context {L : Type} `{!ResourceLimiter L}.

(** The limiter hears of a failure; nothing changes. *)
Definition grow_failed (l : option L) (t : Table) s (e : mem_error)
  : option L * outcome mem_error (option Z * Table * GcStore T H) :=
  let '(l, r) := store_table_grow_failed l e in (l, r;; Ok (None, t, s)).

(** Resizing the storage and filling the new slots. *)
Definition grow_to_size (t : Table) s (old_size new_size delta : Z) (init_value : TableElement)
  : outcome mem_error (option Z * Table * GcStore T H) :=
  debug_assert dbg (type_matches t init_value);;
  t ← grow_storage t new_size;
  '(t, s) ← unwrap_result (table_fill t s old_size init_value delta);
  Ok (Some old_size, t, s).

Definition table_grow (l : option L) (t : Table) s (delta : Z) (init_value : TableElement)
  : option L * outcome mem_error (option Z * Table * GcStore T H) :=
  match table_size (E:=mem_error) t with
  | Ok old_size =>
      if delta =? 0 then (l, Ok (Some old_size, t, s))
      else
        match checked 32 (old_size + delta), table_maximum (E:=mem_error) t with
        | None, _ => grow_failed l t s SizeOverflow
        | Some new_size, Ok maximum =>
            let '(l, r) := store_table_growing l old_size new_size maximum in
            match r with
            | Ok true =>
                if match maximum with Some max => max <? new_size | None => false end
                then grow_failed l t s MaximumExceeded
                else (l, grow_to_size t s old_size new_size delta init_value)
            | Ok false => (l, Ok (None, t, s))
            | Err e => (l, Err e)
            | Panic => (l, Panic)
            end
        | Some _, _ => (l, Panic)
        end
  | Err e => (l, Err e)
  | Panic => (l, Panic)
  end.
End Grow.

(** *** Copying *)

(** The loop of [copy_elements] over references. *)
Fixpoint copy_refs {E} s (n : nat) (dst src : list (option VMGcRef)) (d i : nat)
  : outcome E (GcStore T H * list (option VMGcRef)) :=
  match n with
  | O => Ok (s, dst)
  | S n =>
      slot ← unwrap (dst !! d);
      r ← unwrap (src !! i);
      '(s, slot) ← write_slot s slot r;
      copy_refs s n (<[d := slot]> dst) src (S d) (S i)
  end.

Definition copy_elements {E} s (dst_table src_table : Table) (dst src len : nat)
  : outcome E (GcStore T H * Table) :=
  match element_type dst_table with
  | ElementFunc =>
      '(d, _) ← funcrefs dst_table;
      '(i, _) ← funcrefs src_table;
      assert_ (Nat.leb (dst + len) (length d));;
      assert_ (Nat.leb (src + len) (length i));;
      t ← funcrefs_mut dst_table (overwrite d dst (take len (drop src i)));
      Ok (s, t)
  | ElementGcRef =>
      d ← gc_refs dst_table;
      i ← gc_refs src_table;
      assert_ (Nat.leb (dst + len) (length d));;
      assert_ (Nat.leb (src + len) (length i));;
      '(s, d) ← copy_refs s len d i dst src;
      t ← gc_refs_mut dst_table d;
      Ok (s, t)
  end.

(** One turn of the loops of [copy_elements_within]: the slice is split between
    the two positions. *)
Definition copy_slot {E} s (l : list (option VMGcRef)) (d i : nat)
  : outcome E (GcStore T H * list (option VMGcRef)) :=
  slot ← unwrap (l !! d);
  r ← unwrap (l !! i);
  '(s, slot) ← write_slot s slot r;
  Ok (s, <[d := slot]> l).

Fixpoint copy_up {E} s (n : nat) (l : list (option VMGcRef)) (d i : nat)
  : outcome E (GcStore T H * list (option VMGcRef)) :=
  match n with
  | O => Ok (s, l)
  | S n =>
      assert_ (Nat.ltb d i);;
      '(s, l) ← copy_slot s l d i;
      copy_up s n l (S d) (S i)
  end.

Fixpoint copy_down {E} s (n : nat) (l : list (option VMGcRef)) (d i : nat)
  : outcome E (GcStore T H * list (option VMGcRef)) :=
  match n with
  | O => Ok (s, l)
  | S n =>
      assert_ (Nat.ltb (i + n) (d + n));;
      '(s, l) ← copy_slot s l (d + n) (i + n);
      copy_down s n l d i
  end.

Definition copy_elements_within {E} s (t : Table) (dst src len : nat) : outcome E (GcStore T H * Table) :=
  if Nat.eqb src dst then Ok (s, t)
  else
    match element_type t with
    | ElementFunc =>
        '(l, _) ← funcrefs t;
        assert_ (Nat.leb (src + len) (length l));;
        assert_ (Nat.leb dst (length l - len));;
        t ← funcrefs_mut t (overwrite l dst (take len (drop src l)));
        Ok (s, t)
    | ElementGcRef =>
        l ← gc_refs t;
        '(s, l) ← (if Nat.ltb dst src then copy_up s len l dst src else copy_down s len l dst src);
        t ← gc_refs_mut t l;
        Ok (s, t)
    end.

(** Tables are shared: the source and the destination are positions in a list of
    tables, and may be the same. *)
Definition table_copy s (tables : list Table) (dst_table src_table : nat) (dst_index src_index len : Z)
  : outcome Trap (GcStore T H * list Table) :=
  dt ← unwrap (tables !! dst_table);
  st ← unwrap (tables !! src_table);
  ssize ← table_size st;
  dsize ← table_size dt;
  let fits n size := match checked 32 (n + len) with Some m => m <=? size | None => false end in
  if negb (fits src_index ssize) || negb (fits dst_index dsize) then Err TableOutOfBounds
  else
    debug_assert dbg (bool_decide (element_type dt = element_type st));;
    let d := Z.to_nat dst_index in
    let i := Z.to_nat src_index in
    '(s, t) ← (if bool_decide (dst_table = src_table)
               then copy_elements_within s dt d i (Z.to_nat len)
               else copy_elements s dt st d i (Z.to_nat len));
    Ok (s, <[dst_table := t]> tables).
End Gc.

(** ** Tables as lists

    A table is a list of slots with a maximum. *)

Inductive atable :=
| AFunc (l : list Z) (lazy_init : bool) (maximum : option Z)
| AGc (l : list (option VMGcRef)) (maximum : option Z).

Definition fits (maximum : option Z) (n : nat) : Prop :=
  Z.of_nat n < 2 ^ 32 /\ match maximum with Some m => Z.of_nat n <= m | None => True end.

(** Storage past the size of a static table is unused. *)
Inductive table_repr : Table -> atable -> Prop :=
| repr_static_func l n lazy_init :
    Z.of_nat (length l + n) < 2 ^ 32 ->
    table_repr (Static (StaticFunc {| sf_data := l ++ replicate n 0; sf_size := Z.of_nat (length l);
                                      sf_lazy_init := lazy_init |}))
      (AFunc l lazy_init (Some (Z.of_nat (length l + n))))
| repr_static_gc l n :
    Z.of_nat (length l + n) < 2 ^ 32 ->
    table_repr (Static (StaticGcRef {| sg_data := l ++ replicate n None; sg_size := Z.of_nat (length l) |}))
      (AGc l (Some (Z.of_nat (length l + n))))
| repr_dynamic_func l lazy_init max :
    fits max (length l) ->
    table_repr (Dynamic (DynamicFunc {| df_elements := l; df_maximum := max; df_lazy_init := lazy_init |}))
      (AFunc l lazy_init max)
| repr_dynamic_gc l max :
    fits max (length l) ->
    table_repr (Dynamic (DynamicGcRef {| dg_elements := l; dg_maximum := max |})) (AGc l max).

Definition a_length (a : atable) : nat :=
  match a with AFunc l _ _ => length l | AGc l _ => length l end.
Definition a_max (a : atable) : option Z :=
  match a with AFunc _ _ m => m | AGc _ m => m end.
Definition a_type (a : atable) : TableElementType :=
  match a with AFunc _ _ _ => ElementFunc | AGc _ _ => ElementGcRef end.

Section Repr.
  Context {E : Type} (t : Table).

Lemma repr_type a : table_repr t a -> element_type t = a_type a.
Proof. by destruct 1. Qed.

Lemma repr_fits a : table_repr t a -> fits (a_max a) (a_length a).
Proof. destruct 1; cbn; [split; lia..|done|done]. Qed.

Lemma repr_size a : table_repr t a -> table_size (E:=E) t = Ok (Z.of_nat (a_length a)).
Proof.
  intros Hr. pose proof (repr_fits _ Hr) as [Hf _].
  destruct Hr; cbn in *; try done; unfold checked; by rewrite in_ub_true by (unfold in_u; lia).
Qed.

Lemma repr_maximum a : table_repr t a -> table_maximum (E:=E) t = Ok (a_max a).
Proof.
  destruct 1; cbn; try done; rewrite length_app, length_replicate; unfold checked;
    by rewrite in_ub_true by (unfold in_u; lia).
Qed.

Lemma repr_funcrefs l lz m : table_repr t (AFunc l lz m) -> funcrefs (E:=E) t = Ok (l, lz).
Proof.
  inversion 1; subst; cbn; [|done]. rewrite Nat2Z.id, take_app_length. done.
Qed.

Lemma repr_gc_refs l m : table_repr t (AGc l m) -> gc_refs (E:=E) t = Ok l.
Proof.
  inversion 1; subst; cbn; [|done]. rewrite length_app, length_replicate.
  rewrite (proj2 (Z.leb_le _ _)) by lia. cbn. by rewrite Nat2Z.id, take_app_length.
Qed.

Lemma repr_funcrefs_mut l lz m l' :
  table_repr t (AFunc l lz m) -> length l' = length l ->
  exists t', funcrefs_mut (E:=E) t l' = Ok t' /\ table_repr t' (AFunc l' lz m).
Proof.
  intros Hr Hl. inversion Hr as [? n| | |]; subst; cbn.
  - rewrite Nat2Z.id, drop_app_length. eexists; split; [done|]. rewrite <- Hl in *. by constructor.
  - eexists; split; [done|]. constructor. by rewrite Hl.
Qed.

Lemma repr_gc_refs_mut l m l' :
  table_repr t (AGc l m) -> length l' = length l ->
  exists t', gc_refs_mut (E:=E) t l' = Ok t' /\ table_repr t' (AGc l' m).
Proof.
  intros Hr Hl. inversion Hr as [|? n| |]; subst; cbn.
  - rewrite Nat2Z.id, drop_app_length. eexists; split; [done|]. rewrite <- Hl in *. by constructor.
  - eexists; split; [done|]. constructor. by rewrite Hl.
Qed.
End Repr.

(** Slots [dst] to [dst + n] are slots of the list. *)
Definition in_bounds (len : nat) (dst n : Z) : bool := dst + n <=? Z.of_nat len.

Lemma length_overwrite {A} (l : list A) d x : (d + length x <= length l)%nat -> length (overwrite l d x) = length l.
Proof. intros Hd. unfold overwrite. rewrite !length_app, length_take, length_drop. lia. Qed.

Lemma overwrite_lookup {A} (l : list A) d x i :
  (d + length x <= length l)%nat ->
  overwrite l d x !! i = if decide (d <= i < d + length x)%nat then x !! (i - d)%nat else l !! i.
Proof.
  intros Hd. unfold overwrite. assert (Hl : length (take d l) = d) by (rewrite length_take; lia).
  destruct (decide (i < d)%nat) as [Hi|Hi].
  - rewrite decide_False by lia. rewrite lookup_app_l by lia. by apply lookup_take_lt.
  - rewrite lookup_app_r by lia. rewrite Hl. case_decide as Hc.
    + by rewrite lookup_app_l by lia.
    + rewrite lookup_app_r by lia. rewrite lookup_drop. f_equal. lia.
Qed.
