(* ===== verification/TableOps.v ===== *)
(** * Tables and the references they hold

    A slot of a table of GC references owns a count of the object it refers to.
    [GcAccounting] is what a table relies on of the collector: that the barriers
    keep the counts of the references in use.  Against it every operation on
    tables is shown to do what it does on plain lists, to move counts between the
    tables, the host and the list of references that nobody holds any more, and
    never to panic.  The reference counting collector is an instance. *)

From Stdlib Require Import ZArith Lia.
From stdpp Require Import base list gmap numbers option sets.
From S2P Require Import Prelude MemoryTypes Mappings LinearMemory MetadataSections GcRef Drc GcStore WasmTypes TypeMatching Tables.
Open Scope Z_scope.

(** ** What tables rely on *)

(** [inv s l]: the counts of the collector [s] are those of the references [l] in
    use; fewer than [room] are. *)
Class GcAccounting {T H : Type} `{!GcHeap T H} (inv : GcStore T H -> list Z -> Prop) (room : Z) : Prop := {
  acc_perm s l l' : l ≡ₚ l' -> inv s l -> inv s l';
  acc_clone s l r :
    inv s l -> Z.of_nat (length l) < room -> r ∈ l ->
    exists s', store_clone_gc_ref s r = Ok (r, s') /\ inv s' (r :: l);
  acc_write s l d src rest :
    inv s l -> Z.of_nat (length l) < room -> owned_slot d l rest -> borrowed src l ->
    exists s', store_write_gc_ref s d src = Ok (s', src) /\ inv s' (push_slot src rest);
  acc_drop s l r :
    inv s (r :: l) -> Z.of_nat (length (r :: l)) < room ->
    exists s', store_drop_gc_ref s r = Ok s' /\ inv s' l;
  acc_i31 s l i : inv s l -> Z.of_nat (length l) < room -> inv s (wrapping_u32 i :: l)
}.

(** ** References in slots *)

Definition held_by (l : list (option VMGcRef)) : list Z := omap id l.

Lemma held_by_cons x l : held_by (x :: l) = push_slot x (held_by l).
Proof. by destruct x. Qed.

Lemma held_by_app l k : held_by (l ++ k) = held_by l ++ held_by k.
Proof. apply omap_app. Qed.

Lemma held_by_length l : (length (held_by l) <= length l)%nat.
Proof. induction l as [|[r|] l IH]; [done|..]; rewrite held_by_cons; cbn [push_slot length]; lia. Qed.

Lemma push_slot_perm x l l' : l ≡ₚ l' -> push_slot x l ≡ₚ push_slot x l'.
Proof. destruct x; cbn; [by intros ->|done]. Qed.

Lemma push_slot_swap x y l : push_slot x (push_slot y l) ≡ₚ push_slot y (push_slot x l).
Proof. destruct x, y; cbn; [apply Permutation_swap|done..]. Qed.

Lemma push_slot_app x l k : push_slot x (l ++ k) = push_slot x l ++ k.
Proof. by destruct x. Qed.

Lemma push_slot_held x l : push_slot x l = held_by [x] ++ l.
Proof. by destruct x. Qed.

Lemma held_by_insert l d x y :
  l !! d = Some x -> push_slot x (held_by (<[d := y]> l)) ≡ₚ push_slot y (held_by l).
Proof.
  revert d. induction l as [|z l IH]; intros [|d] Hd; cbn [list_lookup lookup] in Hd; try discriminate.
  - injection Hd as ->. cbn [insert list_insert]. rewrite !held_by_cons. apply push_slot_swap.
  - cbn [insert list_insert]. rewrite !held_by_cons, push_slot_swap.
    rewrite (push_slot_perm z _ _ (IH d Hd)). apply push_slot_swap.
Qed.

Lemma held_by_elem l d r : l !! d = Some (Some r) -> r ∈ held_by l.
Proof. intros Hd. apply list_elem_of_omap. exists (Some r). split; [by eapply list_elem_of_lookup_2|done]. Qed.

Lemma held_by_overwrite l d x :
  (d + length x <= length l)%nat ->
  held_by (overwrite l d x) ++ held_by (take (length x) (drop d l)) ≡ₚ held_by x ++ held_by l.
Proof.
  intros Hd. unfold overwrite. rewrite <- (take_drop d l) at 4. rewrite <- (take_drop (length x) (drop d l)) at 2.
  rewrite drop_drop, !held_by_app. solve_Permutation.
Qed.

Lemma held_by_replicate_None n : held_by (replicate n None) = [].
Proof. induction n as [|n IH]; [done|]. cbn [replicate]. by rewrite held_by_cons. Qed.

(** ** Overwriting one slot at a time *)

Section Overwrite.
  Context {A : Type}.
  Implicit Types l : list A.

Lemma overwrite_first l d x y :
  (d < length l)%nat -> overwrite (<[d := x]> l) (S d) y = overwrite l d (x :: y).
Proof.
  intros Hd. unfold overwrite. rewrite (take_S_r _ _ x) by (by apply list_lookup_insert_eq).
  rewrite take_insert_ge, drop_insert_lt by lia. cbn [length].
  replace (S d + length y)%nat with (d + S (length y))%nat by lia. by rewrite <- app_assoc.
Qed.

Lemma overwrite_last l d n x y :
  length y = n -> (d + n < length l)%nat -> overwrite (<[(d + n)%nat := x]> l) d y = overwrite l d (y ++ [x]).
Proof.
  intros Hy Hd. unfold overwrite. rewrite take_insert_ge by lia. rewrite length_app, Hy. cbn [length].
  rewrite (drop_S _ x) by (by apply list_lookup_insert_eq). rewrite drop_insert_lt by lia.
  rewrite <- app_assoc. cbn [app]. by replace (d + (n + 1))%nat with (S (d + n)) by lia.
Qed.

Lemma take_drop_first l i n x : l !! i = Some x -> take (S n) (drop i l) = x :: take n (drop (S i) l).
Proof. intros Hi. by rewrite (drop_S _ _ _ Hi). Qed.

Lemma take_drop_last l i n x : l !! (i + n)%nat = Some x -> take (S n) (drop i l) = take n (drop i l) ++ [x].
Proof. intros Hi. apply take_S_r. by rewrite lookup_drop. Qed.

Lemma overwrite_nil l d : overwrite l d [] = l.
Proof. unfold overwrite. cbn. by rewrite Nat.add_0_r, take_drop. Qed.
End Overwrite.

(** ** The loops over references *)

Section Loops.
  Context {T H : Type} `{!GcHeap T H} (inv : GcStore T H -> list Z -> Prop) (room : Z)
    `{!GcAccounting inv room}.
  Context {E : Type}.
  Implicit Types (s : GcStore T H) (l : list (option VMGcRef)).

(** The number of references in [l] slots and elsewhere leaves room. *)
Definition roomy (n : nat) (rest : list Z) : Prop := Z.of_nat (n + length rest) < room.

Lemma roomy_held l rest : roomy (length l) rest -> Z.of_nat (length (held_by l ++ rest)) < room.
Proof. unfold roomy. rewrite length_app. pose proof (held_by_length l). lia. Qed.

Lemma write_slot_ok s l rest d x (src : option VMGcRef) :
  inv s (held_by l ++ rest) -> roomy (length l) rest -> l !! d = Some x -> borrowed src (held_by l ++ rest) ->
  exists s', write_slot (E:=E) s x src = Ok (s', src) /\ inv s' (held_by (<[d := src]> l) ++ rest).
Proof.
  intros Hi Hr Hd Hb. unfold write_slot.
  destruct (acc_write s (held_by l ++ rest) x src (held_by (<[d := None]> l) ++ rest) Hi (roomy_held _ _ Hr)) as (s' & Hw & Hi').
  - pose proof (held_by_insert l d x None Hd) as Hp. destruct x as [r|]; cbn [owned_slot push_slot] in *;
      rewrite <- Hp; done.
  - done.
  - rewrite Hw. exists s'. split; [done|]. eapply acc_perm; [|exact Hi'].
    rewrite push_slot_app. apply Permutation_app_tail.
    assert (Hn : <[d := None]> l !! d = Some (None : option VMGcRef)) by (apply list_lookup_insert_eq; by eapply lookup_lt_Some).
    pose proof (held_by_insert (<[d := None]> l) d None src Hn) as Hp. cbn [push_slot] in Hp.
    rewrite list_insert_insert_eq in Hp. by symmetry.
Qed.

Lemma write_all_ok s (src : option VMGcRef) pre l rest :
  inv s (held_by (pre ++ l) ++ rest) -> roomy (length (pre ++ l)) rest -> borrowed src rest ->
  exists s', write_all (E:=E) s src l = Ok (s', replicate (length l) src) /\
    inv s' (held_by (pre ++ replicate (length l) src) ++ rest).
Proof.
  revert s pre. induction l as [|x l IH]; intros s pre Hi Hr Hb; [by exists s|].
  destruct (write_slot_ok s (pre ++ x :: l) rest (length pre) x src Hi Hr) as (s1 & Hw & Hi1).
  { by apply list_lookup_middle. }
  { destruct src; [|done]. apply list.elem_of_app. by right. }
  rewrite insert_app_r_alt, Nat.sub_diag in Hi1 by done. cbn [insert list_insert] in Hi1.
  cbn [write_all length replicate]. rewrite Hw. cbn [mbind outcome_bind].
  destruct (IH s1 (pre ++ [src])) as (s2 & Hw2 & Hi2).
  { by rewrite <- app_assoc. }
  { unfold roomy in *. rewrite !length_app in *. cbn [length] in *. lia. }
  { done. }
  rewrite Hw2. cbn [mbind outcome_bind]. exists s2. split; [done|]. by rewrite <- app_assoc in Hi2.
Qed.

Lemma slot_borrowed l rest i x : l !! i = Some x -> borrowed x (held_by l ++ rest).
Proof. intros Hi. destruct x as [r|]; [|done]. apply list.elem_of_app. left. by eapply held_by_elem. Qed.

Lemma copy_refs_ok n s dst src rest d i :
  inv s (held_by dst ++ rest) -> roomy (length dst) rest ->
  (forall r, r ∈ held_by src -> r ∈ rest) -> (d + n <= length dst)%nat -> (i + n <= length src)%nat ->
  exists s', copy_refs (E:=E) s n dst src d i = Ok (s', overwrite dst d (take n (drop i src))) /\
    inv s' (held_by (overwrite dst d (take n (drop i src))) ++ rest).
Proof.
  revert s dst d i. induction n as [|n IH]; intros s dst d i Hi Hr Hb Hd Hs; cbn [copy_refs take].
  { exists s. by rewrite take_0, overwrite_nil. }
  destruct (lookup_lt_is_Some_2 dst d ltac:(lia)) as [x Hx].
  destruct (lookup_lt_is_Some_2 src i ltac:(lia)) as [y Hy].
  rewrite Hx, Hy. cbn [unwrap mbind outcome_bind].
  destruct (write_slot_ok s dst rest d x y Hi Hr Hx) as (s1 & Hw & Hi1).
  { destruct y as [r|]; [|done]. apply list.elem_of_app. right. apply Hb. by eapply held_by_elem. }
  rewrite Hw. cbn [mbind outcome_bind].
  destruct (IH s1 (<[d := y]> dst) (S d) (S i)) as (s2 & Hc & Hi2);
    [done|by rewrite length_insert|done|rewrite length_insert; lia|lia|].
  rewrite Hc, (take_drop_first _ _ _ _ Hy), <- overwrite_first by lia. by exists s2.
Qed.

Lemma copy_slot_ok s l rest d i x :
  inv s (held_by l ++ rest) -> roomy (length l) rest -> (d < length l)%nat -> l !! i = Some x ->
  exists s', copy_slot (E:=E) s l d i = Ok (s', <[d := x]> l) /\ inv s' (held_by (<[d := x]> l) ++ rest).
Proof.
  intros Hi Hr [y Hy]%lookup_lt_is_Some_2 Hx. unfold copy_slot. rewrite Hx, Hy. cbn [unwrap mbind outcome_bind].
  destruct (write_slot_ok s l rest d y x Hi Hr Hy) as (s1 & Hw & Hi1); [by eapply slot_borrowed|].
  rewrite Hw. cbn [mbind outcome_bind]. by exists s1.
Qed.

Lemma copy_up_ok n s l rest d i :
  inv s (held_by l ++ rest) -> roomy (length l) rest -> (d < i)%nat -> (i + n <= length l)%nat ->
  exists s', copy_up (E:=E) s n l d i = Ok (s', overwrite l d (take n (drop i l))) /\
    inv s' (held_by (overwrite l d (take n (drop i l))) ++ rest).
Proof.
  revert s l d i. induction n as [|n IH]; intros s l d i Hi Hr Hd Hl; cbn [copy_up take].
  { exists s. by rewrite take_0, overwrite_nil. }
  destruct (lookup_lt_is_Some_2 l i ltac:(lia)) as [x Hx].
  rewrite (proj2 (Nat.ltb_lt _ _)) by lia. cbn [assert_ mbind outcome_bind].
  destruct (copy_slot_ok s l rest d i x Hi Hr ltac:(lia) Hx) as (s1 & Hc & Hi1). rewrite Hc. cbn [mbind outcome_bind].
  destruct (IH s1 (<[d := x]> l) (S d) (S i)) as (s2 & Hu & Hi2);
    [done|by rewrite length_insert|lia|rewrite length_insert; lia|].
  rewrite Hu. rewrite drop_insert_lt, overwrite_first in Hi2 |- * by lia.
  rewrite (take_drop_first _ _ _ _ Hx). by exists s2.
Qed.

Lemma copy_down_ok n s l rest d i :
  inv s (held_by l ++ rest) -> roomy (length l) rest -> (i < d)%nat -> (d + n <= length l)%nat ->
  exists s', copy_down (E:=E) s n l d i = Ok (s', overwrite l d (take n (drop i l))) /\
    inv s' (held_by (overwrite l d (take n (drop i l))) ++ rest).
Proof.
  revert s l. induction n as [|n IH]; intros s l Hi Hr Hd Hl; cbn [copy_down].
  { exists s. by rewrite take_0, overwrite_nil. }
  destruct (lookup_lt_is_Some_2 l (i + n) ltac:(lia)) as [x Hx].
  rewrite (proj2 (Nat.ltb_lt _ _)) by lia. cbn [assert_ mbind outcome_bind].
  destruct (copy_slot_ok s l rest (d + n) (i + n) x Hi Hr ltac:(lia) Hx) as (s1 & Hc & Hi1).
  rewrite Hc. cbn [mbind outcome_bind].
  destruct (IH s1 (<[(d + n)%nat := x]> l)) as (s2 & Hu & Hi2);
    [done|by rewrite length_insert|lia|rewrite length_insert; lia|].
  assert (Ht : take n (drop i (<[(d + n)%nat := x]> l)) = take n (drop i l)).
  { rewrite !take_drop_commute, take_insert_ge by lia. done. }
  rewrite Hu. rewrite Ht, overwrite_last in Hi2 |- * by (rewrite ?length_take, ?length_drop; lia).
  rewrite (take_drop_last _ _ _ _ Hx). by exists s2.
Qed.
End Loops.

(** ** Programs over tables *)

Inductive slot_op :=
| Get (i : Z)
| Put (i : Z) (e : TableElement)
| InitFuncs (dst : Z) (items : list Z)
| InitRefs (dst : Z) (items : list (option VMGcRef))
| Fill (dst : Z) (val : TableElement) (len : Z)
| Grow (delta : Z) (val : TableElement).

Inductive table_op :=
| On (t : nat) (o : slot_op)
| Copy (dst_table src_table : nat) (dst src len : Z).

Inductive table_result :=
| RElem (e : option TableElement)
| RDone
| RTrap
| RNoSlot
| RSize (old : option Z)
| RError (e : mem_error).

(** An error of an operation is its result; nothing has changed. *)
Definition settle {E A R} (m : outcome E A) (f : A -> R) (g : E -> R) : outcome Empty_set R :=
  match m with Ok a => Ok (f a) | Err e => Ok (g e) | Panic => Panic end.

Section Run.
  Context {T H : Type} `{!GcHeap T H} (dbg : bool) (lim : option StoreLimits).
  Implicit Types s : GcStore T H.

Definition run_slot (t : Table) s (o : slot_op) : outcome Empty_set (table_result * Table * GcStore T H) :=
  match o with
  | Get i => '(e, s) ← table_get t s i; Ok (RElem e, t, s)
  | Put i e => settle (table_set t i e) (fun t => (RDone, t, s)) (fun _ => (RNoSlot, t, s))
  | InitFuncs dst items => settle (init_func t dst items) (fun t => (RDone, t, s)) (fun _ => (RTrap, t, s))
  | InitRefs dst items => settle (init_gc_refs t dst items) (fun t => (RDone, t, s)) (fun _ => (RTrap, t, s))
  | Fill dst val len =>
      settle (table_fill t s dst val len) (fun '(t, s) => (RDone, t, s)) (fun _ => (RTrap, t, s))
  | Grow delta val =>
      settle (snd (table_grow dbg lim t s delta val)) (fun '(old, t, s) => (RSize old, t, s))
        (fun e => (RError e, t, s))
  end.

Definition run_table_op (tables : list Table) s (o : table_op)
  : outcome Empty_set (table_result * list Table * GcStore T H) :=
  match o with
  | On t o =>
      x ← unwrap (tables !! t);
      '(r, x, s) ← run_slot x s o;
      Ok (r, <[t := x]> tables, s)
  | Copy d i dst src len =>
      settle (table_copy dbg s tables d i dst src len) (fun '(s, tables) => (RDone, tables, s))
        (fun _ => (RTrap, tables, s))
  end.
End Run.

(** ** The same programs over lists

    An effect says what the operation returns and what becomes of the table, which
    references of the host it uses up, which it hands out, and of which it forgets
    the count. *)

Record effect := {
  e_result : table_result;
  e_table : atable;
  e_uses : list Z;
  e_gives : list Z;
  e_leaks : list Z
}.

Definition quiet (r : table_result) (x : atable) : effect :=
  {| e_result := r; e_table := x; e_uses := []; e_gives := []; e_leaks := [] |}.

(** The reference that was passed is forgotten. *)
Definition forgets (r : table_result) (x : atable) (uses : list Z) : effect :=
  {| e_result := r; e_table := x; e_uses := uses; e_gives := []; e_leaks := uses |}.

Definition element_refs (e : TableElement) : list Z :=
  match e with GcRefElement (Some r) => [r] | _ => [] end.

Definition spec_get (x : atable) (i : Z) : effect :=
  match x with
  | AFunc l lazy_init _ => quiet (RElem ((fun p => into_table_element p lazy_init) <$> l !! Z.to_nat i)) x
  | AGc l _ =>
      let e := GcRefElement <$> l !! Z.to_nat i in
      {| e_result := RElem e; e_table := x; e_uses := [];
         e_gives := match e with Some e => element_refs e | None => [] end; e_leaks := [] |}
  end.

Definition spec_put (x : atable) (i : Z) (e : TableElement) : option effect :=
  match x, e with
  | AFunc l lz m, (FuncRef _ | UninitFunc) =>
      let p := match e with FuncRef f => tagged_from f lz | _ => UNINIT end in
      Some (if i <? Z.of_nat (length l) then quiet RDone (AFunc (<[Z.to_nat i := p]> l) lz m) else quiet RNoSlot x)
  | AGc l m, GcRefElement r =>
      Some match l !! Z.to_nat i with
           | Some old => {| e_result := RDone; e_table := AGc (<[Z.to_nat i := r]> l) m;
                            e_uses := held_by [r]; e_gives := []; e_leaks := held_by [old] |}
           | None => forgets RNoSlot x (held_by [r])
           end
  | _, _ => None
  end.

Definition spec_init_funcs (x : atable) (dst : Z) (items : list Z) : option effect :=
  match x with
  | AFunc l lz m =>
      Some (if in_bounds (length l) dst (Z.of_nat (length items))
            then quiet RDone (AFunc (overwrite l (Z.to_nat dst) (map (fun p => tagged_from p lz) items)) lz m)
            else quiet RTrap x)
  | AGc _ _ => None
  end.

Definition spec_init_refs (x : atable) (dst : Z) (items : list (option VMGcRef)) : option effect :=
  match x with
  | AGc l m =>
      Some (if in_bounds (length l) dst (Z.of_nat (length items))
            then {| e_result := RDone; e_table := AGc (overwrite l (Z.to_nat dst) items) m;
                    e_uses := held_by items; e_gives := [];
                    e_leaks := held_by (take (length items) (drop (Z.to_nat dst) l)) |}
            else quiet RTrap x)
  | AFunc _ _ _ => None
  end.

Definition spec_fill (x : atable) (dst : Z) (val : TableElement) (len : Z) : option effect :=
  match x, val with
  | AFunc l lz m, (FuncRef _ | UninitFunc) =>
      let p := match val with FuncRef f => tagged_from f lz | _ => UNINIT end in
      Some (if in_bounds (length l) dst len
            then quiet RDone (AFunc (overwrite l (Z.to_nat dst) (replicate (Z.to_nat len) p)) lz m)
            else quiet RTrap x)
  | AGc l m, GcRefElement r =>
      Some (if in_bounds (length l) dst len
            then {| e_result := RDone; e_table := AGc (overwrite l (Z.to_nat dst) (replicate (Z.to_nat len) r)) m;
                    e_uses := held_by [r]; e_gives := []; e_leaks := [] |}
            else forgets RTrap x (held_by [r]))
  | _, _ => None
  end.

(** The table with [n] more slots. *)
Definition a_append (x : atable) (n : nat) (val : TableElement) : option atable :=
  match x, val with
  | AFunc l lz m, FuncRef f => Some (AFunc (l ++ replicate n (tagged_from f lz)) lz m)
  | AGc l m, GcRefElement r => Some (AGc (l ++ replicate n r) m)
  | _, _ => None
  end.

Definition allows (lim : option StoreLimits) (desired : Z) (max : option Z) : bool :=
  match lim with Some l => limit_allows (l_table_elements l) desired max | None => true end.

(** What a refused growth returns: an error where the limits ask for a trap. *)
Definition refusal (lim : option StoreLimits) (e : mem_error) : table_result :=
  if match lim with Some l => trap_on_grow_failure l | None => false end then RError e else RSize None.

Definition spec_grow (lim : option StoreLimits) (x : atable) (delta : Z) (val : TableElement) : option effect :=
  grown ← a_append x (Z.to_nat delta) val;
  let old := Z.of_nat (a_length x) in
  let uses := element_refs val in
  Some (if delta =? 0 then forgets (RSize (Some old)) x uses
        else if 2 ^ 32 <=? old + delta then forgets (refusal lim SizeOverflow) x uses
        else if negb (allows lim (old + delta) (a_max x)) then forgets (refusal lim ForcedTrap) x uses
        else if match a_max x with Some max => max <? old + delta | None => false end
        then forgets (refusal lim MaximumExceeded) x uses
        else {| e_result := RSize (Some old); e_table := grown; e_uses := uses; e_gives := []; e_leaks := [] |}).

Definition spec_slot (lim : option StoreLimits) (x : atable) (o : slot_op) : option effect :=
  match o with
  | Get i => if in_ub 32 i then Some (spec_get x i) else None
  | Put i e => if in_ub 32 i then spec_put x i e else None
  | InitFuncs dst items => if in_ub 32 dst then spec_init_funcs x dst items else None
  | InitRefs dst items => if in_ub 32 dst then spec_init_refs x dst items else None
  | Fill dst val len => if in_ub 32 dst && in_ub 32 len then spec_fill x dst val len else None
  | Grow delta val => if in_ub 32 delta then spec_grow lim x delta val else None
  end.

Definition a_refs (x : atable) : list Z := match x with AGc l _ => held_by l | AFunc _ _ _ => [] end.

(** ** One table *)

Section Slot.
  Context {T H : Type} `{!GcHeap T H} (inv : GcStore T H -> list Z -> Prop) (room : Z)
    `{!GcAccounting inv room} (dbg : bool) (lim : option StoreLimits).
  Implicit Types (s : GcStore T H) (t : Table).

Definition bounded_by (x : atable) (e : effect) (rest : list Z) : Prop :=
  Z.of_nat (a_length x + a_length (e_table e) + length (e_uses e) + length rest) + 1 < room.

(** The operation [o] on a table that is [x] has the effect [e]. *)
Definition has_effect (x : atable) (o : slot_op) (e : effect) : Prop :=
  forall t s rest, table_repr t x -> inv s (a_refs x ++ e_uses e ++ rest) -> bounded_by x e rest ->
    exists t' s', run_slot dbg lim t s o = Ok (e_result e, t', s') /\ table_repr t' (e_table e) /\
      inv s' (a_refs (e_table e) ++ e_gives e ++ e_leaks e ++ rest).

Lemma in_range_bounds len dst n : in_u 32 dst -> in_range len dst n = in_bounds len dst (Z.of_nat n).
Proof.
  unfold in_u, in_range, in_bounds. intros Hd.
  destruct (Z.leb_spec dst (Z.of_nat len)), (Z.leb_spec (Z.of_nat n) (Z.of_nat len - dst)),
    (Z.leb_spec (dst + Z.of_nat n) (Z.of_nat len)); cbn; try done; lia.
Qed.

Lemma in_bounds_nat len dst n :
  in_u 32 dst -> in_bounds len dst (Z.of_nat n) = true -> (Z.to_nat dst + n <= len)%nat.
Proof. unfold in_u, in_bounds. intros Hd Hb%Z.leb_le. lia. Qed.

Lemma get_effect x i : in_u 32 i -> has_effect x (Get i) (spec_get x i).
Proof.
  intros Hi t s rest Hr Hs Hb. unfold run_slot, table_get. rewrite (repr_type _ _ Hr).
  destruct x as [l lz m|l m]; cbn [a_type spec_get quiet e_uses e_result e_table e_gives e_leaks a_refs app] in *.
  - rewrite (repr_funcrefs _ _ _ _ Hr). cbn [mbind outcome_bind]. by exists t, s.
  - rewrite (repr_gc_refs _ _ _ Hr). cbn [mbind outcome_bind].
    destruct (l !! Z.to_nat i) as [[r|]|] eqn:Hl; cbn [mbind outcome_bind fmap option_fmap option_map element_refs app];
      [|by exists t, s..].
    destruct (acc_clone s (held_by l ++ rest) r Hs) as (s' & Hc & Hs').
    { unfold bounded_by in Hb. cbn in Hb. rewrite length_app. pose proof (held_by_length l). lia. }
    { apply list.elem_of_app. left. by eapply held_by_elem. }
    rewrite Hc. cbn [unwrap_result mbind outcome_bind]. exists t, s'. split; [done|]. split; [done|].
    eapply acc_perm; [|exact Hs']. cbn [app]. by rewrite Permutation_middle.
Qed.

Lemma put_func t s rest l lz m i p :
  table_repr t (AFunc l lz m) -> inv s rest ->
  let f := if i <? Z.of_nat (length l) then quiet RDone (AFunc (<[Z.to_nat i := p]> l) lz m) else quiet RNoSlot (AFunc l lz m) in
  inv s (e_uses f ++ rest) /\
  exists t' s', settle (if i <? Z.of_nat (length l) then funcrefs_mut t (<[Z.to_nat i := p]> l) else Err NoSlot)
      (fun t => (RDone, t, s)) (fun _ => (RNoSlot, t, s)) = Ok (e_result f, t', s') /\
    table_repr t' (e_table f) /\ inv s' (a_refs (e_table f) ++ e_gives f ++ e_leaks f ++ rest).
Proof.
  intros Hr Hs f. subst f. destruct (i <? Z.of_nat (length l)); (split; [done|]); [|by exists t, s].
  destruct (repr_funcrefs_mut (E:=set_error) t l lz m (<[Z.to_nat i := p]> l) Hr (length_insert _ _ _)) as (t' & Ht & Hr').
  rewrite Ht. by exists t', s.
Qed.

Lemma put_effect x i e f : in_u 32 i -> spec_put x i e = Some f -> has_effect x (Put i e) f.
Proof.
  intros Hi Hf t s rest Hr Hs Hb. unfold run_slot, table_set, in_u in *.
  destruct x as [l lz m|l m], e as [g|r|]; try discriminate; apply (inj Some) in Hf; subst f.
  1,2: rewrite (repr_funcrefs _ _ _ _ Hr); cbn [mbind outcome_bind];
    apply (put_func t s rest l lz m i); [done|]; by destruct (i <? Z.of_nat (length l)).
  rewrite (repr_gc_refs _ _ _ Hr). cbn [mbind outcome_bind].
  destruct (l !! Z.to_nat i) as [old|] eqn:Hl; cbn [forgets e_uses e_result e_table e_gives e_leaks a_refs app] in *.
  - assert (Z.to_nat i < length l)%nat by (by eapply lookup_lt_Some). rewrite (proj2 (Z.ltb_lt _ _)) by lia.
    destruct (repr_gc_refs_mut (E:=set_error) t l m (<[Z.to_nat i := r]> l) Hr (length_insert _ _ _)) as (t' & Ht & Hr').
    rewrite Ht. exists t', s. split; [done|]. split; [done|]. eapply acc_perm; [|exact Hs].
    pose proof (held_by_insert l (Z.to_nat i) old r Hl) as Hp. rewrite !push_slot_held in Hp.
    rewrite !app_assoc. apply Permutation_app_tail. by rewrite (Permutation_app_comm (held_by l)), <- Hp, Permutation_app_comm.
  - apply lookup_ge_None in Hl. rewrite (proj2 (Z.ltb_ge _ _)) by lia. by exists t, s.
Qed.

Lemma init_funcs_effect x dst items f :
  in_u 32 dst -> spec_init_funcs x dst items = Some f -> has_effect x (InitFuncs dst items) f.
Proof.
  intros Hi Hf t s rest Hr Hs Hb. unfold run_slot, init_func. destruct x as [l lz m|]; [|done]. apply (inj Some) in Hf; subst f.
  rewrite (repr_funcrefs _ _ _ _ Hr). cbn [mbind outcome_bind]. rewrite in_range_bounds by done.
  destruct (in_bounds _ _ _) eqn:Hin; cbn [settle quiet e_uses e_result e_table e_gives e_leaks a_refs app] in *; [|by exists t, s].
  apply in_bounds_nat in Hin; [|done].
  edestruct (repr_funcrefs_mut (E:=Trap) t l lz m) as (t' & Ht & Hr'); [exact Hr| |rewrite Ht; by exists t', s].
  by rewrite length_overwrite by (by rewrite length_map).
Qed.

Lemma init_refs_effect x dst items f :
  in_u 32 dst -> spec_init_refs x dst items = Some f -> has_effect x (InitRefs dst items) f.
Proof.
  intros Hi Hf t s rest Hr Hs Hb. unfold run_slot, init_gc_refs. destruct x as [|l m]; [done|]. apply (inj Some) in Hf; subst f.
  rewrite (repr_gc_refs _ _ _ Hr). cbn [mbind outcome_bind]. rewrite in_range_bounds by done.
  destruct (in_bounds _ _ _) eqn:Hin; cbn [settle quiet e_uses e_result e_table e_gives e_leaks a_refs app] in *; [|by exists t, s].
  apply in_bounds_nat in Hin; [|done].
  edestruct (repr_gc_refs_mut (E:=Trap) t l m) as (t' & Ht & Hr'); [exact Hr|by apply length_overwrite|].
  rewrite Ht. exists t', s. split; [done|]. split; [done|]. eapply acc_perm; [|exact Hs].
  rewrite !app_assoc. apply Permutation_app_tail. by rewrite held_by_overwrite, Permutation_app_comm.
Qed.

(** *** Filling *)

Lemma fill_start t x s dst val len :
  table_repr t x -> in_u 32 dst -> in_u 32 len -> in_bounds (a_length x) dst len = false ->
  table_fill t s dst val len = Err TableOutOfBounds.
Proof.
  unfold in_u, in_bounds. intros Hr Hd Hl Hb%Z.leb_gt. unfold table_fill, checked.
  rewrite in_ub_true by (unfold in_u; lia). cbn [ok_or mbind outcome_bind]. rewrite (repr_size _ _ Hr).
  cbn [mbind outcome_bind]. by rewrite (proj2 (Z.ltb_lt _ _)) by lia.
Qed.

Lemma fill_func_ok t s l lz m dst len val p :
  table_repr t (AFunc l lz m) -> in_u 32 dst -> in_u 32 len -> in_bounds (length l) dst len = true ->
  val = FuncRef p \/ val = UninitFunc ->
  exists t', table_fill t s dst val len = Ok (t', s) /\
    table_repr t' (AFunc (overwrite l (Z.to_nat dst)
      (replicate (Z.to_nat len) (match val with FuncRef f => tagged_from f lz | _ => UNINIT end))) lz m).
Proof.
  unfold in_u, in_bounds. intros Hr Hd Hl Hb%Z.leb_le Hv. unfold table_fill, checked.
  rewrite in_ub_true by (unfold in_u; lia). cbn [ok_or mbind outcome_bind]. rewrite (repr_size _ _ Hr).
  cbn [mbind outcome_bind a_length]. rewrite (proj2 (Z.ltb_ge _ _)) by lia.
  set (v := match val with FuncRef f => tagged_from f lz | _ => UNINIT end).
  destruct (repr_funcrefs_mut (E:=Trap) t l lz m (overwrite l (Z.to_nat dst) (replicate (Z.to_nat len) v)) Hr) as (t' & Ht & Hr').
  { apply length_overwrite. rewrite length_replicate. lia. }
  exists t'. split; [|done]. destruct Hv as [-> | ->]; subst v; rewrite (repr_funcrefs _ _ _ _ Hr);
    cbn [mbind outcome_bind]; by rewrite Ht.
Qed.

Lemma fill_gc_ok t s l m dst len r rest :
  table_repr t (AGc l m) -> in_u 32 dst -> in_u 32 len -> in_bounds (length l) dst len = true ->
  inv s (held_by l ++ held_by [r] ++ rest) -> Z.of_nat (length l + length rest) + 1 < room ->
  exists t' s', table_fill t s dst (GcRefElement r) len = Ok (t', s') /\
    table_repr t' (AGc (overwrite l (Z.to_nat dst) (replicate (Z.to_nat len) r)) m) /\
    inv s' (held_by (overwrite l (Z.to_nat dst) (replicate (Z.to_nat len) r)) ++ rest).
Proof.
  unfold in_u, in_bounds. intros Hr Hd Hl Hb%Z.leb_le Hs Hroom. unfold table_fill, checked.
  rewrite in_ub_true by (unfold in_u; lia). cbn [ok_or mbind outcome_bind]. rewrite (repr_size _ _ Hr).
  cbn [mbind outcome_bind a_length]. rewrite (proj2 (Z.ltb_ge _ _)) by lia. rewrite (repr_gc_refs _ _ _ Hr).
  cbn [mbind outcome_bind]. set (d := Z.to_nat dst). set (n := Z.to_nat len).
  assert (Hn : length (take n (drop d l)) = n) by (rewrite length_take, length_drop; lia).
  destruct (write_all_ok inv room (E:=Trap) s r (take d l) (take n (drop d l))
    (held_by (drop (d + n) l) ++ held_by [r] ++ rest)) as (s1 & Hw & Hs1).
  { eapply acc_perm; [|exact Hs]. rewrite !app_assoc, <- !held_by_app. do 3 f_equiv.
    by rewrite <- app_assoc, <- drop_drop, !take_drop. }
  { unfold roomy. rewrite !length_app, Hn, length_take. pose proof (held_by_length (drop (d + n) l)) as Hx.
    rewrite length_drop in Hx. pose proof (held_by_length [r]) as Hy. cbn [length] in Hy. lia. }
  { destruct r as [r|]; [|done]. cbn [borrowed]. apply list.elem_of_app. right. by left. }
  rewrite Hn in Hw, Hs1. rewrite Hw. cbn [mbind outcome_bind].
  destruct (repr_gc_refs_mut (E:=Trap) t l m (overwrite l d (replicate n r)) Hr) as (t' & Ht & Hr').
  { apply length_overwrite. rewrite length_replicate. lia. }
  rewrite Ht. cbn [mbind outcome_bind].
  assert (Hs2 : inv s1 (held_by [r] ++ held_by (overwrite l d (replicate n r)) ++ rest)).
  { eapply acc_perm; [|exact Hs1]. unfold overwrite. rewrite length_replicate, !held_by_app. solve_Permutation. }
  destruct r as [r|]; [|by exists t', s1].
  destruct (acc_drop s1 (held_by (overwrite l d (replicate n (Some r))) ++ rest) r Hs2) as (s2 & Hd2 & Hs3).
  { cbn [length]. rewrite length_app. pose proof (held_by_length (overwrite l d (replicate n (Some r)))) as Hx.
    rewrite length_overwrite in Hx by (rewrite length_replicate; lia). lia. }
  rewrite Hd2. by exists t', s2.
Qed.

Lemma fill_effect x dst val len f :
  in_u 32 dst -> in_u 32 len -> spec_fill x dst val len = Some f -> has_effect x (Fill dst val len) f.
Proof.
  intros Hd Hl Hf t s rest Hr Hs Hb. unfold run_slot.
  destruct (in_bounds (a_length x) dst len) eqn:Hin;
    [|rewrite (fill_start _ _ _ _ _ _ Hr Hd Hl Hin)];
    (destruct x as [l lz m|l m], val as [g|r|]; try discriminate; unfold spec_fill in Hf; cbn [a_length] in Hin;
     rewrite Hin in Hf; apply (inj Some) in Hf; subst f).
  4-6: by exists t, s.
  - destruct (fill_func_ok t s l lz m dst len (FuncRef g) g Hr Hd Hl Hin ltac:(by left)) as (t' & Ht & Hr').
    rewrite Ht. by exists t', s.
  - destruct (fill_func_ok t s l lz m dst len UninitFunc 0 Hr Hd Hl Hin ltac:(by right)) as (t' & Ht & Hr').
    rewrite Ht. by exists t', s.
  - destruct (fill_gc_ok t s l m dst len r rest Hr Hd Hl Hin Hs) as (t' & s' & Ht & Hr' & Hs').
    { unfold bounded_by in Hb. cbn [a_length e_table] in Hb. lia. }
    rewrite Ht. by exists t', s'.
Qed.

(** *** Growing *)

(** The storage with [k] more slots, which are empty. *)
Definition a_extend (x : atable) (k : nat) : atable :=
  match x with
  | AFunc l lz m => AFunc (l ++ replicate k 0) lz m
  | AGc l m => AGc (l ++ replicate k None) m
  end.

Lemma forallb_replicate {A} (f : A -> bool) n x : f x = true -> forallb f (replicate n x) = true.
Proof. intros Hx. induction n as [|n IH]; [done|]. cbn. by rewrite Hx. Qed.

Lemma drop_take_replicate {A} (l : list A) n k x :
  (k <= n)%nat -> drop (length l) (take (length l + k) (l ++ replicate n x)) = replicate k x.
Proof. intros Hk. rewrite take_app_add, drop_app_length, take_replicate. f_equal. lia. Qed.

Lemma split_replicate {A} (l : list A) n k x :
  (k <= n)%nat -> l ++ replicate n x = (l ++ replicate k x) ++ replicate (n - k) x.
Proof. intros Hk. rewrite <- app_assoc, <- replicate_add. do 2 f_equal. lia. Qed.

Lemma grow_storage_ok {E} t x k :
  table_repr t x -> fits (a_max x) (a_length x + k) ->
  exists t', grow_storage (E:=E) dbg t (Z.of_nat (a_length x + k)) = Ok t' /\ table_repr t' (a_extend x k).
Proof.
  intros Hr [Hk Hm]. destruct Hr as [l n lz Hn|l n Hn|l lz max Hl|l max Hl]; cbn [a_length a_max a_extend grow_storage
    sf_data sf_size sf_lazy_init sg_data sg_size df_elements df_maximum df_lazy_init dg_elements dg_maximum] in *;
    rewrite ?Nat2Z.id.
  - rewrite drop_take_replicate by lia. rewrite debug_assert_true by (by apply forallb_replicate).
    eexists. split; [done|]. rewrite (split_replicate _ n k) by lia.
    replace (length l + k)%nat with (length (l ++ replicate k 0%Z)) by (by rewrite length_app, length_replicate).
    replace (length l + n)%nat with (length (l ++ replicate k 0%Z) + (n - k))%nat by (rewrite length_app, length_replicate; lia).
    constructor. rewrite length_app, length_replicate. lia.
  - rewrite drop_take_replicate by lia. rewrite debug_assert_true by (by apply forallb_replicate).
    eexists. split; [done|]. rewrite (split_replicate _ n k) by lia.
    replace (length l + k)%nat with (length (l ++ replicate k (None : option VMGcRef))) by (by rewrite length_app, length_replicate).
    replace (length l + n)%nat with (length (l ++ replicate k (None : option VMGcRef)) + (n - k))%nat by (rewrite length_app, length_replicate; lia).
    constructor. rewrite length_app, length_replicate. lia.
  - rewrite resize_ge by lia. eexists. split; [done|].
    replace (length l + k - length l)%nat with k by lia. constructor. by rewrite length_app, length_replicate.
  - rewrite resize_ge by lia. eexists. split; [done|].
    replace (length l + k - length l)%nat with k by lia. constructor. by rewrite length_app, length_replicate.
Qed.

Lemma overwrite_extended {A} (l : list A) k x y :
  overwrite (l ++ replicate k x) (length l) (replicate k y) = l ++ replicate k y.
Proof.
  unfold overwrite. rewrite length_replicate, take_app_length, drop_ge; [by rewrite app_nil_r|].
  by rewrite length_app, length_replicate.
Qed.

Lemma held_by_extended l k : held_by (l ++ replicate k None) = held_by l.
Proof. by rewrite held_by_app, held_by_replicate_None, app_nil_r. Qed.

Lemma grow_to_size_ok t s x delta val grown rest :
  table_repr t x -> in_u 32 delta -> a_append x (Z.to_nat delta) val = Some grown ->
  fits (a_max x) (a_length x + Z.to_nat delta) ->
  inv s (a_refs x ++ element_refs val ++ rest) -> Z.of_nat (a_length grown + length rest) + 1 < room ->
  exists t' s', grow_to_size dbg t s (Z.of_nat (a_length x)) (Z.of_nat (a_length x) + delta) delta val =
      Ok (Some (Z.of_nat (a_length x)), t', s') /\
    table_repr t' grown /\ inv s' (a_refs grown ++ rest).
Proof.
  intros Hr Hd Hg Hf Hs Hroom. unfold grow_to_size, type_matches. rewrite (repr_type _ _ Hr).
  rewrite debug_assert_true by (by destruct x, val). cbn [mbind outcome_bind].
  destruct (grow_storage_ok (E:=mem_error) t x (Z.to_nat delta) Hr Hf) as (t1 & Ht1 & Hr1).
  unfold in_u in Hd. destruct Hf as [Hf _].
  replace (Z.of_nat (a_length x) + delta) with (Z.of_nat (a_length x + Z.to_nat delta)) by lia.
  rewrite Ht1. cbn [mbind outcome_bind].
  assert (Hu : in_u 32 (Z.of_nat (a_length x)) /\ in_u 32 delta) by (unfold in_u; lia). destruct Hu as [Hu Hd'].
  destruct x as [l lz m|l m], val as [g|r|]; try discriminate; cbn [a_append a_extend a_length a_refs] in *;
    apply (inj Some) in Hg; subst grown.
  - destruct (fill_func_ok t1 s (l ++ replicate (Z.to_nat delta) 0) lz m (Z.of_nat (length l)) delta (FuncRef g) g Hr1 Hu Hd')
      as (t2 & Ht2 & Hr2); [|by left|].
    { unfold in_bounds. apply Z.leb_le. rewrite length_app, length_replicate. lia. }
    rewrite Ht2. cbn [unwrap_result mbind outcome_bind]. rewrite Nat2Z.id, overwrite_extended in Hr2. by exists t2, s.
  - destruct (fill_gc_ok t1 s (l ++ replicate (Z.to_nat delta) None) m (Z.of_nat (length l)) delta r rest Hr1 Hu Hd')
      as (t2 & s2 & Ht2 & Hr2 & Hs2).
    { unfold in_bounds. apply Z.leb_le. rewrite length_app, length_replicate. lia. }
    { rewrite held_by_extended. by destruct r. }
    { cbn [a_length] in Hroom. rewrite length_app, length_replicate in *. lia. }
    rewrite Ht2. cbn [unwrap_result mbind outcome_bind]. rewrite Nat2Z.id, overwrite_extended in Hr2, Hs2. by exists t2, s2.
Qed.

Lemma grow_failed_refusal t s e :
  settle (snd (grow_failed (T:=T) (H:=H) lim t s e)) (fun '(old, t, s) => (RSize old, t, s)) (fun e => (RError e, t, s)) =
    Ok (refusal lim e, t, s).
Proof. unfold grow_failed, refusal. destruct lim as [l|]; [|done]. cbn. by destruct (trap_on_grow_failure l). Qed.

Lemma grow_effect x delta val f :
  in_u 32 delta -> spec_grow lim x delta val = Some f -> has_effect x (Grow delta val) f.
Proof.
  intros Hd Hf t s rest Hr Hs Hb. unfold spec_grow in Hf.
  destruct (a_append x (Z.to_nat delta) val) as [grown|] eqn:Hg; [|done]. cbn [mbind option_bind] in Hf.
  apply (inj Some) in Hf. unfold run_slot, table_grow. rewrite (repr_size _ _ Hr).
  pose proof (repr_fits _ _ Hr) as [Hx _].
  destruct (Z.eqb_spec delta 0) as [->|Hne]; [subst f; by exists t, s|].
  unfold checked. destruct (Z.leb_spec (2 ^ 32) (Z.of_nat (a_length x) + delta)) as [Hbig|Hsmall].
  { assert (in_ub 32 (Z.of_nat (a_length x) + delta) = false) as ->.
    { unfold in_ub. apply andb_false_iff. right. apply Z.ltb_ge. lia. }
    rewrite grow_failed_refusal. subst f. by exists t, s. }
  unfold in_u in Hd. rewrite in_ub_true by (unfold in_u; lia). rewrite (repr_maximum _ _ Hr).
  assert (Hgrow : store_table_growing lim (Z.of_nat (a_length x)) (Z.of_nat (a_length x) + delta) (a_max x) =
    (lim, if negb (allows lim (Z.of_nat (a_length x) + delta) (a_max x)) && (match lim with Some l => trap_on_grow_failure l | None => false end)
          then Err ForcedTrap else Ok (allows lim (Z.of_nat (a_length x) + delta) (a_max x)))).
  { destruct lim; done. }
  rewrite Hgrow. destruct (allows _ _ _); cbn [negb andb] in *.
  2:{ subst f. unfold refusal. destruct (match lim with Some l => _ | None => _ end); by exists t, s. }
  destruct (match a_max x with Some max => _ | None => _ end) eqn:Hm.
  { rewrite grow_failed_refusal. subst f. by exists t, s. }
  subst f. unfold bounded_by in Hb. cbn [e_table e_uses] in Hb.
  destruct (grow_to_size_ok t s x delta val grown rest Hr ltac:(unfold in_u; lia) Hg) as (t' & s' & Ht & Hr' & Hs').
  { split; [lia|]. destruct (a_max x); [|done]. apply Z.ltb_ge in Hm. lia. }
  { exact Hs. }
  { lia. }
  cbn [snd]. rewrite Ht. by exists t', s'.
Qed.

Lemma slot_effect x o f : spec_slot lim x o = Some f -> has_effect x o f.
Proof.
  unfold spec_slot. destruct o as [i|i e|dst items|dst items|dst val len|delta val].
  - destruct (in_ub 32 i) eqn:Hi; [|done]. apply in_ub_spec in Hi. intros [= <-]. by apply get_effect.
  - destruct (in_ub 32 i) eqn:Hi; [|done]. apply in_ub_spec in Hi. by apply put_effect.
  - destruct (in_ub 32 dst) eqn:Hi; [|done]. apply in_ub_spec in Hi. by apply init_funcs_effect.
  - destruct (in_ub 32 dst) eqn:Hi; [|done]. apply in_ub_spec in Hi. by apply init_refs_effect.
  - destruct (in_ub 32 dst) eqn:Hi, (in_ub 32 len) eqn:Hl; try discriminate. apply in_ub_spec in Hi, Hl. by apply fill_effect.
  - destruct (in_ub 32 delta) eqn:Hi; [|done]. apply in_ub_spec in Hi. by apply grow_effect.
Qed.
End Slot.

(** ** All tables *)

Definition tables_refs (a : list atable) : list Z := a ≫= a_refs.
Definition slots (a : list atable) : nat := sum_list (a_length <$> a).

Record tables_effect := {
  te_result : table_result;
  te_tables : list atable;
  te_uses : list Z;
  te_gives : list Z;
  te_leaks : list Z
}.

(** Copying between tables of the same kind, or inside one. *)
Definition a_copy (x y : atable) (d i n : nat) : option atable :=
  match x, y with
  | AFunc l lz m, AFunc k _ _ => Some (AFunc (overwrite l d (take n (drop i k))) lz m)
  | AGc l m, AGc k _ => Some (AGc (overwrite l d (take n (drop i k))) m)
  | _, _ => None
  end.

Definition spec_copy (a : list atable) (d i : nat) (dst src len : Z) : option tables_effect :=
  x ← a !! d;
  y ← a !! i;
  x' ← a_copy x y (Z.to_nat dst) (Z.to_nat src) (Z.to_nat len);
  let '(r, a) := if in_bounds (a_length y) src len && in_bounds (a_length x) dst len
                 then (RDone, <[d := x']> a) else (RTrap, a) in
  Some {| te_result := r; te_tables := a; te_uses := []; te_gives := []; te_leaks := [] |}.

Definition spec_table_op (lim : option StoreLimits) (a : list atable) (o : table_op) : option tables_effect :=
  match o with
  | On t o =>
      x ← a !! t;
      f ← spec_slot lim x o;
      Some {| te_result := e_result f; te_tables := <[t := e_table f]> a;
              te_uses := e_uses f; te_gives := e_gives f; te_leaks := e_leaks f |}
  | Copy d i dst src len =>
      if in_ub 32 dst && in_ub 32 src && in_ub 32 len then spec_copy a d i dst src len else None
  end.

Lemma tables_split a t x : a !! t = Some x -> tables_refs a ≡ₚ a_refs x ++ tables_refs (delete t a).
Proof.
  intros Ht. unfold tables_refs. rewrite <- (take_drop_middle _ _ _ Ht) at 1. rewrite delete_take_drop.
  rewrite !bind_app. cbn [mbind list_bind]. solve_Permutation.
Qed.

Lemma tables_insert a t x y : a !! t = Some x -> tables_refs (<[t := y]> a) ≡ₚ a_refs y ++ tables_refs (delete t a).
Proof.
  intros Ht. rewrite (tables_split (<[t := y]> a) t y) by (apply list_lookup_insert_eq; by eapply lookup_lt_Some).
  rewrite !delete_take_drop, take_insert_ge, drop_insert_lt by lia. done.
Qed.

Lemma slots_split a t x : a !! t = Some x -> slots a = (a_length x + slots (delete t a))%nat.
Proof.
  intros Ht. unfold slots. rewrite <- (take_drop_middle _ _ _ Ht) at 1. rewrite delete_take_drop.
  rewrite !fmap_app, !sum_list_with_app. cbn. lia.
Qed.

Lemma slots_insert a t x y : a !! t = Some x -> slots (<[t := y]> a) = (a_length y + slots (delete t a))%nat.
Proof.
  intros Ht. rewrite (slots_split (<[t := y]> a) t y) by (apply list_lookup_insert_eq; by eapply lookup_lt_Some).
  rewrite !delete_take_drop, take_insert_ge, drop_insert_lt by lia. done.
Qed.

Lemma tables_refs_length a : (length (tables_refs a) <= slots a)%nat.
Proof.
  unfold tables_refs, slots. induction a as [|x a IH]; [done|]. cbn [mbind list_bind fmap list_fmap sum_list sum_list_with].
  rewrite length_app. destruct x as [l lz m|l m]; cbn [a_refs a_length length] in *; [lia|]. pose proof (held_by_length l). cbn in *. lia.
Qed.

(** *** Copying *)

Section CopyOps.
  Context {T H : Type} `{!GcHeap T H} (inv : GcStore T H -> list Z -> Prop) (room : Z)
    `{!GcAccounting inv room} (dbg : bool) (lim : option StoreLimits).
  Implicit Types (s : GcStore T H) (t : Table).

Lemma a_copy_type x y d i n x' : a_copy x y d i n = Some x' -> a_type x = a_type y.
Proof. by destruct x, y. Qed.

Lemma length_copied {A} (k : list A) i n : (i + n <= length k)%nat -> length (take n (drop i k)) = n.
Proof. intros Hi. rewrite length_take, length_drop. lia. Qed.

Lemma a_copy_length x y d i n x' :
  a_copy x y d i n = Some x' -> (d + n <= a_length x)%nat -> (i + n <= a_length y)%nat -> a_length x' = a_length x.
Proof.
  destruct x, y; try discriminate; intros [= <-] Hd Hi; cbn [a_length] in *;
    apply length_overwrite; rewrite length_copied; lia.
Qed.

Lemma copy_elements_ok {E} s t u x y d i n x' rest :
  table_repr t x -> table_repr u y -> a_copy x y d i n = Some x' ->
  (d + n <= a_length x)%nat -> (i + n <= a_length y)%nat ->
  inv s (a_refs x ++ rest) -> roomy room (a_length x) rest -> (forall r, r ∈ a_refs y -> r ∈ rest) ->
  exists s' t', copy_elements (E:=E) s t u d i n = Ok (s', t') /\ table_repr t' x' /\ inv s' (a_refs x' ++ rest).
Proof.
  intros Ht Hu Hc Hd Hi Hs Hroom Hb. unfold copy_elements. rewrite (repr_type _ _ Ht).
  destruct x as [l lz m|l m], y as [k kz km|k km]; try discriminate; apply (inj Some) in Hc; subst x';
    cbn [a_type a_length a_refs] in *.
  - rewrite (repr_funcrefs _ _ _ _ Ht), (repr_funcrefs _ _ _ _ Hu). cbn [mbind outcome_bind].
    rewrite !(proj2 (Nat.leb_le _ _)) by lia. cbn [assert_ mbind outcome_bind].
    edestruct (repr_funcrefs_mut (E:=E) t l lz m) as (t' & Hw & Hr'); [exact Ht| |rewrite Hw; by exists s, t'].
    rewrite length_overwrite; [done|]. rewrite length_copied; lia.
  - rewrite (repr_gc_refs _ _ _ Ht), (repr_gc_refs _ _ _ Hu). cbn [mbind outcome_bind].
    rewrite !(proj2 (Nat.leb_le _ _)) by lia. cbn [assert_ mbind outcome_bind].
    destruct (copy_refs_ok inv room (E:=E) n s l k rest d i Hs Hroom Hb Hd Hi) as (s' & Hw & Hs').
    rewrite Hw. cbn [mbind outcome_bind].
    edestruct (repr_gc_refs_mut (E:=E) t l m) as (t' & Hm & Hr'); [exact Ht| |rewrite Hm; by exists s', t'].
    rewrite length_overwrite; [done|]. rewrite length_copied; lia.
Qed.

Lemma overwrite_same {A} (l : list A) d n : (d + n <= length l)%nat -> overwrite l d (take n (drop d l)) = l.
Proof.
  intros Hd. unfold overwrite. rewrite length_copied by done. rewrite <- drop_drop, take_drop. apply take_drop.
Qed.

Lemma copy_within_ok {E} s t x d i n x' rest :
  table_repr t x -> a_copy x x d i n = Some x' -> (d + n <= a_length x)%nat -> (i + n <= a_length x)%nat ->
  inv s (a_refs x ++ rest) -> roomy room (a_length x) rest ->
  exists s' t', copy_elements_within (E:=E) s t d i n = Ok (s', t') /\ table_repr t' x' /\ inv s' (a_refs x' ++ rest).
Proof.
  intros Ht Hc Hd Hi Hs Hroom. unfold copy_elements_within. destruct (Nat.eqb_spec i d) as [->|Hne].
  { exists s, t. destruct x as [l lz m|l m]; cbn [a_copy a_length] in *; apply (inj Some) in Hc; subst x';
      rewrite overwrite_same by done; done. }
  rewrite (repr_type _ _ Ht). destruct x as [l lz m|l m]; apply (inj Some) in Hc; subst x'; cbn [a_type a_length a_refs] in *.
  - rewrite (repr_funcrefs _ _ _ _ Ht). cbn [mbind outcome_bind].
    rewrite !(proj2 (Nat.leb_le _ _)) by lia. cbn [assert_ mbind outcome_bind].
    edestruct (repr_funcrefs_mut (E:=E) t l lz m) as (t' & Hw & Hr'); [exact Ht| |rewrite Hw; by exists s, t'].
    rewrite length_overwrite; [done|]. rewrite length_copied; lia.
  - rewrite (repr_gc_refs _ _ _ Ht). cbn [mbind outcome_bind].
    assert (Hcp : exists s', (if Nat.ltb d i then copy_up (E:=E) s n l d i else copy_down s n l d i) =
        Ok (s', overwrite l d (take n (drop i l))) /\ inv s' (held_by (overwrite l d (take n (drop i l))) ++ rest)).
    { destruct (Nat.ltb_spec d i) as [Hlt|Hge]; [by apply (copy_up_ok inv room)|].
      apply (copy_down_ok inv room); try done. lia. }
    destruct Hcp as (s' & Hw & Hs'). rewrite Hw. cbn [mbind outcome_bind].
    edestruct (repr_gc_refs_mut (E:=E) t l m) as (t' & Hm & Hr'); [exact Ht| |rewrite Hm; by exists s', t'].
    rewrite length_overwrite; [done|]. rewrite length_copied; lia.
Qed.

Lemma other_table a d i y r : a !! i = Some y -> i <> d -> r ∈ a_refs y -> r ∈ tables_refs (delete d a).
Proof.
  intros Hy Hne Hr. apply list_elem_of_bind. exists y. split; [done|].
  destruct (decide (i < d)%nat).
  - apply list_elem_of_lookup_2 with i. by rewrite list_lookup_delete_lt.
  - apply list_elem_of_lookup_2 with (i - 1)%nat. rewrite list_lookup_delete_ge by lia.
    by replace (S (i - 1)) with i by lia.
Qed.

Definition tables_bounded (a a' : list atable) (uses rest : list Z) : Prop :=
  Z.of_nat (slots a + slots a' + length uses + length rest) + 1 < room.

Lemma checked_bounds len n i :
  Z.of_nat len < 2 ^ 32 -> in_u 32 i -> in_u 32 n ->
  (match checked 32 (i + n) with Some m => m <=? Z.of_nat len | None => false end) = in_bounds len i n.
Proof.
  unfold in_u, in_bounds. intros Hl Hi Hn. destruct (checked 32 (i + n)) as [m|] eqn:Hc.
  - apply checked_Some in Hc as [_ Hm]. by subst m.
  - apply checked_None in Hc. symmetry. apply Z.leb_gt. unfold in_u in Hc. lia.
Qed.

Lemma copy_op_ok tables a s d i dst src len f rest :
  Forall2 table_repr tables a -> in_u 32 dst -> in_u 32 src -> in_u 32 len ->
  spec_copy a d i dst src len = Some f ->
  inv s (tables_refs a ++ rest) -> tables_bounded a (te_tables f) [] rest ->
  exists tables' s', run_table_op dbg lim tables s (Copy d i dst src len) = Ok (te_result f, tables', s') /\
    Forall2 table_repr tables' (te_tables f) /\ inv s' (tables_refs (te_tables f) ++ te_gives f ++ te_leaks f ++ rest).
Proof.
  intros Ha Hd Hi Hn Hf Hs Hroom. unfold spec_copy in Hf.
  destruct (a !! d) as [x|] eqn:Hx; [|done]. destruct (a !! i) as [y|] eqn:Hy; [|done]. cbn [mbind option_bind] in Hf.
  destruct (a_copy x y _ _ _) as [x'|] eqn:Hc; [|done]. cbn [mbind option_bind] in Hf.
  destruct (Forall2_lookup_r _ _ _ _ _ Ha Hx) as (t & Ht & Htx). destruct (Forall2_lookup_r _ _ _ _ _ Ha Hy) as (u & Hu & Huy).
  cbn [run_table_op]. unfold table_copy. rewrite Ht, Hu. cbn [unwrap mbind outcome_bind].
  rewrite (repr_size _ _ Htx), (repr_size _ _ Huy). cbn [mbind outcome_bind].
  rewrite !checked_bounds by (try done; by eapply repr_fits).
  destruct (in_bounds (a_length y) src len) eqn:Hsb, (in_bounds (a_length x) dst len) eqn:Hdb; cbn [negb orb andb] in *;
    apply (inj Some) in Hf; subst f; [|by exists tables, s..].
  rewrite (repr_type _ _ Htx), (repr_type _ _ Huy), (a_copy_type _ _ _ _ _ _ Hc).
  rewrite debug_assert_true by (by apply bool_decide_eq_true). cbn [mbind outcome_bind te_result te_tables te_gives te_leaks app] in *.
  unfold in_bounds, in_u in *. apply Z.leb_le in Hsb, Hdb.
  assert (Hrest : inv s (a_refs x ++ tables_refs (delete d a) ++ rest)).
  { eapply acc_perm; [|exact Hs]. by rewrite (tables_split _ _ _ Hx), app_assoc. }
  assert (Hroomy : roomy room (a_length x) (tables_refs (delete d a) ++ rest)).
  { unfold roomy, tables_bounded in *. rewrite length_app. pose proof (tables_refs_length (delete d a)).
    rewrite (slots_split _ _ _ Hx) in Hroom. cbn [length] in Hroom. lia. }
  assert (Hcopy : exists s' t', (if bool_decide (d = i)
      then copy_elements_within (E:=Trap) s t (Z.to_nat dst) (Z.to_nat src) (Z.to_nat len)
      else copy_elements s t u (Z.to_nat dst) (Z.to_nat src) (Z.to_nat len)) = Ok (s', t') /\ table_repr t' x' /\
      inv s' (a_refs x' ++ tables_refs (delete d a) ++ rest)).
  { case_bool_decide as Hdi.
    - subst i. simplify_eq. apply copy_within_ok with x; try done; lia.
    - apply copy_elements_ok with x y; try done; try lia. intros r Hr. apply list.elem_of_app. left.
      by eapply other_table. }
  destruct Hcopy as (s' & t' & Hw & Hr' & Hs'). rewrite Hw. cbn [mbind outcome_bind settle].
  exists (<[d := t']> tables), s'. split; [done|]. split; [by apply Forall2_insert|].
  eapply acc_perm; [|exact Hs']. by rewrite (tables_insert _ _ _ x' Hx), app_assoc.
Qed.

Lemma spec_copy_uses a d i dst src len f : spec_copy a d i dst src len = Some f -> te_uses f = [].
Proof.
  unfold spec_copy. intros Hf. destruct (a !! d) as [x|]; [|done]. destruct (a !! i) as [y|]; [|done].
  cbn [mbind option_bind] in Hf. destruct (a_copy _ _ _ _ _); [|done]. cbn [mbind option_bind] in Hf.
  destruct (_ && _); apply (inj Some) in Hf; by subst f.
Qed.

(** Every operation on the tables does what it does on lists. *)
Lemma table_op_ok tables a s o f rest :
  Forall2 table_repr tables a -> spec_table_op lim a o = Some f ->
  inv s (tables_refs a ++ te_uses f ++ rest) -> tables_bounded a (te_tables f) (te_uses f) rest ->
  exists tables' s', run_table_op dbg lim tables s o = Ok (te_result f, tables', s') /\
    Forall2 table_repr tables' (te_tables f) /\ inv s' (tables_refs (te_tables f) ++ te_gives f ++ te_leaks f ++ rest).
Proof.
  intros Ha Hf Hs Hroom. destruct o as [t o|d i dst src len].
  2:{ cbn [spec_table_op] in Hf. destruct (in_ub 32 dst) eqn:H1, (in_ub 32 src) eqn:H2, (in_ub 32 len) eqn:H3; try discriminate.
      apply in_ub_spec in H1, H2, H3. cbn [andb] in Hf.
      assert (Hu : te_uses f = []) by (by eapply spec_copy_uses).
      rewrite Hu in *. by apply copy_op_ok with a. }
  cbn [spec_table_op] in Hf. destruct (a !! t) as [x|] eqn:Hx; [|done]. cbn [mbind option_bind] in Hf.
  destruct (spec_slot lim x o) as [e|] eqn:He; [|done]. cbn [mbind option_bind] in Hf. apply (inj Some) in Hf. subst f.
  cbn [te_result te_tables te_uses te_gives te_leaks] in *.
  destruct (Forall2_lookup_r _ _ _ _ _ Ha Hx) as (u & Hu & Hux).
  destruct (slot_effect inv room dbg lim x o e He u s (tables_refs (delete t a) ++ rest) Hux) as (t' & s' & Hw & Hr' & Hs').
  { eapply acc_perm; [|exact Hs]. rewrite (tables_split _ _ _ Hx). solve_Permutation. }
  { unfold bounded_by, tables_bounded in *. rewrite length_app. pose proof (tables_refs_length (delete t a)).
    rewrite (slots_split _ _ _ Hx), (slots_insert _ _ _ _ Hx) in Hroom. lia. }
  cbn [run_table_op]. rewrite Hu. cbn [unwrap mbind outcome_bind]. rewrite Hw. cbn [mbind outcome_bind].
  exists (<[t := t']> tables), s'. split; [done|]. split; [by apply Forall2_insert|].
  eapply acc_perm; [|exact Hs']. rewrite (tables_insert _ _ _ (e_table e) Hx). solve_Permutation.
Qed.
End CopyOps.
