(* ===== verification/TableWorld.v ===== *)
(** * Tables over the reference counting collector

    The collector of [Drc] keeps the counts that tables rely on, so that the
    operations on tables are programs over the collector: what tables and the host
    hold stays alive, and what an operation forgets stays counted for ever. *)

From Stdlib Require Import ZArith Lia.
From stdpp Require Import base list gmap numbers option sets.
From S2P Require Import Prelude MemoryTypes Mappings LinearMemory MetadataSections Slab GcFreeList GcRef Drc GcStore WasmTypes TypeMatching Tables TableOps.
Open Scope Z_scope.

(** ** The collector as what tables rely on *)

Section Collector.
  Context {T : Type} (hp : Z) (oc dbg : bool) (min_cap : Z) (order : gset Z -> list Z).
  Context (Hmin : min_cap <= 2 ^ 31) (Horder : forall X, order X ≡ₚ elements X) (k : Z) (Hk : 0 <= k) (Hhp : hp = 2 ^ k).
#[local] Instance collector : GcHeap T DrcHeap := DrcHeap_GcHeap oc dbg order.
  Context (stk lst : list Z) (tb : VMGcRefActivationsTable).

Definition reach_holding (s : GcStore T DrcHeap) (l : list Z) : Prop :=
  exists w : world (T:=T), gc_reach hp oc dbg min_cap order w /\ store w = s /\ held w ≡ₚ l /\ stack w = stk /\
    lost w = lst /\ w_table w = tb.

Definition holding_room : Z := 2 ^ 62 - Z.of_nat (length (swept tb lst)).

Lemma holding_small (w : world (T:=T)) l :
  held w ≡ₚ l -> lost w = lst -> w_table w = tb -> Z.of_nat (length l) < holding_room -> small w.
Proof.
  intros Hh Hl Ht Hr. unfold small, owners, holding_room, swept in *. rewrite Hl, Ht, !length_app in *.
  pose proof (heap_refs_length (held w)). rewrite (Permutation_length Hh) in H. lia.
Qed.

#[export] Instance collector_accounting : GcAccounting reach_holding holding_room.
Proof using Hmin Horder Hk Hhp.
  split.
  - intros s l l' Hp (w & Hr & Hs & Hh & Hw). exists w. split; [done|]. split; [done|]. split; [by rewrite <- Hp|done].
  - intros s l r (w & Hr & <- & Hh & Hst & Hlo & Htb) Hroom Hin.
    pose proof (holding_small w l Hh Hlo Htb Hroom) as Hsm.
    destruct (gc_reach_inv hp oc dbg min_cap order Hmin Horder k Hk Hhp w Hr) as [objs Hw].
    assert (Hin' : r ∈ held w ++ stack w) by (apply list.elem_of_app; left; by rewrite Hh).
    destruct (clone_ok oc dbg order w objs r Hw Hsm Hin') as (s' & Hc & _). exists s'. split; [done|].
    eexists. split; [eapply gc_next; [exact Hr|exact Hsm|by eapply step_clone]|]. cbn. split_and!; try done; [by rewrite Hh|].
    unfold w_table. cbn. unfold store_clone_gc_ref in Hc. destruct (is_i31 r); [by injection Hc as <-|].
    apply bind_Ok_inv in Hc as ([r' h'] & Hc & Hx). injection Hx as _ <-. cbn.
    apply bind_Ok_inv in Hc as (h1 & Hc & Hx). injection Hx as _ <-. rewrite <- Htb. by apply (inc_ref_same _ _ _ _ _ Hc).
  - intros s l d src rest (w & Hr & <- & Hh & Hst & Hlo & Htb) Hroom Hd Hb.
    pose proof (holding_small w l Hh Hlo Htb Hroom) as Hsm.
    destruct (gc_reach_inv hp oc dbg min_cap order Hmin Horder k Hk Hhp w Hr) as [objs Hw].
    assert (Hd' : owned_slot d (held w) rest) by (destruct d; cbn in *; by rewrite Hh).
    assert (Hb' : borrowed src (held w ++ stack w)) by (destruct src; [|done]; apply list.elem_of_app; left; by rewrite Hh).
    destruct (write_ref_ok oc dbg order w objs d src rest Hw Hsm Hd' Hb') as (s' & objs' & Hc & _). exists s'. split; [done|].
    eexists. split; [eapply gc_next; [exact Hr|exact Hsm|by eapply step_write]|]. cbn. split_and!; try done.
    unfold w_table. cbn. unfold store_write_gc_ref in Hc. destruct (no_object d && no_object src); [injection Hc as <-; exact Htb|].
    apply bind_Ok_inv in Hc as ([[h' t'] d'] & Hc & Hx). injection Hx as <- _. rewrite <- Htb. by apply (write_gc_ref_same oc dbg _ _ _ _ _ _ _ Hc).
  - intros s l r (w & Hr & <- & Hh & Hst & Hlo & Htb) Hroom.
    pose proof (holding_small w (r :: l) Hh Hlo Htb Hroom) as Hsm.
    destruct (gc_reach_inv hp oc dbg min_cap order Hmin Horder k Hk Hhp w Hr) as [objs Hw].
    destruct (drop_ok oc dbg order w objs r l Hw Hsm Hh) as (s' & objs' & Hc & _). exists s'. split; [done|].
    eexists. split; [eapply gc_next; [exact Hr|exact Hsm|by eapply step_drop]|]. cbn. split_and!; try done.
    unfold w_table. cbn. unfold store_drop_gc_ref in Hc. destruct (is_i31 r); [by injection Hc as <-|].
    apply bind_Ok_inv in Hc as ([[h' t'] d'] & Hc & Hx). injection Hx as <-. rewrite <- Htb. by apply (write_gc_ref_same oc dbg (gc_heap (store w)) (host_data_table (store w)) (Some r) None h' t' d' Hc).
  - intros s l i (w & Hr & <- & Hh & Hst & Hlo & Htb) Hroom.
    pose proof (holding_small w l Hh Hlo Htb Hroom) as Hsm.
    eexists. split; [eapply gc_next; [exact Hr|exact Hsm|by eapply (step_i31 oc dbg min_cap order w i)]|].
    cbn. split_and!; try done. by rewrite Hh.
Qed.
End Collector.

(** ** Creation *)

Section Creation.
  Context (l : option StoreLimits) (plan : TablePlan).

Definition plan_min : Z := Table.minimum (table plan).
Definition plan_max : option Z := Table.maximum (table plan).

(** An empty table of the kind that the plan asks for. *)
Definition empty_table (maximum : option Z) : atable :=
  match wasm_to_table_type (Table.wasm_ty (table plan)) with
  | ElementFunc =>
      let 'CallerChecksSignature lazy_init := style plan in AFunc (replicate (Z.to_nat plan_min) 0) lazy_init maximum
  | ElementGcRef => AGc (replicate (Z.to_nat plan_min) None) maximum
  end.

Definition plan_ok : Prop := in_u 32 plan_min /\ match plan_max with Some m => plan_min <= m < 2 ^ 32 | None => True end.

Lemma limit_new_table :
  snd (table_limit_new plan l) =
    if allows l plan_min plan_max then Ok ()
    else Err (if match l with Some l => trap_on_grow_failure l | None => false end then ForcedTrap else MinimumExceedsLimits).
Proof.
  unfold table_limit_new, allows. fold plan_min plan_max. destruct l as [lim|]; [|done]. cbn. unfold limits_table_growing. cbn.
  destruct (limit_allows _ _ _); [done|]. cbn. by destruct (trap_on_grow_failure lim).
Qed.

Lemma words_zero n k : words n k (replicate (k * n) 0) = replicate k 0.
Proof.
  induction k as [|k IH]; [done|]. cbn [words replicate]. replace (S k * n)%nat with (n + k * n)%nat by lia.
  rewrite replicate_add, take_app_length', drop_app_length' by (by rewrite length_replicate). rewrite IH. f_equal.
  clear. induction n as [|n IH]; [done|]. cbn. unfold Float32.le_value in *. cbn in *. lia.
Qed.

Lemma align_zero n base k :
  (0 < n)%nat -> base mod Z.of_nat n = 0 -> align_to n base (replicate (k * n) 0) = ([], replicate k 0, []).
Proof.
  intros Hn Hb. unfold align_to. rewrite Z.mod_opp_l_z by (try done; lia). cbn [Z.to_nat Nat.add].
  destruct (Nat.ltb_spec (length (replicate (k * n) 0)) 0); [lia|]. rewrite length_replicate, Nat.sub_0_r, Nat.div_mul by lia.
  rewrite take_0, drop_0, words_zero, drop_ge by (by rewrite length_replicate). done.
Qed.

Definition element_size : nat :=
  match wasm_to_table_type (Table.wasm_ty (table plan)) with
  | ElementFunc => size_of_func_elem
  | ElementGcRef => size_of_gc_ref
  end.

(** What the limits answer for a new table. *)
Definition limits_answer : outcome mem_error unit := snd (table_limit_new plan l).

Lemma new_dynamic_ok :
  plan_ok -> limits_answer = Ok () ->
  exists t, snd (new_dynamic_table plan l) = Ok t /\ table_repr t (empty_table plan_max).
Proof.
  intros [Hmin Hmax] Hl. unfold new_dynamic_table, limits_answer, empty_table in *. fold plan_min plan_max in *.
  destruct (table_limit_new plan l) as [l' r]. cbn [snd] in *. subst r. cbn [mbind outcome_bind].
  destruct (style plan) as [lz]. unfold in_u in *. destruct (wasm_to_table_type _); eexists; (split; [done|]).
  - constructor. unfold fits. rewrite length_replicate. split; [lia|]. destruct plan_max; lia.
  - constructor. unfold fits. rewrite length_replicate. split; [lia|]. destruct plan_max; lia.
Qed.

Lemma table_slot_zero n base k :
  plan_ok -> (0 < n)%nat -> base mod Z.of_nat n = 0 -> Z.of_nat k < 2 ^ 32 ->
  table_slot n plan base (replicate (k * n) 0) =
    if plan_min <=? Z.of_nat k then Ok (replicate (Z.to_nat (match plan_max with Some m => Z.min (Z.of_nat k) m | None => Z.of_nat k end)) 0)
    else Err ExceedsPool.
Proof.
  intros [Hmin Hmax] Hn Hb Hk. unfold table_slot. fold plan_min plan_max. rewrite align_zero by done.
  rewrite !bool_decide_eq_true_2 by done. cbn [assert_ mbind outcome_bind]. rewrite length_replicate.
  destruct (plan_min <=? Z.of_nat k); [|done]. cbn [mbind outcome_bind]. f_equal. rewrite take_replicate. f_equal.
  unfold u64_max. destruct plan_max; lia.
Qed.

Lemma new_static_ok base k :
  plan_ok -> limits_answer = Ok () -> base mod Z.of_nat element_size = 0 -> Z.of_nat k < 2 ^ 32 ->
  let cap := match plan_max with Some m => Z.min (Z.of_nat k) m | None => Z.of_nat k end in
  if plan_min <=? Z.of_nat k
  then exists t, snd (new_static_table plan base (replicate (k * element_size) 0) l) = Ok t /\ table_repr t (empty_table (Some cap))
  else snd (new_static_table plan base (replicate (k * element_size) 0) l) = Err ExceedsPool.
Proof.
  intros Hp Hl Hb Hk cap. pose proof Hp as [Hmin Hmax]. unfold in_u in Hmin.
  unfold new_static_table, limits_answer, empty_table, element_size in *. fold plan_min plan_max in *.
  destruct (table_limit_new plan l) as [l' r]. cbn [snd] in *. subst r. cbn [mbind outcome_bind].
  destruct (style plan) as [lz].
  destruct (wasm_to_table_type _); rewrite table_slot_zero by (try done; unfold size_of_func_elem, size_of_gc_ref; lia);
    fold cap; (destruct (Z.leb_spec plan_min (Z.of_nat k)) as [Hle|]; [|done]); cbn [mbind outcome_bind];
    (eexists; split; [done|]); assert (Hc : plan_min <= cap < 2 ^ 32) by (subst cap; destruct plan_max; lia);
    rewrite ?fmap_replicate; change (from_raw_u32 0) with (None : option VMGcRef);
    replace (Z.to_nat cap) with (Z.to_nat plan_min + (Z.to_nat cap - Z.to_nat plan_min))%nat by lia;
    rewrite replicate_add.
  - pose proof (repr_static_func (replicate (Z.to_nat plan_min) 0) (Z.to_nat cap - Z.to_nat plan_min) lz) as Hr.
    rewrite length_replicate in Hr. replace (Z.of_nat (Z.to_nat plan_min + (Z.to_nat cap - Z.to_nat plan_min))) with cap in Hr by lia.
    rewrite Z2Nat.id in Hr by lia. apply Hr. lia.
  - pose proof (repr_static_gc (replicate (Z.to_nat plan_min) None) (Z.to_nat cap - Z.to_nat plan_min)) as Hr.
    rewrite length_replicate in Hr. replace (Z.of_nat (Z.to_nat plan_min + (Z.to_nat cap - Z.to_nat plan_min))) with cap in Hr by lia.
    rewrite Z2Nat.id in Hr by lia. apply Hr. lia.
Qed.
End Creation.

(** ** Properties *)

Section Properties.
  Context {T : Type} (hp : Z) (oc dbg : bool) (min_cap : Z) (order : gset Z -> list Z).
  Context (Hmin : min_cap <= 2 ^ 31) (Horder : forall X, order X ≡ₚ elements X) (k : Z) (Hk : 0 <= k) (Hhp : hp = 2 ^ k).
#[local] Instance collector_heap : GcHeap T DrcHeap := DrcHeap_GcHeap oc dbg order.

(** The tables are the lists [a], and a program over the collector led to the state
    in which the host holds what is in their slots and [rest]. *)
Record tables_in (w : world (T:=T)) (tables : list Table) (a : list atable) (rest : list Z) : Prop := {
  ti_reach : gc_reach hp oc dbg min_cap order w;
  ti_repr : Forall2 table_repr tables a;
  ti_held : held w ≡ₚ tables_refs a ++ rest
}.

(** C17: Every operation on tables (get, set, initialisation from segments, fill,
    grow, copy, also of overlapping ranges and between tables) does on the tables
    what it does on plain lists, with a trap or an error exactly when a range is out
    of bounds or the limits refuse, and never panics, in any build; and it is a
    program over the collector after which the host holds the references of the
    slots, the ones handed out, the ones forgotten and what it held besides, so that
    no slot ever refers to an object that was freed. *)
Theorem tables_refine_lists (w : world (T:=T)) tables a lim o f rest :
  tables_in w tables a (te_uses f ++ rest) -> spec_table_op lim a o = Some f ->
  Z.of_nat (slots a + slots (te_tables f) + length (te_uses f) + length rest +
            length (swept (w_table w) (lost w))) + 1 < 2 ^ 62 ->
  exists tables' w', run_table_op dbg lim tables (store w) o = Ok (te_result f, tables', store w') /\
    tables_in w' tables' (te_tables f) (te_gives f ++ te_leaks f ++ rest) /\ stack w' = stack w.
Proof using Hmin Horder Hk Hhp.
  intros [Hr Ha Hh] Hf Hroom.
  set (inv := reach_holding (T:=T) hp oc dbg min_cap order (stack w) (lost w) (w_table w)).
  pose proof (collector_accounting (T:=T) hp oc dbg min_cap order Hmin Horder k Hk Hhp (stack w) (lost w) (w_table w)) as Hacc.
  destruct (table_op_ok inv (holding_room (lost w) (w_table w)) dbg lim tables a (store w) o f rest Ha Hf) as (tables' & s' & He & Ht & Hi).
  - exists w. done.
  - unfold tables_bounded, holding_room. lia.
  - destruct Hi as (w' & Hr' & <- & Hh' & Hst & _). exists tables', w'. split; [done|]. by split.
Qed.
End Properties.

(** A new table has the minimum size of its type, with empty slots, and obeys the
    maximum and, in a slot of the pooling allocator, the size of the slot; it is
    refused with an error, and without a panic, exactly when the limits refuse it or
    the slot is too small. *)
Theorem table_creation (l : option StoreLimits) (plan : TablePlan) base k :
  plan_ok plan -> base mod Z.of_nat (element_size plan) = 0 -> Z.of_nat k < 2 ^ 32 ->
  let refused := Err (if match l with Some l => trap_on_grow_failure l | None => false end then ForcedTrap else MinimumExceedsLimits) in
  let slot := replicate (k * element_size plan) 0 in
  let cap := match plan_max plan with Some m => Z.min (Z.of_nat k) m | None => Z.of_nat k end in
  if allows l (plan_min plan) (plan_max plan) then
    (exists t, snd (new_dynamic_table plan l) = Ok t /\ table_repr t (empty_table plan (plan_max plan))) /\
    if plan_min plan <=? Z.of_nat k
    then exists t, snd (new_static_table plan base slot l) = Ok t /\ table_repr t (empty_table plan (Some cap))
    else snd (new_static_table plan base slot l) = Err ExceedsPool
  else snd (new_dynamic_table plan l) = refused /\ snd (new_static_table plan base slot l) = refused.
Proof.
  intros Hp Hb Hk refused slot cap. pose proof (limit_new_table l plan) as Hl.
  destruct (allows l _ _).
  - split; [by apply new_dynamic_ok|]. by apply new_static_ok.
  - unfold new_dynamic_table, new_static_table. destruct (table_limit_new plan l) as [l' r]. cbn [snd] in *. by subst r.
Qed.

(** ** What is forgotten *)

Definition run_table_ops (dbg : bool) (tables : list Table) (s : GcStore Z DrcHeap) (l : list table_op) :=
  foldl (fun acc o => '(tables, s) ← acc;
           '(_, tables, s) ← run_table_op (GcHeap0:=DrcHeap_GcHeap true dbg elements) dbg None tables s o;
           Ok (tables, s)) (Ok (tables, s)) l.

(** A table of one slot, and an object that the host makes and passes on; the
    number of values that are left after a collection when nothing refers to them. *)
Definition values_left (dbg : bool) (prog : Z -> list table_op) : option Z :=
  match run true dbg 4 [CAlloc 7; CGc] with
  | Some w =>
      match run_table_ops dbg [Dynamic (DynamicGcRef {| dg_elements := [None]; dg_maximum := None |})]
              (store w) (prog (from_option id 0 (head (held w)))) with
      | Ok (tables, s) =>
          match store_gc (GcHeap0:=DrcHeap_GcHeap true dbg elements) s [] with
          | Some (Ok s) => if forallb (fun t => match gc_refs (E:=Empty_set) t with Ok l => bool_decide (held_by l = []) | _ => false end) tables
                           then Some (Slab.len (host_data_table s)) else None
          | _ => None
          end
      | _ => None
      end
  | None => None
  end.

Definition obj (r : Z) : TableElement := GcRefElement (Some r).
Definition null_ref : TableElement := GcRefElement None.

(** A reference in a table is given up properly by [Table::fill], but
    [Table::set] and [Table::init_gc_refs] overwrite it without telling the collector, and a
    fill out of bounds and a growth that does not happen forget the reference they
    were given: the object is then never freed, although nothing refers to it. *)
Theorem table_set_leaks dbg :
  values_left dbg (fun r => [On 0 (Put 0 (obj r)); On 0 (Fill 0 null_ref 1)]) = Some 0 /\
  values_left dbg (fun r => [On 0 (Put 0 (obj r)); On 0 (Put 0 null_ref)]) = Some 1 /\
  values_left dbg (fun r => [On 0 (Put 0 (obj r)); On 0 (InitRefs 0 [None])]) = Some 1 /\
  values_left dbg (fun r => [On 0 (Fill 1 (obj r) 1)]) = Some 1 /\
  values_left dbg (fun r => [On 0 (Grow 0 (obj r))]) = Some 1 /\
  values_left dbg (fun r => [On 0 (Grow (2 ^ 32 - 1) (obj r))]) = Some 1.
Proof. destruct dbg; split_and!; vm_compute; reflexivity. Qed.

(** ** Witnesses *)

Definition one_object : world (T:=Z) :=
  match run true true 4 [CAlloc 7; CGc] with Some w => w | None => no_world end.

Lemma one_object_reach : gc_reach 4096 true true 4 elements one_object.
Proof.
  apply (run_reach true true 4 [CAlloc 7; CGc]).
  unfold one_object. by destruct (run true true 4 _) eqn:Hr; [|vm_compute in Hr].
Qed.

Definition three_slots (l : list (option VMGcRef)) : list Table :=
  [Dynamic (DynamicGcRef {| dg_elements := l; dg_maximum := None |})].

(** The object is in the first of three slots, and two slots are copied up by one. *)
Lemma tables_refine_lists_witness :
  exists tables' w', run_table_op (GcHeap0:=DrcHeap_GcHeap true true elements) true None
      (three_slots [Some 8; None; None]) (store one_object) (Copy 0 0 1 0 2) = Ok (RDone, tables', store w') /\
    Forall2 table_repr tables' [AGc [Some 8; Some 8; None] None] /\ held w' ≡ₚ [8; 8].
Proof.
  destruct (tables_refine_lists (T:=Z) 4096 true true 4 elements ltac:(lia) (fun X => reflexivity _) 12 ltac:(lia) page_4096
    one_object (three_slots [Some 8; None; None]) [AGc [Some 8; None; None] None] None (Copy 0 0 1 0 2)
    {| te_result := RDone; te_tables := [AGc [Some 8; Some 8; None] None]; te_uses := []; te_gives := []; te_leaks := [] |} [])
    as (tables' & w' & Hrun & [_ Ht Hh] & _).
  - split.
    + exact one_object_reach.
    + constructor; [constructor; split; [vm_compute; reflexivity|exact I]|constructor].
    + replace (held one_object) with [8] by (vm_compute; reflexivity). reflexivity.
  - vm_compute. reflexivity.
  - vm_compute. reflexivity.
  - exists tables', w'. exact (conj Hrun (conj Ht Hh)).
Defined.

Definition sample_table_plan : TablePlan :=
  {| table := {| Table.wasm_ty := {| nullable := true; rt_heap_type := HFunc |}; Table.minimum := 2; Table.maximum := Some 5 |};
     style := CallerChecksSignature true; written := false; non_null_zero := false |}.

Lemma table_creation_witness :
  exists t, snd (new_static_table sample_table_plan 4096 (replicate (3 * 8) 0) (None : option StoreLimits)) = Ok t /\
    table_repr t (AFunc [0; 0] true (Some 3)).
Proof.
  destruct (table_creation None sample_table_plan 4096 3) as [_ Hs].
  - split; [split; vm_compute; [discriminate|reflexivity]|split; vm_compute; [discriminate|reflexivity]].
  - reflexivity.
  - reflexivity.
  - exact Hs.
Defined.
