(* ===== verification/ConstExpr.v ===== *)
(** * Constant expressions and globals

    [ConstExpr] of [crates/types/src/lib.rs] with its interpreter
    [vm/const_expr.rs], and the globals it reads: [ValRaw] and
    [VMGlobalDefinition] of [vm/vmcontext.rs].  A raw value is the 128-bit number in
    its sixteen bytes; a narrower field is written with the rest zero and read from
    the low bits. *)

From Stdlib Require Import ZArith Lia.
From stdpp Require Import base list gmap numbers option.
From S2P Require Import Prelude GcRef Drc GcStore WasmTypes TableOps TableWorld.
Open Scope Z_scope.

(** ** Raw values *)

Definition ValRaw : Type := Z.

Definition raw_null : ValRaw := 0.
Definition raw_i64 (i : Z) : ValRaw := i mod 2 ^ 64.
Definition raw_u64 (i : Z) : ValRaw := raw_i64 (signed 64 i).
Definition raw_i32 (i : Z) : ValRaw := raw_u64 (i mod 2 ^ 32).
Definition raw_f32 (bits : Z) : ValRaw := raw_u64 bits.
Definition raw_f64 (bits : Z) : ValRaw := bits.
Definition raw_v128 (bits : Z) : ValRaw := bits.
Definition raw_funcref (p : Z) : ValRaw := p.
Definition raw_externref (e : Z) : ValRaw := e.
Definition raw_anyref (r : Z) : ValRaw := r.

Definition raw_get_i32 (v : ValRaw) : Z := signed 32 v.
Definition raw_get_i64 (v : ValRaw) : Z := signed 64 v.
Definition raw_get_u32 (v : ValRaw) : Z := raw_get_i32 v mod 2 ^ 32.
Definition raw_get_u64 (v : ValRaw) : Z := raw_get_i64 v mod 2 ^ 64.
Definition raw_get_f32 (v : ValRaw) : Z := v mod 2 ^ 32.
Definition raw_get_f64 (v : ValRaw) : Z := v mod 2 ^ 64.
Definition raw_get_v128 (v : ValRaw) : Z := v mod 2 ^ 128.
Definition raw_get_funcref (v : ValRaw) : Z := v mod 2 ^ 64.
Definition raw_get_externref (v : ValRaw) : Z := v mod 2 ^ 32.
Definition raw_get_anyref (v : ValRaw) : Z := v mod 2 ^ 32.

(** ** Globals *)

(** The storage of a global, as a number. *)
Definition VMGlobalDefinition : Type := Z.

Definition gc_ref_bits (r : option VMGcRef) : Z := match r with Some r => r | None => 0 end.

Definition from_val_raw (ty : WasmValType) (raw : ValRaw) : VMGlobalDefinition :=
  match ty with
  | VI32 => raw_get_i32 raw mod 2 ^ 32
  | VI64 => raw_get_i64 raw mod 2 ^ 64
  | VF32 => raw_get_f32 raw
  | VF64 => raw_get_f64 raw
  | VV128 => raw_get_v128 raw
  | VRef r =>
      match top (rt_heap_type r) with
      | TopExtern => gc_ref_bits (from_raw_u32 (raw_get_externref raw))
      | TopAny => gc_ref_bits (from_raw_u32 (raw_get_anyref raw))
      | TopFunc => raw_get_funcref raw
      end
  end.

Section Globals.
  Context {T H : Type} `{!GcHeap T H} {E : Type}.
  Implicit Types s : GcStore T H.

Definition as_gc_ref (g : VMGlobalDefinition) : option VMGcRef := from_raw_u32 (g mod 2 ^ 32).

(** The raw form of a reference is a new reference to its object. *)
Definition clone_raw s (r : option VMGcRef) : outcome E (Z * GcStore T H) :=
  match r with
  | Some r => '(r, s) ← unwrap_result (store_clone_gc_ref s r); Ok (r, s)
  | None => Ok (0, s)
  end.

Definition to_val_raw (g : VMGlobalDefinition) s (ty : WasmValType) : outcome E (ValRaw * GcStore T H) :=
  match ty with
  | VI32 => Ok (raw_i32 (signed 32 g), s)
  | VI64 => Ok (raw_i64 (signed 64 g), s)
  | VF32 => Ok (raw_f32 (g mod 2 ^ 32), s)
  | VF64 => Ok (raw_f64 (g mod 2 ^ 64), s)
  | VV128 => Ok (raw_v128 (g mod 2 ^ 128), s)
  | VRef r =>
      match top (rt_heap_type r) with
      | TopExtern => '(e, s) ← clone_raw s (as_gc_ref g); Ok (raw_externref e, s)
      | TopAny => '(e, s) ← clone_raw s (as_gc_ref g); Ok (raw_anyref e, s)
      | TopFunc => Ok (raw_funcref (g mod 2 ^ 64), s)
      end
  end.

Definition global_write_gc_ref (g : VMGlobalDefinition) s (r : option VMGcRef)
  : outcome E (VMGlobalDefinition * GcStore T H) :=
  '(s, d) ← unwrap_result (store_write_gc_ref s (as_gc_ref g) r);
  Ok (g - g mod 2 ^ 32 + gc_ref_bits d, s).
End Globals.

(** ** Constant expressions *)

Inductive ConstOp :=
| I32Const (i : Z)
| I64Const (i : Z)
| F32Const (bits : Z)
| F64Const (bits : Z)
| V128Const (bits : Z)
| GlobalGet (g : nat)
| RefI31
| RefNull
| RefFunc (f : Z).

(** The opcodes of a [ConstExpr]. *)
Definition ConstExpr : Type := list ConstOp.

Definition const_expr_new {E} (ops : list ConstOp) : outcome E ConstExpr :=
  assert_ (negb (bool_decide (ops = [])));; Ok ops.

Definition provably_nonzero_i32 {E} (e : ConstExpr) : outcome E bool :=
  assert_ (Nat.ltb 0 (length e));;
  if Nat.ltb 1 (length e) then Ok false
  else match e with
       | I32Const 0 :: _ => Ok false
       | I32Const _ :: _ => Ok true
       | _ => Ok false
       end.

Inductive const_error := EmptyStack | NotOneValue.

(** The parts of an instance that an expression uses: its globals with their
    types, and [get_func_ref], which fills in the [VMFuncRef] that it points to and so
    changes the state [M] of the instance. *)
Record ConstEvalContext (M : Type) := {
  ctx_globals : list (WasmValType * VMGlobalDefinition);
  ctx_func_ref : M -> Z -> outcome const_error (option Z * M)
}.
Arguments ctx_globals {M}.
Arguments ctx_func_ref {M}.

Section Eval.
  Context {T H M : Type} `{!GcHeap T H} (dbg : bool) (c : ConstEvalContext M).
  Implicit Types (s : GcStore T H) (m : M) (stack : list ValRaw).

Definition global_get s (g : nat) : outcome const_error (ValRaw * GcStore T H) :=
  '(ty, v) ← unwrap (ctx_globals c !! g);
  to_val_raw v s ty.

Definition ref_func m (f : Z) : outcome const_error (ValRaw * M) :=
  '(p, m) ← ctx_func_ref c m f;
  p ← unwrap p;
  Ok (raw_funcref p, m).

Definition pop (stack : list ValRaw) : outcome const_error (ValRaw * list ValRaw) :=
  match stack with
  | v :: stack => Ok (v, stack)
  | [] => Err EmptyStack
  end.

Definition eval_op s m stack (op : ConstOp) : outcome const_error (list ValRaw * GcStore T H * M) :=
  match op with
  | I32Const i => Ok (raw_i32 i :: stack, s, m)
  | I64Const i => Ok (raw_i64 i :: stack, s, m)
  | F32Const f => Ok (raw_f32 f :: stack, s, m)
  | F64Const f => Ok (raw_f64 f :: stack, s, m)
  | V128Const v => Ok (raw_v128 v :: stack, s, m)
  | GlobalGet g => '(v, s) ← global_get s g; Ok (v :: stack, s, m)
  | RefNull => Ok (raw_null :: stack, s, m)
  | RefFunc f => '(v, m) ← ref_func m f; Ok (v :: stack, s, m)
  | RefI31 =>
      '(v, stack) ← pop stack;
      r ← from_i31 dbg (wrapping_i32 (raw_get_i32 v));
      Ok (raw_anyref r :: stack, s, m)
  end.

Fixpoint eval_ops s m stack (ops : list ConstOp) : outcome const_error (list ValRaw * GcStore T H * M) :=
  match ops with
  | [] => Ok (stack, s, m)
  | op :: ops => '(stack, s, m) ← eval_op s m stack op; eval_ops s m stack ops
  end.

Definition const_eval s m (e : ConstExpr) : outcome const_error (ValRaw * GcStore T H * M) :=
  '(stack, s, m) ← eval_ops s m [] e;
  match stack with
  | [v] => Ok (v, s, m)
  | _ => Err NotOneValue
  end.
End Eval.

(** ** Numbers in raw values *)

Lemma signed_mod w i : 0 <= w -> signed w i mod 2 ^ w = i mod 2 ^ w.
Proof.
  intros Hw. unfold signed. destruct (_ <? _); [by apply Z.mod_mod, Z.pow_nonzero|].
  rewrite <- (Z.mod_add _ 1) by (by apply Z.pow_nonzero). rewrite Z.mul_1_l, Z.sub_add. by apply Z.mod_mod, Z.pow_nonzero.
Qed.

Lemma raw_u64_small i : in_u 64 i -> raw_u64 i = i.
Proof. intros Hi. unfold raw_u64, raw_i64. rewrite signed_mod by lia. by apply Z.mod_small. Qed.

Lemma raw_i32_mod i : raw_i32 i = i mod 2 ^ 32.
Proof.
  unfold raw_i32. apply raw_u64_small. pose proof (Z.mod_pos_bound i (2 ^ 32) ltac:(lia)). unfold in_u. lia.
Qed.

Lemma mod_in_u w i : 0 <= w -> in_u w (i mod 2 ^ w).
Proof. intros Hw. apply Z.mod_pos_bound, Z.pow_pos_nonneg; lia. Qed.

(** ** Kinds of expressions *)

(** What fits where: enough to tell the expressions of functions from others
    ([ConstTyping] has the types). *)
Inductive shape := ShI32 | ShI64 | ShF32 | ShF64 | ShV128 | ShFunc | ShGc.
#[global] Instance shape_eq : EqDecision shape.
Proof. solve_decision. Defined.

Definition shape_of (ty : WasmValType) : shape :=
  match ty with
  | VI32 => ShI32 | VI64 => ShI64 | VF32 => ShF32 | VF64 => ShF64 | VV128 => ShV128
  | VRef r => match top (rt_heap_type r) with TopFunc => ShFunc | TopExtern | TopAny => ShGc end
  end.

(** The shapes on the stack after an operation; a null takes the shape that the
    context gives it. *)
Definition check_op (gs : list WasmValType) (null : shape) (stack : list shape) (op : ConstOp) : option (list shape) :=
  match op with
  | I32Const _ => Some (ShI32 :: stack)
  | I64Const _ => Some (ShI64 :: stack)
  | F32Const f => if in_ub 32 f then Some (ShF32 :: stack) else None
  | F64Const f => if in_ub 64 f then Some (ShF64 :: stack) else None
  | V128Const v => if in_ub 128 v then Some (ShV128 :: stack) else None
  | GlobalGet g => ty ← gs !! g; Some (shape_of ty :: stack)
  | RefNull => Some (null :: stack)
  | RefFunc _ => Some (ShFunc :: stack)
  | RefI31 => match stack with ShI32 :: stack => Some (ShGc :: stack) | _ => None end
  end.

Fixpoint check_ops (gs : list WasmValType) (null : shape) (stack : list shape) (e : ConstExpr) : option (list shape) :=
  match e with
  | [] => Some stack
  | op :: e => stack ← check_op gs null stack op; check_ops gs null stack e
  end.

(** An expression of the shape [sh]. *)
Definition check_expr (gs : list WasmValType) (e : ConstExpr) (sh : shape) : bool :=
  bool_decide (check_ops gs sh [] e = Some [sh]).
