(* ===== verification/TableInit.v ===== *)
(** * Initialisation of tables

    How the tables of an instance get their contents: [TableInitialization] of
    [environ/src/module.rs] and the pass [try_func_table_init] over it
    ([compile/module_environ.rs]), which turns segments of functions into an image
    that is known before instantiation; [initialize_tables] and the check of bounds
    of the instance allocator; and the operations of an instance ([vm/instance.rs],
    [vm/libcalls.rs], [externals/table.rs]) that fill in the slots of a table from
    the image when they are first read.

    A store is a list of instances and a list of tables, which instances refer to
    by position; it owns the collector, the limits, and the [VMFuncRef]s that the
    instances have filled in, by address. *)

From Stdlib Require Import ZArith Lia.
From stdpp Require Import base list gmap numbers option sets.
From S2P Require Import Prelude VmOffsets MemoryTypes Mappings LinearMemory MetadataSections GcRef Drc GcStore WasmTypes TypeMatching Tables TableOps ConstExpr.
Open Scope Z_scope.

(** ** Modules *)

Definition reserved_value : Z := u32_max.

Inductive TableInitialValue :=
| InitNull (precomputed : list Z)
| InitExpr (e : ConstExpr).

Inductive TableSegmentElements :=
| Functions (funcs : list Z)
| Expressions (exprs : list ConstExpr).

Definition segment_len (els : TableSegmentElements) : Z :=
  match els with
  | Functions s => Z.of_nat (length s) mod 2 ^ 32
  | Expressions s => Z.of_nat (length s) mod 2 ^ 32
  end.

Record TableSegment := { ts_table : nat; ts_offset : ConstExpr; ts_elements : TableSegmentElements }.

Record TableInitialization := { initial_values : list TableInitialValue; segments : list TableSegment }.

Record FunctionType := { signature : nat; func_ref : Z }.

Record Module := {
  num_imported_funcs : nat;
  functions : list FunctionType;
  num_imported_tables : nat;
  table_plans : list TablePlan;
  table_initialization : TableInitialization;
  passive_elements : list TableSegmentElements;
  passive_elements_map : gmap nat nat
}.

Definition defined_index (num_imported index : nat) : option nat :=
  if Nat.ltb index num_imported then None else Some (index - num_imported)%nat.

Definition defined_table_index (m : Module) (index : nat) : option nat := defined_index (num_imported_tables m) index.
Definition defined_func_index (m : Module) (index : Z) : option nat := defined_index (num_imported_funcs m) (Z.to_nat index).
Definition table_index (m : Module) (defined : nat) : nat := (num_imported_tables m + defined)%nat.

(** ** Images of tables *)

Definition MAX_FUNC_TABLE_SIZE : Z := 1024 * 1024.

(** A table whose slots all start as one function has an image of that function. *)
Definition convert_initial (init : TableInitialValue) (plan : TablePlan) : TableInitialValue :=
  let table_size := Table.minimum (table plan) in
  if MAX_FUNC_TABLE_SIZE <? table_size then init
  else match init with
       | InitExpr [RefFunc f] => InitNull (replicate (Z.to_nat table_size) f)
       | _ => init
       end.

Fixpoint convert_initials (inits : list TableInitialValue) (plans : list TablePlan) : list TableInitialValue :=
  match inits, plans with
  | init :: inits, plan :: plans => convert_initial init plan :: convert_initials inits plans
  | _, _ => inits
  end.

(** One segment: the initial values with the segment in an image, or [None] where
    the loop stops. *)
Definition apply_segment {E} (m : Module) (inits : list TableInitialValue) (segment : TableSegment)
  : outcome E (option (list TableInitialValue)) :=
  match defined_table_index m (ts_table segment), ts_offset segment with
  | Some defined, [I32Const offset] =>
      let offset := offset mod 2 ^ 32 in
      match checked 32 (offset + segment_len (ts_elements segment)) with
      | None => Ok None
      | Some top_ =>
          plan ← unwrap (table_plans m !! ts_table segment);
          if (Table.minimum (table plan) <? top_) || (MAX_FUNC_TABLE_SIZE <? top_) then Ok None
          else
            match top (rt_heap_type (Table.wasm_ty (table plan))), ts_elements segment with
            | TopFunc, Functions function_elements =>
                init ← unwrap (inits !! defined);
                match init with
                | InitNull precomputed =>
                    let precomputed :=
                      if Z.of_nat (length precomputed) <? top_
                      then resize (Z.to_nat top_) reserved_value precomputed else precomputed in
                    assert_ (Z.of_nat (length function_elements) =? top_ - offset);;
                    Ok (Some (<[defined := InitNull (overwrite precomputed (Z.to_nat offset) function_elements)]> inits))
                | InitExpr _ => Ok None
                end
            | _, _ => Ok None
            end
      end
  | _, _ => Ok None
  end.

Fixpoint apply_segments {E} (m : Module) (inits : list TableInitialValue) (segments : list TableSegment)
  : outcome E (list TableInitialValue * list TableSegment) :=
  match segments with
  | [] => Ok (inits, [])
  | segment :: rest =>
      applied ← apply_segment m inits segment;
      match applied with
      | Some inits => apply_segments m inits rest
      | None => Ok (inits, segment :: rest)
      end
  end.

Definition set_initialization (m : Module) (i : TableInitialization) : Module :=
  {| num_imported_funcs := num_imported_funcs m; functions := functions m;
     num_imported_tables := num_imported_tables m; table_plans := table_plans m;
     table_initialization := i; passive_elements := passive_elements m;
     passive_elements_map := passive_elements_map m |}.

Definition try_func_table_init {E} (m : Module) : outcome E Module :=
  let init := table_initialization m in
  let inits := convert_initials (initial_values init) (drop (num_imported_tables m) (table_plans m)) in
  '(inits, segments) ← apply_segments m inits (segments init);
  Ok (set_initialization m {| initial_values := inits; segments := segments |}).

(** The plans of a module follow the tunables. *)
Definition plan_style (lazy_init : bool) (plan : TablePlan) : TablePlan :=
  {| table := table plan; style := style_for_table (table plan) lazy_init;
     written := written plan; non_null_zero := non_null_zero plan |}.

Definition plan_tables (lazy_init : bool) (m : Module) : Module :=
  {| num_imported_funcs := num_imported_funcs m; functions := functions m;
     num_imported_tables := num_imported_tables m; table_plans := plan_style lazy_init <$> table_plans m;
     table_initialization := table_initialization m; passive_elements := passive_elements m;
     passive_elements_map := passive_elements_map m |}.

(** Compilation makes images of tables where they are initialised lazily. *)
Definition compile_tables {E} (table_lazy_init : bool) (m : Module) : outcome E Module :=
  let m := plan_tables table_lazy_init m in
  if table_lazy_init then try_func_table_init m else Ok m.

(** ** Instances *)

Record VMFunctionImport := { fi_wasm_call : Z; fi_array_call : Z; fi_vmctx : Z }.

Record VMFuncRef := { array_call : Z; wasm_call : option Z; type_index : Z; vf_vmctx : Z }.

(** An instance: its module, its tables, the tables that it imports as an instance
    and an index there, its dropped segments, its globals; the address of its
    [VMContext] and the layout of it; the engine's types of its signatures, the code of
    its own functions and its imported functions. *)
Record Instance := {
  i_module : Module;
  i_tables : list nat;
  i_imported_tables : list (nat * nat);
  i_dropped_elements : gset nat;
  i_globals : list (WasmValType * VMGlobalDefinition);
  i_vmctx : Z;
  i_offsets : VMOffsets;
  i_type_ids : list Z;
  i_trampolines : list (option Z);
  i_functions : list Z;
  i_imported_functions : list VMFunctionImport
}.

Section FuncRefs.
  Context (oc : bool) {E : Type}.

Definition construct_func_ref (i : Instance) (index : Z) (sig : nat) : outcome E VMFuncRef :=
  type_index ← unwrap (i_type_ids i !! sig);
  match defined_func_index (i_module i) index with
  | Some def_index =>
      trampoline ← unwrap (i_trampolines i !! def_index);
      array_call ← unwrap trampoline;
      wasm_call ← unwrap (i_functions i !! def_index);
      Ok {| array_call := array_call; wasm_call := Some wasm_call; type_index := type_index; vf_vmctx := i_vmctx i |}
  | None =>
      import ← unwrap (i_imported_functions i !! Z.to_nat index);
      Ok {| array_call := fi_array_call import; wasm_call := Some (fi_wasm_call import);
            type_index := type_index; vf_vmctx := fi_vmctx import |}
  end.

(** The address of the [VMFuncRef] of a function, which is filled in. *)
Definition get_func_ref (i : Instance) (refs : gmap Z VMFuncRef) (index : Z)
  : outcome E (option Z * gmap Z VMFuncRef) :=
  if index =? reserved_value then Ok (None, refs)
  else
    func ← unwrap (functions (i_module i) !! Z.to_nat index);
    offset ← vmctx_func_ref oc (i_offsets i) (func_ref func);
    let into := i_vmctx i + offset in
    f ← construct_func_ref i index (signature func);
    Ok (Some into, <[into := f]> refs).

Definition unwrap_or_null (p : option Z) : Z := match p with Some p => p | None => 0 end.

Fixpoint func_ref_items (i : Instance) (refs : gmap Z VMFuncRef) (indices : list Z)
  : outcome E (list Z * gmap Z VMFuncRef) :=
  match indices with
  | [] => Ok ([], refs)
  | idx :: indices =>
      '(p, refs) ← get_func_ref i refs idx;
      '(items, refs) ← func_ref_items i refs indices;
      Ok (unwrap_or_null p :: items, refs)
  end.
End FuncRefs.

(** ** Stores *)

Record World (T H L : Type) := {
  w_instances : list Instance;
  w_tables : list Table;
  w_store : GcStore T H;
  w_func_refs : gmap Z VMFuncRef;
  w_limits : option L
}.
Arguments w_instances {T H L}.
Arguments w_tables {T H L}.
Arguments w_store {T H L}.
Arguments w_func_refs {T H L}.
Arguments w_limits {T H L}.

Inductive init_error :=
| InitTrap (t : Trap)
| SegmentDoesNotFit
| AllocationFailed (e : mem_error).

Section Stores.
  Context {T H L : Type} `{!GcHeap T H} `{!ResourceLimiter L} (oc dbg : bool).
  Implicit Types (w : World T H L) (s : GcStore T H) (refs : gmap Z VMFuncRef).

(** The store after an operation on one table. *)
Definition with_table w (k : nat) (t : Table) s refs : World T H L :=
  {| w_instances := w_instances w; w_tables := <[k := t]> (w_tables w); w_store := s;
     w_func_refs := refs; w_limits := w_limits w |}.

Definition with_tables w (tables : list Table) s : World T H L :=
  {| w_instances := w_instances w; w_tables := tables; w_store := s;
     w_func_refs := w_func_refs w; w_limits := w_limits w |}.

Definition with_state w s refs : World T H L :=
  {| w_instances := w_instances w; w_tables := w_tables w; w_store := s;
     w_func_refs := refs; w_limits := w_limits w |}.

Definition with_limits w (l : option L) : World T H L :=
  {| w_instances := w_instances w; w_tables := w_tables w; w_store := w_store w;
     w_func_refs := w_func_refs w; w_limits := l |}.

(** An error leaves the store as it was. *)
Definition commit {E A} w (m : outcome E (A * World T H L)) : World T H L * outcome E A :=
  match m with
  | Ok (a, w) => (w, Ok a)
  | Err e => (w, Err e)
  | Panic => (w, Panic)
  end.

Definition stored {E} (m : outcome E (World T H L)) : outcome E (() * World T H L) := w ← m; Ok ((), w).

(** A part that has no error to return. *)
Definition with_ok {E A B} w (m : outcome Empty_set A) (f : A -> World T H L * outcome E B) : World T H L * outcome E B :=
  match m with
  | Ok a => f a
  | _ => (w, Panic)
  end.

(** What an earlier turn of a loop did stays when a later one fails. *)
Fixpoint for_each {E A} (f : A -> World T H L -> World T H L * outcome E ()) (l : list A) w
  : World T H L * outcome E () :=
  match l with
  | [] => (w, Ok ())
  | x :: l =>
      match f x w with
      | (w, Ok _) => for_each f l w
      | r => r
      end
  end.

Definition get_instance {E} w (i : nat) : outcome E Instance := unwrap (w_instances w !! i).

(** The instance that defines a table, and the index of the table there. *)
Definition with_defined_table_index {E} w (i index : nat) : outcome E (nat * nat) :=
  inst ← get_instance w i;
  match defined_table_index (i_module inst) index with
  | Some defined => Ok (i, defined)
  | None => unwrap (i_imported_tables inst !! index)
  end.

Definition get_defined_table {E} w (i defined : nat) : outcome E (nat * Table) :=
  inst ← get_instance w i;
  k ← unwrap (i_tables inst !! defined);
  t ← unwrap (w_tables w !! k);
  Ok (k, t).

Definition get_table {E} w (i index : nat) : outcome E (nat * Table) :=
  '(owner, defined) ← with_defined_table_index w i index;
  get_defined_table w owner defined.

(** *** Filling in slots when they are read *)

(** The slots from [i] on, [n] of them, up to the end of the table. *)
Fixpoint lazy_init_slots {E} (inst : Instance) (defined : nat) (t : Table) s refs (i : Z) (n : nat)
  : outcome E (Table * GcStore T H * gmap Z VMFuncRef) :=
  match n with
  | O => Ok (t, s, refs)
  | S n =>
      '(value, s) ← table_get t s i;
      match value with
      | None => Ok (t, s, refs)
      | Some value =>
          if negb (is_uninit value) then lazy_init_slots inst defined t s refs (i + 1) n
          else
            init ← unwrap (initial_values (table_initialization (i_module inst)) !! defined);
            precomputed ← match init with InitNull precomputed => Ok precomputed | InitExpr _ => Panic end;
            '(p, refs) ← match (precomputed : list Z) !! Z.to_nat i with
                         | Some func_index => get_func_ref oc inst refs func_index
                         | None => Ok (None, refs)
                         end;
            t ← unwrap_result (table_set t i (FuncRef (unwrap_or_null p)));
            lazy_init_slots inst defined t s refs (i + 1) n
      end
  end.

Definition get_defined_table_with_lazy_init {E} w (i defined : nat) (start : Z) (n : nat) : outcome E (World T H L) :=
  inst ← get_instance w i;
  '(k, t) ← get_defined_table w i defined;
  match element_type t with
  | ElementFunc =>
      '(t, s, refs) ← lazy_init_slots inst defined t (w_store w) (w_func_refs w) start n;
      Ok (with_table w k t s refs)
  | ElementGcRef => Ok w
  end.

Definition get_table_with_lazy_init {E} w (i index : nat) (start : Z) (n : nat) : outcome E (World T H L) :=
  '(owner, defined) ← with_defined_table_index w i index;
  get_defined_table_with_lazy_init w owner defined start n.

(** *** Segments *)

Definition eval_context (inst : Instance) : ConstEvalContext (gmap Z VMFuncRef) :=
  {| ctx_globals := i_globals inst; ctx_func_ref := get_func_ref oc inst |}.

(** [expect("const expression should be valid")]. *)
Definition eval_expr {E} (inst : Instance) s refs (e : ConstExpr)
  : outcome E (ValRaw * GcStore T H * gmap Z VMFuncRef) :=
  unwrap_result (const_eval dbg (eval_context inst) s refs e).

Fixpoint eval_items {E A} (inst : Instance) s refs (f : ValRaw -> A) (exprs : list ConstExpr)
  : outcome E (list A * (GcStore T H * gmap Z VMFuncRef)) :=
  match exprs with
  | [] => Ok ([], (s, refs))
  | e :: exprs =>
      '(raw, s, refs) ← eval_expr inst s refs e;
      '(items, x) ← eval_items inst s refs f exprs;
      Ok (f raw :: items, x)
  end.

(** [init_func] and [init_gc_refs] of an iterator, which runs when the slots are there. *)
Definition init_func_iter {X} (t : Table) (dst : Z) (n : nat) (items : outcome Trap (list Z * X)) : outcome Trap (Table * X) :=
  '(elements, _) ← funcrefs t;
  if in_range (length elements) dst n then
    '(items, x) ← items;
    t ← init_func t dst items;
    Ok (t, x)
  else Err TableOutOfBounds.

Definition init_gc_refs_iter {X} (t : Table) (dst : Z) (n : nat) (items : outcome Trap (list (option VMGcRef) * X))
  : outcome Trap (Table * X) :=
  elements ← gc_refs t;
  if in_range (length elements) dst n then
    '(items, x) ← items;
    t ← init_gc_refs t dst items;
    Ok (t, x)
  else Err TableOutOfBounds.

(** [get(src..)] and then [get(..len)]. *)
Definition subslice {A} (l : list A) (src len : Z) : outcome Trap (list A) :=
  if in_range (length l) src (Z.to_nat len) then Ok (take (Z.to_nat len) (drop (Z.to_nat src) l))
  else Err TableOutOfBounds.

Definition table_init_segment w (i index : nat) (elements : TableSegmentElements) (dst src len : Z)
  : outcome Trap (World T H L) :=
  inst ← get_instance w i;
  '(k, t) ← get_table w i index;
  let s := w_store w in
  let refs := w_func_refs w in
  match elements with
  | Functions funcs =>
      elements ← subslice funcs src len;
      '(t, refs) ← init_func_iter t dst (length elements) (func_ref_items oc inst refs elements);
      Ok (with_table w k t s refs)
  | Expressions exprs =>
      exprs ← subslice exprs src len;
      plan ← unwrap (table_plans (i_module inst) !! index);
      '(t, (s, refs)) ← match top (rt_heap_type (Table.wasm_ty (table plan))) with
        | TopExtern => init_gc_refs_iter t dst (length exprs) (eval_items inst s refs (fun raw => from_raw_u32 (raw_get_externref raw)) exprs)
        | TopAny => init_gc_refs_iter t dst (length exprs) (eval_items inst s refs (fun raw => from_raw_u32 (raw_get_anyref raw)) exprs)
        | TopFunc => init_func_iter t dst (length exprs) (eval_items inst s refs raw_get_funcref exprs)
        end;
      Ok (with_table w k t s refs)
  end.

(** [table.init]: a segment that was dropped, or was not passive, is empty. *)
Definition instance_table_init w (i index elem : nat) (dst src len : Z) : outcome Trap (World T H L) :=
  inst ← get_instance w i;
  elements ← match passive_elements_map (i_module inst) !! elem with
             | Some j => if bool_decide (elem ∈ i_dropped_elements inst) then Ok (Expressions [])
                         else unwrap (passive_elements (i_module inst) !! j)
             | None => Ok (Expressions [])
             end;
  table_init_segment w i index elements dst src len.

Definition set_dropped (inst : Instance) (d : gset nat) : Instance :=
  {| i_module := i_module inst; i_tables := i_tables inst; i_imported_tables := i_imported_tables inst;
     i_dropped_elements := d; i_globals := i_globals inst; i_vmctx := i_vmctx inst; i_offsets := i_offsets inst;
     i_type_ids := i_type_ids inst; i_trampolines := i_trampolines inst; i_functions := i_functions inst;
     i_imported_functions := i_imported_functions inst |}.

Definition elem_drop {E} w (i elem : nat) : outcome E (World T H L) :=
  inst ← get_instance w i;
  Ok {| w_instances := <[i := set_dropped inst ({[elem]} ∪ i_dropped_elements inst)]> (w_instances w);
        w_tables := w_tables w; w_store := w_store w; w_func_refs := w_func_refs w; w_limits := w_limits w |}.

(** *** Instantiation *)

Fixpoint clone_items {E} s (r : option VMGcRef) (n : nat) : outcome E (list (option VMGcRef) * GcStore T H) :=
  match n with
  | O => Ok ([], s)
  | S n =>
      '(item, s) ← match r with
                   | Some r => '(r, s) ← unwrap_result (store_clone_gc_ref s r); Ok (Some r, s)
                   | None => Ok (None, s)
                   end;
      '(items, s) ← clone_items s r n;
      Ok (item :: items, s)
  end.

(** One turn of the first loop of [initialize_tables]. *)
Definition initialize_table (i : nat) (x : nat * TableInitialValue) w : outcome init_error (World T H L) :=
  let '(defined, init) := x in
  match init with
  | InitNull _ => Ok w
  | InitExpr e =>
      inst ← get_instance w i;
      '(raw, s, refs) ← eval_expr inst (w_store w) (w_func_refs w) e;
      '(k, t) ← get_defined_table w i defined;
      plan ← unwrap (table_plans (i_module inst) !! table_index (i_module inst) defined);
      size ← table_size t;
      let n := Z.to_nat size in
      match top (rt_heap_type (Table.wasm_ty (table plan))) with
      | TopExtern =>
          '(t, s) ← map_err InitTrap
            (init_gc_refs_iter t 0 n (clone_items s (from_raw_u32 (raw_get_externref raw)) n));
          Ok (with_table w k t s refs)
      | TopAny =>
          '(t, s) ← map_err InitTrap
            (init_gc_refs_iter t 0 n (clone_items s (from_raw_u32 (raw_get_anyref raw)) n));
          Ok (with_table w k t s refs)
      | TopFunc =>
          t ← map_err InitTrap (init_func t 0 (replicate n (raw_get_funcref raw)));
          Ok (with_table w k t s refs)
      end
  end.

(** One turn of the second. *)
Definition initialize_segment (i : nat) (segment : TableSegment) w : World T H L * outcome init_error () :=
  with_ok w (inst ← get_instance w i; eval_expr inst (w_store w) (w_func_refs w) (ts_offset segment))
    (fun '(start, s, refs) =>
       let w := with_state w s refs in
       commit w (stored (map_err InitTrap
         (table_init_segment w i (ts_table segment) (ts_elements segment) (raw_get_u32 start) 0
            (segment_len (ts_elements segment)))))).

Definition initialize_tables (i : nat) w : World T H L * outcome init_error () :=
  with_ok w (get_instance w i)
    (fun inst =>
       let init := table_initialization (i_module inst) in
       match for_each (fun x w => commit w (stored (initialize_table i x w)))
               (imap pair (initial_values init)) w with
       | (w, Ok _) => for_each (initialize_segment i) (segments init) w
       | r => r
       end).

(** One turn of [check_table_init_bounds]. *)
Definition check_segment (i : nat) (segment : TableSegment) w : World T H L * outcome init_error () :=
  with_ok w ('(k, t) ← get_table w i (ts_table segment);
             inst ← get_instance w i;
             '(start, s, refs) ← eval_expr inst (w_store w) (w_func_refs w) (ts_offset segment);
             size ← table_size t;
             Ok (raw_get_u32 start, size, s, refs))
    (fun '(start, size, s, refs) =>
       (with_state w s refs,
        match checked 64 (start + segment_len (ts_elements segment)) with
        | Some end_ => if end_ <=? size then Ok () else Err SegmentDoesNotFit
        | None => Err SegmentDoesNotFit
        end)).

Definition check_table_init_bounds (i : nat) w : World T H L * outcome init_error () :=
  with_ok w (get_instance w i)
    (fun inst => for_each (check_segment i) (segments (table_initialization (i_module inst))) w).

(** [initialize_instance], as far as tables go. *)
Definition initialize_instance (i : nat) (is_bulk_memory : bool) w : World T H L * outcome init_error () :=
  if is_bulk_memory then initialize_tables i w
  else match check_table_init_bounds i w with
       | (w, Ok _) => initialize_tables i w
       | r => r
       end.

(** The tables of an instance, one by one, from the on-demand allocator. *)
Fixpoint allocate_tables (plans : list TablePlan) (l : option L) : option L * outcome mem_error (list Table) :=
  match plans with
  | [] => (l, Ok [])
  | plan :: plans =>
      match new_dynamic_table plan l with
      | (l, Ok t) => let '(l, r) := allocate_tables plans l in (l, tables ← r; Ok (t :: tables))
      | (l, Err e) => (l, Err e)
      | (l, Panic) => (l, Panic)
      end
  end.

Definition set_compiled (inst : Instance) (m : Module) (tables : list nat) : Instance :=
  {| i_module := m; i_tables := tables; i_imported_tables := i_imported_tables inst;
     i_dropped_elements := ∅; i_globals := i_globals inst; i_vmctx := i_vmctx inst;
     i_offsets := i_offsets inst; i_type_ids := i_type_ids inst; i_trampolines := i_trampolines inst;
     i_functions := i_functions inst; i_imported_functions := i_imported_functions inst |}.

(** A new instance of the module of [request], which stays in the store when its
    initialisation fails. *)
Definition instantiate (table_lazy_init : bool) (request : Instance) (is_bulk_memory : bool) w
  : World T H L * outcome init_error nat :=
  with_ok w (compile_tables table_lazy_init (i_module request))
    (fun m =>
       match allocate_tables (drop (num_imported_tables m) (table_plans m)) (w_limits w) with
       | (l, Ok tables) =>
           let i := length (w_instances w) in
           let ids := seq (length (w_tables w)) (length tables) in
           let w := {| w_instances := w_instances w ++ [set_compiled request m ids];
                       w_tables := w_tables w ++ tables; w_store := w_store w;
                       w_func_refs := w_func_refs w; w_limits := l |} in
           let '(w, r) := initialize_instance i is_bulk_memory w in (w, r;; Ok i)
       | (l, Err e) => (with_limits w l, Err (AllocationFailed e))
       | (l, Panic) => (with_limits w l, Panic)
       end).

(** *** Operations of compiled code and of the host *)

Definition libcall_element {E} (t : Table) s (val : Z) : outcome E (TableElement * GcStore T H) :=
  match element_type t with
  | ElementFunc => Ok (FuncRef val, s)
  | ElementGcRef =>
      r ← unwrap_result (from_r64 val);
      match r with
      | Some r => '(r, s) ← unwrap_result (store_clone_gc_ref s r); Ok (GcRefElement (Some r), s)
      | None => Ok (GcRefElement None, s)
      end
  end.

Definition libcall_table_grow w (i index : nat) (delta init_value : Z) : World T H L * outcome mem_error Z :=
  with_ok w ('(k, t) ← get_table w i index;
             '(e, s) ← libcall_element t (w_store w) init_value;
             Ok (k, t, e, s))
    (fun '(k, t, e, s) =>
       let '(l, r) := table_grow dbg (w_limits w) t s delta e in
       let w := with_limits (with_state w s (w_func_refs w)) l in
       commit w ('(old, t, s) ← r;
                 Ok (match old with Some r => r | None => u32_max end, with_table w k t s (w_func_refs w)))).

Definition libcall_table_fill w (i index : nat) (dst val len : Z) : World T H L * outcome Trap () :=
  with_ok w ('(k, t) ← get_table w i index;
             '(e, s) ← libcall_element t (w_store w) val;
             Ok (k, t, e, s))
    (fun '(k, t, e, s) =>
       let w := with_state w s (w_func_refs w) in
       commit w ('(t, s) ← table_fill t s dst e len;
                 Ok ((), with_table w k t s (w_func_refs w)))).

(** Copying fills in the slots that it reads, also when it traps. *)
Definition libcall_table_copy w (i dst_table src_table : nat) (dst src len : Z) : World T H L * outcome Trap () :=
  let end_ := match checked 32 (src + len) with Some e => e | None => u32_max end in
  with_ok w ('(d, _) ← get_table w i dst_table;
             w ← get_table_with_lazy_init w i src_table src (Z.to_nat (end_ - src));
             '(k, _) ← get_table w i src_table;
             Ok (d, k, w))
    (fun '(d, k, w) =>
       commit w ('(s, tables) ← table_copy dbg (w_store w) (w_tables w) d k dst src len;
                 Ok ((), with_tables w tables s))).

Definition table_get_lazy_init_func_ref w (i index : nat) (j : Z) : outcome Empty_set (Z * World T H L) :=
  w ← get_table_with_lazy_init w i index j 1;
  '(k, t) ← get_table w i index;
  '(elem, s) ← table_get t (w_store w) j;
  elem ← unwrap elem;
  p ← into_func_ref_asserting_initialized elem;
  Ok (p, with_state w s (w_func_refs w)).

Definition libcall_ref_func w (i : nat) (f : Z) : outcome Empty_set (Z * World T H L) :=
  inst ← get_instance w i;
  '(p, refs) ← get_func_ref oc inst (w_func_refs w) f;
  p ← unwrap p;
  Ok (p, with_state w (w_store w) refs).

(** [Table::get] and [Table::set] of the host, on a table of an instance. *)
Definition host_table_get w (i defined : nat) (index : Z) : outcome Empty_set (option TableElement * World T H L) :=
  w ← get_defined_table_with_lazy_init w i defined index 1;
  '(k, t) ← get_defined_table w i defined;
  '(elem, s) ← table_get t (w_store w) index;
  match elem with
  | Some UninitFunc => Panic
  | _ => Ok (elem, with_state w s (w_func_refs w))
  end.

Definition host_table_set w (i defined : nat) (index : Z) (val : TableElement) : outcome set_error (World T H L) :=
  w ← get_defined_table_with_lazy_init w i defined 0 0;
  '(k, t) ← get_defined_table w i defined;
  t ← table_set t index val;
  Ok (with_table w k t (w_store w) (w_func_refs w)).
End Stores.

(** ** Programs over a store *)

Inductive store_op :=
| Instantiate (request : Instance) (is_bulk_memory : bool)
| HostGet (i defined : nat) (index : Z)
| HostSet (i defined : nat) (index : Z) (val : TableElement)
| TableGet (i index : nat) (j : Z)
| TableFill (i index : nat) (dst val len : Z)
| TableGrow (i index : nat) (delta val : Z)
| TableCopy (i dst_table src_table : nat) (dst src len : Z)
| TableInit (i index elem : nat) (dst src len : Z)
| ElemDrop (i elem : nat)
| RefFuncOf (i : nat) (f : Z).

Inductive op_result :=
| NewInstance (i : nat)
| Element (e : option TableElement)
| Pointer (p : Z)
| Grown (n : Z)
| Nothing.

Inductive op_error :=
| NotInitialized (e : init_error)
| Trapped (t : Trap)
| OutOfBounds
| NotGrown (e : mem_error).

Section Run.
  Context {T H L : Type} `{!GcHeap T H} `{!ResourceLimiter L} (oc dbg : bool) (table_lazy_init : bool).

Definition answer {E A} (f : A -> op_result) (g : E -> op_error) (x : World T H L * outcome E A)
  : World T H L * outcome op_error op_result :=
  (x.1, match x.2 with Ok a => Ok (f a) | Err e => Err (g e) | Panic => Panic end).

Definition no_error (e : Empty_set) : op_error := match e with end.

Definition run_store_op (w : World T H L) (o : store_op) : World T H L * outcome op_error op_result :=
  match o with
  | Instantiate request bulk => answer NewInstance NotInitialized (instantiate oc dbg table_lazy_init request bulk w)
  | HostGet i d j => answer Element no_error (commit w (host_table_get oc w i d j))
  | HostSet i d j e => answer (fun _ => Nothing) (fun _ => OutOfBounds) (commit w (stored (host_table_set oc w i d j e)))
  | TableGet i t j => answer Pointer no_error (commit w (table_get_lazy_init_func_ref oc w i t j))
  | TableFill i t dst val len => answer (fun _ => Nothing) Trapped (libcall_table_fill w i t dst val len)
  | TableGrow i t delta val => answer Grown NotGrown (libcall_table_grow dbg w i t delta val)
  | TableCopy i d t dst src len => answer (fun _ => Nothing) Trapped (libcall_table_copy oc dbg w i d t dst src len)
  | TableInit i t elem dst src len =>
      answer (fun _ => Nothing) Trapped (commit w (stored (instance_table_init oc dbg w i t elem dst src len)))
  | ElemDrop i elem => answer (fun _ => Nothing) no_error (commit w (stored (elem_drop w i elem)))
  | RefFuncOf i f => answer Pointer no_error (commit w (libcall_ref_func oc w i f))
  end.
End Run.
