(* ===== verification/LazyTables.v ===== *)
(** * Slots that are filled in when they are read

    A table of functions that is initialised lazily has empty slots, which stand
    for the functions of its image, and slots that were written, which are tagged.
    [tables_agree] relates such a table to the table that an engine without
    lazy initialisation has at the same time.  Every operation on one table keeps the
    relation and answers alike on both sides. *)

From Stdlib Require Import ZArith Lia.
From stdpp Require Import base list gmap numbers option sets.
From S2P Require Import Prelude VmOffsets MemoryTypes Mappings LinearMemory MetadataSections GcRef Drc GcStore WasmTypes TypeMatching Tables TableOps ConstExpr TableInit.
Open Scope Z_scope.

(** ** Outcomes of two engines *)

Definition agree {E A B} (Q : A -> B -> Prop) (m : outcome E A) (m' : outcome E B) : Prop :=
  match m, m' with
  | Ok a, Ok b => Q a b
  | Err e, Err e' => e = e'
  | Panic, Panic => True
  | _, _ => False
  end.

Section Agree.
  Context {E : Type}.

Lemma agree_bind {A B A' B'} (Q : A -> B -> Prop) (Q' : A' -> B' -> Prop) (m : outcome E A) (m' : outcome E B) f g :
  agree Q m m' -> (forall a b, m = Ok a -> m' = Ok b -> Q a b -> agree Q' (f a) (g b)) -> agree Q' (m ≫= f) (m' ≫= g).
Proof. destruct m, m'; cbn; intros Hm Hf; try done; by apply Hf. Qed.

Lemma agree_refl {A} (Q : A -> A -> Prop) (m : outcome E A) : (forall a, m = Ok a -> Q a a) -> agree Q m m.
Proof. destruct m; cbn; auto. Qed.

Lemma agree_eq {A} (m : outcome E A) : agree eq m m.
Proof. by apply agree_refl. Qed.

Lemma agree_weaken {A B} (Q Q' : A -> B -> Prop) (m : outcome E A) m' :
  agree Q m m' -> (forall a b, m = Ok a -> m' = Ok b -> Q a b -> Q' a b) -> agree Q' m m'.
Proof. destruct m, m'; cbn; auto. Qed.

Lemma agree_unwrap {A B} (Q : A -> B -> Prop) (x : option A) (y : option B) :
  (match x, y with Some a, Some b => Q a b | None, None => True | _, _ => False end) -> agree Q (unwrap (E:=E) x) (unwrap y).
Proof. by destruct x, y. Qed.
End Agree.

Lemma agree_unwrap_result {E E' A B} (Q : A -> B -> Prop) (m : outcome E A) m' :
  agree Q m m' -> agree Q (unwrap_result (E':=E') m) (unwrap_result m').
Proof. destruct m, m'; cbn; auto. Qed.

Lemma agree_map_err {E E' A B} (Q : A -> B -> Prop) (h : E -> E') (m : outcome E A) m' :
  agree Q m m' -> agree Q (map_err h m) (map_err h m').
Proof. destruct m, m'; cbn; auto; congruence. Qed.

(** ** Pointers to functions *)

(** Pointers leave the lowest bit free for the tag. *)
Definition untagged (p : Z) : Prop := Z.even p = true /\ in_u 64 p.

(** Null, or a pointer to a [VMFuncRef] that was filled in. *)
Definition valid_ptr (refs : gmap Z VMFuncRef) (p : Z) : Prop := untagged p /\ (p = 0 \/ is_Some (refs !! p)).

Definition refs_grow (refs refs' : gmap Z VMFuncRef) : Prop := forall p, is_Some (refs !! p) -> is_Some (refs' !! p).

#[global] Instance refs_grow_preorder : PreOrder refs_grow.
Proof. split; [by intros ? ?|]. intros a b c Hab Hbc p Hp. by apply Hbc, Hab. Qed.

Lemma valid_ptr_grow refs refs' p : refs_grow refs refs' -> valid_ptr refs p -> valid_ptr refs' p.
Proof. intros Hg [Hu [->|Hp]]; (split; [done|]); [by left|right; by apply Hg]. Qed.

Lemma valid_null refs : valid_ptr refs 0.
Proof. split; [split; [done|unfold in_u; lia]|by left]. Qed.

Lemma untagged_mask p : untagged p -> Z.land p FUNCREF_MASK = p.
Proof.
  intros [He [H0 Hp]]. apply Z.bits_inj'. intros n Hn. rewrite Z.land_spec.
  change FUNCREF_MASK with (Z.ldiff (Z.ones 64) (Z.ones 1)). rewrite Z.ldiff_spec, !Z.testbit_ones_nonneg by lia.
  destruct (Z.ltb_spec n 1), (Z.ltb_spec n 64); cbn; rewrite ?andb_true_r, ?andb_false_r; try done; try lia.
  - replace n with 0 by lia. rewrite Z.bit0_odd, <- Z.negb_even, He. done.
  - symmetry. destruct (decide (p = 0)) as [->|Hne]; [by rewrite Z.testbit_0_l|].
    apply Z.bits_above_log2; [done|]. apply Z.log2_lt_pow2; [lia|].
    apply Z.lt_le_trans with (2 ^ 64); [done|]. by apply Z.pow_le_mono_r.
Qed.

Lemma tagged_mask p : untagged p -> Z.land (Z.lor p FUNCREF_INIT_BIT) FUNCREF_MASK = p.
Proof.
  intros Hu. rewrite Z.land_lor_distr_l, (untagged_mask _ Hu).
  change (Z.land FUNCREF_INIT_BIT FUNCREF_MASK) with 0. apply Z.lor_0_r.
Qed.

Lemma tagged_nonzero p : Z.lor p FUNCREF_INIT_BIT <> 0.
Proof. intros [_ H]%Z.lor_eq_0_iff. discriminate. Qed.

(** ** Slots *)

(** The image of a table as addresses, null where it ends. *)
Definition image_at (im : list Z) (j : nat) : Z := from_option id 0 (im !! j).

(** A lazy slot [q] and the eager slot [p] at position [j]; a table without image
    has no empty slots. *)
Definition slots_agree (refs : gmap Z VMFuncRef) (im : option (list Z)) (j : nat) (q p : Z) : Prop :=
  (q = 0 /\ exists im', im = Some im' /\ p = image_at im' j /\ untagged p) \/
  (q = Z.lor p FUNCREF_INIT_BIT /\ valid_ptr refs p).

Definition lists_agree (refs : gmap Z VMFuncRef) (im : option (list Z)) (l l' : list Z) : Prop :=
  length l = length l' /\ forall j q p, l !! j = Some q -> l' !! j = Some p -> slots_agree refs im j q p.

Definition tables_agree (refs : gmap Z VMFuncRef) (im : option (list Z)) (t t' : Table) : Prop :=
  (t = t' /\ element_type t = ElementGcRef) \/
  exists l l' m, table_repr t (AFunc l true m) /\ table_repr t' (AFunc l' false m) /\ lists_agree refs im l l'.

Lemma slot_untagged refs im j q p : slots_agree refs im j q p -> untagged p.
Proof. intros [(_ & im' & _ & _ & Hu)|[_ [Hu _]]]; done. Qed.

Lemma slots_agree_grow refs refs' im j q p : refs_grow refs refs' -> slots_agree refs im j q p -> slots_agree refs' im j q p.
Proof. intros Hg [Hs|[-> Hv]]; [by left|right]. split; [done|]. by eapply valid_ptr_grow. Qed.

Lemma tables_agree_grow refs refs' im t t' : refs_grow refs refs' -> tables_agree refs im t t' -> tables_agree refs' im t t'.
Proof.
  intros Hg [Ht|(l & l' & m & Ht & Ht' & Hn & Hl)]; [by left|right]. exists l, l', m. split_and!; [done..|].
  split; [done|]. intros. by eapply slots_agree_grow, Hl.
Qed.

Lemma tables_agree_type refs im t t' : tables_agree refs im t t' -> element_type t = element_type t'.
Proof.
  intros [[-> _]|(l & l' & m & Ht & Ht' & _)]; [done|]. by rewrite (repr_type _ _ Ht), (repr_type _ _ Ht').
Qed.

Lemma tables_agree_size {E} refs im t t' : tables_agree refs im t t' -> table_size (E:=E) t = table_size t'.
Proof.
  intros [[-> _]|(l & l' & m & Ht & Ht' & Hn & _)]; [done|].
  rewrite (repr_size _ _ Ht), (repr_size _ _ Ht'). cbn. by rewrite Hn.
Qed.

Lemma tables_agree_max {E} refs im t t' : tables_agree refs im t t' -> table_maximum (E:=E) t = table_maximum t'.
Proof.
  intros [[-> _]|(l & l' & m & Ht & Ht' & _ & _)]; [done|].
  by rewrite (repr_maximum _ _ Ht), (repr_maximum _ _ Ht').
Qed.

Lemma lists_agree_insert refs im l l' j q p :
  lists_agree refs im l l' -> slots_agree refs im j q p -> lists_agree refs im (<[j := q]> l) (<[j := p]> l').
Proof.
  intros [Hn Hl] Hs. split; [by rewrite !length_insert|]. intros j' q' p' Hq Hp.
  apply list_lookup_insert_Some in Hq as [(-> & -> & _)|[Hne Hq]], Hp as [(? & -> & _)|[Hne' Hp]]; try done. by apply Hl.
Qed.

(** Writing valid pointers over a part of the slots. *)
Lemma lists_agree_overwrite refs im l l' d items :
  lists_agree refs im l l' -> (d + length items <= length l)%nat -> Forall (valid_ptr refs) items ->
  lists_agree refs im (overwrite l d (map (fun p => tagged_from p true) items)) (overwrite l' d items).
Proof.
  intros [Hn Hl] Hd Hi. split; [rewrite !length_overwrite; rewrite ?length_map; lia|]. intros j q p.
  rewrite !overwrite_lookup by (rewrite ?length_map; lia). rewrite length_map. case_decide as Hj.
  - rewrite list_lookup_fmap. intros Hq Hp. rewrite Hp in Hq. cbn in Hq. injection Hq as <-. right. split; [done|].
    by eapply Forall_lookup_1.
  - intros Hq Hp. by apply Hl.
Qed.

Lemma agree_write {E} refs im t t' l l' m k k' :
  table_repr t (AFunc l true m) -> table_repr t' (AFunc l' false m) -> length k = length l -> length k' = length l' ->
  lists_agree refs im k k' -> agree (tables_agree refs im) (funcrefs_mut (E:=E) t k) (funcrefs_mut t' k').
Proof.
  intros Ht Ht' Hk Hk' Hl. destruct (repr_funcrefs_mut (E:=E) t l true m k Ht Hk) as (u & -> & Hu).
  destruct (repr_funcrefs_mut (E:=E) t' l' false m k' Ht' Hk') as (u' & -> & Hu'). cbn. right. by exists k, k', m.
Qed.

(** ** Operations on one table *)

(** The elements that the host and compiled code write. *)
Definition element_ok (refs : gmap Z VMFuncRef) (e : TableElement) : Prop :=
  match e with
  | FuncRef f => valid_ptr refs f
  | GcRefElement _ => True
  | UninitFunc => False
  end.

Lemma gc_funcrefs {E} t : element_type t = ElementGcRef -> funcrefs (E:=E) t = Panic.
Proof. by destruct t as [[]|[]]. Qed.

Lemma func_gc_refs {E} t : element_type t = ElementFunc -> gc_refs (E:=E) t = Panic.
Proof. by destruct t as [[]|[]]. Qed.

Lemma gc_refs_mut_type {E} t l u : gc_refs_mut (E:=E) t l = Ok u -> element_type u = ElementGcRef.
Proof. destruct t as [[]|[]]; cbn; intros [= <-]; done. Qed.

Lemma repr_func_type t l lz m : table_repr t (AFunc l lz m) -> element_type t = ElementFunc.
Proof. intros Ht. exact (repr_type _ _ Ht). Qed.

Section OneTable.
  Context {T H : Type} `{!GcHeap T H} (dbg : bool) (refs : gmap Z VMFuncRef) (im : option (list Z)).
  Implicit Types (s : GcStore T H) (t : Table).

Definition states_agree (x y : Table * GcStore T H) : Prop := tables_agree refs im x.1 y.1 /\ x.2 = y.2.

Lemma table_set_type t j e u : element_type t = ElementGcRef -> table_set t j e = Ok u -> element_type u = ElementGcRef.
Proof.
  intros Ht. destruct e; cbn; rewrite ?gc_funcrefs by done; cbn; try done. intros Hx.
  apply bind_Ok_inv in Hx as (l & _ & Hx). destruct (_ <? _); [|done]. by eapply gc_refs_mut_type.
Qed.

Lemma agree_set t t' j e :
  tables_agree refs im t t' -> element_ok refs e -> in_u 32 j ->
  agree (tables_agree refs im) (table_set t j e) (table_set t' j e).
Proof.
  intros Ht He Hj. destruct Ht as [[<- Hg]|(l & l' & m & Ht & Ht' & Hl)].
  { apply agree_refl. intros u Hu. left. split; [done|]. by eapply table_set_type. }
  destruct e as [f|r|]; cbn.
  - rewrite (repr_funcrefs _ _ _ _ Ht), (repr_funcrefs _ _ _ _ Ht'). cbn. destruct Hl as [Hn Hl]. rewrite <- Hn.
    destruct (_ <? _); [|done]. eapply agree_write; [done|done|by rewrite length_insert..|].
    apply lists_agree_insert; [done|]. by right.
  - by rewrite !func_gc_refs by (by eapply repr_func_type).
  - done.
Qed.

Lemma fill_type t s dst e n u s' : element_type t = ElementGcRef -> table_fill t s dst e n = Ok (u, s') -> element_type u = ElementGcRef.
Proof.
  intros Ht Hx. unfold table_fill in Hx. apply bind_Ok_inv in Hx as (? & _ & Hx). apply bind_Ok_inv in Hx as (? & _ & Hx).
  destruct (_ <? _); [done|]. destruct e; rewrite ?gc_funcrefs in Hx by done; try done.
  apply bind_Ok_inv in Hx as (? & _ & Hx). apply bind_Ok_inv in Hx as ([] & _ & Hx).
  apply bind_Ok_inv in Hx as (v & Hv & Hx). apply bind_Ok_inv in Hx as (? & _ & Hx). injection Hx as <- _.
  by eapply gc_refs_mut_type.
Qed.

Lemma map_replicate {A B} (f : A -> B) n x : map f (replicate n x) = replicate n (f x).
Proof. induction n as [|n IH]; [done|]. cbn. by rewrite IH. Qed.

Lemma agree_fill t t' s dst e n :
  tables_agree refs im t t' -> element_ok refs e -> in_u 32 dst -> in_u 32 n ->
  agree states_agree (table_fill t s dst e n) (table_fill t' s dst e n).
Proof.
  intros Ht He Hd Hn. destruct Ht as [[<- Hg]|(l & l' & m & Ht & Ht' & Hl)].
  { apply agree_refl. intros [u s'] Hu. split; [|done]. left. split; [done|]. by eapply fill_type. }
  pose proof Hl as [Hlen _].
  destruct (in_bounds (length l) dst n) eqn:Hb.
  2:{ rewrite (fill_start _ _ _ _ _ _ Ht Hd Hn Hb), (fill_start _ _ _ _ _ _ Ht' Hd Hn); [done|]. by rewrite <- Hb, Hlen. }
  destruct e as [f|r|]; [| |done].
  - destruct (fill_func_ok t s l true m dst n (FuncRef f) f Ht Hd Hn Hb ltac:(by left)) as (u & -> & Hu).
    rewrite Hlen in Hb. destruct (fill_func_ok t' s l' false m dst n (FuncRef f) f Ht' Hd Hn Hb ltac:(by left)) as (u' & -> & Hu').
    split; [|done]. right. eexists _, _, m. split; [exact Hu|]. split; [exact Hu'|].
    rewrite <- (map_replicate (fun p => tagged_from p true)). apply lists_agree_overwrite; [done| |by apply Forall_replicate].
    rewrite length_replicate. unfold in_bounds, in_u in *. apply Z.leb_le in Hb. lia.
  - unfold table_fill, checked. unfold in_u in *. rewrite in_ub_true by (unfold in_u; lia). cbn [ok_or mbind outcome_bind].
    rewrite (repr_size _ _ Ht), (repr_size _ _ Ht'). cbn [mbind outcome_bind a_length]. rewrite Hlen. destruct (_ <? _); [done|].
    by rewrite !func_gc_refs by (by eapply repr_func_type).
Qed.

Lemma agree_init_func t t' dst items :
  tables_agree refs im t t' -> Forall (valid_ptr refs) items -> in_u 32 dst ->
  agree (tables_agree refs im) (init_func t dst items) (init_func t' dst items).
Proof.
  intros Ht Hi Hd. unfold init_func. destruct Ht as [[<- Hg]|(l & l' & m & Ht & Ht' & Hl)].
  { by rewrite gc_funcrefs. }
  pose proof Hl as [Hlen _]. rewrite (repr_funcrefs _ _ _ _ Ht), (repr_funcrefs _ _ _ _ Ht'). cbn [mbind outcome_bind].
  rewrite <- Hlen, in_range_bounds by done. destruct (in_bounds _ _ _) eqn:Hb; [|done]. apply in_bounds_nat in Hb; [|done].
  assert (Hid : map (fun item => tagged_from item false) items = items) by apply map_id. rewrite Hid.
  eapply agree_write; [done|done| | |by apply lists_agree_overwrite]; apply length_overwrite; rewrite ?length_map; lia.
Qed.

Lemma agree_init_gc t t' dst items :
  tables_agree refs im t t' -> agree (tables_agree refs im) (init_gc_refs t dst items) (init_gc_refs t' dst items).
Proof.
  unfold init_gc_refs. intros [[<- Hg]|(l & l' & m & Ht & Ht' & _)].
  - apply agree_refl. intros u Hu. left. split; [done|]. apply bind_Ok_inv in Hu as (k & _ & Hu).
    destruct (in_range _ _ _); [|done]. by eapply gc_refs_mut_type.
  - by rewrite !func_gc_refs by (by eapply repr_func_type).
Qed.

(** *** Growing *)

Section Growing.
  Context {L : Type} `{!ResourceLimiter L}.

Definition grown_agree (x y : option Z * Table * GcStore T H) : Prop :=
  x.1.1 = y.1.1 /\ states_agree (x.1.2, x.2) (y.1.2, y.2).

Lemma grow_storage_type {E} t n u : grow_storage (E:=E) dbg t n = Ok u -> element_type u = element_type t.
Proof.
  destruct t as [[]|[]]; cbn; intros Hx; try by injection Hx as <-.
  all: apply bind_Ok_inv in Hx as ([] & _ & Hx); by injection Hx as <-.
Qed.

Lemma grow_to_size_type t s old n delta e o u s' :
  element_type t = ElementGcRef -> grow_to_size dbg t s old n delta e = Ok (o, u, s') -> element_type u = ElementGcRef.
Proof.
  intros Ht Hx. unfold grow_to_size in Hx. apply bind_Ok_inv in Hx as (? & _ & Hx). apply bind_Ok_inv in Hx as (u1 & Hu1 & Hx).
  apply bind_Ok_inv in Hx as ([u2 s2] & Hu2 & Hx). injection Hx as _ <- _.
  destruct (table_fill _ _ _ _ _) as [[u3 s3]|?|] eqn:Hf; try discriminate. injection Hu2 as <- <-.
  eapply fill_type; [|exact Hf]. by rewrite (grow_storage_type _ _ _ Hu1).
Qed.

Lemma agree_grow_to_size t t' s (old delta : nat) e :
  tables_agree refs im t t' -> table_size (E:=Empty_set) t = Ok (Z.of_nat old) -> element_ok refs e ->
  element_matches (element_type t) e = true -> Z.of_nat (old + delta) < 2 ^ 32 ->
  (forall max, table_maximum (E:=Empty_set) t = Ok (Some max) -> Z.of_nat (old + delta) <= max) ->
  agree grown_agree (grow_to_size dbg t s (Z.of_nat old) (Z.of_nat (old + delta)) (Z.of_nat delta) e)
    (grow_to_size dbg t' s (Z.of_nat old) (Z.of_nat (old + delta)) (Z.of_nat delta) e).
Proof.
  intros Ht Hs He Hm Hsz Hmax. unfold grow_to_size, type_matches. destruct Ht as [[<- Hg]|(l & l' & m & Ht & Ht' & Hl)].
  { apply agree_refl. intros [[o u] s'] Hx. split; [done|]. split; [|done]. left. split; [done|].
    eapply grow_to_size_type; [done|exact Hx]. }
  pose proof Hl as [Hlen _]. rewrite (repr_size _ _ Ht) in Hs. cbn [a_length] in Hs. injection Hs as Hs.
  apply Nat2Z.inj in Hs. subst old. rewrite (repr_maximum _ _ Ht) in Hmax. cbn [a_max] in Hmax.
  rewrite (repr_func_type _ _ _ _ Ht) in *. rewrite (repr_func_type _ _ _ _ Ht'), Hm.
  destruct e as [f|r|]; [|done|done]. rewrite !debug_assert_true by done. cbn [mbind outcome_bind].
  assert (Hfit : fits m (length l + delta)). { split; [lia|]. destruct m; [|done]. by apply Hmax. }
  destruct (grow_storage_ok dbg (E:=mem_error) t _ delta Ht Hfit) as (u & Hu & Hr). cbn [a_length] in Hu. rewrite Hu.
  rewrite Hlen in Hfit. destruct (grow_storage_ok dbg (E:=mem_error) t' _ delta Ht' Hfit) as (u' & Hu' & Hr').
  cbn [a_length] in Hu'. rewrite Hlen, Hu'. cbn [mbind outcome_bind a_extend] in *.
  assert (Hb : forall k : list Z, in_bounds (length (k ++ replicate delta 0%Z)) (Z.of_nat (length k)) (Z.of_nat delta) = true).
  { intros k. unfold in_bounds. apply Z.leb_le. rewrite length_app, length_replicate. lia. }
  assert (Hu32 : in_u 32 (Z.of_nat (length l)) /\ in_u 32 (Z.of_nat delta)) by (unfold in_u; lia). destruct Hu32 as [H1 H2].
  destruct (fill_func_ok u s _ true m (Z.of_nat (length l)) (Z.of_nat delta) (FuncRef f) f Hr H1 H2 (Hb l) ltac:(by left)) as (v & Hv & Hrv).
  rewrite Hlen in H1, Hv, Hrv.
  destruct (fill_func_ok u' s _ false m (Z.of_nat (length l')) (Z.of_nat delta) (FuncRef f) f Hr' H1 H2 (Hb l') ltac:(by left)) as (v' & Hv' & Hrv').
  rewrite Hv, Hv'. cbn. split; [done|]. split; [|done]. right. rewrite !Nat2Z.id in Hrv, Hrv'. rewrite <- Hlen in Hrv at 1.
  rewrite overwrite_extended in Hrv, Hrv'. eexists _, _, m. split; [exact Hrv|]. split; [exact Hrv'|].
  split; [by rewrite !length_app, !length_replicate, Hlen|]. intros j q p Hq Hp. destruct Hl as [_ Hl].
  apply lookup_app_Some in Hq as [Hq|[Hge Hq]], Hp as [Hp|[Hge' Hp]].
  - by apply Hl.
  - apply lookup_lt_Some in Hq. lia.
  - apply lookup_lt_Some in Hp. lia.
  - apply lookup_replicate in Hq as [-> _], Hp as [-> _]. by right.
Qed.

Lemma grow_failed_ok (lim : option L) t s err o u s' :
  snd (grow_failed lim t s err) = Ok (o, u, s') -> u = t.
Proof.
  unfold grow_failed. destruct (store_table_grow_failed lim err) as [l r]. cbn. intros Hx.
  apply bind_Ok_inv in Hx as (? & _ & Hx). by injection Hx as _ <- _.
Qed.

Lemma grow_type (lim : option L) t s delta e o u s' :
  element_type t = ElementGcRef -> snd (table_grow dbg lim t s delta e) = Ok (o, u, s') -> element_type u = ElementGcRef.
Proof.
  intros Ht. unfold table_grow. destruct (table_size t) as [old| |]; [|done|done].
  destruct (delta =? 0); [intros [= _ <- _]; done|].
  destruct (checked 32 (old + delta)) as [n|]; [|intros Hx; apply grow_failed_ok in Hx; by subst u].
  destruct (table_maximum t) as [max| |]; [|done|done].
  destruct (store_table_growing lim old n max) as [l [[]|err|]]; try done.
  - destruct (match max with Some m => m <? n | None => false end).
    + intros Hx. apply grow_failed_ok in Hx. by subst u.
    + cbn [snd]. intros Hx. by eapply grow_to_size_type.
  - intros [= _ <- _]. done.
Qed.

Lemma grow_failed_agree (lim : option L) t t' s err :
  tables_agree refs im t t' ->
  fst (grow_failed lim t s err) = fst (grow_failed lim t' s err) /\
  agree grown_agree (snd (grow_failed lim t s err)) (snd (grow_failed lim t' s err)).
Proof.
  intros Ht. unfold grow_failed. destruct (store_table_grow_failed lim err) as [l [[]|e|]]; by cbn.
Qed.

Lemma agree_grow (lim : option L) t t' s delta e :
  tables_agree refs im t t' -> element_ok refs e -> element_matches (element_type t) e = true -> in_u 32 delta ->
  fst (table_grow dbg lim t s delta e) = fst (table_grow dbg lim t' s delta e) /\
  agree grown_agree (snd (table_grow dbg lim t s delta e)) (snd (table_grow dbg lim t' s delta e)).
Proof.
  intros Ht He Hm Hd. destruct (decide (element_type t = ElementGcRef)) as [Hg|Hg].
  { destruct Ht as [[<- _]|(l & l' & m & Ht & _)]; [|by rewrite (repr_func_type _ _ _ _ Ht) in Hg].
    split; [done|]. apply agree_refl. intros [[o u] s'] Hx. split; [done|]. split; [|done]. left. split; [done|]. by eapply grow_type. }
  pose proof Ht as Hta. destruct Ht as [[_ Hg']|(l & l' & m & Ht & Ht' & Hl)]; [done|].
  unfold table_grow. rewrite <- (tables_agree_size _ _ _ _ Hta), (repr_size _ _ Ht). cbn [a_length].
  destruct (delta =? 0); [by cbn|]. unfold in_u in Hd.
  destruct (checked 32 (Z.of_nat (length l) + delta)) as [n|] eqn:Hc; [|by apply grow_failed_agree].
  apply checked_Some in Hc as [Hn ->]. unfold in_u in Hn.
  rewrite <- (tables_agree_max _ _ _ _ Hta), (repr_maximum _ _ Ht). cbn [a_max].
  destruct (store_table_growing lim _ _ m) as [l0 [[]|err|]]; [|by cbn..].
  destruct (match m with Some max => _ | None => false end) eqn:Hmax; [by apply grow_failed_agree|].
  split; [done|]. cbn [snd].
  replace (Z.of_nat (length l) + delta) with (Z.of_nat (length l + Z.to_nat delta)) in * by lia.
  replace delta with (Z.of_nat (Z.to_nat delta)) at 2 4 by lia.
  apply agree_grow_to_size; [done|by rewrite (repr_size _ _ Ht)|done|done|lia|].
  intros max. rewrite (repr_maximum _ _ Ht). cbn. intros [= ->]. apply Z.ltb_ge in Hmax. lia.
Qed.
End Growing.

(** *** Reading *)

Definition filled (l : list Z) (i n : nat) : Prop := forall j, (i <= j < i + n)%nat -> l !! j <> Some 0.

Definition table_filled (t : Table) (i n : nat) : Prop :=
  element_type t = ElementFunc -> exists l m, table_repr t (AFunc l true m) /\ filled l i n.

Lemma repr_func_unique t l lz m l' lz' m' :
  table_repr t (AFunc l lz m) -> table_repr t (AFunc l' lz' m') -> l = l' /\ lz = lz' /\ m = m'.
Proof.
  intros H1 H2. pose proof (repr_funcrefs (E:=Empty_set) _ _ _ _ H1) as H3.
  rewrite (repr_funcrefs _ _ _ _ H2) in H3. injection H3 as -> ->.
  pose proof (repr_maximum (E:=Empty_set) _ _ H1) as H3. rewrite (repr_maximum _ _ H2) in H3. by injection H3 as ->.
Qed.

Lemma agree_get {E} t t' s (j : nat) :
  tables_agree refs im t t' -> table_filled t j 1 ->
  agree (fun x y => x = y /\ match x.1 with Some e => element_ok refs e | None => True end)
    (table_get (E:=E) t s (Z.of_nat j)) (table_get t' s (Z.of_nat j)).
Proof.
  intros Ht Hf. unfold table_get. destruct Ht as [[<- Hg]|(l & l' & m & Ht & Ht' & Hn & Hl)].
  { rewrite Hg. apply agree_refl. intros [e s'] Hx. split; [done|]. apply bind_Ok_inv in Hx as (k & _ & Hx).
    destruct (k !! _) as [[r|]|]; [|by injection Hx as <- _..]. apply bind_Ok_inv in Hx as ([r' s1] & _ & Hx). by injection Hx as <- _. }
  rewrite (repr_func_type _ _ _ _ Ht), (repr_func_type _ _ _ _ Ht'), (repr_funcrefs _ _ _ _ Ht), (repr_funcrefs _ _ _ _ Ht').
  cbn [mbind outcome_bind agree]. rewrite Nat2Z.id.
  destruct (Hf (repr_func_type _ _ _ _ Ht)) as (l0 & m0 & H0 & Hfill).
  destruct (repr_func_unique _ _ _ _ _ _ _ Ht H0) as (<- & _ & _).
  destruct (l !! j) as [q|] eqn:Hq.
  2:{ apply lookup_ge_None in Hq. rewrite (lookup_ge_None_2 l' j) by lia. done. }
  destruct (lookup_lt_is_Some_2 l' j) as [p Hp]; [rewrite <- Hn; by eapply lookup_lt_Some|]. rewrite Hp.
  destruct (Hl j q p Hq Hp) as [[-> _]|[-> Hv]]; [exfalso; apply (Hfill j); [lia|done]|].
  cbn. unfold into_table_element. rewrite (proj2 (Z.eqb_neq _ _) (tagged_nonzero p)). cbn.
  destruct Hv as [Hu Hv]. by rewrite tagged_mask, untagged_mask.
Qed.
End OneTable.

(** *** Filling in slots *)

Section Filling.
  Context {T H : Type} `{!GcHeap T H} (oc : bool) (inst : Instance) (defined : nat).
  Implicit Types (s : GcStore T H) (t : Table) (refs : gmap Z VMFuncRef).

Lemma lazy_init_eager {E} t l m s refs i n :
  table_repr t (AFunc l false m) -> lazy_init_slots (E:=E) oc inst defined t s refs i n = Ok (t, s, refs).
Proof.
  intros Ht. revert i. induction n as [|n IH]; intros i; [done|]. cbn [lazy_init_slots]. unfold table_get.
  rewrite (repr_func_type _ _ _ _ Ht), (repr_funcrefs _ _ _ _ Ht). cbn [mbind outcome_bind].
  destruct (l !! _) as [q|]; cbn; [apply IH|done].
Qed.

(** The functions of the image [im] can be pointed to. *)
Definition image_ready (E : Type) (im : option (list Z)) : Prop :=
  forall im', im = Some im' ->
    exists pre, initial_values (table_initialization (i_module inst)) !! defined = Some (InitNull pre) /\
      forall (j : nat) refs, exists p refs',
        match pre !! j with Some f => get_func_ref (E:=E) oc inst refs f | None => Ok (None, refs) end = Ok (p, refs') /\
        unwrap_or_null p = image_at im' j /\ refs_grow refs refs' /\ valid_ptr refs' (unwrap_or_null p).

Lemma lazy_init_lazy {E} im t l l' m s refs (i n : nat) :
  image_ready E im -> table_repr t (AFunc l true m) -> lists_agree refs im l l' -> Z.of_nat (length l) < 2 ^ 32 ->
  exists t' refs' k, lazy_init_slots (E:=E) oc inst defined t s refs (Z.of_nat i) n = Ok (t', s, refs') /\
    refs_grow refs refs' /\ table_repr t' (AFunc k true m) /\ lists_agree refs' im k l' /\ filled k i n /\
    (forall j, k !! j = Some 0 -> l !! j = Some 0).
Proof.
  intros Him. revert t l refs i. induction n as [|n IH]; intros t l refs i Ht Hl Hlen.
  { exists t, refs, l. split_and!; try done. intros j Hj. lia. }
  cbn [lazy_init_slots]. unfold table_get at 1.
  rewrite (repr_func_type _ _ _ _ Ht), (repr_funcrefs _ _ _ _ Ht). cbn [mbind outcome_bind]. rewrite Nat2Z.id.
  destruct (l !! i) as [q|] eqn:Hq; cbn [fmap option_fmap option_map].
  2:{ exists t, refs, l. split_and!; try done. intros j Hj Hz. apply lookup_ge_None in Hq. apply lookup_lt_Some in Hz. lia. }
  replace (Z.of_nat i + 1) with (Z.of_nat (S i)) by lia.
  assert (Hstep : forall t1 refs1 l1, table_repr t1 (AFunc l1 true m) -> lists_agree refs1 im l1 l' -> refs_grow refs refs1 ->
    Z.of_nat (length l1) < 2 ^ 32 -> l1 !! i <> Some 0 -> (forall j, l1 !! j = Some 0 -> l !! j = Some 0) ->
    exists t' refs' k, lazy_init_slots (E:=E) oc inst defined t1 s refs1 (Z.of_nat (S i)) n = Ok (t', s, refs') /\
    refs_grow refs refs' /\ table_repr t' (AFunc k true m) /\ lists_agree refs' im k l' /\ filled k i (S n) /\
    (forall j, k !! j = Some 0 -> l !! j = Some 0)).
  { intros t1 refs1 l1 Ht1 Hl1 Hg Hlen1 Hi Hz. destruct (IH t1 l1 refs1 (S i) Ht1 Hl1 Hlen1) as (t' & refs' & k & He & Hg' & Hk & Ha & Hf & Hz').
    exists t', refs', k. split_and!; try done; [by etrans| |by auto].
    intros j Hj. destruct (decide (j = i)) as [->|]; [by intros Hx%Hz'|]. apply Hf. lia. }
  unfold into_table_element. cbn [andb]. destruct (Z.eqb_spec q 0) as [->|Hne]; cbn [is_uninit negb].
  2:{ apply (Hstep t refs l); try done; by rewrite ?Hq; congruence. }
  destruct (lookup_lt_is_Some_2 l' i) as [p Hp]; [rewrite <- (proj1 Hl); by eapply lookup_lt_Some|].
  destruct (proj2 Hl i 0 p Hq Hp) as [(_ & im' & Hi & Hpi & Hu)|[Hx _]]; [|by destruct (tagged_nonzero p)].
  destruct (Him im' Hi) as (pre & Hpre & Hget). rewrite Hpre. cbn [unwrap mbind outcome_bind].
  destruct (Hget i refs) as (o & refs1 & Hg & Ho & Hgr & Hv). rewrite Hg. cbn [mbind outcome_bind].
  assert (Hil : (i < length l)%nat) by (by eapply lookup_lt_Some). unfold table_set. rewrite (repr_funcrefs _ _ _ _ Ht).
  cbn [mbind outcome_bind]. rewrite (proj2 (Z.ltb_lt _ _)), Nat2Z.id by lia.
  destruct (repr_funcrefs_mut (E:=set_error) t l true m (<[i := tagged_from (unwrap_or_null o) true]> l) Ht (length_insert _ _ _)) as (t1 & -> & Ht1).
  cbn [unwrap_result mbind outcome_bind]. apply (Hstep t1 refs1 (<[i := tagged_from (unwrap_or_null o) true]> l)); try done.
  - split; [rewrite length_insert; apply Hl|]. intros j q' p' Hq' Hp'. apply list_lookup_insert_Some in Hq' as [(<- & <- & _)|[Hne Hq']].
    + right. simplify_eq. by rewrite Ho in *.
    + eapply slots_agree_grow; [exact Hgr|]. by apply Hl.
  - by rewrite length_insert.
  - rewrite list_lookup_insert_eq by done. intros [= Hx]. by destruct (tagged_nonzero (unwrap_or_null o)).
  - intros j Hj. apply list_lookup_insert_Some in Hj as [(_ & Hx & _)|[_ Hj]]; [|done]. by destruct (tagged_nonzero (unwrap_or_null o)).
Qed.
End Filling.

(** *** Copying *)

Section Copying.
  Context {T H : Type} `{!GcHeap T H} (refs : gmap Z VMFuncRef) (im im' : option (list Z)).
  Implicit Types (s : GcStore T H) (t : Table).

(** Copied slots do not depend on the image they came from. *)
Lemma lists_agree_copy l l' k k' d i n :
  lists_agree refs im l l' -> lists_agree refs im' k k' -> filled k i n ->
  (d + n <= length l)%nat -> (i + n <= length k)%nat ->
  lists_agree refs im (overwrite l d (take n (drop i k))) (overwrite l' d (take n (drop i k'))).
Proof.
  intros [Hn Hl] [Hm Hk] Hf Hd Hi. split; [rewrite !length_overwrite; rewrite ?length_copied; lia|]. intros j q p.
  rewrite !overwrite_lookup by (rewrite ?length_copied; lia). rewrite !length_copied by lia. case_decide as Hj.
  - rewrite !lookup_take_lt, !lookup_drop by lia. intros Hq Hp. right.
    destruct (Hk _ _ _ Hq Hp) as [[-> _]|Hr]; [|exact Hr]. exfalso. apply (Hf (i + (j - d))%nat); [lia|done].
  - by apply Hl.
Qed.

Definition copied_agree (x y : GcStore T H * Table) : Prop := x.1 = y.1 /\ tables_agree refs im x.2 y.2.

Lemma agree_copy_lists {E} s t t' l l' m k k' d i n :
  table_repr t (AFunc l true m) -> table_repr t' (AFunc l' false m) ->
  lists_agree refs im l l' -> lists_agree refs im' k k' -> filled k i n ->
  (d + n <= length l)%nat -> (i + n <= length k)%nat ->
  agree copied_agree (u ← funcrefs_mut (E:=E) t (overwrite l d (take n (drop i k))); Ok (s, u))
    (u ← funcrefs_mut t' (overwrite l' d (take n (drop i k'))); Ok (s, u)).
Proof.
  intros Ht Ht' Hl Hk Hf Hd Hi. pose proof (proj1 Hl). pose proof (proj1 Hk). eapply agree_bind.
  - eapply agree_write; [exact Ht|exact Ht'| | |by apply lists_agree_copy]; rewrite length_overwrite; rewrite ?length_copied; lia.
  - intros u u' _ _ Hu. by split.
Qed.

Lemma agree_copy_elements {E} s t t' u u' d i n :
  tables_agree refs im t t' -> tables_agree refs im' u u' -> table_filled u i n ->
  agree copied_agree (copy_elements (E:=E) s t u d i n) (copy_elements s t' u' d i n).
Proof.
  intros Ht Hu Hf. unfold copy_elements. destruct Ht as [[<- Hg]|(l & l' & m & Ht & Ht' & Hl)].
  - rewrite Hg. destruct Hu as [[<- Hg']|(k & k' & m' & Hu & Hu' & _)].
    + apply agree_refl. intros [s' v] Hx. split; [done|]. left. split; [done|].
      apply bind_Ok_inv in Hx as (? & _ & Hx). apply bind_Ok_inv in Hx as (? & _ & Hx).
      apply bind_Ok_inv in Hx as (? & _ & Hx). apply bind_Ok_inv in Hx as (? & _ & Hx).
      apply bind_Ok_inv in Hx as ([] & _ & Hx).
      apply bind_Ok_inv in Hx as (? & Hw & Hx). injection Hx as _ <-. by eapply gc_refs_mut_type.
    + destruct (gc_refs t) as [r|?|]; [|done|done]. cbn. by rewrite !func_gc_refs by (by eapply repr_func_type).
  - rewrite (repr_func_type _ _ _ _ Ht), (repr_func_type _ _ _ _ Ht'), (repr_funcrefs _ _ _ _ Ht), (repr_funcrefs _ _ _ _ Ht').
    cbn [mbind outcome_bind]. destruct Hu as [[<- Hg']|(k & k' & m' & Hu & Hu' & Hk)]; [by rewrite gc_funcrefs|].
    destruct (Hf (repr_func_type _ _ _ _ Hu)) as (k0 & m0 & H0 & Hfill).
    destruct (repr_func_unique _ _ _ _ _ _ _ Hu H0) as (<- & _ & _).
    rewrite (repr_funcrefs _ _ _ _ Hu), (repr_funcrefs _ _ _ _ Hu'). cbn [mbind outcome_bind].
    rewrite <- (proj1 Hl), <- (proj1 Hk). destruct (Nat.leb_spec (d + n) (length l)); [|done].
    destruct (Nat.leb_spec (i + n) (length k)); [|done]. cbn [assert_ mbind outcome_bind]. by eapply agree_copy_lists.
Qed.

End Copying.

Lemma agree_copy_within {T H E : Type} `{!GcHeap T H} refs im (s : GcStore T H) t t' d i n :
  tables_agree refs im t t' -> table_filled t i n ->
  agree (copied_agree refs im) (copy_elements_within (E:=E) s t d i n) (copy_elements_within s t' d i n).
Proof.
  intros Ht Hf. unfold copy_elements_within. destruct (Nat.eqb i d); [by split|].
  destruct Ht as [[<- Hg]|(l & l' & m & Ht & Ht' & Hl)].
  - rewrite Hg. apply agree_refl. intros [s' v] Hx. split; [done|]. left. split; [done|].
    apply bind_Ok_inv in Hx as (? & _ & Hx). apply bind_Ok_inv in Hx as ([] & _ & Hx).
    apply bind_Ok_inv in Hx as (? & Hw & Hx). injection Hx as _ <-. by eapply gc_refs_mut_type.
  - rewrite (repr_func_type _ _ _ _ Ht), (repr_func_type _ _ _ _ Ht'), (repr_funcrefs _ _ _ _ Ht), (repr_funcrefs _ _ _ _ Ht').
    cbn [mbind outcome_bind]. destruct (Hf (repr_func_type _ _ _ _ Ht)) as (l0 & m0 & H0 & Hfill).
    destruct (repr_func_unique _ _ _ _ _ _ _ Ht H0) as (<- & _ & _). rewrite <- (proj1 Hl).
    destruct (Nat.leb_spec (i + n) (length l)); [|done]. destruct (Nat.leb_spec d (length l - n)); [|done].
    cbn [assert_ mbind outcome_bind]. apply (agree_copy_lists refs im im s t t' l l' m l l'); try done; lia.
Qed.
