(* ===== verification/LazyWorld.v ===== *)
(** * Lazy initialisation of tables is not observable

    Two engines run the same program over tables, one with lazy initialisation and
    images of tables, one without.  [worlds_agree] relates their stores; every
    operation, instantiation among them, answers alike on both sides and keeps the
    relation. *)

From Stdlib Require Import ZArith Lia.
From stdpp Require Import base list gmap numbers option sets.
From S2P Require Import Prelude VmOffsets MemoryTypes Mappings LinearMemory MetadataSections GcRef Drc GcStore WasmTypes TypeMatching Tables TableOps ConstExpr TableInit LazyTables.
Open Scope Z_scope.

(** ** Instances *)

(** Modules that differ in the initialisation of their tables. *)
Record modules_agree (a b : Module) : Prop := {
  ma_imported_funcs : num_imported_funcs a = num_imported_funcs b;
  ma_functions : functions a = functions b;
  ma_imported_tables : TableInit.num_imported_tables a = TableInit.num_imported_tables b;
  ma_tables : table <$> table_plans a = table <$> table_plans b;
  ma_passive : passive_elements a = passive_elements b;
  ma_passive_map : passive_elements_map a = passive_elements_map b
}.

Definition set_module (inst : Instance) (m : Module) : Instance :=
  {| i_module := m; i_tables := i_tables inst; i_imported_tables := i_imported_tables inst;
     i_dropped_elements := i_dropped_elements inst; i_globals := i_globals inst; i_vmctx := i_vmctx inst;
     i_offsets := i_offsets inst; i_type_ids := i_type_ids inst; i_trampolines := i_trampolines inst;
     i_functions := i_functions inst; i_imported_functions := i_imported_functions inst |}.

Definition instances_agree (a b : Instance) : Prop := exists m, b = set_module a m /\ modules_agree (i_module a) m.

Lemma instances_agree_refl inst : instances_agree inst inst.
Proof. exists (i_module inst). split; [by destruct inst|by split]. Qed.

(** The context of an instance is laid out as its numbers say, at an even address. *)
Record context_placed (oc : bool) (inst : Instance) : Prop := {
  cp_layout : exists f, fields_ok f /\ exact_size f + 16 <= 2 ^ 32 /\ from (E:=Empty_set) oc f = Ok (i_offsets inst);
  cp_even : Z.even (i_vmctx inst) = true;
  cp_range : 0 < i_vmctx inst /\ i_vmctx inst + 2 ^ 32 <= 2 ^ 64;
  cp_refs : Forall (fun ft => in_u 32 (func_ref ft)) (functions (i_module inst))
}.

(** A function that escapes, with all that its [VMFuncRef] needs. *)
Definition func_valid (inst : Instance) (f : Z) : Prop :=
  f = reserved_value \/
  exists ft, functions (i_module inst) !! Z.to_nat f = Some ft /\
    0 <= func_ref ft < num_escaped_funcs (VmOffsets.fields (i_offsets inst)) /\ is_Some (i_type_ids inst !! signature ft) /\
    match defined_func_index (i_module inst) f with
    | Some d => (exists p, i_trampolines inst !! d = Some (Some p)) /\ is_Some (i_functions inst !! d)
    | None => is_Some (i_imported_functions inst !! Z.to_nat f)
    end.

Definition func_addr (inst : Instance) (f : Z) : Z :=
  if f =? reserved_value then 0
  else match functions (i_module inst) !! Z.to_nat f with
       | Some ft => i_vmctx inst + (offset (i_offsets inst) defined_func_refs +
                                    func_ref ft * size_of_vm_func_ref (ptr (VmOffsets.fields (i_offsets inst))))
       | None => 0
       end.

Section FuncRefs.
  Context (oc : bool).
  Implicit Types (inst a b : Instance) (refs : gmap Z VMFuncRef).

Lemma func_ref_offset {E} inst index :
  context_placed oc inst -> 0 <= index < num_escaped_funcs (VmOffsets.fields (i_offsets inst)) ->
  vmctx_func_ref (E:=E) oc (i_offsets inst) index =
    Ok (offset (i_offsets inst) defined_func_refs + index * size_of_vm_func_ref (ptr (VmOffsets.fields (i_offsets inst)))).
Proof.
  intros [(f & Hf & Hfit & Hfrom) _ _ _] Hi. destruct (from_exact (E:=Empty_set) oc f Hf Hfit) as (o & Ho & Hof & _ & Hoff).
  rewrite Hfrom in Ho. injection Ho as <-.
  change (vmctx_func_ref oc (i_offsets inst) index) with (a_get func_refs_array E oc (i_offsets inst) index).
  rewrite (get_ok oc func_refs_array f); try done; [by rewrite Hof|by apply list_elem_of_lookup_2 with 8%nat|by rewrite Hof in Hi].
Qed.

Lemma func_ref_untagged inst index :
  context_placed oc inst -> 0 <= index < num_escaped_funcs (VmOffsets.fields (i_offsets inst)) ->
  untagged (i_vmctx inst + (offset (i_offsets inst) defined_func_refs + index * size_of_vm_func_ref (ptr (VmOffsets.fields (i_offsets inst))))).
Proof.
  intros [(f & Hf & Hfit & Hfrom) He Hr _] Hi. destruct (from_exact (E:=Empty_set) oc f Hf Hfit) as (o & Ho & Hof & _ & Hoff).
  rewrite Hfrom in Ho. injection Ho as <-. rewrite Hof in *. rewrite Hoff.
  pose proof (exact_aligned f defined_func_refs Hf) as Ha. pose proof (exact_within f defined_func_refs Hf) as [Hw1 Hw2].
  pose proof (ptr_pos f Hf) as Hp. unfold region_size in Hw2. unfold size_of_vm_func_ref in *. split.
  - assert (Hev : Z.even (exact_offset f defined_func_refs) = true).
    { destruct (ok_ptr f Hf) as [Hz|Hz]; rewrite Hz in Ha; apply Z.mod_divide in Ha as [z ->]; try lia;
        rewrite Z.even_mul; by rewrite orb_true_r. }
    rewrite !Z.even_add, He, Hev, !Z.even_mul. change (Z.even 4) with true. rewrite orb_true_l, orb_true_r. done.
  - unfold in_u. assert (0 <= index * (4 * ptr f) <= num_escaped_funcs f * (4 * ptr f)) by nia. lia.
Qed.

Lemma get_func_ref_inv {E} inst refs f p refs' :
  context_placed oc inst -> get_func_ref (E:=E) oc inst refs f = Ok (p, refs') ->
  unwrap_or_null p = func_addr inst f /\ refs_grow refs refs' /\ valid_ptr refs' (unwrap_or_null p).
Proof.
  intros Hc. unfold get_func_ref, func_addr. destruct (f =? reserved_value).
  { intros [= <- <-]. split_and!; [done|done|apply valid_null]. }
  intros Hx. apply bind_Ok_inv in Hx as (ft & Hft & Hx). apply unwrap_Ok in Hft. rewrite Hft.
  apply bind_Ok_inv in Hx as (off & Hoff & Hx). apply bind_Ok_inv in Hx as (v & _ & Hx).
  injection Hx as <- <-. cbn [unwrap_or_null].
  assert (Hi : 0 <= func_ref ft < num_escaped_funcs (VmOffsets.fields (i_offsets inst))).
  { pose proof (Forall_lookup_1 _ _ _ _ (cp_refs _ _ Hc) Hft) as [Hu _]. split; [done|].
    unfold vmctx_func_ref, element in Hoff. destruct (func_ref ft =? u32_max); [done|]. cbn in Hoff.
    destruct (func_ref ft <? _) eqn:Hlt; [by apply Z.ltb_lt|done]. }
  rewrite (func_ref_offset _ _ Hc Hi) in Hoff. injection Hoff as <-. split_and!; [done| |].
  - intros q Hq. destruct (decide (q = i_vmctx inst + (offset (i_offsets inst) defined_func_refs +
      func_ref ft * size_of_vm_func_ref (ptr (VmOffsets.fields (i_offsets inst)))))) as [->|Hne];
      [by rewrite lookup_insert_eq|by rewrite lookup_insert_ne].
  - split; [by apply func_ref_untagged|]. right. by rewrite lookup_insert_eq.
Qed.

Lemma get_func_ref_ok {E} inst refs f :
  context_placed oc inst -> func_valid inst f -> exists p refs', get_func_ref (E:=E) oc inst refs f = Ok (p, refs').
Proof.
  intros Hc Hv. unfold get_func_ref. destruct (Z.eqb_spec f reserved_value) as [|Hne]; [by eauto|].
  destruct Hv as [|(ft & Hft & Hi & [ty Hty] & Hd)]; [done|]. rewrite Hft. cbn [unwrap mbind outcome_bind].
  rewrite (func_ref_offset _ _ Hc Hi). cbn [mbind outcome_bind]. unfold construct_func_ref. rewrite Hty. cbn [unwrap mbind outcome_bind].
  destruct (defined_func_index _ _) as [d|].
  - destruct Hd as [[p ->] [c ->]]. cbn. by eauto.
  - destruct Hd as [c ->]. cbn. by eauto.
Qed.

Lemma get_func_ref_agree {E} a b refs refs' f :
  instances_agree a b ->
  agree (fun x y => x.1 = y.1 /\ refs_grow refs x.2) (get_func_ref (E:=E) oc a refs f) (get_func_ref oc b refs' f).
Proof.
  intros (m & -> & Hm). unfold get_func_ref, construct_func_ref, defined_func_index. cbn.
  rewrite <- (ma_functions _ _ Hm), <- (ma_imported_funcs _ _ Hm). destruct (f =? reserved_value); [by split|].
  destruct (functions _ !! _) as [ft|]; [|done]. cbn [unwrap mbind outcome_bind].
  destruct (vmctx_func_ref _ _ _) as [off|?|]; [|done|done]. cbn [mbind outcome_bind].
  match goal with |- agree _ (?c ≫= _) _ => destruct c as [v|?|] end; [|done|done]. cbn. split; [done|].
  intros q Hq. destruct (decide (q = i_vmctx a + off)) as [->|Hne]; [by rewrite lookup_insert_eq|by rewrite lookup_insert_ne].
Qed.

Lemma func_ref_items_agree {E} a b refs refs' fs :
  instances_agree a b -> context_placed oc a ->
  agree (fun x y => x.1 = y.1 /\ refs_grow refs x.2 /\ Forall (valid_ptr x.2) x.1)
    (func_ref_items (E:=E) oc a refs fs) (func_ref_items oc b refs' fs).
Proof.
  intros Hab Hc. revert refs refs'. induction fs as [|f fs IH]; intros refs refs'; cbn [func_ref_items]; [by split_and!|].
  eapply agree_bind; [by apply (get_func_ref_agree a b refs refs')|]. intros [p r1] [p' r1'] Hx _ [[= <-] Hg].
  apply get_func_ref_inv in Hx as (_ & _ & Hv); [|done].
  eapply agree_bind; [apply (IH r1 r1')|]. intros [l r2] [l' r2'] _ _ ([= <-] & Hg2 & Hl). split; [done|]. split; [by etrans|].
  constructor; [|done]. by eapply valid_ptr_grow.
Qed.
End FuncRefs.

(** ** Constant expressions *)

(** Globals of functions hold pointers. *)
Definition globals_valid (refs : gmap Z VMFuncRef) (inst : Instance) : Prop :=
  forall g ty v, i_globals inst !! g = Some (ty, v) -> shape_of ty = ShFunc -> valid_ptr refs (v mod 2 ^ 64).

Section Exprs.
  Context {T H : Type} `{!GcHeap T H} (oc dbg : bool).
  Implicit Types (s : GcStore T H) (inst a b : Instance) (refs : gmap Z VMFuncRef).

Lemma eval_ops_agree a b refs refs' s stack ops :
  instances_agree a b ->
  agree (fun x y => x.1 = y.1 /\ refs_grow refs x.2)
    (eval_ops dbg (eval_context oc a) s refs stack ops) (eval_ops dbg (eval_context oc b) s refs' stack ops).
Proof.
  intros Hab. revert refs refs' s stack. induction ops as [|op ops IH]; intros refs refs' s stack; cbn [eval_ops]; [by split|].
  apply agree_bind with (Q := fun x y => x.1 = y.1 /\ refs_grow refs x.2).
  - destruct op as [i|i|f|f|v|g| | |f]; cbn [eval_op]; try by split.
    + assert (Hg : global_get (eval_context oc a) s g = global_get (eval_context oc b) s g) by (destruct Hab as (m & -> & _); done).
      rewrite Hg. destruct (global_get (eval_context oc b) s g) as [[v s']|?|]; done.
    + destruct (pop stack) as [[v st]|?|]; [|done|done]. cbn [mbind outcome_bind].
      destruct (from_i31 _ _); done.
    + unfold ref_func. cbn [eval_context ctx_func_ref]. pose proof (get_func_ref_agree oc (E:=const_error) a b refs refs' f Hab) as Hf.
      destruct (get_func_ref oc a refs f) as [[p r]|?|], (get_func_ref oc b refs' f) as [[p' r']|?|]; cbn in Hf |- *; try done.
      destruct Hf as [<- Hg]. by destruct p.
  - intros [[st1 s1] r1] [[st2 s2] r2] _ _ [[= <- <-] Hg]. eapply agree_weaken; [apply (IH r1 r2)|].
    intros x y _ _ [Hx Hg2]. split; [done|]. cbn in Hg. by etrans.
Qed.

Lemma eval_agree {E} a b refs refs' s e :
  instances_agree a b ->
  agree (fun x y => x.1 = y.1 /\ refs_grow refs x.2) (eval_expr (E:=E) oc dbg a s refs e) (eval_expr oc dbg b s refs' e).
Proof.
  intros Hab. apply agree_unwrap_result. unfold const_eval. eapply agree_bind; [by apply eval_ops_agree|].
  intros [[st1 s1] r1] [[st2 s2] r2] _ _ [[= <- <-] Hg]. destruct st1 as [|v [|]]; done.
Qed.

Definition stack_valid refs (stack : list ValRaw) (shs : list shape) : Prop :=
  Forall2 (fun v sh => sh = ShFunc -> valid_ptr refs v) stack shs.

Lemma stack_valid_grow refs refs' stack shs : refs_grow refs refs' -> stack_valid refs stack shs -> stack_valid refs' stack shs.
Proof. intros Hg Hs. eapply Forall2_impl; [exact Hs|]. intros v sh Hv Hsh. by eapply valid_ptr_grow, Hv. Qed.

Lemma globals_valid_grow refs refs' inst : refs_grow refs refs' -> globals_valid refs inst -> globals_valid refs' inst.
Proof. intros Hg Hv g ty v Hl Hs. by eapply valid_ptr_grow, Hv. Qed.

Lemma eval_op_valid inst refs s stack shs op null stack' s' refs' shs' :
  context_placed oc inst -> globals_valid refs inst -> stack_valid refs stack shs ->
  check_op (i_globals inst).*1 null shs op = Some shs' ->
  eval_op dbg (eval_context oc inst) s refs stack op = Ok (stack', s', refs') ->
  stack_valid refs' stack' shs' /\ refs_grow refs refs'.
Proof.
  intros Hc Hg Hs Hch Hx.
  assert (Hpush : forall v sh, (sh = ShFunc -> valid_ptr refs v) -> stack_valid refs (v :: stack) (sh :: shs)) by (intros; by constructor).
  destruct op as [i|i|f|f|v|g| | |f]; cbn [eval_op check_op] in Hx, Hch; try destruct (in_ub _ _); try discriminate.
  - injection Hx as <- <- <-. injection Hch as <-. split; [by apply Hpush|done].
  - injection Hx as <- <- <-. injection Hch as <-. split; [by apply Hpush|done].
  - injection Hx as <- <- <-. injection Hch as <-. split; [by apply Hpush|done].
  - injection Hx as <- <- <-. injection Hch as <-. split; [by apply Hpush|done].
  - injection Hx as <- <- <-. injection Hch as <-. split; [by apply Hpush|done].
  - apply bind_Ok_inv in Hx as ([v s1] & Hv & Hx). injection Hx as <- <- <-. split; [|done].
    unfold global_get in Hv. cbn [eval_context ctx_globals] in Hv. apply bind_Ok_inv in Hv as ([ty w] & Hl & Hv). apply unwrap_Ok in Hl.
    rewrite list_lookup_fmap, Hl in Hch. cbn in Hch. injection Hch as <-. apply Hpush. intros Hsh. specialize (Hg g ty w Hl Hsh).
    destruct ty as [| | | | |r]; cbn in Hsh, Hv; try discriminate. destruct (top _); try discriminate. by injection Hv as <- _.
  - apply bind_Ok_inv in Hx as ([v st] & Hp & Hx). apply bind_Ok_inv in Hx as (r & _ & Hx). injection Hx as <- <- <-.
    split; [|done]. destruct shs as [|[] shs]; try discriminate. injection Hch as <-. inversion Hs as [|? ? st0 ? _ Hs0]; subst.
    injection Hp as <- <-. by constructor.
  - injection Hx as <- <- <-. injection Hch as <-. split; [|done]. apply Hpush. intros _. apply valid_null.
  - apply bind_Ok_inv in Hx as ([v r] & Hv & Hx). injection Hx as <- <- <-. injection Hch as <-. unfold ref_func in Hv.
    cbn [eval_context ctx_func_ref] in Hv. apply bind_Ok_inv in Hv as ([p r'] & Hp & Hv). apply bind_Ok_inv in Hv as (q & Hq & Hv).
    apply unwrap_Ok in Hq. injection Hv as <- <-. subst p. apply get_func_ref_inv in Hp as (_ & Hgr & Hv); [|done].
    split; [|done]. constructor; [done|]. by eapply stack_valid_grow.
Qed.

Lemma eval_ops_valid inst refs s stack shs ops null stack' s' refs' shs' :
  context_placed oc inst -> globals_valid refs inst -> stack_valid refs stack shs ->
  check_ops (i_globals inst).*1 null shs ops = Some shs' ->
  eval_ops dbg (eval_context oc inst) s refs stack ops = Ok (stack', s', refs') -> stack_valid refs' stack' shs'.
Proof.
  intros Hc. revert refs s stack shs. induction ops as [|op ops IH]; intros refs s stack shs Hg Hs Hch Hx; cbn [check_ops eval_ops] in Hch, Hx.
  { by simplify_eq. }
  destruct (check_op _ null shs op) as [shs1|] eqn:H1; [|done]. cbn [mbind option_bind] in Hch.
  apply bind_Ok_inv in Hx as ([[st1 s1] r1] & He & Hx).
  destruct (eval_op_valid _ _ _ _ _ _ _ _ _ _ _ Hc Hg Hs H1 He) as [Hs1 Hgr].
  eapply IH; [by eapply globals_valid_grow|exact Hs1|exact Hch|exact Hx].
Qed.

Lemma eval_valid {E} inst refs s e v s' refs' :
  context_placed oc inst -> globals_valid refs inst -> check_expr (i_globals inst).*1 e ShFunc = true ->
  eval_expr (E:=E) oc dbg inst s refs e = Ok (v, s', refs') -> valid_ptr refs' (raw_get_funcref v).
Proof.
  intros Hc Hg Hch%bool_decide_eq_true Hx. unfold eval_expr, const_eval in Hx.
  destruct (eval_ops _ _ _ _ _ _) as [[[st s1] r1]|?|] eqn:He; try discriminate. cbn [mbind outcome_bind] in Hx.
  destruct st as [|v0 [|]]; try discriminate. cbn in Hx. injection Hx as <- <- <-.
  eapply eval_ops_valid in He; [|done|done|by constructor|exact Hch]. inversion He as [|? ? ? ? Hv _]; subst.
  specialize (Hv eq_refl). unfold raw_get_funcref. rewrite Z.mod_small; [done|]. apply Hv.
Qed.

Lemma eval_items_agree {E A} (f : ValRaw -> A) a b refs refs' s es :
  instances_agree a b ->
  agree (fun x y => x.1 = y.1 /\ x.2.1 = y.2.1 /\ refs_grow refs x.2.2)
    (eval_items (E:=E) oc dbg a s refs f es) (eval_items oc dbg b s refs' f es).
Proof.
  intros Hab. revert refs refs' s. induction es as [|e es IH]; intros refs refs' s; cbn [eval_items]; [done|].
  eapply agree_bind; [by apply (eval_agree a b refs refs')|]. intros [[v s1] r1] [[v' s1'] r1'] _ _ [[= <- <-] Hg].
  eapply agree_bind; [apply (IH r1 r1')|]. intros [l [s2 r2]] [l' [s2' r2']] _ _ (Hl & Hs & Hg2). cbn in *. subst.
  split_and!; [done|done|by etrans].
Qed.

Lemma eval_items_valid {E} inst refs s es l s' refs' :
  context_placed oc inst -> globals_valid refs inst -> Forall (fun e => check_expr (i_globals inst).*1 e ShFunc = true) es ->
  eval_items (E:=E) oc dbg inst s refs raw_get_funcref es = Ok (l, (s', refs')) -> Forall (valid_ptr refs') l.
Proof.
  intros Hc Hg Hes. revert refs s l Hg. induction Hes as [|e es He Hes IH]; intros refs s l Hg Hx; cbn [eval_items] in Hx.
  { by injection Hx as <- _ _. }
  apply bind_Ok_inv in Hx as ([[v s1] r1] & Hv & Hx). apply bind_Ok_inv in Hx as ([k [s2 r2]] & Hk & Hx). injection Hx as <- <- <-.
  pose proof (eval_agree (E:=E) inst inst refs refs s e) as Ha. rewrite Hv in Ha. cbn in Ha.
  pose proof (instances_agree_refl inst) as Hii.
  destruct (Ha Hii) as [_ Hgr].
  pose proof (eval_items_agree (E:=E) raw_get_funcref inst inst r1 r1 s1 es Hii) as Hb. rewrite Hk in Hb. destruct Hb as (_ & _ & Hgr2).
  cbn in Hgr, Hgr2. constructor; [|eapply (IH r1); [exact (globals_valid_grow _ _ _ Hgr Hg)|exact Hk]].
  eapply valid_ptr_grow; [exact Hgr2|]. eapply eval_valid; [done|exact Hg|exact He|exact Hv].
Qed.
End Exprs.

(** ** Stores *)

Definition image_of (inst : Instance) (defined : nat) : option (list Z) :=
  match initial_values (table_initialization (i_module inst)) !! defined with
  | Some (InitNull pre) => Some (func_addr inst <$> pre)
  | _ => None
  end.

(** The functions of the images of an instance are there. *)
Definition images_valid (inst : Instance) : Prop :=
  forall d pre f, initial_values (table_initialization (i_module inst)) !! d = Some (InitNull pre) -> f ∈ pre -> func_valid inst f.

Section Worlds.
  Context {T H L : Type} `{!GcHeap T H} `{!ResourceLimiter L} (oc dbg : bool).
  Implicit Types (w v : World T H L) (s : GcStore T H) (live : list nat) (img : nat -> option (list Z)).

(** [live] are the instances whose tables can be reached: all but those whose
    segments were found not to fit before they were initialised. *)
Record worlds_agree live img w w' : Prop := {
  wa_instances : Forall2 instances_agree (w_instances w) (w_instances w');
  wa_store : w_store w = w_store w';
  wa_limits : w_limits w = w_limits w';
  wa_length : length (w_tables w) = length (w_tables w');
  wa_tables k t t' : w_tables w !! k = Some t -> w_tables w' !! k = Some t' -> tables_agree (w_func_refs w) (img k) t t';
  wa_ok i inst : w_instances w !! i = Some inst -> context_placed oc inst /\ globals_valid (w_func_refs w) inst;
  wa_live i inst : i ∈ live -> w_instances w !! i = Some inst ->
    images_valid inst /\ (forall d k, i_tables inst !! d = Some k -> img k = image_of inst d /\ (k < length (w_tables w))%nat) /\
    Forall (fun x => x.1 ∈ live) (i_imported_tables inst);
  wa_bound : Forall (fun i => (i < length (w_instances w))%nat) live
}.

Definition answers {E A} live img (x y : World T H L * outcome E A) : Prop :=
  match x.2, y.2 with
  | Ok a, Ok b => a = b /\ worlds_agree live img x.1 y.1
  | Err e, Err e' => e = e' /\ worlds_agree live img x.1 y.1
  | Panic, Panic => True
  | _, _ => False
  end.

Lemma answers_commit {E A} live img w w' (m m' : outcome E (A * World T H L)) :
  worlds_agree live img w w' -> agree (fun x y => x.1 = y.1 /\ worlds_agree live img x.2 y.2) m m' ->
  answers live img (commit w m) (commit w' m').
Proof. intros Hw Hm. destruct m as [[]|?|], m' as [[]|?|]; cbn in Hm |- *; by try destruct Hm. Qed.

Lemma answers_stored {E} live img w w' (m m' : outcome E (World T H L)) :
  worlds_agree live img w w' -> agree (worlds_agree live img) m m' ->
  answers live img (commit w (stored m)) (commit w' (stored m')).
Proof. intros Hw Hm. apply answers_commit; [done|]. eapply agree_bind; [exact Hm|]. by intros. Qed.

Lemma answers_with_ok {E A A' B} (Q : A -> A' -> Prop) live img w w' (m : outcome Empty_set A) m' (f : A -> _ * outcome E B) g :
  agree Q m m' -> (forall a b, m = Ok a -> m' = Ok b -> Q a b -> answers live img (f a) (g b)) ->
  answers live img (with_ok w m f) (with_ok w' m' g).
Proof. intros Hm Hf. destruct m, m'; cbn in Hm |- *; try done. by apply Hf. Qed.

(** *** Finding tables *)

Section Lookup.
  Context (live : list nat) (img : nat -> option (list Z)) (w w' : World T H L) (Hw : worlds_agree live img w w').

Definition same_instance (i : nat) (a b : Instance) : Prop :=
  instances_agree a b /\ w_instances w !! i = Some a /\ w_instances w' !! i = Some b.

Lemma agree_instance {E} i : agree (same_instance i) (get_instance (E:=E) w i) (get_instance w' i).
Proof using Hw.
  unfold get_instance. destruct (w_instances w !! i) as [a|] eqn:Ha.
  - destruct (Forall2_lookup_l _ _ _ _ _ (wa_instances _ _ _ _ Hw) Ha) as (b & Hb & Hab). by rewrite Hb.
  - apply lookup_ge_None in Ha. rewrite (Forall2_length _ _ _ (wa_instances _ _ _ _ Hw)) in Ha.
    by rewrite (lookup_ge_None_2 _ _ Ha).
Qed.

Lemma agree_defined_index {E} i index :
  agree (fun x y => x = y /\ (i ∈ live -> x.1 ∈ live))
    (with_defined_table_index (E:=E) w i index) (with_defined_table_index w' i index).
Proof using Hw.
  eapply agree_bind; [apply agree_instance|]. intros a b _ _ ((m & -> & Hm) & Ha & Hb).
  unfold defined_table_index. cbn. rewrite <- (ma_imported_tables _ _ Hm). destruct (defined_index _ _); [done|].
  apply agree_refl. intros x Hx. apply unwrap_Ok in Hx. split; [done|]. intros Hi.
  destruct (wa_live _ _ _ _ Hw i a Hi Ha) as (_ & _ & Hf). by eapply (Forall_lookup_1 _ _ _ _ Hf).
Qed.

Definition same_table (x y : nat * Table) : Prop :=
  x.1 = y.1 /\ w_tables w !! x.1 = Some x.2 /\ w_tables w' !! y.1 = Some y.2 /\
  tables_agree (w_func_refs w) (img x.1) x.2 y.2.

Lemma agree_defined_table {E} i d : agree same_table (get_defined_table (E:=E) w i d) (get_defined_table w' i d).
Proof using Hw.
  eapply agree_bind; [apply agree_instance|]. intros a b _ _ ((m & -> & Hm) & Ha & Hb). cbn.
  destruct (i_tables a !! d) as [k|]; [|done]. cbn [unwrap mbind outcome_bind].
  destruct (w_tables w !! k) as [t|] eqn:Ht.
  - destruct (lookup_lt_is_Some_2 (w_tables w') k) as [t' Ht'].
    { rewrite <- (wa_length _ _ _ _ Hw). by eapply lookup_lt_Some. }
    rewrite Ht'. cbn. split_and!; try done. by eapply wa_tables.
  - apply lookup_ge_None in Ht. rewrite (wa_length _ _ _ _ Hw) in Ht. by rewrite (lookup_ge_None_2 _ _ Ht).
Qed.

Lemma agree_table {E} i index : agree same_table (get_table (E:=E) w i index) (get_table w' i index).
Proof using Hw.
  eapply agree_bind; [apply agree_defined_index|]. intros [o d] [o' d'] _ _ [[= <- <-] _]. apply agree_defined_table.
Qed.

(** *** Changes *)

Lemma agree_with_table k t t' s refs refs' :
  refs_grow (w_func_refs w) refs -> tables_agree refs (img k) t t' ->
  worlds_agree live img (with_table w k t s refs) (with_table w' k t' s refs').
Proof using Hw.
  intros Hg Ht. destruct Hw as [Hi Hs Hl Hn Htab Hok Hlive Hbd]. split; cbn; try done; [by rewrite !length_insert| | |].
  - intros j u u' Hu Hu'. apply list_lookup_insert_Some in Hu as [(<- & <- & _)|[Hne Hu]], Hu' as [(? & <- & _)|[? Hu']]; try done.
    by eapply tables_agree_grow, Htab.
  - intros i inst Hin. destruct (Hok i inst Hin). split; [done|]. by eapply globals_valid_grow.
  - by rewrite length_insert.
Qed.

Lemma agree_with_state s refs refs' :
  refs_grow (w_func_refs w) refs -> worlds_agree live img (with_state w s refs) (with_state w' s refs').
Proof using Hw.
  intros Hg. destruct Hw as [Hi Hs Hl Hn Htab Hok Hlive Hbd]. split; cbn; try done.
  - intros j u u' Hu Hu'. by eapply tables_agree_grow, Htab.
  - intros i inst Hin. destruct (Hok i inst Hin). split; [done|]. by eapply globals_valid_grow.
Qed.

Lemma agree_with_limits l : worlds_agree live img (with_limits w l) (with_limits w' l).
Proof using Hw. destruct Hw as [Hi Hs Hl Hn Htab Hok Hlive Hbd]. by split. Qed.
End Lookup.


(** *** Reading *)

Lemma image_is_ready E inst d :
  context_placed oc inst -> images_valid inst -> image_ready oc inst d E (image_of inst d).
Proof.
  intros Hc Hv im' Him. unfold image_of in Him.
  destruct (initial_values _ !! d) as [[pre|]|] eqn:Hd; try discriminate. injection Him as <-. exists pre. split; [done|].
  intros j refs. unfold image_at. rewrite list_lookup_fmap. destruct (pre !! j) as [f|] eqn:Hj; cbn.
  - destruct (get_func_ref_ok (E:=E) oc inst refs f Hc) as (p & refs' & Hg); [by eapply Hv, list_elem_of_lookup_2|].
    exists p, refs'. pose proof (get_func_ref_inv oc _ _ _ _ _ Hc Hg) as (H1 & H2 & H3). done.
  - exists None, refs. split_and!; try done. apply valid_null.
Qed.

Definition filled_at w i d (start n : nat) : Prop :=
  forall k t, get_defined_table (E:=Empty_set) w i d = Ok (k, t) -> table_filled t start n.

Definition same_instances w v : Prop := w_instances v = w_instances w.

Definition lazily w w' live img i d (start n : nat) v v' : Prop :=
  worlds_agree live img v v' /\ same_instances w v /\ same_instances w' v' /\ refs_grow (w_func_refs w) (w_func_refs v) /\
  filled_at v i d start n.

Lemma get_defined_inv {E} w i d k t :
  get_defined_table (E:=E) w i d = Ok (k, t) <->
  exists inst, w_instances w !! i = Some inst /\ i_tables inst !! d = Some k /\ w_tables w !! k = Some t.
Proof.
  unfold get_defined_table, get_instance. split.
  - intros Hx. apply bind_Ok_inv in Hx as (inst & Hi & Hx). apply bind_Ok_inv in Hx as (k' & Hk & Hx).
    apply bind_Ok_inv in Hx as (t' & Ht & Hx). injection Hx as -> ->. apply unwrap_Ok in Hi, Hk, Ht. by exists inst.
  - intros (inst & -> & Hk & Ht). cbn. rewrite Hk. cbn. by rewrite Ht.
Qed.

Lemma agree_lazy_init {E} live img w w' i d (start n : nat) :
  worlds_agree live img w w' -> i ∈ live ->
  agree (lazily w w' live img i d start n)
    (get_defined_table_with_lazy_init (E:=E) oc w i d (Z.of_nat start) n)
    (get_defined_table_with_lazy_init oc w' i d (Z.of_nat start) n).
Proof.
  intros Hw Hi. eapply agree_bind; [by eapply agree_instance|]. intros a b _ _ (Hab & Ha & Hb).
  eapply agree_bind; [by eapply agree_defined_table|]. intros [k t] [k' t'] Hx _ (Hk & Ht & Ht' & Hta). cbn in Hk, Ht, Ht', Hta. subst k'.
  rewrite <- (tables_agree_type _ _ _ _ Hta).
  apply get_defined_inv in Hx as (a' & Ha' & Hka & _). simplify_eq.
  destruct (wa_live _ _ _ _ Hw i a Hi Ha) as (Hv & Hd & _). destruct (wa_ok _ _ _ _ Hw i a Ha) as [Hc Hg].
  destruct (element_type t) eqn:Hty.
  2:{ cbn. split; [done|]. split; [done|]. split; [done|]. split; [done|]. intros k2 t2 Hx. apply get_defined_inv in Hx as (a2 & Ha2 & Hk2 & Ht2). simplify_eq.
      unfold table_filled. by rewrite Hty. }
  destruct Hta as [[_ Hg']|(l & l' & m & Hr & Hr' & Hl)]; [by rewrite Hg' in Hty|].
  rewrite (lazy_init_eager oc b d t' l' m _ _ _ _ Hr').
  pose proof (repr_fits _ _ Hr) as [Hf _]. cbn in Hf.
  rewrite (proj1 (Hd _ _ Hka)) in Hl.
  destruct (lazy_init_lazy oc a d (E:=E) (image_of a d) t l l' m (w_store w) (w_func_refs w) start n) as (t1 & r1 & l1 & He & Hgr & Hr1 & Hl1 & Hf1 & _);
    [by apply image_is_ready|done|done|done|].
  rewrite He. cbn [mbind outcome_bind agree]. rewrite <- (wa_store _ _ _ _ Hw). split_and!.
  - apply agree_with_table; [done|done|]. rewrite (proj1 (Hd _ _ Hka)). right. by exists l1, l', m.
  - done.
  - done.
  - done.
  - intros k2 t2 Hx. apply get_defined_inv in Hx as (a2 & Ha2 & Hk2 & Ht2). cbn in Ha2, Ht2. simplify_eq.
    rewrite list_lookup_insert_eq in Ht2 by (by eapply lookup_lt_Some). simplify_eq. intros _. by exists l1, m.
Qed.

(** An element or a pointer that is handed out is a valid one. *)
Definition handed_out {A} (ok : gmap Z VMFuncRef -> A -> Prop) live img (x y : A * World T H L) : Prop :=
  x.1 = y.1 /\ worlds_agree live img x.2 y.2 /\ ok (w_func_refs x.2) x.1.

Definition element_ready (refs : gmap Z VMFuncRef) (e : option TableElement) : Prop :=
  match e with Some e => element_ok refs e | None => True end.

Lemma answers_handed_out {E A} ok live img w w' (m m' : outcome E (A * World T H L)) :
  worlds_agree live img w w' -> agree (handed_out ok live img) m m' -> answers live img (commit w m) (commit w' m').
Proof. intros Hw Hm. apply answers_commit; [done|]. eapply agree_weaken; [exact Hm|]. by intros x y _ _ (? & ? & _). Qed.

Lemma agree_host_get live img w w' i d (j : nat) :
  worlds_agree live img w w' -> i ∈ live ->
  agree (handed_out element_ready live img) (host_table_get oc w i d (Z.of_nat j)) (host_table_get oc w' i d (Z.of_nat j)).
Proof.
  intros Hw Hi. eapply agree_bind; [by apply agree_lazy_init|].
  intros v v' _ _ (Hv & _ & _ & _ & Hf). eapply agree_bind; [by eapply agree_defined_table|].
  intros [k t] [k' t'] Hx _ (Hk & Ht & Ht' & Hta). cbn in Hk, Ht, Ht', Hta. subst k'.
  rewrite <- (wa_store _ _ _ _ Hv). eapply agree_bind; [apply (agree_get (w_func_refs v) (img k)); [done|by eapply Hf]|].
  intros [e s] [e' s'] _ _ [[= <- <-] He]. cbn in He. destruct e as [[]|]; cbn; try done; (split; [done|]); (split; [by apply agree_with_state|done]).
Qed.

Lemma answers_host_set live img w w' i d j e :
  worlds_agree live img w w' -> i ∈ live -> in_u 32 j -> element_ok (w_func_refs w) e ->
  answers live img (commit w (stored (host_table_set oc w i d j e))) (commit w' (stored (host_table_set oc w' i d j e))).
Proof.
  intros Hw Hi Hj He. apply answers_stored; [done|]. eapply agree_bind; [by apply (agree_lazy_init live img w w' i d 0 0)|].
  intros v v' _ _ (Hv & _ & _ & Hg & _). eapply agree_bind; [by eapply agree_defined_table|].
  intros [k t] [k' t'] Hx _ (Hk & Ht & Ht' & Hta). cbn in Hk, Ht, Ht', Hta. subst k'.
  eapply agree_bind; [apply (agree_set (w_func_refs v) (img k)); [done| |done]|].
  { destruct e; [by eapply valid_ptr_grow|done|done]. }
  intros u u' _ _ Hu. cbn. rewrite <- (wa_store _ _ _ _ Hv). by apply agree_with_table.
Qed.

Definition with_index_lazily w w' live img i index (start n : nat) v v' : Prop :=
  worlds_agree live img v v' /\ same_instances w v /\ same_instances w' v' /\ refs_grow (w_func_refs w) (w_func_refs v) /\
  forall k t, get_table (E:=Empty_set) v i index = Ok (k, t) -> table_filled t start n.

Lemma defined_index_same {E} w v i index :
  same_instances w v -> with_defined_table_index (E:=E) v i index = with_defined_table_index w i index.
Proof. intros Hs. unfold with_defined_table_index, get_instance. by rewrite Hs. Qed.

Lemma agree_index_lazy_init {E} live img w w' i index (start n : nat) :
  worlds_agree live img w w' -> i ∈ live ->
  agree (with_index_lazily w w' live img i index start n)
    (get_table_with_lazy_init (E:=E) oc w i index (Z.of_nat start) n)
    (get_table_with_lazy_init oc w' i index (Z.of_nat start) n).
Proof.
  intros Hw Hi. eapply agree_bind; [by eapply agree_defined_index|]. intros [o d] [o' d'] Hx _ [[= <- <-] Ho].
  eapply agree_weaken; [by apply agree_lazy_init, Ho|]. intros v v' _ _ (Hv & Hs & Hs' & Hg & Hf). split_and!; try done.
  intros k t Hk. unfold get_table in Hk. rewrite (defined_index_same w v) in Hk by done.
  assert (Hx' : with_defined_table_index (E:=Empty_set) w i index = Ok (o, d)).
  { unfold with_defined_table_index, get_instance in *. destruct (w_instances w !! i); [|done]. cbn in *.
    destruct (defined_table_index _ _); [by injection Hx as <- <-|]. apply unwrap_Ok in Hx. by rewrite Hx. }
  rewrite Hx' in Hk. by eapply Hf.
Qed.

Lemma agree_table_get live img w w' i index (j : nat) :
  worlds_agree live img w w' -> i ∈ live ->
  agree (handed_out valid_ptr live img) (table_get_lazy_init_func_ref oc w i index (Z.of_nat j))
    (table_get_lazy_init_func_ref oc w' i index (Z.of_nat j)).
Proof.
  intros Hw Hi. eapply agree_bind; [by apply agree_index_lazy_init|].
  intros v v' _ _ (Hv & _ & _ & _ & Hf). eapply agree_bind; [by eapply agree_table|].
  intros [k t] [k' t'] Hx _ (Hk & Ht & Ht' & Hta). cbn in Hk, Ht, Ht', Hta. subst k'.
  rewrite <- (wa_store _ _ _ _ Hv). eapply agree_bind; [apply (agree_get (w_func_refs v) (img k)); [done|by eapply Hf]|].
  intros [e s] [e' s'] _ _ [[= <- <-] He]. destruct e as [[p| |]|]; cbn; try done. split; [done|]. split; [by apply agree_with_state|done].
Qed.

(** *** Filling, growing and copying *)

(** A value for a table of functions is a pointer that was handed out. *)
Definition value_ok w (i index : nat) (val : Z) : Prop :=
  forall k t, get_table (E:=Empty_set) w i index = Ok (k, t) -> element_type t = ElementFunc -> valid_ptr (w_func_refs w) val.

Definition prepared live img w w' (x y : nat * Table * TableElement * GcStore T H) : Prop :=
  same_table img w w' x.1.1 y.1.1 /\ x.1.2 = y.1.2 /\ x.2 = y.2 /\ element_ok (w_func_refs w) x.1.2 /\
  element_matches (element_type x.1.1.2) x.1.2 = true.

Lemma agree_prepare live img w w' i index val :
  worlds_agree live img w w' -> value_ok w i index val ->
  agree (prepared live img w w')
    ('(k, t) ← get_table (E:=Empty_set) w i index; '(e, s) ← libcall_element t (w_store w) val; Ok (k, t, e, s))
    ('(k, t) ← get_table w' i index; '(e, s) ← libcall_element t (w_store w') val; Ok (k, t, e, s)).
Proof.
  intros Hw Hv. eapply agree_bind; [by eapply agree_table|]. intros [k t] [k' t'] Hx _ Hs.
  pose proof Hs as (_ & _ & _ & Hta). cbn in Hta. unfold libcall_element.
  rewrite <- (tables_agree_type _ _ _ _ Hta), <- (wa_store _ _ _ _ Hw). destruct (element_type t) eqn:Hty.
  - cbn. split_and!; try done; [by eapply Hv|]. cbn. by rewrite Hty.
  - destruct (unwrap_result (from_r64 val)) as [[r|]|?|]; try done; cbn [mbind outcome_bind].
    + destruct (unwrap_result (store_clone_gc_ref (w_store w) r)) as [[r' s']|?|]; try done. cbn.
      split_and!; try done. cbn. by rewrite Hty.
    + cbn. split_and!; try done. cbn. by rewrite Hty.
Qed.

Lemma answers_fill live img w w' i index dst val len :
  worlds_agree live img w w' -> value_ok w i index val -> in_u 32 dst -> in_u 32 len ->
  answers live img (libcall_table_fill w i index dst val len) (libcall_table_fill w' i index dst val len).
Proof.
  intros Hw Hv Hd Hn. eapply answers_with_ok; [by apply agree_prepare|].
  intros [[[k t] e] s] [[[k' t'] e'] s'] _ _ ((Hk & Ht & Ht' & Hta) & He & Hs & Hok & _). cbn in *. subst k' e' s'.
  apply answers_commit; [by apply agree_with_state|]. eapply agree_bind; [by apply (agree_fill (w_func_refs w) (img k))|].
  intros [u s1] [u' s1'] _ _ [Hu Hs]. cbn in Hu, Hs. subst s1'. split; [done|]. cbn.
  apply (agree_with_table live img (with_state w s (w_func_refs w)) (with_state w' s (w_func_refs w'))); [by apply agree_with_state|done|done].
Qed.

Lemma answers_grow live img w w' i index delta val :
  worlds_agree live img w w' -> value_ok w i index val -> in_u 32 delta ->
  answers live img (libcall_table_grow dbg w i index delta val) (libcall_table_grow dbg w' i index delta val).
Proof.
  intros Hw Hv Hd. eapply answers_with_ok; [by apply agree_prepare|].
  intros [[[k t] e] s] [[[k' t'] e'] s'] _ _ ((Hk & Ht & Ht' & Hta) & He & Hs & Hok & Hm). cbn in *. subst k' e' s'.
  rewrite <- (wa_limits _ _ _ _ Hw).
  destruct (agree_grow dbg (w_func_refs w) (img k) (w_limits w) t t' s delta e Hta Hok Hm Hd) as [Hf Ha].
  destruct (table_grow dbg (w_limits w) t s delta e) as [l r], (table_grow dbg (w_limits w) t' s delta e) as [l' r'].
  cbn in Hf, Ha. subst l'.
  assert (Hw1 : worlds_agree live img (with_limits (with_state w s (w_func_refs w)) l) (with_limits (with_state w' s (w_func_refs w')) l))
    by (by apply agree_with_limits, agree_with_state).
  apply answers_commit; [done|]. eapply agree_bind; [exact Ha|].
  intros [[o u] s1] [[o' u'] s1'] _ _ (Ho & Hu & Hs). cbn in Ho, Hu, Hs. subst. split; [done|]. by apply (agree_with_table _ _ _ _ Hw1).
Qed.

Lemma agree_table_copy live img v v' d k t u dst src len :
  worlds_agree live img v v' -> v.(w_tables) !! d = Some t -> w_tables v !! k = Some u ->
  (is_Some (checked 32 (src + len)) -> table_filled u (Z.to_nat src) (Z.to_nat len)) ->
  agree (fun x y => x.1 = y.1 /\ worlds_agree live img (with_tables v x.2 x.1) (with_tables v' y.2 y.1))
    (table_copy dbg (w_store v) (w_tables v) d k dst src len) (table_copy dbg (w_store v') (w_tables v') d k dst src len).
Proof.
  intros Hv Hd Hk Hf.
  assert (Hother : forall j x, w_tables v !! j = Some x -> exists x', w_tables v' !! j = Some x' /\ tables_agree (w_func_refs v) (img j) x x').
  { intros j x Hx. destruct (lookup_lt_is_Some_2 (w_tables v') j) as [x' Hx'].
    - rewrite <- (wa_length _ _ _ _ Hv). by eapply lookup_lt_Some.
    - exists x'. split; [done|]. by eapply wa_tables. }
  destruct (Hother d t Hd) as (t' & Hd' & Ht). destruct (Hother k u Hk) as (u' & Hk' & Hu).
  unfold table_copy. rewrite Hd, Hd', Hk, Hk', <- (wa_store _ _ _ _ Hv). cbn [unwrap mbind outcome_bind].
  rewrite <- (tables_agree_size _ _ _ _ Hu), <- (tables_agree_size _ _ _ _ Ht).
  destruct (table_size u) as [us|?|]; [|done|done]. destruct (table_size t) as [ts|?|]; [|done|done]. cbn [mbind outcome_bind].
  destruct (checked 32 (src + len)) as [e|]; [|done]. specialize (Hf (mk_is_Some _ _ eq_refl)).
  destruct (_ || _); [done|]. rewrite <- (tables_agree_type _ _ _ _ Ht), <- (tables_agree_type _ _ _ _ Hu).
  destruct (debug_assert dbg _); [|done|done]. cbn [mbind outcome_bind].
  apply agree_bind with (Q := copied_agree (w_func_refs v) (img d)).
  - case_bool_decide as Hdk.
    + subst k. simplify_eq. by apply agree_copy_within.
    + by apply (agree_copy_elements (w_func_refs v) (img d) (img k)).
  - intros [s1 x] [s1' x'] _ _ [Hs Hx]. cbn in Hs, Hx. subst s1'. split; [done|]. cbn.
    exact (agree_with_table _ _ _ _ Hv d x x' s1 (w_func_refs v) (w_func_refs v') (reflexivity _) Hx).
Qed.

Lemma answers_copy live img w w' i dt st dst src len :
  worlds_agree live img w w' -> i ∈ live -> in_u 32 src -> in_u 32 len ->
  answers live img (libcall_table_copy oc dbg w i dt st dst src len) (libcall_table_copy oc dbg w' i dt st dst src len).
Proof.
  intros Hw Hi Hs Hn. unfold libcall_table_copy. set (e := match checked 32 (src + len) with Some e => e | None => u32_max end).
  apply answers_with_ok with (Q := fun x y => x.1 = y.1 /\ worlds_agree live img x.2 y.2 /\
    (exists t, w_tables x.2 !! x.1.1 = Some t) /\
    (exists u, w_tables x.2 !! x.1.2 = Some u /\ table_filled u (Z.to_nat src) (Z.to_nat (e - src)))).
  - eapply agree_bind; [by eapply agree_table|]. intros [d t] [d' t'] _ _ (Hd & Ht & _ & _). cbn in Hd, Ht. subst d'.
    unfold in_u in *. rewrite <- (Z2Nat.id src) at 1 3 by lia.
    eapply agree_bind; [by apply agree_index_lazy_init|]. intros v v' Hxv _ (Hv & Hs1 & Hs2 & _ & Hf).
    eapply agree_bind; [by eapply agree_table|]. intros [k u] [k' u'] Hxk _ (Hk & Hu & _ & _). cbn in Hk, Hu. subst k'.
    cbn. split_and!; try done.
    + apply lookup_lt_is_Some_2. apply lookup_lt_Some in Ht. revert Hxv Ht. clear.
      unfold get_table_with_lazy_init, get_defined_table_with_lazy_init. intros Hx.
      apply bind_Ok_inv in Hx as ([o dd] & _ & Hx). apply bind_Ok_inv in Hx as (inst & _ & Hx).
      apply bind_Ok_inv in Hx as ([k0 t0] & _ & Hx). destruct (element_type t0); [|by injection Hx as <-].
      apply bind_Ok_inv in Hx as ([[t1 s1] r1] & _ & Hx). injection Hx as <-. cbn. by rewrite length_insert.
    + exists u. split; [done|]. by eapply Hf.
  - intros [[d k] v] [[d' k'] v'] _ _ ([= <- <-] & Hv & (t & Ht) & (u & Hu & Hf)). cbn in Hv, Ht, Hu.
    apply answers_commit; [done|]. eapply agree_bind; [eapply (agree_table_copy live img v v'); try done|].
    + intros [e' He]. subst e. rewrite He in Hf. apply checked_Some in He as [_ ->].
      by replace (src + len - src) with len in Hf by lia.
    + intros [s1 ts] [s1' ts'] _ _ [Hs1 Hx]. cbn in *. by subst s1'.
Qed.

(** *** Segments *)

Lemma agree_ref_func live img w w' i f :
  worlds_agree live img w w' ->
  agree (handed_out valid_ptr live img) (libcall_ref_func oc w i f) (libcall_ref_func oc w' i f).
Proof.
  intros Hw. eapply agree_bind; [by eapply agree_instance|]. intros a b _ _ (Hab & Ha & _). destruct (wa_ok _ _ _ _ Hw i a Ha) as [Hc _].
  eapply agree_bind; [by apply get_func_ref_agree|]. intros [p r] [p' r'] Hx _ [Hp Hg]. cbn in Hp, Hg. subst p'.
  apply get_func_ref_inv in Hx as (_ & _ & Hv); [|done].
  destruct p; [|done]. cbn. split; [done|]. rewrite <- (wa_store _ _ _ _ Hw). split; [by apply agree_with_state|done].
Qed.

Lemma answers_elem_drop {E} live img w w' i elem :
  worlds_agree live img w w' -> answers live img (commit w (stored (elem_drop (E:=E) w i elem))) (commit w' (stored (elem_drop w' i elem))).
Proof.
  intros Hw. apply answers_stored; [done|]. eapply agree_bind; [by eapply agree_instance|]. intros a b _ _ (Hab & Ha & Hb). cbn.
  destruct Hab as (m & -> & Hm). destruct Hw as [Hi Hs Hl Hn Htab Hok Hlive Hbd].
  assert (Hold : forall j inst, <[i := set_dropped a ({[elem]} ∪ i_dropped_elements a)]> (w_instances w) !! j = Some inst ->
    exists inst0 d, w_instances w !! j = Some inst0 /\ inst = set_dropped inst0 d).
  { intros j inst Hj. apply list_lookup_insert_Some in Hj as [(<- & <- & _)|[_ Hj]]; [by eexists _, _|].
    exists inst, (i_dropped_elements inst). split; [done|]. by destruct inst. }
  split; cbn; try done.
  - apply Forall2_insert; [done|]. by exists m.
  - intros j inst (inst0 & d & Hj & ->)%Hold. destruct (Hok j inst0 Hj) as [[H1 H2 H3 H4] Hg]. split; [by split|done].
  - intros j inst Hlj (inst0 & d & Hj & ->)%Hold. exact (Hlive j inst0 Hlj Hj).
  - by rewrite length_insert.
Qed.

Lemma agree_init_func_iter {X} (get : X -> gmap Z VMFuncRef) (Q : X -> X -> Prop) refs im t t' dst n (items items' : outcome Trap (list Z * X)) :
  tables_agree refs im t t' -> in_u 32 dst ->
  agree (fun x y => x.1 = y.1 /\ Q x.2 y.2 /\ refs_grow refs (get x.2) /\ Forall (valid_ptr (get x.2)) x.1) items items' ->
  agree (fun x y => tables_agree (get x.2) im x.1 y.1 /\ Q x.2 y.2 /\ refs_grow refs (get x.2))
    (init_func_iter t dst n items) (init_func_iter t' dst n items').
Proof.
  intros Ht Hd Hi. unfold init_func_iter.
  apply agree_bind with (Q := fun x y => length x.1 = length y.1).
  { destruct Ht as [[<- Hg]|(l & l' & m & Hr & Hr' & Hl)]; [by rewrite gc_funcrefs|].
    rewrite (repr_funcrefs _ _ _ _ Hr), (repr_funcrefs _ _ _ _ Hr'). apply Hl. }
  intros [l lz] [l' lz'] _ _ Hn. cbn in Hn. rewrite <- Hn. destruct (in_range _ _ _); [|done].
  eapply agree_bind; [exact Hi|]. intros [k x] [k' y] _ _ (Hk & Hq & Hg & Hv). cbn in Hk, Hq, Hg, Hv. subst k'.
  eapply agree_bind; [apply (agree_init_func (get x) im t t' dst k); [by eapply tables_agree_grow|done|done]|].
  intros u u' _ _ Hu. by split.
Qed.

Lemma agree_init_gc_iter {X} (get : X -> gmap Z VMFuncRef) (Q : X -> X -> Prop) refs im t t' dst n items items' :
  tables_agree refs im t t' ->
  agree (fun x y => x.1 = y.1 /\ Q x.2 y.2 /\ refs_grow refs (get x.2)) items items' ->
  agree (fun x y => tables_agree (get x.2) im x.1 y.1 /\ Q x.2 y.2 /\ refs_grow refs (get x.2))
    (init_gc_refs_iter t dst n items) (init_gc_refs_iter t' dst n items').
Proof.
  intros Ht Hi. unfold init_gc_refs_iter.
  apply agree_bind with (Q := eq).
  { destruct Ht as [[<- Hg]|(l & l' & m & Hr & Hr' & Hl)]; [apply agree_eq|]. by rewrite !func_gc_refs by (by eapply repr_func_type). }
  intros l _ _ _ <-. destruct (in_range _ _ _); [|done].
  eapply agree_bind; [exact Hi|]. intros [k x] [k' y] _ _ (Hk & Hq & Hg). cbn in Hk, Hq, Hg. subst k'.
  eapply agree_bind; [apply (agree_init_gc (get x) im t t' dst k); by eapply tables_agree_grow|].
  intros u u' _ _ Hu. by split.
Qed.

(** Expressions for a table of functions are typed as functions. *)
Definition elements_typed (inst : Instance) (index : nat) (els : TableSegmentElements) : Prop :=
  match els with
  | Functions _ => True
  | Expressions exprs =>
      forall plan, table_plans (i_module inst) !! index = Some plan -> top (rt_heap_type (Table.wasm_ty (table plan))) = TopFunc ->
        Forall (fun e => check_expr (i_globals inst).*1 e ShFunc = true) exprs
  end.

Lemma agree_plan {E} a b index :
  modules_agree a b ->
  agree (fun x y => table x = table y /\ table_plans a !! index = Some x)
    (unwrap (E:=E) (table_plans a !! index)) (unwrap (table_plans b !! index)).
Proof.
  intros Hm. pose proof (f_equal (fun l => l !! index) (ma_tables _ _ Hm)) as Hl. cbn in Hl. rewrite !list_lookup_fmap in Hl.
  destruct (table_plans a !! index), (table_plans b !! index); cbn in *; try done. by injection Hl as ->.
Qed.

Lemma agree_segment live img w w' i index els dst src len :
  worlds_agree live img w w' -> in_u 32 dst ->
  (forall inst, w_instances w !! i = Some inst -> elements_typed inst index els) ->
  agree (worlds_agree live img) (table_init_segment oc dbg w i index els dst src len) (table_init_segment oc dbg w' i index els dst src len).
Proof.
  intros Hw Hd Hty. eapply agree_bind; [by eapply agree_instance|]. intros a b _ _ (Hab & Ha & Hb). specialize (Hty a Ha).
  destruct (wa_ok _ _ _ _ Hw i a Ha) as [Hc Hg].
  eapply agree_bind; [by eapply agree_table|]. intros [k t] [k' t'] _ _ (Hk & Ht & Ht' & Hta). cbn in Hk, Ht, Ht', Hta. subst k'.
  rewrite <- (wa_store _ _ _ _ Hw). destruct els as [fs|es]; (eapply agree_bind; [apply agree_eq|]); intros sub _ Hsub _ <-.
  - eapply agree_bind; [apply (agree_init_func_iter id (fun _ _ => True)); [exact Hta|done|]|].
    + eapply agree_weaken; [by apply func_ref_items_agree|]. intros x y _ _ (H1 & H2 & H3). done.
    + intros [u r] [u' r'] _ _ (Hu & _ & Hgr). by apply agree_with_table.
  - pose proof Hab as (m & -> & Hm). eapply agree_bind; [by apply agree_plan|]. intros plan plan' _ _ [Hp Hpl]. cbn in Hpl. rewrite <- Hp.
    apply agree_bind with (Q := fun x y => tables_agree x.2.2 (img k) x.1 y.1 /\ x.2.1 = y.2.1 /\ refs_grow (w_func_refs w) x.2.2).
    2:{ intros [u [s r]] [u' [s' r']] _ _ (Hu & Hs & Hgr). cbn in *. subst s'. by apply agree_with_table. }
    destruct (top _) eqn:Htop.
    + eapply agree_weaken; [apply (agree_init_gc_iter snd (fun x y => x.1 = y.1)); [exact Hta|]|by intros ? ? _ _ (? & ? & ?)].
      eapply agree_weaken; [by apply eval_items_agree|]. by intros x y _ _ (? & ? & ?).
    + eapply agree_weaken; [apply (agree_init_gc_iter snd (fun x y => x.1 = y.1)); [exact Hta|]|by intros ? ? _ _ (? & ? & ?)].
      eapply agree_weaken; [by apply eval_items_agree|]. by intros x y _ _ (? & ? & ?).
    + eapply agree_weaken; [apply (agree_init_func_iter snd (fun x y => x.1 = y.1)); [exact Hta|done|]|by intros ? ? _ _ (? & ? & ?)].
      eapply agree_weaken; [by apply eval_items_agree|]. intros [l [s r]] y Hx _ (? & ? & ?). split_and!; try done.
      eapply eval_items_valid; [exact Hc|exact Hg| |exact Hx]. unfold subslice in Hsub. destruct (in_range _ _ _); [|done].
      injection Hsub as <-. by apply Forall_take, Forall_drop, (Hty plan).
Qed.

Definition passive_typed (inst : Instance) (index elem : nat) : Prop :=
  forall j els, passive_elements_map (i_module inst) !! elem = Some j -> passive_elements (i_module inst) !! j = Some els ->
    elements_typed inst index els.

Lemma answers_init live img w w' i index elem dst src len :
  worlds_agree live img w w' -> in_u 32 dst ->
  (forall inst, w_instances w !! i = Some inst -> passive_typed inst index elem) ->
  answers live img (commit w (stored (instance_table_init oc dbg w i index elem dst src len)))
    (commit w' (stored (instance_table_init oc dbg w' i index elem dst src len))).
Proof.
  intros Hw Hd Hty. apply answers_stored; [done|]. eapply agree_bind; [by eapply agree_instance|].
  intros a b _ _ ((m & -> & Hm) & Ha & Hb). specialize (Hty a Ha). cbn.
  rewrite <- (ma_passive_map _ _ Hm), <- (ma_passive _ _ Hm).
  eapply agree_bind; [apply agree_eq|]. intros els _ Hels _ <-. apply agree_segment; [done|done|].
  intros inst Hinst. rewrite Ha in Hinst. injection Hinst as <-.
  destruct (passive_elements_map _ !! elem) as [j|] eqn:Hj; [|injection Hels as <-; by intros ? _ _].
  destruct (bool_decide _); [injection Hels as <-; by intros ? _ _|]. apply unwrap_Ok in Hels. by eapply Hty.
Qed.
End Worlds.
