(* ===== verification/LazyInit.v ===== *)
(** * Instantiation with images of tables

    The pass [try_func_table_init] moves a prefix of the segments of a module into
    images.  Here an engine that runs all initial values and segments is compared
    with one that runs what the pass left: the images stand for the rest. *)

From Stdlib Require Import ZArith Lia.
From stdpp Require Import base list gmap numbers option sets.
From S2P Require Import Prelude VmOffsets MemoryTypes Mappings LinearMemory MetadataSections GcRef Drc GcStore WasmTypes TypeMatching Tables TableOps TableWorld ConstExpr TableInit LazyTables LazyWorld.
Open Scope Z_scope.

(** ** The pass *)

(** The segments that the pass applies, one after the other. *)
Inductive applied (m : Module) : list TableInitialValue -> list TableSegment -> list TableInitialValue -> Prop :=
| applied_nil inits : applied m inits [] inits
| applied_cons inits seg inits' segs fin :
    apply_segment (E:=Empty_set) m inits seg = Ok (Some inits') -> applied m inits' segs fin -> applied m inits (seg :: segs) fin.

Lemma apply_segments_spec m inits segs fin rest :
  apply_segments (E:=Empty_set) m inits segs = Ok (fin, rest) -> exists pre, segs = pre ++ rest /\ applied m inits pre fin.
Proof.
  revert inits. induction segs as [|seg segs IH]; intros inits Hx; cbn [apply_segments] in Hx.
  { injection Hx as <- <-. exists []. split; [done|constructor]. }
  apply bind_Ok_inv in Hx as ([inits'|] & Ha & Hx).
  - destruct (IH _ Hx) as (pre & -> & Hp). exists (seg :: pre). split; [done|by econstructor].
  - injection Hx as <- <-. exists []. split; [done|constructor].
Qed.

(** What one segment does to the images. *)
Lemma apply_segment_inv m inits seg inits' :
  apply_segment (E:=Empty_set) m inits seg = Ok (Some inits') ->
  exists d o plan fs pre,
    defined_table_index m (ts_table seg) = Some d /\ ts_offset seg = [I32Const o] /\
    table_plans m !! ts_table seg = Some plan /\ top (rt_heap_type (Table.wasm_ty (table plan))) = TopFunc /\
    ts_elements seg = Functions fs /\ inits !! d = Some (InitNull pre) /\
    let off := o mod 2 ^ 32 in
    let end_ := off + Z.of_nat (length fs) in
    segment_len (ts_elements seg) = Z.of_nat (length fs) /\ end_ <= Table.minimum (table plan) /\ end_ < 2 ^ 32 /\
    inits' = <[d := InitNull (overwrite (if Z.of_nat (length pre) <? end_ then resize (Z.to_nat end_) reserved_value pre else pre)
                                (Z.to_nat off) fs)]> inits.
Proof.
  unfold apply_segment. intros Hx. destruct (defined_table_index _ _) as [d|] eqn:Hd; [|done].
  destruct (ts_offset seg) as [|[o| | | | | | | |] [|]] eqn:Ho; try done.
  destruct (checked 32 _) as [e|] eqn:Hc; [|done]. apply checked_Some in Hc as [Hu Hc]. apply bind_Ok_inv in Hx as (plan & Hp & Hx). apply unwrap_Ok in Hp.
  destruct (_ || _) eqn:Hb; [done|]. apply orb_false_iff in Hb as [Hb _]. apply Z.ltb_ge in Hb.
  destruct (top _) eqn:Htop; try done. destruct (ts_elements seg) as [fs|] eqn:He; [|done].
  apply bind_Ok_inv in Hx as (init & Hi & Hx). apply unwrap_Ok in Hi. destruct init as [pre|]; [|done].
  apply bind_Ok_inv in Hx as ([] & Ha & Hx). apply assert_Ok, Z.eqb_eq in Ha. injection Hx as <-. cbn [segment_len] in *.
  assert (He' : e = o mod 2 ^ 32 + Z.of_nat (length fs)) by lia. unfold in_u in Hu.
  exists d, o, plan, fs, pre. rewrite <- He'. split_and!; try done; [lia|lia].
Qed.

(** A value keeps its kind. *)
Definition same_kind (x y : TableInitialValue) : Prop :=
  match x, y with InitNull _, InitNull _ => True | InitExpr e, InitExpr e' => e = e' | _, _ => False end.

Lemma same_kind_refl x : same_kind x x.
Proof. by destruct x. Qed.

Lemma applied_length m inits pre fin : applied m inits pre fin -> length fin = length inits.
Proof.
  induction 1 as [inits|inits seg inits' segs fin Ha _ IH]; [done|]. rewrite IH.
  apply apply_segment_inv in Ha as (d & o & plan & fs & pre & _ & _ & _ & _ & _ & _ & _ & _ & _ & ->). apply length_insert.
Qed.

Lemma applied_kind m inits pre fin d x :
  applied m inits pre fin -> inits !! d = Some x -> exists y, fin !! d = Some y /\ same_kind x y.
Proof.
  intros Ha. revert x. induction Ha as [inits|inits seg inits' segs fin Ha _ IH]; intros x Hx; [exists x; split; [done|apply same_kind_refl]|].
  apply apply_segment_inv in Ha as (d' & o & plan & fs & pre & _ & _ & _ & _ & _ & Hd & _ & _ & _ & ->).
  destruct (decide (d = d')) as [->|Hne].
  - simplify_eq. rewrite list_lookup_insert_eq in IH by (by eapply lookup_lt_Some). destruct (IH _ eq_refl) as (y & Hy & Hk).
    exists y. split; [done|]. by destruct y.
  - apply IH. by rewrite list_lookup_insert_ne.
Qed.

(** A segment that the pass applies has its table, functions and room. *)
Definition segment_fits (m : Module) (seg : TableSegment) : Prop :=
  (ts_table seg < length (table_plans m))%nat /\
  match ts_elements seg with Functions fs => Z.of_nat (length fs) < 2 ^ 32 | Expressions _ => True end.

Lemma apply_segment_total m inits seg :
  segment_fits m seg -> (forall d, defined_table_index m (ts_table seg) = Some d -> (d < length inits)%nat) ->
  exists r, apply_segment (E:=Empty_set) m inits seg = Ok r.
Proof.
  destruct seg as [ti off [fs0|es0]]; intros [Ht Hf] Hd; cbn [ts_table ts_offset ts_elements] in *;
    unfold apply_segment; cbn [ts_table ts_offset ts_elements].
  2:{ destruct (defined_table_index _ _) as [d|]; [|by eauto]. destruct off as [|[o| | | | | | | |] [|]]; eauto.
      destruct (checked 32 _); [|by eauto]. destruct (lookup_lt_is_Some_2 _ _ Ht) as [plan ->]. cbn.
      destruct (_ || _); [by eauto|]. destruct (top _); eauto. }
  destruct (defined_table_index _ _) as [d|] eqn:Hi; [|by eauto].
  destruct off as [|[o| | | | | | | |] [|]]; eauto.
  destruct (checked 32 _) as [e|] eqn:Hc; [|by eauto]. apply checked_Some in Hc as [_ Hc].
  destruct (lookup_lt_is_Some_2 _ _ Ht) as [plan ->]. cbn. destruct (_ || _); [by eauto|]. destruct (top _); eauto.
  destruct (lookup_lt_is_Some_2 _ _ (Hd d eq_refl)) as [[pre|] ->]; cbn; [|by eauto].
  rewrite (proj2 (Z.eqb_eq _ _)); [cbn; by eauto|]. rewrite Hc. cbn [segment_len]. rewrite (Z.mod_small (Z.of_nat _)) by lia. lia.
Qed.

Lemma apply_segments_total m inits segs :
  Forall (segment_fits m) segs -> (forall seg d, seg ∈ segs -> defined_table_index m (ts_table seg) = Some d -> (d < length inits)%nat) ->
  exists r, apply_segments (E:=Empty_set) m inits segs = Ok r.
Proof.
  revert inits. induction segs as [|seg segs IH]; intros inits Hf Hd; cbn [apply_segments]; [by eauto|].
  inversion Hf as [|? ? Hs Hf']; subst.
  destruct (apply_segment_total m inits seg Hs) as [[inits'|] Hr]; [intros d; apply Hd; by left| |]; rewrite Hr; cbn; [|by eauto].
  apply IH; [done|]. intros seg' d Hin Hdd. apply apply_segment_inv in Hr as (d' & o & plan & fs & pre & _ & _ & _ & _ & _ & _ & _ & _ & _ & ->).
  rewrite length_insert. eapply Hd; [by right|done].
Qed.

Lemma convert_initials_lookup inits plans d :
  convert_initials inits plans !! d =
    match inits !! d, plans !! d with Some init, Some plan => Some (convert_initial init plan) | x, _ => x end.
Proof.
  revert plans d. induction inits as [|init inits IH]; intros [|plan plans] [|d]; try done; [cbn; by destruct (inits !! d)|apply (IH plans d)].
Qed.

Lemma convert_initials_length inits plans : length (convert_initials inits plans) = length inits.
Proof. revert plans. induction inits as [|init inits IH]; intros [|plan plans]; cbn; auto. Qed.

(** ** New tables *)

Definition plan_type (plan : TablePlan) : TableElementType := wasm_to_table_type (Table.wasm_ty (table plan)).

(** The tables that both engines make for a plan. *)
Definition fresh_pair (plan : TablePlan) (t t' : Table) : Prop :=
  match plan_type plan with
  | ElementFunc =>
      table_repr t (AFunc (replicate (Z.to_nat (plan_min plan)) 0) true (plan_max plan)) /\
      table_repr t' (AFunc (replicate (Z.to_nat (plan_min plan)) 0) false (plan_max plan))
  | ElementGcRef => t = t' /\ element_type t = ElementGcRef /\ table_size (E:=Empty_set) t = Ok (plan_min plan)
  end.

Definition fresh_pairs (plans : list TablePlan) (ts ts' : list Table) : Prop :=
  length ts = length plans /\ length ts' = length plans /\
  forall d plan, plans !! d = Some plan -> exists t t', ts !! d = Some t /\ ts' !! d = Some t' /\ fresh_pair plan t t'.

Lemma fits_min plan : plan_ok plan -> fits (plan_max plan) (Z.to_nat (plan_min plan)).
Proof. intros [Hm Hx]. unfold in_u in Hm. split; [lia|]. destruct (plan_max plan); lia. Qed.

Section Allocate.
  Context {L : Type} `{!ResourceLimiter L}.

Lemma new_pair (plan : TablePlan) (l : option L) :
  plan_ok plan ->
  fst (new_dynamic_table (plan_style true plan) l) = fst (new_dynamic_table (plan_style false plan) l) /\
  agree (fresh_pair plan) (snd (new_dynamic_table (plan_style true plan) l)) (snd (new_dynamic_table (plan_style false plan) l)).
Proof.
  intros Hp. pose proof (fits_min plan Hp) as Hf. unfold new_dynamic_table, table_limit_new. cbn [table plan_style].
  destruct (store_table_growing l 0 _ _) as [l' r]. split; [done|].
  destruct r as [[]|?|]; cbn [snd mbind outcome_bind agree style plan_style style_for_table]; try done.
  unfold fresh_pair, plan_type. destruct (wasm_to_table_type _).
  - split; constructor; by rewrite length_replicate.
  - split_and!; try done. cbn. rewrite length_replicate. unfold checked, plan_min. destruct Hp as [Hm _]. unfold plan_min, in_u in Hm.
    rewrite Z2Nat.id, in_ub_true by (unfold in_u; lia). done.
Qed.

Lemma allocate_pairs (plans : list TablePlan) (l : option L) :
  Forall plan_ok plans ->
  fst (allocate_tables (plan_style true <$> plans) l) = fst (allocate_tables (plan_style false <$> plans) l) /\
  agree (fresh_pairs plans) (snd (allocate_tables (plan_style true <$> plans) l)) (snd (allocate_tables (plan_style false <$> plans) l)).
Proof.
  intros Hp. revert l. induction Hp as [|plan plans Hplan Hp IH]; intros l; cbn [fmap list_fmap allocate_tables]; [by split_and!|].
  destruct (new_pair plan l Hplan) as [Hl Ha].
  destruct (new_dynamic_table (plan_style true plan) l) as [l1 r1], (new_dynamic_table (plan_style false plan) l) as [l1' r1'].
  cbn in Hl, Ha. subst l1'. destruct r1 as [t|?|], r1' as [t'|?|]; cbn in Ha; try done.
  destruct (IH l1) as [Hl2 Ha2].
  destruct (allocate_tables (plan_style true <$> plans) l1) as [l2 r2], (allocate_tables (plan_style false <$> plans) l1) as [l2' r2'].
  cbn in Hl2, Ha2. subst l2'. split; [done|]. destruct r2 as [ts|?|], r2' as [ts'|?|]; cbn in Ha2 |- *; try done.
  destruct Ha2 as (H1 & H2 & H3). split_and!; cbn; [lia|lia|]. intros [|d] pl Hd; cbn in Hd.
  - injection Hd as <-. by exists t, t'.
  - by apply H3.
Qed.
End Allocate.

(** ** Requests *)

(** A module that was validated, to be instantiated with what the host has. *)
Record request_ok (oc : bool) (refs : gmap Z VMFuncRef) (live : list nat) (req : Instance) : Prop := {
  rq_placed : context_placed oc req;
  rq_globals : globals_valid refs req;
  rq_imports : Forall (fun x => x.1 ∈ live) (i_imported_tables req);
  rq_counts : (TableInit.num_imported_tables (i_module req) +
               length (initial_values (table_initialization (i_module req))) = length (table_plans (i_module req)))%nat;
  rq_plans : Forall plan_ok (table_plans (i_module req));
  rq_null d pre : initial_values (table_initialization (i_module req)) !! d = Some (InitNull pre) -> pre = [];
  rq_expr d e plan : initial_values (table_initialization (i_module req)) !! d = Some (InitExpr e) ->
    table_plans (i_module req) !! table_index (i_module req) d = Some plan ->
    (plan_type plan = ElementFunc -> check_expr (i_globals req).*1 e ShFunc = true) /\
    forall f, e = [RefFunc f] -> plan_type plan = ElementFunc /\ func_valid req f /\ f <> reserved_value;
  rq_segment seg : seg ∈ segments (table_initialization (i_module req)) ->
    segment_fits (i_module req) seg /\ elements_typed req (ts_table seg) (ts_elements seg) /\
    match ts_elements seg with Functions fs => Forall (func_valid req) fs | Expressions _ => True end
}.

Lemma plan_type_func plan : plan_type plan = ElementFunc <-> top (rt_heap_type (Table.wasm_ty (table plan))) = TopFunc.
Proof. unfold plan_type, wasm_to_table_type. by destruct (top _). Qed.

(** ** Filling a table with its initial value *)

Lemma unwrap_result_no_err {E E' A} (m : outcome E A) e : unwrap_result (E':=E') m <> Err e.
Proof. by destruct m. Qed.

Lemma size_any {E} t size : table_size (E:=Empty_set) t = Ok size -> table_size (E:=E) t = Ok size.
Proof.
  destruct t as [[]|[]]; cbn; [congruence|congruence|..]; destruct (checked _ _); cbn; congruence.
Qed.

Lemma init_all_repr t l lz m p :
  table_repr t (AFunc l lz m) ->
  exists u, init_func t 0 (replicate (length l) p) = Ok u /\ table_repr u (AFunc (replicate (length l) (tagged_from p lz)) lz m).
Proof.
  intros Ht. unfold init_func. rewrite (repr_funcrefs _ _ _ _ Ht). cbn [mbind outcome_bind].
  rewrite length_replicate, in_range_bounds by (unfold in_u; lia). unfold in_bounds. rewrite (proj2 (Z.leb_le _ _)) by lia.
  rewrite map_replicate.
  assert (Hall : overwrite l 0 (replicate (length l) (tagged_from p lz)) = replicate (length l) (tagged_from p lz)).
  { unfold overwrite. rewrite length_replicate, drop_ge by lia. cbn. by rewrite app_nil_r. }
  change (Z.to_nat 0) with 0%nat. rewrite Hall. apply (repr_funcrefs_mut t l lz m _ Ht). by rewrite length_replicate.
Qed.

Lemma init_all_agree refs im im' t t' p size :
  tables_agree refs im t t' -> element_type t = ElementFunc -> table_size (E:=Empty_set) t = Ok size -> valid_ptr refs p ->
  exists u u', init_func t 0 (replicate (Z.to_nat size) p) = Ok u /\ init_func t' 0 (replicate (Z.to_nat size) p) = Ok u' /\
    tables_agree refs im' u u' /\ element_type u = ElementFunc /\ table_size (E:=Empty_set) u = Ok size.
Proof.
  intros [[_ Hg]|(l & l' & m & Ht & Ht' & Hn & _)] Hty Hsz Hp; [congruence|].
  rewrite (repr_size _ _ Ht) in Hsz. cbn in Hsz. injection Hsz as <-. rewrite Nat2Z.id.
  destruct (init_all_repr t l true m p Ht) as (u & Hu & Hru). destruct (init_all_repr t' l' false m p Ht') as (u' & Hu' & Hru').
  rewrite <- Hn in Hu', Hru'. exists u, u'. split_and!; try done.
  - right. eexists _, _, m. split; [exact Hru|]. split; [exact Hru'|]. split; [by rewrite !length_replicate|].
    intros j q z Hq Hz. apply lookup_replicate in Hq as [-> _], Hz as [-> _]. by right.
  - by eapply repr_func_type.
  - rewrite (repr_size _ _ Hru). cbn. by rewrite length_replicate.
Qed.

Lemma gc_refs_size t l size :
  table_size (E:=Empty_set) t = Ok size -> gc_refs (E:=Trap) t = Ok l -> length l = Z.to_nat size.
Proof.
  destruct t as [[d|d]|[d|d]]; cbn; try done.
  - intros [= <-]. destruct (Z.leb_spec (sg_size d) (Z.of_nat (length (sg_data d)))); cbn; [|done]. intros [= <-]. rewrite length_take. lia.
  - intros Hc [= <-]. unfold checked in Hc. destruct (in_ub _ _); [|done]. injection Hc as <-. lia.
Qed.

Lemma gc_refs_mut_size t l k u size :
  table_size (E:=Empty_set) t = Ok size -> gc_refs (E:=Trap) t = Ok l -> length k = length l ->
  gc_refs_mut (E:=Trap) t k = Ok u -> table_size (E:=Empty_set) u = Ok size.
Proof.
  destruct t as [[d|d]|[d|d]]; cbn; try done.
  - intros [= <-] _ _ [= <-]. done.
  - intros Hs [= <-] Hk [= <-]. cbn. by rewrite Hk.
Qed.

Lemma init_all_gc {X} t size (m : outcome Trap (list (option VMGcRef) * X)) :
  element_type t = ElementGcRef -> table_size (E:=Empty_set) t = Ok size ->
  (forall items x, m = Ok (items, x) -> length items = Z.to_nat size) -> (forall e, m <> Err e) ->
  match init_gc_refs_iter t 0 (Z.to_nat size) m with
  | Ok (u, _) => element_type u = ElementGcRef /\ table_size (E:=Empty_set) u = Ok size
  | Err _ => False
  | Panic => True
  end.
Proof.
  intros Hty Hsz Hl He. unfold init_gc_refs_iter, init_gc_refs. destruct (gc_refs (E:=Trap) t) as [l|e|] eqn:Hg; cbn [mbind outcome_bind]; [| |done].
  2:{ destruct t as [[d|d]|[d|d]]; cbn in Hg; try done. by destruct (sg_size d <=? _). }
  pose proof (gc_refs_size _ _ _ Hsz Hg) as Hlen. rewrite in_range_bounds by (unfold in_u; lia). unfold in_bounds.
  rewrite (proj2 (Z.leb_le _ _)) by lia. destruct m as [[items x]|e|]; cbn [mbind outcome_bind]; [|by destruct (He e)|done].
  specialize (Hl items x eq_refl). rewrite in_range_bounds by (unfold in_u; lia). unfold in_bounds. rewrite (proj2 (Z.leb_le _ _)) by lia.
  destruct (gc_refs_mut t _) as [u|e|] eqn:Hu; cbn [mbind outcome_bind]; [| |done].
  - split; [by eapply gc_refs_mut_type|]. eapply gc_refs_mut_size; [exact Hsz|exact Hg| |exact Hu]. rewrite length_overwrite; lia.
  - by destruct t as [[]|[]].
Qed.

(** ** A new instance *)

Section Start.
  Context {T H L : Type} `{!GcHeap T H} `{!ResourceLimiter L} (oc dbg : bool).
  Context (req : Instance) (live : list nat) (n base : nat) (fin : list TableInitialValue) (rest : list TableSegment).
  Implicit Types (v : World T H L) (img : nat -> option (list Z)) (cur : list TableInitialValue).

Definition own_plans : list TablePlan := drop (TableInit.num_imported_tables (i_module req)) (table_plans (i_module req)).

Definition lazy_module : Module :=
  set_initialization (plan_tables true (i_module req)) {| initial_values := fin; TableInit.segments := rest |}.
Definition eager_module : Module := plan_tables false (i_module req).

Definition new_ids : list nat := seq base (length own_plans).
Definition lazy_instance : Instance := set_compiled req lazy_module new_ids.
Definition eager_instance : Instance := set_compiled req eager_module new_ids.

Lemma new_instances_agree : instances_agree lazy_instance eager_instance.
Proof.
  exists eager_module. split; [done|]. split; try done. cbn. rewrite <- !list_fmap_compose. by apply list_fmap_ext.
Qed.

Lemma new_placed : context_placed oc req -> context_placed oc lazy_instance.
Proof. intros [H1 H2 H3 H4]. by split. Qed.

(** The image that a value of a table stands for. *)
Definition image_value (x : option TableInitialValue) : option (list Z) :=
  match x with Some (InitNull pre) => Some (func_addr req <$> pre) | _ => None end.

(** While the instance is initialised, its images are those of the values [cur]: the
    engine without images has done so much of the work.  Tables that end up with an
    image are untouched in the lazy engine. *)
Record starting cur img v v' : Prop := {
  st_agree : worlds_agree oc live img v v';
  st_lazy : w_instances v !! n = Some lazy_instance;
  st_eager : w_instances v' !! n = Some eager_instance;
  st_old i inst d k : i ∈ live -> w_instances v !! i = Some inst -> i_tables inst !! d = Some k -> (k < base)%nat;
  st_img d plan : own_plans !! d = Some plan -> img (base + d)%nat = image_value (cur !! d);
  st_table d plan : own_plans !! d = Some plan ->
    exists t, w_tables v !! (base + d)%nat = Some t /\ element_type t = plan_type plan /\
      table_size (E:=Empty_set) t = Ok (plan_min plan) /\
      forall pre, fin !! d = Some (InitNull pre) -> plan_type plan = ElementFunc ->
        table_repr t (AFunc (replicate (Z.to_nat (plan_min plan)) 0) true (plan_max plan))
}.

Definition set_image img (d : nat) (x : option (list Z)) : nat -> option (list Z) :=
  fun k => if decide (k = (base + d)%nat) then x else img k.

Lemma set_image_at img d x : set_image img d x (base + d)%nat = x.
Proof. unfold set_image. by rewrite decide_True. Qed.

Lemma set_image_ne img d x k : k <> (base + d)%nat -> set_image img d x k = img k.
Proof. intros. unfold set_image. by rewrite decide_False. Qed.

Lemma new_table_lookup {E} w inst d k t :
  w_instances w !! n = Some inst -> i_tables inst = new_ids -> own_plans !! d = Some k -> w_tables w !! (base + d)%nat = Some t ->
  get_defined_table (T:=T) (H:=H) (L:=L) (E:=E) w n d = Ok ((base + d)%nat, t).
Proof.
  intros Hi Hn Hd Ht. apply get_defined_inv. exists inst. split; [done|]. split; [|done]. rewrite Hn.
  apply lookup_seq. split; [done|]. by eapply lookup_lt_Some.
Qed.

(** The tables of the new instance on both sides. *)
Lemma starting_tables cur img v v' d plan :
  starting cur img v v' -> own_plans !! d = Some plan ->
  exists t t', w_tables v !! (base + d)%nat = Some t /\ w_tables v' !! (base + d)%nat = Some t' /\
    tables_agree (w_func_refs v) (image_value (cur !! d)) t t' /\ element_type t = plan_type plan /\
    table_size (E:=Empty_set) t = Ok (plan_min plan).
Proof.
  intros Hs Hd. destruct (st_table _ _ _ _ Hs d plan Hd) as (t & Ht & Hty & Hsz & _).
  destruct (lookup_lt_is_Some_2 (w_tables v') (base + d)) as [t' Ht'].
  { rewrite <- (wa_length _ _ _ _ _ (st_agree _ _ _ _ Hs)). by eapply lookup_lt_Some. }
  exists t, t'. split_and!; try done. rewrite <- (st_img _ _ _ _ Hs d plan Hd). by eapply wa_tables; [apply Hs|..].
Qed.

(** One table gets a new image or new contents. *)
Lemma starting_write cur img v v' d plan x s refs refs' u u' :
  starting cur img v v' -> own_plans !! d = Some plan -> (d < length cur)%nat ->
  refs_grow (w_func_refs v) refs -> element_type u = plan_type plan -> table_size (E:=Empty_set) u = Ok (plan_min plan) ->
  tables_agree refs (image_value (Some x)) u u' ->
  (forall pre, fin !! d = Some (InitNull pre) -> plan_type plan = ElementFunc ->
     table_repr u (AFunc (replicate (Z.to_nat (plan_min plan)) 0) true (plan_max plan))) ->
  starting (<[d := x]> cur) (set_image img d (image_value (Some x)))
    (with_table v (base + d) u s refs) (with_table v' (base + d) u' s refs').
Proof.
  intros [Hw Hl He Hold Himg Htab] Hd Hdl Hg Hty Hsz Hta Hfresh. destruct Hw as [Hi Hs Hlim Hn Ht Hok Hlive Hbd].
  split; cbn; try done.
  - split; cbn; try done; [by rewrite !length_insert| | |].
    + intros j y y' Hy Hy'. apply list_lookup_insert_Some in Hy as [(<- & <- & _)|[Hne Hy]], Hy' as [(? & <- & _)|[? Hy']]; try done.
      * by rewrite set_image_at.
      * rewrite set_image_ne by done. by eapply tables_agree_grow, Ht.
    + intros i inst Hin. destruct (Hok i inst Hin). split; [done|]. by eapply globals_valid_grow.
    + intros i inst Hli Hin. destruct (Hlive i inst Hli Hin) as (H1 & H2 & H3). split_and!; try done.
      intros d' k Hk. rewrite length_insert. pose proof (Hold i inst d' k Hli Hin Hk). rewrite set_image_ne by lia. by apply H2.
  - intros d' plan' Hd'. destruct (decide (d' = d)) as [->|Hne].
    + by rewrite set_image_at, list_lookup_insert_eq.
    + rewrite set_image_ne, list_lookup_insert_ne by lia. by eapply Himg.
  - intros d' plan' Hd'. destruct (Htab d' plan' Hd') as (t & Htd & Htt & Hts & Hfr). destruct (decide (d' = d)) as [->|Hne].
    + simplify_eq. exists u. split_and!; try done. apply list_lookup_insert_eq. by eapply lookup_lt_Some.
    + exists t. split_and!; try done. by rewrite list_lookup_insert_ne by lia.
Qed.

(** *** Initial values *)

Lemma clone_items_length {E} (s s' : GcStore T H) r k items : clone_items (E:=E) s r k = Ok (items, s') -> length items = k.
Proof.
  revert s items. induction k as [|k IH]; intros s items Hx; cbn [clone_items] in Hx; [by injection Hx as <- _|].
  apply bind_Ok_inv in Hx as ([x s1] & _ & Hx). apply bind_Ok_inv in Hx as ([l s2] & Hl & Hx). injection Hx as <- <-. cbn. by erewrite IH.
Qed.

Lemma clone_items_no_err {E} (s : GcStore T H) r k e : clone_items (E:=E) s r k <> Err e.
Proof.
  revert s. induction k as [|k IH]; intros s Hx; cbn [clone_items] in Hx; [done|].
  apply bind_Err_inv in Hx as [Hx|([x s1] & _ & Hx)].
  - destruct r; [|done]. apply bind_Err_inv in Hx as [Hx|([] & _ & Hx)]; [by eapply unwrap_result_no_err|done].
  - apply bind_Err_inv in Hx as [Hx|([] & _ & Hx)]; [by eapply IH|done].
Qed.

Lemma with_table_same v k u : w_tables v !! k = Some u -> with_table v k u (w_store v) (w_func_refs v) = v.
Proof. intros Hu. unfold with_table. rewrite list_insert_id by done. by destruct v. Qed.

Lemma own_plan_lookup d plan :
  own_plans !! d = Some plan -> table_plans (i_module req) !! table_index (i_module req) d = Some plan.
Proof. unfold own_plans, table_index. by rewrite lookup_drop. Qed.

Lemma lazy_plan d plan :
  own_plans !! d = Some plan -> table_plans lazy_module !! table_index lazy_module d = Some (plan_style true plan).
Proof. intros Hd%own_plan_lookup. cbn. rewrite list_lookup_fmap. unfold table_index in *. cbn. by rewrite Hd. Qed.

Lemma eager_plan d plan :
  own_plans !! d = Some plan -> table_plans eager_module !! table_index eager_module d = Some (plan_style false plan).
Proof. intros Hd%own_plan_lookup. cbn. rewrite list_lookup_fmap. unfold table_index in *. cbn. by rewrite Hd. Qed.

Definition started cur v v' : Prop := exists img, starting cur img v v'.

(** Both engines go on, or both panic. *)
Definition agree_on {E} (Q : World T H L -> World T H L -> Prop) (m m' : outcome E (World T H L)) : Prop :=
  match m, m' with Ok a, Ok b => Q a b | Panic, Panic => True | _, _ => False end.

(** A table that the lazy engine has an image for. *)
Lemma init_converted refs0 cur img v v' d plan f pre :
  request_ok oc refs0 live req -> starting cur img v v' -> own_plans !! d = Some plan -> (d < length cur)%nat ->
  initial_values (table_initialization (i_module req)) !! d = Some (InitExpr [RefFunc f]) -> fin !! d = Some (InitNull pre) ->
  agree_on (started (<[d := InitNull (replicate (Z.to_nat (plan_min plan)) f)]> cur)) (Ok (E:=init_error) v)
    (initialize_table oc dbg n (d, InitExpr [RefFunc f]) v').
Proof.
  intros Hreq Hs Hd Hdl Hsrc Hfin. destruct (starting_tables _ _ _ _ _ _ Hs Hd) as (t & t' & Ht & Ht' & Hta & Hty & Hsz).
  destruct (rq_expr _ _ _ _ Hreq d _ plan Hsrc (own_plan_lookup _ _ Hd)) as [_ Hrf]. destruct (Hrf f eq_refl) as (Hpf & Hfv & Hne).
  destruct (st_table _ _ _ _ Hs d plan Hd) as (t0 & Ht0 & _ & _ & Hfresh). rewrite Ht in Ht0. injection Ht0 as <-. specialize (Hfresh pre Hfin Hpf).
  cbn [initialize_table]. unfold get_instance. rewrite (st_eager _ _ _ _ Hs). cbn [unwrap mbind outcome_bind].
  assert (Hcb : context_placed oc eager_instance) by (destruct (rq_placed _ _ _ _ Hreq); by split).
  destruct (get_func_ref_ok (E:=const_error) oc eager_instance (w_func_refs v') f Hcb Hfv) as (p & refs1 & Hg).
  pose proof (get_func_ref_inv oc _ _ _ _ _ Hcb Hg) as (Hp & _ & Hv).
  assert (Hsome : exists p0, p = Some p0).
  { unfold get_func_ref in Hg. rewrite (proj2 (Z.eqb_neq _ _) Hne) in Hg. apply bind_Ok_inv in Hg as (? & _ & Hg).
    apply bind_Ok_inv in Hg as (? & _ & Hg). apply bind_Ok_inv in Hg as (? & _ & Hg). injection Hg as <- _. by eexists. }
  destruct Hsome as [p0 ->]. cbn [unwrap_or_null] in *.
  unfold eval_expr, const_eval. cbn [eval_ops eval_op]. unfold ref_func. cbn [eval_context ctx_func_ref]. rewrite Hg.
  cbn [mbind outcome_bind unwrap unwrap_result].
  rewrite (new_table_lookup v' eager_instance d plan t' (st_eager _ _ _ _ Hs) eq_refl Hd Ht'). cbn [mbind outcome_bind i_module eager_instance set_compiled].
  rewrite (eager_plan d plan Hd). cbn [unwrap mbind outcome_bind plan_style table].
  rewrite <- (tables_agree_size _ _ _ _ Hta).
  rewrite (size_any _ _ Hsz). cbn [mbind outcome_bind]. rewrite (proj1 (plan_type_func plan) Hpf).
  assert (Hraw : raw_get_funcref (raw_funcref p0) = p0) by (apply Z.mod_small, Hv). rewrite Hraw.
  destruct Hta as [[_ Hgc]|(l & l' & mx & Hr & Hr' & Hn & _)]; [congruence|].
  destruct (repr_func_unique _ _ _ _ _ _ _ Hfresh Hr) as (Hl & _ & Hmx). subst mx.
  assert (Hlen : length l' = Z.to_nat (plan_min plan)) by (by rewrite <- Hn, <- Hl, length_replicate).
  rewrite <- Hlen. destruct (init_all_repr t' l' false _ p0 Hr') as (u' & Hu' & Hru'). rewrite Hu'. cbn [map_err mbind outcome_bind agree_on].
  exists (set_image img d (image_value (Some (InitNull (replicate (length l') f))))).
  rewrite <- (with_table_same v (base + d) t Ht) at 1.
  assert (Hst : w_store v' = w_store v) by (symmetry; apply (wa_store _ _ _ _ _ (st_agree _ _ _ _ Hs))). rewrite Hst.
  eapply starting_write; try done. right. eexists _, _, _. split; [exact Hr|]. split; [exact Hru'|].
  split; [by rewrite Hn, length_replicate|]. intros j q z Hq Hz. left. apply lookup_replicate in Hz as [-> Hj]. split.
  - rewrite <- Hl in Hq. by apply lookup_replicate in Hq as [-> _].
  - eexists. split; [done|]. unfold image_at. rewrite fmap_replicate, lookup_replicate_2 by done. cbn. split; [exact Hp|apply Hv].
Qed.

Lemma agree_on_bind {E A B} (P : A -> B -> Prop) Q (m : outcome E A) (m' : outcome E B) f g :
  agree P m m' -> (forall e, m <> Err e) -> (forall a b, m = Ok a -> m' = Ok b -> P a b -> agree_on Q (f a) (g b)) ->
  agree_on Q (m ≫= f) (m' ≫= g).
Proof. destruct m as [|e|], m'; cbn; intros Hm He Hf; try done; [by apply Hf|by destruct (He e)]. Qed.

(** The same references go into the same table of references. *)
Lemma init_kept_gc cur img v v' d plan e s refs refs' t t' r :
  starting cur img v v' -> own_plans !! d = Some plan -> (d < length cur)%nat -> fin !! d = Some (InitExpr e) ->
  refs_grow (w_func_refs v) refs -> tables_agree (w_func_refs v) (image_value (cur !! d)) t t' ->
  element_type t = ElementGcRef -> plan_type plan = ElementGcRef -> table_size (E:=Empty_set) t = Ok (plan_min plan) ->
  agree_on (started (<[d := InitExpr e]> cur))
    ('(u, s) ← map_err InitTrap (init_gc_refs_iter t 0 (Z.to_nat (plan_min plan)) (clone_items s r (Z.to_nat (plan_min plan))));
     Ok (with_table v (base + d) u s refs))
    ('(u, s) ← map_err InitTrap (init_gc_refs_iter t' 0 (Z.to_nat (plan_min plan)) (clone_items s r (Z.to_nat (plan_min plan))));
     Ok (with_table v' (base + d) u s refs')).
Proof.
  intros Hs Hd Hdl Hfin Hg Hta Hty Hpt Hsz. destruct Hta as [[<- _]|(l & l' & m & Hr & _)]; [|by rewrite (repr_func_type _ _ _ _ Hr) in Hty].
  pose proof (init_all_gc t (plan_min plan) (clone_items s r (Z.to_nat (plan_min plan))) Hty Hsz) as Hgc.
  destruct (init_gc_refs_iter _ _ _ _) as [[u s1]|err|].
  - destruct Hgc as [H1 H2]; [intros; by eapply clone_items_length|intros; apply clone_items_no_err|]. cbn.
    exists (set_image img d (image_value (Some (InitExpr e)))). eapply starting_write; try done; [by rewrite Hpt|by left|].
    intros pre Hpre. congruence.
  - destruct Hgc; [intros; by eapply clone_items_length|intros; apply clone_items_no_err].
  - done.
Qed.

Lemma init_kept refs0 cur img v v' d plan e :
  request_ok oc refs0 live req -> starting cur img v v' -> own_plans !! d = Some plan -> (d < length cur)%nat ->
  initial_values (table_initialization (i_module req)) !! d = Some (InitExpr e) -> fin !! d = Some (InitExpr e) ->
  agree_on (started (<[d := InitExpr e]> cur)) (initialize_table oc dbg n (d, InitExpr e) v) (initialize_table oc dbg n (d, InitExpr e) v').
Proof.
  intros Hreq Hs Hd Hdl Hsrc Hfin. destruct (starting_tables _ _ _ _ _ _ Hs Hd) as (t & t' & Ht & Ht' & Hta & Hty & Hsz).
  destruct (rq_expr _ _ _ _ Hreq d _ plan Hsrc (own_plan_lookup _ _ Hd)) as [Htyped _].
  cbn [initialize_table]. unfold get_instance. rewrite (st_lazy _ _ _ _ Hs), (st_eager _ _ _ _ Hs). cbn [unwrap mbind outcome_bind].
  rewrite <- (wa_store _ _ _ _ _ (st_agree _ _ _ _ Hs)).
  apply (agree_on_bind _ _ _ _ _ _ (eval_agree oc dbg lazy_instance eager_instance (w_func_refs v) (w_func_refs v') (w_store v) e new_instances_agree));
    [intros; apply unwrap_result_no_err|].
  intros [[raw s] refs] [[raw' s'] refs'] Hx _ [Heq Hg]. cbn in Heq, Hg. injection Heq as <- <-.
  rewrite (new_table_lookup v _ d plan t (st_lazy _ _ _ _ Hs) eq_refl Hd Ht),
    (new_table_lookup v' _ d plan t' (st_eager _ _ _ _ Hs) eq_refl Hd Ht').
  cbn [mbind outcome_bind i_module lazy_instance eager_instance set_compiled].
  rewrite (lazy_plan d plan Hd), (eager_plan d plan Hd). cbn [unwrap mbind outcome_bind plan_style table].
  rewrite <- (tables_agree_size _ _ _ _ Hta), (size_any _ _ Hsz). cbn [mbind outcome_bind].
  destruct (top _) eqn:Htop.
  - assert (Hpt : plan_type plan = ElementGcRef) by (unfold plan_type, wasm_to_table_type; by rewrite Htop).
    eapply init_kept_gc; try done. by rewrite Hty.
  - assert (Hpt : plan_type plan = ElementGcRef) by (unfold plan_type, wasm_to_table_type; by rewrite Htop).
    eapply init_kept_gc; try done. by rewrite Hty.
  - assert (Hpt : plan_type plan = ElementFunc) by (by apply plan_type_func). rewrite Hpt in Hty.
    destruct (wa_ok _ _ _ _ _ (st_agree _ _ _ _ Hs) n lazy_instance (st_lazy _ _ _ _ Hs)) as [Hc Hgl].
    assert (Hv : valid_ptr refs (raw_get_funcref raw)).
    { eapply (eval_valid oc dbg lazy_instance (w_func_refs v)); [exact Hc|exact Hgl|exact (Htyped Hpt)|exact Hx]. }
    destruct (init_all_agree refs (image_value (cur !! d)) None t t' (raw_get_funcref raw) (plan_min plan)) as (u & u' & -> & -> & Hu & Huty & Husz);
      [by eapply tables_agree_grow|done|done|done|].
    cbn. exists (set_image img d (image_value (Some (InitExpr e)))). eapply starting_write; try done; [by rewrite Hpt|].
    intros pre Hpre. congruence.
Qed.

(** One table. *)
Lemma init_value refs0 cur img v v' d plan src y :
  request_ok oc refs0 live req -> starting cur img v v' -> own_plans !! d = Some plan -> (d < length cur)%nat ->
  cur !! d = Some (InitNull []) -> initial_values (table_initialization (i_module req)) !! d = Some src ->
  fin !! d = Some y -> same_kind (convert_initial src plan) y ->
  agree_on (started (<[d := convert_initial src plan]> cur)) (initialize_table oc dbg n (d, y) v) (initialize_table oc dbg n (d, src) v').
Proof.
  intros Hreq Hs Hd Hdl Hcur Hsrc Hfin Hk.
  assert (Hcase : (exists pre, src = InitNull pre) \/ (exists e, src = InitExpr e /\ convert_initial src plan = InitExpr e) \/
    (exists f, src = InitExpr [RefFunc f] /\ convert_initial src plan = InitNull (replicate (Z.to_nat (plan_min plan)) f))).
  { unfold convert_initial. fold (plan_min plan). destruct src as [pre|e]; [by eauto|right].
    destruct (_ <? _); [by eauto|]. destruct e as [|[] [|]]; eauto. }
  destruct Hcase as [[pre ->]|[(e & -> & He)|(f & -> & Hf)]].
  - rewrite (rq_null _ _ _ _ Hreq _ _ Hsrc) in *.
    assert (Hc : convert_initial (InitNull []) plan = InitNull []) by (unfold convert_initial; by destruct (_ <? _)).
    rewrite Hc in *. destruct y; [|done]. cbn. exists img. by rewrite list_insert_id.
  - rewrite He in *. destruct y as [|e']; [done|]. cbn in Hk. subst e'. by eapply init_kept.
  - rewrite Hf in *. destruct y as [pre|]; [|done]. by eapply init_converted.
Qed.

(** *** All initial values *)

Definition runs_on {E} (Q : World T H L -> World T H L -> Prop) (x y : World T H L * outcome E ()) : Prop :=
  match x.2, y.2 with Ok _, Ok _ => Q x.1 y.1 | Panic, Panic => True | _, _ => False end.

Section Values.
  Context (refs0 : gmap Z VMFuncRef) (Hreq : request_ok oc refs0 live req).

Definition source_values : list TableInitialValue := initial_values (table_initialization (i_module req)).
Definition converted : list TableInitialValue := convert_initials source_values own_plans.

(** The values after [k] turns of the loop. *)
Definition values_at (k : nat) : list TableInitialValue :=
  take k converted ++ replicate (length source_values - k) (InitNull []).

Definition kinds_agree : Prop :=
  length fin = length source_values /\
  forall d x, converted !! d = Some x -> exists y, fin !! d = Some y /\ same_kind x y.

Definition init_turn (x : nat * TableInitialValue) (w : World T H L) : World T H L * outcome init_error () :=
  commit w (stored (initialize_table oc dbg n x w)).

Lemma own_plans_length : length own_plans = length source_values.
Proof using Hreq. unfold own_plans, source_values. rewrite length_drop. pose proof (rq_counts _ _ _ _ Hreq). lia. Qed.

Lemma init_values k ls lf v v' :
  kinds_agree -> ls = drop k source_values -> lf = drop k fin -> (k <= length source_values)%nat -> started (values_at k) v v' ->
  runs_on (started converted) (for_each init_turn (imap (fun i => pair (k + i)%nat) lf) v)
    (for_each init_turn (imap (fun i => pair (k + i)%nat) ls) v').
Proof using Hreq.
  intros Hkinds. revert k lf v v'. induction ls as [|src ls IH]; intros k lf v v' Hls Hlf Hk Hst.
  - assert (k = length source_values) as ->.
    { symmetry in Hls. apply (f_equal length) in Hls. rewrite length_drop in Hls. cbn in Hls. lia. }
    rewrite <- (proj1 Hkinds), drop_all in Hlf. subst lf. cbn. unfold values_at in Hst.
    rewrite Nat.sub_diag, take_ge, app_nil_r in Hst by (unfold converted; rewrite convert_initials_length; lia). done.
  - assert (Hsrc : source_values !! k = Some src) by (rewrite <- (Nat.add_0_r k), <- lookup_drop, <- Hls; done).
    assert (Hkl : (k < length source_values)%nat) by (by eapply lookup_lt_Some).
    destruct (lookup_lt_is_Some_2 own_plans k) as [plan Hplan]; [by rewrite own_plans_length|].
    assert (Hconv : converted !! k = Some (convert_initial src plan)) by (unfold converted; by rewrite convert_initials_lookup, Hsrc, Hplan).
    destruct (proj2 Hkinds k _ Hconv) as (y & Hy & Hkind).
    rewrite (drop_S _ _ _ Hy) in Hlf. rewrite (drop_S _ _ _ Hsrc) in Hls. injection Hls as Hls. subst lf. cbn [imap for_each].
    assert (Hcl : length (values_at k) = length source_values).
    { unfold values_at. rewrite length_app, length_take, length_replicate. unfold converted. rewrite convert_initials_length. lia. }
    assert (Htake : length (take k converted) = k).
    { rewrite length_take. unfold converted. rewrite convert_initials_length. lia. }
    destruct Hst as [img Hst].
    pose proof (init_value refs0 (values_at k) img v v' k plan src y Hreq Hst Hplan ltac:(lia)) as Hstep.
    assert (Hnext : <[k := convert_initial src plan]> (values_at k) = values_at (S k)).
    { unfold values_at. rewrite (take_S_r _ _ _ Hconv). rewrite <- Htake at 1. rewrite insert_app_r_alt, Nat.sub_diag by lia.
      replace (length source_values - k)%nat with (S (length source_values - S k)) by lia. cbn. by rewrite <- app_assoc. }
    rewrite Hnext in Hstep. rewrite Nat.add_0_r.
    assert (Hcur : values_at k !! k = Some (InitNull [])).
    { unfold values_at. rewrite lookup_app_r, Htake, Nat.sub_diag by lia. apply lookup_replicate_2. lia. }
    specialize (Hstep Hcur Hsrc Hy Hkind). unfold init_turn at 1 3.
    destruct (initialize_table oc dbg n (k, y) v) as [x|?|], (initialize_table oc dbg n (k, src) v') as [x'|?|]; try done. cbn in Hstep |- *.
    rewrite !(imap_ext ((fun i => pair (k + i)%nat) ∘ S) (fun i => pair (S k + i)%nat)) by (intros; cbn; f_equal; lia).
    by apply (IH (S k)).
Qed.

(** *** Segments that are in images *)

Lemma func_addr_untagged f : func_valid req f -> untagged (func_addr req f).
Proof using Hreq.
  intros Hf. destruct (get_func_ref_ok (E:=Empty_set) oc req ∅ f (rq_placed _ _ _ _ Hreq) Hf) as (p & refs & Hg).
  destruct (get_func_ref_inv oc _ _ _ _ _ (rq_placed _ _ _ _ Hreq) Hg) as (<- & _ & [Hu _]). done.
Qed.

Lemma eager_items {E} refs fs :
  Forall (func_valid req) fs -> exists refs', func_ref_items (E:=E) oc eager_instance refs fs = Ok (func_addr req <$> fs, refs').
Proof using Hreq.
  assert (Hcb : context_placed oc eager_instance) by (destruct (rq_placed _ _ _ _ Hreq); by split).
  intros Hf. revert refs. induction Hf as [|f fs Hf Hfs IH]; intros refs; cbn [func_ref_items]; [by eexists|].
  destruct (get_func_ref_ok (E:=E) oc eager_instance refs f Hcb Hf) as (p & refs1 & Hg). rewrite Hg. cbn [mbind outcome_bind].
  destruct (get_func_ref_inv oc _ _ _ _ _ Hcb Hg) as (Hp & _ & _). destruct (IH refs1) as [refs2 ->]. cbn. exists refs2. by rewrite Hp.
Qed.

Lemma image_at_resize (pre : list Z) k j :
  (length pre <= k)%nat -> image_at (func_addr req <$> resize k reserved_value pre) j = image_at (func_addr req <$> pre) j.
Proof.
  intros Hk. unfold image_at. rewrite !list_lookup_fmap, resize_ge by done.
  destruct (decide (j < length pre)%nat); [by rewrite lookup_app_l|]. rewrite lookup_app_r, (lookup_ge_None_2 pre j) by lia.
  destruct (replicate _ _ !! _) as [x|] eqn:Hx; [|done]. by apply lookup_replicate in Hx as [-> _].
Qed.

(** A slot of an untouched table holds what the image says on the other side. *)
Lemma fresh_agree refs im (k : nat) l' :
  lists_agree refs (Some im) (replicate k 0) l' <->
  length l' = k /\ forall j p, l' !! j = Some p -> p = image_at im j /\ untagged p.
Proof.
  unfold lists_agree. rewrite length_replicate. split.
  - intros [Hk Hl]. split; [done|]. intros j p Hp.
    destruct (Hl j 0 p) as [(_ & im' & [= <-] & Hi & Hu)|[Hx _]]; [apply lookup_replicate_2; rewrite Hk; by eapply lookup_lt_Some|done|done|].
    by destruct (tagged_nonzero p).
  - intros [<- Hl]. split; [done|]. intros j q p Hq Hp. apply lookup_replicate in Hq as [-> _].
    destruct (Hl j p Hp) as [Hi Hu]. left. split; [done|]. by exists im.
Qed.

Lemma agree_new_image refs k l' pre fs (off : nat) end_ :
  lists_agree refs (Some (func_addr req <$> pre)) (replicate k 0) l' -> Forall (func_valid req) fs ->
  end_ = Z.of_nat (off + length fs) -> (off + length fs <= k)%nat ->
  lists_agree refs
    (Some (func_addr req <$> overwrite (if Z.of_nat (length pre) <? end_ then resize (Z.to_nat end_) reserved_value pre else pre) off fs))
    (replicate k 0) (overwrite l' off (func_addr req <$> fs)).
Proof using Hreq.
  intros [Hlen Hl]%fresh_agree Hfs He Hk. apply fresh_agree.
  assert (Hlf : length (func_addr req <$> fs) = length fs) by apply length_fmap.
  split; [rewrite length_overwrite; lia|]. intros j p Hp. rewrite overwrite_lookup in Hp by lia.
  set (pre1 := if _ <? _ then _ else _).
  assert (Hpre : (off + length fs <= length pre1)%nat /\ image_at (func_addr req <$> pre1) j = image_at (func_addr req <$> pre) j).
  { subst pre1. destruct (Z.ltb_spec (Z.of_nat (length pre)) end_); [|split; [lia|done]].
    split; [rewrite length_resize; lia|]. apply image_at_resize. lia. }
  destruct Hpre as [Hpl Hpi]. unfold image_at in *. rewrite list_lookup_fmap in Hpi |- *. rewrite overwrite_lookup by done. rewrite Hlf in Hp.
  case_decide as Hj.
  - rewrite list_lookup_fmap in Hp. destruct (fs !! (j - off)%nat) as [f|] eqn:Hf; [|done]. cbn in Hp |- *. injection Hp as <-. split; [done|].
    apply func_addr_untagged. by eapply Forall_lookup_1.
  - rewrite Hpi. by apply Hl.
Qed.

Lemma with_state_same v : with_state v (w_store v) (w_func_refs v) = v.
Proof. by destruct v. Qed.

Lemma offset_value o : raw_get_u32 (raw_i32 o) = o mod 2 ^ 32.
Proof. unfold raw_get_u32, raw_get_i32. by rewrite signed_mod, raw_i32_mod, Z.mod_mod by lia. Qed.

Lemma eval_offset {E} inst (s : GcStore T H) refs o :
  eval_expr (E:=E) oc dbg inst s refs [I32Const o] = Ok (raw_i32 o, s, refs).
Proof. done. Qed.

(** What the pass knows of a segment that it applies, in terms of the source module. *)
Lemma applied_segment_table cur seg cur' :
  apply_segment (E:=Empty_set) (plan_tables true (i_module req)) cur seg = Ok (Some cur') ->
  exists d o plan fs pre,
    defined_table_index (i_module req) (ts_table seg) = Some d /\ own_plans !! d = Some plan /\ plan_type plan = ElementFunc /\
    seg = {| ts_table := ts_table seg; ts_offset := [I32Const o]; ts_elements := Functions fs |} /\
    cur !! d = Some (InitNull pre) /\ segment_len (Functions fs) = Z.of_nat (length fs) /\
    o mod 2 ^ 32 + Z.of_nat (length fs) <= plan_min plan /\
    cur' = <[d := InitNull (overwrite (if Z.of_nat (length pre) <? Z.of_nat (Z.to_nat (o mod 2 ^ 32) + length fs)
                                       then resize (Z.to_nat (Z.of_nat (Z.to_nat (o mod 2 ^ 32) + length fs))) reserved_value pre else pre)
                              (Z.to_nat (o mod 2 ^ 32)) fs)]> cur.
Proof.
  intros Ha. apply apply_segment_inv in Ha as (d & o & plan & fs & pre & Hd & Ho & Hp & Htop & He & Hc & Hlen & Hmin & _ & ->).
  cbn in Hp. rewrite list_lookup_fmap in Hp. destruct (table_plans (i_module req) !! ts_table seg) as [plan0|] eqn:Hp0; [|done].
  injection Hp as <-. cbn in Hmin, Htop. pose proof (Z.mod_pos_bound o (2 ^ 32) ltac:(lia)).
  exists d, o, plan0, fs, pre. split; [done|]. split.
  { unfold own_plans. rewrite lookup_drop. unfold defined_table_index, defined_index in Hd.
    change (TableInit.num_imported_tables (plan_tables true (i_module req))) with (TableInit.num_imported_tables (i_module req)) in Hd.
    destruct (Nat.ltb_spec (ts_table seg) (TableInit.num_imported_tables (i_module req))); [done|]. injection Hd as <-. rewrite <- Hp0. f_equal. lia. }
  split; [by apply plan_type_func|]. split; [destruct seg as [ti off els]; cbn in Ho, He |- *; by rewrite Ho, He|]. split; [done|]. rewrite He in Hlen. split; [done|].
  split; [done|]. replace (Z.of_nat (Z.to_nat (o mod 2 ^ 32) + length fs)) with (o mod 2 ^ 32 + Z.of_nat (length fs)) by lia. done.
Qed.

Lemma eager_table_at v' d plan t' index :
  w_instances v' !! n = Some eager_instance -> defined_table_index (i_module req) index = Some d -> own_plans !! d = Some plan ->
  w_tables v' !! (base + d)%nat = Some t' -> forall E, get_table (T:=T) (H:=H) (L:=L) (E:=E) v' n index = Ok ((base + d)%nat, t').
Proof.
  intros Hi Hd Hp Ht E. unfold get_table, with_defined_table_index, get_instance. rewrite Hi. cbn [unwrap mbind outcome_bind].
  unfold defined_table_index in *. cbn. rewrite Hd. cbn. by eapply new_table_lookup.
Qed.

(** The lazy engine need not do anything for such a segment. *)
Lemma image_segment cur img v v' seg cur' :
  starting cur img v v' -> seg ∈ segments (table_initialization (i_module req)) ->
  (forall d pre, cur !! d = Some (InitNull pre) -> exists pre', fin !! d = Some (InitNull pre')) ->
  apply_segment (E:=Empty_set) (plan_tables true (i_module req)) cur seg = Ok (Some cur') ->
  exists v2, initialize_segment oc dbg n seg v' = (v2, Ok ()) /\ started cur' v v2.
Proof using Hreq.
  intros Hs Hin Hkind Ha. destruct (applied_segment_table _ _ _ Ha) as (d & o & plan & fs & pre & Hd & Hp & Hpt & Hseg & Hc & Hlen & Hmin & ->).
  destruct (rq_segment _ _ _ _ Hreq seg Hin) as (_ & _ & Hfs). rewrite Hseg in Hfs. cbn in Hfs.
  destruct (starting_tables _ _ _ _ _ _ Hs Hp) as (t & t' & Ht & Ht' & Hta & Hty & Hsz).
  destruct (st_table _ _ _ _ Hs d plan Hp) as (t0 & Ht0 & _ & _ & Hfresh). rewrite Ht in Ht0. injection Ht0 as <-.
  destruct (Hkind d pre Hc) as [pre' Hpre']. specialize (Hfresh pre' Hpre' Hpt). rewrite Hc in Hta. cbn [image_value] in Hta.
  destruct Hta as [[_ Hgc]|(l & l' & mx & Hr & Hr' & Hl)]; [congruence|].
  destruct (repr_func_unique _ _ _ _ _ _ _ Hfresh Hr) as (<- & _ & <-).
  assert (Hlen' : length l' = Z.to_nat (plan_min plan)) by (by rewrite <- (proj1 Hl), length_replicate).
  pose proof (Z.mod_pos_bound o (2 ^ 32) ltac:(lia)) as Hmod. set (off := Z.to_nat (o mod 2 ^ 32)) in *.
  unfold initialize_segment, get_instance. rewrite (st_eager _ _ _ _ Hs), Hseg. cbn [unwrap mbind outcome_bind ts_offset ts_elements ts_table].
  rewrite eval_offset. cbn [with_ok]. rewrite with_state_same, offset_value. unfold table_init_segment, get_instance.
  rewrite (st_eager _ _ _ _ Hs). cbn [unwrap mbind outcome_bind]. rewrite (eager_table_at v' d plan t' (ts_table seg) (st_eager _ _ _ _ Hs) Hd Hp Ht').
  cbn [mbind outcome_bind]. unfold subslice. rewrite Hlen, Nat2Z.id, in_range_bounds by (unfold in_u; lia).
  unfold in_bounds at 1. rewrite (proj2 (Z.leb_le _ _)) by lia. cbn [mbind outcome_bind]. change (Z.to_nat 0) with 0%nat.
  rewrite drop_0, take_ge by lia. unfold init_func_iter. rewrite (repr_funcrefs _ _ _ _ Hr'). cbn [mbind outcome_bind].
  rewrite in_range_bounds by done. unfold in_bounds at 1. rewrite (proj2 (Z.leb_le _ _)) by lia.
  destruct (eager_items (E:=Trap) (w_func_refs v') fs Hfs) as [refs' Hitems]. rewrite Hitems. cbn [mbind outcome_bind].
  unfold init_func. rewrite (repr_funcrefs _ _ _ _ Hr'). cbn [mbind outcome_bind]. rewrite length_fmap, in_range_bounds by done.
  unfold in_bounds at 1. rewrite (proj2 (Z.leb_le _ _)) by lia. fold off.
  assert (Hid : map (fun item => tagged_from item false) (func_addr req <$> fs) = func_addr req <$> fs) by apply map_id. rewrite Hid.
  destruct (repr_funcrefs_mut (E:=Trap) t' l' false (plan_max plan) (overwrite l' off (func_addr req <$> fs)) Hr') as (u' & Hu' & Hru').
  { apply length_overwrite. rewrite length_fmap. lia. }
  rewrite Hu'. cbn [mbind outcome_bind map_err stored commit]. eexists. split; [done|].
  eexists. rewrite <- (with_table_same v (base + d) t Ht) at 1.
  assert (Hst : w_store v' = w_store v) by (symmetry; apply (wa_store _ _ _ _ _ (st_agree _ _ _ _ Hs))). rewrite Hst.
  eapply starting_write; try done; [by eapply lookup_lt_Some|]. cbn [image_value]. right. eexists _, _, _. split; [exact Hfresh|].
  split; [exact Hru'|]. apply agree_new_image; try done. lia.
Qed.

(** Nor to check its bounds. *)
Lemma image_segment_check cur img v v' seg cur1 cur2 :
  starting cur img v v' -> apply_segment (E:=Empty_set) (plan_tables true (i_module req)) cur1 seg = Ok (Some cur2) ->
  check_segment oc dbg n seg v' = (v', Ok ()).
Proof using Hreq.
  intros Hs Ha. destruct (applied_segment_table _ _ _ Ha) as (d & o & plan & fs & pre & Hd & Hp & Hpt & Hseg & Hc & Hlen & Hmin & _).
  destruct (starting_tables _ _ _ _ _ _ Hs Hp) as (t & t' & Ht & Ht' & Hta & Hty & Hsz).
  assert (Hok : plan_ok plan).
  { eapply (Forall_lookup_1 _ _ _ _ (rq_plans _ _ _ _ Hreq)). by apply own_plan_lookup. }
  destruct Hok as [[_ Hmax] _].
  unfold check_segment. rewrite (eager_table_at v' d plan t' (ts_table seg) (st_eager _ _ _ _ Hs) Hd Hp Ht'). cbn [mbind outcome_bind].
  unfold get_instance. rewrite (st_eager _ _ _ _ Hs), Hseg. cbn [unwrap mbind outcome_bind ts_offset ts_elements].
  rewrite eval_offset. cbn [mbind outcome_bind]. rewrite <- (tables_agree_size _ _ _ _ Hta), Hsz. cbn [mbind outcome_bind with_ok].
  rewrite with_state_same, offset_value, Hlen. pose proof (Z.mod_pos_bound o (2 ^ 32) ltac:(lia)) as Hmod.
  unfold checked. rewrite in_ub_true by (unfold in_u; lia). by rewrite (proj2 (Z.leb_le _ _)) by lia.
Qed.

Lemma image_prefix cur pre v v' :
  applied (plan_tables true (i_module req)) cur pre fin -> started cur v v' ->
  (forall seg, seg ∈ pre -> seg ∈ segments (table_initialization (i_module req))) ->
  exists v2, for_each (initialize_segment oc dbg n) (pre ++ rest) v' = for_each (initialize_segment oc dbg n) rest v2 /\ started fin v v2.
Proof using Hreq.
  intros Ha. remember fin as fin0 eqn:Hfin. revert v'. induction Ha as [cur|cur seg cur' segs fin' Hseg Ha IH]; intros v' Hst Hin; subst.
  { by exists v'. }
  destruct Hst as [img Hst]. destruct (image_segment cur img v v' seg cur' Hst) as (v2 & Hv2 & Hst2); [apply Hin; by left| |exact Hseg|].
  - intros d p Hd. destruct (applied_kind _ _ _ _ d _ (applied_cons _ _ _ _ _ _ Hseg Ha) Hd) as ([p'|] & Hp & Hk); [by exists p'|done].
  - cbn [app for_each]. rewrite Hv2. apply IH; [done|done|]. intros s Hs. apply Hin. by right.
Qed.

Lemma check_prefix cur img cur1 pre v v' :
  applied (plan_tables true (i_module req)) cur1 pre fin -> starting cur img v v' ->
  for_each (check_segment oc dbg n) (pre ++ rest) v' = for_each (check_segment oc dbg n) rest v'.
Proof using Hreq.
  intros Ha Hst. remember fin as fin0 in Ha. clear Heqfin0. induction Ha as [c|c seg c' segs fin' Hseg Ha IH]; [done|]. cbn [app for_each].
  by rewrite (image_segment_check _ _ _ _ _ _ _ Hst Hseg).
Qed.

(** *** Segments that both engines run *)

Lemma starting_state cur img v v' s refs refs' :
  starting cur img v v' -> refs_grow (w_func_refs v) refs -> starting cur img (with_state v s refs) (with_state v' s refs').
Proof. intros [Hw H1 H2 H3 H4 H5] Hg. split; cbn; try done. by apply agree_with_state. Qed.

Definition settles {E} (Q : World T H L -> World T H L -> Prop) (P : E -> World T H L -> World T H L -> Prop)
    (x y : World T H L * outcome E ()) : Prop :=
  match x.2, y.2 with
  | Ok _, Ok _ => Q x.1 y.1
  | Err e, Err e' => e = e' /\ P e x.1 y.1
  | Panic, Panic => True
  | _, _ => False
  end.

Lemma settles_each {E A} Q (P : E -> World T H L -> World T H L -> Prop) f (l : list A) v v' :
  Q v v' -> (forall x w w', x ∈ l -> Q w w' -> settles Q P (f x w) (f x w')) -> settles Q P (for_each f l v) (for_each f l v').
Proof.
  revert v v'. induction l as [|x l IH]; intros v v' Hq Hf; [done|]. cbn [for_each].
  pose proof (Hf x v v' ltac:(by left) Hq) as Hx. destruct (f x v) as [w [[]|e|]], (f x v') as [w' [[]|e'|]]; try done.
  apply IH; [done|]. intros y u u' Hy. apply Hf. by right.
Qed.

Definition agree_live (ls : list nat) v v' : Prop := exists img, worlds_agree oc ls img v v'.

Lemma check_both cur img seg v v' :
  starting cur img v v' ->
  settles (starting cur img) (fun e v v' => (e = SegmentDoesNotFit) /\ agree_live live v v')
    (check_segment oc dbg n seg v) (check_segment oc dbg n seg v').
Proof.
  intros Hs. pose proof (st_agree _ _ _ _ Hs) as Hw. unfold check_segment.
  match goal with |- settles _ _ (with_ok _ ?m _) (with_ok _ ?m' _) =>
    assert (Hm : agree (fun x y => x.1 = y.1 /\ refs_grow (w_func_refs v) x.2) m m') end.
  { eapply agree_bind; [by eapply agree_table|]. intros [k t] [k' t'] _ _ (_ & _ & _ & Hta). cbn in Hta.
    eapply agree_bind; [by eapply agree_instance|]. intros a b _ _ (Hab & _ & _). rewrite <- (wa_store _ _ _ _ _ Hw).
    eapply agree_bind; [by apply (eval_agree oc dbg a b (w_func_refs v) (w_func_refs v'))|]. intros [[r s] rf] [[r' s'] rf'] _ _ [Heq Hg].
    cbn in Heq, Hg. injection Heq as <- <-. rewrite <- (tables_agree_size _ _ _ _ Hta). eapply agree_bind; [apply agree_eq|]. intros z _ _ _ <-. done. }
  match goal with |- settles _ _ (with_ok _ ?m _) (with_ok _ ?m' _) => destruct m as [[[[start size] s] rf]|?|], m' as [[[[start' size'] s'] rf']|?|] end; try done.
  cbn in Hm. destruct Hm as [[= <- <- <-] Hg]. cbn [with_ok].
  assert (Hst : starting cur img (with_state v s rf) (with_state v' s rf')) by (by apply starting_state).
  unfold settles. cbn. destruct (checked 64 _) as [e|]; [destruct (e <=? size)|]; [done|..];
    (split; [done|]); (split; [done|]); exists img; apply Hst.
Qed.

Lemma starting_done img v v' : kinds_agree -> images_valid lazy_instance -> starting fin img v v' -> worlds_agree oc (n :: live) img v v'.
Proof using Hreq.
  intros Hkinds Hiv [[Hi Hs Hlim Hn Ht Hok Hlive Hbd] H1 H2 H3 H4 H5]. split; try done.
  - intros i inst Hli Hin. destruct (decide (i = n)) as [->|Hne].
    + rewrite H1 in Hin. injection Hin as <-. split; [done|]. split.
      * intros d k Hk. cbn in Hk. apply lookup_seq in Hk as [-> Hd]. destruct (lookup_lt_is_Some_2 _ _ Hd) as [plan Hp].
        rewrite (H4 d plan Hp). split; [done|]. destruct (H5 d plan Hp) as (t & Hlt & _). by eapply lookup_lt_Some.
      * eapply Forall_impl; [exact (rq_imports _ _ _ _ Hreq)|]. cbn. intros x Hx. by right.
    + apply list.elem_of_cons in Hli as [|Hli]; [done|]. destruct (Hlive i inst Hli Hin) as (A & B & C). split_and!; try done.
      eapply Forall_impl; [exact C|]. cbn. intros x Hx. by right.
  - constructor; [by eapply lookup_lt_Some|done].
Qed.

Lemma lazy_typed index els : elements_typed req index els -> elements_typed lazy_instance index els.
Proof.
  destruct els as [fs|es]; [done|]. intros Ht plan Hp Htop. cbn in Hp. rewrite list_lookup_fmap in Hp.
  destruct (table_plans (i_module req) !! index) as [plan0|] eqn:Hp0; [|done]. injection Hp as <-. by eapply Ht.
Qed.

Definition running v v' : Prop := agree_live (n :: live) v v' /\ w_instances v !! n = Some lazy_instance.

Lemma segment_instances w i index els dst src len w1 :
  table_init_segment (T:=T) (H:=H) (L:=L) oc dbg w i index els dst src len = Ok w1 -> w_instances w1 = w_instances w.
Proof.
  unfold table_init_segment. intros Hx. apply bind_Ok_inv in Hx as (inst & _ & Hx). apply bind_Ok_inv in Hx as ([k t] & _ & Hx).
  destruct els as [fs|es]; apply bind_Ok_inv in Hx as (l & _ & Hx).
  - apply bind_Ok_inv in Hx as ([u r] & _ & Hx). by injection Hx as <-.
  - apply bind_Ok_inv in Hx as (p & _ & Hx). apply bind_Ok_inv in Hx as ([u [s r]] & _ & Hx). by injection Hx as <-.
Qed.

Lemma segment_both seg v v' :
  elements_typed req (ts_table seg) (ts_elements seg) -> running v v' ->
  settles running (fun e v v' => (exists t, e = InitTrap t) /\ agree_live (n :: live) v v')
    (initialize_segment oc dbg n seg v) (initialize_segment oc dbg n seg v').
Proof.
  intros Hty [[img Hw] Hl]. unfold initialize_segment.
  match goal with |- settles _ _ (with_ok _ ?m _) (with_ok _ ?m' _) =>
    assert (Hm : agree (fun x y => x.1 = y.1 /\ refs_grow (w_func_refs v) x.2) m m') end.
  { eapply agree_bind; [by eapply agree_instance|]. intros a b _ _ (Hab & _ & _). rewrite <- (wa_store _ _ _ _ _ Hw). by apply eval_agree. }
  match goal with |- settles _ _ (with_ok _ ?m _) (with_ok _ ?m' _) => destruct m as [[[start s] rf]|?|], m' as [[[start' s'] rf']|?|] end; try done.
  cbn in Hm. destruct Hm as [[= <- <-] Hg]. cbn [with_ok].
  assert (Hw1 : worlds_agree oc (n :: live) img (with_state v s rf) (with_state v' s rf')) by (by apply agree_with_state).
  assert (Hu : in_u 32 (raw_get_u32 start)) by (apply Z.mod_pos_bound; lia).
  pose proof (agree_segment oc dbg (n :: live) img _ _ n (ts_table seg) (ts_elements seg) (raw_get_u32 start) 0
    (segment_len (ts_elements seg)) Hw1 Hu) as Hseg.
  assert (Htyl : forall inst, w_instances (with_state v s rf) !! n = Some inst -> elements_typed inst (ts_table seg) (ts_elements seg)).
  { cbn. intros inst Hi. rewrite Hl in Hi. injection Hi as <-. by apply lazy_typed. }
  specialize (Hseg Htyl).
  destruct (table_init_segment _ _ (with_state v s rf) _ _ _ _ _ _) as [w1|e|] eqn:Hx, (table_init_segment _ _ (with_state v' s rf') _ _ _ _ _ _) as [w1'|e'|];
    try done; cbn.
  - split; [by exists img|]. by rewrite (segment_instances _ _ _ _ _ _ _ _ Hx).
  - cbn in Hseg. subst e'. split; [done|]. split; [by eexists|]. by exists img.
Qed.

(** *** Both engines *)

(** After a failed check the new instance is out of reach. *)
Definition live_after {A} (r : outcome init_error A) : list nat :=
  match r with Ok _ | Err (InitTrap _) => n :: live | _ => live end.

Definition finished (x y : World T H L * outcome init_error ()) : Prop :=
  match x.2, y.2 with
  | Ok _, Ok _ => agree_live (n :: live) x.1 y.1
  | Err e, Err e' => e = e' /\ agree_live (live_after (A:=()) (Err e)) x.1 y.1
  | Panic, Panic => True
  | _, _ => False
  end.

Context (pre : list TableSegment) (Hsegs : segments (table_initialization (i_module req)) = pre ++ rest)
  (Happ : applied (plan_tables true (i_module req)) converted pre fin).

Lemma kinds_applied : kinds_agree.
Proof using Happ.
  split.
  - rewrite (applied_length _ _ _ _ Happ). apply convert_initials_length.
  - intros d x Hx. by apply (applied_kind _ _ _ _ d x Happ).
Qed.

Lemma applied_valid cur segs fin' :
  applied (plan_tables true (i_module req)) cur segs fin' ->
  (forall seg, seg ∈ segs -> seg ∈ segments (table_initialization (i_module req))) ->
  (forall d p f, cur !! d = Some (InitNull p) -> f ∈ p -> func_valid req f) ->
  forall d p f, fin' !! d = Some (InitNull p) -> f ∈ p -> func_valid req f.
Proof using Hreq.
  intros Ha. induction Ha as [cur|cur seg cur' segs fin' Hseg Ha IH]; intros Hin Hc; [done|]. apply IH; [intros; apply Hin; by right|].
  intros d p f Hd Hf. destruct (applied_segment_table _ _ _ Hseg) as (d' & o & plan & fs & pre' & _ & _ & _ & Hs & Hcd & _ & _ & ->).
  apply list_lookup_insert_Some in Hd as [(<- & Hp & _)|[_ Hd]]; [|exact (Hc _ _ _ Hd Hf)]. injection Hp as <-.
  destruct (rq_segment _ _ _ _ Hreq seg (Hin seg ltac:(by left))) as (_ & _ & Hfs). rewrite Hs in Hfs. cbn in Hfs.
  unfold overwrite in Hf. rewrite !list.elem_of_app in Hf. destruct Hf as [Hf|[Hf|Hf]].
  2:{ by eapply Forall_forall in Hfs. }
  all: assert (Hr : f ∈ (if Z.of_nat (length pre') <? Z.of_nat (Z.to_nat (o mod 2 ^ 32) + length fs)
         then resize (Z.to_nat (Z.of_nat (Z.to_nat (o mod 2 ^ 32) + length fs))) reserved_value pre' else pre'))
      by (first [apply elem_of_take in Hf as (j & Hj & _); exact (list_elem_of_lookup_2 _ _ _ Hj)|
          apply list_elem_of_lookup_1 in Hf as [j Hj]; rewrite lookup_drop in Hj; exact (list_elem_of_lookup_2 _ _ _ Hj)]).
  all: destruct (_ <? _) in Hr; [|exact (Hc _ _ _ Hcd Hr)]; rewrite resize_spec in Hr; apply list.elem_of_app in Hr as [Hr|Hr];
    [apply elem_of_take in Hr as (j & Hj & _); exact (Hc _ _ _ Hcd (list_elem_of_lookup_2 _ _ _ Hj))|
     apply elem_of_replicate in Hr as [-> _]; by left].
Qed.

Lemma converted_valid d p f : converted !! d = Some (InitNull p) -> f ∈ p -> func_valid req f.
Proof using Hreq.
  unfold converted. rewrite convert_initials_lookup. intros Hd Hf. destruct (source_values !! d) as [src|] eqn:Hsrc; [|done].
  destruct (own_plans !! d) as [plan|] eqn:Hp.
  2:{ injection Hd as ->. rewrite (rq_null _ _ _ _ Hreq _ _ Hsrc) in Hf. by apply not_elem_of_nil in Hf. }
  injection Hd as Hd. unfold convert_initial in Hd. destruct src as [q|e].
  { assert (p = q) as -> by (destruct (_ <? _) in Hd; congruence). rewrite (rq_null _ _ _ _ Hreq _ _ Hsrc) in Hf. by apply not_elem_of_nil in Hf. }
  destruct (_ <? _); [done|]. destruct e as [|[] [|]]; try done. injection Hd as <-. apply elem_of_replicate in Hf as [-> _].
  destruct (rq_expr _ _ _ _ Hreq d _ plan Hsrc (own_plan_lookup _ _ Hp)) as [_ Hr]. by destruct (Hr _ eq_refl) as (_ & Hv & _).
Qed.

Lemma lazy_images_valid : images_valid lazy_instance.
Proof using Hreq Hsegs Happ.
  intros d p f Hd Hf. eapply (applied_valid converted pre fin Happ); [|exact converted_valid|exact Hd|exact Hf].
  intros seg Hin. rewrite Hsegs. apply list.elem_of_app. by left.
Qed.

Lemma tables_both img v v' :
  starting (values_at 0) img v v' -> finished (initialize_tables oc dbg n v) (initialize_tables oc dbg n v').
Proof using Hreq Hsegs Happ.
  intros Hst. unfold initialize_tables, get_instance. rewrite (st_lazy _ _ _ _ Hst), (st_eager _ _ _ _ Hst). cbn [unwrap with_ok].
  pose proof (init_values 0 source_values fin v v' kinds_applied eq_refl eq_refl ltac:(lia) ltac:(by exists img)) as Hv.
  change (imap (fun i => pair (0 + i)%nat) fin) with (imap pair fin) in Hv.
  change (imap (fun i => pair (0 + i)%nat) source_values) with (imap pair source_values) in Hv.
  change (initial_values (table_initialization (i_module lazy_instance))) with fin.
  change (initial_values (table_initialization (i_module eager_instance))) with source_values.
  change (segments (table_initialization (i_module lazy_instance))) with rest.
  change (segments (table_initialization (i_module eager_instance))) with (segments (table_initialization (i_module req))).
  change (fun x w => commit w (stored (initialize_table oc dbg n x w))) with init_turn.
  destruct (for_each init_turn (imap pair fin) v) as [w [[]|e|]], (for_each init_turn (imap pair source_values) v') as [w' [[]|e'|]]; try done.
  cbn in Hv. rewrite Hsegs. destruct (image_prefix converted pre w w' Happ Hv) as (w2 & Hw2 & img2 & Hst2).
  { intros seg Hin. rewrite Hsegs. apply list.elem_of_app. by left. }
  rewrite Hw2.
  assert (Hrun : running w w2).
  { split; [|apply Hst2]. exists img2. by apply starting_done; [apply kinds_applied|apply lazy_images_valid|]. }
  assert (Hstep : forall seg u u', seg ∈ rest -> running u u' ->
    settles running (fun e v v' => (exists t, e = InitTrap t) /\ agree_live (n :: live) v v')
      (initialize_segment oc dbg n seg u) (initialize_segment oc dbg n seg u')).
  { intros seg u u' Hin Hu. apply segment_both; [|done]. apply (rq_segment _ _ _ _ Hreq). rewrite Hsegs. apply list.elem_of_app. by right. }
  pose proof (settles_each running _ (initialize_segment oc dbg n) rest w w2 Hrun Hstep) as Hfin.
  destruct (for_each (initialize_segment oc dbg n) rest w) as [x [[]|e|]], (for_each (initialize_segment oc dbg n) rest w2) as [x' [[]|e'|]]; try done.
  - cbn in Hfin. apply Hfin.
  - cbn in Hfin. destruct Hfin as (<- & [tr ->] & Ha). done.
Qed.

Lemma instance_both img v v' bulk :
  starting (values_at 0) img v v' -> finished (initialize_instance oc dbg n bulk v) (initialize_instance oc dbg n bulk v').
Proof using Hreq Hsegs Happ.
  intros Hst. unfold initialize_instance. destruct bulk; [by eapply tables_both|].
  unfold check_table_init_bounds, get_instance. rewrite (st_lazy _ _ _ _ Hst), (st_eager _ _ _ _ Hst). cbn [unwrap with_ok].
  change (segments (table_initialization (i_module lazy_instance))) with rest.
  change (segments (table_initialization (i_module eager_instance))) with (segments (table_initialization (i_module req))).
  rewrite Hsegs, (check_prefix _ _ _ _ _ _ Happ Hst).
  pose proof (settles_each (starting (values_at 0) img) (fun e v v' => (e = SegmentDoesNotFit) /\ agree_live live v v')
    (check_segment oc dbg n) rest v v' Hst) as Hc.
  assert (Hstep : forall seg w w', seg ∈ rest -> starting (values_at 0) img w w' ->
    settles (starting (values_at 0) img) (fun e v v' => (e = SegmentDoesNotFit) /\ agree_live live v v')
      (check_segment oc dbg n seg w) (check_segment oc dbg n seg w')) by (intros; by apply check_both).
  specialize (Hc Hstep).
  destruct (for_each (check_segment oc dbg n) rest v) as [w [[]|e|]], (for_each (check_segment oc dbg n) rest v') as [w' [[]|e'|]]; try done.
  - cbn in Hc. by eapply tables_both.
  - cbn in Hc. destruct Hc as (<- & -> & Ha). done.
Qed.
End Values.
End Start.
