(* ===== verification/LazyRun.v ===== *)
(** * Programs over tables, with and without lazy initialisation

    A program instantiates modules and operates on their tables.  An engine that
    initialises tables lazily gives the same answers to it as one that runs all
    segments at once, and hands out pointers to functions that were filled in. *)

From Stdlib Require Import ZArith Lia.
From stdpp Require Import base list gmap numbers option sets.
From S2P Require Import Prelude VmOffsets MemoryTypes Mappings LinearMemory MetadataSections GcRef Drc GcStore WasmTypes TypeMatching Tables TableOps TableWorld ConstExpr TableInit LazyTables LazyWorld LazyInit.
Open Scope Z_scope.

Section Programs.
  Context {T H L : Type} `{!GcHeap T H} `{!ResourceLimiter L} (oc dbg : bool).
  Implicit Types (w v : World T H L) (live : list nat).

(** ** Instantiation *)

Lemma convert_styled lz inits plans : convert_initials inits (plan_style lz <$> plans) = convert_initials inits plans.
Proof. revert plans. induction inits as [|init inits IH]; intros [|plan plans]; cbn; [done..|]. by rewrite IH. Qed.

Lemma compile_lazy refs live req :
  request_ok oc refs live req ->
  exists fin rest pre, compile_tables (E:=Empty_set) true (i_module req) = Ok (lazy_module req fin rest) /\
    TableInit.segments (table_initialization (i_module req)) = pre ++ rest /\
    applied (plan_tables true (i_module req)) (converted req) pre fin.
Proof.
  intros Hreq. unfold compile_tables, try_func_table_init. cbn [initial_values TableInit.segments table_initialization plan_tables table_plans TableInit.num_imported_tables].
  rewrite <- fmap_drop, convert_styled. fold (own_plans req) (source_values req) (converted req).
  destruct (apply_segments_total (plan_tables true (i_module req)) (converted req) (TableInit.segments (table_initialization (i_module req)))) as [[fin rest] Hr].
  - apply Forall_forall. intros seg Hin. destruct (rq_segment _ _ _ _ Hreq seg Hin) as ([H1 H2] & _). split; [|done]. cbn. by rewrite length_fmap.
  - intros seg d Hin Hd. destruct (rq_segment _ _ _ _ Hreq seg Hin) as ([H1 _] & _). unfold converted. rewrite convert_initials_length.
    unfold defined_table_index, defined_index in Hd.
    change (TableInit.num_imported_tables (plan_tables true (i_module req))) with (TableInit.num_imported_tables (i_module req)) in Hd. pose proof (rq_counts _ _ _ _ Hreq) as Hc. fold (source_values req) in Hc.
    match type of Hd with (if ?b then _ else _) = _ => destruct b eqn:Hlt; [done|] end. injection Hd as <-.
    assert (Hge : (TableInit.num_imported_tables (i_module req) <= ts_table seg)%nat) by (by apply Nat.ltb_ge).
    lia.
  - rewrite Hr. destruct (apply_segments_spec _ _ _ _ _ Hr) as (pre & Hpre & Ha). exists fin, rest, pre. done.
Qed.

Lemma fresh_tables_agree refs plan t t' : fresh_pair plan t t' -> tables_agree refs (Some []) t t'.
Proof.
  unfold fresh_pair. destruct (plan_type plan).
  - intros [Ht Ht']. right. eexists _, _, _. split; [exact Ht|]. split; [exact Ht'|]. apply fresh_agree.
    split; [by rewrite length_replicate|]. intros j p Hp. apply lookup_replicate in Hp as [-> _]. split; [done|].
    split; [done|unfold in_u; lia].
  - intros (-> & Hg & _). by left.
Qed.

(** The stores with the new instance in them, before it is initialised. *)
Lemma pushed_starting img live w w' req fin rest ts ts' (l : option L) :
  worlds_agree oc live img w w' -> request_ok oc (w_func_refs w) live req -> fresh_pairs (own_plans req) ts ts' ->
  let n := length (w_instances w) in
  let base := length (w_tables w) in
  starting oc req live n base fin rest (values_at req 0) (fun k => if decide (k < base)%nat then img k else Some [])
    {| w_instances := w_instances w ++ [lazy_instance req base fin rest]; w_tables := w_tables w ++ ts; w_store := w_store w;
       w_func_refs := w_func_refs w; w_limits := l |}
    {| w_instances := w_instances w' ++ [eager_instance req base]; w_tables := w_tables w' ++ ts'; w_store := w_store w';
       w_func_refs := w_func_refs w'; w_limits := l |}.
Proof.
  intros Hw Hreq (Hl & Hl' & Hfresh) n base. destruct Hw as [Hi Hs Hlim Hn Ht Hok Hlive Hbd].
  assert (Hold : forall i inst, i ∈ live -> (w_instances w ++ [lazy_instance req base fin rest]) !! i = Some inst -> w_instances w !! i = Some inst).
  { intros i inst Hli Hin. rewrite lookup_app_l in Hin; [done|]. by eapply Forall_forall in Hbd. }
  assert (Hni : n = length (w_instances w')) by (by eapply Forall2_length).
  split; cbn.
  - split; cbn; try done.
    + apply Forall2_app; [done|]. constructor; [|done]. apply new_instances_agree.
    + by rewrite !length_app, Hn, Hl, Hl'.
    + intros k t t' Hk Hk'. case_decide as Hlt.
      * rewrite lookup_app_l in Hk by done. rewrite lookup_app_l in Hk' by lia. by apply Ht.
      * rewrite lookup_app_r in Hk by (fold base; lia). rewrite lookup_app_r in Hk' by lia. rewrite <- Hn in Hk'. fold base in Hk, Hk'.
        destruct (lookup_lt_is_Some_2 (own_plans req) (k - base)) as [plan Hp]; [rewrite <- Hl; by eapply lookup_lt_Some|].
        destruct (Hfresh _ _ Hp) as (u & u' & Hu & Hu' & Hf). simplify_eq. by eapply fresh_tables_agree.
    + intros i inst Hin. apply lookup_app_Some in Hin as [Hin|[Hge Hin]]; [by eapply Hok|].
      apply list_lookup_singleton_Some in Hin as [_ <-]. split; [apply new_placed, Hreq|exact (rq_globals _ _ _ _ Hreq)].
    + intros i inst Hli Hin%Hold; [|done]. destruct (Hlive i inst Hli Hin) as (A & B & C). split_and!; try done.
      intros d k Hk. destruct (B d k Hk) as [B1 B2]. rewrite decide_True, length_app by done. split; [done|lia].
    + eapply Forall_impl; [exact Hbd|]. cbn. intros i Hlt. rewrite length_app. lia.
  - by apply list_lookup_middle.
  - by apply list_lookup_middle.
  - intros i inst d k Hli Hin%Hold Hk; [|done]. destruct (Hlive i inst Hli Hin) as (_ & B & _). by apply (B d k).
  - intros d plan Hp. rewrite decide_False by lia. unfold values_at. rewrite lookup_app_r by (rewrite length_take; lia).
    rewrite take_0, Nat.sub_0_r. cbn [length]. rewrite Nat.sub_0_r, lookup_replicate_2; [done|].
    rewrite <- (own_plans_length _ _ _ _ Hreq). by eapply lookup_lt_Some.
  - intros d plan Hp. destruct (Hfresh d plan Hp) as (t & t' & Hu & _ & Hf). exists t. rewrite lookup_app_r by lia.
    replace (base + d - length (w_tables w))%nat with d by lia. split; [done|].
    unfold fresh_pair in Hf. destruct (plan_type plan) eqn:Hpt.
    + destruct Hf as [Hr _]. split; [by eapply repr_func_type|]. split; [|done]. rewrite (repr_size _ _ Hr). cbn. rewrite length_replicate.
      assert (Hpo : plan_ok plan) by (eapply (Forall_lookup_1 _ _ _ _ (rq_plans _ _ _ _ Hreq)); by apply own_plan_lookup).
      destruct Hpo as [[H0 _] _]. by rewrite Z2Nat.id.
    + destruct Hf as (_ & Hg & Hsz). done.
Qed.

Lemma instantiate_both img live w w' req bulk :
  worlds_agree oc live img w w' -> request_ok oc (w_func_refs w) live req ->
  let x := instantiate oc dbg true req bulk w in
  let y := instantiate oc dbg false req bulk w' in
  x.2 = y.2 /\ (x.2 <> Panic -> agree_live oc (live_after live (length (w_instances w)) x.2) x.1 y.1).
Proof.
  intros Hw Hreq. destruct (compile_lazy _ _ _ Hreq) as (fin & rest & pre & Hc & Hsegs & Happ).
  unfold instantiate. rewrite Hc. cbn [compile_tables with_ok].
  change (drop (TableInit.num_imported_tables (lazy_module req fin rest)) (table_plans (lazy_module req fin rest)))
    with (drop (TableInit.num_imported_tables (i_module req)) (plan_style true <$> table_plans (i_module req))).
  change (drop (TableInit.num_imported_tables (plan_tables false (i_module req))) (table_plans (plan_tables false (i_module req))))
    with (drop (TableInit.num_imported_tables (i_module req)) (plan_style false <$> table_plans (i_module req))).
  rewrite <- !fmap_drop. fold (own_plans req). rewrite <- (wa_limits _ _ _ _ _ Hw).
  destruct (allocate_pairs (own_plans req) (w_limits w)) as [Hl Ha].
  { unfold own_plans. apply Forall_drop, (rq_plans _ _ _ _ Hreq). }
  destruct (allocate_tables (plan_style true <$> own_plans req) (w_limits w)) as [l r],
    (allocate_tables (plan_style false <$> own_plans req) (w_limits w)) as [l' r']. cbn in Hl, Ha. subst l'.
  destruct r as [ts|e|], r' as [ts'|e'|]; cbn in Ha; try done.
  2:{ subst e'. cbn. split; [done|]. intros _. exists img. by apply agree_with_limits. }
  pose proof (pushed_starting img live w w' req fin rest ts ts' l Hw Hreq Ha) as Hst. cbn zeta in Hst. destruct Ha as (Hts & Hts' & _).
  rewrite Hts, Hts'. fold (new_ids req (length (w_tables w))). rewrite <- (wa_length _ _ _ _ _ Hw), <- (Forall2_length _ _ _ (wa_instances _ _ _ _ _ Hw)).
  fold (new_ids req (length (w_tables w))). fold (lazy_instance req (length (w_tables w)) fin rest) (eager_module req).
  fold (eager_instance req (length (w_tables w))).
  pose proof (instance_both oc dbg req live _ _ fin rest (w_func_refs w) Hreq pre Hsegs Happ _ _ _ bulk Hst) as Hf.
  destruct (initialize_instance oc dbg (length (w_instances w)) bulk {| w_instances := w_instances w ++ [lazy_instance req (length (w_tables w)) fin rest];
    w_tables := w_tables w ++ ts; w_store := w_store w; w_func_refs := w_func_refs w; w_limits := l |}) as [v r].
  destruct (initialize_instance oc dbg (length (w_instances w)) bulk {| w_instances := w_instances w' ++ [eager_instance req (length (w_tables w))];
    w_tables := w_tables w' ++ ts'; w_store := w_store w'; w_func_refs := w_func_refs w'; w_limits := l |}) as [v' r'].
  destruct r as [[]|e|], r' as [[]|e'|]; cbn in Hf |- *; try done. by destruct Hf as [<- Hf].
Qed.

(** ** Operations *)

(** What a program may ask for: it operates on instances that it can reach, with
    numbers of 32 bits, pointers that were handed out and modules that were
    validated. *)
Definition op_ok live w (o : store_op) : Prop :=
  match o with
  | Instantiate req _ => request_ok oc (w_func_refs w) live req
  | HostGet i _ j => i ∈ live /\ in_u 32 j
  | HostSet i _ j e => i ∈ live /\ in_u 32 j /\ element_ok (w_func_refs w) e
  | TableGet i _ j => i ∈ live /\ in_u 32 j
  | TableFill i t dst val len => i ∈ live /\ in_u 32 dst /\ in_u 32 len /\ value_ok w i t val
  | TableGrow i t delta val => i ∈ live /\ in_u 32 delta /\ value_ok w i t val
  | TableCopy i _ _ dst src len => i ∈ live /\ in_u 32 dst /\ in_u 32 src /\ in_u 32 len
  | TableInit i t elem dst src len =>
      i ∈ live /\ in_u 32 dst /\ in_u 32 src /\ in_u 32 len /\
      forall inst, w_instances w !! i = Some inst -> passive_typed inst t elem
  | ElemDrop i _ => i ∈ live
  | RefFuncOf i _ => i ∈ live
  end.

(** The instances that can be reached afterwards. *)
Definition reachable_after live w (o : store_op) (r : outcome op_error op_result) : list nat :=
  match o, r with
  | Instantiate _ _, (Ok _ | Err (NotInitialized (InitTrap _))) => length (w_instances w) :: live
  | _, _ => live
  end.

Lemma answers_answer {E A} live img (f : A -> op_result) (g : E -> op_error) x y :
  answers oc live img x y ->
  (answer f g x).2 = (answer f g y).2 /\ ((answer f g x).2 <> Panic -> agree_live oc live (answer f g x).1 (answer (T:=T) (H:=H) (L:=L) f g y).1).
Proof.
  unfold answers, answer, agree_live. destruct x as [v [a|e|]], y as [v' [b|e'|]]; cbn; try done;
    intros Hx; try (destruct Hx as [<- Hx]; split; [done|]; intros _; by exists img).
Qed.

Lemma store_op_agrees img live w w' o :
  worlds_agree oc live img w w' -> op_ok live w o ->
  let x := run_store_op oc dbg true w o in
  let y := run_store_op oc dbg false w' o in
  x.2 = y.2 /\ (x.2 <> Panic -> agree_live oc (reachable_after live w o x.2) x.1 y.1).
Proof.
  intros Hw Hok. destruct o as [req bulk|i d j|i d j e|i t j|i t dst val len|i t delta val|i dt st dst src len|i t elem dst src len|i elem|i f];
    cbn [op_ok run_store_op reachable_after] in *.
  - destruct (instantiate_both img live w w' req bulk Hw Hok) as [H1 H2]. unfold answer. cbn [snd fst].
    destruct (instantiate oc dbg true req bulk w) as [v r], (instantiate oc dbg false req bulk w') as [v' r']. cbn in *. subst r'.
    split; [done|]. intros Hp. destruct r as [a|[]|]; by apply H2.
  - destruct Hok as [Hi [Hj _]]. rewrite <- (Z2Nat.id j) by done. by apply (answers_answer live img), (answers_handed_out oc element_ready), agree_host_get.
  - destruct Hok as (Hi & Hj & He). by apply (answers_answer live img), answers_host_set.
  - destruct Hok as [Hi [Hj _]]. rewrite <- (Z2Nat.id j) by done. by apply (answers_answer live img), (answers_handed_out oc valid_ptr), agree_table_get.
  - destruct Hok as (Hi & Hd & Hn & Hv). by apply (answers_answer live img), answers_fill.
  - destruct Hok as (Hi & Hd & Hv). by apply (answers_answer live img), answers_grow.
  - destruct Hok as (Hi & Hd & Hs & Hn). by apply (answers_answer live img), answers_copy.
  - destruct Hok as (Hi & Hd & Hs & Hn & Ht). by apply (answers_answer live img), answers_init.
  - by apply (answers_answer live img), answers_elem_drop.
  - by apply (answers_answer live img), (answers_handed_out oc valid_ptr), agree_ref_func.
Qed.

(** A pointer to a function in an answer is null or was filled in. *)
Definition answer_ready (x : World T H L * outcome op_error op_result) : Prop :=
  match x.2 with
  | Ok (Pointer p) => valid_ptr (w_func_refs x.1) p
  | Ok (Element e) => element_ready (w_func_refs x.1) e
  | _ => True
  end.

Lemma handed_out_ready {A} (ok : gmap Z VMFuncRef -> A -> Prop) live img (m m' : outcome Empty_set (A * World T H L)) :
  agree (handed_out oc ok live img) m m' -> match m with Ok (a, v) => ok (w_func_refs v) a | _ => True end.
Proof. destruct m as [[a v]|?|], m' as [[a' v']|?|]; try done. by intros (_ & _ & ?). Qed.

Lemma store_op_ready img live w w' o :
  worlds_agree oc live img w w' -> op_ok live w o -> answer_ready (run_store_op oc dbg true w o).
Proof.
  intros Hw Hok. unfold answer_ready. destruct o as [req bulk|i d j|i d j e|i t j|i t dst val len|i t delta val|i dt st dst src len|i t elem dst src len|i elem|i f];
    cbn [op_ok run_store_op answer fst snd] in *.
  2:{ destruct Hok as [Hi [Hj _]]. pose proof (handed_out_ready _ _ _ _ _ (agree_host_get oc live img w w' i d (Z.to_nat j) Hw Hi)) as Hr.
      rewrite Z2Nat.id in Hr by done. by destruct (host_table_get _ _ _ _ _) as [[e v]|?|]. }
  3:{ destruct Hok as [Hi [Hj _]]. pose proof (handed_out_ready _ _ _ _ _ (agree_table_get oc live img w w' i t (Z.to_nat j) Hw Hi)) as Hr.
      rewrite Z2Nat.id in Hr by done. by destruct (table_get_lazy_init_func_ref _ _ _ _ _) as [[p v]|?|]. }
  8:{ pose proof (handed_out_ready _ _ _ _ _ (agree_ref_func oc live img w w' i f Hw)) as Hr. by destruct (libcall_ref_func _ _ _ _) as [[p v]|?|]. }
  all: match goal with |- match match ?r with _ => _ end with _ => _ end => by destruct r end.
Qed.

(** ** Programs *)

Definition empty_world (s : GcStore T H) (l : option L) : World T H L :=
  {| w_instances := []; w_tables := []; w_store := s; w_func_refs := ∅; w_limits := l |}.

(** The answers of an engine, up to the first panic. *)
Fixpoint run_program (table_lazy_init : bool) w (ops : list store_op) : list (outcome op_error op_result) :=
  match ops with
  | [] => []
  | o :: ops =>
      let '(w, r) := run_store_op oc dbg table_lazy_init w o in
      r :: match r with Panic => [] | _ => run_program table_lazy_init w ops end
  end.

Fixpoint program_ok live w (ops : list store_op) : Prop :=
  match ops with
  | [] => True
  | o :: ops =>
      op_ok live w o /\
      let x := run_store_op oc dbg true w o in
      x.2 <> Panic -> program_ok (reachable_after live w o x.2) x.1 ops
  end.

(** Every answer of the lazy engine is ready when it is given. *)
Fixpoint program_ready w (ops : list store_op) : Prop :=
  match ops with
  | [] => True
  | o :: ops =>
      let x := run_store_op oc dbg true w o in
      answer_ready x /\ (x.2 <> Panic -> program_ready x.1 ops)
  end.

Lemma empty_agree s l : worlds_agree oc [] (fun _ => None) (empty_world s l) (empty_world s l).
Proof. by split. Qed.

Lemma programs_agree live w w' ops :
  agree_live oc live w w' -> program_ok live w ops -> run_program true w ops = run_program false w' ops.
Proof.
  revert live w w'. induction ops as [|o ops IH]; intros live w w' [img Hw] Hok; [done|]. cbn [run_program program_ok] in *.
  destruct Hok as [Ho Hops]. destruct (store_op_agrees img live w w' o Hw Ho) as [Hr Ha].
  destruct (run_store_op oc dbg true w o) as [v r], (run_store_op oc dbg false w' o) as [v' r']. cbn in Hr, Ha, Hops. subst r'.
  f_equal. destruct r as [a|e|]; [| |done]; (eapply IH; [by apply Ha|by apply Hops]).
Qed.

Lemma programs_ready live w w' ops : agree_live oc live w w' -> program_ok live w ops -> program_ready w ops.
Proof.
  revert live w w'. induction ops as [|o ops IH]; intros live w w' [img Hw] Hok; [done|]. cbn [program_ready program_ok] in *.
  destruct Hok as [Ho Hops]. split; [by eapply store_op_ready|]. intros Hp.
  destruct (store_op_agrees img live w w' o Hw Ho) as [_ Ha]. eapply IH; [by apply Ha|by apply Hops].
Qed.

(** C11: Lazy initialisation of tables cannot be observed: a program that instantiates
    modules, reads, writes, fills, grows, copies and initialises tables, also tables
    that are imported from other instances, gets the same answers, traps and errors
    (and panics, where there are any) from an engine that moves segments into images of
    tables and fills in slots when they are first read as from an engine that runs every
    initialiser and segment at instantiation, in any build and with any collector and
    limits. *)
Theorem lazy_tables_unobservable (s : GcStore T H) (l : option L) ops :
  program_ok [] (empty_world s l) ops -> run_program true (empty_world s l) ops = run_program false (empty_world s l) ops.
Proof. apply programs_agree. eexists. apply empty_agree. Qed.

(** C12: Lazy initialisation never hands out a pointer to a [VMFuncRef] that was not
    filled in: every function that a program reads from a table, or takes a reference
    to, is null or a pointer, with the tag bit clear, to one that was constructed. *)
Theorem lazy_pointers_ready (s : GcStore T H) (l : option L) ops :
  program_ok [] (empty_world s l) ops -> program_ready (empty_world s l) ops.
Proof. apply programs_ready with (empty_world s l). eexists. apply empty_agree. Qed.
End Programs.

(** ** Witnesses *)

(** A module with two functions and a table of four slots: its segment goes into the
    image, and a program reads and copies slots. *)
Definition table_fields : VMOffsetsFields := {|
  ptr := 8; num_imported_functions := 0; VmOffsets.num_imported_tables := 0; num_imported_memories := 0;
  num_imported_globals := 0; num_defined_tables := 1; num_defined_memories := 0;
  num_owned_memories := 0; num_defined_globals := 0; num_escaped_funcs := 2;
  num_call_indirect_caches := 0 |}.

Definition table_offsets : VMOffsets :=
  match from (E:=Empty_set) true table_fields with Ok o => o | _ => {| VmOffsets.fields := table_fields; offsets := []; VmOffsets.size := 0 |} end.

Definition table_module : Module := {|
  num_imported_funcs := 0; functions := [{| signature := 0; func_ref := 0 |}; {| signature := 0; func_ref := 1 |}];
  TableInit.num_imported_tables := 0;
  table_plans := [{| table := {| Table.wasm_ty := {| nullable := true; rt_heap_type := HFunc |}; Table.minimum := 4; Table.maximum := None |};
                     style := CallerChecksSignature true; written := false; non_null_zero := false |}];
  table_initialization := {| initial_values := [InitNull []];
    TableInit.segments := [{| ts_table := 0; ts_offset := [I32Const 1]; ts_elements := Functions [1; 0] |}] |};
  passive_elements := []; passive_elements_map := ∅ |}.

Definition table_request : Instance := {|
  i_module := table_module; i_tables := []; i_imported_tables := []; i_dropped_elements := ∅; i_globals := [];
  i_vmctx := 65536; i_offsets := table_offsets; i_type_ids := [7]; i_trampolines := [Some 100; Some 200];
  i_functions := [101; 201]; i_imported_functions := [] |}.

Definition table_program : list store_op :=
  [Instantiate table_request true; HostGet 0 0 0; HostGet 0 0 1; TableCopy 0 0 0 2 1 2; TableGet 0 0 3].

Definition table_start : World Z DrcHeap StoreLimits := empty_world (store one_object) None.

Lemma table_request_ok : request_ok true ∅ [] table_request.
Proof.
  split.
  - split; [exists table_fields; split; [split; unfold in_u; cbn; lia|by vm_compute]|done|cbn; lia|].
    repeat constructor; unfold in_u; cbn; lia.
  - intros g ty v Hg. by destruct g.
  - constructor.
  - reflexivity.
  - constructor; [|constructor]. split; [unfold in_u; cbn; lia|done].
  - intros [|d] pre Hd; [by injection Hd as <-|destruct d; discriminate].
  - intros [|d] e plan Hd; [discriminate|destruct d; discriminate].
  - intros seg Hin. apply list_elem_of_singleton in Hin as ->. split; [split; cbn; lia|]. split; [done|].
    constructor; [|constructor; [|constructor]]; right; eexists; (split; [done|]); (split; [vm_compute; split; done|]);
      (split; [by eexists|]); (split; [by eexists|by eexists]).
Qed.

Lemma table_program_ok :
  program_ok (GcHeap0:=DrcHeap_GcHeap true true elements) true true [] table_start table_program.
Proof.
  unfold table_program. cbn [program_ok op_ok]. split; [exact table_request_ok|]. intros _.
  set (x := run_store_op true true true table_start _).
  assert (Hr : x.2 = Ok (NewInstance 0)) by (vm_compute; reflexivity). cbn [reachable_after]. rewrite Hr. clearbody x.
  change (length (w_instances table_start)) with 0%nat.
  split; [split; [by left|by unfold in_u]|]. intros _. cbn [reachable_after].
  split; [split; [by left|by unfold in_u]|]. intros _. cbn [reachable_after].
  split; [split; [by left|by unfold in_u]|]. intros _. cbn [reachable_after].
  split; [split; [by left|by unfold in_u]|]. done.
Qed.

Lemma lazy_tables_unobservable_witness :
  run_program (GcHeap0:=DrcHeap_GcHeap true true elements) true true true table_start table_program =
  run_program (GcHeap0:=DrcHeap_GcHeap true true elements) true true false table_start table_program /\
  run_program (GcHeap0:=DrcHeap_GcHeap true true elements) true true true table_start table_program =
    [Ok (NewInstance 0); Ok (Element (Some (FuncRef 0))); Ok (Element (Some (FuncRef 65680))); Ok Nothing; Ok (Pointer 65648)].
Proof.
  split.
  - exact (lazy_tables_unobservable (GcHeap0:=DrcHeap_GcHeap true true elements) true true (store one_object) None table_program table_program_ok).
  - vm_compute. reflexivity.
Defined.

Lemma lazy_pointers_ready_witness :
  program_ready (GcHeap0:=DrcHeap_GcHeap true true elements) true true table_start table_program.
Proof.
  exact (lazy_pointers_ready (GcHeap0:=DrcHeap_GcHeap true true elements) true true (store one_object) None table_program table_program_ok).
Defined.
