(* ===== verification/ConstTyping.v ===== *)
(** * The values of constant expressions

    What an expression of [ConstExpr] means, with the types of WebAssembly: numbers of
    their width, null, references to functions, 31-bit integers and objects, each with the
    heap types and the nullability of [WasmTypes].  The interpreter works on untyped raw
    values; here its results, in the context of an instance ([TableInit]), are the encodings
    of the values that the typed expressions denote.

    The functions of a store are given by [funcs], from the addresses of their [VMFuncRef]s
    to what is in them once they are filled in. *)

From Stdlib Require Import ZArith Lia.
From stdpp Require Import base list gmap numbers option.
From S2P Require Import Prelude VmOffsets GcRef Drc GcStore WasmTypes TypeMatching TableOps TableWorld ConstExpr TableInit LazyWorld LazyRun.
Open Scope Z_scope.

(** ** Values *)

Inductive wasm_value :=
| WI32 (i : Z)
| WI64 (i : Z)
| WF32 (bits : Z)
| WF64 (bits : Z)
| WV128 (bits : Z)
| WNull
| WFunc (p : Z)
| WI31 (i : Z)
| WObject (r : Z).

(** The raw value that stands for a value. *)
Definition encode (v : wasm_value) : ValRaw :=
  match v with
  | WI32 i | WI64 i | WF32 i | WF64 i | WV128 i => i
  | WNull => 0
  | WFunc p => p
  | WI31 i => 2 * i + 1
  | WObject r => r
  end.

(** The references of a value that the collector counts. *)
Definition gc_refs (v : wasm_value) : list Z :=
  match v with WI31 _ | WObject _ => [encode v] | _ => [] end.

(** The bits of a global that a type uses. *)
Definition width (ty : ValType) : Z :=
  match ty with
  | VI32 | VF32 => 32
  | VI64 | VF64 => 64
  | VV128 => 128
  | VRef r => match top (rt_heap_type r) with TopFunc => 64 | TopExtern | TopAny => 32 end
  end.

(** ** What an expression denotes *)

Section Denotation.
  Context (inst : Instance) (globals : list wasm_value).

Definition denote_op (stack : list wasm_value) (op : ConstOp) : option (list wasm_value) :=
  match op with
  | I32Const i => Some (WI32 (i mod 2 ^ 32) :: stack)
  | I64Const i => Some (WI64 (i mod 2 ^ 64) :: stack)
  | F32Const bits => Some (WF32 bits :: stack)
  | F64Const bits => Some (WF64 bits :: stack)
  | V128Const bits => Some (WV128 bits :: stack)
  | GlobalGet g => v ← globals !! g; Some (v :: stack)
  | RefNull => Some (WNull :: stack)
  | RefFunc f => Some (WFunc (func_addr inst f) :: stack)
  | RefI31 => match stack with WI32 i :: stack => Some (WI31 (i mod 2 ^ 31) :: stack) | _ => None end
  end.

Fixpoint denote_ops (stack : list wasm_value) (e : ConstExpr) : option (list wasm_value) :=
  match e with
  | [] => Some stack
  | op :: e => stack ← denote_op stack op; denote_ops stack e
  end.

Definition denote (e : ConstExpr) : option wasm_value :=
  match denote_ops [] e with Some [v] => Some v | _ => None end.
End Denotation.

(** ** Types *)

(** The type of a function that escapes, as an index of the engine. *)
Definition func_type (inst : Instance) (f : Z) : option Z :=
  if f =? reserved_value then None
  else
    ft ← functions (i_module inst) !! Z.to_nat f;
    if bool_decide (0 <= func_ref ft < num_escaped_funcs (VmOffsets.fields (i_offsets inst))) then i_type_ids inst !! signature ft else None.

(** The types on the stack after an operation; a null has the type that is expected of
    the expression. *)
Definition type_op (globals : list ValType) (inst : Instance) (expected : ValType) (stack : list ValType) (op : ConstOp)
  : option (list ValType) :=
  match op with
  | I32Const _ => Some (VI32 :: stack)
  | I64Const _ => Some (VI64 :: stack)
  | F32Const bits => if in_ub 32 bits then Some (VF32 :: stack) else None
  | F64Const bits => if in_ub 64 bits then Some (VF64 :: stack) else None
  | V128Const bits => if in_ub 128 bits then Some (VV128 :: stack) else None
  | GlobalGet g => ty ← globals !! g; Some (ty :: stack)
  | RefNull => match expected with VRef {| nullable := true |} => Some (expected :: stack) | _ => None end
  | RefFunc f => t ← func_type inst f; Some (VRef {| nullable := false; rt_heap_type := HConcreteFunc t |} :: stack)
  | RefI31 => match stack with VI32 :: stack => Some (VRef {| nullable := false; rt_heap_type := HI31 |} :: stack) | _ => None end
  end.

Fixpoint type_ops (globals : list ValType) (inst : Instance) (expected : ValType) (stack : list ValType) (e : ConstExpr)
  : option (list ValType) :=
  match e with
  | [] => Some stack
  | op :: e => stack ← type_op globals inst expected stack op; type_ops globals inst expected stack e
  end.

Section Types.
  Context (lookup : Z -> option WasmSubType) (funcs : gmap Z VMFuncRef).

Definition val_sub (a b : ValType) : Prop :=
  match a, b with
  | VRef a, VRef b => (nullable a = true -> nullable b = true) /\ heap_sub lookup (rt_heap_type a) (rt_heap_type b)
  | VRef _, _ | _, VRef _ => False
  | a, b => a = b
  end.

(** A value of a type.  The objects of this collector are those that host values have. *)
Definition has_type (v : wasm_value) (ty : ValType) : Prop :=
  match v, ty with
  | WI32 i, VI32 => in_u 32 i
  | WI64 i, VI64 => in_u 64 i
  | WF32 i, VF32 => in_u 32 i
  | WF64 i, VF64 => in_u 64 i
  | WV128 i, VV128 => in_u 128 i
  | WNull, VRef r => nullable r = true
  | WFunc p, VRef r =>
      0 < p < 2 ^ 64 /\ exists f, funcs !! p = Some f /\ heap_sub lookup (HConcreteFunc (type_index f)) (rt_heap_type r)
  | WI31 i, VRef r => in_u 31 i /\ heap_sub lookup HI31 (rt_heap_type r)
  | WObject o, VRef r => 0 < o < 2 ^ 32 /\ is_i31 o = false /\ heap_sub lookup HExtern (rt_heap_type r)
  | _, _ => False
  end.

Definition expr_type (globals : list ValType) (inst : Instance) (e : ConstExpr) (ty : ValType) : Prop :=
  exists t, type_ops globals inst ty [] e = Some [t] /\ val_sub t ty.

(** The [VMFuncRef] of a function is filled in. *)
Definition ready (refs : gmap Z VMFuncRef) (v : wasm_value) : Prop :=
  match v with WFunc p => is_Some (refs !! p) | _ => True end.

(** An instance: its functions are those of the store, and its globals hold values of
    their types, whose references are among [l]. *)
Record instance_typed (oc : bool) (inst : Instance) (tys : list ValType) (vals : list wasm_value) (refs : gmap Z VMFuncRef) (l : list Z) : Prop := {
  it_placed : context_placed oc inst;
  it_addresses p : is_Some (funcs !! p) -> 0 < p < 2 ^ 64;
  it_functions f ft : f <> reserved_value -> functions (i_module inst) !! Z.to_nat f = Some ft ->
    0 <= func_ref ft < num_escaped_funcs (VmOffsets.fields (i_offsets inst)) ->
    exists fr, construct_func_ref (E:=const_error) inst f (signature ft) = Ok fr /\ funcs !! func_addr inst f = Some fr;
  it_refs : refs ⊆ funcs;
  it_types : (i_globals inst).*1 = val_to_wasm <$> tys;
  it_globals g ty bits t : i_globals inst !! g = Some (ty, bits) -> tys !! g = Some t ->
    exists v, vals !! g = Some v /\ has_type v t /\ bits mod 2 ^ width t = encode v /\ gc_refs v ⊆ l /\ ready refs v
}.
End Types.

(** ** Types and raw values *)

Section Values.
  Context (lookup : Z -> option WasmSubType) (funcs : gmap Z VMFuncRef).

Lemma heap_sub_top a b : heap_sub lookup a b -> top a = top b.
Proof. by induction 1; [|congruence|..]. Qed.

Lemma has_type_sub v a b : has_type lookup funcs v a -> val_sub lookup a b -> has_type lookup funcs v b.
Proof.
  destruct a as [| | | | |ra], b as [| | | | |rb]; cbn [val_sub]; try done. intros Hv [Hn Hs].
  destruct v; cbn in *; try done; [by apply Hn| | |].
  - destruct Hv as (Hp & f & Hf & Hh). split; [done|]. exists f. split; [done|]. by eapply sub_trans.
  - destruct Hv as [Hi Hh]. split; [done|]. by eapply sub_trans.
  - destruct Hv as (Ho & Hi & Hh). split; [done|]. split; [done|]. by eapply sub_trans.
Qed.

(** The values of reference types by the top of their heap type. *)
Lemma ref_cases v r : has_type lookup funcs v (VRef r) ->
  v = WNull \/ (exists p, v = WFunc p /\ top (rt_heap_type r) = TopFunc /\ 0 < p < 2 ^ 64) \/
  (gc_refs v = [encode v] /\ top (rt_heap_type r) <> TopFunc /\ 0 < encode v < 2 ^ 32).
Proof.
  destruct v; cbn; try done; [by left| | |].
  - intros (Hp & f & _ & Hs). apply heap_sub_top in Hs. right. left. by exists p.
  - intros [Hi Hs]. apply heap_sub_top in Hs. right. right. rewrite <- Hs. unfold in_u in Hi. split_and!; try done; lia.
  - intros (Ho & _ & Hs). apply heap_sub_top in Hs. right. right. rewrite <- Hs. done.
Qed.

Lemma encode_bound v ty : has_type lookup funcs v ty -> 0 <= encode v < 2 ^ width ty.
Proof.
  destruct ty as [| | | | |r]; cbn [width]; [destruct v; cbn; unfold in_u; done..|].
  intros [->|[(p & -> & -> & Hp)|(_ & Ht & Hb)]]%ref_cases; cbn; [|lia|].
  - destruct (top _); lia.
  - destruct (top _); [lia..|done].
Qed.

Lemma top_to_wasm h : top (heap_to_wasm h) = top h.
Proof. by destruct h. Qed.

(** A global of the type that is set to the raw value holds the value. *)
Lemma stored_again v ty : has_type lookup funcs v ty -> from_val_raw (val_to_wasm ty) (encode v) = encode v.
Proof.
  intros Hv. pose proof (encode_bound v ty Hv) as Hb. destruct ty as [| | | | |r]; cbn [width val_to_wasm from_val_raw] in *.
  - unfold raw_get_i32. by rewrite signed_mod, Z.mod_small by lia.
  - unfold raw_get_i64. by rewrite signed_mod, Z.mod_small by lia.
  - by apply Z.mod_small.
  - by apply Z.mod_small.
  - by apply Z.mod_small.
  - cbn [ref_to_wasm rt_heap_type]. rewrite top_to_wasm.
    unfold raw_get_externref, raw_get_anyref, raw_get_funcref, from_raw_u32, gc_ref_bits.
    destruct (top _); rewrite Z.mod_small by lia; [|..|done]; by destruct (Z.eqb_spec (encode v) 0).
Qed.
End Values.

(** ** The interpreter computes what is denoted *)

Section Sound.
  Context {T H : Type} `{!GcHeap T H} (inv : GcStore T H -> list Z -> Prop) (room : Z) `{!GcAccounting inv room}.
  Context (oc dbg : bool) (lookup : Z -> option WasmSubType) (funcs : gmap Z VMFuncRef).
  Context (inst : Instance) (tys : list ValType) (vals : list wasm_value) (l : list Z).
  Implicit Types (s : GcStore T H) (refs : gmap Z VMFuncRef) (vs : list wasm_value) (ts : list ValType).

Abbreviation typed := (has_type lookup funcs).
Abbreviation instance_ok refs := (instance_typed lookup funcs oc inst tys vals refs l).

(** The stack of the interpreter, for the values it stands for. *)
Record stack_ok vs ts s refs : Prop := {
  so_types : Forall2 typed vs ts;
  so_ready : Forall (ready refs) vs;
  so_inv : inv s (concat (gc_refs <$> vs) ++ l)
}.

Lemma gc_refs_length vs : (length (concat (gc_refs <$> vs)) <= length vs)%nat.
Proof.
  induction vs as [|v vs IH]; cbn; [lia|]. rewrite length_app. assert (length (gc_refs v) <= 1)%nat by (destruct v; cbn; lia). lia.
Qed.

Lemma push_number vs ts s refs v ty :
  stack_ok vs ts s refs -> typed v ty -> gc_refs v = [] -> ready refs v -> stack_ok (v :: vs) (ty :: ts) s refs.
Proof. intros [Ht Hr Hi] Hv Hg Hrv. split; [by constructor|by constructor|]. cbn. by rewrite Hg. Qed.

Lemma const_clone_ok vs ts s refs v ty :
  stack_ok vs ts s refs -> typed v ty -> ready refs v -> gc_refs v = [] /\ encode v = 0 \/ gc_refs v = [encode v] /\ 0 < encode v < 2 ^ 32 ->
  gc_refs v ⊆ l -> Z.of_nat (length vs + length l) < room ->
  exists s', clone_raw (E:=const_error) s (from_raw_u32 (encode v)) = Ok (encode v, s') /\ stack_ok (v :: vs) (ty :: ts) s' refs.
Proof.
  intros Hs Hv Hr Hcase Hl Hroom. destruct Hcase as [[Hg He]|[Hg Hb]].
  { rewrite He. exists s. split; [done|]. by apply push_number. }
  unfold from_raw_u32. rewrite (proj2 (Z.eqb_neq _ 0)) by lia. cbn [clone_raw]. destruct Hs as [Ht Hrs Hi].
  destruct (acc_clone s (concat (gc_refs <$> vs) ++ l) (encode v) Hi) as (s' & Hc & Hi').
  - rewrite length_app. pose proof (gc_refs_length vs). lia.
  - apply list.elem_of_app. right. apply Hl. rewrite Hg. by left.
  - rewrite Hc. exists s'. split; [done|]. split; [by constructor|by constructor|]. cbn. by rewrite Hg.
Qed.

(** What a global holds is read as it is. *)
Lemma global_ok vs ts s refs g t bits ty :
  stack_ok vs ts s refs -> instance_ok refs -> i_globals inst !! g = Some (ty, bits) -> tys !! g = Some t ->
  Z.of_nat (length vs + length l) < room ->
  exists v s', vals !! g = Some v /\ to_val_raw bits s ty = Ok (E:=const_error) (encode v, s') /\ stack_ok (v :: vs) (t :: ts) s' refs.
Proof.
  intros Hs Hi Hg Ht Hroom. destruct (it_globals _ _ _ _ _ _ _ _ Hi g ty bits t Hg Ht) as (v & Hv & Hty & Hb & Hl & Hr).
  assert (ty = val_to_wasm t) as ->.
  { pose proof (it_types _ _ _ _ _ _ _ _ Hi) as Htys. apply (f_equal (fun k => k !! g)) in Htys.
    rewrite !list_lookup_fmap, Hg, Ht in Htys. cbn in Htys. by injection Htys. }
  exists v. pose proof (encode_bound lookup funcs v t Hty) as Hbound.
  destruct t as [| | | | |r]; cbn [val_to_wasm to_val_raw width] in *.
  1-5: exists s; (split; [done|]); (split; [|apply push_number; [done|done|by destruct v|done]]).
  - rewrite raw_i32_mod, signed_mod by lia. by rewrite Hb.
  - unfold raw_i64. rewrite signed_mod by lia. by rewrite Hb.
  - unfold raw_f32. rewrite Hb, raw_u64_small; [done|]. unfold in_u. lia.
  - unfold raw_f64. by rewrite Hb.
  - unfold raw_v128. by rewrite Hb.
  - cbn [ref_to_wasm rt_heap_type]. rewrite top_to_wasm. pose proof (ref_cases lookup funcs v r Hty) as Hcase.
    assert (Hgc : top (rt_heap_type r) <> TopFunc -> gc_refs v = [] /\ encode v = 0 \/ gc_refs v = [encode v] /\ 0 < encode v < 2 ^ 32).
    { intros Hn. destruct Hcase as [->|[(p & -> & ? & _)|(? & _ & ?)]]; [by left|done|by right]. }
    destruct (top (rt_heap_type r)) eqn:Htop; unfold as_gc_ref; rewrite ?Hb.
    1-2: destruct (const_clone_ok vs ts s refs v (VRef r) Hs Hty Hr (Hgc ltac:(done)) Hl Hroom) as (s' & -> & Hs');
      exists s'; split_and!; done.
    exists s. split_and!; [done|done|]. apply push_number; [done|done| |done].
    destruct Hcase as [->|[(p & -> & _)|(_ & ? & _)]]; done.
Qed.

(** The reference to a function of the instance, which is filled in. *)
Lemma function_ok refs f t :
  instance_ok refs -> func_type inst f = Some t ->
  exists fr, get_func_ref (E:=const_error) oc inst refs f = Ok (Some (func_addr inst f), <[func_addr inst f := fr]> refs) /\
    funcs !! func_addr inst f = Some fr /\ type_index fr = t.
Proof using Type.
  intros Hi. unfold func_type, get_func_ref. destruct (Z.eqb_spec f reserved_value) as [|Hne]; [done|].
  destruct (functions _ !! _) as [ft|] eqn:Hft; [|done]. cbn [unwrap mbind option_bind outcome_bind]. case_bool_decide as Hesc; [|done].
  intros Hty. destruct (it_functions _ _ _ _ _ _ _ _ Hi f ft Hne Hft Hesc) as (fr & Hc & Hfr). exists fr.
  rewrite (func_ref_offset oc inst _ (it_placed _ _ _ _ _ _ _ _ Hi) Hesc). cbn [mbind outcome_bind]. rewrite Hc. cbn [mbind outcome_bind].
  split_and!; [|done|].
  - unfold func_addr. by rewrite (proj2 (Z.eqb_neq f _) Hne), Hft.
  - unfold construct_func_ref in Hc. rewrite Hty in Hc. cbn [unwrap mbind outcome_bind] in Hc.
    destruct (defined_func_index _ _) as [d|].
    + destruct (i_trampolines inst !! d) as [[tr|]|]; [|done..]. cbn in Hc. destruct (i_functions inst !! d); [|done]. cbn in Hc. by injection Hc as <-.
    + destruct (i_imported_functions inst !! _); [|done]. cbn in Hc. by injection Hc as <-.
Qed.

(** More functions are filled in. *)
Lemma ready_grow refs p fr v : ready refs v -> ready (<[p := fr]> refs) v.
Proof using Type. destruct v as [| | | | | |q| |]; try done. cbn. intros Hq. destruct (decide (q = p)) as [->|]; [by rewrite lookup_insert_eq|by rewrite lookup_insert_ne]. Qed.

Lemma instance_grow refs p fr : instance_ok refs -> funcs !! p = Some fr -> instance_ok (<[p := fr]> refs).
Proof using Type.
  intros [Hp Ha Hf Hr Ht Hg] Hfr. split; try done; [by apply insert_subseteq_l|].
  intros g ty bits t Hl Hty. destruct (Hg g ty bits t Hl Hty) as (v & ? & ? & ? & ? & ?). exists v. split_and!; try done. by apply ready_grow.
Qed.

Definition step_post vs ts (r : outcome const_error (list ValRaw * GcStore T H * gmap Z VMFuncRef)) (vs' : option (list wasm_value)) ts' : Prop :=
  exists vs1 s' refs', vs' = Some vs1 /\ r = Ok (encode <$> vs1, s', refs') /\ stack_ok vs1 ts' s' refs' /\ instance_ok refs' /\
    (length vs1 <= S (length vs))%nat.

Lemma eval_op_ok expected op s refs vs ts ts' :
  instance_ok refs -> stack_ok vs ts s refs -> type_op tys inst expected ts op = Some ts' ->
  Z.of_nat (length vs + length l) < room ->
  step_post vs ts (eval_op dbg (eval_context oc inst) s refs (encode <$> vs) op) (denote_op inst vals vs op) ts'.
Proof.
  intros Hi Hs Hty Hroom.
  assert (Hpush : forall v ty, ts' = ty :: ts -> typed v ty -> gc_refs v = [] -> ready refs v ->
    step_post vs ts (Ok (encode v :: (encode <$> vs), s, refs)) (Some (v :: vs)) ts').
  { intros v ty -> Hv Hg Hr. exists (v :: vs), s, refs. split_and!; [done..|by apply push_number|done|done]. }
  destruct op as [i|i|b|b|b|g| | |f]; cbn [type_op eval_op denote_op] in *.
  - injection Hty as <-. rewrite raw_i32_mod. apply (Hpush (WI32 (i mod 2 ^ 32)) VI32); [done| |done..]. by apply mod_in_u.
  - injection Hty as <-. apply (Hpush (WI64 (i mod 2 ^ 64)) VI64); [done| |done..]. by apply mod_in_u.
  - destruct (in_ub 32 b) eqn:Hb; [|done]. injection Hty as <-. apply in_ub_spec in Hb.
    unfold raw_f32. rewrite raw_u64_small by (unfold in_u in *; lia). by apply (Hpush (WF32 b) VF32).
  - destruct (in_ub 64 b) eqn:Hb; [|done]. injection Hty as <-. apply in_ub_spec in Hb. by apply (Hpush (WF64 b) VF64).
  - destruct (in_ub 128 b) eqn:Hb; [|done]. injection Hty as <-. apply in_ub_spec in Hb. by apply (Hpush (WV128 b) VV128).
  - destruct (tys !! g) as [t|] eqn:Ht; [|done]. injection Hty as <-.
    destruct (i_globals inst !! g) as [[ty bits]|] eqn:Hg.
    2:{ pose proof (it_types _ _ _ _ _ _ _ _ Hi) as Htys. apply (f_equal (fun k => k !! g)) in Htys.
        rewrite !list_lookup_fmap, Hg, Ht in Htys. done. }
    destruct (global_ok vs ts s refs g t bits ty Hs Hi Hg Ht Hroom) as (v & s' & Hv & Hr & Hs').
    unfold global_get. cbn [eval_context ctx_globals]. rewrite Hg. cbn [unwrap mbind outcome_bind]. rewrite Hr, Hv. cbn [mbind outcome_bind option_bind].
    exists (v :: vs), s', refs. by split_and!.
  - destruct ts as [|[] ts]; try discriminate. injection Hty as <-. destruct Hs as [Ht Hrd Hinv].
    inversion Ht as [|v ? vs0 ? Hv Ht0]; subst. destruct v as [i| | | | | | | |]; try done. cbn [has_type] in Hv.
    cbn [fmap list_fmap pop mbind outcome_bind encode]. unfold wrapping_i32. rewrite from_i31_ok. cbn [mbind outcome_bind].
    assert (Hw : wrapping_u32 (raw_get_i32 i mod 2 ^ 32) = 2 * (i mod 2 ^ 31) + 1).
    { rewrite wrapping_eq. unfold raw_get_i32. rewrite signed_mod, (Z.mod_small i) by (unfold in_u in Hv; lia). done. }
    inversion Hrd; subst. exists (WI31 (i mod 2 ^ 31) :: vs0), s, refs. split_and!; [done| | |done|cbn; lia].
    + cbn. unfold raw_anyref. by rewrite Hw.
    + split.
      * constructor; [|done]. cbn. split; [by apply mod_in_u|apply sub_refl].
      * by constructor.
      * cbn. rewrite <- Hw. apply acc_i31; [done|]. rewrite length_app. pose proof (gc_refs_length vs0). cbn in Hroom. lia.
  - destruct expected as [| | | | |[[] h]]; try discriminate. injection Hty as <-. by apply (Hpush WNull (VRef {| nullable := true; rt_heap_type := h |})).
  - destruct (func_type inst f) as [t|] eqn:Hft; [|done]. injection Hty as <-.
    destruct (function_ok refs f t Hi Hft) as (fr & Hg & Hfr & Htf). unfold ref_func. cbn [eval_context ctx_func_ref]. rewrite Hg. cbn [unwrap mbind outcome_bind].
    pose proof (it_addresses _ _ _ _ _ _ _ _ Hi _ (ex_intro _ fr Hfr)) as Hp.
    exists (WFunc (func_addr inst f) :: vs), s, (<[func_addr inst f := fr]> refs). split_and!; [done..| |by apply instance_grow|done].
    destruct Hs as [Ht Hrd Hinv]. split; [| |done].
    + constructor; [|done]. cbn. split; [done|]. exists fr. split; [done|]. rewrite Htf. apply sub_refl.
    + constructor; [by cbn; rewrite lookup_insert_eq|]. apply (list.Forall_impl _ _ _ Hrd). intros v. apply ready_grow.
Qed.

Lemma eval_ops_ok expected e s refs vs ts ts' :
  instance_ok refs -> stack_ok vs ts s refs -> type_ops tys inst expected ts e = Some ts' ->
  Z.of_nat (length e + length vs + length l) < room ->
  exists vs' s' refs', denote_ops inst vals vs e = Some vs' /\
    eval_ops dbg (eval_context oc inst) s refs (encode <$> vs) e = Ok (encode <$> vs', s', refs') /\
    stack_ok vs' ts' s' refs' /\ instance_ok refs'.
Proof.
  revert s refs vs ts. induction e as [|op e IH]; intros s refs vs ts Hi Hs Hty Hroom; cbn [type_ops denote_ops eval_ops] in *.
  { injection Hty as <-. exists vs, s, refs. by split_and!. }
  destruct (type_op tys inst expected ts op) as [ts1|] eqn:H1; [|done]. cbn [mbind option_bind] in Hty. cbn [length] in Hroom.
  destruct (eval_op_ok expected op s refs vs ts ts1 Hi Hs H1 ltac:(lia)) as (vs1 & s1 & refs1 & -> & -> & Hs1 & Hi1 & Hlen).
  cbn [mbind option_bind outcome_bind]. apply (IH s1 refs1 vs1 ts1); [done|done|done|lia].
Qed.

(** C22: A constant expression that has a type in an instance denotes a value of that type
    (of the right width, null only where the type is nullable, a function or an object only
    of its heap type), and evaluating it gives the raw form of this value, without an error
    or a panic; a global of the type that is set to the raw form holds the value; a function
    that the value refers to was filled in with what the function is; and a reference is a
    new reference to an object that the collector counts. *)
Theorem const_expr_sound {E} s refs e ty :
  instance_ok refs -> expr_type lookup tys inst e ty -> inv s l -> Z.of_nat (length e + length l) < room ->
  exists v s' refs', denote inst vals e = Some v /\ typed v ty /\
    eval_expr (E:=E) oc dbg inst s refs e = Ok (encode v, s', refs') /\
    from_val_raw (val_to_wasm ty) (encode v) = encode v /\
    refs' ⊆ funcs /\ ready refs' v /\ inv s' (gc_refs v ++ l).
Proof.
  intros Hi (t & Hty & Hsub) Hinv Hroom.
  destruct (eval_ops_ok ty e s refs [] [] [t]) as (vs & s' & refs' & Hd & He & [Ht Hr Hs'] & Hi'); try done.
  { cbn. lia. }
  inversion Ht as [|v ? vs0 ? Hv Ht0]; subst. inversion Ht0; subst. inversion Hr; subst.
  exists v, s', refs'. unfold denote, eval_expr, const_eval. rewrite Hd. cbn [fmap list_fmap] in He. rewrite He. cbn in Hs'. rewrite app_nil_r in Hs'.
  pose proof (has_type_sub _ _ _ _ _ Hv Hsub) as Hvt. split_and!; try done; [by eapply stored_again|apply (it_refs _ _ _ _ _ _ _ _ Hi')].
Qed.
End Sound.

(** ** Witness *)

(** The instance of two functions of [LazyRun], with globals that hold a number, an object
    and one of the functions. *)
Definition typed_instance : Instance := {|
  i_module := table_module; i_tables := []; i_imported_tables := []; i_dropped_elements := ∅;
  i_globals := [(VI32, 2 ^ 32 - 3); (VRef {| nullable := true; rt_heap_type := HExtern |}, 8);
                (VRef {| nullable := false; rt_heap_type := HFunc |}, 65648)];
  i_vmctx := 65536; i_offsets := table_offsets; i_type_ids := [7]; i_trampolines := [Some 100; Some 200];
  i_functions := [101; 201]; i_imported_functions := [] |}.
Definition typed_globals : list ValType :=
  [VI32; VRef {| nullable := true; rt_heap_type := HExtern |}; VRef {| nullable := false; rt_heap_type := HFunc |}].
Definition typed_values : list wasm_value := [WI32 (2 ^ 32 - 3); WObject 8; WFunc 65648].
Definition first_func : VMFuncRef := {| array_call := 100; wasm_call := Some 101; type_index := 7; vf_vmctx := 65536 |}.
Definition second_func : VMFuncRef := {| array_call := 200; wasm_call := Some 201; type_index := 7; vf_vmctx := 65536 |}.
Definition store_funcs : gmap Z VMFuncRef := {[ 65648 := first_func; 65680 := second_func ]}.
Definition no_types (i : Z) : option WasmSubType := None.

Lemma typed_instance_ok :
  instance_typed no_types store_funcs true typed_instance typed_globals typed_values {[ 65648 := first_func ]} [8].
Proof.
  split.
  - split; [exists table_fields; split; [split; unfold in_u; cbn; lia|by vm_compute]|done|cbn; lia|].
    repeat constructor; unfold in_u; cbn; lia.
  - intros p [f Hf]. unfold store_funcs in Hf. apply lookup_insert_Some in Hf as [[<- _]|[_ Hf]]; [lia|]. apply lookup_singleton_Some in Hf as [<- _]. lia.
  - intros f ft Hne Hft _. unfold func_addr, construct_func_ref, defined_func_index, defined_index. rewrite (proj2 (Z.eqb_neq _ _) Hne).
    cbn [i_module typed_instance] in *. rewrite Hft. cbn [functions table_module num_imported_funcs] in *.
    destruct (Z.to_nat f) as [|[|n]]; [| |destruct n; discriminate]; injection Hft as <-.
    + exists first_func. split; vm_compute; reflexivity.
    + exists second_func. split; vm_compute; reflexivity.
  - apply map_subseteq_spec. intros p f Hf. apply lookup_singleton_Some in Hf as [<- <-]. reflexivity.
  - reflexivity.
  - intros [|[|[|g]]] ty bits t Hg Ht; [| | |destruct g; discriminate]; injection Hg as <- <-; injection Ht as <-.
    + exists (WI32 (2 ^ 32 - 3)). split_and!; [done|by cbn|done|set_solver|done].
    + exists (WObject 8). split_and!; [done| |done|set_solver|done]. split; [lia|]. split; [done|apply sub_refl].
    + exists (WFunc 65648). split_and!; [done| |done|set_solver|by eexists]. split; [lia|]. exists first_func. split; [done|apply sub_concrete_func].
Qed.

Definition sample_holding : GcStore Z DrcHeap -> list Z -> Prop :=
  reach_holding (T:=Z) 4096 true true 4 elements (stack one_object) (lost one_object) (w_table one_object).

(** A function, the object of a global, and the number of a global as a 31-bit integer. *)
Lemma const_expr_sound_witness :
  let eval := eval_expr (GcHeap0:=DrcHeap_GcHeap true true elements) (E:=Empty_set) true true typed_instance (store one_object) {[ 65648 := first_func ]} in
  (exists v s' refs', denote typed_instance typed_values [RefFunc 1] = Some v /\
    eval [RefFunc 1] = Ok (encode v, s', refs') /\ encode v = 65680 /\ refs' !! 65680 = Some second_func) /\
  (exists v s' refs', denote typed_instance typed_values [GlobalGet 1] = Some v /\
    eval [GlobalGet 1] = Ok (encode v, s', refs') /\ sample_holding s' [8; 8]) /\
  (exists v s' refs', denote typed_instance typed_values [GlobalGet 0; RefI31] = Some v /\
    eval [GlobalGet 0; RefI31] = Ok (encode v, s', refs') /\ v = WI31 (2 ^ 31 - 3)).
Proof.
  pose proof (fun e ty => const_expr_sound (GcHeap0:=DrcHeap_GcHeap true true elements) sample_holding
    (holding_room (lost one_object) (w_table one_object))
    (GcAccounting0:=collector_accounting (T:=Z) 4096 true true 4 elements ltac:(lia) (fun X => reflexivity _) 12 ltac:(lia) page_4096
       (stack one_object) (lost one_object) (w_table one_object))
    true true no_types store_funcs typed_instance typed_globals typed_values [8] (E:=Empty_set) (store one_object) {[ 65648 := first_func ]} e ty typed_instance_ok) as Hsound.
  assert (Hinv : sample_holding (store one_object) [8]).
  { exists one_object. split; [exact one_object_reach|]. split; [done|].
    split; [|done]. replace (held one_object) with [8] by (vm_compute; reflexivity). done. }
  split_and!.
  - destruct (Hsound [RefFunc 1] (VRef {| nullable := true; rt_heap_type := HFunc |})) as (v & s' & refs' & Hd & _ & He & _ & Hr & Hready & _);
      [eexists; split; [reflexivity|split; [done|apply sub_concrete_func]]|exact Hinv|vm_compute; reflexivity|].
    exists v, s', refs'. vm_compute in Hd. injection Hd as <-. split_and!; [by vm_compute|exact He|done|].
    destruct Hready as [f Hf]. rewrite Hf. eapply map_subseteq_spec in Hr; [|exact Hf]. by vm_compute in Hr.
  - destruct (Hsound [GlobalGet 1] (VRef {| nullable := true; rt_heap_type := HExtern |})) as (v & s' & refs' & Hd & _ & He & _ & _ & _ & Hi);
      [eexists; split; [reflexivity|split; [done|apply sub_refl]]|exact Hinv|vm_compute; reflexivity|].
    exists v, s', refs'. vm_compute in Hd. injection Hd as <-. split_and!; [by vm_compute|exact He|exact Hi].
  - destruct (Hsound [GlobalGet 0; RefI31] (VRef {| nullable := false; rt_heap_type := HAny |})) as (v & s' & refs' & Hd & _ & He & _);
      [eexists; split; [reflexivity|split; [done|apply (sub_trans _ _ HEq); [apply sub_i31_eq|apply sub_eq_any]]]|exact Hinv|vm_compute; reflexivity|].
    exists v, s', refs'. vm_compute in Hd. injection Hd as <-. split_and!; [by vm_compute|exact He|by vm_compute].
Defined.
