(* ===== verification/MemoryInit.v ===== *)
(** * Data segments and images of memories

    [crates/environ/src/module.rs] ([MemoryInitialization] and the trait
    [InitMemory]) and the parts of [compile/module_environ.rs] and
    [compile/module_artifacts.rs] that collect the data of a module: segments are
    numbered by their place in one data section; when every segment is known to be in
    bounds at compile time, [try_static_init] replaces the segments of each memory by
    one image, padded to pages so that it can be mapped.  [ImageBuild] shows that the
    images are what the segments write. *)

From Stdlib Require Import ZArith Lia.
From stdpp Require Import base list gmap numbers option.
From S2P Require Import Prelude MemoryTypes WasmTypes ConstExpr.
Open Scope Z_scope.

(** ** Initializers *)

(** [Range<u32>]. *)
Abbreviation data_range := (Z * Z)%type.
Definition range_len (r : data_range) : Z := Z.max 0 (snd r - fst r).

Record MemoryInitializer := { mi_memory : nat; mi_offset : ConstExpr; mi_data : data_range }.

Record StaticMemoryInitializer := { si_offset : Z; si_data : data_range }.

Inductive MemoryInitialization :=
| Segmented (l : list MemoryInitializer)
| StaticInit (map : list (option StaticMemoryInitializer)).

Definition initialization_default : MemoryInitialization := Segmented [].

Definition is_segmented (i : MemoryInitialization) : bool :=
  match i with Segmented _ => true | StaticInit _ => false end.

(** The trait [InitMemory], whose methods take [&mut self]. *)
Class InitMemory (S : Type) := {
  memory_size_in_bytes : S -> nat -> outcome Empty_set (option Z * S);
  eval_offset : S -> nat -> ConstExpr -> outcome Empty_set (option Z * S);
  init_write : S -> nat -> StaticMemoryInitializer -> outcome Empty_set (bool * S)
}.

Section InitMemory.
  Context {S : Type} `{!InitMemory S}.
  Implicit Types s : S.

(** The loop over the images of a [Static] initialization, from memory [index] on. *)
Fixpoint init_images s (index : nat) (map : list (option StaticMemoryInitializer)) : outcome Empty_set (bool * S) :=
  match map with
  | [] => Ok (true, s)
  | None :: map => init_images s (1 + index) map
  | Some init :: map =>
      '(result, s) ← init_write s index init;
      if result : bool then init_images s (1 + index) map else Ok (false, s)
  end.

(** One turn of the loop over segments. *)
Definition init_segment s (i : MemoryInitializer) : outcome Empty_set (bool * S) :=
  '(start, s) ← eval_offset s (mi_memory i) (mi_offset i);
  match start with
  | None => Ok (false, s)
  | Some start =>
      match checked 64 (start + range_len (mi_data i)) with
      | None => Ok (false, s)
      | Some end_ =>
          '(size, s) ← memory_size_in_bytes s (mi_memory i);
          if match size with Some max => max <? end_ | None => false end then Ok (false, s)
          else init_write s (mi_memory i) {| si_offset := start; si_data := mi_data i |}
      end
  end.

Fixpoint init_segments s (l : list MemoryInitializer) : outcome Empty_set (bool * S) :=
  match l with
  | [] => Ok (true, s)
  | i :: l =>
      '(result, s) ← init_segment s i;
      if result : bool then init_segments s l else Ok (false, s)
  end.

Definition init_memory (i : MemoryInitialization) s : outcome Empty_set (bool * S) :=
  match i with
  | StaticInit map => init_images s 0 map
  | Segmented l => init_segments s l
  end.
End InitMemory.

(** ** Modules *)

(** What a module says of its memories. *)
Record MemModule := {
  num_imported_memories : nat;
  memory_plans : list MemoryPlan;
  memory_initialization : MemoryInitialization;
  passive_data_map : gmap nat data_range
}.

(** [ModuleTranslation]: the data of active segments, the size of it, the same for
    passive segments, and the alignment of the section. *)
Record ModuleTranslation := {
  t_module : MemModule;
  t_data : list (list Z);
  t_data_align : option Z;
  t_total_data : Z;
  t_passive_data : list (list Z);
  t_total_passive_data : Z
}.

Definition defined_memory_index (m : MemModule) (index : nat) : option nat :=
  if decide (index < num_imported_memories m)%nat then None else Some (index - num_imported_memories m)%nat.

Definition set_memory_initialization (m : MemModule) (i : MemoryInitialization) : MemModule :=
  {| num_imported_memories := num_imported_memories m; memory_plans := memory_plans m;
     memory_initialization := i; passive_data_map := passive_data_map m |}.

(** ** The data section *)

Inductive DataKind :=
| Active (memory_index : nat) (offset : ConstExpr)
| Passive.

Inductive wasm_error := TooMuchData.

(** The closure [mk_range]. *)
Definition mk_range (total : Z) (data : list Z) : outcome wasm_error (data_range * Z) :=
  size ← ok_or TooMuchData (checked 32 (Z.of_nat (length data)));
  end_ ← ok_or TooMuchData (checked 32 (total + size));
  Ok ((total, end_), total + size).

Definition translate_data_entry (t : ModuleTranslation) (index : nat) (entry : DataKind * list Z)
  : outcome wasm_error ModuleTranslation :=
  let '(kind, data) := entry in
  match kind with
  | Active memory_index offset =>
      initializers ← match memory_initialization (t_module t) with Segmented l => Ok l | StaticInit _ => Panic end;
      '(range, total) ← mk_range (t_total_data t) data;
      let init := {| mi_memory := memory_index; mi_offset := offset; mi_data := range |} in
      Ok {| t_module := set_memory_initialization (t_module t) (Segmented (initializers ++ [init]));
            t_data := t_data t ++ [data]; t_data_align := t_data_align t; t_total_data := total;
            t_passive_data := t_passive_data t; t_total_passive_data := t_total_passive_data t |}
  | Passive =>
      '(range, total) ← mk_range (t_total_passive_data t) data;
      Ok {| t_module := {| num_imported_memories := num_imported_memories (t_module t);
                           memory_plans := memory_plans (t_module t);
                           memory_initialization := memory_initialization (t_module t);
                           passive_data_map := <[index := range]> (passive_data_map (t_module t)) |};
            t_data := t_data t; t_data_align := t_data_align t; t_total_data := t_total_data t;
            t_passive_data := t_passive_data t ++ [data]; t_total_passive_data := total |}
  end.

Fixpoint translate_entries (t : ModuleTranslation) (index : nat) (entries : list (DataKind * list Z))
  : outcome wasm_error ModuleTranslation :=
  match entries with
  | [] => Ok t
  | e :: entries => t ← translate_data_entry t index e; translate_entries t (S index) entries
  end.

(** A module as it is before its data section, and its translation. *)
Definition translate_data_section (num_imported : nat) (plans : list MemoryPlan) (entries : list (DataKind * list Z))
  : outcome wasm_error ModuleTranslation :=
  translate_entries
    {| t_module := {| num_imported_memories := num_imported; memory_plans := plans;
                      memory_initialization := initialization_default; passive_data_map := ∅ |};
       t_data := []; t_data_align := None; t_total_data := 0; t_passive_data := []; t_total_passive_data := 0 |}
    0 entries.

(** ** Images at compile time *)

(** The local [struct Memory]: the extent of the data of one memory, and its segments
    by their place in the data. *)
Record MemoryExtent := {
  data_size : Z;
  min_addr : Z;
  max_addr : Z;
  ext_segments : list (nat * StaticMemoryInitializer)
}.

Definition extent_new : MemoryExtent :=
  {| data_size := 0; min_addr := u64_max; max_addr := 0; ext_segments := [] |}.

Record InitMemoryAtCompileTime := {
  ct_module : MemModule;
  ct_info : list MemoryExtent;
  ct_idx : nat
}.

Section CompileTime.
  Context (oc dbg : bool).

Definition ct_memory_size_in_bytes (s : InitMemoryAtCompileTime) (index : nat)
  : outcome Empty_set (option Z * InitMemoryAtCompileTime) :=
  plan ← unwrap (memory_plans (ct_module s) !! index);
  size ← minimum_byte_size dbg (memory plan);
  Ok (size, s).

(** The value of an offset that is a constant of the type of the memory's addresses. *)
Definition const_offset (mem64 : bool) (expr : ConstExpr) : option Z :=
  match expr with
  | [I32Const offset] => if negb mem64 then Some (offset mod 2 ^ 32) else None
  | [I64Const offset] => if mem64 then Some (offset mod 2 ^ 64) else None
  | _ => None
  end.

Definition ct_eval_offset (s : InitMemoryAtCompileTime) (index : nat) (expr : ConstExpr)
  : outcome Empty_set (option Z * InitMemoryAtCompileTime) :=
  plan ← unwrap (memory_plans (ct_module s) !! index);
  Ok (const_offset (memory64 (memory plan)) expr, s).

(** A segment with data widens the extent of its memory. *)
Definition add_segment {E} (info : MemoryExtent) (idx : nat) (init : StaticMemoryInitializer) : outcome E MemoryExtent :=
  data_len ← arith oc 32 (snd (si_data init) - fst (si_data init));
  if 0 <? data_len then
    size ← arith oc 64 (data_size info + data_len);
    end_ ← arith oc 64 (si_offset init + data_len);
    Ok {| data_size := size; min_addr := Z.min (min_addr info) (si_offset init);
          max_addr := Z.max (max_addr info) end_; ext_segments := ext_segments info ++ [(idx, init)] |}
  else Ok info.

Definition ct_write (s : InitMemoryAtCompileTime) (index : nat) (init : StaticMemoryInitializer)
  : outcome Empty_set (bool * InitMemoryAtCompileTime) :=
  match defined_memory_index (ct_module s) index with
  | None => Ok (false, s)
  | Some _ =>
      info ← unwrap (ct_info s !! index);
      info ← add_segment info (ct_idx s) init;
      Ok (true, {| ct_module := ct_module s; ct_info := <[index := info]> (ct_info s); ct_idx := S (ct_idx s) |})
  end.

#[export] Instance CompileTime_InitMemory : InitMemory InitMemoryAtCompileTime := {
  memory_size_in_bytes := ct_memory_size_in_bytes;
  eval_offset := ct_eval_offset;
  init_write := ct_write
}.

(** [saturating_mul]. *)
Definition saturating_mul (a b : Z) : Z := Z.min u64_max (a * b).

(** An image is made when it is dense or small. *)
Definition image_allowed {E} (max_image_size_always_allowed : Z) (info : MemoryExtent) : outcome E bool :=
  if 0 <? data_size info then
    image_size ← arith oc 64 (max_addr info - min_addr info);
    Ok ((image_size <? saturating_mul (data_size info) 2) || (image_size <? max_image_size_always_allowed))
  else Ok true.

Fixpoint images_allowed {E} (max_image_size_always_allowed : Z) (l : list MemoryExtent) : outcome E bool :=
  match l with
  | [] => Ok true
  | info :: l =>
      b ← image_allowed max_image_size_always_allowed info;
      if b : bool then images_allowed max_image_size_always_allowed l else Ok false
  end.

(** [Vec::splice] of a range that is cut at the end of the image. *)
Definition splice_image (image : list Z) (offset : nat) (data : list Z) : list Z :=
  take offset image ++ data ++ drop (Nat.min (offset + length data) (length image)) image.

Definition place_segment {E} (data : list (list Z)) (min : Z) (image : list Z) (segment : nat * StaticMemoryInitializer)
  : outcome E (list Z) :=
  let '(idx, init) := segment in
  d ← unwrap (data !! idx);
  assert_ (Z.of_nat (length d) =? range_len (si_data init));;
  offset ← arith oc 64 (si_offset init - min);
  let offset := Z.to_nat offset in
  Ok (if Nat.ltb (length image) offset then resize offset 0 image ++ d else splice_image image offset d).

(** The capacity of a [Vec] of bytes after it was made to hold [len] of them. *)
Definition vec_reserve (capacity len : Z) : Z :=
  if len <=? capacity then capacity else Z.max 8 (Z.max (2 * capacity) len).

Fixpoint place_segments {E} (data : list (list Z)) (min : Z) (image : list Z) (capacity : Z) (l : list (nat * StaticMemoryInitializer))
  : outcome E (list Z * Z) :=
  match l with
  | [] => Ok (image, capacity)
  | x :: l =>
      image ← place_segment data min image x;
      place_segments data min image (vec_reserve capacity (Z.of_nat (length image))) l
  end.

(** [iter().position(|i| *i != 0)] and [rposition]. *)
Fixpoint position_nonzero (l : list Z) : option nat :=
  match l with
  | [] => None
  | x :: l => if x =? 0 then S <$> position_nonzero l else Some O
  end.
Definition rposition_nonzero (l : list Z) : option nat :=
  i ← position_nonzero (rev l); Some (length l - 1 - i)%nat.

(** Zeros at the end and at the start are chopped off. *)
Definition chop {E} (offset : Z) (image : list Z) : outcome E (Z * list Z) :=
  let image := match rposition_nonzero image with Some i => take (i + 1) image | None => image end in
  match position_nonzero image with
  | Some i => offset ← arith oc 64 (offset + Z.of_nat i); Ok (offset, drop i image)
  | None => Ok (offset, image)
  end.

(** The contents of one memory, and where they start. *)
Definition build_image {E} (data : list (list Z)) (info : MemoryExtent) : outcome E (Z * list Z) :=
  let empty := match ext_segments info with [] => true | _ => false end in
  extent ← (if empty then Ok 0 else arith oc 64 (max_addr info - min_addr info));
  '(image, capacity) ← place_segments data (min_addr info) [] extent (ext_segments info);
  assert_ (Z.of_nat (length image) =? extent);;
  assert_ (capacity =? extent);;
  chop (if empty then 0 else min_addr info) image.

(** The image with the zeros that make its start and its length multiples of the page
    size: the start, the length and the pieces of data. *)
Definition pad_image {E} (page_size offset : Z) (image : list Z) : outcome E (Z * Z * list (list Z)) :=
  let len := Z.of_nat (length image) in
  let front := offset mod page_size in
  offset ← arith oc 64 (offset - front);
  len ← arith oc 64 (len + front);
  let back := if len mod page_size =? 0 then 0 else page_size - len mod page_size in
  len ← arith oc 64 (len + back);
  assert_ (offset mod page_size =? 0);;
  assert_ (len mod page_size =? 0);;
  Ok (offset, len,
      (if front =? 0 then [] else [replicate (Z.to_nat front) 0]) ++ [image] ++
      (if back =? 0 then [] else [replicate (Z.to_nat back) 0])).

(** The images of the memories, the data they refer to and the size of it so far. *)
Fixpoint build_images {E} (page_size : Z) (data : list (list Z)) (module_data_size : Z) (l : list MemoryExtent)
  : outcome E (list (option StaticMemoryInitializer) * list (list Z)) :=
  match l with
  | [] => Ok ([], [])
  | info :: l =>
      '(offset, image) ← build_image data info;
      '(offset, len, pieces) ← pad_image page_size offset image;
      len ← unwrap (checked 32 len);
      end_ ← arith oc 32 (module_data_size + len);
      let init := if 0 <? len then Some {| si_offset := offset; si_data := (module_data_size, end_) |} else None in
      '(map, rest) ← build_images page_size data end_ l;
      Ok (init :: map, pieces ++ rest)
  end.

Definition try_static_init {E} (page_size max_image_size_always_allowed : Z) (t : ModuleTranslation)
  : outcome E ModuleTranslation :=
  let m := t_module t in
  if negb (is_segmented (memory_initialization m)) then Ok t
  else
    '(ok, s) ← unwrap_result (init_memory (memory_initialization m)
      {| ct_module := m; ct_info := replicate (length (memory_plans m)) extent_new; ct_idx := 0 |});
    if negb ok then Ok t
    else
      allowed ← images_allowed max_image_size_always_allowed (ct_info s);
      if negb allowed then Ok t
      else
        '(map, data) ← build_images page_size (t_data t) 0 (ct_info s);
        Ok {| t_module := set_memory_initialization m (StaticInit map); t_data := data;
              t_data_align := Some page_size; t_total_data := t_total_data t;
              t_passive_data := t_passive_data t; t_total_passive_data := t_total_passive_data t |}.
End CompileTime.

(** ** The data section of the object *)

(** [append_section_data] of the crate [object]: the offset of the data and the new
    section. *)
Class SectionWriter := { append_aligned : list Z -> list Z -> Z -> Z * list Z }.

(** Data is appended at the next multiple of its alignment. *)
Class SectionWriterLaws `{SectionWriter} := {
  append_aligned_offset : forall section data align, 0 < align ->
    exists pad, append_aligned section data align = (Z.of_nat (length section + length pad), section ++ pad ++ data) /\
      Z.of_nat (length section + length pad) mod align = 0 /\ Z.of_nat (length pad) < align
}.

Section Append.
  Context `{SectionWriter} (oc : bool) {E : Type}.

Fixpoint append_active (section : list Z) (align : Z) (data : list (list Z)) : list Z :=
  match data with
  | [] => section
  | d :: data => append_active (snd (append_aligned section d align)) 1 data
  end.

Definition append_passive (section : list Z) (data : list (list Z)) : list Z :=
  foldl (fun section d => snd (append_aligned section d 1)) section data.

(** [start] and [end] of a range move by [checked_add]. *)
Definition shift_range (data_offset : Z) (r : data_range) : outcome E data_range :=
  start ← unwrap (checked 32 (fst r + data_offset));
  end_ ← unwrap (checked 32 (snd r + data_offset));
  Ok (start, end_).

Fixpoint shift_segments (data_offset : Z) (l : list MemoryInitializer) : outcome E (list MemoryInitializer) :=
  match l with
  | [] => Ok []
  | i :: l =>
      r ← shift_range data_offset (mi_data i);
      l ← shift_segments data_offset l;
      Ok ({| mi_memory := mi_memory i; mi_offset := mi_offset i; mi_data := r |} :: l)
  end.

Fixpoint shift_images (data_offset : Z) (map : list (option StaticMemoryInitializer))
  : outcome E (list (option StaticMemoryInitializer)) :=
  match map with
  | [] => Ok []
  | None :: map => map ← shift_images data_offset map; Ok (None :: map)
  | Some i :: map =>
      r ← shift_range data_offset (si_data i);
      map ← shift_images data_offset map;
      Ok (Some {| si_offset := si_offset i; si_data := r |} :: map)
  end.

Definition shift_initialization (data_offset : Z) (i : MemoryInitialization) : outcome E MemoryInitialization :=
  match i with
  | Segmented l => l ← shift_segments data_offset l; Ok (Segmented l)
  | StaticInit map => map ← shift_images data_offset map; Ok (StaticInit map)
  end.

Fixpoint shift_passive (data_offset : Z) (l : list (nat * data_range)) : outcome E (list (nat * data_range)) :=
  match l with
  | [] => Ok []
  | (i, r) :: l => r ← shift_range data_offset r; l ← shift_passive data_offset l; Ok ((i, r) :: l)
  end.

(** The data of a module goes to the end of the section, and the module refers to it
    there.  Names and debug information, which go to other sections, are left out. *)
Definition append_module (section : list Z) (t : ModuleTranslation) : outcome E (MemModule * list Z) :=
  let align := match t_data_align t with Some a => a | None => 1 end in
  let '(data_offset, section) := append_aligned section [] align in
  let section := append_active section align (t_data t) in
  let section := append_passive section (t_passive_data t) in
  let m := t_module t in
  let total_data_len := Z.of_nat (length (concat (t_data t))) in
  data_offset ← unwrap (checked 32 data_offset);
  init ← shift_initialization data_offset (memory_initialization m);
  total ← unwrap (checked 32 total_data_len);
  passive_offset ← arith oc 32 (data_offset + total);
  passive ← shift_passive passive_offset (map_to_list (passive_data_map m));
  Ok ({| num_imported_memories := num_imported_memories m; memory_plans := memory_plans m;
         memory_initialization := init; passive_data_map := list_to_map passive |}, section).
End Append.
