(* ===== verification/ImageBuild.v ===== *)
(** * Images are what segments write

    The image that [try_static_init] builds for a memory, laid over zeros, gives the
    bytes that the segments of the memory leave when they are written one after the
    other, whatever their order and overlap, also after its zeros at both ends were
    chopped off and it was padded to pages. *)

From Stdlib Require Import ZArith Lia.
From stdpp Require Import base list gmap numbers option.
From S2P Require Import Prelude MemoryTypes WasmTypes Tables TableOps ConstExpr MemoryInit.
Open Scope Z_scope.

(** ** Images over zeros *)

Definition zeros (n : nat) : list Z := replicate n 0.

Lemma lookup_zeros n i : zeros n !! i = if decide (i < n)%nat then Some 0 else None.
Proof.
  unfold zeros. case_decide.
  - by apply lookup_replicate_2.
  - apply lookup_ge_None. rewrite length_replicate. lia.
Qed.

Lemma all_zeros l : Forall (eq 0) l -> l = zeros (length l).
Proof. induction 1 as [|x l <- H IH]; [done|]. cbn. by rewrite IH at 1. Qed.

(** What [place_segment] makes of an image. *)
Definition placed_image (image : list Z) (o : nat) (d : list Z) : list Z :=
  if Nat.ltb (length image) o then resize o 0 image ++ d else splice_image image o d.

Lemma length_placed image o d : length (placed_image image o d) = Nat.max (length image) (o + length d).
Proof.
  unfold placed_image, splice_image. destruct (Nat.ltb_spec (length image) o).
  - rewrite length_app, length_resize. lia.
  - rewrite !length_app, length_take, length_drop. lia.
Qed.

Lemma lookup_resize_zeros (image : list Z) o i :
  (length image < o)%nat -> resize o 0 image !! i = if decide (i < length image)%nat then image !! i else zeros o !! i.
Proof.
  intros Ho. rewrite resize_ge by lia. case_decide.
  - by rewrite lookup_app_l.
  - rewrite lookup_app_r by lia. fold (zeros (o - length image)). rewrite !lookup_zeros. repeat case_decide; try lia; done.
Qed.

Lemma lookup_placed image o d i :
  placed_image image o d !! i =
    if decide (o <= i < o + length d)%nat then d !! (i - o)%nat
    else if decide (i < length image)%nat then image !! i else zeros o !! i.
Proof.
  unfold placed_image, splice_image. destruct (Nat.ltb_spec (length image) o) as [Ho|Ho].
  - destruct (decide (i < o)%nat) as [Hi|Hi].
    + rewrite (decide_False (P:=(o <= i < o + length d)%nat)) by lia. rewrite lookup_app_l by (rewrite length_resize; lia).
      by apply lookup_resize_zeros.
    + rewrite lookup_app_r by (rewrite length_resize; lia). rewrite length_resize. case_decide; [done|].
      rewrite lookup_ge_None_2 by lia. rewrite decide_False by lia. rewrite lookup_zeros. by rewrite decide_False by lia.
  - destruct (decide (i < o)%nat) as [Hi|Hi].
    + rewrite (decide_False (P:=(o <= i < o + length d)%nat)) by lia. rewrite lookup_app_l by (rewrite length_take; lia).
      rewrite lookup_take_lt by done. by rewrite decide_True by lia.
    + rewrite lookup_app_r by (rewrite length_take; lia). rewrite length_take, Nat.min_l by lia. case_decide as Hd.
      * by rewrite lookup_app_l by lia.
      * rewrite lookup_app_r by lia. rewrite lookup_drop. destruct (decide (i < length image)%nat).
        -- f_equal. lia.
        -- rewrite lookup_zeros. rewrite decide_False by lia. apply lookup_ge_None. lia.
Qed.

Lemma overwrite_placed n m image o d :
  (m + length image <= n)%nat -> (m + o + length d <= n)%nat ->
  overwrite (zeros n) m (placed_image image o d) = overwrite (overwrite (zeros n) m image) (m + o) d.
Proof.
  intros Hi Hd. assert (Hz : length (zeros n) = n) by apply length_replicate.
  apply list_eq. intros i. rewrite !overwrite_lookup; rewrite ?length_overwrite; rewrite ?Hz, ?length_placed; try lia.
  rewrite lookup_placed. repeat case_decide; try lia; try (f_equal; lia).
  rewrite !lookup_zeros. repeat case_decide; try lia; done.
Qed.

(** ** Chopping and padding *)

Lemma overwrite_zeros_trim n m a k image :
  (m + length a + length image + k <= n)%nat -> Forall (eq 0) a ->
  overwrite (zeros n) m (a ++ image ++ zeros k) = overwrite (zeros n) (m + length a) image.
Proof.
  intros Hn Ha. assert (Hz : length (zeros n) = n) by apply length_replicate.
  assert (Hk : length (zeros k) = k) by apply length_replicate.
  apply list_eq. intros i. rewrite !overwrite_lookup; rewrite ?length_app; rewrite ?Hz, ?Hk; try lia.
  destruct (decide (i < m + length a)%nat).
  - rewrite (decide_False (P:=(m + length a <= i < m + length a + length image)%nat)) by lia. case_decide; [|done].
    rewrite lookup_app_l by lia. destruct (lookup_lt_is_Some_2 a (i - m)) as [x Hx]; [lia|]. rewrite Hx.
    rewrite Forall_lookup in Ha. rewrite <- (Ha _ _ Hx), lookup_zeros, decide_True by lia. done.
  - case_decide.
    + rewrite lookup_app_r by lia. case_decide.
      * rewrite lookup_app_l by lia. f_equal. lia.
      * rewrite lookup_app_r by lia. rewrite !lookup_zeros. repeat case_decide; try lia; done.
    + by rewrite (decide_False (P:=(m + length a <= i < m + length a + length image)%nat)) by lia.
Qed.

Lemma position_nonzero_spec l :
  match position_nonzero l with
  | Some i => exists a x b, l = a ++ x :: b /\ length a = i /\ Forall (eq 0) a /\ x <> 0
  | None => Forall (eq 0) l
  end.
Proof.
  induction l as [|x l IH]; cbn; [done|]. destruct (Z.eqb_spec x 0) as [->|Hx].
  - destruct (position_nonzero l) as [i|]; cbn.
    + destruct IH as (a & y & b & -> & <- & Ha & Hy). exists (0 :: a), y, b. split_and!; try done. by constructor.
    + by constructor.
  - exists [], x, l. done.
Qed.

(** Chopping leaves an image that lies inside the old one. *)
Lemma chop_parts image :
  let image' := match rposition_nonzero image with Some i => take (i + 1) image | None => image end in
  exists k, image = image' ++ zeros k.
Proof.
  unfold rposition_nonzero. pose proof (position_nonzero_spec (rev image)) as Hp.
  destruct (position_nonzero (rev image)) as [i|]; cbn.
  - destruct Hp as (a & x & b & Hr & <- & Ha & Hx). exists (length a).
    assert (Hi : image = rev b ++ [x] ++ rev a).
    { rewrite <- (rev_involutive image), Hr. rewrite rev_app_distr. cbn. by rewrite <- app_assoc. }
    assert (Hl : length image = (length b + 1 + length a)%nat) by (rewrite Hi, !length_app, !length_rev; cbn; lia).
    replace (length image - 1 - length a + 1)%nat with (length (rev b ++ [x])) by (rewrite length_app, length_rev; cbn; lia).
    rewrite Hi, app_assoc, take_app_length. f_equal.
    rewrite (all_zeros a Ha) at 1. exact (eq_trans (rev_alt _) (reverse_replicate _ _)).
  - exists O. cbn. by rewrite app_nil_r.
Qed.

Lemma chop_ok {E} oc o image :
  0 <= o -> o + Z.of_nat (length image) < 2 ^ 64 ->
  exists a image' k, chop (E:=E) oc o image = Ok (o + Z.of_nat (length a), image') /\ Forall (eq 0) a /\
    image = a ++ image' ++ zeros k /\ (image' = [] -> image = []).
Proof.
  intros Ho Hl. unfold chop. destruct (chop_parts image) as [k Hk]. cbn zeta in *.
  set (img := match rposition_nonzero image with Some i => take (i + 1) image | None => image end) in *.
  assert (Hlen : (length img <= length image)%nat) by (rewrite Hk at 1; rewrite length_app; lia).
  assert (Hne : img = [] -> image = []).
  { subst img. unfold rposition_nonzero. destruct (position_nonzero (rev image)); cbn; [|done].
    destruct image; [done|]. rewrite Nat.add_1_r. done. }
  pose proof (position_nonzero_spec img) as Hp. destruct (position_nonzero img) as [i|].
  - destruct Hp as (a & x & b & Hi & <- & Ha & Hx). rewrite Hi, length_app in Hlen.
    rewrite arith_ok by (split; lia). cbn [mbind outcome_bind].
    exists a, (x :: b), k. rewrite Hi, drop_app_length. split_and!; try done. rewrite app_assoc. by rewrite <- Hi.
  - exists [], img, k. rewrite Z.add_0_r. done.
Qed.

(** Padding adds zeros at both ends, up to pages. *)
Lemma pad_ok {E} oc ps o image :
  0 < ps -> 0 <= o -> o + Z.of_nat (length image) + ps <= 2 ^ 64 ->
  exists f b pieces, pad_image (E:=E) oc ps o image = Ok (o - Z.of_nat f, Z.of_nat (f + length image + b), pieces) /\
    concat pieces = zeros f ++ image ++ zeros b /\ Z.of_nat f <= o /\ (o - Z.of_nat f) mod ps = 0 /\
    Z.of_nat (f + length image + b) mod ps = 0 /\
    o + Z.of_nat (length image) + Z.of_nat b <= (o + Z.of_nat (length image) + (ps - 1)) / ps * ps /\
    (image <> [] -> (0 < f + length image + b)%nat) /\ (image = [] -> o = 0 -> pieces = [[]] /\ f = O /\ b = O).
Proof.
  intros Hps Ho Hl. unfold pad_image. set (n := Z.of_nat (length image)) in *.
  pose proof (Z.mod_pos_bound o ps Hps). pose proof (Z.mod_le o ps Ho Hps).
  set (front := o mod ps) in *. pose proof (Z.mod_pos_bound (n + front) ps Hps) as Hm.
  set (back := if (n + front) mod ps =? 0 then 0 else ps - (n + front) mod ps).
  assert (Hb : 0 <= back < ps) by (unfold back; destruct (Z.eqb_spec ((n + front) mod ps) 0); lia).
  assert (Hmod : (n + front + back) mod ps = 0).
  { unfold back. destruct (Z.eqb_spec ((n + front) mod ps) 0); [by rewrite Z.add_0_r|].
    pose proof (Z.div_mod (n + front) ps ltac:(lia)).
    replace (n + front + (ps - (n + front) mod ps)) with (((n + front) / ps + 1) * ps) by lia. apply Z.mod_mul. lia. }
  assert (Hom : (o - front) mod ps = 0).
  { unfold front. rewrite Zminus_mod, Z.mod_mod, Z.sub_diag by lia. apply Z.mod_0_l; lia. }
  unfold n in *. rewrite (arith_ok oc 64 (o - front)) by (split; lia). cbn [mbind outcome_bind].
  rewrite arith_ok by (split; lia). cbn [mbind outcome_bind]. fold back.
  rewrite arith_ok by (split; lia). cbn [mbind outcome_bind]. rewrite Hom, Hmod. cbn [assert_ mbind outcome_bind Z.eqb].
  exists (Z.to_nat front), (Z.to_nat back).
  eexists. split; [f_equal; f_equal; f_equal; lia|]. split.
  { destruct (Z.eqb_spec front 0) as [->|]; destruct (Z.eqb_spec back 0) as [->|]; cbn; by rewrite ?app_nil_r, <- ?app_assoc. }
  assert (Hnat : Z.of_nat (Z.to_nat front + length image + Z.to_nat back) = Z.of_nat (length image) + front + back) by lia.
  split; [lia|]. split; [by rewrite Z2Nat.id by lia|]. split; [by rewrite Hnat|]. split; [|split].
  - assert (Hd : (o + Z.of_nat (length image) + back) mod ps = 0).
    { replace (o + Z.of_nat (length image) + back) with ((o - front) + (Z.of_nat (length image) + front + back)) by lia.
      rewrite Z.add_mod, Hom, Hmod by lia. apply Z.mod_0_l; lia. }
    rewrite Z2Nat.id by lia. apply Z.div_exact in Hd; [|lia]. rewrite Hd at 1. rewrite Z.mul_comm. apply Z.mul_le_mono_nonneg_r; [lia|].
    apply Z.div_le_mono; lia.
  - destruct image; cbn; [done|lia].
  - intros -> ->. unfold front, back. cbn [length]. rewrite Z.mod_0_l by lia. cbn. rewrite Z.mod_0_l by lia. done.
Qed.

(** ** The image of one memory *)

(** Writing segments one after the other. *)
Definition write_segments (mem : list Z) (l : list (Z * list Z)) : list Z :=
  foldl (fun mem '(o, d) => overwrite mem (Z.to_nat o) d) mem l.

Lemma write_segments_app mem l l' : write_segments mem (l ++ l') = write_segments (write_segments mem l) l'.
Proof. apply foldl_app. Qed.

(** The segments of an extent, with their data. *)
Definition seg_contents (data : list (list Z)) (l : list (nat * StaticMemoryInitializer)) : list (Z * list Z) :=
  (fun '(idx, init) => (si_offset init, default [] (data !! idx))) <$> l.

Definition seg_end (seg : nat * StaticMemoryInitializer) : Z := si_offset (snd seg) + range_len (si_data (snd seg)).

(** A segment with data that starts at [lo] or later and ends at [hi] or earlier. *)
Definition seg_within (data : list (list Z)) (lo hi : Z) (seg : nat * StaticMemoryInitializer) : Prop :=
  exists d, data !! (fst seg) = Some d /\ Z.of_nat (length d) = range_len (si_data (snd seg)) /\ 0 < range_len (si_data (snd seg)) /\
    lo <= si_offset (snd seg) /\ seg_end seg <= hi.

Definition seg_top (a : Z) (l : list (nat * StaticMemoryInitializer)) : Z := foldl (fun a seg => Z.max a (seg_end seg)) a l.

Lemma seg_top_bounds a hi l :
  a <= hi -> Forall (fun seg => seg_end seg <= hi) l -> a <= seg_top a l <= hi /\ Forall (fun seg => seg_end seg <= seg_top a l) l.
Proof.
  unfold seg_top. revert a. induction l as [|seg l IH]; cbn; intros a Ha Hl; [split; [lia|constructor]|].
  apply list.Forall_cons in Hl as [Hs Hl]. destruct (IH (Z.max a (seg_end seg)) ltac:(lia) Hl) as [Hb Hf].
  split; [lia|]. constructor; [lia|done].
Qed.

Lemma place_segments_ok {E} oc data lo hi l image :
  0 <= lo -> hi < 2 ^ 64 -> Forall (seg_within data lo hi) l -> lo + Z.of_nat (length image) <= hi ->
  exists image', place_segments (E:=E) oc data lo image (hi - lo) l = Ok (image', hi - lo) /\
    lo + Z.of_nat (length image') = seg_top (lo + Z.of_nat (length image)) l /\
    forall n, hi <= Z.of_nat n -> overwrite (zeros n) (Z.to_nat lo) image' =
      write_segments (overwrite (zeros n) (Z.to_nat lo) image) (seg_contents data l).
Proof.
  intros Hlo Hhi. revert image. induction l as [|[idx init] l IH]; intros image Hl Hi.
  - exists image. done.
  - apply list.Forall_cons in Hl as [(d & Hd & Hlen & Hpos & Hfrom & Hto) Hl]. unfold seg_end in Hto. cbn [fst snd] in *.
    cbn [place_segments place_segment]. rewrite Hd. cbn [unwrap mbind outcome_bind].
    rewrite Hlen, Z.eqb_refl. cbn [assert_ mbind outcome_bind].
    rewrite arith_ok by (split; lia). cbn [mbind outcome_bind].
    set (o := Z.to_nat (si_offset init - lo)). change (if Nat.ltb (length image) o then resize o 0 image ++ d else splice_image image o d) with (placed_image image o d).
    assert (Hpl : lo + Z.of_nat (length (placed_image image o d)) = Z.max (lo + Z.of_nat (length image)) (si_offset init + range_len (si_data init))).
    { rewrite length_placed. lia. }
    unfold vec_reserve. rewrite (proj2 (Z.leb_le (Z.of_nat (length (placed_image image o d))) (hi - lo))) by lia.
    destruct (IH (placed_image image o d) Hl ltac:(lia)) as (image' & -> & Htop & Hover).
    exists image'. split; [done|]. split; [by rewrite Htop, Hpl|]. intros n Hn.
    rewrite Hover, overwrite_placed by lia. cbn [seg_contents fmap list_fmap]. rewrite Hd. cbn [default write_segments foldl].
    by replace (Z.to_nat lo + o)%nat with (Z.to_nat (si_offset init)) by lia.
Qed.

(** What is known of an extent when the data of the segments so far has size [total]. *)
Record extent_inv (data : list (list Z)) (total : Z) (info : MemoryExtent) : Prop := {
  ei_size : 0 <= data_size info <= total;
  ei_segs : Forall (seg_within data (min_addr info) (max_addr info)) (ext_segments info);
  ei_min : 0 <= min_addr info;
  ei_max : max_addr info < 2 ^ 64;
  ei_bounds : ext_segments info <> [] -> Exists (fun seg => si_offset (snd seg) = min_addr info) (ext_segments info) /\
    Exists (fun seg => seg_end seg = max_addr info) (ext_segments info);
  ei_empty : data_size info = 0 <-> ext_segments info = [];
  ei_none : ext_segments info = [] -> min_addr info = u64_max /\ max_addr info = 0
}.

Lemma extent_new_inv data : extent_inv data 0 extent_new.
Proof. split; cbn; try done. Qed.

Lemma seg_within_weaken data lo hi lo' hi' seg : lo' <= lo -> hi <= hi' -> seg_within data lo hi seg -> seg_within data lo' hi' seg.
Proof. intros Hlo Hhi (d & Hd & Hl & Hp & Hf & Ht). exists d. split_and!; try done; lia. Qed.

Lemma Exists_snoc {A} (P : A -> Prop) l x : P x \/ Exists P l -> Exists P (l ++ [x]).
Proof. intros [Hx|Hl]; apply Exists_app; [right; by constructor|by left]. Qed.

Lemma add_segment_ok {E} oc data total info idx init d :
  extent_inv data total info -> data !! idx = Some d ->
  si_data init = (total, total + Z.of_nat (length d)) -> total + Z.of_nat (length d) < 2 ^ 32 ->
  0 <= si_offset init -> si_offset init + Z.of_nat (length d) < 2 ^ 64 ->
  exists info', add_segment (E:=E) oc info idx init = Ok info' /\ extent_inv data (total + Z.of_nat (length d)) info' /\
    forall mem, write_segments mem (seg_contents data (ext_segments info')) =
      overwrite (write_segments mem (seg_contents data (ext_segments info))) (Z.to_nat (si_offset init)) d.
Proof.
  intros [Hs Hsegs Hmin Hmax Hb He Hn] Hd Hr Ht Ho Hend. unfold add_segment. rewrite Hr. cbn [fst snd].
  replace (total + Z.of_nat (length d) - total) with (Z.of_nat (length d)) by lia.
  rewrite arith_ok by (split; lia). cbn [mbind outcome_bind]. destruct (Z.ltb_spec 0 (Z.of_nat (length d))) as [Hpos|Hzero].
  - rewrite !arith_ok by (split; lia). cbn [mbind outcome_bind]. eexists. split; [done|].
    assert (Hlen : range_len (si_data init) = Z.of_nat (length d)) by (unfold range_len; rewrite Hr; cbn [fst snd]; lia).
    split.
    + split; cbn [data_size ext_segments min_addr max_addr]; try lia.
      * apply Forall_app. split.
        -- eapply list.Forall_impl; [exact Hsegs|]. intros seg. apply seg_within_weaken; lia.
        -- constructor; [|constructor]. exists d. unfold seg_end. cbn [fst snd]. rewrite Hlen. split_and!; try done; lia.
      * intros _. split; apply Exists_snoc; cbn [snd]; unfold seg_end; cbn [snd]; rewrite ?Hlen.
        -- destruct (Z.le_gt_cases (si_offset init) (min_addr info)); [left; lia|right].
           destruct (ext_segments info) as [|seg l] eqn:Hx; [|destruct (Hb ltac:(done)) as [Hm _]; eapply list.Exists_impl; [exact Hm|cbv beta; unfold seg_end; intros; lia]].
           exfalso. destruct (Hn eq_refl). unfold u64_max in *. lia.
        -- destruct (Z.le_gt_cases (max_addr info) (si_offset init + Z.of_nat (length d))); [left; lia|right].
           destruct (ext_segments info) as [|seg l] eqn:Hx; [|destruct (Hb ltac:(done)) as [_ Hm]; eapply list.Exists_impl; [exact Hm|cbv beta; unfold seg_end; intros; lia]].
           exfalso. destruct (Hn eq_refl). lia.
      * split; [lia|]. intros Hx. by apply app_eq_nil in Hx as [_ Hx].
      * intros Hx. by apply app_eq_nil in Hx as [_ Hx].
    + intros mem. cbn [ext_segments]. unfold seg_contents. rewrite fmap_app, write_segments_app. cbn. by rewrite Hd.
  - destruct d as [|x d]; [|cbn in *; lia]. exists info. split; [done|]. cbn [length] in *. rewrite Z.add_0_r in *. split; [by split|].
    intros mem. symmetry. apply overwrite_nil.
Qed.

Lemma build_image_ok {E} oc data total info :
  extent_inv data total info ->
  exists o image, build_image (E:=E) oc data info = Ok (o, image) /\
    match ext_segments info with
    | [] => o = 0 /\ image = []
    | _ => min_addr info <= o /\ o + Z.of_nat (length image) <= max_addr info /\ image <> []
    end /\
    forall n, max_addr info <= Z.of_nat n ->
      overwrite (zeros n) (Z.to_nat o) image = write_segments (zeros n) (seg_contents data (ext_segments info)).
Proof.
  intros [Hs Hsegs Hmin Hmax Hb He Hn]. unfold build_image.
  destruct (ext_segments info) as [|seg l] eqn:Hx.
  - exists 0, []. split; [done|]. split; [done|]. intros n _. apply overwrite_nil.
  - destruct (Hb ltac:(done)) as [Hlo Hhi].
    assert (Hle : min_addr info < max_addr info).
    { apply list.Forall_cons in Hsegs as [(d & _ & _ & Hp & Hf & Ht) _]. unfold seg_end in Ht. lia. }
    rewrite arith_ok by (split; lia). cbn [mbind outcome_bind].
    assert (Hends : Forall (fun seg => seg_end seg <= max_addr info) (seg :: l)).
    { eapply list.Forall_impl; [exact Hsegs|]. by intros ? (d & _ & _ & _ & _ & ?). }
    pose proof (seg_top_bounds (min_addr info + Z.of_nat (length (@nil Z))) (max_addr info) (seg :: l) ltac:(cbn; lia) Hends) as [Htb Htf].
    assert (Htop : seg_top (min_addr info + Z.of_nat (length (@nil Z))) (seg :: l) = max_addr info).
    { apply Exists_exists in Hhi as (y & Hy & Hye). rewrite Forall_forall in Htf. specialize (Htf y Hy). cbv beta in *. rewrite Hye in Htf. lia. }
    destruct (place_segments_ok (E:=E) oc data (min_addr info) (max_addr info) (seg :: l) []) as (image & -> & Hlen & Hw);
      [done|done|done|cbn; lia|].
    rewrite Htop in Hlen. cbn [mbind outcome_bind]. replace (Z.of_nat (length image) =? max_addr info - min_addr info) with true by (symmetry; apply Z.eqb_eq; lia).
    cbn [assert_ mbind outcome_bind]. rewrite Z.eqb_refl. cbn [assert_ mbind outcome_bind].
    destruct (chop_ok (E:=E) oc (min_addr info) image) as (a & image' & k & -> & Ha & Hi & Hne); [done|lia|].
    exists (min_addr info + Z.of_nat (length a)), image'. split; [done|].
    assert (Hl' : Z.of_nat (length image) = Z.of_nat (length a) + Z.of_nat (length image') + Z.of_nat k).
    { rewrite Hi, !length_app. unfold zeros. rewrite length_replicate. lia. }
    split; [split; [lia|]; split; [lia|]; intros Hz; rewrite (Hne Hz) in Hlen; cbn in Hlen; lia|].
    intros n Hn'. rewrite <- (overwrite_nil (zeros n) (Z.to_nat (min_addr info))) at 2. rewrite <- Hw by done.
    rewrite Hi, overwrite_zeros_trim; [f_equal; lia|lia|done].
Qed.

(** ** The images of a module *)

(** The initializers for the extents, and the data that they refer to from [base] on:
    an image starts and ends at a page, and gives what the segments write. *)
Inductive images_from (ps : Z) (data : list (list Z)) : Z -> list MemoryExtent -> list (option StaticMemoryInitializer) -> list (list Z) -> Prop :=
| images_nil base : images_from ps data base [] [] []
| images_none base info infos map blocks :
    ext_segments info = [] -> images_from ps data base infos map blocks ->
    images_from ps data base (info :: infos) (None :: map) ([] :: blocks)
| images_some base info infos map blocks o b :
    ext_segments info <> [] -> (0 < length b)%nat -> 0 <= o -> o mod ps = 0 -> Z.of_nat (length b) mod ps = 0 ->
    o + Z.of_nat (length b) <= rounded ps (max_addr info) ->
    (forall n, o + Z.of_nat (length b) <= Z.of_nat n -> max_addr info <= Z.of_nat n ->
       overwrite (zeros n) (Z.to_nat o) b = write_segments (zeros n) (seg_contents data (ext_segments info))) ->
    base + Z.of_nat (length b) < 2 ^ 32 ->
    images_from ps data (base + Z.of_nat (length b)) infos map blocks ->
    images_from ps data base (info :: infos)
      (Some {| si_offset := o; si_data := (base, base + Z.of_nat (length b)) |} :: map) (b :: blocks).

Lemma image_ok {E} oc ps data total info :
  0 < ps < 2 ^ 32 -> extent_inv data total info -> max_addr info + ps <= 2 ^ 64 ->
  exists o image f pieces, build_image (E:=E) oc data info = Ok (o, image) /\
    pad_image (E:=E) oc ps o image = Ok (o - Z.of_nat f, Z.of_nat (length (concat pieces)), pieces) /\
    if decide (ext_segments info = []) then concat pieces = []
    else (0 < length (concat pieces))%nat /\ 0 <= o - Z.of_nat f /\ (o - Z.of_nat f) mod ps = 0 /\ Z.of_nat (length (concat pieces)) mod ps = 0 /\
      o - Z.of_nat f + Z.of_nat (length (concat pieces)) <= rounded ps (max_addr info) /\
      forall n, o - Z.of_nat f + Z.of_nat (length (concat pieces)) <= Z.of_nat n -> max_addr info <= Z.of_nat n ->
        overwrite (zeros n) (Z.to_nat (o - Z.of_nat f)) (concat pieces) = write_segments (zeros n) (seg_contents data (ext_segments info)).
Proof.
  intros Hps Hinv Hroom. destruct (build_image_ok (E:=E) oc data total info Hinv) as (o & image & Hb & Hcase & Hw).
  assert (Ho : 0 <= o /\ o + Z.of_nat (length image) <= Z.max 0 (max_addr info)).
  { destruct (ext_segments info) eqn:Hx; [destruct Hcase as [-> ->]; cbn; lia|]. destruct Hinv. lia. }
  destruct (pad_ok (E:=E) oc ps o image) as (f & b & pieces & Hp & Hc & Hf & Hom & Hlm & Hr & Hne & Hem); [lia|lia|destruct Hinv; lia|].
  assert (Hl : length (concat pieces) = (f + length image + b)%nat).
  { rewrite Hc, !length_app. unfold zeros. rewrite !length_replicate. lia. }
  exists o, image, f, pieces. rewrite Hl. split; [done|]. split; [done|]. case_decide as Hx.
  - rewrite Hx in Hcase. destruct Hcase as [-> ->]. by destruct (Hem eq_refl eq_refl) as (-> & _ & _).
  - destruct (ext_segments info) as [|seg l] eqn:Hx'; [done|]. destruct Hcase as (Hlo & Hhi & Hne'). rewrite <- Hx' in *.
    split; [by apply Hne|]. split; [lia|]. split; [done|]. split; [done|]. split.
    + unfold rounded. etransitivity; [|etransitivity; [exact Hr|]]; [lia|]. apply Z.mul_le_mono_nonneg_r; [lia|]. apply Z.div_le_mono; lia.
    + intros n Hn Hm. rewrite <- Hw by done. rewrite Hc.
      rewrite overwrite_zeros_trim; [|unfold zeros; rewrite length_replicate; lia|by apply Forall_replicate].
      f_equal. unfold zeros. rewrite length_replicate. lia.
Qed.

Definition images_room (ps : Z) (infos : list MemoryExtent) : Z := foldr (fun info n => rounded ps (max_addr info) + n) 0 infos.

Lemma rounded_nonneg ps n : 0 < ps -> 0 <= n -> 0 <= rounded ps n.
Proof. intros Hp Hn. unfold rounded. apply Z.mul_nonneg_nonneg; [apply Z.div_pos; lia|lia]. Qed.

Lemma images_room_nonneg ps infos : 0 < ps -> Forall (fun info => 0 <= max_addr info) infos -> 0 <= images_room ps infos.
Proof.
  intros Hp. induction 1 as [|info infos Hm _ IH]; [done|]. cbn. pose proof (rounded_nonneg ps (max_addr info) Hp Hm). unfold images_room in IH. lia.
Qed.

Lemma extent_max_nonneg data total info : extent_inv data total info -> 0 <= max_addr info.
Proof.
  intros [Hs Hsegs Hmin Hmax Hb He Hn]. destruct (ext_segments info) as [|seg l]; [by destruct (Hn eq_refl) as [_ ->]|].
  apply list.Forall_cons in Hsegs as [(d & _ & _ & Hp & Hf & Ht) _]. unfold seg_end in Ht. lia.
Qed.

Lemma build_images_ok {E} oc ps data total base infos :
  0 < ps < 2 ^ 32 -> 0 <= base -> Forall (extent_inv data total) infos ->
  Forall (fun info => max_addr info + ps <= 2 ^ 64) infos -> base + images_room ps infos < 2 ^ 32 ->
  exists map pieces blocks, build_images (E:=E) oc ps data base infos = Ok (map, pieces) /\
    images_from ps data base infos map blocks /\ concat pieces = concat blocks.
Proof.
  intros Hps. revert base. induction infos as [|info infos IH]; intros base Hbase Hinv Hroom Hsum.
  - exists [], [], []. split; [done|]. split; [constructor|done].
  - apply list.Forall_cons in Hinv as [Hi Hinv], Hroom as [Hr Hroom]. cbn [images_room foldr] in Hsum. fold (images_room ps infos) in Hsum.
    assert (Hrest : 0 <= images_room ps infos).
    { apply images_room_nonneg; [lia|]. eapply list.Forall_impl; [exact Hinv|]. intros ?. apply extent_max_nonneg. }
    pose proof (rounded_nonneg ps (max_addr info) ltac:(lia) (extent_max_nonneg _ _ _ Hi)).
    destruct (image_ok (E:=E) oc ps data total info Hps Hi Hr) as (o & image & f & ps' & Hbi & Hpad & Hcase).
    assert (Hlen : Z.of_nat (length (concat ps')) <= rounded ps (max_addr info)).
    { case_decide; [rewrite Hcase; cbn; lia|lia]. }
    destruct (IH (base + Z.of_nat (length (concat ps')))) as (map & pieces & blocks & Hb & Himg & Hc); [lia|done|done|lia|].
    cbn [build_images]. rewrite Hbi. cbn [mbind outcome_bind]. rewrite Hpad. cbn [mbind outcome_bind].
    assert (H32 : checked 32 (Z.of_nat (length (concat ps'))) = Some (Z.of_nat (length (concat ps')))).
    { apply checked_Some. split; [split; lia|done]. }
    rewrite H32. cbn [unwrap mbind outcome_bind].
    rewrite arith_ok by (split; lia). cbn [mbind outcome_bind]. rewrite Hb. cbn [mbind outcome_bind].
    case_decide as Hx.
    + rewrite Hcase. cbn. exists (None :: map), (ps' ++ pieces), ([] :: blocks). split; [done|].
      rewrite Hcase, Z.add_0_r in Himg. split; [by constructor|]. by rewrite concat_app, Hcase.
    + destruct Hcase as (Hpos & Ho & Hom & Hlm & Hend & Hw). rewrite (proj2 (Z.ltb_lt 0 _)) by lia.
      eexists _, _, (concat ps' :: blocks). split; [done|]. split; [constructor; try done; lia|].
      by rewrite concat_app, Hc.
Qed.

(** ** The dry run at compile time *)

(** The size of a new memory; sizes that do not fit are checked when the memory is made. *)
Definition plan_bytes (plan : MemoryPlan) : option Z :=
  checked 64 (minimum (memory plan) * Z.shiftl 1 (page_size_log2 (memory plan))).
Definition plan_room (plan : MemoryPlan) : Z := match plan_bytes plan with Some n => n | None => u64_max end.
Definition page_ok (plan : MemoryPlan) : Prop := page_size_log2 (memory plan) = 16 \/ page_size_log2 (memory plan) = 0.

Lemma minimum_bytes_ok {E} dbg plan : page_ok plan -> minimum_byte_size (E:=E) dbg (memory plan) = Ok (plan_bytes plan).
Proof.
  unfold minimum_byte_size, page_size, page_size_of, plan_bytes. by intros [-> | ->]; destruct dbg.
Qed.

(** Segments that refer to consecutive parts of the data, from segment [k] on, which
    starts at [total]. *)
Inductive laid_out (data : list (list Z)) : nat -> Z -> list MemoryInitializer -> Prop :=
| laid_nil k total : laid_out data k total []
| laid_cons k total i l d :
    data !! k = Some d -> mi_data i = (total, total + Z.of_nat (length d)) -> total + Z.of_nat (length d) < 2 ^ 32 ->
    laid_out data (S k) (total + Z.of_nat (length d)) l -> laid_out data k total (i :: l).

(** The memories, offsets and data of segments that are known to be in bounds. *)
Inductive placed_from (m : MemModule) (data : list (list Z)) : nat -> list MemoryInitializer -> list (nat * Z * list Z) -> Prop :=
| placed_nil k : placed_from m data k [] []
| placed_cons k i l placed plan start d :
    memory_plans m !! mi_memory i = Some plan -> defined_memory_index m (mi_memory i) <> None ->
    const_offset (memory64 (memory plan)) (mi_offset i) = Some start -> 0 <= start ->
    data !! k = Some d -> range_len (mi_data i) = Z.of_nat (length d) -> start + Z.of_nat (length d) <= plan_room plan ->
    placed_from m data (S k) l placed -> placed_from m data k (i :: l) ((mi_memory i, start, d) :: placed).

Definition writes_to (j : nat) (placed : list (nat * Z * list Z)) : list (Z * list Z) :=
  omap (fun '(memory, o, d) => if decide (memory = j) then Some (o, d) else None) placed.

Lemma const_offset_nonneg b e o : const_offset b e = Some o -> 0 <= o.
Proof.
  unfold const_offset. destruct e as [|[] [|]]; try done; destruct b; cbn; try done; intros [= <-]; by apply Z.mod_pos_bound.
Qed.

(** What is known of the extents of all memories. *)
Record extents_inv (m : MemModule) (data : list (list Z)) (total : Z) (infos : list MemoryExtent) : Prop := {
  xi_length : length infos = length (memory_plans m);
  xi_each : Forall (extent_inv data total) infos;
  xi_room : forall j plan info, memory_plans m !! j = Some plan -> infos !! j = Some info -> max_addr info <= plan_room plan
}.

Lemma extent_inv_mono data total total' info : total <= total' -> extent_inv data total info -> extent_inv data total' info.
Proof. intros Ht []. split; try done. lia. Qed.

Lemma plan_room_nonneg plan : 0 <= plan_room plan < 2 ^ 64.
Proof.
  unfold plan_room. destruct (plan_bytes plan) eqn:Hb; [|unfold u64_max; lia]. by apply checked_Some in Hb as [Hb ->].
Qed.

Section DryRun.
  Context (oc dbg : bool) (m : MemModule) (data : list (list Z)).
  Context (Hpages : Forall page_ok (memory_plans m)).

#[local] Instance dry_run : InitMemory InitMemoryAtCompileTime := CompileTime_InitMemory oc dbg.

(** One segment: it is known to be in bounds and widens the extent of its memory, or
    the loop stops. *)
Lemma dry_segment_ok k total i d s :
  ct_module s = m -> ct_idx s = k -> extents_inv m data total (ct_info s) ->
  (mi_memory i < length (memory_plans m))%nat -> 0 <= total ->
  data !! k = Some d -> mi_data i = (total, total + Z.of_nat (length d)) -> total + Z.of_nat (length d) < 2 ^ 32 ->
  exists b s', init_segment s i = Ok (b, s') /\
    (b = true -> exists plan start info info', memory_plans m !! mi_memory i = Some plan /\ defined_memory_index m (mi_memory i) <> None /\
       const_offset (memory64 (memory plan)) (mi_offset i) = Some start /\ start + Z.of_nat (length d) <= plan_room plan /\
       ct_info s !! mi_memory i = Some info /\
       s' = {| ct_module := m; ct_info := <[mi_memory i := info']> (ct_info s); ct_idx := S k |} /\
       extents_inv m data (total + Z.of_nat (length d)) (ct_info s') /\
       forall mem, write_segments mem (seg_contents data (ext_segments info')) =
         overwrite (write_segments mem (seg_contents data (ext_segments info))) (Z.to_nat start) d).
Proof.
  intros Hm Hk [Hlen Heach Hroom] Hlt Ht Hd Hr Hmax. destruct (lookup_lt_is_Some_2 _ _ Hlt) as [plan Hp].
  destruct (lookup_lt_is_Some_2 (ct_info s) (mi_memory i)) as [info Hi]; [by rewrite Hlen|].
  unfold init_segment. cbn [eval_offset dry_run CompileTime_InitMemory]. unfold ct_eval_offset. rewrite Hm, Hp. cbn [unwrap mbind outcome_bind].
  destruct (const_offset _ _) as [start|] eqn:Hs; [|by exists false, s].
  assert (Hrl : range_len (mi_data i) = Z.of_nat (length d)) by (unfold range_len; rewrite Hr; cbn [fst snd]; lia).
  pose proof (const_offset_nonneg _ _ _ Hs) as Hnn. rewrite Hrl.
  destruct (checked 64 _) as [end_|] eqn:Hc; [|by exists false, s]. apply checked_Some in Hc as [[_ Hc] ->].
  cbn [memory_size_in_bytes dry_run CompileTime_InitMemory]. unfold ct_memory_size_in_bytes. rewrite Hm, Hp. cbn [unwrap mbind outcome_bind].
  rewrite minimum_bytes_ok by (by eapply Forall_lookup_1). cbn [mbind outcome_bind].
  destruct (match plan_bytes plan with Some max => max <? start + Z.of_nat (length d) | None => false end) eqn:Hfit; [by exists false, s|].
  assert (Hfits : start + Z.of_nat (length d) <= plan_room plan).
  { unfold plan_room. destruct (plan_bytes plan); [by apply Z.ltb_ge in Hfit|unfold u64_max; lia]. }
  cbn [init_write dry_run CompileTime_InitMemory]. unfold ct_write. rewrite Hm.
  destruct (defined_memory_index m (mi_memory i)) as [def|] eqn:Hdef; [|by exists false, s].
  rewrite Hi. cbn [unwrap mbind outcome_bind].
  destruct (add_segment_ok (E:=Empty_set) oc data total info (ct_idx s) {| si_offset := start; si_data := mi_data i |} d)
    as (info' & Ha & Hinv & Hw); try done; [by eapply Forall_lookup_1|by rewrite Hk|].
  rewrite Ha. cbn [mbind outcome_bind]. eexists true, _. split; [done|]. intros _.
  exists plan, start, info, info'. rewrite Hk. split_and!; try done. cbn [ct_info]. split.
  - by rewrite length_insert.
  - apply Forall_insert; [|done]. eapply list.Forall_impl; [exact Heach|]. intros ?. apply extent_inv_mono. lia.
  - intros j plan' info0 Hp' Hj. apply list_lookup_insert_Some in Hj as [(<- & <- & _)|(Hne & Hj)]; [|by eapply Hroom].
    rewrite Hp in Hp'. injection Hp' as <-. specialize (Hroom _ _ _ Hp Hi).
    unfold add_segment in Ha. rewrite Hr in Ha. cbn [si_data si_offset fst snd] in Ha.
    replace (total + Z.of_nat (length d) - total) with (Z.of_nat (length d)) in Ha by lia.
    rewrite arith_ok in Ha by (split; lia). cbn [mbind outcome_bind] in Ha. destruct (0 <? _); [|by injection Ha as <-].
    apply bind_Ok_inv in Ha as (? & _ & Ha). rewrite arith_ok in Ha by (split; lia). cbn [mbind outcome_bind] in Ha. injection Ha as <-. cbn. lia.
Qed.

Lemma writes_to_cons j memory o d placed :
  writes_to j ((memory, o, d) :: placed) = (if decide (memory = j) then [(o, d)] else []) ++ writes_to j placed.
Proof. unfold writes_to. cbn. by case_decide. Qed.

Lemma dry_run_ok l k total s :
  laid_out data k total l -> Forall (fun i => mi_memory i < length (memory_plans m))%nat l ->
  ct_module s = m -> ct_idx s = k -> extents_inv m data total (ct_info s) -> 0 <= total ->
  exists b s', init_segments s l = Ok (b, s') /\
    (b = true -> exists placed total', placed_from m data k l placed /\ extents_inv m data total' (ct_info s') /\
       forall j info, ct_info s !! j = Some info -> exists info', ct_info s' !! j = Some info' /\
         (defined_memory_index m j = None -> info' = info) /\
         forall mem, write_segments mem (seg_contents data (ext_segments info')) =
           write_segments (write_segments mem (seg_contents data (ext_segments info))) (writes_to j placed)).
Proof using Hpages.
  revert k total s. induction l as [|i l IH]; intros k total s Hlay Hmem Hm Hk Hx Ht.
  - exists true, s. split; [done|]. intros _. exists [], total. split; [constructor|]. split; [done|]. intros j info Hj. exists info. done.
  - inversion Hlay as [|k0 t0 i0 l0 d Hd Hr Hmax Hlay']; clear Hlay; subst k0 t0 i0 l0. apply list.Forall_cons in Hmem as [Hi Hmem].
    destruct (dry_segment_ok k total i d s) as (b & s1 & Hrun & Hok); try done.
    cbn [init_segments]. rewrite Hrun. cbn [mbind outcome_bind]. destruct b; [|by exists false, s1].
    destruct (Hok eq_refl) as (plan & start & info & info' & Hp & Hdef & Hc & Hfit & Hinfo & -> & Hx' & Hw).
    destruct (IH (S k) (total + Z.of_nat (length d)) {| ct_module := m; ct_info := <[mi_memory i := info']> (ct_info s); ct_idx := S k |}
      Hlay' Hmem eq_refl eq_refl Hx' ltac:(lia)) as (b & s' & Hrun' & Hok').
    exists b, s'. split; [done|]. intros Hb. destruct (Hok' Hb) as (placed & total' & Hpl & Hinv & Hall).
    exists ((mi_memory i, start, d) :: placed), total'. split.
    { econstructor; try done; [by eapply const_offset_nonneg|]. unfold range_len. rewrite Hr. cbn [fst snd]. lia. }
    split; [done|]. intros j info0 Hj. cbn [ct_info] in Hall. rewrite writes_to_cons. case_decide as Hji.
    + subst j. rewrite Hinfo in Hj. injection Hj as <-.
      destruct (Hall (mi_memory i) info') as (info'' & Hl & _ & Hw''); [apply list_lookup_insert_eq; by eapply lookup_lt_Some|].
      exists info''. split; [done|]. split; [done|]. intros mem. by rewrite Hw'', Hw.
    + destruct (Hall j info0) as (info'' & Hl & Hw''); [by rewrite list_lookup_insert_ne|]. exists info''. done.
Qed.

Lemma images_allowed_ok {E} max infos total :
  Forall (extent_inv data total) infos -> exists b, images_allowed (E:=E) oc max infos = Ok b.
Proof.
  induction 1 as [|info infos Hi _ [b IH]]; [by exists true|]. cbn [images_allowed]. unfold image_allowed.
  destruct (Z.ltb_spec 0 (data_size info)) as [Hpos|]; [|cbn [mbind outcome_bind]; by exists b].
  destruct Hi as [Hs Hsegs Hmin Hmax Hb He Hn]. destruct (ext_segments info) as [|seg l]; [pose proof (proj2 He eq_refl); lia|].
  apply list.Forall_cons in Hsegs as [(d & _ & _ & Hp & Hf & Ht) _]. unfold seg_end in Ht.
  rewrite arith_ok by (split; lia). cbn [mbind outcome_bind]. destruct (_ || _); [by exists b|by exists false].
Qed.
End DryRun.

(** ** [try_static_init] *)

(** A module as its translation leaves it. *)
Record translated (t : ModuleTranslation) (l : list MemoryInitializer) : Prop := {
  tr_init : memory_initialization (t_module t) = Segmented l;
  tr_laid_out : laid_out (t_data t) 0 0 l;
  tr_memories : Forall (fun i => mi_memory i < length (memory_plans (t_module t)))%nat l;
  tr_pages : Forall page_ok (memory_plans (t_module t))
}.

(** The memories of a module are small enough for images. *)
Definition images_fit (ps : Z) (plans : list MemoryPlan) : Prop :=
  foldr (fun plan n => rounded ps (plan_room plan) + n) 0 plans < 2 ^ 32.

(** The segments, with their data, are known at compile time, and there is an image for
    each memory. *)
Record static_images (ps : Z) (t : ModuleTranslation) (l : list MemoryInitializer)
    (map : list (option StaticMemoryInitializer)) (data : list (list Z)) : Prop := {
  st_images : exists infos blocks placed,
    images_from ps (t_data t) 0 infos map blocks /\ concat data = concat blocks /\
    placed_from (t_module t) (t_data t) 0 l placed /\ length infos = length (memory_plans (t_module t)) /\
    forall j plan info, memory_plans (t_module t) !! j = Some plan -> infos !! j = Some info ->
      max_addr info <= plan_room plan /\ (defined_memory_index (t_module t) j = None -> info = extent_new) /\
      forall mem, write_segments mem (seg_contents (t_data t) (ext_segments info)) = write_segments mem (writes_to j placed)
}.

Lemma rounded_ge ps n : 0 < ps -> n <= rounded ps n.
Proof. intros Hp. unfold rounded. pose proof (Z.div_mod (n + (ps - 1)) ps ltac:(lia)). pose proof (Z.mod_pos_bound (n + (ps - 1)) ps Hp). lia. Qed.

Lemma padded_mono ps n n' : 0 < ps -> n <= n' -> rounded ps n <= rounded ps n'.
Proof. intros Hp Hn. unfold rounded. apply Z.mul_le_mono_nonneg_r; [lia|]. apply Z.div_le_mono; lia. Qed.

Lemma images_room_fit ps plans infos :
  0 < ps -> length infos = length plans ->
  (forall j plan info, plans !! j = Some plan -> infos !! j = Some info -> max_addr info <= plan_room plan) ->
  images_room ps infos <= foldr (fun plan n => rounded ps (plan_room plan) + n) 0 plans.
Proof.
  intros Hp. revert plans. induction infos as [|info infos IH]; intros [|plan plans] Hl Hr; try done. cbn.
  pose proof (padded_mono ps _ _ Hp (Hr O plan info eq_refl eq_refl)). specialize (IH plans ltac:(cbn in Hl; lia) (fun j => Hr (S j))).
  unfold images_room in IH. lia.
Qed.

Lemma images_fit_each ps plans plan :
  0 < ps -> images_fit ps plans -> plan ∈ plans -> rounded ps (plan_room plan) < 2 ^ 32.
Proof.
  intros Hp Hf Hin. unfold images_fit in Hf.
  assert (Hnn : forall l, 0 <= foldr (fun plan n => rounded ps (plan_room plan) + n) 0 l).
  { induction l as [|x l IH]; cbn; [lia|]. pose proof (rounded_nonneg ps (plan_room x) Hp (proj1 (plan_room_nonneg x))). lia. }
  induction plans as [|x l IH]; [by apply not_elem_of_nil in Hin|]. cbn in Hf. specialize (Hnn l).
  pose proof (rounded_nonneg ps (plan_room x) Hp (proj1 (plan_room_nonneg x))).
  apply list.elem_of_cons in Hin as [->|Hin]; [lia|]. apply IH; [lia|done].
Qed.

(** The pass keeps the module as it is, or makes images of what its segments write. *)
Lemma try_static_init_ok {E} oc dbg ps max t l :
  translated t l -> 0 < ps < 2 ^ 32 -> images_fit ps (memory_plans (t_module t)) ->
  exists t', try_static_init (E:=E) oc dbg ps max t = Ok t' /\
    (t' = t \/ exists map, t_module t' = set_memory_initialization (t_module t) (StaticInit map) /\
       t_data_align t' = Some ps /\ t_passive_data t' = t_passive_data t /\ static_images ps t l map (t_data t')).
Proof.
  intros [Hi Hlay Hmem Hpages] Hps Hfit. unfold try_static_init. rewrite Hi. cbn [is_segmented negb init_memory].
  set (s0 := {| ct_module := t_module t; ct_info := replicate (length (memory_plans (t_module t))) extent_new; ct_idx := 0 |}).
  destruct (dry_run_ok oc dbg (t_module t) (t_data t) Hpages l 0 0 s0 Hlay Hmem eq_refl eq_refl) as (b & s & Hrun & Hok); [|lia|].
  { split; cbn [s0 ct_info].
    - by rewrite length_replicate.
    - apply Forall_replicate. apply extent_new_inv.
    - intros j plan info _ Hj. apply lookup_replicate in Hj as [-> _]. cbn. apply plan_room_nonneg. }
  unfold dry_run in Hrun. rewrite Hrun. cbn [unwrap_result mbind outcome_bind]. destruct b; [|exists t; split; [done|by left]].
  destruct (Hok eq_refl) as (placed & total & Hpl & [Hlen Heach Hroom] & Hw). cbn [negb].
  destruct (images_allowed_ok (E:=E) oc (t_data t) max (ct_info s) total Heach) as [b ->]. cbn [mbind outcome_bind].
  destruct b; [|exists t; split; [done|by left]]. cbn [negb].
  destruct (build_images_ok (E:=E) oc ps (t_data t) total 0 (ct_info s)) as (map & pieces & blocks & -> & Himg & Hc); [done|lia|done| | |].
  { apply Forall_lookup. intros j info Hj. destruct (lookup_lt_is_Some_2 (memory_plans (t_module t)) j) as [plan Hp].
    { rewrite <- Hlen. by eapply lookup_lt_Some. }
    specialize (Hroom j plan info Hp Hj). pose proof (images_fit_each ps _ plan ltac:(lia) Hfit (list_elem_of_lookup_2 _ _ _ Hp)).
    pose proof (rounded_ge ps (plan_room plan) ltac:(lia)). lia. }
  { pose proof (images_room_fit ps _ _ ltac:(lia) Hlen Hroom). unfold images_fit in Hfit. lia. }
  cbn [mbind outcome_bind]. eexists. split; [done|]. right. exists map. split_and!; try done. split.
  exists (ct_info s), blocks, placed. split_and!; try done. intros j plan info Hp Hj. split; [by eapply Hroom|].
  destruct (Hw j extent_new) as (info' & Hj' & Hdef & Hw'); [cbn; apply lookup_replicate; split; [done|by eapply lookup_lt_Some]|].
  rewrite Hj in Hj'. injection Hj' as <-. done.
Qed.

(** ** Translation *)

Lemma laid_out_snoc data d k total l i :
  laid_out data k total l -> (k + length l)%nat = length data -> 0 <= total ->
  mi_data i = (total + Z.of_nat (length (concat (drop k data))), total + Z.of_nat (length (concat (drop k data))) + Z.of_nat (length d)) ->
  total + Z.of_nat (length (concat (drop k data))) + Z.of_nat (length d) < 2 ^ 32 ->
  laid_out (data ++ [d]) k total (l ++ [i]).
Proof.
  induction 1 as [k total|k total i0 l d0 Hk Hr Hmax Hlay IH]; intros Hlen Ht Hi Hlt.
  - cbn in Hlen. rewrite Nat.add_0_r in Hlen. rewrite drop_ge in Hi, Hlt by lia. cbn in Hi, Hlt. rewrite Z.add_0_r in Hi, Hlt.
    econstructor; [|exact Hi|exact Hlt|constructor]. rewrite lookup_app_r by lia. by replace (k - length data)%nat with O by lia.
  - assert (Hd : length (concat (drop k data)) = (length d0 + length (concat (drop (S k) data)))%nat).
    { rewrite (drop_S _ _ _ Hk). cbn. by rewrite length_app. }
    econstructor; [by apply lookup_app_l_Some|done|done|]. cbn in Hlen. apply IH; [lia|lia|rewrite Hi, Hd; f_equal; lia|lia].
Qed.

(** What is known after some entries of the data section. *)
Record translating (n : nat) (plans : list MemoryPlan) (t : ModuleTranslation) (l : list MemoryInitializer) : Prop := {
  tg_imported : num_imported_memories (t_module t) = n;
  tg_plans : memory_plans (t_module t) = plans;
  tg_init : memory_initialization (t_module t) = Segmented l;
  tg_laid_out : laid_out (t_data t) 0 0 l;
  tg_length : length l = length (t_data t);
  tg_total : t_total_data t = Z.of_nat (length (concat (t_data t)));
  tg_memories : Forall (fun i => mi_memory i < length plans)%nat l;
  tg_align : t_data_align t = None
}.

Definition entry_ok (plans : list MemoryPlan) (e : DataKind * list Z) : Prop :=
  match fst e with Active memory_index _ => (memory_index < length plans)%nat | Passive => True end.

Lemma translate_entries_ok n plans t l index entries t' :
  translating n plans t l -> Forall (entry_ok plans) entries -> translate_entries t index entries = Ok t' ->
  exists l', translating n plans t' l'.
Proof.
  intros Ht He. revert t l index Ht. induction He as [|[kind data] entries Hk He IH]; intros t l index Ht Hr.
  - injection Hr as <-. by exists l.
  - cbn [translate_entries] in Hr. apply bind_Ok_inv in Hr as (t1 & Hr1 & Hr). destruct Ht as [Hn Hp Hi Hlay Hlen Htot Hmem Hal].
    unfold translate_data_entry in Hr1. destruct kind as [mem offset|].
    + rewrite Hi in Hr1. cbn [mbind outcome_bind] in Hr1. apply bind_Ok_inv in Hr1 as ([range total] & Hrange & Hr1). injection Hr1 as <-.
      unfold mk_range in Hrange. apply bind_Ok_inv in Hrange as (size & Hs & Hrange). apply bind_Ok_inv in Hrange as (end_ & Hend & Hrange).
      unfold ok_or in Hs, Hend. destruct (checked 32 (Z.of_nat (length data))) eqn:Hc; [|done]. injection Hs as ->. apply checked_Some in Hc as [_ ->].
      destruct (checked 32 (t_total_data t + _)) eqn:Hc; [|done]. injection Hend as ->. apply checked_Some in Hc as [[_ Hc] ->]. injection Hrange as <- <-.
      eapply IH; [|exact Hr]. split; cbn [t_module t_data t_data_align t_total_data memory_initialization set_memory_initialization num_imported_memories memory_plans];
        try done; rewrite ?Htot in *.
      * apply laid_out_snoc; [done|lia|lia|cbn [mi_data]; by rewrite drop_0|by rewrite drop_0].
      * rewrite !length_app. cbn. lia.
      * rewrite concat_app, length_app. cbn. rewrite app_nil_r. lia.
      * apply Forall_app. split; [done|]. by constructor.
    + apply bind_Ok_inv in Hr1 as ([range total] & _ & Hr1). injection Hr1 as <-. eapply IH; [|exact Hr]. by split.
Qed.

Lemma translate_section_ok n plans entries t :
  Forall page_ok plans -> Forall (entry_ok plans) entries -> translate_data_section n plans entries = Ok t ->
  exists l, translated t l /\ t_data_align t = None /\ memory_plans (t_module t) = plans /\ num_imported_memories (t_module t) = n.
Proof.
  intros Hp He Ht. unfold translate_data_section in Ht. eapply translate_entries_ok with (l := []) in Ht as [l [Hn Hpl Hi Hlay Hlen Htot Hmem Hal]]; [|split; try done; constructor|exact He].
  exists l. split; [|done]. split; try done; by rewrite Hpl.
Qed.
