(* ===== verification/MemoryRun.v ===== *)
(** * Memories of instances

    The parts of [vm/instance/allocator.rs] that initialise the memories of an
    instance from its segments or its images, [initialize_instance] as a whole, and
    the bulk operations on memories of [vm/instance.rs].  A memory is the bytes that
    are mapped from its base on, of which the first [rm_length] are the memory; the
    rest is what rounding to pages of the host adds.  A raw copy that leaves the
    mapped bytes has no defined result and is a [Panic]. *)

From Stdlib Require Import ZArith Lia.
From stdpp Require Import base list gmap numbers option sets.
From S2P Require Import Prelude MemoryTypes MetadataSections GcRef Drc GcStore WasmTypes Tables TableOps ConstExpr TableInit MemoryInit ImageBuild.
Open Scope Z_scope.

(** ** Instances and memories *)

Record RuntimeMemory := { rm_bytes : list Z; rm_length : Z; rm_needs_init : bool }.

(** The memories of an instance and those that it imports are positions in the list of
    memories of the store. *)
Record MemInstance := {
  im_module : MemModule;
  im_memories : list nat;
  im_imports : list nat;
  im_wasm_data : list Z;
  im_dropped_data : gset nat
}.

Record MemWorld (T H L : Type) := {
  mw_world : World T H L;
  mw_instances : list MemInstance;
  mw_memories : list RuntimeMemory
}.
Arguments mw_world {T H L}.
Arguments mw_instances {T H L}.
Arguments mw_memories {T H L}.

Inductive instance_error :=
| TablesFailed (e : init_error)
| OffsetFailed (e : const_error)
| DataDoesNotFit
| DataTrap (t : Trap).

Section Instances.
  Context {T H L : Type} `{!GcHeap T H} `{!ResourceLimiter L} (oc dbg : bool).
  Implicit Types (w : MemWorld T H L).

Definition mem_instance {E} w (i : nat) : outcome E MemInstance := unwrap (mw_instances w !! i).

Definition get_memory {E} w (i index : nat) : outcome E (nat * RuntimeMemory) :=
  inst ← mem_instance w i;
  k ← match defined_memory_index (im_module inst) index with
      | Some defined => unwrap (im_memories inst !! defined)
      | None => unwrap (im_imports inst !! index)
      end;
  m ← unwrap (mw_memories w !! k);
  Ok (k, m).

Definition wasm_data {E} (inst : MemInstance) (range : data_range) : outcome E (list Z) :=
  assert_ ((fst range <=? snd range) && (snd range <=? Z.of_nat (length (im_wasm_data inst))));;
  Ok (take (Z.to_nat (snd range - fst range)) (drop (Z.to_nat (fst range)) (im_wasm_data inst))).

Definition with_memory w (k : nat) (m : RuntimeMemory) : MemWorld T H L :=
  {| mw_world := mw_world w; mw_instances := mw_instances w; mw_memories := <[k := m]> (mw_memories w) |}.

Definition with_world w (ww : World T H L) : MemWorld T H L :=
  {| mw_world := ww; mw_instances := mw_instances w; mw_memories := mw_memories w |}.

(** [ptr::copy_nonoverlapping] and [ptr::copy] into a memory. *)
Definition raw_write {E} (m : RuntimeMemory) (dst : Z) (src : list Z) : outcome E RuntimeMemory :=
  assert_ (dst + Z.of_nat (length src) <=? Z.of_nat (length (rm_bytes m)));;
  Ok {| rm_bytes := overwrite (rm_bytes m) (Z.to_nat dst) src; rm_length := rm_length m; rm_needs_init := rm_needs_init m |}.

(** ** Initialisation *)

(** The value of an offset, in the type of the addresses of the memory. *)
Definition offset_bits (mem64 : bool) (v : ValRaw) : Z := if mem64 then raw_get_u64 v else raw_get_u32 v.

Definition eval_memory_offset w (i index : nat) (expr : ConstExpr) : outcome const_error (Z * MemWorld T H L) :=
  minst ← mem_instance w i;
  plan ← unwrap (memory_plans (im_module minst) !! index);
  inst ← get_instance (mw_world w) i;
  '(v, s, refs) ← const_eval dbg (eval_context oc inst) (w_store (mw_world w)) (w_func_refs (mw_world w)) expr;
  Ok (offset_bits (memory64 (memory plan)) v, with_world w (with_state (mw_world w) s refs)).

Record InitMemoryAtInstantiation := { at_world : MemWorld T H L; at_instance : nat }.

Definition at_memory_size_in_bytes (s : InitMemoryAtInstantiation) (index : nat)
  : outcome Empty_set (option Z * InitMemoryAtInstantiation) :=
  '(_, m) ← get_memory (at_world s) (at_instance s) index;
  Ok (Some (rm_length m), s).

Definition at_eval_offset (s : InitMemoryAtInstantiation) (index : nat) (expr : ConstExpr)
  : outcome Empty_set (option Z * InitMemoryAtInstantiation) :=
  '(v, w) ← unwrap_result (eval_memory_offset (at_world s) (at_instance s) index expr);
  Ok (Some v, {| at_world := w; at_instance := at_instance s |}).

(** A memory whose image is mapped is not written. *)
Definition at_write (s : InitMemoryAtInstantiation) (index : nat) (init : StaticMemoryInitializer)
  : outcome Empty_set (bool * InitMemoryAtInstantiation) :=
  inst ← mem_instance (at_world s) (at_instance s);
  '(k, m) ← get_memory (at_world s) (at_instance s) index;
  if match defined_memory_index (im_module inst) index with Some _ => negb (rm_needs_init m) | None => false end
  then Ok (true, s)
  else
    src ← wasm_data inst (si_data init);
    m ← raw_write m (si_offset init) src;
    Ok (true, {| at_world := with_memory (at_world s) k m; at_instance := at_instance s |}).

#[export] Instance Instantiation_InitMemory : InitMemory InitMemoryAtInstantiation := {
  memory_size_in_bytes := at_memory_size_in_bytes;
  eval_offset := at_eval_offset;
  init_write := at_write
}.

Definition initialize_memories (i : nat) w : MemWorld T H L * outcome instance_error () :=
  match mem_instance (E:=Empty_set) w i with
  | Ok inst =>
      match init_memory (memory_initialization (im_module inst)) {| at_world := w; at_instance := i |} with
      | Ok (ok, s) => (at_world s, if ok then Ok () else Err (DataTrap MemoryOutOfBounds))
      | _ => (w, Panic)
      end
  | _ => (w, Panic)
  end.

(** [check_memory_init_bounds]; [get_memory_init_start] is [eval_memory_offset]. *)
Fixpoint check_memory_init_bounds (i : nat) (initializers : list MemoryInitializer) w
  : MemWorld T H L * outcome instance_error () :=
  match initializers with
  | [] => (w, Ok ())
  | init :: rest =>
      match get_memory (E:=instance_error) w i (mi_memory init),
            map_err OffsetFailed (eval_memory_offset w i (mi_memory init) (mi_offset init)) with
      | Ok (_, m), Ok (start, w) =>
          match checked 64 (start + range_len (mi_data init)) with
          | Some end_ => if end_ <=? rm_length m then check_memory_init_bounds i rest w else (w, Err DataDoesNotFit)
          | None => (w, Err DataDoesNotFit)
          end
      | Ok _, Err e => (w, Err e)
      | _, _ => (w, Panic)
      end
  end.

Definition lift_tables w (r : World T H L * outcome init_error ()) : MemWorld T H L * outcome instance_error () :=
  (with_world w r.1, map_err TablesFailed r.2).

Definition check_init_bounds (i : nat) w : MemWorld T H L * outcome instance_error () :=
  match lift_tables w (check_table_init_bounds oc dbg i (mw_world w)) with
  | (w, Ok _) =>
      match mem_instance (E:=Empty_set) w i with
      | Ok inst => match memory_initialization (im_module inst) with
                   | Segmented initializers => check_memory_init_bounds i initializers w
                   | StaticInit _ => (w, Ok ())
                   end
      | _ => (w, Panic)
      end
  | r => r
  end.

(** [initialize_instance], tables and then memories. *)
Definition initialize_both (i : nat) w : MemWorld T H L * outcome instance_error () :=
  match lift_tables w (initialize_tables oc dbg i (mw_world w)) with
  | (w, Ok _) => initialize_memories i w
  | r => r
  end.

Definition initialize_whole_instance (i : nat) (is_bulk_memory : bool) w : MemWorld T H L * outcome instance_error () :=
  if is_bulk_memory then initialize_both i w
  else match check_init_bounds i w with
       | (w, Ok _) => initialize_both i w
       | r => r
       end.

(** ** Bulk operations *)

Definition validate_inbounds (max ptr len : Z) : outcome Trap Z :=
  end_ ← ok_or MemoryOutOfBounds (checked 64 (ptr + len));
  if max <? end_ then Err MemoryOutOfBounds else Ok ptr.

Definition raw_read {E} (m : RuntimeMemory) (src len : Z) : outcome E (list Z) :=
  assert_ (src + len <=? Z.of_nat (length (rm_bytes m)));;
  Ok (take (Z.to_nat len) (drop (Z.to_nat src) (rm_bytes m))).

Definition memory_copy w (i dst_index : nat) (dst : Z) (src_index : nat) (src len : Z) : outcome Trap (MemWorld T H L) :=
  '(_, src_mem) ← get_memory w i src_index;
  '(k, dst_mem) ← get_memory w i dst_index;
  src ← validate_inbounds (rm_length src_mem) src len;
  dst ← validate_inbounds (rm_length dst_mem) dst len;
  data ← raw_read src_mem src len;
  m ← raw_write dst_mem dst data;
  Ok (with_memory w k m).

Definition memory_fill w (i index : nat) (dst val len : Z) : outcome Trap (MemWorld T H L) :=
  '(k, m) ← get_memory w i index;
  dst ← validate_inbounds (rm_length m) dst len;
  m ← raw_write m dst (replicate (Z.to_nat len) (val mod 2 ^ 8));
  Ok (with_memory w k m).

Definition memory_init_segment w (i index : nat) (range : data_range) (dst src len : Z) : outcome Trap (MemWorld T H L) :=
  inst ← mem_instance w i;
  '(k, m) ← get_memory w i index;
  data ← wasm_data inst range;
  dst ← validate_inbounds (rm_length m) dst len;
  src ← validate_inbounds (Z.of_nat (length data)) src len;
  m ← raw_write m dst (take (Z.to_nat len) (drop (Z.to_nat src) data));
  Ok (with_memory w k m).

Definition memory_init w (i index data_index : nat) (dst src len : Z) : outcome Trap (MemWorld T H L) :=
  inst ← mem_instance w i;
  let range := match passive_data_map (im_module inst) !! data_index with
               | Some range => if bool_decide (data_index ∈ im_dropped_data inst) then (0, 0) else range
               | None => (0, 0)
               end in
  memory_init_segment w i index range dst src len.

Definition data_drop {E} w (i data_index : nat) : outcome E (MemWorld T H L) :=
  inst ← mem_instance w i;
  Ok {| mw_world := mw_world w;
        mw_instances := <[i := {| im_module := im_module inst; im_memories := im_memories inst; im_imports := im_imports inst;
                                  im_wasm_data := im_wasm_data inst;
                                  im_dropped_data := {[data_index]} ∪ im_dropped_data inst |}]> (mw_instances w);
        mw_memories := mw_memories w |}.
End Instances.
Arguments InitMemoryAtInstantiation : clear implicits.
Arguments at_world {T H L}.
Arguments at_instance {T H L}.

(** ** Where data is in the section *)

Section Layout.
  Context `{SectionWriterLaws}.

Lemma append_aligned_at section d align :
  0 < align -> Z.of_nat (length section) mod align = 0 ->
  append_aligned section d align = (Z.of_nat (length section), section ++ d).
Proof.
  intros Ha Hm. destruct (append_aligned_offset section d align Ha) as (pad & Hap & Hpm & Hlt).
  rewrite Nat2Z.inj_add, <- Zplus_mod_idemp_l, Hm, Z.add_0_l, Z.mod_small in Hpm by lia.
  destruct pad; [|cbn in Hpm; lia]. rewrite Hap. cbn. by rewrite Nat.add_0_r.
Qed.

Lemma append_one section d : append_aligned section d 1 = (Z.of_nat (length section), section ++ d).
Proof. apply append_aligned_at; [lia|apply Z.mod_1_r]. Qed.

Lemma append_active_one section data : append_active section 1 data = section ++ concat data.
Proof.
  revert section. induction data as [|d data IH]; intros section; cbn; [by rewrite app_nil_r|].
  rewrite append_one, IH. cbn. by rewrite <- app_assoc.
Qed.

Lemma append_active_concat section align data :
  0 < align -> Z.of_nat (length section) mod align = 0 -> append_active section align data = section ++ concat data.
Proof.
  intros Ha Hm. destruct data as [|d data]; cbn; [by rewrite app_nil_r|].
  rewrite append_aligned_at, append_active_one by done. cbn. by rewrite <- app_assoc.
Qed.

Lemma append_passive_concat section data : append_passive section data = section ++ concat data.
Proof.
  unfold append_passive. revert section. induction data as [|d data IH]; intros section; cbn; [by rewrite app_nil_r|].
  rewrite append_one, IH. cbn. by rewrite <- app_assoc.
Qed.

(** The data of a module lies in the section from the offset on by which the ranges of the module were moved. *)
Lemma append_module_ok {E} oc section t m data :
  (forall a, t_data_align t = Some a -> 0 < a) ->
  append_module (E:=E) oc section t = Ok (m, data) ->
  exists pre post, data = pre ++ concat (t_data t) ++ post /\
    num_imported_memories m = num_imported_memories (t_module t) /\ memory_plans m = memory_plans (t_module t) /\
    shift_initialization (E:=E) (Z.of_nat (length pre)) (memory_initialization (t_module t)) = Ok (memory_initialization m).
Proof.
  intros Hal Ha. unfold append_module in Ha. set (align := match t_data_align t with Some a => a | None => 1 end) in *.
  assert (Hpos : 0 < align) by (unfold align; destruct (t_data_align t); [by apply Hal|lia]).
  destruct (append_aligned_offset section [] align Hpos) as (pad & Hap & Hm & _). rewrite Hap, app_nil_r in Ha.
  rewrite append_active_concat, append_passive_concat in Ha by (rewrite ?length_app; done).
  apply bind_Ok_inv in Ha as (off & Hoff & Ha). apply unwrap_Ok, checked_Some in Hoff as [_ ->].
  apply bind_Ok_inv in Ha as (init & Hi & Ha). apply bind_Ok_inv in Ha as (tot & _ & Ha).
  apply bind_Ok_inv in Ha as (po & _ & Ha). apply bind_Ok_inv in Ha as (pas & _ & Ha). injection Ha as <- <-.
  exists (section ++ pad), (concat (t_passive_data t)). rewrite length_app. cbn. split; [by rewrite <- !app_assoc|done].
Qed.
End Layout.

Lemma slice_middle {A} (pre d post : list A) n :
  n = length d -> take n (drop (length pre) (pre ++ d ++ post)) = d.
Proof. intros ->. by rewrite drop_app_length, take_app_length. Qed.

Lemma wasm_data_middle {E} inst pre d post a b :
  im_wasm_data inst = pre ++ d ++ post -> a = Z.of_nat (length pre) -> b = a + Z.of_nat (length d) ->
  wasm_data (E:=E) inst (a, b) = Ok d.
Proof.
  intros Hd -> ->. unfold wasm_data. cbn [fst snd]. rewrite Hd, !length_app.
  rewrite (proj2 (Z.leb_le _ _)) by lia. rewrite (proj2 (Z.leb_le _ _)) by lia. cbn [andb assert_ mbind outcome_bind].
  rewrite Nat2Z.id, slice_middle; [done|lia].
Qed.

Lemma concat_split (data : list (list Z)) k d :
  data !! k = Some d -> concat data = concat (take k data) ++ d ++ concat (drop (S k) data).
Proof. intros Hk. rewrite <- (take_drop_middle data k d Hk) at 1. by rewrite concat_app. Qed.

Lemma concat_take_S (data : list (list Z)) k d : data !! k = Some d -> length (concat (take (S k) data)) = (length (concat (take k data)) + length d)%nat.
Proof. intros Hk. rewrite (take_S_r _ _ _ Hk), concat_app, length_app. cbn. by rewrite app_nil_r. Qed.
