(* ===== verification/StaticInit.v ===== *)
(** * Static initialisation cannot be observed

    An instance of a module whose segments [try_static_init] replaced by images starts
    with the same memories, and fails in the same way, as an instance of the module with
    its segments. *)

From Stdlib Require Import ZArith Lia.
From stdpp Require Import base list gmap numbers option sets.
From S2P Require Import Prelude MemoryTypes MetadataSections GcRef Drc GcStore WasmTypes Tables TableOps TableWorld ConstExpr TableInit LazyRun MemoryInit ImageBuild MemoryRun.
Open Scope Z_scope.

(** ** Writing to the memories of an instance *)

Definition own_position (inst : MemInstance) (j : nat) : option nat :=
  d ← defined_memory_index (im_module inst) j; im_memories inst !! d.

Definition write_mem (o : Z) (d : list Z) (m : RuntimeMemory) : RuntimeMemory :=
  {| rm_bytes := overwrite (rm_bytes m) (Z.to_nat o) d; rm_length := rm_length m; rm_needs_init := rm_needs_init m |}.

Definition write_mems (inst : MemInstance) (placed : list (nat * Z * list Z)) (mems : list RuntimeMemory) : list RuntimeMemory :=
  foldl (fun mems '(j, o, d) => match own_position inst j with Some k => alter (write_mem o d) k mems | None => mems end) mems placed.

Lemma write_mems_cons inst j o d placed mems :
  write_mems inst ((j, o, d) :: placed) mems =
    write_mems inst placed (match own_position inst j with Some k => alter (write_mem o d) k mems | None => mems end).
Proof. done. Qed.

Lemma own_position_inj inst j j' k :
  NoDup (im_memories inst) -> own_position inst j = Some k -> own_position inst j' = Some k -> j = j'.
Proof.
  unfold own_position, defined_memory_index. intros Hnd Hj Hj'. repeat case_decide; try done. cbn in *.
  pose proof (NoDup_lookup _ _ _ _ Hnd Hj Hj'). lia.
Qed.

Lemma write_mems_own inst placed mems j k mem :
  NoDup (im_memories inst) -> own_position inst j = Some k -> mems !! k = Some mem ->
  write_mems inst placed mems !! k =
    Some {| rm_bytes := write_segments (rm_bytes mem) (writes_to j placed); rm_length := rm_length mem; rm_needs_init := rm_needs_init mem |}.
Proof.
  intros Hnd Hj. revert mems mem. induction placed as [|[[j' o] d] placed IH]; intros mems mem Hk.
  - cbn. rewrite Hk. by destruct mem.
  - rewrite writes_to_cons, write_mems_cons. case_decide as Hjj.
    + subst j'. rewrite Hj. rewrite (IH _ (write_mem o d mem)); [done|]. by rewrite list_lookup_alter_eq, Hk.
    + rewrite (IH _ mem); [done|]. destruct (own_position inst j') as [k'|] eqn:Hk'; [|done].
      rewrite list_lookup_alter_ne; [done|]. intros ->. by apply Hjj, (own_position_inj inst _ _ k).
Qed.

Lemma write_mems_other inst placed mems k :
  (forall j, own_position inst j <> Some k) -> write_mems inst placed mems !! k = mems !! k.
Proof.
  intros Hk. revert mems. induction placed as [|[[j' o] d] placed IH]; intros mems; [done|]. rewrite write_mems_cons, IH. destruct (own_position inst j') as [k'|] eqn:Hk'; [|done]. rewrite list_lookup_alter_ne; [done|]. intros ->. by apply (Hk j').
Qed.

(** What writing does not change: the number of mapped bytes, the length, and whether
    the memory is to be initialised. *)
Definition shape_of_memory (m : RuntimeMemory) : nat * Z * bool := (length (rm_bytes m), rm_length m, rm_needs_init m).

Lemma shapes_alter (mems : list RuntimeMemory) k mem o d :
  mems !! k = Some mem -> 0 <= o -> o + Z.of_nat (length d) <= Z.of_nat (length (rm_bytes mem)) ->
  shape_of_memory <$> alter (write_mem o d) k mems = shape_of_memory <$> mems.
Proof.
  intros Hk Ho Hd. apply list_eq. intros x. rewrite !list_lookup_fmap. destruct (decide (x = k)) as [->|Hx].
  - rewrite list_lookup_alter_eq, Hk. cbn. unfold shape_of_memory. cbn. rewrite length_overwrite; [done|lia].
  - by rewrite list_lookup_alter_ne.
Qed.

(** A segment lies in its memory, which is to be initialised; an image lies in the
    mapped bytes of its memory when it is. *)
Definition seg_fits (inst : MemInstance) (shapes : list (nat * Z * bool)) (x : nat * Z * list Z) : Prop :=
  let '(j, o, d) := x in
  exists k n len, own_position inst j = Some k /\ shapes !! k = Some (n, len, true) /\ 0 <= o /\
    o + Z.of_nat (length d) <= len /\ len <= Z.of_nat n /\ len < 2 ^ 64.

Definition image_fits (inst : MemInstance) (shapes : list (nat * Z * bool)) (x : nat * Z * list Z) : Prop :=
  let '(j, o, d) := x in
  exists k n len b, own_position inst j = Some k /\ shapes !! k = Some (n, len, b) /\ 0 <= o /\
    (b = true -> o + Z.of_nat (length d) <= Z.of_nat n).

Lemma shape_lookup (mems : list RuntimeMemory) k n len b :
  (shape_of_memory <$> mems) !! k = Some (n, len, b) ->
  exists mem, mems !! k = Some mem /\ length (rm_bytes mem) = n /\ rm_length mem = len /\ rm_needs_init mem = b.
Proof. rewrite list_lookup_fmap. intros Hk. destruct (mems !! k) as [mem|]; [|done]. injection Hk as <- <- <-. by exists mem. Qed.

(** ** The two runs *)

Section Runs.
  Context {T H L : Type} `{!GcHeap T H} `{!ResourceLimiter L} (oc dbg : bool).
  Implicit Types (w : MemWorld T H L).

Definition with_memories w (mems : list RuntimeMemory) : MemWorld T H L :=
  {| mw_world := mw_world w; mw_instances := mw_instances w; mw_memories := mems |}.

#[local] Instance run_time : InitMemory (InitMemoryAtInstantiation T H L) := Instantiation_InitMemory oc dbg.

Lemma world_state_same (v : World T H L) : with_state v (w_store v) (w_func_refs v) = v.
Proof. by destruct v. Qed.

Lemma const_offset_eval w i j inst ti plan e o :
  mw_instances w !! i = Some inst -> w_instances (mw_world w) !! i = Some ti ->
  memory_plans (im_module inst) !! j = Some plan -> const_offset (memory64 (memory plan)) e = Some o ->
  eval_memory_offset oc dbg w i j e = Ok (o, w).
Proof.
  intros Hi Hti Hp Hc. unfold eval_memory_offset, mem_instance, get_instance. rewrite Hi, Hti. cbn [unwrap mbind outcome_bind]. rewrite Hp.
  cbn [unwrap mbind outcome_bind]. unfold const_offset in Hc.
  destruct e as [|[z|z| | | | | | |] [|]]; try done; destruct (memory64 (memory plan)); try done; injection Hc as <-;
    cbn [const_eval eval_ops eval_op mbind outcome_bind offset_bits]; rewrite world_state_same.
  - unfold raw_get_u32, raw_get_i32. rewrite signed_mod, raw_i32_mod, Z.mod_mod by lia. by destruct w.
  - unfold raw_get_u64, raw_get_i64, raw_i64. rewrite signed_mod, Z.mod_mod by lia. by destruct w.
Qed.

Lemma get_own_memory {E} w i inst j k mem :
  mw_instances w !! i = Some inst -> own_position inst j = Some k -> mw_memories w !! k = Some mem ->
  get_memory (E:=E) w i j = Ok (k, mem).
Proof.
  intros Hi Hj Hk. unfold get_memory, mem_instance. rewrite Hi. cbn [unwrap mbind outcome_bind]. unfold own_position in Hj.
  destruct (defined_memory_index _ j); [|done]. cbn in Hj. rewrite Hj. cbn [unwrap mbind outcome_bind]. by rewrite Hk.
Qed.

Lemma at_write_ok w i inst j k mem init d :
  mw_instances w !! i = Some inst -> own_position inst j = Some k -> mw_memories w !! k = Some mem ->
  rm_needs_init mem = true -> wasm_data (E:=Empty_set) inst (si_data init) = Ok d ->
  si_offset init + Z.of_nat (length d) <= Z.of_nat (length (rm_bytes mem)) ->
  at_write {| at_world := w; at_instance := i |} j init =
    Ok (true, {| at_world := with_memories w (alter (write_mem (si_offset init) d) k (mw_memories w)); at_instance := i |}).
Proof.
  intros Hi Hj Hk Hn Hd Hfit. unfold at_write. cbn [at_world at_instance]. unfold mem_instance at 1. rewrite Hi. cbn [unwrap mbind outcome_bind].
  rewrite (get_own_memory w i inst j k mem Hi Hj Hk). cbn [mbind outcome_bind]. rewrite Hn.
  replace (match defined_memory_index (im_module inst) j with Some _ => negb true | None => false end) with false by (by destruct (defined_memory_index _ _)).
  rewrite Hd. cbn [mbind outcome_bind]. unfold raw_write. rewrite (proj2 (Z.leb_le _ _)) by done. cbn [assert_ mbind outcome_bind].
  do 4 f_equal. unfold with_memory, with_memories. f_equal. symmetry. apply list_eq. intros x. destruct (decide (x = k)) as [->|Hx].
  - rewrite list_lookup_alter_eq, Hk, list_lookup_insert_eq by (by eapply lookup_lt_Some). done.
  - by rewrite list_lookup_alter_ne, list_lookup_insert_ne.
Qed.

(** A memory whose image is mapped is left alone. *)
Lemma at_write_mapped w i inst j k mem init :
  mw_instances w !! i = Some inst -> own_position inst j = Some k -> mw_memories w !! k = Some mem ->
  rm_needs_init mem = false ->
  at_write {| at_world := w; at_instance := i |} j init = Ok (true, {| at_world := w; at_instance := i |}).
Proof.
  intros Hi Hj Hk Hn. unfold at_write. cbn [at_world at_instance]. unfold mem_instance at 1. rewrite Hi. cbn [unwrap mbind outcome_bind].
  rewrite (get_own_memory w i inst j k mem Hi Hj Hk). cbn [mbind outcome_bind]. rewrite Hn.
  unfold own_position in Hj. by destruct (defined_memory_index (im_module inst) j).
Qed.

(** An initializer and what it writes. *)
Definition seg_placed (inst : MemInstance) (init : MemoryInitializer) (x : nat * Z * list Z) : Prop :=
  let '(j, o, d) := x in
  mi_memory init = j /\ (exists plan, memory_plans (im_module inst) !! j = Some plan /\ const_offset (memory64 (memory plan)) (mi_offset init) = Some o) /\
    wasm_data (E:=Empty_set) inst (mi_data init) = Ok d /\ range_len (mi_data init) = Z.of_nat (length d).

Lemma segments_run i inst ti l placed w :
  mw_instances w !! i = Some inst -> w_instances (mw_world w) !! i = Some ti ->
  Forall2 (seg_placed inst) l placed -> Forall (seg_fits inst (shape_of_memory <$> mw_memories w)) placed ->
  init_segments {| at_world := w; at_instance := i |} l =
    Ok (true, {| at_world := with_memories w (write_mems inst placed (mw_memories w)); at_instance := i |}).
Proof.
  intros Hi Hti Hl. revert w Hi Hti. induction Hl as [|init [[j o] d] l placed Hx Hl IH]; intros w Hi Hti Hf.
  - cbn. by destruct w.
  - apply list.Forall_cons in Hf as [(k & n & len & Hj & Hk & Ho & Hd & Hn & Hlen) Hf]. apply shape_lookup in Hk as (mem & Hk & <- & <- & Hneeds).
    destruct Hx as (Hmem & (plan & Hp & Hc) & Hdata & Hrange).
    cbn [init_segments]. unfold init_segment. rewrite Hmem, Hrange.
    cbn [eval_offset run_time Instantiation_InitMemory]. unfold at_eval_offset. cbn [at_world at_instance].
    rewrite (const_offset_eval w i j inst ti plan _ o Hi Hti Hp Hc). cbn [unwrap_result mbind outcome_bind].
    unfold checked. rewrite in_ub_true by (split; lia). cbn [memory_size_in_bytes run_time Instantiation_InitMemory].
    unfold at_memory_size_in_bytes. cbn [at_world at_instance]. rewrite (get_own_memory w i inst j k mem Hi Hj Hk). cbn [mbind outcome_bind].
    rewrite (proj2 (Z.ltb_ge _ _)) by lia. cbn [init_write run_time Instantiation_InitMemory].
    rewrite (at_write_ok w i inst j k mem {| si_offset := o; si_data := mi_data init |} d Hi Hj Hk Hneeds Hdata) by (cbn; lia). cbn [mbind outcome_bind si_offset].
    rewrite write_mems_cons, Hj. rewrite IH; [done|done|done|].
    cbn [mw_memories with_memories]. rewrite (shapes_alter _ _ mem) by (done || lia). done.
Qed.

(** The bounds of the segments are found to be good as well. *)
Lemma segments_check i inst ti l placed w :
  mw_instances w !! i = Some inst -> w_instances (mw_world w) !! i = Some ti ->
  Forall2 (seg_placed inst) l placed -> Forall (seg_fits inst (shape_of_memory <$> mw_memories w)) placed ->
  check_memory_init_bounds oc dbg i l w = (w, Ok ()).
Proof.
  intros Hi Hti Hl Hf. induction Hl as [|init [[j o] d] l placed Hx Hl IH]; [done|].
  apply list.Forall_cons in Hf as [(k & n & len & Hj & Hk & Ho & Hd & Hn & Hlen) Hf]. apply shape_lookup in Hk as (mem & Hk & <- & <- & Hneeds).
  destruct Hx as (Hmem & (plan & Hp & Hc) & Hdata & Hrange). cbn [check_memory_init_bounds]. rewrite Hmem, Hrange.
  rewrite (get_own_memory w i inst j k mem Hi Hj Hk), (const_offset_eval w i j inst ti plan _ o Hi Hti Hp Hc). cbn [map_err].
  unfold checked. rewrite in_ub_true by (split; lia). rewrite (proj2 (Z.leb_le _ _)) by lia. by apply IH.
Qed.

(** The images of the memories from [j] on, and what they write. *)
Inductive images_placed (inst : MemInstance) : nat -> list (option StaticMemoryInitializer) -> list (nat * Z * list Z) -> Prop :=
| images_placed_nil j : images_placed inst j [] []
| images_placed_none j map placed : images_placed inst (1 + j) map placed -> images_placed inst j (None :: map) placed
| images_placed_some j map placed init d :
    wasm_data (E:=Empty_set) inst (si_data init) = Ok d -> images_placed inst (1 + j) map placed ->
    images_placed inst j (Some init :: map) ((j, si_offset init, d) :: placed).

Definition needs_init_at (inst : MemInstance) (shapes : list (nat * Z * bool)) (j : nat) : bool :=
  match own_position inst j ≫= fun k => shapes !! k with Some (_, _, b) => b | None => true end.

Lemma images_run i inst j map placed w :
  mw_instances w !! i = Some inst -> images_placed inst j map placed ->
  Forall (image_fits inst (shape_of_memory <$> mw_memories w)) placed ->
  init_images {| at_world := w; at_instance := i |} j map =
    Ok (true, {| at_world := with_memories w (write_mems inst
        (filter (fun x => needs_init_at inst (shape_of_memory <$> mw_memories w) x.1.1 = true) placed) (mw_memories w)); at_instance := i |}).
Proof.
  intros Hi Hl. revert w Hi. induction Hl as [j|j map placed Hl IH|j map placed init d Hd Hl IH]; intros w Hi Hf.
  - cbn. by destruct w.
  - by apply IH.
  - apply list.Forall_cons in Hf as [(k & n & len & b & Hj & Hk & Ho & Hb) Hf]. cbn [init_images init_write run_time Instantiation_InitMemory].
    assert (Hneeds : needs_init_at inst (shape_of_memory <$> mw_memories w) j = b) by (unfold needs_init_at; rewrite Hj; cbn; by rewrite Hk).
    rewrite filter_cons. cbn [fst]. rewrite Hneeds.
    pose proof Hk as Hk0. apply shape_lookup in Hk as (mem & Hk & <- & <- & Hn). destruct b.
    + rewrite decide_True by done. rewrite (at_write_ok w i inst j k mem init d Hi Hj Hk Hn Hd) by (by apply Hb). cbn [mbind outcome_bind].
      assert (Hsh : shape_of_memory <$> alter (write_mem (si_offset init) d) k (mw_memories w) = shape_of_memory <$> mw_memories w).
      { apply shapes_alter with mem; [done|done|by apply Hb]. }
      rewrite IH; cbn [mw_memories with_memories mw_instances]; rewrite ?Hsh; try done. by rewrite write_mems_cons, Hj.
    + rewrite decide_False by done. rewrite (at_write_mapped w i inst j k mem init Hi Hj Hk Hn). cbn [mbind outcome_bind]. by apply IH.
Qed.
End Runs.

(** ** Tables do not touch instances *)

Section Tables.
  Context {T H L : Type} `{!GcHeap T H} `{!ResourceLimiter L} (oc dbg : bool).
  Implicit Types (v : World T H L).

Lemma for_each_instances {E A} (f : A -> World T H L -> World T H L * outcome E ()) l v :
  (forall x v, w_instances (f x v).1 = w_instances v) -> w_instances (for_each f l v).1 = w_instances v.
Proof.
  intros Hf. revert v. induction l as [|x l IH]; intros v; [done|]. cbn. pose proof (Hf x v) as Hx.
  destruct (f x v) as [v' []]; cbn in *; [by rewrite IH|done|done].
Qed.

Lemma table_segment_instances v i index els dst src len v' :
  table_init_segment oc dbg v i index els dst src len = Ok v' -> w_instances v' = w_instances v.
Proof.
  unfold table_init_segment. intros Hr. apply bind_Ok_inv in Hr as (inst & _ & Hr). apply bind_Ok_inv in Hr as ([k t] & _ & Hr).
  destruct els; repeat (apply bind_Ok_inv in Hr as (? & _ & Hr)); repeat case_match; simplify_eq; done.
Qed.

Lemma initialize_segment_instances i seg v : w_instances (initialize_segment oc dbg i seg v).1 = w_instances v.
Proof.
  unfold initialize_segment, with_ok. destruct (_ ≫= _) as [[[start s] refs]| |]; cbn; try done. unfold commit, stored.
  destruct (table_init_segment _ _ _ _ _ _ _ _ _) as [v'| |] eqn:Hr; cbn; try done. by apply table_segment_instances in Hr.
Qed.

Lemma initialize_table_instances i x v v' : initialize_table oc dbg i x v = Ok v' -> w_instances v' = w_instances v.
Proof.
  destruct x as [d [|e]]; cbn; [by intros [= <-]|]. intros Hr.
  apply bind_Ok_inv in Hr as (inst & _ & Hr). apply bind_Ok_inv in Hr as ([[raw s] refs] & _ & Hr). apply bind_Ok_inv in Hr as ([k t] & _ & Hr).
  apply bind_Ok_inv in Hr as (plan & _ & Hr). apply bind_Ok_inv in Hr as (size & _ & Hr).
  destruct (top _); apply bind_Ok_inv in Hr as (y & _ & Hr); try destruct y; by injection Hr as <-.
Qed.

Lemma initialize_tables_instances i v : w_instances (initialize_tables oc dbg i v).1 = w_instances v.
Proof.
  unfold initialize_tables, with_ok. destruct (get_instance v i) as [inst| |]; try done.
  destruct (for_each _ (imap pair _) v) as [v1 r] eqn:Hf.
  assert (H1 : w_instances v1 = w_instances v).
  { change v1 with ((v1, r).1). rewrite <- Hf. apply for_each_instances. intros x u. unfold commit, stored.
    destruct (initialize_table _ _ _ _ _) as [u'| |] eqn:Hr; cbn; try done. by apply initialize_table_instances in Hr. }
  destruct r; [|done|done]. rewrite <- H1. apply for_each_instances. apply initialize_segment_instances.
Qed.

Lemma check_tables_instances i v : w_instances (check_table_init_bounds oc dbg i v).1 = w_instances v.
Proof.
  unfold check_table_init_bounds, with_ok. destruct (get_instance v i) as [inst| |]; try done. apply for_each_instances.
  intros seg u. unfold check_segment, with_ok. destruct (_ ≫= _) as [[[[start size] s] refs]| |]; done.
Qed.
End Tables.

(** ** Segments and images in the section of the object *)

Section Sections.
  Context `{SectionWriterLaws}.

Lemma laid_out_placed inst m0 data pre post k total l l' placed :
  im_wasm_data inst = pre ++ concat data ++ post -> memory_plans (im_module inst) = memory_plans m0 ->
  laid_out data k total l -> placed_from m0 data k l placed -> total = Z.of_nat (length (concat (take k data))) ->
  shift_segments (E:=Empty_set) (Z.of_nat (length pre)) l = Ok l' -> Forall2 (seg_placed inst) l' placed.
Proof.
  intros Hd Hm. revert k total l' placed. induction l as [|i l IH]; intros k total l' placed Hlay Hpl Ht Hs.
  - inversion Hpl; subst. injection Hs as <-. constructor.
  - inversion Hlay as [|k0 t0 i0 l0 d Hk Hr Hmax Hlay']; subst k0 t0 i0 l0.
    inversion Hpl as [|k0 i0 l0 placed' plan start d0 Hp Hdef Hc Hnn Hk0 Hrl Hfit Hpl']; subst k0 i0 l0 placed. rewrite Hk in Hk0. injection Hk0 as <-.
    cbn [shift_segments] in Hs. apply bind_Ok_inv in Hs as (r & Hsr & Hs). apply bind_Ok_inv in Hs as (l'' & Hs' & Hs). injection Hs as <-.
    constructor; [|by eapply IH; [exact Hlay'|done|rewrite (concat_take_S _ _ _ Hk); lia|done]].
    unfold shift_range in Hsr. rewrite Hr in Hsr. cbn [fst snd] in Hsr.
    apply bind_Ok_inv in Hsr as (a & Ha & Hsr). apply unwrap_Ok, checked_Some in Ha as [_ ->].
    apply bind_Ok_inv in Hsr as (b & Hb & Hsr). apply unwrap_Ok, checked_Some in Hb as [_ ->]. injection Hsr as <-.
    unfold seg_placed. cbn [mi_memory mi_offset mi_data]. split; [done|]. split; [exists plan; by rewrite Hm|]. split.
    + apply (wasm_data_middle inst (pre ++ concat (take k data)) d (concat (drop (S k) data) ++ post)).
      * rewrite Hd, (concat_split _ _ _ Hk). by rewrite <- !app_assoc.
      * rewrite length_app. lia.
      * lia.
    + unfold range_len. cbn [fst snd]. lia.
Qed.

(** What the images of memories from [j] on write. *)
Lemma images_from_placed inst ps data j base infos map map' blocks pre post :
  0 < ps -> images_from ps data base infos map blocks -> im_wasm_data inst = pre ++ concat blocks ++ post ->
  shift_images (E:=Empty_set) (Z.of_nat (length pre) - base) map = Ok map' ->
  exists placed, images_placed inst j map' placed /\ (forall j', (j' < j)%nat -> writes_to j' placed = []) /\
    (forall n info, infos !! n = Some info -> forall N, rounded ps (max_addr info) <= Z.of_nat N ->
       write_segments (zeros N) (writes_to (j + n) placed) = write_segments (zeros N) (seg_contents data (ext_segments info))) /\
    Forall (fun x => 0 <= x.1.2 /\ exists n info, x.1.1 = (j + n)%nat /\ infos !! n = Some info /\ ext_segments info <> [] /\
       x.1.2 + Z.of_nat (length x.2) <= rounded ps (max_addr info)) placed.
Proof.
  intros Hps Himg. revert j map' pre.
  induction Himg as [base|base info infos map blocks Hempty Himg IH|base info infos map blocks o b Hne Hpos Ho Hom Hlm Hend Hw Hb32 Himg IH];
    intros j map' pre Hd Hs.
  - injection Hs as <-. exists []. split; [constructor|]. split; [done|]. split; [|constructor]. intros n info Hn. by destruct n.
  - cbn [shift_images] in Hs. apply bind_Ok_inv in Hs as (map2 & Hs & Hx). injection Hx as <-.
    destruct (IH (1 + j)%nat map2 pre Hd Hs) as (placed & Hpl & Hlow & Hw & Hf). exists placed. split; [by constructor|]. split; [|split].
    + intros j' Hj. apply Hlow. lia.
    + intros [|n] info0 Hn N HN.
      * injection Hn as <-. rewrite Nat.add_0_r, Hlow, Hempty by lia. done.
      * rewrite Nat.add_succ_r. by apply (Hw n info0).
    + eapply list.Forall_impl; [exact Hf|]. intros x (Hx & n & info0 & -> & Hn & Hr). split; [done|]. exists (S n), info0. split; [lia|done].
  - cbn [shift_images] in Hs. apply bind_Ok_inv in Hs as (r & Hsr & Hs). apply bind_Ok_inv in Hs as (map2 & Hs & Hx). injection Hx as <-.
    unfold shift_range in Hsr. cbn [si_data fst snd] in Hsr.
    apply bind_Ok_inv in Hsr as (a & Ha & Hsr). apply unwrap_Ok, checked_Some in Ha as [_ ->].
    apply bind_Ok_inv in Hsr as (c & Hc & Hsr). apply unwrap_Ok, checked_Some in Hc as [_ ->]. injection Hsr as <-.
    destruct (IH (1 + j)%nat map2 (pre ++ b)) as (placed & Hpl & Hlow & Hw' & Hf).
    { rewrite Hd. cbn [concat]. by rewrite <- !app_assoc. }
    { rewrite length_app, Nat2Z.inj_add. rewrite <- Hs. f_equal. lia. }
    exists ((j, o, b) :: placed). split; [|split; [|split]].
    + apply images_placed_some with (init := {| si_offset := o; si_data := (base + (Z.of_nat (length pre) - base), base + Z.of_nat (length b) + (Z.of_nat (length pre) - base)) |}); [|done].
      cbn [si_data]. apply (wasm_data_middle inst pre b (concat blocks ++ post)); [rewrite Hd; cbn [concat]; by rewrite <- app_assoc|lia|lia].
    + intros j' Hj. rewrite writes_to_cons, decide_False by lia. cbn. apply Hlow. lia.
    + intros [|n] info0 Hn N HN.
      * injection Hn as <-. rewrite Nat.add_0_r, writes_to_cons, decide_True, Hlow by lia. cbn [app write_segments foldl].
        apply Hw; [lia|]. pose proof (rounded_ge ps (max_addr info) Hps). lia.
      * rewrite writes_to_cons, decide_False by lia. cbn [app]. rewrite Nat.add_succ_r. by apply (Hw' n info0).
    + constructor; [cbn; split; [done|]; exists O, info; split; [lia|done]|].
      eapply list.Forall_impl; [exact Hf|]. intros x (Hx & n & info0 & -> & Hn & Hr). split; [done|]. exists (S n), info0. split; [lia|done].
Qed.
End Sections.

Lemma writes_to_filter f j placed :
  writes_to j (filter (fun x => f x.1.1 = true) placed) = if f j : bool then writes_to j placed else [].
Proof.
  induction placed as [|[[j' o] d] placed IH]; [by destruct (f j)|]. rewrite filter_cons. cbn [fst]. case_decide as Hf.
  - rewrite !writes_to_cons, IH. case_decide as Hj; [subst; by rewrite Hf|done].
  - rewrite IH, writes_to_cons. case_decide as Hj; [subst; by destruct (f j)|done].
Qed.

Lemma images_placed_low inst j map placed j' : images_placed inst j map placed -> (j' < j)%nat -> writes_to j' placed = [].
Proof.
  induction 1 as [j|j map placed _ IH|j map placed init d _ _ IH]; intros Hj; [done|apply IH; lia|].
  rewrite writes_to_cons, decide_False by lia. apply IH. lia.
Qed.

Lemma images_placed_at inst j map placed n init d :
  images_placed inst j map placed -> map !! n = Some (Some init) -> wasm_data (E:=Empty_set) inst (si_data init) = Ok d ->
  writes_to (j + n) placed = [(si_offset init, d)].
Proof.
  intros Hp. revert n. induction Hp as [j|j map placed Hp IH|j map placed init0 d0 Hd0 Hp IH]; intros n Hn Hd; [by destruct n| |].
  - destruct n as [|n]; [done|]. rewrite Nat.add_succ_r. by apply (IH n).
  - rewrite writes_to_cons. destruct n as [|n].
    + injection Hn as ->. rewrite Hd in Hd0. injection Hd0 as ->. rewrite Nat.add_0_r, decide_True by done.
      by rewrite (images_placed_low _ _ _ _ _ Hp) by lia.
    + rewrite decide_False by lia. rewrite Nat.add_succ_r. by apply (IH n).
Qed.

(** ** Instances that start *)

(** A new memory: zeros, as long as its plan says. *)
Record fresh_memory (ps : Z) (plan : MemoryPlan) (mem : RuntimeMemory) : Prop := {
  fm_needs_init : rm_needs_init mem = true;
  fm_length : plan_bytes plan = Some (rm_length mem);
  fm_zeros : rm_bytes mem = zeros (length (rm_bytes mem));
  fm_mapped : rounded ps (rm_length mem) <= Z.of_nat (length (rm_bytes mem))
}.

(** The memory [mem] of an instance, or that memory with the image of it mapped. *)
Definition prepared (inst : MemInstance) (j : nat) (mem mem' : RuntimeMemory) : Prop :=
  mem' = mem \/
  rm_needs_init mem' = false /\ rm_length mem' = rm_length mem /\
  exists map init d, memory_initialization (im_module inst) = StaticInit map /\ map !! j = Some (Some init) /\
    wasm_data (E:=Empty_set) inst (si_data init) = Ok d /\
    rm_bytes mem' = overwrite (rm_bytes mem) (Z.to_nat (si_offset init)) d.

(** Two stores, with an instance of the module with its segments in one and with its
    images in the other. *)
Record starting_pair {T H L} (ps : Z) (i : nat) (inst inst' : MemInstance) (w w' : MemWorld T H L) : Prop := {
  sp_inst : mw_instances w !! i = Some inst;
  sp_instances : mw_instances w' = <[i := inst']> (mw_instances w);
  sp_world : mw_world w' = mw_world w;
  sp_tables : is_Some (w_instances (mw_world w) !! i);
  sp_nodup : NoDup (im_memories inst);
  sp_positions : im_memories inst' = im_memories inst;
  sp_imports : im_imports inst' = im_imports inst;
  sp_dropped : im_dropped_data inst' = im_dropped_data inst;
  sp_fresh : forall j plan, memory_plans (im_module inst) !! j = Some plan -> defined_memory_index (im_module inst) j <> None ->
    exists k mem, own_position inst j = Some k /\ mw_memories w !! k = Some mem /\ fresh_memory ps plan mem;
  sp_own : forall j k, own_position inst j = Some k -> (j < length (memory_plans (im_module inst)))%nat /\
    exists mem mem', mw_memories w !! k = Some mem /\ mw_memories w' !! k = Some mem' /\ prepared inst' j mem mem';
  sp_other : forall k, (forall j, own_position inst j <> Some k) -> mw_memories w' !! k = mw_memories w !! k
}.

Lemma sp_inst' {T H L} ps i inst inst' (w w' : MemWorld T H L) : starting_pair ps i inst inst' w w' -> mw_instances w' !! i = Some inst'.
Proof. intros Hsp. rewrite (sp_instances _ _ _ _ _ _ Hsp). apply list_lookup_insert_eq. eapply lookup_lt_Some. apply Hsp. Qed.

Section Equivalence.
  Context {T H L : Type} `{!GcHeap T H} `{!ResourceLimiter L} `{SectionWriterLaws} (oc dbg : bool).
  Implicit Types (w : MemWorld T H L).

(** The data of the module and of the module with images, in the section. *)
Record sections_ok (ps : Z) (t : ModuleTranslation) (l : list MemoryInitializer) (inst inst' : MemInstance) : Prop := {
  so_translated : translated t l;
  so_plans : memory_plans (im_module inst) = memory_plans (t_module t);
  so_imported : num_imported_memories (im_module inst) = num_imported_memories (t_module t);
  so_plans' : memory_plans (im_module inst') = memory_plans (t_module t);
  so_imported' : num_imported_memories (im_module inst') = num_imported_memories (t_module t);
  so_init : exists pre post l', im_wasm_data inst = pre ++ concat (t_data t) ++ post /\
    shift_segments (E:=Empty_set) (Z.of_nat (length pre)) l = Ok l' /\ memory_initialization (im_module inst) = Segmented l';
  so_init' : exists pre post map map' data, static_images ps t l map data /\ im_wasm_data inst' = pre ++ concat data ++ post /\
    shift_images (E:=Empty_set) (Z.of_nat (length pre)) map = Ok map' /\ memory_initialization (im_module inst') = StaticInit map'
}.

Lemma own_position_same inst inst' j :
  num_imported_memories (im_module inst') = num_imported_memories (im_module inst) -> im_memories inst' = im_memories inst ->
  own_position inst' j = own_position inst j.
Proof. intros Hn Hm. unfold own_position, defined_memory_index. by rewrite Hn, Hm. Qed.

Lemma placed_fits ps i inst inst' w w' m0 data k l placed :
  0 < ps -> starting_pair ps i inst inst' w w' -> memory_plans (im_module inst) = memory_plans m0 ->
  num_imported_memories (im_module inst) = num_imported_memories m0 ->
  placed_from m0 data k l placed -> Forall (seg_fits inst (shape_of_memory <$> mw_memories w)) placed.
Proof.
  intros Hps Hsp Hp Hn. induction 1 as [|k i0 l placed plan start d Hplan Hdef Hc Hnn Hk Hr Hfit _ IH]; [constructor|].
  constructor; [|done]. rewrite <- Hp in Hplan.
  assert (Hdef' : defined_memory_index (im_module inst) (mi_memory i0) <> None) by (unfold defined_memory_index in *; by rewrite Hn).
  destruct (sp_fresh _ _ _ _ _ _ Hsp _ _ Hplan Hdef') as (pos & mem & Hpos & Hmem & [Hneeds Hlen Hz Hm]).
  pose proof (plan_room_nonneg plan) as Hroom. unfold plan_room in *. rewrite Hlen in *. pose proof (rounded_ge ps (rm_length mem) Hps).
  exists pos, (length (rm_bytes mem)), (rm_length mem). rewrite list_lookup_fmap, Hmem. cbn. unfold shape_of_memory. rewrite Hneeds.
  split_and!; try done; lia.
Qed.

(** What the two runs write, in terms of the extents that the pass collected. *)
Record runs_known (ps : Z) (t : ModuleTranslation) (inst inst' : MemInstance) (w : MemWorld T H L) (infos : list MemoryExtent)
    (l' : list MemoryInitializer) (placed : list (nat * Z * list Z)) (map' : list (option StaticMemoryInitializer)) (placed' : list (nat * Z * list Z)) : Prop := {
  rk_segments : Forall2 (seg_placed inst) l' placed;
  rk_fits : Forall (seg_fits inst (shape_of_memory <$> mw_memories w)) placed;
  rk_images : images_placed inst' 0 map' placed';
  rk_inits : memory_initialization (im_module inst) = Segmented l' /\ memory_initialization (im_module inst') = StaticInit map';
  rk_own : forall j, own_position inst' j = own_position inst j;
  rk_length : length infos = length (memory_plans (im_module inst));
  rk_extents : forall j plan info, memory_plans (im_module inst) !! j = Some plan -> infos !! j = Some info ->
    max_addr info <= plan_room plan /\ (defined_memory_index (im_module inst) j = None -> info = extent_new) /\
    forall N, rounded ps (max_addr info) <= Z.of_nat N ->
      write_segments (zeros N) (writes_to j placed') = write_segments (zeros N) (writes_to j placed);
  rk_in_images : Forall (fun x => 0 <= x.1.2 /\ exists info, infos !! x.1.1 = Some info /\ ext_segments info <> [] /\
    x.1.2 + Z.of_nat (length x.2) <= rounded ps (max_addr info)) placed'
}.

Lemma runs_known_ok ps i t l inst inst' w w' :
  0 < ps -> starting_pair ps i inst inst' w w' -> sections_ok ps t l inst inst' ->
  exists infos l' placed map' placed', runs_known ps t inst inst' w infos l' placed map' placed'.
Proof.
  intros Hps Hsp [Htr Hp Hn Hp' Hn' (pre & post & l' & Hdata & Hs & Hinit) (pre' & post' & map & map' & data & Hst & Hdata' & Hs' & Hinit')].
  destruct Hst as [(infos & blocks & placed & Himg & Hcat & Hpl & Hlen & Hinfo)]. rewrite Hcat in Hdata'.
  destruct (images_from_placed inst' ps (t_data t) 0 0 infos map map' blocks pre' post' Hps Himg Hdata') as (placed' & Hip & _ & Hw & Hf).
  { by rewrite Z.sub_0_r. }
  exists infos, l', placed, map', placed'. split; try done.
  - eapply laid_out_placed; [exact Hdata|exact Hp|apply Htr|exact Hpl|done|exact Hs].
  - by eapply placed_fits.
  - intros j. apply own_position_same; [by rewrite Hn, Hn'|apply Hsp].
  - by rewrite Hp.
  - intros j plan info Hplan Hj. rewrite Hp in Hplan. destruct (Hinfo j plan info Hplan Hj) as (Hmax & Hdef & Hsame).
    split; [done|]. split; [by unfold defined_memory_index in *; rewrite Hn|]. intros N HN. rewrite <- Hsame. by apply (Hw j info Hj).
  - eapply list.Forall_impl; [exact Hf|]. intros x (Ho & n & info & Hx & Hi & Hne & Hr). rewrite Hx, Nat.add_0_l. split; [done|]. by exists info.
Qed.

Section Pair.
  Context (ps : Z) (i : nat) (t : ModuleTranslation) (inst inst' : MemInstance) (w w' : MemWorld T H L).
  Context (infos : list MemoryExtent) (l' : list MemoryInitializer) (placed : list (nat * Z * list Z))
    (map' : list (option StaticMemoryInitializer)) (placed' : list (nat * Z * list Z)).
  Context (Hps : 0 < ps) (Hsp : starting_pair ps i inst inst' w w')
    (Hrk : runs_known ps t inst inst' w infos l' placed map' placed').

(** A memory of the instance: its extent, and the two ways it starts. *)
Lemma pair_memory j k :
  own_position inst j = Some k ->
  exists info mem mem', infos !! j = Some info /\ mw_memories w !! k = Some mem /\ mw_memories w' !! k = Some mem' /\
    rm_needs_init mem = true /\ rounded ps (max_addr info) <= Z.of_nat (length (rm_bytes mem)) /\
    write_segments (rm_bytes mem) (writes_to j placed') = write_segments (rm_bytes mem) (writes_to j placed) /\
    if rm_needs_init mem' then mem' = mem else rm_bytes mem' = write_segments (rm_bytes mem) (writes_to j placed').
Proof using Hps Hsp Hrk.
  intros Hk. destruct (sp_own _ _ _ _ _ _ Hsp j k Hk) as (Hlt & mem & mem' & Hm & Hm' & Hprep).
  destruct (lookup_lt_is_Some_2 _ _ Hlt) as [plan Hplan].
  destruct (lookup_lt_is_Some_2 infos j) as [info Hinfo]; [by rewrite (rk_length _ _ _ _ _ _ _ _ _ _ Hrk)|].
  destruct (rk_extents _ _ _ _ _ _ _ _ _ _ Hrk j plan info Hplan Hinfo) as (Hmax & _ & Hw).
  assert (Hdef : defined_memory_index (im_module inst) j <> None).
  { unfold own_position in Hk. by destruct (defined_memory_index (im_module inst) j). }
  destruct (sp_fresh _ _ _ _ _ _ Hsp _ _ Hplan Hdef) as (k0 & mem0 & Hk0 & Hm0 & [Hneeds Hl Hz Hmap]).
  rewrite Hk in Hk0. injection Hk0 as <-. rewrite Hm in Hm0. injection Hm0 as <-.
  unfold plan_room in Hmax. rewrite Hl in Hmax. pose proof (rounded_mono ps _ _ Hps Hmax).
  exists info, mem, mem'. split_and!; try done; [lia|rewrite Hz; apply Hw; lia|].
  destruct Hprep as [->|(Hnf & _ & map0 & init & d & Hi & Hji & Hd & Hb)]; [by rewrite Hneeds|].
  rewrite Hnf, Hb. destruct (rk_inits _ _ _ _ _ _ _ _ _ _ Hrk) as [_ Hinit']. rewrite Hinit' in Hi. injection Hi as <-.
  pose proof (images_placed_at inst' 0 map' placed' j init d (rk_images _ _ _ _ _ _ _ _ _ _ Hrk) Hji Hd) as Hat. cbn in Hat. by rewrite Hat.
Qed.

Lemma pair_fits : Forall (image_fits inst' (shape_of_memory <$> mw_memories w')) placed'.
Proof using Hps Hsp Hrk.
  eapply list.Forall_impl; [exact (rk_in_images _ _ _ _ _ _ _ _ _ _ Hrk)|]. intros [[j o] d] (Ho & info & Hi & Hne & Hr). cbn [fst snd] in *.
  destruct (lookup_lt_is_Some_2 (memory_plans (im_module inst)) j) as [plan Hplan].
  { rewrite <- (rk_length _ _ _ _ _ _ _ _ _ _ Hrk). by eapply lookup_lt_Some. }
  destruct (rk_extents _ _ _ _ _ _ _ _ _ _ Hrk j plan info Hplan Hi) as (_ & Hdef & _).
  assert (Hdef' : defined_memory_index (im_module inst) j <> None) by (intros Hx; by rewrite (Hdef Hx) in Hne).
  destruct (sp_fresh _ _ _ _ _ _ Hsp _ _ Hplan Hdef') as (k & _ & Hk & _).
  destruct (pair_memory j k Hk) as (info0 & mem & mem' & Hi0 & Hm & Hm' & _ & Hbig & _ & Hcase). rewrite Hi in Hi0. injection Hi0 as <-.
  exists k, (length (rm_bytes mem')), (rm_length mem'), (rm_needs_init mem'). rewrite (rk_own _ _ _ _ _ _ _ _ _ _ Hrk), list_lookup_fmap, Hm'.
  split_and!; try done. intros Hneeds. rewrite Hneeds in Hcase. subst mem'. lia.
Qed.

Lemma pair_bytes k :
  rm_bytes <$> write_mems inst placed (mw_memories w) !! k =
    rm_bytes <$> write_mems inst' (filter (fun x => needs_init_at inst' (shape_of_memory <$> mw_memories w') x.1.1 = true) placed') (mw_memories w') !! k.
Proof using Hps Hsp Hrk.
  destruct (decide (k ∈ im_memories inst)) as [Hin|Hno].
  - apply list_elem_of_lookup_1 in Hin as [d Hd].
    assert (Hk : own_position inst (num_imported_memories (im_module inst) + d) = Some k).
    { unfold own_position, defined_memory_index. rewrite decide_False by lia. cbn. rewrite <- Hd. f_equal. lia. }
    destruct (pair_memory _ _ Hk) as (info & mem & mem' & _ & Hm & Hm' & _ & _ & Hw & Hcase). set (j := (num_imported_memories (im_module inst) + d)%nat) in *.
    assert (Hk' : own_position inst' j = Some k) by (by rewrite (rk_own _ _ _ _ _ _ _ _ _ _ Hrk)).
    rewrite (write_mems_own inst placed _ j k mem (sp_nodup _ _ _ _ _ _ Hsp) Hk Hm).
    rewrite (write_mems_own inst' _ _ j k mem'); [|by rewrite (sp_positions _ _ _ _ _ _ Hsp); apply Hsp|done|done].
    cbn. f_equal. rewrite (writes_to_filter (needs_init_at inst' (shape_of_memory <$> mw_memories w'))).
    assert (Hneeds : needs_init_at inst' (shape_of_memory <$> mw_memories w') j = rm_needs_init mem').
    { unfold needs_init_at. rewrite Hk'. cbn. by rewrite list_lookup_fmap, Hm'. }
    rewrite Hneeds. destruct (rm_needs_init mem'); [subst mem'; done|]. cbn. by rewrite Hcase.
  - assert (Hno' : forall j, own_position inst j <> Some k).
    { intros j Hj. apply Hno. unfold own_position in Hj. destruct (defined_memory_index _ _); [|done]. by apply list_elem_of_lookup_2 in Hj. }
    rewrite (write_mems_other inst) by done. rewrite (write_mems_other inst') by (intros j; rewrite (rk_own _ _ _ _ _ _ _ _ _ _ Hrk); done).
    by rewrite (sp_other _ _ _ _ _ _ Hsp).
Qed.
End Pair.

Lemma memories_pair ps i t l inst inst' w w' :
  0 < ps -> starting_pair ps i inst inst' w w' -> sections_ok ps t l inst inst' ->
  exists v v' l' map', initialize_memories oc dbg i w = (v, Ok ()) /\ initialize_memories oc dbg i w' = (v', Ok ()) /\
    rm_bytes <$> mw_memories v = rm_bytes <$> mw_memories v' /\
    memory_initialization (im_module inst) = Segmented l' /\ memory_initialization (im_module inst') = StaticInit map' /\
    check_memory_init_bounds oc dbg i l' w = (w, Ok ()).
Proof.
  intros Hps Hsp Hso. destruct (runs_known_ok ps i t l inst inst' w w' Hps Hsp Hso) as (infos & l' & placed & map' & placed' & Hrk).
  destruct (rk_inits _ _ _ _ _ _ _ _ _ _ Hrk) as [Hinit Hinit']. destruct (sp_tables _ _ _ _ _ _ Hsp) as [ti Hti].
  pose proof (segments_run oc dbg i inst ti l' placed w (sp_inst _ _ _ _ _ _ Hsp) Hti (rk_segments _ _ _ _ _ _ _ _ _ _ Hrk) (rk_fits _ _ _ _ _ _ _ _ _ _ Hrk)) as Hrun.
  pose proof (images_run oc dbg i inst' 0 map' placed' w' (sp_inst' _ _ _ _ _ _ Hsp) (rk_images _ _ _ _ _ _ _ _ _ _ Hrk)
    (pair_fits ps i t inst inst' w w' infos l' placed map' placed' Hps Hsp Hrk)) as Hrun'.
  unfold run_time in Hrun, Hrun'. eexists _, _, l', map'. split; [|split; [|split; [|split; [|split]]]]; [| | |exact Hinit|exact Hinit'|].
  - unfold initialize_memories, mem_instance. rewrite (sp_inst _ _ _ _ _ _ Hsp). cbn [unwrap]. rewrite Hinit. cbn [init_memory]. by rewrite Hrun.
  - unfold initialize_memories, mem_instance. rewrite (sp_inst' _ _ _ _ _ _ Hsp). cbn [unwrap]. rewrite Hinit'. cbn [init_memory]. by rewrite Hrun'.
  - cbn [mw_memories with_memories at_world]. apply list_eq. intros k. rewrite !list_lookup_fmap. by eapply pair_bytes.
  - eapply segments_check; [apply Hsp|exact Hti|apply Hrk|apply Hrk].
Qed.

Lemma starting_with_world ps i inst inst' w w' v :
  starting_pair ps i inst inst' w w' -> is_Some (w_instances v !! i) -> starting_pair ps i inst inst' (with_world w v) (with_world w' v).
Proof. intros [] Hv. by split. Qed.

(** Without images the two stores are the same. *)
Lemma segmented_same ps i inst inst' w w' l :
  starting_pair ps i inst inst' w w' -> im_module inst' = im_module inst -> im_wasm_data inst' = im_wasm_data inst ->
  memory_initialization (im_module inst') = Segmented l -> w' = w.
Proof.
  intros Hsp Hm Hd Hi. assert (inst' = inst) as ->.
  { destruct inst, inst'; cbn in *. subst. f_equal; apply Hsp. }
  pose proof (sp_instances _ _ _ _ _ _ Hsp) as His. rewrite (list_insert_id _ _ _ (sp_inst _ _ _ _ _ _ Hsp)) in His.
  assert (Hmem : mw_memories w' = mw_memories w).
  { apply list_eq. intros k. destruct (decide (k ∈ im_memories inst)) as [Hin|Hno].
    - apply list_elem_of_lookup_1 in Hin as [d Hk].
      destruct (sp_own _ _ _ _ _ _ Hsp (num_imported_memories (im_module inst) + d) k) as (_ & mem & mem' & -> & -> & [->|(_ & _ & map & _ & _ & Hs & _)]); [|done|].
      + unfold own_position, defined_memory_index. rewrite decide_False by lia. cbn. rewrite <- Hk. f_equal. lia.
      + by rewrite Hi in Hs.
    - apply (sp_other _ _ _ _ _ _ Hsp). intros j Hj. apply Hno. unfold own_position in Hj. destruct (defined_memory_index _ _); [|done].
      by apply list_elem_of_lookup_2 in Hj. }
  pose proof (sp_world _ _ _ _ _ _ Hsp). destruct w, w'; cbn in *. by subst.
Qed.

(** Two ways to start an instance that end in the same way, with the same memories. *)
Definition same_start (x x' : MemWorld T H L * outcome instance_error ()) : Prop :=
  snd x' = snd x /\ (snd x = Ok () -> rm_bytes <$> mw_memories (fst x') = rm_bytes <$> mw_memories (fst x)).

Lemma both_pair ps i t l inst inst' w w' :
  0 < ps -> starting_pair ps i inst inst' w w' -> sections_ok ps t l inst inst' ->
  same_start (initialize_both oc dbg i w) (initialize_both oc dbg i w').
Proof.
  intros Hps Hsp Hso. unfold initialize_both, lift_tables. rewrite (sp_world _ _ _ _ _ _ Hsp).
  pose proof (initialize_tables_instances oc dbg i (mw_world w)) as Hinst. destruct (initialize_tables oc dbg i (mw_world w)) as [v r]. cbn [fst snd] in *.
  destruct r as [u|e|]; cbn [map_err]; [|by split|by split].
  assert (Hsp' : starting_pair ps i inst inst' (with_world w v) (with_world w' v)) by (apply starting_with_world; [done|rewrite Hinst; apply Hsp]).
  destruct (memories_pair ps i t l inst inst' _ _ Hps Hsp' Hso) as (v1 & v1' & _ & _ & -> & -> & Hb & _). by split.
Qed.

Lemma whole_pair ps i t l inst inst' w w' bulk :
  0 < ps -> starting_pair ps i inst inst' w w' -> sections_ok ps t l inst inst' ->
  same_start (initialize_whole_instance oc dbg i bulk w) (initialize_whole_instance oc dbg i bulk w').
Proof.
  intros Hps Hsp Hso. unfold initialize_whole_instance. destruct bulk; [by eapply both_pair|].
  unfold check_init_bounds, lift_tables. rewrite (sp_world _ _ _ _ _ _ Hsp).
  pose proof (check_tables_instances oc dbg i (mw_world w)) as Hinst. destruct (check_table_init_bounds oc dbg i (mw_world w)) as [v r]. cbn [fst snd] in *.
  destruct r as [u|e|]; cbn [map_err]; [|by split|by split].
  assert (Hsp' : starting_pair ps i inst inst' (with_world w v) (with_world w' v)) by (apply starting_with_world; [done|rewrite Hinst; apply Hsp]).
  destruct (memories_pair ps i t l inst inst' _ _ Hps Hsp' Hso) as (_ & _ & l' & map' & _ & _ & _ & Hi & Hi' & Hc).
  unfold mem_instance. rewrite (sp_inst _ _ _ _ _ _ Hsp'), (sp_inst' _ _ _ _ _ _ Hsp'). cbn [unwrap]. rewrite Hi, Hi', Hc. by eapply both_pair.
Qed.

(** C13: For a module whose memories together are smaller than four gigabytes (at their
    minimum sizes, rounded up to the page size of images), and an instance whose new memories
    are mapped up to the next multiple of that page size, turning data segments into images
    cannot be observed: the pass over the translated module succeeds, and an instance of the
    module with images, whether they are copied or already mapped, starts with the same memories,
    or fails in the same way, as an instance of the module that runs its segments one after the
    other, whatever their order, overlap and offsets, with and without bulk memory.  (Memories
    that are mapped less far can be observed to differ: [padded_image_overruns].) *)
Theorem static_init_unobservable n plans entries t ps max section :
  translate_data_section n plans entries = Ok t -> Forall page_ok plans -> Forall (entry_ok plans) entries ->
  0 < ps < 2 ^ 32 -> images_fit ps plans ->
  exists t', try_static_init (E:=Empty_set) oc dbg ps max t = Ok t' /\
    forall data data' i inst inst' w w' bulk,
      append_module (E:=Empty_set) oc section t = Ok (im_module inst, data) -> im_wasm_data inst = data ->
      append_module (E:=Empty_set) oc section t' = Ok (im_module inst', data') -> im_wasm_data inst' = data' ->
      starting_pair ps i inst inst' w w' ->
      same_start (initialize_whole_instance oc dbg i bulk w) (initialize_whole_instance oc dbg i bulk w').
Proof.
  intros Ht Hp He Hps Hfit. destruct (translate_section_ok n plans entries t Hp He Ht) as (l & Htr & Hal & Hplans & Hn). rewrite <- Hplans in Hfit.
  destruct (try_static_init_ok (E:=Empty_set) oc dbg ps max t l Htr Hps Hfit) as (t' & -> & Hcase). exists t'. split; [done|].
  intros data data' i inst inst' w w' bulk Ha Hd Ha' Hd' Hsp.
  destruct (append_module_ok oc section t _ _ ltac:(by rewrite Hal) Ha) as (pre & post & Hdata & Hn1 & Hp1 & Hs1).
  rewrite (tr_init _ _ Htr) in Hs1. cbn [shift_initialization] in Hs1. apply bind_Ok_inv in Hs1 as (l' & Hs1 & Hi1). injection Hi1 as Hi1.
  destruct Hcase as [->|(map & Hm' & Hal' & _ & Hst)].
  - rewrite Ha in Ha'. injection Ha' as Hmm Hdd.
    rewrite (segmented_same ps i inst inst' w w' l' Hsp); [by split|done|by rewrite Hd, Hd'|by rewrite <- Hmm].
  - destruct (append_module_ok oc section t' _ _ ltac:(intros a; rewrite Hal'; intros [= <-]; lia) Ha') as (pre' & post' & Hdata' & Hn2 & Hp2 & Hs2).
    rewrite Hm' in Hs2, Hn2, Hp2. cbn [set_memory_initialization memory_initialization memory_plans num_imported_memories shift_initialization] in *.
    apply bind_Ok_inv in Hs2 as (map' & Hs2 & Hi2). injection Hi2 as Hi2.
    eapply (whole_pair ps i t l inst inst'); [lia|done|]. split; try done; subst; eauto 10.
Qed.
End Equivalence.

(** ** A module with overlapping segments *)

(** Data is padded with zeros. *)
Definition padded_append (section data : list Z) (align : Z) : Z * list Z :=
  let pad := Z.to_nat ((- Z.of_nat (length section)) mod align) in
  (Z.of_nat (length section + pad), section ++ zeros pad ++ data).

#[export] Instance padding_writer : SectionWriter := { append_aligned := padded_append }.

#[export] Instance padding_laws : SectionWriterLaws.
Proof.
  split. intros section data align Ha. unfold append_aligned, padding_writer, padded_append.
  set (p := (- Z.of_nat (length section)) mod align). pose proof (Z.mod_pos_bound (- Z.of_nat (length section)) align Ha) as Hp. fold p in Hp.
  assert (Hl : length (zeros (Z.to_nat p)) = Z.to_nat p) by apply length_replicate.
  exists (zeros (Z.to_nat p)). rewrite Hl. split; [done|]. split; [|lia]. rewrite Nat2Z.inj_add, Z2Nat.id by lia. unfold p.
  rewrite Z.add_mod_idemp_r by lia. rewrite Z.add_opp_diag_r. apply Z.mod_0_l. lia.
Qed.

(** A memory of [size] bytes, with pages of one byte. *)
Definition byte_plan (size : Z) : MemoryPlan :=
  {| memory := {| minimum := size; maximum := None; shared := false; memory64 := false; page_size_log2 := 0 |};
     MemoryTypes.style := MemoryTypes.Static 0; pre_guard_size := 0; offset_guard_size := 0 |}.

Definition overlapping : list (DataKind * list Z) :=
  [(Active 0 [I32Const 2], [1; 2; 3]); (Passive, [9]); (Active 0 [I32Const 1], [4; 5])].

Definition no_module : MemModule :=
  {| num_imported_memories := 0; memory_plans := []; memory_initialization := initialization_default; passive_data_map := ∅ |}.

(** The module of the entries and its data, without and with images. *)
Definition compiled (size ps : Z) (images : bool) (entries : list (DataKind * list Z)) : option (MemModule * list Z) :=
  match translate_data_section 0 [byte_plan size] entries with
  | Ok t =>
      match (if images then try_static_init (E:=Empty_set) true true ps 64 t else Ok t) with
      | Ok t => ok (append_module (E:=Empty_set) true [7; 7; 7] t)
      | _ => None
      end
  | _ => None
  end.

Definition data_instance (size ps : Z) (images : bool) (entries : list (DataKind * list Z)) : MemInstance :=
  let '(m, data) := default (no_module, []) (compiled size ps images entries) in
  {| im_module := m; im_memories := [0%nat]; im_imports := []; im_wasm_data := data; im_dropped_data := ∅ |}.

(** An instance without tables. *)
Definition bare_instance : Instance :=
  {| i_module := {| num_imported_funcs := 0; functions := []; TableInit.num_imported_tables := 0; table_plans := [];
                    table_initialization := {| initial_values := []; TableInit.segments := [] |};
                    passive_elements := []; passive_elements_map := ∅ |};
     i_tables := []; i_imported_tables := []; i_dropped_elements := ∅; i_globals := []; i_vmctx := 65536;
     i_offsets := table_offsets; i_type_ids := []; i_trampolines := []; i_functions := []; i_imported_functions := [] |}.

Definition new_store (inst : MemInstance) (size : Z) (mapped : nat) : MemWorld Z DrcHeap StoreLimits :=
  {| mw_world := {| w_instances := [bare_instance]; w_tables := []; w_store := store one_object; w_func_refs := ∅; w_limits := None |};
     mw_instances := [inst]; mw_memories := [{| rm_bytes := zeros mapped; rm_length := size; rm_needs_init := true |}] |}.

Definition start (inst : MemInstance) (size : Z) (mapped : nat) : MemWorld Z DrcHeap StoreLimits * outcome instance_error () :=
  initialize_whole_instance (GcHeap0:=DrcHeap_GcHeap true true elements) true true 0 true (new_store inst size mapped).

Lemma static_init_unobservable_witness :
  same_start (start (data_instance 8 4 false overlapping) 8 8) (start (data_instance 8 4 true overlapping) 8 8) /\
  rm_bytes <$> mw_memories (start (data_instance 8 4 true overlapping) 8 8).1 = [[0; 4; 5; 2; 3; 0; 0; 0]].
Proof.
  split; [|vm_compute; reflexivity].
  destruct (static_init_unobservable (T:=Z) (H:=DrcHeap) (L:=StoreLimits) (GcHeap0:=DrcHeap_GcHeap true true elements) true true 0 [byte_plan 8] overlapping
    (match translate_data_section 0 [byte_plan 8] overlapping with Ok t => t | _ => {| t_module := no_module; t_data := []; t_data_align := None;
       t_total_data := 0; t_passive_data := []; t_total_passive_data := 0 |} end) 4 64 [7; 7; 7]) as (t' & Ht' & Hall).
  - vm_compute. reflexivity.
  - constructor; [right; reflexivity|constructor].
  - repeat constructor.
  - lia.
  - vm_compute. reflexivity.
  - apply (Hall (im_wasm_data (data_instance 8 4 false overlapping)) (im_wasm_data (data_instance 8 4 true overlapping)) 0%nat
      (data_instance 8 4 false overlapping) (data_instance 8 4 true overlapping)
      (new_store (data_instance 8 4 false overlapping) 8 8) (new_store (data_instance 8 4 true overlapping) 8 8) true).
    + vm_compute. reflexivity.
    + reflexivity.
    + clear Hall. vm_compute in Ht'. injection Ht' as <-. vm_compute. reflexivity.
    + reflexivity.
    + split; try reflexivity.
      * exists bare_instance. reflexivity.
      * vm_compute. constructor; [by apply not_elem_of_nil|constructor].
      * intros [|j] plan Hp Hd; [|by destruct j]. exists 0%nat. eexists. split; [reflexivity|]. split; [reflexivity|].
        injection Hp as <-. split; vm_compute; congruence.
      * intros [|[|j]] k Hk; [|discriminate|discriminate]. injection Hk as <-. split; [vm_compute; lia|].
        eexists _, _. split; [reflexivity|]. split; [reflexivity|]. by left.
Defined.

(** An image is padded to the pages of the target.  When they are larger than the pages
    of the host, as they can be for a memory with small pages of its own, copying the
    image leaves the mapped bytes, where the segment fits. *)
Theorem padded_image_overruns :
  (start (data_instance 1 16 false [(Active 0 [I32Const 0], [1])]) 1 4).2 = Ok () /\
  (start (data_instance 1 16 true [(Active 0 [I32Const 0], [1])]) 1 4).2 = Panic.
Proof. split; vm_compute; reflexivity. Qed.
