(* ===== verification/SimKernel.v ===== *)
(** * A kernel

    A small address space with pages of four bytes: a map from addresses to bytes, where
    what is not in the map is reserved and cannot be used.  It refuses no call on whole
    pages.  It obeys the laws of
    [KernelLaws], so that the theorems about slots and pools can be applied and run. *)

From Stdlib Require Import ZArith Lia.
From stdpp Require Import base gmap numbers option.
From S2P Require Import Prelude MemoryTypes MemoryInit Cow CowInv.
Open Scope Z_scope.

Definition sim_page : Z := 4.
Abbreviation sim_memory := (gmap Z cell).
Definition sim_cell (a : sim_memory) (x : Z) : cell := default {| c_access := false; c_value := 0; c_origin := 0 |} (a !! x).

Fixpoint sim_update (a : sim_memory) (p : Z) (n : nat) (f : Z -> cell -> cell) : sim_memory :=
  match n with
  | O => a
  | S n => let x := p + Z.of_nat n in <[x := f x (sim_cell a x)]> (sim_update a p n f)
  end.

Definition sim_call (a : sim_memory) (p n : Z) (f : Z -> cell -> cell) : sim_memory * bool :=
  if p mod sim_page =? 0 then (sim_update a p (Z.to_nat (rounded sim_page n)) f, true) else (a, false).

(** The contents of files. *)
Definition sim_file (fd off : Z) : Z := (fd * 10 + off + 1) mod 256.

#[export] Instance sim_kernel : Kernel sim_memory := {
  cell_at := sim_cell;
  refusals _ := [];
  file_byte := sim_file;
  sys_mprotect a p n rw := sim_call a p n (fun _ c => {| c_access := rw; c_value := c_value c; c_origin := c_origin c |});
  sys_mmap_anonymous a p n rw := sim_call a p n (fun _ _ => {| c_access := rw; c_value := 0; c_origin := 0 |});
  sys_mmap_file a p n fd off :=
    sim_call a p n (fun x _ => {| c_access := true; c_value := sim_file fd (off + (x - p)); c_origin := sim_file fd (off + (x - p)) |});
  sys_madvise_dontneed a p n := sim_call a p n (fun _ c => {| c_access := c_access c; c_value := c_origin c; c_origin := c_origin c |});
  cpu_store a x v :=
    let c := sim_cell a x in
    if c_access c then Some (<[x := {| c_access := true; c_value := v; c_origin := c_origin c |}]> a) else None
}.

Lemma sim_update_cell a p n f x :
  sim_cell (sim_update a p n f) x = if decide (p <= x < p + Z.of_nat n) then f x (sim_cell a x) else sim_cell a x.
Proof.
  induction n as [|n IH]; [by rewrite decide_False by lia|]. cbn [sim_update]. unfold sim_cell in *. destruct (decide (x = p + Z.of_nat n)) as [->|Hne].
  - rewrite lookup_insert_eq, decide_True by lia. done.
  - rewrite lookup_insert_ne, IH by done. destruct (decide (p <= x < p + Z.of_nat n)); [rewrite decide_True by lia|rewrite decide_False by lia]; done.
Qed.

Lemma sim_call_law call a p n f : page_call call sim_page a p n (sim_call a p n f) f.
Proof.
  unfold sim_call. split; destruct (Z.eqb_spec (p mod sim_page) 0); cbn; try done; unfold in_pages; intros.
  - rewrite sim_update_cell, decide_False by lia. done.
  - rewrite sim_update_cell, decide_True by lia. done.
Qed.

#[export] Instance sim_laws : KernelLaws sim_memory sim_page.
Proof.
  split; intros; try apply sim_call_law.
  - cbn. unfold sim_call. case_match; cbn; [|done]. rewrite sim_update_cell. by case_decide.
  - cbn. destruct (c_access (sim_cell a x)) eqn:Ha; [|done]. split; [done|]. intros y. unfold sim_cell in *. destruct (decide (y = x)) as [->|Hne].
    + by rewrite lookup_insert_eq.
    + by rewrite lookup_insert_ne.
Qed.

Lemma sim_keeps_protections a : protections_kept (A := sim_memory) a.
Proof. apply list.not_elem_of_nil. Qed.

(** Pages are always dropped and replaced. *)
Lemma sim_grants a a' : ~ refused_pages (A := sim_memory) a a'.
Proof.
  intros (new & Hn & Hin). symmetry in Hn. apply app_eq_nil in Hn as [-> _].
  by destruct Hin as [?%list.elem_of_nil|?%list.elem_of_nil].
Qed.
