(* ===== verification/MemoryPool.v ===== *)
(** * The pool of linear memories

    [memory_pool.rs] and [decommit_queue.rs] of [vm/instance/allocator/pooling], with
    the parts of [pooling.rs] that allocate and deallocate memories.  One slab of
    address space is divided into slots of equal size; a slot is handed to one memory
    after the other.  With protection keys, slots are dealt to stripes in turn, and a
    slot of another stripe takes the place of a guard region.

    What does not change is a record [MemoryPool]; what does is the state of the monad
    [pool]: the address space, the index allocators of the stripes, the idle slots, the
    queue of ranges to decommit, and the limiter of the store that asks.  The keys of
    pages are not part of the address space: a stripe is the number of its key. *)

From Stdlib Require Import ZArith Lia.
From stdpp Require Import base list gmap numbers option.
From S2P Require Import Prelude MemoryTypes Mappings LinearMemory IndexAllocator MemoryInit Cow.
Open Scope Z_scope.

(** ** The layout of the slab *)

Record InstanceLimits := { total_memories : Z; max_memories_per_module : Z; max_memory_size : Z }.

Record SlabConstraints := {
  expected_slot_bytes : Z;
  c_max_memory_bytes : Z;
  c_num_slots : Z;
  num_pkeys_available : Z;
  guard_bytes : Z;
  guard_before_slots : bool
}.

Record SlabLayout := {
  num_slots : Z;
  slot_bytes : Z;
  max_memory_bytes : Z;
  pre_slab_guard_bytes : Z;
  post_slab_guard_bytes : Z;
  num_stripes : Z
}.

Inductive pool_error :=
| ExceedsReservation
| MpkUnsupported
| SlotTooLarge
| SlabTooLarge
| TooManyMemories
| BelowStaticBound
| MinimumTooLarge
| PoolConcurrencyLimit
| ImageFailed
| SlotFailed (e : cow_error)
| MemoryFailed (e : mem_error).

Definition saturating_add (a b : Z) : Z := Z.min u64_max (a + b).

Section Layout.
  Context (hp : Z) (oc dbg : bool).

Definition constraints_new (limits : InstanceLimits) (tunables : Tunables) (num_pkeys : Z) : outcome pool_error SlabConstraints :=
  expected ← map_err MemoryFailed (round_usize_up_to_host_pages hp dbg (static_memory_reservation tunables));
  guard ← map_err MemoryFailed (round_usize_up_to_host_pages hp dbg (static_memory_offset_guard_size tunables));
  Ok {| c_max_memory_bytes := max_memory_size limits; c_num_slots := total_memories limits; expected_slot_bytes := expected;
        num_pkeys_available := num_pkeys; guard_bytes := guard; guard_before_slots := guard_before_linear_memory tunables |}.

Definition total_slab_bytes (l : SlabLayout) : outcome pool_error Z :=
  ok_or SlabTooLarge
    (c ← checked 64 (slot_bytes l * num_slots l);
     c ← checked 64 (c + pre_slab_guard_bytes l);
     checked 64 (c + post_slab_guard_bytes l)).

Definition bytes_to_next_stripe_slot {E} (l : SlabLayout) : outcome E Z := arith oc 64 (slot_bytes l * num_stripes l).

(** The number of stripes and the size of slots before rounding. *)
Definition stripes_and_slot {E} (c : SlabConstraints) (faulting_region_bytes : Z) : outcome E (Z * Z) :=
  let max := c_max_memory_bytes c in
  if (guard_bytes c =? 0) || (max =? 0) || (c_num_slots c =? 0) then Ok (1, faulting_region_bytes)
  else if num_pkeys_available c <? 2 then Ok (1, faulting_region_bytes)
  else
    needed_num_stripes ← arith oc 64 (faulting_region_bytes / max + (if faulting_region_bytes mod max =? 0 then 0 else 1));
    assert_ (0 <? needed_num_stripes);;
    let num_stripes := Z.min (Z.min (num_pkeys_available c) needed_num_stripes) (c_num_slots c) in
    let share := if num_stripes =? 0 then faulting_region_bytes else faulting_region_bytes / num_stripes in
    let needed_slot_bytes := Z.max share max in
    assert_ (max <=? needed_slot_bytes);;
    Ok (num_stripes, needed_slot_bytes).

Definition calculate (c : SlabConstraints) : outcome pool_error SlabLayout :=
  let pre := if guard_before_slots c then guard_bytes c else 0 in
  let faulting_region_bytes := saturating_add (Z.max (expected_slot_bytes c) (c_max_memory_bytes c)) (guard_bytes c) in
  '(num_stripes, slot) ← stripes_and_slot c faulting_region_bytes;
  let page_alignment := hp - 1 in
  slot ← ok_or SlotTooLarge (b ← checked 64 (slot + page_alignment); Some (Z.ldiff b page_alignment));
  let layout := {| num_slots := c_num_slots c; slot_bytes := slot; max_memory_bytes := c_max_memory_bytes c;
                   pre_slab_guard_bytes := pre; post_slab_guard_bytes := saturating_sub faulting_region_bytes slot;
                   num_stripes := num_stripes |} in
  _ ← total_slab_bytes layout;
  Ok layout.
End Layout.

(** ** The pool *)

Record MemoryPool := {
  mp_mapping : Z;
  mp_layout : SlabLayout;
  mp_num_pkeys : nat;
  mp_memories_per_instance : nat;
  mp_keep_resident : Z;
  decommit_batch_size : Z
}.

Record DecommitQueue := { q_raw : list (Z * Z); q_memories : list (nat * MemoryImageSlot) }.
Definition queue_default : DecommitQueue := {| q_raw := []; q_memories := [] |}.
Definition queue_append (q local : DecommitQueue) : DecommitQueue :=
  {| q_raw := q_raw q ++ q_raw local; q_memories := q_memories q ++ q_memories local |}.
Definition raw_len (q : DecommitQueue) : Z := Z.of_nat (length (q_raw q)).

Record pool_state (A L : Type) := {
  ps_mem : A;
  ps_stripes : list Inner;
  ps_slots : list (option MemoryImageSlot);
  ps_queue : DecommitQueue;
  ps_next_pkey : Z;
  ps_limits : option L
}.
Arguments ps_mem {A L}.
Arguments ps_stripes {A L}.
Arguments ps_slots {A L}.
Arguments ps_queue {A L}.
Arguments ps_next_pkey {A L}.
Arguments ps_limits {A L}.
Arguments Build_pool_state {A L}.

Abbreviation pool A L := (io (pool_state A L) pool_error).

(** A memory in a slot of the pool. *)
Record PoolMemory := { pm_capacity : Z; pm_size : Z; pm_slot : MemoryImageSlot }.

(** A request for a memory: the key of the store, the module, and the image that the
    module has for the memory. *)
Record Request := { rq_pkey : option nat; rq_module : option Z; rq_image : option (option MemoryImage) }.

Inductive MpkEnabled := MpkAuto | MpkEnable | MpkDisable.

Definition mpk_keys (enabled : MpkEnabled) (supported : bool) (keys : Z) : outcome pool_error Z :=
  match enabled with
  | MpkAuto => Ok (if supported then keys else 0)
  | MpkEnable => if supported then Ok keys else Err MpkUnsupported
  | MpkDisable => Ok 0
  end.

(** [StripedAllocationIndex]: the stripe of a slot and its number there. *)
Definition from_unstriped_slot_index (index num_stripes : nat) : nat * nat := (index mod num_stripes, index / num_stripes)%nat.
Definition as_unstriped_slot_index {E} (oc : bool) (striped stripe num_stripes : nat) : outcome E nat :=
  a ← arith oc 32 (Z.of_nat striped * Z.of_nat num_stripes);
  b ← arith oc 32 (a + Z.of_nat stripe);
  Ok (Z.to_nat b).

Section New.
  Context (hp : Z) (oc dbg : bool).

(** [create_stripe]. *)
Definition stripe_slots (l : SlabLayout) (i : nat) : nat :=
  (Z.to_nat (num_slots l) / Z.to_nat (num_stripes l) +
   (if i <? Z.to_nat (num_slots l) mod Z.to_nat (num_stripes l) then 1 else 0))%nat.

(** [MemoryPool::new]: the pool and its state in the address space [a], in which the
    slab is reserved. *)
Definition memory_pool_new {A L} (sys : os) (a : A) (store : option L) (limits : InstanceLimits) (tunables : Tunables)
    (max_unused_warm keep_resident batch : Z) (enabled : MpkEnabled) (supported : bool) (keys : Z)
  : outcome pool_error (MemoryPool * pool_state A L) :=
  if static_memory_reservation tunables <? max_memory_size limits then Err ExceedsReservation
  else
    pkeys ← mpk_keys enabled supported keys;
    constraints ← constraints_new hp dbg limits tunables pkeys;
    layout ← calculate hp oc constraints;
    total ← total_slab_bytes layout;
    mapping ← map_err MemoryFailed (accessible_reserved hp sys 0 total);
    keep_resident ← map_err MemoryFailed (round_usize_up_to_host_pages hp dbg keep_resident);
    Ok ({| mp_mapping := base mapping; mp_layout := layout; mp_num_pkeys := Z.to_nat pkeys;
           mp_memories_per_instance := Z.to_nat (max_memories_per_module limits);
           mp_keep_resident := keep_resident; decommit_batch_size := batch |},
        {| ps_mem := a;
           ps_stripes := (fun i => IndexAllocator.new (stripe_slots layout i) max_unused_warm) <$> seq 0 (Z.to_nat (num_stripes layout));
           ps_slots := replicate (Z.to_nat (num_slots layout)) None;
           ps_queue := queue_default; ps_next_pkey := 0; ps_limits := store |}).
End New.

(** ** Operations *)

Section Operations.
  Context {A L : Type} `{!Kernel A} `{!ResourceLimiter L} (oc dbg : bool) (behavior : DecommitBehavior) (P : MemoryPool).
  Implicit Types (st : pool_state A L).

Definition get_state : pool A L (pool_state A L) := fun st => (st, Ok st).
Definition set_mem (a : A) : pool A L () := fun st =>
  ({| ps_mem := a; ps_stripes := ps_stripes st; ps_slots := ps_slots st; ps_queue := ps_queue st;
      ps_next_pkey := ps_next_pkey st; ps_limits := ps_limits st |}, Ok ()).
Definition set_stripes (l : list Inner) : pool A L () := fun st =>
  ({| ps_mem := ps_mem st; ps_stripes := l; ps_slots := ps_slots st; ps_queue := ps_queue st;
      ps_next_pkey := ps_next_pkey st; ps_limits := ps_limits st |}, Ok ()).
Definition set_slots (l : list (option MemoryImageSlot)) : pool A L () := fun st =>
  ({| ps_mem := ps_mem st; ps_stripes := ps_stripes st; ps_slots := l; ps_queue := ps_queue st;
      ps_next_pkey := ps_next_pkey st; ps_limits := ps_limits st |}, Ok ()).
Definition set_queue (q : DecommitQueue) : pool A L () := fun st =>
  ({| ps_mem := ps_mem st; ps_stripes := ps_stripes st; ps_slots := ps_slots st; ps_queue := q;
      ps_next_pkey := ps_next_pkey st; ps_limits := ps_limits st |}, Ok ()).
Definition set_limits (l : option L) : pool A L () := fun st =>
  ({| ps_mem := ps_mem st; ps_stripes := ps_stripes st; ps_slots := ps_slots st; ps_queue := ps_queue st;
      ps_next_pkey := ps_next_pkey st; ps_limits := l |}, Ok ()).
Definition set_next_pkey (n : Z) : pool A L () := fun st =>
  ({| ps_mem := ps_mem st; ps_stripes := ps_stripes st; ps_slots := ps_slots st; ps_queue := ps_queue st;
      ps_next_pkey := n; ps_limits := ps_limits st |}, Ok ()).

(** The result of code that can fail, as a value. *)
Definition try_ {X} (m : pool A L X) : pool A L (outcome pool_error X) := fun st =>
  match m st with
  | (st, Panic) => (st, Panic)
  | (st, r) => (st, Ok r)
  end.

(** Methods of a slot, on the address space of the pool: the slot afterwards, the ranges
    to decommit, and the result. *)
Definition on_slot {X} (m : cow A X) (s : MemoryImageSlot) : pool A L (MemoryImageSlot * list (Z * Z) * outcome cow_error X) :=
  fun st =>
    let '(c, r) := m {| cs_mem := ps_mem st; cs_slot := s; cs_queue := [] |} in
    let st' := {| ps_mem := cs_mem c; ps_stripes := ps_stripes st; ps_slots := ps_slots st; ps_queue := ps_queue st;
                  ps_next_pkey := ps_next_pkey st; ps_limits := ps_limits st |} in
    match r with
    | Panic => (st', Panic)
    | r => (st', Ok (cs_slot c, cs_queue c, r))
    end.

Definition drop_slot (s : MemoryImageSlot) : pool A L () := _ ← on_slot slot_drop s; mret ().

(** *** Index allocators of the stripes *)

Definition stripe_alloc (k : nat) (m : option (Z * Z)) : pool A L (option nat) :=
  st ← get_state;
  inner ← lift (unwrap (ps_stripes st !! k));
  '(o, inner) ← lift (IndexAllocator.alloc oc dbg inner m);
  _ ← set_stripes (<[k := inner]> (ps_stripes st));
  mret o.

Definition stripe_alloc_affine (k : nat) (module memory_index : Z) : pool A L (option nat) :=
  st ← get_state;
  inner ← lift (unwrap (ps_stripes st !! k));
  '(o, inner) ← lift (alloc_affine_and_clear_affinity oc dbg inner module memory_index);
  _ ← set_stripes (<[k := inner]> (ps_stripes st));
  mret o.

Definition stripe_free (k i : nat) : pool A L () :=
  st ← get_state;
  inner ← lift (unwrap (ps_stripes st !! k));
  inner ← lift (IndexAllocator.free oc inner i);
  set_stripes (<[k := inner]> (ps_stripes st)).

(** *** Slots *)

Definition get_base {E} (i : nat) : outcome E Z :=
  assert_ (Z.of_nat i <? num_slots (mp_layout P));;
  Ok (mp_mapping P + pre_slab_guard_bytes (mp_layout P) + Z.of_nat i * slot_bytes (mp_layout P)).

Definition take_memory_image_slot (i : nat) : pool A L MemoryImageSlot :=
  st ← get_state;
  maybe_slot ← lift (unwrap (ps_slots st !! i));
  _ ← set_slots (<[i := None]> (ps_slots st));
  match maybe_slot with
  | Some slot => mret slot
  | None => b ← lift (get_base i); mret (slot_create b 0 (max_memory_bytes (mp_layout P)))
  end.

(** The slot that was there before, if any, is dropped. *)
Definition return_memory_image_slot (i : nat) (slot : MemoryImageSlot) : pool A L () :=
  _ ← lift (assert_ (negb (s_dirty slot)));
  st ← get_state;
  old ← lift (unwrap (ps_slots st !! i));
  _ ← set_slots (<[i := Some slot]> (ps_slots st));
  match old with Some s => drop_slot s | None => mret () end.

(** [Memory::new_static]: the limits, then the memory; a shared memory is [todo!()]. *)
Definition pool_new_static (plan : MemoryPlan) (base_capacity : Z) (slot : MemoryImageSlot) (guarded : Z)
  : pool A L PoolMemory :=
  st ← get_state;
  let '(store, limits) := limit_new dbg plan (Some (ps_limits st)) in
  _ ← set_limits (default (ps_limits st) store);
  '(minimum, maximum) ← lift (map_err MemoryFailed limits);
  if base_capacity <? minimum then lift (Err (MemoryFailed ExceedsPool))
  else if shared (memory plan) then lift Panic
  else
    let capacity := match maximum with Some max => if max <? base_capacity then max else base_capacity | None => base_capacity end in
    mret {| pm_capacity := capacity; pm_size := minimum; pm_slot := slot |}.

(** The closure of [allocate]: a slot that is not handed out is dropped. *)
Definition allocate_slot (request : Request) (plan : MemoryPlan) (i : nat) : pool A L PoolMemory :=
  bytes ← lift (bytes_to_next_stripe_slot oc (mp_layout P));
  _ ← lift (assert_ (match style plan with Static byte_reservation => byte_reservation <=? bytes | Dynamic _ => true end));
  _ ← lift (get_base i);
  slot ← take_memory_image_slot i;
  match rq_image request with
  | None => _ ← drop_slot slot; lift (Err ImageFailed)
  | Some image =>
      size ← lift (minimum_byte_size dbg (memory plan));
      initial_size ← lift (unwrap size);
      '(slot, _, r) ← on_slot (slot_instantiate initial_size image plan) slot;
      match r with
      | Ok _ =>
          r ← try_ (pool_new_static plan (max_memory_bytes (mp_layout P)) slot bytes);
          match r with
          | Err e => _ ← drop_slot slot; lift (Err e)
          | r => lift r
          end
      | Err e => _ ← drop_slot slot; lift (Err (SlotFailed e))
      | Panic => lift Panic
      end
  end.

Definition allocate (request : Request) (plan : MemoryPlan) (memory_index : Z) : pool A L (nat * PoolMemory) :=
  st ← get_state;
  let n := length (ps_stripes st) in
  stripe ← match rq_pkey request with
           | Some k => mret k
           | None => _ ← lift (debug_assert dbg (n <? 2)%nat); mret 0%nat
           end;
  o ← stripe_alloc stripe (id ← rq_module request; Some (id, memory_index));
  match o with
  | None => lift (Err PoolConcurrencyLimit)
  | Some striped =>
      i ← lift (as_unstriped_slot_index oc striped stripe n);
      r ← try_ (allocate_slot request plan i);
      match r with
      | Ok m => mret (i, m)
      | Err e => _ ← stripe_free stripe striped; lift (Err e)
      | Panic => lift Panic
      end
  end.

Definition deallocate (i : nat) (image : MemoryImageSlot) : pool A L () :=
  _ ← return_memory_image_slot i image;
  st ← get_state;
  let '(k, striped) := from_unstriped_slot_index i (length (ps_stripes st)) in
  stripe_free k striped.

(** One turn of the loops of [purge_module]; the index within the stripe is used as the
    index of the slot. *)
Definition purge_one (k : nat) (id : nat) : pool A L () :=
  slot ← take_memory_image_slot id;
  '(slot, _, r) ← on_slot remove_image slot;
  _ ← match r with Ok _ => return_memory_image_slot id slot | _ => drop_slot slot end;
  stripe_free k id.

Fixpoint purge_affine (fuel k : nat) (module memory_index : Z) : pool A L () :=
  match fuel with
  | O => lift Panic
  | S fuel =>
      o ← stripe_alloc_affine k module memory_index;
      match o with
      | Some id => _ ← purge_one k id; purge_affine fuel k module memory_index
      | None => mret ()
      end
  end.

Fixpoint for_each {X} (f : X -> pool A L ()) (l : list X) : pool A L () :=
  match l with
  | [] => mret ()
  | x :: l => _ ← f x; for_each f l
  end.

(** A turn takes the affinity from a slot, so that there are at most as many turns as slots. *)
Definition purge_module (module : Z) : pool A L () :=
  st ← get_state;
  for_each (fun k => for_each (fun i => purge_affine (S (Z.to_nat (num_slots (mp_layout P)))) k module (Z.of_nat i))
                              (seq 0 (mp_memories_per_instance P)))
           (seq 0 (length (ps_stripes st))).

(** The stripe whose key the next store gets, when there are keys. *)
Definition next_available_pkey : pool A L (option nat) :=
  st ← get_state;
  _ ← lift (assert_ (negb (length (ps_stripes st) =? 0)%nat));
  let index := (Z.to_nat (ps_next_pkey st) mod length (ps_stripes st))%nat in
  _ ← set_next_pkey ((ps_next_pkey st + 1) mod 2 ^ 64);
  _ ← lift (debug_assert dbg ((length (ps_stripes st) <? 2)%nat || (index <? mp_num_pkeys P)%nat));
  mret (if (index <? mp_num_pkeys P)%nat then Some index else None).

(** [validate], of one plan and of all plans of a module. *)
Definition validate_plan (plan : MemoryPlan) : outcome pool_error () :=
  bytes ← bytes_to_next_stripe_slot oc (mp_layout P);
  if match style plan with Static byte_reservation => bytes <? byte_reservation | Dynamic _ => false end then Err BelowStaticBound
  else
    size ← minimum_byte_size dbg (memory plan);
    match size with
    | None => Err MinimumTooLarge
    | Some min => if max_memory_bytes (mp_layout P) <? min then Err MinimumTooLarge else Ok ()
    end.

Fixpoint validate_plans (l : list MemoryPlan) : outcome pool_error () :=
  match l with [] => Ok () | plan :: l => validate_plan plan;; validate_plans l end.

Definition validate (m : MemModule) : outcome pool_error () :=
  memories ← arith oc 64 (Z.of_nat (length (memory_plans m)) - Z.of_nat (num_imported_memories m));
  if Z.of_nat (mp_memories_per_instance P) <? memories then Err TooManyMemories
  else validate_plans (drop (num_imported_memories m) (memory_plans m)).

Definition pool_is_empty st : bool := forallb (IndexAllocator.is_empty) (ps_stripes st).

(** [Drop]: idle slots are dropped and leave their mappings, since the slab is unmapped
    as a whole. *)
Definition pool_drop : pool A L () :=
  st ← get_state;
  _ ← set_slots [];
  for_each (fun o => match o with Some slot => drop_slot (no_clear_on_drop slot) | None => mret () end) (ps_slots st).

(** *** The decommit queue *)

Fixpoint decommit_all_raw (raw : list (Z * Z)) : pool A L () :=
  match raw with
  | [] => mret ()
  | (ptr, len) :: raw =>
      st ← get_state;
      let '(a, ok) := decommit_pages behavior (ps_mem st) ptr len in
      _ ← set_mem a;
      _ ← lift (assert_ ok);
      decommit_all_raw raw
  end.

Definition flush (q : DecommitQueue) : pool A L bool :=
  _ ← decommit_all_raw (q_raw q);
  _ ← for_each (fun '(i, image) => deallocate i image) (q_memories q);
  mret (match q_memories q with [] => false | _ => true end).

Definition flush_decommit_queue : pool A L bool :=
  st ← get_state;
  _ ← set_queue queue_default;
  flush (ps_queue st).

Definition with_flush_and_retry {X} (f : pool A L X) : pool A L X :=
  r ← try_ f;
  match r with
  | Err PoolConcurrencyLimit => b ← flush_decommit_queue; if b : bool then f else lift (Err PoolConcurrencyLimit)
  | r => lift r
  end.

Definition merge_or_flush (local : DecommitQueue) : pool A L () :=
  if raw_len local =? 0 then _ ← flush local; mret ()
  else if decommit_batch_size P <=? raw_len local then _ ← flush local; mret ()
  else
    _ ← lift (debug_assert dbg (raw_len local <? decommit_batch_size P));
    st ← get_state;
    let shared := queue_append (ps_queue st) local in
    _ ← set_queue shared;
    if decommit_batch_size P <=? raw_len shared then _ ← flush_decommit_queue; mret () else mret ().

Definition allocate_memory (request : Request) (plan : MemoryPlan) (memory_index : Z) : pool A L (nat * PoolMemory) :=
  with_flush_and_retry (allocate request plan memory_index).

(** An error is a panic ([expect]). *)
Definition deallocate_memory (i : nat) (m : PoolMemory) : pool A L () :=
  '(image, raw, r) ← on_slot (clear_and_remain_ready oc behavior (mp_keep_resident P)) (pm_slot m);
  _ ← lift (unwrap_result r);
  merge_or_flush {| q_raw := raw; q_memories := [(i, image)] |}.

(** [StaticMemory::grow_to]. *)
Definition pool_grow_to (m : PoolMemory) (new_byte_size : Z) : pool A L (PoolMemory * outcome pool_error ()) :=
  _ ← lift (assert_ (new_byte_size <=? pm_capacity m));
  '(slot, _, r) ← on_slot (slot_set_heap_limit new_byte_size) (pm_slot m);
  mret ({| pm_capacity := pm_capacity m; pm_size := match r with Ok _ => new_byte_size | _ => pm_size m end; pm_slot := slot |},
        map_err SlotFailed r).

(** An access of the guest to its memory. *)
Definition guest_store (m : PoolMemory) (x v : Z) : pool A L () := fun st =>
  match cpu_store (ps_mem st) (s_base (pm_slot m) + x) v with
  | Some a => set_mem a st
  | None => (st, Panic)
  end.
End Operations.
