(* ===== verification/PoolInv.v ===== *)
(** * The invariant of the memory pool

    Every slot of the pool is idle, in use by one memory, or in a queue of slots that
    are to be decommitted.  An idle slot shows its image and zeros; the slot of a memory
    shows what the guest has written; a queued slot does not show its first contents yet
    in the ranges of its queue only.  The regions of slots are disjoint, so that an
    operation on one slot keeps what is known of the others. *)

From Stdlib Require Import ZArith Lia.
From stdpp Require Import base list gmap numbers option.
From S2P Require Import Prelude MemoryTypes Mappings LinearMemory IndexAllocator MemoryInit ImageBuild Cow CowInv MemoryPool.
Open Scope Z_scope.

(** ** Striped indices *)

Lemma striped_index (n i : nat) : (0 < n)%nat -> (i = i / n * n + i mod n)%nat.
Proof. intros Hn. pose proof (Nat.div_mod_eq i n). lia. Qed.

Lemma striped_unique (n j k : nat) : (k < n)%nat -> ((j * n + k) / n = j /\ (j * n + k) mod n = k)%nat.
Proof.
  intros Hk. rewrite Nat.add_comm. split; [rewrite Nat.div_add by lia; rewrite Nat.div_small; lia|].
  rewrite Nat.Div0.mod_add. by apply Nat.mod_small.
Qed.

(** The slots of a stripe are numbered from 0. *)
Lemma striped_total (n total j k : nat) :
  (k < n)%nat -> ((j * n + k < total) <-> (j < total / n + (if k <? total mod n then 1 else 0)))%nat.
Proof.
  intros Hk. pose proof (Nat.div_mod_eq total n) as Ht. pose proof (Nat.mod_upper_bound total n ltac:(lia)) as Hm.
  set (q := (total / n)%nat) in *. set (r := (total mod n)%nat) in *. destruct (Nat.ltb_spec k r); split; intros H'; nia.
Qed.

Section Pool.
  Context {A L : Type} `{!Kernel A} `{!ResourceLimiter L} (hp : Z) `{!KernelLaws A hp} (oc dbg : bool).
  Context (behavior : DecommitBehavior) (P : MemoryPool) (Hhp : 0 < hp).
  Implicit Types (a : A) (s : MemoryImageSlot) (st : pool_state A L).

(** ** Regions *)

Abbreviation slot_max := (max_memory_bytes (mp_layout P)).
Definition total_slots : nat := Z.to_nat (num_slots (mp_layout P)).
Definition stripes : nat := Z.to_nat (num_stripes (mp_layout P)).

Record layout_ok : Prop := {
  lo_slot_page : slot_bytes (mp_layout P) mod hp = 0;
  lo_base_page : (mp_mapping P + pre_slab_guard_bytes (mp_layout P)) mod hp = 0;
  lo_max : 0 <= slot_max < 2 ^ 63;
  lo_room : rounded hp slot_max <= slot_bytes (mp_layout P);
  lo_stripes : 0 < num_stripes (mp_layout P);
  lo_slots : 0 <= num_slots (mp_layout P) < 2 ^ 32;
  lo_reach : 0 <= slot_bytes (mp_layout P) * num_stripes (mp_layout P) < 2 ^ 64;
  lo_keep : 0 <= mp_keep_resident P < 2 ^ 63;
  lo_keep_page : mp_keep_resident P mod hp = 0
}.
Context (Hlo : layout_ok).

Definition slot_base (i : nat) : Z := mp_mapping P + pre_slab_guard_bytes (mp_layout P) + Z.of_nat i * slot_bytes (mp_layout P).
Definition region (i : nat) (y : Z) : Prop := slot_base i <= y < slot_base i + rounded hp slot_max.

Lemma region_disjoint i j y : region i y -> region j y -> i = j.
Proof using Hlo. unfold region, slot_base. destruct Hlo. intros. nia. Qed.

Lemma slot_base_page i : slot_base i mod hp = 0.
Proof using Hlo Hhp.
  destruct Hlo. unfold slot_base. apply aligned_add; [done..|]. rewrite Z.mul_mod, lo_slot_page0, Z.mul_0_r by lia. apply Z.mod_0_l. lia.
Qed.

(** The bytes of the slab that are in no slot. *)
Definition slab_bytes : Z :=
  pre_slab_guard_bytes (mp_layout P) + num_slots (mp_layout P) * slot_bytes (mp_layout P) + post_slab_guard_bytes (mp_layout P).
Definition slab_guard (y : Z) : Prop := mp_mapping P <= y < mp_mapping P + slab_bytes /\ forall i, (i < total_slots)%nat -> ~ region i y.

(** The slot of an index. *)
Record slot_at (i : nat) s : Prop := {
  sa_base : s_base s = slot_base i;
  sa_size : s_static_size s = slot_max;
  sa_drop : s_clear_on_drop s = true;
  sa_ok : slot_ok hp s
}.

Definition fresh_slot (i : nat) : MemoryImageSlot := slot_create (slot_base i) 0 slot_max.

Lemma slot_at_region i s y : slot_at i s -> in_slot hp s y <-> region i y.
Proof. intros []. unfold in_slot, slot_end, region. by rewrite sa_base0, sa_size0. Qed.

Lemma fresh_slot_at i : slot_at i (fresh_slot i).
Proof using Hlo Hhp. split; try done. split; cbn; [by apply slot_base_page|destruct Hlo; lia|destruct Hlo; lia|done]. Qed.

(** ** The invariant *)

Definition idle_ok a (i : nat) (o : option MemoryImageSlot) : Prop :=
  let s := default (fresh_slot i) o in slot_at i s /\ s_dirty s = false /\ mapped hp a s clean.

(** A memory in use: only bytes of the memory have been written. *)
Record live_ok a (x : nat * PoolMemory) : Prop := {
  li_slot : slot_at x.1 (pm_slot x.2);
  li_dirty : s_dirty (pm_slot x.2) = true;
  li_size : 0 <= pm_size x.2 <= s_accessible (pm_slot x.2);
  li_capacity : pm_size x.2 <= pm_capacity x.2 <= slot_max;
  li_image : images_in hp (s_image (pm_slot x.2)) (pm_size x.2);
  li_mapped : mapped hp a (pm_slot x.2) (below (pm_size x.2))
}.

Record queue_ok a (q : DecommitQueue) : Prop := {
  qo_ranges : forall r, r ∈ q_raw q -> exists i s, (i, s) ∈ q_memories q /\ range_ok hp s r;
  qo_slots : forall i s, (i, s) ∈ q_memories q -> slot_at i s /\ s_dirty s = false /\ mapped hp a s (covered (q_raw q) s);
  qo_linux : q_raw q <> [] -> behavior = RestoreOriginalMapping
}.

Definition queued (queues : list DecommitQueue) : list nat := queues ≫= fun q => (q_memories q).*1.
Definition owners (live : list (nat * PoolMemory)) queues (hand : list nat) : list nat := live.*1 ++ queued queues ++ hand.

(** The index is given out by its stripe. *)
Definition used_in (pools : list Pool) (i : nat) : Prop :=
  exists p, pools !! (i mod stripes)%nat = Some p /\ is_Some (p_used p !! (i / stripes)%nat).

Record stripes_repr (pools : list Pool) (inners : list Inner) (T : nat -> Prop) : Prop := {
  sp_length : length pools = stripes;
  sp_repr : Forall2 repr pools inners;
  sp_total : forall k p, pools !! k = Some p -> p_total p = stripe_slots (mp_layout P) k;
  sp_used : forall i, used_in pools i <-> T i
}.
Definition stripes_ok (inners : list Inner) (T : nat -> Prop) : Prop := exists pools, stripes_repr pools inners T.

Lemma stripes_ok_ext inners (T T' : nat -> Prop) : stripes_ok inners T -> (forall i, T i <-> T' i) -> stripes_ok inners T'.
Proof. intros [pools [Hl Hr Ht Hu]] He. exists pools. split; [done..|]. intros i. by rewrite Hu. Qed.

Lemma stripes_pos : (0 < stripes)%nat.
Proof using Hlo. unfold stripes. destruct Hlo. lia. Qed.

Lemma stripe_slots_spec k j : (k < stripes)%nat -> (j < stripe_slots (mp_layout P) k <-> j * stripes + k < total_slots)%nat.
Proof. intros Hk. unfold stripe_slots. rewrite striped_total by done. done. Qed.

Lemma used_bound p inner j : repr p inner -> is_Some (p_used p !! j) -> (j < p_total p)%nat.
Proof.
  intros Hr [m Hm]. apply (sr_used _ _ (r_states _ _ Hr)) in Hm. rewrite <- (sr_len _ _ (r_states _ _ Hr)). by eapply lookup_lt_Some.
Qed.

Lemma taken_bound inners T i : stripes_ok inners T -> T i -> (i < total_slots)%nat.
Proof using Hlo.
  intros [pools [Hl Hr Ht Hu]] Hi. apply Hu in Hi as (p & Hp & Hj). pose proof stripes_pos as Hs.
  destruct (Forall2_lookup_l _ _ _ _ _ Hr Hp) as (inner & _ & Hrp). apply used_bound with (1 := Hrp) in Hj. rewrite (Ht _ _ Hp) in Hj.
  apply stripe_slots_spec in Hj; [|by apply Nat.mod_upper_bound; lia]. by rewrite <- striped_index in Hj.
Qed.

(** What a chosen slot of a stripe is. *)
Lemma choose_unused p inner fm mode j : repr p inner -> choose p fm mode = Some j -> p_used p !! j = None /\ (j < p_total p)%nat.
Proof.
  intros Hr Hc. pose proof (r_states _ _ Hr) as Hst. destruct (choose_free _ _ _ _ Hc) as [[-> Hlt]|[a Ha]].
  - split; [|done]. destruct (p_used p !! p_cold p) as [m|] eqn:Hm; [|done]. apply (sr_used _ _ Hst) in Hm.
    assert (Hcold : slot_state inner !! p_cold p = Some UnusedCold) by (apply (sr_cold _ _ Hst); lia). congruence.
  - apply (sr_warm _ _ Hst) in Ha as (u & Hu & _). split.
    + destruct (p_used p !! j) as [m|] eqn:Hm; [|done]. apply (sr_used _ _ Hst) in Hm. congruence.
    + rewrite <- (sr_len _ _ Hst). by eapply lookup_lt_Some.
Qed.

Lemma used_insert pools k p p' (i : nat) :
  (k < stripes)%nat -> pools !! k = Some p ->
  used_in (<[k := p']> pools) i <-> (if decide (i mod stripes = k)%nat then is_Some (p_used p' !! (i / stripes)%nat) else used_in pools i).
Proof.
  intros Hk Hp. unfold used_in. case_decide as Hi.
  - subst k. rewrite list_lookup_insert_eq by (by eapply lookup_lt_Some). split; [by intros (? & [= <-] & ?)|eauto].
  - by rewrite list_lookup_insert_ne.
Qed.

Lemma stripes_set pools inners k p' inner' T T' :
  stripes_repr pools inners T -> (k < stripes)%nat -> repr p' inner' -> p_total p' = stripe_slots (mp_layout P) k ->
  (forall j, is_Some (p_used p' !! j) <-> T' (j * stripes + k)%nat) ->
  (forall i, (i mod stripes <> k)%nat -> T i <-> T' i) ->
  stripes_repr (<[k := p']> pools) (<[k := inner']> inners) T'.
Proof using Hlo.
  intros [Hl Hr Ht Hu] Hk Hr' Ht' Hsame Hother. destruct (lookup_lt_is_Some_2 pools k ltac:(lia)) as [p Hp].
  split; [by rewrite length_insert|by apply Forall2_insert| |].
  - intros k2 p2 Hp2. apply list_lookup_insert_Some in Hp2 as [(-> & -> & _)|[_ Hp2]]; [done|by apply Ht].
  - intros i. rewrite (used_insert _ _ p) by done. case_decide as Hi; [|rewrite Hu; by apply Hother].
    rewrite Hsame, <- Hi, <- striped_index; [done|apply stripes_pos].
Qed.

Lemma used_iff pools inners T k p j :
  stripes_repr pools inners T -> (k < stripes)%nat -> pools !! k = Some p -> is_Some (p_used p !! j) <-> T (j * stripes + k)%nat.
Proof.
  intros Hs Hk Hp. rewrite <- (sp_used _ _ _ Hs). unfold used_in. destruct (striped_unique stripes j k Hk) as [-> ->].
  rewrite Hp. split; [eauto|by intros (? & [= <-] & ?)].
Qed.

Lemma alloc_stripe {E} pools inners T k p fm mode :
  stripes_repr pools inners T -> (k < stripes)%nat -> pools !! k = Some p ->
  exists inner inner', inners !! k = Some inner /\ alloc_ (E:=E) oc dbg inner fm mode = Ok ((spec_alloc p fm mode).1, inner') /\
    match (spec_alloc p fm mode).1 with
    | None => stripes_repr (<[k := (spec_alloc p fm mode).2]> pools) (<[k := inner']> inners) T
    | Some j => ~ T (j * stripes + k)%nat /\ (j * stripes + k < total_slots)%nat /\
        stripes_repr (<[k := (spec_alloc p fm mode).2]> pools) (<[k := inner']> inners) (fun x => x = (j * stripes + k)%nat \/ T x)
    end.
Proof using Hlo.
  intros Hs Hk Hp. destruct (Forall2_lookup_l _ _ _ _ _ (sp_repr _ _ _ Hs) Hp) as (inner & Hinner & Hr).
  destruct (slot_alloc_ok (E:=E) oc dbg p inner fm mode Hr) as (inner' & Ha & Hr'). exists inner, inner'. split_and!; [done..|].
  pose proof (fun j => used_iff pools inners T k p j Hs Hk Hp) as Hiff. unfold spec_alloc in *. destruct (choose p fm mode) as [j|] eqn:Hc; cbn [fst snd] in *.
  - destruct (choose_unused _ _ _ _ _ Hr Hc) as [Hno Hlt]. split_and!.
    + rewrite <- Hiff, Hno. by intros [].
    + apply stripe_slots_spec; [done|]. by rewrite <- (sp_total _ _ _ Hs _ _ Hp).
    + eapply stripes_set; [done..| | |].
      * cbn. by apply (sp_total _ _ _ Hs).
      * intros j'. cbn. destruct (decide (j' = j)) as [->|Hne]; [rewrite lookup_insert_eq; naive_solver|].
        rewrite lookup_insert_ne by done. rewrite Hiff. split; [auto|]. intros [Heq|]; [|done]. apply (f_equal (fun i => i / stripes)%nat) in Heq.
        rewrite (proj1 (striped_unique _ j' k Hk)), (proj1 (striped_unique _ j k Hk)) in Heq. done.
      * intros i Hi. split; [auto|]. intros [->|]; [|done]. by destruct (striped_unique stripes j k Hk).
  - eapply stripes_set; [done..| | |done]; [by apply (sp_total _ _ _ Hs)|]. intros j. by apply Hiff.
Qed.

Lemma free_stripe {E} pools inners T i :
  stripes_repr pools inners T -> T i ->
  exists inner inner' p, inners !! (i mod stripes)%nat = Some inner /\ IndexAllocator.free (E:=E) oc inner (i / stripes)%nat = Ok inner' /\
    pools !! (i mod stripes)%nat = Some p /\
    exists m, p_used p !! (i / stripes)%nat = Some m /\
    stripes_repr (<[(i mod stripes)%nat := give_back p (i / stripes)%nat m]> pools) (<[(i mod stripes)%nat := inner']> inners) (fun x => T x /\ x <> i).
Proof using Hlo.
  intros Hs Hi. pose proof stripes_pos as Hpos. pose proof (Nat.mod_upper_bound i stripes ltac:(lia)) as Hk.
  apply (sp_used _ _ _ Hs) in Hi as (p & Hp & m & Hm). destruct (Forall2_lookup_l _ _ _ _ _ (sp_repr _ _ _ Hs) Hp) as (inner & Hinner & Hr).
  destruct (slot_free_ok (E:=E) oc p inner _ m Hr Hm) as (inner' & Hf & Hr'). exists inner, inner', p. split_and!; [done..|]. exists m. split; [done|].
  eapply stripes_set; [done..| | |].
  - cbn. by apply (sp_total _ _ _ Hs).
  - intros j. cbn. pose proof (used_iff _ _ _ _ p j Hs Hk Hp) as Hiff. destruct (decide (j = (i / stripes)%nat)) as [->|Hne].
    + rewrite lookup_delete_eq, <- striped_index by done. split; [by intros []|by intros []].
    + rewrite lookup_delete_ne, Hiff by done. split; [|tauto]. intros HT. split; [done|]. intros Heq.
      destruct (striped_unique stripes j _ Hk) as [Hj _]. rewrite Heq in Hj. done.
  - intros i' Hi'. split; [|tauto]. intros HT. split; [done|]. by intros ->.
Qed.

(** ** The pool *)

Record pool_inv st live queues hand : Prop := {
  pi_stripes : stripes_ok (ps_stripes st) (fun i => i ∈ owners live queues hand);
  pi_nodup : NoDup (owners live queues hand);
  pi_slots : length (ps_slots st) = total_slots;
  pi_idle : forall i o, ps_slots st !! i = Some o -> i ∉ owners live queues hand -> idle_ok (ps_mem st) i o;
  pi_taken : forall i, i ∈ owners live queues hand -> ps_slots st !! i = Some None;
  pi_live : Forall (live_ok (ps_mem st)) live;
  pi_queues : Forall (queue_ok (ps_mem st)) queues;
  pi_guard : forall y, slab_guard y -> c_access (cell_at (ps_mem st) y) = false
}.

(** Nothing changes in the memories of the list. *)
Definition keeps (live : list (nat * PoolMemory)) a a' : Prop := forall i y, i ∈ live.*1 -> region i y -> cell_at a' y = cell_at a y.
Abbreviation after := (later (A:=A)).

Lemma keeps_trans live a1 a2 a3 : keeps live a1 a2 -> keeps live a2 a3 -> keeps live a1 a3.
Proof. intros H1 H2 i y Hi Hy. rewrite (H2 i y) by done. by apply (H1 i). Qed.

Lemma mapped_region a a' i s stale : slot_at i s -> mapped hp a s stale -> after a a' -> (forall y, region i y -> cell_at a' y = cell_at a y) -> mapped hp a' s stale.
Proof. intros Hs Hm Hl Hf. eapply mapped_frame; [done..|]. intros y Hy. apply Hf. by eapply slot_at_region. Qed.

Lemma owner_queued live queues hand q i s : q ∈ queues -> (i, s) ∈ q_memories q -> i ∈ owners live queues hand.
Proof.
  intros Hq Hi. unfold owners, queued. apply list.elem_of_app. right. apply list.elem_of_app. left. apply list_elem_of_bind.
  exists q. split; [|done]. apply list_elem_of_fmap. by exists (i, s).
Qed.

Lemma owner_live live queues hand x : x ∈ live -> x.1 ∈ owners live queues hand.
Proof. intros Hx. unfold owners. apply list.elem_of_app. left. apply list_elem_of_fmap. eauto. Qed.

Definition set_ps_mem st a : pool_state A L :=
  {| ps_mem := a; ps_stripes := ps_stripes st; ps_slots := ps_slots st; ps_queue := ps_queue st;
     ps_next_pkey := ps_next_pkey st; ps_limits := ps_limits st |}.

Lemma live_region a a' x : live_ok a x -> after a a' -> (forall y, region x.1 y -> cell_at a' y = cell_at a y) -> live_ok a' x.
Proof. intros [] Hl Hf. split; try done. by eapply mapped_region. Qed.

Lemma queue_region a a' q :
  queue_ok a q -> after a a' -> (forall i s y, (i, s) ∈ q_memories q -> region i y -> cell_at a' y = cell_at a y) -> queue_ok a' q.
Proof.
  intros [Hr Hs Hl] Hlat Hf. split; try done. intros i s Hi. destruct (Hs i s Hi) as (Hsa & Hd & Hm). split_and!; [done..|].
  eapply mapped_region; [done..|]. intros y Hy. by eapply Hf.
Qed.

Lemma idle_region a a' i o : idle_ok a i o -> after a a' -> (forall y, region i y -> cell_at a' y = cell_at a y) -> idle_ok a' i o.
Proof. intros (Hs & Hd & Hm) Hl Hf. split_and!; [done..|]. by eapply mapped_region. Qed.

(** What happens in the region of a slot that is in nobody's hands but ours. *)
Lemma inv_mem st live queues hand i a :
  pool_inv st live queues (i :: hand) -> after (ps_mem st) a -> (forall y, ~ region i y -> cell_at a y = cell_at (ps_mem st) y) ->
  pool_inv (set_ps_mem st a) live queues (i :: hand) /\ keeps live (ps_mem st) a.
Proof using Hlo.
  intros [Hst Hnd Hsl Hid Htk Hli Hqu Hgu] Hlat Hf.
  assert (Hi : i ∈ owners live queues (i :: hand)) by (unfold owners; rewrite !list.elem_of_app; right; right; by left).
  assert (Hne : forall j y, j <> i -> region j y -> cell_at a y = cell_at (ps_mem st) y).
  { intros j y Hj Hy. apply Hf. intros Hy'. apply Hj. by eapply region_disjoint. }
  assert (Hdisj : forall j, j ∈ live.*1 ++ queued queues -> j <> i).
  { intros j Hj ->. unfold owners in Hnd. rewrite app_assoc in Hnd. apply list.NoDup_app in Hnd as (_ & Hnd & _). apply (Hnd i Hj). by left. }
  split.
  - split; try done; cbn.
    + intros j o Hj Hno. eapply idle_region; [by apply Hid|done|]. intros y. apply Hne. by intros ->.
    + rewrite list.Forall_forall in Hli |- *. intros x Hx. eapply live_region; [by apply Hli|done|]. intros y. apply Hne, Hdisj.
      apply list.elem_of_app. left. apply list_elem_of_fmap. eauto.
    + rewrite list.Forall_forall in Hqu |- *. intros q Hq. eapply queue_region; [by apply Hqu|done|]. intros j s y Hj. apply Hne, Hdisj.
      apply list.elem_of_app. right. apply list_elem_of_bind. exists q. split; [|done]. apply list_elem_of_fmap. by exists (j, s).
    + intros y Hy. rewrite Hf; [by apply Hgu|]. apply Hy. by eapply taken_bound.
  - intros j y Hj. apply Hne, Hdisj. apply list.elem_of_app. by left.
Qed.

Lemma inv_ext st st' live queues queues' hand hand' :
  pool_inv st live queues hand -> owners live queues hand ≡ₚ owners live queues' hand' -> Forall (queue_ok (ps_mem st)) queues' ->
  ps_mem st' = ps_mem st -> ps_stripes st' = ps_stripes st -> ps_slots st' = ps_slots st ->
  pool_inv st' live queues' hand'.
Proof.
  intros [Hst Hnd Hsl Hid Htk Hli Hqu Hgu] Hp Hq Hm Hs Hss. split; rewrite ?Hm, ?Hs, ?Hss; try done.
  - eapply stripes_ok_ext; [done|]. intros i. cbn beta. by rewrite Hp.
  - by rewrite <- Hp.
  - intros i o Ho Hno. apply Hid; [done|]. by rewrite Hp.
  - intros i Hi. apply Htk. by rewrite Hp.
Qed.
End Pool.
