(* ===== verification/PoolOps.v ===== *)
(** * Operations of the memory pool

    Every operation of [MemoryPool] keeps the invariant of [PoolInv] and the contents of
    the memories it is not about; when it panics, the system refused to drop or to
    replace pages while it ran. *)

From Stdlib Require Import ZArith Lia.
From stdpp Require Import base list gmap numbers option.
From S2P Require Import Prelude MemoryTypes Mappings LinearMemory IndexAllocator MemoryInit ImageBuild Cow CowInv MemoryPool PoolInv.
Open Scope Z_scope.

Section Operations.
  Context {A L : Type} `{!Kernel A} `{!ResourceLimiter L} (hp : Z) `{!KernelLaws A hp} (oc dbg : bool).
  Context (behavior : DecommitBehavior) (P : MemoryPool) (Hhp : 0 < hp) (Hlo : layout_ok hp P) (Hlim : limiter_ok (L:=L)).
  Implicit Types (a : A) (s : MemoryImageSlot) (st : pool_state A L).

Abbreviation inv := (pool_inv (A:=A) (L:=L) hp behavior P).
Abbreviation kept := (keeps (A:=A) hp P).
Abbreviation at_index := (slot_at hp P).
Abbreviation idle := (idle_ok (A:=A) hp P).
Abbreviation after := (later (A:=A)).

(** ** Weakest preconditions *)

Definition pwp {X} (m : pool A L X) (Q : outcome pool_error X -> pool_state A L -> Prop) st : Prop :=
  match m st with
  | (st', Panic) => refused_pages (ps_mem st) (ps_mem st')
  | (st', r) => after (ps_mem st) (ps_mem st') /\ Q r st'
  end.

Lemma pwp_bind {X Y} (m : pool A L X) (f : X -> pool A L Y) Q st :
  pwp m (fun r st' => match r with Ok x => pwp (f x) Q st' | Err e => Q (Err e) st' | Panic => True end) st -> pwp (m ≫= f) Q st.
Proof.
  unfold pwp, mbind, io_bind. destruct (m st) as [st' [x|e|]]; [|done..]. intros [Hl Hp].
  destruct (f x st') as [st2 [y|e|]]; [| |by eapply later_refused]; (split; [|apply Hp]); eapply later_trans; [done|apply Hp|done|apply Hp].
Qed.

Lemma pwp_mono {X} (m : pool A L X) (Q Q' : outcome pool_error X -> pool_state A L -> Prop) st :
  pwp m Q st -> (forall r st', Q r st' -> Q' r st') -> pwp m Q' st.
Proof. unfold pwp. destruct (m st) as [st' []]; naive_solver. Qed.

(** A step that makes no system call. *)
Lemma pwp_same {X} (m : pool A L X) r Q st st' :
  m st = (st', r) -> r <> Panic -> ps_mem st' = ps_mem st -> Q r st' -> pwp m Q st.
Proof. intros Hm Hr Hmem HQ. unfold pwp. rewrite Hm, Hmem. destruct r; [| |done]; (split; [apply later_refl|done]). Qed.

Lemma pwp_ret {X} (x : X) Q st : Q (Ok x) st -> pwp (mret x) Q st.
Proof. by apply pwp_same. Qed.

Lemma pwp_lift {X} (m : outcome pool_error X) Q st : m <> Panic -> Q m st -> pwp (lift m) Q st.
Proof. intros Hm. by apply pwp_same. Qed.

Lemma pwp_ok {X} (m : outcome pool_error X) x Q st : m = Ok x -> Q (Ok x) st -> pwp (lift m) Q st.
Proof. intros ->. by apply pwp_same. Qed.

Lemma pwp_get Q st : Q (Ok st) st -> pwp get_state Q st.
Proof. by apply pwp_same. Qed.

Lemma pwp_try {X} (m : pool A L X) Q st : pwp m (fun r => Q (Ok r)) st -> pwp (try_ m) Q st.
Proof. unfold pwp, try_. by destruct (m st) as [st' []]. Qed.

(** ** Methods of slots *)

Lemma framed_at i s (c0 c : cow_state A) : at_index i s -> cs_slot c0 = s -> framed hp c0 c -> at_index i (cs_slot c).
Proof. intros [Hb Hs Hd _] <- [Hb' Hs' Hd' _ Hok]. split; congruence || done. Qed.

Lemma pwp_on_slot {X} (m : cow A X) i s (Qc : X -> cow_state A -> Prop) Q st live queues hand :
  inv st live queues (i :: hand) -> at_index i s ->
  let c0 := {| cs_mem := ps_mem st; cs_slot := s; cs_queue := [] |} in
  wp hp c0 m (fun x c => framed hp c0 c /\ Qc x c) c0 ->
  (forall c r, inv (set_ps_mem st (cs_mem c)) live queues (i :: hand) -> kept live (ps_mem st) (cs_mem c) -> at_index i (cs_slot c) ->
     match r with Ok x => Qc x c | Err e => m c0 = (c, Err e) | Panic => False end ->
     Q (Ok (cs_slot c, cs_queue c, r)) (set_ps_mem st (cs_mem c))) ->
  pwp (on_slot m s) Q st.
Proof.
  intros Hinv Hs c0 Hw HQ. unfold pwp, on_slot. fold c0. unfold wp in Hw.
  assert (Hfr : forall c, framed hp c0 c -> inv (set_ps_mem st (cs_mem c)) live queues (i :: hand) /\ kept live (ps_mem st) (cs_mem c) /\ at_index i (cs_slot c)).
  { intros c Hc. destruct (inv_mem hp behavior P Hlo st live queues hand i (cs_mem c) Hinv) as [Hi Hk]; [exact (fr_later _ _ _ Hc)|..].
    - intros y Hy. apply (fr_mem _ _ _ Hc). intros Hy'. apply Hy. by eapply slot_at_region.
    - split_and!; [done..|exact (framed_at i s c0 c Hs eq_refl Hc)]. }
  destruct (m c0) as [c [x|e|]] eqn:Hm; [destruct Hw as [Hc HX]|rename Hw into Hc|done]; destruct (Hfr c) as (H1 & H2 & H3); try done;
    (split; [exact (fr_later _ _ _ Hc)|by apply HQ]).
Qed.

Lemma pwp_drop i s Q st live queues hand :
  inv st live queues (i :: hand) -> at_index i s ->
  (forall a, inv (set_ps_mem st a) live queues (i :: hand) -> kept live (ps_mem st) a -> idle a i None -> Q (Ok ()) (set_ps_mem st a)) ->
  pwp (drop_slot s) Q st.
Proof.
  intros Hinv Hs HQ. pose proof (sa_base _ _ _ _ Hs) as Hb. pose proof (sa_size _ _ _ _ Hs) as Hsz.
  set (c0 := {| cs_mem := ps_mem st; cs_slot := s; cs_queue := [] |} : cow_state A).
  assert (Hfr0 : framed hp c0 c0) by (apply framed_refl, Hs).
  pose proof (slot_drop_ok hp Hhp c0 c0 Hfr0 (sa_drop _ _ _ _ Hs)) as Hd. unfold drop_slot, pwp, mbind, io_bind, on_slot. fold c0.
  destruct (slot_drop c0) as [c [[]|e|]]; [|done..]. destruct Hd as (Hfr & Hsl & Hm).
  destruct (inv_mem hp behavior P Hlo st live queues hand i (cs_mem c) Hinv) as [Hi Hk]; [exact (fr_later _ _ _ Hfr)|..].
  - intros y Hy. apply (fr_mem _ _ _ Hfr). intros Hy'. apply Hy. by eapply slot_at_region.
  - split; [exact (fr_later _ _ _ Hfr)|]. apply (HQ (cs_mem c)); [done..|]. split_and!; [by apply fresh_slot_at|done|]. rewrite Hsl in Hm. cbn [cs_slot c0] in Hm.
    intros x Hx. unfold mapped in Hm. cbn in Hm, Hx |- *. rewrite <- Hb. apply Hm. by rewrite Hsz.
Qed.

(** ** Taking and returning slots *)

Definition with_parts st (inners : list Inner) (slots : list (option MemoryImageSlot)) : pool_state A L :=
  {| ps_mem := ps_mem st; ps_stripes := inners; ps_slots := slots; ps_queue := ps_queue st;
     ps_next_pkey := ps_next_pkey st; ps_limits := ps_limits st |}.

Lemma owners_hand live queues i hand : owners live queues (i :: hand) ≡ₚ i :: owners live queues hand.
Proof. unfold owners. rewrite (app_assoc live.*1), (app_assoc live.*1). symmetry. apply Permutation_middle. Qed.

Lemma inv_take st live queues hand i inners :
  inv st live queues hand -> i ∉ owners live queues hand -> (i < total_slots P)%nat ->
  stripes_ok P inners (fun x => x = i \/ x ∈ owners live queues hand) ->
  inv (with_parts st inners (<[i := None]> (ps_slots st))) live queues (i :: hand).
Proof.
  intros [Hst Hnd Hsl Hid Htk Hli Hqu Hgu] Hi Hlt Hst'. split; cbn; try done.
  - eapply stripes_ok_ext; [done|]. intros x. cbn beta. rewrite owners_hand. by rewrite list.elem_of_cons.
  - rewrite owners_hand. by apply list.NoDup_cons.
  - by rewrite length_insert.
  - intros j o. rewrite owners_hand, list.not_elem_of_cons. intros Hj [Hne Hno]. rewrite list_lookup_insert_ne in Hj by done. by apply Hid.
  - intros j. rewrite owners_hand, list.elem_of_cons. intros [->|Hj]; [by rewrite list_lookup_insert_eq by lia|].
    rewrite list_lookup_insert_ne by (by intros ->). by apply Htk.
Qed.

Lemma inv_put st live queues hand i o inners :
  inv st live queues (i :: hand) -> idle (ps_mem st) i o ->
  stripes_ok P inners (fun x => x ∈ owners live queues (i :: hand) /\ x <> i) ->
  inv (with_parts st inners (<[i := o]> (ps_slots st))) live queues hand.
Proof.
  intros Hinv Hidle Hst'. pose proof Hinv as [Hst Hnd Hsl Hid Htk Hli Hqu Hgu]. rewrite owners_hand in Hnd. apply list.NoDup_cons in Hnd as [Hno Hnd].
  assert (Hi : i ∈ owners live queues (i :: hand)) by (rewrite owners_hand; by left).
  pose proof (taken_bound hp P Hlo _ _ i Hst Hi) as Hlt. split; cbn; try done.
  - eapply stripes_ok_ext; [done|]. intros x. cbn beta. rewrite owners_hand, list.elem_of_cons. split; [tauto|]. intros Hx. split; [tauto|]. by intros ->.
  - by rewrite length_insert.
  - intros j o' Hj Hnj. apply list_lookup_insert_Some in Hj as [(-> & -> & _)|[Hne Hj]]; [done|]. apply Hid; [done|].
    rewrite owners_hand, list.not_elem_of_cons. auto.
  - intros j Hj. rewrite list_lookup_insert_ne by (by intros ->). apply Htk. rewrite owners_hand. by right.
Qed.

Lemma get_base_ok {E} i : (i < total_slots P)%nat -> get_base (E:=E) P i = Ok (slot_base P i).
Proof using Hlo.
  intros Hi. unfold get_base. destruct Hlo. unfold total_slots in Hi. rewrite (proj2 (Z.ltb_lt _ _)) by lia. done.
Qed.

Lemma pwp_take i o Q st :
  ps_slots st !! i = Some o -> (i < total_slots P)%nat ->
  Q (Ok (default (fresh_slot P i) o)) (with_parts st (ps_stripes st) (<[i := None]> (ps_slots st))) ->
  pwp (take_memory_image_slot P i) Q st.
Proof using Hlo.
  intros Ho Hi HQ. unfold take_memory_image_slot. apply pwp_bind, pwp_get, pwp_bind. eapply pwp_ok; [by rewrite Ho|].
  apply pwp_bind. eapply pwp_same; [reflexivity|done|done|]. fold (with_parts st (ps_stripes st) (<[i := None]> (ps_slots st))).
  destruct o as [s|]; [by apply pwp_ret|]. apply pwp_bind. eapply pwp_ok; [by apply get_base_ok|]. by apply pwp_ret.
Qed.

Lemma pwp_return i s Q st :
  s_dirty s = false -> ps_slots st !! i = Some None ->
  Q (Ok ()) (with_parts st (ps_stripes st) (<[i := Some s]> (ps_slots st))) -> pwp (return_memory_image_slot i s) Q st.
Proof.
  intros Hd Ho HQ. unfold return_memory_image_slot. apply pwp_bind. eapply pwp_ok; [by rewrite Hd|]. apply pwp_bind, pwp_get, pwp_bind.
  eapply pwp_ok; [by rewrite Ho|]. apply pwp_bind. eapply pwp_same; [reflexivity|done|done|]. by apply pwp_ret.
Qed.

Lemma stripes_length inners T : stripes_ok P inners T -> length inners = stripes P.
Proof. intros [pools [Hl Hr _ _]]. by rewrite <- (list.Forall2_length _ _ _ Hr). Qed.

Lemma pwp_stripe_free i T Q st :
  stripes_ok P (ps_stripes st) T -> T i ->
  (forall inners, stripes_ok P inners (fun x => T x /\ x <> i) -> Q (Ok ()) (with_parts st inners (ps_slots st))) ->
  pwp (stripe_free oc (i mod stripes P) (i / stripes P)) Q st.
Proof using Hlo.
  intros [pools Hp] Hi HQ. destruct (free_stripe hp oc P Hlo (E:=pool_error) _ _ _ i Hp Hi) as (inner & inner' & p & Hin & Hf & _ & m & _ & Hp').
  unfold stripe_free. apply pwp_bind, pwp_get, pwp_bind. eapply pwp_ok; [by rewrite Hin|]. apply pwp_bind. eapply pwp_ok; [done|].
  eapply pwp_same; [reflexivity|done|done|]. apply HQ. by eexists.
Qed.

(** A slot goes back to its place and its index to its stripe. *)
Lemma deallocate_ok st live queues hand i s :
  inv st live queues (i :: hand) -> idle (ps_mem st) i (Some s) ->
  pwp (deallocate oc i s) (fun r st' => r = Ok () /\ inv st' live queues hand /\ ps_mem st' = ps_mem st /\
    ps_queue st' = ps_queue st /\ ps_limits st' = ps_limits st) st.
Proof using Hlo.
  intros Hinv Hidle. pose proof Hidle as (_ & Hd & _). assert (Hi : i ∈ owners live queues (i :: hand)) by (rewrite owners_hand; by left).
  unfold deallocate. apply pwp_bind, pwp_return; [done|by apply (pi_taken _ _ _ _ _ _ _ Hinv)|]. apply pwp_bind, pwp_get. cbn [with_parts ps_stripes].
  unfold from_unstriped_slot_index. rewrite (stripes_length _ _ (pi_stripes _ _ _ _ _ _ _ Hinv)).
  eapply pwp_stripe_free; [apply Hinv|exact Hi|]. intros inners Hin. split_and!; [done| |done..]. exact (inv_put st live queues hand i (Some s) inners Hinv Hidle Hin).
Qed.

(** ** Allocation *)

Record request_ok (request : Request) (plan : MemoryPlan) : Prop := {
  rk_type : type_ok (memory plan);
  rk_private : shared (memory plan) = false;
  rk_valid : validate_plan oc dbg P plan = Ok ();
  rk_key : match rq_pkey request with Some k => (k < stripes P)%nat | None => stripes P = 1%nat end;
  rk_image : forall image min, rq_image request = Some image -> min_bytes (memory plan) = Some min -> images_in hp image min
}.

Lemma reach_ok {E} : bytes_to_next_stripe_slot (E:=E) oc (mp_layout P) = Ok (slot_bytes (mp_layout P) * num_stripes (mp_layout P)).
Proof using Hlo. unfold bytes_to_next_stripe_slot. apply arith_ok. destruct Hlo. unfold in_u. lia. Qed.

Lemma validated request plan :
  request_ok request plan ->
  match style plan with Static b => b <=? slot_bytes (mp_layout P) * num_stripes (mp_layout P) | Dynamic _ => true end = true /\
  exists min, min_bytes (memory plan) = Some min /\ 0 <= min <= max_memory_bytes (mp_layout P).
Proof using Hlo.
  intros [Ht _ Hv _ _]. unfold validate_plan in Hv. rewrite reach_ok in Hv. cbn [mbind outcome_bind] in Hv.
  destruct (match style plan with Static b => _ <? b | Dynamic _ => false end) eqn:Hs; [done|].
  rewrite minimum_eq in Hv by done. cbn [mbind outcome_bind] in Hv. destruct (min_bytes (memory plan)) as [min|] eqn:Hm; [|done].
  split.
  - destruct (style plan); [done|]. apply Z.leb_le. apply Z.ltb_ge in Hs. lia.
  - exists min. split; [done|]. destruct (Z.ltb_spec (max_memory_bytes (mp_layout P)) min); [done|].
    destruct (min_bytes_Some _ _ Ht Hm) as (_ & Hb & _). lia.
Qed.

(** What a new memory shows. *)
Record new_memory (image : option MemoryImage) (plan : MemoryPlan) a (m : PoolMemory) : Prop := {
  nm_size : min_bytes (memory plan) = Some (pm_size m);
  nm_image : s_image (pm_slot m) = image;
  nm_clean : mapped hp a (pm_slot m) clean;
  nm_protected : relies_on_protection plan = true -> s_accessible (pm_slot m) = pm_size m
}.

Definition with_limits st (l : option L) : pool_state A L :=
  {| ps_mem := ps_mem st; ps_stripes := ps_stripes st; ps_slots := ps_slots st; ps_queue := ps_queue st;
     ps_next_pkey := ps_next_pkey st; ps_limits := l |}.

Lemma pool_new_static_ok request plan s guarded st :
  request_ok request plan ->
  pwp (pool_new_static dbg plan (max_memory_bytes (mp_layout P)) s guarded) (fun r st' =>
    (exists l, st' = with_limits st l) /\
    match r with
    | Ok m => pm_slot m = s /\ min_bytes (memory plan) = Some (pm_size m) /\ pm_size m <= pm_capacity m <= max_memory_bytes (mp_layout P)
    | Err e => e <> PoolConcurrencyLimit
    | Panic => False
    end) st.
Proof using Hlo Hlim.
  intros Hok. destruct (validated _ _ Hok) as (_ & min & Hmin & Hb). pose proof (limit_new_ok dbg plan (Some (ps_limits st)) Hlim (rk_type _ _ Hok)) as Hl.
  unfold pool_new_static. apply pwp_bind, pwp_get. destruct (limit_new dbg plan (Some (ps_limits st))) as [store limits]. cbn [snd] in Hl.
  apply pwp_bind. eapply pwp_same; [reflexivity|done|done|]. fold (with_limits st (default (ps_limits st) store)). apply pwp_bind, pwp_lift; [by destruct limits|].
  destruct limits as [[mn mx]|e|]; cbn [map_err]; [|by eauto|done]. destruct Hl as [Hmn ->]. rewrite Hmin in Hmn. injection Hmn as <-.
  rewrite (proj2 (Z.ltb_ge _ _)) by lia. rewrite (rk_private _ _ Hok). apply pwp_ret. split; [by eauto|]. cbn. split_and!; [done..| |].
  - destruct (max_bytes (memory plan)) as [mx|] eqn:Hmx; [|lia]. destruct (max_bytes_Some _ _ (rk_type _ _ Hok) Hmx) as (_ & min' & Hmin' & Hle).
    rewrite Hmin in Hmin'. injection Hmin' as <-. case_match; lia.
  - case_match; [|lia]. destruct (Z.ltb_spec z (max_memory_bytes (mp_layout P))); lia.
Qed.

Lemma inv_limits st live queues hand l : inv st live queues hand -> inv (with_limits st l) live queues hand.
Proof. intros []. by split. Qed.

(** A slot in our hands becomes a memory. *)
Lemma inv_live st live queues hand i m :
  inv st live queues (i :: hand) -> live_ok hp P (ps_mem st) (i, m) -> inv st ((i, m) :: live) queues hand.
Proof.
  intros [Hst Hnd Hsl Hid Htk Hli Hqu Hgu] Hl. assert (Hp : owners ((i, m) :: live) queues hand ≡ₚ owners live queues (i :: hand)) by (by rewrite owners_hand).
  split; try done.
  - eapply stripes_ok_ext; [done|]. intros x. cbn beta. by rewrite Hp.
  - by rewrite Hp.
  - intros j o Hj Hno. apply Hid; [done|]. by rewrite <- Hp.
  - intros j Hj. apply Htk. by rewrite <- Hp.
  - by constructor.
Qed.

(** What an allocation leaves: a memory, or a slot that shows nothing. *)
Definition allocated (request : Request) (plan : MemoryPlan) st live queues hand (i : nat) (r : outcome pool_error PoolMemory) st' : Prop :=
  kept live (ps_mem st) (ps_mem st') /\ ps_queue st' = ps_queue st /\
  match r with
  | Ok m => inv st' ((i, m) :: live) queues hand /\ exists image, rq_image request = Some image /\ new_memory image plan (ps_mem st') m
  | Err e => inv st' live queues (i :: hand) /\ idle (ps_mem st') i None /\ e <> PoolConcurrencyLimit
  | Panic => False
  end.

(** A slot that is not handed out is dropped. *)
Lemma drop_allocated request plan st st1 live queues hand i s (e : pool_error) :
  kept live (ps_mem st) (ps_mem st1) -> ps_queue st1 = ps_queue st -> inv st1 live queues (i :: hand) -> at_index i s -> e <> PoolConcurrencyLimit ->
  pwp (_ ← drop_slot s; lift (Err e)) (allocated request plan st live queues hand i) st1.
Proof using KernelLaws0 Hlo Hhp.
  intros Hk Hq Hinv Hs He. apply pwp_bind. eapply pwp_drop; [done..|]. intros a Hinv' Hk' Hi. apply pwp_lift; [done|].
  split_and!; [by eapply keeps_trans|done..].
Qed.

Lemma allocate_slot_ok request plan st live queues hand i inners :
  request_ok request plan -> inv st live queues hand -> i ∉ owners live queues hand -> (i < total_slots P)%nat ->
  stripes_ok P inners (fun x => x = i \/ x ∈ owners live queues hand) ->
  pwp (allocate_slot oc dbg P request plan i) (allocated request plan st live queues hand i) (with_parts st inners (ps_slots st)).
Proof using KernelLaws0 Hlo Hhp Hlim.
  intros Hok Hinv Hno Hlt Hst. destruct (validated _ _ Hok) as (Hreach & min & Hmin & Hb).
  unfold allocate_slot. apply pwp_bind. eapply pwp_ok; [apply reach_ok|]. apply pwp_bind. eapply pwp_ok; [by rewrite Hreach|].
  apply pwp_bind. eapply pwp_ok; [by apply get_base_ok|]. destruct (lookup_lt_is_Some_2 (ps_slots st) i) as [o Ho].
  { by rewrite (pi_slots _ _ _ _ _ _ _ Hinv). }
  apply pwp_bind. eapply pwp_take; [done..|]. cbn [with_parts ps_stripes ps_slots].
  pose proof (inv_take st live queues hand i inners Hinv Hno Hlt Hst) as Hinv1. destruct (pi_idle _ _ _ _ _ _ _ Hinv i o Ho Hno) as (Hsa & Hd & Hm).
  set (st1 := with_parts st inners (<[i := None]> (ps_slots st))) in *.
  assert (Hk1 : kept live (ps_mem st) (ps_mem st1)) by done. set (s := default (fresh_slot P i) o) in *.
  destruct (rq_image request) as [image|] eqn:Himg; [|by apply (drop_allocated request plan st st1 live queues hand i s ImageFailed)].
  apply pwp_bind. eapply pwp_ok; [by apply minimum_eq, Hok|]. apply pwp_bind. eapply pwp_ok; [by rewrite Hmin|]. apply pwp_bind.
  eapply (pwp_on_slot _ i s (fun _ c => instantiated hp min image plan {| cs_mem := ps_mem st1; cs_slot := s; cs_queue := [] |} c)); [exact Hinv1|done| |].
  { apply wp_instantiate; try done; [by apply framed_refl, Hsa|cbn [cs_slot]; rewrite (sa_size _ _ _ _ Hsa); lia|by apply (rk_image _ _ Hok)]. }
  intros c r Hinv2 Hk2 Hsa2 Hr. destruct r as [u|e|]; [|eapply drop_allocated; done|done].
  apply pwp_bind, pwp_try. eapply pwp_mono; [by apply (pool_new_static_ok request)|]. cbn beta. intros r st2 [[l ->] Hr2].
  destruct r as [m|e|]; [| |done].
  - destruct Hr2 as (Hms & Hmm & Hmc). rewrite Hmin in Hmm. injection Hmm as Hmm. destruct Hr. apply pwp_lift; [done|].
    split_and!; [done..| |].
    + apply inv_live; [by apply inv_limits|]. cbn. split; cbn; rewrite ?Hms; try done; [lia|rewrite in_image, <- Hmm; by apply (rk_image _ _ Hok)|].
      eapply mapped_weaken; [done|]. done.
    + exists image. split; [done|]. split; rewrite ?Hms; try done; [congruence|]. intros Hrel. rewrite <- Hmm. auto.
  - eapply drop_allocated; try done; by apply inv_limits.
Qed.

(** A stripe without a slot to give has every slot in use. *)
Lemma stripe_exhausted p inner fm j : repr p inner -> choose p fm AnySlot = None -> (j < p_total p)%nat -> is_Some (p_used p !! j).
Proof.
  intros Hr Hc Hj. pose proof (r_states _ _ Hr) as Hst. apply choose_none in Hc as [Hge Hw]. rewrite <- (sr_len _ _ Hst) in Hj.
  destruct (lookup_lt_is_Some_2 _ _ Hj) as [[m| |u] Hs].
  - exists m. by apply (sr_used _ _ Hst).
  - apply (sr_cold _ _ Hst) in Hs. lia.
  - assert (Hin : (j, affinity u) ∈ p_warm p) by (apply (sr_warm _ _ Hst); eauto). rewrite Hw in Hin. by apply not_elem_of_nil in Hin.
Qed.

Definition stripe_full (k : nat) (T : nat -> Prop) : Prop := forall i, (i < total_slots P)%nat -> (i mod stripes P = k)%nat -> T i.

Lemma pwp_stripe_alloc k fm T Q st :
  stripes_ok P (ps_stripes st) T -> (k < stripes P)%nat ->
  (forall o inners,
     match o with
     | None => stripes_ok P inners T /\ stripe_full k T
     | Some j => ~ T (j * stripes P + k)%nat /\ (j * stripes P + k < total_slots P)%nat /\
         stripes_ok P inners (fun x => x = (j * stripes P + k)%nat \/ T x)
     end -> Q (Ok o) (with_parts st inners (ps_slots st))) ->
  pwp (stripe_alloc oc dbg k fm) Q st.
Proof using Hlo.
  intros [pools Hp] Hk HQ. destruct (lookup_lt_is_Some_2 pools k) as [p Hpk]; [by rewrite (sp_length _ _ _ _ Hp)|].
  destruct (alloc_stripe hp oc dbg P Hlo (E:=pool_error) _ _ _ k p fm AnySlot Hp Hk Hpk) as (inner & inner' & Hin & Ha & Hs).
  unfold stripe_alloc. apply pwp_bind, pwp_get, pwp_bind. eapply pwp_ok; [by rewrite Hin|]. apply pwp_bind. eapply pwp_ok; [done|]. apply pwp_bind.
  eapply pwp_same; [reflexivity|done|done|]. fold (with_parts st (<[k := inner']> (ps_stripes st)) (ps_slots st)). apply pwp_ret, HQ.
  destruct (spec_alloc p fm AnySlot).1 eqn:Hsp; [destruct Hs as (? & ? & ?); split_and!; [done..|by eexists]|split; [by eexists|]].
  intros i Hi Hik. apply (sp_used _ _ _ _ Hp). exists p. rewrite Hik. split; [done|].
  assert (Hr : repr p inner) by (pose proof (Forall2_lookup_lr _ _ _ _ _ _ (sp_repr _ _ _ _ Hp) Hpk Hin); done).
  apply (stripe_exhausted p inner fm); [exact Hr|unfold spec_alloc in Hsp; by destruct (choose p fm AnySlot)|].
  rewrite (sp_total _ _ _ _ Hp _ _ Hpk). apply stripe_slots_spec; [done|]. rewrite <- Hik, <- striped_index; [done|]. by eapply stripes_pos.
Qed.

Lemma as_unstriped_ok {E} j k : (j * stripes P + k < total_slots P)%nat -> as_unstriped_slot_index (E:=E) oc j k (stripes P) = Ok (j * stripes P + k)%nat.
Proof using Hlo.
  intros Hlt. destruct Hlo. unfold total_slots in Hlt. unfold as_unstriped_slot_index.
  assert (Hb : Z.of_nat j * Z.of_nat (stripes P) + Z.of_nat k < 2 ^ 32) by lia.
  rewrite arith_ok by (unfold in_u; lia). cbn [mbind outcome_bind]. rewrite arith_ok by (unfold in_u; lia). cbn [mbind outcome_bind]. f_equal. lia.
Qed.

(** What an operation leaves that makes a memory or fails. *)
Definition made (request : Request) (plan : MemoryPlan) st live queues hand (r : outcome pool_error (nat * PoolMemory)) st' : Prop :=
  kept live (ps_mem st) (ps_mem st') /\
  match r with
  | Ok x => inv st' (x :: live) queues hand /\ exists image, rq_image request = Some image /\ new_memory image plan (ps_mem st') x.2
  | Err _ => inv st' live queues hand
  | Panic => False
  end.

(** The stripe of the store that asks. *)
Definition request_stripe (request : Request) : nat := default 0%nat (rq_pkey request).

Lemma pool_allocate_ok request plan index st live queues hand :
  request_ok request plan -> inv st live queues hand ->
  pwp (allocate oc dbg P request plan index) (fun r st' => (made request plan st live queues hand r st' /\ ps_queue st' = ps_queue st) /\
    (r = Err PoolConcurrencyLimit -> stripe_full (request_stripe request) (fun i => i ∈ owners live queues hand))) st.
Proof using KernelLaws0 Hlo Hhp Hlim.
  intros Hok Hinv. pose proof (stripes_length _ _ (pi_stripes _ _ _ _ _ _ _ Hinv)) as Hlen. unfold allocate. apply pwp_bind, pwp_get. rewrite Hlen.
  apply pwp_bind. assert (Hkey : pwp (match rq_pkey request with
    | Some k => mret k
    | None => _ ← lift (debug_assert dbg (stripes P <? 2)%nat); mret 0%nat end) (fun r st' => st' = st /\ exists k, r = Ok k /\ (k < stripes P)%nat /\ request_stripe request = k) st).
  { pose proof (rk_key _ _ Hok) as Hk. unfold request_stripe. destruct (rq_pkey request); [apply pwp_ret; by eauto 6|]. apply pwp_bind. rewrite Hk. eapply pwp_ok; [by destruct dbg|].
    apply pwp_ret. split; [done|]. exists 0%nat. split_and!; [done|lia|done]. }
  eapply pwp_mono; [exact Hkey|]. cbn beta. intros r st' [-> (k & -> & Hk & Hrk)]. apply pwp_bind.
  eapply pwp_stripe_alloc; [apply Hinv|done|]. intros o inners Ho. destruct o as [j|].
  - destruct Ho as (Hno & Hlt & Hst). set (i := (j * stripes P + k)%nat) in *. apply pwp_bind. eapply pwp_ok; [by apply as_unstriped_ok|]. fold i.
    apply pwp_bind, pwp_try. eapply pwp_mono; [by apply allocate_slot_ok|]. cbn beta. intros r st1 (Hk1 & Hq1 & Hr).
    destruct r as [m|e|]; [| |done].
    + apply pwp_ret. destruct Hr as (Hi1 & Hn1). by split; [split; [split|]|].
    + destruct Hr as (Hi1 & Hid1 & Hne). apply pwp_bind. destruct (striped_unique (stripes P) j k Hk) as [Hj Hkk].
      rewrite <- Hj, <- Hkk at 1. fold i. eapply pwp_stripe_free; [apply Hi1|cbn beta; rewrite owners_hand; by left|]. intros inners' Hs'. apply pwp_lift; [done|].
      split; [split; [split; [done|]|done]|by intros [= ->]]. pose proof (inv_put st1 live queues hand i None inners' Hi1 Hid1 Hs') as Hput.
      rewrite list_insert_id in Hput; [done|]. apply (pi_taken _ _ _ _ _ _ _ Hi1). rewrite owners_hand. by left.
  - destruct Ho as [Ho Hfull]. apply pwp_lift; [done|]. split; [split; [split; [done|]|done]|by rewrite Hrk]. destruct Hinv. by split.
Qed.

(** ** The decommit queue *)

Lemma NoDup_fst_unique {X Y} (l : list (X * Y)) x y y' : NoDup l.*1 -> (x, y) ∈ l -> (x, y') ∈ l -> y = y'.
Proof.
  intros Hnd Hy Hy'. apply list_elem_of_lookup_1 in Hy as [n Hn]. apply list_elem_of_lookup_1 in Hy' as [n' Hn'].
  assert (n = n') as <-; [|congruence]. eapply list.NoDup_lookup; [exact Hnd|rewrite list_lookup_fmap, Hn|rewrite list_lookup_fmap, Hn']; done.
Qed.

Lemma inv_hand st live queues hand hand' : inv st live queues hand -> hand ≡ₚ hand' -> inv st live queues hand'.
Proof. intros Hinv Hp. eapply inv_ext; [done| |apply Hinv|done..]. unfold owners. by rewrite Hp. Qed.

Lemma inv_mem_in st live queues hand i a :
  inv st live queues hand -> i ∈ hand -> after (ps_mem st) a -> (forall y, ~ region hp P i y -> cell_at a y = cell_at (ps_mem st) y) ->
  inv (set_ps_mem st a) live queues hand /\ kept live (ps_mem st) a.
Proof using Hlo.
  intros Hinv Hi Hl Hf. apply elem_of_Permutation in Hi as [hand' Hp].
  destruct (inv_mem hp behavior P Hlo st live queues hand' i a (inv_hand _ _ _ _ _ Hinv Hp) Hl Hf) as [Hinv' Hk].
  split; [|done]. by eapply inv_hand.
Qed.

Lemma owners_queue live q queues hand : owners live (q :: queues) hand ≡ₚ owners live queues ((q_memories q).*1 ++ hand).
Proof. unfold owners, queued. cbn. apply Permutation_app_head. rewrite <- app_assoc. apply Permutation_app_swap_app. Qed.

Lemma inv_open st live q queues hand : inv st live (q :: queues) hand -> inv st live queues ((q_memories q).*1 ++ hand) /\ queue_ok hp behavior P (ps_mem st) q.
Proof.
  intros Hinv. pose proof (pi_queues _ _ _ _ _ _ _ Hinv) as Hq. apply list.Forall_cons in Hq as [Hq Hqs]. split; [|done].
  by eapply inv_ext; [done|apply owners_queue|..].
Qed.

Lemma inv_close st live q queues hand :
  inv st live queues ((q_memories q).*1 ++ hand) -> queue_ok hp behavior P (ps_mem st) q -> inv st live (q :: queues) hand.
Proof.
  intros Hinv Hq. eapply inv_ext; [done|by rewrite owners_queue| |done..]. constructor; [done|apply Hinv].
Qed.

(** A range of the queue is decommitted. *)
Lemma queue_decommit a r raw memories :
  queue_ok hp behavior P a {| q_raw := r :: raw; q_memories := memories |} -> NoDup memories.*1 ->
  exists i, i ∈ memories.*1 /\
    let '(a', ok) := decommit_pages behavior a r.1 r.2 in
    (forall y, ~ region hp P i y -> cell_at a' y = cell_at a y) /\ after a a' /\
    if ok then queue_ok hp behavior P a' {| q_raw := raw; q_memories := memories |} else refused_pages a a'.
Proof using KernelLaws0 Hlo Hhp.
  intros [Hr Hs Hl] Hnd. cbn in *. destruct (Hr r ltac:(by left)) as (i & s & Hi & Hro). destruct (Hs i s Hi) as (Hsa & Hd & Hm).
  assert (Hbeh : behavior = RestoreOriginalMapping) by (by apply Hl). exists i. split; [apply list_elem_of_fmap; by exists (i, s)|].
  pose proof (decommit_ok hp behavior Hhp a s _ r Hbeh (sa_ok _ _ _ _ Hsa) Hro Hm) as Hdc.
  destruct (decommit_pages behavior a r.1 r.2) as [a' ok]. destruct Hdc as (Hout & Hlat & Href & Hin).
  assert (Hf : forall y, ~ region hp P i y -> cell_at a' y = cell_at a y).
  { intros y Hy. apply Hout. by rewrite (slot_at_region _ _ _ _ _ Hsa). }
  split; [done|]. split; [done|]. destruct ok; [|by apply Href]. split; cbn.
  - intros r' Hr'. apply Hr. by right.
  - intros j s' Hj. destruct (decide (j = i)) as [->|Hne].
    + assert (s' = s) as -> by (by eapply NoDup_fst_unique). split_and!; [done..|]. eapply mapped_weaken; [by apply Hin|].
      cbn beta. intros x Hx [(r' & Hr' & Hc) Hnr]. apply list.elem_of_cons in Hr' as [->|Hr']; [done|]. by exists r'.
    + destruct (Hs j s' Hj) as (Hsa' & Hd' & Hm'). split_and!; [done..|]. intros x Hx. unfold cell_ok, access_ok.
      assert (Hreg : region hp P j (s_base s' + x)) by (apply (slot_at_region _ _ _ _ _ Hsa'); unfold in_slot, slot_end; lia).
      assert (Hnot : ~ region hp P i (s_base s' + x)) by (intros Hreg'; apply Hne; by eapply region_disjoint).
      rewrite Hf by done. destruct (Hm' x Hx) as (Ho & [Ha1 Ha2] & Hv). split_and!; [done|done|intros Hkp; apply Ha2; by eapply later_kept|]. intros Hnc. apply Hv. intros (r' & Hr' & Hc).
      apply list.elem_of_cons in Hr' as [->|Hr']; [|by apply Hnc; exists r']. apply Hnot, (slot_at_region _ _ _ _ _ Hsa). destruct Hro.
      destruct (sa_ok _ _ _ _ Hsa). pose proof (rounded_bounds hp (s_static_size s) Hhp). unfold in_slot, slot_end. lia.
  - intros _. done.
Qed.

Lemma inv_queue_nodup st live q queues hand : inv st live (q :: queues) hand -> NoDup (q_memories q).*1.
Proof.
  intros Hinv. pose proof (pi_nodup _ _ _ _ _ _ _ Hinv) as Hnd. unfold owners, queued in Hnd. cbn in Hnd.
  apply list.NoDup_app in Hnd as (_ & _ & Hnd). apply list.NoDup_app in Hnd as (Hnd & _). by apply list.NoDup_app in Hnd as (Hnd & _).
Qed.

Lemma decommit_all_ok raw memories st live queues hand :
  inv st live ({| q_raw := raw; q_memories := memories |} :: queues) hand ->
  pwp (decommit_all_raw behavior raw) (fun r st' => r = Ok () /\ (exists a, st' = set_ps_mem st a) /\ kept live (ps_mem st) (ps_mem st') /\
    inv st' live ({| q_raw := []; q_memories := memories |} :: queues) hand) st.
Proof using KernelLaws0 Hlo Hhp.
  revert st. induction raw as [|[p n] raw IH]; intros st Hinv.
  - apply pwp_ret. split_and!; [done| |done..]. exists (ps_mem st). by destruct st.
  - pose proof (inv_queue_nodup _ _ _ _ _ Hinv) as Hnd. destruct (inv_open _ _ _ _ _ Hinv) as [Hopen Hq]. cbn [q_memories] in *.
    destruct (queue_decommit _ _ _ _ Hq Hnd) as (i & Hi & Hd). cbn [decommit_all_raw]. apply pwp_bind, pwp_get. cbn [fst snd] in Hd.
    destruct (decommit_pages behavior (ps_mem st) p n) as [a ok]. destruct Hd as (Hf & Hlat & Hok).
    destruct ok; [|exact Hok]. apply pwp_bind. unfold pwp at 1, set_mem. fold (set_ps_mem st a). split; [done|]. apply pwp_bind. eapply pwp_ok; [done|].
    destruct (inv_mem_in st live queues (memories.*1 ++ hand) i a Hopen) as [Hinv1 Hk1]; [apply list.elem_of_app; by left|done|done|].
    eapply pwp_mono; [apply IH, inv_close; done|]. cbn beta. intros r st' (-> & [a' ->] & Hk & Hi'). split_and!; [done|by exists a'| |done].
    by eapply keeps_trans.
Qed.

Definition same_rest st st' : Prop := ps_queue st' = ps_queue st /\ ps_limits st' = ps_limits st.

Lemma deallocs_ok memories st live queues hand :
  inv st live ({| q_raw := []; q_memories := memories |} :: queues) hand ->
  pwp (for_each (fun '(i, image) => deallocate oc i image) memories) (fun r st' => r = Ok () /\ inv st' live queues hand /\ ps_mem st' = ps_mem st /\ same_rest st st') st.
Proof using Hlo.
  revert st. induction memories as [|[i s] l IH]; intros st Hinv.
  - apply pwp_ret. split_and!; try done. by apply (inv_open _ _ _ _ _ Hinv).
  - destruct (inv_open _ _ _ _ _ Hinv) as [Hopen [_ Hs _]]. cbn [q_memories q_raw fmap list_fmap] in *. cbn [for_each]. apply pwp_bind.
    assert (Hclean : forall j s', (j, s') ∈ (i, s) :: l -> at_index j s' /\ s_dirty s' = false /\ mapped hp (ps_mem st) s' clean).
    { intros j s' Hj. destruct (Hs j s' Hj) as (? & ? & Hm). split_and!; [done..|]. eapply mapped_weaken; [done|]. intros x _ (r & Hr & _). by apply not_elem_of_nil in Hr. }
    eapply pwp_mono; [apply (deallocate_ok st live queues (l.*1 ++ hand) i s); [done|apply Hclean; by left]|].
    cbn beta. intros r st1 (-> & Hinv1 & Hm1 & Hq1 & Hl1). eapply pwp_mono; [apply IH, inv_close; [done|]|].
    + split; cbn; [by intros r Hr%not_elem_of_nil| |done]. intros j s' Hj. rewrite Hm1. destruct (Hclean j s') as (? & ? & ?); [by right|].
      split_and!; [done..|]. by eapply mapped_weaken.
    + cbn beta. intros r st2 (-> & Hi2 & Hm2 & Hq2 & Hl2). split_and!; [done..|congruence|split; congruence].
Qed.

Lemma flush_ok q st live queues hand :
  inv st live (q :: queues) hand ->
  pwp (flush oc behavior q) (fun r st' => r = Ok (match q_memories q with [] => false | _ => true end) /\ inv st' live queues hand /\ kept live (ps_mem st) (ps_mem st') /\ same_rest st st') st.
Proof using KernelLaws0 Hlo Hhp.
  intros Hinv. destruct q as [raw memories]. unfold flush. apply pwp_bind. cbn [q_raw q_memories].
  eapply pwp_mono; [by apply decommit_all_ok|]. cbn beta. intros r st1 (-> & [a ->] & Hk1 & Hi1). apply pwp_bind.
  eapply pwp_mono; [by apply deallocs_ok|]. cbn beta. intros r st2 (-> & Hi2 & Hm2 & Hq2 & Hl2). apply pwp_ret.
  split_and!; [done|done|by rewrite Hm2|done].
Qed.

(** ** The operations of the allocator

    Between operations the one queue is the shared one, and nothing is in hand. *)

Definition steady st live : Prop := inv st live [ps_queue st] [].

Lemma queue_default_ok a : queue_ok hp behavior P a queue_default.
Proof. split; cbn; [by intros r Hr%not_elem_of_nil|by intros i s Hs%not_elem_of_nil|done]. Qed.

Lemma flush_shared_ok st live :
  steady st live -> pwp (flush_decommit_queue oc behavior) (fun r st' => r = Ok (match q_memories (ps_queue st) with [] => false | _ => true end) /\ steady st' live /\ kept live (ps_mem st) (ps_mem st') /\ ps_queue st' = queue_default) st.
Proof using KernelLaws0 Hlo Hhp.
  intros Hs. unfold flush_decommit_queue. apply pwp_bind, pwp_get, pwp_bind. eapply pwp_same; [reflexivity|done|done|]. eapply pwp_mono; [apply (flush_ok _ _ live [queue_default] [])|].
  - apply inv_close; cbn [ps_mem]; [|apply (inv_open _ _ _ _ _ Hs)]. eapply inv_ext; [apply (inv_open _ _ _ _ _ Hs)| | |done..].
    + unfold owners, queued. done.
    + constructor; [apply queue_default_ok|constructor].
  - cbn beta. intros r st' (Hr & Hi & Hk & Hq & _). cbn in Hq, Hk. split_and!; [done| |done|done]. unfold steady. by rewrite Hq.
Qed.

(** What an allocation leaves between operations. *)
Definition offered (request : Request) (plan : MemoryPlan) st live (r : outcome pool_error (nat * PoolMemory)) st' : Prop :=
  kept live (ps_mem st) (ps_mem st') /\
  match r with
  | Ok x => steady st' (x :: live) /\ exists image, rq_image request = Some image /\ new_memory image plan (ps_mem st') x.2
  | Err e => steady st' live /\ (e = PoolConcurrencyLimit -> stripe_full (request_stripe request) (fun i => i ∈ live.*1))
  | Panic => False
  end.

Lemma empty_owners live q : q_memories q = [] -> owners live [q] [] = live.*1.
Proof. intros Hq. unfold owners, queued. cbn. by rewrite Hq, !app_nil_r. Qed.

(** An attempt, which finds no slot only if every slot of the stripe is in use or in the queue. *)
Lemma allocate_offers request plan index st live :
  request_ok request plan -> steady st live -> pwp (allocate oc dbg P request plan index) (fun r st' =>
    (kept live (ps_mem st) (ps_mem st') /\ ps_queue st' = ps_queue st /\
     match r with
     | Ok x => steady st' (x :: live) /\ exists image, rq_image request = Some image /\ new_memory image plan (ps_mem st') x.2
     | Err _ => steady st' live
     | Panic => False
     end) /\ (r = Err PoolConcurrencyLimit -> q_memories (ps_queue st) = [] -> stripe_full (request_stripe request) (fun i => i ∈ live.*1))) st.
Proof using KernelLaws0 Hlo Hhp Hlim.
  intros Hok Hs. eapply pwp_mono; [by apply pool_allocate_ok|]. cbn beta. intros r st' [[[Hk Hr] Hq] Hfull]. split.
  - split_and!; [done..|]. unfold steady. rewrite Hq. by destruct r.
  - intros Hr' He i Hi Hik. rewrite <- (empty_owners live _ He). by apply Hfull.
Qed.

Lemma allocate_memory_ok request plan index st live :
  request_ok request plan -> steady st live -> pwp (allocate_memory oc dbg behavior P request plan index) (offered request plan st live) st.
Proof using KernelLaws0 Hlo Hhp Hlim.
  intros Hok Hs. unfold allocate_memory, with_flush_and_retry. apply pwp_bind, pwp_try. eapply pwp_mono; [by apply allocate_offers|]. cbn beta.
  intros r st1 [(Hk1 & Hq1 & Hr1) Hf1]. destruct r as [x|e|]; [by apply pwp_lift| |done].
  assert (Hlast : forall e', e' <> PoolConcurrencyLimit -> pwp (lift (Err e')) (offered request plan st live) st1) by (intros e' He; by apply pwp_lift).
  destruct e; try by apply Hlast. apply pwp_bind. eapply pwp_mono; [by apply flush_shared_ok|]. cbn beta. intros r st2 (-> & Hs2 & Hk2 & Hq2).
  destruct (q_memories (ps_queue st1)) eqn:Hb.
  - apply pwp_lift; [done|]. split; [by eapply keeps_trans|]. split; [done|]. intros _. apply Hf1; [done|]. by rewrite <- Hq1.
  - eapply pwp_mono; [by apply allocate_offers|]. cbn beta. intros r st3 [(Hk3 & Hq3 & Hr3) Hf3].
    split; [eapply keeps_trans; [|done]; by eapply keeps_trans|]. destruct r as [x|e|]; [done| |done]. split; [done|]. intros ->. apply Hf3; [done|]. by rewrite Hq2.
Qed.

Lemma queue_append_ok a q q' : queue_ok hp behavior P a q -> queue_ok hp behavior P a q' -> queue_ok hp behavior P a (queue_append q q').
Proof.
  intros [Hr Hs Hl] [Hr' Hs' Hl']. split; cbn.
  - intros r [Hin|Hin]%list.elem_of_app; [destruct (Hr r Hin) as (i & s & ? & ?)|destruct (Hr' r Hin) as (i & s & ? & ?)]; exists i, s; rewrite list.elem_of_app; auto.
  - intros i s [Hin|Hin]%list.elem_of_app; [destruct (Hs i s Hin) as (? & ? & Hm)|destruct (Hs' i s Hin) as (? & ? & Hm)]; split_and!; try done;
      eapply mapped_weaken; try done; intros x _ (r & Hr0 & Hc); exists r; rewrite list.elem_of_app; auto.
  - intros Hne. destruct (q_raw q); [by apply Hl'|by apply Hl].
Qed.

Lemma merge_ok local st live :
  inv st live [local; ps_queue st] [] ->
  pwp (merge_or_flush oc dbg behavior P local) (fun r st' => r = Ok () /\ steady st' live /\ kept live (ps_mem st) (ps_mem st')) st.
Proof using KernelLaws0 Hlo Hhp.
  intros Hinv. assert (Hflush : pwp (_ ← flush oc behavior local; mret ()) (fun r st' => r = Ok () /\ steady st' live /\ kept live (ps_mem st) (ps_mem st')) st).
  { apply pwp_bind. eapply pwp_mono; [by apply flush_ok|]. cbn beta. intros r st' (-> & Hi & Hk & Hq & _). apply pwp_ret.
    split_and!; [done| |done]. unfold steady. by rewrite Hq. }
  unfold merge_or_flush. destruct (raw_len local =? 0); [done|]. destruct (Z.leb_spec (decommit_batch_size P) (raw_len local)); [done|].
  apply pwp_bind. eapply pwp_ok; [apply debug_assert_true; by apply Z.ltb_lt|].
  apply pwp_bind, pwp_get, pwp_bind. set (q := queue_append (ps_queue st) local). eapply pwp_same; [reflexivity|done|done|].
  set (st1 := {| ps_mem := ps_mem st; ps_stripes := ps_stripes st; ps_slots := ps_slots st; ps_queue := q; ps_next_pkey := ps_next_pkey st; ps_limits := ps_limits st |}).
  assert (Hs1 : steady st1 live).
  { pose proof (pi_queues _ _ _ _ _ _ _ Hinv) as Hq. rewrite !list.Forall_cons in Hq. destruct Hq as (Hql & Hqs & _).
    eapply inv_ext; [done| | |done..].
    - unfold owners, queued. cbn. rewrite !app_nil_r, fmap_app. apply Permutation_app_head, Permutation_app_comm.
    - constructor; [|constructor]. by apply queue_append_ok. }
  destruct (decommit_batch_size P <=? raw_len q); [|by apply pwp_ret]. apply pwp_bind. eapply pwp_mono; [by apply flush_shared_ok|].
  cbn beta. intros r st2 (-> & Hs2 & Hk2 & _). by apply pwp_ret.
Qed.

Lemma inv_retire st x live queues hand : inv st (x :: live) queues hand -> inv st live queues (x.1 :: hand) /\ live_ok hp P (ps_mem st) x.
Proof.
  intros [Hst Hnd Hsl Hid Htk Hli Hqu Hgu]. apply list.Forall_cons in Hli as [Hx Hli]. split; [|done].
  assert (Hp : owners live queues (x.1 :: hand) ≡ₚ owners (x :: live) queues hand) by (by rewrite owners_hand).
  split; try done.
  - eapply stripes_ok_ext; [done|]. intros y. cbn beta. by rewrite Hp.
  - by rewrite Hp.
  - intros j o Hj Hno. apply Hid; [done|]. by rewrite <- Hp.
  - intros j Hj. apply Htk. by rewrite <- Hp.
Qed.

Lemma deallocate_memory_ok st x live :
  steady st (x :: live) ->
  pwp (deallocate_memory oc dbg behavior P x.1 x.2) (fun r st' => r = Ok () /\ steady st' live /\ kept live (ps_mem st) (ps_mem st')) st.
Proof using KernelLaws0 Hlo Hhp.
  intros Hs. destruct (inv_retire _ _ _ _ _ Hs) as [Hinv Hl]. destruct x as [i m]. cbn [fst snd] in *. destruct Hl as [Hsa Hd Hsz Hcap Himg Hm]. cbn [fst snd] in *.
  unfold deallocate_memory. set (c0 := {| cs_mem := ps_mem st; cs_slot := pm_slot m; cs_queue := [] |} : cow_state A).
  assert (Hcase : (exists c e, clear_and_remain_ready oc behavior (mp_keep_resident P) c0 = (c, Err e)) \/
                  forall c e, clear_and_remain_ready oc behavior (mp_keep_resident P) c0 <> (c, Err e)).
  { destruct (clear_and_remain_ready oc behavior (mp_keep_resident P) c0) as [c' [|e|]]; [by right|left; eauto|by right]. }
  destruct Hcase as [(c & e & Hclear)|Hno].
  { unfold pwp, mbind, io_bind, on_slot, lift. fold c0. rewrite Hclear. cbn. eapply (clear_err hp oc behavior c0); [apply Hsa|exact Hclear]. }
  apply pwp_bind. eapply (pwp_on_slot _ i (pm_slot m) (fun _ c => cleared hp behavior c0 c)); [done|done| |].
  { apply wp_clear; try done; [by apply framed_refl, Hsa| |apply Hlo|apply Hlo]. eapply mapped_weaken; [done|]. unfold below. cbn. lia. }
  intros c r Hinv1 Hk1 Hsa1 Hr. destruct r as [u|e|]; [| |done].
  - apply pwp_bind. eapply pwp_ok; [done|]. destruct Hr as [_ _ Hcd (q & Hq & Hro & Hcm & Hz)]. cbn [cs_queue c0 app] in Hq.
    eapply pwp_mono; [apply merge_ok|].
    + apply inv_close; [done|]. cbn. split; cbn; rewrite Hq.
      * intros r Hin. exists i, (cs_slot c). split; [by left|]. rewrite list.Forall_forall in Hro. by apply Hro.
      * intros j s Hj. apply list_elem_of_singleton in Hj as [= -> ->]. by split_and!.
      * intros Hne. destruct behavior; [|done]. by destruct Hne, Hz.
    + cbn beta. intros r st' (-> & Hs' & Hk'). split_and!; [done..|]. by eapply keeps_trans.
  - by destruct (Hno c e).
Qed.
End Operations.
