(* ===== verification/PoolWorld.v ===== *)
(** * Programs over the memory pool

    Growth, stores and the purge of modules, programs as sequences of operations, and
    the theorems: the memories of a pool behave as memories of their own, each with the
    bytes of its image and zeros at first, whatever used its slot before; and what
    compiled code can reach from a memory without a bounds check is the memory, or
    faults, or has another protection key. *)

From Stdlib Require Import ZArith Lia.
From stdpp Require Import base list gmap numbers option.
From S2P Require Import Prelude MemoryTypes Mappings LinearMemory IndexAllocator MemoryInit ImageBuild Cow CowInv MemoryPool PoolInv PoolOps.
Open Scope Z_scope.

Section World.
  Context {A L : Type} `{!Kernel A} `{!ResourceLimiter L} (hp : Z) `{!KernelLaws A hp} (oc dbg : bool).
  Context (behavior : DecommitBehavior) (P : MemoryPool) (Hhp : 0 < hp) (Hlo : layout_ok hp P) (Hlim : limiter_ok (L:=L)).
  Implicit Types (a : A) (s : MemoryImageSlot) (st : pool_state A L).

Abbreviation inv := (pool_inv (A:=A) (L:=L) hp behavior P).
Abbreviation kept := (keeps (A:=A) hp P).
Abbreviation at_index := (slot_at hp P).
Abbreviation idle := (idle_ok (A:=A) hp P).
Abbreviation stable := (steady (A:=A) (L:=L) hp behavior P).
Abbreviation spec := (pwp (A:=A) (L:=L)).

(** ** Growth and stores *)

(** The byte that the guest reads. *)
Definition guest_byte a (m : PoolMemory) (x : Z) : Z := c_value (cell_at a (s_base (pm_slot m) + x)).

Definition grown n a (x : nat * PoolMemory) (r : outcome pool_error ()) a' (m : PoolMemory) : Prop :=
  pm_capacity m = pm_capacity x.2 /\ s_base (pm_slot m) = s_base (pm_slot x.2) /\
  (forall k, 0 <= k < pm_size x.2 -> guest_byte a' m k = guest_byte a x.2 k) /\
  (s_accessible (pm_slot x.2) = pm_size x.2 -> s_accessible (pm_slot m) = pm_size m) /\
  match r with
  | Ok _ => pm_size m = n /\ forall k, pm_size x.2 <= k < n -> guest_byte a' m k = 0
  | Err _ => pm_size m = pm_size x.2
  | Panic => False
  end.

Lemma grow_to_ok st x live n :
  stable st (x :: live) -> pm_size x.2 <= n <= pm_capacity x.2 ->
  spec (pool_grow_to x.2 n) (fun r st' => exists m res, r = Ok (m, res) /\ stable st' ((x.1, m) :: live) /\ kept live (ps_mem st) (ps_mem st') /\
    grown n (ps_mem st) x res (ps_mem st') m) st.
Proof using KernelLaws0 Hlo Hhp.
  intros Hs Hn. destruct (inv_retire _ _ _ _ _ _ _ _ Hs) as [Hinv Hl]. destruct x as [i m]. cbn [fst snd] in *.
  destruct Hl as [Hsa Hd Hsz Hcap Himg Hm]. cbn [fst snd] in *. unfold pool_grow_to. apply pwp_bind. eapply pwp_ok; [by rewrite (proj2 (Z.leb_le _ _)) by lia|].
  apply pwp_bind. set (c0 := {| cs_mem := ps_mem st; cs_slot := pm_slot m; cs_queue := [] |} : cow_state A).
  pose proof (heap_limit_ok hp Hhp c0 _ n (sa_ok _ _ _ _ Hsa) Hm ltac:(cbn; rewrite (sa_size _ _ _ _ Hsa); lia)) as Hh.
  unfold pwp at 1, on_slot. fold c0. destruct (slot_set_heap_limit n c0) as [c r]. destruct Hh as [(Hfr & Hq & Hv & Hr) Hm'].
  destruct (inv_mem hp behavior P Hlo st live [ps_queue st] [] i (cs_mem c) Hinv (fr_later _ _ _ Hfr)) as [Hi Hk].
  { intros y Hy. apply (fr_mem _ _ _ Hfr). intros Hy'. apply Hy. by eapply slot_at_region. }
  assert (Hsa' : at_index i (cs_slot c)) by exact (framed_at hp P i _ c0 c Hsa eq_refl Hfr).
  assert (Hbytes : forall k, 0 <= k < rounded hp (max_memory_bytes (mp_layout P)) -> ~ below (pm_size m) k -> c_value (cell_at (cs_mem c) (s_base (cs_slot c) + k)) = image_byte (s_image (cs_slot c)) k).
  { intros k Hk' Hb. destruct (Hm' k) as (Ho & _ & Hval); [by rewrite (sa_size _ _ _ _ Hsa')|]. rewrite Hval, Ho; done. }
  assert (Hbase : s_base (cs_slot c) = s_base (pm_slot m)) by (by rewrite (sa_base _ _ _ _ Hsa'), (sa_base _ _ _ _ Hsa)).
  pose proof (rounded_bounds hp (max_memory_bytes (mp_layout P)) Hhp) as Hrb. unfold guest_byte, grown.
  destruct r as [u|e|]; [| |done]; (split; [exact (fr_later _ _ _ Hfr)|]); apply pwp_ret; do 2 eexists; (split; [reflexivity|]); cbn [map_err].
  - rewrite Hr in Hsa', Hm', Hbase, Hbytes |- *. cbn [cs_slot c0] in *. split; [|split; [done|]]; cbn [pm_slot pm_size pm_capacity fst snd].
    + apply inv_live; [done|]. split; cbn; try done; [lia|lia| |].
      * destruct (s_image (pm_slot m)); [|done]. destruct Himg. split; done || lia.
      * eapply mapped_weaken; [done|]. unfold below. lia.
    + cbn [ps_mem]. split_and!; try done; [intros k Hk'; apply Hv|cbn; lia|]. intros k Hk'. etrans; [apply Hbytes; unfold below; lia|]. cbn [s_image with_accessible].
      unfold image_byte. destruct (s_image (pm_slot m)) as [im|]; [|done]. destruct Himg. by rewrite decide_False by lia.
  - rewrite Hr in Hsa', Hm', Hbase |- *. cbn [cs_slot c0] in *. split; [|split; [done|]]; cbn [pm_slot pm_size pm_capacity fst snd].
    + apply inv_live; [done|]. by split.
    + cbn [ps_mem]. split_and!; try done. intros k Hk'. apply Hv.
Qed.

Lemma guest_store_ok st x live k v :
  stable st (x :: live) -> 0 <= k < pm_size x.2 ->
  spec (guest_store x.2 k v) (fun r st' => r = Ok () /\ stable st' (x :: live) /\ kept live (ps_mem st) (ps_mem st') /\
    forall j, guest_byte (ps_mem st') x.2 j = if decide (j = k) then v else guest_byte (ps_mem st) x.2 j) st.
Proof using KernelLaws0 Hlo Hhp.
  intros Hs Hk. destruct (inv_retire _ _ _ _ _ _ _ _ Hs) as [Hinv Hl]. destruct x as [i m]. cbn [fst snd] in *.
  destruct Hl as [Hsa Hd Hsz Hcap Himg Hm]. cbn [fst snd] in *. destruct (sa_ok _ _ _ _ Hsa) as [_ Ha _ _].
  destruct (store_mapped hp Hhp (ps_mem st) (pm_slot m) (below (pm_size m)) (below (pm_size m)) k v) as (a & E & Hlog & Hm' & Hf); [done|lia|lia|done| |].
  { intros Hb. destruct Hb. unfold below. lia. }
  pose proof (store_law (ps_mem st) (s_base (pm_slot m) + k) v) as Hlaw. rewrite E in Hlaw. destruct Hlaw as [_ Hlaw].
  pose proof (store_later hp _ _ _ _ E) as Hlat.
  pose proof (rounded_bounds hp (max_memory_bytes (mp_layout P)) Hhp) as Hrb. rewrite (sa_size _ _ _ _ Hsa) in Ha.
  destruct (inv_mem hp behavior P Hlo st live [ps_queue st] [] i a Hinv Hlat) as [Hi Hk'].
  { intros y Hy. apply Hf. intros ->. apply Hy. unfold region. rewrite <- (sa_base _ _ _ _ Hsa). lia. }
  unfold pwp, guest_store, set_mem. rewrite E. fold (set_ps_mem st a). split_and!; [done|done| |done|].
  - apply inv_live; [done|]. by split.
  - intros j. unfold guest_byte. cbn. rewrite Hlaw. destruct (decide (j = k)) as [->|Hne]; [by rewrite decide_True|by rewrite decide_False by lia].
Qed.

(** ** Purging a module

    The indices that [purge_module] uses are right when there is one stripe. *)

Lemma affine_taken m W j : j ∈ affine_to m W -> (length (affine_to m (filter (fun x => x.1 <> j) W)) < length (affine_to m W))%nat.
Proof.
  intros Hj. apply affine_to_elem in Hj. apply list_elem_of_split in Hj as (W1 & W2 & ->). unfold affine_to.
  assert (Hle : forall W, (length (filter (fun x => x.2 = Some m) (filter (fun x => x.1 <> j) W)) <= length (filter (fun x => x.2 = Some m) W))%nat).
  { intros W. induction W as [|[i b] W IH]; [done|]. rewrite !(filter_cons _ (i, b)).
    destruct (decide ((i, b).1 <> j)); destruct (decide ((i, b).2 = Some m)) as [Hm|Hm]; rewrite ?filter_cons, ?(decide_True _ _ Hm), ?(decide_False _ _ Hm); cbn; lia. }
  rewrite !length_fmap, !list.filter_app, !length_app, (filter_cons _ _ W2), (filter_cons _ (j, Some m) W2).
  rewrite (decide_False (P := (j, Some m).1 <> j)) by (cbn; auto). rewrite (decide_True (P := (j, Some m).2 = Some m)) by done. cbn.
  pose proof (Hle W1). pose proof (Hle W2). lia.
Qed.

Lemma affine_returned m W j : affine_to m (W ++ [(j, None)]) = affine_to m W.
Proof. unfold affine_to. rewrite list.filter_app. cbn. by rewrite app_nil_r. Qed.

Definition one_pool st (T : nat -> Prop) (p : Pool) : Prop := stripes_repr P [p] (ps_stripes st) T.

Lemma pwp_alloc_affine (m : Z * Z) T p Q st :
  stripes P = 1%nat -> one_pool st T p ->
  match choose p (Some m) ForceAffineAndClear with
  | None => (forall inners, stripes_ok P inners T -> Q (Ok None) (with_parts st inners (ps_slots st)))
  | Some i => ~ T i -> (i < total_slots P)%nat -> forall inners, stripes_repr P [take_slot p i None] inners (fun x => x = i \/ T x) ->
      Q (Ok (Some i)) (with_parts st inners (ps_slots st))
  end -> spec (stripe_alloc_affine oc dbg 0 m.1 m.2) Q st.
Proof using Hlo.
  intros H1 Hp HQ. destruct (alloc_stripe hp oc dbg P Hlo (E:=pool_error) _ _ _ 0%nat p (Some m) ForceAffineAndClear Hp ltac:(lia) eq_refl) as (inner & inner' & Hin & Ha & Hs).
  unfold stripe_alloc_affine. apply pwp_bind, pwp_get, pwp_bind. eapply pwp_ok; [by rewrite Hin|]. apply pwp_bind. unfold alloc_affine_and_clear_affinity.
  rewrite <- surjective_pairing. eapply pwp_ok; [done|]. apply pwp_bind. eapply pwp_same; [reflexivity|done|done|]. fold (with_parts st (<[0%nat := inner']> (ps_stripes st)) (ps_slots st)).
  apply pwp_ret. unfold spec_alloc in *. destruct (choose p (Some m) ForceAffineAndClear) as [j|]; cbn [fst snd] in *.
  - destruct Hs as (Hno & Hlt & Hs). rewrite H1, Nat.mul_1_r, Nat.add_0_r in Hno, Hlt. apply HQ; [done..|]. rewrite H1 in Hs.
    rewrite Nat.mul_1_r, Nat.add_0_r in Hs. done.
  - apply HQ. by eexists.
Qed.

Lemma pwp_free_one i T p Q st :
  stripes P = 1%nat -> one_pool st T p -> T i -> p_used p !! i = Some None ->
  (forall inners, stripes_repr P [give_back p i None] inners (fun x => T x /\ x <> i) -> Q (Ok ()) (with_parts st inners (ps_slots st))) ->
  spec (stripe_free oc 0 i) Q st.
Proof using Hlo.
  intros H1 Hp Hi Hu HQ. destruct (free_stripe hp oc P Hlo (E:=pool_error) _ _ _ i Hp Hi) as (inner & inner' & p' & Hin & Hf & Hp' & m & Hm & Hs).
  rewrite H1, Nat.mod_1_r, Nat.div_1_r in *. injection Hp' as <-. rewrite Hu in Hm. injection Hm as <-.
  unfold stripe_free. apply pwp_bind, pwp_get, pwp_bind. eapply pwp_ok; [by rewrite Hin|]. apply pwp_bind. eapply pwp_ok; [done|].
  eapply pwp_same; [reflexivity|done|done|]. by apply HQ.
Qed.

Abbreviation owned live queues hand := (fun i : nat => i ∈ owners live queues hand).

(** What is left when a slot is back in its place, and its index in the stripe. *)
Definition purged st live queues hand p st' : Prop :=
  inv st' live queues hand /\ kept live (ps_mem st) (ps_mem st') /\ same_rest st st' /\ one_pool st' (owned live queues hand) p.

Lemma purge_back st st1 live queues hand i o p slots :
  stripes P = 1%nat -> inv st1 live queues (i :: hand) -> idle (ps_mem st1) i o -> kept live (ps_mem st) (ps_mem st1) -> same_rest st st1 ->
  one_pool st1 (owned live queues (i :: hand)) p -> p_used p !! i = Some None -> slots = <[i := o]> (ps_slots st1) ->
  spec (stripe_free oc 0 i) (fun r st' => r = Ok () /\ purged st live queues hand (give_back p i None) st') (with_parts st1 (ps_stripes st1) slots).
Proof using Hlo.
  intros H1 Hinv Hidle Hk Hq Hp Hu ->. eapply pwp_free_one; [done|exact Hp|cbn beta; rewrite owners_hand; by left|done|].
  intros inners Hs. split; [done|]. split_and!; [|done|done|].
  - eapply (inv_put hp behavior P Hlo st1 live queues hand i o inners Hinv Hidle). by eexists.
  - destruct Hs as [Hl Hr Ht Hus]. split; [done..|]. intros x. rewrite Hus. cbn beta. rewrite owners_hand, list.elem_of_cons.
    pose proof (pi_nodup _ _ _ _ _ _ _ Hinv) as Hnd. rewrite owners_hand in Hnd. apply list.NoDup_cons in Hnd as [Hno _]. split; [tauto|].
    intros Hx. split; [by right|]. by intros ->.
Qed.

Lemma purge_one_ok i p st live queues hand inners :
  stripes P = 1%nat -> inv st live queues hand -> i ∉ owners live queues hand -> (i < total_slots P)%nat ->
  stripes_repr P [p] inners (fun x => x = i \/ x ∈ owners live queues hand) -> p_used p !! i = Some None ->
  spec (purge_one oc P 0 i) (fun r st' => r = Ok () /\ purged st live queues hand (give_back p i None) st') (with_parts st inners (ps_slots st)).
Proof using KernelLaws0 Hlo Hhp.
  intros H1 Hinv Hno Hlt Hp Hu. destruct (lookup_lt_is_Some_2 (ps_slots st) i) as [o Ho]; [by rewrite (pi_slots _ _ _ _ _ _ _ Hinv)|].
  unfold purge_one. apply pwp_bind. eapply pwp_take; [done..|]. cbn [with_parts ps_stripes ps_slots].
  pose proof (inv_take hp behavior P st live queues hand i inners Hinv Hno Hlt ltac:(by eexists)) as Hinv1.
  destruct (pi_idle _ _ _ _ _ _ _ Hinv i o Ho Hno) as (Hsa & Hd & Hm). set (st1 := with_parts st inners (<[i := None]> (ps_slots st))) in *.
  set (s := default (fresh_slot P i) o) in *. set (c0 := {| cs_mem := ps_mem st1; cs_slot := s; cs_queue := [] |} : cow_state A).
  assert (Hnone : forall o', <[i := o']> (ps_slots st1) !! i = Some o') by (intros o'; apply list_lookup_insert_eq; by rewrite (pi_slots _ _ _ _ _ _ _ Hinv1)).
  assert (Hp1 : forall a, one_pool (set_ps_mem st1 a) (owned live queues (i :: hand)) p).
  { intros a. destruct Hp as [Hl Hr Ht Hus]. split; [done..|]. intros x. rewrite Hus. cbn beta. by rewrite owners_hand, list.elem_of_cons. }
  apply pwp_bind. eapply (pwp_on_slot hp behavior P Hlo _ i s (fun _ c => cs_slot c = with_image None s /\ mapped hp (cs_mem c) (cs_slot c) clean)); [exact Hinv1|done| |].
  { fold c0. eapply (wp_remove_image hp Hhp); [apply framed_refl, Hsa|done|]. intros c Hfr Hs Hq Hmc. by split. }
  intros c r Hinv2 Hk2 Hsa2 Hr. apply pwp_bind. assert (Hfill : ps_slots st1 !! i = Some None) by (apply list_lookup_insert_eq; by rewrite (pi_slots _ _ _ _ _ _ _ Hinv)).
  destruct r as [u|e|]; [| |done].
  - destruct Hr as [Hs2 Hm2]. apply pwp_return; [by rewrite Hs2|done|]. eapply (purge_back st (set_ps_mem st1 (cs_mem c))); try done.
    split_and!; [done|by rewrite Hs2|done].
  - eapply (pwp_drop hp behavior P Hhp Hlo i); [exact Hinv2|done|]. intros a Hinv3 Hk3 Hid3.
    pose proof (purge_back st (set_ps_mem (set_ps_mem st1 (cs_mem c)) a) live queues hand i None p (ps_slots st1) H1 Hinv3 Hid3) as Hback.
    apply Hback; try done; [by eapply keeps_trans|exact (Hp1 a)|]. symmetry. by apply list_insert_id.
Qed.

Lemma purge_affine_ok fuel (m : Z * Z) st live queues hand p :
  stripes P = 1%nat -> inv st live queues hand -> one_pool st (owned live queues hand) p -> (length (affine_to m (p_warm p)) < fuel)%nat ->
  spec (purge_affine oc dbg P fuel 0 m.1 m.2) (fun r st' => r = Ok () /\ inv st' live queues hand /\ kept live (ps_mem st) (ps_mem st') /\ same_rest st st') st.
Proof using KernelLaws0 Hlo Hhp.
  intros H1. revert st p. induction fuel as [|fuel IH]; intros st p Hinv Hp Hlen; [lia|]. cbn [purge_affine]. apply pwp_bind.
  eapply pwp_alloc_affine; [done..|]. destruct (choose p (Some m) ForceAffineAndClear) as [i|] eqn:Hc.
  - intros Hno Hlt inners Hs. apply pwp_bind. eapply pwp_mono; [eapply purge_one_ok; [done..|]|].
    + cbn. by rewrite lookup_insert_eq.
    + cbn beta. intros r st1 (-> & Hi1 & Hk1 & [Hq1 Hl1] & Hp1). eapply pwp_mono; [eapply IH; [done|exact Hp1|]|].
      * cbn [give_back take_slot p_warm]. rewrite affine_returned. assert (Hel : i ∈ affine_to m (p_warm p)).
        { unfold choose in Hc. cbn [mbind option_bind] in Hc. destruct (list.last (affine_to m (p_warm p))) eqn:Hla; [|done].
          injection Hc as ->. by apply last_Some_elem_of. }
        pose proof (affine_taken m (p_warm p) i Hel). lia.
      * cbn beta. intros r st2 (-> & Hi2 & Hk2 & [Hq2 Hl2]). split_and!; [done..|by eapply keeps_trans|split; congruence].
  - intros inners Hs. apply pwp_ret. split_and!; try done. destruct Hinv. by split.
Qed.

Lemma for_each_ok {X} (f : X -> pool A L ()) l (R : pool_state A L -> pool_state A L -> Prop) (I : pool_state A L -> Prop) st :
  (forall st, R st st) -> (forall st1 st2 st3, R st1 st2 -> R st2 st3 -> R st1 st3) -> (forall x st, I st -> spec (f x) (fun r st' => r = Ok () /\ I st' /\ R st st') st) ->
  I st -> spec (for_each f l) (fun r st' => r = Ok () /\ I st' /\ R st st') st.
Proof.
  intros Hrefl Htrans Hf. revert st. induction l as [|x l IH]; intros st HI; [by apply pwp_ret|]. cbn [for_each]. apply pwp_bind.
  eapply pwp_mono; [by apply Hf|]. cbn beta. intros r st1 (-> & HI1 & HR1). eapply pwp_mono; [by apply IH|]. cbn beta.
  intros r st2 (-> & HI2 & HR2). split_and!; [done..|by eapply Htrans].
Qed.

Lemma purge_module_ok module st live :
  stripes P = 1%nat -> stable st live ->
  spec (purge_module oc dbg P module) (fun r st' => r = Ok () /\ stable st' live /\ kept live (ps_mem st) (ps_mem st')) st.
Proof using KernelLaws0 Hlo Hhp.
  intros H1 Hs. unfold purge_module. apply pwp_bind, pwp_get. pose proof (stripes_length _ _ _ (pi_stripes _ _ _ _ _ _ _ Hs)) as Hlen. rewrite Hlen, H1. cbn [seq].
  set (R st st' := kept live (ps_mem st) (ps_mem st') /\ same_rest st st'). set (I st := stable st live).
  assert (Hrefl : forall st, R st st) by done.
  assert (Htrans : forall st1 st2 st3, R st1 st2 -> R st2 st3 -> R st1 st3).
  { intros st1 st2 st3 [Hk [Hq Hl]] [Hk' [Hq' Hl']]. split; [by eapply keeps_trans|split; congruence]. }
  assert (Hin : forall i st, I st -> spec (purge_affine oc dbg P (S (Z.to_nat (num_slots (mp_layout P)))) 0 module (Z.of_nat i)) (fun r st' => r = Ok () /\ I st' /\ R st st') st).
  { intros i st1 Hs1. destruct (pi_stripes _ _ _ _ _ _ _ Hs1) as [pools Hp]. pose proof (sp_length _ _ _ _ Hp) as Hl. rewrite H1 in Hl.
    destruct pools as [|p [|]]; try done. eapply pwp_mono; [apply (purge_affine_ok _ (module, Z.of_nat i) st1 live [ps_queue st1] [] p); [done..|]|].
    - destruct (Forall2_lookup_l _ _ _ 0%nat p (sp_repr _ _ _ _ Hp) eq_refl) as (inner & _ & Hr).
      pose proof (warm_length _ _ (r_states _ _ Hr) (r_nodup _ _ Hr)) as Hw. rewrite (sp_total _ _ _ _ Hp 0%nat p eq_refl) in Hw.
      assert (Hss : stripe_slots (mp_layout P) 0 = Z.to_nat (num_slots (mp_layout P))).
      { unfold stripe_slots. fold (stripes P). rewrite H1, Nat.div_1_r, Nat.mod_1_r. cbn. lia. }
      unfold affine_to. rewrite length_fmap. pose proof (length_filter (fun x : nat * option (Z * Z) => x.2 = Some (module, Z.of_nat i)) (p_warm p)). lia.
    - cbn beta. intros r st2 (-> & Hi2 & Hk2 & [Hq2 Hl2]). split_and!; [done| |by split]. unfold I, steady. by rewrite Hq2. }
  cbn [for_each]. apply pwp_bind. eapply pwp_mono; [by apply (for_each_ok _ _ R I)|]. cbn beta. intros r st' (-> & HI & [Hk _]). by apply pwp_ret.
Qed.
End World.
