(* ===== verification/SlabLayout.v ===== *)
(** * The layout of the slab

    What [calculate] of [memory_pool.rs] promises: slots are whole pages with room for a
    memory, and from the start of a slot the next bytes up to the size of a faulting
    region are in the slab and are not in another slot of the same stripe. *)

From Stdlib Require Import ZArith Lia.
From stdpp Require Import base list gmap numbers option.
From S2P Require Import Prelude MemoryTypes Mappings LinearMemory IndexAllocator MemoryInit Cow CowInv MemoryPool PoolInv.
Open Scope Z_scope.

Section Layout.
  Context (hp : Z) (oc dbg : bool) (k : Z) (Hk : 0 < k < 64) (Hhp : hp = 2 ^ k).

Lemma hp_large : 2 <= hp.
Proof using Hk Hhp. subst hp. change 2 with (2 ^ 1) at 1. apply Z.pow_le_mono_r; lia. Qed.

(** Sizes are those of the machine; the guard and the reservation are whole pages. *)
Record constraints_ok (c : SlabConstraints) : Prop := {
  co_expected : 0 <= expected_slot_bytes c < 2 ^ 64;
  co_expected_page : expected_slot_bytes c mod hp = 0;
  co_guard : 0 <= guard_bytes c < 2 ^ 64;
  co_guard_page : guard_bytes c mod hp = 0;
  co_max : 0 <= c_max_memory_bytes c <= expected_slot_bytes c;
  co_slots : 0 <= c_num_slots c < 2 ^ 32;
  co_keys : 0 <= num_pkeys_available c <= hp
}.

(** How far compiled code can reach from the start of a memory. *)
Definition faulting_region (c : SlabConstraints) : Z := Z.max (expected_slot_bytes c) (c_max_memory_bytes c) + guard_bytes c.

Lemma round_slot s r : 0 <= s -> (b ← checked 64 (s + (hp - 1)); Some (Z.ldiff b (hp - 1))) = Some r -> r = rounded hp s /\ s + (hp - 1) < 2 ^ 64.
Proof using Hk Hhp.
  intros Hs Hr. destruct (checked 64 (s + (hp - 1))) as [b|] eqn:Hb; [|done]. apply checked_Some in Hb as [Hu ->]. injection Hr as <-.
  unfold in_u in Hu. split; [|lia]. replace (hp - 1) with (Z.ones k) by (rewrite Z.ones_equiv, Hhp; lia).
  rewrite Z.ldiff_ones_r, Z.shiftl_mul_pow2, Z.shiftr_div_pow2 by lia. unfold rounded. rewrite Z.ones_equiv, Hhp. by do 2 f_equal.
Qed.

(** A share of the region, rounded up to pages, covers its part when there are at most
    as many shares as bytes in a page. *)
Lemma shares_cover n F : 0 < n <= hp -> F mod hp = 0 -> 0 <= F -> F <= n * rounded hp (F / n).
Proof using Hk Hhp.
  intros Hn Hp HF. pose proof hp_large as Hl. apply Z.div_exact in Hp; [|lia]. set (f := F / hp) in *. set (q := F / n).
  pose proof (Z.div_mod F n ltac:(lia)) as Hd. pose proof (Z.mod_pos_bound F n ltac:(lia)) as Hm. fold q in Hd.
  destruct (rounded_bounds hp q ltac:(lia)) as [Hr1 Hr2]. pose proof (rounded_aligned hp ltac:(lia) q) as Hra. apply Z.div_exact in Hra; [|lia].
  set (m := rounded hp q / hp) in *. assert (Hlt : hp * f < hp * (m * n) + n) by nia. assert (Hle : f <= m * n) by nia. nia.
Qed.

Record share_ok (c : SlabConstraints) (F n s : Z) : Prop := {
  sh_pos : 0 < n <= hp;
  sh_slots : n = 1 \/ n <= c_num_slots c;
  sh_max : c_max_memory_bytes c <= s <= F;
  sh_share : F / n <= s
}.

Lemma stripes_and_slot_ok {E} c F :
  constraints_ok c -> c_max_memory_bytes c <= F < 2 ^ 64 ->
  exists n s, stripes_and_slot (E:=E) oc c F = Ok (n, s) /\ share_ok c F n s.
Proof using Hk Hhp.
  intros Hc HF. pose proof hp_large as Hl. destruct Hc. set (max := c_max_memory_bytes c) in *.
  assert (Hone : exists n s, Ok (E:=E) (1, F) = Ok (n, s) /\ share_ok c F n s).
  { exists 1, F. split; [done|]. split; fold max; [lia|by left|lia|]. rewrite Z.div_1_r. lia. }
  unfold stripes_and_slot. fold max. destruct ((guard_bytes c =? 0) || (max =? 0) || (c_num_slots c =? 0)) eqn:Hz; [done|].
  destruct (Z.ltb_spec (num_pkeys_available c) 2) as [Hk2|Hk2]; [done|]. apply orb_false_iff in Hz as [[_ Hz]%orb_false_iff Hn].
  apply Z.eqb_neq in Hz, Hn. pose proof (Z.div_mod F max ltac:(lia)) as Hd. pose proof (Z.mod_pos_bound F max ltac:(lia)) as Hm.
  set (needed := F / max + (if F mod max =? 0 then 0 else 1)).
  assert (Hneeded : 0 < needed < 2 ^ 64).
  { unfold needed. destruct (Z.eqb_spec (F mod max) 0); nia. }
  rewrite arith_ok by (unfold in_u; lia). cbn [mbind outcome_bind]. rewrite (proj2 (Z.ltb_lt 0 needed)) by lia. cbn [assert_ mbind outcome_bind].
  set (n := Z.min (Z.min (num_pkeys_available c) needed) (c_num_slots c)). assert (Hn1 : 1 <= n <= c_num_slots c /\ n <= hp) by (unfold n; lia).
  rewrite (proj2 (Z.eqb_neq n 0)) by lia. rewrite (proj2 (Z.leb_le max (Z.max (F / n) max))) by lia. cbn [assert_ mbind outcome_bind].
  exists n, (Z.max (F / n) max). split; [done|]. split; fold max; try lia. pose proof (Z.div_le_upper_bound F n F ltac:(lia) ltac:(nia)). lia.
Qed.

(** The layout of the slab. *)
Record slab_ok (c : SlabConstraints) (l : SlabLayout) : Prop := {
  sl_slots : num_slots l = c_num_slots c;
  sl_max : max_memory_bytes l = c_max_memory_bytes c;
  sl_page : slot_bytes l mod hp = 0;
  sl_room : rounded hp (max_memory_bytes l) <= slot_bytes l;
  sl_stripes : 0 < num_stripes l;
  sl_pre : pre_slab_guard_bytes l = if guard_before_slots c then guard_bytes c else 0;
  sl_pre_page : pre_slab_guard_bytes l mod hp = 0;
  sl_post : 0 <= post_slab_guard_bytes l;
  sl_post_page : post_slab_guard_bytes l mod hp = 0;
  sl_total : pre_slab_guard_bytes l + num_slots l * slot_bytes l + post_slab_guard_bytes l < 2 ^ 64;
  sl_stripe_reach : faulting_region c <= slot_bytes l * num_stripes l < 2 ^ 64;
  sl_slab_reach : faulting_region c <= slot_bytes l + post_slab_guard_bytes l
}.

Lemma total_slab_ok l t : total_slab_bytes l = Ok t ->
  t = slot_bytes l * num_slots l + pre_slab_guard_bytes l + post_slab_guard_bytes l /\ t < 2 ^ 64 /\ slot_bytes l * num_slots l < 2 ^ 64.
Proof.
  unfold total_slab_bytes. destruct (checked 64 (slot_bytes l * num_slots l)) as [a|] eqn:Ha; [|done]. apply checked_Some in Ha as [Hu ->]. cbn [mbind option_bind].
  destruct (checked 64 (_ + pre_slab_guard_bytes l)) as [b|] eqn:Hb; [|done]. apply checked_Some in Hb as [Hu' ->]. cbn [mbind option_bind].
  destruct (checked 64 (_ + post_slab_guard_bytes l)) as [d|] eqn:Hd; [|done]. apply checked_Some in Hd as [Hu'' ->]. cbn. intros [= <-].
  unfold in_u in *. lia.
Qed.

Lemma calculate_ok c :
  constraints_ok c ->
  match calculate hp oc c with
  | Ok l => slab_ok c l
  | Err _ => True
  | Panic => False
  end.
Proof using Hk Hhp.
  intros Hc. pose proof hp_large as Hl. pose proof Hc as []. unfold calculate. set (F := saturating_add _ _).
  assert (HF : c_max_memory_bytes c <= F < 2 ^ 64) by (unfold F, saturating_add, u64_max; lia).
  destruct (stripes_and_slot_ok (E:=pool_error) c F Hc HF) as (n & s & -> & [Hn Hns Hmax Hshare]). cbn [mbind outcome_bind].
  destruct (b ← checked 64 (s + (hp - 1)); Some (Z.ldiff b (hp - 1))) as [slot|] eqn:Hslot; [|done]. cbn [ok_or mbind outcome_bind].
  apply round_slot in Hslot as [-> Hs]; [|lia]. destruct (rounded_bounds hp s ltac:(lia)) as [Hr Hrp]. set (slot := rounded hp s) in *.
  pose proof (rounded_mono hp (F / n) s ltac:(lia) Hshare) as Hmono. pose proof (rounded_mono hp _ _ ltac:(lia) (proj1 Hmax)) as Hroom.
  match goal with |- context [total_slab_bytes ?x] => set (l := x) end. destruct (total_slab_bytes l) as [t|e|] eqn:Ht; cbn [mbind outcome_bind]; [| done|].
  2: { unfold total_slab_bytes in Ht. by destruct (checked 64 _ ≫= _). }
  apply total_slab_ok in Ht as (-> & Ht & Hts). cbn in Ht, Hts.
  assert (Hpost : F <= slot + post_slab_guard_bytes l) by (cbn; unfold saturating_sub; lia).
  assert (Hexact : F = faulting_region c).
  { unfold F, saturating_add, faulting_region, u64_max in *. destruct (Z.min_spec (2 ^ 64 - 1) (Z.max (expected_slot_bytes c) (c_max_memory_bytes c) + guard_bytes c)) as [[Hlt Heq]|[_ Heq]]; [|done].
    exfalso. rewrite Heq in *. destruct (decide (n = 1)) as [->|Hn1]; [rewrite Z.div_1_r in Hshare; lia|].
    destruct Hns as [?|Hns]; [done|]. assert (Hhp63 : hp <= 2 ^ 63) by (rewrite Hhp; apply Z.pow_le_mono_r; lia).
    pose proof (Z.div_str_pos (2 ^ 64 - 1) n ltac:(lia)) as Hpos. assert (H2 : slot * 2 <= slot * c_num_slots c) by (apply Z.mul_le_mono_nonneg_l; lia).
    unfold saturating_sub in Ht. destruct (guard_before_slots c); lia. }
  assert (HFp : F mod hp = 0).
  { rewrite Hexact. unfold faulting_region. rewrite Z.max_l by lia. apply aligned_add; lia || done. }
  pose proof (shares_cover n F Hn HFp ltac:(lia)) as Hcover. split; cbn; try done || lia.
  - destruct (guard_before_slots c); [done|]. apply Z.mod_0_l. lia.
  - unfold saturating_sub. lia.
  - unfold saturating_sub. destruct (Z.max_spec 0 (F - slot)) as [[_ ->]|[_ ->]]; [|apply Z.mod_0_l; lia].
    apply (aligned_sub hp ltac:(lia) slot); [by replace (slot + (F - slot)) with F by lia|done].
  - rewrite <- Hexact. split; [|destruct Hns as [->|Hns]; [lia|]].
    + pose proof (Z.mul_le_mono_nonneg_l _ _ n ltac:(lia) Hmono). lia.
    + pose proof (Z.mul_le_mono_nonneg_l _ _ slot ltac:(lia) Hns). lia.
  - rewrite <- Hexact. exact Hpost.
Qed.

(** ** New pools *)

Record config_ok (sys : os) (limits : InstanceLimits) (t : Tunables) (keep keys : Z) : Prop := {
  cf_reservation : 0 <= static_memory_reservation t < 2 ^ 63;
  cf_guard : 0 <= static_memory_offset_guard_size t < 2 ^ 63;
  cf_max : 0 <= max_memory_size limits;
  cf_memories : 0 <= total_memories limits < 2 ^ 32;
  cf_keep : 0 <= keep <= 2 ^ 63 - hp;
  cf_keys : 0 <= keys <= hp;
  cf_os : forall n b, os_reserve sys n = Some b -> b mod hp = 0
}.

Lemma constraints_new_ok sys limits t keep keys pkeys :
  config_ok sys limits t keep keys -> max_memory_size limits <= static_memory_reservation t -> 0 <= pkeys <= hp ->
  match constraints_new hp dbg limits t pkeys with
  | Ok c => constraints_ok c /\ c_max_memory_bytes c = max_memory_size limits /\ c_num_slots c = total_memories limits /\
      static_memory_reservation t + static_memory_offset_guard_size t <= faulting_region c
  | Err _ => True
  | Panic => False
  end.
Proof using Hk Hhp.
  intros [] Hmax Hp. pose proof hp_large as Hl. unfold constraints_new.
  rewrite !(round_up_ok hp dbg _ k) by lia. assert (Hround : forall x, 0 <= x -> x <= rounded hp x /\ rounded hp x mod hp = 0 /\ rounded hp x < x + hp).
  { intros x Hx. destruct (rounded_bounds hp x ltac:(lia)). lia. }
  assert (Hhp63 : hp <= 2 ^ 63) by (rewrite Hhp; apply Z.pow_le_mono_r; lia).
  destruct (Hround _ (proj1 cf_reservation0)) as (H1 & H1p & H1u). destruct (Hround _ (proj1 cf_guard0)) as (H2 & H2p & H2u).
  destruct (static_memory_reservation t + (hp - 1) <? 2 ^ 64); [|exact I]. destruct (static_memory_offset_guard_size t + (hp - 1) <? 2 ^ 64); [|exact I].
  cbn [map_err mbind outcome_bind].
  split_and!; try done; [split; cbn; done || lia|]. unfold faulting_region. cbn. lia.
Qed.

(** The slab is reserved and nothing of it can be used. *)
Definition reserved {A} `{!Kernel A} (a : A) (P : MemoryPool) : Prop :=
  forall y, mp_mapping P <= y < mp_mapping P + slab_bytes P -> cell_at a y = {| c_access := false; c_value := 0; c_origin := 0 |}.

Lemma slab_layout_ok c l b pkeys n keep batch :
  constraints_ok c -> slab_ok c l -> c_max_memory_bytes c < 2 ^ 63 -> b mod hp = 0 -> 0 <= keep < 2 ^ 63 -> keep mod hp = 0 ->
  layout_ok hp {| mp_mapping := b; mp_layout := l; mp_num_pkeys := pkeys; mp_memories_per_instance := n; mp_keep_resident := keep; decommit_batch_size := batch |}.
Proof using Hk Hhp.
  intros Hc [] Hm Hb Hkeep Hkp. pose proof hp_large. destruct Hc. split; cbn; try done; try lia.
  - apply aligned_add; done || lia.
  - unfold faulting_region in *. lia.
Qed.

Section New.
  Context {A L : Type} `{!Kernel A} `{!KernelLaws A hp} (behavior : DecommitBehavior) (P : MemoryPool) (Hlo : layout_ok hp P).
  Context (Hpre : 0 <= pre_slab_guard_bytes (mp_layout P)) (Hpost : 0 <= post_slab_guard_bytes (mp_layout P)).

Lemma region_in_slab i y : (i < total_slots P)%nat -> region hp P i y -> mp_mapping P <= y < mp_mapping P + slab_bytes P.
Proof using Hlo Hpre Hpost Hk Hhp.
  destruct Hlo. pose proof hp_large. pose proof (rounded_bounds hp (max_memory_bytes (mp_layout P)) ltac:(lia)) as Hr.
  unfold region, slot_base, slab_bytes, total_slots. intros Hi Hy.
  assert (Hn : (Z.of_nat i + 1) * slot_bytes (mp_layout P) <= num_slots (mp_layout P) * slot_bytes (mp_layout P)) by (apply Z.mul_le_mono_nonneg_r; lia).
  assert (Hi0 : 0 <= Z.of_nat i * slot_bytes (mp_layout P)) by lia. lia.
Qed.

Lemma fresh_idle (a : A) i : reserved a P -> (i < total_slots P)%nat -> idle_ok hp P a i None.
Proof using Hlo Hpre Hpost Hk Hhp.
  pose proof hp_large as Hl. intros Hr Hi. split_and!; [apply fresh_slot_at; done || lia|done|]. intros x Hx. cbn in Hx |- *.
  rewrite Hr by (apply (region_in_slab i); [done|unfold region; lia]). split_and!; [done| |done]. split; cbn; [|done].
  unfold rounded. rewrite Z.div_small; lia.
Qed.

Lemma new_stripes_ok mw : 0 <= mw ->
  stripes_ok P ((fun i => IndexAllocator.new (stripe_slots (mp_layout P) i) mw) <$> seq 0 (stripes P)) (fun _ => False).
Proof using Hlo Hk Hhp.
  intros Hmw. exists ((fun i => pool_new (stripe_slots (mp_layout P) i) mw) <$> seq 0 (stripes P)). split.
  - by rewrite length_fmap, length_seq.
  - apply Forall2_fmap, Forall_Forall2_diag, list.Forall_forall. intros i Hi. apply new_repr; [|done]. destruct Hlo.
    apply list_elem_of_In, in_seq in Hi.
    assert (Hs : (stripe_slots (mp_layout P) i <= total_slots P)%nat).
    { destruct (stripe_slots (mp_layout P) i) as [|j] eqn:Hj; [lia|]. assert (Hlt : (j < stripe_slots (mp_layout P) i)%nat) by lia.
      apply stripe_slots_spec in Hlt; [|lia]. nia. }
    unfold total_slots in Hs. lia.
  - intros k' p Hp. rewrite list_lookup_fmap in Hp. destruct (seq 0 (stripes P) !! k') as [j|] eqn:Hj; [|done].
    apply lookup_seq in Hj as [-> _]. by injection Hp as <-.
  - intros i. split; [|done]. intros (p & Hp & Hu). rewrite list_lookup_fmap in Hp. destruct (seq 0 (stripes P) !! _); [|done]. injection Hp as <-.
    cbn in Hu. rewrite lookup_empty in Hu. by destruct Hu.
Qed.

Lemma new_inv (a : A) (store : option L) mw : reserved a P -> 0 <= mw ->
  pool_inv hp behavior P {| ps_mem := a; ps_stripes := (fun i => IndexAllocator.new (stripe_slots (mp_layout P) i) mw) <$> seq 0 (stripes P);
    ps_slots := replicate (total_slots P) None; ps_queue := queue_default; ps_next_pkey := 0; ps_limits := store |} [] [queue_default] [].
Proof using Hlo Hpre Hpost Hk Hhp.
  intros Hr Hmw. split; cbn.
  - eapply stripes_ok_ext; [by apply new_stripes_ok|]. intros i. split; [done|]. apply not_elem_of_nil.
  - constructor.
  - by apply length_replicate.
  - intros i o Ho _. apply lookup_replicate in Ho as [-> Hi]. by apply fresh_idle.
  - intros i Hi. by apply not_elem_of_nil in Hi.
  - constructor.
  - constructor; [|constructor]. split; cbn; [by intros r Hr'%not_elem_of_nil|by intros i s Hs%not_elem_of_nil|done].
  - intros y [Hy _]. by rewrite Hr.
Qed.
End New.

Lemma mpk_keys_ok enabled supported keys n : 0 <= keys <= hp -> mpk_keys enabled supported keys = Ok n -> 0 <= n <= hp.
Proof using Hk Hhp. pose proof hp_large. intros Hkeys. unfold mpk_keys. destruct enabled, supported; intros [= <-]; lia. Qed.

Lemma reserved_base sys n m :
  n mod hp = 0 -> 0 <= n -> (forall n b, os_reserve sys n = Some b -> b mod hp = 0) -> accessible_reserved hp sys 0 n = Ok m -> base m mod hp = 0.
Proof using Hk Hhp.
  intros Hn H0 Hos. pose proof hp_large. unfold accessible_reserved.
  rewrite (proj2 (Z.leb_le 0 n)) by lia. destruct (usize_is_multiple_of_host_page_size hp n), (usize_is_multiple_of_host_page_size hp 0); [|done..].
  cbn [assert_ mbind outcome_bind]. destruct (Z.eqb_spec n 0) as [->|Hne]; [intros [= <-]; cbn; apply Z.mod_same; lia|].
  destruct (os_reserve sys n) as [b|] eqn:Hb; [|done]. rewrite (proj2 (Z.eqb_neq 0 n)) by lia. apply Hos in Hb. by intros [= <-].
Qed.

(** What is known of a new pool: its layout, how far compiled code can reach in it, and
    its state. *)
Record new_pool {A L} (tunables : Tunables) (a : A) (store : option L) (mw : Z) (P : MemoryPool) (st0 : pool_state A L) : Prop := {
  np_layout : layout_ok hp P;
  np_pre : 0 <= pre_slab_guard_bytes (mp_layout P);
  np_post : 0 <= post_slab_guard_bytes (mp_layout P);
  np_stripe : static_memory_reservation tunables + static_memory_offset_guard_size tunables <= slot_bytes (mp_layout P) * num_stripes (mp_layout P);
  np_slab : static_memory_reservation tunables + static_memory_offset_guard_size tunables <= slot_bytes (mp_layout P) + post_slab_guard_bytes (mp_layout P);
  np_state : st0 = {| ps_mem := a; ps_stripes := (fun i => IndexAllocator.new (stripe_slots (mp_layout P) i) mw) <$> seq 0 (stripes P);
    ps_slots := replicate (total_slots P) None; ps_queue := queue_default; ps_next_pkey := 0; ps_limits := store |}
}.

Lemma memory_pool_new_ok {A L} sys (a : A) (store : option L) limits t mw keep batch enabled supported keys P st0 :
  config_ok sys limits t keep keys ->
  memory_pool_new hp oc dbg sys a store limits t mw keep batch enabled supported keys = Ok (P, st0) -> new_pool t a store mw P st0.
Proof using Hk Hhp.
  intros Hcf. pose proof hp_large as Hl. assert (Hhp63 : hp <= 2 ^ 63) by (rewrite Hhp; apply Z.pow_le_mono_r; lia).
  unfold memory_pool_new. destruct (Z.ltb_spec (static_memory_reservation t) (max_memory_size limits)) as [|Hmax]; [done|].
  destruct (mpk_keys enabled supported keys) as [pkeys| |] eqn:Hkeys; [|done..]. apply mpk_keys_ok in Hkeys; [|apply Hcf]. cbn [mbind outcome_bind].
  pose proof (constraints_new_ok sys limits t keep keys pkeys Hcf Hmax Hkeys) as Hc. destruct (constraints_new hp dbg limits t pkeys) as [c| |]; [|done..].
  destruct Hc as (Hc & Hcm & Hcn & Hcf'). cbn [mbind outcome_bind]. pose proof (calculate_ok c Hc) as Hsl. destruct (calculate hp oc c) as [l| |]; [|done..].
  cbn [mbind outcome_bind]. destruct (total_slab_bytes l) as [total| |] eqn:Htot; [|done..]. cbn [mbind outcome_bind].
  apply total_slab_ok in Htot as (Htot & _). destruct Hcf.
  assert (Hnn : 0 <= total /\ 0 <= pre_slab_guard_bytes l).
  { destruct Hsl, Hc. destruct (rounded_bounds hp (max_memory_bytes l) ltac:(lia)). rewrite sl_pre0 in *. destruct (guard_before_slots c); nia. }
  assert (Htp : total mod hp = 0).
  { destruct Hsl. rewrite Htot. repeat apply aligned_add; try done || lia. rewrite Z.mul_mod, sl_page0 by lia. apply Z.mod_0_l. lia. }
  destruct (accessible_reserved hp sys 0 total) as [m| |] eqn:Hres; [|done..]. apply reserved_base in Hres; [|done|lia|done]. cbn [map_err mbind outcome_bind].
  rewrite (round_up_ok hp dbg _ k) by lia. destruct (keep + (hp - 1) <? 2 ^ 64) eqn:Hkeep; [|done]. cbn [map_err mbind outcome_bind]. intros [= <- <-].
  pose proof Hsl as []. split; cbn; try done; try lia.
  destruct (rounded_bounds hp keep ltac:(lia)) as [Hr1 Hr2]. apply (slab_layout_ok c); done || lia.
Qed.

(** ** Slabs *)

Lemma checked_fits w z : in_u w z -> checked w z = Some z.
Proof. intros Hz. by apply checked_Some. Qed.

(** A slab of moderate size has a layout. *)
Lemma calculate_succeeds c :
  constraints_ok c -> guard_bytes c + faulting_region c + c_num_slots c * (faulting_region c + hp) + hp < 2 ^ 64 -> exists l, calculate hp oc c = Ok l.
Proof using Hk Hhp.
  intros Hc Hsz. pose proof hp_large as Hl. pose proof Hc as []. assert (HF0 : 0 <= faulting_region c) by (unfold faulting_region; lia).
  assert (Hn0 : 0 <= c_num_slots c * (faulting_region c + hp)) by (apply Z.mul_nonneg_nonneg; lia).
  assert (HF : saturating_add (Z.max (expected_slot_bytes c) (c_max_memory_bytes c)) (guard_bytes c) = faulting_region c).
  { unfold saturating_add, u64_max. fold (faulting_region c). lia. }
  unfold calculate. rewrite HF. destruct (stripes_and_slot_ok (E:=pool_error) c (faulting_region c) Hc) as (n & s & -> & [Hn Hns Hmax Hshare]); [unfold faulting_region in *; lia|].
  assert (Hround : (b ← checked 64 (s + (hp - 1)); Some (Z.ldiff b (hp - 1))) = Some (rounded hp s)).
  { destruct (b ← checked 64 (s + (hp - 1)); Some (Z.ldiff b (hp - 1))) as [r|] eqn:Hr; [by apply round_slot in Hr as [-> _]; [|lia]|].
    rewrite (checked_fits 64) in Hr by (unfold in_u; lia). done. }
  cbn [mbind outcome_bind]. rewrite Hround. cbn [ok_or mbind outcome_bind]. destruct (rounded_bounds hp s ltac:(lia)) as [Hb _]. set (slot := rounded hp s) in *.
  assert (Hmul : 0 <= slot * c_num_slots c <= c_num_slots c * (faulting_region c + hp)) by nia.
  assert (Hpost : 0 <= saturating_sub (faulting_region c) slot <= faulting_region c) by (unfold saturating_sub; lia).
  unfold total_slab_bytes. cbn [slot_bytes num_slots pre_slab_guard_bytes post_slab_guard_bytes].
  rewrite (checked_fits 64 (slot * c_num_slots c)) by (unfold in_u; lia). cbn [mbind option_bind].
  assert (Hpre : 0 <= (if guard_before_slots c then guard_bytes c else 0) <= guard_bytes c) by (destruct (guard_before_slots c); lia).
  rewrite (checked_fits 64 (_ + (if guard_before_slots c then _ else _))) by (unfold in_u; lia). cbn [mbind option_bind].
  rewrite checked_fits by (unfold in_u; lia). cbn [ok_or mbind outcome_bind]. by eexists.
Qed.

(** C26: The layout of the slab: computing it never panics, whatever the limits and the
    protection keys, and succeeds unless the slab would fill the address space.  Slots
    are whole pages with room for a memory; from the start of any slot, every byte within
    reach of compiled code lies in the slab, and in no other slot of the same stripe. *)
Theorem slab_layout_reach c :
  constraints_ok c ->
  calculate hp oc c <> Panic /\
  (guard_bytes c + faulting_region c + c_num_slots c * (faulting_region c + hp) + hp < 2 ^ 64 -> exists l, calculate hp oc c = Ok l) /\
  forall l, calculate hp oc c = Ok l ->
    slot_bytes l mod hp = 0 /\ rounded hp (c_max_memory_bytes c) <= slot_bytes l /\ num_slots l = c_num_slots c /\ 0 < num_stripes l /\
    forall i y, 0 <= i < num_slots l -> 0 <= y < faulting_region c ->
      0 <= pre_slab_guard_bytes l + i * slot_bytes l + y < pre_slab_guard_bytes l + num_slots l * slot_bytes l + post_slab_guard_bytes l /\
      forall i', 0 <= i' -> i' <> i -> i' mod num_stripes l = i mod num_stripes l ->
        ~ (i' * slot_bytes l <= i * slot_bytes l + y < i' * slot_bytes l + c_max_memory_bytes c).
Proof using Hk Hhp.
  intros Hc. pose proof (calculate_ok c Hc) as Hcalc. split; [by destruct (calculate hp oc c)|]. split; [by apply calculate_succeeds|].
  intros l Hl. rewrite Hl in Hcalc. destruct Hcalc as [Hs Hm Hp Hr Hst Hpre Hprep Hpost Hpostp Htot Hsr Hslr]. rewrite Hm in Hr. split_and!; [done..|].
  pose proof hp_large. destruct Hc. destruct (rounded_bounds hp (c_max_memory_bytes c) ltac:(lia)) as [Hb _].
  assert (Hpre0 : 0 <= pre_slab_guard_bytes l) by (rewrite Hpre; destruct (guard_before_slots c); lia).
  intros i y Hi Hy. split.
  - assert (Hle : (i + 1) * slot_bytes l <= num_slots l * slot_bytes l) by (apply Z.mul_le_mono_nonneg_r; lia).
    assert (0 <= i * slot_bytes l) by (apply Z.mul_nonneg_nonneg; lia). lia.
  - intros i' Hi' Hne Hmod Hin. set (n := num_stripes l) in *. pose proof (Z.div_mod i n ltac:(lia)) as E1. pose proof (Z.div_mod i' n ltac:(lia)) as E2. rewrite Hmod in E2.
    set (q := i / n) in *. set (q' := i' / n) in *. set (b := slot_bytes l) in *. assert (Hb0 : 0 < b) by lia.
    assert (Hlow : i < i' + 1) by (apply (Z.mul_lt_mono_pos_r b); lia). assert (Hhigh : i' < i + n) by (apply (Z.mul_lt_mono_pos_r b); lia).
    assert (Hq : q < q') by (apply (Z.mul_lt_mono_pos_l n); lia). assert (Hnq : n * (q + 1) <= n * q') by (apply Z.mul_le_mono_nonneg_l; lia). lia.
Qed.
End Layout.

(** Two keys for two slots: each is smaller than what compiled code can reach. *)
Lemma slab_layout_reach_witness :
  let c := {| expected_slot_bytes := 16; c_max_memory_bytes := 8; c_num_slots := 2; num_pkeys_available := 2; guard_bytes := 4; guard_before_slots := true |} in
  exists l, calculate 4 true c = Ok l /\ slot_bytes l = 12 /\ num_stripes l = 2 /\
    (4 + 0 * 12 + 19 < 4 + 2 * 12 + post_slab_guard_bytes l) /\ ~ (2 * 12 <= 0 * 12 + 19 < 2 * 12 + 8).
Proof.
  set (c := {| expected_slot_bytes := 16; c_max_memory_bytes := 8; c_num_slots := 2; num_pkeys_available := 2; guard_bytes := 4; guard_before_slots := true |}).
  assert (Hc : constraints_ok 4 c) by (split; cbn; done || lia).
  destruct (slab_layout_reach 4 true 2 ltac:(lia) eq_refl c Hc) as (_ & _ & Hall). eexists. split; [vm_compute; reflexivity|].
  specialize (Hall _ eq_refl) as (_ & _ & _ & _ & Hall). destruct (Hall 0 19) as [Hin Hout]; [cbn; lia|vm_compute; split; [discriminate|reflexivity]|].
  split; [reflexivity|]. split; [reflexivity|]. split; [apply Hin|]. apply (Hout 2); [lia|lia|reflexivity].
Defined.
