(* ===== verification/PoolRun.v ===== *)
(** * Memories of the pool are memories of their own

    Programs over a pool: requests for memories, stores and growth by their guests,
    deallocation, the purge of modules, and flushes of the queue, in any order.  A
    reference has a list of byte vectors instead, and nothing is shared or reused. *)

From Stdlib Require Import ZArith Lia.
From stdpp Require Import base list gmap numbers option.
From S2P Require Import Prelude MemoryTypes Mappings LinearMemory IndexAllocator MemoryInit ImageBuild Cow CowInv MemoryPool PoolInv PoolOps PoolWorld SlabLayout SimKernel.
Open Scope Z_scope.

(** ** Programs *)

Record pool_world (A L : Type) := { pw_state : pool_state A L; pw_live : list (nat * PoolMemory) }.
Arguments pw_state {A L}.
Arguments pw_live {A L}.
Arguments Build_pool_world {A L}.

Inductive pool_op :=
| PAllocate (request : Request) (plan : MemoryPlan) (memory_index : Z)
| PStore (j : nat) (k : nat) (v : Z)
| PGrow (j : nat) (new_byte_size : Z)
| PDeallocate (j : nat)
| PPurge (module : Z)
| PFlush.

(** The reference: what a memory was planned as, and its bytes. *)
Record own_memory := { om_plan : MemoryPlan; om_bytes : list Z }.

Section Run.
  Context {A L : Type} `{!Kernel A} `{!ResourceLimiter L} (hp : Z) (oc dbg : bool) (behavior : DecommitBehavior) (P : MemoryPool).
  Implicit Types (w : pool_world A L) (mems : list own_memory).

Definition run_op w (op : pool_op) : pool_world A L * outcome pool_error () :=
  let keep (st : pool_state A L) := {| pw_state := st; pw_live := pw_live w |} in
  match op with
  | PAllocate request plan index =>
      let '(st, r) := allocate_memory oc dbg behavior P request plan index (pw_state w) in
      match r with
      | Ok x => ({| pw_state := st; pw_live := x :: pw_live w |}, Ok ())
      | Err e => (keep st, Err e)
      | Panic => (keep st, Panic)
      end
  | PStore j k v =>
      match pw_live w !! j with
      | Some x => let '(st, r) := guest_store x.2 (Z.of_nat k) v (pw_state w) in (keep st, r)
      | None => (w, Panic)
      end
  | PGrow j n =>
      match pw_live w !! j with
      | Some x =>
          let '(st, r) := pool_grow_to x.2 n (pw_state w) in
          match r with
          | Ok (m, r) => ({| pw_state := st; pw_live := <[j := (x.1, m)]> (pw_live w) |}, r)
          | Err e => (keep st, Err e)
          | Panic => (keep st, Panic)
          end
      | None => (w, Panic)
      end
  | PDeallocate j =>
      match pw_live w !! j with
      | Some x =>
          let '(st, r) := deallocate_memory oc dbg behavior P x.1 x.2 (pw_state w) in
          ({| pw_state := st; pw_live := delete j (pw_live w) |}, r)
      | None => (w, Panic)
      end
  | PPurge module => let '(st, r) := purge_module oc dbg P module (pw_state w) in (keep st, r)
  | PFlush => let '(st, r) := flush_decommit_queue oc behavior (pw_state w) in (keep st, (fun _ => ()) <$> r)
  end.

(** The first bytes of a memory. *)
Definition first_bytes (request : Request) (plan : MemoryPlan) : list Z :=
  match rq_image request, min_bytes (memory plan) with
  | Some image, Some n => (fun k => image_byte image (Z.of_nat k)) <$> seq 0 (Z.to_nat n)
  | _, _ => []
  end.

(** What an operation does to the reference, when it succeeds; a failure changes nothing. *)
Definition own_op mems (op : pool_op) (r : outcome pool_error ()) : list own_memory :=
  match r with
  | Ok _ =>
      match op with
      | PAllocate request plan _ => {| om_plan := plan; om_bytes := first_bytes request plan |} :: mems
      | PStore j k v => alter (fun m => {| om_plan := om_plan m; om_bytes := <[k := v]> (om_bytes m) |}) j mems
      | PGrow j n => alter (fun m => {| om_plan := om_plan m; om_bytes := resize (Z.to_nat n) 0 (om_bytes m) |}) j mems
      | PDeallocate j => delete j mems
      | PPurge _ | PFlush => mems
      end
  | _ => mems
  end.

(** A guest stores in its memory, and growth is within its capacity. *)
Definition op_allowed w (op : pool_op) : Prop :=
  match op with
  | PAllocate request plan _ => request_ok hp oc dbg P request plan
  | PStore j k _ => exists x, pw_live w !! j = Some x /\ Z.of_nat k < pm_size x.2
  | PGrow j n => exists x, pw_live w !! j = Some x /\ pm_size x.2 <= n <= pm_capacity x.2
  | PDeallocate j => (j < length (pw_live w))%nat
  | PPurge _ => stripes P = 1%nat
  | PFlush => True
  end.

Inductive pool_reach (st0 : pool_state A L) : pool_world A L -> list own_memory -> Prop :=
| reach_start : pool_reach st0 {| pw_state := st0; pw_live := [] |} []
| reach_step w mems op w' r :
    pool_reach st0 w mems -> op_allowed w op -> run_op w op = (w', r) -> r <> Panic -> pool_reach st0 w' (own_op mems op r).

Definition contents (a : A) (m : PoolMemory) : list Z := (fun k => guest_byte a m (Z.of_nat k)) <$> seq 0 (Z.to_nat (pm_size m)).
End Run.

(** ** Lists of memories *)

Lemma delete_replaced {X} (l : list X) j x : delete j (<[j := x]> l) = delete j l.
Proof. revert j. induction l as [|y l IH]; intros [|j]; cbn; try done. f_equal. apply IH. Qed.

Lemma moved_front {X} (l : list X) j x y : l !! j = Some x -> <[j := y]> l ≡ₚ y :: delete j l.
Proof.
  intros Hj. rewrite (delete_Permutation (<[j := y]> l) j y) by (apply list_lookup_insert_eq; by eapply lookup_lt_Some). by rewrite delete_replaced.
Qed.

Lemma alter_insert {X} (f : X -> X) (l : list X) j x : l !! j = Some x -> alter f j l = <[j := f x]> l.
Proof. revert j. induction l as [|y l IH]; intros [|j] Hj; try done; [by injection Hj as ->|]. cbn. f_equal. by apply IH. Qed.

Lemma Forall2_place {X Y} (R : X -> Y -> Prop) l k j x y :
  Forall2 R (delete j l) (delete j k) -> (j < length l)%nat -> (j < length k)%nat -> R x y -> Forall2 R (<[j := x]> l) (<[j := y]> k).
Proof.
  revert l k. induction j as [|j IH]; intros [|u l] [|v k] Hf Hl Hk HR; cbn in *; try lia; [by constructor|].
  apply list.Forall2_cons in Hf as [Huv Hf]. constructor; [done|]. apply IH; lia || done.
Qed.

Section Refinement.
  Context {A L : Type} `{!Kernel A} `{!ResourceLimiter L} (hp : Z) `{!KernelLaws A hp} (oc dbg : bool).
  Context (behavior : DecommitBehavior) (P : MemoryPool) (Hhp : 0 < hp) (Hlo : layout_ok hp P) (Hlim : limiter_ok (L:=L)).
  Implicit Types (w : pool_world A L) (mems : list own_memory) (a : A).

Abbreviation kept := (keeps (A:=A) hp P).
Abbreviation stable := (steady (A:=A) (L:=L) hp behavior P).
Abbreviation run := (run_op oc dbg behavior P).

Lemma stable_perm st live live' : stable st live -> live ≡ₚ live' -> stable st live'.
Proof.
  intros [Hst Hnd Hsl Hid Htk Hli Hqu Hgu] Hp.
  assert (Ho : owners live [ps_queue st] [] ≡ₚ owners live' [ps_queue st] []) by (unfold owners; by rewrite Hp).
  split; try done.
  - eapply stripes_ok_ext; [done|]. intros i. cbn beta. by rewrite Ho.
  - by rewrite <- Ho.
  - intros i o Hi Hno. apply Hid; [done|]. by rewrite Ho.
  - intros i Hi. apply Htk. by rewrite Ho.
  - rewrite list.Forall_forall in Hli |- *. intros x Hx. apply Hli. by rewrite Hp.
Qed.

Lemma guest_byte_kept live a a' x k :
  kept live a a' -> x ∈ live -> live_ok hp P a x -> 0 <= k < pm_size x.2 -> guest_byte a' x.2 k = guest_byte a x.2 k.
Proof using Hlo Hhp.
  intros Hk Hx Hl Hb. unfold guest_byte. rewrite (Hk x.1); [done|apply list_elem_of_fmap; eauto|].
  destruct Hl as [Hsa _ _ Hcap _ _]. pose proof (rounded_bounds hp (max_memory_bytes (mp_layout P)) Hhp). unfold region. rewrite (sa_base _ _ _ _ Hsa). lia.
Qed.

Lemma contents_ext a a' m m' :
  pm_size m' = pm_size m -> (forall k, 0 <= k < pm_size m -> guest_byte a' m' k = guest_byte a m k) -> contents a' m' = contents a m.
Proof.
  intros Hs Hk. unfold contents. rewrite Hs. apply list_fmap_ext. intros j k Hj. apply lookup_seq in Hj as [-> Hj]. apply Hk. lia.
Qed.

(** A memory shows the bytes of the reference; one whose accesses rely on protection
    is protected from its end on. *)
Record shows a (x : nat * PoolMemory) (m : own_memory) : Prop := {
  sh_bytes : om_bytes m = contents a x.2;
  sh_guarded : relies_on_protection (om_plan m) = true -> s_accessible (pm_slot x.2) = pm_size x.2
}.

Definition world_ok w mems : Prop := stable (pw_state w) (pw_live w) /\ Forall2 (shows (ps_mem (pw_state w))) (pw_live w) mems.

Lemma shows_kept st live live' mems a' :
  stable st live -> Forall2 (shows (ps_mem st)) live' mems -> (forall x, x ∈ live' -> x ∈ live) -> kept live' (ps_mem st) a' -> Forall2 (shows a') live' mems.
Proof using Hlo Hhp.
  intros Hs Hf Hsub Hk. pose proof (pi_live _ _ _ _ _ _ _ Hs) as Hli. rewrite list.Forall_forall in Hli.
  eapply (list.Forall2_impl (fun x m => x ∈ live' /\ shows (ps_mem st) x m)).
  - apply list.Forall2_same_length_lookup. split; [by eapply list.Forall2_length|]. intros j x m Hx Hm. split; [by eapply list_elem_of_lookup_2|by eapply Forall2_lookup_lr].
  - intros x m [Hx [Hb Hg]]. split; [|done]. rewrite Hb. apply contents_ext; [done|]. intros k Hk'. symmetry.
    eapply guest_byte_kept; [done|done|apply Hli; auto|done].
Qed.

Lemma contents_lookup a m k : (k < Z.to_nat (pm_size m))%nat -> contents a m !! k = Some (guest_byte a m (Z.of_nat k)).
Proof. intros Hk. unfold contents. rewrite list_lookup_fmap, lookup_seq_lt by done. done. Qed.

Lemma contents_length a m : length (contents a m) = Z.to_nat (pm_size m).
Proof. unfold contents. by rewrite length_fmap, length_seq. Qed.

Lemma contents_store a a' m k v :
  (k < Z.to_nat (pm_size m))%nat -> (forall j, guest_byte a' m j = if decide (j = Z.of_nat k) then v else guest_byte a m j) ->
  contents a' m = <[k := v]> (contents a m).
Proof.
  intros Hk Hs. apply list_eq_same_length with (n := Z.to_nat (pm_size m)); [by rewrite length_insert, contents_length|by rewrite contents_length|].
  intros i x y Hi. rewrite contents_lookup by done. intros [= <-]. destruct (decide (i = k)) as [->|Hne].
  - rewrite list_lookup_insert_eq by (by rewrite contents_length). intros [= <-]. by rewrite Hs, decide_True.
  - rewrite list_lookup_insert_ne, contents_lookup by done. intros [= <-]. rewrite Hs, decide_False by lia. done.
Qed.

Lemma contents_grow a a' m m' :
  0 <= pm_size m <= pm_size m' -> (forall k, 0 <= k < pm_size m -> guest_byte a' m' k = guest_byte a m k) ->
  (forall k, pm_size m <= k < pm_size m' -> guest_byte a' m' k = 0) -> contents a' m' = resize (Z.to_nat (pm_size m')) 0 (contents a m).
Proof.
  intros Hs Hold Hnew. apply list_eq_same_length with (n := Z.to_nat (pm_size m')); [by rewrite length_resize|by rewrite contents_length|].
  intros i x y Hi. rewrite contents_lookup by done. intros [= <-]. destruct (decide (i < Z.to_nat (pm_size m))%nat) as [Hlt|Hge].
  - rewrite lookup_resize, contents_lookup by (rewrite ?contents_length; lia). intros [= <-]. apply Hold. lia.
  - rewrite lookup_resize_new by (rewrite ?contents_length; lia). intros [= <-]. apply Hnew. lia.
Qed.

(** ** Steps *)

(** The memory that an operation is about comes first. *)
Lemma world_focus w mems j x :
  world_ok w mems -> pw_live w !! j = Some x ->
  stable (pw_state w) (x :: delete j (pw_live w)) /\ live_ok hp P (ps_mem (pw_state w)) x /\
  exists m, mems !! j = Some m /\ shows (ps_mem (pw_state w)) x m.
Proof.
  intros [Hs Hf] Hx. split_and!.
  - eapply stable_perm; [done|]. by apply delete_Permutation.
  - pose proof (pi_live _ _ _ _ _ _ _ Hs) as Hl. rewrite list.Forall_forall in Hl. apply Hl. by eapply list_elem_of_lookup_2.
  - by apply (Forall2_lookup_l _ _ _ _ _ Hf).
Qed.

Lemma world_others w mems j x a :
  world_ok w mems -> pw_live w !! j = Some x -> kept (delete j (pw_live w)) (ps_mem (pw_state w)) a ->
  Forall2 (shows a) (delete j (pw_live w)) (delete j mems).
Proof using Hlo Hhp.
  intros [Hs Hf] Hx Hk. eapply shows_kept; [exact Hs|by apply Forall2_delete| |done].
  intros y Hy. rewrite (delete_Permutation _ _ _ Hx). by right.
Qed.

(** The other memories stay as they were, and the memory in focus is [x'] now. *)
Lemma world_replace w mems j x m st x' m' :
  world_ok w mems -> pw_live w !! j = Some x -> mems !! j = Some m ->
  stable st (x' :: delete j (pw_live w)) -> kept (delete j (pw_live w)) (ps_mem (pw_state w)) (ps_mem st) -> shows (ps_mem st) x' m' ->
  world_ok {| pw_state := st; pw_live := <[j := x']> (pw_live w) |} (<[j := m']> mems).
Proof using Hlo Hhp.
  intros Hw Hx Hm Hs Hk Hsh. split; cbn [pw_state pw_live].
  - eapply stable_perm; [done|]. symmetry. by eapply moved_front.
  - apply Forall2_place; [by eapply world_others|by eapply lookup_lt_Some|by eapply lookup_lt_Some|done].
Qed.

Definition pool_step_ok w mems (op : pool_op) : Prop :=
  let '(w', r) := run w op in
  match r with
  | Panic => refused_pages (ps_mem (pw_state w)) (ps_mem (pw_state w'))
  | r => world_ok w' (own_op mems op r)
  end.

Lemma keep_world w mems st : world_ok w mems -> stable st (pw_live w) -> kept (pw_live w) (ps_mem (pw_state w)) (ps_mem st) ->
  world_ok {| pw_state := st; pw_live := pw_live w |} mems.
Proof using Hlo Hhp. intros [Hs Hf] Hs' Hk. split; [done|]. by eapply (shows_kept (pw_state w) (pw_live w)). Qed.

Lemma new_bytes request plan image a m :
  rq_image request = Some image -> new_memory hp image plan a m -> pm_size m <= rounded hp (s_static_size (pm_slot m)) -> contents a m = first_bytes request plan.
Proof.
  intros Hi [Hs Him Hc _] Hb. unfold contents, first_bytes. rewrite Hi, Hs. apply list_fmap_ext. intros j k Hj. apply lookup_seq in Hj as [-> Hj].
  unfold guest_byte. destruct (Hc (Z.of_nat (0 + j))) as (Ho & _ & Hv); [lia|]. rewrite Hv, Ho, Him; [done|]. unfold clean. tauto.
Qed.

Lemma step_allocate w mems request plan index :
  world_ok w mems -> request_ok hp oc dbg P request plan -> pool_step_ok w mems (PAllocate request plan index).
Proof using KernelLaws0 Hlo Hhp Hlim.
  intros Hw Hr. pose proof (allocate_memory_ok hp oc dbg behavior P Hhp Hlo Hlim request plan index (pw_state w) (pw_live w) Hr (proj1 Hw)) as Ha.
  unfold pool_step_ok, run_op. unfold pwp in Ha. destruct (allocate_memory _ _ _ _ _ _ _ _) as [st [x|e|]]; [| |done]; destruct Ha as [_ [Hk Ha]].
  - destruct Ha as (Hs & image & Hi & Hn). split; cbn [pw_state pw_live own_op]; [done|]. constructor; [|by eapply (shows_kept (pw_state w) (pw_live w)); [apply Hw|apply Hw|..]].
    pose proof (pi_live _ _ _ _ _ _ _ Hs) as Hl. apply list.Forall_cons in Hl as [[Hsa _ Hsz _ _ _] _].
    split; cbn [om_bytes om_plan]; [|apply Hn]. symmetry. eapply new_bytes; [done..|]. destruct (sa_ok _ _ _ _ Hsa).
    pose proof (rounded_bounds hp (s_static_size (pm_slot x.2)) Hhp). lia.
  - by apply keep_world; [|apply Ha|].
Qed.

Lemma step_store w mems j k v x : world_ok w mems -> pw_live w !! j = Some x -> Z.of_nat k < pm_size x.2 -> pool_step_ok w mems (PStore j k v).
Proof using KernelLaws0 Hlo Hhp.
  intros Hw Hx Hk. destruct (world_focus _ _ _ _ Hw Hx) as (Hs & Hl & m & Hm & Hsh).
  pose proof (guest_store_ok hp behavior P Hhp Hlo _ _ _ (Z.of_nat k) v Hs ltac:(lia)) as Hg. unfold pool_step_ok, run_op. rewrite Hx. unfold pwp in Hg.
  destruct (guest_store _ _ _ _) as [st [[]|e|]]; [|by destruct Hg as (_ & ? & _)|done]. destruct Hg as (_ & _ & Hs' & Hk' & Hb). cbn [own_op].
  rewrite (alter_insert _ _ _ _ Hm), <- (list_insert_id (pw_live w) j x) by done. eapply world_replace; try done.
  destruct Hsh as [Hbytes Hg]. split; cbn; [|done]. rewrite Hbytes. symmetry. apply contents_store; [lia|done].
Qed.

Lemma step_grow w mems j n x : world_ok w mems -> pw_live w !! j = Some x -> pm_size x.2 <= n <= pm_capacity x.2 -> pool_step_ok w mems (PGrow j n).
Proof using KernelLaws0 Hlo Hhp.
  intros Hw Hx Hn. destruct (world_focus _ _ _ _ Hw Hx) as (Hs & Hl & m & Hm & Hsh).
  pose proof (grow_to_ok hp behavior P Hhp Hlo _ _ _ n Hs Hn) as Hg. unfold pool_step_ok, run_op. rewrite Hx. unfold pwp in Hg.
  destruct (pool_grow_to _ _ _) as [st [[m' r]|e|]]; [| |done]; destruct Hg as (_ & m0 & r0 & Heq & Hs' & Hk' & Hg); [|done].
  injection Heq as <- <-. destruct Hg as (_ & _ & Hold & Hp & Hg). destruct Hsh as [Hbytes Hguard]. destruct r as [u|e|]; [| |done]; cbn [own_op].
  - rewrite (alter_insert _ _ _ _ Hm). eapply world_replace; try done. split; cbn; [|auto]. destruct Hg as [<- Hnew]. rewrite Hbytes. symmetry.
    apply contents_grow; [|done..]. pose proof (li_size _ _ _ _ Hl). lia.
  - rewrite <- (list_insert_id mems j m) by done. eapply world_replace; try done. split; cbn; [|auto]. rewrite Hbytes. symmetry. by apply contents_ext.
Qed.

Lemma step_deallocate w mems j x : world_ok w mems -> pw_live w !! j = Some x -> pool_step_ok w mems (PDeallocate j).
Proof using KernelLaws0 Hlo Hhp.
  intros Hw Hx. destruct (world_focus _ _ _ _ Hw Hx) as (Hs & _).
  pose proof (deallocate_memory_ok hp oc dbg behavior P Hhp Hlo _ _ _ Hs) as Hd. unfold pool_step_ok, run_op. rewrite Hx. unfold pwp in Hd.
  destruct (deallocate_memory _ _ _ _ _ _ _) as [st [[]|e|]]; [|by destruct Hd as (_ & ? & _)|done]. destruct Hd as (_ & _ & Hs' & Hk). split; [done|]. by eapply world_others.
Qed.

Lemma pool_step w mems op : world_ok w mems -> op_allowed hp oc dbg P w op -> pool_step_ok w mems op.
Proof using KernelLaws0 Hlo Hhp Hlim.
  intros Hw Ha. destruct op as [request plan index|j k v|j n|j|module|]; cbn [op_allowed] in Ha.
  - by apply step_allocate.
  - destruct Ha as (x & Hx & Hk). by eapply step_store.
  - destruct Ha as (x & Hx & Hk). by eapply step_grow.
  - apply lookup_lt_is_Some_2 in Ha as [x Hx]. by eapply step_deallocate.
  - pose proof (purge_module_ok hp oc dbg behavior P Hhp Hlo module _ _ Ha (proj1 Hw)) as Hp. unfold pool_step_ok, run_op. unfold pwp in Hp.
    destruct (purge_module _ _ _ _ _) as [st [[]|e|]]; [|by destruct Hp as (_ & ? & _)|done]. destruct Hp as (_ & _ & Hs & Hk). by apply keep_world.
  - pose proof (flush_shared_ok hp oc behavior P Hhp Hlo _ _ (proj1 Hw)) as Hf. unfold pool_step_ok, run_op. unfold pwp in Hf.
    destruct (flush_decommit_queue _ _ _) as [st [b|e|]]; [| |done]; destruct Hf as (_ & _ & Hs & Hk & _); by apply keep_world.
Qed.

Lemma pool_reach_ok st0 w mems : stable st0 [] -> pool_reach hp oc dbg behavior P st0 w mems -> world_ok w mems.
Proof using KernelLaws0 Hlo Hhp Hlim.
  intros H0. induction 1 as [|w mems op w' r _ IH Ha Hr Hp]; [by split|]. pose proof (pool_step _ _ _ IH Ha) as Hs.
  unfold pool_step_ok in Hs. rewrite Hr in Hs. by destruct r.
Qed.

(** ** What compiled code can reach *)

(** A byte that is in the slab, as far from its slot as compiled code can reach, is in
    the slot, in a slot of another stripe, or in no slot. *)
Lemma reached_slot i y F :
  (i < total_slots P)%nat -> 0 <= pre_slab_guard_bytes (mp_layout P) -> F <= slot_bytes (mp_layout P) * num_stripes (mp_layout P) ->
  F <= slot_bytes (mp_layout P) + post_slab_guard_bytes (mp_layout P) -> slot_base P i <= y < slot_base P i + F ->
  region hp P i y \/ slab_guard hp P y \/ exists i', (i' < total_slots P)%nat /\ region hp P i' y /\ (i' mod stripes P <> i mod stripes P)%nat.
Proof using Hlo Hhp.
  intros Hi Hpre Hs Hp Hy. destruct (decide (Exists (fun i' => slot_base P i' <= y < slot_base P i' + rounded hp (max_memory_bytes (mp_layout P))) (seq 0 (total_slots P)))) as [He|He].
  - apply list.Exists_exists in He as (i' & Hi' & Hr). apply elem_of_seq in Hi'. destruct (decide (i' = i)) as [->|Hne]; [by left|]. right; right.
    exists i'. split_and!; [lia|done|]. intros Hm. destruct Hlo as [_ _ _ Hroom Hst _ _ _ _]. pose proof (stripes_pos hp P Hlo) as Hsp.
    pose proof (Nat.div_mod_eq i (stripes P)) as E1. pose proof (Nat.div_mod_eq i' (stripes P)) as E2. rewrite Hm in E2. unfold slot_base in *.
    set (b := slot_bytes (mp_layout P)) in *. assert (Hn : num_stripes (mp_layout P) = Z.of_nat (stripes P)) by (unfold stripes; lia). rewrite Hn in Hs.
    set (n := stripes P) in *. set (q := (i / n)%nat) in *. set (q' := (i' / n)%nat) in *.
    assert (Hb : 0 < b) by (destruct (rounded_bounds hp (max_memory_bytes (mp_layout P)) Hhp); lia).
    assert (Hlow : Z.of_nat i < Z.of_nat i' + 1) by nia. assert (Hhigh : Z.of_nat i' < Z.of_nat i + Z.of_nat n) by nia.
    assert (Hq : (q < q')%nat) by nia. nia.
  - right; left. unfold slab_guard. split.
    + destruct Hlo. destruct (rounded_bounds hp (max_memory_bytes (mp_layout P)) Hhp). unfold slot_base, slab_bytes, total_slots in *.
      assert (Hle : (Z.of_nat i + 1) * slot_bytes (mp_layout P) <= num_slots (mp_layout P) * slot_bytes (mp_layout P)) by (apply Z.mul_le_mono_nonneg_r; lia).
      assert (0 <= Z.of_nat i * slot_bytes (mp_layout P)) by (apply Z.mul_nonneg_nonneg; lia). lia.
    + intros i' Hi' Hr. apply He, list.Exists_exists. exists i'. split; [apply elem_of_seq; lia|done].
Qed.

Lemma world_sandbox w mems j x m y F :
  world_ok w mems -> pw_live w !! j = Some x -> mems !! j = Some m -> relies_on_protection (om_plan m) = true -> protections_kept (ps_mem (pw_state w)) ->
  0 <= pre_slab_guard_bytes (mp_layout P) -> F <= slot_bytes (mp_layout P) * num_stripes (mp_layout P) -> F <= slot_bytes (mp_layout P) + post_slab_guard_bytes (mp_layout P) ->
  rounded hp (pm_size x.2) <= y < F ->
  c_access (cell_at (ps_mem (pw_state w)) (s_base (pm_slot x.2) + y)) = false \/
  exists i, (i < total_slots P)%nat /\ region hp P i (s_base (pm_slot x.2) + y) /\ (i mod stripes P <> x.1 mod stripes P)%nat.
Proof using Hlo Hhp.
  intros Hw Hx Hm Hrel Hat Hpre Hs Hp Hy. destruct (world_focus _ _ _ _ Hw Hx) as (Hst & Hl & m' & Hm' & Hsh). rewrite Hm in Hm'. injection Hm' as <-.
  pose proof (taken_bound hp P Hlo _ _ x.1 (pi_stripes _ _ _ _ _ _ _ Hst) ltac:(by apply owner_live; left)) as Hi. destruct Hl as [Hsa _ Hsz _ _ Hmap].
  rewrite (sa_base _ _ _ _ Hsa). pose proof (rounded_bounds hp (pm_size x.2) Hhp) as Hr.
  destruct (reached_slot x.1 (slot_base P x.1 + y) F Hi Hpre Hs Hp ltac:(lia)) as [Hreg|[Hg|Hr']]; [left|left; by apply (pi_guard _ _ _ _ _ _ _ Hst)|by right].
  destruct (Hmap y) as (_ & [_ Ha] & _); [rewrite (sa_size _ _ _ _ Hsa); unfold region in Hreg; lia|]. rewrite (sa_base _ _ _ _ Hsa) in Ha.
  apply Ha; [done|]. rewrite (sh_guarded _ _ _ Hsh Hrel). lia.
Qed.
End Refinement.

(** ** Pools and their programs *)

Section Pools.
  Context {A L : Type} `{!Kernel A} `{!ResourceLimiter L} (hp : Z) `{!KernelLaws A hp} (k : Z) (oc dbg : bool) (behavior : DecommitBehavior).
  Context (sys : os) (a : A) (store : option L) (limits : InstanceLimits) (t : Tunables) (mw keep batch : Z).
  Context (enabled : MpkEnabled) (supported : bool) (keys : Z) (P : MemoryPool) (st0 : pool_state A L).

(** A pool is made of a reserved slab, and a program runs on it. *)
Record pool_program (w : pool_world A L) (mems : list own_memory) : Prop := {
  pp_page : 0 < k < 64 /\ hp = 2 ^ k;
  pp_limiter : limiter_ok (L := L);
  pp_config : config_ok hp sys limits t keep keys;
  pp_warm : 0 <= mw;
  pp_new : memory_pool_new hp oc dbg sys a store limits t mw keep batch enabled supported keys = Ok (P, st0);
  pp_reserved : reserved a P;
  pp_reach : pool_reach hp oc dbg behavior P st0 w mems
}.

Lemma program_new w mems : pool_program w mems -> 0 < hp /\ new_pool hp t a store mw P st0.
Proof.
  intros [[Hk Hhp] _ Hc _ Hn _ _]. split; [rewrite Hhp; apply Z.pow_pos_nonneg; lia|]. by eapply (memory_pool_new_ok hp oc dbg k).
Qed.

Lemma program_world w mems : pool_program w mems -> world_ok hp behavior P w mems.
Proof using KernelLaws0.
  intros Hpp. destruct (program_new _ _ Hpp) as [Hpos []]. destruct Hpp as [[Hk Hhp] Hl _ Hw _ Hr Hre].
  eapply (pool_reach_ok hp oc dbg behavior P Hpos); [done|done| |exact Hre]. subst st0. unfold steady. cbn [ps_queue]. by eapply (new_inv hp k).
Qed.

(** C14: The memories of a pool are memories of their own: after any program of
    allocations, stores, growth, deallocations, flushes, and, when the pool has one stripe,
    purges, every memory shows the bytes it would have if nothing were shared or reused,
    starting from its image and zeros whatever used its slot before; and when the next
    operation panics, the system refused to drop or to replace pages while that operation
    ran.  (Stores are within the memory and growth is within its capacity; images start and
    end at a page inside the first size.) *)
Theorem pool_refines_memories (w : pool_world A L) (mems : list own_memory) :
  pool_program w mems ->
  Forall2 (fun x m => contents (ps_mem (pw_state w)) x.2 = om_bytes m) (pw_live w) mems /\
  forall op w', op_allowed hp oc dbg P w op -> run_op oc dbg behavior P w op = (w', Panic) ->
    refused_pages (ps_mem (pw_state w)) (ps_mem (pw_state w')).
Proof using KernelLaws0.
  intros Hpp. pose proof (program_world _ _ Hpp) as Hw. destruct (program_new _ _ Hpp) as [Hpos Hnp]. split.
  - destruct Hw as [_ Hf]. eapply list.Forall2_impl; [exact Hf|]. by intros x m [-> _].
  - intros op w' Ha Hp. pose proof (pool_step hp oc dbg behavior P Hpos (np_layout _ _ _ _ _ _ _ Hnp) (pp_limiter _ _ Hpp) _ _ _ Hw Ha) as Hs.
    unfold pool_step_ok in Hs. by rewrite Hp in Hs.
Qed.

(** C15: What compiled code can reach from a memory of the pool without a bounds check,
    when its plan relies on protection (a static memory, or one with a guard after it):
    as long as the system refused no change of protection, every byte from the end of the
    memory, rounded up to pages, to the end of the configured reservation and guard faults,
    or belongs to a slot of another stripe. *)
Theorem pool_sandbox (w : pool_world A L) (mems : list own_memory) j x m y :
  pool_program w mems -> protections_kept (ps_mem (pw_state w)) -> pw_live w !! j = Some x -> mems !! j = Some m -> relies_on_protection (om_plan m) = true ->
  rounded hp (pm_size x.2) <= y < static_memory_reservation t + static_memory_offset_guard_size t ->
  c_access (cell_at (ps_mem (pw_state w)) (s_base (pm_slot x.2) + y)) = false \/
  exists i, (i < total_slots P)%nat /\ region hp P i (s_base (pm_slot x.2) + y) /\ (i mod stripes P <> x.1 mod stripes P)%nat.
Proof using KernelLaws0.
  intros Hpp Hat Hx Hm Hrel Hy. destruct (program_new _ _ Hpp) as [Hpos []]. by eapply (world_sandbox hp behavior P Hpos); [|by eapply program_world|..].
Qed.

(** C27: No slot is lost: an allocation is refused for want of a slot only when every
    slot of its stripe is the slot of a memory in use, after any program (with purges only when
    the pool has one stripe); slots that wait in the queue are flushed first. *)
Theorem pool_loses_no_slot (w : pool_world A L) (mems : list own_memory) request plan index i :
  pool_program w mems -> request_ok hp oc dbg P request plan ->
  (run_op oc dbg behavior P w (PAllocate request plan index)).2 = Err PoolConcurrencyLimit ->
  (i < total_slots P)%nat -> (i mod stripes P = request_stripe request)%nat -> i ∈ (pw_live w).*1.
Proof using KernelLaws0.
  intros Hpp Hr Hrun. destruct (program_world _ _ Hpp) as [Hs _]. destruct (program_new _ _ Hpp) as [Hpos Hnp].
  pose proof (allocate_memory_ok hp oc dbg behavior P Hpos (np_layout _ _ _ _ _ _ _ Hnp) (pp_limiter _ _ Hpp) request plan index _ _ Hr Hs) as Ha.
  unfold run_op in Hrun. unfold pwp in Ha. destruct (allocate_memory _ _ _ _ _ _ _ _) as [st [x|e|]]; [done| |done]. cbn in Hrun. injection Hrun as ->.
  apply Ha. done.
Qed.
End Pools.

(** ** A pool of two slots

    Memories of at most eight bytes, with sixteen bytes of reservation and a guard of a
    page; with two protection keys there are two stripes. *)

Module Demo.
Definition limits : InstanceLimits := {| total_memories := 2; max_memories_per_module := 1; max_memory_size := 8 |}.
Definition tunables : Tunables :=
  {| static_memory_reservation := 16; static_memory_offset_guard_size := 4; dynamic_memory_offset_guard_size := 4; dynamic_memory_growth_reserve := 4;
     static_memory_bound_is_maximum := false; guard_before_linear_memory := true |}.
Definition system : os :=
  {| os_reserve _ := Some 4096; os_protect _ _ := true; os_map _ _ := true; os_drop _ _ := true; os_torn _ _ := [] |}.
Definition plan : MemoryPlan :=
  {| memory := {| minimum := 4; maximum := None; shared := false; memory64 := false; page_size_log2 := 0 |};
     style := Static 16; pre_guard_size := 4; offset_guard_size := 4 |}.
Definition image : MemoryImage := {| source := 1; img_len := 4; source_offset := 0; linear_memory_offset := 0 |}.
Definition request (key module : Z) (image : option MemoryImage) : Request :=
  {| rq_pkey := Some (Z.to_nat key); rq_module := Some module; rq_image := Some image |}.

Section Keys.
  Context (keys : Z).
Definition new : outcome pool_error (MemoryPool * pool_state sim_memory StoreLimits) :=
  memory_pool_new sim_page true true system ∅ None limits tunables 100 4 2 MpkAuto true keys.
Definition pool : MemoryPool * pool_state sim_memory StoreLimits :=
  match new with
  | Ok x => x
  | _ => ({| mp_mapping := 0; mp_layout := {| num_slots := 0; slot_bytes := 0; max_memory_bytes := 0; pre_slab_guard_bytes := 0; post_slab_guard_bytes := 0; num_stripes := 0 |};
             mp_num_pkeys := 0; mp_memories_per_instance := 0; mp_keep_resident := 0; decommit_batch_size := 0 |},
          {| ps_mem := ∅; ps_stripes := []; ps_slots := []; ps_queue := queue_default; ps_next_pkey := 0; ps_limits := None |})
  end.

Definition run := run_op (A := sim_memory) (L := StoreLimits) true true RestoreOriginalMapping pool.1.
Definition advance (wm : pool_world sim_memory StoreLimits * list own_memory) (op : pool_op) : pool_world sim_memory StoreLimits * list own_memory :=
  ((run wm.1 op).1, own_op wm.2 op (run wm.1 op).2).
Definition demo (ops : list pool_op) := foldl advance ({| pw_state := pool.2; pw_live := [] |}, []) ops.
Definition reached wm := pool_reach sim_page true true RestoreOriginalMapping pool.1 pool.2 wm.1 wm.2.

Lemma reach_advance wm op : reached wm -> op_allowed sim_page true true pool.1 wm.1 op -> (run wm.1 op).2 <> Panic -> reached (advance wm op).
Proof. intros Hr Ha Hp. unfold reached, advance. eapply reach_step; [exact Hr|exact Ha|exact (surjective_pairing _)|exact Hp]. Qed.
End Keys.

(** A memory with an image is used and deallocated; the next memory has no image. *)
Definition reuse : list pool_op :=
  [PAllocate (request 0 7 (Some image)) plan 0; PStore 0 2 99; PGrow 0 8; PStore 0 7 5; PAllocate (request 0 8 (Some image)) plan 0;
   PDeallocate 1; PFlush; PAllocate (request 0 9 None) plan 0; PStore 0 0 1].

Lemma demo_plan_type : type_ok (memory plan).
Proof. split; [done|done|by left]. Qed.

Lemma demo_image_fits n : 4 <= n -> image_in sim_page image n.
Proof. intros Hn. split; cbn; done || lia. Qed.

Lemma request_fits keys key module o :
  (0 <= keys <= 2) -> (Z.to_nat key < stripes (pool keys).1)%nat -> images_in sim_page o 4 -> request_ok sim_page true true (pool keys).1 (request key module o) plan.
Proof.
  intros Hk Hkey Ho. split; [apply demo_plan_type|done| |done|].
  - assert (Hc : keys = 0 \/ keys = 1 \/ keys = 2) by lia. by destruct Hc as [->|[->| ->]]; vm_compute.
  - intros i min [= <-] [= <-]. done.
Qed.

Ltac allowed := first [apply request_fits; [lia|vm_compute; lia|first [done|by apply demo_image_fits]]
                      |eexists; split; [vm_compute; reflexivity|cbn; lia]|vm_compute; lia|done].
Ltac reach := unfold demo, reuse; cbn [foldl]; repeat (apply reach_advance; [|allowed|by vm_compute]); by constructor.

Lemma program keys ops :
  0 <= keys <= 2 -> new keys = Ok (pool keys) -> reached keys (demo keys ops) ->
  pool_program sim_page 2 true true RestoreOriginalMapping system ∅ None limits tunables 100 4 2 MpkAuto true keys (pool keys).1 (pool keys).2
    (demo keys ops).1 (demo keys ops).2.
Proof.
  intros Hk Hn Hr. split; [done|apply limits_limiter_ok| |done|by rewrite <- surjective_pairing|done|done]. split; unfold sim_page; cbn; try lia. by intros n b [= <-].
Qed.
End Demo.

(** The slot of the first memory is used again: its image and the bytes that were
    written there are gone. *)
Lemma pool_refines_memories_witness :
  let '(w, mems) := Demo.demo 0 Demo.reuse in
  (om_bytes <$> mems = [[1; 0; 0; 0]; [11; 12; 13; 14]]) /\ (pw_live w).*1 = [0%nat; 1%nat] /\
  (forall x, pw_live w !! 0%nat = Some x -> contents (ps_mem (pw_state w)) x.2 = [1; 0; 0; 0]) /\
  (Demo.run 0 w (PDeallocate 0)).2 <> Panic.
Proof.
  assert (Hr : Demo.reached 0 (Demo.demo 0 Demo.reuse)) by Demo.reach.
  pose proof (Demo.program 0 Demo.reuse ltac:(lia) ltac:(vm_compute; reflexivity) Hr) as Hp.
  assert (Hm : om_bytes <$> (Demo.demo 0 Demo.reuse).2 = [[1; 0; 0; 0]; [11; 12; 13; 14]]) by (vm_compute; reflexivity).
  assert (Hl : (pw_live (Demo.demo 0 Demo.reuse).1).*1 = [0%nat; 1%nat]) by (vm_compute; reflexivity).
  destruct (pool_refines_memories sim_page 2 true true _ _ _ _ _ _ _ _ _ _ _ _ _ _ _ _ Hp) as [Hf Hno].
  destruct (Demo.demo 0 Demo.reuse) as [w mems]. cbn [fst snd] in *. split; [exact Hm|]. split; [exact Hl|]. split.
  - intros x Hx. destruct (Forall2_lookup_l _ _ _ _ _ Hf Hx) as (m & Hm0 & ->). apply (f_equal (fun l => l !! 0%nat)) in Hm.
    rewrite list_lookup_fmap, Hm0 in Hm. by injection Hm.
  - intros Hpan. destruct (Demo.run 0 w (PDeallocate 0)) as [w' r] eqn:Hrun. cbn in Hpan. subst r.
    eapply sim_grants. refine (Hno (PDeallocate 0) w' _ Hrun). cbn. apply (f_equal length) in Hl. rewrite length_fmap in Hl. rewrite Hl. cbn. lia.
Defined.

(** Two stripes: from a memory in the first slot, the second slot can be addressed, and
    is of the other stripe. *)
Definition neighbours : list pool_op := [PAllocate (Demo.request 0 7 (Some Demo.image)) Demo.plan 0; PAllocate (Demo.request 1 7 None) Demo.plan 0].

Lemma pool_sandbox_witness :
  let w := (Demo.demo 2 neighbours).1 in
  exists x, pw_live w !! 1%nat = Some x /\ pm_size x.2 = 4 /\
    (c_access (cell_at (ps_mem (pw_state w)) (s_base (pm_slot x.2) + 12)) = false \/
     exists i, (i < total_slots (Demo.pool 2).1)%nat /\ region sim_page (Demo.pool 2).1 i (s_base (pm_slot x.2) + 12) /\
       (i mod stripes (Demo.pool 2).1 <> x.1 mod stripes (Demo.pool 2).1)%nat).
Proof.
  assert (Hr : Demo.reached 2 (Demo.demo 2 neighbours)) by (unfold neighbours; Demo.reach).
  pose proof (Demo.program 2 neighbours ltac:(lia) ltac:(vm_compute; reflexivity) Hr) as Hp.
  eexists. split; [vm_compute; reflexivity|]. split; [reflexivity|].
  eapply (pool_sandbox sim_page 2 true true _ _ _ _ _ _ _ _ _ _ _ _ _ _ _ _ 1 _ _ _ Hp (sim_keeps_protections _)); [vm_compute; reflexivity|vm_compute; reflexivity|reflexivity|].
  vm_compute. split; [discriminate|reflexivity].
Defined.

(** A memory of module 7 is in the second slot, of the second stripe, and is deallocated;
    a memory of module 9 is in the first slot. *)
Definition before_purge : list pool_op :=
  [PAllocate (Demo.request 1 7 None) Demo.plan 0; PAllocate (Demo.request 0 9 None) Demo.plan 0; PDeallocate 1; PFlush].
Definition after_purge : list pool_op := [PDeallocate 0; PAllocate (Demo.request 0 9 None) Demo.plan 0].

(** With two stripes, purging a module takes the wrong slot: the index within the
    stripe is used as the index of the slot.  A slot that a memory is using gets a second
    entry, which is dropped when the memory is deallocated and unmaps its pages; the next
    memory in the slot is handed out, and the first store of its guest within its bounds
    faults, although no system call was refused.  Without the purge the store succeeds. *)
Theorem purge_takes_slot_in_use :
  let purged := (Demo.demo 2 (before_purge ++ [PPurge 7] ++ after_purge)).1 in
  let kept := (Demo.demo 2 (before_purge ++ after_purge)).1 in
  (forall w, w = purged \/ w = kept -> exists x, pw_live w = [x] /\ x.1 = 0%nat /\ pm_size x.2 = 4) /\
  (Demo.run 2 purged (PStore 0 0 1)).2 = Panic /\ (Demo.run 2 kept (PStore 0 0 1)).2 = Ok () /\
  refusals (ps_mem (pw_state purged)) = [].
Proof.
  split_and!; [|vm_compute; reflexivity|vm_compute; reflexivity|reflexivity].
  intros w [-> | ->]; eexists; split_and!; vm_compute; reflexivity.
Qed.

(** Both slots are in use. *)
Lemma pool_loses_no_slot_witness : 1%nat ∈ (pw_live (Demo.demo 0 Demo.reuse).1).*1.
Proof.
  assert (Hr : Demo.reached 0 (Demo.demo 0 Demo.reuse)) by Demo.reach.
  pose proof (Demo.program 0 Demo.reuse ltac:(lia) ltac:(vm_compute; reflexivity) Hr) as Hp.
  eapply (pool_loses_no_slot sim_page 2 true true _ _ _ _ _ _ _ _ _ _ _ _ _ _ _ _ (Demo.request 0 7 None) Demo.plan 0 1 Hp);
    [Demo.allowed|vm_compute; reflexivity|vm_compute; lia|reflexivity].
Defined.
