(* ===== verification/ModuleImages.v ===== *)
(** * The images of a module

    [MemoryImage::new] and [ModuleMemoryImages] of [vm/cow.rs], [MemoryImageSource] of
    [vm/sys/unix/vm.rs] and the helper of [module.rs] that calls them: the images that
    [try_static_init] left in the data of a module become files that a slot can map.
    The theorem joins the pool to the initialisation of instances: a memory of the pool
    whose module has images starts as [StaticInit] asks of a memory with its image mapped. *)

From Stdlib Require Import ZArith Lia.
From stdpp Require Import base list gmap numbers option.
From S2P Require Import Prelude MemoryTypes Mappings LinearMemory MemoryInit ImageBuild Tables MemoryRun StaticInit Cow CowInv MemoryPool PoolInv PoolOps PoolWorld SlabLayout SimKernel PoolRun.
Open Scope Z_scope.

(** ** Sources *)

Inductive image_error := MemfdCreate | MemfdWrite | MemfdSeal.

(** The crate [memfd]: a descriptor for the data is made, if the kernel has such files;
    the data is written, and the file is sealed. *)
Class Memfd := {
  memfd_create : list Z -> outcome image_error (option Z);
  memfd_write_all : Z -> list Z -> bool;
  memfd_add_seals : Z -> bool
}.

(** What was written to a sealed file is its contents. *)
Class MemfdLaws (A : Type) `{!Kernel A} `{!Memfd} := {
  memfd_no_panic : forall data, memfd_create data <> Panic;
  memfd_contents : forall data fd, memfd_create data = Ok (Some fd) -> memfd_write_all fd data = true ->
    memfd_add_seals fd = true -> forall k b, data !! k = Some b -> file_byte (A := A) fd (Z.of_nat k) = b
}.

(** An [MmapVec]: its address and length, and the file and the offset in it. *)
Record MmapVec := { mv_start : Z; mv_len : Z; original_offset : Z; original_file : option Z }.

(** A slice of bytes at an address. *)
Record slice := { sl_start : Z; sl_bytes : list Z }.

Section Images.
  Context `{!Memfd} (linux : bool) (hp : Z) (oc dbg : bool).

Definition from_file (file : Z) : option Z := Some file.

Definition from_data (data : list Z) : outcome image_error (option Z) :=
  if linux then
    fd ← memfd_create data;
    match fd with
    | None => Ok None
    | Some fd =>
        if negb (memfd_write_all fd data) then Err MemfdWrite
        else if negb (memfd_add_seals fd) then Err MemfdSeal
        else Ok (Some fd)
    end
  else Ok None.

(** [%] on [u32] and [u64]. *)
Definition rem_of {E} (a b : Z) : outcome E Z := if b =? 0 then Panic else Ok (a mod b).
Definition assert_aligned {E} (a page_size : Z) : outcome E () := r ← rem_of a page_size; assert_ (r =? 0).
Definition as_u32 (a : Z) : Z := a mod 2 ^ 32.

(** The checks on a mapping, and the image in its file. *)
Definition image_in_mmap (page_size linear_memory_offset : Z) (data : slice) (mmap : MmapVec) : outcome image_error (option MemoryImage) :=
  let len := Z.of_nat (length (sl_bytes data)) in
  let start := mv_start mmap in
  end_ ← arith oc 64 (start + mv_len mmap);
  let data_start := sl_start data in
  data_end ← arith oc 64 (data_start + len);
  assert_ ((start <=? data_start) && (data_end <=? end_));;
  assert_aligned (as_u32 start) page_size;;
  assert_aligned (as_u32 data_start) page_size;;
  assert_aligned (as_u32 data_end) page_size;;
  assert_aligned (as_u32 (original_offset mmap)) page_size;;
  match original_file mmap with
  | Some file =>
      match from_file file with
      | Some source =>
          diff ← arith oc 64 (data_start - start);
          source_offset ← arith oc 64 (original_offset mmap + diff);
          Ok (Some {| source := source; img_len := len; source_offset := source_offset; linear_memory_offset := linear_memory_offset |})
      | None => Ok None
      end
  | None => Ok None
  end.

Definition memory_image_new (page_size offset : Z) (data : slice) (mmap : option MmapVec) : outcome image_error (option MemoryImage) :=
  let len := Z.of_nat (length (sl_bytes data)) in
  assert_aligned offset page_size;;
  assert_aligned (as_u32 len) page_size;;
  image ← match mmap with Some mmap => image_in_mmap page_size offset data mmap | None => Ok None end;
  match image with
  | Some image => Ok (Some image)
  | None =>
      source ← from_data (sl_bytes data);
      match source with
      | Some source => Ok (Some {| source := source; img_len := len; source_offset := 0; linear_memory_offset := offset |})
      | None => Ok None
      end
  end.

(** [&wasm_data[range]]. *)
Definition sub_slice {E} (wasm_data : slice) (range : data_range) : outcome E slice :=
  assert_ ((fst range <=? snd range) && (snd range <=? Z.of_nat (length (sl_bytes wasm_data))));;
  Ok {| sl_start := sl_start wasm_data + fst range;
        sl_bytes := take (Z.to_nat (snd range - fst range)) (drop (Z.to_nat (fst range)) (sl_bytes wasm_data)) |}.

(** One turn of the loop of [ModuleMemoryImages::new]: [None] gives up on all images. *)
Definition image_of_memory (m : MemModule) (wasm_data : slice) (mmap : option MmapVec) (index : nat) (init : option StaticMemoryInitializer)
  : outcome image_error (option (option MemoryImage)) :=
  match defined_memory_index m index with
  | None => Ok None
  | Some _ =>
      match init with
      | None => Ok (Some None)
      | Some init =>
          data ← sub_slice wasm_data (si_data init);
          plan ← unwrap (memory_plans m !! index);
          size ← minimum_byte_size dbg (memory plan);
          too_large ← match size with
                      | Some mem_initial_len =>
                          end_ ← arith oc 64 (si_offset init + Z.of_nat (length (sl_bytes data)));
                          Ok (mem_initial_len <? end_)
                      | None => Ok false
                      end;
          if too_large : bool then Ok None
          else
            image ← memory_image_new (as_u32 hp) (si_offset init) data mmap;
            match image with Some image => Ok (Some (Some image)) | None => Ok None end
      end
  end.

Fixpoint images_new (m : MemModule) (wasm_data : slice) (mmap : option MmapVec) (index : nat)
    (map : list (option StaticMemoryInitializer)) (memories : list (option MemoryImage)) : outcome image_error (option (list (option MemoryImage))) :=
  match map with
  | [] => Ok (Some memories)
  | init :: map =>
      image ← image_of_memory m wasm_data mmap index init;
      match image with
      | None => Ok None
      | Some image =>
          assert_ (match image with Some _ => bool_decide (defined_memory_index m index = Some (length memories)) | None => true end);;
          images_new m wasm_data mmap (S index) map (memories ++ [image])
      end
  end.

Definition module_memory_images_new (m : MemModule) (wasm_data : slice) (mmap : option MmapVec) : outcome image_error (option (list (option MemoryImage))) :=
  match memory_initialization m with
  | StaticInit map => images_new m wasm_data mmap 0 map []
  | Segmented _ => Ok None
  end.

(** [memory_images] of [module.rs], with the settings [memory_init_cow] and
    [force_memory_init_memfd]. *)
Definition memory_images (cow force_memfd : bool) (m : MemModule) (wasm_data : slice) (mmap : MmapVec) : outcome image_error (option (list (option MemoryImage))) :=
  if negb cow then Ok None else module_memory_images_new m wasm_data (if force_memfd then None else Some mmap).

(** [ModuleRuntimeInfo::memory_image] and [get_memory_image]. *)
Definition get_memory_image {E} (memories : list (option MemoryImage)) (defined_index : nat) : outcome E (option MemoryImage) := unwrap (memories !! defined_index).
Definition memory_image {E} (images : option (list (option MemoryImage))) (defined_index : nat) : outcome E (option MemoryImage) :=
  match images with Some images => get_memory_image images defined_index | None => Ok None end.
End Images.

(** A memory of the pool, as instances see it: its pages, its length, and whether its
    segments are still to be run. *)
Definition pool_needs_init (m : PoolMemory) : bool := negb (has_image (pm_slot m)).
Definition pool_runtime_memory {A} `{!Kernel A} (hp : Z) (a : A) (m : PoolMemory) : RuntimeMemory :=
  {| rm_bytes := (fun k => guest_byte a m (Z.of_nat k)) <$> seq 0 (Z.to_nat (rounded hp (pm_size m)));
     rm_length := pm_size m; rm_needs_init := pool_needs_init m |}.

(** ** What an image shows *)

(** The data of the module lies in its mapping, and is what the file has there. *)
Record mapping_ok {A} `{!Kernel A} (wasm_data : slice) (mmap : MmapVec) : Prop := {
  mo_start : 0 <= mv_start mmap <= sl_start wasm_data;
  mo_end : sl_start wasm_data + Z.of_nat (length (sl_bytes wasm_data)) <= mv_start mmap + mv_len mmap < 2 ^ 64;
  mo_offset : 0 <= original_offset mmap /\ original_offset mmap + mv_len mmap < 2 ^ 64;
  mo_file : forall fd, original_file mmap = Some fd -> forall k b, sl_bytes wasm_data !! k = Some b ->
    file_byte (A := A) fd (original_offset mmap + (sl_start wasm_data - mv_start mmap) + Z.of_nat k) = b
}.

(** An image of the bytes [d] at an offset. *)
Record image_holds {A} `{!Kernel A} (hp offset : Z) (d : list Z) (image : MemoryImage) : Prop := {
  ih_offset : linear_memory_offset image = offset;
  ih_len : img_len image = Z.of_nat (length d);
  ih_offset_page : offset mod hp = 0;
  ih_len_page : Z.of_nat (length d) mod hp = 0;
  ih_bytes : forall k b, d !! k = Some b -> file_byte (A := A) (source image) (source_offset image + Z.of_nat k) = b
}.

Section Facts.
  Context {A : Type} `{!Kernel A} `{!Memfd} `{!MemfdLaws A} (linux : bool) (hp k : Z) (oc dbg : bool) (Hk : 0 < k < 32) (Hhp : hp = 2 ^ k).

Lemma page_u32 : as_u32 hp = hp.
Proof using Hk Hhp. unfold as_u32. apply Z.mod_small. rewrite Hhp. split; [apply Z.pow_nonneg; lia|]. apply Z.pow_lt_mono_r; lia. Qed.

Lemma page_pos : 0 < hp.
Proof using Hk Hhp. rewrite Hhp. apply Z.pow_pos_nonneg; lia. Qed.

Lemma aligned_inv {E} a u : assert_aligned (E := E) a hp = Ok u -> a mod hp = 0.
Proof using Hk Hhp.
  pose proof page_pos. unfold assert_aligned, rem_of. rewrite (proj2 (Z.eqb_neq hp 0)) by lia. cbn [mbind outcome_bind].
  unfold assert_. by destruct (Z.eqb_spec (a mod hp) 0).
Qed.

Lemma aligned_u32 a : as_u32 a mod hp = 0 -> a mod hp = 0.
Proof using Hk Hhp.
  unfold as_u32. rewrite Hhp. rewrite Z.mod_mod_divide; [done|]. exists (2 ^ (32 - k)). rewrite <- Z.pow_add_r by lia. f_equal. lia.
Qed.

Lemma from_data_ok data fd : from_data linux data = Ok (Some fd) -> forall i b, data !! i = Some b -> file_byte (A := A) fd (Z.of_nat i) = b.
Proof using MemfdLaws0.
  unfold from_data. destruct linux; [|done]. destruct (memfd_create data) as [[f|]|e|] eqn:Hc; [|done..]. cbn [mbind outcome_bind].
  destruct (memfd_write_all f data) eqn:Hw; [|done]. destruct (memfd_add_seals f) eqn:Hs; [|done]. cbn. intros [= <-]. by eapply memfd_contents.
Qed.

Lemma sub_slice_inv {E} wd range d : sub_slice (E := E) wd range = Ok d ->
  fst range <= snd range <= Z.of_nat (length (sl_bytes wd)) /\ sl_start d = sl_start wd + fst range /\
  sl_bytes d = take (Z.to_nat (snd range - fst range)) (drop (Z.to_nat (fst range)) (sl_bytes wd)).
Proof.
  unfold sub_slice, assert_. destruct (_ && _) eqn:Hb; [|done]. cbn. intros [= <-]. apply andb_true_iff in Hb as [H1%Z.leb_le H2%Z.leb_le]. split_and!; done || lia.
Qed.

Lemma image_in_mmap_ok offset wd range d mmap image :
  mapping_ok (A := A) wd mmap -> 0 <= fst range -> sub_slice (E := image_error) wd range = Ok d ->
  image_in_mmap oc hp offset d mmap = Ok (Some image) ->
  linear_memory_offset image = offset /\ img_len image = Z.of_nat (length (sl_bytes d)) /\
  forall i b, sl_bytes d !! i = Some b -> file_byte (A := A) (source image) (source_offset image + Z.of_nat i) = b.
Proof using Hk Hhp.
  intros [Hs He [Ho Hol] Hf] H0 Hd. apply sub_slice_inv in Hd as (Hr & Hst & Hb). unfold image_in_mmap.
  assert (Hlen : Z.of_nat (length (sl_bytes d)) = snd range - fst range) by (rewrite Hb, length_take, length_drop; lia).
  rewrite !arith_ok by (unfold in_u; lia). cbn [mbind outcome_bind]. intros Hi. repeat (apply bind_Ok_inv in Hi as ([] & _ & Hi)).
  destruct (original_file mmap) as [fd|] eqn:Hfd; [|done]. cbn [from_file] in Hi. rewrite ?arith_ok in Hi by (unfold in_u; lia). cbn [mbind outcome_bind] in Hi.
  rewrite ?arith_ok in Hi by (unfold in_u; lia). injection Hi as <-. cbn. split_and!; [done..|]. intros i b Hib. rewrite Hb in Hib.
  assert (Hil : (i < Z.to_nat (snd range - fst range))%nat) by (apply lookup_lt_Some in Hib; rewrite length_take in Hib; lia).
  rewrite lookup_take_lt, lookup_drop in Hib by done. rewrite <- (Hf fd eq_refl _ _ Hib). f_equal. lia.
Qed.

Lemma memory_image_new_ok offset wd range d mmap image :
  match mmap with Some mmap => mapping_ok (A := A) wd mmap | None => True end -> 0 <= fst range -> sub_slice (E := image_error) wd range = Ok d ->
  memory_image_new linux oc hp offset d mmap = Ok (Some image) -> image_holds (A := A) hp offset (sl_bytes d) image.
Proof using Hk Hhp MemfdLaws0.
  intros Hm H0 Hd Hi. unfold memory_image_new in Hi. apply bind_Ok_inv in Hi as ([] & Ho & Hi). apply bind_Ok_inv in Hi as ([] & Hl & Hi).
  apply aligned_inv in Ho, Hl. apply aligned_u32 in Hl. apply bind_Ok_inv in Hi as (o & Hmm & Hi). destruct o as [im|].
  - injection Hi as <-. destruct mmap as [mmap|]; [|done]. destruct (image_in_mmap_ok _ _ _ _ _ _ Hm H0 Hd Hmm) as (H1 & H2 & H3). by split.
  - clear Hmm. apply bind_Ok_inv in Hi as (o & Hs & Hi). destruct o as [fd|]; [|done]. injection Hi as <-. split; cbn; try done. by apply from_data_ok.
Qed.

(** The image for an initializer of a memory of [plan]. *)
Definition image_for (wd : slice) (plan : MemoryPlan) (init : option StaticMemoryInitializer) (image : option MemoryImage) : Prop :=
  match init, image with
  | None, None => True
  | Some init, Some image => exists d, sub_slice (E := image_error) wd (si_data init) = Ok d /\ image_holds (A := A) hp (si_offset init) (sl_bytes d) image /\
      forall n, min_bytes (memory plan) = Some n -> si_offset init + Z.of_nat (length (sl_bytes d)) <= n
  | _, _ => False
  end.

(** Initializers whose data is not empty and ends in the address space. *)
Definition initializer_ok (init : option StaticMemoryInitializer) : Prop :=
  match init with
  | Some init => 0 <= si_offset init /\ 0 <= fst (si_data init) < snd (si_data init) /\ si_offset init + range_len (si_data init) < 2 ^ 64
  | None => True
  end.

Context (m : MemModule) (wd : slice) (mmap : option MmapVec) (Hmap : match mmap with Some mmap => mapping_ok (A := A) wd mmap | None => True end).
Context (Htypes : Forall (fun plan => type_ok (memory plan)) (memory_plans m)).

Lemma image_of_ok index init image :
  initializer_ok init -> image_of_memory linux hp oc dbg m wd mmap index init = Ok (Some image) ->
  defined_memory_index m index <> None /\ forall plan, memory_plans m !! index = Some plan -> image_for wd plan init image.
Proof using Hk Hhp MemfdLaws0 Hmap Htypes.
  intros Hok Hi. unfold image_of_memory in Hi. destruct (defined_memory_index m index) as [d|]; [|done]. split; [done|]. intros plan Hp.
  destruct init as [init|]; [|by injection Hi as <-]. destruct Hok as (Ho & Hr & Hend). apply bind_Ok_inv in Hi as (data & Hs & Hi). rewrite Hp in Hi. cbn [unwrap mbind outcome_bind] in Hi.
  assert (Ht : type_ok (memory plan)) by (rewrite list.Forall_forall in Htypes; apply Htypes; by eapply list_elem_of_lookup_2).
  rewrite minimum_eq in Hi by done. cbn [mbind outcome_bind] in Hi. rewrite page_u32 in Hi.
  assert (Hlen : Z.of_nat (length (sl_bytes data)) = range_len (si_data init)).
  { apply sub_slice_inv in Hs as (Hb & _ & ->). rewrite length_take, length_drop. unfold range_len. lia. }
  apply bind_Ok_inv in Hi as (b & Hb & Hi). destruct b; [done|]. apply bind_Ok_inv in Hi as (o & Hn & Hi). destruct o as [im|]; [|done]. injection Hi as <-.
  exists data. split; [done|]. split; [eapply memory_image_new_ok; [done| |done..]; lia|]. intros n Hmin. rewrite Hmin in Hb.
  rewrite Hlen in *. rewrite arith_ok in Hb by (unfold in_u, range_len in *; lia). cbn [mbind outcome_bind] in Hb. injection Hb as Hb. apply Z.ltb_ge in Hb. lia.
Qed.

Lemma images_new_ok map index memories images :
  Forall initializer_ok map -> images_new linux hp oc dbg m wd mmap index map memories = Ok (Some images) ->
  exists l, images = memories ++ l /\ length l = length map /\
    forall j init, map !! j = Some init -> defined_memory_index m (index + j) <> None /\
      exists image, l !! j = Some image /\ forall plan, memory_plans m !! (index + j)%nat = Some plan -> image_for wd plan init image.
Proof using Hk Hhp MemfdLaws0 Hmap Htypes.
  revert index memories. induction map as [|init map IH]; intros index memories Hok Hi; cbn [images_new] in Hi.
  - injection Hi as <-. exists []. rewrite app_nil_r. done.
  - apply list.Forall_cons in Hok as [Hok1 Hok]. apply bind_Ok_inv in Hi as (o & Ho & Hi). destruct o as [image|]; [|done].
    apply image_of_ok in Ho as [Hdef Himg]; [|done]. apply bind_Ok_inv in Hi as ([] & _ & Hi). destruct (IH _ _ Hok Hi) as (l & -> & Hl & Heach).
    exists (image :: l). rewrite <- app_assoc. split_and!; [done|cbn; lia|]. intros [|j] init' Hj; cbn in Hj.
    + injection Hj as <-. rewrite Nat.add_0_r. split; [done|]. by exists image.
    + rewrite <- Nat.add_succ_comm. by apply Heach.
Qed.

Lemma module_images_ok images :
  (forall map, memory_initialization m = StaticInit map -> Forall initializer_ok map) ->
  module_memory_images_new linux hp oc dbg m wd mmap = Ok (Some images) ->
  exists map, memory_initialization m = StaticInit map /\ length images = length map /\
    forall j init, map !! j = Some init -> defined_memory_index m j <> None /\
      exists image, images !! j = Some image /\ forall plan, memory_plans m !! j = Some plan -> image_for wd plan init image.
Proof using Hk Hhp MemfdLaws0 Hmap Htypes.
  intros Hok. unfold module_memory_images_new. destruct (memory_initialization m) as [l|map]; [done|]. intros Hi.
  destruct (images_new_ok map 0 [] images (Hok map eq_refl) Hi) as (l & -> & Hl & Heach). by exists map.
Qed.
End Facts.

(** ** Images from the compiler

    The images that [try_static_init] makes, and that [append_module] moves to their
    place in the data of the object, are not empty and end in the address space. *)

Lemma images_from_init ps data base infos map blocks :
  0 < ps -> 0 <= base -> images_from ps data base infos map blocks -> Forall (fun info => rounded ps (max_addr info) < 2 ^ 32) infos -> Forall initializer_ok map.
Proof.
  intros Hps Hb Hi. induction Hi as [base|base info infos map blocks Hempty Hi IH|base info infos map blocks o b Hne Hpos Ho Hom Hlm Hend Hw Hb32 Hi IH]; intros Hf; [constructor|..];
    apply list.Forall_cons in Hf as [Hr Hf]; (constructor; [|apply IH; done || lia]); [done|].
  cbn. unfold range_len. cbn. split_and!; lia.
Qed.

Lemma shift_init_ok {E} off map map' : 0 <= off -> Forall initializer_ok map -> shift_images (E := E) off map = Ok map' -> Forall initializer_ok map'.
Proof.
  intros Hoff. revert map'. induction map as [|[i|] map IH]; intros map' Hok Hs; cbn [shift_images] in Hs.
  - injection Hs as <-. constructor.
  - apply list.Forall_cons in Hok as [(H1 & H2 & H3) Hok]. apply bind_Ok_inv in Hs as (r & Hr & Hs). apply bind_Ok_inv in Hs as (map2 & Hm & Hs). injection Hs as <-.
    constructor; [|by apply IH]. unfold shift_range in Hr.
    apply bind_Ok_inv in Hr as (a & Ha & Hr). apply unwrap_Ok, checked_Some in Ha as [_ ->].
    apply bind_Ok_inv in Hr as (c & Hc & Hr). apply unwrap_Ok, checked_Some in Hc as [_ ->]. injection Hr as <-.
    cbn. unfold range_len in *. cbn in *. split_and!; lia.
  - apply list.Forall_cons in Hok as [_ Hok]. apply bind_Ok_inv in Hs as (map2 & Hm & Hs). injection Hs as <-. constructor; [done|by apply IH].
Qed.

(** A module as the compiler leaves it: its data section is translated, its segments are
    made images where possible, and its data is appended to the object. *)
Record compiled_module `{!SectionWriter} (oc dbg : bool) (ps : Z) (plans : list MemoryPlan) (m : MemModule) (data : list Z) : Prop := {
  cm_pages : 0 < ps < 2 ^ 32;
  cm_fit : images_fit ps plans;
  cm_types : Forall (fun plan => type_ok (memory plan)) plans;
  cm_chain : exists n entries t max t' section, translate_data_section n plans entries = Ok t /\ Forall (entry_ok plans) entries /\
    try_static_init (E := Empty_set) oc dbg ps max t = Ok t' /\ append_module (E := Empty_set) oc section t' = Ok (m, data)
}.

Lemma compiled_init `{!SectionWriter} `{!SectionWriterLaws} oc dbg ps plans m data :
  compiled_module oc dbg ps plans m data -> memory_plans m = plans /\ forall map, memory_initialization m = StaticInit map -> Forall initializer_ok map.
Proof.
  intros [Hps Hfit Ht (n & entries & t & max & t' & section & Htr & He & Hst & Ha)].
  assert (Hp : Forall page_ok plans) by (eapply list.Forall_impl; [exact Ht|]; intros plan []; unfold page_ok; tauto).
  destruct (translate_section_ok n plans entries t Hp He Htr) as (l & Htl & Hal & Hplans & _).
  destruct (try_static_init_ok (E := Empty_set) oc dbg ps max t l Htl Hps ltac:(by rewrite Hplans)) as (t2 & Hst2 & Hcase). rewrite Hst in Hst2. injection Hst2 as <-.
  assert (Halign : forall a, t_data_align t' = Some a -> 0 < a).
  { destruct Hcase as [->|(map & _ & -> & _)]; [by rewrite Hal|intros a [= <-]; lia]. }
  destruct (append_module_ok oc section t' m data Halign Ha) as (pre & post & _ & _ & Hpl & Hsh). split.
  { rewrite Hpl. destruct Hcase as [->|(map & -> & _)]; done. }
  intros map' Hm'. rewrite Hm' in Hsh. destruct Hcase as [->|(map & Hm & _ & _ & Hsi)].
  - rewrite (tr_init _ _ Htl) in Hsh. cbn [shift_initialization] in Hsh. by apply bind_Ok_inv in Hsh as (l' & _ & [=]).
  - rewrite Hm in Hsh. cbn [set_memory_initialization memory_initialization shift_initialization] in Hsh. apply bind_Ok_inv in Hsh as (map2 & Hs & Hx). injection Hx as <-.
    destruct Hsi as [(infos & blocks & placed & Himg & _ & _ & Hlen & Hinfo)].
    eapply shift_init_ok; [|eapply (images_from_init ps (t_data t) 0); [lia|lia|exact Himg|]|exact Hs]; [lia|]. apply Forall_lookup. intros j info Hj.
    destruct (lookup_lt_is_Some_2 (memory_plans (t_module t)) j) as [plan Hpj]; [rewrite <- Hlen; by eapply lookup_lt_Some|].
    destruct (Hinfo j plan info Hpj Hj) as [Hmax _]. rewrite Hplans in Hpj.
    pose proof (images_fit_each ps plans plan ltac:(lia) Hfit ltac:(by eapply list_elem_of_lookup_2)). pose proof (padded_mono ps _ _ ltac:(lia) Hmax). lia.
Qed.

(** ** Memories of the pool that start with an image *)

Section Start.
  Context {A L : Type} `{!Kernel A} `{!ResourceLimiter L} (hp : Z) `{!KernelLaws A hp} (oc dbg : bool).
  Context (behavior : DecommitBehavior) (P : MemoryPool) (Hhp : 0 < hp) (Hlo : layout_ok hp P) (Hlim : limiter_ok (L:=L)).

(** What the pages of a new memory hold. *)
Lemma allocated_pages w mems request plan index w' :
  world_ok (A := A) (L := L) hp behavior P w mems -> request_ok hp oc dbg P request plan ->
  run_op oc dbg behavior P w (PAllocate request plan index) = (w', Ok ()) ->
  exists x image, pw_live w' = x :: pw_live w /\ rq_image request = Some image /\ s_image (pm_slot x.2) = image /\
    min_bytes (memory plan) = Some (pm_size x.2) /\ 0 <= pm_size x.2 /\
    forall k, 0 <= k < rounded hp (pm_size x.2) -> guest_byte (ps_mem (pw_state w')) x.2 k = image_byte image k.
Proof using KernelLaws0 Hlo Hhp Hlim.
  intros Hw Hr Hrun. pose proof (allocate_memory_ok hp oc dbg behavior P Hhp Hlo Hlim request plan index (pw_state w) (pw_live w) Hr (proj1 Hw)) as Ha.
  unfold run_op in Hrun. unfold pwp in Ha. destruct (allocate_memory _ _ _ _ _ _ _ _) as [st [x|e|]]; [|done..]. injection Hrun as <-.
  destruct Ha as (_ & _ & Hs & image & Hi & [Hsz Him Hc _]). exists x, image. cbn [pw_live pw_state]. pose proof (pi_live _ _ _ _ _ _ _ Hs) as Hl.
  apply list.Forall_cons in Hl as [[Hsa _ Hb _ _ _] _]. split_and!; try done; [lia|]. intros k Hk.
  destruct (sa_ok _ _ _ _ Hsa). pose proof (rounded_mono hp (pm_size x.2) (s_static_size (pm_slot x.2)) Hhp ltac:(lia)).
  destruct (Hc k) as (Ho & _ & Hv); [lia|]. unfold guest_byte. rewrite Hv, Ho, Him; [done|]. by intros [].
Qed.

Lemma pages_none N : (fun k => image_byte (A := A) None (Z.of_nat k)) <$> seq 0 N = zeros N.
Proof. apply list_eq. intros i. rewrite list_lookup_fmap, lookup_zeros. case_decide; [by rewrite lookup_seq_lt|by rewrite lookup_seq_ge by lia]. Qed.

Lemma pages_image offset d image N :
  image_holds (A := A) hp offset d image -> 0 <= offset -> offset + Z.of_nat (length d) <= Z.of_nat N ->
  (fun k => image_byte (A := A) (Some image) (Z.of_nat k)) <$> seq 0 N = overwrite (zeros N) (Z.to_nat offset) d.
Proof.
  intros [Ho Hl _ _ Hb] H0 Hn. apply list_eq. intros i. rewrite list_lookup_fmap, overwrite_lookup by (unfold zeros; rewrite length_replicate; lia).
  rewrite lookup_zeros. destruct (decide (i < N)%nat) as [Hi|Hi]; [rewrite lookup_seq_lt by done|rewrite lookup_seq_ge, decide_False by lia; done]. cbn.
  rewrite Ho, Hl. case_decide as Hin; [rewrite decide_True by lia|by rewrite decide_False by lia].
  destruct (lookup_lt_is_Some_2 d (i - Z.to_nat offset)) as [b Hd]; [lia|]. rewrite Hd. f_equal. rewrite <- (Hb _ _ Hd). f_equal. lia.
Qed.
End Start.


(** The image of a memory is an image that a slot can map. *)
Lemma image_for_in {A} `{!Kernel A} hp wd plan init image n :
  initializer_ok init -> image_for (A := A) hp wd plan init image -> min_bytes (memory plan) = Some n -> images_in hp image n.
Proof.
  destruct init as [init|], image as [image|]; cbn; try done. intros (Ho & Hr & _) (d & Hd & [Hio Hil Hop Hlp _] & Hend) Hn. specialize (Hend n Hn).
  apply sub_slice_inv in Hd as (Hb & _ & Hd). assert (Hlen : Z.of_nat (length (sl_bytes d)) = snd (si_data init) - fst (si_data init)) by (rewrite Hd, length_take, length_drop; lia).
  split; rewrite ?Hio, ?Hil; done || lia.
Qed.

(** The image that a request gets, and what it is an image of. *)
Lemma module_image_ok {A} `{!Kernel A} `{!Memfd} `{!MemfdLaws A} linux hp k oc dbg cow force m wd mmap images j plan i image :
  0 < k < 32 -> hp = 2 ^ k -> mapping_ok (A := A) wd mmap -> Forall (fun plan => type_ok (memory plan)) (memory_plans m) ->
  (forall map, memory_initialization m = StaticInit map -> Forall initializer_ok map) ->
  memory_images linux hp oc dbg cow force m wd mmap = Ok images -> memory_plans m !! j = Some plan -> defined_memory_index m j = Some i ->
  memory_image (E := image_error) images i = Ok image ->
  image = None \/ exists map init, memory_initialization m = StaticInit map /\ map !! j = Some (Some init) /\ initializer_ok (Some init) /\ image_for (A := A) hp wd plan (Some init) image.
Proof.
  intros Hk Hhp Hmo Ht Hok Hi Hp Hd Him. unfold memory_images in Hi. destruct cow; [|injection Hi as <-; injection Him as <-; by left]. cbn [negb] in Hi.
  destruct images as [images|]; [|injection Him as <-; by left]. apply (module_images_ok (A := A) linux hp k oc dbg Hk Hhp) in Hi as (map & Hm & Hlen & Heach); [|by destruct force|done|done].
  cbn in Him. unfold get_memory_image in Him. apply unwrap_Ok in Him.
  destruct (lookup_lt_is_Some_2 map i) as [init Hinit]; [rewrite <- Hlen; by eapply lookup_lt_Some|].
  assert (Hzero : num_imported_memories m = 0%nat).
  { destruct (lookup_lt_is_Some_2 map 0) as [init0 H0]; [apply lookup_lt_Some in Hinit; lia|]. destruct (Heach _ _ H0) as [Hdef _].
    unfold defined_memory_index in Hdef. case_decide; [done|lia]. }
  assert (i = j) as -> by (unfold defined_memory_index in Hd; rewrite Hzero in Hd; case_decide; [lia|]; injection Hd as <-; lia).
  destruct (Heach _ _ Hinit) as (_ & image' & Hi' & Hfor). rewrite Him in Hi'. injection Hi' as <-. specialize (Hfor plan Hp).
  destruct init as [init|]; [|by destruct image; [done|left]]. right. exists map, init. split_and!; try done.
  specialize (Hok map Hm). rewrite list.Forall_forall in Hok. apply (Hok (Some init)). by eapply list_elem_of_lookup_2.
Qed.

Section Pooled.
  Context {A L : Type} `{!Kernel A} `{!ResourceLimiter L} (hp : Z) `{!KernelLaws A hp} `{!Memfd} `{!MemfdLaws A} `{!SectionWriter} `{Hsw : !SectionWriterLaws}.
  Context (k : Z) (linux oc dbg : bool) (behavior : DecommitBehavior).
  Context (sys : os) (a : A) (store : option L) (limits : InstanceLimits) (t : Tunables) (mw keep batch : Z).
  Context (enabled : MpkEnabled) (supported : bool) (keys : Z) (P : MemoryPool) (st0 : pool_state A L).

(** A request for the memory [j] of an instance of a compiled module, with the image that
    the module has for it. *)
Record instance_request (ps : Z) (plans : list MemoryPlan) (inst : MemInstance) (cow force : bool) (wd : slice) (mmap : MmapVec)
    (images : option (list (option MemoryImage))) (j i : nat) (plan : MemoryPlan) (request : Request) : Prop := {
  ir_compiled : compiled_module oc dbg ps plans (im_module inst) (im_wasm_data inst);
  ir_data : sl_bytes wd = im_wasm_data inst;
  ir_mapping : mapping_ok (A := A) wd mmap;
  ir_images : memory_images linux hp oc dbg cow force (im_module inst) wd mmap = Ok images;
  ir_plan : plans !! j = Some plan;
  ir_defined : defined_memory_index (im_module inst) j = Some i;
  ir_image : exists image, memory_image (E := image_error) images i = Ok image /\ rq_image request = Some image;
  ir_private : shared (memory plan) = false;
  ir_valid : validate_plan oc dbg P plan = Ok ();
  ir_key : match rq_pkey request with Some key => (key < stripes P)%nat | None => stripes P = 1%nat end
}.

(** C16: From the compiler to a memory of the pool: whatever the pool was used for before,
    a memory that is allocated for an instance of a compiled module starts as a new
    memory of zeros whose segments are to be run, or as that memory with the module's
    image mapped and no segments to be run.  This is what the theorem on images and
    segments assumes of memories. *)
Theorem pooled_memory_prepared w mems w' ps plans inst cow force wd mmap images j i plan request :
  pool_program hp k oc dbg behavior sys a store limits t mw keep batch enabled supported keys P st0 w mems -> k < 32 ->
  instance_request ps plans inst cow force wd mmap images j i plan request ->
  run_op oc dbg behavior P w (PAllocate request plan (Z.of_nat i)) = (w', Ok ()) ->
  exists x mem, pw_live w' = x :: pw_live w /\ fresh_memory hp plan mem /\ prepared inst j mem (pool_runtime_memory hp (ps_mem (pw_state w')) x.2).
Proof using KernelLaws0 MemfdLaws0 Hsw.
  intros Hpp Hk32 Hir Hrun. pose proof (program_world _ _ _ _ _ _ _ _ _ _ _ _ _ _ _ _ _ _ _ _ Hpp) as Hw. destruct (program_new _ _ _ _ _ _ _ _ _ _ _ _ _ _ _ _ _ _ _ _ Hpp) as [Hpos Hnp].
  destruct Hpp as [[Hk Hhp] Hl _ _ _ _ _]. destruct Hir as [Hcm Hwd Hmo Hims Hp Hd (image & Hmi & Hrq) Hpr Hva Hkey].
  destruct (compiled_init _ _ _ _ _ _ Hcm) as [Hplans Hok]. pose proof (cm_types _ _ _ _ _ _ Hcm) as Hts. rewrite <- Hplans in Hts, Hp.
  assert (Ht : type_ok (memory plan)) by (rewrite list.Forall_forall in Hts; apply Hts; by eapply list_elem_of_lookup_2).
  pose proof (module_image_ok linux hp k oc dbg cow force _ wd mmap images j plan i image ltac:(lia) Hhp Hmo Hts Hok Hims Hp Hd Hmi) as Hcase.
  assert (Hreq : request_ok hp oc dbg P request plan).
  { split; try done. intros im min Him Hmin. rewrite Hrq in Him. injection Him as <-. destruct Hcase as [->|(map & init & _ & _ & Hio & Hfor)]; [done|]. by eapply image_for_in. }
  destruct (allocated_pages hp oc dbg behavior P Hpos (np_layout _ _ _ _ _ _ _ Hnp) Hl _ _ _ _ _ _ Hw Hreq Hrun) as (x & im & Hlive & Him & Hsi & Hmin & Hsz & Hbytes).
  rewrite Hrq in Him. injection Him as <-. set (N := Z.to_nat (rounded hp (pm_size x.2))). destruct (rounded_bounds hp (pm_size x.2) Hpos) as [Hrb _].
  assert (Hpages : rm_bytes (pool_runtime_memory hp (ps_mem (pw_state w')) x.2) = (fun k => image_byte image (Z.of_nat k)) <$> seq 0 N).
  { apply list_fmap_ext. intros n y Hy. apply lookup_seq in Hy as [-> Hy]. apply Hbytes. lia. }
  exists x, {| rm_bytes := zeros N; rm_length := pm_size x.2; rm_needs_init := true |}. split_and!; [done| |].
  - assert (HN : length (zeros N) = N) by apply length_replicate. split; cbn; rewrite ?HN; try done || lia.
  - destruct Hcase as [->|(map & init & Hm & Hj & Hio & Hfor)].
    + left. unfold pool_runtime_memory in *. cbn [rm_bytes] in Hpages. rewrite Hpages, pages_none. unfold pool_needs_init, has_image. by rewrite Hsi.
    + right. destruct image as [image|]; [|done]. destruct Hfor as (d & Hsub & Hholds & Hend). specialize (Hend _ Hmin).
      split_and!; [unfold pool_runtime_memory, pool_needs_init, has_image; cbn; by rewrite Hsi|done|]. exists map, init, (sl_bytes d). split_and!; try done.
      * apply sub_slice_inv in Hsub as (Hr & _ & ->). unfold wasm_data. rewrite <- Hwd, (proj2 (Z.leb_le _ _)), (proj2 (Z.leb_le _ _)) by lia. done.
      * rewrite Hpages. destruct Hio. apply (pages_image hp); [done|lia|lia].
Qed.
End Pooled.

(** ** A module with one page of data *)

(** A system whose only anonymous file has the bytes of the file 1. *)
#[export] Instance sim_memfd : Memfd := {
  memfd_create data := if decide (data = (fun k => sim_file 1 (Z.of_nat k)) <$> seq 0 (length data)) then Ok (Some 1) else Ok None;
  memfd_write_all _ _ := true;
  memfd_add_seals _ := true
}.

#[export] Instance sim_memfd_laws : MemfdLaws sim_memory.
Proof.
  split; cbn; intros data; [by case_decide|]. intros fd. case_decide as Hd; [|done]. intros [= <-] _ _ k b Hk.
  rewrite Hd, list_lookup_fmap in Hk. destruct (seq _ _ !! k) as [n|] eqn:Hn; [|done]. apply lookup_seq in Hn as [-> _]. by injection Hk.
Qed.

Definition page_entries : list (DataKind * list Z) := [(Active 0 [ConstExpr.I32Const 0], [11; 12; 13; 14])].
Definition page_instance : MemInstance := data_instance 4 4 true page_entries.
Definition page_slice : slice := {| sl_start := 4096; sl_bytes := im_wasm_data page_instance |}.
Definition page_mmap : MmapVec := {| mv_start := 4096; mv_len := 8; original_offset := 0; original_file := None |}.
Definition page_images : option (list (option MemoryImage)) :=
  Some [Some {| source := 1; img_len := 4; source_offset := 0; linear_memory_offset := 0 |}].
Definition page_request : Request := Demo.request 0 5 (Some {| source := 1; img_len := 4; source_offset := 0; linear_memory_offset := 0 |}).
Definition used_pool : list pool_op := Demo.reuse ++ [PDeallocate 0].

Lemma page_request_ok :
  instance_request (A := sim_memory) sim_page true true true (Demo.pool 0).1 4 [byte_plan 4] page_instance true true page_slice page_mmap page_images 0 0 (byte_plan 4) page_request.
Proof.
  split; try (vm_compute; reflexivity).
  - split; [lia|vm_compute; reflexivity|constructor; [split; [done|done|by left]|constructor]|].
    exists 0%nat, page_entries. eexists _, 64, _, [7; 7; 7]. split_and!; [vm_compute; reflexivity|repeat constructor|vm_compute; reflexivity|vm_compute; reflexivity].
  - split; vm_compute; try done.
  - eexists. split; vm_compute; reflexivity.
Qed.

Lemma pooled_memory_prepared_witness :
  let w' := (Demo.run 0 (Demo.demo 0 used_pool).1 (PAllocate page_request (byte_plan 4) 0)).1 in
  exists x mem, pw_live w' = x :: pw_live (Demo.demo 0 used_pool).1 /\ fresh_memory sim_page (byte_plan 4) mem /\
    prepared page_instance 0 mem (pool_runtime_memory sim_page (ps_mem (pw_state w')) x.2) /\
    rm_bytes (pool_runtime_memory sim_page (ps_mem (pw_state w')) x.2) = [11; 12; 13; 14].
Proof.
  assert (Hr : Demo.reached 0 (Demo.demo 0 used_pool)) by (unfold used_pool; Demo.reach).
  pose proof (Demo.program 0 used_pool ltac:(lia) ltac:(vm_compute; reflexivity) Hr) as Hp.
  destruct (pooled_memory_prepared sim_page 2 true true true _ _ _ _ _ _ _ _ _ _ _ _ _ _ _ _
    (Demo.run 0 (Demo.demo 0 used_pool).1 (PAllocate page_request (byte_plan 4) 0)).1 _ _ _ _ _ _ _ _ _ _ _ _ Hp ltac:(lia) page_request_ok) as (x & mem & Hx & Hf & Hpre).
  - vm_compute. reflexivity.
  - exists x, mem. split; [exact Hx|]. split; [exact Hf|]. split; [exact Hpre|]. apply (f_equal head) in Hx. cbn [head] in Hx.
    vm_compute in Hx. injection Hx as <-. vm_compute. reflexivity.
Defined.
