(* ===== verification/Rooting.v ===== *)
(** * Roots held by the embedder

    [crates/wasmtime/src/runtime]: [gc/enabled/rooting.rs], [gc/enabled/externref.rs],
    [gc/enabled/anyref.rs] and the part of [store.rs] they use.  The embedder never
    holds a reference into the heap: it holds a handle, an index into the root set of
    its store.  Roots of a scope are kept in a vector that is cut back when the scope
    ends, and a handle to one carries the generation in which it was made; roots that
    are released by hand are kept in an arena ([Slab]).

    The code runs in the monad [io] of the prelude over the store.  [oc] says whether
    plain arithmetic is overflow-checked, [dbg] whether debug assertions are on,
    [min_cap] is what a vector reserves first, and [new_heap] is the heap that the
    allocator of the engine hands out. *)

From Stdlib Require Import ZArith Lia.
From stdpp Require Import base list gmap numbers option.
From S2P Require Import Prelude Slab GcRef Drc.
Open Scope Z_scope.

(** ** Packed indices *)

Definition PackedIndex : Type := Z.
Definition DISCRIMINANT_MASK : Z := Z.shiftl 1 31.
Definition LIFO_DISCRIMINANT : Z := Z.shiftl 0 31.
Definition MANUAL_DISCRIMINANT : Z := Z.shiftl 1 31.
Definition PAYLOAD_MASK : Z := Z.lxor DISCRIMINANT_MASK u32_max.

Definition discriminant (p : PackedIndex) : Z := Z.land p DISCRIMINANT_MASK.
Definition is_lifo (p : PackedIndex) : bool := discriminant p =? LIFO_DISCRIMINANT.
Definition is_manual (p : PackedIndex) : bool := discriminant p =? MANUAL_DISCRIMINANT.
Definition payload (p : PackedIndex) : Z := Z.land p PAYLOAD_MASK.
Definition as_lifo (p : PackedIndex) : option nat := if is_lifo p then Some (Z.to_nat (payload p)) else None.
Definition as_manual {E} (p : PackedIndex) : outcome E (option EntryIndex) :=
  if is_manual p then id ← Slab.from_raw (payload p); Ok (Some id) else Ok None.

Definition new_lifo {E} (dbg : bool) (index : nat) : outcome E PackedIndex :=
  index32 ← unwrap (checked 32 (Z.of_nat index));
  assert_ (Z.land index32 DISCRIMINANT_MASK =? 0);;
  let packed := Z.lor LIFO_DISCRIMINANT index32 in
  debug_assert dbg (is_lifo packed);;
  debug_assert dbg (bool_decide (as_lifo packed = Some index));;
  debug_assert dbg (negb (is_manual packed));;
  (if dbg then m ← as_manual packed; assert_ (bool_decide (m = None)) else Ok ());;
  Ok packed.

Definition new_manual {E} (dbg : bool) (id : EntryIndex) : outcome E PackedIndex :=
  raw ← Slab.into_raw id;
  assert_ (Z.land raw DISCRIMINANT_MASK =? 0);;
  let packed := Z.lor MANUAL_DISCRIMINANT raw in
  debug_assert dbg (is_manual packed);;
  (if dbg then m ← as_manual packed; assert_ (bool_decide (m = Some id)) else Ok ());;
  debug_assert dbg (negb (is_lifo packed));;
  debug_assert dbg (bool_decide (as_lifo packed = None));;
  Ok packed.

(** ** The root set and the store *)

Record GcRootIndex := { ri_store_id : Z; ri_generation : Z; ri_index : PackedIndex }.
#[export] Instance GcRootIndex_eq : EqDecision GcRootIndex.
Proof. solve_decision. Defined.

Record LifoRoot := { lr_generation : Z; lr_gc_ref : VMGcRef }.

Record RootSet := {
  manually_rooted : Slab VMGcRef;
  lifo_roots : list LifoRoot;
  lifo_generation : Z
}.
Definition RootSet_default : RootSet :=
  {| manually_rooted := Slab.default; lifo_roots := []; lifo_generation := 0 |}.

(** The two kinds of handle: both wrap an index. *)
Record Rooted := { rooted_inner : GcRootIndex }.
Record ManuallyRooted := { manual_inner : GcRootIndex }.

Record StoreOpaque (T H : Type) := {
  so_id : Z;
  so_gc_store : option (GcStore T H);
  so_gc_roots : RootSet;
  so_gc_roots_list : list GcRoot
}.
Arguments so_id {T H}.
Arguments so_gc_store {T H}.
Arguments so_gc_roots {T H}.
Arguments so_gc_roots_list {T H}.
Arguments Build_StoreOpaque {T H}.

Definition store_default {T H} (id : Z) : StoreOpaque T H :=
  {| so_id := id; so_gc_store := None; so_gc_roots := RootSet_default; so_gc_roots_list := [] |}.

(** [HeapNotAllocated] stands for the errors of the allocator. *)
Inductive root_error (T : Type) :=
| Unrooted
| HeapNotInitialized
| HeapNotAllocated
| AllocFailed (e : gc_error)
| GcHeapOutOfMemory (value : T).
Arguments Unrooted {T}.
Arguments HeapNotInitialized {T}.
Arguments HeapNotAllocated {T}.
Arguments AllocFailed {T} e.
Arguments GcHeapOutOfMemory {T} value.

Section Rooting.
  Context {T H : Type} `{!GcHeap T H} (oc dbg : bool) (min_cap : Z) (new_heap : outcome (root_error T) H).
  Implicit Types (s : StoreOpaque T H).

Abbreviation rooting := (io (StoreOpaque T H) (root_error T)).

Definition get_store : rooting (StoreOpaque T H) := fun s => (s, Ok s).
Definition with_gc_store (g : option (GcStore T H)) s : StoreOpaque T H :=
  {| so_id := so_id s; so_gc_store := g; so_gc_roots := so_gc_roots s; so_gc_roots_list := so_gc_roots_list s |}.
Definition with_roots (r : RootSet) s : StoreOpaque T H :=
  {| so_id := so_id s; so_gc_store := so_gc_store s; so_gc_roots := r; so_gc_roots_list := so_gc_roots_list s |}.
Definition with_roots_list (l : list GcRoot) s : StoreOpaque T H :=
  {| so_id := so_id s; so_gc_store := so_gc_store s; so_gc_roots := so_gc_roots s; so_gc_roots_list := l |}.
Definition modify (f : StoreOpaque T H -> StoreOpaque T H) : rooting () := fun s => (f s, Ok ()).

(** A block with a destructor; nothing runs after a panic. *)
Definition finally {A} (m : rooting A) (drop : rooting ()) : rooting A := fun s =>
  match m s with
  | (s, Panic) => (s, Panic)
  | (s, r) => match drop s with
              | (s, Ok _) => (s, r)
              | (s, Err e) => (s, Err e)
              | (s, Panic) => (s, Panic)
              end
  end.

(** ** The heap of the store *)

Definition allocate_gc_heap : rooting () :=
  s ← get_store;
  lift (assert_ (match so_gc_store s with None => true | Some _ => false end));;
  h ← lift new_heap;
  modify (with_gc_store (Some (store_new h))).

Definition gc_store : rooting (GcStore T H) :=
  s ← get_store;
  lift (ok_or HeapNotInitialized (so_gc_store s)).
Definition unwrap_gc_store_mut : rooting (GcStore T H) :=
  s ← get_store;
  lift (unwrap (so_gc_store s)).
Definition gc_store_mut : rooting (GcStore T H) :=
  s ← get_store;
  (match so_gc_store s with None => allocate_gc_heap | Some _ => mret () end);;
  unwrap_gc_store_mut.

(** A method of the heap that was borrowed mutably. *)
Definition on_heap {A} (r : outcome gc_error (A * GcStore T H)) : rooting A :=
  '(x, g) ← lift (map_err AllocFailed r);
  modify (with_gc_store (Some g));;
  mret x.
Definition heap_clone (g : GcStore T H) (gc_ref : VMGcRef) : rooting VMGcRef :=
  on_heap (store_clone_gc_ref g gc_ref).
Definition heap_drop (g : GcStore T H) (gc_ref : VMGcRef) : rooting () :=
  on_heap (g ← store_drop_gc_ref g gc_ref; Ok ((), g)).
Definition heap_expose (g : GcStore T H) (gc_ref : VMGcRef) : rooting () :=
  on_heap (g ← store_expose_gc_ref_to_wasm g gc_ref; Ok ((), g)).

(** [AutoAssertNoGc::new] and its destructor, around a block. *)
Definition no_gc_new : rooting bool :=
  s ← get_store;
  match so_gc_store s with
  | Some g => on_heap (h ← gh_enter_no_gc_scope (gc_heap g); Ok (true, {| gc_heap := h; host_data_table := host_data_table g |}))
  | None => mret false
  end.
Definition no_gc_drop (entered : bool) : rooting () :=
  if entered then
    g ← unwrap_gc_store_mut;
    on_heap (h ← gh_exit_no_gc_scope (gc_heap g); Ok ((), {| gc_heap := h; host_data_table := host_data_table g |}))
  else mret ().
Definition AutoAssertNoGc {A} (block : rooting A) : rooting A :=
  entered ← no_gc_new;
  finally block (no_gc_drop entered).

(** ** The root set *)

Definition get_roots : rooting RootSet := s ← get_store; mret (so_gc_roots s).

Definition enter_lifo_scope (r : RootSet) : nat := length (lifo_roots r).

Definition push_lifo_root (store_id : Z) (gc_ref : VMGcRef) : rooting GcRootIndex :=
  r ← get_roots;
  let generation := lifo_generation r in
  let index := length (lifo_roots r) in
  index ← lift (new_lifo dbg index);
  modify (with_roots {| manually_rooted := manually_rooted r;
                        lifo_roots := lifo_roots r ++ [{| lr_generation := generation; lr_gc_ref := gc_ref |}];
                        lifo_generation := lifo_generation r |});;
  mret {| ri_store_id := store_id; ri_generation := generation; ri_index := index |}.

(** The loop over the drained roots. *)
Fixpoint drop_roots (roots : list LifoRoot) : rooting () :=
  match roots with
  | [] => mret ()
  | root :: roots =>
      g ← unwrap_gc_store_mut;
      heap_drop g (lr_gc_ref root);;
      drop_roots roots
  end.

Definition exit_lifo_scope_slow (scope : nat) : rooting () :=
  r ← get_roots;
  n ← lift (arith oc 32 (lifo_generation r + 1));
  lift (assert_ (scope <=? length (lifo_roots r))%nat);;
  modify (with_roots {| manually_rooted := manually_rooted r; lifo_roots := []; lifo_generation := n |});;
  drop_roots (drop scope (lifo_roots r));;
  modify (with_roots {| manually_rooted := manually_rooted r; lifo_roots := take scope (lifo_roots r);
                        lifo_generation := n |}).

Definition exit_lifo_scope (scope : nat) : rooting () :=
  r ← get_roots;
  lift (debug_assert dbg (scope <=? length (lifo_roots r))%nat);;
  if (scope <? length (lifo_roots r))%nat then exit_lifo_scope_slow scope else mret ().

Definition exit_gc_lifo_scope (scope : nat) : rooting () :=
  s ← get_store;
  match so_gc_store s with
  | Some _ => exit_lifo_scope scope
  | None => mret ()
  end.

Definition with_lifo_scope {A} (f : rooting A) : rooting A :=
  r ← get_roots;
  let scope := enter_lifo_scope r in
  ret ← f;
  exit_gc_lifo_scope scope;;
  mret ret.

(** [RootSet::trace_roots]: what it adds to the list. *)
Definition root_set_trace {E} (r : RootSet) : outcome E (list GcRoot) :=
  manual ← Slab.iter (manually_rooted r);
  Ok (map (fun root => NonStack (lr_gc_ref root)) (lifo_roots r) ++ map (fun x => NonStack (snd x)) manual).

(** ** Collections

    [frames] are the roots found on the stacks of compiled code, [vmctx] those of
    globals and tables.  [None]: the fuel of the collection was not enough. *)

Definition trace_roots (frames vmctx : list GcRoot) : rooting (list GcRoot) :=
  s ← get_store;
  lift (assert_ (match so_gc_roots_list s with [] => true | _ => false end));;
  user ← lift (root_set_trace (so_gc_roots s));
  mret (frames ++ vmctx ++ user).

Definition store_collect (frames vmctx : list GcRoot) : rooting (option ()) :=
  s ← get_store;
  match so_gc_store s with
  | None => mret (Some ())
  | Some _ =>
      roots ← trace_roots frames vmctx;
      g ← unwrap_gc_store_mut;
      match Drc.store_gc g roots with
      | None => mret None
      | Some r => on_heap (g ← r; Ok (Some (), g))
      end
  end.

(** ** Using a handle *)

(** [RootedGcRefImpl]: [None] when the object was unrooted. *)
Class RootedGcRefImpl (R : Type) := { get_gc_ref : R -> StoreOpaque T H -> outcome (root_error T) (option VMGcRef) }.

Definition index_comes_from_same_store (i : GcRootIndex) s : bool := ri_store_id i =? so_id s.

Definition lifo_get (i : GcRootIndex) (index : nat) s : option VMGcRef :=
  entry ← lifo_roots (so_gc_roots s) !! index;
  if lr_generation entry =? ri_generation i then Some (lr_gc_ref entry) else None.

Definition rooted_comes_from_same_store {E} (r : Rooted) s : outcome E bool :=
  debug_assert dbg (is_lifo (ri_index (rooted_inner r)));;
  Ok (index_comes_from_same_store (rooted_inner r) s).
Definition rooted_get_gc_ref {E} (r : Rooted) s : outcome E (option VMGcRef) :=
  same ← rooted_comes_from_same_store r s;
  assert_ same;;
  index ← unwrap (as_lifo (ri_index (rooted_inner r)));
  Ok (lifo_get (rooted_inner r) index s).

Definition manual_comes_from_same_store {E} (m : ManuallyRooted) s : outcome E bool :=
  debug_assert dbg (is_manual (ri_index (manual_inner m)));;
  Ok (index_comes_from_same_store (manual_inner m) s).
Definition manual_get_gc_ref {E} (m : ManuallyRooted) s : outcome E (option VMGcRef) :=
  same ← manual_comes_from_same_store m s;
  assert_ same;;
  oid ← as_manual (ri_index (manual_inner m));
  id ← unwrap oid;
  Slab.get (manually_rooted (so_gc_roots s)) id.

Definition unchecked_get_gc_ref {E} (i : GcRootIndex) s : outcome E (option VMGcRef) :=
  assert_ (index_comes_from_same_store i s);;
  match as_lifo (ri_index i) with
  | Some index => Ok (lifo_get i index s)
  | None =>
      oid ← as_manual (ri_index i);
      match oid with
      | Some id =>
          gc_ref ← Slab.get (manually_rooted (so_gc_roots s)) id;
          debug_assert dbg (match gc_ref with Some _ => true | None => false end);;
          Ok gc_ref
      | None => Panic
      end
  end.

#[export] Instance Rooted_impl : RootedGcRefImpl Rooted := { get_gc_ref := rooted_get_gc_ref }.
#[export] Instance ManuallyRooted_impl : RootedGcRefImpl ManuallyRooted := { get_gc_ref := manual_get_gc_ref }.
#[export] Instance GcRootIndex_impl : RootedGcRefImpl GcRootIndex := { get_gc_ref := unchecked_get_gc_ref }.

Section Handle.
  Context {R : Type} `{!RootedGcRefImpl R}.

Definition try_gc_ref (h : R) : rooting VMGcRef :=
  s ← get_store;
  r ← lift (get_gc_ref h s);
  lift (ok_or Unrooted r).

Definition clone_gc_ref (h : R) : rooting (option VMGcRef) :=
  s ← get_store;
  r ← lift (get_gc_ref h s);
  match r with
  | None => mret None
  | Some gc_ref => g ← unwrap_gc_store_mut; r ← heap_clone g gc_ref; mret (Some r)
  end.

Definition try_clone_gc_ref (h : R) : rooting VMGcRef :=
  gc_ref ← try_gc_ref h;
  g ← gc_store_mut;
  heap_clone g gc_ref.
End Handle.

Definition ref_eq {A B} `{!RootedGcRefImpl A, !RootedGcRefImpl B} (a : A) (b : B) : rooting bool :=
  a ← try_gc_ref a;
  b ← try_gc_ref b;
  mret (a =? b).

(** ** Making and releasing handles *)

Definition rooted_new (gc_ref : VMGcRef) : rooting Rooted :=
  s ← get_store;
  inner ← push_lifo_root (so_id s) gc_ref;
  mret {| rooted_inner := inner |}.

Definition manually_rooted_new (gc_ref : VMGcRef) : rooting ManuallyRooted :=
  r ← get_roots;
  '(id, m) ← lift (Slab.alloc oc min_cap (manually_rooted r) gc_ref);
  modify (with_roots {| manually_rooted := m; lifo_roots := lifo_roots r; lifo_generation := lifo_generation r |});;
  s ← get_store;
  index ← lift (new_manual dbg id);
  mret {| manual_inner := {| ri_store_id := so_id s; ri_generation := 0; ri_index := index |} |}.

Definition to_manually_rooted (self : Rooted) : rooting ManuallyRooted :=
  AutoAssertNoGc (
    gc_ref ← try_clone_gc_ref self;
    manually_rooted_new gc_ref).

Definition rooted_eq (a b : Rooted) : bool := bool_decide (rooted_inner a = rooted_inner b).

Definition manual_clone (self : ManuallyRooted) : rooting ManuallyRooted :=
  AutoAssertNoGc (
    r ← clone_gc_ref self;
    gc_ref ← lift (unwrap r);
    manually_rooted_new gc_ref).

Definition unroot (self : ManuallyRooted) : rooting () :=
  s ← get_store;
  same ← lift (manual_comes_from_same_store self s);
  lift (assert_ same);;
  AutoAssertNoGc (
    oid ← lift (as_manual (ri_index (manual_inner self)));
    id ← lift (unwrap oid);
    r ← get_roots;
    '(gc_ref, m) ← lift (Slab.dealloc oc (manually_rooted r) id);
    modify (with_roots {| manually_rooted := m; lifo_roots := lifo_roots r; lifo_generation := lifo_generation r |});;
    g ← unwrap_gc_store_mut;
    heap_drop g gc_ref).

Definition to_rooted (self : ManuallyRooted) : rooting Rooted :=
  s ← get_store;
  same ← lift (manual_comes_from_same_store self s);
  lift (assert_ same);;
  AutoAssertNoGc (
    r ← clone_gc_ref self;
    gc_ref ← lift (unwrap r);
    rooted_new gc_ref).

Definition into_rooted (self : ManuallyRooted) : rooting Rooted :=
  s ← get_store;
  same ← lift (manual_comes_from_same_store self s);
  lift (assert_ same);;
  rooted ← to_rooted self;
  unroot self;;
  mret rooted.

Definition into_parts_for_c_api (m : ManuallyRooted) : Z * Z * Z :=
  (ri_store_id (manual_inner m), ri_generation (manual_inner m), ri_index (manual_inner m)).
Definition from_raw_parts_for_c_api (a b c : Z) : ManuallyRooted :=
  {| manual_inner := {| ri_store_id := a; ri_generation := b; ri_index := c |} |}.

(** ** [ExternRef] *)

Definition alloc_externref (value : T) : rooting VMGcRef :=
  g ← gc_store_mut;
  let '(g, r) := store_alloc_externref oc min_cap g value in
  modify (with_gc_store (Some g));;
  x ← lift (map_err AllocFailed r);
  match x with
  | inl gc_ref => mret gc_ref
  | inr value => lift (Err (GcHeapOutOfMemory value))
  end.

Definition externref_from_cloned (gc_ref : VMGcRef) : rooting Rooted :=
  lift (assert_ (is_extern_ref gc_ref));;
  rooted_new gc_ref.

Definition externref_new (value : T) : rooting Rooted :=
  gc_ref ← alloc_externref value;
  AutoAssertNoGc (externref_from_cloned gc_ref).
Definition externref_new_manually_rooted (value : T) : rooting ManuallyRooted :=
  gc_ref ← alloc_externref value;
  AutoAssertNoGc (manually_rooted_new gc_ref).

Definition externref_data (self : GcRootIndex) : rooting T :=
  gc_ref ← try_gc_ref self;
  lift (debug_assert dbg (negb (is_i31 gc_ref)));;
  g ← gc_store;
  lift (map_err AllocFailed (store_externref_host_data g gc_ref)).

(** [data_mut], then an assignment through the reference it returns. *)
Definition externref_data_mut (self : GcRootIndex) (value : T) : rooting () :=
  gc_ref ← try_gc_ref self;
  lift (debug_assert dbg (negb (is_i31 gc_ref)));;
  g ← gc_store_mut;
  on_heap (g ← store_externref_host_data_mut g gc_ref value; Ok ((), g)).

Definition externref_from_raw (raw : Z) : rooting (option Rooted) :=
  AutoAssertNoGc (
    match from_raw_u32 raw with
    | None => mret None
    | Some gc_ref =>
        g ← unwrap_gc_store_mut;
        gc_ref ← heap_clone g gc_ref;
        r ← externref_from_cloned gc_ref;
        mret (Some r)
    end).

Definition externref_to_raw (self : GcRootIndex) : rooting Z :=
  AutoAssertNoGc (
    gc_ref ← try_clone_gc_ref self;
    let raw := gc_ref in
    g ← unwrap_gc_store_mut;
    heap_expose g gc_ref;;
    mret raw).

(** ** [AnyRef] *)

Definition anyref_from_i31 (value : I31) : rooting Rooted :=
  AutoAssertNoGc (
    gc_ref ← lift (from_i31 dbg value);
    rooted_new gc_ref).

Definition anyref_from_cloned (gc_ref : VMGcRef) : rooting Rooted :=
  lift (assert_ (is_i31 gc_ref));;
  rooted_new gc_ref.

Definition anyref_from_raw (raw : Z) : rooting (option Rooted) :=
  AutoAssertNoGc (
    match from_raw_u32 raw with
    | None => mret None
    | Some gc_ref => r ← anyref_from_cloned gc_ref; mret (Some r)
    end).

Definition anyref_to_raw (self : GcRootIndex) : rooting Z :=
  AutoAssertNoGc (
    gc_ref ← try_clone_gc_ref self;
    let raw := gc_ref in
    g ← gc_store_mut;
    heap_expose g gc_ref;;
    mret raw).

Definition anyref_is_i31 (self : GcRootIndex) : rooting bool :=
  gc_ref ← try_gc_ref self;
  mret (is_i31 gc_ref).
Definition anyref_as_i31 (self : GcRootIndex) : rooting (option I31) :=
  gc_ref ← try_gc_ref self;
  mret (as_i31 gc_ref).
Definition anyref_unwrap_i31 (self : GcRootIndex) : rooting I31 :=
  r ← anyref_as_i31 self;
  lift (unwrap r).

(** ** Values of compiled code

    [WasmTy] of the handles: [ValRaw] is the 32-bit word; the caller has entered an
    [AutoAssertNoGc].  The same code stores handles of either kind and type. *)

Inductive ref_ty := Extern | Any.
#[export] Instance ref_ty_eq : EqDecision ref_ty.
Proof. solve_decision. Defined.

Definition from_cloned_gc_ref (ty : ref_ty) (gc_ref : VMGcRef) : rooting Rooted :=
  match ty with Extern => externref_from_cloned gc_ref | Any => anyref_from_cloned gc_ref end.

Definition wasm_store (self : GcRootIndex) : rooting Z :=
  gc_ref ← try_clone_gc_ref self;
  let r64 := into_r64 gc_ref in
  g ← gc_store_mut;
  heap_expose g gc_ref;;
  lift (debug_assert dbg (negb (r64 =? 0)));;
  lift (unwrap (checked 32 r64)).
Definition wasm_store_option (self : option GcRootIndex) : rooting Z :=
  match self with Some r => wasm_store r | None => mret 0 end.

(** [VMGcRef::from_r64(raw).expect(..)], and a clone of the reference if there is one. *)
Definition load_gc_ref (raw : Z) : rooting (option VMGcRef) :=
  r ← lift (unwrap_result (from_r64 raw));
  match r with
  | None => mret None
  | Some gc_ref => g ← unwrap_gc_store_mut; r ← heap_clone g gc_ref; mret (Some r)
  end.

Definition rooted_load (ty : ref_ty) (raw : Z) : rooting Rooted :=
  lift (debug_assert dbg (negb (raw =? 0)));;
  r ← load_gc_ref raw;
  gc_ref ← lift (unwrap r);
  from_cloned_gc_ref ty gc_ref.
Definition rooted_load_option (ty : ref_ty) (raw : Z) : rooting (option Rooted) :=
  r ← load_gc_ref raw;
  match r with
  | None => mret None
  | Some gc_ref => h ← from_cloned_gc_ref ty gc_ref; mret (Some h)
  end.

(** [expect("rooted is in scope")]. *)
Definition expect {A} (m : rooting A) : rooting A := fun s => let '(s, r) := m s in (s, unwrap_result r).

Definition root_manually (ty : ref_ty) (gc_ref : VMGcRef) : rooting ManuallyRooted :=
  with_lifo_scope (
    rooted ← from_cloned_gc_ref ty gc_ref;
    expect (to_manually_rooted rooted)).

Definition manual_load (ty : ref_ty) (raw : Z) : rooting ManuallyRooted :=
  lift (debug_assert dbg (negb (raw =? 0)));;
  r ← load_gc_ref raw;
  gc_ref ← lift (unwrap r);
  root_manually ty gc_ref.
Definition manual_load_option (ty : ref_ty) (raw : Z) : rooting (option ManuallyRooted) :=
  lift (debug_assert dbg (negb (raw =? 0)));;
  r ← load_gc_ref raw;
  match r with
  | None => mret None
  | Some gc_ref => h ← root_manually ty gc_ref; mret (Some h)
  end.

(** [StoreInner::gc] without async support: the scope it opens ends also on an error. *)
Definition collect_keeping (root : option VMGcRef) (frames vmctx : list GcRoot) : rooting (option (option VMGcRef)) :=
  r ← get_roots;
  let scope := enter_lifo_scope r in
  finally (
    s ← get_store;
    root ← (match root with
            | None => mret None
            | Some r => i ← push_lifo_root (so_id s) r; mret (Some i)
            end);
    done ← store_collect frames vmctx;
    match done with
    | None => mret None
    | Some _ =>
        match root with
        | None => mret (Some None)
        | Some i =>
            s ← get_store;
            o ← lift (unchecked_get_gc_ref i s);
            r ← lift (unwrap o);
            g ← gc_store_mut;
            r ← heap_clone g r;
            mret (Some (Some r))
        end
    end) (exit_gc_lifo_scope scope).
End Rooting.

(** ** Indices are packed and unpacked without loss *)

Lemma low_discriminant p : 0 <= p < 2 ^ 31 -> Z.land p DISCRIMINANT_MASK = 0.
Proof.
  intros Hp. apply Z.bits_inj'. intros n Hn. change DISCRIMINANT_MASK with (2 ^ 31).
  rewrite Z.land_spec, Z.pow2_bits_eqb, Z.bits_0 by lia.
  destruct (Z.eqb_spec 31 n) as [<-|]; [|by rewrite andb_false_r]. rewrite andb_true_r.
  rewrite Z.testbit_eqb by lia. by rewrite Z.div_small.
Qed.

Lemma pack_manual p : 0 <= p < 2 ^ 31 -> Z.lor MANUAL_DISCRIMINANT p = 2 ^ 31 + p.
Proof.
  intros Hp. rewrite <- Z.add_lor_land. change MANUAL_DISCRIMINANT with (2 ^ 31).
  rewrite (Z.land_comm _ p), (low_discriminant p Hp : Z.land p (2 ^ 31) = 0). by rewrite Z.add_0_r.
Qed.

Lemma manual_discriminant p : 0 <= p < 2 ^ 31 -> discriminant (2 ^ 31 + p) = 2 ^ 31.
Proof.
  intros Hp. rewrite <- pack_manual by done. unfold discriminant.
  by rewrite Z.land_lor_distr_l, (low_discriminant p).
Qed.

Lemma payload_mod p : payload p = p mod 2 ^ 31.
Proof. unfold payload. change PAYLOAD_MASK with (Z.ones 31). by rewrite Z.land_ones. Qed.

Lemma lifo_index (i : nat) : Z.of_nat i < 2 ^ 31 ->
  is_lifo (Z.of_nat i) = true /\ is_manual (Z.of_nat i) = false /\ as_lifo (Z.of_nat i) = Some i.
Proof.
  intros Hi. assert (Hl : is_lifo (Z.of_nat i) = true).
  { unfold is_lifo, discriminant. by rewrite low_discriminant by lia. }
  split_and!; [done| |].
  - unfold is_manual, discriminant. by rewrite low_discriminant by lia.
  - unfold as_lifo. rewrite Hl, payload_mod, Z.mod_small, Nat2Z.id by lia. done.
Qed.

Lemma new_lifo_ok {E} dbg (i : nat) : Z.of_nat i < 2 ^ 31 -> new_lifo (E:=E) dbg i = Ok (Z.of_nat i).
Proof.
  intros Hi. destruct (lifo_index i Hi) as (Hl & Hm & Ha). unfold new_lifo, checked.
  rewrite in_ub_true by (unfold in_u; lia). cbn [unwrap mbind outcome_bind].
  rewrite low_discriminant by lia. change (Z.lor LIFO_DISCRIMINANT (Z.of_nat i)) with (Z.of_nat i).
  unfold as_manual. rewrite Hl, Hm, Ha, bool_decide_eq_true_2 by done. by destruct dbg.
Qed.

Definition packed_manual (id : EntryIndex) : PackedIndex := 2 ^ 31 + (id - 1).

Lemma manual_index {E} id : 1 <= id <= 2 ^ 31 ->
  is_manual (packed_manual id) = true /\ is_lifo (packed_manual id) = false /\
  as_lifo (packed_manual id) = None /\ as_manual (E:=E) (packed_manual id) = Ok (Some id).
Proof.
  intros Hi. unfold packed_manual.
  assert (Hm : is_manual (2 ^ 31 + (id - 1)) = true) by (unfold is_manual; by rewrite manual_discriminant by lia).
  assert (Hl : is_lifo (2 ^ 31 + (id - 1)) = false) by (unfold is_lifo; by rewrite manual_discriminant by lia).
  split_and!; [done|done|unfold as_lifo; by rewrite Hl|].
  unfold as_manual. rewrite Hm, payload_mod. unfold Slab.from_raw.
  replace ((2 ^ 31 + (id - 1)) mod 2 ^ 31) with (id - 1)
    by (apply (Z.mod_unique _ _ 1); lia).
  rewrite entry_new_ok by (unfold MAX_CAPACITY, u32_max; lia). cbn. unfold key. do 2 f_equal. lia.
Qed.

Lemma new_manual_ok {E} dbg id : 1 <= id <= 2 ^ 31 -> new_manual (E:=E) dbg id = Ok (packed_manual id).
Proof.
  intros Hi. destruct (manual_index (E:=E) id Hi) as (Hm & Hl & Hn & Ha). unfold new_manual, Slab.into_raw, entry_index, checked.
  rewrite Z2Nat.id by lia. rewrite in_ub_true by (unfold in_u; lia). cbn [unwrap mbind outcome_bind].
  rewrite low_discriminant, pack_manual by lia. fold (packed_manual id).
  rewrite Hm, Hl, Ha, Hn. cbn [mbind outcome_bind]. rewrite !bool_decide_eq_true_2 by done. by destruct dbg.
Qed.
