(* ===== verification/RootHeap.v ===== *)
(** * What the roots of the embedder rely on

    [GcClient] is the interface between the root set of [Rooting] and the collector:
    a predicate on the heap of a store that says which references the host holds,
    which are in frames of compiled code, and the value each object has, with what
    every operation of the heap does to it.  The collector of [Drc] satisfies it: the
    predicate is that a program over the heap ([GcStore.gc_reach]) led there. *)

From Stdlib Require Import ZArith Lia.
From stdpp Require Import base list gmap numbers option sets.
From S2P Require Import Prelude MemoryTypes Mappings LinearMemory Slab GcFreeList GcRef Drc GcStore Rooting.
Open Scope Z_scope.

(** Room for one more reference, next to the [n] that frames and lost counts account for. *)
Definition gc_room (l : list Z) (n : Z) : Prop := Z.of_nat (length l) + 2 * n < 2 ^ 62.

Section Interface.
  Context {T H : Type} `{!GcHeap T H} (oc : bool) (min_cap : Z) (new_heap : outcome (root_error T) H).

(** [at_ c s l k g n]: collections are forbidden [c] times, the host holds [l], frames
    of compiled code hold [k], the object of a reference has the value [g] says, and at
    most [n] references are in the table of compiled code, and lost. *)
Class GcClient (at_ : Z -> GcStore T H -> list Z -> list Z -> gmap Z T -> Z -> Prop) : Prop := {
  gc_new h : new_heap = Ok h -> at_ 0 (store_new h) [] [] ∅ 0;
  gc_perm c s l l' k g n : l ≡ₚ l' -> at_ c s l k g n -> at_ c s l' k g n;
  gc_weaken c s l k g n n' : n <= n' -> at_ c s l k g n -> at_ c s l k g n';
  gc_int c s l k g n i : at_ c s l k g n -> gc_room l n -> at_ c s (wrapping_u32 i :: l) k g n;
  gc_frames c s l k k' g n :
    at_ c s l k g n -> gc_room l n -> (forall r, r ∈ k' -> r ∈ k \/ exists i, r = wrapping_u32 i) -> at_ c s l k' g n;
  gc_valid c s l k g n r : at_ c s l k g n -> gc_room l n -> r ∈ l ++ k -> 0 < r < 2 ^ 32;
  gc_value c s l k g n r : at_ c s l k g n -> gc_room l n -> r ∈ l ++ k -> is_i31 r = false ->
    exists v, g !! r = Some v /\ store_externref_host_data s r = Ok v;
  gc_clone c s l k g n r : at_ c s l k g n -> gc_room l n -> r ∈ l ++ k ->
    exists s', store_clone_gc_ref s r = Ok (r, s') /\ at_ c s' (r :: l) k g n;
  gc_drop c s l k g n r : at_ c s (r :: l) k g n -> gc_room (r :: l) n ->
    exists s', store_drop_gc_ref s r = Ok s' /\ at_ c s' l k g n;
  gc_expose c s l k g n r : at_ c s (r :: l) k g n -> gc_room (r :: l) n ->
    exists s', store_expose_gc_ref_to_wasm s r = Ok s' /\ at_ c s' l (r :: k) g (n + 1);
  gc_alloc c s l k g n v : at_ c s l k g n -> gc_room l n -> exists s',
    (exists r, store_alloc_externref oc min_cap s v = (s', Ok (inl r)) /\ r ∉ l ++ k /\ is_i31 r = false /\
       at_ c s' (r :: l) k (<[r := v]> g) n) \/
    (store_alloc_externref oc min_cap s v = (s', Ok (inr v)) /\ at_ c s' l k g n);
  gc_set c s l k g n r v : at_ c s l k g n -> gc_room l n -> r ∈ l ++ k -> is_i31 r = false ->
    exists s', store_externref_host_data_mut s r v = Ok s' /\ at_ c s' l k (<[r := v]> g) n;
  gc_enter c s l k g n : at_ c s l k g n -> gc_room l n -> in_u 64 (c + 1) ->
    exists h', gh_enter_no_gc_scope (gc_heap s) = Ok h' /\
      at_ (c + 1) {| gc_heap := h'; host_data_table := host_data_table s |} l k g n;
  gc_exit c s l k g n : at_ (c + 1) s l k g n -> gc_room l n -> in_u 64 c ->
    exists h', gh_exit_no_gc_scope (gc_heap s) = Ok h' /\
      at_ c {| gc_heap := h'; host_data_table := host_data_table s |} l k g n;
  gc_collect s l k g n roots : at_ 0 s l k g n -> gc_room l n -> shows roots k ->
    exists s', store_gc s roots = Some (Ok s') /\ at_ 0 s' l k g (Z.max n (Z.of_nat (length k)))
}.
End Interface.

(** ** The collector *)

Section Collector.
  Context {T : Type} (hp : Z) (oc dbg : bool) (min_cap : Z) (order : gset Z -> list Z).
#[local] Instance root_heap : GcHeap T DrcHeap := DrcHeap_GcHeap oc dbg order.
  Implicit Types (s : GcStore T DrcHeap) (l k : list Z) (g : gmap Z T) (w : world (T:=T)).

Record describes w (c : Z) s l k g (n : Z) : Prop := {
  de_reach : gc_reach hp oc dbg min_cap order w;
  de_store : store w = s;
  de_held : held w ≡ₚ l;
  de_stack : stack w = k;
  de_given : given w = g;
  de_count : no_gc_count (gc_heap s) = c;
  de_lost : Z.of_nat (length (lost w)) <= n;
  de_table : Z.of_nat (length (swept (w_table w) [])) <= n
}.
Definition client c s l k g n : Prop := exists w, describes w c s l k g n.

Lemma swept_length tb l : length (swept tb l) = (length (swept tb []) + length l)%nat.
Proof. unfold swept. rewrite !length_app. cbn [length]. by rewrite Nat.add_0_r, Nat.add_assoc. Qed.

Lemma describes_small w c s l k g n : describes w c s l k g n -> gc_room l n -> small w.
Proof.
  intros [_ _ Hh _ _ _ Hl Ht] Hr. unfold small, owners, gc_room in *.
  rewrite swept_length, length_app. pose proof (heap_refs_length (held w)).
  apply Permutation_length in Hh. lia.
Qed.

(** A step that leaves the table alone and loses nothing. *)
Lemma describes_step w c s l k g n w' c' s' l' k' g' :
  describes w c s l k g n -> gc_room l n -> gc_step oc dbg min_cap order w w' -> store w' = s' ->
  held w' ≡ₚ l' -> stack w' = k' -> given w' = g' -> no_gc_count (gc_heap s') = c' ->
  lost w' = lost w -> w_table w' = w_table w ->
  client c' s' l' k' g' n.
Proof.
  intros Hd Hr Hst Hs' Hh Hk' Hg Hc Hl Ht. exists w'. split; try done.
  - eapply gc_next; [apply Hd|by eapply describes_small|done].
  - rewrite Hl. apply Hd.
  - rewrite Ht. apply Hd.
Qed.

Lemma clone_same s r r' s' : store_clone_gc_ref s r = Ok (r', s') -> same_table (gc_heap s) (gc_heap s').
Proof.
  unfold store_clone_gc_ref. destruct (is_i31 r); [by intros [= _ <-]|]. intros Hc.
  apply bind_Ok_inv in Hc as ([x h] & Hc & Hx). injection Hx as _ <-.
  apply bind_Ok_inv in Hc as (h1 & Hc%inc_ref_same & Hx). by injection Hx as _ <-.
Qed.

Lemma drop_same s r s' : store_drop_gc_ref s r = Ok s' -> same_table (gc_heap s) (gc_heap s').
Proof.
  unfold store_drop_gc_ref. destruct (is_i31 r); [by intros [= <-]|]. intros Hc.
  apply bind_Ok_inv in Hc as ([[h t] d] & Hc & Hx). injection Hx as <-.
  exact (write_gc_ref_same oc dbg _ _ (Some r) None _ _ _ Hc).
Qed.

Lemma alloc_same s v s' x : store_alloc_externref oc min_cap s v = (s', Ok x) -> same_table (gc_heap s) (gc_heap s').
Proof.
  unfold store_alloc_externref. destruct (host_alloc _ _ _ _) as [[id t]|e|]; [|done..].
  destruct (gh_alloc_externref (gc_heap s) id) as [[o h]|e|] eqn:Ha; [|done..].
  assert (Hs : same_table (gc_heap s) h).
  { cbn [gh_alloc_externref root_heap DrcHeap_GcHeap] in Ha.
    destruct (Drc.alloc_externref oc dbg (gc_heap s) id) as [[o' h']|e|] eqn:He; [|done..].
    injection Ha as _ <-. by eapply alloc_externref_same. }
  destruct o as [r|]; [by intros [= <- _]|].
  destruct (host_dealloc _ _ _) as [[y t2]|e|]; intros Hx; by simplify_eq.
Qed.

Lemma mut_same s r v s' : store_externref_host_data_mut s r v = Ok s' -> same_table (gc_heap s) (gc_heap s').
Proof. unfold store_externref_host_data_mut. intros Hx. outcome_inv. done. Qed.

(** Exposing a reference puts at most one word into the table. *)
Lemma expose_grows s r s' : store_expose_gc_ref_to_wasm s r = Ok s' ->
  no_gc_count (gc_heap s') = no_gc_count (gc_heap s) /\
  (length (swept (activations_table (gc_heap s')) []) <= S (length (swept (activations_table (gc_heap s)) [])))%nat.
Proof.
  unfold store_expose_gc_ref_to_wasm. destruct (is_i31 r); [intros [= <-]; split; [done|lia]|]. intros Hx.
  apply bind_Ok_inv in Hx as (h & Hx & Hy). injection Hy as <-. cbn [gc_heap].
  apply bind_Ok_inv in Hx as (tb & Hx & Hy). injection Hy as <-. split; [done|]. cbn [activations_table set_table].
  set (tb0 := activations_table (gc_heap s)) in *. unfold insert_without_gc, try_insert in Hx.
  unfold swept. rewrite !length_app. destruct (next (alloc tb0) =? end_ (alloc tb0))%nat; outcome_inv; cbn [alloc insert_slow_without_gc over_approximated_stack_roots].
  - rewrite (Permutation_length (elements_insert order _ _)). destruct (decide _); cbn [length]; lia.
  - unfold filled. cbn [next chunk]. rewrite !length_take, length_insert. lia.
Qed.

Lemma expose_lost w r : (length (if loses w r then r :: lost w else lost w) <= S (length (lost w)))%nat.
Proof. destruct (loses w r); cbn; lia. Qed.

Context (Hmin : min_cap <= 2 ^ 31) (Horder : forall X, order X ≡ₚ elements X) (k0 : Z) (Hk : 0 <= k0) (Hhp : hp = 2 ^ k0).

Lemma describes_inv w c s l k g n :
  describes w c s l k g n -> gc_room l n -> small w /\ exists objs, world_inv dbg w objs.
Proof using Hmin Horder Hk Hhp.
  intros Hd Hr. split; [by eapply describes_small|].
  eapply gc_reach_inv; [exact Hmin|exact Horder|exact Hk|exact Hhp|apply Hd].
Qed.


(** [de_open] names the program that led to the heap, and its invariant. *)
Ltac de_open H Hroom :=
  let w := fresh "w" in let Hd := fresh "Hd" in let Hsm := fresh "Hsm" in let Hw := fresh "Hw" in let objs := fresh "objs" in
  destruct H as [w Hd]; destruct (describes_inv _ _ _ _ _ _ _ Hd Hroom) as (Hsm & objs & Hw);
  pose proof (de_store _ _ _ _ _ _ _ Hd) as <-; pose proof (de_stack _ _ _ _ _ _ _ Hd) as <-;
  pose proof (de_given _ _ _ _ _ _ _ Hd) as <-.

Lemma in_world w c l n r : describes w c (store w) l (stack w) (given w) n -> r ∈ l ++ stack w -> r ∈ held w ++ stack w.
Proof using Type. intros Hd. by rewrite (de_held _ _ _ _ _ _ _ Hd). Qed.

Lemma client_clone c s l k g n r : client c s l k g n -> gc_room l n -> r ∈ l ++ k ->
  exists s', store_clone_gc_ref s r = Ok (r, s') /\ client c s' (r :: l) k g n.
Proof using Hmin Horder Hk Hhp.
  intros Hc Hroom Hr. de_open Hc Hroom. pose proof (in_world _ _ _ _ _ Hd Hr) as Hin.
  destruct (clone_ok oc dbg order w objs r Hw Hsm Hin) as (s' & He & _). exists s'. split; [done|].
  destruct (clone_same _ _ _ _ He) as [Ht Hn]. eapply (describes_step _ _ _ _ _ _ _ _ _ _ _ _ _ Hd Hroom);
    [by eapply step_clone|..]; cbn; try done.
  - by rewrite (de_held _ _ _ _ _ _ _ Hd).
  - rewrite Hn. apply Hd.
Qed.

Lemma client_drop c s l k g n r : client c s (r :: l) k g n -> gc_room (r :: l) n ->
  exists s', store_drop_gc_ref s r = Ok s' /\ client c s' l k g n.
Proof using Hmin Horder Hk Hhp.
  intros Hc Hroom. de_open Hc Hroom. pose proof (de_held _ _ _ _ _ _ _ Hd) as Hh.
  destruct (drop_ok oc dbg order w objs r l Hw Hsm Hh) as (s' & _ & He & _). exists s'. split; [done|].
  destruct (drop_same _ _ _ He) as [Ht Hn]. eapply (describes_step _ _ _ _ _ _ _ _ _ _ _ _ _ Hd Hroom);
    [by eapply step_drop|..]; cbn; try done. rewrite Hn. apply Hd.
Qed.

Lemma client_expose c s l k g n r : client c s (r :: l) k g n -> gc_room (r :: l) n ->
  exists s', store_expose_gc_ref_to_wasm s r = Ok s' /\ client c s' l (r :: k) g (n + 1).
Proof using Hmin Horder Hk Hhp.
  intros Hc Hroom. de_open Hc Hroom. pose proof (de_held _ _ _ _ _ _ _ Hd) as Hh.
  destruct (expose_ok oc dbg order w objs r l Hw Hh) as (s' & He & _). exists s'. split; [done|].
  destruct (expose_grows _ _ _ He) as [Hn Ht]. pose proof (expose_lost w r) as Hl.
  destruct Hd as [Hre _ _ _ _ Hcnt Hlost Htab]. unfold w_table in Htab.
  eexists. split; [eapply gc_next; [exact Hre|exact Hsm|by eapply step_expose]|..]; cbn; try done; [by rewrite Hn|lia|].
  unfold w_table. cbn. lia.
Qed.

Lemma client_alloc c s l k g n v : client c s l k g n -> gc_room l n -> exists s',
    (exists r, store_alloc_externref oc min_cap s v = (s', Ok (inl r)) /\ r ∉ l ++ k /\ is_i31 r = false /\
       client c s' (r :: l) k (<[r := v]> g) n) \/
    (store_alloc_externref oc min_cap s v = (s', Ok (inr v)) /\ client c s' l k g n).
Proof using Hmin Horder Hk Hhp.
  intros Hc Hroom. de_open Hc Hroom. pose proof (de_held _ _ _ _ _ _ _ Hd) as Hh.
  destruct (alloc_ok oc dbg min_cap order Hmin w objs v Hw Hsm) as [(r & s' & id & He & Hnew & Hi & _)|(s' & He & _)];
    exists s'; destruct (alloc_same _ _ _ _ He) as [Ht Hn].
  - left. exists r. split_and!; [done| |done|].
    + intros Hin. pose proof (in_world _ _ _ _ _ Hd Hin) as Hin'.
      destruct (host_data_lookup dbg w objs r Hw Hin' Hi) as (? & ? & Ho & _). congruence.
    + eapply (describes_step _ _ _ _ _ _ _ _ _ _ _ _ _ Hd Hroom);
        [by eapply step_alloc|..]; cbn; try done; [by rewrite Hh|rewrite Hn; apply Hd].
  - right. split; [done|]. eapply (describes_step _ _ _ _ _ _ _ _ _ _ _ _ _ Hd Hroom);
      [by eapply step_alloc_full|..]; cbn; try done. rewrite Hn. apply Hd.
Qed.

Lemma client_set c s l k g n r v : client c s l k g n -> gc_room l n -> r ∈ l ++ k -> is_i31 r = false ->
  exists s', store_externref_host_data_mut s r v = Ok s' /\ client c s' l k (<[r := v]> g) n.
Proof using Hmin Horder Hk Hhp.
  intros Hc Hroom Hr Hi. de_open Hc Hroom. pose proof (in_world _ _ _ _ _ Hd Hr) as Hin.
  destruct (mut_ok oc dbg order w objs r v Hw Hin Hi) as (s' & _ & He & _). exists s'. split; [done|].
  destruct (mut_same _ _ _ _ He) as [Ht Hn]. eapply (describes_step _ _ _ _ _ _ _ _ _ _ _ _ _ Hd Hroom);
    [by eapply step_mut|..]; cbn; try done; [apply Hd|rewrite Hn; apply Hd].
Qed.

Lemma client_value c s l k g n r : client c s l k g n -> gc_room l n -> r ∈ l ++ k -> is_i31 r = false ->
  exists v, g !! r = Some v /\ store_externref_host_data s r = Ok v.
Proof using Hmin Horder Hk Hhp.
  intros Hc Hroom Hr Hi. de_open Hc Hroom. pose proof (in_world _ _ _ _ _ Hd Hr) as Hin.
  destruct (host_data_lookup dbg w objs r Hw Hin Hi) as (id & v & Ho & Hv & He). exists v.
  split; [by eapply wi_given|]. unfold store_externref_host_data. cbn [gh_externref_host_data root_heap DrcHeap_GcHeap].
  rewrite He. cbn [mbind outcome_bind]. unfold host_get, Slab.get.
  apply view_lookup_Some in Hv as [_ ->]. done.
Qed.

Lemma client_collect s l k g n roots : client 0 s l k g n -> gc_room l n -> shows roots k ->
  exists s', store_gc s roots = Some (Ok s') /\ client 0 s' l k g (Z.max n (Z.of_nat (length k))).
Proof using Hmin Horder Hk Hhp.
  intros Hc Hroom Hsh. de_open Hc Hroom.
  destruct (collection_ok oc dbg order Horder w objs roots Hw Hsm (de_count _ _ _ _ _ _ _ Hd) Hsh)
    as (s' & _ & He & _ & _ & _ & Hn & Ht). exists s'. split; [done|].
  destruct Hd as [Hre _ Hh _ _ _ Hlost _].
  eexists. split; [eapply gc_next; [exact Hre|exact Hsm|by eapply step_gc]|..]; cbn; try done; [lia|].
  unfold w_table. cbn. lia.
Qed.

Lemma client_scope c c' s l k g n h' : client c s l k g n -> gc_room l n ->
  gh_enter_no_gc_scope (GcHeap:=root_heap) (gc_heap s) = Ok h' \/
  gh_exit_no_gc_scope (GcHeap:=root_heap) (gc_heap s) = Ok h' ->
  h' = set_no_gc (gc_heap s) c' ->
  client c' {| gc_heap := h'; host_data_table := host_data_table s |} l k g n.
Proof using Hmin Horder Hk Hhp.
  intros Hc Hroom He ->. de_open Hc Hroom. eapply (describes_step _ _ _ _ _ _ _ _ _ _ _ _ _ Hd Hroom);
    [by eapply step_scope|..]; cbn; try done. apply Hd.
Qed.

Context (new_heap : outcome (root_error T) DrcHeap).
Context (Hnew : forall h, new_heap = Ok h ->
  exists sys cap, size_of_externref + 16 <= cap /\ drc_with_capacity hp dbg sys cap = Ok h).

Lemma client_start h : new_heap = Ok h -> client 0 (store_new h) [] [] ∅ 0.
Proof using Hnew.
  intros (sys & cap & Hcap & Hh)%Hnew. eexists. split; [by eapply gc_start|..]; cbn; try done;
    unfold drc_with_capacity in Hh; apply bind_Ok_inv in Hh as (m & _ & Hh); by injection Hh as <-.
Qed.

#[export] Instance collector_client : GcClient oc min_cap new_heap client.
Proof using Hmin Horder Hk Hhp Hnew.
  split.
  - exact client_start.
  - intros c s l l' k g n Hp (w & Hd). exists w. destruct Hd. split; try done. by rewrite <- Hp.
  - intros c s l k g n n' Hn (w & Hd). exists w. destruct Hd. split; try done; lia.
  - intros c s l k g n i Hc Hroom. de_open Hc Hroom. eapply (describes_step _ _ _ _ _ _ _ _ _ _ _ _ _ Hd Hroom);
      [apply (step_i31 oc dbg min_cap order w i)|..]; cbn; try done; [by rewrite (de_held _ _ _ _ _ _ _ Hd)|apply Hd].
  - intros c s l k k' g n Hc Hroom Hf. de_open Hc Hroom. eapply (describes_step _ _ _ _ _ _ _ _ _ _ _ _ _ Hd Hroom);
      [by apply (step_wasm oc dbg min_cap order w k')|..]; cbn; try done; apply Hd.
  - intros c s l k g n r Hc Hroom Hr. de_open Hc Hroom. eapply ref_valid; [exact Hw|by eapply in_world].
  - exact client_value.
  - exact client_clone.
  - exact client_drop.
  - exact client_expose.
  - exact client_alloc.
  - exact client_set.
  - intros c s l k g n Hc Hroom Hu. cbn [gh_enter_no_gc_scope root_heap DrcHeap_GcHeap].
    assert (no_gc_count (gc_heap s) = c) as -> by (destruct Hc as [w Hd]; apply Hd).
    rewrite arith_ok by done. eexists. split; [done|]. eapply client_scope; [done|done|left|done].
    cbn [gh_enter_no_gc_scope root_heap DrcHeap_GcHeap].
    assert (no_gc_count (gc_heap s) = c) as -> by (destruct Hc as [w Hd]; apply Hd). by rewrite arith_ok.
  - intros c s l k g n Hc Hroom Hu. cbn [gh_exit_no_gc_scope root_heap DrcHeap_GcHeap].
    assert (no_gc_count (gc_heap s) = c + 1) as Hcnt by (destruct Hc as [w Hd]; apply Hd).
    rewrite Hcnt, Z.add_simpl_r, arith_ok by done. eexists. split; [done|]. eapply client_scope; [done|done|right|done].
    cbn [gh_exit_no_gc_scope root_heap DrcHeap_GcHeap]. by rewrite Hcnt, Z.add_simpl_r, arith_ok.
  - exact client_collect.
Qed.
End Collector.
