(* ===== verification/RootOps.v ===== *)
(** * What the operations on roots do

    The operations of [Rooting] against the interface [RootHeap.GcClient]: each lemma
    gives, for an operation run on a store whose heap holds exactly the references of
    its root set (and those of a local variable in the middle of an operation), the
    result and the store it leaves.  [wp m s Q]: [m] does not panic on [s], and [Q]
    holds of its result and of the store it leaves. *)

From Stdlib Require Import ZArith Lia.
From stdpp Require Import base list gmap numbers option sets.
From S2P Require Import Prelude Slab GcRef Drc GcStore Rooting RootHeap.
Open Scope Z_scope.

(** ** Weakest preconditions *)

Section Wp.
  Context {St E : Type}.

Definition wp {A} (m : io St E A) (s : St) (Q : outcome E A -> St -> Prop) : Prop :=
  match m s with
  | (_, Panic) => False
  | (s', r) => Q r s'
  end.

Lemma run_bind {A B} (m : io St E A) (f : A -> io St E B) s Q :
  wp m s (fun r s' => match r with Ok x => wp (f x) s' Q | Err e => Q (Err e) s' | Panic => False end) ->
  wp (m ≫= f) s Q.
Proof. unfold wp, mbind, io_bind. by destruct (m s) as [s' [x|e|]]. Qed.

Lemma run_ret {A} (x : A) s (Q : outcome E A -> St -> Prop) : Q (Ok x) s -> wp (mret x) s Q.
Proof. done. Qed.

Lemma run_lift {A} (m : outcome E A) x s Q : m = Ok x -> Q (Ok x) s -> wp (lift m) s Q.
Proof. intros ->. done. Qed.

Lemma run_mono {A} (m : io St E A) s Q Q' : (forall r s', Q r s' -> Q' r s') -> wp m s Q -> wp m s Q'.
Proof. intros HQ. unfold wp. destruct (m s) as [s' [x|e|]]; naive_solver. Qed.

Lemma wp_assoc {A B C} (m : io St E A) (f : A -> io St E B) (g : B -> io St E C) s Q :
  wp ((m ≫= f) ≫= g) s Q -> wp (m ≫= (fun x => f x ≫= g)) s Q.
Proof. unfold wp, mbind, io_bind. by destruct (m s) as [s' [x|e|]]. Qed.

Lemma wp_run {A} (m : io St E A) s Q : wp m s Q -> exists r s', m s = (s', r) /\ Q r s'.
Proof. unfold wp. destruct (m s) as [s' [x|e|]]; naive_solver. Qed.
End Wp.

(** ** Root sets *)

Definition lifo_refs (r : RootSet) : list Z := map lr_gc_ref (lifo_roots r).
Definition manual_refs (m : Slab VMGcRef) : list Z := map snd (map_to_list (Slab.view m)).
(** Everything a root set holds. *)
Definition root_refs (r : RootSet) : list Z := lifo_refs r ++ manual_refs (manually_rooted r).

Definition pushed (r : RootSet) (gc_ref : VMGcRef) : RootSet :=
  {| manually_rooted := manually_rooted r;
     lifo_roots := lifo_roots r ++ [{| lr_generation := lifo_generation r; lr_gc_ref := gc_ref |}];
     lifo_generation := lifo_generation r |}.
Definition with_manual (r : RootSet) (m : Slab VMGcRef) : RootSet :=
  {| manually_rooted := m; lifo_roots := lifo_roots r; lifo_generation := lifo_generation r |}.
Definition cut (r : RootSet) (scope : nat) : RootSet :=
  {| manually_rooted := manually_rooted r; lifo_roots := take scope (lifo_roots r);
     lifo_generation := lifo_generation r + 1 |}.

Definition lifo_handle (id : Z) (r : RootSet) : GcRootIndex :=
  {| ri_store_id := id; ri_generation := lifo_generation r; ri_index := Z.of_nat (length (lifo_roots r)) |}.
Definition manual_handle (id : Z) (i : EntryIndex) : GcRootIndex :=
  {| ri_store_id := id; ri_generation := 0; ri_index := packed_manual i |}.

(** A root set in which at most [n] roots were made and scopes left. *)
Record roots_ok (r : RootSet) (n : Z) : Prop := {
  ro_slab : slab_inv (manually_rooted r);
  ro_entries : Z.of_nat (length (entries (manually_rooted r))) <= n;
  ro_lifo : Z.of_nat (length (lifo_roots r)) <= n;
  ro_generation : 0 <= lifo_generation r <= n
}.

Lemma manual_refs_length m : (length (manual_refs m) <= length (entries m))%nat.
Proof.
  unfold manual_refs. rewrite length_map, <- (length_fmap fst).
  rewrite <- (length_seq (length (entries m)) 0), <- (length_map key).
  apply submseteq_length, NoDup_submseteq; [apply NoDup_fst_map_to_list|].
  intros id ([i x] & -> & [Hi Hl]%elem_of_map_to_list%view_lookup_Some)%list_elem_of_fmap. cbn [fst] in *.
  apply lookup_lt_Some in Hl. apply list_elem_of_fmap. exists (entry_index i). unfold key, entry_index in *.
  split; [lia|]. apply elem_of_seq. split; [lia|exact Hl].
Qed.

(** An allocation adds at most one entry to an arena. *)
Lemma try_alloc_length {E} oc (s s' : Slab VMGcRef) v o :
  try_alloc (E:=E) oc s v = Ok (o, s') -> (length (entries s') <= S (length (entries s)))%nat.
Proof.
  unfold try_alloc. intros Hx. apply bind_Ok_inv in Hx as ([oi s1] & H1 & Hx).
  assert (length (entries s1) <= S (length (entries s)))%nat as Hl.
  { unfold try_alloc_index in H1. destruct (free s); [by simplify_eq/=; lia|].
    destruct (_ <? _); outcome_inv; simplify_eq/=; rewrite ?length_app; cbn [length]; lia. }
  destruct oi as [i|]; [|by simplify_eq]. apply bind_Ok_inv in Hx as (e & _ & Hx).
  destruct e; [done|]. apply bind_Ok_inv in Hx as (? & _ & Hx). simplify_eq/=. by rewrite length_insert.
Qed.

Lemma try_alloc_none {E} oc (s s' : Slab VMGcRef) v : try_alloc (E:=E) oc s v = Ok (None, s') -> s' = s.
Proof.
  unfold try_alloc. intros Hx. apply bind_Ok_inv in Hx as ([oi s1] & H1 & Hx).
  destruct oi as [i|].
  { apply bind_Ok_inv in Hx as (e & _ & Hx). destruct e; [done|]. by apply bind_Ok_inv in Hx as (? & _ & Hx). }
  simplify_eq. unfold try_alloc_index in H1. destruct (free s); [done|]. destruct (_ <? _); outcome_inv; by simplify_eq.
Qed.

Lemma alloc_length {E} oc min_cap (s s' : Slab VMGcRef) v id :
  Slab.alloc (E:=E) oc min_cap s v = Ok (id, s') -> (length (entries s') <= S (length (entries s)))%nat.
Proof.
  unfold Slab.alloc. intros Hx. apply bind_Ok_inv in Hx as ([[i|] s1] & H1 & Hx).
  - simplify_eq. by eapply try_alloc_length.
  - apply try_alloc_none in H1 as ->. unfold alloc_slow, double_capacity, reserve in Hx.
    apply bind_Ok_inv in Hx as (s2 & H2 & Hx). apply bind_Ok_inv in Hx as ([o s3] & H3%try_alloc_length & Hx).
    assert (entries s2 = entries s) as He by (apply bind_Ok_inv in H2 as (? & _ & H2); destruct (_ <=? _); outcome_inv; done).
    rewrite He in H3. outcome_inv. by simplify_eq.
Qed.

Definition left_scope (rs : RootSet) (scope : nat) : RootSet := if (scope <? length (lifo_roots rs))%nat then cut rs scope else rs.

Lemma roots_ok_pushed rs n r : roots_ok rs n -> roots_ok (pushed rs r) (n + 1).
Proof. intros [? ? ? ?]. split; cbn; [done|lia|rewrite length_app; cbn; lia|lia]. Qed.

Lemma roots_ok_weaken rs n n' : n <= n' -> roots_ok rs n -> roots_ok rs n'.
Proof. intros Hn [? ? ? ?]. split; [done|lia..]. Qed.

Lemma roots_ok_left rs n scope : roots_ok rs n -> roots_ok (left_scope rs scope) (n + 1).
Proof.
  intros [? ? ? ?]. unfold left_scope. destruct (_ <? _)%nat; split; cbn; try lia; try done.
  rewrite length_take. lia.
Qed.

(** The generation after a scope with roots in it was left. *)
Definition bump (r : RootSet) : RootSet :=
  {| manually_rooted := manually_rooted r; lifo_roots := lifo_roots r; lifo_generation := lifo_generation r + 1 |}.

Section Ops.
  Context {T H : Type} `{!GcHeap T H} (oc dbg : bool) (min_cap : Z) (new_heap : outcome (root_error T) H).
  Context (at_ : Z -> GcStore T H -> list Z -> list Z -> gmap Z T -> Z -> Prop).
  Context `{!GcClient oc min_cap new_heap at_} (Hmin : min_cap <= 2 ^ 31).
  Implicit Types (id c n : Z) (rs : RootSet) (s : GcStore T H) (g : gmap Z T) (l k : list Z).
  Implicit Types (r : VMGcRef) (lst : list GcRoot) (gs : option (GcStore T H)).

Abbreviation SO id gs rs lst := {| so_id := id; so_gc_store := gs; so_gc_roots := rs; so_gc_roots_list := lst |}.

Lemma at_perm c s l l' k g n : l ≡ₚ l' -> at_ c s l k g n -> at_ c s l' k g n.
Proof using GcClient0. apply (gc_perm _ _ _). Qed.
Lemma room_perm l l' n : l ≡ₚ l' -> gc_room l n -> gc_room l' n.
Proof using Type. intros Hp. unfold gc_room. by rewrite Hp. Qed.

Lemma wp_get_store (st : StoreOpaque T H) Q : Q (Ok st) st -> wp get_store st Q.
Proof using Type. done. Qed.
Lemma wp_get_roots (st : StoreOpaque T H) Q : Q (Ok (so_gc_roots st)) st -> wp get_roots st Q.
Proof using Type. done. Qed.
Lemma wp_modify f (st : StoreOpaque T H) Q : Q (Ok ()) (f st) -> wp (modify f) st Q.
Proof using Type. done. Qed.
Lemma wp_unwrap_gc_store s id rs lst Q :
  Q (Ok s) (SO id (Some s) rs lst) -> wp unwrap_gc_store_mut (SO id (Some s) rs lst) Q.
Proof using Type. done. Qed.
Lemma wp_gc_store_mut s id rs lst Q :
  Q (Ok s) (SO id (Some s) rs lst) -> wp (gc_store_mut new_heap) (SO id (Some s) rs lst) Q.
Proof using Type. done. Qed.

(** [wp_go] runs the steps that only read and write the store. *)
Ltac wp_step :=
  lazymatch goal with
  | |- wp (_ ≫= _) _ _ => apply run_bind
  | |- wp get_store _ _ => apply wp_get_store
  | |- wp get_roots _ _ => apply wp_get_roots
  | |- wp (modify _) _ _ => apply wp_modify
  | |- wp unwrap_gc_store_mut _ _ => apply wp_unwrap_gc_store
  | |- wp (gc_store_mut _) _ _ => apply wp_gc_store_mut
  | |- wp (mret _) _ _ => apply run_ret
  end;
  cbn [so_id so_gc_store so_gc_roots so_gc_roots_list with_roots with_gc_store].
Ltac wp_go := cbv beta iota; repeat (wp_step; cbv beta iota).

(** *** The heap *)

Lemma wp_heap_clone c s id rs lst l k g n r Q :
  at_ c s l k g n -> gc_room l n -> r ∈ l ++ k ->
  (forall s', at_ c s' (r :: l) k g n -> Q (Ok r) (SO id (Some s') rs lst)) ->
  wp (heap_clone s r) (SO id (Some s) rs lst) Q.
Proof using GcClient0.
  intros Ha Hr Hin HQ. destruct (gc_clone _ _ _ _ _ _ _ _ _ _ Ha Hr Hin) as (s' & He & Ha').
  unfold wp, heap_clone, on_heap. rewrite He. cbn. by apply HQ.
Qed.

Lemma wp_heap_drop c s id rs lst l k g n r Q :
  at_ c s (r :: l) k g n -> gc_room (r :: l) n ->
  (forall s', at_ c s' l k g n -> Q (Ok ()) (SO id (Some s') rs lst)) ->
  wp (heap_drop s r) (SO id (Some s) rs lst) Q.
Proof using GcClient0.
  intros Ha Hr HQ. destruct (gc_drop _ _ _ _ _ _ _ _ _ _ Ha Hr) as (s' & He & Ha').
  unfold wp, heap_drop, on_heap. rewrite He. cbn. by apply HQ.
Qed.

Lemma wp_heap_expose c s id rs lst l k g n r Q :
  at_ c s (r :: l) k g n -> gc_room (r :: l) n ->
  (forall s', at_ c s' l (r :: k) g (n + 1) -> Q (Ok ()) (SO id (Some s') rs lst)) ->
  wp (heap_expose s r) (SO id (Some s) rs lst) Q.
Proof using GcClient0.
  intros Ha Hr HQ. destruct (gc_expose _ _ _ _ _ _ _ _ _ _ Ha Hr) as (s' & He & Ha').
  unfold wp, heap_expose, on_heap. rewrite He. cbn. by apply HQ.
Qed.

Lemma wp_no_gc {A} (block : io (StoreOpaque T H) (root_error T) A) c s id rs lst l k g n Q :
  at_ c s l k g n -> gc_room l n -> 0 <= c < 2 ^ 32 ->
  (forall s1, at_ (c + 1) s1 l k g n -> wp block (SO id (Some s1) rs lst) (fun x st =>
     exists s2 rs2 l2 k2 g2 n2, st = SO id (Some s2) rs2 lst /\ at_ (c + 1) s2 l2 k2 g2 n2 /\ gc_room l2 n2 /\
       forall s3, at_ c s3 l2 k2 g2 n2 -> Q x (SO id (Some s3) rs2 lst))) ->
  wp (AutoAssertNoGc block) (SO id (Some s) rs lst) Q.
Proof using GcClient0.
  intros Ha Hr Hc Hb. destruct (gc_enter _ _ _ _ _ _ _ _ _ Ha Hr) as (h & He & Ha1); [unfold in_u; lia|].
  specialize (Hb _ Ha1). unfold wp, AutoAssertNoGc, no_gc_new, finally, mbind, io_bind, get_store. cbn.
  rewrite He. cbn. unfold wp in Hb. unfold on_heap, mbind, io_bind, mret, io_ret, modify, with_gc_store. cbn.
  set (st1 := SO id (Some {| gc_heap := h; host_data_table := host_data_table s |}) rs lst) in *.
  destruct (block st1) as [st [x|e|]]; [| |done]; destruct Hb as (s2 & rs2 & l2 & k2 & g2 & n2 & -> & Ha2 & Hr2 & HQ);
    destruct (gc_exit _ _ _ _ _ _ _ _ _ Ha2 Hr2) as (h' & He' & Ha3); try (unfold in_u; lia);
    unfold no_gc_drop, unwrap_gc_store_mut, on_heap, mbind, io_bind, get_store; cbn; rewrite He'; cbn; by apply HQ.
Qed.

Lemma wp_no_gc_none {A} (block : io (StoreOpaque T H) (root_error T) A) id rs lst Q :
  wp block (SO id None rs lst) Q -> wp (AutoAssertNoGc block) (SO id None rs lst) Q.
Proof using Type.
  unfold wp, AutoAssertNoGc, no_gc_new, finally, mbind, io_bind, get_store. cbn.
  by destruct (block _) as [st [x|e|]].
Qed.

(** *** Scopes *)

Lemma wp_drop_roots roots c s id rs lst l k g n Q :
  at_ c s (map lr_gc_ref roots ++ l) k g n -> gc_room (map lr_gc_ref roots ++ l) n ->
  (forall s', at_ c s' l k g n -> Q (Ok ()) (SO id (Some s') rs lst)) ->
  wp (drop_roots roots) (SO id (Some s) rs lst) Q.
Proof using GcClient0.
  revert s. induction roots as [|root roots IH]; intros s Ha Hr HQ; [by apply HQ|].
  cbn [drop_roots map app] in *. apply run_bind. unfold wp at 1. cbn.
  apply run_bind. eapply wp_heap_drop; [exact Ha|exact Hr|]. intros s' Ha'. apply IH; [done| |done].
  unfold gc_room in *. cbn [length] in Hr. lia.
Qed.

Lemma root_refs_cut rs scope :
  root_refs rs ≡ₚ map lr_gc_ref (drop scope (lifo_roots rs)) ++ root_refs (cut rs scope).
Proof using Type.
  unfold root_refs, lifo_refs, cut. cbn [lifo_roots manually_rooted].
  rewrite <- (take_drop scope (lifo_roots rs)) at 1. rewrite map_app. solve_Permutation.
Qed.

Lemma wp_exit_scope scope c s id rs lst l k g n Q :
  (scope <= length (lifo_roots rs))%nat -> in_u 32 (lifo_generation rs + 1) ->
  at_ c s (l ++ root_refs rs) k g n -> gc_room (l ++ root_refs rs) n ->
  (forall s', at_ c s' (l ++ root_refs (left_scope rs scope)) k g n -> Q (Ok ()) (SO id (Some s') (left_scope rs scope) lst)) ->
  wp (exit_gc_lifo_scope oc dbg scope) (SO id (Some s) rs lst) Q.
Proof using GcClient0.
  intros Hs Hg Ha Hr HQ. unfold exit_gc_lifo_scope. wp_go. unfold exit_lifo_scope. wp_go.
  eapply run_lift; [apply debug_assert_true; by apply Nat.leb_le|]. cbv iota beta.
  unfold left_scope in HQ. destruct (scope <? length (lifo_roots rs))%nat eqn:Hlt; [|exact (HQ _ Ha)].
  unfold exit_lifo_scope_slow. wp_go. eapply run_lift; [by apply arith_ok|]. wp_go.
  eapply run_lift; [by rewrite (proj2 (Nat.leb_le _ _) Hs)|]. wp_go.
  assert (Hp : l ++ root_refs rs ≡ₚ map lr_gc_ref (drop scope (lifo_roots rs)) ++ l ++ root_refs (cut rs scope)).
  { rewrite root_refs_cut. solve_Permutation. }
  eapply wp_drop_roots; [exact (at_perm _ _ _ _ _ _ _ Hp Ha)|exact (room_perm _ _ _ Hp Hr)|].
  intros s' Ha'. by apply HQ.
Qed.

(** *** Making roots *)

Lemma wp_rooted_new id gs rs lst r Q :
  Z.of_nat (length (lifo_roots rs)) < 2 ^ 31 ->
  Q (Ok {| rooted_inner := lifo_handle id rs |}) (SO id gs (pushed rs r) lst) ->
  wp (rooted_new dbg r) (SO id gs rs lst) Q.
Proof using Type.
  intros Hl HQ. unfold rooted_new. wp_go. unfold push_lifo_root. wp_go.
  eapply run_lift; [by apply new_lifo_ok|]. wp_go. exact HQ.
Qed.

Lemma wp_manual_new id gs rs lst r n Q :
  roots_ok rs n -> n < 2 ^ 30 ->
  (forall i m, Slab.view (manually_rooted rs) !! i = None -> Slab.view m = <[i := r]> (Slab.view (manually_rooted rs)) ->
     roots_ok (with_manual rs m) (n + 1) -> 1 <= i <= 2 ^ 31 ->
     Q (Ok {| manual_inner := manual_handle id i |}) (SO id gs (with_manual rs m) lst)) ->
  wp (manually_rooted_new oc dbg min_cap r) (SO id gs rs lst) Q.
Proof using Hmin.
  intros [Hsl He Hlf Hg] Hn HQ. pose proof (slab_alloc_ok (E:=root_error T) oc min_cap (manually_rooted rs) r Hsl) as Hal.
  rewrite (proj2 (orb_true_iff _ _)) in Hal.
  2:{ destruct (has_room (manually_rooted rs)) eqn:Hroom; [by left|right]. apply Z.leb_le.
      unfold has_room in Hroom. destruct (free _); [done|]. zbool. unfold grown, MAX_CAPACITY, u32_max, MIN_CAPACITY. lia. }
  destruct Hal as (i & m & Ha & _ & Hm & Hnone & Hv). pose proof (alloc_length _ _ _ _ _ _ Ha) as Hlen.
  assert (Hi : 1 <= i <= 2 ^ 31).
  { assert (Hin : Slab.view m !! i = Some r) by (rewrite Hv; apply lookup_insert_eq).
    apply view_lookup_Some in Hin as [? Hin%lookup_lt_Some]. unfold entry_index in *. lia. }
  unfold manually_rooted_new. wp_go. eapply run_lift; [exact Ha|]. wp_go.
  eapply run_lift; [by apply new_manual_ok|]. wp_go. apply HQ; [done|done| |done].
  split; cbn; [done|lia|lia|lia].
Qed.

Lemma root_refs_pushed rs r : root_refs (pushed rs r) ≡ₚ r :: root_refs rs.
Proof using Type. unfold root_refs, lifo_refs, pushed. cbn. rewrite map_app. cbn. solve_Permutation. Qed.

Lemma root_refs_manual rs m i r :
  Slab.view (manually_rooted rs) !! i = None -> Slab.view m = <[i := r]> (Slab.view (manually_rooted rs)) ->
  root_refs (with_manual rs m) ≡ₚ r :: root_refs rs.
Proof using Type.
  intros Hn Hv. unfold root_refs, manual_refs. cbn. rewrite Hv, map_to_list_insert by done. cbn. solve_Permutation.
Qed.

(** *** Stores with and without a heap

    The heap is made when it is first needed; until then only integers are rooted. *)

Definition int_ref (r : Z) : Prop := exists i, r = wrapping_u32 i.

Definition heap_ok c gs l k g n : Prop :=
  match gs with
  | Some s => at_ c s l k g n
  | None => c = 0 /\ g = ∅ /\ Forall int_ref l /\ Forall int_ref k
  end.
Definition has gs : bool := match gs with Some _ => true | None => false end.

Lemma heap_perm c gs l l' k g n : l ≡ₚ l' -> heap_ok c gs l k g n -> heap_ok c gs l' k g n.
Proof using GcClient0.
  destruct gs as [s|]; cbn; [apply at_perm|]. intros Hp (-> & -> & Hl & Hk). by rewrite <- Hp.
Qed.

Lemma room_tail a l n : gc_room (a :: l) n -> gc_room l n.
Proof using Type. unfold gc_room. cbn [length]. lia. Qed.

Lemma fresh_heap h l k n : new_heap = Ok h -> Forall int_ref l -> Forall int_ref k -> gc_room l n -> 0 <= n ->
  at_ 0 (store_new h) l k ∅ n.
Proof using GcClient0.
  intros Hh Hl Hk Hr Hn. assert (Hl' : at_ 0 (store_new h) l [] ∅ n).
  { induction Hl as [|r l [i ->] Hl IH].
    - eapply (gc_weaken _ _ _); [exact Hn|by apply (gc_new _ _ _)].
    - pose proof (room_tail _ _ _ Hr). apply (gc_int _ _ _); [by apply IH|done]. }
  eapply (gc_frames _ _ _); [exact Hl'|done|]. intros r Hin. right. by eapply list.Forall_forall in Hk.
Qed.

Hypothesis Hheap : new_heap <> Panic.

(** If there was no heap, there is one now. *)
Definition heap_made gs : Prop := has gs = false -> exists h, new_heap = Ok h.

Lemma wp_ensure_heap c gs id rs l k g n Q :
  heap_ok c gs l k g n -> gc_room l n -> 0 <= n ->
  (forall s, heap_made gs -> at_ c s l k g n -> Q (Ok s) (SO id (Some s) rs [])) ->
  (forall e, gs = None -> new_heap = Err e -> Q (Err e) (SO id None rs [])) ->
  wp (gc_store_mut new_heap) (SO id gs rs []) Q.
Proof using GcClient0 Hheap.
  destruct gs as [s|]; intros Ha Hr Hn HQ He; [apply wp_gc_store_mut; by apply HQ|].
  destruct Ha as (-> & -> & Hl & Hk).
  assert ((exists h, new_heap = Ok h) \/ (exists e, new_heap = Err e)) as [[h Hh]|[e Hh]].
  { clear -Hheap. destruct new_heap; [left|right|]; by eauto. }
  - unfold wp. cbn. unfold allocate_gc_heap, mbind, io_bind, get_store, lift. cbn. rewrite Hh.
    apply (HQ (store_new h)); [intros _; by exists h|by apply fresh_heap].
  - unfold wp. cbn. unfold allocate_gc_heap, mbind, io_bind, get_store, lift. cbn. rewrite Hh. by apply He.
Qed.

Lemma wp_block {A} (block : io (StoreOpaque T H) (root_error T) A) gs id rs l k g n Q :
  heap_ok 0 gs l k g n -> gc_room l n ->
  (forall c gs1, heap_ok c gs1 l k g n -> has gs1 = has gs -> 0 <= c -> wp block (SO id gs1 rs []) (fun x st =>
     exists gs2 rs2 l2 k2 g2 n2, st = SO id gs2 rs2 [] /\ heap_ok c gs2 l2 k2 g2 n2 /\ gc_room l2 n2 /\
       (has gs = true -> has gs2 = true) /\
       forall gs3, heap_ok 0 gs3 l2 k2 g2 n2 -> has gs3 = has gs2 -> Q x (SO id gs3 rs2 []))) ->
  wp (AutoAssertNoGc block) (SO id gs rs []) Q.
Proof using GcClient0.
  intros Ha Hr Hb. destruct gs as [s|].
  - eapply wp_no_gc; [exact Ha|exact Hr|lia|]. intros s1 Ha1. eapply run_mono; [|exact (Hb 1 (Some s1) Ha1 eq_refl ltac:(lia))].
    intros x st (gs2 & rs2 & l2 & k2 & g2 & n2 & -> & Ha2 & Hr2 & Hs & HQ). destruct gs2 as [s2|]; [|by specialize (Hs eq_refl)].
    exists s2, rs2, l2, k2, g2, n2. split_and!; [done|done|done|]. intros s3 Ha3. by apply (HQ (Some s3)).
  - apply wp_no_gc_none. eapply run_mono; [|exact (Hb 0 None Ha eq_refl ltac:(lia))].
    intros x st (gs2 & rs2 & l2 & k2 & g2 & n2 & -> & Ha2 & Hr2 & Hs & HQ). by apply HQ.
Qed.

(** A block that does nothing. *)
Lemma wp_block_ret {A} (block : io (StoreOpaque T H) (root_error T) A) v gs id rs l k g n :
  heap_ok 0 gs l k g n -> gc_room l n -> (forall st, block st = (st, Ok v)) ->
  wp (AutoAssertNoGc block) (SO id gs rs []) (fun x st => x = Ok v /\ exists gs', st = SO id gs' rs [] /\ has gs' = has gs /\ heap_ok 0 gs' l k g n).
Proof using GcClient0.
  intros Ha Hr Hb. eapply wp_block; [exact Ha|exact Hr|]. intros c gs1 Ha1 Hs Hc. unfold wp. rewrite Hb.
  exists gs1, rs, l, k, g, n. split_and!; [done..|by rewrite Hs|]. intros gs3 Ha3 Hs3. split; [done|]. exists gs3. split_and!; [done|by rewrite Hs3|done].
Qed.

Lemma room_roots rs n l : roots_ok rs n -> n < 2 ^ 32 -> (length l <= 8)%nat -> gc_room (l ++ root_refs rs) n.
Proof using Type.
  intros Hok Hn Hl. pose proof (manual_refs_length (manually_rooted rs)). destruct Hok as [_ He Hlf _].
  unfold gc_room, root_refs, lifo_refs. rewrite !length_app, length_map. lia.
Qed.

(** *** Looking up handles *)

Definition scoped_at (id : Z) (h : GcRootIndex) (i : nat) : Prop :=
  ri_store_id h = id /\ ri_index h = Z.of_nat i /\ Z.of_nat i < 2 ^ 31.
Definition manual_at (id : Z) (h : GcRootIndex) (i : EntryIndex) : Prop :=
  ri_store_id h = id /\ ri_index h = packed_manual i /\ 1 <= i <= 2 ^ 31.

Lemma rooted_get_ok {E} (st : StoreOpaque T H) h i : scoped_at (so_id st) h i ->
  rooted_get_gc_ref (E:=E) dbg {| rooted_inner := h |} st = Ok (lifo_get h i st).
Proof using Type.
  intros (Hs & Hi & Hlt). destruct (lifo_index i Hlt) as (Hl & _ & Ha).
  unfold rooted_get_gc_ref, rooted_comes_from_same_store, index_comes_from_same_store. cbn [rooted_inner].
  rewrite Hi, Hl, Ha, Hs, Z.eqb_refl, debug_assert_true by done. done.
Qed.

Lemma unchecked_lifo_ok {E} (st : StoreOpaque T H) h i : scoped_at (so_id st) h i ->
  unchecked_get_gc_ref (E:=E) dbg h st = Ok (lifo_get h i st).
Proof using Type.
  intros (Hs & Hi & Hlt). destruct (lifo_index i Hlt) as (_ & _ & Ha).
  unfold unchecked_get_gc_ref, index_comes_from_same_store. by rewrite Hi, Ha, Hs, Z.eqb_refl.
Qed.

Lemma slab_get_ok {E} (m : Slab VMGcRef) i r : Slab.view m !! i = Some r -> Slab.get (E:=E) m i = Ok (Some r).
Proof using Type. intros [_ Hl]%view_lookup_Some. unfold Slab.get. by rewrite Hl. Qed.

Lemma manual_same_store {E} (st : StoreOpaque T H) h i : manual_at (so_id st) h i ->
  manual_comes_from_same_store (E:=E) dbg {| manual_inner := h |} st = Ok true /\
  as_manual (E:=E) (ri_index h) = Ok (Some i).
Proof using Type.
  intros (Hs & Hi & Hlt). destruct (manual_index (E:=E) i Hlt) as (Hm & _ & _ & Ha).
  unfold manual_comes_from_same_store, index_comes_from_same_store. cbn [manual_inner].
  by rewrite Hi, Hm, Ha, Hs, Z.eqb_refl, debug_assert_true by done.
Qed.

Lemma manual_get_ok {E} (st : StoreOpaque T H) h i r : manual_at (so_id st) h i ->
  Slab.view (manually_rooted (so_gc_roots st)) !! i = Some r ->
  manual_get_gc_ref (E:=E) dbg {| manual_inner := h |} st = Ok (Some r).
Proof using Type.
  intros Hm Hv. destruct (manual_same_store (E:=E) st h i Hm) as [Hs Ha].
  unfold manual_get_gc_ref. cbn [manual_inner]. rewrite Hs, Ha. cbn. by apply slab_get_ok.
Qed.

Lemma unchecked_manual_ok {E} (st : StoreOpaque T H) h i r : manual_at (so_id st) h i ->
  Slab.view (manually_rooted (so_gc_roots st)) !! i = Some r ->
  unchecked_get_gc_ref (E:=E) dbg h st = Ok (Some r).
Proof using Type.
  intros (Hs & Hi & Hlt) Hv. destruct (manual_index (E:=E) i Hlt) as (Hm & _ & Hn & Ha).
  unfold unchecked_get_gc_ref, index_comes_from_same_store. rewrite Hi, Hn, Ha, Hs, Z.eqb_refl. cbn.
  rewrite (slab_get_ok _ _ _ Hv). cbn. by rewrite debug_assert_true.
Qed.

Section Handle.
  Context {R : Type} `{!RootedGcRefImpl (T:=T) (H:=H) R} (h : R).

Lemma wp_try_gc_ref (st : StoreOpaque T H) o Q : get_gc_ref h st = Ok o ->
  match o with Some r => Q (Ok r) st | None => Q (Err Unrooted) st end -> wp (try_gc_ref h) st Q.
Proof using Type. intros Hg HQ. unfold wp, try_gc_ref, mbind, io_bind, get_store, lift. cbn. rewrite Hg. by destruct o. Qed.

Lemma wp_try_clone c gs id rs l k g n r Q :
  get_gc_ref h (SO id gs rs []) = Ok (Some r) -> heap_ok c gs l k g n -> gc_room l n -> 0 <= n -> r ∈ l ++ k ->
  (forall s, heap_made gs -> at_ c s (r :: l) k g n -> Q (Ok r) (SO id (Some s) rs [])) ->
  (forall e, gs = None -> new_heap = Err e -> Q (Err e) (SO id None rs [])) ->
  wp (try_clone_gc_ref new_heap h) (SO id gs rs []) Q.
Proof using GcClient0 Hheap.
  intros Hg Ha Hr Hn Hin HQ He. unfold try_clone_gc_ref. wp_go. eapply wp_try_gc_ref; [exact Hg|]. wp_go.
  eapply wp_ensure_heap; [exact Ha|exact Hr|exact Hn| |exact He].
  intros s Hmade Ha'. eapply wp_heap_clone; [exact Ha'|done|done|]. intros s' Ha2. by apply HQ.
Qed.

Lemma wp_clone_gc_ref c s id rs l k g n r Q :
  get_gc_ref h (SO id (Some s) rs []) = Ok (Some r) -> at_ c s l k g n -> gc_room l n -> r ∈ l ++ k ->
  (forall s', at_ c s' (r :: l) k g n -> Q (Ok (Some r)) (SO id (Some s') rs [])) ->
  wp (clone_gc_ref h) (SO id (Some s) rs []) Q.
Proof using GcClient0.
  intros Hg Ha Hr Hin HQ. unfold clone_gc_ref. wp_go. eapply run_lift; [exact Hg|]. wp_go.
  eapply wp_heap_clone; [exact Ha|done|done|]. intros s' Ha'. wp_go. by apply HQ.
Qed.
End Handle.

(** *** The operations *)

Definition made_scoped id rs r k g n (b : bool) (x : outcome (root_error T) Rooted) (st : StoreOpaque T H) : Prop :=
  x = Ok {| rooted_inner := lifo_handle id rs |} /\
  exists gs', st = SO id gs' (pushed rs r) [] /\ has gs' = b /\ heap_ok 0 gs' (root_refs (pushed rs r)) k g n.

Definition made_manual id rs r k g n (x : outcome (root_error T) ManuallyRooted) (st : StoreOpaque T H) : Prop :=
  exists i m s', x = Ok {| manual_inner := manual_handle id i |} /\ st = SO id (Some s') (with_manual rs m) [] /\
    Slab.view (manually_rooted rs) !! i = None /\ Slab.view m = <[i := r]> (Slab.view (manually_rooted rs)) /\
    roots_ok (with_manual rs m) (n + 1) /\ 1 <= i <= 2 ^ 31 /\ at_ 0 s' (root_refs (with_manual rs m)) k g n.

Definition refused {A} id rs gs (x : outcome (root_error T) A) (st : StoreOpaque T H) : Prop :=
  exists e, gs = None /\ new_heap = Err e /\ x = Err e /\ st = SO id None rs [].

Definition out_of_memory {A} id gs rs k g n v (x : outcome (root_error T) A) (st : StoreOpaque T H) : Prop :=
  heap_made gs /\ x = Err (GcHeapOutOfMemory v) /\ exists s', st = SO id (Some s') rs [] /\ at_ 0 s' (root_refs rs) k g n.

Lemma wp_from_cloned ty r (st : StoreOpaque T H) Q :
  is_i31 r = match ty with Extern => false | Any => true end ->
  wp (rooted_new dbg r) st Q -> wp (from_cloned_gc_ref dbg ty r) st Q.
Proof using Type.
  intros Hi HQ. destruct ty; cbn; unfold externref_from_cloned, anyref_from_cloned, is_extern_ref; apply run_bind;
    (eapply run_lift; [by rewrite Hi|done]).
Qed.

Section Roots.
  Context (rs : RootSet) (n : Z) (Hok : roots_ok rs n) (Hn : n < 2 ^ 30).
  Implicit Types (v : T).

Lemma n_pos : 0 <= n.
Proof using Hok. destruct Hok. lia. Qed.
Lemma roots_room l : (length l <= 8)%nat -> gc_room (l ++ root_refs rs) n.
Proof using Hok Hn. intros Hl. apply room_roots; [done|lia|done]. Qed.
Lemma lifo_room : Z.of_nat (length (lifo_roots rs)) < 2 ^ 31.
Proof using Hok Hn. destruct Hok. lia. Qed.

(** A reference in a local variable becomes a root. *)
Lemma scoped_ok r gs id k g (mk : io (StoreOpaque T H) (root_error T) Rooted) :
  heap_ok 0 gs (r :: root_refs rs) k g n ->
  (forall (st : StoreOpaque T H) Q, wp (rooted_new dbg r) st Q -> wp mk st Q) ->
  wp (AutoAssertNoGc mk) (SO id gs rs []) (made_scoped id rs r k g n (has gs)).
Proof using GcClient0 Hok Hn.
  intros Ha Hmk. eapply wp_block; [exact Ha|by apply (roots_room [r]); cbn; lia|]. intros c gs1 Ha1 Hs Hc. apply Hmk.
  apply wp_rooted_new; [apply lifo_room|]. exists gs1, (pushed rs r), (r :: root_refs rs), k, g, n.
  split_and!; [done|done|by apply (roots_room [r]); cbn; lia|by rewrite Hs|]. intros gs3 Ha3 Hs3. split; [done|].
  exists gs3. split_and!; [done|by rewrite Hs3|]. eapply heap_perm; [|exact Ha3]. symmetry. apply root_refs_pushed.
Qed.

Lemma manual_ok r s id k g :
  at_ 0 s (r :: root_refs rs) k g n ->
  wp (AutoAssertNoGc (manually_rooted_new oc dbg min_cap r)) (SO id (Some s) rs []) (made_manual id rs r k g n).
Proof using GcClient0 Hmin Hok Hn.
  intros Ha. eapply wp_no_gc; [exact Ha|by apply (roots_room [r]); cbn; lia|lia|]. intros s1 Ha1.
  eapply wp_manual_new; [exact Hok|exact Hn|]. intros i m Hv Hm Hro Hi.
  exists s1, (with_manual rs m), (r :: root_refs rs), k, g, n. split_and!; [done|done|by apply (roots_room [r]); cbn; lia|].
  intros s3 Ha3. exists i, m, s3. split_and!; try done; try lia.
  eapply at_perm; [|exact Ha3]. symmetry. by eapply root_refs_manual.
Qed.

Lemma alloc_root_ok v gs id k g :
  heap_ok 0 gs (root_refs rs) k g n ->
  wp (alloc_externref oc min_cap new_heap v) (SO id gs rs []) (fun x st =>
    (heap_made gs /\ exists r s', x = Ok r /\ st = SO id (Some s') rs [] /\ r ∉ root_refs rs ++ k /\ is_i31 r = false /\
       at_ 0 s' (r :: root_refs rs) k (<[r := v]> g) n) \/
    out_of_memory id gs rs k g n v x st \/ refused id rs gs x st).
Proof using GcClient0 Hheap Hok Hn.
  intros Ha. unfold alloc_externref. wp_go. pose proof (roots_room [] ltac:(cbn; lia)) as Hr.
  eapply wp_ensure_heap; [exact Ha|exact Hr|apply n_pos| |].
  2:{ intros e -> He. right; right. by exists e. }
  intros s Hmade Ha'. destruct (gc_alloc _ _ _ _ _ _ _ _ _ v Ha' Hr) as (s' & [(r & He & Hnew & Hi & Ha1)|(He & Ha1)]);
    rewrite He; wp_go; (eapply run_lift; [done|]); cbv beta iota.
  - wp_go. left. split; [done|]. by exists r, s'.
  - unfold wp, lift. cbn. right; left. split_and!; [done|done|]. by exists s'.
Qed.

Lemma externref_new_ok v gs id k g :
  heap_ok 0 gs (root_refs rs) k g n ->
  wp (externref_new oc dbg min_cap new_heap v) (SO id gs rs []) (fun x st =>
    (heap_made gs /\ exists r, r ∉ root_refs rs ++ k /\ is_i31 r = false /\ made_scoped id rs r k (<[r := v]> g) n true x st) \/
    out_of_memory id gs rs k g n v x st \/ refused id rs gs x st).
Proof using GcClient0 Hheap Hok Hn.
  intros Ha. unfold externref_new. apply run_bind. eapply run_mono; [|by apply alloc_root_ok].
  intros x st [(Hmade & r & s' & -> & -> & Hnew & Hi & Ha')|[(Hmade & -> & s' & -> & Ha')|(e & -> & He & -> & ->)]].
  - eapply run_mono; [|apply (scoped_ok r (Some s')); [exact Ha'|]].
    + intros x st Hx. left. split; [done|]. by exists r.
    + intros st Q. by apply (wp_from_cloned Extern).
  - right; left. split_and!; [done|done|]. by exists s'.
  - right; right. by exists e.
Qed.

Lemma externref_new_manual_ok v gs id k g :
  heap_ok 0 gs (root_refs rs) k g n ->
  wp (externref_new_manually_rooted oc dbg min_cap new_heap v) (SO id gs rs []) (fun x st =>
    (heap_made gs /\ exists r, r ∉ root_refs rs ++ k /\ is_i31 r = false /\ made_manual id rs r k (<[r := v]> g) n x st) \/
    out_of_memory id gs rs k g n v x st \/ refused id rs gs x st).
Proof using GcClient0 Hmin Hheap Hok Hn.
  intros Ha. unfold externref_new_manually_rooted. apply run_bind. eapply run_mono; [|by apply alloc_root_ok].
  intros x st [(Hmade & r & s' & -> & -> & Hnew & Hi & Ha')|[(Hmade & -> & s' & -> & Ha')|(e & -> & He & -> & ->)]].
  - eapply run_mono; [|by apply manual_ok]. intros x st Hx. left. split; [done|]. by exists r.
  - right; left. split_and!; [done|done|]. by exists s'.
  - right; right. by exists e.
Qed.

Lemma anyref_from_i31_ok i gs id k g :
  heap_ok 0 gs (root_refs rs) k g n ->
  wp (anyref_from_i31 dbg (wrapping_u32 i)) (SO id gs rs []) (made_scoped id rs (wrapping_u32 i) k g n (has gs)).
Proof using GcClient0 Hok Hn.
  intros Ha. apply scoped_ok.
  - destruct gs as [s|]; cbn in *.
    + apply (gc_int _ _ _); [done|]. by apply (roots_room []); cbn; lia.
    + destruct Ha as (_ & -> & Hl & Hk). split_and!; try done. constructor; [by exists i|done].
  - intros st Q HQ. apply run_bind. eapply run_lift; [apply from_i31_ok|]. done.
Qed.

(** The result [x0], and the roots and what they refer to as they were. *)
Definition unchanged {A} id k g (b : bool) (x0 x : outcome (root_error T) A) (st : StoreOpaque T H) : Prop :=
  x = x0 /\ exists gs', st = SO id gs' rs [] /\ has gs' = b /\ heap_ok 0 gs' (root_refs rs) k g n.

Lemma to_manually_rooted_dead h i gs id k g :
  heap_ok 0 gs (root_refs rs) k g n -> scoped_at id h i -> lifo_get h i (SO id gs rs []) = None ->
  wp (to_manually_rooted oc dbg min_cap new_heap {| rooted_inner := h |}) (SO id gs rs [])
    (unchanged id k g (has gs) (Err Unrooted)).
Proof using GcClient0 Hok Hn.
  intros Ha Hh Ho. pose proof (roots_room [] ltac:(cbn; lia)) as Hr.
  eapply wp_block; [exact Ha|exact Hr|]. intros c gs1 Ha1 Hs Hc. unfold try_clone_gc_ref. wp_go.
  eapply wp_try_gc_ref; [exact (rooted_get_ok (SO id gs1 rs []) h i Hh)|].
  change (lifo_get h i (SO id gs1 rs [])) with (lifo_get h i (SO id gs rs [])). rewrite Ho.
  exists gs1, rs, (root_refs rs), k, g, n. split_and!; [done|done|done|by rewrite Hs|].
  intros gs3 Ha3 Hs3. split; [done|]. exists gs3. split_and!; [done|by rewrite Hs3|done].
Qed.

(** Two operations that clone a reference and root the clone by hand. *)
Lemma clone_manual_ok (clone : io (StoreOpaque T H) (root_error T) VMGcRef) block r gs id k g :
  heap_ok 0 gs (root_refs rs) k g n -> r ∈ root_refs rs ++ k ->
  (forall c gs1 Q, heap_ok c gs1 (root_refs rs) k g n -> has gs1 = has gs ->
     (forall s, heap_made gs1 -> at_ c s (r :: root_refs rs) k g n -> Q (Ok r) (SO id (Some s) rs [])) ->
     (forall e, gs1 = None -> new_heap = Err e -> Q (Err e) (SO id None rs [])) ->
     wp clone (SO id gs1 rs []) Q) ->
  (forall (st : StoreOpaque T H) Q, wp (gc_ref ← clone; manually_rooted_new oc dbg min_cap gc_ref) st Q -> wp block st Q) ->
  wp (AutoAssertNoGc block) (SO id gs rs []) (fun x st =>
    heap_made gs /\ made_manual id rs r k g n x st \/ refused id rs gs x st).
Proof using GcClient0 Hmin Hok Hn.
  intros Ha Hin Hcl Hblk. pose proof (roots_room [] ltac:(cbn; lia)) as Hr. pose proof (roots_room [r] ltac:(cbn; lia)) as Hr1.
  eapply wp_block; [exact Ha|exact Hr|]. intros c gs1 Ha1 Hs Hc. apply Hblk, run_bind, (Hcl c); [done|done| |].
  - intros s Hmade Ha2. eapply wp_manual_new; [exact Hok|exact Hn|]. intros i m Hv Hm Hro Hi.
    exists (Some s), (with_manual rs m), (r :: root_refs rs), k, g, n. split_and!; [done|exact Ha2|exact Hr1|done|].
    intros [s3|] Ha3 Hs3; [|done]. left. unfold heap_made in Hmade. rewrite Hs in Hmade. split; [done|]. exists i, m, s3. split_and!; try done; try lia.
    eapply at_perm; [|exact Ha3]. symmetry. by eapply root_refs_manual.
  - intros e -> He. destruct gs as [s|]; [done|]. exists None, rs, (root_refs rs), k, g, n.
    split_and!; [done|exact Ha1|exact Hr|done|]. intros [s3|] Ha3 Hs3; [done|]. right. by exists e.
Qed.

Lemma to_manually_rooted_live h i r gs id k g :
  heap_ok 0 gs (root_refs rs) k g n -> scoped_at id h i -> lifo_get h i (SO id gs rs []) = Some r ->
  r ∈ root_refs rs ++ k ->
  wp (to_manually_rooted oc dbg min_cap new_heap {| rooted_inner := h |}) (SO id gs rs []) (fun x st =>
    heap_made gs /\ made_manual id rs r k g n x st \/ refused id rs gs x st).
Proof using GcClient0 Hmin Hheap Hok Hn.
  intros Ha Hh Ho Hin. eapply clone_manual_ok; [exact Ha|exact Hin| |intros st Q HQ; exact HQ]. intros c gs1 Q Ha1 Hs HQ He.
  eapply wp_try_clone; [|exact Ha1|exact (roots_room [] ltac:(cbn; lia))|apply n_pos|exact Hin|exact HQ|exact He].
  rewrite <- Ho. exact (rooted_get_ok (SO id gs1 rs []) h i Hh).
Qed.

(** A manually rooted handle always has its reference, and there is a heap. *)
Definition clone_manual (h : GcRootIndex) : io (StoreOpaque T H) (root_error T) VMGcRef :=
  r ← clone_gc_ref (RootedGcRefImpl0:=ManuallyRooted_impl dbg) {| manual_inner := h |}; lift (unwrap r).

Lemma wp_clone_manual h i r c s id k g Q :
  manual_at id h i -> Slab.view (manually_rooted rs) !! i = Some r ->
  at_ c s (root_refs rs) k g n -> r ∈ root_refs rs ++ k ->
  (forall s', at_ c s' (r :: root_refs rs) k g n -> Q (Ok r) (SO id (Some s') rs [])) ->
  wp (clone_manual h) (SO id (Some s) rs []) Q.
Proof using GcClient0 Hok Hn.
  intros Hh Hv Ha Hin HQ. unfold clone_manual. wp_go.
  eapply wp_clone_gc_ref; [by eapply (manual_get_ok (SO id (Some s) rs []))|exact Ha|exact (roots_room [] ltac:(cbn; lia))|exact Hin|].
  intros s' Ha'. cbv beta iota. eapply run_lift; [done|]. by apply HQ.
Qed.

Lemma view_in_refs i r : Slab.view (manually_rooted rs) !! i = Some r -> r ∈ root_refs rs.
Proof using Type.
  intros Hv. apply list.elem_of_app. right. apply list_elem_of_fmap. exists (i, r).
  split; [done|by apply elem_of_map_to_list].
Qed.

Lemma manual_clone_ok h i r s id k g :
  at_ 0 s (root_refs rs) k g n -> manual_at id h i -> Slab.view (manually_rooted rs) !! i = Some r ->
  wp (manual_clone oc dbg min_cap {| manual_inner := h |}) (SO id (Some s) rs []) (made_manual id rs r k g n).
Proof using GcClient0 Hmin Hok Hn.
  intros Ha Hh Hv. assert (Hin : r ∈ root_refs rs ++ k) by (apply list.elem_of_app; left; by eapply view_in_refs).
  eapply run_mono; [|apply (clone_manual_ok (clone_manual h) _ r (Some s) id k g); [exact Ha|exact Hin| |]].
  - intros x st [[_ Hx]|(e & ? & _)]; done.
  - intros c [s1|] Q Ha1 Hs HQ _; [|done]. eapply wp_clone_manual; [done..|]. intros s' Ha'. by apply HQ.
  - intros st Q HQ. by apply wp_assoc.
Qed.

Lemma to_rooted_ok h i r s id k g :
  at_ 0 s (root_refs rs) k g n -> manual_at id h i -> Slab.view (manually_rooted rs) !! i = Some r ->
  wp (to_rooted dbg {| manual_inner := h |}) (SO id (Some s) rs []) (made_scoped id rs r k g n true).
Proof using GcClient0 Hok Hn.
  intros Ha Hh Hv. assert (Hin : r ∈ root_refs rs ++ k) by (apply list.elem_of_app; left; by eapply view_in_refs).
  unfold to_rooted. wp_go. eapply run_lift; [by eapply (manual_same_store (SO id (Some s) rs []))|]. wp_go.
  eapply run_lift; [done|]. cbv beta iota.
  eapply wp_no_gc; [exact Ha|exact (roots_room [] ltac:(cbn; lia))|lia|]. intros s1 Ha1.
  apply wp_assoc. apply run_bind. eapply wp_clone_manual; [done|done|exact Ha1|exact Hin|]. intros s2 Ha2.
  apply wp_rooted_new; [apply lifo_room|]. exists s2, (pushed rs r), (r :: root_refs rs), k, g, n.
  split_and!; [done|done|exact (roots_room [r] ltac:(cbn; lia))|]. intros s3 Ha3. split; [done|].
  exists (Some s3). split_and!; [done|done|]. eapply at_perm; [|exact Ha3]. symmetry. apply root_refs_pushed.
Qed.

(** Releasing a root by hand. *)
Definition released id (i : EntryIndex) k g (x : outcome (root_error T) ()) (st : StoreOpaque T H) : Prop :=
  x = Ok () /\ exists m s', st = SO id (Some s') (with_manual rs m) [] /\
    Slab.view m = delete i (Slab.view (manually_rooted rs)) /\ roots_ok (with_manual rs m) n /\
    at_ 0 s' (root_refs (with_manual rs m)) k g n.

Lemma dealloc_length {E} (m m' : Slab VMGcRef) i r :
  Slab.dealloc (E:=E) oc m i = Ok (r, m') -> length (entries m') = length (entries m).
Proof using Type.
  clear. unfold Slab.dealloc. intros Hx. apply bind_Ok_inv in Hx as (e & _ & Hx). destruct e; [|done].
  apply bind_Ok_inv in Hx as (? & _ & Hx). simplify_eq/=. by rewrite length_insert.
Qed.

Lemma unroot_ok h i r s id k g :
  at_ 0 s (root_refs rs) k g n -> manual_at id h i -> Slab.view (manually_rooted rs) !! i = Some r ->
  wp (unroot oc dbg {| manual_inner := h |}) (SO id (Some s) rs []) (released id i k g).
Proof using GcClient0 Hok Hn.
  intros Ha Hh Hv. destruct (manual_same_store (E:=root_error T) (SO id (Some s) rs []) h i Hh) as [Hs Hm].
  destruct (slab_dealloc_ok (E:=root_error T) oc (manually_rooted rs) i r (ro_slab _ _ Hok) Hv) as (m & Hd & Hsl & Hvm & _).
  assert (Hp : root_refs rs ≡ₚ r :: root_refs (with_manual rs m)).
  { unfold root_refs, manual_refs. cbn. rewrite Hvm, <- (map_to_list_delete _ _ _ Hv). cbn. solve_Permutation. }
  unfold unroot. wp_go. eapply run_lift; [exact Hs|]. wp_go. eapply run_lift; [done|]. cbv beta iota.
  eapply wp_no_gc; [exact Ha|exact (roots_room [] ltac:(cbn; lia))|lia|]. intros s1 Ha1. wp_go.
  eapply run_lift; [exact Hm|]. wp_go. eapply run_lift; [done|]. wp_go. eapply run_lift; [exact Hd|]. wp_go.
  eapply wp_heap_drop; [exact (at_perm _ _ _ _ _ _ _ Hp Ha1)|exact (room_perm _ _ _ Hp (roots_room [] ltac:(cbn; lia)))|].
  intros s2 Ha2. exists s2, (with_manual rs m), (root_refs (with_manual rs m)), k, g, n.
  split_and!; [done|done|eapply room_tail, room_perm; [exact Hp|exact (roots_room [] ltac:(cbn; lia))]|].
  intros s3 Ha3. split; [done|]. exists m, s3. split_and!; try done.
  apply dealloc_length in Hd. destruct Hok. split; cbn; [done|by rewrite Hd|done|done].
Qed.

(** What a handle, of either kind, stands for. *)
Definition resolves id (h : GcRootIndex) (o : option VMGcRef) : Prop :=
  forall gs, unchecked_get_gc_ref (E:=root_error T) dbg h (SO id gs rs []) = Ok o.

Lemma wp_try_index id h o gs Q : resolves id h o ->
  match o with Some r => Q (Ok r) (SO id gs rs []) | None => Q (Err Unrooted) (SO id gs rs []) end ->
  wp (try_gc_ref (RootedGcRefImpl0:=GcRootIndex_impl dbg) h) (SO id gs rs []) Q.
Proof using Type. intros Hres. apply wp_try_gc_ref. apply Hres. Qed.

Lemma externref_data_ok id h o s k g :
  at_ 0 s (root_refs rs) k g n -> resolves id h o ->
  (forall r, o = Some r -> r ∈ root_refs rs ++ k /\ is_i31 r = false) ->
  wp (externref_data dbg h) (SO id (Some s) rs []) (fun x st => st = SO id (Some s) rs [] /\
    match o with
    | Some r => exists v, g !! r = Some v /\ x = Ok v
    | None => x = Err Unrooted
    end).
Proof using GcClient0 Hok Hn.
  intros Ha Hres Hr. unfold externref_data. wp_go. eapply wp_try_index; [exact Hres|]. destruct o as [r|]; [|done].
  destruct (Hr r eq_refl) as [Hin Hi].
  destruct (gc_value _ _ _ _ _ _ _ _ _ r Ha (roots_room [] ltac:(cbn; lia)) Hin Hi) as (v & Hv & He).
  wp_go. eapply run_lift; [by rewrite Hi, debug_assert_true|]. wp_go. unfold gc_store. wp_go.
  eapply run_lift; [done|]. wp_go. eapply run_lift; [by rewrite He|]. split; [done|]. by exists v.
Qed.

Lemma externref_data_mut_ok id h o v s k g :
  at_ 0 s (root_refs rs) k g n -> resolves id h o ->
  (forall r, o = Some r -> r ∈ root_refs rs ++ k /\ is_i31 r = false) ->
  wp (externref_data_mut dbg new_heap h v) (SO id (Some s) rs []) (fun x st =>
    match o with
    | Some r => unchanged id k (<[r := v]> g) true (Ok ()) x st
    | None => unchanged id k g true (Err Unrooted) x st
    end).
Proof using GcClient0 Hok Hn.
  intros Ha Hres Hr. unfold externref_data_mut. wp_go. eapply wp_try_index; [exact Hres|]. destruct o as [r|].
  2:{ split; [done|]. by exists (Some s). }
  destruct (Hr r eq_refl) as [Hin Hi].
  destruct (gc_set _ _ _ _ _ _ _ _ _ r v Ha (roots_room [] ltac:(cbn; lia)) Hin Hi) as (s' & He & Ha').
  wp_go. eapply run_lift; [by rewrite Hi, debug_assert_true|]. wp_go.
  unfold on_heap. rewrite He. wp_go. eapply run_lift; [done|]. wp_go. split; [done|]. by exists (Some s').
Qed.

Lemma anyref_as_i31_ok id h o gs : resolves id h o ->
  wp (anyref_as_i31 dbg h) (SO id gs rs []) (fun x st => st = SO id gs rs [] /\
    x = match o with Some r => Ok (as_i31 r) | None => Err Unrooted end).
Proof using Type.
  intros Hres. unfold anyref_as_i31. wp_go. eapply wp_try_index; [exact Hres|]. by destruct o.
Qed.

Lemma ref_eq_ok id a b oa ob gs : resolves id a oa -> resolves id b ob ->
  wp (ref_eq (RootedGcRefImpl0:=GcRootIndex_impl dbg) (RootedGcRefImpl1:=GcRootIndex_impl dbg) a b)
    (SO id gs rs []) (fun x st => st = SO id gs rs [] /\
    x = match oa, ob with Some ra, Some rb => Ok (ra =? rb) | _, _ => Err Unrooted end).
Proof using Type.
  intros Ha Hb. unfold ref_eq. wp_go. eapply wp_try_index; [exact Ha|]. destruct oa as [ra|]; [|by destruct ob].
  wp_go. eapply wp_try_index; [exact Hb|]. by destruct ob.
Qed.

(** A reference handed to compiled code. *)
Definition exposed id gs r k g (x : outcome (root_error T) Z) (st : StoreOpaque T H) : Prop :=
  (heap_made gs /\ x = Ok r /\ exists s', st = SO id (Some s') rs [] /\ at_ 0 s' (root_refs rs) (r :: k) g (n + 1)) \/
  refused id rs gs x st.

Lemma expose_block_ok (get : io (StoreOpaque T H) (root_error T) (GcStore T H)) id h o gs k g :
  heap_ok 0 gs (root_refs rs) k g n -> resolves id h o -> (forall r, o = Some r -> r ∈ root_refs rs ++ k) ->
  (forall s Q, Q (Ok s) (SO id (Some s) rs []) -> wp get (SO id (Some s) rs []) Q) ->
  wp (AutoAssertNoGc (
        gc_ref ← try_clone_gc_ref (RootedGcRefImpl0:=GcRootIndex_impl dbg) new_heap h;
        s ← get; heap_expose s gc_ref;; mret gc_ref)) (SO id gs rs []) (fun x st =>
    match o with
    | Some r => exposed id gs r k g x st
    | None => unchanged id k g (has gs) (Err Unrooted) x st
    end).
Proof using GcClient0 Hheap Hok Hn.
  intros Ha Hres Hr Hget. pose proof (roots_room [] ltac:(cbn; lia)) as Hroom. pose proof n_pos.
  eapply wp_block; [exact Ha|exact Hroom|]. intros c gs1 Ha1 Hs Hc. apply run_bind. destruct o as [r|].
  - eapply wp_try_clone; [apply Hres|exact Ha1|exact Hroom|done|by apply Hr| |].
    + intros s1 Hmade Ha2. apply run_bind, Hget. apply run_bind.
      eapply wp_heap_expose; [exact Ha2|exact (roots_room [r] ltac:(cbn; lia))|]. intros s2 Ha3. wp_go.
      exists (Some s2), rs, (root_refs rs), (r :: k), g, (n + 1). split_and!; [done|exact Ha3| |done|].
      * pose proof (roots_room (replicate 8 0) ltac:(done)) as H8. unfold gc_room in *. rewrite length_app in H8. cbn [replicate length] in H8. lia.
      * intros [s3|] Ha4 Hs4; [|done]. left. unfold heap_made in *. rewrite Hs in Hmade. split_and!; [done|done|]. by exists s3.
    + intros e -> He. destruct gs as [s|]; [done|]. exists None, rs, (root_refs rs), k, g, n.
      split_and!; [done|exact Ha1|exact Hroom|done|]. intros [s3|] Ha3 Hs3; [done|]. right. by exists e.
  - unfold try_clone_gc_ref. wp_go. eapply wp_try_index; [exact Hres|].
    exists gs1, rs, (root_refs rs), k, g, n. split_and!; [done|done|done|by rewrite Hs|].
    intros gs3 Ha3 Hs3. split; [done|]. exists gs3. split_and!; [done|by rewrite Hs3|done].
Qed.

Lemma externref_to_raw_ok id h o gs k g :
  heap_ok 0 gs (root_refs rs) k g n -> resolves id h o -> (forall r, o = Some r -> r ∈ root_refs rs ++ k) ->
  wp (externref_to_raw dbg new_heap h) (SO id gs rs []) (fun x st =>
    match o with
    | Some r => exposed id gs r k g x st
    | None => unchanged id k g (has gs) (Err Unrooted) x st
    end).
Proof using GcClient0 Hheap Hok Hn.
  intros Ha Hres Hr. apply (expose_block_ok unwrap_gc_store_mut id h o gs k g Ha Hres Hr).
  intros s Q HQ. by apply wp_unwrap_gc_store.
Qed.

Lemma anyref_to_raw_ok id h o gs k g :
  heap_ok 0 gs (root_refs rs) k g n -> resolves id h o -> (forall r, o = Some r -> r ∈ root_refs rs ++ k) ->
  wp (anyref_to_raw dbg new_heap h) (SO id gs rs []) (fun x st =>
    match o with
    | Some r => exposed id gs r k g x st
    | None => unchanged id k g (has gs) (Err Unrooted) x st
    end).
Proof using GcClient0 Hheap Hok Hn.
  intros Ha Hres Hr. apply (expose_block_ok (gc_store_mut new_heap) id h o gs k g Ha Hres Hr).
  intros s Q HQ. by apply wp_gc_store_mut.
Qed.

Lemma raw_ref s c l k g r : at_ c s l k g n -> gc_room l n -> r ∈ k ->
  from_raw_u32 r = Some r /\ from_r64 r = Ok (Some r) /\ (r =? 0) = false.
Proof using GcClient0.
  intros Ha Hr Hin. assert (Hv : 0 < r < 2 ^ 32).
  { eapply (gc_valid _ _ _); [exact Ha|exact Hr|]. apply list.elem_of_app. by right. }
  assert (H0 : (r =? 0) = false) by (apply Z.eqb_neq; lia).
  assert (Hraw : from_raw_u32 r = Some r) by (unfold from_raw_u32; by rewrite H0).
  split_and!; [done| |done]. change r with (into_r64 r) at 1. rewrite from_r64_ok; [by rewrite Hraw|unfold in_u; lia].
Qed.

(** A reference of a frame becomes a root. *)
Definition rooted_from_raw (ty : ref_ty) : Z -> io (StoreOpaque T H) (root_error T) (option Rooted) :=
  match ty with Extern => externref_from_raw dbg | Any => anyref_from_raw dbg end.

Lemma from_raw_ok ty r s id k g :
  at_ 0 s (root_refs rs) k g n -> r ∈ k ->
  match ty with Extern => is_i31 r = false | Any => int_ref r end ->
  wp (rooted_from_raw ty r) (SO id (Some s) rs []) (fun x st =>
    exists x', x = (Some <$> x') /\ made_scoped id rs r k g n true x' st).
Proof using GcClient0 Hok Hn.
  intros Ha Hin Hty. pose proof (roots_room [] ltac:(cbn; lia)) as Hroom. pose proof (roots_room [r] ltac:(cbn; lia)) as Hroom1.
  destruct (raw_ref _ _ _ _ _ r Ha Hroom Hin) as (Hraw & _ & _).
  assert (Hin' : r ∈ root_refs rs ++ k) by (apply list.elem_of_app; by right).
  assert (Hpost : forall s3, at_ 0 s3 (r :: root_refs rs) k g n -> exists x', Ok (Some {| rooted_inner := lifo_handle id rs |}) = (Some <$> x') /\
    made_scoped id rs r k g n true x' (SO id (Some s3) (pushed rs r) [])).
  { intros s3 Ha3. eexists (Ok _). split; [done|]. split; [done|]. exists (Some s3). split_and!; [done|done|].
    eapply at_perm; [|exact Ha3]. symmetry. apply root_refs_pushed. }
  destruct ty; cbn [rooted_from_raw]; unfold externref_from_raw, anyref_from_raw; rewrite Hraw.
  - eapply wp_no_gc; [exact Ha|exact Hroom|lia|]. intros s1 Ha1. wp_go.
    eapply wp_heap_clone; [exact Ha1|exact Hroom|exact Hin'|]. intros s2 Ha2. wp_go.
    apply (wp_from_cloned Extern); [done|]. apply wp_rooted_new; [apply lifo_room|]. wp_go.
    exists s2, (pushed rs r), (r :: root_refs rs), k, g, n. split_and!; [done|done|exact Hroom1|]. exact Hpost.
  - destruct Hty as [i ->]. pose proof (gc_int _ _ _ _ _ _ _ _ _ i Ha Hroom) as Ha'.
    eapply wp_no_gc; [exact Ha'|exact Hroom1|lia|]. intros s1 Ha1. wp_go.
    apply (wp_from_cloned Any); [apply wrapping_i31|]. apply wp_rooted_new; [apply lifo_room|]. wp_go.
    exists s1, (pushed rs (wrapping_u32 i)), (wrapping_u32 i :: root_refs rs), k, g, n. split_and!; [done|done|exact Hroom1|]. exact Hpost.
Qed.
End Roots.

(** *** Operations made of others *)

Section Composed.
  Context (rs : RootSet) (n : Z) (Hok : roots_ok rs n) (Hn : n + 1 < 2 ^ 30).

Lemma into_rooted_ok h i r s id k g :
  at_ 0 s (root_refs rs) k g n -> manual_at id h i -> Slab.view (manually_rooted rs) !! i = Some r ->
  wp (into_rooted oc dbg {| manual_inner := h |}) (SO id (Some s) rs []) (fun x st =>
    x = Ok {| rooted_inner := lifo_handle id rs |} /\
    exists m s', st = SO id (Some s') (with_manual (pushed rs r) m) [] /\
      Slab.view m = delete i (Slab.view (manually_rooted rs)) /\ roots_ok (with_manual (pushed rs r) m) (n + 1) /\
      at_ 0 s' (root_refs (with_manual (pushed rs r) m)) k g (n + 1)).
Proof using GcClient0 Hok Hn.
  intros Ha Hh Hv. unfold into_rooted. apply run_bind. apply wp_get_store. cbv beta iota.
  destruct (manual_same_store (E:=root_error T) (SO id (Some s) rs []) h i Hh) as [Hs _].
  apply run_bind. eapply run_lift; [exact Hs|]. cbv beta iota. apply run_bind. eapply run_lift; [done|]. cbv beta iota.
  apply run_bind. eapply run_mono; [|eapply (to_rooted_ok rs n Hok ltac:(lia) h i r s id k g Ha Hh Hv)].
  intros x st [-> ([s1|] & -> & Hs1 & Ha1)]; [|done]. apply run_bind.
  pose proof (roots_ok_pushed rs n r Hok) as Hok1.
  eapply run_mono; [|apply (unroot_ok (pushed rs r) (n + 1) Hok1 Hn h i r s1 id k g)]; [| |exact Hh|exact Hv].
  - intros x st [-> (m & s2 & -> & Hm & Hok2 & Ha2)]. apply run_ret. split; [done|]. by exists m, s2.
  - eapply (gc_weaken _ _ _); [|exact Ha1]. lia.
Qed.

Lemma wp_expect {A} (m : io (StoreOpaque T H) (root_error T) A) st Q :
  wp m st (fun x st' => match x with Ok y => Q (Ok y) st' | _ => False end) -> wp (expect m) st Q.
Proof using Type. unfold wp, expect. by destruct (m st) as [st' [x|e|]]. Qed.

Lemma lifo_get_pushed id gs r :
  lifo_get (lifo_handle id rs) (length (lifo_roots rs)) (SO id gs (pushed rs r) []) = Some r.
Proof using Type.
  unfold lifo_get. cbn. rewrite lookup_app_r, Nat.sub_diag by lia. cbn. by rewrite Z.eqb_refl.
Qed.

Lemma manual_load_ok ty r s id k g :
  at_ 0 s (root_refs rs) k g n -> r ∈ k -> is_i31 r = match ty with Extern => false | Any => true end ->
  wp (AutoAssertNoGc (manual_load oc dbg min_cap new_heap ty r)) (SO id (Some s) rs []) (fun x st =>
    exists i m s', x = Ok {| manual_inner := manual_handle id i |} /\
      st = SO id (Some s') (bump (with_manual rs m)) [] /\
      Slab.view (manually_rooted rs) !! i = None /\ Slab.view m = <[i := r]> (Slab.view (manually_rooted rs)) /\
      roots_ok (with_manual rs m) (n + 2) /\ 1 <= i <= 2 ^ 31 /\ at_ 0 s' (root_refs (with_manual rs m)) k g n).
Proof using GcClient0 Hmin Hheap Hok Hn.
  intros Ha Hin Hty. pose proof (roots_room rs n Hok ltac:(lia)) as Hroom.
  destruct (raw_ref _ _ _ _ _ _ r Ha (Hroom [] ltac:(cbn; lia)) Hin) as (_ & Hr64 & H0).
  assert (Hin' : r ∈ root_refs rs ++ k) by (apply list.elem_of_app; by right).
  pose proof (roots_ok_pushed rs n r Hok) as Hok1. pose proof (root_refs_pushed rs r) as Hp1.
  eapply wp_no_gc; [exact Ha|exact (Hroom [] ltac:(cbn; lia))|lia|]. intros s1 Ha1.
  unfold manual_load. wp_go. eapply run_lift; [by rewrite H0, debug_assert_true|]. wp_go.
  unfold load_gc_ref. wp_go. eapply run_lift; [by rewrite Hr64|]. wp_go.
  eapply wp_heap_clone; [exact Ha1|exact (Hroom [] ltac:(cbn; lia))|exact Hin'|]. intros s2 Ha2. wp_go.
  eapply run_lift; [done|]. cbv beta iota. unfold root_manually, with_lifo_scope. wp_go.
  apply (wp_from_cloned ty); [exact Hty|]. apply wp_rooted_new; [destruct Hok; lia|]. cbv beta iota.
  apply wp_expect. eapply wp_no_gc; [eapply at_perm; [symmetry; exact Hp1|exact Ha2]|exact (room_perm _ _ _ (symmetry Hp1) (Hroom [r] ltac:(cbn; lia)))|lia|].
  intros s3 Ha3. apply run_bind.
  assert (Hs : scoped_at id (lifo_handle id rs) (length (lifo_roots rs))) by (split_and!; [done|done|destruct Hok; lia]).
  assert (Hcut : forall m, left_scope (with_manual (pushed rs r) m) (length (lifo_roots rs)) = bump (with_manual rs m)).
  { intros m. unfold left_scope. cbn [with_manual pushed lifo_roots]. rewrite length_app. cbn [length].
    rewrite (proj2 (Nat.ltb_lt _ _)) by lia. unfold cut, bump. cbn. by rewrite take_app_length. }
  eapply (wp_try_clone (RootedGcRefImpl0:=Rooted_impl dbg) _ _ (Some s3));
    [|exact Ha3|exact (room_perm _ _ _ (symmetry Hp1) (Hroom [r] ltac:(cbn; lia)))|destruct Hok; lia| | |done].
  { etrans; [exact (rooted_get_ok (SO id (Some s3) (pushed rs r) []) _ _ Hs)|]. by rewrite lifo_get_pushed. }
  { apply list.elem_of_app. left. rewrite Hp1. apply list_elem_of_here. }
  intros s4 _ Ha4. eapply wp_manual_new; [exact Hok1|lia|]. intros i m Hv Hm Hro Hi.
  pose proof (root_refs_manual (pushed rs r) m i r Hv Hm) as Hp2.
  assert (Hroom2 : gc_room ([] ++ root_refs (with_manual (pushed rs r) m)) n).
  { eapply room_perm; [|exact (Hroom [r; r] ltac:(cbn; lia))]. cbn [app]. rewrite Hp2. by rewrite Hp1. }
  exists s4, (with_manual (pushed rs r) m), (root_refs (with_manual (pushed rs r) m)), k, g, n.
  split_and!; [done|exact (at_perm _ _ _ _ _ _ _ (symmetry Hp2) Ha4)|exact Hroom2|]. intros s5 Ha5. wp_go.
  eapply (wp_exit_scope _ _ _ _ _ _ []); [|destruct Hok; unfold in_u; cbn; lia|exact Ha5|exact Hroom2|].
  { cbn. rewrite length_app. unfold enter_lifo_scope. lia. }
  unfold enter_lifo_scope. rewrite Hcut. cbn [app]. intros s6 Ha6. wp_go.
  exists s6, (bump (with_manual rs m)), (root_refs (with_manual rs m)), k, g, n.
  split_and!; [done|exact Ha6| |].
  { eapply room_perm; [|exact (Hroom [r] ltac:(cbn; lia))]. cbn [app]. symmetry. by eapply root_refs_manual. }
  intros s7 Ha7. exists i, m, s7. split_and!; try done; try lia. destruct Hro as [? He ? ?], Hok. split; cbn in *; [done|lia..].
Qed.

Lemma exit_scope_ok scope s id k g :
  (scope <= length (lifo_roots rs))%nat -> at_ 0 s (root_refs rs) k g n ->
  wp (exit_gc_lifo_scope oc dbg scope) (SO id (Some s) rs []) (fun x st =>
    x = Ok () /\ exists s', st = SO id (Some s') (left_scope rs scope) [] /\
      at_ 0 s' (root_refs (left_scope rs scope)) k g n).
Proof using GcClient0 Hok Hn.
  intros Hs Ha. eapply (wp_exit_scope _ _ _ _ _ _ []); [exact Hs|destruct Hok; unfold in_u; lia|exact Ha| |].
  - exact (roots_room rs n Hok ltac:(lia) [] ltac:(cbn; lia)).
  - intros s' Ha'. split; [done|]. by exists s'.
Qed.

(** Collections. *)
Lemma root_set_trace_ok : exists user, root_set_trace (E:=root_error T) rs = Ok (map NonStack user).
Proof using Hok Hn.
  destruct (iter_from_ok (E:=root_error T) (entries (manually_rooted rs)) 0) as (l & Hl & _).
  { destruct (ro_slab _ _ Hok) as [_ _ [Hc Hm]]. lia. }
  exists (lifo_refs rs ++ map snd l). unfold root_set_trace, Slab.iter.
  rewrite (proj2 (Z.leb_le _ _)) by (destruct (ro_slab _ _ Hok) as [_ _ [? ?]]; lia). cbn [assert_ mbind outcome_bind].
  rewrite Hl. cbn [mbind outcome_bind]. unfold lifo_refs. by rewrite map_app, !map_map.
Qed.

Lemma store_collect_ok s id k g :
  at_ 0 s (root_refs rs) k g n -> Z.of_nat (length k) <= n ->
  wp (store_collect (map (fun r => Stack (into_r64 r)) k) []) (SO id (Some s) rs []) (fun x st =>
    x = Ok (Some ()) /\ exists s', st = SO id (Some s') rs [] /\ at_ 0 s' (root_refs rs) k g n).
Proof using GcClient0 Hok Hn.
  intros Ha Hk. destruct root_set_trace_ok as [user Hu]. unfold store_collect. wp_go. unfold trace_roots. wp_go.
  eapply run_lift; [done|]. wp_go. eapply run_lift; [exact Hu|]. wp_go.
  set (roots := _ ++ _). assert (Hsh : shows roots k).
  { intros r64. unfold roots. rewrite !list.elem_of_app, list_elem_of_fmap. split.
    - intros [(r & [= ->] & Hr)|[Hin|(r & ? & _)%list_elem_of_fmap]]; [by exists r|by apply not_elem_of_nil in Hin|done].
    - intros (r & Hr & ->). left. by exists r. }
  destruct (gc_collect _ _ _ s (root_refs rs) k g n roots Ha (roots_room rs n Hok ltac:(lia) [] ltac:(cbn; lia)) Hsh)
    as (s' & He & Ha'). rewrite He. unfold on_heap. wp_go. eapply run_lift; [done|]. wp_go.
  split; [done|]. exists s'. split; [done|]. by rewrite Z.max_l in Ha' by lia.
Qed.

Lemma wp_finally {A} (m : io (StoreOpaque T H) (root_error T) A) fin st Q :
  wp m st (fun x st' => wp fin st' (fun y st'' => match y with Ok _ => Q x st'' | Err e => Q (Err e) st'' | Panic => False end)) ->
  wp (finally m fin) st Q.
Proof using Type.
  unfold wp, finally. destruct (m st) as [st' [x|e|]]; [| |done]; by destruct (fin st') as [st'' [y|e'|]].
Qed.

Lemma left_all r : left_scope (pushed rs r) (length (lifo_roots rs)) = bump rs.
Proof using Type.
  unfold left_scope. cbn [pushed lifo_roots]. rewrite length_app. cbn [length].
  rewrite (proj2 (Nat.ltb_lt _ _)) by lia. unfold cut, bump. cbn. by rewrite take_app_length.
Qed.
End Composed.

(** A collection asked for by compiled code, which may keep one reference across it. *)
Lemma collect_keeping_none_ok rs n (Hok : roots_ok rs n) (Hn : n + 1 < 2 ^ 30) s id k g :
  at_ 0 s (root_refs rs) k g n -> Z.of_nat (length k) <= n ->
  wp (collect_keeping oc dbg new_heap None (map (fun r => Stack (into_r64 r)) k) []) (SO id (Some s) rs []) (fun x st =>
    x = Ok (Some None) /\ exists s', st = SO id (Some s') rs [] /\ at_ 0 s' (root_refs rs) k g n).
Proof using GcClient0.
  intros Ha Hk. unfold collect_keeping. wp_go. apply wp_finally. wp_go.
  eapply run_mono; [|by apply (store_collect_ok rs n Hok Hn)]. intros x st [-> (s' & -> & Ha')]. wp_go.
  eapply run_mono; [|apply (exit_scope_ok rs n Hok Hn); [|exact Ha']; unfold enter_lifo_scope; lia].
  intros y st [-> (s2 & -> & Ha2)]. cbv iota. split; [done|]. exists s2.
  unfold left_scope, enter_lifo_scope in *. by rewrite Nat.ltb_irrefl in *.
Qed.

Lemma collect_keeping_some_ok rs n (Hok : roots_ok rs n) (Hn : n + 2 < 2 ^ 30) s r id k g :
  at_ 0 s (r :: root_refs rs) k g n -> Z.of_nat (length k) <= n ->
  wp (collect_keeping oc dbg new_heap (Some r) (map (fun r => Stack (into_r64 r)) k) []) (SO id (Some s) rs []) (fun x st =>
    x = Ok (Some (Some r)) /\ exists s', st = SO id (Some s') (bump rs) [] /\ at_ 0 s' (r :: root_refs (bump rs)) k g (n + 1)).
Proof using GcClient0.
  intros Ha Hk. pose proof (roots_ok_pushed rs n r Hok) as Hok1. pose proof (root_refs_pushed rs r) as Hp.
  assert (Hs : scoped_at id (lifo_handle id rs) (length (lifo_roots rs))) by (split_and!; [done|done|destruct Hok; lia]).
  assert (Hroom : gc_room ([r] ++ root_refs (pushed rs r)) (n + 1)) by (apply (roots_room _ _ Hok1); cbn; lia).
  unfold collect_keeping. wp_go. apply wp_finally. wp_go. unfold push_lifo_root. wp_go.
  eapply run_lift; [apply new_lifo_ok; destruct Hok; lia|]. wp_go.
  eapply run_mono; [|apply (store_collect_ok (pushed rs r) (n + 1) Hok1 ltac:(lia)); [|lia]].
  2:{ eapply (gc_weaken _ _ _); [|eapply at_perm; [symmetry; exact Hp|exact Ha]]. lia. }
  intros x st [-> (s1 & -> & Ha1)]. wp_go.
  eapply run_lift; [etrans; [exact (unchecked_lifo_ok (SO id (Some s1) (pushed rs r) []) (lifo_handle id rs) _ Hs)|by rewrite lifo_get_pushed]|].
  wp_go. eapply run_lift; [done|]. wp_go.
  eapply wp_heap_clone; [exact Ha1|eapply room_tail; exact Hroom| |].
  { apply list.elem_of_app. left. rewrite Hp. apply list_elem_of_here. }
  intros s2 Ha2. wp_go. eapply (wp_exit_scope _ _ _ _ _ _ [r]); [|destruct Hok; unfold in_u; cbn; lia|exact Ha2|exact Hroom|].
  { cbn. rewrite length_app. unfold enter_lifo_scope. lia. }
  unfold enter_lifo_scope. rewrite left_all. intros s3 Ha3. cbv iota. split; [done|]. by exists s3.
Qed.
End Ops.
