(* ===== verification/RootSpec.v ===== *)
(** * What handles promise

    The specification of the rooting interface.  Objects have names that are never used
    again, and so have handles; a handle stands for one object or integer for ever, and
    can be used as long as it is live: a scoped handle until its scope ends, a manual
    one until it is released.  [spec_root_op] says what every operation answers, and
    [run_root_op] is the same operation run by the code of [Rooting].  [rel_s] relates
    the root set to the live handles. *)

From Stdlib Require Import ZArith Lia.
From stdpp Require Import base list gmap numbers option sets sorting.
From S2P Require Import Prelude Slab GcRef Drc GcStore Rooting RootHeap RootOps.
Open Scope Z_scope.

(** ** The specification *)

Inductive target := TObj (o : nat) | TInt (i : I31).
#[export] Instance target_eq : EqDecision target.
Proof. solve_decision. Defined.

Inductive flavour := Scoped | Manual.
#[export] Instance flavour_eq : EqDecision flavour.
Proof. solve_decision. Defined.

Definition ty_of (t : target) : ref_ty := match t with TObj _ => Extern | TInt _ => Any end.

(** [a_values]: the values of all objects made so far, by name; [a_handles]: all handles
    made so far; [a_stack]: the live scoped ones, oldest first; [a_wasm]: what frames of
    compiled code hold, newest first; [a_heap]: whether the store has a heap. *)
Record aroots (T : Type) := {
  a_values : list T;
  a_handles : list (flavour * target);
  a_stack : list nat;
  a_manual : gset nat;
  a_scopes : list nat;
  a_wasm : list target;
  a_heap : bool
}.
Arguments a_values {T}.
Arguments a_handles {T}.
Arguments a_stack {T}.
Arguments a_manual {T}.
Arguments a_scopes {T}.
Arguments a_wasm {T}.
Arguments a_heap {T}.
Arguments Build_aroots {T}.

Inductive root_op (T : Type) :=
| RNew (v : T)
| RNewManual (v : T)
| RFromI31 (i : Z)
| REnter
| RExit
| RToManual (h : nat)
| RClone (h : nat)
| RUnroot (h : nat)
| RToRooted (h : nat)
| RIntoRooted (h : nat)
| RData (h : nat)
| RSetData (h : nat) (v : T)
| RAsI31 (h : nat)
| RRefEq (h h' : nat)
| RToRaw (h : nat)
| RFromRaw (ty : ref_ty) (w : nat)
| RLoadManual (ty : ref_ty) (w : nat)
| RLoadNull (f : flavour) (ty : ref_ty)
| RReturn (k : nat)
| RGc
| RLibcallGc.
Arguments RNew {T} v.
Arguments RNewManual {T} v.
Arguments RFromI31 {T} i.
Arguments REnter {T}.
Arguments RExit {T}.
Arguments RToManual {T} h.
Arguments RClone {T} h.
Arguments RUnroot {T} h.
Arguments RToRooted {T} h.
Arguments RIntoRooted {T} h.
Arguments RData {T} h.
Arguments RSetData {T} h v.
Arguments RAsI31 {T} h.
Arguments RRefEq {T} h h'.
Arguments RToRaw {T} h.
Arguments RFromRaw {T} ty w.
Arguments RLoadManual {T} ty w.
Arguments RLoadNull {T} f ty.
Arguments RReturn {T} k.
Arguments RGc {T}.
Arguments RLibcallGc {T}.

(** [RHandle]: the handle is the newest one; [RNull]: no handle, for a null reference. *)
Inductive root_result (T : Type) :=
| RDone
| RHandle
| RValue (v : T)
| RInt (i : option I31)
| RNull
| RBool (b : bool)
| RNoFuel.
Arguments RDone {T}.
Arguments RHandle {T}.
Arguments RValue {T} v.
Arguments RInt {T} i.
Arguments RNull {T}.
Arguments RBool {T} b.
Arguments RNoFuel {T}.

Section Spec.
  Context {T : Type} (heap_error : option (root_error T)).
  Implicit Types (a : aroots T).

Definition a_push (f : flavour) (t : target) a : aroots T :=
  let n := length (a_handles a) in
  {| a_values := a_values a; a_handles := a_handles a ++ [(f, t)];
     a_stack := match f with Scoped => a_stack a ++ [n] | Manual => a_stack a end;
     a_manual := match f with Scoped => a_manual a | Manual => {[n]} ∪ a_manual a end;
     a_scopes := a_scopes a; a_wasm := a_wasm a; a_heap := a_heap a |}.
Definition a_with_values (vs : list T) a : aroots T :=
  {| a_values := vs; a_handles := a_handles a; a_stack := a_stack a; a_manual := a_manual a;
     a_scopes := a_scopes a; a_wasm := a_wasm a; a_heap := a_heap a |}.
Definition a_with_scopes (stack scopes : list nat) a : aroots T :=
  {| a_values := a_values a; a_handles := a_handles a; a_stack := stack; a_manual := a_manual a;
     a_scopes := scopes; a_wasm := a_wasm a; a_heap := a_heap a |}.
Definition a_release (h : nat) a : aroots T :=
  {| a_values := a_values a; a_handles := a_handles a; a_stack := a_stack a; a_manual := a_manual a ∖ {[h]};
     a_scopes := a_scopes a; a_wasm := a_wasm a; a_heap := a_heap a |}.
Definition a_with_wasm (w : list target) a : aroots T :=
  {| a_values := a_values a; a_handles := a_handles a; a_stack := a_stack a; a_manual := a_manual a;
     a_scopes := a_scopes a; a_wasm := w; a_heap := a_heap a |}.
Definition a_with_heap a : aroots T :=
  {| a_values := a_values a; a_handles := a_handles a; a_stack := a_stack a; a_manual := a_manual a;
     a_scopes := a_scopes a; a_wasm := a_wasm a; a_heap := true |}.

Definition a_fresh : aroots T :=
  {| a_values := []; a_handles := []; a_stack := []; a_manual := ∅; a_scopes := []; a_wasm := []; a_heap := false |}.

Abbreviation answer := (aroots T * outcome (root_error T) (root_result T))%type.

(** The heap is made when it is first needed, which can fail. *)
Definition need_heap a (k : aroots T -> answer) : answer :=
  if a_heap a then k a
  else match heap_error with Some e => (a, Err e) | None => k (a_with_heap a) end.

(** A handle that is used: what it stands for, or that it was unrooted.  A manual handle
    that was released is gone, and cannot be named by a program. *)
Definition a_use a (h : nat) : option (option target) :=
  match a_handles a !! h with
  | Some (Scoped, t) => Some (if bool_decide (h ∈ a_stack a) then Some t else None)
  | Some (Manual, t) => if bool_decide (h ∈ a_manual a) then Some (Some t) else None
  | None => None
  end.
Definition a_flavour a (h : nat) : option flavour := fst <$> a_handles a !! h.
Definition a_ty a (h : nat) : option ref_ty := (fun x => ty_of (snd x)) <$> a_handles a !! h.

(** [room]: whether the heap had room for an object.  [None]: not a program. *)
Definition spec_root_op (room : bool) a (o : root_op T) : option answer :=
  match o with
  | RNew v => Some (need_heap a (fun a =>
      if room then (a_push Scoped (TObj (length (a_values a))) (a_with_values (a_values a ++ [v]) a), Ok RHandle)
      else (a, Err (GcHeapOutOfMemory v))))
  | RNewManual v => Some (need_heap a (fun a =>
      if room then (a_push Manual (TObj (length (a_values a))) (a_with_values (a_values a ++ [v]) a), Ok RHandle)
      else (a, Err (GcHeapOutOfMemory v))))
  | RFromI31 i => Some (a_push Scoped (TInt (wrapping_u32 i)) a, Ok RHandle)
  | REnter => Some (a_with_scopes (a_stack a) (length (a_stack a) :: a_scopes a) a, Ok RDone)
  | RExit =>
      match a_scopes a with
      | [] => None
      | scope :: scopes =>
          Some (a_with_scopes (take scope (a_stack a)) scopes a, Ok RDone)
      end
  | RToManual h =>
      match a_flavour a h, a_use a h with
      | Some Scoped, Some (Some t) => Some (need_heap a (fun a => (a_push Manual t a, Ok RHandle)))
      | Some Scoped, Some None => Some (a, Err Unrooted)
      | _, _ => None
      end
  | RClone h =>
      match a_flavour a h, a_use a h with
      | Some Manual, Some (Some t) => Some (a_push Manual t a, Ok RHandle)
      | _, _ => None
      end
  | RUnroot h =>
      match a_flavour a h, a_use a h with
      | Some Manual, Some (Some t) => Some (a_release h a, Ok RDone)
      | _, _ => None
      end
  | RToRooted h =>
      match a_flavour a h, a_use a h with
      | Some Manual, Some (Some t) => Some (a_push Scoped t a, Ok RHandle)
      | _, _ => None
      end
  | RIntoRooted h =>
      match a_flavour a h, a_use a h with
      | Some Manual, Some (Some t) => Some (a_release h (a_push Scoped t a), Ok RHandle)
      | _, _ => None
      end
  | RData h =>
      match a_ty a h, a_use a h with
      | Some Extern, Some (Some (TObj x)) => v ← a_values a !! x; Some (a, Ok (RValue v))
      | Some Extern, Some None => Some (a, Err Unrooted)
      | _, _ => None
      end
  | RSetData h v =>
      match a_ty a h, a_use a h with
      | Some Extern, Some (Some (TObj x)) => Some (a_with_values (<[x := v]> (a_values a)) a, Ok RDone)
      | Some Extern, Some None => Some (a, Err Unrooted)
      | _, _ => None
      end
  | RAsI31 h =>
      match a_ty a h, a_use a h with
      | Some Any, Some (Some (TInt i)) => Some (a, Ok (RInt (Some i)))
      | Some Any, Some None => Some (a, Err Unrooted)
      | _, _ => None
      end
  | RRefEq h h' =>
      if bool_decide (a_ty a h = a_ty a h') then
        match a_use a h, a_use a h' with
        | Some (Some t), Some (Some t') => Some (a, Ok (RBool (bool_decide (t = t'))))
        | Some _, Some _ => Some (a, Err Unrooted)
        | _, _ => None
        end
      else None
  | RToRaw h =>
      match a_use a h with
      | Some (Some t) => Some (need_heap a (fun a => (a_with_wasm (t :: a_wasm a) a, Ok RDone)))
      | Some None => Some (a, Err Unrooted)
      | None => None
      end
  | RFromRaw ty w =>
      match a_wasm a !! w with
      | Some t => if bool_decide (ty = ty_of t) then Some (a_push Scoped t a, Ok RHandle) else None
      | None => None
      end
  | RLoadManual ty w =>
      match a_wasm a !! w with
      | Some t => if bool_decide (ty = ty_of t) then Some (a_push Manual t a, Ok RHandle) else None
      | None => None
      end
  | RLoadNull _ _ => Some (a, Ok RNull)
  | RReturn k => Some (a_with_wasm (drop k (a_wasm a)) a, Ok RDone)
  | RGc => Some (a, Ok RDone)
  | RLibcallGc => Some (a, Ok RDone)
  end.

(** What the code does: the same, but a scope that ends while the store has no heap leaves
    its handles live. *)
Definition code_root_op (room : bool) a (o : root_op T) : option answer :=
  match o with
  | RExit =>
      match a_scopes a with
      | [] => None
      | scope :: scopes => Some (a_with_scopes (if a_heap a then take scope (a_stack a) else a_stack a) scopes a, Ok RDone)
      end
  | _ => spec_root_op room a o
  end.

(** The uses that are not served as documented: with debug assertions, a null is loaded as
    an optional manual handle; and a scope in which handles were made ends while the store
    has no heap. *)
Definition loads_ok (dbg : bool) (o : root_op T) : bool :=
  match o with RLoadNull Manual _ => negb dbg | _ => true end.
Definition served (dbg : bool) a (o : root_op T) : bool :=
  match o with
  | RExit => match a_scopes a with scope :: _ => a_heap a || (length (a_stack a) <=? scope)%nat | [] => true end
  | o => loads_ok dbg o
  end.

Lemma served_code dbg room a o : served dbg a o = true -> code_root_op room a o = spec_root_op room a o /\ loads_ok dbg o = true.
Proof.
  destruct o; try done. cbn. destruct (a_scopes a) as [|scope scopes]; [done|]. destruct (a_heap a); [done|]. cbn.
  intros Hle%Nat.leb_le. by rewrite take_ge.
Qed.
End Spec.

(** ** The code *)

Record root_handle := { h_ty : ref_ty; h_flavour : flavour; h_inner : GcRootIndex }.

(** An embedder: its store, the handles it was given, the scopes it is in, and the words
    in frames of compiled code. *)
Record embedder (T H : Type) := {
  e_store : StoreOpaque T H;
  e_handles : list root_handle;
  e_scopes : list nat;
  e_wasm : list Z
}.
Arguments e_store {T H}.
Arguments e_handles {T H}.
Arguments e_scopes {T H}.
Arguments e_wasm {T H}.
Arguments Build_embedder {T H}.

Section Run.
  Context {T H : Type} `{!GcHeap T H} (oc dbg : bool) (min_cap : Z) (new_heap : outcome (root_error T) H).
  Implicit Types (e : embedder T H).

Abbreviation rooting := (io (StoreOpaque T H) (root_error T)).
Abbreviation ran := (embedder T H * outcome (root_error T) (root_result T))%type.

Definition with_store (st : StoreOpaque T H) e : embedder T H :=
  {| e_store := st; e_handles := e_handles e; e_scopes := e_scopes e; e_wasm := e_wasm e |}.
Definition add_handle (ty : ref_ty) (f : flavour) (i : GcRootIndex) e : embedder T H :=
  {| e_store := e_store e; e_handles := e_handles e ++ [{| h_ty := ty; h_flavour := f; h_inner := i |}];
     e_scopes := e_scopes e; e_wasm := e_wasm e |}.
Definition with_scopes (l : list nat) e : embedder T H :=
  {| e_store := e_store e; e_handles := e_handles e; e_scopes := l; e_wasm := e_wasm e |}.
Definition with_wasm (l : list Z) e : embedder T H :=
  {| e_store := e_store e; e_handles := e_handles e; e_scopes := e_scopes e; e_wasm := l |}.

(** Runs [m] on the store, and goes on with its result. *)
Definition call {A} e (m : rooting A) (k : A -> embedder T H -> embedder T H * root_result T) : ran :=
  let '(st, x) := m (e_store e) in
  let e := with_store st e in
  match x with
  | Ok a => let '(e, r) := k a e in (e, Ok r)
  | Err er => (e, Err er)
  | Panic => (e, Panic)
  end.

Definition got_rooted ty (r : Rooted) e := (add_handle ty Scoped (rooted_inner r) e, RHandle (T:=T)).
Definition got_manual ty (m : ManuallyRooted) e := (add_handle ty Manual (manual_inner m) e, RHandle (T:=T)).
Definition gets (r : root_result T) e := (e, r).

Definition manual_of e (h : nat) : option (ref_ty * ManuallyRooted) :=
  x ← e_handles e !! h;
  match h_flavour x with Manual => Some (h_ty x, {| manual_inner := h_inner x |}) | Scoped => None end.

Definition run_root_op e (o : root_op T) : option ran :=
  match o with
  | RNew v => Some (call e (externref_new oc dbg min_cap new_heap v) (got_rooted Extern))
  | RNewManual v => Some (call e (externref_new_manually_rooted oc dbg min_cap new_heap v) (got_manual Extern))
  | RFromI31 i => Some (call e (anyref_from_i31 dbg (wrapping_u32 i)) (got_rooted Any))
  | REnter => Some (with_scopes (enter_lifo_scope (so_gc_roots (e_store e)) :: e_scopes e) e, Ok RDone)
  | RExit =>
      match e_scopes e with
      | [] => None
      | scope :: scopes =>
          Some (call (with_scopes scopes e) (exit_gc_lifo_scope oc dbg scope) (fun _ => gets RDone))
      end
  | RToManual h =>
      x ← e_handles e !! h;
      match h_flavour x with
      | Scoped => Some (call e (to_manually_rooted oc dbg min_cap new_heap {| rooted_inner := h_inner x |}) (got_manual (h_ty x)))
      | Manual => None
      end
  | RClone h => '(ty, m) ← manual_of e h; Some (call e (manual_clone oc dbg min_cap m) (got_manual ty))
  | RUnroot h => '(ty, m) ← manual_of e h; Some (call e (unroot oc dbg m) (fun _ => gets RDone))
  | RToRooted h => '(ty, m) ← manual_of e h; Some (call e (to_rooted dbg m) (got_rooted ty))
  | RIntoRooted h => '(ty, m) ← manual_of e h; Some (call e (into_rooted oc dbg m) (got_rooted ty))
  | RData h =>
      x ← e_handles e !! h;
      Some (call e (externref_data dbg (h_inner x)) (fun v => gets (RValue v)))
  | RSetData h v =>
      x ← e_handles e !! h;
      Some (call e (externref_data_mut dbg new_heap (h_inner x) v) (fun _ => gets RDone))
  | RAsI31 h =>
      x ← e_handles e !! h;
      Some (call e (anyref_as_i31 dbg (h_inner x)) (fun i => gets (RInt i)))
  | RRefEq h h' =>
      x ← e_handles e !! h; y ← e_handles e !! h';
      Some (call e (ref_eq (RootedGcRefImpl0:=GcRootIndex_impl dbg) (RootedGcRefImpl1:=GcRootIndex_impl dbg)
                      (h_inner x) (h_inner y)) (fun b => gets (RBool b)))
  | RToRaw h =>
      x ← e_handles e !! h;
      Some (call e (match h_ty x with
                    | Extern => externref_to_raw dbg new_heap (h_inner x)
                    | Any => anyref_to_raw dbg new_heap (h_inner x)
                    end) (fun raw e => (with_wasm (raw :: e_wasm e) e, RDone)))
  | RFromRaw ty w =>
      raw ← e_wasm e !! w;
      Some (call e (rooted_from_raw dbg ty raw) (fun r e =>
        match r with Some r => got_rooted ty r e | None => (e, RDone) end))
  | RLoadManual ty w =>
      raw ← e_wasm e !! w;
      Some (call e (AutoAssertNoGc (manual_load oc dbg min_cap new_heap ty raw)) (got_manual ty))
  | RLoadNull Scoped ty =>
      Some (call e (AutoAssertNoGc (rooted_load_option dbg ty 0)) (fun r e =>
        match r with Some r => got_rooted ty r e | None => (e, RNull) end))
  | RLoadNull Manual ty =>
      Some (call e (AutoAssertNoGc (manual_load_option oc dbg min_cap new_heap ty 0)) (fun r e =>
        match r with Some r => got_manual ty r e | None => (e, RNull) end))
  | RReturn k => Some (with_wasm (drop k (e_wasm e)) e, Ok RDone)
  | RGc =>
      Some (call e (store_collect (map (fun r => Stack (into_r64 r)) (e_wasm e)) [])
        (fun x => gets (match x with Some _ => RDone | None => RNoFuel end)))
  | RLibcallGc =>
      Some (call e (collect_keeping oc dbg new_heap None (map (fun r => Stack (into_r64 r)) (e_wasm e)) [])
        (fun x => gets (match x with Some _ => RDone | None => RNoFuel end)))
  end.

Definition e_fresh (id : Z) : embedder T H :=
  {| e_store := store_default id; e_handles := []; e_scopes := []; e_wasm := [] |}.
End Run.
