(* ===== verification/RootRel.v ===== *)
(** * The root set and the live handles

    [rel_s] relates a root set, with the handles that were made from it, to the live
    handles of the specification.  The generations are what makes it hold: a root whose
    generation is that of a handle, at the index of the handle, is the root the handle
    was made for. *)

From Stdlib Require Import ZArith Lia.
From stdpp Require Import base list gmap numbers option sets sorting.
From S2P Require Import Prelude Slab GcRef Drc GcStore Rooting RootHeap RootOps RootSpec.
Open Scope Z_scope.

Section Rel.
  Context {T : Type} (id : Z).
  Implicit Types (a : aroots T) (rs : RootSet) (hs : list root_handle).

(** Where objects are; only what is alive is at its place. *)
Definition ref_of (place : nat -> Z) (t : target) : Z := match t with TObj o => place o | TInt i => i end.

Definition target_ok a (t : target) : Prop :=
  match t with TObj o => (o < length (a_values a))%nat | TInt i => int_ref i end.

Definition handle_ok (h : root_handle) (ft : flavour * target) : Prop :=
  h_flavour h = fst ft /\ h_ty h = ty_of (snd ft) /\
  match fst ft with
  | Scoped => exists i, scoped_at id (h_inner h) i
  | Manual => exists i, manual_at id (h_inner h) i
  end.

Record rel_s (place : nat -> Z) rs hs a : Prop := {
  rs_handles : Forall2 handle_ok hs (a_handles a);
  rs_targets : Forall (fun ft => target_ok a (snd ft)) (a_handles a);
  rs_len : length (lifo_roots rs) = length (a_stack a);
  rs_stack i k root : a_stack a !! i = Some k -> lifo_roots rs !! i = Some root ->
    exists h t, hs !! k = Some h /\ a_handles a !! k = Some (Scoped, t) /\ scoped_at id (h_inner h) i /\
      ri_generation (h_inner h) = lr_generation root /\ lr_gc_ref root = ref_of place t;
  rs_gen k h i : hs !! k = Some h -> h_flavour h = Scoped -> scoped_at id (h_inner h) i ->
    ri_generation (h_inner h) <= lifo_generation rs /\
    (ri_generation (h_inner h) = lifo_generation rs -> a_stack a !! i = Some k) /\
    (forall root, lifo_roots rs !! i = Some root -> lr_generation root = ri_generation (h_inner h) -> a_stack a !! i = Some k);
  rs_manual k : k ∈ a_manual a -> exists h t i, hs !! k = Some h /\ a_handles a !! k = Some (Manual, t) /\
    manual_at id (h_inner h) i /\ Slab.view (manually_rooted rs) !! i = Some (ref_of place t);
  rs_inj k k' h h' : k ∈ a_manual a -> k' ∈ a_manual a -> hs !! k = Some h -> hs !! k' = Some h' ->
    ri_index (h_inner h) = ri_index (h_inner h') -> k = k';
  rs_scopes : StronglySorted ge (length (a_stack a) :: a_scopes a)
}.

Lemma scoped_at_inj h i j : scoped_at id h i -> scoped_at id h j -> i = j.
Proof. intros (_ & Hi & _) (_ & Hj & _). lia. Qed.

Lemma manual_at_inj h i j : manual_at id h i -> manual_at id h j -> i = j.
Proof. unfold manual_at, packed_manual. intros (_ & Hi & _) (_ & Hj & _). lia. Qed.

Lemma handles_len place rs hs a : rel_s place rs hs a -> length hs = length (a_handles a).
Proof. intros Hr. apply (Forall2_length _ _ _ (rs_handles _ _ _ _ Hr)). Qed.

Lemma lookup_old {A} (l : list A) x k y : l !! k = Some y -> (l ++ [x]) !! k = Some y.
Proof. intros Hk. rewrite lookup_app_l; [done|by eapply lookup_lt_Some]. Qed.

Lemma handle_cases hs (h x : root_handle) k : (hs ++ [h]) !! k = Some x ->
  hs !! k = Some x \/ k = length hs /\ x = h.
Proof.
  intros [Hk|[Hge Hk]]%lookup_app_Some; [by left|right]. apply list_lookup_singleton_Some in Hk as [Hz ->]. split; [lia|done].
Qed.

(** ** Making handles *)

Lemma sorted_head n m l : (n <= m)%nat -> StronglySorted ge (n :: l) -> StronglySorted ge (m :: l).
Proof.
  intros Hn [Hs Hf]%StronglySorted_inv. constructor; [done|].
  eapply list.Forall_impl; [exact Hf|]. cbn. lia.
Qed.

Lemma push_scoped place rs hs a t :
  rel_s place rs hs a -> target_ok a t -> Z.of_nat (length (lifo_roots rs)) < 2 ^ 31 ->
  rel_s place (pushed rs (ref_of place t))
    (hs ++ [{| h_ty := ty_of t; h_flavour := Scoped; h_inner := lifo_handle id rs |}]) (a_push Scoped t a).
Proof.
  intros Hr Ht Hlt. pose proof (handles_len _ _ _ _ Hr) as Hlen. pose proof (rs_len _ _ _ _ Hr) as Hst.
  assert (Hnew : scoped_at id (lifo_handle id rs) (length (lifo_roots rs))) by done.
  split; cbn [a_push a_handles a_stack a_manual a_scopes pushed lifo_roots lifo_generation manually_rooted].
  - apply Forall2_app; [apply Hr|]. constructor; [|done]. split_and!; [done|done|]. by exists (length (lifo_roots rs)).
  - apply list.Forall_app. split; [exact (rs_targets _ _ _ _ Hr)|]. by constructor.
  - rewrite !length_app. cbn. lia.
  - intros i k root [Hk|[Hge Hk]]%lookup_app_Some Hroot.
    + rewrite lookup_app_l in Hroot by (rewrite Hst; by eapply lookup_lt_Some).
      destruct (rs_stack _ _ _ _ Hr _ _ _ Hk Hroot) as (h & t' & Hh & Ht' & Hx).
      exists h, t'. split; [by apply lookup_old|]. split; [by apply lookup_old|done].
    + apply list_lookup_singleton_Some in Hk as [Hi <-]. assert (i = length (lifo_roots rs)) as -> by lia.
      rewrite lookup_app_r, Nat.sub_diag in Hroot by lia. injection Hroot as <-.
      eexists _, t. rewrite <- Hlen at 1. rewrite !list_lookup_middle by done. done.
  - intros k h i [Hk|[-> ->]]%handle_cases Hf Hs.
    + destruct (rs_gen _ _ _ _ Hr k h i Hk Hf Hs) as (Hg & Hcur & Hroot). split_and!; [done| |].
      * intros Hc%Hcur. by apply lookup_old.
      * intros root [Hl|[Hge Hl]]%lookup_app_Some Hgen; [by apply lookup_old, (Hroot root)|].
        apply list_lookup_singleton_Some in Hl as [Hi <-]. apply lookup_old, Hcur. by rewrite <- Hgen.
    + cbn [h_inner] in *. rewrite (scoped_at_inj _ _ _ Hs Hnew). cbn [lifo_handle ri_generation].
      assert (Hin : (a_stack a ++ [length (a_handles a)]) !! length (lifo_roots rs) = Some (length hs)).
      { rewrite Hst, list_lookup_middle by done. by rewrite Hlen. }
      split_and!; [lia|done|done].
  - intros k (h & t' & i & Hh & Ht' & Hx)%(rs_manual _ _ _ _ Hr). exists h, t', i.
    split; [by apply lookup_old|]. split; [by apply lookup_old|done].
  - intros k k' h h' Hk Hk' Hh Hh'.
    destruct (rs_manual _ _ _ _ Hr _ Hk) as (x & _ & _ & Hx & _), (rs_manual _ _ _ _ Hr _ Hk') as (x' & _ & _ & Hx' & _).
    apply (rs_inj _ _ _ _ Hr k k' h h' Hk Hk').
    + rewrite (lookup_old _ _ _ _ Hx) in Hh. congruence.
    + rewrite (lookup_old _ _ _ _ Hx') in Hh'. congruence.
  - eapply sorted_head; [|apply Hr]. rewrite length_app. lia.
Qed.

Lemma push_manual place rs hs a t i m :
  rel_s place rs hs a -> target_ok a t -> 1 <= i <= 2 ^ 31 -> Slab.view (manually_rooted rs) !! i = None ->
  Slab.view m = <[i := ref_of place t]> (Slab.view (manually_rooted rs)) ->
  rel_s place (with_manual rs m)
    (hs ++ [{| h_ty := ty_of t; h_flavour := Manual; h_inner := manual_handle id i |}]) (a_push Manual t a).
Proof.
  intros Hr Ht Hi Hnone Hm. pose proof (handles_len _ _ _ _ Hr) as Hlen.
  assert (Hnew : manual_at id (manual_handle id i) i) by done.
  split; cbn [a_push a_handles a_stack a_manual a_scopes with_manual lifo_roots lifo_generation manually_rooted].
  - apply Forall2_app; [apply Hr|]. constructor; [|done]. split_and!; [done|done|]. by exists i.
  - apply list.Forall_app. split; [exact (rs_targets _ _ _ _ Hr)|]. by constructor.
  - apply Hr.
  - intros j k root Hk Hroot. destruct (rs_stack _ _ _ _ Hr _ _ _ Hk Hroot) as (h & t' & Hh & Ht' & Hx).
    exists h, t'. split; [by apply lookup_old|]. split; [by apply lookup_old|done].
  - intros k h j [Hk|[-> ->]]%handle_cases Hf Hs; [|done]. exact (rs_gen _ _ _ _ Hr k h j Hk Hf Hs).
  - intros k [->%elem_of_singleton|Hk]%elem_of_union.
    + eexists _, t, i. rewrite <- Hlen at 1. rewrite !list_lookup_middle, Hm, lookup_insert_eq by done. done.
    + destruct (rs_manual _ _ _ _ Hr _ Hk) as (h & t' & j & Hh & Ht' & Hj & Hv). exists h, t', j.
      split_and!; [by apply lookup_old|by apply lookup_old|done|]. rewrite Hm, lookup_insert_ne; [done|]. intros <-. discriminate (eq_trans (eq_sym Hv) Hnone).
  - assert (Hother : forall k h, k ∈ a_manual a -> (hs ++ [{| h_ty := ty_of t; h_flavour := Manual; h_inner := manual_handle id i |}]) !! k = Some h ->
      hs !! k = Some h /\ ri_index (h_inner h) <> packed_manual i).
    { intros k h Hk Hh. destruct (rs_manual _ _ _ _ Hr _ Hk) as (x & t' & j & Hx & _ & (_ & Hj & _) & Hv).
      rewrite (lookup_old _ _ _ _ Hx) in Hh. injection Hh as <-. split; [done|]. rewrite Hj. unfold packed_manual.
      intros Heq. assert (j = i) as -> by lia. discriminate (eq_trans (eq_sym Hv) Hnone). }
    assert (Hself : forall h, (hs ++ [{| h_ty := ty_of t; h_flavour := Manual; h_inner := manual_handle id i |}]) !! length (a_handles a) = Some h ->
      ri_index (h_inner h) = packed_manual i).
    { intros h. rewrite <- Hlen, list_lookup_middle by done. by intros [= <-]. }
    intros k k' h h' [->%elem_of_singleton|Hk]%elem_of_union [->%elem_of_singleton|Hk']%elem_of_union Hh Hh' Heq.
    + done.
    + apply Hself in Hh. destruct (Hother _ _ Hk' Hh') as [_ Hne]. congruence.
    + apply Hself in Hh'. destruct (Hother _ _ Hk Hh) as [_ Hne]. congruence.
    + destruct (Hother _ _ Hk Hh) as [Hx _], (Hother _ _ Hk' Hh') as [Hx' _]. by apply (rs_inj _ _ _ _ Hr k k' h h').
  - apply Hr.
Qed.

(** ** Ending their lives *)

Lemma release_manual place rs hs a k h i m :
  rel_s place rs hs a -> k ∈ a_manual a -> hs !! k = Some h -> manual_at id (h_inner h) i ->
  Slab.view m = delete i (Slab.view (manually_rooted rs)) ->
  rel_s place (with_manual rs m) hs (a_release k a).
Proof.
  intros Hr Hk Hh Hi Hm.
  split; cbn [a_release a_handles a_stack a_manual a_scopes with_manual lifo_roots lifo_generation manually_rooted]; try apply Hr.
  - intros k' [Hk' Hne]%elem_of_difference. rewrite elem_of_singleton in Hne.
    destruct (rs_manual _ _ _ _ Hr _ Hk') as (h' & t' & j & Hh' & Ht' & Hj & Hv). exists h', t', j.
    split_and!; [done|done|done|]. rewrite Hm, lookup_delete_ne; [done|]. intros ->. apply Hne.
    apply (rs_inj _ _ _ _ Hr k' k h' h); [done|done|done|done|]. destruct Hi as (_ & -> & _), Hj as (_ & -> & _). done.
  - intros k1 k2 h1 h2 [Hk1 _]%elem_of_difference [Hk2 _]%elem_of_difference. by apply Hr.
Qed.

Lemma enter_scope place rs hs a :
  rel_s place rs hs a -> rel_s place rs hs (a_with_scopes (a_stack a) (length (a_stack a) :: a_scopes a) a).
Proof.
  intros Hr. split; cbn; try apply Hr. pose proof (rs_scopes _ _ _ _ Hr) as Hs. constructor; [done|].
  constructor; [lia|]. by apply StronglySorted_inv in Hs as [_ Hf].
Qed.

Lemma leave_scope place rs hs a scope scopes :
  rel_s place rs hs a -> a_scopes a = scope :: scopes ->
  (scope <= length (lifo_roots rs))%nat /\
  rel_s place (left_scope rs scope) hs (a_with_scopes (take scope (a_stack a)) scopes a).
Proof.
  intros Hr Hsc. pose proof (rs_scopes _ _ _ _ Hr) as Hs. rewrite Hsc in Hs. pose proof (rs_len _ _ _ _ Hr) as Hlen.
  apply StronglySorted_inv in Hs as [Hs Hf]. assert (Hle : (scope <= length (a_stack a))%nat) by (inversion Hf; lia).
  split; [lia|]. unfold left_scope. destruct (scope <? length (lifo_roots rs))%nat eqn:Hlt.
  - apply Nat.ltb_lt in Hlt.
    split; cbn [a_with_scopes a_handles a_stack a_manual a_scopes cut lifo_roots lifo_generation manually_rooted]; try apply Hr.
    + rewrite !length_take. lia.
    + intros i k root [Hk Hi]%lookup_take_Some [Hroot _]%lookup_take_Some. exact (rs_stack _ _ _ _ Hr i k root Hk Hroot).
    + intros k h i Hk Hf' Hi. destruct (rs_gen _ _ _ _ Hr k h i Hk Hf' Hi) as (Hg & _ & Hroot). split_and!; [lia|lia|].
      intros root [Hl Hlt']%lookup_take_Some Hgen. apply lookup_take_Some. split; [by apply (Hroot root)|done].
    + rewrite length_take, Nat.min_l by done. done.
  - apply Nat.ltb_ge in Hlt. assert (take scope (a_stack a) = a_stack a) as -> by (apply take_ge; lia).
    split; cbn; try apply Hr. eapply sorted_head; [|exact Hs]. lia.
Qed.

Lemma leave_nothing place rs hs a scope scopes :
  rel_s place rs hs a -> a_scopes a = scope :: scopes -> rel_s place rs hs (a_with_scopes (a_stack a) scopes a).
Proof.
  intros Hr Hsc. pose proof (rs_scopes _ _ _ _ Hr) as Hs. rewrite Hsc in Hs.
  split; cbn; try apply Hr. apply StronglySorted_inv in Hs as [Hs Hf]. eapply sorted_head; [|exact Hs]. inversion Hf. lia.
Qed.

Lemma bump_s place rs hs a : rel_s place rs hs a -> rel_s place (bump rs) hs a.
Proof.
  intros Hr. split; cbn; try apply Hr. intros k h i Hk Hf Hi.
  destruct (rs_gen _ _ _ _ Hr k h i Hk Hf Hi) as (Hg & _ & Hroot). split_and!; [lia|lia|done].
Qed.

Lemma rel_s_ext place place' rs hs a a' :
  rel_s place rs hs a -> a_handles a' = a_handles a -> a_stack a' = a_stack a -> a_manual a' = a_manual a ->
  a_scopes a' = a_scopes a -> (length (a_values a) <= length (a_values a'))%nat ->
  (forall o, (o < length (a_values a))%nat -> place' o = place o) -> rel_s place' rs hs a'.
Proof.
  intros Hr Hh Hst Hm Hsc Hv Hp.
  assert (Hsame : forall k f t, a_handles a !! k = Some (f, t) -> ref_of place' t = ref_of place t).
  { intros k f t Hk. pose proof (rs_targets _ _ _ _ Hr) as Ht. eapply list.Forall_lookup_1 in Ht; [|exact Hk].
    destruct t as [o|]; [|done]. by apply Hp. }
  split; rewrite ?Hh, ?Hst, ?Hm, ?Hsc; try apply Hr.
  - eapply list.Forall_impl; [exact (rs_targets _ _ _ _ Hr)|]. intros [f [o|i]]; cbn; [lia|done].
  - intros i k root Hk Hroot. destruct (rs_stack _ _ _ _ Hr _ _ _ Hk Hroot) as (h & t & Hx & Ht & Hs & Hg & Href).
    exists h, t. rewrite (Hsame k Scoped t) by done. done.
  - intros k (h & t & i & Hx & Ht & Hi & Hview)%(rs_manual _ _ _ _ Hr). exists h, t, i. rewrite (Hsame k Manual t) by done. done.
Qed.

(** ** Using handles *)

Lemma stack_root place rs hs a k : rel_s place rs hs a -> k ∈ a_stack a ->
  exists i root h t, a_stack a !! i = Some k /\ lifo_roots rs !! i = Some root /\ hs !! k = Some h /\
    a_handles a !! k = Some (Scoped, t) /\ scoped_at id (h_inner h) i /\
    ri_generation (h_inner h) = lr_generation root /\ lr_gc_ref root = ref_of place t.
Proof.
  intros Hr [i Hi]%list_elem_of_lookup.
  assert (is_Some (lifo_roots rs !! i)) as [root Hroot].
  { apply lookup_lt_is_Some. rewrite (rs_len _ _ _ _ Hr). by eapply lookup_lt_Some. }
  destruct (rs_stack _ _ _ _ Hr _ _ _ Hi Hroot) as (h & t & Hx). by exists i, root, h, t.
Qed.

Lemma use_scoped {H} place rs hs a k t (gs : option (GcStore T H)) :
  rel_s place rs hs a -> a_handles a !! k = Some (Scoped, t) ->
  exists h i, hs !! k = Some h /\ h_ty h = ty_of t /\ h_flavour h = Scoped /\ scoped_at id (h_inner h) i /\
    lifo_get (h_inner h) i {| so_id := id; so_gc_store := gs; so_gc_roots := rs; so_gc_roots_list := [] |} =
      (if bool_decide (k ∈ a_stack a) then Some (ref_of place t) else None).
Proof.
  intros Hr Hk. destruct (Forall2_lookup_r _ _ _ _ _ (rs_handles _ _ _ _ Hr) Hk) as (h & Hh & Hf & Hty & i & Hi).
  exists h, i. split_and!; [done|done|done|done|]. unfold lifo_get. cbn [so_gc_roots]. case_bool_decide as Hin.
  - destruct (stack_root _ _ _ _ _ Hr Hin) as (j & root & h' & t' & Hj & Hroot & Hh' & Ht' & Hs & Hg & Href).
    rewrite Hh in Hh'. injection Hh' as <-. rewrite Hk in Ht'. injection Ht' as <-.
    rewrite (scoped_at_inj _ _ _ Hi Hs), Hroot. cbn. by rewrite Hg, Z.eqb_refl, Href.
  - destruct (lifo_roots rs !! i) as [root|] eqn:Hroot; [|done]. cbn.
    destruct (Z.eqb_spec (lr_generation root) (ri_generation (h_inner h))) as [Hg|]; [|done].
    destruct (rs_gen _ _ _ _ Hr k h i Hh Hf Hi) as (_ & _ & Hno). exfalso. apply Hin.
    apply list_elem_of_lookup. exists i. by apply (Hno root).
Qed.

Lemma use_manual place rs hs a k t : rel_s place rs hs a -> a_handles a !! k = Some (Manual, t) -> k ∈ a_manual a ->
  exists h i, hs !! k = Some h /\ h_ty h = ty_of t /\ h_flavour h = Manual /\ manual_at id (h_inner h) i /\
    Slab.view (manually_rooted rs) !! i = Some (ref_of place t).
Proof.
  intros Hr Hk Hin. destruct (rs_manual _ _ _ _ Hr _ Hin) as (h & t' & i & Hh & Ht' & Hi & Hv).
  rewrite Hk in Ht'. injection Ht' as <-. destruct (Forall2_lookup_r _ _ _ _ _ (rs_handles _ _ _ _ Hr) Hk) as (h' & Hh' & Hf & Hty & _).
  rewrite Hh in Hh'. injection Hh' as <-. by exists h, i.
Qed.

Lemma use_resolves {H} dbg place rs hs a k o : rel_s place rs hs a -> a_use a k = Some o ->
  exists h, hs !! k = Some h /\ (ty_of <$> (snd <$> a_handles a !! k)) = Some (h_ty h) /\
    resolves (T:=T) (H:=H) dbg rs id (h_inner h) (ref_of place <$> o).
Proof.
  intros Hr Hu. unfold a_use in Hu. destruct (a_handles a !! k) as [[[] t]|] eqn:Hk; [| |done].
  - destruct (use_scoped (H:=H) _ _ _ _ _ _ None Hr Hk) as (h & i & Hh & Hty & _ & Hi & Hg). exists h.
    split_and!; [done|cbn; by rewrite Hty|]. intros gs. rewrite (unchecked_lifo_ok dbg _ _ i) by done.
    f_equal. etrans; [exact Hg|]. injection Hu as <-. by case_bool_decide.
  - case_bool_decide as Hin; [|done]. injection Hu as <-.
    destruct (use_manual _ _ _ _ _ _ Hr Hk Hin) as (h & i & Hh & Hty & _ & Hi & Hv). exists h.
    split_and!; [done|cbn; by rewrite Hty|]. intros gs. by eapply unchecked_manual_ok.
Qed.

(** ** What is alive *)

Definition alive a (o : nat) : Prop :=
  (exists k f, (k ∈ a_stack a \/ k ∈ a_manual a) /\ a_handles a !! k = Some (f, TObj o)) \/ TObj o ∈ a_wasm a.

Lemma alive_push place rs hs a f t o : rel_s place rs hs a -> alive (a_push f t a) o -> alive a o \/ t = TObj o.
Proof.
  intros Hr [(k & f' & Hk & Ht)|Hw]; [|by left; right]. cbn [a_push a_handles] in Ht.
  apply lookup_app_Some in Ht as [Ht|[Hge Ht]].
  - left; left. exists k, f'. split; [|done]. apply lookup_lt_Some in Ht.
    assert (k <> length (a_handles a)) as Hne by lia.
    destruct f; cbn [a_push a_stack a_manual] in Hk;
      [rewrite list.elem_of_app, list_elem_of_singleton in Hk|rewrite elem_of_union, elem_of_singleton in Hk]; tauto.
  - right. apply list_lookup_singleton_Some in Ht as [_ [= _ ->]]. done.
Qed.

Lemma alive_in place rs hs a o : rel_s place rs hs a -> alive a o ->
  place o ∈ root_refs rs ++ map (ref_of place) (a_wasm a).
Proof.
  intros Hr [(k & f & [Hk|Hk] & Ht)|Hw]; apply list.elem_of_app.
  - left. destruct (stack_root _ _ _ _ _ Hr Hk) as (i & root & h & t & _ & Hroot & _ & Ht' & _ & _ & Href).
    assert (t = TObj o) as -> by congruence. apply list.elem_of_app. left. apply list_elem_of_fmap. exists root.
    split; [by rewrite Href|by eapply list_elem_of_lookup_2].
  - left. destruct (rs_manual _ _ _ _ Hr _ Hk) as (h & t & i & _ & Ht' & _ & Hv).
    assert (t = TObj o) as -> by congruence. by eapply view_in_refs.
  - right. apply list_elem_of_fmap. by exists (TObj o).
Qed.

Lemma used_alive a k o : a_use a k = Some (Some (TObj o)) -> alive a o.
Proof.
  unfold a_use. intros Hu. left. destruct (a_handles a !! k) as [[[] t]|] eqn:Hk; [| |done]; case_bool_decide; simplify_eq.
  - exists k, Scoped. split; [by left|done].
  - exists k, Manual. split; [by right|done].
Qed.
End Rel.
