(* ===== verification/RootStep.v ===== *)
(** * Every operation does what handles promise

    The simulation between the code of the rooting interface and its specification, for
    any heap that satisfies [RootHeap.GcClient]: an operation that a program can name
    gives the answer of [RootSpec.code_root_op], and leads to related states. *)

From Stdlib Require Import ZArith Lia Bool.
From stdpp Require Import base list gmap numbers option sets sorting.
From S2P Require Import Prelude Slab GcRef Drc GcStore Rooting RootHeap RootOps RootSpec RootRel.
Open Scope Z_scope.

Definition heap_failure {T H} (new_heap : outcome (root_error T) H) : option (root_error T) :=
  match new_heap with Err e => Some e | _ => None end.

(** ** The relation, without the heap *)

Section Pre.
  Context {T : Type}.
  Implicit Types (a : aroots T) (g : gmap Z T) (n : Z) (place : nat -> Z).

(** The values of the objects that are alive, each at its own place. *)
Record objs_ok place a g : Prop := {
  oo_value o : alive a o -> exists v, a_values a !! o = Some v /\ g !! place o = Some v /\ is_i31 (place o) = false;
  oo_place o o' : alive a o -> alive a o' -> place o = place o' -> o = o'
}.

Record rel_pre place (id : Z) rs hs scopes wasm a n g : Prop := {
  rp_s : rel_s id place rs hs a;
  rp_scopes : scopes = a_scopes a;
  rp_wasm : wasm = map (ref_of place) (a_wasm a);
  rp_targets : Forall (target_ok a) (a_wasm a);
  rp_length : Z.of_nat (length (a_wasm a)) <= n;
  rp_roots : roots_ok rs n;
  rp_objs : objs_ok place a g
}.

Lemma objs_less place a a' g :
  objs_ok place a g -> (forall o, alive a' o -> alive a o) -> a_values a' = a_values a -> objs_ok place a' g.
Proof.
  intros [Hv Hp] Ha Hvals. split.
  - intros o Ho. rewrite Hvals. by apply Hv, Ha.
  - intros o o' Ho Ho'. apply Hp; by apply Ha.
Qed.

(** A new handle to something that is alive already, or to an integer. *)
Lemma objs_push place id rs hs a f t g :
  rel_s id place rs hs a -> objs_ok place a g -> (forall o, t = TObj o -> alive a o) -> objs_ok place (a_push f t a) g.
Proof.
  intros Hs Ho Ht. eapply objs_less; [exact Ho| |done]. intros o [Ha|Ha]%(alive_push _ _ _ _ _ _ _ _ Hs); [done|by apply Ht].
Qed.

(** ** How the parts of the relation change *)

Section Parts.
  Context (place : nat -> Z) (id : Z) (rs : RootSet) (hs : list root_handle) (scopes : list nat) (wasm : list Z).
  Context (a : aroots T) (n : Z) (g : gmap Z T) (Hp : rel_pre place id rs hs scopes wasm a n g).

Lemma pre_weaken n' : n <= n' -> rel_pre place id rs hs scopes wasm a n' g.
Proof using Hp. intros Hle. destruct Hp. split; try done; [lia|by eapply roots_ok_weaken]. Qed.

Lemma pre_heap : rel_pre place id rs hs scopes wasm (a_with_heap a) n g.
Proof using Hp.
  destruct Hp as [Hs ? ? ? ? ? Ho]. split; try done; [by eapply rel_s_ext|]. by eapply objs_less.
Qed.

Lemma pre_scoped t g' : n < 2 ^ 30 -> target_ok a t -> objs_ok place (a_push Scoped t a) g' ->
  rel_pre place id (pushed rs (ref_of place t))
    (hs ++ [{| h_ty := ty_of t; h_flavour := Scoped; h_inner := lifo_handle id rs |}]) scopes wasm (a_push Scoped t a) (n + 1) g'.
Proof using Hp.
  intros Hn Ht Ho. destruct Hp as [Hs ? ? ? ? Hr _]. split; try done; [|cbn; lia|by apply roots_ok_pushed].
  apply push_scoped; [done|done|]. destruct Hr. lia.
Qed.

Lemma pre_manual t m i g' : target_ok a t -> objs_ok place (a_push Manual t a) g' ->
  1 <= i <= 2 ^ 31 -> Slab.view (manually_rooted rs) !! i = None ->
  Slab.view m = <[i := ref_of place t]> (Slab.view (manually_rooted rs)) -> roots_ok (with_manual rs m) (n + 1) ->
  rel_pre place id (with_manual rs m)
    (hs ++ [{| h_ty := ty_of t; h_flavour := Manual; h_inner := manual_handle id i |}]) scopes wasm (a_push Manual t a) (n + 1) g'.
Proof using Hp.
  intros Ht Ho Hi Hnone Hm Hr. destruct Hp as [Hs ? ? ? ? _ _]. split; try done; [|cbn; lia]. by apply push_manual.
Qed.

Lemma pre_release k h i m : k ∈ a_manual a -> hs !! k = Some h -> manual_at id (h_inner h) i ->
  Slab.view m = delete i (Slab.view (manually_rooted rs)) -> roots_ok (with_manual rs m) n ->
  rel_pre place id (with_manual rs m) hs scopes wasm (a_release k a) n g.
Proof using Hp.
  intros Hk Hh Hi Hm Hr. destruct Hp as [Hs ? ? ? ? _ Ho]. split; try done; [by eapply release_manual|].
  eapply objs_less; [exact Ho| |done]. intros o [(k' & f & Hk' & Ht)|Hw]; [left|by right]. exists k', f. split; [|done].
  destruct Hk' as [Hk'|Hk']; [by left|right]. cbn in Hk'. set_solver.
Qed.

Lemma pre_enter :
  rel_pre place id rs hs (length (lifo_roots rs) :: scopes) wasm
    (a_with_scopes (a_stack a) (length (a_stack a) :: a_scopes a) a) n g.
Proof using Hp.
  destruct Hp as [Hs Hsc ? ? ? ? Ho]. split; try done; [by apply enter_scope| |by eapply objs_less].
  cbn. by rewrite (rs_len _ _ _ _ _ Hs), Hsc.
Qed.

Lemma pre_leave scope scopes' : a_scopes a = scope :: scopes' ->
  (scope <= length (lifo_roots rs))%nat /\
  rel_pre place id (left_scope rs scope) hs scopes' wasm (a_with_scopes (take scope (a_stack a)) scopes' a) (n + 1) g.
Proof using Hp.
  intros Hsc. destruct Hp as [Hs ? ? ? ? Hr Ho]. destruct (leave_scope _ _ _ _ _ _ _ Hs Hsc) as [Hle Hs']. split; [done|].
  split; try done; [cbn; lia|by apply roots_ok_left|]. eapply objs_less; [exact Ho| |done].
  intros o [(k & f & Hk & Ht)|Hw]; [left|by right]. exists k, f. split; [|done].
  destruct Hk as [Hk|Hk]; [left|by right]. cbn in Hk. by apply (subseteq_take scope (a_stack a)).
Qed.

Lemma pre_stay scope scopes' : a_scopes a = scope :: scopes' ->
  rel_pre place id rs hs scopes' wasm (a_with_scopes (a_stack a) scopes' a) n g.
Proof using Hp.
  intros Hsc. destruct Hp as [Hs ? ? ? ? Hr Ho]. split; try done; [by eapply leave_nothing|by eapply objs_less].
Qed.

Lemma pre_bump : rel_pre place id (bump rs) hs scopes wasm a (n + 1) g.
Proof using Hp.
  destruct Hp as [Hs ? ? ? ? [? ? ? ?] Ho]. split; try done; [by apply bump_s|lia|]. split; cbn; [done|lia..].
Qed.

Lemma pre_expose t : target_ok a t -> (forall o, t = TObj o -> alive a o) ->
  rel_pre place id rs hs scopes (ref_of place t :: wasm) (a_with_wasm (t :: a_wasm a) a) (n + 1) g.
Proof using Hp.
  intros Ht Ha. destruct Hp as [Hs ? Hw Hf ? Hr Ho]. split; try done.
  - by eapply rel_s_ext.
  - cbn. by rewrite Hw.
  - constructor; [done|exact Hf].
  - cbn. lia.
  - by eapply roots_ok_weaken; [|exact Hr]; lia.
  - eapply objs_less; [exact Ho| |done]. intros o [Hk|Hin]; [by left|].
    cbn in Hin. apply list.elem_of_cons in Hin as [<-|Hin]; [by apply Ha|by right].
Qed.

Lemma pre_return k : rel_pre place id rs hs scopes (drop k wasm) (a_with_wasm (drop k (a_wasm a)) a) n g.
Proof using Hp.
  destruct Hp as [Hs ? Hw Hf ? Hr Ho]. split; try done.
  - by eapply rel_s_ext.
  - cbn. by rewrite Hw, skipn_map.
  - cbn. by apply Forall_drop.
  - cbn. rewrite length_drop. lia.
  - eapply objs_less; [exact Ho| |done]. intros o [Hk|Hin]; [by left|right].
    cbn in Hin. by apply (subseteq_drop k (a_wasm a)).
Qed.

Lemma pre_set o r v : alive a o -> place o = r ->
  rel_pre place id rs hs scopes wasm (a_with_values (<[o := v]> (a_values a)) a) n (<[r := v]> g).
Proof using Hp.
  intros Hal <-. destruct Hp as [Hs ? Hw Hf ? Hr [Hov Hop]]. split; try done.
  - eapply rel_s_ext; try done. cbn. rewrite length_insert. lia.
  - eapply list.Forall_impl; [exact Hf|]. intros [x|]; cbn; [by rewrite length_insert|done].
  - split; [|exact Hop]. intros o' Ho'. destruct (Hov o' Ho') as (w & Hw' & Hg & Hi). cbn.
    destruct (decide (o' = o)) as [->|Hne].
    + exists v. rewrite list_lookup_insert_eq by (by eapply lookup_lt_Some). by rewrite lookup_insert_eq.
    + exists w. rewrite list_lookup_insert_ne by done. rewrite lookup_insert_ne; [done|].
      intros Heq. by apply Hne, (Hop o' o).
Qed.

(** A new object, at a place that nothing alive has. *)
Definition place_new (r : Z) : nat -> Z := fun o => if decide (o = length (a_values a)) then r else place o.

Lemma pre_new v r f : r ∉ root_refs rs ++ wasm -> is_i31 r = false ->
  let a1 := a_with_values (a_values a ++ [v]) a in
  let t := TObj (length (a_values a)) in
  rel_pre (place_new r) id rs hs scopes wasm a1 n (<[r := v]> g) /\
  target_ok a1 t /\ ref_of (place_new r) t = r /\ objs_ok (place_new r) (a_push f t a1) (<[r := v]> g).
Proof using Hp.
  intros Hnew Hi a1 t. destruct Hp as [Hs Hsc Hw Hf Hlen Hr [Hov Hop]].
  assert (Hold : forall o, (o < length (a_values a))%nat -> place_new r o = place o).
  { intros o Ho. unfold place_new. rewrite decide_False by lia. done. }
  assert (Hs1 : rel_s id (place_new r) rs hs a1).
  { eapply rel_s_ext; try done. cbn. rewrite length_app. lia. }
  assert (Hself : place_new r (length (a_values a)) = r) by (unfold place_new; by rewrite decide_True).
  assert (Halive : forall o, alive a o -> (o < length (a_values a))%nat /\ place o <> r).
  { intros o Ho. split; [destruct (Hov o Ho) as (w & Hl & _); by eapply lookup_lt_Some|].
    intros <-. apply Hnew. rewrite Hw. by eapply alive_in. }
  assert (Hobjs : forall a', a_values a' = a_values a ++ [v] -> (forall o, alive a' o -> alive a o \/ o = length (a_values a)) ->
    objs_ok (place_new r) a' (<[r := v]> g)).
  { intros a' Hvals Hcases. split; rewrite ?Hvals.
    - intros o [Ho|Ho]%Hcases.
      + destruct (Halive o Ho) as [Hlt Hne], (Hov o Ho) as (w & Hl & Hg & Hi31). exists w.
        rewrite Hold by done. rewrite lookup_app_l by done. rewrite lookup_insert_ne by done. done.
      + exists v. subst o. rewrite Hself, list_lookup_middle by done. by rewrite lookup_insert_eq.
    - intros o o' [Ho|Ho]%Hcases [Ho'|Ho']%Hcases; subst; rewrite ?Hself.
      + rewrite !Hold by (by apply Halive). by apply Hop.
      + rewrite Hold by (by apply Halive). intros Heq. by destruct (Halive o Ho).
      + rewrite Hold by (by apply Halive). intros Heq. by destruct (Halive o' Ho').
      + done. }
  split_and!; [|cbn; rewrite length_app; cbn; lia|done|].
  - split; try done.
    + rewrite Hw. apply map_ext_in. intros [o|] Hin%list_elem_of_In; [|done]. cbn. symmetry. apply Hold.
      eapply list.Forall_forall in Hf; [|exact Hin]. exact Hf.
    + eapply list.Forall_impl; [exact Hf|]. intros [o|]; cbn; [rewrite length_app; lia|done].
    + apply Hobjs; [done|]. intros o Ho. by left.
  - apply Hobjs; [done|]. intros o [Ho|[= <-]]%(alive_push _ _ _ _ _ _ _ _ Hs1); [by left|by right].
Qed.
End Parts.
End Pre.

Section Step.
  Context {T H : Type} `{!GcHeap T H} (oc dbg : bool) (min_cap : Z) (new_heap : outcome (root_error T) H).
  Context (at_ : Z -> GcStore T H -> list Z -> list Z -> gmap Z T -> Z -> Prop).
  Context `{!GcClient oc min_cap new_heap at_} (Hmin : min_cap <= 2 ^ 31) (Hheap : new_heap <> Panic).
  Implicit Types (e : embedder T H) (a : aroots T) (g : gmap Z T) (n : Z) (place : nat -> Z).

Abbreviation SO id gs rs lst := {| so_id := id; so_gc_store := gs; so_gc_roots := rs; so_gc_roots_list := lst |}.

Record rel_with place (id : Z) gs rs hs scopes wasm a n g : Prop := {
  rw_pre : rel_pre place id rs hs scopes wasm a n g;
  rw_heap : heap_ok at_ 0 gs (root_refs rs) wasm g n;
  rw_has : has gs = a_heap a;
  rw_none : a_heap a = false -> a_values a = [] /\ a_manual a = ∅ /\ a_wasm a = []
}.

Definition rel e a n : Prop :=
  exists place id gs rs hs scopes wasm g,
    e = {| e_store := SO id gs rs []; e_handles := hs; e_scopes := scopes; e_wasm := wasm |} /\
    rel_with place id gs rs hs scopes wasm a n g.

(** What a step has to show. *)
Definition simulates e a (o : root_op T) n : Prop :=
  exists room e' a' x, run_root_op oc dbg min_cap new_heap e o = Some (e', x) /\
    code_root_op (heap_failure new_heap) room a o = Some (a', x) /\ x <> Panic /\ rel e' a' (n + 2).

Lemma heap_weaken c gs l k g n n' : n <= n' -> heap_ok at_ c gs l k g n -> heap_ok at_ c gs l k g n'.
Proof using GcClient0. destruct gs; cbn; [|done]. apply (gc_weaken _ _ _). Qed.

Lemma call_run {A} e (m : io (StoreOpaque T H) (root_error T) A) k st x :
  m (e_store e) = (st, x) ->
  call e m k = match x with
               | Ok y => let '(e', r) := k y (with_store st e) in (e', Ok r)
               | Err er => (with_store st e, Err er)
               | Panic => (with_store st e, Panic)
               end.
Proof using Type. intros Hm. unfold call. by rewrite Hm. Qed.


Lemma made_failure gs : heap_made new_heap gs -> has gs = false -> heap_failure new_heap = None.
Proof using Type. intros Hm [h Hh]%Hm. unfold heap_failure. by rewrite Hh. Qed.

(** What [need_heap] does once there is a heap. *)
Lemma need_heap_made gs a k : has gs = a_heap a -> heap_made new_heap gs ->
  need_heap (heap_failure new_heap) a k = k (if a_heap a then a else a_with_heap a).
Proof using Type.
  intros Hs Hm. unfold need_heap. destruct (a_heap a) eqn:Ha; [done|]. by rewrite (made_failure gs Hm) by congruence.
Qed.

Lemma need_heap_refused {A} id rs gs a k (x : outcome (root_error T) A) st : has gs = a_heap a ->
  refused new_heap id rs gs x st ->
  exists er, need_heap (heap_failure new_heap) a k = (a, Err er) /\ x = Err er /\ st = SO id None rs [] /\ gs = None.
Proof using Type.
  intros Hs (er & -> & Her & -> & ->). exists er. unfold need_heap, heap_failure. rewrite <- Hs, Her. done.
Qed.

Lemma as_i31_wrapping v : as_i31 (wrapping_u32 v) = Some (wrapping_u32 v).
Proof using Type.
  unfold as_i31. rewrite wrapping_i31. f_equal. rewrite shiftr_1, (wrapping_eq v) at 1. rewrite half_odd.
  by rewrite !wrapping_eq, Z.mod_mod by lia.
Qed.

Section Ops.
  Context (place : nat -> Z) (id : Z) (gs : option (GcStore T H)) (rs : RootSet) (hs : list root_handle).
  Context (scopes : list nat) (wasm : list Z) (a : aroots T) (n : Z) (g : gmap Z T).
  Context (Hrel : rel_with place id gs rs hs scopes wasm a n g) (Hn : n + 2 < 2 ^ 30).

Abbreviation E := {| e_store := SO id gs rs []; e_handles := hs; e_scopes := scopes; e_wasm := wasm |}.

(** The specification state in which there is a heap. *)
Definition a_heaped : aroots T := if a_heap a then a else a_with_heap a.

Lemma heaped_pre : rel_pre place id rs hs scopes wasm a_heaped n g.
Proof using Hrel. unfold a_heaped. destruct (a_heap a); [apply Hrel|]. apply pre_heap, Hrel. Qed.
Lemma heaped_heap : a_heap a_heaped = true.
Proof using Type. unfold a_heaped. by destruct (a_heap a) eqn:?. Qed.

Lemma rel_end place' gs' rs' hs' scopes' wasm' a' n' g' :
  rel_pre place' id rs' hs' scopes' wasm' a' n' g' -> n <= n' <= n + 2 ->
  heap_ok at_ 0 gs' (root_refs rs') wasm' g' n' -> has gs' = a_heap a' ->
  (a_heap a' = false -> a_values a' = [] /\ a_manual a' = ∅ /\ a_wasm a' = []) ->
  rel {| e_store := SO id gs' rs' []; e_handles := hs'; e_scopes := scopes'; e_wasm := wasm' |} a' (n + 2).
Proof using GcClient0.
  intros Hp Hle Hh Hs Hnone. exists place', id, gs', rs', hs', scopes', wasm', g'. split; [done|].
  split; [eapply pre_weaken; [exact Hp|lia]|eapply heap_weaken; [|exact Hh]; lia|done|done].
Qed.

(** A call that leaves everything as it was. *)
Lemma rel_same gs' : heap_ok at_ 0 gs' (root_refs rs) wasm g n -> has gs' = has gs ->
  rel {| e_store := SO id gs' rs []; e_handles := hs; e_scopes := scopes; e_wasm := wasm |} a (n + 2).
Proof using GcClient0 Hrel.
  intros Hh Hs. eapply rel_end; [apply Hrel|lia|exact Hh|by rewrite Hs, (rw_has _ _ _ _ _ _ _ _ _ _ Hrel)|apply Hrel].
Qed.

Lemma step_new v : simulates E a (RNew v) n.
Proof using GcClient0 Hheap Hrel Hn.
  pose proof (rw_pre _ _ _ _ _ _ _ _ _ _ Hrel) as Hp. pose proof (rw_has _ _ _ _ _ _ _ _ _ _ Hrel) as Hs.
  destruct (wp_run _ _ _ (externref_new_ok oc dbg min_cap new_heap at_ Hheap rs n (rp_roots _ _ _ _ _ _ _ _ _ Hp) ltac:(lia) v gs id wasm g
    (rw_heap _ _ _ _ _ _ _ _ _ _ Hrel))) as (x & st & Hrun & Hx).
  unfold simulates. cbn [run_root_op code_root_op spec_root_op]. rewrite (call_run _ _ _ _ _ Hrun).
  destruct Hx as [(Hm & r & Hnew & Hi & -> & gs' & -> & Hs' & Hh)|[(Hm & -> & s' & -> & Hh)|Hx]].
  - exists true. rewrite (need_heap_made gs) by done. fold a_heaped. eexists _, _, _. split_and!; [done|done|done|].
    destruct (pre_new _ _ _ _ _ _ _ _ _ heaped_pre v r Scoped) as (Hp1 & Ht1 & Hr1 & Ho1); [done|done|].
    pose proof (pre_scoped _ _ _ _ _ _ _ _ _ Hp1 _ _ ltac:(lia) Ht1 Ho1) as Hp2. rewrite Hr1 in Hp2.
    eapply rel_end; [exact Hp2|lia|eapply heap_weaken; [|exact Hh]; lia| |]; cbn; rewrite heaped_heap; done.
  - exists false. rewrite (need_heap_made gs) by done. fold a_heaped. eexists _, _, _. split_and!; [done|done|done|].
    eapply (rel_end _ (Some s')); [exact heaped_pre|lia|exact Hh|by rewrite heaped_heap|by rewrite heaped_heap].
  - destruct (need_heap_refused _ _ _ a (fun a => (a_push Scoped (TObj (length (a_values a))) (a_with_values (a_values a ++ [v]) a), Ok RHandle)) _ _ Hs Hx)
      as (er & He & -> & -> & Hgs). exists true. rewrite He. eexists _, _, _. split_and!; [done|done|done|].
    rewrite <- Hgs. apply rel_same; [apply Hrel|done].
Qed.

Lemma pre : rel_pre place id rs hs scopes wasm a n g.
Proof using Hrel. apply Hrel. Qed.
Lemma rok : roots_ok rs n.
Proof using Hrel. apply pre. Qed.
Lemma hasg : has gs = a_heap a.
Proof using Hrel. apply Hrel. Qed.
Lemma hok : heap_ok at_ 0 gs (root_refs rs) wasm g n.
Proof using Hrel. apply Hrel. Qed.

Lemma gs_cases :
  (exists s, gs = Some s /\ a_heap a = true /\ at_ 0 s (root_refs rs) wasm g n) \/
  (gs = None /\ a_heap a = false /\ heap_ok at_ 0 None (root_refs rs) wasm g n).
Proof using Hrel.
  pose proof hok as Hh. pose proof hasg as Hs. rewrite <- Hs. clear Hrel Hs.
  destruct gs as [s|]; [left; by exists s|by right].
Qed.

Lemma step_refused {A} (o : root_op T) (m : io (StoreOpaque T H) (root_error T) A) k sk st x :
  run_root_op oc dbg min_cap new_heap E o = Some (call E m k) ->
  code_root_op (heap_failure new_heap) true a o = Some (need_heap (heap_failure new_heap) a sk) ->
  m (SO id gs rs []) = (st, x) -> refused new_heap id rs gs x st -> simulates E a o n.
Proof using GcClient0 Hrel.
  intros Hrun Hspec Hm Hx. unfold simulates. rewrite Hrun. rewrite (call_run E _ _ _ _ Hm).
  destruct (need_heap_refused _ _ _ a sk _ _ hasg Hx) as (er & He & -> & -> & Hgs).
  exists true. rewrite Hspec, He. eexists _, _, _. split_and!; [done|done|done|].
  rewrite <- Hgs. apply rel_same; [apply hok|done].
Qed.

(** The two operations that make a manual root of something in the heap. *)
Lemma manual_end t place' a1 g1 i m s' :
  rel_pre place' id rs hs scopes wasm a1 n g1 -> a_heap a1 = true -> target_ok a1 t -> objs_ok place' (a_push Manual t a1) g1 ->
  1 <= i <= 2 ^ 31 -> Slab.view (manually_rooted rs) !! i = None ->
  Slab.view m = <[i := ref_of place' t]> (Slab.view (manually_rooted rs)) -> roots_ok (with_manual rs m) (n + 1) ->
  at_ 0 s' (root_refs (with_manual rs m)) wasm g1 n ->
  rel {| e_store := SO id (Some s') (with_manual rs m) [];
         e_handles := hs ++ [{| h_ty := ty_of t; h_flavour := Manual; h_inner := manual_handle id i |}];
         e_scopes := scopes; e_wasm := wasm |} (a_push Manual t a1) (n + 2).
Proof using GcClient0.
  intros Hp1 Hh1 Ht Ho Hi Hnone Hm Hr Ha. pose proof (pre_manual _ _ _ _ _ _ _ _ _ Hp1 t m i g1 Ht Ho Hi Hnone Hm Hr) as Hp2.
  eapply rel_end; [exact Hp2|lia|eapply (heap_weaken _ (Some s')); [|exact Ha]; lia| |]; cbn; rewrite Hh1; done.
Qed.

Lemma scoped_end t a1 g1 gs' :
  rel_pre place id rs hs scopes wasm a1 n g1 -> has gs' = a_heap a1 -> target_ok a1 t -> objs_ok place (a_push Scoped t a1) g1 ->
  heap_ok at_ 0 gs' (root_refs (pushed rs (ref_of place t))) wasm g1 n ->
  (a_heap a1 = false -> a_values a1 = [] /\ a_manual a1 = ∅ /\ a_wasm a1 = []) ->
  rel {| e_store := SO id gs' (pushed rs (ref_of place t)) [];
         e_handles := hs ++ [{| h_ty := ty_of t; h_flavour := Scoped; h_inner := lifo_handle id rs |}];
         e_scopes := scopes; e_wasm := wasm |} (a_push Scoped t a1) (n + 2).
Proof using GcClient0 Hn.
  intros Hp1 Hh1 Ht Ho Ha Hnone. pose proof (pre_scoped _ _ _ _ _ _ _ _ _ Hp1 t g1 ltac:(lia) Ht Ho) as Hp2.
  eapply rel_end; [exact Hp2|lia|eapply heap_weaken; [|exact Ha]; lia|done|done].
Qed.

Lemma step_new_manual v : simulates E a (RNewManual v) n.
Proof using GcClient0 Hmin Hheap Hrel Hn.
  destruct (wp_run _ _ _ (externref_new_manual_ok oc dbg min_cap new_heap at_ Hmin Hheap rs n rok ltac:(lia) v gs id wasm g hok))
    as (x & st & Hrun & Hx).
  destruct Hx as [(Hm & r & Hnew & Hi & j & m & s' & -> & -> & Hnone & Hv & Hr & Hj & Hh)|[(Hm & -> & s' & -> & Hh)|Hx]].
  - unfold simulates. cbn [run_root_op code_root_op spec_root_op]. rewrite (call_run _ _ _ _ _ Hrun).
    exists true. rewrite (need_heap_made gs) by (done || apply hasg). fold a_heaped. eexists _, _, _. split_and!; [done|done|done|].
    destruct (pre_new _ _ _ _ _ _ _ _ _ heaped_pre v r Manual) as (Hp1 & Ht1 & Hr1 & Ho1); [done|done|].
    eapply (manual_end (TObj (length (a_values a_heaped)))); [exact Hp1|apply heaped_heap|exact Ht1|exact Ho1|done|done| |done|exact Hh].
    by rewrite Hr1.
  - unfold simulates. cbn [run_root_op code_root_op spec_root_op]. rewrite (call_run _ _ _ _ _ Hrun).
    exists false. rewrite (need_heap_made gs) by (done || apply hasg). fold a_heaped. eexists _, _, _. split_and!; [done|done|done|].
    eapply (rel_end _ (Some s')); [exact heaped_pre|lia|exact Hh|by rewrite heaped_heap|by rewrite heaped_heap].
  - by eapply step_refused.
Qed.

Lemma step_from_i31 i : simulates E a (RFromI31 i) n.
Proof using GcClient0 Hrel Hn.
  destruct (wp_run _ _ _ (anyref_from_i31_ok oc dbg min_cap new_heap at_ rs n rok ltac:(lia) i gs id wasm g hok))
    as (x & st & Hrun & -> & gs' & -> & Hs' & Hh).
  unfold simulates. cbn [run_root_op code_root_op spec_root_op]. rewrite (call_run _ _ _ _ _ Hrun).
  exists true. eexists _, _, _. split_and!; [done|done|done|].
  apply (scoped_end (TInt (wrapping_u32 i)) a g gs'); [apply pre|by rewrite Hs', hasg|by exists i| |done|apply Hrel].
  by eapply objs_push; [apply pre|apply pre|].
Qed.

Lemma step_enter : simulates E a REnter n.
Proof using GcClient0 Hrel.
  exists true. eexists _, _, _. cbn [run_root_op code_root_op spec_root_op]. split_and!; [done|done|done|].
  eapply rel_end; [apply pre_enter, pre|lia|apply hok|apply hasg|apply Hrel].
Qed.

Lemma step_exit :
  is_Some (code_root_op (heap_failure new_heap) true a RExit) -> simulates E a RExit n.
Proof using GcClient0 Hrel Hn.
  intros Hd. unfold simulates. cbn [run_root_op code_root_op spec_root_op e_scopes] in *.
  rewrite (rp_scopes _ _ _ _ _ _ _ _ _ pre). destruct (a_scopes a) as [|scope scopes'] eqn:Hsc; [by destruct Hd|].
  destruct (pre_leave _ _ _ _ _ _ _ _ _ pre scope scopes' Hsc) as [Hle Hp1].
  exists true. destruct gs_cases as [(s & Hgs & Hheaped & Hh0)|(Hgs & Hheaped & Hh0)]; rewrite Hheaped, Hgs.
  - destruct (wp_run _ _ _ (exit_scope_ok oc dbg min_cap new_heap at_ rs n rok ltac:(lia) scope s id wasm g Hle Hh0))
      as (x & st & Hrun & -> & s' & -> & Hh). rewrite (call_run _ _ _ _ _ Hrun).
    eexists _, _, _. split_and!; [done|done|done|].
    eapply (rel_end _ (Some s')); [exact Hp1|lia|eapply (heap_weaken _ (Some s')); [|exact Hh]; lia| |]; cbn; rewrite Hheaped; done.
  - eexists _, _, _. split_and!; [done|done|done|].
    eapply (rel_end _ None); [by eapply pre_stay; [apply pre|]|lia|exact Hh0|exact (eq_sym Hheaped)|apply Hrel].
Qed.

(** *** Operations on a handle *)

Lemma used_target k t : a_use a k = Some (Some t) ->
  target_ok a t /\ (forall o, t = TObj o -> alive a o) /\ ref_of place t ∈ root_refs rs ++ wasm.
Proof using Hrel.
  clear Hheap. intros Hu. pose proof (rp_s _ _ _ _ _ _ _ _ _ pre) as Hs. split_and!.
  - unfold a_use in Hu. destruct (a_handles a !! k) as [[f t']|] eqn:Hk; [|done].
    pose proof (rs_targets _ _ _ _ _ Hs) as Hf. eapply list.Forall_lookup_1 in Hf; [|exact Hk].
    destruct f; case_bool_decide; simplify_eq; exact Hf.
  - intros o ->. by eapply used_alive.
  - apply list.elem_of_app. left. unfold a_use in Hu. destruct (a_handles a !! k) as [[[] t']|] eqn:Hk; [| |done];
      case_bool_decide as Hin; simplify_eq.
    + destruct (stack_root _ _ _ _ _ _ Hs Hin) as (i & root & h & t' & _ & Hroot & _ & Ht & _ & _ & Href).
      rewrite Hk in Ht. injection Ht as <-. apply list.elem_of_app. left. apply list_elem_of_fmap. exists root.
      split; [by rewrite Href|by eapply list_elem_of_lookup_2].
    + destruct (use_manual _ _ _ _ _ _ _ Hs Hk Hin) as (h & i & _ & _ & _ & _ & Hv). by eapply view_in_refs.
Qed.

Lemma objs_used f k t : a_use a k = Some (Some t) -> objs_ok place (a_push f t a) g.
Proof using Hrel. intros (_ & Ha & _)%used_target. by eapply objs_push; [apply pre|apply pre|]. Qed.

Lemma objs_used_heaped f k t : a_use a k = Some (Some t) -> objs_ok place (a_push f t a_heaped) g.
Proof using Hrel.
  intros (_ & Ha & _)%used_target. eapply objs_push; [apply heaped_pre|apply heaped_pre|].
  intros o Ho. unfold a_heaped. destruct (a_heap a); by apply Ha.
Qed.

Lemma target_heaped t : target_ok a t -> target_ok a_heaped t.
Proof using Type. unfold a_heaped. by destruct (a_heap a), t. Qed.

Lemma step_to_manual h : is_Some (code_root_op (heap_failure new_heap) true a (RToManual h)) -> simulates E a (RToManual h) n.
Proof using GcClient0 Hmin Hheap Hrel Hn.
  intros Hd. pose proof (rp_s _ _ _ _ _ _ _ _ _ pre) as Hs. cbn [code_root_op spec_root_op] in Hd.
  destruct (a_flavour a h) as [[]|] eqn:Hf; [|by destruct Hd..]. unfold a_flavour in Hf.
  destruct (a_handles a !! h) as [[f t]|] eqn:Hk; [|done]. injection Hf as ->.
  destruct (use_scoped id (H:=H) _ _ _ _ _ _ gs Hs Hk) as (x & i & Hh & Hty & Hfl & Hi & Hget).
  assert (Hrun : run_root_op oc dbg min_cap new_heap E (RToManual h) =
    Some (call E (to_manually_rooted oc dbg min_cap new_heap {| rooted_inner := h_inner x |}) (got_manual (ty_of t)))).
  { cbn [run_root_op e_handles]. rewrite Hh. cbn. by rewrite Hfl, Hty. }
  assert (Hu : a_use a h = Some (if bool_decide (h ∈ a_stack a) then Some t else None)) by (unfold a_use; by rewrite Hk).
  case_bool_decide as Hin.
  - destruct (used_target _ _ Hu) as (Ht & Ha & Href).
    destruct (wp_run _ _ _ (to_manually_rooted_live oc dbg min_cap new_heap at_ Hmin Hheap rs n rok ltac:(lia) _ i _ gs id wasm g hok Hi Hget Href))
      as (y & st & Hm & [(Hmade & j & m & s' & -> & -> & Hnone & Hv & Hr & Hj & Hh')|Hx]).
    + unfold simulates. rewrite Hrun, (call_run E _ _ _ _ Hm). exists true. cbn [code_root_op spec_root_op]. unfold a_flavour. rewrite Hk, Hu. cbn.
      rewrite (need_heap_made gs) by (done || apply hasg). fold a_heaped. eexists _, _, _. split_and!; [done|done|done|].
      eapply (manual_end t); [apply heaped_pre|apply heaped_heap|by apply target_heaped|by eapply objs_used_heaped|done|done|done|done|exact Hh'].
    + eapply (step_refused _ _ _ (fun a => (a_push Manual t a, Ok RHandle))); [exact Hrun| |exact Hm|exact Hx].
      cbn [code_root_op spec_root_op]. unfold a_flavour. by rewrite Hk, Hu.
  - destruct (wp_run _ _ _ (to_manually_rooted_dead oc dbg min_cap new_heap at_ rs n rok ltac:(lia) _ i gs id wasm g hok Hi Hget))
      as (y & st & Hm & -> & gs' & -> & Hs' & Hh').
    unfold simulates. rewrite Hrun, (call_run E _ _ _ _ Hm). exists true. cbn [code_root_op spec_root_op]. unfold a_flavour. rewrite Hk, Hu. cbn.
    eexists _, _, _. split_and!; [done|done|done|]. by apply rel_same.
Qed.

(** A manual handle that can be named: its root, and the heap. *)
Lemma manual_used h t : a_flavour a h = Some Manual -> a_use a h = Some (Some t) ->
  exists x i s, hs !! h = Some x /\ manual_of E h = Some (ty_of t, {| manual_inner := h_inner x |}) /\
    h ∈ a_manual a /\ manual_at id (h_inner x) i /\ Slab.view (manually_rooted rs) !! i = Some (ref_of place t) /\
    gs = Some s /\ a_heap a = true /\ at_ 0 s (root_refs rs) wasm g n.
Proof using Hrel.
  clear Hheap. unfold a_flavour, a_use. destruct (a_handles a !! h) as [[f t']|] eqn:Hk; [|done]. intros [= ->]. case_bool_decide as Hin; [|done].
  intros [= ->]. destruct (use_manual _ _ _ _ _ _ _ (rp_s _ _ _ _ _ _ _ _ _ pre) Hk Hin) as (x & i & Hx & Hty & Hf & Hi & Hv).
  destruct gs_cases as [(s & Hgs & Hheaped & Hh0)|(_ & Hheaped & _)].
  - exists x, i, s. split_and!; try done; [|apply Hi..]. unfold manual_of. cbn. rewrite Hx. cbn. by rewrite Hf, Hty.
  - destruct (rw_none _ _ _ _ _ _ _ _ _ _ Hrel Hheaped) as (_ & Hm & _). rewrite Hm in Hin. by apply not_elem_of_empty in Hin.
Qed.

Lemma manual_defined h X : is_Some (match a_flavour a h, a_use a h with
    | Some Manual, Some (Some t) => X t | _, _ => @None (aroots T * outcome (root_error T) (root_result T)) end) ->
  exists t, a_flavour a h = Some Manual /\ a_use a h = Some (Some t).
Proof using Type.
  clear Hheap. intros [y Hy]. destruct (a_flavour a h) as [[]|]; [done| |done]. destruct (a_use a h) as [[t|]|]; [|done..]. by exists t.
Qed.

Lemma step_clone_manual h : is_Some (code_root_op (heap_failure new_heap) true a (RClone h)) -> simulates E a (RClone h) n.
Proof using GcClient0 Hmin Hrel Hn.
  clear Hheap. intros (t & Hf & Hu)%manual_defined. destruct (manual_used h t Hf Hu) as (x & i & s & Hx & Hmo & Hin & Hi & Hv & Hgs & Hheaped & Hh0).
  destruct (used_target _ _ Hu) as (Ht & _ & _). unfold simulates. cbn [run_root_op code_root_op spec_root_op]. rewrite Hmo, Hf, Hu, Hgs. cbn [mbind option_bind].
  destruct (wp_run _ _ _ (manual_clone_ok oc dbg min_cap new_heap at_ Hmin rs n rok ltac:(lia) _ i _ s id wasm g Hh0 Hi Hv))
    as (y & st & Hm & j & m & s' & -> & -> & Hnone & Hvm & Hr & Hj & Hh').
  rewrite (call_run _ _ _ _ _ Hm). exists true. eexists _, _, _. split_and!; [done|done|done|].
  eapply (manual_end t); [apply pre|done|done|by eapply objs_used|done|done|done|done|exact Hh'].
Qed.

Lemma step_unroot h : is_Some (code_root_op (heap_failure new_heap) true a (RUnroot h)) -> simulates E a (RUnroot h) n.
Proof using GcClient0 Hrel Hn.
  clear Hheap. intros (t & Hf & Hu)%manual_defined. destruct (manual_used h t Hf Hu) as (x & i & s & Hx & Hmo & Hin & Hi & Hv & Hgs & Hheaped & Hh0).
  unfold simulates. cbn [run_root_op code_root_op spec_root_op]. rewrite Hmo, Hf, Hu, Hgs. cbn [mbind option_bind].
  destruct (wp_run _ _ _ (unroot_ok oc dbg min_cap new_heap at_ rs n rok ltac:(lia) _ i _ s id wasm g Hh0 Hi Hv))
    as (y & st & Hm & -> & m & s' & -> & Hvm & Hr & Hh').
  rewrite (call_run _ _ _ _ _ Hm). exists true. eexists _, _, _. split_and!; [done|done|done|].
  eapply (rel_end _ (Some s')); [by eapply pre_release; [apply pre|..]|lia|exact Hh'| |]; cbn; rewrite Hheaped; done.
Qed.

Lemma step_to_rooted h : is_Some (code_root_op (heap_failure new_heap) true a (RToRooted h)) -> simulates E a (RToRooted h) n.
Proof using GcClient0 Hrel Hn.
  clear Hheap. intros (t & Hf & Hu)%manual_defined. destruct (manual_used h t Hf Hu) as (x & i & s & Hx & Hmo & Hin & Hi & Hv & Hgs & Hheaped & Hh0).
  destruct (used_target _ _ Hu) as (Ht & _ & _). unfold simulates. cbn [run_root_op code_root_op spec_root_op]. rewrite Hmo, Hf, Hu, Hgs. cbn [mbind option_bind].
  destruct (wp_run _ _ _ (to_rooted_ok oc dbg min_cap new_heap at_ rs n rok ltac:(lia) _ i _ s id wasm g Hh0 Hi Hv))
    as (y & st & Hm & -> & gs' & -> & Hs' & Hh').
  rewrite (call_run _ _ _ _ _ Hm). exists true. eexists _, _, _. split_and!; [done|done|done|].
  eapply scoped_end; [apply pre|by rewrite Hs', Hheaped|done|by eapply objs_used|done|by rewrite Hheaped].
Qed.

Lemma step_into_rooted h : is_Some (code_root_op (heap_failure new_heap) true a (RIntoRooted h)) -> simulates E a (RIntoRooted h) n.
Proof using GcClient0 Hrel Hn.
  clear Hheap. intros (t & Hf & Hu)%manual_defined. destruct (manual_used h t Hf Hu) as (x & i & s & Hx & Hmo & Hin & Hi & Hv & Hgs & Hheaped & Hh0).
  destruct (used_target _ _ Hu) as (Ht & _ & _). unfold simulates. cbn [run_root_op code_root_op spec_root_op]. rewrite Hmo, Hf, Hu, Hgs. cbn [mbind option_bind].
  destruct (wp_run _ _ _ (into_rooted_ok oc dbg min_cap new_heap at_ rs n rok ltac:(lia) _ i _ s id wasm g Hh0 Hi Hv))
    as (y & st & Hm & -> & m & s' & -> & Hvm & Hr & Hh').
  rewrite (call_run _ _ _ _ _ Hm). exists true. eexists _, _, _. split_and!; [done|done|done|].
  pose proof (pre_scoped _ _ _ _ _ _ _ _ _ pre t g ltac:(lia) Ht (objs_used Scoped h t Hu)) as Hp1.
  eapply (rel_end _ (Some s')); [eapply pre_release; [exact Hp1|exact Hin|by apply lookup_old|exact Hi|exact Hvm|exact Hr]|lia|exact Hh'| |];
    cbn; rewrite Hheaped; done.
Qed.

(** A handle that can be named resolves to what it stands for. *)
Lemma used_resolves h o : a_use a h = Some o ->
  exists x, hs !! h = Some x /\ a_ty a h = Some (h_ty x) /\ resolves (T:=T) (H:=H) dbg rs id (h_inner x) (ref_of place <$> o) /\
    forall r, ref_of place <$> o = Some r -> r ∈ root_refs rs ++ wasm.
Proof using Hrel.
  clear Hheap. intros Hu. destruct (use_resolves id (H:=H) dbg _ _ _ _ _ _ (rp_s _ _ _ _ _ _ _ _ _ pre) Hu) as (x & Hx & Hty & Hres).
  exists x. split_and!; [done| |done|].
  - unfold a_ty. rewrite <- Hty. by destruct (a_handles a !! h).
  - intros r Hr. destruct o as [t|]; [|done]. injection Hr as <-. by apply (used_target h).
Qed.

(** An [ExternRef] exists only after the heap does. *)
Lemma extern_heap h : a_ty a h = Some Extern -> exists s, gs = Some s /\ a_heap a = true /\ at_ 0 s (root_refs rs) wasm g n.
Proof using Hrel.
  clear Hheap. unfold a_ty. destruct (a_handles a !! h) as [[f t]|] eqn:Hk; [|done]. destruct t as [o|]; [|done]. intros _.
  destruct gs_cases as [Hc|(_ & Hheaped & _)]; [done|]. exfalso.
  destruct (rw_none _ _ _ _ _ _ _ _ _ _ Hrel Hheaped) as (Hv & _).
  pose proof (rs_targets _ _ _ _ _ (rp_s _ _ _ _ _ _ _ _ _ pre)) as Hf. eapply list.Forall_lookup_1 in Hf; [|exact Hk].
  cbn in Hf. rewrite Hv in Hf. by apply Nat.nlt_0_r in Hf.
Qed.

Lemma object_at h o : a_use a h = Some (Some (TObj o)) ->
  exists v, a_values a !! o = Some v /\ g !! place o = Some v /\ is_i31 (place o) = false.
Proof using Hrel. intros Hu. apply (rp_objs _ _ _ _ _ _ _ _ _ pre). by eapply used_alive. Qed.

Lemma extern_refs h o : a_ty a h = Some Extern -> a_use a h = Some o ->
  forall r, ref_of place <$> o = Some r -> is_i31 r = false.
Proof using Hrel.
  clear Hheap. intros Hty Hu r Hr. destruct o as [t|]; [|done]. injection Hr as <-. destruct t as [x|].
  - by destruct (object_at h x Hu) as (_ & _ & _ & Hi).
  - unfold a_ty, a_use in *. destruct (a_handles a !! h) as [[[] t]|]; [| |done]; case_bool_decide; by simplify_eq.
Qed.

Lemma step_data h : is_Some (code_root_op (heap_failure new_heap) true a (RData h)) -> simulates E a (RData h) n.
Proof using GcClient0 Hrel Hn.
  clear Hheap. intros Hd. unfold simulates. cbn [run_root_op code_root_op spec_root_op e_handles] in *.
  destruct (a_ty a h) as [[]|] eqn:Hty; [|by destruct Hd..]. destruct (a_use a h) as [o|] eqn:Hu; [|by destruct Hd].
  destruct (extern_heap h Hty) as (s & Hgs & Hheaped & Hh0). destruct (used_resolves h o Hu) as (x & Hx & _ & Hres & Hin).
  rewrite Hx, Hgs. cbn [mbind option_bind].
  destruct (wp_run _ _ _ (externref_data_ok oc dbg min_cap new_heap at_ rs n rok ltac:(lia) id _ _ s wasm g Hh0 Hres
    (fun r Hr => conj (Hin r Hr) (extern_refs h o Hty Hu r Hr)))) as (y & st & Hm & -> & Hy).
  rewrite (call_run _ _ _ _ _ Hm). exists true. destruct o as [[obj|]|]; [|by destruct Hd|].
  - destruct (object_at h obj Hu) as (v & Hv & Hg & _). cbn in Hy. destruct Hy as (v' & Hg' & ->). rewrite Hv. cbn [mbind option_bind].
    injection (eq_trans (eq_sym Hg) Hg') as <-.
    eexists _, _, _. split_and!; [done|done|done|]. apply rel_same; [exact Hh0|by rewrite Hgs].
  - cbn in Hy. subst y. eexists _, _, _. split_and!; [done|done|done|]. apply rel_same; [exact Hh0|by rewrite Hgs].
Qed.

Lemma step_set_data h v : is_Some (code_root_op (heap_failure new_heap) true a (RSetData h v)) -> simulates E a (RSetData h v) n.
Proof using GcClient0 Hrel Hn.
  clear Hheap. intros Hd. unfold simulates. cbn [run_root_op code_root_op spec_root_op e_handles] in *.
  destruct (a_ty a h) as [[]|] eqn:Hty; [|by destruct Hd..]. destruct (a_use a h) as [o|] eqn:Hu; [|by destruct Hd].
  destruct (extern_heap h Hty) as (s & Hgs & Hheaped & Hh0). destruct (used_resolves h o Hu) as (x & Hx & _ & Hres & Hin).
  rewrite Hx, Hgs. cbn [mbind option_bind].
  destruct (wp_run _ _ _ (externref_data_mut_ok oc dbg min_cap new_heap at_ rs n rok ltac:(lia) id _ _ v s wasm g Hh0 Hres
    (fun r Hr => conj (Hin r Hr) (extern_refs h o Hty Hu r Hr)))) as (y & st & Hm & Hy).
  rewrite (call_run _ _ _ _ _ Hm). exists true. destruct o as [[obj|]|]; [|by destruct Hd|]; cbn in Hy;
    destruct Hy as (-> & gs' & -> & Hs' & Hh'); eexists _, _, _; (split_and!; [done|done|done|]).
  - eapply rel_end; [eapply pre_set; [apply pre|by eapply used_alive|done]|lia|exact Hh'|cbn; by rewrite Hs', Hheaped|].
    cbn. by rewrite Hheaped.
  - apply rel_same; [exact Hh'|by rewrite Hs', Hgs].
Qed.

Lemma step_as_i31 h : is_Some (code_root_op (heap_failure new_heap) true a (RAsI31 h)) -> simulates E a (RAsI31 h) n.
Proof using GcClient0 Hrel Hn.
  clear Hheap. intros Hd. unfold simulates. cbn [run_root_op code_root_op spec_root_op e_handles] in *.
  destruct (a_ty a h) as [[]|] eqn:Hty; [by destruct Hd| |by destruct Hd]. destruct (a_use a h) as [o|] eqn:Hu; [|by destruct Hd].
  destruct (used_resolves h o Hu) as (x & Hx & _ & Hres & Hin). rewrite Hx. cbn [mbind option_bind].
  destruct (wp_run _ _ _ (anyref_as_i31_ok dbg rs id _ _ gs Hres)) as (y & st & Hm & -> & ->).
  rewrite (call_run _ _ _ _ _ Hm). exists true. destruct o as [[obj|i]|]; [by destruct Hd| |]; cbn [fmap option_fmap option_map ref_of].
  - destruct (used_target h _ Hu) as ([v ->] & _). rewrite as_i31_wrapping.
    eexists _, _, _. split_and!; [done|done|done|]. apply rel_same; [apply hok|done].
  - eexists _, _, _. split_and!; [done|done|done|]. apply rel_same; [apply hok|done].
Qed.

Lemma ref_of_inj h h' t t' : a_use a h = Some (Some t) -> a_use a h' = Some (Some t') -> ty_of t = ty_of t' ->
  ref_of place t = ref_of place t' -> t = t'.
Proof using Hrel.
  clear Hheap. intros Hu Hu' Hty. destruct t as [o|i], t' as [o'|i']; cbn; [|done..|by intros ->]. intros Heq. f_equal.
  apply (oo_place _ _ _ (rp_objs _ _ _ _ _ _ _ _ _ pre)); [by eapply used_alive..|done].
Qed.

Lemma use_ty h t : a_use a h = Some (Some t) -> a_ty a h = Some (ty_of t).
Proof using Type.
  clear Hheap. unfold a_use, a_ty. destruct (a_handles a !! h) as [[[] t']|]; [| |done]; case_bool_decide; intros; by simplify_eq.
Qed.

Lemma step_ref_eq h h' : is_Some (code_root_op (heap_failure new_heap) true a (RRefEq h h')) -> simulates E a (RRefEq h h') n.
Proof using GcClient0 Hrel Hn.
  clear Hheap. intros Hd. unfold simulates. cbn [run_root_op code_root_op spec_root_op e_handles] in *.
  destruct (bool_decide (a_ty a h = a_ty a h')) eqn:Hty; [|by destruct Hd]. apply bool_decide_eq_true in Hty.
  destruct (a_use a h) as [o|] eqn:Hu; [|by destruct Hd]. destruct (a_use a h') as [o'|] eqn:Hu'; [|by destruct o, Hd].
  destruct (used_resolves h o Hu) as (x & Hx & _ & Hres & _), (used_resolves h' o' Hu') as (x' & Hx' & _ & Hres' & _).
  rewrite Hx, Hx'. cbn [mbind option_bind].
  destruct (wp_run _ _ _ (ref_eq_ok dbg rs id _ _ _ _ gs Hres Hres')) as (y & st & Hm & -> & ->).
  rewrite (call_run _ _ _ _ _ Hm). exists true. destruct o as [t|], o' as [t'|]; cbn [fmap option_fmap option_map];
    try (eexists _, _, _; split_and!; [done|done|done|]; apply rel_same; [apply hok|done]).
  assert ((ref_of place t =? ref_of place t') = bool_decide (t = t')) as ->.
  { apply eq_true_iff_eq. rewrite Z.eqb_eq, bool_decide_eq_true. split; [|by intros ->].
    apply (ref_of_inj h h' t t'); [done|done|]. rewrite (use_ty _ _ Hu), (use_ty _ _ Hu') in Hty. by injection Hty. }
  eexists _, _, _. split_and!; [done|done|done|]. apply rel_same; [apply hok|done].
Qed.

(** *** Compiled code and collections *)

Lemma to_raw_ok (ty : ref_ty) h o :
  resolves (T:=T) (H:=H) dbg rs id h o -> (forall r, o = Some r -> r ∈ root_refs rs ++ wasm) ->
  wp (match ty with Extern => externref_to_raw dbg new_heap h | Any => anyref_to_raw dbg new_heap h end) (SO id gs rs []) (fun x st =>
    match o with
    | Some r => exposed new_heap at_ rs n id gs r wasm g x st
    | None => unchanged at_ rs n id wasm g (has gs) (Err Unrooted) x st
    end).
Proof using GcClient0 Hheap Hrel Hn.
  intros Hres Hin. destruct ty; [eapply externref_to_raw_ok|eapply anyref_to_raw_ok]; try done; try apply rok; try apply hok; lia.
Qed.

Lemma step_to_raw h : is_Some (code_root_op (heap_failure new_heap) true a (RToRaw h)) -> simulates E a (RToRaw h) n.
Proof using GcClient0 Hheap Hrel Hn.
  intros Hd. cbn [code_root_op spec_root_op] in Hd. destruct (a_use a h) as [o|] eqn:Hu; [|by destruct Hd].
  destruct (used_resolves h o Hu) as (x & Hx & _ & Hres & Hin).
  destruct (wp_run _ _ _ (to_raw_ok (h_ty x) _ _ Hres Hin)) as (y & st & Hm & Hy).
  assert (Hrun : run_root_op oc dbg min_cap new_heap E (RToRaw h) = Some (call E (match h_ty x with
    | Extern => externref_to_raw dbg new_heap (h_inner x) | Any => anyref_to_raw dbg new_heap (h_inner x) end)
    (fun raw e => (with_wasm (raw :: e_wasm e) e, RDone)))) by (cbn [run_root_op e_handles]; by rewrite Hx).
  destruct o as [t|]; cbn [fmap option_fmap option_map] in Hy.
  - destruct (used_target h t Hu) as (Ht & Ha & _). destruct Hy as [(Hmade & -> & s' & -> & Hh')|Href].
    + unfold simulates. rewrite Hrun, (call_run E _ _ _ _ Hm). exists true. cbn [code_root_op spec_root_op]. rewrite Hu.
      rewrite (need_heap_made gs) by (done || apply hasg). fold a_heaped. eexists _, _, _. split_and!; [done|done|done|].
      eapply (rel_end _ (Some s')); [apply pre_expose; [apply heaped_pre|by apply target_heaped|]|lia|exact Hh'| |];
        [|cbn; by rewrite heaped_heap..]. intros obj Hobj. unfold a_heaped. destruct (a_heap a); by apply Ha.
    + eapply (step_refused _ _ _ (fun a => (a_with_wasm (t :: a_wasm a) a, Ok RDone))); [exact Hrun| |exact Hm|exact Href].
      cbn [code_root_op spec_root_op]. by rewrite Hu.
  - destruct Hy as (-> & gs' & -> & Hs' & Hh'). unfold simulates. rewrite Hrun, (call_run E _ _ _ _ Hm). exists true. cbn [code_root_op spec_root_op].
    rewrite Hu. eexists _, _, _. split_and!; [done|done|done|]. by apply rel_same.
Qed.

(** A word in a frame: what it refers to, and the heap. *)
Lemma wasm_word w t : a_wasm a !! w = Some t ->
  wasm !! w = Some (ref_of place t) /\ target_ok a t /\ (forall o, t = TObj o -> alive a o) /\ ref_of place t ∈ wasm /\
  exists s, gs = Some s /\ a_heap a = true /\ at_ 0 s (root_refs rs) wasm g n.
Proof using Hrel.
  clear Hheap. intros Hw. destruct (rw_pre _ _ _ _ _ _ _ _ _ _ Hrel) as [_ _ Hwasm Hf _ _ _].
  assert (Hlk : wasm !! w = Some (ref_of place t)) by (rewrite Hwasm; apply list_lookup_fmap_Some; by exists t).
  split_and!; [done|by eapply list.Forall_lookup_1| |by eapply list_elem_of_lookup_2|].
  - intros o ->. right. by eapply list_elem_of_lookup_2.
  - destruct gs_cases as [Hc|(_ & Hheaped & _)]; [done|].
    destruct (rw_none _ _ _ _ _ _ _ _ _ _ Hrel Hheaped) as (_ & _ & Hnil). by rewrite Hnil in Hw.
Qed.

Lemma word_ty t : target_ok a t -> (forall o, t = TObj o -> alive a o) ->
  match ty_of t with Extern => is_i31 (ref_of place t) = false | Any => int_ref (ref_of place t) end.
Proof using Hrel.
  intros Ht Ha. destruct t as [o|i]; cbn; [|done].
  by destruct (oo_value _ _ _ (rp_objs _ _ _ _ _ _ _ _ _ pre) o (Ha o eq_refl)) as (_ & _ & _ & Hi).
Qed.

Lemma step_from_raw ty w : is_Some (code_root_op (heap_failure new_heap) true a (RFromRaw ty w)) -> simulates E a (RFromRaw ty w) n.
Proof using GcClient0 Hrel Hn.
  clear Hheap. intros Hd. unfold simulates. cbn [run_root_op code_root_op spec_root_op e_wasm] in *.
  destruct (a_wasm a !! w) as [t|] eqn:Hw; [|by destruct Hd]. case_bool_decide as Hty; [|by destruct Hd]. subst ty.
  destruct (wasm_word w t Hw) as (Hl & Ht & Ha & Hin & s & Hgs & Hheaped & Hh0). rewrite Hl, Hgs. cbn [mbind option_bind].
  destruct (wp_run _ _ _ (from_raw_ok oc dbg min_cap new_heap at_ rs n rok ltac:(lia) (ty_of t) _ s id wasm g Hh0 Hin (word_ty t Ht Ha)))
    as (y & st & Hm & y' & -> & -> & gs' & -> & Hs' & Hh').
  rewrite (call_run _ _ _ _ _ Hm). exists true. eexists _, _, _. split_and!; [done|done|done|].
  eapply scoped_end; [apply pre|by rewrite Hs', Hheaped|done|by eapply objs_push; [apply pre|apply pre|]|done|by rewrite Hheaped].
Qed.

Lemma step_load_manual ty w : is_Some (code_root_op (heap_failure new_heap) true a (RLoadManual ty w)) -> simulates E a (RLoadManual ty w) n.
Proof using GcClient0 Hmin Hheap Hrel Hn.
  intros Hd. unfold simulates. cbn [run_root_op code_root_op spec_root_op e_wasm] in *.
  destruct (a_wasm a !! w) as [t|] eqn:Hw; [|by destruct Hd]. case_bool_decide as Hty; [|by destruct Hd]. subst ty.
  destruct (wasm_word w t Hw) as (Hl & Ht & Ha & Hin & s & Hgs & Hheaped & Hh0). rewrite Hl, Hgs. cbn [mbind option_bind].
  assert (Hi31 : is_i31 (ref_of place t) = match ty_of t with Extern => false | Any => true end).
  { pose proof (word_ty t Ht Ha) as Hwt. destruct (ty_of t); [done|]. destruct Hwt as [i ->]. apply wrapping_i31. }
  destruct (wp_run _ _ _ (manual_load_ok oc dbg min_cap new_heap at_ Hmin Hheap rs n rok ltac:(lia) (ty_of t) _ s id wasm g Hh0 Hin Hi31))
    as (y & st & Hm & j & m & s' & -> & -> & Hnone & Hv & Hr & Hj & Hh').
  rewrite (call_run _ _ _ _ _ Hm). exists true. eexists _, _, _. split_and!; [done|done|done|].
  assert (Hr1 : roots_ok (with_manual rs m) (n + 1 + 1)) by (by replace (n + 1 + 1) with (n + 2) by lia).
  pose proof (pre_weaken _ _ _ _ _ _ _ _ _ pre (n + 1) ltac:(lia)) as Hp0.
  pose proof (pre_manual _ _ _ _ _ _ _ _ _ Hp0 t m j g Ht (objs_push _ _ _ _ _ _ _ _ (rp_s _ _ _ _ _ _ _ _ _ pre) (rp_objs _ _ _ _ _ _ _ _ _ pre) Ha)
    Hj Hnone Hv Hr1) as Hp1.
  destruct Hp1 as [Hs1 Hsc1 Hw1 Hf1 Hl1 Hro1 Ho1].
  eapply (rel_end _ (Some s') _ _ _ _ _ (n + 2)); [|lia|eapply (heap_weaken _ (Some s')); [|exact Hh']; lia| |]; [|cbn; by rewrite Hheaped..].
  split; try done; [by apply bump_s|lia|]. destruct Hro1 as [? ? ? ?], rok as [_ _ _ ?]. split; cbn in *; [done|lia..].
Qed.

Lemma step_load_null f ty : loads_ok (T:=T) dbg (RLoadNull f ty) = true -> simulates E a (RLoadNull f ty) n.
Proof using GcClient0 Hrel Hn.
  intros Hserved. pose proof (roots_room rs n rok ltac:(lia) [] ltac:(cbn; lia)) as Hroom. unfold simulates. exists true.
  destruct f; cbn [run_root_op code_root_op spec_root_op].
  - destruct (wp_run _ _ _ (wp_block_ret oc min_cap new_heap at_ (rooted_load_option dbg ty 0) None gs id rs _ wasm g n hok Hroom ltac:(done)))
      as (y & st & Hm & -> & gs' & -> & Hs' & Hh'). rewrite (call_run _ _ _ _ _ Hm).
    eexists _, _, _. split_and!; [done|done|done|]. by apply rel_same.
  - cbn in Hserved. apply negb_true_iff in Hserved.
    destruct (wp_run _ _ _ (wp_block_ret oc min_cap new_heap at_ (manual_load_option oc dbg min_cap new_heap ty 0) None gs id rs _ wasm g n hok Hroom
      ltac:(by rewrite Hserved))) as (y & st & Hm & -> & gs' & -> & Hs' & Hh'). rewrite (call_run _ _ _ _ _ Hm).
    eexists _, _, _. split_and!; [done|done|done|]. by apply rel_same.
Qed.

Lemma step_return k : simulates E a (RReturn k) n.
Proof using GcClient0 Hrel Hn.
  exists true. eexists _, _, _. cbn [run_root_op code_root_op spec_root_op]. split_and!; [done|done|done|].
  eapply rel_end; [apply pre_return, pre|lia| |apply hasg|].
  - cbn [e_wasm]. pose proof hok as Hh. pose proof (roots_room rs n rok ltac:(lia) [] ltac:(cbn; lia)) as Hroom. clear -Hh Hroom GcClient0.
    destruct gs as [s|]; cbn in *.
    + eapply (gc_frames _ _ _); [exact Hh|exact Hroom|]. intros r Hr. left. by apply (subseteq_drop k wasm).
    + destruct Hh as (_ & -> & Hl & Hk). split_and!; [done|done|done|by apply Forall_drop].
  - intros Hheaped. destruct (rw_none _ _ _ _ _ _ _ _ _ _ Hrel Hheaped) as (Hv & Hm & Hnil). cbn. rewrite Hnil. by rewrite drop_nil.
Qed.

Lemma step_collect : simulates E a RGc n.
Proof using GcClient0 Hrel Hn.
  clear Hheap. unfold simulates. exists true. cbn [run_root_op code_root_op spec_root_op e_wasm].
  destruct gs_cases as [(s & Hgs & Hheaped & Hh0)|(Hgs & Hheaped & Hh0)]; rewrite Hgs.
  - assert (Hlen : Z.of_nat (length wasm) <= n) by (destruct pre as [_ _ -> _ Hl _ _]; by rewrite length_map).
    destruct (wp_run _ _ _ (store_collect_ok oc min_cap new_heap at_ rs n rok ltac:(lia) s id wasm g Hh0 Hlen))
      as (y & st & Hm & -> & s' & -> & Hh'). rewrite (call_run _ _ _ _ _ Hm).
    eexists _, _, _. split_and!; [done|done|done|]. apply rel_same; [exact Hh'|by rewrite Hgs].
  - eexists _, _, _. split_and!; [done|done|done|]. apply rel_same; [exact Hh0|by rewrite Hgs].
Qed.

Lemma step_libcall : simulates E a RLibcallGc n.
Proof using GcClient0 Hrel Hn.
  clear Hheap. unfold simulates. exists true. cbn [run_root_op code_root_op spec_root_op e_wasm].
  destruct gs_cases as [(s & Hgs & Hheaped & Hh0)|(Hgs & Hheaped & Hh0)]; rewrite Hgs.
  - assert (Hlen : Z.of_nat (length wasm) <= n) by (destruct pre as [_ _ -> _ Hl _ _]; by rewrite length_map).
    destruct (wp_run _ _ _ (collect_keeping_none_ok oc dbg min_cap new_heap at_ rs n rok ltac:(lia) s id wasm g Hh0 Hlen))
      as (y & st & Hm & -> & s' & -> & Hh'). rewrite (call_run _ _ _ _ _ Hm).
    eexists _, _, _. split_and!; [done|done|done|]. apply rel_same; [exact Hh'|by rewrite Hgs].
  - eexists _, _, _. split_and!; [done|done|done|]. apply rel_same; [exact Hh0|by rewrite Hgs].
Qed.
End Ops.

(** The simulation. *)
Lemma root_step_ok e a n o :
  rel e a n -> n + 2 < 2 ^ 30 -> is_Some (code_root_op (heap_failure new_heap) true a o) -> loads_ok dbg o = true -> simulates e a o n.
Proof using GcClient0 Hmin Hheap.
  intros (place & id & gs & rs & hs & scopes & wasm & g & -> & Hrel) Hn Hd Hserved. destruct o.
  - by eapply step_new.
  - by eapply step_new_manual.
  - by eapply step_from_i31.
  - by eapply step_enter.
  - by eapply step_exit.
  - by eapply step_to_manual.
  - by eapply step_clone_manual.
  - by eapply step_unroot.
  - by eapply step_to_rooted.
  - by eapply step_into_rooted.
  - by eapply step_data.
  - by eapply step_set_data.
  - by eapply step_as_i31.
  - by eapply step_ref_eq.
  - by eapply step_to_raw.
  - by eapply step_from_raw.
  - by eapply step_load_manual.
  - by eapply step_load_null.
  - by eapply step_return.
  - by eapply step_collect.
  - by eapply step_libcall.
Qed.
End Step.
