(* ===== verification/RootRun.v ===== *)
(** * Programs that use handles

    The rooting interface over the collector of [Drc]: an embedder starts with a new
    store and uses handles as a program can, enters and leaves scopes, passes references
    to compiled code and back, and asks for collections.  The theorems say that every
    operation answers what [RootSpec] promises, that a handle keeps its object until it
    ends and is refused afterwards, and where the code differs from its documentation. *)

From Stdlib Require Import ZArith Lia.
From stdpp Require Import base list gmap numbers option sets sorting.
From S2P Require Import Prelude MemoryTypes Mappings LinearMemory Slab GcFreeList GcRef Drc GcStore Rooting RootHeap RootOps RootSpec RootRel RootStep.
Open Scope Z_scope.

#[export] Instance LayoutError_eq : EqDecision LayoutError.
Proof. solve_decision. Defined.
#[export] Instance gc_error_eq : EqDecision gc_error.
Proof. solve_decision. Defined.
#[export] Instance root_error_eq `{!EqDecision T} : EqDecision (root_error T).
Proof. solve_decision. Defined.
#[export] Instance root_result_eq `{!EqDecision T} : EqDecision (root_result T).
Proof. solve_decision. Defined.
#[export] Instance outcome_eq `{!EqDecision E, !EqDecision A} : EqDecision (outcome E A).
Proof. solve_decision. Defined.

Section Programs.
  Context {T : Type} (hp : Z) (oc dbg : bool) (min_cap : Z) (order : gset Z -> list Z) (sys : os).
#[local] Instance programs_heap : GcHeap T DrcHeap := DrcHeap_GcHeap oc dbg order.

(** The on-demand allocator makes a heap of the default size. *)
Definition on_demand_heap : outcome (root_error T) DrcHeap :=
  map_err (fun _ => HeapNotAllocated) (drc_new hp dbg sys).

Abbreviation run := (run_root_op oc dbg min_cap on_demand_heap).
Abbreviation spec := (spec_root_op (heap_failure on_demand_heap)).
Abbreviation code := (code_root_op (heap_failure on_demand_heap)).

(** What [n] operations on a new store can lead to, with the state of the specification
    that goes with it. *)
Inductive reached (id : Z) : embedder T DrcHeap -> aroots T -> nat -> Prop :=
| reached_start : reached id (e_fresh id) a_fresh 0
| reached_step e a n o room e' a' x :
    reached id e a n -> Z.of_nat n < 2 ^ 28 -> loads_ok dbg o = true ->
    run e o = Some (e', x) -> code room a o = Some (a', x) -> reached id e' a' (S n).

(** What operations that are served as documented can lead to. *)
Inductive promised (id : Z) : embedder T DrcHeap -> aroots T -> nat -> Prop :=
| promised_start : promised id (e_fresh id) a_fresh 0
| promised_step e a n o room e' a' x :
    promised id e a n -> Z.of_nat n < 2 ^ 28 -> served dbg a o = true ->
    run e o = Some (e', x) -> spec room a o = Some (a', x) -> promised id e' a' (S n).

(** What more operations lead to. *)
Inductive continues e a n : embedder T DrcHeap -> aroots T -> nat -> Prop :=
| continues_here : continues e a n e a n
| continues_step e1 a1 n1 o room e2 a2 x :
    continues e a n e1 a1 n1 -> Z.of_nat n1 < 2 ^ 28 -> loads_ok dbg o = true ->
    run e1 o = Some (e2, x) -> code room a1 o = Some (a2, x) ->
    continues e a n e2 a2 (S n1).

Context (Hmin : min_cap <= 2 ^ 31) (Horder : forall X, order X ≡ₚ elements X) (k : Z) (Hk : 0 <= k) (Hhp : hp = 2 ^ k).

Lemma on_demand_total : on_demand_heap <> Panic.
Proof using Hk Hhp.
  clear Hmin Horder. assert (0 < hp) by (rewrite Hhp; apply Z.pow_pos_nonneg; lia).
  unfold on_demand_heap, drc_new, drc_with_capacity, with_at_least.
  rewrite (round_up_ok hp dbg DEFAULT_GC_HEAP_CAPACITY k) by (done || unfold DEFAULT_GC_HEAP_CAPACITY; cbn; lia).
  destruct (_ <? _); [|done]. cbn [mbind outcome_bind].
  destruct (rounded_bounds hp DEFAULT_GC_HEAP_CAPACITY) as [_ Hr]; [done|]. unfold accessible_reserved.
  rewrite Z.leb_refl, multiple_true by done. cbn [assert_ mbind outcome_bind].
  destruct (_ =? 0); [done|]. destruct (os_reserve _ _); [|done]. by rewrite Z.eqb_refl.
Qed.

#[local] Instance programs_client : GcClient oc min_cap on_demand_heap (client hp oc dbg min_cap order).
Proof using Hmin Horder Hk Hhp.
  apply (collector_client hp oc dbg min_cap order Hmin Horder k Hk Hhp). intros h Hh.
  exists sys, DEFAULT_GC_HEAP_CAPACITY. split; [by vm_compute|]. unfold on_demand_heap, drc_new in Hh.
  destruct (drc_with_capacity _ _ _ _); [by injection Hh as ->|done..].
Qed.

(** The answer determines the next state, whether the heap had room or not. *)
Lemma spec_room_det he (a a1 a2 : aroots T) o r1 r2 x :
  code_root_op he r1 a o = Some (a1, x) -> code_root_op he r2 a o = Some (a2, x) -> a1 = a2.
Proof using Type.
  clear. intros H1 H2. destruct o; try (rewrite H1 in H2; by injection H2).
  all: cbn in H1, H2; unfold need_heap in *; destruct (a_heap a); [|destruct he; [by simplify_eq|]]; by destruct r1, r2; simplify_eq.
Qed.

Lemma spec_defined he room (a : aroots T) o y : code_root_op he room a o = Some y -> is_Some (code_root_op he true a o).
Proof using Type. clear. intros Hs. destruct o; by eexists. Qed.

Lemma nothing_alive o : ~ alive (T:=T) a_fresh o.
Proof using Type. clear. intros [(? & ? & [Ho|Ho] & _)|Ho]; cbn in Ho; set_solver. Qed.

Lemma fresh_rel id : rel (T:=T) (client hp oc dbg min_cap order) (e_fresh id) a_fresh 0.
Proof using Type.
  clear Hmin Horder Hk Hhp k. exists (fun _ => 0), id, None, RootSet_default, [], [], [], ∅. split; [done|]. split; [|by split_and!|done|done].
  split; cbn; try done; [|by split; cbn; [apply inv_default|lia..]|].
  - split; cbn; try done; by repeat constructor.
  - split; [intros o []%nothing_alive|intros o o' []%nothing_alive].
Qed.

Lemma reached_rel id e a n : reached id e a n -> rel (client hp oc dbg min_cap order) e a (2 * Z.of_nat n).
Proof using Hmin Horder Hk Hhp.
  induction 1 as [|e a n o room e' a' x _ IH Hn Hserved Hrun Hspec]; [apply fresh_rel|].
  destruct (root_step_ok oc dbg min_cap on_demand_heap _ Hmin on_demand_total e a _ o IH ltac:(lia) (spec_defined _ _ _ _ _ Hspec) Hserved)
    as (room' & e1 & a1 & x1 & Hrun1 & Hspec1 & _ & Hrel). rewrite Hrun in Hrun1. injection Hrun1 as <- <-.
  rewrite (spec_room_det _ _ _ _ _ _ _ _ Hspec Hspec1). by replace (2 * Z.of_nat (S n)) with (2 * Z.of_nat n + 2) by lia.
Qed.

Lemma reached_continues id e a n e' a' n' : reached id e a n -> continues e a n e' a' n' -> reached id e' a' n'.
Proof using Type. intros Hr. induction 1 as [|e1 a1 n1 o room e2 a2 x _ IH Hn Hserved Hrun Hspec]; [done|]. by eapply reached_step. Qed.

Lemma promised_reached id e a n : promised id e a n -> reached id e a n.
Proof using Type.
  induction 1 as [|e a n o room e' a' x _ IH Hn Hserved Hrun Hspec]; [apply reached_start|].
  destruct (served_code (heap_failure on_demand_heap) dbg room a o Hserved) as [Hc Hl]. eapply reached_step; [done|done|done|done|]. by rewrite Hc.
Qed.

(** *** Handles that have ended *)

(** No operation makes a handle that has ended usable again. *)
Lemma ended_stays_ended he room (a a' : aroots T) o x h :
  code_root_op he room a o = Some (a', x) -> (h < length (a_handles a))%nat -> h ∉ a_stack a ->
  (h < length (a_handles a'))%nat /\ h ∉ a_stack a'.
Proof using Type.
  clear. intros Hs Hlt Hout.
  assert (Hpush : forall f t (b : aroots T), a_handles b = a_handles a -> a_stack b = a_stack a ->
    (h < length (a_handles (a_push f t b)))%nat /\ h ∉ a_stack (a_push f t b)).
  { intros f t b Hh Hst. cbn. rewrite Hh, length_app. split; [lia|]. destruct f; rewrite Hst; [|done].
    rewrite list.elem_of_app, list_elem_of_singleton. intros [Hin|Heq]; [done|]. lia. }
  assert (Hneed : forall k, (forall b, a_handles b = a_handles a -> a_stack b = a_stack a ->
      (h < length (a_handles (fst (k b))))%nat /\ h ∉ a_stack (fst (k b))) ->
    (h < length (a_handles (fst (need_heap he a k))))%nat /\ h ∉ a_stack (fst (need_heap he a k))).
  { intros k Hk'. unfold need_heap. destruct (a_heap a); [by apply Hk'|]. destruct he; [done|by apply Hk']. }
  assert (Hfst : forall y, Some y = Some (a', x) -> a' = fst y) by (by intros y [= ->]).
  destruct o; cbn [code_root_op spec_root_op] in Hs; repeat (case_match; try done); try (apply Hfst in Hs; rewrite Hs; cbn [fst]);
    try done; try (apply Hneed; intros b Hb1 Hb2; repeat case_match; cbn [fst]); try by apply Hpush.
  all: try (cbn; rewrite ?Hb1, ?Hb2; done).
  - split; [done|]. intros Hin. apply Hout. cbn in Hin. by eapply subseteq_take.
  - apply bind_Some in Hs as (v & _ & Hs). by apply Hfst in Hs as ->.
Qed.

(** The handles an embedder has are only added to. *)
Lemma call_handles {A} (e e' : embedder T DrcHeap) (m : io (StoreOpaque T DrcHeap) (root_error T) A) c y h x :
  (forall v (b b' : embedder T DrcHeap) r, c v b = (b', r) -> e_handles b !! h = Some x -> e_handles b' !! h = Some x) ->
  call e m c = (e', y) -> e_handles e !! h = Some x -> e_handles e' !! h = Some x.
Proof using Type.
  clear. intros Hc Hr Hx. unfold call in Hr. destruct (m (e_store e)) as [st [v|er|]]; [|by simplify_eq..].
  destruct (c v (with_store st e)) as [b r] eqn:Hcv. injection Hr as <- <-. by eapply Hc.
Qed.

Lemma run_handles e o e' y h x : run e o = Some (e', y) -> e_handles e !! h = Some x -> e_handles e' !! h = Some x.
Proof using Type.
  assert (Hk' : forall v (b b' : embedder T DrcHeap) r ty, got_rooted ty v b = (b', r) -> e_handles b !! h = Some x -> e_handles b' !! h = Some x).
  { intros v b b' r ty [= <- _] Hbx. by apply lookup_old. }
  assert (Hm' : forall v (b b' : embedder T DrcHeap) r ty, got_manual ty v b = (b', r) -> e_handles b !! h = Some x -> e_handles b' !! h = Some x).
  { intros v b b' r ty [= <- _] Hbx. by apply lookup_old. }
  intros Hr Hx. destruct o; cbn [run_root_op] in Hr; repeat (case_match; try done);
    repeat (apply bind_Some in Hr as (? & ? & Hr)); repeat (case_match; try done);
    first [injection Hr as <- _; exact Hx|injection Hr as Hr; eapply call_handles; [|exact Hr|exact Hx]];
    intros v0 b0 b1 r0 Hb Hbx; first [by eapply Hk'|by eapply Hm'|by injection Hb as <- _|idtac].
  all: cbn beta in Hb; destruct v0; [first [by eapply Hk'|by eapply Hm']|by injection Hb as <- _].
Qed.


(** What a scoped handle resolves to: nothing exactly when its scope has ended. *)
Lemma scoped_resolves id e a n h x :
  reached id e a n -> e_handles e !! h = Some x -> h_flavour x = Scoped ->
  (h < length (a_handles a))%nat /\
  (unchecked_get_gc_ref (E:=root_error T) dbg (h_inner x) (e_store e) = Ok None <-> h ∉ a_stack a).
Proof using Hmin Horder Hk Hhp.
  intros Hr Hx Hf. destruct (reached_rel _ _ _ _ Hr) as (place & id' & gs & rs & hs & scopes & wasm & g & -> & Hrel).
  pose proof (rp_s _ _ _ _ _ _ _ _ _ (rw_pre _ _ _ _ _ _ _ _ _ _ _ Hrel)) as Hs. cbn in Hx |- *.
  destruct (Forall2_lookup_l _ _ _ _ _ (rs_handles _ _ _ _ _ Hs) Hx) as ([f t] & Hk' & Hf' & _).
  split; [by eapply lookup_lt_Some|]. rewrite Hf in Hf'. cbn in Hf'. subst f.
  destruct (use_scoped id' _ _ _ _ _ _ gs Hs Hk') as (y & i & Hy & _ & _ & Hi & Hg).
  rewrite Hx in Hy. injection Hy as <-. rewrite (unchecked_lifo_ok dbg _ _ i) by exact Hi.
  rewrite Hg. case_bool_decide; split; done.
Qed.

Lemma ended_continues e a n e' a' n' h x :
  continues e a n e' a' n' -> (h < length (a_handles a))%nat -> h ∉ a_stack a -> e_handles e !! h = Some x ->
  h ∉ a_stack a' /\ e_handles e' !! h = Some x.
Proof using Type.
  intros Hc Hlt Hout Hx. cut ((h < length (a_handles a'))%nat /\ h ∉ a_stack a' /\ e_handles e' !! h = Some x); [tauto|].
  induction Hc as [|e1 a1 n1 o room e2 a2 y _ (IHlt & IHout & IHx) Hn Hserved Hrun Hspec]; [done|].
  destruct (ended_stays_ended _ _ _ _ _ _ h Hspec IHlt IHout). split_and!; [done|done|by eapply run_handles].
Qed.

(** C6: A handle that has ended is never confused with a later one.  If a scoped handle
    no longer resolves, then it never does again, whatever the embedder does with the
    store (up to [2^28] operations): the slot of the root vector it points to is used
    again by other handles, and the generation tells them apart. *)
Theorem ended_handles_stay_ended id e a n e' a' n' h x
    (Hreach : reached id e a n) (Hcont : continues e a n e' a' n')
    (Hx : e_handles e !! h = Some x) (Hf : h_flavour x = Scoped)
    (Hended : unchecked_get_gc_ref (E:=root_error T) dbg (h_inner x) (e_store e) = Ok None) :
  unchecked_get_gc_ref (E:=root_error T) dbg (h_inner x) (e_store e') = Ok None.
Proof using Hmin Horder Hk Hhp.
  destruct (scoped_resolves _ _ _ _ _ _ Hreach Hx Hf) as [Hlt [Hout _]].
  destruct (ended_continues _ _ _ _ _ _ _ _ Hcont Hlt (Hout Hended) Hx) as [Hout' Hx'].
  by apply (scoped_resolves _ _ _ _ _ _ (reached_continues _ _ _ _ _ _ _ Hreach Hcont) Hx' Hf).
Qed.

(** ** Running a program *)

Context `{!EqDecision T}.

(** Runs the operations as long as the code answers what is promised with room in the
    heap. *)
Fixpoint drive e a (ops : list (root_op T)) : option (embedder T DrcHeap * aroots T) :=
  match ops with
  | [] => Some (e, a)
  | o :: ops =>
      match run e o, spec true a o with
      | Some (e', x), Some (a', y) => if decide (x = y) then if served dbg a o then drive e' a' ops else None else None
      | _, _ => None
      end
  end.

Lemma drive_continues ops e a n e1 a1 n1 e2 a2 :
  continues e a n e1 a1 n1 -> drive e1 a1 ops = Some (e2, a2) -> Z.of_nat (n1 + length ops) <= 2 ^ 28 ->
  continues e a n e2 a2 (n1 + length ops).
Proof using Type.
  clear Hmin Horder Hk Hhp k. revert e1 a1 n1. induction ops as [|o ops IH]; cbn [drive length]; intros e1 a1 n1 Hc Hd Hn.
  - injection Hd as <- <-. by rewrite Nat.add_0_r.
  - destruct (run e1 o) as [[e' x]|] eqn:Hrun; [|done]. destruct (spec true a1 o) as [[a' y]|] eqn:Hspec; [|done].
    case_decide as Hxy; [|done]. subst y. destruct (served dbg a1 o) eqn:Hserved; [|done]. rewrite <- Nat.add_succ_comm.
    destruct (served_code (heap_failure on_demand_heap) dbg true a1 o Hserved) as [Hc1 Hl1]. rewrite <- Hc1 in Hspec.
    apply IH with e' a'; [|done|lia]. eapply continues_step; [exact Hc|lia|exact Hl1|exact Hrun|exact Hspec].
Qed.

Lemma drive_promised id ops e a n e2 a2 :
  promised id e a n -> drive e a ops = Some (e2, a2) -> Z.of_nat (n + length ops) <= 2 ^ 28 -> promised id e2 a2 (n + length ops).
Proof using Type.
  clear Hmin Horder Hk Hhp k. revert e a n. induction ops as [|o ops IH]; cbn [drive length]; intros e a n Hp Hd Hn.
  - injection Hd as <- <-. by rewrite Nat.add_0_r.
  - destruct (run e o) as [[e' x]|] eqn:Hrun; [|done]. destruct (spec true a o) as [[a' y]|] eqn:Hspec; [|done].
    case_decide as Hxy; [|done]. subst y. destruct (served dbg a o) eqn:Hserved; [|done]. rewrite <- Nat.add_succ_comm.
    apply IH with e' a'; [|done|lia]. eapply promised_step; [exact Hp|lia|exact Hserved|exact Hrun|exact Hspec].
Qed.
End Programs.

(** ** A program

    An integer is rooted and a scope is entered, in which two objects are made; one of
    them is also rooted by hand and passed to compiled code, and the scope ends. *)

Definition sample_program : list (root_op Z) :=
  [RFromI31 5; REnter; RNew 70; RNew 80; RToManual 2; RToRaw 1; RExit; RGc].

Abbreviation sample_drive := (drive (T:=Z) 4096 true true 4 elements sample_os).
Definition sample_start : embedder Z DrcHeap * aroots Z :=
  from_option id (e_fresh 1, a_fresh) (sample_drive (e_fresh 1) a_fresh sample_program).

(** More objects in the places of those that ended, and a collection when compiled code
    has returned. *)
Definition sample_more : list (root_op Z) := [RNew 90; RNew 100; RReturn 1; RGc; RData 3; RFromI31 6].
Definition sample_end : embedder Z DrcHeap * aroots Z :=
  from_option id (e_fresh 1, a_fresh) (sample_drive (fst sample_start) (snd sample_start) sample_more).

Lemma sample_started : sample_drive (e_fresh 1) a_fresh sample_program = Some sample_start.
Proof. by vm_compute. Qed.
Lemma sample_ended : sample_drive (fst sample_start) (snd sample_start) sample_more = Some sample_end.
Proof. by vm_compute. Qed.
Lemma sample_promised : promised 4096 true true 4 elements sample_os 1 (fst sample_start) (snd sample_start) 8.
Proof.
  apply (drive_promised 4096 true true 4 elements sample_os 1 sample_program (e_fresh 1) a_fresh 0); [apply promised_start| |done].
  rewrite sample_started. by destruct sample_start.
Qed.

Abbreviation sample_run :=
  (run_root_op (GcHeap0:=DrcHeap_GcHeap true true elements) true true 4 (on_demand_heap 4096 true sample_os)).


(** The handle of the scope that ended, when others use its place. *)
Definition sample_handle : root_handle :=
  from_option id {| h_ty := Any; h_flavour := Manual; h_inner := {| ri_store_id := 0; ri_generation := 0; ri_index := 0 |} |}
    (e_handles (fst sample_start) !! 1%nat).

Lemma ended_handles_stay_ended_witness :
  h_ty sample_handle = Extern /\ length (lifo_roots (so_gc_roots (e_store (fst sample_end)))) = 4%nat /\
  unchecked_get_gc_ref (E:=root_error Z) true (h_inner sample_handle) (e_store (fst sample_end)) = Ok None.
Proof.
  split; [by vm_compute|]. split; [by vm_compute|].
  apply (ended_handles_stay_ended (T:=Z) 4096 true true 4 elements sample_os ltac:(lia) (fun X => reflexivity _) 12 ltac:(lia) page_4096
    1 (fst sample_start) (snd sample_start) 8 (fst sample_end) (snd sample_end) (8 + length sample_more) 1 sample_handle
    (promised_reached 4096 true true 4 elements sample_os 1 _ _ 8 sample_promised)).
  - apply (drive_continues 4096 true true 4 elements sample_os sample_more _ _ _ (fst sample_start) (snd sample_start)); [apply continues_here| |done].
    rewrite sample_ended. by destruct sample_end.
  - by vm_compute.
  - by vm_compute.
  - by vm_compute.
Defined.

(** ** Differences from the documentation *)

(** The documentation of [Rooted] says that a handle is unrooted when its scope ends.  A
    scope that ends while the store has no heap, which integers do not need, keeps its
    roots: the handle made in it is usable after the scope and never ends. *)
Example scope_without_heap_keeps_roots :
  (e1 ← fst <$> sample_run (e_fresh 1 : embedder Z DrcHeap) REnter; e2 ← fst <$> sample_run e1 (RFromI31 5); e3 ← fst <$> sample_run e2 RExit;
   snd <$> sample_run e3 (RAsI31 0)) = Some (Ok (RInt (as_i31 (wrapping_u32 5)))) /\
  (a1 ← fst <$> spec_root_op (T:=Z) None true a_fresh REnter; a2 ← fst <$> spec_root_op None true a1 (RFromI31 5);
   a3 ← fst <$> spec_root_op None true a2 RExit; snd <$> spec_root_op None true a3 (RAsI31 0)) = Some (Err Unrooted).
Proof. by vm_compute. Qed.

(** Loading a null reference as an [Option]: the scoped handle is [None], the manual one
    fails an assertion in debug builds. *)
Example null_option_load_asserts {T H} `{!GcHeap T H} oc min_cap (new_heap : outcome (root_error T) H) ty s :
  rooted_load_option true ty 0 s = (s, Ok None) /\
  manual_load_option oc false min_cap new_heap ty 0 s = (s, Ok None) /\
  manual_load_option oc true min_cap new_heap ty 0 s = (s, Panic).
Proof. done. Qed.
